(* ===== verification/_CoqProject ===== *)
-Q . S2P
Prelude.v
Cstr.v
Arrays.v
Codecs.v
RingBuffer.v
Json.v
CJsonNum.v
CJsonParse.v
CJsonPrint.v
CJson.v
MiParse.v
Protocol.v
Regex.v
Expect.v
BootStage.v
Autoresponder.v
Anomaly.v
McpText.v
Effects.v
Ws.v
LinkWq.v
HeapLogic.v
CJsonTree.v
CJsonOps.v
CJsonDup.v
MsgHeap.v
HeapProps.v
Client.v
BrokerState.v
McpResults.v
SerialTcp.v
GdbLink.v
Uart.v
BrokerOps.v
BrokerLink.v
BrokerHandlers.v
BrokerLoop.v
McpTools.v
BrokerDemo.v
BrokerFrame.v
BrokerAuth.v
BrokerClients.v
BrokerDevice.v
BrokerSuspend.v
BrokerStream.v
BrokerVtable.v
BrokerStore.v
BrokerMcp.v
McpLedger.v
McpProps.v
BrokerListen.v
Fds.v
WsThread.v
BrokerLife.v
McpConn.v
McpClient.v
McpClientProps.v
HostPaths.v
Profiles.v
Logs.v
BrokerMain.v
Watcher.v
BrokerNetwork.v
GdbMcp.v
GdbServer.v
Monitor.v
GdbProps.v
MonitorProps.v
BrokerInfo.v
Getopt.v
Cli.v
CliControl.v
CliBoards.v
CliMain.v
CliProps.v
CliDemo.v
BrokerFindings.v
