(* ===== verification/Prelude.v ===== *)
(** * smolmux: a verification library (root file)

    smolmux is a serial-console multiplexer.  One broker process owns a link to
    a device (a UART, a serial-over-TCP server, a GDB process) and lets several
    clients share it: everybody sees the device's output, controllers may write
    to it, one client may take it over, and the broker keeps a history, matches
    expect patterns, watches for anomalies and boot stages, answers prompts by
    rule, floods a key to stop a boot loader, pulses control lines and gives
    the port away (suspend and resume).  Clients talk to it in lines of JSON.

    This library models that broker, from the bytes of the link to the bytes of
    the client sockets, with the links it drives, the MCP server built into it,
    its main program and the programs that connect to it (the command-line
    client, the stand-alone MCP servers for the console and for GDB, the
    interactive monitor, the watcher), and the JSON library they share, and
    proves what makes them correct.  All definitions under the names of the C
    functions are executable translations of [src/src] and [src/deps/cJSON];
    the manifest beside the library maps each of them to its lines.  A file
    that holds several parts opens each with a heading of its own.

    ** The files

    Shared:
    - [Prelude]: bytes, sizes, buffers as lists indexed by [Z] ([ztake],
      [zdrop], [zget], [zlast]), doubles as fixed-point numbers, tactics and
      hints; [Cstr]: C strings, [snprintf], [strtol], and the helpers of
      [util/str.c] and [util/keyspec.c]: escapes, the growing buffer, key names.
    - [Arrays]: circular arrays, as the ring buffer and the write queues use
      them, and removal by swapping with the last element; [Effects]: the
      results of [read] and [write], state passing ([ST]), and the heap of C
      programs ([C]), whose allocations may fail; [Codecs] ([util/base64.c],
      [util/sha1.c]).
    - [Fds]: the table of open descriptors of a process, the faults a process
      can commit with them, and triples ([owns]) that account for them.

    cJSON ([deps/cJSON/cJSON.c]), at two levels:
    - As text and trees: [Json] (trees, the accessors of
      [util/json_helpers.c], the class [JsonText] of a text syntax), [CJsonNum]
      (numbers as C reads and prints them), [CJsonParse], [CJsonPrint] (the
      growing print buffer, every store checked), [CJson] (the round trip, and
      cJSON as an instance of [JsonText]).
    - As linked items in the heap: [CJsonTree] (the operations),
      [HeapLogic] (a separation logic for the heap, an instance of Iris's
      [bi]), [CJsonOps] (which heaps hold which tree, and what each operation
      does to it), [CJsonDup] (the deep copy and the accessors), [MsgHeap]
      (the builders of [protocol.c] on the heap), [HeapProps].

    Components, each with its operations, its invariant and its theorems:
    - [RingBuffer] ([ring_buffer.c]): chunks, eviction, the buffer pool, the
      queries.  Abstract specification: the stream of all bytes ever stored, of
      which the buffer holds the last [max_bytes] ([rb_refines]).
    - [LinkWq] ([links/link_wq.c]): the queue of unsent device bytes.
    - [Protocol] ([protocol.c]): message types, codec, builders; [MiParse]
      ([util/mi_parse.c]): GDB/MI records.
    - [Regex] ([regex_engine.c]): limits, the nested-quantifier check, the time
      budget; the matcher itself (POSIX or PCRE2) is the class [RegexLib]; and
      the sliding window of text that patterns are searched in.
    - [Expect] ([expect.c]), [BootStage] ([boot_stage.c]), [Autoresponder]
      ([autoresponder.c]), [Anomaly] ([anomaly.c]): what watches the output.
    - [Client] ([client.c], [util/shared_line.c]): reading lines, the bounded
      write queue with coalescing, reference-counted shared lines on a heap.
    - [Ws] ([sinks/ws.c]): frames, the handshake, what the thread does with the
      bytes of its clients; [WsThread]: the sink from start to stop, its thread
      and its descriptors.

    The broker ([broker.c]), a state monad over a [world]:
    - [BrokerState]: the record [sm_broker], the link vtable as the class
      [LinkOps], the operating system as the class [SystemEnv] (clocks,
      allocation, timers, sockets, look-ups under /dev/serial), the trace of
      effects, authorisation.
    - [BrokerOps]: fan-out, client registration and removal, writing to the
      device, the deferred break and reset machine, the autoboot flood, the
      boot-stall timer.
    - [BrokerLink]: the receive path, loss of the link, the reconnect schedule,
      suspend and resume, serial identity; history requests and their encoder,
      spread over turns.
    - [BrokerHandlers]: every message handler and the dispatch.
    - [BrokerLoop]: one turn of [sm_broker_run] on an arbitrary list of events,
      housekeeping, shutdown; the inductive [reachable].  What a sink may ask
      of the broker is the inductive [sink_call].
    - [BrokerListen]: how the listening socket gets into its directory, with
      what other processes do there between any two system calls;
      [BrokerLife]: every descriptor from [sm_broker_init] to
      [sm_broker_destroy], with the sinks.
    - [BrokerDemo]: a concrete link, system and matcher for examples and
      witnesses.
    - [BrokerFrame]: reasoning about such programs: what they keep ([keeps]),
      what they preserve ([inv]), and the tactics that walk their syntax; the
      parts of a turn ([turn_part]) and the states between them ([mid_turn]).
    - [BrokerAuth], [BrokerClients], [BrokerDevice], [BrokerSuspend],
      [BrokerStream], [BrokerStore]: the theorems; [BrokerFindings]: places
      where the code does not do what it means to.

    The links, each an instance of [LinkOps]:
    - [SerialTcp] ([links/serial_tcp.c]): raw TCP and telnet with RFC 2217;
      [GdbLink] ([links/gdb.c]): a GDB child and its command guard; [Uart]
      ([links/uart.c]): a tty and its line settings.
    - [BrokerVtable]: what holds of a broker in every execution over such a
      link.

    The MCP sink ([sinks/mcp.c] and its parts), a state monad [P] over the sink
    and the broker's [world]; a broker operation is lifted into it and followed
    by the callbacks it made into the sink:
    - [McpText]: the schemas ([sinks/mcp_schemas.c], those of
      [sinks/mcp_results.c]) with a validator, and the texts
      ([mcp_explain.c], [mcp_instructions.c]); [McpResults]
      ([sinks/mcp_results.c]).
    - [McpTools] ([sinks/mcp.c], [sinks/mcp_tools.c]): the sink's state, output
      buffer, pending calls and callbacks; the tools, the JSON-RPC methods,
      standard input, a turn of the loop with the sink.
    - [BrokerMcp]: the sink is a sink of the broker ([mcp_is_sink]), and
      harmless where it must be; [McpLedger]: the books of its calls;
      [McpProps]: what it returns; runs, witnesses, stranded calls.

    Around the broker:
    - [HostPaths] ([util/sock_util.c], [util/auth_token.c]): socket paths,
      discovery, serial ports and their identity, token files, the processes
      behind a socket; the file system and the environment are the class
      [HostEnv].  [Profiles] ([device_profile.c], [gdb_profile.c],
      [board_manifest.c], [util/profile_resolve.c]).  [Logs] ([text_log.c],
      [io_log.c], [logger.c]).  [BrokerInfo] ([broker_info.c]): asking brokers
      what they are.
    - [BrokerMain] ([sinks/tcp.c], [main.c]): the listener for the network, and
      everything from the options to [sm_broker_run], an outcome that ends the
      program or goes on; [Getopt]: [getopt_long] and the broker's command
      line; [BrokerNetwork]: what they and the broker do together for clients
      of the network.

    The programs in front of the broker's socket, state monads ([ST]) over
    their global variables; the socket, the clocks and the user answer through
    classes or arguments:
    - [McpConn] ([mcp_broker_conn.c]): the connection, requests and waiting.
    - [McpClient] ([mcp_client.c]): the tools, JSON-RPC, connecting, the main
      loop; [McpClientProps]: its theorems (it and the sink in the broker give
      the same history; what it refuses when it is read-only) and runs.
    - [GdbMcp], [GdbServer] ([gdb_mcp.c]): the MI stream, the tools, profiles
      of targets, JSON-RPC, the main loop; [GdbProps].
    - [Monitor] ([monitor.c], [monitor_esc.h], [monitor_crlf.h]): the display,
      event lines, the keyboard; [MonitorProps].  [Watcher] ([watcher.c]): the
      reports of anomalies.
    - The command-line client ([cli.c]): [Cli] (the connection, the waits, the
      commands that ask), [CliControl] (the commands that act, and those that
      watch), [CliBoards] (boards, leftover processes, the command lines
      brokers are started with), [CliMain] (options, dispatch, help),
      [CliProps] (a trace of what it does to the world, its theorems),
      [CliDemo].

    ** State and effects

    The broker runs one handler to completion at a time, so a handler is a
    function on the [world]: the broker's fields, the link's state, the heap of
    shared lines, the chunk pool, a counter that numbers the questions asked of
    the system, and the trace.  The trace records what was written to the
    device, given to a client's queue, logged, shown to a sink; two of its
    events are there for the theorems only: [EvAccept], when a break or reset
    is accepted, and [EvDone], when its completion callback runs.  So are, in
    the other programs, [gd_calls] (what [gdb_write_data] was given and what it
    returned), [ud_asked] (the settings a UART accepted) and [CGot] (the lines
    the command-line client read).  Pointers to
    clients are keys that are never reused.  Everything the code gets from
    outside (bytes read, how much a socket accepts, whether an allocation
    succeeds, the time) is an argument or an answer of [SystemEnv], so the
    theorems hold for all of it; "in every execution" means in every
    [reachable] state, after any number of turns with any events, or, where a
    theorem says so, in every [mid_turn] state between two parts of a turn.

    ** What the theorems show

    - Safety of the device: clients without the right to send cannot reach it
      ([BrokerAuth]); only dtr, rts, break and baud are ever set, and every
      accepted break completes once ([BrokerDevice]); a suspended broker is off
      the wire between any two parts of a turn, except that clients still reach
      the link's control lines, rate and release of a break, and reconnecting
      backs off ([BrokerSuspend]).
    - Delivery: what is read from the link is recorded and sent to every client
      exactly once and in order, a history request gets the stretch of the
      stream it asked for, over the turns of the loop that runs meanwhile
      ([BrokerStream]), as far as allocations succeed; the history is
      append-only and holds the last 2 MiB of what was stored, at most
      ([BrokerStore]), and implements its abstract stream ([RingBuffer]); device
      writes keep their order ([LinkWq]); client input does not depend on how
      it is cut into reads, and shared lines are freed exactly when the last
      queue lets go ([Client]).
    - Integrity of the client table, names, roles and the takeover lock
      ([BrokerClients]).
    - The links: the telnet filter gives exactly the payload of the stream,
      whatever the reads, and what is sent is read back by a telnet server
      ([SerialTcp], [BrokerVtable]); without
      [--gdb-allow-shell], GDB's standard input is made of writes that each
      pass the guard, so that no client reaches a shell except by splitting a
      command over writes ([GdbLink], [BrokerVtable]); what an open UART was
      asked for is raw mode, eight data bits, no parity, and the rate the link
      reports, and the port has what the driver adopted of it, since the link
      does not read it back ([BrokerVtable]).
    - The MCP sink: it is one of the sinks the broker's theorems allow for, an
      observer unless changes are enabled and nobody holds the takeover; every
      call it dispatches is answered or kept as pending, never both, though a
      suspension can strand a pending one ([mcp_suspend_strands]); and its
      structured results have the declared types ([BrokerMcp], [McpLedger],
      [McpProps]).
    - The network: the main program starts no broker that can be reached over
      the network without a token, unless told so, and a client that does not
      present the token reaches nothing ([BrokerNetwork]); the token it
      generates reaches the clients of its user ([BrokerNetwork]), and no token
      is taken from a file others could have made ([HostPaths]); socket paths
      fit their addresses ([HostPaths]).
    - The stand-alone MCP server: it answers no request twice and, while
      its output works, every request it dispatches once; it shows what the
      sink in the broker shows, loses and reorders no message, and writes
      nothing that steers the device unless changes are enabled
      ([McpClientProps], [McpConn]).  That of GDB:
      MI output does not depend on how it is cut, a command gets its own
      answer, profiles are written only where they belong and load again
      ([GdbProps]).
    - The monitor shows the device's output and nothing else, with a CR
      before every bare LF while it has the memory for it, and sends exactly
      what is typed up to the quit key ([MonitorProps]); the logs hold the lines of the device and
      the events of the broker ([Logs]); the watcher forgets no anomaly while
      it is connected, makes a file for each of them that it can make, and
      writes only into its directory ([Watcher]).
    - Bounds and exactness of the watchers: expect windows and limits, boot
      progress, anomaly context and incidents, the rate of autoresponder rules.
    - Codecs: base64, SHA-1 against its specification, MI records, WebSocket
      frames, encode and decode of messages; what cJSON prints it reads back,
      and no store of its reader and printer leaves its block ([CJson],
      [CJsonParse]).
    - Memory: each of the 39 builders of messages makes the items of the tree
      it is specified by and nothing else, copies are disjoint and complete, and
      a failed allocation leaves nothing behind ([HeapProps]), except where a
      builder links an item it goes on to drop ([history_response_leaks]).
    - Resources of the broker: its socket is under its name or nowhere,
      as long as others leave the socket itself alone ([BrokerListen]); every descriptor is closed exactly
      once on every path ([BrokerLife]), with the exceptions
      [client_closed_twice] and [ws_stop_without_thread]; [main] ignores a
      failed [sm_broker_init] ([demo_init_failures]).
    - The command-line client: [with-port] hands the port over only after a
      confirmation among the lines it read, and asks for it back; commands
      that observe steer nothing and start nothing; [gc] signals only leftover
      MCP clients ([CliProps]); a broker started for a wire reads back the
      options it was given ([CliBoards]); what a broker says of itself is what
      the client shows ([BrokerInfo]).
    - Errors: inputs the nesting guard, the nested-quantifier check, the
      literal prefilter and the name tables treat differently from what the
      code intends, and defects of the broker, the links and the sinks.

    ** Bounds and fuel

    Loops are structural where the source's are.  [extract_lines], the JSON
    reader, [ws_frames], [interp_scan]
    and [mcp_lines] run on the length of their input plus one, which each step
    reduces, as do [conn_lines], [mon_lines] and the readers of standard input; the MI
    parser has no result when its fuel is used up, and twice the length of the
    line and 2 always suffices ([mi_parse_enough_fuel]);
    waiting loops run on the list of what each poll gives; [client_input] has the source's own limit of 64 rounds,
    [encode_loop] its limit of four chunks, [drain_link_fd] its limit of 16
    reads, [flush_client_queues] one step per client; buffers that grow by
    doubling get a fuel that covers the largest request ([grow_output_enough]
    for the MCP sink's).  cJSON's reader and printer run on the length of the
    text and the size of the tree, within its own limit of 1000 levels.
    Operations that follow links in the heap run on two steps for each object
    of the heap ([walk]); the specifications are total, so the fuel is enough
    whenever the heap holds the tree they speak of.  Sequence numbers, byte counts and queue lengths,
    which the source keeps in 64 bits, are unbounded integers except where the
    code computes with their wrap-around; [int] arguments come from JSON
    numbers clamped as cJSON clamps them.  Times are fixed-point numbers, since
    the code only adds, subtracts, compares and scales them.

    ** Not modelled

    Which events are registered with epoll: the loop is given any events.  What
    termios, [getopt_long]'s own messages and signal handlers do beyond setting
    a flag; usage texts other than that of the command-line client.  The parts
    of cJSON the programs do not call: detaching, inserting and replacing items, references,
    raw items, minifying, comparing, printing into a given buffer.  The
    netlink exchange and the walk over /proc whose answers [HostPaths] is
    given.  In [BrokerLife] the descriptors of the link and of the log files,
    and the interleaving of the WebSocket thread within a turn of the broker's
    loop.  The MCP servers and the command-line client ignore whether a send
    worked; their traces record the attempt.  The C stack: the MI parser
    recurses as deep as its line nests ([mi_nesting_uncounted]).  The PCRE2 variant of
    [regex_engine.c], chosen at build time, differs in the matcher only, which
    is a parameter.

    ** Plan

    The interest registered with epoll, and with it that a pending write is
    always followed by the event that flushes it; the descriptors of the
    links. *)
From Stdlib Require Export ZArith Lia Ascii String Bool.
From stdpp Require Export base numbers list strings option relations.

#[global] Open Scope Z_scope.
#[global] Open Scope list_scope.
#[global] Set Default Goal Selector "!".

(** ** Machine integers and bytes

    A [uint8_t] is a [Z] in [0, 256); a buffer of bytes is a list of them.
    Sizes ([size_t]) and sequence numbers ([uint64_t]) are kept as [Z] too,
    with the wrap-around written out where the code can reach it. *)

Abbreviation byte := Z (only parsing).
Abbreviation bytes := (list Z) (only parsing).

Definition u8 (z : Z) : Z := z mod 256.
Definition u32 (z : Z) : Z := z mod 4294967296.
Definition u64 (z : Z) : Z := z mod 18446744073709551616.

Definition is_byte (b : Z) : Prop := 0 <= b < 256.
Definition is_byteb (b : Z) : bool := (0 <=? b) && (b <? 256).
Abbreviation all_bytes := (Forall is_byte) (only parsing).
Definition all_bytesb (l : bytes) : bool := forallb is_byteb l.

#[export] Instance is_byte_dec b : Decision (is_byte b).
Proof. unfold is_byte. apply _. Defined.

Lemma is_byteb_spec b : is_byteb b = true <-> is_byte b.
Proof. unfold is_byteb, is_byte. rewrite andb_true_iff. lia. Qed.

Lemma u8_byte z : is_byte (u8 z).
Proof. unfold u8, is_byte. apply Z.mod_pos_bound. lia. Qed.

Lemma u8_small z : is_byte z -> u8 z = z.
Proof. intros ?. apply Z.mod_small. assumption. Qed.

(** ** Doubles

    The C code keeps times (and JSON numbers) in [double]s: seconds since an
    epoch.  They are modelled as fixed-point decimals with nine fractional
    digits, so one second is [10^9] and [ms / 1000.0] is exact. *)

Abbreviation double := Z (only parsing).
Definition one_s : double := 1000000000.
Definition dbl_of_int (n : Z) : double := n * one_s.
Definition ms_to_s (ms : Z) : double := ms * 1000000.
Definition s_to_ms (d : double) : Z := Z.quot d 1000000.

(** ** Buffers indexed by [Z] *)

Definition zlen {A} (l : list A) : Z := Z.of_nat (length l).
Definition ztake {A} (n : Z) (l : list A) : list A := take (Z.to_nat n) l.
Definition zdrop {A} (n : Z) (l : list A) : list A := drop (Z.to_nat n) l.
(** The last [n] elements, all of them when there are fewer. *)
Definition zlast {A} (n : Z) (l : list A) : list A := zdrop (zlen l - n) l.
(** [l[i]], defined for in-range indices only. *)
Definition zget {A} (l : list A) (i : Z) : option A :=
  if i <? 0 then None else l !! Z.to_nat i.
(** [l[i]] of a byte buffer whose index is in range by construction. *)
Definition zat (l : bytes) (i : Z) : Z := default 0 (zget l i).
(** [l[i] = x]: outside the buffer nothing is written. *)
Definition zset {A} (i : Z) (x : A) (l : list A) : list A :=
  if i <? 0 then l else <[Z.to_nat i := x]> l.

Section zlists.
Context {A : Type}.
Implicit Types l k : list A.

Lemma zlen_nonneg l : 0 <= zlen l.
Proof. unfold zlen. lia. Qed.

Lemma zlen_nil : zlen (@nil A) = 0.
Proof. reflexivity. Qed.

Lemma zlen_cons x l : zlen (x :: l) = 1 + zlen l.
Proof. unfold zlen. simpl. lia. Qed.

Lemma zlen_app l k : zlen (l ++ k) = zlen l + zlen k.
Proof. unfold zlen. rewrite length_app. lia. Qed.

Lemma zlen_ztake n l : zlen (ztake n l) = Z.max 0 (Z.min n (zlen l)).
Proof. unfold zlen, ztake. rewrite length_take. lia. Qed.

Lemma zlen_zdrop n l : zlen (zdrop n l) = zlen l - Z.max 0 (Z.min n (zlen l)).
Proof. unfold zlen, zdrop. rewrite length_drop. lia. Qed.

Lemma zlen_zlast n l : zlen (zlast n l) = Z.max 0 (Z.min n (zlen l)).
Proof. unfold zlast. rewrite zlen_zdrop. pose proof (zlen_nonneg l). lia. Qed.

Lemma zlen_zset i x l : zlen (zset i x l) = zlen l.
Proof.
  unfold zset, zlen. destruct (i <? 0); [done|]. by rewrite length_insert.
Qed.

Lemma zlen_replicate n (x : A) : zlen (replicate n x) = Z.of_nat n.
Proof. unfold zlen. by rewrite length_replicate. Qed.

Lemma zlen_zero l : zlen l = 0 -> l = [].
Proof. unfold zlen. destruct l; simpl; [done|lia]. Qed.

Lemma zlen_fmap {B} (f : A -> B) l : zlen (map f l) = zlen l.
Proof. unfold zlen. by rewrite length_map. Qed.

Lemma ztake_zdrop n l : ztake n l ++ zdrop n l = l.
Proof. apply take_drop. Qed.

Lemma ztake_all n l : zlen l <= n -> ztake n l = l.
Proof. intros ?. apply take_ge. unfold zlen in *. lia. Qed.

Lemma zdrop_all n l : zlen l <= n -> zdrop n l = [].
Proof. intros ?. apply drop_ge. unfold zlen in *. lia. Qed.

Lemma ztake_neg n l : n <= 0 -> ztake n l = [].
Proof. intros ?. unfold ztake. by replace (Z.to_nat n) with 0%nat by lia. Qed.

Lemma zdrop_neg n l : n <= 0 -> zdrop n l = l.
Proof. intros ?. unfold zdrop. by replace (Z.to_nat n) with 0%nat by lia. Qed.

Lemma zdrop_zdrop n m l : 0 <= n -> 0 <= m -> zdrop n (zdrop m l) = zdrop (m + n) l.
Proof.
  intros. unfold zdrop. rewrite drop_drop. f_equal. lia.
Qed.

Lemma ztake_app_le n l k : n <= zlen l -> ztake n (l ++ k) = ztake n l.
Proof. intros. unfold ztake. apply take_app_le. unfold zlen in *. lia. Qed.

Lemma ztake_app_ge n l k : zlen l <= n -> ztake n (l ++ k) = l ++ ztake (n - zlen l) k.
Proof.
  intros. unfold ztake. rewrite take_app_ge by (unfold zlen in *; lia).
  do 2 f_equal. unfold zlen in *. lia.
Qed.

Lemma zdrop_app_le n l k : n <= zlen l -> zdrop n (l ++ k) = zdrop n l ++ k.
Proof. intros. unfold zdrop. apply drop_app_le. unfold zlen in *. lia. Qed.

Lemma zdrop_app_ge n l k : zlen l <= n -> zdrop n (l ++ k) = zdrop (n - zlen l) k.
Proof.
  intros. unfold zdrop. rewrite drop_app_ge by (unfold zlen in *; lia).
  f_equal. unfold zlen in *. lia.
Qed.

Lemma ztake_ztake n m l : ztake n (ztake m l) = ztake (Z.min n m) l.
Proof. unfold ztake. rewrite take_take. f_equal. lia. Qed.

Lemma ztake_zdrop_comm n m l :
  0 <= n -> 0 <= m -> ztake n (zdrop m l) = zdrop m (ztake (m + n) l).
Proof.
  intros. unfold ztake, zdrop.
  rewrite take_drop_commute. do 2 f_equal. lia.
Qed.

Lemma zlast_all n l : zlen l <= n -> zlast n l = l.
Proof. intros. unfold zlast. apply zdrop_neg. lia. Qed.

Lemma zlast_app_r n l k : n <= zlen k -> zlast n (l ++ k) = zlast n k.
Proof.
  intros. unfold zlast. pose proof (zlen_nonneg l).
  rewrite zlen_app, zdrop_app_ge by lia. f_equal. lia.
Qed.

Lemma zlast_app_l n l k :
  zlen k <= n -> zlast n (l ++ k) = zlast (n - zlen k) l ++ k.
Proof.
  intros. unfold zlast. rewrite zlen_app.
  pose proof (zlen_nonneg l). pose proof (zlen_nonneg k).
  rewrite zdrop_app_le by lia. do 2 f_equal. lia.
Qed.

Lemma zlast_zlast n m l : zlast n (zlast m l) = zlast (Z.min n m) l.
Proof.
  pose proof (zlen_nonneg l).
  destruct (decide (zlen l <= m)).
  { rewrite (zlast_all m) by done. destruct (decide (n <= m)).
    { by rewrite Z.min_l by lia. }
    rewrite Z.min_r by lia. by rewrite !zlast_all by lia. }
  destruct (decide (m < 0)).
  { unfold zlast at 2 3. rewrite !(zdrop_all (zlen l - _) l) by lia.
    unfold zlast, zdrop. apply drop_nil. }
  unfold zlast at 1. rewrite zlen_zlast.
  replace (Z.max 0 (Z.min m (zlen l)) - n) with (m - n) by lia.
  unfold zlast. destruct (decide (n <= m)).
  - rewrite zdrop_zdrop by lia. f_equal. lia.
  - rewrite zdrop_neg by lia. f_equal. lia.
Qed.

(** A sliding window that is fed in two steps holds the tail of the whole
    stream: trimming early loses nothing that trimming late keeps. *)
Lemma zlast_app_zlast n l k : 0 <= n -> zlast n (zlast n l ++ k) = zlast n (l ++ k).
Proof.
  intros. destruct (decide (n <= zlen k)).
  { by rewrite !zlast_app_r by lia. }
  rewrite !zlast_app_l by lia. rewrite zlast_zlast. do 2 f_equal.
  pose proof (zlen_nonneg k). lia.
Qed.

Lemma zlast_suffix n l : zlast n l `suffix_of` l.
Proof. exists (ztake (zlen l - n) l). symmetry. apply ztake_zdrop. Qed.

Lemma Forall_ztake (P : A -> Prop) n l : Forall P l -> Forall P (ztake n l).
Proof. apply Forall_take. Qed.

Lemma Forall_zdrop (P : A -> Prop) n l : Forall P l -> Forall P (zdrop n l).
Proof. apply Forall_drop. Qed.

Lemma zget_lookup l i : 0 <= i -> zget l i = l !! Z.to_nat i.
Proof. intros. unfold zget. by destruct (Z.ltb_spec i 0); [lia|]. Qed.

Lemma zget_Some_lt l i x : zget l i = Some x -> 0 <= i < zlen l.
Proof.
  unfold zget, zlen. destruct (Z.ltb_spec i 0); [done|].
  intros ?%lookup_lt_Some. lia.
Qed.

Lemma zget_is_Some l i : 0 <= i < zlen l -> is_Some (zget l i).
Proof.
  intros. rewrite zget_lookup by lia. apply lookup_lt_is_Some.
  unfold zlen in *. lia.
Qed.

Lemma zget_zset_eq l i x : 0 <= i < zlen l -> zget (zset i x l) i = Some x.
Proof.
  intros. unfold zset, zget. destruct (Z.ltb_spec i 0); [lia|].
  apply list_lookup_insert_eq. unfold zlen in *. lia.
Qed.

Lemma zget_zset_ne l i j x : i <> j -> zget (zset i x l) j = zget l j.
Proof.
  intros. unfold zset, zget. destruct (Z.ltb_spec i 0); [done|].
  destruct (Z.ltb_spec j 0); [done|].
  apply list_lookup_insert_ne. lia.
Qed.

Lemma zget_app_l l k i : i < zlen l -> zget (l ++ k) i = zget l i.
Proof.
  intros. unfold zget. destruct (Z.ltb_spec i 0); [done|].
  apply lookup_app_l. unfold zlen in *. lia.
Qed.

Lemma zget_app_r l k i : zlen l <= i -> zget (l ++ k) i = zget k (i - zlen l).
Proof.
  intros. pose proof (zlen_nonneg l). rewrite !zget_lookup by lia.
  rewrite lookup_app_r by (unfold zlen in *; lia). f_equal.
  unfold zlen in *. lia.
Qed.

Lemma zget_zdrop l n i : 0 <= n -> 0 <= i -> zget (zdrop n l) i = zget l (n + i).
Proof.
  intros. rewrite !zget_lookup by lia. unfold zdrop. rewrite lookup_drop.
  f_equal. lia.
Qed.

Lemma zget_ztake l n i : i < n -> zget (ztake n l) i = zget l i.
Proof.
  intros. unfold zget. destruct (Z.ltb_spec i 0); [done|].
  apply lookup_take_lt. lia.
Qed.

Lemma zget_cons_0 x l : zget (x :: l) 0 = Some x.
Proof. done. Qed.

Lemma zget_cons_S x l i : 0 <= i -> zget (x :: l) (i + 1) = zget l i.
Proof.
  intros. rewrite !zget_lookup by lia.
  by replace (Z.to_nat (i + 1)) with (S (Z.to_nat i)) by lia.
Qed.

Lemma zget_cons_inv x l i y :
  zget (x :: l) i = Some y -> (i = 0 /\ y = x) \/ (0 < i /\ zget l (i - 1) = Some y).
Proof.
  intros H. pose proof (zget_Some_lt _ _ _ H).
  destruct (decide (i = 0)) as [->|]; [left; rewrite zget_cons_0 in H; split; congruence|right].
  split; [lia|]. by rewrite <- (zget_cons_S x), Z.sub_add by lia.
Qed.

Lemma zdrop_zget l i x : zget l i = Some x -> zdrop i l = x :: zdrop (i + 1) l.
Proof.
  intros H. pose proof (zget_Some_lt _ _ _ H).
  rewrite zget_lookup in H by lia. unfold zdrop.
  rewrite (drop_S _ x) by done. do 2 f_equal. lia.
Qed.

Lemma ztake_snoc l i x :
  zget l i = Some x -> ztake (i + 1) l = ztake i l ++ [x].
Proof.
  intros H. pose proof (zget_Some_lt _ _ _ H).
  rewrite zget_lookup in H by lia. unfold ztake.
  replace (Z.to_nat (i + 1)) with (S (Z.to_nat i)) by lia.
  by apply take_S_r.
Qed.
End zlists.

(** [zlia]: rewrite buffer lengths to arithmetic and call [lia]. *)

#[global] Create Rewrite HintDb zlen_db.
#[export] Hint Rewrite @zlen_nil @zlen_cons @zlen_app @zlen_ztake @zlen_zdrop
  @zlen_zlast @zlen_zset @zlen_fmap @zlen_replicate : zlen_db.

Ltac zlen_facts :=
  repeat match goal with
  | |- context [zlen ?l] =>
      lazymatch goal with
      | _ : 0 <= zlen l |- _ => fail
      | _ => pose proof (zlen_nonneg l)
      end
  | _ : context [zlen ?l] |- _ =>
      lazymatch goal with
      | _ : 0 <= zlen l |- _ => fail
      | _ => pose proof (zlen_nonneg l)
      end
  end.

Ltac zsimpl := autorewrite with zlen_db in *.
Ltac zlia := zsimpl; zlen_facts; lia.

(** Case analysis on a boolean comparison the code branches on. *)
Ltac zcase :=
  match goal with
  | |- context [?a <? ?b] => destruct (Z.ltb_spec a b)
  | |- context [?a <=? ?b] => destruct (Z.leb_spec a b)
  | |- context [?a =? ?b] => destruct (Z.eqb_spec a b)
  | |- context [?a >? ?b] => rewrite (Z.gtb_ltb a b)
  | |- context [?a >=? ?b] => rewrite (Z.geb_leb a b)
  end.
Ltac zcase_in H :=
  match type of H with
  | context [?a <? ?b] => destruct (Z.ltb_spec a b)
  | context [?a <=? ?b] => destruct (Z.leb_spec a b)
  | context [?a =? ?b] => destruct (Z.eqb_spec a b)
  | context [?a >? ?b] => rewrite (Z.gtb_ltb a b) in H
  | context [?a >=? ?b] => rewrite (Z.geb_leb a b) in H
  end.

(** ** C strings *)

Definition byte_of_ascii (a : ascii) : Z := Z.of_N (N_of_ascii a).
Definition ascii_of_byte (z : Z) : ascii := ascii_of_N (Z.to_N z).

Fixpoint bytes_of_string (s : string) : bytes :=
  match s with
  | EmptyString => []
  | String a s' => byte_of_ascii a :: bytes_of_string s'
  end.
Fixpoint string_of_bytes (b : bytes) : string :=
  match b with
  | [] => EmptyString
  | z :: b' => String (ascii_of_byte z) (string_of_bytes b')
  end.

(** A character constant of the source. *)
Definition chr (s : string) : Z :=
  match s with String a _ => byte_of_ascii a | EmptyString => 0 end.

(** The bytes a C string function sees: up to the first NUL. *)
Fixpoint cstr (b : bytes) : bytes :=
  match b with
  | [] => []
  | z :: b' => if z =? 0 then [] else z :: cstr b'
  end.

(** [snprintf(buf, n, "%s", s)]: at most [n - 1] characters are kept. *)
Definition snprintf_s (n : nat) (s : string) : string := String.substring 0 (n - 1) s.

(** [strcmp(a, b) == 0]. *)
Definition streq (a b : string) : bool := String.eqb a b.

Lemma streq_spec a b : streq a b = true <-> a = b.
Proof. apply String.eqb_eq. Qed.

Lemma streq_refl a : streq a a = true.
Proof. apply String.eqb_refl. Qed.

Lemma streq_false a b : streq a b = false <-> a <> b.
Proof. apply String.eqb_neq. Qed.

Lemma byte_of_ascii_byte a : is_byte (byte_of_ascii a).
Proof.
  unfold byte_of_ascii, is_byte. pose proof (N_ascii_bounded a). lia.
Qed.

Lemma ascii_of_byte_of_ascii a : ascii_of_byte (byte_of_ascii a) = a.
Proof.
  unfold ascii_of_byte, byte_of_ascii. rewrite N2Z.id. apply ascii_N_embedding.
Qed.

Lemma byte_of_ascii_of_byte z : is_byte z -> byte_of_ascii (ascii_of_byte z) = z.
Proof.
  unfold is_byte, ascii_of_byte, byte_of_ascii. intros.
  rewrite N_ascii_embedding by lia. lia.
Qed.

Lemma string_of_bytes_of_string s : string_of_bytes (bytes_of_string s) = s.
Proof.
  induction s as [|a s IH]; simpl; [done|].
  by rewrite ascii_of_byte_of_ascii, IH.
Qed.

Lemma bytes_of_string_of_bytes b :
  all_bytes b -> bytes_of_string (string_of_bytes b) = b.
Proof.
  induction 1 as [|z b Hz Hb IH]; simpl; [done|].
  by rewrite byte_of_ascii_of_byte, IH.
Qed.

Lemma bytes_of_string_bytes s : all_bytes (bytes_of_string s).
Proof.
  induction s; simpl; constructor; auto using byte_of_ascii_byte.
Qed.

Lemma bytes_of_string_inj s t : bytes_of_string s = bytes_of_string t -> s = t.
Proof.
  intros H. rewrite <- (string_of_bytes_of_string s), H.
  apply string_of_bytes_of_string.
Qed.

Lemma length_bytes_of_string s : length (bytes_of_string s) = String.length s.
Proof. induction s; simpl; congruence. Qed.

Lemma substring_0_length n s :
  String.length (String.substring 0 n s) = Nat.min n (String.length s).
Proof. revert n. induction s; intros [|n]; simpl; auto. Qed.

Lemma snprintf_s_short n s : (String.length s < n)%nat -> snprintf_s n s = s.
Proof.
  unfold snprintf_s. intros H. assert (String.length s <= n - 1)%nat as Hs by lia.
  clear H. revert Hs. generalize (n - 1)%nat as k.
  induction s as [|a s IH]; intros [|k] Hk; simpl in *; try done; [lia|].
  f_equal. apply IH. lia.
Qed.

Lemma snprintf_s_length n s :
  (0 < n)%nat -> (String.length (snprintf_s n s) < n)%nat.
Proof. intros. unfold snprintf_s. rewrite substring_0_length. lia. Qed.

Lemma snprintf_s_idem n s : (0 < n)%nat -> snprintf_s n (snprintf_s n s) = snprintf_s n s.
Proof. intros. apply snprintf_s_short. by apply snprintf_s_length. Qed.

#[export] Instance string_inhabited : Inhabited string := populate EmptyString.

(** ** Bit fields as arithmetic *)

Lemma lor_shiftl_add a b n :
  0 <= n -> 0 <= b < 2 ^ n -> Z.lor (Z.shiftl a n) b = a * 2 ^ n + b.
Proof.
  intros Hn Hb. rewrite Z.shiftl_mul_pow2 by done.
  assert (Z.land (a * 2 ^ n) b = 0) as Hdisj.
  { apply Z.bits_inj'. intros i Hi. rewrite Z.land_spec, Z.bits_0.
    destruct (decide (i < n)).
    - by rewrite Z.mul_pow2_bits_low.
    - destruct (decide (b = 0)) as [->|]; [by rewrite Z.bits_0, andb_false_r|].
      rewrite (Z.bits_above_log2 b), andb_false_r; [done|lia|].
      assert (Z.log2 b < n) by (apply Z.log2_lt_pow2; lia). lia. }
  rewrite <- Z.lxor_lor by done. symmetry. by apply Z.add_nocarry_lxor.
Qed.

Lemma land_mask a n : 0 <= n -> Z.land a (2 ^ n - 1) = a mod 2 ^ n.
Proof.
  intros. rewrite <- Z.land_ones by done. f_equal. rewrite Z.ones_equiv. lia.
Qed.

Lemma shiftr_div a n : 0 <= n -> Z.shiftr a n = a / 2 ^ n.
Proof. intros. by rewrite Z.shiftr_div_pow2. Qed.

(** Turn a goal about [/] and [mod] by constants into linear arithmetic. *)
Ltac zdivmod := Z.to_euclidean_division_equations; lia.

(** [find_index x l]: position of the first [x]. *)
Fixpoint find_index_from (x i : Z) (l : bytes) : option Z :=
  match l with
  | [] => None
  | y :: l' => if x =? y then Some i else find_index_from x (i + 1) l'
  end.
Definition find_index (x : Z) (l : bytes) : option Z := find_index_from x 0 l.

(** All the integers of [0, n), for exhaustive checks over small ranges. *)
Definition zrange (n : nat) : list Z := map Z.of_nat (seq 0 n).

Lemma zrange_In n z : 0 <= z < Z.of_nat n -> In z (zrange n).
Proof.
  intros. apply in_map_iff. exists (Z.to_nat z). split; [lia|].
  apply in_seq. lia.
Qed.

Lemma zrange_forallb n (P : Z -> bool) :
  forallb P (zrange n) = true -> forall z, 0 <= z < Z.of_nat n -> P z = true.
Proof.
  intros H z Hz. rewrite forallb_forall in H. apply H. by apply zrange_In.
Qed.
