(* ===== verification/Cstr.v ===== *)
(** Strings: what the C library does with them, and the helpers of the
    program. *)

(** * The C string library

    What the sources use of [ctype.h], [stdlib.h] and [string.h] in the C
    locale, on byte lists (a C string is the list without its NUL). *)
From S2P Require Import Prelude.

#[local] Open Scope Z_scope.

(** ** Characters *)

Definition isdigit (c : Z) : bool := (48 <=? c) && (c <=? 57).
Definition isupper (c : Z) : bool := (65 <=? c) && (c <=? 90).
Definition islower (c : Z) : bool := (97 <=? c) && (c <=? 122).
Definition isalpha (c : Z) : bool := isupper c || islower c.
Definition isalnum (c : Z) : bool := isalpha c || isdigit c.
Definition isspace (c : Z) : bool := (c =? 32) || ((9 <=? c) && (c <=? 13)).
Definition tolower (c : Z) : Z := if isupper c then c + 32 else c.
Definition toupper (c : Z) : Z := if islower c then c - 32 else c.

(** ** Numbers *)

(** An [int] holds the value modulo [2^32], read as a signed number. *)
Definition i32 (z : Z) : Z := (z + 2147483648) mod 4294967296 - 2147483648.
Definition LONG_MAX : Z := 9223372036854775807.
Definition LONG_MIN : Z := -9223372036854775808.
Definition clamp_long (z : Z) : Z := Z.max LONG_MIN (Z.min LONG_MAX z).

Fixpoint skip_while (f : Z -> bool) (l : bytes) : bytes :=
  match l with c :: l' => if f c then skip_while f l' else l | [] => [] end.
Fixpoint take_while (f : Z -> bool) (l : bytes) : bytes :=
  match l with c :: l' => if f c then c :: take_while f l' else [] | [] => [] end.

Definition digits_value (l : bytes) : Z := fold_left (fun n c => n * 10 + (c - 48)) l 0.

(** [strtol(s, &endp, 10)]: the value and what [endp] points at; without a
    digit [endp] is [s]. *)
Definition strtol10 (s : bytes) : Z * bytes :=
  let s1 := skip_while isspace s in
  let '(neg, s2) := match s1 with
                    | 45 :: t => (true, t) | 43 :: t => (false, t) | _ => (false, s1) end in
  match take_while isdigit s2 with
  | [] => (0, s)
  | ds => (clamp_long (if neg then - digits_value ds else digits_value ds), skip_while isdigit s2)
  end.

Definition atoi (s : bytes) : Z := i32 (fst (strtol10 s)).

(** ** Comparison *)

Definition streqi (a b : bytes) : bool :=
  bool_decide (map tolower a = map tolower b).

(** [strncmp(s, p, strlen(p)) == 0]. *)
Fixpoint starts_with (p s : bytes) : bool :=
  match p, s with
  | [], _ => true
  | x :: p', y :: s' => (x =? y) && starts_with p' s'
  | _, [] => false
  end.

(** [strstr(s, p)]: the suffix that starts at the first occurrence. *)
Fixpoint strstr_from (p s : bytes) : option bytes :=
  if starts_with p s then Some s else
  match s with [] => None | _ :: s' => strstr_from p s' end.

(** [memchr(s, c, len)]: what precedes the first [c] and what follows it. *)
Fixpoint split_at_char (c : Z) (l : bytes) : option (bytes * bytes) :=
  match l with
  | [] => None
  | x :: l' =>
      if x =? c then Some ([], l')
      else match split_at_char c l' with Some (a, b) => Some (x :: a, b) | None => None end
  end.

(** ** Facts *)

Lemma take_skip_while f l : take_while f l ++ skip_while f l = l.
Proof. induction l as [|c l IH]; simpl; [done|]. destruct (f c); simpl; [by rewrite IH|done]. Qed.

Lemma take_while_Forall f l : Forall (fun c => f c = true) (take_while f l).
Proof. induction l as [|c l IH]; simpl; [done|]. destruct (f c) eqn:E; by constructor. Qed.

Lemma skip_while_head f l c t : skip_while f l = c :: t -> f c = false.
Proof. induction l as [|x l IH]; simpl; [done|]. destruct (f x) eqn:E; [done|]. by intros [= -> ->]. Qed.

Lemma skip_while_length f l : (length (skip_while f l) <= length l)%nat.
Proof. induction l as [|c l IH]; simpl; [done|]. destruct (f c); simpl; lia. Qed.

Lemma take_while_all f l k :
  Forall (fun c => f c = true) l -> match k with [] => True | c :: _ => f c = false end ->
  take_while f (l ++ k) = l /\ skip_while f (l ++ k) = k.
Proof.
  intros Hl Hk. induction Hl as [|c l Hc Hl IH]; simpl.
  - destruct k as [|c k]; simpl; [done|]. by rewrite Hk.
  - rewrite Hc. destruct IH as [-> ->]. done.
Qed.

Lemma starts_with_spec p s : starts_with p s = true <-> exists t, s = p ++ t.
Proof.
  revert s. induction p as [|x p IH]; intros s; simpl; [naive_solver|].
  destruct s as [|y s]; [split; [done|intros (t & Ht)]; done|].
  rewrite andb_true_iff, Z.eqb_eq, IH. split.
  - intros [-> (t & ->)]. by exists t.
  - intros (t & [= -> ->]). split; [done|by exists t].
Qed.

Lemma split_at_char_Some c l a b : split_at_char c l = Some (a, b) -> l = a ++ c :: b /\ ~ In c a.
Proof.
  revert a b. induction l as [|x l IH]; intros a b; simpl; [done|].
  destruct (Z.eqb_spec x c) as [->|Hx].
  - intros [= <- <-]. split; [done|intros []].
  - destruct (split_at_char c l) as [[a' b']|]; [|done]. intros [= <- <-].
    destruct (IH a' b' eq_refl) as [-> Hn]. split; [done|]. intros [|]; [done|by apply Hn].
Qed.

Lemma split_at_char_app c a b : ~ In c a -> split_at_char c (a ++ c :: b) = Some (a, b).
Proof.
  induction a as [|x a IH]; simpl; intros Hn; [by rewrite Z.eqb_refl|].
  destruct (Z.eqb_spec x c) as [Hx|Hx]; [tauto|]. rewrite IH; [done|tauto].
Qed.

Lemma split_at_char_None c l : split_at_char c l = None <-> ~ In c l.
Proof.
  induction l as [|x l IH]; simpl; [naive_solver|].
  destruct (Z.eqb_spec x c) as [Hx|Hx]; [subst; split; [discriminate|intros H; exfalso; by apply H; left]|].
  destruct (split_at_char c l) as [[]|].
  - split; [done|]. intros H. assert (~ In c l) as Hn by tauto. by apply IH in Hn.
  - split; [|done]. intros _ [|H]; [done|]. by apply (proj1 IH).
Qed.

(** Which string it is. *)
Ltac streq_cases x :=
  repeat match goal with
  | |- context [streq x ?s] =>
      let H := fresh in destruct (streq x s) eqn:H; [apply streq_spec in H as ->|clear H]
  end.

(** An [int] in range is itself. *)
Lemma i32_small z : -2147483648 <= z < 2147483648 -> i32 z = z.
Proof. intros. unfold i32. rewrite Z.mod_small by lia. lia. Qed.
Lemma i32_range z : -2147483648 <= i32 z < 2147483648.
Proof. unfold i32. pose proof (Z.mod_pos_bound (z + 2147483648) 4294967296 ltac:(lia)). lia. Qed.

Example strtol_examples :
  strtol10 (bytes_of_string " -42x") = (-42, bytes_of_string "x") /\
  strtol10 (bytes_of_string "abc") = (0, bytes_of_string "abc") /\
  fst (strtol10 (bytes_of_string "99999999999999999999")) = LONG_MAX /\
  atoi (bytes_of_string "8N1") = 8.
Proof. vm_compute. done. Qed.

(** * String helpers ([src/util/str.c], [src/util/keyspec.c])

    Backslash escapes, the growable string buffer, and escape-key names. *)

#[local] Open Scope string_scope.
#[local] Open Scope list_scope.
#[local] Open Scope Z_scope.

(** ** Escapes *)

Definition unescape_char (c : Z) : Z :=
  if c =? chr "n" then 10 else if c =? chr "r" then 13 else if c =? chr "t" then 9
  else if c =? chr "0" then 0 else c.

(** At most [out_max] bytes; a backslash at the end stands for itself. *)
Fixpoint sm_str_unescape (s : bytes) (out_max : nat) {struct out_max} : bytes :=
  match out_max, s with
  | O, _ | _, [] => []
  | S n, 92 :: c :: s' => unescape_char c :: sm_str_unescape s' n
  | S n, c :: s' => c :: sm_str_unescape s' n
  end.

(** What a user types for a byte. *)
Definition escape_char (c : Z) : bytes :=
  if c =? 10 then [92; chr "n"] else if c =? 13 then [92; chr "r"] else if c =? 9 then [92; chr "t"]
  else if c =? 0 then [92; chr "0"] else if c =? 92 then [92; 92] else [c].

Lemma unescape_step c s n : sm_str_unescape (escape_char c ++ s) (S n) = c :: sm_str_unescape s n.
Proof.
  unfold escape_char.
  destruct (Z.eqb_spec c 10) as [->|]; [done|]. destruct (Z.eqb_spec c 13) as [->|]; [done|].
  destruct (Z.eqb_spec c 9) as [->|]; [done|]. destruct (Z.eqb_spec c 0) as [->|]; [done|].
  destruct (Z.eqb_spec c 92) as [->|]; [done|]. cbn [app sm_str_unescape].
  destruct c as [|p|p]; try done. repeat (destruct p as [p|p|]; try done).
Qed.

Lemma unescape_escaped data n :
  sm_str_unescape (flat_map escape_char data) n = take n data.
Proof.
  revert n. induction data as [|c data IH]; intros [|n]; try done.
  cbn [flat_map take]. by rewrite unescape_step, IH.
Qed.

Lemma unescape_bounded s n : (length (sm_str_unescape s n) <= n)%nat.
Proof.
  revert s. induction n as [|n IH]; intros s; [done|]. cbn [sm_str_unescape].
  destruct s as [|c s]; [simpl; lia|].
  assert (forall x t, (length (x :: sm_str_unescape t n) <= S n)%nat) as H by (intros x t; simpl; specialize (IH t); lia).
  destruct c as [|p|p]; try apply H. repeat (destruct p as [p|p|]; try apply H).
  destruct s; apply H.
Qed.

(** ** The string buffer *)

(** [sb_data] is [None] before the first allocation; the content is kept
    without its NUL. *)
Record sm_strbuf := mk_sb { sb_data : option bytes; sb_cap : Z }.
Definition sb_text (sb : sm_strbuf) : bytes := default [] (sb_data sb).
Definition sm_strbuf_init : sm_strbuf := mk_sb None 0.
Definition sm_strbuf_destroy (sb : sm_strbuf) : sm_strbuf := mk_sb None 0.
Definition sm_strbuf_steal (sb : sm_strbuf) : option bytes * sm_strbuf := (sb_data sb, mk_sb None 0).

Fixpoint sb_double (fuel : nat) (need cap : Z) : Z :=
  match fuel with
  | O => cap
  | S f => if cap <? need then sb_double f need (cap * 2) else cap
  end.
Definition sm_strbuf_grow (ok : bool) (needed : Z) (sb : sm_strbuf) : option sm_strbuf :=
  let need := zlen (sb_text sb) + needed + 1 in
  let new_cap := sb_double (Z.to_nat need) need (if sb_cap sb =? 0 then 64 else sb_cap sb) in
  if sb_cap sb <? new_cap then
    if ok then Some (mk_sb (Some (sb_text sb)) new_cap) else None
  else Some sb.

Definition sm_strbuf_append (ok : bool) (s : bytes) (sb : sm_strbuf) : sm_strbuf :=
  if zlen s =? 0 then sb else
  match sm_strbuf_grow ok (zlen s) sb with
  | None => sb
  | Some sb => {| sb with sb_data := Some (sb_text sb ++ s) |}
  end.
Definition sm_strbuf_append_str (ok : bool) (s : option bytes) (sb : sm_strbuf) : sm_strbuf :=
  match s with Some s => sm_strbuf_append ok (cstr s) sb | None => sb end.
(** The formatted text. *)
Definition sm_strbuf_printf (ok : bool) (text : bytes) (sb : sm_strbuf) : sm_strbuf :=
  sm_strbuf_append ok text sb.
Definition sm_strbuf_cap (max : Z) (sb : sm_strbuf) : sm_strbuf :=
  match sb_data sb with
  | None => sb
  | Some d => if (max =? 0) || (zlen d <=? max) then sb
              else {| sb with sb_data := Some (zdrop (zlen d - max) d) |}
  end.

(** Content and NUL fit the allocation. *)
Definition sb_ok (sb : sm_strbuf) : Prop :=
  match sb_data sb with None => sb_cap sb = 0 | Some d => zlen d + 1 <= sb_cap sb end.

Lemma sb_double_enough fuel need cap :
  0 < cap -> (Z.to_nat need <= fuel + Z.to_nat cap)%nat -> need <= sb_double fuel need cap /\ cap <= sb_double fuel need cap.
Proof.
  revert cap. induction fuel as [|f IH]; intros cap Hc Hf; simpl; [lia|].
  destruct (Z.ltb_spec cap need); [|lia]. destruct (IH (cap * 2)); lia.
Qed.

Lemma grow_ok ok n sb sb' :
  sb_ok sb -> 0 <= n -> sm_strbuf_grow ok n sb = Some sb' ->
  sb_text sb' = sb_text sb /\ sb_data sb' = Some (sb_text sb) /\ zlen (sb_text sb) + n + 1 <= sb_cap sb'.
Proof.
  unfold sm_strbuf_grow. intros Hs Hn. pose proof (zlen_nonneg (sb_text sb)).
  destruct (sb_double_enough (Z.to_nat (zlen (sb_text sb) + n + 1)) (zlen (sb_text sb) + n + 1)
    (if sb_cap sb =? 0 then 64 else sb_cap sb)) as [H1 H2]; [|lia|].
  { destruct (Z.eqb_spec (sb_cap sb) 0); [lia|]. unfold sb_ok in Hs. destruct (sb_data sb) as [d|]; [|lia].
    pose proof (zlen_nonneg d). lia. }
  destruct (Z.ltb_spec (sb_cap sb) (sb_double (Z.to_nat (zlen (sb_text sb) + n + 1)) (zlen (sb_text sb) + n + 1)
    (if sb_cap sb =? 0 then 64 else sb_cap sb))).
  - destruct ok; [|done]. intros [= <-]. done.
  - intros [= <-]. unfold sb_text, sb_ok in *. destruct (sb_data sb) as [d|]; simpl in *; [|lia].
    split_and!; [done..|]. lia.
Qed.

(** An append that gets its memory appends, one that does not changes nothing;
    the buffer never overflows. *)
Lemma append_spec ok s sb :
  sb_ok sb ->
  let sb' := sm_strbuf_append ok s sb in
  sb_ok sb' /\ (sb_text sb' = sb_text sb ++ s \/ ok = false /\ sb' = sb).
Proof.
  intros Hs. unfold sm_strbuf_append. destruct (Z.eqb_spec (zlen s) 0) as [E|E].
  { apply zlen_zero in E as ->. rewrite app_nil_r. auto. }
  destruct (sm_strbuf_grow ok (zlen s) sb) as [sb1|] eqn:G.
  - destruct (grow_ok _ _ _ _ Hs (zlen_nonneg s) G) as (H1 & H2 & H3). cbn [sb_text sb_data]. unfold sb_ok.
    cbn [sb_data sb_cap]. rewrite H1, zlen_app. split; [lia|]. by left.
  - destruct ok; [|by auto]. unfold sm_strbuf_grow in G. by destruct (_ <? _).
Qed.

Lemma cap_spec max sb :
  sb_ok sb -> 0 < max -> sb_ok (sm_strbuf_cap max sb) /\ sb_text (sm_strbuf_cap max sb) = zlast max (sb_text sb).
Proof.
  unfold sm_strbuf_cap, sb_ok, sb_text. intros Hs Hm. destruct (sb_data sb) as [d|] eqn:E; simpl.
  - destruct (Z.eqb_spec max 0); [lia|]. destruct (Z.leb_spec (zlen d) max) as [Hl|Hl]; cbn [orb]; rewrite ?E; simpl.
    + split; [lia|]. by rewrite zlast_all.
    + split; [|done]. rewrite zlen_zdrop. lia.
  - rewrite E. split; [done|]. by rewrite zlast_all by (change (zlen (@nil Z)) with 0; lia).
Qed.

(** Pieces appended one after the other. *)
Definition sb_pieces (ps : list (bool * bytes)) (sb : sm_strbuf) : sm_strbuf :=
  fold_left (fun sb p => sm_strbuf_append (fst p) (snd p) sb) ps sb.

Lemma strbuf_pieces ps sb :
  sb_ok sb -> Forall (fun p => fst p = true) ps ->
  sb_ok (sb_pieces ps sb) /\ sb_text (sb_pieces ps sb) = sb_text sb ++ mjoin (map snd ps).
Proof.
  intros Hs H. revert sb Hs. induction H as [|[ok s] ps Hok H IH]; intros sb Hs; simpl in *.
  { by rewrite app_nil_r. }
  destruct (append_spec ok s sb Hs) as [H1 [H2|[H2 _]]]; [|congruence].
  destruct (IH _ H1) as [H3 H4]. split; [done|]. rewrite H4, H2. by rewrite <- app_assoc.
Qed.

(** ** Escape keys *)

(** [None] is the error. *)
Definition sm_parse_escape_key (spec : option bytes) : option Z :=
  match spec with
  | None => None
  | Some s =>
      if streqi s (bytes_of_string "esc") then Some 27 else
      match s with
      | [94; c] =>
          if c =? chr "?" then Some 127 else
          let c := toupper c in
          if (64 <=? c) && (c <=? 95) then Some (Z.lxor c 64) else None
      | _ => None
      end
  end.

Definition sm_format_escape_key (ch : Z) (n : nat) : string :=
  snprintf_s n
    (if ch =? 27 then "ESC" else if ch =? 127 then "^?"
     else if ch <? 32 then "Ctrl-" +:+ string_of_bytes [Z.lxor ch 64]
     else string_of_bytes [ch]).

(** Every control character and DEL has a name, and only they do. *)
Lemma escape_key_range s k : sm_parse_escape_key s = Some k -> 0 <= k < 32 \/ k = 127.
Proof.
  unfold sm_parse_escape_key. destruct s as [s|]; [|done].
  destruct (streqi s _); [intros [= <-]; lia|].
  destruct s as [|a [|c [|]]]; try done; destruct a as [|p|p]; try done;
    repeat (destruct p as [p|p|]; try done).
  destruct (c =? chr "?"); [intros [= <-]; lia|]. destruct (Z.leb_spec 64 (toupper c)); [|done].
  destruct (Z.leb_spec (toupper c) 95); [|done]. intros [= <-]. left.
  assert (Hall : forallb (fun x => Z.lxor (64 + x) 64 =? x) (map Z.of_nat (seq 0 32)) = true) by reflexivity.
  rewrite forallb_forall in Hall. specialize (Hall (toupper c - 64)). rewrite Z.eqb_eq in Hall.
  replace (toupper c) with (64 + (toupper c - 64)) by lia. rewrite Hall; [lia|].
  apply in_map_iff. exists (Z.to_nat (toupper c - 64)). split; [lia|]. apply in_seq. lia.
Qed.
