(* ===== verification/Arrays.v ===== *)
(** The two layouts of arrays the program uses: rings, and unordered arrays
    whose removed element the last one replaces. *)

(** * Circular arrays

    The ring buffer, the link write queue and the client write queue all keep a
    queue in a heap array with a [head] index and a [count], addressing slot
    [i] as [(head + i) % capacity].  [circ_view] is the queue such an array
    denotes; the lemmas say what the array operations of the source do to it. *)
From S2P Require Import Prelude.

#[local] Open Scope nat_scope.

Section circ.
Context {A : Type} `{Inhabited A}.
Implicit Types (arr : list A) (x : A).

(** [RB_IDX(rb, i)] and its inlined copies in [link_wq.c] and [client.c]. *)
Definition circ_idx (cap head i : nat) : nat := (head + i) mod cap.

Definition circ_view (arr : list A) (head count : nat) : list A :=
  map (fun i => arr !!! circ_idx (length arr) head i) (seq 0 count).

(** What the three queues keep true of their indices. *)
Definition circ_ok (arr : list A) (head count : nat) : Prop :=
  count <= length arr /\ (head < length arr \/ (length arr = 0 /\ head = 0)).

(** The copy loop of a growing queue: [new[i] = old[(head + i) % cap]], the
    rest zeroed by [calloc]. *)
Definition circ_grow (arr : list A) (head count new_cap : nat) (zero : A) : list A :=
  circ_view arr head count ++ replicate (new_cap - count) zero.

Lemma length_circ_view arr head count : length (circ_view arr head count) = count.
Proof. unfold circ_view. by rewrite length_map, length_seq. Qed.

Lemma circ_view_lookup arr head count i :
  i < count -> circ_view arr head count !! i = Some (arr !!! circ_idx (length arr) head i).
Proof.
  intros. unfold circ_view. rewrite list_lookup_fmap. by rewrite lookup_seq_lt by done.
Qed.

Lemma circ_idx_lt cap head i : 0 < cap -> circ_idx cap head i < cap.
Proof. intros. apply Nat.mod_upper_bound. lia. Qed.

Lemma circ_idx_inj cap head i j :
  i < cap -> j < cap -> circ_idx cap head i = circ_idx cap head j -> i = j.
Proof.
  unfold circ_idx. intros Hi Hj E.
  pose proof (Nat.div_mod_eq (head + i) cap). pose proof (Nat.div_mod_eq (head + j) cap).
  assert (cap * ((head + i) / cap) + (head + j) =
          cap * ((head + j) / cap) + (head + i)) as E2 by lia.
  destruct (Nat.lt_trichotomy ((head + i) / cap) ((head + j) / cap)) as [|[E3|]].
  - nia.
  - rewrite E3 in E2. lia.
  - nia.
Qed.

Lemma circ_idx_0 cap head : head < cap -> circ_idx cap head 0 = head.
Proof. intros. unfold circ_idx. rewrite Nat.add_0_r. by apply Nat.mod_small. Qed.

Lemma circ_idx_succ cap head i :
  circ_idx cap (circ_idx cap head 1) i = circ_idx cap head (S i).
Proof.
  unfold circ_idx. rewrite Nat.Div0.add_mod_idemp_l. f_equal. lia.
Qed.

Lemma circ_view_ext arr arr' head count :
  length arr = length arr' ->
  (forall i, i < count ->
     arr !!! circ_idx (length arr) head i = arr' !!! circ_idx (length arr) head i) ->
  circ_view arr head count = circ_view arr' head count.
Proof.
  intros Hl Hi. unfold circ_view. rewrite <- Hl. apply map_ext_in.
  intros i Hin%in_seq. apply Hi. lia.
Qed.

Lemma circ_view_S arr head count :
  circ_view arr head (S count) =
  circ_view arr head count ++ [arr !!! circ_idx (length arr) head count].
Proof. unfold circ_view. by rewrite seq_S, map_app. Qed.

(** Storing into the slot behind the last element appends. *)
Lemma circ_view_push arr head count x :
  count < length arr ->
  circ_view (<[circ_idx (length arr) head count := x]> arr) head (S count) =
  circ_view arr head count ++ [x].
Proof.
  intros Hc. rewrite circ_view_S, length_insert. f_equal.
  - apply circ_view_ext; [by rewrite length_insert|].
    intros i Hi. rewrite length_insert. rewrite list_lookup_total_insert_ne; [done|].
    intros E%circ_idx_inj; lia.
  - f_equal. apply list_lookup_total_insert_eq. apply circ_idx_lt. lia.
Qed.

(** Overwriting slot [i] of the queue. *)
Lemma circ_view_set arr head count i x :
  count <= length arr -> i < count ->
  circ_view (<[circ_idx (length arr) head i := x]> arr) head count =
  <[i := x]> (circ_view arr head count).
Proof.
  intros Hc Hi. apply list_eq. intros j.
  destruct (decide (j < count)).
  - rewrite circ_view_lookup, length_insert by done.
    destruct (decide (i = j)) as [->|].
    + rewrite list_lookup_insert_eq by (rewrite length_circ_view; lia).
      f_equal. apply list_lookup_total_insert_eq, circ_idx_lt. lia.
    + rewrite list_lookup_insert_ne, circ_view_lookup by done.
      f_equal. rewrite list_lookup_total_insert_ne; [done|].
      intros E%circ_idx_inj; lia.
  - rewrite !lookup_ge_None_2; [done|..];
      rewrite ?length_insert, length_circ_view; lia.
Qed.

(** The head element, and the queue behind it. *)
Lemma circ_view_head arr head count :
  head < length arr -> 0 < count ->
  circ_view arr head count =
  (arr !!! head) :: circ_view arr (circ_idx (length arr) head 1) (count - 1).
Proof.
  intros Hh Hc. destruct count as [|count]; [lia|].
  unfold circ_view. replace (S count - 1) with count by lia.
  cbn [seq map]. rewrite circ_idx_0 by done. f_equal.
  rewrite <- seq_shift, map_map. apply map_ext. intros i.
  by rewrite circ_idx_succ.
Qed.

(** The slot that was freed no longer matters. *)
Lemma circ_view_pop arr head count x :
  count <= length arr -> head < length arr -> 0 < count ->
  circ_view (<[head := x]> arr) (circ_idx (length arr) head 1) (count - 1) =
  circ_view arr (circ_idx (length arr) head 1) (count - 1).
Proof.
  intros Hc Hh Hp. apply circ_view_ext; [by rewrite length_insert|].
  intros i Hi. rewrite length_insert, circ_idx_succ.
  apply list_lookup_total_insert_ne. intros E.
  rewrite <- (circ_idx_0 (length arr) head) in E at 1 by done.
  apply circ_idx_inj in E; lia.
Qed.

Lemma circ_view_grow arr head count new_cap zero :
  count <= new_cap -> 0 < new_cap ->
  circ_view (circ_grow arr head count new_cap zero) 0 count =
  circ_view arr head count.
Proof.
  intros Hc Hn. unfold circ_grow. apply list_eq. intros i.
  destruct (decide (i < count)).
  - rewrite circ_view_lookup by done.
    rewrite length_app, length_circ_view, length_replicate.
    unfold circ_idx. rewrite Nat.add_0_l, Nat.mod_small by lia.
    rewrite lookup_total_app_l by (rewrite length_circ_view; lia).
    symmetry. apply list_lookup_lookup_total_lt. rewrite length_circ_view. lia.
  - rewrite !lookup_ge_None_2; [done|..]; rewrite length_circ_view; lia.
Qed.

Lemma length_circ_grow arr head count new_cap zero :
  count <= new_cap -> length (circ_grow arr head count new_cap zero) = new_cap.
Proof.
  intros. unfold circ_grow.
  rewrite length_app, length_circ_view, length_replicate. lia.
Qed.

Lemma circ_ok_push arr head count x :
  circ_ok arr head count -> count < length arr ->
  circ_ok (<[circ_idx (length arr) head count := x]> arr) head (S count).
Proof. unfold circ_ok. rewrite length_insert. lia. Qed.

Lemma circ_ok_pop arr head count x :
  circ_ok arr head count -> 0 < count ->
  circ_ok (<[head := x]> arr) (circ_idx (length arr) head 1) (count - 1).
Proof.
  unfold circ_ok. rewrite length_insert. intros [? ?] ?. split; [lia|].
  left. apply circ_idx_lt. lia.
Qed.

Lemma circ_ok_grow arr head count new_cap zero :
  count <= new_cap -> 0 < new_cap ->
  circ_ok (circ_grow arr head count new_cap zero) 0 count.
Proof. unfold circ_ok. intros. rewrite length_circ_grow by done. lia. Qed.

Lemma circ_ok_head arr head count :
  circ_ok arr head count -> 0 < count -> head < length arr.
Proof. unfold circ_ok. lia. Qed.

(** The last element of a non-empty queue. *)
Lemma circ_view_last arr head count :
  0 < count ->
  circ_view arr head count =
  circ_view arr head (count - 1) ++
    [arr !!! circ_idx (length arr) head (count - 1)].
Proof.
  intros. rewrite <- circ_view_S. f_equal. lia.
Qed.
End circ.

(** * Unordered arrays

    The expect, autoresponder and client tables remove an element by moving
    the last one into its place.  These are the two loops the code builds on
    that, and what they leave. *)

#[local] Open Scope nat_scope.

Section swap.
Context {A : Type}.
Implicit Types (l : list A) (x : A).

(** [count--; if (i < count) a[i] = a[count];] *)
Definition swap_remove (i : nat) l : list A :=
  match last l with
  | Some y => take (length l - 1) (<[i := y]> l)
  | None => l
  end.

(** Remove every element that satisfies [P]; the index stays where an element
    was moved in.  Fuel: every iteration moves the index or shortens the
    array. *)
Fixpoint remove_loop (fuel : nat) (P : A -> bool) (i : nat) l : list A :=
  match fuel with
  | O => l
  | S f =>
      match l !! i with
      | None => l
      | Some x => if P x then remove_loop f P i (swap_remove i l) else remove_loop f P (S i) l
      end
  end.
Definition remove_if (P : A -> bool) l : list A := remove_loop (length l) P 0 l.

(** The same loop, handing out the removed elements, at most [max] of them. *)
Fixpoint collect_loop (fuel : nat) (P : A -> bool) (i max : nat) l (out : list A) :
    list A * list A :=
  match fuel with
  | O => (out, l)
  | S f =>
      match l !! i with
      | None => (out, l)
      | Some x =>
          if max <=? length out then (out, l)
          else if P x then collect_loop f P i max (swap_remove i l) (out ++ [x])
          else collect_loop f P (S i) max l out
      end
  end.
Definition collect_if (P : A -> bool) (max : nat) l : list A * list A :=
  collect_loop (length l) P 0 max l [].

Lemma swap_remove_split a x b :
  exists b', swap_remove (length a) (a ++ x :: b) = a ++ b' /\ b' ≡ₚ b.
Proof.
  unfold swap_remove. destruct b as [|y b _] using rev_ind.
  - rewrite last_snoc, length_app. simpl. rewrite insert_app_r_alt, Nat.sub_diag by lia. simpl.
    exists []. split; [|done]. rewrite take_app_le by lia. rewrite take_ge, app_nil_r by lia. done.
  - rewrite app_comm_cons, app_assoc, last_snoc. rewrite !length_app. simpl.
    exists (y :: b). split; [|by rewrite Permutation_app_comm].
    rewrite <- app_assoc. rewrite insert_app_r_alt, Nat.sub_diag by lia. simpl.
    rewrite app_comm_cons, app_assoc. rewrite take_app_le, take_ge; [done|..];
      rewrite ?length_app; simpl; lia.
Qed.

Lemma swap_remove_lookup i l x :
  l !! i = Some x ->
  exists b, swap_remove i l = take i l ++ b /\ b ≡ₚ drop (S i) l /\
            l = take i l ++ x :: drop (S i) l /\ i < length l.
Proof.
  intros Hx. pose proof (lookup_lt_Some _ _ _ Hx).
  pose proof (take_drop_middle l i x Hx) as Hl.
  destruct (swap_remove_split (take i l) x (drop (S i) l)) as (b & Hb & Hp).
  rewrite Hl, length_take, Nat.min_l in Hb by lia. by exists b.
Qed.

Lemma swap_remove_Permutation i l x : l !! i = Some x -> x :: swap_remove i l ≡ₚ l.
Proof.
  intros (b & -> & Hp & El & _)%swap_remove_lookup. rewrite El at 2. rewrite Hp. solve_Permutation.
Qed.

Lemma length_swap_remove i l x : l !! i = Some x -> length (swap_remove i l) = length l - 1.
Proof.
  intros (b & -> & Hp & _ & Hi)%swap_remove_lookup.
  rewrite length_app, Hp, length_take, length_drop. lia.
Qed.

Lemma filter_all (P : A -> bool) l : Forall (fun x => P x = true) l -> List.filter P l = l.
Proof. induction 1 as [|x l Hx Hl IH]; simpl; [done|]. by rewrite Hx, IH. Qed.

Lemma filter_Permutation_bool (P : A -> bool) l k :
  l ≡ₚ k -> List.filter P l ≡ₚ List.filter P k.
Proof.
  induction 1 as [|x l k Hp IH|x y l|l k m ? IH1 ? IH2]; simpl; [done|..].
  - destruct (P x); by rewrite IH.
  - destruct (P x), (P y); try done. constructor.
  - by rewrite IH1.
Qed.

Lemma remove_loop_spec fuel (P : A -> bool) i l :
  length l - i <= fuel -> Forall (fun x => negb (P x) = true) (take i l) ->
  remove_loop fuel P i l ≡ₚ List.filter (fun x => negb (P x)) l.
Proof.
  revert i l. induction fuel as [|fuel IH]; intros i l Hf Ha; simpl.
  { rewrite filter_all; [done|]. by rewrite take_ge in Ha by lia. }
  destruct (l !! i) as [x|] eqn:Hx.
  2:{ apply lookup_ge_None in Hx. rewrite filter_all; [done|]. by rewrite take_ge in Ha by lia. }
  destruct (swap_remove_lookup i l x Hx) as (b & Hs & Hp & Hl & Hi).
  destruct (P x) eqn:EP.
  - rewrite IH.
    + set (k := List.filter _ (swap_remove i l)). rewrite Hl. unfold k.
      rewrite Hs, !List.filter_app. simpl. rewrite EP. simpl.
      by rewrite (filter_Permutation_bool _ _ _ Hp).
    + rewrite (length_swap_remove _ _ _ Hx). lia.
    + rewrite Hs, take_app_le, take_ge; [done|..]; rewrite length_take; lia.
  - apply IH; [lia|]. rewrite (take_S_r _ _ _ Hx). apply Forall_app. split; [done|].
    constructor; [by rewrite EP|done].
Qed.

Lemma remove_if_spec (P : A -> bool) l : remove_if P l ≡ₚ List.filter (fun x => negb (P x)) l.
Proof. apply remove_loop_spec; [lia|]. rewrite take_0. constructor. Qed.

Lemma collect_loop_spec fuel (P : A -> bool) i max l out :
  length l - i <= fuel -> Forall (fun x => P x = false) (take i l) ->
  let '(out', rest) := collect_loop fuel P i max l out in
  exists new, out' = out ++ new /\ new ++ rest ≡ₚ l /\ Forall (fun x => P x = true) new /\
    (length out <= max -> length out' <= max) /\
    (length out' < max -> Forall (fun x => P x = false) rest).
Proof.
  revert i l out. induction fuel as [|fuel IH]; intros i l out Hf Ha; simpl.
  { exists []. rewrite app_nil_r. split_and!; try done. intros _.
    by rewrite take_ge in Ha by lia. }
  destruct (l !! i) as [x|] eqn:Hx.
  2:{ apply lookup_ge_None in Hx. exists []. rewrite app_nil_r. split_and!; try done.
      intros _. by rewrite take_ge in Ha by lia. }
  destruct (Nat.leb_spec max (length out)) as [Hm|Hm].
  { exists []. rewrite app_nil_r. split_and!; try done. intros Hlt. lia. }
  destruct (swap_remove_lookup i l x Hx) as (b & Hs & Hp & Hl & Hi).
  destruct (P x) eqn:EP.
  - specialize (IH i (swap_remove i l) (out ++ [x])).
    destruct (collect_loop fuel P i max (swap_remove i l) (out ++ [x])) as [out' rest].
    destruct IH as (new & -> & Hperm & Hall & Hle & Hrest).
    + rewrite (length_swap_remove _ _ _ Hx). lia.
    + rewrite Hs, take_app_le, take_ge; [done|..]; rewrite length_take; lia.
    + exists (x :: new). rewrite <- app_assoc. split_and!; [done| |by constructor| |].
      * simpl. rewrite Hperm, Hs, Hp. by rewrite Permutation_middle, <- Hl.
      * intros _. rewrite app_assoc. apply Hle. rewrite length_app. simpl. lia.
      * rewrite app_assoc. done.
  - apply IH; [lia|]. rewrite (take_S_r _ _ _ Hx). apply Forall_app. split; [done|].
    by constructor.
Qed.

Lemma collect_if_spec (P : A -> bool) max l :
  let '(out, rest) := collect_if P max l in
  out ++ rest ≡ₚ l /\ Forall (fun x => P x = true) out /\ length out <= max /\
  (length out < max -> Forall (fun x => P x = false) rest).
Proof.
  pose proof (collect_loop_spec (length l) P 0 max l []) as H. unfold collect_if.
  destruct (collect_loop _ _ _ _ _ _) as [out rest].
  destruct H as (new & -> & ? & ? & Hle & ?); [lia|rewrite take_0; constructor|].
  simpl in *. split_and!; try done. apply Hle. lia.
Qed.
End swap.
