(* ===== verification/Codecs.v ===== *)
(** The two codecs: Base64, and SHA-1 for the handshake of WebSockets. *)

(** * Base64 codec ([src/src/util/base64.c])

    [sm_base64_encode] and [sm_base64_decode] carry every device byte through
    the JSON protocol.  The encoder's loop over groups of three bytes and the
    decoder's validation and loop over groups of four characters are modelled
    on byte lists; the 24-bit group value is built with the shifts and masks of
    the source. *)
From S2P Require Import Prelude.

(** [b64_table]: the 64 characters of the alphabet, by value. *)
Definition b64_table : bytes :=
  bytes_of_string "ABCDEFGHIJKLMNOPQRSTUVWXYZabcdefghijklmnopqrstuvwxyz0123456789+/".

(** [b64_decode_table]: the inverse, zero for every character it does not
    name (the padding ['='] included). *)
Definition b64_decode_table (c : Z) : Z := default 0 (find_index c b64_table).

Definition b64_pad : Z := chr "=".

(** [b64_table[(v >> sh) & 0x3F]] *)
Definition b64_sym (v sh : Z) : Z := zat b64_table (Z.land (Z.shiftr v sh) 63).

Definition b64_group (a b c : Z) : Z :=
  Z.lor (Z.shiftl a 16) (Z.lor (Z.shiftl b 8) c).

Fixpoint sm_base64_encode (data : bytes) : bytes :=
  match data with
  | a :: b :: c :: rest =>
      let v := b64_group a b c in
      b64_sym v 18 :: b64_sym v 12 :: b64_sym v 6 :: b64_sym v 0
        :: sm_base64_encode rest
  | [a; b] =>
      let v := Z.lor (Z.shiftl a 16) (Z.shiftl b 8) in
      [b64_sym v 18; b64_sym v 12; b64_sym v 6; b64_pad]
  | [a] =>
      let v := Z.shiftl a 16 in
      [b64_sym v 18; b64_sym v 12; b64_pad; b64_pad]
  | [] => []
  end.

Definition is_b64_char (c : Z) : bool :=
  ((chr "A" <=? c) && (c <=? chr "Z")) || ((chr "a" <=? c) && (c <=? chr "z")) ||
  ((chr "0" <=? c) && (c <=? chr "9")) || (c =? chr "+") || (c =? chr "/") ||
  (c =? b64_pad).

(** The validation loop: every character is in the alphabet and the padding
    appears in the last two positions only. [i] is the loop index. *)
Fixpoint b64_valid_from (b64 : bytes) (i b64_len : Z) : bool :=
  match b64 with
  | [] => true
  | c :: rest =>
      if negb (is_b64_char c) then false
      else if (c =? b64_pad) && (i <? b64_len - 2) then false
      else b64_valid_from rest (i + 1) b64_len
  end.

(** The decode loop: three bytes per group, each written only while
    [j < decoded_len]. *)
Fixpoint b64_decode_loop (b64 : bytes) (j decoded_len : Z) : bytes :=
  match b64 with
  | c0 :: c1 :: c2 :: c3 :: rest =>
      let v := Z.lor (Z.shiftl (b64_decode_table c0) 18)
               (Z.lor (Z.shiftl (b64_decode_table c1) 12)
               (Z.lor (Z.shiftl (b64_decode_table c2) 6) (b64_decode_table c3))) in
      let out := ztake (decoded_len - j)
                   [u8 (Z.shiftr v 16); u8 (Z.shiftr v 8); u8 v] in
      out ++ b64_decode_loop rest (j + zlen out) decoded_len
  | _ => []
  end.

Definition b64_pad_count (b64 : bytes) : Z :=
  (if zat b64 (zlen b64 - 1) =? b64_pad then 1 else 0) +
  (if zat b64 (zlen b64 - 2) =? b64_pad then 1 else 0).

Definition sm_base64_decode (b64 : bytes) : option bytes :=
  let b64_len := zlen b64 in
  if b64_len =? 0 then Some []
  else if negb (b64_len mod 4 =? 0) then None
  else if negb (b64_valid_from b64 0 b64_len) then None
  else
    let decoded_len := (b64_len / 4) * 3 - b64_pad_count b64 in
    Some (b64_decode_loop b64 0 decoded_len).

(** ** Facts about one symbol *)

Lemma b64_table_len : zlen b64_table = 64.
Proof. reflexivity. Qed.

Lemma b64_decode_sym k : 0 <= k < 64 -> b64_decode_table (zat b64_table k) = k.
Proof.
  intros Hk. apply Z.eqb_eq.
  apply (zrange_forallb 64 (fun k => b64_decode_table (zat b64_table k) =? k));
    [vm_compute; reflexivity|lia].
Qed.

Lemma b64_sym_char k : 0 <= k < 64 ->
  is_b64_char (zat b64_table k) = true /\ (zat b64_table k =? b64_pad) = false.
Proof.
  intros Hk.
  assert (is_b64_char (zat b64_table k) && negb (zat b64_table k =? b64_pad) = true)
    as H.
  { apply (zrange_forallb 64 (fun k => is_b64_char (zat b64_table k) &&
       negb (zat b64_table k =? b64_pad))); [vm_compute; reflexivity|lia]. }
  apply andb_true_iff in H as [H1 H2]. by rewrite negb_true_iff in H2.
Qed.

Lemma b64_mask_range v sh : 0 <= Z.land (Z.shiftr v sh) 63 < 64.
Proof. rewrite (land_mask _ 6) by lia. apply Z.mod_pos_bound. lia. Qed.

Lemma b64_decode_b64_sym v sh :
  b64_decode_table (b64_sym v sh) = Z.land (Z.shiftr v sh) 63.
Proof. apply b64_decode_sym, b64_mask_range. Qed.

Lemma b64_sym_valid v sh :
  is_b64_char (b64_sym v sh) = true /\ (b64_sym v sh =? b64_pad) = false.
Proof. apply b64_sym_char, b64_mask_range. Qed.

(** The four 6-bit symbols of a 24-bit group put the group together again. *)
Lemma b64_regroup v :
  0 <= v < 2 ^ 24 ->
  Z.lor (Z.shiftl (Z.land (Z.shiftr v 18) 63) 18)
    (Z.lor (Z.shiftl (Z.land (Z.shiftr v 12) 63) 12)
      (Z.lor (Z.shiftl (Z.land (Z.shiftr v 6) 63) 6)
        (Z.land (Z.shiftr v 0) 63))) = v.
Proof.
  intros Hv. rewrite !(land_mask _ 6), !shiftr_div by lia.
  rewrite (lor_shiftl_add _ _ 6) by (try apply Z.mod_pos_bound; lia).
  rewrite (lor_shiftl_add _ _ 12) by zdivmod.
  rewrite (lor_shiftl_add _ _ 18) by zdivmod.
  change (2 ^ 24) with 16777216 in Hv. zdivmod.
Qed.

Lemma b64_group_eq a b c :
  is_byte b -> is_byte c -> b64_group a b c = a * 65536 + b * 256 + c.
Proof.
  unfold is_byte, b64_group. intros. rewrite (lor_shiftl_add b c 8) by lia.
  rewrite (lor_shiftl_add a _ 16) by lia. lia.
Qed.

Lemma b64_bytes_of_group a b c :
  is_byte a -> is_byte b -> is_byte c ->
  [u8 (Z.shiftr (a * 65536 + b * 256 + c) 16);
   u8 (Z.shiftr (a * 65536 + b * 256 + c) 8);
   u8 (a * 65536 + b * 256 + c)] = [a; b; c].
Proof.
  unfold is_byte. intros Ha Hb Hc. unfold u8. rewrite !shiftr_div by lia.
  repeat f_equal; zdivmod.
Qed.

(** ** Induction by groups of three *)

Lemma list3_ind (P : bytes -> Prop) :
  P [] -> (forall a, P [a]) -> (forall a b, P [a; b]) ->
  (forall a b c rest, P rest -> P (a :: b :: c :: rest)) ->
  forall l, P l.
Proof.
  intros H0 H1 H2 H3. fix IH 1.
  intros [|a [|b [|c rest]]]; [apply H0|apply H1|apply H2|apply H3, IH].
Qed.

Lemma zlen_sm_base64_encode data :
  zlen (sm_base64_encode data) = 4 * ((zlen data + 2) / 3).
Proof.
  induction data as [|a|a b|a b c rest IH] using list3_ind; try reflexivity.
  cbn [sm_base64_encode]. zsimpl. rewrite IH. zlen_facts. zdivmod.
Qed.

Lemma b64_valid_encode data i :
  b64_valid_from (sm_base64_encode data) i (i + zlen (sm_base64_encode data)) = true.
Proof.
  revert i. induction data as [|a|a b|a b c rest IH] using list3_ind; intros i;
    [reflexivity|..]; cbn [sm_base64_encode b64_valid_from].
  1,2: repeat match goal with
    | |- context [b64_sym ?v ?sh] =>
        destruct (b64_sym_valid v sh) as [-> ->]; cbn [negb andb]
    end;
    change (is_b64_char b64_pad) with true; rewrite Z.eqb_refl; cbn [negb andb];
    repeat (zcase; [zlia|]); reflexivity.
  repeat match goal with
    | |- context [b64_sym ?v ?sh] =>
        destruct (b64_sym_valid v sh) as [-> ->]; cbn [negb andb]
    end.
  rewrite <- (IH (i + 1 + 1 + 1 + 1)). f_equal. zlia.
Qed.

(** Appending whole groups in front does not change the padding. *)
Lemma zat_app_r l k i : zlen l <= i -> zat (l ++ k) i = zat k (i - zlen l).
Proof. intros. unfold zat. by rewrite zget_app_r. Qed.

Lemma b64_pad_count_app l k : 2 <= zlen k -> b64_pad_count (l ++ k) = b64_pad_count k.
Proof.
  intros. unfold b64_pad_count. rewrite !zlen_app, !zat_app_r by lia.
  by replace (zlen l + zlen k - 1 - zlen l) with (zlen k - 1) by lia;
    replace (zlen l + zlen k - 2 - zlen l) with (zlen k - 2) by lia.
Qed.

Lemma b64_pad_count_4 a b c d :
  b64_pad_count [a; b; c; d] =
  (if d =? b64_pad then 1 else 0) + (if c =? b64_pad then 1 else 0).
Proof. reflexivity. Qed.

Lemma b64_pad_count_encode data :
  b64_pad_count (sm_base64_encode data) = 3 * ((zlen data + 2) / 3) - zlen data.
Proof.
  induction data as [|a|a b|a b c rest IH] using list3_ind; [reflexivity|..].
  - reflexivity.
  - cbn [sm_base64_encode]. rewrite b64_pad_count_4.
    by destruct (b64_sym_valid (Z.lor (Z.shiftl a 16) (Z.shiftl b 8)) 6) as [_ ->].
  - cbn [sm_base64_encode]. set (v := b64_group a b c).
    destruct rest as [|d rest'].
    { cbn [sm_base64_encode]. rewrite b64_pad_count_4.
      destruct (b64_sym_valid v 6) as [_ ->]. by destruct (b64_sym_valid v 0) as [_ ->]. }
    set (k := sm_base64_encode (d :: rest')) in *.
    change (b64_sym v 18 :: b64_sym v 12 :: b64_sym v 6 :: b64_sym v 0 :: k)
      with ([b64_sym v 18; b64_sym v 12; b64_sym v 6; b64_sym v 0] ++ k).
    rewrite b64_pad_count_app; subst k.
    + rewrite IH. zsimpl. zlen_facts. zdivmod.
    + rewrite zlen_sm_base64_encode. zsimpl. zlen_facts. zdivmod.
Qed.

(** ** The decode loop inverts the encoder *)

Lemma b64_decode_loop_encode data :
  all_bytes data -> forall j,
  b64_decode_loop (sm_base64_encode data) j (j + zlen data) = data.
Proof.
  induction data as [|a|a b|a b c rest IH] using list3_ind; intros Hall j; [done|..].
  - apply Forall_cons_1 in Hall as [Hall _].
    cbn [sm_base64_encode b64_decode_loop].
    assert (Z.shiftl a 16 = a * 65536 + 0 * 256 + 0) as Hv
      by (rewrite Z.shiftl_mul_pow2; lia).
    pose proof (b64_bytes_of_group a 0 0 Hall ltac:(red; lia) ltac:(red; lia)) as Hb.
    pose proof (b64_regroup (Z.shiftl a 16) ltac:(unfold is_byte in Hall; lia)) as Hr.
    rewrite !b64_decode_b64_sym. change (b64_decode_table b64_pad) with 0.
    assert (Z.land (Z.shiftr (Z.shiftl a 16) 6) 63 = 0 /\
            Z.land (Z.shiftr (Z.shiftl a 16) 0) 63 = 0) as [E1 E2].
    { rewrite !(land_mask _ 6), !shiftr_div, Hv by lia. split; zdivmod. }
    rewrite E1, E2 in Hr. rewrite Hr, Hv. simpl in Hb. simpl. rewrite Hb.
    replace (j + zlen [a] - j) with 1 by (rewrite zlen_cons, zlen_nil; lia).
    reflexivity.
  - apply Forall_cons_1 in Hall as [Ha Hb]. apply Forall_cons_1 in Hb as [Hb _].
    cbn [sm_base64_encode b64_decode_loop].
    set (v := Z.lor (Z.shiftl a 16) (Z.shiftl b 8)).
    assert (v = a * 65536 + b * 256 + 0) as Hv.
    { unfold v. rewrite (lor_shiftl_add a _ 16); rewrite ?Z.shiftl_mul_pow2;
        unfold is_byte in *; lia. }
    pose proof (b64_bytes_of_group a b 0 Ha Hb ltac:(red; lia)) as Hg.
    pose proof (b64_regroup v ltac:(unfold is_byte in *; lia)) as Hr.
    rewrite !b64_decode_b64_sym. change (b64_decode_table b64_pad) with 0.
    assert (Z.land (Z.shiftr v 0) 63 = 0) as E2.
    { rewrite (land_mask _ 6), shiftr_div, Hv by lia. zdivmod. }
    rewrite E2 in Hr. rewrite Hr, Hv. simpl in Hg. simpl. rewrite Hg.
    replace (j + zlen [a; b] - j) with 2 by (rewrite !zlen_cons, zlen_nil; lia).
    reflexivity.
  - apply Forall_cons_1 in Hall as [Ha Hall]. apply Forall_cons_1 in Hall as [Hb Hall].
    apply Forall_cons_1 in Hall as [Hc Hall].
    cbn [sm_base64_encode b64_decode_loop]. rewrite !b64_decode_b64_sym.
    pose proof (b64_group_eq a b c Hb Hc) as Hg.
    rewrite b64_regroup by (rewrite Hg; unfold is_byte in *; lia).
    rewrite Hg. rewrite (b64_bytes_of_group a b c Ha Hb Hc).
    rewrite (ztake_all _ [a; b; c]) by zlia. cbn [app]. do 3 f_equal.
    etrans; [|apply (IH Hall (j + zlen [a; b; c]))]. f_equal. zlia.
Qed.

Lemma b64_decode_loop_bytes b64 j n : all_bytes (b64_decode_loop b64 j n).
Proof.
  revert j. assert (forall l : bytes, (length l <= length b64)%nat ->
    forall j, all_bytes (b64_decode_loop l j n)) as H; [|by apply H].
  generalize (length b64) as k. induction k as [|k IH]; intros l Hl j.
  { by destruct l; [constructor|simpl in *; lia]. }
  destruct l as [|c0 [|c1 [|c2 [|c3 rest]]]]; try constructor.
  cbn [b64_decode_loop]. apply Forall_app. split.
  - apply Forall_ztake. repeat constructor; apply u8_byte.
  - apply IH. simpl in Hl. lia.
Qed.

(** ** The decoder's acceptance condition *)

Lemma b64_valid_from_spec b64 i n :
  b64_valid_from b64 i n = true <->
  (forall k c, zget b64 k = Some c ->
     is_b64_char c = true /\ (c = b64_pad -> n - 2 <= i + k)).
Proof.
  revert i. induction b64 as [|c rest IH]; intros i; cbn [b64_valid_from].
  { split; [|done]. intros _ k c Hk%zget_Some_lt. zlia. }
  destruct (is_b64_char c) eqn:Hc; cbn [negb].
  2:{ split; [done|]. intros H. destruct (H 0 c); [done|]. congruence. }
  destruct (Z.eqb_spec c b64_pad) as [->|Hne]; [destruct (Z.ltb_spec i (n - 2))|];
    cbn [andb].
  { split; [done|]. intros H'. destruct (H' 0 b64_pad) as [_ H'']; [done|].
    specialize (H'' eq_refl). lia. }
  all: rewrite (IH (i + 1)); split; intros Hall k d Hk.
  1,3: apply zget_cons_inv in Hk as [[-> ->]|[? Hk]]; [split; [done|lia]|];
    destruct (Hall _ _ Hk) as [? H']; split; [done|intros E; specialize (H' E); lia].
  all: pose proof (zget_Some_lt _ _ _ Hk); destruct (Hall (k + 1) d) as [? H'];
    [by rewrite zget_cons_S by lia|];
    split; [done|intros E; specialize (H' E); lia].
Qed.

Lemma zlen_b64_decode_loop b64 j n :
  0 <= j -> zlen b64 mod 4 = 0 -> n <= j + 3 * (zlen b64 / 4) -> j <= n ->
  zlen (b64_decode_loop b64 j n) = n - j.
Proof.
  assert (forall k (l : bytes), (length l <= k)%nat -> forall j, 0 <= j ->
    zlen l mod 4 = 0 -> n <= j + 3 * (zlen l / 4) -> j <= n ->
    zlen (b64_decode_loop l j n) = n - j) as H; [|by intros; eapply H].
  clear. induction k as [|k IH]; intros l Hl j Hj Hm Hn Hle.
  { destruct l; [|simpl in *; lia]. zsimpl. change (0 / 4) with 0 in Hn.
    cbn [b64_decode_loop]. zlia. }
  destruct l as [|c0 [|c1 [|c2 [|c3 rest]]]];
    try (exfalso; revert Hm; zsimpl; zdivmod).
  { zsimpl. change (0 / 4) with 0 in Hn. cbn [b64_decode_loop]. zlia. }
  cbn [b64_decode_loop]. set (o := ztake (n - j) _).
  assert (zlen o = Z.min 3 (n - j)) as Ho.
  { unfold o. rewrite zlen_ztake. zsimpl. lia. }
  rewrite zlen_app, IH; rewrite ?Ho; [lia|simpl in Hl; lia|lia|..].
  - revert Hm. zsimpl. zlen_facts. intros. zdivmod.
  - revert Hn. zsimpl. zlen_facts. intros. zdivmod.
  - lia.
Qed.

Lemma b64_roundtrip data :
  all_bytes data -> sm_base64_decode (sm_base64_encode data) = Some data.
Proof.
  intros Hall. unfold sm_base64_decode.
  rewrite zlen_sm_base64_encode, b64_pad_count_encode.
  destruct (Z.eqb_spec (4 * ((zlen data + 2) / 3)) 0) as [E|E].
  { assert (zlen data = 0) as ->%zlen_zero by (zlen_facts; zdivmod). done. }
  rewrite (proj2 (Z.eqb_eq _ _) (eq_trans (f_equal (fun x => x mod 4)
    (Z.mul_comm 4 _)) (Z.mod_mul _ 4 ltac:(lia)))). cbn [negb].
  pose proof (b64_valid_encode data 0) as Hv.
  rewrite Z.add_0_l, zlen_sm_base64_encode in Hv. rewrite Hv. cbn [negb].
  f_equal. etrans; [|apply (b64_decode_loop_encode data Hall 0)]. f_equal.
  zlen_facts. zdivmod.
Qed.

Lemma b64_sym_byte v sh : is_byte (b64_sym v sh).
Proof.
  unfold b64_sym, is_byte. pose proof (b64_mask_range v sh) as H.
  revert H. generalize (Z.land (Z.shiftr v sh) 63). intros k Hk.
  assert (is_byteb (zat b64_table k) = true) as Hb.
  { apply (zrange_forallb 64 (fun k => is_byteb (zat b64_table k))); [reflexivity|lia]. }
  by apply is_byteb_spec in Hb.
Qed.

Lemma b64_encode_bytes data : all_bytes (sm_base64_encode data).
Proof.
  induction data as [|a|a b|a b c rest IH] using list3_ind; simpl;
    repeat constructor; try apply b64_sym_byte; try done; unfold is_byte; vm_compute;
    split; congruence.
Qed.

(** Base64 round trip. Decoding what [sm_base64_encode] produced returns
    exactly the bytes that were encoded, for every byte string of every
    length, so no device byte is altered by the wire format. *)
Theorem sm_base64_roundtrip data :
  all_bytes data -> sm_base64_decode (sm_base64_encode data) = Some data.
Proof. apply b64_roundtrip. Qed.

Lemma sm_base64_roundtrip_witness :
  sm_base64_decode (sm_base64_encode [0; 255; 104; 105; 10]) = Some [0; 255; 104; 105; 10].
Proof. apply sm_base64_roundtrip. repeat constructor; unfold is_byte; lia. Defined.


(** * SHA-1 ([src/util/sha1.c])

    The hash of the WebSocket handshake, on 32-bit words. *)

#[local] Open Scope list_scope.
#[local] Open Scope Z_scope.

Definition rotl32 (x n : Z) : Z := Z.lor (u32 (Z.shiftl x n)) (Z.shiftr x (32 - n)).

(** [w[i]] for [i < 16]: four bytes of the block. *)
Fixpoint block_words (n : nat) (block : bytes) : list Z :=
  match n, block with
  | S n, b0 :: b1 :: b2 :: b3 :: rest =>
      Z.lor (Z.lor (Z.lor (Z.shiftl b0 24) (Z.shiftl b1 16)) (Z.shiftl b2 8)) b3 :: block_words n rest
  | _, _ => []
  end.

(** The loop for [16 <= i < 80]. *)
Fixpoint schedule (n : nat) (w : list Z) : list Z :=
  match n with
  | O => w
  | S n =>
      let i := zlen w in
      schedule n (w ++ [rotl32 (Z.lxor (Z.lxor (Z.lxor (zat w (i - 3)) (zat w (i - 8)))
                                               (zat w (i - 14))) (zat w (i - 16))) 1])
  end.

Record sha1_state := mk_sha { h0 : Z; h1 : Z; h2 : Z; h3 : Z; h4 : Z }.

Definition round_fk (i b c d : Z) : Z * Z :=
  if i <? 20 then (Z.lor (Z.land b c) (Z.land (Z.lnot b) d), 1518500249)
  else if i <? 40 then (Z.lxor (Z.lxor b c) d, 1859775393)
  else if i <? 60 then (Z.lor (Z.lor (Z.land b c) (Z.land b d)) (Z.land c d), 2400959708)
  else (Z.lxor (Z.lxor b c) d, 3395469782).

Definition sha1_round (s : sha1_state) (i wi : Z) : sha1_state :=
  let '(mk_sha a b c d e) := s in
  let '(f, k) := round_fk i b c d in
  mk_sha (u32 (rotl32 a 5 + f + e + k + wi)) a (rotl32 b 30) c d.

Fixpoint sha1_rounds (i : Z) (w : list Z) (s : sha1_state) : sha1_state :=
  match w with [] => s | wi :: w' => sha1_rounds (i + 1) w' (sha1_round s i wi) end.

Definition sha1_block (st : sha1_state) (block : bytes) : sha1_state :=
  let w := schedule 64 (block_words 16 block) in
  let r := sha1_rounds 0 w st in
  mk_sha (u32 (h0 st + h0 r)) (u32 (h1 st + h1 r)) (u32 (h2 st + h2 r))
         (u32 (h3 st + h3 r)) (u32 (h4 st + h4 r)).

Definition sha1_init : sha1_state := mk_sha 1732584193 4023233417 2562383102 271733878 3285377520.

Definition be_bytes (n : nat) (z : Z) : bytes :=
  map (fun i => u8 (Z.shiftr z (8 * Z.of_nat i))) (rev (seq 0 n)).

(** Whole blocks of the data: the state and what is left. *)
Fixpoint sha1_blocks (fuel : nat) (st : sha1_state) (data : bytes) : sha1_state * bytes :=
  match fuel with
  | O => (st, data)
  | S fuel =>
      if 64 <=? zlen data then sha1_blocks fuel (sha1_block st (ztake 64 data)) (zdrop 64 data)
      else (st, data)
  end.

(** The buffer [pad]: the rest, 0x80, zeros and the length in bits. *)
Definition sha1_pad (rest : bytes) (len : Z) : bytes :=
  let rem := zlen rest + 1 in
  let pad_len := if rem <=? 56 then 64 else 128 in
  rest ++ [128] ++ replicate (Z.to_nat (pad_len - 8 - rem)) 0 ++ be_bytes 8 (u64 (len * 8)).

Definition sm_sha1 (data : bytes) : bytes :=
  let '(st, rest) := sha1_blocks (length data) sha1_init data in
  let pad := sha1_pad rest (zlen data) in
  let st := fst (sha1_blocks 2 st pad) in
  be_bytes 4 (h0 st) ++ be_bytes 4 (h1 st) ++ be_bytes 4 (h2 st) ++ be_bytes 4 (h3 st) ++
  be_bytes 4 (h4 st).

(** ** The standard (RFC 3174) *)

(** The padded message: 0x80, the fewest zeros that leave room for the length,
    and the length in bits. *)
Definition rfc_zeros (len : Z) : Z := (55 - len) mod 64.
Definition rfc_padded (data : bytes) : bytes :=
  data ++ [128] ++ replicate (Z.to_nat (rfc_zeros (zlen data))) 0 ++ be_bytes 8 (u64 (zlen data * 8)).

(** Its blocks of 64 bytes. *)
Fixpoint blocks64 (n : nat) (m : bytes) : list bytes :=
  match n with O => [] | S n => ztake 64 m :: blocks64 n (zdrop 64 m) end.
Definition rfc_blocks (data : bytes) : list bytes :=
  let m := rfc_padded data in blocks64 (Z.to_nat (zlen m / 64)) m.

Definition digest (st : sha1_state) : bytes :=
  be_bytes 4 (h0 st) ++ be_bytes 4 (h1 st) ++ be_bytes 4 (h2 st) ++ be_bytes 4 (h3 st) ++
  be_bytes 4 (h4 st).

Lemma length_be_bytes n z : length (be_bytes n z) = n.
Proof. unfold be_bytes. by rewrite length_map, length_rev, length_seq. Qed.
Lemma zlen_be_bytes n z : zlen (be_bytes n z) = Z.of_nat n.
Proof. unfold zlen. by rewrite length_be_bytes. Qed.

Lemma rfc_padded_length data : zlen (rfc_padded data) mod 64 = 0 /\ 0 < zlen (rfc_padded data).
Proof.
  unfold rfc_padded, rfc_zeros. rewrite !zlen_app, zlen_replicate, zlen_be_bytes.
  pose proof (zlen_nonneg data). pose proof (Z.mod_pos_bound (55 - zlen data) 64 ltac:(lia)).
  change (zlen [128]) with 1. rewrite Z2Nat.id by lia. split; [|lia]. zdivmod.
Qed.

(** Hashing block by block is a fold. *)
Lemma sha1_blocks_fold fuel st data :
  (length data <= 64 * fuel)%nat ->
  sha1_blocks fuel st data =
  (fold_left sha1_block (blocks64 (Z.to_nat (zlen data / 64)) data) st,
   zdrop (64 * (zlen data / 64)) data).
Proof.
  revert st data. induction fuel as [|fuel IH]; intros st data Hl.
  { destruct data; [done|simpl in Hl; lia]. }
  cbn [sha1_blocks]. destruct (Z.leb_spec 64 (zlen data)) as [H|H].
  - rewrite IH by (unfold zdrop, zlen in *; rewrite length_drop; lia).
    rewrite zlen_zdrop, Z.min_l, Z.max_r by lia.
    replace (zlen data / 64) with (1 + (zlen data - 64) / 64) by zdivmod.
    assert (0 <= (zlen data - 64) / 64) by (apply Z.div_pos; lia).
    rewrite Z2Nat.inj_add by lia. cbn [Nat.add blocks64 fold_left]. change (Z.to_nat 1 + ?n)%nat with (S n).
    rewrite zdrop_zdrop by lia. f_equal. f_equal. lia.
  - rewrite Z.div_small by (zlen_facts; lia). simpl. by rewrite zdrop_neg by lia.
Qed.

Lemma blocks64_app n m a b :
  zlen a = 64 * Z.of_nat n -> blocks64 (n + m) (a ++ b) = blocks64 n a ++ blocks64 m b.
Proof.
  revert a. induction n as [|n IH]; intros a Ha.
  { assert (a = []) as -> by (apply zlen_zero; lia). done. }
  cbn [Nat.add blocks64 app]. rewrite ztake_app_le, zdrop_app_le by lia. f_equal. apply IH.
  rewrite zlen_zdrop. lia.
Qed.

(** The padding buffer is the end of the padded message. *)
Lemma sha1_pad_rfc data :
  let k := 64 * (zlen data / 64) in
  ztake k data ++ sha1_pad (zdrop k data) (zlen data) = rfc_padded data /\
  (zlen (sha1_pad (zdrop k data) (zlen data)) = 64 \/ zlen (sha1_pad (zdrop k data) (zlen data)) = 128).
Proof.
  intros k. pose proof (zlen_nonneg data). unfold sha1_pad, rfc_padded.
  assert (zlen (zdrop k data) = zlen data mod 64) as Hr.
  { rewrite zlen_zdrop. unfold k. zdivmod. }
  rewrite Hr. split.
  - rewrite app_assoc, ztake_zdrop. repeat f_equal. unfold rfc_zeros.
    destruct (Z.leb_spec (zlen data mod 64 + 1) 56); zdivmod.
  - rewrite !zlen_app, zlen_replicate, zlen_be_bytes, Hr. change (zlen [128]) with 1.
    pose proof (Z.mod_pos_bound (zlen data) 64 ltac:(lia)).
    destruct (Z.leb_spec (zlen data mod 64 + 1) 56); lia.
Qed.

(** [sm_sha1] is the standard's hash.  For every input, hashing the whole
    blocks in place and then one or two blocks of the padding buffer gives the
    same digest as folding the compression function over the message padded as
    RFC 3174 says; the padded message is a multiple of 64 bytes. *)
Theorem sm_sha1_standard data :
  zlen (rfc_padded data) mod 64 = 0 /\
  sm_sha1 data = digest (fold_left sha1_block (rfc_blocks data) sha1_init).
Proof.
  split; [apply rfc_padded_length|]. unfold sm_sha1. rewrite sha1_blocks_fold by lia.
  destruct (sha1_pad_rfc data) as [Hp Hl]. set (k := 64 * (zlen data / 64)) in *.
  set (pad := sha1_pad (zdrop k data) (zlen data)) in *. cbv zeta.
  rewrite sha1_blocks_fold by (destruct Hl as [Hl|Hl]; unfold zlen in Hl; lia). cbn [fst].
  pose proof (zlen_nonneg data). assert (0 <= zlen data / 64) by (apply Z.div_pos; lia).
  assert (zlen (ztake k data) = k) as Hk by (rewrite zlen_ztake; unfold k; zdivmod).
  assert (blocks64 (Z.to_nat (zlen data / 64)) data = blocks64 (Z.to_nat (zlen data / 64)) (ztake k data)) as ->.
  { rewrite <- (ztake_zdrop k data) at 2.
    rewrite <- (Nat.add_0_r (Z.to_nat (zlen data / 64))) at 1.
    rewrite blocks64_app by (rewrite Hk; unfold k; lia). apply app_nil_r. }
  unfold rfc_blocks. cbv zeta. rewrite <- Hp. rewrite zlen_app, Hk.
  assert (Z.to_nat ((k + zlen pad) / 64) = Z.to_nat (zlen data / 64) + Z.to_nat (zlen pad / 64))%nat as ->.
  { unfold k. rewrite Z.mul_comm, Z.div_add_l by lia. destruct Hl as [-> | ->]; [change (64 / 64) with 1|change (128 / 64) with 2]; lia. }
  rewrite blocks64_app by (rewrite Hk; unfold k; lia). by rewrite fold_left_app.
Qed.

(** The message schedule. *)
Lemma schedule_spec n w :
  16 <= zlen w ->
  zlen (schedule n w) = zlen w + Z.of_nat n /\ w `prefix_of` schedule n w /\
  forall i, zlen w <= i < zlen (schedule n w) ->
    let v := schedule n w in
    zat v i = rotl32 (Z.lxor (Z.lxor (Z.lxor (zat v (i - 3)) (zat v (i - 8)))
                              (zat v (i - 14))) (zat v (i - 16))) 1.
Proof.
  revert w. induction n as [|n IH]; intros w Hw; cbn [schedule].
  { split_and!; [lia|done|lia]. }
  set (x := rotl32 _ 1). destruct (IH (w ++ [x])) as (H1 & H2 & H3); [zlia|].
  rewrite zlen_app in H1, H3. change (zlen [x]) with 1 in *. split_and!.
  - lia.
  - etrans; [|done]. by exists [x].
  - intros i Hi. cbv zeta. destruct (decide (i = zlen w)) as [->|]; [|apply H3; lia].
    destruct H2 as [t Ht]. rewrite Ht. unfold zat.
    rewrite <- !app_assoc. rewrite (zget_app_l w _ (zlen w - 3)), (zget_app_l w _ (zlen w - 8)),
      (zget_app_l w _ (zlen w - 14)), (zget_app_l w _ (zlen w - 16)) by lia.
    rewrite zget_app_r, Z.sub_diag by lia. done.
Qed.

(** The test vectors of RFC 3174 and the empty message. *)
Example sha1_abc :
  sm_sha1 (bytes_of_string "abc") =
  [169; 153; 62; 54; 71; 6; 129; 106; 186; 62; 37; 113; 120; 80; 194; 108; 156; 208; 216; 157].
Proof. by vm_compute. Qed.
Example sha1_two_blocks :
  sm_sha1 (bytes_of_string "abcdbcdecdefdefgefghfghighijhijkijkljklmklmnlmnomnopnopq") =
  [132; 152; 62; 68; 28; 59; 210; 110; 186; 174; 74; 161; 249; 81; 41; 229; 229; 70; 112; 241].
Proof. by vm_compute. Qed.
Example sha1_empty :
  sm_sha1 [] =
  [218; 57; 163; 238; 94; 107; 75; 13; 50; 85; 191; 239; 149; 96; 24; 144; 175; 216; 7; 9].
Proof. by vm_compute. Qed.
