(* ===== verification/RingBuffer.v ===== *)
(** * The history ring buffer ([src/ring_buffer.c])

    A queue of timestamped chunks in a circular array, bounded by
    [max_bytes], with a monotonic byte sequence number.  Chunk buffers are
    recycled through a static pool of at most [SM_RB_POOL_SLOTS] of them.
    Allocation outcomes are arguments of the operations, so the failure
    branches are part of the model. *)
From S2P Require Import Prelude Arrays.

(** ** Data *)

Definition SM_RB_CHUNK_TARGET : Z := 4096.
Definition SM_RB_POOL_SLOTS : nat := 16.

(** A chunk.  [c_data] holds the [len] valid bytes; [c_real] is the size the
    allocation behind [data] really has, which the code does not store (the
    pool may hand out a buffer larger than [alloc]). *)
Record sm_rb_chunk := mk_chunk {
  c_timestamp : double; c_seq_start : Z; c_data : bytes; c_alloc : Z; c_real : Z }.
#[export] Instance chunk_inhabited : Inhabited sm_rb_chunk :=
  populate (mk_chunk 0 0 [] 0 0).
Definition c_len (c : sm_rb_chunk) : Z := zlen (c_data c).
Definition zero_chunk : sm_rb_chunk := mk_chunk 0 0 [] 0 0.

(** The array [chunks] has [capacity] elements: the field is its length. *)
Record sm_ring_buffer := mk_rb {
  rb_chunks : list sm_rb_chunk; rb_head : nat; rb_count : nat;
  rb_total_bytes : Z; rb_max_bytes : Z; rb_total_seq : Z; rb_first_seq : Z }.
Definition rb_capacity (rb : sm_ring_buffer) : nat := length (rb_chunks rb).

Definition RB_IDX (rb : sm_ring_buffer) (i : nat) : nat :=
  circ_idx (rb_capacity rb) (rb_head rb) i.
Definition rb_chunk (rb : sm_ring_buffer) (i : nat) : sm_rb_chunk :=
  rb_chunks rb !!! RB_IDX rb i.
(** The chunks in queue order, as the index loops visit them. *)
Definition rb_view (rb : sm_ring_buffer) : list sm_rb_chunk :=
  circ_view (rb_chunks rb) (rb_head rb) (rb_count rb).

(** A pool slot: the recorded capacity and the real one. *)
Record sm_rb_pool_slot := mk_slot { slot_cap : Z; slot_real : Z }.
Abbreviation rb_pool_t := (list sm_rb_pool_slot) (only parsing).

(** ** The buffer pool *)

Definition rb_pool_release (pool : rb_pool_t) (cap real : Z) : rb_pool_t :=
  if (length pool <? SM_RB_POOL_SLOTS)%nat then pool ++ [mk_slot cap real] else pool.

(** [rb_pool[i] = rb_pool[--rb_pool_count]]. *)
Definition pool_take (pool : rb_pool_t) (i : nat) (last : sm_rb_pool_slot) : rb_pool_t :=
  take (length pool - 1) (<[i := last]> pool).

Fixpoint pool_find (want : Z) (i : nat) (pool : rb_pool_t) : option (nat * sm_rb_pool_slot) :=
  match pool with
  | [] => None
  | s :: pool' => if want <=? slot_cap s then Some (i, s) else pool_find want (S i) pool'
  end.

(** The inner [cap < want] branch of the C code is under [cap >= want] and
    never runs; the buffer found is returned as it is. *)
Definition rb_pool_acquire (malloc_ok : bool) (need : Z) (pool : rb_pool_t) :
    option Z * rb_pool_t :=
  let want := if SM_RB_CHUNK_TARGET <? need then need else SM_RB_CHUNK_TARGET in
  match pool_find want 0 pool with
  | Some (i, s) =>
      (Some (slot_real s), pool_take pool i (List.last pool s))
  | None => (if malloc_ok then Some want else None, pool)
  end.

(** ** Operations *)

Definition sm_rb_init (max : Z) : sm_ring_buffer := mk_rb [] 0 0 0 max 0 0.

Definition sm_rb_destroy (rb : sm_ring_buffer) (pool : rb_pool_t) :
    sm_ring_buffer * rb_pool_t :=
  (mk_rb [] 0 0 0 0 0 0,
   fold_left (fun p c => rb_pool_release p (c_alloc c) (c_real c)) (rb_view rb) pool).

Definition sync_first_seq (rb : sm_ring_buffer) : sm_ring_buffer :=
  {| rb with rb_first_seq :=
       if (rb_count rb =? 0)%nat then rb_total_seq rb
       else c_seq_start (rb_chunks rb !!! rb_head rb) |}.

(** The two branches of the [while] of [evict]: drop the front chunk, or trim
    [excess] bytes off it. *)
Definition evict_pop (rb : sm_ring_buffer) : sm_ring_buffer :=
  let front := rb_chunks rb !!! rb_head rb in
  {| rb with rb_total_bytes := rb_total_bytes rb - c_len front;
             rb_chunks := <[rb_head rb := mk_chunk (c_timestamp front) (c_seq_start front) [] 0 0]>
                            (rb_chunks rb);
             rb_head := ((rb_head rb + 1) mod rb_capacity rb)%nat;
             rb_count := (rb_count rb - 1)%nat |}.

Definition trim_chunk (excess : Z) (c : sm_rb_chunk) : sm_rb_chunk :=
  {| c with c_data := zdrop excess (c_data c); c_seq_start := c_seq_start c + excess |}.

Definition evict_trim (excess : Z) (rb : sm_ring_buffer) : sm_ring_buffer :=
  {| rb with rb_chunks := <[rb_head rb := trim_chunk excess (rb_chunks rb !!! rb_head rb)]>
                            (rb_chunks rb);
             rb_total_bytes := rb_total_bytes rb - excess |}.

(** One iteration. *)
Definition evict_step (rb : sm_ring_buffer) (pool : rb_pool_t) :
    sm_ring_buffer * rb_pool_t :=
  let front := rb_chunks rb !!! rb_head rb in
  let excess := rb_total_bytes rb - rb_max_bytes rb in
  if c_len front <=? excess then
    (sync_first_seq (evict_pop rb), rb_pool_release pool (c_alloc front) (c_real front))
  else
    (sync_first_seq (evict_trim excess rb), pool).

Fixpoint evict_loop (fuel : nat) (rb : sm_ring_buffer) (pool : rb_pool_t) :
    sm_ring_buffer * rb_pool_t :=
  match fuel with
  | O => (rb, pool)
  | S fuel' =>
      if (0 <? rb_count rb)%nat && (rb_max_bytes rb <? rb_total_bytes rb) then
        let '(rb', pool') := evict_step rb pool in evict_loop fuel' rb' pool'
      else (rb, pool)
  end.
(** Every iteration but a last one removes a chunk: [count + 1] is enough. *)
Definition evict (rb : sm_ring_buffer) (pool : rb_pool_t) : sm_ring_buffer * rb_pool_t :=
  evict_loop (S (rb_count rb)) rb pool.

(** [memcpy] behind the last chunk's data, its allocation set to [a]. *)
Definition extend_last (rb : sm_ring_buffer) (data : bytes) (a r : Z) : sm_ring_buffer :=
  let i := RB_IDX rb (rb_count rb - 1) in
  let last := rb_chunks rb !!! i in
  {| rb with rb_chunks := <[i := {| last with c_data := c_data last ++ data;
                                          c_alloc := a; c_real := r |}]> (rb_chunks rb);
             rb_total_bytes := rb_total_bytes rb + zlen data;
             rb_total_seq := rb_total_seq rb + zlen data |}.

(** [chunks] doubled (or 64 slots) and linearised. *)
Definition grow_chunks (rb : sm_ring_buffer) : sm_ring_buffer :=
  let new_cap := if (rb_capacity rb =? 0)%nat then 64%nat else (rb_capacity rb * 2)%nat in
  {| rb with rb_chunks := circ_grow (rb_chunks rb) (rb_head rb) (rb_count rb) new_cap zero_chunk;
             rb_head := 0%nat |}.

Record alloc_ok := mk_ok { realloc_ok : bool; calloc_ok : bool; malloc_ok : bool }.

(** From the [count >= capacity] test on: a chunk of its own for [data].
    The last component tells whether the bytes were stored. *)
Definition append_new (ok : alloc_ok) (rb : sm_ring_buffer) (pool : rb_pool_t)
    (data : bytes) (ts : double) : sm_ring_buffer * rb_pool_t * bool :=
  let full := (rb_capacity rb <=? rb_count rb)%nat in
  if full && negb (calloc_ok ok) then (rb, pool, false) else
  let rb := if full then grow_chunks rb else rb in
  let slot := RB_IDX rb (rb_count rb) in
  let al := if SM_RB_CHUNK_TARGET <? zlen data then zlen data else SM_RB_CHUNK_TARGET in
  match rb_pool_acquire (malloc_ok ok) al pool with
  | (None, pool) =>
      (* [c->data = NULL] is stored into a free slot, whose [data] is NULL *)
      (rb, pool, false)
  | (Some r, pool) =>
      let rb' :=
        {| rb with rb_chunks := <[slot := mk_chunk ts (rb_total_seq rb) data al r]> (rb_chunks rb);
                   rb_count := S (rb_count rb);
                   rb_total_bytes := rb_total_bytes rb + zlen data;
                   rb_total_seq := rb_total_seq rb + zlen data;
                   rb_first_seq := if (S (rb_count rb) =? 1)%nat then rb_total_seq rb
                                else rb_first_seq rb |} in
      (evict rb' pool, true)
  end.

Definition sm_rb_append (ok : alloc_ok) (rb : sm_ring_buffer) (pool : rb_pool_t)
    (data : bytes) (ts : double) : sm_ring_buffer * rb_pool_t * bool :=
  if zlen data =? 0 then (rb, pool, true) else
  let last := rb_chunk rb (rb_count rb - 1) in
  let same := (0 <? rb_count rb)%nat && (c_timestamp last =? ts) &&
              (c_len last <? SM_RB_CHUNK_TARGET) in
  if same && (c_len last + zlen data <=? c_alloc last) then
    (evict (extend_last rb data (c_alloc last) (c_real last)) pool, true)
  else if same && (c_len last + zlen data <=? SM_RB_CHUNK_TARGET) && realloc_ok ok then
    let n := c_len last + zlen data in
    (evict (extend_last rb data n n) pool, true)
  else append_new ok rb pool data ts.

(** ** Queries *)

Definition copy_range (rb : sm_ring_buffer) (start n : nat) (ok : bool) :
    list sm_rb_chunk :=
  if (n =? 0)%nat || negb ok then [] else map (rb_chunk rb) (seq start n).

Fixpoint since_index (since : double) (l : list sm_rb_chunk) (i : nat) : option nat :=
  match l with
  | [] => None
  | c :: l' => if since <=? c_timestamp c then Some i else since_index since l' (S i)
  end.

Definition sm_rb_get_since (ok : bool) (rb : sm_ring_buffer) (since : double) :
    list sm_rb_chunk :=
  match since_index since (rb_view rb) 0 with
  | Some i => copy_range rb i (rb_count rb - i) ok
  | None => []
  end.

(** The backwards [while (start > 0 && acc < n)]. *)
Fixpoint last_n_start (rb : sm_ring_buffer) (n : Z) (start : nat) (acc : Z) : nat :=
  match start with
  | O => O
  | S s => if acc <? n then last_n_start rb n s (acc + c_len (rb_chunk rb s)) else start
  end.

Definition sm_rb_get_last_n_bytes (ok : bool) (rb : sm_ring_buffer) (n : Z) :
    list sm_rb_chunk :=
  if (rb_count rb =? 0)%nat || (n =? 0) then [] else
  let start := last_n_start rb n (rb_count rb) 0 in
  copy_range rb start (rb_count rb - start) ok.

Definition sm_rb_get_all (ok : bool) (rb : sm_ring_buffer) : list sm_rb_chunk :=
  copy_range rb 0 (rb_count rb) ok.

Definition sm_rb_total_seq (rb : sm_ring_buffer) : Z := rb_total_seq rb.
Definition sm_rb_first_seq (rb : sm_ring_buffer) : Z := rb_first_seq rb.

(** What [sm_rb_get_since_seq] returns and stores through its out pointers. *)
Record seq_page := mk_page {
  pg_chunks : list sm_rb_chunk; pg_first_skip : Z; pg_cursor : Z;
  pg_dropped : Z; pg_has_more : bool }.

Fixpoint find_start (want : Z) (l : list sm_rb_chunk) (i : nat) : option (nat * Z) :=
  match l with
  | [] => None
  | c :: l' =>
      if c_seq_start c + c_len c <=? want then find_start want l' (S i)
      else Some (i, if c_seq_start c <? want then want - c_seq_start c else 0)
  end.

(** The page loop: chunks taken so far, bytes so far, cursor so far. *)
Fixpoint page_loop (max : Z) (l : list sm_rb_chunk) (off : Z) (n : nat) (acc cursor : Z) :
    nat * Z :=
  match l with
  | [] => (n, cursor)
  | c :: l' =>
      let usable := c_len c - off in
      if usable =? 0 then page_loop max l' 0 n acc cursor
      else if (0 <? max) && (max <=? acc) then (n, cursor)
      else if (0 <? max) && (max <? acc + usable) then
        (S n, c_seq_start c + off + (max - acc))
      else page_loop max l' 0 (S n) (acc + usable) (c_seq_start c + c_len c)
  end.

Definition sm_rb_get_since_seq (ok : bool) (rb : sm_ring_buffer) (since_seq max : Z) :
    seq_page :=
  let dropped := if since_seq <? rb_first_seq rb then rb_first_seq rb - since_seq else 0 in
  let want := if since_seq <? rb_first_seq rb then rb_first_seq rb else since_seq in
  let empty := mk_page [] 0 (rb_total_seq rb) dropped false in
  if (rb_count rb =? 0)%nat || (rb_total_seq rb <=? want) then empty else
  match find_start want (rb_view rb) 0 with
  | None => empty
  | Some (start_i, first_skip) =>
      let '(n, cursor) :=
        page_loop max (drop start_i (rb_view rb)) first_skip 0 0 want in
      if (n =? 0)%nat then empty else
      let cs := copy_range rb start_i n ok in
      if (length cs =? 0)%nat then empty else
      mk_page cs first_skip cursor dropped (cursor <? rb_total_seq rb)
  end.

(** ** Representation invariant and abstraction *)

(** The retained bytes, oldest first. *)
Definition rb_content (rb : sm_ring_buffer) : bytes := mjoin (map c_data (rb_view rb)).

Definition chunk_ok (c : sm_rb_chunk) : Prop :=
  0 < c_len c /\ c_len c <= c_alloc c <= c_real c /\ SM_RB_CHUNK_TARGET <= c_alloc c.

(** The chunks of [l] number the bytes from [s] to [e] without a gap. *)
Fixpoint contig (s : Z) (l : list sm_rb_chunk) (e : Z) : Prop :=
  match l with
  | [] => s = e
  | c :: l' => c_seq_start c = s /\ contig (s + c_len c) l' e
  end.

Record rb_wf (rb : sm_ring_buffer) : Prop := {
  wf_circ : circ_ok (rb_chunks rb) (rb_head rb) (rb_count rb);
  wf_chunks : Forall chunk_ok (rb_view rb);
  wf_contig : contig (rb_first_seq rb) (rb_view rb) (rb_total_seq rb);
  wf_total : rb_total_bytes rb = zlen (rb_content rb);
  wf_max : 0 <= rb_max_bytes rb }.

(** The pool never records more than a buffer really has. *)
Definition pool_ok (pool : rb_pool_t) : Prop :=
  (length pool <= SM_RB_POOL_SLOTS)%nat /\ Forall (fun s => slot_cap s <= slot_real s) pool.

(** The abstract ring buffer is the stream of all the bytes ever stored: the
    buffer retains its last [max_bytes] bytes and numbers them from 0. *)
Record rb_refines (rb : sm_ring_buffer) (stream : bytes) : Prop := {
  ref_wf : rb_wf rb;
  ref_seq : rb_total_seq rb = zlen stream;
  ref_content : rb_content rb = zlast (rb_max_bytes rb) stream }.

Lemma mjoin_app {A} (l k : list (list A)) : mjoin (l ++ k) = mjoin l ++ mjoin k.
Proof. induction l as [|x l IH]; simpl; [done|]. by rewrite IH, app_assoc. Qed.

Lemma contig_app s l k e :
  contig s (l ++ k) e <-> contig s l (s + zlen (mjoin (map c_data l))) /\
                         contig (s + zlen (mjoin (map c_data l))) k e.
Proof.
  revert s. induction l as [|c l IH]; intros s; simpl.
  { rewrite zlen_nil, Z.add_0_r. tauto. }
  rewrite IH, zlen_app. unfold c_len. rewrite !Z.add_assoc. tauto.
Qed.

Lemma contig_len s l e : contig s l e -> e = s + zlen (mjoin (map c_data l)).
Proof.
  revert s. induction l as [|c l IH]; intros s; simpl; [zlia|].
  intros [<- He%IH]. unfold c_len in *. zlia.
Qed.

Lemma rb_view_cons rb :
  circ_ok (rb_chunks rb) (rb_head rb) (rb_count rb) -> (0 < rb_count rb)%nat ->
  rb_view rb = (rb_chunks rb !!! rb_head rb) ::
    circ_view (rb_chunks rb) (circ_idx (rb_capacity rb) (rb_head rb) 1) (rb_count rb - 1).
Proof. intros Hc Hp. apply circ_view_head; [by eapply circ_ok_head|done]. Qed.

Lemma rb_view_snoc rb :
  (0 < rb_count rb)%nat ->
  rb_view rb = circ_view (rb_chunks rb) (rb_head rb) (rb_count rb - 1) ++
    [rb_chunk rb (rb_count rb - 1)].
Proof. apply circ_view_last. Qed.

Lemma rb_wf_first rb : rb_wf rb -> rb_first_seq rb = rb_total_seq rb - rb_total_bytes rb.
Proof.
  intros [? ? Hc Ht ?]. apply contig_len in Hc. rewrite Ht. unfold rb_content. lia.
Qed.

(** *** Eviction *)

Lemma sync_first_seq_wf rb s :
  circ_ok (rb_chunks rb) (rb_head rb) (rb_count rb) -> Forall chunk_ok (rb_view rb) ->
  contig s (rb_view rb) (rb_total_seq rb) -> rb_total_bytes rb = zlen (rb_content rb) ->
  0 <= rb_max_bytes rb -> rb_wf (sync_first_seq rb).
Proof.
  intros Hc Hk Hs Ht Hm.
  assert (rb_first_seq (sync_first_seq rb) = s) as Hf.
  { simpl. destruct (Nat.eqb_spec (rb_count rb) 0) as [E|E].
    - assert (rb_view rb = []) as Hv by (unfold rb_view; by rewrite E).
      by rewrite Hv in Hs.
    - rewrite rb_view_cons in Hs by (done || lia). apply Hs. }
  split; try done. by rewrite Hf.
Qed.

Lemma rb_pool_release_ok pool cap r :
  pool_ok pool -> cap <= r -> pool_ok (rb_pool_release pool cap r).
Proof.
  unfold pool_ok, rb_pool_release. intros [? ?] ?.
  destruct (Nat.ltb_spec (length pool) SM_RB_POOL_SLOTS); [|done].
  rewrite length_app. simpl. split; [lia|]. apply Forall_app. by repeat constructor.
Qed.

(** What an iteration leaves, whichever branch it takes. *)
Definition evicted (rb rb' : sm_ring_buffer) : Prop :=
  rb_wf rb' /\ rb_max_bytes rb' = rb_max_bytes rb /\ rb_total_seq rb' = rb_total_seq rb /\
  zlast (rb_max_bytes rb) (rb_content rb') = zlast (rb_max_bytes rb) (rb_content rb).

Lemma evict_pop_wf rb :
  rb_wf rb -> (0 < rb_count rb)%nat ->
  c_len (rb_chunks rb !!! rb_head rb) <= rb_total_bytes rb - rb_max_bytes rb ->
  evicted rb (sync_first_seq (evict_pop rb)).
Proof.
  intros [Hc Hk Hs Ht Hm] Hn Hx.
  pose proof (circ_ok_head _ _ _ Hc Hn) as Hh.
  pose proof (rb_view_cons rb Hc Hn) as Hv.
  assert (rb_view (evict_pop rb) = tl (rb_view rb)) as Hv1.
  { rewrite Hv. apply circ_view_pop; [apply Hc|done|done]. }
  unfold rb_content in *. rewrite Hv in *. simpl in *.
  apply Forall_cons in Hk as [Hf Hk]. destruct Hs as [Hs1 Hs2].
  unfold c_len in *. rewrite zlen_app in Ht.
  split_and!; [|done|done|].
  - eapply sync_first_seq_wf; unfold rb_content; rewrite ?Hv1; simpl; try done.
    + by apply circ_ok_pop.
    + unfold c_len. lia.
  - unfold rb_content. change (rb_view (sync_first_seq ?r)) with (rb_view r).
    rewrite Hv1, Hv. simpl. symmetry. apply zlast_app_r. lia.
Qed.

Lemma evict_trim_wf rb excess :
  rb_wf rb -> (0 < rb_count rb)%nat -> excess = rb_total_bytes rb - rb_max_bytes rb ->
  0 < excess < c_len (rb_chunks rb !!! rb_head rb) ->
  evicted rb (sync_first_seq (evict_trim excess rb)).
Proof.
  intros [Hc Hk Hs Ht Hm] Hn Ex Hx.
  pose proof (circ_ok_head _ _ _ Hc Hn) as Hh.
  pose proof (rb_view_cons rb Hc Hn) as Hv.
  assert (rb_view (evict_trim excess rb) =
          trim_chunk excess (rb_chunks rb !!! rb_head rb) :: tl (rb_view rb)) as Hv1.
  { unfold rb_view at 1, evict_trim. simpl.
    rewrite <- (circ_idx_0 (length (rb_chunks rb)) (rb_head rb)) at 1 by done.
    rewrite circ_view_set by (done || apply Hc). fold (rb_view rb). by rewrite Hv. }
  unfold rb_content in *. rewrite Hv in *. simpl in *.
  apply Forall_cons in Hk as [Hf Hk]. destruct Hs as [Hs1 Hs2].
  unfold chunk_ok, c_len in *. rewrite zlen_app in Ht.
  split_and!; [|done|done|].
  - apply (sync_first_seq_wf _ (rb_first_seq rb + excess));
      unfold rb_content; rewrite ?Hv1; simpl; try done.
    + unfold circ_ok in *. by rewrite length_insert.
    + constructor; [|done]. unfold chunk_ok, c_len. simpl. zlia.
    + split; [lia|]. unfold c_len. simpl. rewrite zlen_zdrop.
      replace (rb_first_seq rb + _ + _) with
        (rb_first_seq rb + zlen (c_data (rb_chunks rb !!! rb_head rb))) by zlia. done.
    + zlia.
  - unfold rb_content. change (rb_view (sync_first_seq ?r)) with (rb_view r).
    rewrite Hv1, Hv. simpl. rewrite <- zdrop_app_le by lia.
    rewrite zlast_all by zlia. unfold zlast. f_equal. zlia.
Qed.

Lemma evict_step_wf rb pool :
  rb_wf rb -> pool_ok pool -> (0 < rb_count rb)%nat -> rb_max_bytes rb < rb_total_bytes rb ->
  let '(rb', pool') := evict_step rb pool in
  evicted rb rb' /\ pool_ok pool' /\
  ((rb_count rb' < rb_count rb)%nat \/ rb_total_bytes rb' = rb_max_bytes rb).
Proof.
  intros Hwf Hp Hn Hx. unfold evict_step. zcase.
  - split_and!.
    + by apply evict_pop_wf.
    + apply rb_pool_release_ok; [done|].
      pose proof (wf_chunks _ Hwf) as Hk. rewrite rb_view_cons in Hk by (apply Hwf || done).
      apply Forall_cons in Hk as [Hf _]. unfold chunk_ok in Hf. lia.
    + left. simpl. lia.
  - split_and!; [|done|right; simpl; lia]. apply evict_trim_wf; [done|done|done|lia].
Qed.

Lemma evict_loop_wf fuel rb pool :
  (rb_count rb < fuel)%nat \/ ((0 < fuel)%nat /\ rb_total_bytes rb = rb_max_bytes rb) ->
  rb_wf rb -> pool_ok pool ->
  let '(rb', pool') := evict_loop fuel rb pool in
  rb_wf rb' /\ pool_ok pool' /\ rb_max_bytes rb' = rb_max_bytes rb /\
  rb_total_seq rb' = rb_total_seq rb /\
  rb_content rb' = zlast (rb_max_bytes rb) (rb_content rb).
Proof.
  revert rb pool. induction fuel as [|fuel IH]; intros rb pool Hfuel Hwf Hp; [lia|].
  simpl. destruct (Nat.ltb_spec 0 (rb_count rb)) as [Hn|Hn];
    [destruct (Z.ltb_spec (rb_max_bytes rb) (rb_total_bytes rb)) as [Hx|Hx]|]; simpl.
  - pose proof (evict_step_wf rb pool Hwf Hp Hn Hx) as Hst.
    destruct (evict_step rb pool) as [rb1 pool1].
    destruct Hst as ((Hwf1 & Hm1 & Hs1 & Hc1) & Hp1 & Hd).
    specialize (IH rb1 pool1 ltac:(lia) Hwf1 Hp1).
    destruct (evict_loop fuel rb1 pool1) as [rb2 pool2].
    destruct IH as (? & ? & ? & ? & Hc2). split_and!; congruence || done.
  - split_and!; try done. rewrite zlast_all; [done|]. rewrite <- (wf_total _ Hwf). lia.
  - split_and!; try done. rewrite zlast_all; [done|].
    assert (rb_content rb = []) as ->.
    { unfold rb_content, rb_view. by replace (rb_count rb) with 0%nat by lia. }
    pose proof (wf_max _ Hwf). zlia.
Qed.

Lemma evict_wf rb pool :
  rb_wf rb -> pool_ok pool ->
  let '(rb', pool') := evict rb pool in
  rb_wf rb' /\ pool_ok pool' /\ rb_max_bytes rb' = rb_max_bytes rb /\
  rb_total_seq rb' = rb_total_seq rb /\
  rb_content rb' = zlast (rb_max_bytes rb) (rb_content rb).
Proof. intros. apply evict_loop_wf; [lia|done|done]. Qed.

(** *** Appending *)

Lemma rb_refines_evict rb pool stream :
  rb_wf rb -> pool_ok pool -> rb_total_seq rb = zlen stream ->
  zlast (rb_max_bytes rb) (rb_content rb) = zlast (rb_max_bytes rb) stream ->
  let '(rb', pool') := evict rb pool in
  rb_refines rb' stream /\ pool_ok pool' /\ rb_max_bytes rb' = rb_max_bytes rb.
Proof.
  intros Hwf Hp Hs Hc. pose proof (evict_wf rb pool Hwf Hp) as He.
  destruct (evict rb pool) as [rb' pool'].
  destruct He as (? & ? & Hm & ? & Hc'). split_and!; try done.
  split; [done|congruence|]. congruence.
Qed.

Lemma extend_last_wf rb data a r :
  rb_wf rb -> (0 < rb_count rb)%nat ->
  c_len (rb_chunk rb (rb_count rb - 1)) + zlen data <= a <= r -> SM_RB_CHUNK_TARGET <= a ->
  rb_wf (extend_last rb data a r) /\
  rb_content (extend_last rb data a r) = rb_content rb ++ data.
Proof.
  intros [Hc Hk Hs Ht Hm] Hn Ha Hr.
  pose proof (rb_view_snoc rb Hn) as Hv.
  set (l := circ_view (rb_chunks rb) (rb_head rb) (rb_count rb - 1)) in *.
  set (c := rb_chunk rb (rb_count rb - 1)) in *.
  assert (rb_view (extend_last rb data a r) =
          l ++ [{| c with c_data := c_data c ++ data; c_alloc := a; c_real := r |}]) as Hv1.
  { unfold rb_view at 1, extend_last. simpl. unfold RB_IDX, rb_capacity.
    rewrite circ_view_set by (apply Hc || lia). fold (rb_view rb). rewrite Hv.
    rewrite insert_app_r_alt by (unfold l; rewrite length_circ_view; lia).
    unfold l at 2. rewrite length_circ_view, Nat.sub_diag. done. }
  unfold rb_content in *. rewrite Hv in *. rewrite Hv1, !map_app, !mjoin_app in *.
  simpl in *. rewrite !app_nil_r in *.
  apply Forall_app in Hk as [Hk [Hf _]%Forall_cons_1]. apply contig_app in Hs as [Hs1 Hs2].
  simpl in Hs2. unfold chunk_ok, c_len in *.
  split; [|by rewrite app_assoc]. split; unfold rb_content; rewrite ?Hv1; try done.
  - unfold circ_ok in *. simpl. by rewrite length_insert.
  - apply Forall_app. split; [done|]. constructor; [|done].
    unfold chunk_ok, c_len. simpl. zlia.
  - apply contig_app. split; [done|]. simpl. unfold c_len. simpl.
    destruct Hs2 as [? Hs2]. split; [done|].
    unfold c in *. zlia.
  - rewrite map_app, mjoin_app. simpl. rewrite app_nil_r. zlia.
Qed.

Lemma grow_chunks_wf rb :
  rb_wf rb -> (rb_capacity rb <= rb_count rb)%nat ->
  rb_wf (grow_chunks rb) /\ rb_view (grow_chunks rb) = rb_view rb /\
  (rb_count rb < rb_capacity (grow_chunks rb))%nat.
Proof.
  intros [Hc Hk Hs Ht Hm] Hfull.
  assert (rb_count rb <= rb_capacity rb)%nat as Hle by apply Hc.
  set (n := if (rb_capacity rb =? 0)%nat then 64%nat else (rb_capacity rb * 2)%nat).
  assert (rb_count rb < n)%nat as Hn.
  { unfold n. destruct (Nat.eqb_spec (rb_capacity rb) 0); lia. }
  assert (rb_view (grow_chunks rb) = rb_view rb) as Hv
    by (apply circ_view_grow; lia).
  split_and!; [|done|].
  - split; unfold rb_content; rewrite ?Hv; try done. apply (circ_ok_grow _ _ _ n); lia.
  - unfold rb_capacity at 1, grow_chunks. fold n. simpl. rewrite length_circ_grow; lia.
Qed.

Lemma pool_find_spec want i pool j s :
  pool_find want i pool = Some (j, s) ->
  exists k, (j = i + k)%nat /\ pool !! k = Some s /\ want <= slot_cap s.
Proof.
  revert i. induction pool as [|t pool IH]; intros i; simpl; [done|].
  zcase.
  - intros [= <- <-]. exists 0%nat. split_and!; [lia|done|done].
  - intros (k & -> & ? & ?)%IH. exists (S k). split_and!; [lia|done|done].
Qed.

Lemma rb_pool_acquire_ok mok need pool :
  pool_ok pool ->
  let '(r, pool') := rb_pool_acquire mok need pool in
  pool_ok pool' /\ (mok = true -> r <> None) /\
  (forall x, r = Some x -> need <= x /\ SM_RB_CHUNK_TARGET <= x).
Proof.
  intros [Hl Hf]. unfold rb_pool_acquire, SM_RB_CHUNK_TARGET in *.
  set (want := if 4096 <? need then need else 4096).
  assert (need <= want /\ 4096 <= want) by (unfold want; zcase; lia).
  destruct (pool_find want 0 pool) as [[i s]|] eqn:E.
  - apply pool_find_spec in E as (k & -> & Hk & ?). simpl.
    pose proof (Forall_lookup_1 _ _ _ _ Hf Hk) as Hs. simpl in Hs.
    split_and!; [|done|intros ? [= <-]; lia].
    unfold pool_ok, pool_take. rewrite length_take, length_insert.
    split; [lia|]. apply Forall_take, Forall_insert; [done|].
    destruct (last pool) as [x|] eqn:El.
    + assert (List.last pool s = x) as ->.
      { apply last_Some in El as [q ->]. apply last_last. }
      rewrite last_lookup in El. by eapply (Forall_lookup_1 _ _ _ _ Hf) in El.
    + apply last_None in El as ->. done.
  - split_and!; [done|by intros ->|]. destruct mok; intros ? [= <-]. lia.
Qed.

Lemma rb_refines_bound rb stream : rb_refines rb stream -> rb_total_bytes rb <= rb_max_bytes rb.
Proof.
  intros [Hwf _ Hc]. rewrite (wf_total _ Hwf), Hc. pose proof (wf_max _ Hwf). zlia.
Qed.

Lemma append_new_refines ok rb pool stream data ts :
  rb_refines rb stream -> pool_ok pool -> 0 < zlen data ->
  let '(rb', pool', stored) := append_new ok rb pool data ts in
  rb_refines rb' (if stored then stream ++ data else stream) /\ pool_ok pool' /\
  rb_max_bytes rb' = rb_max_bytes rb /\ rb_total_bytes rb' <= rb_max_bytes rb' /\
  (calloc_ok ok = true -> malloc_ok ok = true -> stored = true).
Proof.
  intros Href Hp Hd. pose proof (rb_refines_bound _ _ Href). unfold append_new.
  set (full := (rb_capacity rb <=? rb_count rb)%nat).
  set (rb1 := if full then grow_chunks rb else rb).
  assert (rb_refines rb1 stream /\ (rb_count rb1 < rb_capacity rb1)%nat /\
          rb_max_bytes rb1 = rb_max_bytes rb) as ([Hwf Hs Hc] & Hroom & Hm).
  { unfold rb1, full. destruct Href as [Hwf Hs Hc].
    destruct (Nat.leb_spec (rb_capacity rb) (rb_count rb)); [|done].
    destruct (grow_chunks_wf rb Hwf) as (? & Hv & ?); [done|].
    split_and!; [|done|done]. split; [done|done|]. unfold rb_content. rewrite Hv. done. }
  pose proof (rb_refines_bound rb1 stream ltac:(done)).
  clearbody rb1. destruct (full && negb (calloc_ok ok)) eqn:Efull.
  { split_and!; [done|done|done|done|]. intros E. by rewrite E, andb_false_r in Efull. }
  set (al := if SM_RB_CHUNK_TARGET <? zlen data then zlen data else SM_RB_CHUNK_TARGET).
  assert (zlen data <= al /\ SM_RB_CHUNK_TARGET <= al) as Hal by (unfold al; zcase; lia).
  clearbody al. pose proof (rb_pool_acquire_ok (malloc_ok ok) al pool Hp) as Ha.
  destruct (rb_pool_acquire (malloc_ok ok) al pool) as [[r|] pool1].
  2:{ destruct Ha as (? & Hmal & _). split_and!; try done. intros _ E. by destruct Hmal. }
  destruct Ha as (Hp1 & _ & Hr). destruct (Hr r eq_refl) as [Hr1 _].
  assert (rb_view (mk_rb (<[RB_IDX rb1 (rb_count rb1) := mk_chunk ts (rb_total_seq rb1) data al r]>
      (rb_chunks rb1)) (rb_head rb1) (S (rb_count rb1)) (rb_total_bytes rb1 + zlen data)
      (rb_max_bytes rb1) (rb_total_seq rb1 + zlen data)
      (if (S (rb_count rb1) =? 1)%nat then rb_total_seq rb1 else rb_first_seq rb1)) =
      rb_view rb1 ++ [mk_chunk ts (rb_total_seq rb1) data al r]) as Hv
    by (by apply circ_view_push).
  match type of Hv with rb_view ?x = _ => set (rb2 := x) in * end.
  assert (rb_content rb2 = rb_content rb1 ++ data) as Hc2.
  { unfold rb_content. rewrite Hv, map_app, mjoin_app. simpl. by rewrite app_nil_r. }
  assert (rb_wf rb2) as Hwf2.
  { destruct Hwf as [Hok Hk Hsq Ht Hmx]. split; rewrite ?Hv, ?Hc2; try done.
    - by apply circ_ok_push.
    - apply Forall_app. split; [done|]. constructor; [|done].
      unfold chunk_ok, c_len. simpl. lia.
    - apply contig_app. pose proof (contig_len _ _ _ Hsq) as He.
      assert (rb_first_seq rb2 = rb_first_seq rb1) as ->.
      { simpl. destruct (Nat.eqb_spec (rb_count rb1) 0) as [E|]; [|done].
        unfold rb_view in Hsq. rewrite E in Hsq. done. }
      rewrite <- He. by simpl.
    - rewrite zlen_app. simpl. lia. }
  pose proof (rb_refines_evict rb2 pool1 (stream ++ data) Hwf2 Hp1) as Hev.
  destruct (evict rb2 pool1) as [rb3 pool3].
  destruct Hev as (? & ? & ?); [simpl; zlia| |split_and!; [done|done|simpl in *; congruence|
    by eapply rb_refines_bound|done]].
  rewrite Hc2, Hc. apply zlast_app_zlast. apply Hwf.
Qed.

Lemma rb_append_spec ok rb pool stream data ts :
  rb_refines rb stream -> pool_ok pool ->
  let '(rb', pool', stored) := sm_rb_append ok rb pool data ts in
  rb_refines rb' (if stored then stream ++ data else stream) /\ pool_ok pool' /\
  rb_max_bytes rb' = rb_max_bytes rb /\ rb_total_bytes rb' <= rb_max_bytes rb' /\
  (calloc_ok ok = true -> malloc_ok ok = true -> stored = true).
Proof.
  intros Href Hp. pose proof rb_refines_bound.
  unfold sm_rb_append. destruct (Z.eqb_spec (zlen data) 0) as [->%zlen_zero|Hd].
  { rewrite app_nil_r. by eauto 10. }
  pose proof (append_new_refines ok rb pool stream data ts Href Hp ltac:(zlia)) as Hnew.
  set (last := rb_chunk rb (rb_count rb - 1)).
  destruct Href as [Hwf Hs Hc].
  assert (forall a r, (0 < rb_count rb)%nat -> c_len last + zlen data <= a <= r ->
    SM_RB_CHUNK_TARGET <= a ->
    let '(rb', pool') := evict (extend_last rb data a r) pool in
    rb_refines rb' (stream ++ data) /\ pool_ok pool' /\ rb_max_bytes rb' = rb_max_bytes rb) as Hext.
  { intros a r Hn Ha Hr. destruct (extend_last_wf rb data a r Hwf Hn Ha Hr) as [Hw2 Hc2].
    pose proof (rb_refines_evict _ pool (stream ++ data) Hw2 Hp) as Hev.
    destruct (evict _ pool) as [rb3 pool3].
    destruct Hev as (? & ? & ?); [simpl; zlia| |done].
    rewrite Hc2, Hc. apply zlast_app_zlast. apply Hwf. }
  destruct (Nat.ltb_spec 0 (rb_count rb)) as [Hn|Hn]; simpl.
  2: exact Hnew.
  assert (chunk_ok last) as Hlast.
  { pose proof (wf_chunks _ Hwf) as Hk. rewrite rb_view_snoc in Hk by done.
    by apply Forall_app in Hk as [_ [? _]%Forall_cons_1]. }
  unfold chunk_ok in Hlast.
  destruct ((c_timestamp last =? ts) && (c_len last <? SM_RB_CHUNK_TARGET)); simpl; [|exact Hnew].
  destruct (Z.leb_spec (c_len last + zlen data) (c_alloc last)).
  { specialize (Hext (c_alloc last) (c_real last) Hn ltac:(lia) ltac:(lia)).
    destruct (evict _ pool) as [rb3 pool3]. destruct Hext as (? & ? & ?). by eauto 10. }
  destruct (Z.leb_spec (c_len last + zlen data) SM_RB_CHUNK_TARGET); [lia|exact Hnew].
Qed.

(** The buffer after a sequence of appends with an allocator that succeeds. *)
Definition all_ok : alloc_ok := mk_ok true true true.
Definition rb_appends (max : Z) (l : list (bytes * double)) : sm_ring_buffer * rb_pool_t :=
  fold_left (fun '(rb, pool) '(data, ts) => fst (sm_rb_append all_ok rb pool data ts))
    l (sm_rb_init max, []).

Lemma sm_rb_init_refines max : 0 <= max -> rb_refines (sm_rb_init max) [].
Proof.
  intros. split; [split; simpl; try done|done|rewrite zlast_all; simpl; [done|zlia]].
  - split; simpl; [lia|]. right. done.
Qed.

Lemma pool_ok_nil : pool_ok [].
Proof. split; [simpl; unfold SM_RB_POOL_SLOTS; lia|constructor]. Qed.

Lemma rb_appends_refines max l :
  0 <= max -> rb_refines (fst (rb_appends max l)) (mjoin (map fst l)) /\
              pool_ok (snd (rb_appends max l)).
Proof.
  intros Hm. unfold rb_appends.
  assert (forall rb pool stream, rb_refines rb stream -> pool_ok pool ->
    let r := fold_left (fun '(rb, pool) '(data, ts) => fst (sm_rb_append all_ok rb pool data ts))
               l (rb, pool) in
    rb_refines (fst r) (stream ++ mjoin (map fst l)) /\ pool_ok (snd r)) as Hgen.
  { induction l as [|[data ts] l IH]; intros rb pool stream Hr Hp; simpl.
    { by rewrite app_nil_r. }
    pose proof (rb_append_spec all_ok rb pool stream data ts Hr Hp) as Ha.
    destruct (sm_rb_append all_ok rb pool data ts) as [[rb1 pool1] st].
    destruct Ha as (Hr1 & Hp1 & _ & _ & Hst). rewrite (Hst eq_refl eq_refl) in Hr1.
    rewrite app_assoc. by apply IH. }
  apply (Hgen _ _ []); [by apply sm_rb_init_refines|apply pool_ok_nil].
Qed.

(** C31: appending refines the stream abstraction on every branch.  Whatever
    the allocator does, the buffer stays well formed (indices in range, chunks
    contiguous in the sequence numbering, every write within its allocation,
    byte count exact), keeps exactly the last [max_bytes] bytes of the stream
    of stored bytes, and numbers them by their position in it; the data is
    dropped only when an allocation fails, and then nothing changes. *)
Theorem sm_rb_append_refines ok rb pool stream data ts :
  rb_refines rb stream -> pool_ok pool ->
  let '(rb', pool', stored) := sm_rb_append ok rb pool data ts in
  rb_refines rb' (if stored then stream ++ data else stream) /\ pool_ok pool' /\
  rb_max_bytes rb' = rb_max_bytes rb /\ rb_total_bytes rb' <= rb_max_bytes rb' /\
  (calloc_ok ok = true -> malloc_ok ok = true -> stored = true).
Proof. apply rb_append_spec. Qed.

Lemma sm_rb_append_refines_witness :
  rb_content (fst (fst (sm_rb_append all_ok (sm_rb_init 3) [] [1; 2; 3; 4; 5] 7))) = [3; 4; 5].
Proof.
  assert (rb_refines (sm_rb_init 3) []) as H by (apply sm_rb_init_refines; lia).
  pose proof (sm_rb_append_refines all_ok (sm_rb_init 3) [] [] [1; 2; 3; 4; 5] 7 H pool_ok_nil)
    as Hw.
  destruct (sm_rb_append _ _ _ _ _) as [[rb' pool'] st].
  destruct Hw as ([_ _ Hc] & _ & Hm & _ & Hst). simpl. rewrite Hc, Hm, Hst by reflexivity.
  reflexivity.
Defined.

(** *** Cursor reads *)

Lemma rb_content_stream rb stream :
  rb_refines rb stream -> rb_content rb = zdrop (rb_first_seq rb) stream /\
  0 <= rb_first_seq rb <= zlen stream.
Proof.
  intros [Hwf Hs Hc]. rewrite (rb_wf_first rb Hwf), (wf_total _ Hwf), Hs.
  pose proof (wf_max _ Hwf). rewrite Hc. split; [|zlia].
  rewrite zlen_zlast. unfold zlast. destruct (decide (zlen stream <= rb_max_bytes rb)).
  - rewrite !zdrop_neg; [done|zlia|zlia].
  - f_equal. zlia.
Qed.

Lemma copy_range_view rb start n :
  (start + n <= rb_count rb)%nat ->
  copy_range rb start n true = take n (drop start (rb_view rb)).
Proof.
  intros Hle. unfold copy_range, rb_view, circ_view. rewrite orb_false_r.
  destruct (Nat.eqb_spec n 0) as [->|]; [done|].
  rewrite <- !fmap_drop, <- !fmap_take. rewrite drop_seq, take_seq.
  rewrite Nat.min_l by lia. done.
Qed.

Lemma find_start_spec want l i s e :
  contig s l e -> s <= want < e ->
  exists l1 c l2, l = l1 ++ c :: l2 /\
    find_start want l i = Some ((i + length l1)%nat, want - c_seq_start c) /\
    c_seq_start c = s + zlen (mjoin (map c_data l1)) /\
    0 <= want - c_seq_start c < c_len c /\ contig (c_seq_start c) (c :: l2) e.
Proof.
  revert s i. induction l as [|c l IH]; intros s i Hc Hw; simpl in Hc; [lia|].
  destruct Hc as [<- Hc]. simpl. destruct (Z.leb_spec (c_seq_start c + c_len c) want).
  - destruct (IH _ (S i) Hc ltac:(lia)) as (l1 & d & l2 & -> & -> & Hd & ? & ?).
    exists (c :: l1), d, l2. unfold c_len in Hd. split; [done|]. split; [|split; [simpl; zlia|split; [lia|done]]].
    do 2 f_equal. simpl. lia.
  - exists [], c, l. split; [done|]. split; [|split; [simpl; zlia|split; [lia|done]]].
    simpl. rewrite Nat.add_0_r. do 2 f_equal. zcase; lia.
Qed.

Lemma page_loop_spec max l s e off n acc cursor :
  contig s l e -> Forall chunk_ok l -> 0 <= max -> 0 <= acc -> (0 < max -> acc <= max) ->
  match l with [] => off = 0 | c :: _ => 0 <= off < c_len c end -> cursor = s + off ->
  exists k, page_loop max l off n acc cursor =
      ((n + k)%nat, if 0 <? max then Z.min (cursor + (max - acc)) e else e) /\
    (k <= length l)%nat /\ (cursor < e -> max = 0 \/ acc < max -> (0 < k)%nat) /\
    ((0 < k)%nat -> (if 0 <? max then Z.min (cursor + (max - acc)) e else e) <=
       s + zlen (mjoin (map c_data (take k l)))).
Proof.
  revert s off n acc cursor.
  induction l as [|c l IH]; intros s off n acc cursor Hc Hk Hm Ha Hacc Hoff ->.
  { simpl in *. exists 0%nat. rewrite Nat.add_0_r. split_and!; try done; try lia.
    f_equal. zcase; lia. }
  simpl in Hc. destruct Hc as [<- Hc]. apply Forall_cons_1 in Hk as [Hck Hk].
  pose proof (contig_len _ _ _ Hc) as He.
  assert (match l with [] => 0 = 0 | c :: _ => 0 <= 0 < c_len c end) as Hoff'.
  { destruct l; [done|]. apply Forall_cons_1 in Hk as [[? _] _]. lia. }
  unfold chunk_ok in Hck. simpl. destruct (Z.eqb_spec (c_len c - off) 0); [lia|].
  destruct (Z.ltb_spec 0 max); simpl.
  - destruct (Z.leb_spec max acc).
    { exists 0%nat. rewrite Nat.add_0_r. split_and!; try lia.
      f_equal. pose proof (zlen_nonneg (mjoin (map c_data l))). lia. }
    destruct (Z.ltb_spec max (acc + (c_len c - off))).
    { exists 1%nat. unfold c_len in *. simpl. rewrite Nat.add_1_r. split_and!; try lia.
      - f_equal. zlia.
      - simpl. intros _. zlia. }
    destruct (IH _ 0 (S n) (acc + (c_len c - off)) (c_seq_start c + c_len c)
                Hc Hk Hm ltac:(lia) ltac:(lia) Hoff' ltac:(lia)) as (k & -> & Hk1 & Hk2 & Hk3).
    destruct (Z.ltb_spec 0 max); [|lia].
    exists (S k). split_and!; try lia.
    + f_equal; lia.
    + intros _. simpl. rewrite zlen_app. unfold c_len in *.
      destruct k as [|k]; [|specialize (Hk3 ltac:(lia)); lia].
      simpl. rewrite zlen_nil.
      destruct (decide (c_seq_start c + zlen (c_data c) < e)); [|lia].
      destruct (decide (acc + (zlen (c_data c) - off) < max)); [|lia].
      exfalso. specialize (Hk2 ltac:(lia) ltac:(lia)). lia.
  - destruct (IH _ 0 (S n) (acc + (c_len c - off)) (c_seq_start c + c_len c)
                Hc Hk Hm ltac:(lia) ltac:(lia) Hoff' ltac:(lia)) as (k & -> & Hk1 & Hk2 & Hk3).
    destruct (Z.ltb_spec 0 max); [lia|].
    exists (S k). split_and!; try lia.
    + f_equal; lia.
    + intros _. simpl. rewrite zlen_app. unfold c_len in *.
      destruct k as [|k]; [|specialize (Hk3 ltac:(lia)); lia].
      simpl. rewrite zlen_nil.
      destruct (decide (c_seq_start c + zlen (c_data c) < e)); [|lia].
      exfalso. specialize (Hk2 ltac:(lia) ltac:(lia)). lia.
Qed.

(** The payload of a page: what is left of the first chunk behind
    [first_skip], then the following chunks, at most [max] bytes of it. *)
Definition page_bytes (max : Z) (p : seq_page) : bytes :=
  let b := zdrop (pg_first_skip p) (mjoin (map c_data (pg_chunks p))) in
  if 0 <? max then ztake max b else b.

(** The sequence number just behind a page that starts at [want]. *)
Definition page_end (max want total : Z) : Z :=
  if 0 <? max then Z.min (want + max) total else total.

Lemma rb_view_length rb : length (rb_view rb) = rb_count rb.
Proof. apply length_circ_view. Qed.

Lemma since_seq_nonempty rb stream since max :
  rb_refines rb stream -> 0 <= max ->
  let want := Z.max since (rb_first_seq rb) in
  want < rb_total_seq rb ->
  exists l1 c l2 k, rb_view rb = l1 ++ c :: l2 /\ (0 < k <= length (c :: l2))%nat /\
    c_seq_start c = rb_first_seq rb + zlen (mjoin (map c_data l1)) /\
    0 <= want - c_seq_start c < c_len c /\
    page_end max want (rb_total_seq rb) <=
      c_seq_start c + zlen (mjoin (map c_data (take k (c :: l2)))) /\
    sm_rb_get_since_seq true rb since max =
      mk_page (take k (c :: l2)) (want - c_seq_start c) (page_end max want (rb_total_seq rb))
        (want - since) (page_end max want (rb_total_seq rb) <? rb_total_seq rb).
Proof.
  intros [Hwf Hs Hc] Hm want Hw. destruct Hwf as [Hok Hk Hsq Ht Hmx].
  destruct (find_start_spec want (rb_view rb) 0 _ _ Hsq ltac:(lia))
    as (l1 & c & l2 & Hv & Hfs & Hcs & Hskip & Hsq2).
  rewrite Hv in Hk. apply Forall_app in Hk as [_ Hk].
  destruct (page_loop_spec max (c :: l2) _ _ (want - c_seq_start c) 0 0 want
              Hsq2 Hk Hm ltac:(lia) ltac:(lia) Hskip ltac:(lia)) as (k & Hpl & Hk1 & Hk2 & Hk3).
  rewrite Z.sub_0_r in Hpl, Hk3. fold (page_end max want (rb_total_seq rb)) in Hpl, Hk3.
  specialize (Hk2 ltac:(lia) ltac:(lia)). specialize (Hk3 Hk2).
  exists l1, c, l2, k. split; [done|]. split; [lia|]. split; [done|]. split; [done|].
  split; [done|]. unfold sm_rb_get_since_seq.
  assert ((if since <? rb_first_seq rb then rb_first_seq rb else since) = want) as ->
    by (zcase; lia).
  assert ((if since <? rb_first_seq rb then rb_first_seq rb - since else 0) = want - since) as ->
    by (zcase; lia).
  pose proof (rb_view_length rb) as Hl. rewrite Hv, length_app in Hl. simpl in Hl.
  destruct (Nat.eqb_spec (rb_count rb) 0); [lia|]. simpl.
  destruct (Z.leb_spec (rb_total_seq rb) want); [lia|].
  cbn [Nat.add] in Hfs. rewrite Hfs, Hv, drop_app_length. cbn [Nat.add] in Hpl. rewrite Hpl. simpl in Hk1.
  rewrite copy_range_view, Hv, drop_app_length by lia.
  destruct k as [|k]; [lia|]. done.
Qed.

Lemma since_seq_spec rb stream since max :
  rb_refines rb stream -> 0 <= since -> 0 <= max ->
  let p := sm_rb_get_since_seq true rb since max in
  let want := Z.max since (rb_first_seq rb) in
  pg_dropped p = want - since /\
  pg_cursor p = (if want <? rb_total_seq rb then page_end max want (rb_total_seq rb)
                 else rb_total_seq rb) /\
  page_bytes max p = ztake (pg_cursor p - want) (zdrop want stream) /\
  pg_has_more p = (pg_cursor p <? rb_total_seq rb).
Proof.
  intros Href Hsince Hm p want.
  destruct (rb_content_stream rb stream Href) as [Hcs Hfs].
  pose proof (ref_seq _ _ Href) as Hs.
  destruct (Z.ltb_spec want (rb_total_seq rb)) as [Hw|Hw].
  - destruct (since_seq_nonempty rb stream since max Href Hm Hw)
      as (l1 & c & l2 & k & Hv & Hk & Hcq & Hskip & Hend & Hp).
    fold want p in Hp. unfold page_bytes. rewrite Hp. cbn [pg_dropped pg_cursor pg_chunks pg_first_skip pg_has_more].
    split_and!; [done|done| |done].
    assert (rb_content rb = mjoin (map c_data l1) ++ mjoin (map c_data (take k (c :: l2))) ++
              mjoin (map c_data (drop k (c :: l2)))) as Hc.
    { unfold rb_content. rewrite Hv, map_app, mjoin_app. f_equal.
      by rewrite <- mjoin_app, <- map_app, take_drop. }
    rewrite Hcs in Hc.
    assert (zdrop want stream = zdrop (want - c_seq_start c) (mjoin (map c_data (take k (c :: l2)))) ++
              mjoin (map c_data (drop k (c :: l2)))) as ->.
    { replace want with (rb_first_seq rb + (want - rb_first_seq rb)) at 1 by lia.
      rewrite <- zdrop_zdrop by lia. rewrite Hc.
      rewrite zdrop_app_ge by zlia. rewrite zdrop_app_le.
      - do 2 f_equal. lia.
      - unfold page_end in Hend. zcase_in Hend; zlia. }
    apply (f_equal zlen) in Hc. unfold page_end in *. zcase.
    + rewrite ztake_app_le by zlia.
      destruct (decide (want + max <= rb_total_seq rb)); [f_equal; lia|].
      rewrite !ztake_all by zlia. done.
    + rewrite ztake_app_ge by zlia. rewrite ztake_neg, app_nil_r by zlia. done.
  - assert (p = mk_page [] 0 (rb_total_seq rb) (want - since) false) as ->.
    { unfold p, sm_rb_get_since_seq.
      replace (if since <? rb_first_seq rb then rb_first_seq rb else since) with want
        by (zcase; lia).
      replace (if since <? rb_first_seq rb then rb_first_seq rb - since else 0) with (want - since)
        by (zcase; lia).
      destruct (Z.leb_spec (rb_total_seq rb) want); [|lia]. by rewrite orb_true_r. }
    simpl. split_and!; [done|done| |symmetry; zcase; lia].
    rewrite (ztake_neg (_ - _)) by lia. unfold page_bytes, ztake. simpl.
    change (zdrop 0 []) with (@nil Z). by destruct (0 <? max); [rewrite take_nil|].
Qed.

(** A cursor read returns the requested stretch of the stream.  Whatever
    sequence number a client asks from, the page starts at that byte (or at
    the oldest retained one, the difference being reported as [dropped]), its
    bytes are the stream's bytes from there to the returned cursor, the page
    respects [max] ([0]: no limit) and is as long as it can be, and
    [has_more] is exact. *)
Theorem sm_rb_get_since_seq_page rb stream since max :
  rb_refines rb stream -> 0 <= since -> 0 <= max ->
  let p := sm_rb_get_since_seq true rb since max in
  let want := Z.max since (rb_first_seq rb) in
  pg_dropped p = want - since /\
  pg_cursor p = (if want <? rb_total_seq rb then page_end max want (rb_total_seq rb)
                 else rb_total_seq rb) /\
  page_bytes max p = ztake (pg_cursor p - want) (zdrop want stream) /\
  pg_has_more p = (pg_cursor p <? rb_total_seq rb).
Proof. apply since_seq_spec. Qed.

Lemma sm_rb_get_since_seq_page_witness :
  let rb := fst (rb_appends 6 [([1; 2; 3; 4], 1); ([5; 6; 7; 8; 9], 2)]) in
  let p := sm_rb_get_since_seq true rb 2 4 in
  page_bytes 4 p = [4; 5; 6; 7] /\ pg_dropped p = 1 /\ pg_cursor p = 7 /\ pg_has_more p = true.
Proof.
  intros rb p.
  assert (rb_refines rb [1; 2; 3; 4; 5; 6; 7; 8; 9]) as Href
    by (apply (rb_appends_refines 6 [([1; 2; 3; 4], 1); ([5; 6; 7; 8; 9], 2)]); lia).
  pose proof (sm_rb_get_since_seq_page rb _ 2 4 Href ltac:(lia) ltac:(lia)) as (H1 & H2 & H3 & H4).
  fold p in H1, H2, H3, H4. rewrite H4, H3, H1, H2. vm_compute. auto.
Defined.

(** A client that follows the cursor as long as [has_more] is set. *)
Fixpoint read_pages (fuel : nat) (rb : sm_ring_buffer) (since max : Z) : bytes :=
  match fuel with
  | O => []
  | S fuel' =>
      let p := sm_rb_get_since_seq true rb since max in
      page_bytes max p ++
      (if pg_has_more p then read_pages fuel' rb (pg_cursor p) max else [])
  end.

(** Paging through the history loses and duplicates nothing.  Following
    the cursors with any page size yields, after finitely many pages, exactly
    the retained part of the stream from the requested byte on. *)
Theorem read_pages_complete fuel rb stream since max :
  rb_refines rb stream -> 0 <= since -> 0 < max ->
  rb_total_seq rb - since < Z.of_nat fuel -> (0 < fuel)%nat ->
  read_pages fuel rb since max = zdrop (Z.max since (rb_first_seq rb)) stream.
Proof.
  intros Href Hs Hm. destruct (rb_content_stream rb stream Href) as [_ Hfs].
  pose proof (ref_seq _ _ Href) as Hlen. revert since Hs.
  induction fuel as [|fuel IH]; intros since Hs Hf Hpos; [lia|]. simpl.
  destruct (since_seq_spec rb stream since max Href Hs ltac:(lia)) as (_ & Hc & Hb & Hh).
  set (want := Z.max since (rb_first_seq rb)) in *.
  rewrite Hb, Hh, Hc. unfold page_end.
  destruct (Z.ltb_spec want (rb_total_seq rb)).
  2:{ rewrite Z.ltb_irrefl, ztake_neg, zdrop_all by zlia. done. }
  destruct (Z.ltb_spec 0 max); [|lia].
  destruct (Z.ltb_spec (Z.min (want + max) (rb_total_seq rb)) (rb_total_seq rb)) as [Hl|Hl].
  - rewrite Z.min_l in * by lia. rewrite IH by lia.
    replace (want + max - want) with max by lia.
    rewrite (Z.max_l (want + max)) by lia. rewrite <- zdrop_zdrop by lia. apply ztake_zdrop.
  - rewrite app_nil_r, ztake_all by zlia. done.
Qed.

Lemma read_pages_complete_witness :
  let rb := fst (rb_appends 6 [([1; 2; 3; 4], 1); ([5; 6; 7; 8; 9], 2)]) in
  read_pages 20 rb 0 4 = [4; 5; 6; 7; 8; 9].
Proof.
  intros rb.
  assert (rb_refines rb [1; 2; 3; 4; 5; 6; 7; 8; 9]) as Href
    by (apply (rb_appends_refines 6 [([1; 2; 3; 4], 1); ([5; 6; 7; 8; 9], 2)]); lia).
  rewrite (read_pages_complete 20 rb _ 0 4 Href ltac:(lia) ltac:(lia));
    [reflexivity|vm_compute; congruence|lia].
Defined.

(** *** The other queries *)

Lemma last_n_start_spec rb n start acc :
  (start <= rb_count rb)%nat ->
  let s := last_n_start rb n start acc in
  (s <= start)%nat /\
  (s = 0%nat \/ n <= acc + zlen (mjoin (map c_data (take (start - s) (drop s (rb_view rb)))))).
Proof.
  revert acc. induction start as [|k IH]; intros acc Hk; simpl; [by split; [|left]|].
  zcase.
  - specialize (IH (acc + c_len (rb_chunk rb k)) ltac:(lia)).
    set (s := last_n_start rb n k _) in *. destruct IH as [Hs [IH|IH]]; [split; [lia|by left]|].
    split; [lia|]. right. rewrite Nat.sub_succ_l by lia.
    rewrite (take_S_r _ _ (rb_chunk rb k)), map_app, mjoin_app.
    + simpl. unfold c_len in IH. zlia.
    + rewrite lookup_drop. unfold rb_view.
      replace (s + (k - s))%nat with k by lia. by apply circ_view_lookup.
  - rewrite Nat.sub_diag. split; [lia|]. right. simpl. zlia.
Qed.

(** The "last [n] bytes" query returns a suffix of the history, made of
    whole chunks, that covers the requested number of bytes (or everything
    that is retained when there are fewer). *)
Theorem sm_rb_get_last_n_bytes_suffix rb stream n :
  rb_refines rb stream -> 0 <= n ->
  let cs := sm_rb_get_last_n_bytes true rb n in
  cs `suffix_of` rb_view rb /\
  mjoin (map c_data cs) `suffix_of` stream /\
  Z.min n (rb_total_bytes rb) <= zlen (mjoin (map c_data cs)).
Proof.
  intros Href Hn cs. destruct Href as [Hwf Hs Hc].
  assert (exists s, (s <= rb_count rb)%nat /\ cs = drop s (rb_view rb) /\
    (s = 0%nat \/ n <= zlen (mjoin (map c_data cs)))) as (s & Hs1 & Hcs & Hlen).
  { unfold cs, sm_rb_get_last_n_bytes.
    destruct (Nat.eqb_spec (rb_count rb) 0) as [E|E]; simpl.
    { exists 0%nat. split_and!; [lia| |by left]. unfold rb_view. by rewrite E. }
    destruct (Z.eqb_spec n 0) as [->|].
    { exists (rb_count rb). split_and!; [done| |right; simpl; zlia].
      rewrite drop_ge; [done|]. by rewrite rb_view_length. }
    destruct (last_n_start_spec rb n (rb_count rb) 0) as [H1 H2]; [done|].
    set (s := last_n_start _ _ _ _) in *. exists s.
    rewrite copy_range_view by lia. rewrite take_ge in H2 |- * by (rewrite length_drop, rb_view_length; lia).
    split_and!; [done|done|]. destruct H2; [by left|right; lia]. }
  rewrite Hcs in *. split_and!.
  - exists (take s (rb_view rb)). symmetry. apply take_drop.
  - etrans; [|apply (zlast_suffix (rb_max_bytes rb))]. rewrite <- Hc.
    exists (mjoin (map c_data (take s (rb_view rb)))). unfold rb_content.
    by rewrite <- mjoin_app, <- map_app, take_drop.
  - rewrite (wf_total _ Hwf). destruct Hlen as [->|]; [|zlia].
    rewrite drop_0. apply Z.le_min_r.
Qed.

Lemma sm_rb_get_last_n_bytes_suffix_witness :
  let rb := fst (rb_appends 6 [([1; 2; 3; 4], 1); ([5; 6; 7], 2)]) in
  map c_data (sm_rb_get_last_n_bytes true rb 4) = [[2; 3; 4]; [5; 6; 7]] /\
  4 <= zlen (mjoin (map c_data (sm_rb_get_last_n_bytes true rb 4))).
Proof.
  intros rb. split; [reflexivity|].
  assert (rb_refines rb [1; 2; 3; 4; 5; 6; 7]) as Href
    by (apply (rb_appends_refines 6 [([1; 2; 3; 4], 1); ([5; 6; 7], 2)]); lia).
  destruct (sm_rb_get_last_n_bytes_suffix rb _ 4 Href ltac:(lia)) as (_ & _ & H).
  exact H.
Defined.
