(* ===== verification/Json.v ===== *)
(** * JSON trees ([deps/cJSON], [src/util/json_helpers.c])

    The message tree the broker works on.  An object keeps its members in
    order and may repeat a key; look-ups take the first one.  Numbers are the
    fixed-point doubles of the prelude.  The text syntax is cJSON's and enters
    as the class [JsonText]. *)
From S2P Require Import Prelude Cstr.

Inductive json :=
  | JNull
  | JBool (b : bool)
  | JNum (d : double)
  | JStr (s : string)
  | JArr (l : list json)
  | JObj (l : list (string * json)).

(** ** Induction over a tree: the items of an array, the members of an object *)

Section Nested.
Context (P : json -> Prop).
Context (Hnull : P JNull) (Hbool : forall b, P (JBool b)) (Hnum : forall d, P (JNum d)) (Hstr : forall s, P (JStr s)).
Context (Harr : forall l, Forall P l -> P (JArr l)) (Hobj : forall l, Forall (fun kv => P kv.2) l -> P (JObj l)).

Fixpoint json_nested_ind (j : json) : P j :=
  match j with
  | JNull => Hnull
  | JBool b => Hbool b
  | JNum d => Hnum d
  | JStr s => Hstr s
  | JArr l =>
      Harr l ((fix go (l : list json) : Forall P l :=
        match l with
        | [] => List.Forall_nil _
        | x :: l' => List.Forall_cons _ _ _ (json_nested_ind x) (go l')
        end) l)
  | JObj l =>
      Hobj l ((fix go (l : list (string * json)) : Forall (fun kv => P kv.2) l :=
        match l with
        | [] => List.Forall_nil _
        | (k, x) :: l' => List.Forall_cons _ (k, x) _ (json_nested_ind x) (go l')
        end) l)
  end.
End Nested.

(** ** Access *)

Fixpoint assoc_first (key : string) (l : list (string * json)) : option json :=
  match l with
  | [] => None
  | (k, v) :: l' => if streq k key then Some v else assoc_first key l'
  end.

(** [cJSON_GetObjectItemCaseSensitive]; the members of an array have no name. *)
Definition get_item (obj : json) (key : string) : option json :=
  match obj with JObj l => assoc_first key l | _ => None end.

(** [cJSON_GetObjectItem]: the case of the key does not count. *)
Fixpoint assoc_first_ci (key : string) (l : list (string * json)) : option json :=
  match l with
  | [] => None
  | (k, v) :: l' =>
      if streqi (bytes_of_string key) (bytes_of_string k) then Some v else assoc_first_ci key l'
  end.
Definition get_item_ci (obj : json) (key : string) : option json :=
  match obj with JObj l => assoc_first_ci key l | _ => None end.

Definition sm_json_get_string (obj : json) (key : string) : option string :=
  match get_item obj key with Some (JStr s) => Some s | _ => None end.

Definition INT_MAX : Z := 2147483647.
Definition INT_MIN : Z := -2147483648.

(** cJSON's [valueint]: the number truncated, saturated at the [int] range. *)
Definition valueint (d : double) : Z :=
  if dbl_of_int INT_MAX <=? d then INT_MAX
  else if d <=? dbl_of_int INT_MIN then INT_MIN
  else Z.quot d one_s.

Definition sm_json_get_int (obj : json) (key : string) (def : Z) : Z :=
  match get_item obj key with Some (JNum d) => valueint d | _ => def end.

Definition sm_json_get_bool (obj : json) (key : string) (def : bool) : bool :=
  match get_item obj key with Some (JBool b) => b | _ => def end.

Definition sm_json_get_double (obj : json) (key : string) (def : double) : double :=
  match get_item obj key with Some (JNum d) => d | _ => def end.

(** ** Construction: members are appended *)

Definition add_item (key : string) (v : json) (obj : json) : json :=
  match obj with JObj l => JObj (l ++ [(key, v)]) | _ => obj end.

Definition add_string (key s : string) : json -> json := add_item key (JStr s).
(** [cJSON_AddStringToObject] of a NULL pointer adds nothing. *)
Definition add_string_opt (key : string) (s : option string) (obj : json) : json :=
  match s with Some s => add_string key s obj | None => obj end.
Definition add_number (key : string) (d : double) : json -> json := add_item key (JNum d).
Definition add_int (key : string) (n : Z) : json -> json := add_number key (dbl_of_int n).
Definition add_bool (key : string) (b : bool) : json -> json := add_item key (JBool b).
Definition add_item_to_array (v arr : json) : json :=
  match arr with JArr l => JArr (l ++ [v]) | _ => arr end.

(** Building a message member by member. *)
Declare Scope json_scope.
Notation "x |> f" := (f x) (at level 61, left associativity, only parsing) : json_scope.

(** The printer and the parser of cJSON. *)
Class JsonText := {
  cJSON_PrintUnformatted : json -> string;
  cJSON_Parse : string -> option json }.

Lemma assoc_first_app key l k :
  assoc_first key (l ++ k) =
  match assoc_first key l with Some v => Some v | None => assoc_first key k end.
Proof. induction l as [|[x v] l IH]; simpl; [done|]. by destruct (streq x key). Qed.

Lemma valueint_of_int n : INT_MIN <= n <= INT_MAX -> valueint (dbl_of_int n) = n.
Proof.
  unfold valueint, dbl_of_int, one_s, INT_MIN, INT_MAX. intros.
  destruct (Z.leb_spec (2147483647 * 1000000000) (n * 1000000000)); [lia|].
  destruct (Z.leb_spec (n * 1000000000) (-2147483648 * 1000000000)); [lia|].
  by rewrite Z.quot_mul by lia.
Qed.

Lemma valueint_range d : INT_MIN <= valueint d <= INT_MAX.
Proof.
  unfold valueint, dbl_of_int, one_s, INT_MIN, INT_MAX.
  destruct (Z.leb_spec (2147483647 * 1000000000) d); [lia|].
  destruct (Z.leb_spec d (-2147483648 * 1000000000)); [lia|].
  zdivmod.
Qed.
