(* ===== verification/CJsonNum.v ===== *)
(** * Numbers in JSON text ([deps/cJSON/cJSON.c]; [printf], [strtod])

    The conversions of the C library cJSON calls, exact on the fixed-point
    doubles of the prelude, and [parse_number] and [print_number] over them.
    An infinite double is one of [dbl_inf] or more. *)
From S2P Require Import Prelude Cstr Json.

(** ** Decimal digits *)

Fixpoint dec_digits (fuel : nat) (n : Z) : bytes :=
  match fuel with
  | O => []
  | S f => if n <? 10 then [48 + n] else dec_digits f (n / 10) ++ [48 + n mod 10]
  end.
(** The digits of [n >= 0]. *)
Definition dec (n : Z) : bytes := dec_digits (S (Z.to_nat (Z.log2 n))) n.

Abbreviation digits := (Forall (fun c => isdigit c = true)) (only parsing).

(** [sprintf(buf, "%d", n)]. *)
Definition printf_d (n : Z) : bytes := if n <? 0 then 45 :: dec (- n) else dec n.

(** ** Rounding *)

(** [n / d] to the nearest integer, ties to even. *)
Definition round_half_even (n d : Z) : Z :=
  let q := n / d in
  let r := 2 * (n mod d) in
  if r <? d then q else if d <? r then q + 1 else if Z.even q then q else q + 1.

(** The smallest magnitude that overflows to an infinity, and the infinity. *)
Definition dbl_overflow : double := (2 ^ 1024 - 2 ^ 970) * one_s.
Definition dbl_inf : double := 2 ^ 1024 * one_s.
Definition isinf (d : double) : bool := dbl_inf <=? Z.abs d.

(** [v * 10^x] billionths, as a double. *)
Definition scale10 (v x : Z) : double :=
  if v =? 0 then 0
  else if 400 <? x then dbl_inf
  else if x <? - Z.log2 v - 1 then 0
  else
    let m := if 0 <=? x then v * 10 ^ x else round_half_even v (10 ^ (- x)) in
    if dbl_overflow <=? m then dbl_inf else m.

(** ** [strtod] on decimal text *)

Definition sign_of (l : bytes) : bool * bytes :=
  match l with
  | c :: t => if c =? 45 then (true, t) else if c =? 43 then (false, t) else (false, l)
  | [] => (false, l)
  end.

Definition strtod_fraction (l : bytes) : bytes * bytes :=
  match l with
  | c :: t => if c =? 46 then (take_while isdigit t, skip_while isdigit t) else ([], l)
  | [] => ([], l)
  end.

Definition strtod_exponent (l : bytes) : Z * bytes :=
  match l with
  | c :: t =>
      if (c =? 101) || (c =? 69) then
        let '(neg, t1) := sign_of t in
        match take_while isdigit t1 with
        | [] => (0, l)
        | ds => ((if neg then - digits_value ds else digits_value ds), skip_while isdigit t1)
        end
      else (0, l)
  | [] => (0, l)
  end.

(** The value and what [endptr] points at; None when there is no conversion. *)
Definition strtod (l : bytes) : option (double * bytes) :=
  let '(neg, l1) := sign_of l in
  let ip := take_while isdigit l1 in
  let l2 := skip_while isdigit l1 in
  let '(fp, l3) := strtod_fraction l2 in
  match ip ++ fp with
  | [] => None
  | ds =>
      let '(e, l4) := strtod_exponent l3 in
      let d := scale10 (digits_value ds) (e - zlen fp + 9) in
      Some (if neg then - d else d, l4)
  end.

(** ** [sprintf(buf, "%.<p>g", d)] *)

(** [p] significant digits and the decimal exponent of the first one. *)
Definition scientific (p m : Z) : Z * Z :=
  let n := zlen (dec m) in
  if n <=? p then (m * 10 ^ (p - n), n - 10)
  else
    let q := round_half_even m (10 ^ (n - p)) in
    if q =? 10 ^ p then (10 ^ (p - 1), n - 9) else (q, n - 10).

Definition strip_zeros (l : bytes) : bytes := rev (skip_while (Z.eqb 48) (rev l)).
Definition point (fp : bytes) : bytes := match fp with [] => [] | _ => 46 :: fp end.
Definition fraction (l : bytes) : bytes := point (strip_zeros l).
Definition exponent_text (x : Z) : bytes :=
  101 :: (if x <? 0 then 45 else 43) :: (if Z.abs x <? 10 then [48] else []) ++ dec (Z.abs x).

Definition printf_g (p : Z) (d : double) : bytes :=
  if d =? 0 then [48] else
  let '(q, x) := scientific p (Z.abs d) in
  let ds := dec q in
  (if d <? 0 then [45] else []) ++
  (if (x <? -4) || (p <=? x) then ztake 1 ds ++ fraction (zdrop 1 ds) ++ exponent_text x
   else if 0 <=? x then ztake (x + 1) ds ++ fraction (zdrop (x + 1) ds)
   else 48 :: fraction (replicate (Z.to_nat (- x - 1)) 48 ++ ds)).

(** ** cJSON *)

(** [fabs(a - b) <= maxVal * DBL_EPSILON]. *)
Definition compare_double (a b : double) : bool :=
  let maxVal := if Z.abs b <? Z.abs a then Z.abs a else Z.abs b in
  Z.abs (a - b) * 2 ^ 52 <=? maxVal.

Definition is_number_char (c : Z) : bool :=
  isdigit c || (c =? 43) || (c =? 45) || (c =? 101) || (c =? 69) || (c =? 46).

(** The unread input, cut where no character of a number follows, is given to
    [strtod]; the input goes on where [strtod] stopped. *)
Definition parse_number (l : bytes) : option (json * bytes) :=
  let number_c_string := take_while is_number_char l in
  match strtod number_c_string with
  | Some (number, after_end) =>
      Some (JNum number, zdrop (zlen number_c_string - zlen after_end) l)
  | None => None
  end.

(** What [print_number] puts into its buffer of 26 bytes. *)
Definition number_text (d : double) : bytes :=
  if isinf d then bytes_of_string "null"
  else if d =? dbl_of_int (valueint d) then printf_d (valueint d)
  else
    let s := printf_g 15 d in
    match strtod s with
    | Some (test, _) => if compare_double test d then s else printf_g 17 d
    | None => printf_g 17 d
    end.

Example printf_g_examples :
  map string_of_bytes [printf_g 15 1500000000; printf_g 15 (-50000); printf_g 15 100000000000000000000000000000;
    printf_g 15 1700000000123456789; printf_g 17 1700000000123456789; printf_g 15 99999999999999999; printf_g 15 1] =
  ["1.5"; "-5e-05"; "1e+20"; "1700000000.12346"; "1700000000.1234568"; "100000000"; "1e-09"]%string.
Proof. vm_compute. reflexivity. Qed.

Example number_text_examples :
  map (fun d => string_of_bytes (number_text d))
    [0; -7000000000; 3000000000 * one_s; 1700000000123000000; dbl_inf] =
  ["0"; "-7"; "3000000000"; "1700000000.123"; "null"]%string.
Proof. vm_compute. reflexivity. Qed.

Example parse_number_examples :
  map (fun s => parse_number (bytes_of_string s)) ["-.5]"; "1.e1,"; "01x"; "1e"; "--5"; "-"; "2E-3 "; "1e999"]%string =
  [Some (JNum (-500000000), [93]); Some (JNum 10000000000, [44]); Some (JNum one_s, [120]);
   Some (JNum one_s, [101]); None; None; Some (JNum 2000000, [32]); Some (JNum dbl_inf, [])].
Proof. vm_compute. reflexivity. Qed.

(** ** Facts: digits *)

Lemma digits_value_app a b : digits_value (a ++ b) = digits_value a * 10 ^ zlen b + digits_value b.
Proof.
  unfold digits_value. rewrite fold_left_app.
  assert (forall l n, fold_left (fun n c => n * 10 + (c - 48)) l n =
    n * 10 ^ zlen l + fold_left (fun n c => n * 10 + (c - 48)) l 0) as Hg.
  { induction l as [|c l IH]; intros n; cbn [fold_left]; [rewrite zlen_nil; lia|].
    rewrite (IH (n * 10 + (c - 48))), (IH (0 * 10 + (c - 48))), zlen_cons, Z.pow_add_r by zlia. lia. }
  apply Hg.
Qed.

Lemma digits_value_snoc a c : digits_value (a ++ [c]) = digits_value a * 10 + (c - 48).
Proof. rewrite digits_value_app. change (zlen [c]) with 1. unfold digits_value at 2. simpl. lia. Qed.

Lemma digits_value_zeros n : digits_value (replicate n 48) = 0.
Proof.
  induction n as [|n IH]; [done|]. cbn [replicate].
  by rewrite replicate_cons_app, digits_value_snoc, IH.
Qed.

Lemma dec_digits_spec f n :
  0 <= n < 2 ^ Z.of_nat f ->
  digits (dec_digits f n) /\ digits_value (dec_digits f n) = n /\
  n < 10 ^ zlen (dec_digits f n) /\ (0 < n -> 10 ^ (zlen (dec_digits f n) - 1) <= n).
Proof.
  revert n. induction f as [|f IH]; intros n Hn.
  { simpl in *. assert (n = 0) as -> by lia. split_and!; [constructor|done..|lia]. }
  cbn [dec_digits]. destruct (Z.ltb_spec n 10) as [Hs|Hs].
  { change (zlen [48 + n]) with 1.
    split_and!; [apply Forall_singleton; unfold isdigit; lia| |lia|simpl; lia].
    unfold digits_value. simpl. lia. }
  rewrite Nat2Z.inj_succ, Z.pow_succ_r in Hn by lia.
  destruct (IH (n / 10)) as (Hd & Hv & Hu & Hl).
  { split; [apply Z.div_pos; lia|]. zdivmod. }
  assert (1 <= n / 10) as H1 by (apply Z.div_le_lower_bound; lia).
  pose proof (Z.mod_pos_bound n 10 ltac:(lia)). pose proof (Z.div_mod n 10 ltac:(lia)).
  rewrite digits_value_snoc, zlen_app. change (zlen [_]) with 1.
  assert (0 <= zlen (dec_digits f (n / 10)) - 1).
  { destruct (Z.eq_dec (zlen (dec_digits f (n / 10))) 0) as [E|]; [rewrite E in Hu; simpl in Hu; lia|zlia]. }
  split_and!.
  - apply Forall_app. split; [done|]. apply Forall_singleton. unfold isdigit. lia.
  - lia.
  - rewrite Z.pow_add_r by zlia. lia.
  - intros _. replace (_ + 1 - 1) with (Z.succ (zlen (dec_digits f (n / 10)) - 1)) by lia.
    rewrite Z.pow_succ_r by lia. specialize (Hl ltac:(lia)). lia.
Qed.

Section Dec.
Context (n : Z) (Hn : 0 <= n).

Lemma dec_spec :
  digits (dec n) /\ digits_value (dec n) = n /\ n < 10 ^ zlen (dec n) /\
  (0 < n -> 10 ^ (zlen (dec n) - 1) <= n).
Proof.
  apply dec_digits_spec. split; [done|]. rewrite Nat2Z.inj_succ, Z2Nat.id by apply Z.log2_nonneg.
  destruct (Z.eq_dec n 0) as [->|]; [done|]. apply Z.log2_spec. lia.
Qed.
Lemma dec_digit : digits (dec n).
Proof. apply dec_spec. Qed.
Lemma dec_value : digits_value (dec n) = n.
Proof. apply dec_spec. Qed.
Lemma dec_nonempty : 1 <= zlen (dec n).
Proof.
  unfold dec. cbn [dec_digits]. destruct (n <? 10); [done|].
  rewrite zlen_app. change (zlen [_]) with 1. zlia.
Qed.
(** The length is determined by the magnitude. *)
Lemma dec_length k : 1 <= k -> 10 ^ (k - 1) <= n < 10 ^ k -> zlen (dec n) = k.
Proof.
  intros Hk [Hl Hu]. destruct dec_spec as (_ & _ & Hu' & Hl').
  assert (0 < n) by (pose proof (Z.pow_pos_nonneg 10 (k - 1)); lia).
  specialize (Hl' ltac:(done)). pose proof dec_nonempty.
  assert (zlen (dec n) - 1 < k) by (apply (Z.pow_lt_mono_r_iff 10); lia).
  assert (k - 1 < zlen (dec n)) by (apply (Z.pow_lt_mono_r_iff 10); lia). lia.
Qed.
Lemma dec_length_le k : 1 <= k -> n < 10 ^ k -> zlen (dec n) <= k.
Proof.
  intros Hk Hu. destruct (Z.eq_dec n 0) as [->|]; [done|].
  destruct dec_spec as (_ & _ & _ & Hl'). specialize (Hl' ltac:(lia)).
  assert (zlen (dec n) - 1 < k) by (apply (Z.pow_lt_mono_r_iff 10); lia). lia.
Qed.
End Dec.

Lemma digits_strip l :
  digits l -> exists k, l = strip_zeros l ++ replicate k 48 /\ digits (strip_zeros l).
Proof.
  intros Hl. unfold strip_zeros. pose proof (take_skip_while (Z.eqb 48) (rev l)) as H.
  pose proof (take_while_Forall (Z.eqb 48) (rev l)) as Hz.
  exists (length (take_while (Z.eqb 48) (rev l))). split.
  - assert (forall t, Forall (fun c => (48 =? c) = true) t -> rev t = replicate (length t) 48) as Hr.
    { induction 1 as [|c t Hc Ht IH]; [done|]. apply Z.eqb_eq in Hc as <-. simpl rev.
      rewrite IH. cbn [length replicate]. by rewrite replicate_cons_app. }
    rewrite <- (Hr _ Hz), <- rev_app_distr, H. by rewrite rev_involutive.
  - apply Forall_rev. apply Forall_rev in Hl. rewrite <- H in Hl. by apply Forall_app in Hl as [].
Qed.

(** ** Facts: what is printed is read back *)

Lemma digits_head l c t : digits l -> l = c :: t -> isdigit c = true.
Proof. intros H ->. by inversion H. Qed.

Lemma take_while_id l : digits l -> take_while isdigit l = l /\ skip_while isdigit l = [].
Proof.
  intros H. destruct (take_while_all isdigit l [] H I) as [H1 H2]. by rewrite app_nil_r in *.
Qed.

Lemma sign_of_digit c t : isdigit c = true -> sign_of (c :: t) = (false, c :: t).
Proof.
  unfold isdigit, sign_of. intros.
  destruct (Z.eqb_spec c 45); [lia|]. by destruct (Z.eqb_spec c 43); [lia|].
Qed.

Lemma strtod_exponent_text x : strtod_exponent (exponent_text x) = (x, []).
Proof.
  unfold exponent_text, strtod_exponent. cbn [Z.eqb orb Pos.eqb].
  set (ds := (if Z.abs x <? 10 then [48] else []) ++ dec (Z.abs x)).
  assert (digits ds) as Hd.
  { apply Forall_app. split; [destruct (Z.abs x <? 10); [by apply Forall_singleton|constructor]|].
    apply dec_digit. lia. }
  assert (digits_value ds = Z.abs x) as Hv.
  { unfold ds. rewrite digits_value_app, dec_value by lia. by destruct (Z.abs x <? 10). }
  assert (ds <> []) as Hn.
  { unfold ds. pose proof (dec_nonempty (Z.abs x)). destruct (dec (Z.abs x)); [done|by destruct (Z.abs x <? 10)]. }
  destruct (take_while_id ds Hd) as [Ht Hs].
  destruct (Z.ltb_spec x 0); cbn [sign_of Z.eqb Pos.eqb]; rewrite Ht, Hs;
    (destruct ds eqn:E; [done|rewrite <- E in *; f_equal; lia]).
Qed.

(** The shape of what [printf] writes: sign, digits, fraction, exponent. *)
Section Strtod.
Context (neg : bool) (ip fp : bytes) (Hip : digits ip) (Hfp : digits fp) (Hne : ip <> []).

Lemma strtod_shape (ex : option Z) :
  strtod ((if neg then [45] else []) ++ ip ++ point fp ++ from_option exponent_text [] ex) =
  let d := scale10 (digits_value (ip ++ fp)) (default 0 ex - zlen fp + 9) in
  Some (if neg then - d else d, []).
Proof.
  set (et := from_option exponent_text [] ex).
  assert (strtod_exponent et = (default 0 ex, [])) as He.
  { unfold et. destruct ex; [apply strtod_exponent_text|done]. }
  assert (forall t, sign_of ((if neg then [45] else []) ++ ip ++ t) = (neg, ip ++ t)) as Hsign.
  { intros t. destruct neg; [done|]. destruct ip as [|c ip'] eqn:E; [done|]. simpl app.
    apply sign_of_digit. by apply (digits_head (c :: ip') c ip'). }
  unfold strtod. rewrite Hsign.
  assert (match et with [] => True | c :: _ => isdigit c = false end) as Het by (unfold et; by destruct ex).
  destruct (take_while_all isdigit ip (point fp ++ et) Hip) as [-> ->].
  { destruct fp; [exact Het|done]. }
  destruct fp as [|c fp'] eqn:E.
  - simpl app. rewrite !app_nil_r.
    assert (strtod_fraction et = ([], et)) as ->.
    { unfold et. by destruct ex. }
    destruct ip as [|c ip'] eqn:E2; [done|]. rewrite He, app_nil_r. by destruct neg.
  - rewrite <- E in *. replace (point fp) with (46 :: fp) by (by rewrite E). simpl app. cbn [strtod_fraction].
    rewrite Z.eqb_refl. destruct (take_while_all isdigit fp et Hfp Het) as [-> ->].
    destruct ip as [|c' ip'] eqn:E2; [done|]. simpl app. rewrite He. by destruct neg.
Qed.
End Strtod.

Lemma scale10_exact v x m :
  0 < m < dbl_overflow -> 0 < v -> (0 <= x -> m = v * 10 ^ x) -> (x < 0 -> m * 10 ^ (- x) = v) ->
  scale10 v x = m.
Proof.
  intros Hm Hv Hp Hn. unfold scale10.
  destruct (Z.eqb_spec v 0); [lia|]. destruct (Z.ltb_spec 400 x).
  { exfalso. specialize (Hp ltac:(lia)).
    assert (10 ^ 400 <= 10 ^ x) by (apply Z.pow_le_mono_r; lia).
    assert (dbl_overflow < 10 ^ 400) by (vm_compute; done). nia. }
  destruct (Z.ltb_spec x (- Z.log2 v - 1)).
  { exfalso. specialize (Hn ltac:(pose proof (Z.log2_nonneg v); lia)).
    pose proof (Z.log2_spec v Hv). pose proof (Z.log2_nonneg v).
    assert (2 ^ Z.succ (Z.log2 v) <= 2 ^ (- x)) by (apply Z.pow_le_mono_r; lia).
    assert (2 ^ (- x) <= 10 ^ (- x)) by (apply Z.pow_le_mono_l; lia). nia. }
  replace (if 0 <=? x then v * 10 ^ x else round_half_even v (10 ^ (- x))) with m.
  { destruct (Z.leb_spec dbl_overflow m); [lia|done]. }
  destruct (Z.leb_spec 0 x); [auto|].
  specialize (Hn ltac:(done)). rewrite <- Hn. unfold round_half_even.
  assert (0 < 10 ^ (- x)) by (apply Z.pow_pos_nonneg; lia).
  rewrite Z.div_mul, Z.mod_mul by lia. destruct (Z.ltb_spec (2 * 0) (10 ^ (- x))); [done|lia].
Qed.

(** A number of at most [p] significant digits. *)
Definition significant (p m : Z) : bool :=
  let n := zlen (dec m) in (n <=? p) || (m mod 10 ^ (n - p) =? 0).

Lemma scientific_exact p m :
  1 <= p -> 0 < m -> significant p m = true ->
  let n := zlen (dec m) in
  exists q, scientific p m = (q, n - 10) /\ zlen (dec q) = p /\ 0 < q /\ q * 10 ^ n = m * 10 ^ p.
Proof.
  intros Hp Hm Hs n. destruct (dec_spec m ltac:(lia)) as (_ & _ & Hu & Hl). specialize (Hl Hm).
  pose proof (dec_nonempty m) as Hn1. fold n in Hu, Hl, Hn1.
  unfold scientific, significant in *. fold n in Hs |- *.
  destruct (Z.leb_spec n p) as [Hle|Hgt].
  - exists (m * 10 ^ (p - n)). assert (0 < 10 ^ (p - n)) by (apply Z.pow_pos_nonneg; lia).
    split_and!; [done| |lia|].
    + apply dec_length; [lia..|]. split.
      * replace (p - 1) with ((n - 1) + (p - n)) by lia. rewrite Z.pow_add_r by lia. nia.
      * replace (10 ^ p) with (10 ^ n * 10 ^ (p - n)) by (rewrite <- Z.pow_add_r by lia; f_equal; lia). nia.
    + rewrite <- Z.mul_assoc, <- Z.pow_add_r by lia. do 2 f_equal. lia.
  - cbn [orb] in Hs. apply Z.eqb_eq in Hs.
    assert (0 < 10 ^ (n - p)) as Hpos by (apply Z.pow_pos_nonneg; lia).
    pose proof (Z.div_mod m (10 ^ (n - p)) ltac:(lia)) as Hdm. rewrite Hs, Z.add_0_r in Hdm.
    set (q := m / 10 ^ (n - p)) in *.
    assert (10 ^ n = 10 ^ p * 10 ^ (n - p)) as En by (rewrite <- Z.pow_add_r by lia; f_equal; lia).
    assert (10 ^ (n - 1) = 10 ^ (p - 1) * 10 ^ (n - p)) as En1 by (rewrite <- Z.pow_add_r by lia; f_equal; lia).
    assert (10 ^ (p - 1) <= q < 10 ^ p) as Hq by nia.
    assert (0 < 10 ^ (p - 1)) by (apply Z.pow_pos_nonneg; lia).
    exists q. unfold round_half_even. rewrite Hs. fold q.
    destruct (Z.ltb_spec (2 * 0) (10 ^ (n - p))); [|lia].
    destruct (Z.eqb_spec q (10 ^ p)); [lia|]. split_and!; [done| |lia|].
    + apply dec_length; lia.
    + rewrite En. nia.
Qed.

Section Printed.
Context (p m q : Z) (Hm : 0 < m < dbl_overflow) (Hq : 0 < q) (Hp : 1 <= p).
Let n := zlen (dec m).
Context (Hqm : q * 10 ^ n = m * 10 ^ p).

(** Digits with the value [q] whose last one counts [10^(n - p)] billionths. *)
Lemma strtod_printed (neg : bool) ip l ex :
  digits ip -> digits l -> ip <> [] -> digits_value (ip ++ l) = q -> default 0 ex - zlen l + 9 = n - p ->
  strtod ((if neg then [45] else []) ++ ip ++ fraction l ++ from_option exponent_text [] ex) =
  Some (if neg then - m else m, []).
Proof using All.
  intros Hip Hl Hne Hv Hx. change (fraction l) with (point (strip_zeros l)).
  destruct (digits_strip l Hl) as (k & El & Hsl). rewrite (strtod_shape _ _ _ Hip Hsl Hne).
  set (v := digits_value (ip ++ strip_zeros l)).
  assert (q = v * 10 ^ Z.of_nat k) as Evq.
  { rewrite <- Hv, El, app_assoc, digits_value_app, digits_value_zeros, zlen_replicate. unfold v. lia. }
  assert (zlen l = zlen (strip_zeros l) + Z.of_nat k) as Ezl.
  { rewrite El at 1. rewrite zlen_app, zlen_replicate. done. }
  assert (0 < 10 ^ Z.of_nat k) by (apply Z.pow_pos_nonneg; lia).
  assert (0 <= n) by apply zlen_nonneg.
  cbv zeta. do 2 f_equal. set (x := default 0 ex - zlen (strip_zeros l) + 9).
  assert (x = n - p + Z.of_nat k) as Ex by (unfold x; lia).
  assert (v * (10 ^ (Z.of_nat k + n)) = m * 10 ^ p) as Hvm.
  { rewrite Z.pow_add_r by lia. rewrite <- Hqm, Evq. lia. }
  assert (scale10 v x = m) as ->; [|done].
  apply scale10_exact; [done|nia| |].
  - intros Hx0. apply (Z.mul_reg_r _ _ (10 ^ p)); [apply Z.pow_nonzero; lia|].
    rewrite <- Hvm, <- Z.mul_assoc, <- Z.pow_add_r by lia. do 2 f_equal. lia.
  - intros Hx0. apply (Z.mul_reg_r _ _ (10 ^ (Z.of_nat k + n))); [apply Z.pow_nonzero; lia|].
    rewrite Hvm, <- Z.mul_assoc, <- Z.pow_add_r by lia. do 2 f_equal. lia.
Qed.
End Printed.

Lemma Forall_zeros k : digits (replicate k 48).
Proof. by apply Forall_replicate. Qed.

Lemma printf_g_exact p d :
  1 <= p -> d <> 0 -> Z.abs d < dbl_overflow -> significant p (Z.abs d) = true ->
  strtod (printf_g p d) = Some (d, []).
Proof.
  intros Hp Hd Ho Hs. unfold printf_g. destruct (Z.eqb_spec d 0) as [|_]; [done|].
  set (m := Z.abs d) in *. assert (0 < m < dbl_overflow) as Hm by lia.
  destruct (scientific_exact p m Hp ltac:(lia) Hs) as (q & -> & Hlq & Hq & Hqm).
  set (n := zlen (dec m)) in *. set (x := n - 10).
  pose proof (dec_digit q ltac:(lia)) as Hdq. pose proof (dec_value q ltac:(lia)) as Hvq.
  assert (forall j, 0 < j <= p -> ztake j (dec q) <> []) as Hne.
  { intros j Hj E. assert (zlen (ztake j (dec q)) = 0) as E0 by by rewrite E.
    rewrite zlen_ztake in E0. lia. }
  transitivity (Some (if d <? 0 then - m else m, @nil Z)); [|destruct (Z.ltb_spec d 0); do 2 f_equal; lia].
  destruct ((x <? -4) || (p <=? x)) eqn:Ee; [|apply orb_false_iff in Ee as [E1 E2]; destruct (Z.leb_spec 0 x)].
  - apply (strtod_printed p m q Hm Hq Hp Hqm _ _ _ (Some x));
      [by apply Forall_ztake|by apply Forall_zdrop|apply Hne; lia|by rewrite ztake_zdrop|].
    rewrite zlen_zdrop. simpl default. unfold x, n in *. lia.
  - rewrite <- (app_nil_r (fraction _)).
    apply (strtod_printed p m q Hm Hq Hp Hqm _ _ _ None);
      [by apply Forall_ztake|by apply Forall_zdrop|apply Hne; lia|by rewrite ztake_zdrop|].
    rewrite zlen_zdrop. simpl default. unfold x, n in *. lia.
  - rewrite <- (app_nil_r (fraction _)).
    apply (strtod_printed p m q Hm Hq Hp Hqm _ [48] _ None);
      [by apply Forall_singleton|apply Forall_app; split; [apply Forall_zeros|done]|done| |].
    + rewrite app_assoc, digits_value_app, Hvq.
      change ([48] ++ replicate (Z.to_nat (- x - 1)) 48) with (replicate (S (Z.to_nat (- x - 1))) 48).
      rewrite digits_value_zeros. lia.
    + rewrite zlen_app, zlen_replicate. simpl default. unfold x, n in *. lia.
Qed.

(** A number whose text is read back as it was: an [int], or a finite double
    of at most 15 significant digits. *)
Definition number_ok (d : double) : bool :=
  (d =? dbl_of_int (valueint d)) || ((Z.abs d <? dbl_overflow) && significant 15 (Z.abs d)).

Lemma isinf_small d : Z.abs d < dbl_overflow -> isinf d = false.
Proof. intros H. assert (dbl_overflow <= dbl_inf) by (vm_compute; done). unfold isinf. lia. Qed.

Lemma valueint_small d : d = dbl_of_int (valueint d) -> Z.abs d < dbl_overflow.
Proof.
  intros E. pose proof (valueint_range d) as Hr. unfold INT_MIN, INT_MAX, dbl_of_int, one_s in *.
  assert (2147483648000000000 < dbl_overflow) by (vm_compute; done). lia.
Qed.

Lemma strtod_printf_d n : INT_MIN <= n <= INT_MAX -> strtod (printf_d n) = Some (dbl_of_int n, []).
Proof.
  intros Hn. assert (forall neg m, 0 <= m -> m <= 2147483648 ->
    strtod ((if neg : bool then [45] else []) ++ dec m) = Some (if neg then - dbl_of_int m else dbl_of_int m, [])) as Hg.
  { intros neg m Hm Hm2. pose proof (dec_nonempty m) as Hne.
    pose proof (strtod_shape neg (dec m) [] (dec_digit m Hm) (Forall_nil_2 _)) as Hs.
    specialize (Hs ltac:(by intros E; rewrite E in Hne) None). simpl app in Hs. rewrite !app_nil_r, dec_value in Hs by lia.
    rewrite Hs. cbv zeta. simpl default. rewrite (@zlen_nil Z). do 2 f_equal.
    assert (scale10 m (0 - 0 + 9) = dbl_of_int m) as ->; [|done].
    unfold dbl_of_int, one_s. destruct (Z.eq_dec m 0) as [->|]; [done|].
    assert (2147483648000000000 < dbl_overflow) by (vm_compute; done).
    apply scale10_exact; lia. }
  unfold printf_d, INT_MIN, INT_MAX in *. destruct (Z.ltb_spec n 0).
  - change (45 :: dec (- n)) with ([45] ++ dec (- n)). rewrite (Hg true (- n)) by lia.
    unfold dbl_of_int. do 2 f_equal. lia.
  - rewrite <- (app_nil_l (dec n)). by rewrite (Hg false n) by lia.
Qed.

Lemma strtod_number_text d : number_ok d = true -> strtod (number_text d) = Some (d, []).
Proof.
  unfold number_ok, number_text. intros H.
  destruct (Z.eqb_spec d (dbl_of_int (valueint d))) as [E|E].
  - rewrite isinf_small by by apply valueint_small.
    rewrite E at 2. apply strtod_printf_d, valueint_range.
  - cbn [orb] in H. apply andb_true_iff in H as [Ho%Z.ltb_lt Hs]. rewrite isinf_small by done.
    assert (d <> 0) by (intros ->; by apply E).
    rewrite printf_g_exact by done. unfold compare_double.
    rewrite Z.sub_diag. destruct (Z.leb_spec (Z.abs 0 * 2 ^ 52) (if Z.abs d <? Z.abs d then Z.abs d else Z.abs d)) as [_|Hlt].
    + by apply printf_g_exact.
    + exfalso. destruct (Z.abs d <? Z.abs d); lia.
Qed.

(** ** Facts: the characters and the length of what is printed *)

Abbreviation number_chars := (Forall (fun c => is_number_char c = true)) (only parsing).

Lemma digits_number l : digits l -> number_chars l.
Proof. intros H. eapply Forall_impl; [exact H|]. intros c Hc. unfold is_number_char. by rewrite Hc. Qed.

Lemma fraction_spec l : digits l -> number_chars (fraction l) /\ zlen (fraction l) <= zlen l + 1.
Proof.
  intros Hl. destruct (digits_strip l Hl) as (k & E & Hs). unfold fraction, point.
  assert (zlen (strip_zeros l) <= zlen l) by (rewrite E at 2; rewrite zlen_app; zlia).
  destruct (strip_zeros l) as [|c t] eqn:Es; [split; [constructor|zlia]|].
  split; [constructor; [done|by apply digits_number]|zlia].
Qed.

Lemma exponent_text_spec x : -999 <= x <= 999 -> number_chars (exponent_text x) /\ zlen (exponent_text x) <= 5.
Proof.
  intros Hx. unfold exponent_text. split.
  - do 2 (constructor; [try by destruct (x <? 0)|]). apply digits_number, Forall_app.
    split; [destruct (Z.abs x <? 10); [by apply Forall_singleton|constructor]|apply dec_digit; lia].
  - rewrite !zlen_cons, zlen_app. destruct (Z.ltb_spec (Z.abs x) 10).
    + change (zlen [48]) with 1. pose proof (dec_length_le (Z.abs x) ltac:(lia) 1 ltac:(lia) ltac:(lia)). lia.
    + change (zlen []) with 0. pose proof (dec_length_le (Z.abs x) ltac:(lia) 3 ltac:(lia) ltac:(lia)). lia.
Qed.

Lemma scientific_bounds p m :
  1 <= p -> 0 < m < dbl_inf ->
  let '(q, x) := scientific p m in 0 <= q /\ zlen (dec q) <= p /\ -9 <= x <= 309.
Proof.
  intros Hp Hm. pose proof (dec_nonempty m) as Hn.
  assert (zlen (dec m) <= 318) as Hn2.
  { apply dec_length_le; [lia..|]. assert (dbl_inf < 10 ^ 318) by (vm_compute; done). lia. }
  destruct (dec_spec m ltac:(lia)) as (_ & _ & Hu & _). unfold scientific.
  set (n := zlen (dec m)) in *. destruct (Z.leb_spec n p).
  - assert (0 < 10 ^ (p - n)) by (apply Z.pow_pos_nonneg; lia). split_and!; [lia| |lia..].
    apply dec_length_le; [lia..|].
    replace (10 ^ p) with (10 ^ n * 10 ^ (p - n)) by (rewrite <- Z.pow_add_r by lia; f_equal; lia). nia.
  - assert (0 < 10 ^ (n - p)) as Hpos by (apply Z.pow_pos_nonneg; lia).
    assert (0 <= round_half_even m (10 ^ (n - p)) <= 10 ^ p) as Hr.
    { unfold round_half_even. assert (0 <= m / 10 ^ (n - p) < 10 ^ p); [|repeat case_match; lia].
      split; [apply Z.div_pos; lia|]. apply Z.div_lt_upper_bound; [done|].
      rewrite <- Z.pow_add_r by lia. by replace (n - p + p) with n by lia. }
    assert (10 ^ (p - 1) < 10 ^ p) by (apply Z.pow_lt_mono_r; lia).
    assert (0 < 10 ^ (p - 1)) by (apply Z.pow_pos_nonneg; lia).
    destruct (Z.eqb_spec (round_half_even m (10 ^ (n - p))) (10 ^ p));
      (split_and!; [lia| |lia..]; apply dec_length_le; lia).
Qed.

Lemma printf_g_spec p d :
  1 <= p -> isinf d = false -> number_chars (printf_g p d) /\ zlen (printf_g p d) <= p + 7.
Proof.
  intros Hp Hi. unfold isinf in Hi. unfold printf_g. destruct (Z.eqb_spec d 0).
  { split; [by apply Forall_singleton|]. change (zlen [48]) with 1. lia. }
  pose proof (scientific_bounds p (Z.abs d) Hp ltac:(lia)) as Hs.
  destruct (scientific p (Z.abs d)) as [q x]. destruct Hs as (Hq & Hl & Hx).
  pose proof (dec_digit q Hq) as Hd.
  assert (number_chars (if d <? 0 then [45] else []) /\ zlen (if d <? 0 then [45] else []) <= 1) as [Hc1 Hl1].
  { destruct (d <? 0); (split; [by repeat constructor|done]). }
  destruct (exponent_text_spec x ltac:(lia)) as [Hc2 Hl2].
  destruct (fraction_spec (zdrop 1 (dec q)) ltac:(by apply Forall_zdrop)) as [Hc3 Hl3].
  destruct (fraction_spec (zdrop (x + 1) (dec q)) ltac:(by apply Forall_zdrop)) as [Hc4 Hl4].
  destruct (fraction_spec (replicate (Z.to_nat (- x - 1)) 48 ++ dec q)) as [Hc5 Hl5].
  { apply Forall_app. split; [apply Forall_zeros|done]. }
  rewrite zlen_app, zlen_replicate in Hl5. rewrite zlen_zdrop in Hl3, Hl4.
  assert (forall j, number_chars (ztake j (dec q))) as Ht by (intros; by apply digits_number, Forall_ztake).
  rewrite zlen_app.
  destruct ((x <? -4) || (p <=? x)) eqn:Ee; [|apply orb_false_iff in Ee as [E1 E2]; destruct (Z.leb_spec 0 x)].
  - rewrite !zlen_app, zlen_ztake. split; [by repeat (apply Forall_app; split)|]. lia.
  - rewrite !zlen_app, zlen_ztake. split; [by repeat (apply Forall_app; split)|]. lia.
  - rewrite zlen_cons. split; [apply Forall_app; split; [done|by constructor]|]. lia.
Qed.

Lemma printf_d_spec n : INT_MIN <= n <= INT_MAX -> number_chars (printf_d n) /\ zlen (printf_d n) <= 11.
Proof.
  unfold INT_MIN, INT_MAX, printf_d. intros Hn. destruct (Z.ltb_spec n 0).
  - split; [constructor; [done|]; apply digits_number, dec_digit; lia|].
    rewrite zlen_cons. pose proof (dec_length_le (- n) ltac:(lia) 10 ltac:(lia) ltac:(lia)). lia.
  - split; [apply digits_number, dec_digit; lia|].
    pose proof (dec_length_le n ltac:(lia) 10 ltac:(lia) ltac:(lia)). lia.
Qed.

(** The buffer of 26 bytes is always large enough. *)
Lemma number_text_length d : zlen (number_text d) <= 24.
Proof.
  unfold number_text. destruct (isinf d) eqn:Ei; [done|].
  destruct (d =? _). { pose proof (printf_d_spec _ (valueint_range d)). lia. }
  pose proof (printf_g_spec 15 d ltac:(lia) Ei). pose proof (printf_g_spec 17 d ltac:(lia) Ei).
  destruct (strtod _) as [[]|]; [destruct (compare_double _ _)|]; lia.
Qed.

Lemma number_text_chars d : isinf d = false -> number_chars (number_text d).
Proof.
  intros Ei. unfold number_text. rewrite Ei. destruct (d =? _); [apply printf_d_spec, valueint_range|].
  destruct (strtod _) as [[]|]; [destruct (compare_double _ _)|]; by apply printf_g_spec.
Qed.

Lemma number_ok_finite d : number_ok d = true -> isinf d = false.
Proof.
  unfold number_ok. rewrite orb_true_iff, andb_true_iff. intros [H|[H _]]; apply isinf_small; [|lia].
  apply valueint_small. lia.
Qed.

Lemma parse_number_text d k :
  number_ok d = true -> match k with [] => True | c :: _ => is_number_char c = false end ->
  parse_number (number_text d ++ k) = Some (JNum d, k).
Proof.
  intros H Hk. unfold parse_number.
  destruct (take_while_all is_number_char (number_text d) k) as [-> _]; [by apply number_text_chars, number_ok_finite|done|].
  rewrite strtod_number_text by done. rewrite (@zlen_nil Z), Z.sub_0_r, zdrop_app_ge by lia.
  by rewrite Z.sub_diag.
Qed.

(** The text starts as [parse_value] expects of a number. *)
Definition starts_number (l : bytes) : bool :=
  match l with c :: _ => (c =? 45) || isdigit c | [] => false end.

Lemma starts_number_digits l k : digits l -> 1 <= zlen l -> starts_number (l ++ k) = true.
Proof.
  intros Hl Hn. destruct l as [|c t]; [done|]. inversion Hl as [|? ? Hc]. subst.
  simpl. by rewrite Hc, orb_true_r.
Qed.

Lemma starts_number_printf_d n k : starts_number (printf_d n ++ k) = true.
Proof.
  unfold printf_d. destruct (Z.ltb_spec n 0); [done|].
  apply starts_number_digits; [by apply dec_digit|apply dec_nonempty].
Qed.

Lemma starts_number_printf_g p d k : 1 <= p -> isinf d = false -> starts_number (printf_g p d ++ k) = true.
Proof.
  intros Hp Hi. unfold isinf in Hi. unfold printf_g. destruct (Z.eqb_spec d 0); [done|].
  pose proof (scientific_bounds p (Z.abs d) Hp ltac:(lia)) as Hs.
  destruct (scientific p (Z.abs d)) as [q x]. destruct Hs as (Hq & Hl & Hx).
  pose proof (dec_digit q Hq) as Hd. pose proof (dec_nonempty q).
  destruct (d <? 0); [done|]. rewrite app_nil_l.
  destruct ((x <? -4) || (p <=? x)); [|destruct (Z.leb_spec 0 x); [|done]];
    rewrite <- !app_assoc; (apply starts_number_digits; [by apply Forall_ztake|rewrite zlen_ztake; lia]).
Qed.

Lemma starts_number_text d k : isinf d = false -> starts_number (number_text d ++ k) = true.
Proof.
  intros Ei. unfold number_text. rewrite Ei. destruct (d =? _); [apply starts_number_printf_d|].
  destruct (strtod _) as [[]|]; [destruct (compare_double _ _)|]; by apply starts_number_printf_g.
Qed.
