(* ===== verification/CJsonParse.v ===== *)
(** * The reader of JSON text ([deps/cJSON/cJSON.c])

    [cJSON_Parse] and what it calls.  A [parse_buffer] is its unread part: the
    bytes from [offset] to [length], the last of them the NUL of the text.
    What [depth] leaves of [CJSON_NESTING_LIMIT] is the argument [room], on
    which the recursion is structural.  Allocations succeed. *)
From S2P Require Import Prelude Cstr Json CJsonNum.

(** ** The buffer *)

(** White space is every byte up to the space, the final NUL included; a
    buffer read to its end is put back on its last byte. *)
Fixpoint buffer_skip_whitespace (l : bytes) : bytes :=
  match l with
  | c :: l' =>
      if c <=? 32 then match l' with [] => [c] | _ => buffer_skip_whitespace l' end else l
  | [] => []
  end.

Definition skip_utf8_bom (l : bytes) : bytes :=
  if (4 <? zlen l) && starts_with [239; 187; 191] l then zdrop 3 l else l.

(** ** Strings *)

Definition hex_digit (c : Z) : option Z :=
  if (48 <=? c) && (c <=? 57) then Some (c - 48)
  else if (65 <=? c) && (c <=? 70) then Some (10 + c - 65)
  else if (97 <=? c) && (c <=? 102) then Some (10 + c - 97)
  else None.

(** [n] digits are left; 0 when one of them is no digit. *)
Fixpoint parse_hex (n : nat) (h : Z) (input : bytes) : Z :=
  match n, input with
  | S n', c :: input' =>
      match hex_digit c with
      | Some v =>
          let h := h + v in
          parse_hex n' (match n' with O => h | _ => Z.shiftl h 4 end) input'
      | None => 0
      end
  | _, _ => h
  end.
Definition parse_hex4 (input : bytes) : Z := parse_hex 4 0 input.

(** The bytes after the first one, and what is left of the code point. *)
Fixpoint utf8_tail (utf8_position : nat) (codepoint : Z) : Z * bytes :=
  match utf8_position with
  | O => (codepoint, [])
  | S n =>
      let '(cp, out) := utf8_tail n (Z.shiftr codepoint 6) in
      (cp, out ++ [Z.land (Z.lor codepoint 128) 191])
  end.

Definition utf8_encode (codepoint : Z) : option bytes :=
  if codepoint <? 128 then Some [Z.land codepoint 127]
  else
    let encode n first_byte_mark :=
      let '(cp, out) := utf8_tail n codepoint in
      Some (Z.land (Z.lor cp first_byte_mark) 255 :: out) in
    if codepoint <? 2048 then encode 1%nat 192
    else if codepoint <? 65536 then encode 2%nat 224
    else if codepoint <=? 1114111 then encode 3%nat 240
    else None.

(** The bytes written and the length of the sequence read. *)
Definition utf16_literal_to_utf8 (input : bytes) : option (bytes * Z) :=
  if zlen input <? 6 then None else
  let first_code := parse_hex4 (zdrop 2 input) in
  if (56320 <=? first_code) && (first_code <=? 57343) then None
  else if (55296 <=? first_code) && (first_code <=? 56319) then
    let second_sequence := zdrop 6 input in
    if zlen second_sequence <? 6 then None
    else if negb (starts_with [92; 117] second_sequence) then None
    else
      let second_code := parse_hex4 (zdrop 2 second_sequence) in
      if (second_code <? 56320) || (57343 <? second_code) then None
      else
        match utf8_encode (65536 + Z.lor (Z.shiftl (Z.land first_code 1023) 10) (Z.land second_code 1023)) with
        | Some out => Some (out, 12)
        | None => None
        end
  else match utf8_encode first_code with Some out => Some (out, 6) | None => None end.

(** The first pass: what precedes the closing quote, how many backslashes were
    skipped, and what follows the quote. *)
Fixpoint scan_string (l : bytes) : option (bytes * Z * bytes) :=
  match l with
  | [] => None
  | c :: l' =>
      if c =? 34 then Some ([], 0, l')
      else if c =? 92 then
        match l' with
        | [] => None
        | e :: l'' =>
            match scan_string l'' with
            | Some (body, skipped, rest) => Some (c :: e :: body, skipped + 1, rest)
            | None => None
            end
        end
      else
        match scan_string l' with
        | Some (body, skipped, rest) => Some (c :: body, skipped, rest)
        | None => None
        end
  end.

(** The second pass, over what precedes the closing quote.  A \u sequence may
    swallow the first half of an escape, so a lone backslash can come last: the
    code then reads the closing quote. *)
Fixpoint unescape (fuel : nat) (l : bytes) : option bytes :=
  match fuel, l with
  | _, [] => Some []
  | O, _ => None
  | S f, c :: l' =>
      if negb (c =? 92) then option_map (cons c) (unescape f l')
      else
        let e := match l' with e :: _ => e | [] => 34 end in
        let put x := option_map (cons x) (unescape f (zdrop 2 l)) in
        if e =? 98 then put 8
        else if e =? 102 then put 12
        else if e =? 110 then put 10
        else if e =? 114 then put 13
        else if e =? 116 then put 9
        else if (e =? 34) || (e =? 92) || (e =? 47) then put e
        else if e =? 117 then
          match utf16_literal_to_utf8 l with
          | Some (out, sequence_length) =>
              option_map (app out) (unescape f (zdrop sequence_length l))
          | None => None
          end
        else None
  end.

(** The size of the block the second pass writes into. *)
Definition string_allocation (body : bytes) (skipped : Z) : Z := (zlen body + 1) - skipped + 1.

(** The string is what C sees of the bytes written. *)
Definition parse_string (l : bytes) : option (string * bytes) :=
  match l with
  | c :: l' =>
      if c =? 34 then
        match scan_string l' with
        | Some (body, _, rest) =>
            match unescape (length body) body with
            | Some output => Some (string_of_bytes (cstr output), rest)
            | None => None
            end
        | None => None
        end
      else None
  | [] => None
  end.

(** ** Arrays and objects, over the parser of the values in them *)

Section Containers.
Context (parse_item : bytes -> option (json * bytes)).

(** From behind the bracket or a comma; at most one round per byte. *)
Fixpoint parse_elements (fuel : nat) (l : bytes) (head : list json) : option (list json * bytes) :=
  match fuel with
  | O => None
  | S f =>
      match parse_item (buffer_skip_whitespace l) with
      | None => None
      | Some (x, l1) =>
          match buffer_skip_whitespace l1 with
          | c :: l2 =>
              if c =? 44 then parse_elements f l2 (head ++ [x])
              else if c =? 93 then Some (head ++ [x], l2)
              else None
          | [] => None
          end
      end
  end.

Definition parse_array (l : bytes) : option (json * bytes) :=
  match l with
  | c :: l0 =>
      if c =? 91 then
        match buffer_skip_whitespace l0 with
        | [] => None
        | c1 :: l1 =>
            if c1 =? 93 then Some (JArr [], l1)
            else match parse_elements (S (length l1)) (c1 :: l1) [] with
                 | Some (items, rest) => Some (JArr items, rest)
                 | None => None
                 end
        end
      else None
  | [] => None
  end.

Fixpoint parse_members (fuel : nat) (l : bytes) (head : list (string * json)) :
    option (list (string * json) * bytes) :=
  match fuel with
  | O => None
  | S f =>
      match l with
      | [] => None
      | _ =>
          match parse_string (buffer_skip_whitespace l) with
          | None => None
          | Some (name, l1) =>
              match buffer_skip_whitespace l1 with
              | c :: l2 =>
                  if negb (c =? 58) then None
                  else match parse_item (buffer_skip_whitespace l2) with
                       | None => None
                       | Some (x, l3) =>
                           match buffer_skip_whitespace l3 with
                           | c :: l4 =>
                               if c =? 44 then parse_members f l4 (head ++ [(name, x)])
                               else if c =? 125 then Some (head ++ [(name, x)], l4)
                               else None
                           | [] => None
                           end
                       end
              | [] => None
              end
          end
      end
  end.

Definition parse_object (l : bytes) : option (json * bytes) :=
  match l with
  | c :: l0 =>
      if c =? 123 then
        match buffer_skip_whitespace l0 with
        | [] => None
        | c1 :: l1 =>
            if c1 =? 125 then Some (JObj [], l1)
            else match parse_members (S (length l1)) (c1 :: l1) [] with
                 | Some (items, rest) => Some (JObj items, rest)
                 | None => None
                 end
        end
      else None
  | [] => None
  end.
End Containers.

(** ** Values *)

Definition CJSON_NESTING_LIMIT : nat := 1000.

Fixpoint parse_value (room : nat) (l : bytes) : option (json * bytes) :=
  if starts_with (bytes_of_string "null") l then Some (JNull, zdrop 4 l)
  else if starts_with (bytes_of_string "false") l then Some (JBool false, zdrop 5 l)
  else if starts_with (bytes_of_string "true") l then Some (JBool true, zdrop 4 l)
  else
    match l with
    | [] => None
    | c :: _ =>
        if c =? 34 then
          match parse_string l with Some (s, rest) => Some (JStr s, rest) | None => None end
        else if (c =? 45) || ((48 <=? c) && (c <=? 57)) then parse_number l
        else if c =? 91 then
          match room with O => None | S r => parse_array (parse_value r) l end
        else if c =? 123 then
          match room with O => None | S r => parse_object (parse_value r) l end
        else None
    end.

(** [require_null_terminated]: only white space may follow the value. *)
Definition cJSON_ParseWithOpts (value : string) (require_null_terminated : bool) : option json :=
  let buffer := cstr (bytes_of_string value) ++ [0] in
  match parse_value CJSON_NESTING_LIMIT (buffer_skip_whitespace (skip_utf8_bom buffer)) with
  | None => None
  | Some (item, rest) =>
      if require_null_terminated then
        match buffer_skip_whitespace rest with
        | c :: _ => if c =? 0 then Some item else None
        | [] => None
        end
      else Some item
  end.
(** [cJSON_Parse]: whatever follows the value is ignored. *)
Definition cjson_parse (value : string) : option json := cJSON_ParseWithOpts value false.

Example cjson_parse_examples :
  cjson_parse " {'a' : [1, -2.5e1,null ], 'b':{}} trailing" = None /\
  parse_value 3 (bytes_of_string " [") = None /\
  cjson_parse "[1 , true,[]]]]" = Some (JArr [JNum one_s; JBool true; JArr []]) /\
  cJSON_ParseWithOpts "[1 , true,[]]]]" true = None /\
  cJSON_ParseWithOpts " false  " true = Some (JBool false) /\
  cjson_parse "" = None /\ cjson_parse "[" = None /\ cjson_parse "[1,]" = None /\ cjson_parse "nul" = None.
Proof. vm_compute. done. Qed.

Example parse_string_examples :
  let str (l : string) := option_map fst (parse_string (34 :: bytes_of_string l ++ [34; 0])) in
  str "a\n\t\/\\" = Some (string_of_bytes [97; 10; 9; 47; 92]) /\
  str "\u00e9\u20AC\ud83d\ude00" = Some (string_of_bytes [195; 169; 226; 130; 172; 240; 159; 152; 128]) /\
  str "\ud83d" = None /\ str "\ude00" = None /\ str "\x" = None /\ str "a\" = None /\
  str "ab\uZZZZcd" = Some "ab"%string /\ str "ab\u00000cd" = Some "ab"%string.
Proof. vm_compute. done. Qed.

(** ** Facts: every parser consumes input *)

Lemma buffer_skip_whitespace_length l : (length (buffer_skip_whitespace l) <= length l)%nat.
Proof.
  induction l as [|c l IH]; [done|]. cbn [buffer_skip_whitespace].
  destruct (c <=? 32); [|done]. destruct l; simpl in *; lia.
Qed.

Lemma buffer_skip_whitespace_idem l :
  buffer_skip_whitespace (buffer_skip_whitespace l) = buffer_skip_whitespace l.
Proof.
  induction l as [|c l IH]; [done|]. cbn [buffer_skip_whitespace].
  destruct (Z.leb_spec c 32); [destruct l as [|c' l']; [simpl; by destruct (Z.leb_spec c 32)|done]|].
  simpl. by destruct (Z.leb_spec c 32); [lia|].
Qed.

Lemma buffer_skip_whitespace_solid c l : 32 < c -> buffer_skip_whitespace (c :: l) = c :: l.
Proof. intros. simpl. by destruct (Z.leb_spec c 32); [lia|]. Qed.

Lemma scan_string_spec l body skipped rest :
  scan_string l = Some (body, skipped, rest) -> l = body ++ 34 :: rest.
Proof.
  remember (length l) as n eqn:En. revert l body skipped rest En.
  induction n as [n IH] using lt_wf_ind. intros [|c l] body skipped rest En; [done|]. simpl.
  destruct (Z.eqb_spec c 34) as [->|]; [by intros [= <- <- <-]|].
  destruct (Z.eqb_spec c 92) as [->|].
  - destruct l as [|e l]; [done|]. simpl in En.
    destruct (scan_string l) as [[[b s] r]|] eqn:E; [|done]. intros [= <- <- <-].
    by rewrite (IH (length l) ltac:(lia) l b s r eq_refl E).
  - destruct (scan_string l) as [[[b s] r]|] eqn:E; [|done]. intros [= <- <- <-]. simpl in En.
    by rewrite (IH (length l) ltac:(lia) l b s r eq_refl E).
Qed.

Lemma parse_string_shorter l s rest : parse_string l = Some (s, rest) -> (length rest < length l)%nat.
Proof.
  unfold parse_string. destruct l as [|c l]; [done|]. destruct (c =? 34); [|done].
  destruct (scan_string l) as [[[body sk] r]|] eqn:E; [|done]. destruct (unescape _ _); [|done].
  intros [= <- <-]. apply scan_string_spec in E as ->. simpl. rewrite length_app. simpl. lia.
Qed.

Lemma sign_of_length l : (length (sign_of l).2 <= length l)%nat.
Proof. unfold sign_of. repeat case_match; simpl; lia. Qed.

Lemma strtod_fraction_length l : (length (strtod_fraction l).1 + length (strtod_fraction l).2 <= length l)%nat.
Proof.
  unfold strtod_fraction. destruct l as [|c t]; [done|]. destruct (c =? 46); [|done].
  simpl. rewrite <- length_app, take_skip_while. lia.
Qed.

Lemma strtod_exponent_length l : (length (strtod_exponent l).2 <= length l)%nat.
Proof.
  unfold strtod_exponent. destruct l as [|c t]; [done|]. destruct ((c =? 101) || (c =? 69)); [|done].
  pose proof (sign_of_length t). destruct (sign_of t) as [neg t1]. simpl in *.
  pose proof (skip_while_length isdigit t1). destruct (take_while isdigit t1); simpl; lia.
Qed.

Lemma strtod_shorter l d k : strtod l = Some (d, k) -> (length k < length l)%nat.
Proof.
  unfold strtod. pose proof (sign_of_length l) as Hs. destruct (sign_of l) as [neg l1]. simpl in Hs.
  pose proof (take_skip_while isdigit l1) as H1. apply (f_equal length) in H1. rewrite length_app in H1.
  pose proof (strtod_fraction_length (skip_while isdigit l1)) as H2.
  destruct (strtod_fraction _) as [fp l3]. simpl in H2.
  pose proof (strtod_exponent_length l3) as H3. destruct (strtod_exponent l3) as [e l4]. simpl in H3.
  destruct (take_while isdigit l1 ++ fp) as [|c t] eqn:E; [done|]. intros [= _ <-].
  apply (f_equal length) in E. rewrite length_app in E. simpl in E. lia.
Qed.

Lemma parse_number_shorter l j rest : parse_number l = Some (j, rest) -> (length rest < length l)%nat.
Proof.
  unfold parse_number. destruct (strtod _) as [[d k]|] eqn:E; [|done]. intros [= _ <-].
  apply strtod_shorter in E. pose proof (take_skip_while is_number_char l) as H.
  apply (f_equal length) in H. rewrite length_app in H. unfold zdrop, zlen. rewrite length_drop. lia.
Qed.

Section Consume.
Context (parse_item : bytes -> option (json * bytes)).
Context (Hitem : forall l j rest, parse_item l = Some (j, rest) -> (length rest < length l)%nat).

Ltac shorter :=
  repeat match goal with
  | H : parse_item _ = Some _ |- _ => apply Hitem in H
  | H : parse_string _ = Some _ |- _ => apply parse_string_shorter in H
  | H : buffer_skip_whitespace ?l = _ :: _ |- _ =>
      pose proof (buffer_skip_whitespace_length l); rewrite H in *; clear H
  | H : context [buffer_skip_whitespace ?l] |- _ =>
      lazymatch goal with
      | _ : (length (buffer_skip_whitespace l) <= length l)%nat |- _ => fail
      | _ => pose proof (buffer_skip_whitespace_length l)
      end
  end; simpl in *; lia.

Lemma parse_elements_shorter fuel l head items rest :
  parse_elements parse_item fuel l head = Some (items, rest) -> (length rest < length l)%nat.
Proof using Hitem.
  revert l head. induction fuel as [|f IH]; intros l head; [done|]. cbn [parse_elements].
  destruct (parse_item _) as [[x l1]|] eqn:E1; [|done].
  destruct (buffer_skip_whitespace l1) as [|c l2] eqn:E2; [done|].
  destruct (c =? 44); [intros H%IH|destruct (c =? 93); [intros [= _ <-]|done]]; shorter.
Qed.

Lemma parse_members_shorter fuel l head items rest :
  parse_members parse_item fuel l head = Some (items, rest) -> (length rest < length l)%nat.
Proof using Hitem.
  revert l head. induction fuel as [|f IH]; intros l head; [done|]. cbn [parse_members].
  destruct l as [|c0 l0]; [done|]. set (l := c0 :: l0).
  destruct (parse_string _) as [[name l1]|] eqn:E1; [|done].
  destruct (buffer_skip_whitespace l1) as [|c l2] eqn:E2; [done|]. destruct (negb (c =? 58)); [done|].
  destruct (parse_item _) as [[x l3]|] eqn:E3; [|done].
  destruct (buffer_skip_whitespace l3) as [|c4 l4] eqn:E4; [done|].
  destruct (c4 =? 44); [intros H%IH|destruct (c4 =? 125); [intros [= _ <-]|done]]; shorter.
Qed.

(** One round per byte is enough: more rounds change nothing. *)
Lemma parse_elements_fuel fuel l head :
  (length l < fuel)%nat -> parse_elements parse_item fuel l head = parse_elements parse_item (S (length l)) l head.
Proof using Hitem.
  remember (length l) as n eqn:En. revert l En fuel head. induction n as [n IH] using lt_wf_ind.
  intros l En [|f] head Hf; [lia|]. cbn [parse_elements].
  destruct (parse_item _) as [[x l1]|] eqn:E1; [|done].
  destruct (buffer_skip_whitespace l1) as [|c l2] eqn:E2; [done|]. destruct (c =? 44); [|done].
  assert (length l2 < n)%nat as H2 by shorter.
  rewrite (IH _ H2 l2 eq_refl f), (IH _ H2 l2 eq_refl n) by lia. done.
Qed.

Lemma parse_members_fuel fuel l head :
  (length l < fuel)%nat -> parse_members parse_item fuel l head = parse_members parse_item (S (length l)) l head.
Proof using Hitem.
  remember (length l) as n eqn:En. revert l En fuel head. induction n as [n IH] using lt_wf_ind.
  intros l En [|f] head Hf; [lia|]. cbn [parse_members]. destruct l as [|c0 l0]; [done|].
  set (l := c0 :: l0) in *. destruct (parse_string _) as [[name l1]|] eqn:E1; [|done].
  destruct (buffer_skip_whitespace l1) as [|c l2] eqn:E2; [done|]. destruct (negb (c =? 58)); [done|].
  destruct (parse_item _) as [[x l3]|] eqn:E3; [|done].
  destruct (buffer_skip_whitespace l3) as [|c4 l4] eqn:E4; [done|]. destruct (c4 =? 44); [|done].
  assert (length l4 < n)%nat as H4 by shorter.
  rewrite (IH _ H4 l4 eq_refl f), (IH _ H4 l4 eq_refl n) by lia. done.
Qed.

Lemma parse_array_shorter l j rest : parse_array parse_item l = Some (j, rest) -> (length rest < length l)%nat.
Proof using Hitem.
  unfold parse_array. destruct l as [|c l0]; [done|]. destruct (c =? 91); [|done].
  destruct (buffer_skip_whitespace l0) as [|c1 l1] eqn:E; [done|].
  destruct (c1 =? 93); [intros [= _ <-]; shorter|].
  destruct (parse_elements _ _ _ _) as [[items r]|] eqn:E2; [|done]. intros [= _ <-].
  apply parse_elements_shorter in E2. shorter.
Qed.

Lemma parse_object_shorter l j rest : parse_object parse_item l = Some (j, rest) -> (length rest < length l)%nat.
Proof using Hitem.
  unfold parse_object. destruct l as [|c l0]; [done|]. destruct (c =? 123); [|done].
  destruct (buffer_skip_whitespace l0) as [|c1 l1] eqn:E; [done|].
  destruct (c1 =? 125); [intros [= _ <-]; shorter|].
  destruct (parse_members _ _ _ _) as [[items r]|] eqn:E2; [|done]. intros [= _ <-].
  apply parse_members_shorter in E2. shorter.
Qed.
End Consume.

Lemma starts_with_shorter p l n :
  starts_with p l = true -> length p = n -> (0 < n)%nat -> (length (zdrop (Z.of_nat n) l) < length l)%nat.
Proof. intros (t & ->)%starts_with_spec Hp Hn. unfold zdrop. rewrite length_drop, length_app. lia. Qed.

Lemma parse_value_shorter room l j rest : parse_value room l = Some (j, rest) -> (length rest < length l)%nat.
Proof.
  revert l j rest. induction room as [|r IH]; intros l j rest; cbn [parse_value];
    (destruct (starts_with (bytes_of_string "null") l) eqn:E1;
      [intros [= _ <-]; exact (starts_with_shorter _ _ 4 E1 eq_refl ltac:(lia))|]);
    (destruct (starts_with (bytes_of_string "false") l) eqn:E2;
      [intros [= _ <-]; exact (starts_with_shorter _ _ 5 E2 eq_refl ltac:(lia))|]);
    (destruct (starts_with (bytes_of_string "true") l) eqn:E3;
      [intros [= _ <-]; exact (starts_with_shorter _ _ 4 E3 eq_refl ltac:(lia))|]);
    (destruct l as [|c l0]; [done|]);
    (destruct (c =? 34);
      [destruct (parse_string _) as [[s k]|] eqn:E; [intros [= _ <-]; by apply parse_string_shorter in E|done]|]);
    (destruct ((c =? 45) || _); [apply parse_number_shorter|]);
    [by destruct (c =? 91), (c =? 123)|].
  destruct (c =? 91); [by apply parse_array_shorter|]. destruct (c =? 123); [by apply parse_object_shorter|done].
Qed.

(** ** Facts: the string parser stays inside its block *)

(** The backslashes the first pass skips. *)
Fixpoint pairs (l : bytes) : Z :=
  match l with
  | [] => 0
  | c :: l' =>
      if c =? 92 then match l' with [] => 0 | _ :: l'' => 1 + pairs l'' end else pairs l'
  end.

Lemma scan_string_pairs l body skipped rest :
  scan_string l = Some (body, skipped, rest) -> skipped = pairs body.
Proof.
  remember (length l) as n eqn:En. revert l body skipped rest En.
  induction n as [n IH] using lt_wf_ind. intros [|c l] body skipped rest En; [done|]. simpl.
  destruct (Z.eqb_spec c 34) as [->|]; [by intros [= <- <- <-]|].
  destruct (Z.eqb_spec c 92) as [->|].
  - destruct l as [|e l]; [done|]. simpl in En.
    destruct (scan_string l) as [[[b s] r]|] eqn:E; [|done]. intros [= <- <- <-].
    simpl. rewrite (IH (length l) ltac:(lia) l b s r eq_refl E). lia.
  - destruct (scan_string l) as [[[b s] r]|] eqn:E; [|done]. intros [= <- <- <-]. simpl in En.
    simpl. destruct (Z.eqb_spec c 92); [done|]. by apply (IH (length l) ltac:(lia) l b s r eq_refl E).
Qed.

Lemma pairs_cons c l : pairs l <= pairs (c :: l) <= 1 + pairs l.
Proof.
  remember (length l) as n eqn:En. revert c l En. induction n as [n IH] using lt_wf_ind. intros c l En.
  simpl. destruct (Z.eqb_spec c 92) as [->|]; [|lia]. destruct l as [|e l']; [simpl; lia|].
  pose proof (IH (length l') ltac:(simpl in En; lia) e l' eq_refl). lia.
Qed.

Lemma pairs_drop n l : pairs l <= Z.of_nat n + pairs (drop n l).
Proof.
  revert l. induction n as [|n IH]; intros l; [rewrite drop_0; lia|].
  destruct l as [|c l]; [simpl; lia|]. pose proof (pairs_cons c l). simpl drop. specialize (IH l). lia.
Qed.

Lemma hex_digit_plain c v : hex_digit c = Some v -> c <> 92 /\ 0 <= v < 16.
Proof. unfold hex_digit. repeat case_match; intros; simplify_eq; lia. Qed.

(** Digits are no backslashes. *)
Lemma parse_hex4_pairs l : parse_hex4 l <> 0 -> pairs l = pairs (drop 4 l).
Proof.
  unfold parse_hex4. assert (forall c l, c <> 92 -> pairs (c :: l) = pairs l) as Hp.
  { intros c k Hc. simpl. by destruct (Z.eqb_spec c 92). }
  destruct l as [|a [|b [|c [|d l]]]]; cbn [parse_hex];
    repeat match goal with
    | |- context [hex_digit ?x] =>
        destruct (hex_digit x) eqn:?; [|done];
        match goal with H : hex_digit x = Some _ |- _ => apply hex_digit_plain in H as [? _] end
    end; intros _; by rewrite ?Hp.
Qed.

Lemma utf8_encode_length cp out : utf8_encode cp = Some out -> zlen out <= 4.
Proof.
  assert (forall n c, zlen (utf8_tail n c).2 = Z.of_nat n) as Ht.
  { induction n as [|n IH]; intros c; [done|]. cbn [utf8_tail]. specialize (IH (Z.shiftr c 6)).
    destruct (utf8_tail n _) as [c' o]. simpl in *. rewrite zlen_app, IH. change (zlen [_]) with 1. lia. }
  unfold utf8_encode. pose proof (Ht 1%nat cp). pose proof (Ht 2%nat cp). pose proof (Ht 3%nat cp).
  destruct (utf8_tail 1 cp), (utf8_tail 2 cp), (utf8_tail 3 cp). simpl in *.
  repeat case_match; intros; simplify_eq; rewrite ?zlen_cons, ?zlen_nil; lia.
Qed.

Lemma utf16_literal_fits c l out n :
  utf16_literal_to_utf8 (92 :: c :: l) = Some (out, n) ->
  (n = 6 \/ n = 12) /\ n <= 2 + zlen l /\ zlen out <= n - pairs (92 :: c :: l) + pairs (zdrop n (92 :: c :: l)).
Proof.
  unfold utf16_literal_to_utf8. change (zdrop 2 (92 :: c :: l)) with l. change (zdrop 6 (92 :: c :: l)) with (drop 4 l).
  assert (pairs (92 :: c :: l) = 1 + pairs l) as Hp by done. rewrite !zlen_cons.
  destruct (Z.ltb_spec (1 + (1 + zlen l)) 6); [done|].
  destruct (_ && (_ <=? 57343)); [done|].
  destruct (Z.leb_spec 55296 (parse_hex4 l)); [destruct (Z.leb_spec (parse_hex4 l) 56319)|]; cbn [andb].
  2,3: destruct (utf8_encode (parse_hex4 l)) as [o|] eqn:E; [|done]; intros [= <- <-]; rewrite Hp;
    change (zdrop 6 (92 :: c :: l)) with (drop 4 l); (split_and!; [by left|lia|]);
    (destruct (Z.eq_dec (parse_hex4 l) 0) as [E0|E0];
     [rewrite E0 in E; injection E as <-; pose proof (pairs_drop 4 l); change (zlen [_]) with 1; lia
     |apply parse_hex4_pairs in E0; apply utf8_encode_length in E; lia]).
  destruct (Z.ltb_spec (zlen (drop 4 l)) 6); [done|].
  destruct (starts_with [92; 117] (drop 4 l)) eqn:Es; [|done]. cbn [negb].
  apply starts_with_spec in Es as [t Et]. rewrite Et in *. change (zdrop 2 ([92; 117] ++ t)) with t.
  destruct (Z.ltb_spec (parse_hex4 t) 56320); [done|]. cbn [orb]. destruct (57343 <? _); [done|].
  destruct (utf8_encode _) as [o|] eqn:E; [|done]. intros [= <- <-]. apply utf8_encode_length in E.
  pose proof (parse_hex4_pairs l ltac:(lia)) as Hp1. pose proof (parse_hex4_pairs t ltac:(lia)) as Hp2.
  change (zdrop 12 (92 :: c :: l)) with (drop 10 l). replace (drop 10 l) with (drop 4 t).
  2:{ change 10%nat with (4 + 6)%nat. rewrite <- drop_drop, Et. done. }
  assert (zlen (drop 4 l) <= zlen l - 4) by (unfold zlen in *; rewrite length_drop; lia).
  rewrite Et in *. cbn in Hp1. split_and!; [by right|lia|]. rewrite Hp, Hp1. lia.
Qed.

Lemma unescape_fits f l out : unescape f l = Some out -> zlen out <= zlen l - pairs l.
Proof.
  revert l out. induction f as [|f IH]; intros [|c l] out; try done; [by intros [= <-]..|].
  cbn [unescape]. destruct (Z.eqb_spec c 92) as [->|Hc]; cbn [negb].
  2:{ destruct (unescape f l) as [o|] eqn:E; [|done]. intros [= <-]. apply IH in E.
      simpl. destruct (Z.eqb_spec c 92); [done|]. rewrite !zlen_cons. lia. }
  assert (forall x o, unescape f (zdrop 2 (92 :: l)) = Some o -> zlen (x :: o : bytes) <= zlen (92 :: l) - pairs (92 :: l)) as Hput.
  { intros x o E%IH. destruct l as [|e l']; [change (zlen o <= 0) in E; rewrite zlen_cons; change (1 + zlen o <= 1); lia|].
    change (zdrop 2 (92 :: e :: l')) with l' in E. cbn [pairs Z.eqb Pos.eqb]. rewrite !zlen_cons. lia. }
  set (e := match l with e :: _ => e | [] => 34 end).
  repeat match goal with
  | |- (if ?b then option_map (cons _) ?u else _) = _ -> _ =>
      destruct b; [destruct u as [o|] eqn:E; [intros [= <-]; by apply Hput|done]|]
  end.
  destruct (Z.eqb_spec e 117) as [He|]; [|done]. destruct l as [|c l]; [done|].
  destruct (utf16_literal_to_utf8 _) as [[o n]|] eqn:Eu; [|done].
  apply utf16_literal_fits in Eu as (Hn & Hl & Ho).
  destruct (unescape f (zdrop n _)) as [o2|] eqn:E; [|done]. intros [= <-]. apply IH in E.
  rewrite zlen_app. rewrite zlen_zdrop, !zlen_cons in E. rewrite !zlen_cons. lia.
Qed.

(** C14: the string reader of cJSON sizes its block by the first pass over the
    literal and writes it in the second: whatever the escapes (surrogate pairs,
    invalid hexadecimal digits, a \u sequence that swallows half of the next
    escape), what it writes, the final NUL included, fits the block. *)
Theorem parse_string_fits l body skipped rest output :
  scan_string l = Some (body, skipped, rest) -> unescape (length body) body = Some output ->
  zlen output + 1 <= string_allocation body skipped.
Proof.
  intros H%scan_string_pairs Ho%unescape_fits. unfold string_allocation. lia.
Qed.

(** One byte short of the block: an escape that reads the closing quote. *)
Example parse_string_fits_witness :
  let body := bytes_of_string "\u123\\" in
  scan_string (body ++ [34; 0]) = Some (body, 2, [0]) /\
  unescape (length body) body = Some [0; 34] /\ zlen [0; 34] + 1 <= string_allocation body 2.
Proof.
  assert (scan_string (bytes_of_string "\u123\\" ++ [34; 0]) = Some (bytes_of_string "\u123\\", 2, [0])) as H
    by (vm_compute; reflexivity).
  assert (unescape (length (bytes_of_string "\u123\\")) (bytes_of_string "\u123\\") = Some [0; 34]) as H2
    by (vm_compute; reflexivity).
  split; [exact H|split; [exact H2|exact (parse_string_fits _ _ _ _ _ H H2)]].
Defined.

(** Bytes of the literal are the fuel of the second pass: more changes nothing. *)
Lemma unescape_fuel f l : (length l <= f)%nat -> unescape f l = unescape (length l) l.
Proof.
  remember (length l) as n eqn:En. revert f l En. induction n as [n IH] using lt_wf_ind.
  intros f [|c l] En Hf; [by destruct f, n|]. destruct f as [|f]; [simpl in En; lia|]. destruct n as [|n]; [done|].
  simpl in En. cbn [unescape].
  assert (forall k, (1 <= k)%nat -> unescape f (drop k (c :: l)) = unescape n (drop k (c :: l))) as Hk.
  { intros k Hk. assert (length (drop k (c :: l)) <= n)%nat by (rewrite length_drop; simpl; lia).
    rewrite (IH (length (drop k (c :: l))) ltac:(lia) f) by (try done; lia).
    by rewrite (IH (length (drop k (c :: l))) ltac:(lia) n) by (try done; lia). }
  destruct (Z.eqb_spec c 92) as [->|]; cbn [negb]; [|by rewrite (Hk 1%nat ltac:(lia) : unescape f l = unescape n l)].
  change (zdrop 2 (92 :: l)) with (drop 2 (92 :: l)). rewrite (Hk 2%nat) by lia.
  destruct (utf16_literal_to_utf8 (92 :: l)) as [[o k]|] eqn:Eu; [|done].
  destruct l as [|e l]; [done|]. apply utf16_literal_fits in Eu as (Hn & _).
  unfold zdrop. by rewrite (Hk (Z.to_nat k)) by lia.
Qed.

(** A text that opens more arrays than [CJSON_NESTING_LIMIT] is refused,
    whatever follows, before the recursion goes any deeper. *)
Theorem nesting_limit_refused k :
  cjson_parse (string_of_bytes (replicate (S CJSON_NESTING_LIMIT) 91) +:+ k) = None.
Proof.
  unfold cjson_parse, cJSON_ParseWithOpts.
  assert (forall n l, parse_value n (replicate (S n) 91 ++ l) = None) as Hdeep.
  { induction n as [|n IH]; intros l; [done|].
    change (replicate (S (S n)) 91) with (91 :: 91 :: replicate n 91). cbn [app parse_value].
    simpl starts_with. cbn [Z.eqb Pos.eqb orb Z.leb Z.compare andb Pos.compare Pos.compare_cont].
    unfold parse_array. rewrite Z.eqb_refl, buffer_skip_whitespace_solid by lia.
    cbn [Z.eqb Pos.eqb parse_elements]. rewrite buffer_skip_whitespace_solid by lia.
    change (91 :: replicate n 91 ++ l) with (replicate (S n) 91 ++ l). by rewrite IH. }
  assert (forall n s, cstr (bytes_of_string (string_of_bytes (replicate n 91) +:+ s)) =
    replicate n 91 ++ cstr (bytes_of_string s)) as Hc.
  { induction n as [|n IH]; intros s; [done|]. simpl. by rewrite IH. }
  rewrite Hc, <- app_assoc. generalize (cstr (bytes_of_string k) ++ [0]). intros l.
  unfold skip_utf8_bom. change (replicate (S CJSON_NESTING_LIMIT) 91 ++ l) with (91 :: replicate CJSON_NESTING_LIMIT 91 ++ l).
  cbn [starts_with Z.eqb Pos.eqb andb]. rewrite andb_false_r, buffer_skip_whitespace_solid by lia.
  change (91 :: replicate CJSON_NESTING_LIMIT 91 ++ l) with (replicate (S CJSON_NESTING_LIMIT) 91 ++ l).
  by rewrite Hdeep.
Qed.
