(* ===== verification/CJsonPrint.v ===== *)
(** * The printer of JSON text ([deps/cJSON/cJSON.c])

    [print] and what it calls, on the buffer it grows: every store is checked
    against the block it goes to.  [value_text] is the text it is meant to
    print; [print_value_spec] shows that it does, inside the block.

    Bytes nobody has written hold what [indeterminate] says.  Allocations
    succeed. *)
From S2P Require Import Prelude Cstr Json CJsonNum CJsonParse.

(** A C function that prints: it may fail (false, NULL), and a store or a read
    outside the block has no meaning. *)
Inductive outcome (A : Type) : Type := POk (a : A) | PFail | PInvalid.
Arguments POk {A} a.
Arguments PFail {A}.
Arguments PInvalid {A}.
#[export] Instance outcome_bind : MBind outcome := fun A B f x =>
  match x with POk a => f a | PFail => PFail | PInvalid => PInvalid end.

(** [length] is the length of the block. *)
Record printbuffer := mk_printbuffer {
  buffer : bytes;
  offset : Z;
  depth : Z;
  noalloc : bool;
  format : bool }.

Definition with_buffer (b : bytes) (p : printbuffer) : printbuffer :=
  mk_printbuffer b (offset p) (depth p) (noalloc p) (format p).
(** [p->offset += n]. *)
Definition advance (n : Z) (p : printbuffer) : printbuffer :=
  mk_printbuffer (buffer p) (offset p + n) (depth p) (noalloc p) (format p).
Definition deeper (n : Z) (p : printbuffer) : printbuffer :=
  mk_printbuffer (buffer p) (offset p) (depth p + n) (noalloc p) (format p).

Section Print.
Context (indeterminate : Z -> Z).

Definition allocate (n : Z) : bytes := map indeterminate (zrange (Z.to_nat n)).
Definition reallocate (b : bytes) (n : Z) : bytes :=
  ztake n b ++ zdrop (zlen b) (allocate n).

(** Afterwards there is room for [needed] bytes and one more at [offset]. *)
Definition ensure (p : printbuffer) (needed : Z) : outcome printbuffer :=
  let length := zlen (buffer p) in
  if (0 <? length) && (length <=? offset p) then PFail
  else if INT_MAX <? needed then PFail
  else
    let needed := needed + offset p + 1 in
    if needed <=? length then POk p
    else if noalloc p then PFail
    else if Z.quot INT_MAX 2 <? needed then
      if needed <=? INT_MAX then POk (with_buffer (reallocate (buffer p) INT_MAX) p) else PFail
    else POk (with_buffer (reallocate (buffer p) (needed * 2)) p).

(** The stores of [bs] from [output_pointer + k] on. *)
Definition store (p : printbuffer) (k : Z) (bs : bytes) : outcome printbuffer :=
  let i := offset p + k in
  if (0 <=? i) && (i + zlen bs <=? zlen (buffer p)) then
    POk (with_buffer (ztake i (buffer p) ++ bs ++ zdrop (i + zlen bs) (buffer p)) p)
  else PInvalid.

(** Reserve, store through the pointer returned, move on. *)
Definition emit (p : printbuffer) (needed : Z) (bs : bytes) (n : Z) : outcome printbuffer :=
  p ← ensure p needed;
  p ← store p 0 bs;
  POk (advance n p).

Definition update_offset (p : printbuffer) : outcome printbuffer :=
  match split_at_char 0 (zdrop (offset p) (buffer p)) with
  | Some (s, _) => POk (advance (zlen s) p)
  | None => PInvalid
  end.

Definition print_number (d : double) (p : printbuffer) : outcome printbuffer :=
  let number_buffer := number_text d in
  if 26 - 1 <? zlen number_buffer then PFail
  else emit p (zlen number_buffer + 1) (number_buffer ++ [0]) (zlen number_buffer).

(** ** Strings *)

Definition escape_length (c : Z) : Z :=
  if (c =? 34) || (c =? 92) || (c =? 8) || (c =? 12) || (c =? 10) || (c =? 13) || (c =? 9) then 1
  else if c <? 32 then 5 else 0.

Definition hex_char (n : Z) : Z := if n <? 10 then 48 + n else 87 + n.

(** What is written behind the backslash; [sprintf] ends it with a NUL. *)
Definition escape_text (c : Z) : bytes :=
  if c =? 92 then [92] else if c =? 34 then [34]
  else if c =? 8 then [98] else if c =? 12 then [102] else if c =? 10 then [110]
  else if c =? 13 then [114] else if c =? 9 then [116]
  else [117; 48; 48; hex_char (c / 16); hex_char (c mod 16); 0].

Fixpoint store_escaped (p : printbuffer) (k : Z) (input : bytes) : outcome printbuffer :=
  match input with
  | [] => POk p
  | c :: input' =>
      if (31 <? c) && negb (c =? 34) && negb (c =? 92) then
        p ← store p k [c];
        store_escaped p (k + 1) input'
      else
        p ← store p k [92];
        p ← store p (k + 1) (escape_text c);
        store_escaped p (k + 1 + zlen (cstr (escape_text c))) input'
  end.

Definition print_string_ptr (s : string) (p : printbuffer) : outcome printbuffer :=
  let input := cstr (bytes_of_string s) in
  let escape_characters := fold_right (fun c n => escape_length c + n) 0 input in
  let output_length := zlen input + escape_characters in
  p ← ensure p (output_length + 3);
  if escape_characters =? 0 then
    p ← store p 0 [34];
    p ← store p 1 input;
    store p (output_length + 1) [34; 0]
  else
    p ← store p 0 [34];
    p ← store_escaped p 1 input;
    store p (output_length + 1) [34; 0].

(** ** Values *)

Section Items.
Context (print_item : json -> printbuffer -> outcome printbuffer).

Fixpoint print_elements (l : list json) (p : printbuffer) : outcome printbuffer :=
  match l with
  | [] => POk p
  | current_element :: next =>
      p ← print_item current_element p;
      p ← update_offset p;
      p ← match next with
          | [] => POk p
          | _ =>
              let length := if format p then 2 else 1 in
              emit p (length + 1) (44 :: (if format p then [32] else []) ++ [0]) length
          end;
      print_elements next p
  end.

Definition print_array (l : list json) (p : printbuffer) : outcome printbuffer :=
  p ← emit p 1 [91] 1;
  p ← print_elements l (deeper 1 p);
  p ← emit p 2 [93; 0] 0;
  POk (deeper (-1) p).

Definition tabs (n : Z) : bytes := replicate (Z.to_nat n) 9.

Fixpoint print_members (l : list (string * json)) (p : printbuffer) : outcome printbuffer :=
  match l with
  | [] => POk p
  | (string, current_item) :: next =>
      p ← (if format p then emit p (depth p) (tabs (depth p)) (depth p) else POk p);
      p ← print_string_ptr string p;
      p ← update_offset p;
      p ← (let length := if format p then 2 else 1 in
           emit p length (58 :: (if format p then [9] else [])) length);
      p ← print_item current_item p;
      p ← update_offset p;
      p ← (let length := (if format p then 1 else 0) + (match next with [] => 0 | _ => 1 end) in
           emit p (length + 1)
             ((match next with [] => [] | _ => [44] end) ++ (if format p then [10] else []) ++ [0]) length);
      print_members next p
  end.

Definition print_object (l : list (string * json)) (p : printbuffer) : outcome printbuffer :=
  p ← (let length := if format p then 2 else 1 in
       emit p (length + 1) (123 :: (if format p then [10] else [])) length);
  p ← print_members l (deeper 1 p);
  p ← emit p (if format p then depth p + 1 else 2)
        ((if format p then tabs (depth p - 1) else []) ++ [125; 0]) 0;
  POk (deeper (-1) p).
End Items.

Fixpoint print_value (item : json) (p : printbuffer) : outcome printbuffer :=
  match item with
  | JNull => emit p 5 (bytes_of_string "null" ++ [0]) 0
  | JBool false => emit p 6 (bytes_of_string "false" ++ [0]) 0
  | JBool true => emit p 5 (bytes_of_string "true" ++ [0]) 0
  | JNum d => print_number d p
  | JStr s => print_string_ptr s p
  | JArr l => print_array print_value l p
  | JObj l => print_object print_value l p
  end.

(** The text printed: what C sees of the block that is returned. *)
Definition print (item : json) (fmt : bool) : outcome string :=
  p ← print_value item (mk_printbuffer (allocate 256) 0 0 false fmt);
  p ← update_offset p;
  POk (string_of_bytes (cstr (reallocate (buffer p) (offset p + 1)))).

Definition cJSON_Print (item : json) : outcome string := print item true.
Definition cjson_print_unformatted (item : json) : outcome string := print item false.
End Print.

(** ** The text that is meant *)

Definition char_text (c : Z) : bytes :=
  if (31 <? c) && negb (c =? 34) && negb (c =? 92) then [c] else 92 :: cstr (escape_text c).
Definition string_text (s : string) : bytes :=
  34 :: mjoin (map char_text (cstr (bytes_of_string s))) ++ [34].

Section Text.
Context (fmt : bool).
Definition only_fmt (l : bytes) : bytes := if fmt then l else [].

Fixpoint elements_text (value_text : json -> bytes) (l : list json) : bytes :=
  match l with
  | [] => []
  | x :: next =>
      value_text x ++ (match next with [] => [] | _ => 44 :: only_fmt [32] end) ++
      elements_text value_text next
  end.

Fixpoint members_text (indent : Z) (value_text : json -> bytes) (l : list (string * json)) : bytes :=
  match l with
  | [] => []
  | (k, x) :: next =>
      only_fmt (tabs indent) ++ string_text k ++ (58 :: only_fmt [9]) ++ value_text x ++
      (match next with [] => [] | _ => [44] end) ++ only_fmt [10] ++
      members_text indent value_text next
  end.

Fixpoint value_text (indent : Z) (j : json) : bytes :=
  match j with
  | JNull => bytes_of_string "null"
  | JBool false => bytes_of_string "false"
  | JBool true => bytes_of_string "true"
  | JNum d => number_text d
  | JStr s => string_text s
  | JArr l => 91 :: elements_text (value_text (indent + 1)) l ++ [93]
  | JObj l =>
      (123 :: only_fmt [10]) ++ members_text (indent + 1) (value_text (indent + 1)) l ++
      only_fmt (tabs indent) ++ [125]
  end.
End Text.

Example print_example :
  let j := JObj [("a", JArr [JNum one_s; JStr "x\y"; JNull]); ("b", JObj []); ("c", JObj [("d", JBool true)])] in
  let junk (i : Z) := 7 * i mod 256 in
  cjson_print_unformatted junk j = POk (string_of_bytes (value_text false 0 j)) /\
  cJSON_Print junk j = POk (string_of_bytes (value_text true 0 j)) /\
  cjson_print_unformatted junk (JStr (string_of_bytes [97; 1; 9])) = POk (string_of_bytes [34; 97; 92; 117; 48; 48; 48; 49; 92; 116; 34]).
Proof. vm_compute. done. Qed.

(** ** Facts: the text *)

Abbreviation nonzero := (Forall (fun c => c <> 0)) (only parsing).

Lemma cstr_nonzero l : nonzero (cstr l).
Proof. induction l as [|c l IH]; simpl; [done|]. destruct (Z.eqb_spec c 0); by constructor. Qed.

Lemma cstr_id l : nonzero l -> cstr l = l.
Proof. induction 1 as [|c l Hc Hl IH]; simpl; [done|]. destruct (Z.eqb_spec c 0); [done|by rewrite IH]. Qed.

Lemma cstr_nul l r : nonzero l -> cstr (l ++ 0 :: r) = l.
Proof. induction 1 as [|c l Hc Hl IH]; simpl; [done|]. destruct (Z.eqb_spec c 0); [done|by rewrite IH]. Qed.

(** What a string may contain: no NUL. *)
Definition text_byte (c : Z) : Prop := 0 < c < 256.
Lemma cstr_text_bytes s : Forall text_byte (cstr (bytes_of_string s)).
Proof.
  pose proof (bytes_of_string_bytes s) as H. induction H as [|c l Hc Hl IH]; simpl; [done|].
  destruct (Z.eqb_spec c 0); [done|]. constructor; [|done]. unfold is_byte, text_byte in *. lia.
Qed.

Lemma escape_text_cstr c :
  text_byte c -> exists tl, escape_text c = cstr (escape_text c) ++ tl /\ zlen tl <= 1 /\
    ((31 <? c) && negb (c =? 34) && negb (c =? 92) = false -> 1 + zlen (cstr (escape_text c)) = 1 + escape_length c).
Proof.
  intros Hc. unfold text_byte in Hc.
  set (Q := fun c => let e := escape_text c in
    bool_decide (e = cstr e ++ []) && ((31 <? c) && negb (c =? 34) && negb (c =? 92) || (1 + zlen (cstr e) =? 1 + escape_length c))
    || bool_decide (e = cstr e ++ [0]) && ((31 <? c) && negb (c =? 34) && negb (c =? 92) || (1 + zlen (cstr e) =? 1 + escape_length c))).
  assert (Q c = true) as HQ.
  { apply (zrange_forallb 256 Q); [vm_compute; done|lia]. }
  unfold Q in HQ. apply orb_true_iff in HQ as [HQ|HQ]; apply andb_true_iff in HQ as [H1%bool_decide_eq_true H2];
    [exists []|exists [0]]; (split_and!; [done|done|]); intros Hp; rewrite Hp in H2; simpl in H2; lia.
Qed.

Lemma escape_length_plain c :
  text_byte c -> (31 <? c) && negb (c =? 34) && negb (c =? 92) = true -> escape_length c = 0.
Proof.
  intros Hc H. apply andb_true_iff in H as [[H1 H2]%andb_true_iff H3]. unfold escape_length.
  destruct (Z.eqb_spec c 34); [done|]. destruct (Z.eqb_spec c 92); [done|]. unfold text_byte in Hc.
  destruct (Z.eqb_spec c 8); [lia|]. destruct (Z.eqb_spec c 12); [lia|]. destruct (Z.eqb_spec c 10); [lia|].
  destruct (Z.eqb_spec c 13); [lia|]. destruct (Z.eqb_spec c 9); [lia|]. destruct (Z.ltb_spec c 32); [lia|done].
Qed.

Lemma char_text_length c : text_byte c -> zlen (char_text c) = 1 + escape_length c.
Proof.
  intros Hc. unfold char_text. destruct (_ && _) eqn:E.
  - by rewrite escape_length_plain.
  - destruct (escape_text_cstr c Hc) as (tl & _ & _ & H). rewrite zlen_cons. by apply H.
Qed.

Lemma chars_text_length l :
  Forall text_byte l ->
  zlen (mjoin (map char_text l)) = zlen l + fold_right (fun c n => escape_length c + n) 0 l.
Proof.
  induction 1 as [|c l Hc Hl IH]; [done|]. simpl map. change (mjoin (?a :: ?b)) with (a ++ mjoin b).
  rewrite zlen_app, IH, char_text_length, zlen_cons by done. simpl. lia.
Qed.

Lemma escapes_nonneg l : 0 <= fold_right (fun c n => escape_length c + n) 0 l.
Proof. induction l as [|c l IH]; simpl; [done|]. unfold escape_length at 1. repeat case_match; lia. Qed.

Lemma chars_text_plain l :
  Forall text_byte l -> fold_right (fun c n => escape_length c + n) 0 l = 0 -> mjoin (map char_text l) = l.
Proof.
  induction 1 as [|c l Hc Hl IH]; [done|]. cbn [fold_right map]. intros H.
  pose proof (escapes_nonneg l). pose proof (char_text_length c Hc) as Hlen.
  assert (0 <= escape_length c) by (unfold escape_length; repeat case_match; lia).
  assert (mjoin (char_text c :: map char_text l) = char_text c ++ mjoin (map char_text l)) as -> by done.
  rewrite IH by lia. unfold char_text in *. destruct (_ && _) eqn:E; [done|].
  exfalso. unfold escape_length in *. unfold text_byte in Hc. repeat case_match; lia.
Qed.

Abbreviation text_bytes := (Forall text_byte) (only parsing).

Lemma text_bytes_nonzero l : text_bytes l -> nonzero l.
Proof. intros H. eapply Forall_impl; [exact H|]. unfold text_byte. simpl. lia. Qed.

Lemma char_text_bytes c : text_byte c -> text_bytes (char_text c).
Proof.
  unfold char_text, text_byte. intros. destruct (_ && _); [by apply Forall_singleton|].
  constructor; [done|].
  assert (forallb (fun x => (0 <? x) && (x <? 256)) (cstr (escape_text c)) = true) as Hb.
  { apply (zrange_forallb 256 (fun c => forallb (fun x => (0 <? x) && (x <? 256)) (cstr (escape_text c)))); [vm_compute; done|lia]. }
  apply List.Forall_forall. intros x Hx. rewrite forallb_forall in Hb. specialize (Hb x Hx). lia.
Qed.

Lemma string_text_bytes s : text_bytes (string_text s).
Proof.
  unfold string_text. constructor; [done|]. apply Forall_app. split; [|by apply Forall_singleton].
  induction (cstr_text_bytes s) as [|c l Hc Hl IH]; [constructor|].
  apply Forall_app. split; [by apply char_text_bytes|done].
Qed.

Lemma number_text_bytes d : text_bytes (number_text d).
Proof.
  destruct (isinf d) eqn:E.
  - unfold number_text. rewrite E. by repeat constructor.
  - eapply Forall_impl; [by apply number_text_chars|]. unfold is_number_char, isdigit, text_byte. simpl. lia.
Qed.

Lemma tabs_bytes n : text_bytes (tabs n).
Proof. by apply Forall_replicate. Qed.

Lemma only_fmt_bytes fmt l : text_bytes l -> text_bytes (only_fmt fmt l).
Proof. by destruct fmt. Qed.

#[local] Hint Resolve string_text_bytes number_text_bytes tabs_bytes only_fmt_bytes : core.

Lemma value_text_bytes fmt j n : text_bytes (value_text fmt n j).
Proof.
  revert n. induction j as [| b | d | s | l IH | l IH] using json_nested_ind; intros n; cbn [value_text]; auto.
  - by repeat constructor.
  - destruct b; by repeat constructor.
  - constructor; [done|]. apply Forall_app. split; [|by apply Forall_singleton].
    induction IH as [|x l Hx Hl IHl]; [constructor|]. cbn [elements_text].
    repeat (apply Forall_app; split); [done| |done].
    destruct l; [constructor|]. constructor; [done|]. apply only_fmt_bytes. by apply Forall_singleton.
  - constructor; [done|]. repeat (apply Forall_app; split);
      [apply only_fmt_bytes; by apply Forall_singleton| |auto|by apply Forall_singleton].
    induction IH as [|[k x] l Hx Hl IHl]; [constructor|]. cbn [members_text].
    repeat (apply Forall_app; split); [auto|auto| |done| | |done].
    + constructor; [done|]. apply only_fmt_bytes. by apply Forall_singleton.
    + destruct l; [constructor|by apply Forall_singleton].
    + apply only_fmt_bytes. by apply Forall_singleton.
Qed.

Lemma value_text_nonzero fmt j n : nonzero (value_text fmt n j).
Proof. apply text_bytes_nonzero, value_text_bytes. Qed.
Lemma string_text_nonzero s : nonzero (string_text s).
Proof. apply text_bytes_nonzero, string_text_bytes. Qed.

(** ** Facts: the buffer *)

Section Buffer.
Context (indeterminate : Z -> Z).
Context (d : Z) (f : bool).

(** The block starts with [t], [offset] is behind it and inside the block. *)
Record ready (t : bytes) (p : printbuffer) : Prop := {
  rd_offset : offset p = zlen t;
  rd_text : exists rest, buffer p = t ++ rest;
  rd_inside : zlen t < zlen (buffer p);
  rd_max : zlen (buffer p) <= INT_MAX;
  rd_alloc : noalloc p = false;
  rd_depth : depth p = d;
  rd_format : format p = f }.

(** A value has been printed and ends in a NUL; [offset] is somewhere in it. *)
Record filled (t u : bytes) (p : printbuffer) : Prop := {
  fl_offset : zlen t <= offset p <= zlen (t ++ u);
  fl_text : exists rest, buffer p = t ++ u ++ 0 :: rest;
  fl_max : zlen (buffer p) <= INT_MAX;
  fl_alloc : noalloc p = false;
  fl_depth : depth p = d;
  fl_format : format p = f }.

Lemma reallocate_spec b n : zlen b <= n -> exists rest, reallocate indeterminate b n = b ++ rest /\ zlen (b ++ rest) = n.
Proof.
  intros H. exists (zdrop (zlen b) (allocate indeterminate n)). unfold reallocate.
  rewrite ztake_all by done. split; [done|]. rewrite zlen_app, zlen_zdrop. unfold allocate.
  rewrite zlen_fmap. unfold zrange. rewrite zlen_fmap. unfold zlen at 2 4. rewrite length_seq.
  pose proof (zlen_nonneg b). lia.
Qed.

Lemma ensure_spec t p n :
  ready t p -> 0 <= n -> zlen t + n + 1 <= INT_MAX ->
  exists p', ensure indeterminate p n = POk p' /\ ready t p' /\ zlen t + n + 1 <= zlen (buffer p').
Proof.
  intros [Ho [rest Hb] Hi Hm Ha Hd Hf] Hn Hmax. unfold ensure. rewrite Ho, Ha.
  pose proof (zlen_nonneg t). unfold INT_MAX in *.
  destruct (Z.leb_spec (zlen (buffer p)) (zlen t)); [lia|]. rewrite andb_false_r.
  destruct (Z.ltb_spec 2147483647 n); [lia|].
  destruct (Z.leb_spec (n + zlen t + 1) (zlen (buffer p))).
  { exists p. split; [done|]. split; [|lia]. split; [done|by exists rest|done..]. }
  assert (forall m, zlen (buffer p) <= m -> zlen t + n + 1 <= m -> m <= 2147483647 ->
    exists p', POk (with_buffer (reallocate indeterminate (buffer p) m) p) = POk p' /\ ready t p' /\
      zlen t + n + 1 <= zlen (buffer p')) as Hgrow.
  { intros m Hm1 Hm2 Hm3. destruct (reallocate_spec (buffer p) m Hm1) as (r2 & -> & El).
    eexists. split; [reflexivity|]. split; [|simpl; rewrite El; lia].
    split; simpl; [done| |rewrite El; lia|rewrite El; unfold INT_MAX; lia|done..]. exists (rest ++ r2). by rewrite Hb, <- app_assoc. }
  destruct (Z.ltb_spec (Z.quot 2147483647 2) (n + zlen t + 1)).
  - destruct (Z.leb_spec (n + zlen t + 1) 2147483647); [apply Hgrow; lia|lia].
  - change (Z.quot 2147483647 2) with 1073741823 in *. apply Hgrow; lia.
Qed.

Lemma store_append pre rest p k bs :
  buffer p = pre ++ rest -> offset p + k = zlen pre -> zlen bs <= zlen rest ->
  store p k bs = POk (with_buffer (pre ++ bs ++ zdrop (zlen bs) rest) p).
Proof.
  intros Hb Hk Hl. unfold store. rewrite Hk, Hb, zlen_app. pose proof (zlen_nonneg pre).
  destruct (Z.leb_spec 0 (zlen pre)); [|lia]. destruct (Z.leb_spec (zlen pre + zlen bs) (zlen pre + zlen rest)); [|lia].
  cbn [andb]. pose proof (zlen_nonneg bs). rewrite ztake_app_le, ztake_all by lia. rewrite zdrop_app_ge by lia.
  by replace (zlen pre + zlen bs - zlen pre) with (zlen bs) by lia.
Qed.

Lemma emit_spec t p n bs k :
  ready t p -> 0 <= k <= n -> k <= zlen bs <= n + 1 -> zlen t + n + 1 <= INT_MAX ->
  exists p' rest, emit indeterminate p n bs k = POk p' /\ buffer p' = t ++ bs ++ rest /\
    offset p' = zlen t + k /\ zlen t + n + 1 <= zlen (buffer p') <= INT_MAX /\ noalloc p' = false /\
    depth p' = d /\ format p' = f.
Proof.
  intros Hr Hk Hbs Hmax. destruct (ensure_spec t p n Hr ltac:(lia) Hmax) as (q & Hq & [Ho [rest Hb] Hi Hm Ha Hd Hf] & Hroom).
  unfold emit, mbind, outcome_bind. rewrite Hq.
  rewrite Hb, zlen_app in Hroom. rewrite (store_append t rest q 0 bs) by (try done; lia).
  eexists _, (zdrop (zlen bs) rest). split; [reflexivity|]. simpl.
  split_and!; [done|lia| | |done..].
  - rewrite !zlen_app, zlen_zdrop. lia.
  - rewrite Hb in Hm. rewrite zlen_app in Hm. rewrite !zlen_app, zlen_zdrop. lia.
Qed.

(** Text that more follows. *)
Lemma emit_ready t p n u z :
  ready t p -> zlen u <= n -> zlen u + zlen z <= n + 1 -> zlen t + n + 1 <= INT_MAX ->
  exists p', emit indeterminate p n (u ++ z) (zlen u) = POk p' /\ ready (t ++ u) p'.
Proof.
  intros Hr Hu Hz Hmax. destruct (emit_spec t p n (u ++ z) (zlen u) Hr) as (p' & rest & He & Hb & Ho & Hl & Hrest);
    [zlia|rewrite zlen_app; zlia|done|].
  exists p'. split; [done|]. split; [rewrite zlen_app; lia| |rewrite zlen_app; lia|tauto..].
  exists (z ++ rest). by rewrite Hb, <- !app_assoc.
Qed.

(** The last text of a value. *)
Lemma emit_filled t p n u k :
  ready t p -> k = 0 \/ k = zlen u -> zlen u <= n -> zlen t + n + 1 <= INT_MAX ->
  exists p', emit indeterminate p n (u ++ [0]) k = POk p' /\ filled t u p'.
Proof.
  intros Hr Hk Hu Hmax. destruct (emit_spec t p n (u ++ [0]) k Hr) as (p' & rest & He & Hb & Ho & Hl & Hrest).
  - pose proof (zlen_nonneg u). destruct Hk; lia.
  - rewrite zlen_app. change (zlen [0]) with 1. pose proof (zlen_nonneg u). destruct Hk; lia.
  - done.
  - exists p'. split; [done|]. split; [|exists rest; by rewrite Hb, <- !app_assoc|tauto..].
    rewrite zlen_app, Ho. pose proof (zlen_nonneg u). destruct Hk; lia.
Qed.

Lemma split_at_char_nonzero u rest : nonzero u -> split_at_char 0 (u ++ 0 :: rest) = Some (u, rest).
Proof. intros Hu. apply split_at_char_app. intros Hin. rewrite Forall_forall in Hu. apply list_elem_of_In in Hin. by apply (Hu 0). Qed.

Lemma update_offset_spec t u p :
  filled t u p -> nonzero u -> exists p', update_offset p = POk p' /\ ready (t ++ u) p'.
Proof.
  intros [Ho [rest Hb] Hm Ha Hd Hf] Hu. unfold update_offset.
  assert (forall o, offset p + o = zlen (t ++ u) -> ready (t ++ u) (advance o p)) as Hrd.
  { intros o Eo. split; simpl; [done| | |done..].
    - exists (0 :: rest). by rewrite Hb, <- app_assoc.
    - rewrite Hb, app_assoc, (zlen_app (t ++ u)), zlen_cons. zlia. }
  rewrite zlen_app in Ho. rewrite Hb, zdrop_app_ge, zdrop_app_le by lia.
  rewrite split_at_char_nonzero by by apply Forall_zdrop.
  eexists. split; [reflexivity|]. apply Hrd. rewrite zlen_zdrop, zlen_app. lia.
Qed.

Lemma filled_app t a u p : filled (t ++ a) u p -> filled t (a ++ u) p.
Proof.
  intros [Ho [rest Hb] Hm Ha Hd Hf]. split; [|exists rest; by rewrite Hb, <- !app_assoc|done..].
  rewrite !zlen_app in *. pose proof (zlen_nonneg a). lia.
Qed.

Lemma store_escaped_spec input : Forall text_byte input -> forall pre rest p k,
  buffer p = pre ++ rest -> offset p + k = zlen pre ->
  zlen (mjoin (map char_text input)) + 1 <= zlen rest ->
  exists rest', store_escaped p k input = POk (with_buffer (pre ++ mjoin (map char_text input) ++ rest') p) /\
    zlen rest' = zlen rest - zlen (mjoin (map char_text input)).
Proof.
  induction 1 as [|c input Hc Hin IH]; intros pre rest p k Hb Hk Hl.
  { exists rest. cbn [store_escaped map]. split; [|change (mjoin []) with (@nil Z); rewrite (@zlen_nil Z); lia].
    f_equal. destruct p; simpl in *. by rewrite Hb. }
  assert (mjoin (map char_text (c :: input)) = char_text c ++ mjoin (map char_text input)) as Ej by done.
  rewrite Ej in *. rewrite zlen_app in Hl. rewrite zlen_app. set (more := mjoin (map char_text input)) in *.
  pose proof (zlen_nonneg more) as Hmore. cbn [store_escaped]. unfold char_text in *.
  destruct ((31 <? c) && negb (c =? 34) && negb (c =? 92)) eqn:E; unfold mbind, outcome_bind.
  - change (zlen [c]) with 1 in *. rewrite (store_append pre rest) by (try done; change (zlen [c]) with 1; lia).
    change (zlen [c]) with 1. cbv iota beta.
    destruct (IH (pre ++ [c]) (zdrop 1 rest) (with_buffer (pre ++ [c] ++ zdrop 1 rest) p) (k + 1)) as (r' & -> & El).
    + simpl. by rewrite <- app_assoc.
    + simpl. rewrite zlen_app. change (zlen [c]) with 1. lia.
    + rewrite zlen_zdrop. lia.
    + exists r'. split; [|rewrite zlen_zdrop in El; lia]. unfold with_buffer. simpl. by rewrite <- !app_assoc.
  - destruct (escape_text_cstr c Hc) as (tl & Ee & Htl & _). rewrite zlen_cons in Hl.
    set (es := cstr (escape_text c)) in *. pose proof (zlen_nonneg es). pose proof (zlen_nonneg tl).
    rewrite (store_append pre rest) by (try done; change (zlen [92]) with 1; lia). change (zlen [92]) with 1.
    rewrite (store_append (pre ++ [92]) (zdrop 1 rest) _ (k + 1)).
    2:{ simpl. by rewrite <- app_assoc. }
    2:{ simpl. rewrite zlen_app. change (zlen [92]) with 1. lia. }
    2:{ rewrite Ee, zlen_app, zlen_zdrop. lia. }
    cbv iota beta. rewrite Ee, zlen_app.
    destruct (IH ((pre ++ [92]) ++ es) (tl ++ zdrop (zlen es + zlen tl) (zdrop 1 rest))
      (with_buffer ((pre ++ [92]) ++ (es ++ tl) ++ zdrop (zlen es + zlen tl) (zdrop 1 rest))
        (with_buffer (pre ++ [92] ++ zdrop 1 rest) p)) (k + 1 + zlen es)) as (r' & -> & El).
    + simpl. by rewrite <- !app_assoc.
    + simpl. rewrite !zlen_app. change (zlen [92]) with 1. lia.
    + rewrite zlen_app, !zlen_zdrop. lia.
    + exists r'. split.
      * unfold with_buffer. simpl. by rewrite <- !app_assoc.
      * rewrite zlen_app, !zlen_zdrop in El. rewrite zlen_cons. lia.
Qed.

Lemma print_string_ptr_spec t p s :
  ready t p -> zlen t + zlen (string_text s) + 2 <= INT_MAX ->
  exists p', print_string_ptr indeterminate s p = POk p' /\ filled t (string_text s) p'.
Proof.
  intros Hr Hmax. unfold print_string_ptr, string_text in *.
  pose proof (cstr_text_bytes s) as Hin. set (input := cstr (bytes_of_string s)) in *.
  pose proof (chars_text_length input Hin) as Hlen.
  set (body := mjoin (map char_text input)) in *. set (esc := fold_right _ 0 input) in *.
  assert (0 <= esc) by apply escapes_nonneg. pose proof (zlen_nonneg input).
  rewrite zlen_cons, zlen_app in Hmax. change (zlen [34]) with 1 in Hmax.
  destruct (ensure_spec t p (zlen input + esc + 3) Hr ltac:(lia) ltac:(lia)) as
    (q & Hq & [Ho [rest Hb] Hi Hm Ha Hd Hf] & Hroom).
  unfold mbind, outcome_bind. rewrite Hq. rewrite Hb, zlen_app in Hroom, Hm.
  assert (forall rest', zlen rest' = zlen rest - 1 - zlen body ->
    exists p', store (with_buffer (((t ++ [34]) ++ body) ++ rest') q) (zlen input + esc + 1) [34; 0] = POk p' /\
      filled t (34 :: body ++ [34]) p') as Hend.
  { intros rest' El. rewrite (store_append ((t ++ [34]) ++ body) rest').
    - eexists. split; [reflexivity|]. change (zlen [34; 0]) with 2. split; simpl; [zlia| | |done..].
      + exists (zdrop 2 rest'). by rewrite <- !app_assoc.
      + rewrite !zlen_app, !zlen_cons, zlen_zdrop, (@zlen_nil Z). lia.
    - done.
    - simpl. rewrite !zlen_app. change (zlen [34]) with 1. lia.
    - change (zlen [34; 0]) with 2. lia. }
  pose proof (store_append t rest q 0 [34] Hb ltac:(lia) ltac:(change (zlen [34]) with 1; lia)) as Hs0.
  change (zlen [34]) with 1 in Hs0.
  assert (zlen (zdrop 1 rest) = zlen rest - 1) as El1 by (rewrite zlen_zdrop; lia).
  destruct (Z.eqb_spec esc 0) as [E0|E0]; rewrite Hs0.
  - pose proof (chars_text_plain input Hin E0) as Eb. fold body in Eb.
    rewrite (store_append (t ++ [34]) (zdrop 1 rest)); [|simpl; by rewrite <- app_assoc| |lia].
    2:{ simpl. rewrite zlen_app. change (zlen [34]) with 1. lia. }
    destruct (Hend (zdrop (zlen input) (zdrop 1 rest))) as (p' & Hs & Hf'); [rewrite zlen_zdrop, Eb; lia|].
    exists p'. split; [|done]. rewrite <- Hs, Eb. unfold with_buffer. simpl. by rewrite <- !app_assoc.
  - destruct (store_escaped_spec input Hin (t ++ [34]) (zdrop 1 rest) (with_buffer (t ++ [34] ++ zdrop 1 rest) q) 1)
      as (r & -> & El); [simpl; by rewrite <- app_assoc|simpl; rewrite zlen_app; change (zlen [34]) with 1; lia| |].
    { fold body. lia. }
    destruct (Hend r) as (p' & Hs & Hf'); [fold body in El; lia|].
    exists p'. split; [|done]. rewrite <- Hs. unfold with_buffer. simpl. by rewrite <- !app_assoc.
Qed.
End Buffer.

Lemma ready_deeper n d f t p : ready d f t p -> ready (d + n) f t (deeper n p).
Proof. intros [Ho Ht Hi Hm Ha Hd Hf]. split; simpl; try done. lia. Qed.
Lemma filled_deeper n d f t u p : filled d f t u p -> filled (d + n) f t u (deeper n p).
Proof. intros [Ho Ht Hm Ha Hd Hf]. split; simpl; try done. lia. Qed.

Section Values.
Context (indeterminate : Z -> Z) (fmt : bool).

Definition prints (j : json) : Prop := forall d t p,
  0 <= d -> ready d fmt t p -> zlen t + zlen (value_text fmt d j) + 2 <= INT_MAX ->
  exists p', print_value indeterminate j p = POk p' /\ filled d fmt t (value_text fmt d j) p'.

(** A value and the [update_offset] behind it. *)
Lemma prints_update j d t p :
  prints j -> 0 <= d -> ready d fmt t p -> zlen t + zlen (value_text fmt d j) + 2 <= INT_MAX ->
  exists p' p'', print_value indeterminate j p = POk p' /\ update_offset p' = POk p'' /\
    ready d fmt (t ++ value_text fmt d j) p''.
Proof.
  intros Hj Hd Hr Hm. destruct (Hj d t p Hd Hr Hm) as (p' & Hp & Hf).
  destruct (update_offset_spec d fmt t _ p' Hf (value_text_nonzero _ _ _)) as (p'' & Hu & Hr').
  by exists p', p''.
Qed.

Lemma print_elements_spec d l : 0 <= d -> Forall prints l -> forall t p,
  ready d fmt t p -> zlen t + zlen (elements_text fmt (value_text fmt d) l) + 2 <= INT_MAX ->
  exists p', print_elements indeterminate (print_value indeterminate) l p = POk p' /\
    ready d fmt (t ++ elements_text fmt (value_text fmt d) l) p'.
Proof.
  intros Hd. induction 1 as [|x l Hx Hl IH]; intros t p Hr Hm.
  { exists p. by rewrite app_nil_r. }
  cbn [elements_text] in *. set (sep := match l with [] => [] | _ => 44 :: only_fmt fmt [32] end) in *.
  rewrite !zlen_app in Hm. pose proof (zlen_nonneg sep). pose proof (zlen_nonneg (elements_text fmt (value_text fmt d) l)).
  destruct (prints_update x d t p Hx Hd Hr ltac:(lia)) as (p1 & p2 & Hq1 & Hq2 & Hr2).
  cbn [print_elements]. unfold mbind, outcome_bind. rewrite Hq1, Hq2.
  assert (exists p3, match l with
    | [] => POk p2
    | _ => let length := if format p2 then 2 else 1 in
        emit indeterminate p2 (length + 1) (44 :: (if format p2 then [32] else []) ++ [0]) length
    end = POk p3 /\ ready d fmt ((t ++ value_text fmt d x) ++ sep) p3) as (p3 & Hq3 & Hr3).
  { rewrite (rd_format _ _ _ _ Hr2). unfold sep, only_fmt in *. destruct l as [|y l']; [exists p2; by rewrite app_nil_r|].
    destruct fmt; [change (44 :: [32] ++ [0]) with ([44; 32] ++ [0])|change (44 :: [] ++ [0]) with ([44] ++ [0])];
      (apply emit_ready; [done|by vm_compute..|rewrite zlen_app; zlia]). }
  cbv zeta in *. rewrite Hq3. destruct (IH _ p3 Hr3) as (p4 & Hq4 & Hr4); [rewrite !zlen_app; lia|].
  exists p4. split; [done|]. by rewrite !app_assoc, <- !app_assoc in *.
Qed.

Lemma print_members_spec d l : 0 <= d -> Forall (fun kv => prints kv.2) l -> forall t p,
  ready d fmt t p -> zlen t + zlen (members_text fmt d (value_text fmt d) l) + 2 <= INT_MAX ->
  exists p', print_members indeterminate (print_value indeterminate) l p = POk p' /\
    ready d fmt (t ++ members_text fmt d (value_text fmt d) l) p'.
Proof.
  intros Hd. induction 1 as [|[k x] l Hx Hl IH]; intros t p Hr Hm.
  { exists p. by rewrite app_nil_r. }
  cbn [members_text] in *. set (sep := match l with [] => [] | _ => [44] end) in *.
  set (key := string_text k) in *. set (val := value_text fmt d x) in *.
  set (more := members_text fmt d (value_text fmt d) l) in *.
  set (tb := only_fmt fmt (tabs d)) in *. set (colon := 58 :: only_fmt fmt [9]) in *. set (nl := only_fmt fmt [10]) in *.
  rewrite !zlen_app in Hm. pose proof (zlen_nonneg sep). pose proof (zlen_nonneg more). pose proof (zlen_nonneg nl).
  pose proof (zlen_nonneg val). pose proof (zlen_nonneg colon). pose proof (zlen_nonneg key). pose proof (zlen_nonneg tb).
  cbn [print_members]. unfold mbind, outcome_bind.
  assert (exists p1, (if format p then emit indeterminate p (depth p) (tabs (depth p)) (depth p) else POk p) = POk p1 /\
    ready d fmt (t ++ tb) p1) as (p1 & Hq1 & Hr1).
  { rewrite (rd_format _ _ _ _ Hr), (rd_depth _ _ _ _ Hr). unfold tb, only_fmt in *. destruct fmt; [|exists p; by rewrite app_nil_r].
    assert (zlen (tabs d) = d) as El by (unfold tabs; rewrite zlen_replicate; lia).
    pose proof (emit_ready indeterminate d true t p d (tabs d) []) as He. rewrite El, app_nil_r in He.
    apply He; [done|lia|change (zlen []) with 0; lia|lia]. }
  rewrite Hq1. destruct (print_string_ptr_spec indeterminate d fmt _ p1 k Hr1) as (p2 & Hq2 & Hf2); [rewrite zlen_app; fold key; lia|].
  rewrite Hq2. destruct (update_offset_spec d fmt _ _ p2 Hf2 (string_text_nonzero k)) as (p3 & Hq3 & Hr3). rewrite Hq3. fold key in Hr3.
  assert (exists p4, emit indeterminate p3 (if format p3 then 2 else 1) (58 :: (if format p3 then [9] else [])) (if format p3 then 2 else 1) = POk p4 /\
    ready d fmt (((t ++ tb) ++ key) ++ colon) p4) as (p4 & Hq4 & Hr4).
  { rewrite (rd_format _ _ _ _ Hr3). rewrite <- (app_nil_r (58 :: _)). unfold colon, only_fmt in *.
    destruct fmt; (apply emit_ready; [done|by vm_compute..|rewrite !zlen_app; zlia]). }
  cbv zeta. rewrite Hq4. destruct (prints_update x d _ p4 Hx Hd Hr4) as (p5 & p6 & Hq5 & Hq6 & Hr6); [rewrite !zlen_app; fold val; lia|].
  simpl fst in *. rewrite Hq5, Hq6. fold val in Hr6.
  assert (exists p7, emit indeterminate p6 ((if format p6 then 1 else 0) + match l with [] => 0 | _ => 1 end + 1)
      (match l with [] => [] | _ => [44] end ++ (if format p6 then [10] else []) ++ [0])
      ((if format p6 then 1 else 0) + match l with [] => 0 | _ => 1 end) = POk p7 /\
    ready d fmt (((((t ++ tb) ++ key) ++ colon) ++ val) ++ sep ++ nl) p7) as (p7 & Hq7 & Hr7).
  { rewrite (rd_format _ _ _ _ Hr6). rewrite (app_assoc _ _ [0]). unfold sep, nl, only_fmt in *.
    destruct fmt, l as [|y l']; (apply emit_ready; [done|by vm_compute..|rewrite !zlen_app; zlia]). }
  rewrite Hq7. destruct (IH _ p7 Hr7) as (p8 & Hq8 & Hr8); [rewrite !zlen_app; fold more; lia|].
  exists p8. split; [done|]. fold more in Hr8. by rewrite <- !app_assoc in *.
Qed.

(** The printer writes the text, and never outside the block. *)
Lemma print_value_spec j : prints j.
Proof.
  induction j as [| b | x | s | l IH | l IH] using json_nested_ind; intros d t p Hd Hr Hm;
    cbn [print_value value_text] in *.
  - apply emit_filled; [done|by left|by vm_compute|].
    change (zlen (bytes_of_string "null")) with 4 in Hm. lia.
  - destruct b; (apply emit_filled; [done|by left|by vm_compute|]).
    + change (zlen (bytes_of_string "true")) with 4 in Hm. lia.
    + change (zlen (bytes_of_string "false")) with 5 in Hm. lia.
  - unfold print_number. pose proof (number_text_length x). destruct (Z.ltb_spec (26 - 1) (zlen (number_text x))); [lia|].
    apply emit_filled; [done|by right|lia|lia].
  - by apply print_string_ptr_spec.
  - rewrite zlen_cons, zlen_app in Hm. change (zlen [93]) with 1 in Hm.
    set (es := elements_text fmt (value_text fmt (d + 1)) l) in *. pose proof (zlen_nonneg es).
    unfold print_array, mbind, outcome_bind.
    destruct (emit_ready indeterminate d fmt t p 1 [91] [] Hr) as (p1 & Hq1 & Hr1); [by vm_compute..|lia|].
    change ([91] ++ []) with [91] in Hq1. change (zlen [91]) with 1 in Hq1. rewrite Hq1.
    destruct (print_elements_spec (d + 1) l ltac:(lia) IH _ _ (ready_deeper 1 _ _ _ _ Hr1)) as (p2 & Hq2 & Hr2).
    { rewrite zlen_app. change (zlen [91]) with 1. fold es. lia. }
    rewrite Hq2. fold es in Hr2.
    destruct (emit_filled indeterminate (d + 1) fmt _ p2 2 [93] 0 Hr2) as (p3 & Hq3 & Hf3); [by left|by vm_compute| |].
    { rewrite !zlen_app. change (zlen [91]) with 1. lia. }
    change ([93] ++ [0]) with [93; 0] in Hq3. rewrite Hq3. eexists. split; [reflexivity|].
    apply (filled_deeper (-1)) in Hf3. replace (d + 1 + -1) with d in Hf3 by lia.
    by apply filled_app, filled_app in Hf3.
  - unfold print_object, mbind, outcome_bind. cbv zeta.
    set (ms := members_text fmt (d + 1) (value_text fmt (d + 1)) l) in *. pose proof (zlen_nonneg ms).
    set (op := 123 :: only_fmt fmt [10]) in *. set (tb := only_fmt fmt (tabs d)) in *.
    rewrite !zlen_app in Hm. change (zlen [125]) with 1 in Hm. pose proof (zlen_nonneg op). pose proof (zlen_nonneg tb).
    assert (exists p1, emit indeterminate p ((if format p then 2 else 1) + 1) (123 :: (if format p then [10] else []))
        (if format p then 2 else 1) = POk p1 /\ ready d fmt (t ++ op) p1) as (p1 & Hq1 & Hr1).
    { rewrite (rd_format _ _ _ _ Hr). rewrite <- (app_nil_r (123 :: _)). unfold op, only_fmt in *.
      destruct fmt; (apply emit_ready; [done|by vm_compute..|zlia]). }
    rewrite Hq1. destruct (print_members_spec (d + 1) l ltac:(lia) IH _ _ (ready_deeper 1 _ _ _ _ Hr1)) as (p2 & Hq2 & Hr2).
    { rewrite zlen_app. fold ms. lia. }
    rewrite Hq2. fold ms in Hr2.
    assert (exists p3, emit indeterminate p2 (if format p2 then depth p2 + 1 else 2)
        ((if format p2 then tabs (depth p2 - 1) else []) ++ [125; 0]) 0 = POk p3 /\
      filled (d + 1) fmt ((t ++ op) ++ ms) (tb ++ [125]) p3) as (p3 & Hq3 & Hf3).
    { rewrite (rd_format _ _ _ _ Hr2), (rd_depth _ _ _ _ Hr2). change [125; 0] with ([125] ++ [0]). rewrite app_assoc.
      unfold tb, only_fmt in *. replace (d + 1 - 1) with d by lia.
      assert (zlen (tabs d) = d) as El by (unfold tabs; rewrite zlen_replicate; lia).
      destruct fmt; (apply emit_filled; [done|by left|zlia|zlia]). }
    rewrite Hq3. eexists. split; [reflexivity|].
    apply (filled_deeper (-1)) in Hf3. replace (d + 1 + -1) with d in Hf3 by lia.
    apply filled_app, filled_app in Hf3. by rewrite <- ?app_assoc in *.
Qed.
End Values.

(** ** [print] *)

(** [cJSON_Print] and [cJSON_PrintUnformatted]: whatever bytes the blocks held
    before, every store stays inside its block and the string returned is the
    text of the tree, if that leaves room for two more bytes in an [int]. *)
Lemma print_spec indeterminate j fmt :
  zlen (value_text fmt 0 j) + 2 <= INT_MAX ->
  print indeterminate j fmt = POk (string_of_bytes (value_text fmt 0 j)).
Proof.
  intros Hm. unfold print, mbind, outcome_bind. set (p0 := mk_printbuffer (allocate indeterminate 256) 0 0 false fmt).
  assert (zlen (allocate indeterminate 256) = 256) as E0.
  { unfold allocate, zrange. rewrite !zlen_fmap. unfold zlen. by rewrite length_seq. }
  assert (ready 0 fmt [] p0) as Hr.
  { split; simpl; try done; [by eexists|rewrite E0; done..]. }
  destruct (print_value_spec indeterminate fmt j 0 [] p0 ltac:(lia) Hr) as (p1 & -> & Hf).
  { rewrite zlen_nil. lia. }
  destruct (update_offset_spec 0 fmt _ _ p1 Hf (value_text_nonzero _ _ _)) as (p2 & H2 & Hr2).
  rewrite H2. destruct Hf as [_ [rest Hb] _ _ _ _].
  assert (buffer p2 = buffer p1) as ->.
  { unfold update_offset in H2. destruct (split_at_char _ _) as [[]|]; [|done]. by injection H2 as <-. }
  rewrite (rd_offset _ _ _ _ Hr2), Hb. rewrite !app_nil_l. set (u := value_text fmt 0 j) in *. pose proof (zlen_nonneg u).
  unfold reallocate. rewrite (zdrop_all _ (allocate _ _)), app_nil_r.
  2:{ unfold allocate, zrange. rewrite !zlen_fmap, zlen_app, zlen_cons. unfold zlen at 1. rewrite length_seq.
      pose proof (zlen_nonneg rest). lia. }
  rewrite ztake_app_ge by lia. replace (zlen u + 1 - zlen u) with 1 by lia.
  do 2 f_equal. change (ztake 1 (0 :: rest)) with [0].
  apply cstr_nul, value_text_nonzero.
Qed.
