(* ===== verification/CJson.v ===== *)
(** * cJSON: what is printed is read back

    The parser of [CJsonParse] on the text of [CJsonPrint], and the instance of
    [JsonText] the two make. *)
From S2P Require Import Prelude Cstr Json CJsonNum CJsonParse CJsonPrint.

(** ** Strings *)

Lemma hex_digit_char n : 0 <= n < 16 -> hex_digit (hex_char n) = Some n /\ hex_char n <> 92 /\ hex_char n <> 34.
Proof.
  intros. unfold hex_digit, hex_char. destruct (Z.ltb_spec n 10).
  - destruct (Z.leb_spec 48 (48 + n)), (Z.leb_spec (48 + n) 57); try lia. simpl. split_and!; [f_equal; lia|lia..].
  - destruct (Z.leb_spec (87 + n) 57); [lia|]. rewrite andb_false_r. destruct (Z.leb_spec (87 + n) 70); [lia|].
    rewrite andb_false_r. destruct (Z.leb_spec 97 (87 + n)), (Z.leb_spec (87 + n) 102); try lia. simpl.
    split_and!; [f_equal; lia|lia..].
Qed.

(** The printed form of a character: itself, a short escape, or \u00XX. *)
Inductive char_form (c : Z) : bytes -> Prop :=
  | form_plain : c <> 34 -> c <> 92 -> char_form c [c]
  | form_short e : unescape 1 [92; e] = Some [c] -> e <> 117 -> char_form c [92; e]
  | form_hex : 0 < c < 128 -> char_form c [92; 117; 48; 48; hex_char (c / 16); hex_char (c mod 16)].

Lemma char_text_form c : text_byte c -> char_form c (char_text c).
Proof.
  intros Hc. unfold text_byte in Hc. unfold char_text.
  destruct ((31 <? c) && negb (c =? 34) && negb (c =? 92)) eqn:E.
  { constructor; lia. }
  unfold escape_text.
  destruct (Z.eqb_spec c 92) as [->|]; [by apply form_short|].
  destruct (Z.eqb_spec c 34) as [->|]; [by apply form_short|].
  destruct (Z.eqb_spec c 8) as [->|]; [by apply form_short|].
  destruct (Z.eqb_spec c 12) as [->|]; [by apply form_short|].
  destruct (Z.eqb_spec c 10) as [->|]; [by apply form_short|].
  destruct (Z.eqb_spec c 13) as [->|]; [by apply form_short|].
  destruct (Z.eqb_spec c 9) as [->|]; [by apply form_short|].
  assert (c < 32) by lia. assert (0 <= c / 16 < 16 /\ 0 <= c mod 16 < 16) as [H1 H2] by zdivmod.
  assert (forall n, 0 <= n < 16 -> hex_char n <> 0) as Hz by (intros m Hm; unfold hex_char; destruct (Z.ltb_spec m 10); lia).
  assert (cstr [117; 48; 48; hex_char (c / 16); hex_char (c mod 16); 0] = [117; 48; 48; hex_char (c / 16); hex_char (c mod 16)]) as ->.
  { apply (cstr_nul [117; 48; 48; hex_char (c / 16); hex_char (c mod 16)] []).
    repeat constructor; try lia; apply Hz; done. }
  apply form_hex. lia.
Qed.

Lemma unescape_short f e c l :
  unescape 1 [92; e] = Some [c] -> e <> 117 -> unescape (S f) (92 :: e :: l) = option_map (cons c) (unescape f l).
Proof.
  cbn [unescape Z.eqb Pos.eqb negb]. change (zdrop 2 (92 :: e :: l)) with l. change (zdrop 2 [92; e]) with (@nil Z).
  cbn [option_map]. intros H He.
  repeat match goal with
  | |- (if ?b then option_map (cons ?x) _ else _) = _ => destruct b; [by injection H as ->|]
  end.
  destruct (Z.eqb_spec e 117); [done|discriminate].
Qed.

Lemma parse_hex4_char c l : 0 < c < 128 -> parse_hex4 (48 :: 48 :: hex_char (c / 16) :: hex_char (c mod 16) :: l) = c.
Proof.
  intros Hc. assert (0 <= c / 16 < 16 /\ 0 <= c mod 16 < 16) as [H1 H2] by zdivmod.
  unfold parse_hex4. cbn [parse_hex]. change (hex_digit 48) with (Some 0). cbv iota zeta beta.
  destruct (hex_digit_char _ H1) as [-> _]. destruct (hex_digit_char _ H2) as [-> _].
  change (0 + 0) with 0. rewrite !Z.shiftl_0_l, !Z.add_0_l, Z.shiftl_mul_pow2 by lia. zdivmod.
Qed.

Lemma unescape_hex f c l :
  0 < c < 128 ->
  unescape (S f) (92 :: 117 :: 48 :: 48 :: hex_char (c / 16) :: hex_char (c mod 16) :: l) = option_map (cons c) (unescape f l).
Proof.
  intros Hc. cbn [unescape Z.eqb Pos.eqb negb orb]. unfold utf16_literal_to_utf8.
  change (zdrop 2 (92 :: 117 :: ?x)) with x. rewrite !zlen_cons. pose proof (zlen_nonneg l).
  destruct (Z.ltb_spec (1 + (1 + (1 + (1 + (1 + (1 + zlen l)))))) 6); [lia|].
  rewrite parse_hex4_char by done.
  destruct (Z.leb_spec 56320 c); [lia|]. destruct (Z.leb_spec 55296 c); [lia|]. cbn [andb].
  unfold utf8_encode. destruct (Z.ltb_spec c 128); [|lia].
  replace (Z.land c 127) with c; [done|]. change 127 with (Z.ones 7). rewrite Z.land_ones, Z.mod_small by lia. done.
Qed.

Lemma unescape_chars l : Forall text_byte l -> forall f, (length (mjoin (map char_text l)) <= f)%nat ->
  unescape f (mjoin (map char_text l)) = Some l.
Proof.
  induction 1 as [|c l Hc Hl IH]; intros f Hf; [by destruct f|].
  assert (mjoin (map char_text (c :: l)) = char_text c ++ mjoin (map char_text l)) as Ej by done.
  rewrite Ej in *. rewrite length_app in Hf. set (more := mjoin (map char_text l)) in *.
  destruct (char_text_form c Hc) as [H34 H92|e He Hu|Hh]; simpl in Hf; (destruct f as [|f]; [lia|]).
  - cbn [app unescape]. destruct (Z.eqb_spec c 92); [done|]. cbn [negb]. by rewrite IH by lia.
  - cbn [app]. rewrite (unescape_short f e c) by done. by rewrite IH by lia.
  - cbn [app]. rewrite unescape_hex by done. by rewrite IH by lia.
Qed.

Lemma scan_chars l k : Forall text_byte l ->
  exists skipped, scan_string (mjoin (map char_text l) ++ 34 :: k) = Some (mjoin (map char_text l), skipped, k).
Proof.
  induction 1 as [|c l Hc Hl [sk IH]]; [by exists 0|].
  assert (mjoin (map char_text (c :: l)) = char_text c ++ mjoin (map char_text l)) as -> by done.
  set (more := mjoin (map char_text l)) in *. rewrite <- app_assoc.
  destruct (char_text_form c Hc) as [H34 H92|e He Hu|Hh].
  - exists sk. cbn [app scan_string]. destruct (Z.eqb_spec c 34); [done|]. destruct (Z.eqb_spec c 92); [done|]. by rewrite IH.
  - exists (sk + 1). cbn [app scan_string]. cbn [Z.eqb Pos.eqb]. by rewrite IH.
  - exists (sk + 1). assert (0 <= c / 16 < 16 /\ 0 <= c mod 16 < 16) as [H1 H2] by zdivmod.
    apply hex_digit_char in H1 as (_ & H1a & H1b). apply hex_digit_char in H2 as (_ & H2a & H2b).
    cbn [app scan_string Z.eqb Pos.eqb].
    destruct (Z.eqb_spec (hex_char (c / 16)) 34); [done|]. destruct (Z.eqb_spec (hex_char (c / 16)) 92); [done|].
    destruct (Z.eqb_spec (hex_char (c mod 16)) 34); [done|]. destruct (Z.eqb_spec (hex_char (c mod 16)) 92); [done|].
    by rewrite IH.
Qed.

(** A C string in a tree: no NUL in it. *)
Definition string_ok (s : string) : bool := forallb (fun c => negb (c =? 0)) (bytes_of_string s).

Lemma string_ok_cstr s : string_ok s = true -> cstr (bytes_of_string s) = bytes_of_string s.
Proof.
  unfold string_ok. rewrite forallb_forall. intros H. apply cstr_id, List.Forall_forall.
  intros c Hc ->. by apply H in Hc.
Qed.

Lemma parse_string_text s k : string_ok s = true -> parse_string (string_text s ++ k) = Some (s, k).
Proof.
  intros H%string_ok_cstr. unfold string_text, parse_string. cbn [app]. rewrite Z.eqb_refl, <- app_assoc.
  pose proof (cstr_text_bytes s) as Ht. destruct (scan_chars _ k Ht) as [sk Hs]. cbn [app]. rewrite Hs.
  rewrite unescape_chars by done. rewrite H, cstr_id by (rewrite <- H; apply text_bytes_nonzero, cstr_text_bytes).
  by rewrite string_of_bytes_of_string.
Qed.

(** ** Trees *)

(** Trees whose text is read back as they are: nested no deeper than [room],
    strings and keys without NUL, numbers of at most 15 digits. *)
Fixpoint json_ok (room : nat) (j : json) : bool :=
  match j with
  | JNull | JBool _ => true
  | JNum d => number_ok d
  | JStr s => string_ok s
  | JArr l => match room with O => false | S r => forallb (json_ok r) l end
  | JObj l => match room with O => false | S r => forallb (fun kv => string_ok kv.1 && json_ok r kv.2) l end
  end.

(** What may follow a number. *)
Definition stops (k : bytes) : Prop := match k with [] => True | c :: _ => is_number_char c = false end.
#[local] Abbreviation spaces := (Forall (fun c => c <= 32)) (only parsing).
Definition solid (l : bytes) : Prop := match l with [] => False | c :: _ => 32 < c end.

Lemma skip_spaces w l : spaces w -> solid l -> buffer_skip_whitespace (w ++ l) = l.
Proof.
  intros Hw Hl. induction Hw as [|c w Hc Hw IH].
  - destruct l as [|c l]; [done|]. by apply buffer_skip_whitespace_solid.
  - cbn [app buffer_skip_whitespace]. destruct (Z.leb_spec c 32); [|lia].
    destruct (w ++ l) eqn:E; [|done]. apply app_eq_nil in E as [_ ->]. done.
Qed.

Lemma stops_spaces w k : spaces w -> stops k -> stops (w ++ k).
Proof. intros [|c w' Hc _]; [done|]. intros _. simpl. unfold is_number_char, isdigit. lia. Qed.

Lemma only_fmt_spaces fmt l : spaces l -> spaces (only_fmt fmt l).
Proof. destruct fmt; [done|constructor]. Qed.
Lemma tabs_spaces n : spaces (tabs n).
Proof. by apply Forall_replicate. Qed.

(** The first byte of a value; none of them ends an array or an object. *)
Definition value_head (l : bytes) : Prop :=
  match l with [] => False | c :: _ => 32 < c < 128 /\ c <> 93 /\ c <> 125 end.

Lemma value_head_solid l : value_head l -> solid l.
Proof. destruct l; simpl; [done|lia]. Qed.

Lemma value_text_head fmt n j k : value_head (value_text fmt n j ++ k).
Proof.
  assert (forall c t, ((32 <? c) && (c <? 128)) && (negb (c =? 93) && negb (c =? 125)) = true -> value_head (c :: t)) as Hh.
  { intros c t H. simpl. lia. }
  destruct j as [|[]|d|s|l|l]; [by apply Hh..| |by apply Hh|by apply Hh|by apply Hh]. cbn [value_text].
  destruct (isinf d) eqn:E; [unfold number_text; rewrite E; by apply Hh|].
  pose proof (starts_number_text d k E) as Hs. destruct (number_text d ++ k) as [|c t]; [done|].
  simpl in Hs. unfold isdigit in Hs. apply Hh. lia.
Qed.

Lemma match_nonempty {A} (l : bytes) (x : option A) :
  l <> [] -> match l with [] => None | _ :: _ => x end = x.
Proof. by destruct l. Qed.

Section Items.
Context (fmt : bool) (r : nat) (n : Z).
Context (Hitem : forall j k, json_ok r j = true -> stops k ->
  parse_value r (value_text fmt n j ++ k) = Some (j, k)).

Lemma parse_elements_text l : forallb (json_ok r) l = true -> l <> [] -> forall fuel w k head,
  (length l <= fuel)%nat -> spaces w ->
  parse_elements (parse_value r) fuel (w ++ elements_text fmt (value_text fmt n) l ++ 93 :: k) head = Some (head ++ l, k).
Proof using Hitem.
  induction l as [|x l IH]; [done|]. cbn [forallb]. intros [Hx Hl]%andb_true_iff _ fuel w k head Hf Hw.
  destruct fuel as [|f]; [simpl in Hf; lia|]. cbn [parse_elements elements_text]. rewrite <- !app_assoc.
  rewrite skip_spaces by (try done; apply value_head_solid, value_text_head).
  destruct l as [|y l'].
  - cbn [elements_text app]. rewrite Hitem by done. rewrite buffer_skip_whitespace_solid by lia. done.
  - rewrite Hitem by done. cbn [app]. rewrite buffer_skip_whitespace_solid by lia. rewrite Z.eqb_refl.
    rewrite (IH Hl ltac:(done) f (only_fmt fmt [32]) k); [by rewrite <- app_assoc|simpl in *; lia|].
    apply only_fmt_spaces. by apply Forall_singleton.
Qed.

Lemma parse_members_text l : forallb (fun kv => string_ok kv.1 && json_ok r kv.2) l = true -> l <> [] ->
  forall fuel w w' k head, (length l <= fuel)%nat -> spaces w -> spaces w' ->
  parse_members (parse_value r) fuel (w ++ members_text fmt n (value_text fmt n) l ++ w' ++ 125 :: k) head = Some (head ++ l, k).
Proof using Hitem.
  induction l as [|[key x] l IH]; [done|]. cbn [forallb]. intros [Hx Hl]%andb_true_iff _ fuel w w' k head Hf Hw Hw'.
  apply andb_true_iff in Hx as [Hkey Hx]. simpl in Hkey, Hx.
  destruct fuel as [|f]; [simpl in Hf; lia|]. cbn [parse_members members_text]. rewrite <- !app_assoc.
  rewrite match_nonempty by (intros E; apply (f_equal length) in E; rewrite !length_app in E; simpl in E; lia).
  rewrite (app_assoc w), skip_spaces; [|apply Forall_app; split; [done|apply only_fmt_spaces, tabs_spaces]|done].
  rewrite parse_string_text by done. cbn [app]. rewrite buffer_skip_whitespace_solid by lia.
  rewrite Z.eqb_refl. cbn [negb].
  rewrite skip_spaces by (first [apply value_head_solid, value_text_head|apply only_fmt_spaces; by apply Forall_singleton]).
  assert (spaces (only_fmt fmt [10])) as Hnl by (apply only_fmt_spaces; by apply Forall_singleton).
  destruct l as [|y l'].
  - cbn [members_text app]. rewrite Hitem by (try done; by repeat apply stops_spaces).
    rewrite app_assoc, skip_spaces by (try done; by apply Forall_app). done.
  - rewrite Hitem by done. cbn [app]. rewrite buffer_skip_whitespace_solid by lia. rewrite Z.eqb_refl.
    rewrite (IH Hl ltac:(done) f _ w' k) by (try done; simpl in *; lia). by rewrite <- app_assoc.
Qed.
End Items.

Lemma elements_text_count fmt r l : (length l <= length (elements_text fmt (value_text fmt r) l))%nat.
Proof.
  induction l as [|x l IH]; [done|]. cbn [elements_text length]. rewrite !length_app.
  pose proof (value_text_head fmt r x []) as Hh. rewrite app_nil_r in Hh.
  destruct (value_text fmt r x); [done|simpl; lia].
Qed.

Lemma members_text_count fmt n r l : (length l <= length (members_text fmt n (value_text fmt r) l))%nat.
Proof.
  induction l as [|[k x] l IH]; [done|]. cbn [members_text length]. rewrite !length_app. simpl. lia.
Qed.

Lemma parse_members_skip pv f l head :
  l <> [] -> parse_members pv f (buffer_skip_whitespace l) head = parse_members pv f l head.
Proof.
  intros Hl. destruct f as [|f]; [done|]. cbn [parse_members].
  rewrite !match_nonempty, buffer_skip_whitespace_idem; [done|done|].
  destruct l as [|c l]; [done|]. intros E. revert c E Hl. induction l as [|c' l IH]; intros c; simpl.
  - by destruct (c <=? 32).
  - destruct (c <=? 32); [|done]. intros E _. by apply (IH c').
Qed.

(** Which parser a head of the text calls. *)
Lemma parse_value_head room c t :
  c <> 110 -> c <> 102 -> c <> 116 ->
  parse_value room (c :: t) =
  if c =? 34 then match parse_string (c :: t) with Some (s, rest) => Some (JStr s, rest) | None => None end
  else if (c =? 45) || ((48 <=? c) && (c <=? 57)) then parse_number (c :: t)
  else if c =? 91 then match room with O => None | S r => parse_array (parse_value r) (c :: t) end
  else if c =? 123 then match room with O => None | S r => parse_object (parse_value r) (c :: t) end
  else None.
Proof.
  intros Hn Hf Ht.
  assert (starts_with (bytes_of_string "null") (c :: t) = false) as E1.
  { change ((110 =? c) && starts_with (bytes_of_string "ull") t = false). by destruct (Z.eqb_spec 110 c). }
  assert (starts_with (bytes_of_string "false") (c :: t) = false) as E2.
  { change ((102 =? c) && starts_with (bytes_of_string "alse") t = false). by destruct (Z.eqb_spec 102 c). }
  assert (starts_with (bytes_of_string "true") (c :: t) = false) as E3.
  { change ((116 =? c) && starts_with (bytes_of_string "rue") t = false). by destruct (Z.eqb_spec 116 c). }
  destruct room; cbn [parse_value]; by rewrite E1, E2, E3.
Qed.

Lemma parse_value_number room d k :
  number_ok d = true -> stops k -> parse_value room (number_text d ++ k) = Some (JNum d, k).
Proof.
  intros Hd Hk. pose proof (starts_number_text d k (number_ok_finite d Hd)) as Hs.
  pose proof (parse_number_text d k Hd Hk) as Hp.
  destruct (number_text d ++ k) as [|c t]; [done|]. simpl in Hs. unfold isdigit in Hs.
  rewrite parse_value_head by lia. rewrite Hs. destruct (Z.eqb_spec c 34); [lia|done].
Qed.

(** The parser reads the text of a tree back, formatted or not, and stops
    behind it. *)
Lemma parse_value_text fmt room j n k :
  json_ok room j = true -> stops k -> parse_value room (value_text fmt n j ++ k) = Some (j, k).
Proof.
  revert j n k. induction room as [|r IH]; intros j n k Hj Hk;
    (destruct j as [|[]|d|s|l|l]; [done..|by apply parse_value_number| | |]); try done.
  1,2: change (value_text fmt n (JStr s) ++ k) with (34 :: (mjoin (map char_text (cstr (bytes_of_string s))) ++ [34]) ++ k);
    rewrite parse_value_head by lia; cbn [Z.eqb Pos.eqb];
    change (34 :: (mjoin (map char_text (cstr (bytes_of_string s))) ++ [34]) ++ k) with (string_text s ++ k);
    by rewrite parse_string_text.
  - cbn [value_text app]. rewrite parse_value_head by lia. cbn [Z.eqb Pos.eqb orb andb Z.leb Z.compare Pos.compare Pos.compare_cont].
    unfold parse_array. rewrite Z.eqb_refl, <- app_assoc. cbn [app]. simpl in Hj.
    destruct l as [|x l]; [done|]. set (body := elements_text _ _ _ ++ _).
    assert (value_head body) as Hh.
    { unfold body. cbn [elements_text]. rewrite <- !app_assoc. apply value_text_head. }
    pose proof (parse_elements_text fmt r (n + 1) (fun j k => IH j (n + 1) k) (x :: l) Hj ltac:(done)
      (length body) [] k [] ) as Hp. rewrite app_nil_l in Hp. fold body in Hp.
    destruct body as [|c t] eqn:Eb; [done|]. rewrite buffer_skip_whitespace_solid by (simpl in Hh; lia).
    destruct (Z.eqb_spec c 93); [simpl in Hh; lia|]. cbn [length] in Hp. rewrite Hp; [done| |constructor].
    pose proof (elements_text_count fmt (n + 1) (x :: l)) as Hc. apply (f_equal length) in Eb.
    unfold body in Eb. rewrite length_app in Eb. simpl in *. lia.
  - cbn [value_text app]. rewrite parse_value_head by lia. cbn [Z.eqb Pos.eqb orb andb Z.leb Z.compare Pos.compare Pos.compare_cont].
    unfold parse_object. rewrite Z.eqb_refl, <- !app_assoc. cbn [app]. simpl in Hj.
    assert (spaces (only_fmt fmt [10])) as Hnl by (apply only_fmt_spaces; by apply Forall_singleton).
    destruct l as [|[key x] l].
    { cbn [members_text app]. rewrite (app_assoc (only_fmt fmt [10])), skip_spaces; [done| |done].
      apply Forall_app. split; [done|apply only_fmt_spaces, tabs_spaces]. }
    set (rest := string_text key ++ (58 :: only_fmt fmt [9]) ++ value_text fmt (n + 1) x ++
      (match l with [] => [] | _ => [44] end) ++ only_fmt fmt [10] ++
      members_text fmt (n + 1) (value_text fmt (n + 1)) l ++ only_fmt fmt (tabs n) ++ 125 :: k).
    set (text := only_fmt fmt [10] ++ _).
    assert (text = (only_fmt fmt [10] ++ only_fmt fmt (tabs (n + 1))) ++ rest) as Et.
    { unfold text, rest. cbn [members_text]. by rewrite <- !app_assoc. }
    assert (buffer_skip_whitespace text = rest) as Hs.
    { rewrite Et. apply skip_spaces; [|done]. apply Forall_app. split; [done|apply only_fmt_spaces, tabs_spaces]. }
    rewrite Hs. assert (exists t, rest = 34 :: t) as [t Er] by (unfold rest, string_text; by eexists).
    rewrite Er. cbn [Z.eqb Pos.eqb]. rewrite <- Er.
    rewrite <- Hs, parse_members_skip by (rewrite Et, Er; intros Ee; by apply app_eq_nil in Ee as [_ ?]).
    unfold text. rewrite (parse_members_text fmt r (n + 1) (fun j k => IH j (n + 1) k)); try done.
    + pose proof (members_text_count fmt (n + 1) (n + 1) l) as Hc. apply (f_equal length) in Er.
      unfold rest in Er. rewrite !length_app in Er. simpl in *. lia.
    + apply only_fmt_spaces, tabs_spaces.
Qed.

(** ** The whole text *)

Lemma cjson_parse_text fmt j strict :
  json_ok CJSON_NESTING_LIMIT j = true ->
  cJSON_ParseWithOpts (string_of_bytes (value_text fmt 0 j)) strict = Some j.
Proof.
  intros Hj. unfold cJSON_ParseWithOpts.
  pose proof (value_text_bytes fmt j 0) as Hb. pose proof (value_text_head fmt 0 j [0]) as Hh.
  rewrite bytes_of_string_of_bytes.
  2:{ eapply Forall_impl; [exact Hb|]. unfold text_byte, is_byte. simpl. lia. }
  rewrite cstr_id by by apply text_bytes_nonzero.
  assert (skip_utf8_bom (value_text fmt 0 j ++ [0]) = value_text fmt 0 j ++ [0]) as ->.
  { unfold skip_utf8_bom. destruct (value_text fmt 0 j ++ [0]) as [|c t]; [done|]. simpl in Hh.
    cbn [starts_with]. destruct (Z.eqb_spec 239 c); [lia|]. cbn [andb]. by rewrite andb_false_r. }
  replace (buffer_skip_whitespace (value_text fmt 0 j ++ [0])) with (value_text fmt 0 j ++ [0]).
  2:{ destruct (value_text fmt 0 j ++ [0]) as [|c t]; [done|]. simpl in Hh. rewrite buffer_skip_whitespace_solid by lia. done. }
  rewrite parse_value_text by done. by destruct strict.
Qed.

(** The printer and the parser of [JsonText]. *)
Definition cjson : JsonText := {|
  cJSON_PrintUnformatted j := string_of_bytes (value_text false 0 j);
  cJSON_Parse := cjson_parse |}.

Lemma cjson_text_nonzero j :
  Forall (fun c => c <> 0) (bytes_of_string (@cJSON_PrintUnformatted cjson j)).
Proof.
  change (@cJSON_PrintUnformatted cjson j) with (string_of_bytes (value_text false 0 j)).
  pose proof (value_text_bytes false j 0) as Hb. rewrite bytes_of_string_of_bytes.
  - by apply text_bytes_nonzero.
  - eapply Forall_impl; [exact Hb|]. unfold text_byte, is_byte. simpl. lia.
Qed.

(** C5: what cJSON prints, it reads back: for every tree that C strings and
    doubles of 15 digits can hold, nested at most [CJSON_NESTING_LIMIT] deep,
    printing (plain or formatted, whatever the memory held before) succeeds
    with every store inside its block, and parsing the string gives the tree
    again, with nothing left over. *)
Theorem cjson_roundtrip indeterminate fmt j :
  json_ok CJSON_NESTING_LIMIT j = true -> zlen (value_text fmt 0 j) + 2 <= INT_MAX ->
  exists s, print indeterminate j fmt = POk s /\ cJSON_ParseWithOpts s true = Some j /\ cjson_parse s = Some j.
Proof.
  intros Hj Hm. exists (string_of_bytes (value_text fmt 0 j)). split; [by apply print_spec|].
  split; by apply cjson_parse_text.
Qed.

Example cjson_roundtrip_witness :
  let j := JObj [("t", JNum 1700000000123000000); ("x", JArr [JStr "a\n"; JNull; JObj []; JNum (-50000)])] in
  json_ok CJSON_NESTING_LIMIT j = true /\
  exists s, print (fun i => i mod 256) j true = POk s /\ cJSON_ParseWithOpts s true = Some j /\ cjson_parse s = Some j.
Proof.
  split; [vm_compute; reflexivity|].
  apply (cjson_roundtrip (fun i => i mod 256) true); [vm_compute; reflexivity|vm_compute; discriminate].
Defined.
