(* ===== verification/MiParse.v ===== *)
(** * GDB/MI records ([src/util/mi_parse.c])

    One line of GDB's machine interface becomes one record.  The cursor of the
    recursive descent is the rest of the line; memory is taken to be
    available.  Recursion is on fuel, and a call that has used it up has no
    result, so that a descent that went on for ever would have none with any
    fuel; twice the length of the line and 2 are enough
    ([mi_parse_enough_fuel]).  The depth of the C's recursion is that of the
    nesting, without a limit ([mi_nesting_uncounted]); its stack is not
    modelled. *)
From S2P Require Import Prelude Cstr Json.

#[local] Open Scope string_scope.
#[local] Open Scope list_scope.
#[local] Open Scope Z_scope.

Definition QUOTE : Z := 34.
Definition BACKSLASH : Z := 92.
Definition COMMA : Z := 44.
Definition LBRACE : Z := 123.
Definition RBRACE : Z := 125.
Definition LBRACKET : Z := 91.
Definition RBRACKET : Z := 93.
Definition EQUALS : Z := 61.

(** ** Values *)

(** What a backslash and [n] stand for. *)
Definition mi_unescape (n : Z) : Z :=
  if n =? chr "n" then 10 else if n =? chr "t" then 9 else if n =? chr "r" then 13 else n.

(** After the opening quote; a string may also end with the line. *)
Fixpoint parse_cstring (l : bytes) : bytes * bytes :=
  match l with
  | [] => ([], [])
  | ch :: l' =>
      let plain := let '(s, rest) := parse_cstring l' in (ch :: s, rest) in
      if ch =? BACKSLASH then
        match l' with
        | n :: l'' => let '(s, rest) := parse_cstring l'' in (mi_unescape n :: s, rest)
        | [] => plain
        end
      else if ch =? QUOTE then ([], l')
      else plain
  end.

Definition is_bare (c : Z) : bool := negb ((c =? COMMA) || (c =? RBRACE) || (c =? RBRACKET)).
Definition parse_bare (l : bytes) : bytes * bytes := (take_while is_bare l, skip_while is_bare l).

(** [cJSON_CreateString] and keys: a C string ends at its first NUL. *)
Definition c_string (b : bytes) : string := string_of_bytes (cstr b).

Definition is_key_start (c : Z) : bool := isalpha c || (c =? chr "_").
Definition is_key_char (c : Z) : bool := isalnum c || (c =? chr "_") || (c =? chr "-").

(** [key=] in front of a list element. *)
Definition list_key (l : bytes) : option (bytes * bytes) :=
  match l with
  | ch :: _ =>
      if is_key_start ch then
        match skip_while is_key_char l with
        | eq :: rest => if eq =? EQUALS then Some (take_while is_key_char l, rest) else None
        | [] => None
        end
      else None
  | [] => None
  end.

(** A key runs to [=], but not past a comma or the closing character. *)
Definition in_key (close : option Z) (c : Z) : bool :=
  negb (c =? EQUALS) && negb (c =? COMMA) && negb (bool_decide (close = Some c)).

(** [None]: the fuel ran out, as it always would where the C does not
    return. *)
Fixpoint parse_value (fuel : nat) (l : bytes) : option (json * bytes) :=
  match fuel with
  | O => None
  | S fuel =>
      match l with
      | [] => Some (JStr "", [])
      | ch :: l' =>
          if ch =? QUOTE then let '(s, rest) := parse_cstring l' in Some (JStr (c_string s), rest)
          else if ch =? LBRACE then
            '(ms, rest) ← parse_object_until fuel (Some RBRACE) l'; Some (JObj ms, rest)
          else if ch =? LBRACKET then '(vs, rest) ← parse_list fuel l'; Some (JArr vs, rest)
          else let '(s, rest) := parse_bare l in Some (JStr (c_string s), rest)
      end
  end
with parse_list (fuel : nat) (l : bytes) : option (list json * bytes) :=
  match fuel with
  | O => None
  | S fuel =>
      match l with
      | [] => Some ([], [])
      | ch :: l' =>
          if ch =? RBRACKET then Some ([], l')
          else if ch =? COMMA then parse_list fuel l'
          else if ch =? RBRACE then Some ([], l)
          else
            match list_key l with
            | Some (key, rest) =>
                '(v, rest) ← parse_value fuel rest;
                '(vs, rest) ← parse_list fuel rest; Some (JObj [(c_string key, v)] :: vs, rest)
            | None =>
                '(v, rest) ← parse_value fuel l;
                let rest := if (length rest =? length l)%nat then l' else rest in
                '(vs, rest) ← parse_list fuel rest; Some (v :: vs, rest)
            end
      end
  end
with parse_object_until (fuel : nat) (close : option Z) (l : bytes) :
    option (list (string * json) * bytes) :=
  match fuel with
  | O => None
  | S fuel =>
      match l with
      | [] => Some ([], [])
      | ch :: l' =>
          if bool_decide (close = Some ch) then Some ([], l')
          else if ch =? COMMA then parse_object_until fuel close l'
          else
            match skip_while (in_key close) l with
            | eq :: rest =>
                if eq =? EQUALS then
                  let key := take_while (in_key close) l in
                  '(v, rest) ← parse_value fuel rest;
                  '(ms, rest) ← parse_object_until fuel close rest;
                  Some ((c_string key, v) :: ms, rest)
                else Some ([], eq :: rest)
            | [] => Some ([], [])
            end
      end
  end.

(** ** Records *)

Inductive sm_mi_type :=
  | SM_MI_RESULT | SM_MI_EXEC_ASYNC | SM_MI_STATUS_ASYNC | SM_MI_NOTIFY_ASYNC
  | SM_MI_CONSOLE | SM_MI_TARGET | SM_MI_LOG | SM_MI_PROMPT.

Record sm_mi_record := mk_mi {
  mi_type : sm_mi_type; mi_token : Z; mi_class : string;
  mi_results : option (list (string * json)); mi_stream_data : option string }.

(** A token that does not fit a [long] has no defined value; a call that does
    not return is an outcome of its own. *)
Inductive mi_outcome := MiRecord (r : sm_mi_record) | MiReject | MiUndefined | MiEndless.

Definition mi_fuel (l : bytes) : nat := 2 * length l + 2.

(** The type and whether it is a stream. *)
Definition mi_marker (c : Z) : option (sm_mi_type * bool) :=
  if c =? chr "^" then Some (SM_MI_RESULT, false)
  else if c =? chr "*" then Some (SM_MI_EXEC_ASYNC, false)
  else if c =? chr "+" then Some (SM_MI_STATUS_ASYNC, false)
  else if c =? chr "=" then Some (SM_MI_NOTIFY_ASYNC, false)
  else if c =? chr "~" then Some (SM_MI_CONSOLE, true)
  else if c =? chr "@" then Some (SM_MI_TARGET, true)
  else if c =? chr "&" then Some (SM_MI_LOG, true)
  else None.

(** A trailing CR or LF is dropped. *)
Fixpoint strip_eol (l : bytes) : bytes :=
  match l with
  | [] => []
  | c :: l' =>
      match strip_eol l' with
      | [] => if (c =? 10) || (c =? 13) then [] else [c]
      | k => c :: k
      end
  end.

(** The digit loop, with the overflow of [token * 10 + d]. *)
Fixpoint mi_digits (token : Z) (l : bytes) : option Z :=
  match l with
  | [] => Some token
  | c :: l' => let t := token * 10 + (c - 48) in if LONG_MAX <? t then None else mi_digits t l'
  end.

Definition sm_mi_parse_line (line : bytes) : mi_outcome :=
  let l := strip_eol line in
  if bool_decide (l = bytes_of_string "(gdb)") then
    MiRecord (mk_mi SM_MI_PROMPT (-1) "" None None) else
  let digits := take_while isdigit l in
  let rest := skip_while isdigit l in
  let had_token := negb (length digits =? 0)%nat in
  match mi_digits 0 digits with
  | None => MiUndefined
  | Some token =>
      match rest with
      | [] => MiReject
      | c :: rest =>
          match mi_marker c with
          | None => MiReject
          | Some (type, is_stream) =>
              if is_stream : bool then
                if had_token then MiReject else
                MiRecord (mk_mi type (-1) "" None (Some
                  (match rest with
                   | q :: rest' => if q =? QUOTE then c_string (fst (parse_cstring rest')) else ""
                   | [] => "" end)))
              else
                let cls := take_while (fun c => negb (c =? COMMA)) rest in
                let results :=
                  match skip_while (fun c => negb (c =? COMMA)) rest with
                  | _ :: k => fst <$> parse_object_until (mi_fuel k) None k
                  | [] => Some []
                  end in
                match results with
                | Some results =>
                    MiRecord (mk_mi type (if had_token then token else -1)
                      (c_string (ztake 31 cls)) (Some results) None)
                | None => MiEndless
                end
          end
      end
  end.

Example mi_stopped :
  sm_mi_parse_line (bytes_of_string "7*stopped,frame={addr=1,args=[x=2,{y=3},4]}," ++
                    bytes_of_string "n=[]" ++ [13; 10]) =
  MiRecord (mk_mi SM_MI_EXEC_ASYNC 7 "stopped"
    (Some [("frame", JObj [("addr", JStr "1");
                           ("args", JArr [JObj [("x", JStr "2")]; JObj [("y", JStr "3")]; JStr "4"])]);
           ("n", JArr [])]) None).
Proof. by vm_compute. Qed.

(** ** Termination *)

Lemma parse_cstring_length l : (length (snd (parse_cstring l)) <= length l)%nat.
Proof.
  induction l as [l IH] using (induction_ltof1 _ (@length Z)). unfold ltof in IH.
  destruct l as [|ch l]; simpl; [done|].
  pose proof (IH l ltac:(simpl; lia)) as H1.
  destruct (ch =? BACKSLASH).
  - destruct l as [|n l]; [simpl; lia|]. pose proof (IH l ltac:(simpl; lia)) as H2.
    destruct (parse_cstring l). simpl in *. lia.
  - destruct (ch =? QUOTE); [simpl; lia|]. destruct (parse_cstring l). simpl in *. lia.
Qed.

Lemma list_key_shorter l key rest : list_key l = Some (key, rest) -> (length rest < length l)%nat.
Proof.
  unfold list_key. destruct l as [|ch l]; [done|]. destruct (is_key_start ch); [|done].
  pose proof (skip_while_length is_key_char (ch :: l)).
  destruct (skip_while is_key_char (ch :: l)) as [|e k]; [done|].
  destruct (e =? EQUALS); [|done]. intros [= _ <-]. simpl in *. lia.
Qed.

Lemma parse_value_S fuel l :
  parse_value (S fuel) l =
      match l with
      | [] => Some (JStr "", [])
      | ch :: l' =>
          if ch =? QUOTE then let '(s, rest) := parse_cstring l' in Some (JStr (c_string s), rest)
          else if ch =? LBRACE then
            '(ms, rest) ← parse_object_until fuel (Some RBRACE) l'; Some (JObj ms, rest)
          else if ch =? LBRACKET then '(vs, rest) ← parse_list fuel l'; Some (JArr vs, rest)
          else let '(s, rest) := parse_bare l in Some (JStr (c_string s), rest)
      end.
Proof. done. Qed.
Lemma parse_list_S fuel l :
  parse_list (S fuel) l =
      match l with
      | [] => Some ([], [])
      | ch :: l' =>
          if ch =? RBRACKET then Some ([], l')
          else if ch =? COMMA then parse_list fuel l'
          else if ch =? RBRACE then Some ([], l)
          else
            match list_key l with
            | Some (key, rest) =>
                '(v, rest) ← parse_value fuel rest;
                '(vs, rest) ← parse_list fuel rest; Some (JObj [(c_string key, v)] :: vs, rest)
            | None =>
                '(v, rest) ← parse_value fuel l;
                let rest := if (length rest =? length l)%nat then l' else rest in
                '(vs, rest) ← parse_list fuel rest; Some (v :: vs, rest)
            end
      end.
Proof. done. Qed.
Lemma parse_object_S fuel close l :
  parse_object_until (S fuel) close l =
      match l with
      | [] => Some ([], [])
      | ch :: l' =>
          if bool_decide (close = Some ch) then Some ([], l')
          else if ch =? COMMA then parse_object_until fuel close l'
          else
            match skip_while (in_key close) l with
            | eq :: rest =>
                if eq =? EQUALS then
                  let key := take_while (in_key close) l in
                  '(v, rest) ← parse_value fuel rest;
                  '(ms, rest) ← parse_object_until fuel close rest;
                  Some ((c_string key, v) :: ms, rest)
                else Some ([], eq :: rest)
            | [] => Some ([], [])
            end
      end.
Proof. done. Qed.

(** A call ends with a cursor that was not moved back. *)
Definition ends_within {A} (l : bytes) (r : option (A * bytes)) : Prop :=
  exists v rest, r = Some (v, rest) /\ (length rest <= length l)%nat.

Lemma ends_some {A} (l : bytes) (v : A) rest : (length rest <= length l)%nat -> ends_within l (Some (v, rest)).
Proof. by eexists _, _. Qed.
Lemma ends_bind {A B} l l' (r : option (A * bytes)) (f : A -> bytes -> option (B * bytes)) :
  ends_within l' r -> (length l' <= length l)%nat ->
  (forall v rest, (length rest <= length l')%nat -> ends_within l (f v rest)) ->
  ends_within l ('(v, rest) ← r; f v rest).
Proof. intros (v & rest & -> & Hr) _ Hf. by apply Hf. Qed.
Lemma ends_weaken {A} l l' (r : option (A * bytes)) :
  ends_within l' r -> (length l' <= length l)%nat -> ends_within l r.
Proof. intros (v & rest & -> & Hr) Hl. eexists _, _. split; [done|lia]. Qed.

(** Each call takes a byte of the line or closes a value, so that fuel of
    twice the length is enough. *)
Lemma mi_ends n :
  (forall l f, length l <= n -> 2 * length l + 1 <= f -> ends_within l (parse_value f l))%nat /\
  (forall l f, length l <= n -> 2 * length l + 2 <= f -> ends_within l (parse_list f l))%nat /\
  (forall close l f, length l <= n -> 2 * length l + 2 <= f -> ends_within l (parse_object_until f close l))%nat.
Proof.
  induction n as [n IH] using (well_founded_induction lt_wf).
  assert (forall l f, length l <= n -> 2 * length l + 1 <= f -> ends_within l (parse_value f l))%nat as Hv.
  { intros [|ch l] [|f]; cbn [length]; intros Hn Hf; try lia; cbn [parse_value]; [by apply ends_some|].
    destruct (IH (length l)) as (_ & Hl & Ho); [lia|].
    destruct (ch =? QUOTE).
    { pose proof (parse_cstring_length l). destruct (parse_cstring l). apply ends_some. simpl in *. lia. }
    destruct (ch =? LBRACE).
    { eapply ends_bind; [apply Ho; lia|simpl; lia|]. intros. apply ends_some. simpl. lia. }
    destruct (ch =? LBRACKET).
    { eapply ends_bind; [apply Hl; lia|simpl; lia|]. intros. apply ends_some. simpl. lia. }
    apply ends_some, skip_while_length. }
  split; [exact Hv|]. split.
  - intros [|ch l] [|f]; cbn [length]; intros Hn Hf; try lia; cbn [parse_list]; [by apply ends_some|].
    destruct (IH (length l)) as (IHv & IHl & _); [lia|].
    destruct (ch =? RBRACKET); [apply ends_some; simpl; lia|].
    destruct (ch =? COMMA); [eapply ends_weaken; [apply IHl|simpl]; lia|].
    destruct (ch =? RBRACE); [by apply ends_some|].
    destruct (list_key (ch :: l)) as [[key rest]|] eqn:Ek.
    + apply list_key_shorter in Ek. cbn [length] in Ek.
      eapply ends_bind; [apply IHv; lia|simpl; lia|]. intros v r Hr.
      eapply ends_bind; [apply IHl; lia|simpl; lia|]. intros. apply ends_some. simpl. lia.
    + eapply ends_bind; [apply Hv; cbn [length]; lia|done|]. cbn [length]. intros v r Hr.
      destruct (Nat.eqb_spec (length r) (S (length l))).
      * eapply ends_bind; [apply IHl; lia|simpl; lia|]. intros. apply ends_some. simpl. lia.
      * eapply ends_bind; [apply IHl; lia|simpl; lia|]. intros. apply ends_some. simpl. lia.
  - intros close [|ch l] [|f]; cbn [length]; intros Hn Hf; try lia; cbn [parse_object_until]; [by apply ends_some|].
    destruct (IH (length l)) as (IHv & _ & IHo); [lia|].
    destruct (bool_decide _); [apply ends_some; simpl; lia|].
    destruct (ch =? COMMA); [eapply ends_weaken; [apply IHo|simpl]; lia|].
    pose proof (skip_while_length (in_key close) (ch :: l)) as Hs.
    destruct (skip_while (in_key close) (ch :: l)) as [|e rest]; [apply ends_some; simpl; lia|].
    destruct (e =? EQUALS); [|by apply ends_some]. cbn [length] in Hs.
    eapply ends_bind; [apply IHv; lia|simpl; lia|]. intros v r Hr.
    eapply ends_bind; [apply IHo; lia|simpl; lia|]. intros. apply ends_some. simpl. lia.
Qed.

Lemma bind_mono {A B} (r r' : option A) (f f' : A -> option B) y :
  (forall x, r = Some x -> r' = Some x) -> (forall x, f x = Some y -> f' x = Some y) ->
  r ≫= f = Some y -> r' ≫= f' = Some y.
Proof. intros Hr Hf (x & Hx & Hy)%bind_Some. rewrite (Hr x Hx). by apply Hf. Qed.

(** A result stays with more fuel. *)
Lemma mi_mono_S f :
  (forall l x, parse_value f l = Some x -> parse_value (S f) l = Some x) /\
  (forall l x, parse_list f l = Some x -> parse_list (S f) l = Some x) /\
  (forall close l x, parse_object_until f close l = Some x -> parse_object_until (S f) close l = Some x).
Proof.
  induction f as [|f (IHv & IHl & IHo)]; [done|]. split_and!.
  - intros l x H. rewrite parse_value_S in H. rewrite parse_value_S. destruct l as [|ch l]; [done|].
    destruct (ch =? QUOTE); [done|]. destruct (ch =? LBRACE); [by eapply bind_mono; [..|exact H]; eauto|].
    destruct (ch =? LBRACKET); [by eapply bind_mono; [..|exact H]; eauto|done].
  - intros l x H. rewrite parse_list_S in H. rewrite parse_list_S. destruct l as [|ch l]; [done|].
    destruct (ch =? RBRACKET); [done|]. destruct (ch =? COMMA); [by eauto|]. destruct (ch =? RBRACE); [done|].
    destruct (list_key (ch :: l)) as [[key rest]|];
      (eapply bind_mono; [..|exact H]; [by eauto|]; intros [v r]; cbv zeta; intros H';
       eapply bind_mono; [..|exact H']; by eauto).
  - intros close l x H. rewrite parse_object_S in H. rewrite parse_object_S. destruct l as [|ch l]; [done|].
    destruct (bool_decide _); [done|]. destruct (ch =? COMMA); [by eauto|].
    destruct (skip_while _ _) as [|e rest]; [done|]. destruct (e =? EQUALS); [|done].
    eapply bind_mono; [..|exact H]; [by eauto|]. intros [v r] H'.
    eapply bind_mono; [..|exact H']; by eauto.
Qed.

Lemma mi_mono f f' :
  (f <= f')%nat ->
  (forall l x, parse_value f l = Some x -> parse_value f' l = Some x) /\
  (forall l x, parse_list f l = Some x -> parse_list f' l = Some x) /\
  (forall close l x, parse_object_until f close l = Some x -> parse_object_until f' close l = Some x).
Proof.
  intros H. induction H as [|f' _ (Hv & Hl & Ho)]; [done|].
  destruct (mi_mono_S f') as (Gv & Gl & Go). split_and!; eauto.
Qed.

(** What a call gives: the fuel of the input is enough, and more changes
    nothing. *)
Definition pv (l : bytes) : json * bytes := default (JStr "", l) (parse_value (mi_fuel l) l).
Definition pl (l : bytes) : list json * bytes := default ([], l) (parse_list (mi_fuel l) l).
Definition po (close : option Z) (l : bytes) : list (string * json) * bytes :=
  default ([], l) (parse_object_until (mi_fuel l) close l).

Lemma enough_eq {A} (p : nat -> option (A * bytes)) l f n d :
  ends_within l (p f) -> ends_within l (p n) ->
  (forall x, p f = Some x -> p (f `max` n)%nat = Some x) ->
  (forall x, p n = Some x -> p (f `max` n)%nat = Some x) ->
  p f = Some (default d (p n)).
Proof.
  intros (v & r & E & _) (v' & r' & E' & _) H1 H2.
  rewrite E, E'. apply H1 in E. apply H2 in E'. simpl. congruence.
Qed.

Lemma pv_enough f l : (2 * length l + 1 <= f)%nat -> parse_value f l = Some (pv l).
Proof.
  intros. destruct (mi_ends (length l)) as (Hv & _ & _).
  apply (enough_eq (fun f => parse_value f l) l); try (apply Hv; unfold mi_fuel; lia);
    by apply mi_mono; lia.
Qed.
Lemma pl_enough f l : (2 * length l + 2 <= f)%nat -> parse_list f l = Some (pl l).
Proof.
  intros. destruct (mi_ends (length l)) as (_ & Hl & _).
  apply (enough_eq (fun f => parse_list f l) l); try (apply Hl; unfold mi_fuel; lia);
    by apply mi_mono; lia.
Qed.
Lemma po_enough f close l : (2 * length l + 2 <= f)%nat -> parse_object_until f close l = Some (po close l).
Proof.
  intros. destruct (mi_ends (length l)) as (_ & _ & Ho).
  apply (enough_eq (fun f => parse_object_until f close l) l); try (apply Ho; unfold mi_fuel; lia);
    by apply mi_mono; lia.
Qed.
Lemma pv_length l : (length (snd (pv l)) <= length l)%nat.
Proof.
  destruct (mi_ends (length l)) as (Hv & _ & _).
  destruct (Hv l (mi_fuel l)) as (v & r & E & Hr); [lia|unfold mi_fuel; lia|].
  unfold pv. by rewrite E.
Qed.

(** A list element takes a byte at least: the guard against a value that makes
    no progress never fires. *)
Lemma mi_value_progress ch l :
  ch <> RBRACKET -> ch <> COMMA -> ch <> RBRACE -> (length (snd (pv (ch :: l))) < length (ch :: l))%nat.
Proof.
  intros H1 H2 H3. pose proof (pv_enough (S (mi_fuel l)) (ch :: l) ltac:(unfold mi_fuel; simpl; lia)) as E.
  rewrite parse_value_S in E. destruct (mi_ends (length l)) as (_ & Hl & Ho).
  destruct (ch =? QUOTE).
  { pose proof (parse_cstring_length l). destruct (parse_cstring l). simplify_eq. rewrite <- E. simpl in *. lia. }
  destruct (ch =? LBRACE).
  { destruct (Ho (Some RBRACE) l (mi_fuel l)) as (v & r & Er & Hr); [lia|unfold mi_fuel; lia|].
    rewrite Er in E. simplify_eq/=. rewrite <- E. simpl. lia. }
  destruct (ch =? LBRACKET).
  { destruct (Hl l (mi_fuel l)) as (v & r & Er & Hr); [lia|unfold mi_fuel; lia|].
    rewrite Er in E. simplify_eq/=. rewrite <- E. simpl. lia. }
  cbn [parse_bare] in E. injection E as <-. cbn [snd skip_while]. assert (is_bare ch = true) as ->.
  { unfold is_bare. destruct (Z.eqb_spec ch COMMA), (Z.eqb_spec ch RBRACE), (Z.eqb_spec ch RBRACKET); done. }
  pose proof (skip_while_length is_bare l). simpl. lia.
Qed.

(** C38: parsing always ends.  The three functions of the descent run on fuel
    that every call and every round of a loop takes one of, and have no result
    when it runs out; with twice the length of their input and 2 they have one,
    the same with any more, whatever the input, and leave the cursor inside of
    it.  So no line makes the parser run on for ever: every line gives a
    record, a rejection or the overflow of the token. *)
Theorem mi_parse_enough_fuel line f close l :
  (mi_fuel l <= f)%nat ->
  sm_mi_parse_line line <> MiEndless /\
  (exists v r, parse_value f l = Some (v, r) /\ parse_value (mi_fuel l) l = Some (v, r) /\
    length r <= length l)%nat /\
  (exists vs r, parse_list f l = Some (vs, r) /\ parse_list (mi_fuel l) l = Some (vs, r) /\
    length r <= length l)%nat /\
  (exists ms r, parse_object_until f close l = Some (ms, r) /\
    parse_object_until (mi_fuel l) close l = Some (ms, r) /\ length r <= length l)%nat.
Proof.
  intros Hf. pose proof (mi_mono _ _ Hf) as (Mv & Ml & Mo).
  destruct (mi_ends (length l)) as (Hv & Hl & Ho). split.
  { unfold sm_mi_parse_line. repeat case_match; try done. simplify_eq.
    by match goal with H : fst <$> parse_object_until (mi_fuel ?k) _ _ = None |- _ =>
      rewrite po_enough in H by (unfold mi_fuel; lia) end. }
  split_and!.
  - destruct (Hv l (mi_fuel l)) as (v & r & E & Hr); [lia|unfold mi_fuel; lia|]. exists v, r. auto.
  - destruct (Hl l (mi_fuel l)) as (v & r & E & Hr); [lia|unfold mi_fuel; lia|]. exists v, r. auto.
  - destruct (Ho close l (mi_fuel l)) as (v & r & E & Hr); [lia|unfold mi_fuel; lia|]. exists v, r. auto.
Qed.

Lemma mi_parse_enough_fuel_witness :
  exists vs r, parse_list 1000 (bytes_of_string "a,{b=1,}") = Some (vs, r).
Proof.
  destruct (mi_parse_enough_fuel [] 1000 None (bytes_of_string "a,{b=1,}") ltac:(vm_compute; lia))
    as (_ & _ & (vs & r & H & _ & _) & _).
  exists vs, r. exact H.
Defined.

(** A level of nesting is a call: a list of [n] opening brackets is not parsed
    with fuel for [n] calls.  The C takes a frame of its stack for each level
    and counts none, while a line may have 256 KiB. *)
Theorem mi_nesting_uncounted n f : (f < 2 * n)%nat -> parse_value f (replicate n LBRACKET) = None.
Proof.
  revert f. induction n as [|n IH]; intros f Hf; [lia|]. destruct f as [|[|f]]; [done..|].
  rewrite parse_value_S. cbn [replicate]. change (LBRACKET =? QUOTE) with false.
  change (LBRACKET =? LBRACE) with false. rewrite Z.eqb_refl. cbv iota.
  rewrite parse_list_S. destruct n as [|n]; [lia|]. cbn [replicate list_key].
  change (is_key_start LBRACKET) with false. change (LBRACKET =? RBRACKET) with false.
  change (LBRACKET =? COMMA) with false. change (LBRACKET =? RBRACE) with false. cbv iota.
  change (LBRACKET :: replicate n LBRACKET) with (replicate (S n) LBRACKET). by rewrite IH by lia.
Qed.

(** ** What GDB prints *)

(** The c-strings of the interface are seven-bit ISO C string contents: a quote
    and a backslash are escaped, line breaks and the like have their letters,
    and every other byte that is not printable ASCII is written in octal. *)
Definition mi_escape_char (c : Z) : bytes :=
  if c =? 10 then [BACKSLASH; chr "n"] else if c =? 9 then [BACKSLASH; chr "t"]
  else if c =? 13 then [BACKSLASH; chr "r"]
  else if c =? 7 then [BACKSLASH; chr "a"] else if c =? 8 then [BACKSLASH; chr "b"]
  else if c =? 12 then [BACKSLASH; chr "f"] else if c =? 11 then [BACKSLASH; chr "v"]
  else if (c =? QUOTE) || (c =? BACKSLASH) then [BACKSLASH; c]
  else if (32 <=? c) && (c <=? 126) then [c]
  else [BACKSLASH; 48 + Z.shiftr c 6; 48 + Z.land (Z.shiftr c 3) 7; 48 + Z.land c 7].
Definition mi_cstring (s : bytes) : bytes := QUOTE :: flat_map mi_escape_char s ++ [QUOTE].

(** The values of the MI grammar; a list holds values or results. *)
Inductive mi_value :=
  | MConst (s : bytes)
  | MTuple (ms : list (bytes * mi_value))
  | MList (vs : list mi_value)
  | MResults (ms : list (bytes * mi_value)).

Fixpoint mi_value_rect' (P : mi_value -> Prop)
    (Hc : forall s, P (MConst s))
    (Ht : forall ms, Forall (fun m => P (snd m)) ms -> P (MTuple ms))
    (Hl : forall vs, Forall P vs -> P (MList vs))
    (Hr : forall ms, Forall (fun m => P (snd m)) ms -> P (MResults ms)) (v : mi_value) : P v :=
  let rec := mi_value_rect' P Hc Ht Hl Hr in
  match v with
  | MConst s => Hc s
  | MTuple ms => Ht ms ((fix go (ms : list (bytes * mi_value)) : Forall (fun m => P (snd m)) ms :=
      match ms with
      | [] => Forall_nil_2 _ | m :: ms' => Forall_cons_2 _ _ _ (rec (snd m)) (go ms') end) ms)
  | MList vs => Hl vs ((fix go (vs : list mi_value) : Forall P vs :=
      match vs with
      | [] => Forall_nil_2 _ | v :: vs' => Forall_cons_2 _ _ _ (rec v) (go vs') end) vs)
  | MResults ms => Hr ms ((fix go (ms : list (bytes * mi_value)) : Forall (fun m => P (snd m)) ms :=
      match ms with
      | [] => Forall_nil_2 _ | m :: ms' => Forall_cons_2 _ _ _ (rec (snd m)) (go ms') end) ms)
  end.

Definition comma_sep (l : list bytes) : bytes :=
  match l with [] => [] | x :: l' => x ++ flat_map (fun y => COMMA :: y) l' end.

Fixpoint mi_print (v : mi_value) : bytes :=
  match v with
  | MConst s => mi_cstring s
  | MTuple ms => LBRACE :: comma_sep (map (fun m => fst m ++ EQUALS :: mi_print (snd m)) ms) ++ [RBRACE]
  | MList vs => LBRACKET :: comma_sep (map mi_print vs) ++ [RBRACKET]
  | MResults ms =>
      LBRACKET :: comma_sep (map (fun m => fst m ++ EQUALS :: mi_print (snd m)) ms) ++ [RBRACKET]
  end.

Fixpoint mi_json (v : mi_value) : json :=
  match v with
  | MConst s => JStr (string_of_bytes s)
  | MTuple ms => JObj (map (fun m => (string_of_bytes (fst m), mi_json (snd m))) ms)
  | MList vs => JArr (map mi_json vs)
  | MResults ms => JArr (map (fun m => JObj [(string_of_bytes (fst m), mi_json (snd m))]) ms)
  end.

(** Variables are identifiers; strings are of printable ASCII, line feeds, tabs
    and carriage returns, which are what the parser knows the escapes of. *)
Definition mi_key_ok (k : bytes) : bool :=
  match k with c :: _ => is_key_start c && forallb is_key_char k | [] => false end.
Definition no_nul (s : bytes) : bool := forallb (fun c => negb (c =? 0)) s.
Definition mi_plain (c : Z) : bool :=
  (c =? 10) || (c =? 9) || (c =? 13) || (32 <=? c) && (c <=? 126).
Fixpoint mi_ok (v : mi_value) : bool :=
  match v with
  | MConst s => forallb mi_plain s
  | MTuple ms => forallb (fun m => mi_key_ok (fst m) && mi_ok (snd m)) ms
  | MList vs => forallb mi_ok vs
  | MResults ms => forallb (fun m => mi_key_ok (fst m) && mi_ok (snd m)) ms
  end.

Lemma c_string_no_nul s : no_nul s = true -> c_string s = string_of_bytes s.
Proof.
  intros H. unfold c_string. f_equal. induction s as [|c s IH]; [done|]. simpl in *.
  apply andb_true_iff in H as [Hc H]. destruct (c =? 0); [done|]. by rewrite IH.
Qed.

Lemma plain_no_nul s : forallb mi_plain s = true -> no_nul s = true.
Proof.
  intros H. apply forallb_forall. intros c Hc. eapply forallb_forall in H; [|exact Hc].
  by destruct (Z.eqb_spec c 0) as [->|].
Qed.

Lemma parse_cstring_print s k :
  forallb mi_plain s = true -> parse_cstring (flat_map mi_escape_char s ++ QUOTE :: k) = (s, k).
Proof.
  induction s as [|c s IH]; [done|]. cbn [flat_map forallb]. intros [Hc Hs]%andb_true_iff.
  specialize (IH Hs). unfold mi_escape_char at 1. unfold mi_plain in Hc.
  destruct (Z.eqb_spec c 10) as [->|]; [simpl; by rewrite IH|].
  destruct (Z.eqb_spec c 9) as [->|]; [simpl; by rewrite IH|].
  destruct (Z.eqb_spec c 13) as [->|]; [simpl; by rewrite IH|]. cbn [orb] in Hc.
  destruct (Z.eqb_spec c 7) as [->|]; [done|]. destruct (Z.eqb_spec c 8) as [->|]; [done|].
  destruct (Z.eqb_spec c 12) as [->|]; [done|]. destruct (Z.eqb_spec c 11) as [->|]; [done|].
  rewrite Hc. destruct ((c =? QUOTE) || (c =? BACKSLASH)) eqn:E.
  - cbn [app parse_cstring]. rewrite Z.eqb_refl, IH. f_equal. f_equal.
    apply orb_true_iff in E as [->%Z.eqb_eq| ->%Z.eqb_eq]; done.
  - apply orb_false_iff in E as [E1 E2]. cbn [app parse_cstring]. by rewrite E1, E2, IH.
Qed.

(** Any other byte comes back as something else: the escapes in octal and those
    of the bell, the backspace, the form feed and the vertical tab lose their
    backslash and stay.  The parser's comment calls this GDB's escaping. *)
Theorem mi_escapes_garbled c :
  0 < c < 256 -> mi_plain c = false -> pv (mi_cstring [c]) <> (JStr (string_of_bytes [c]), []).
Proof.
  intros Hc Hp.
  assert (forallb (fun c => mi_plain (c + 1) || match pv (mi_cstring [c + 1]) with
    | (JStr s, _) => negb (String.eqb s (string_of_bytes [c + 1]))
    | _ => true end) (zrange 255) = true) as H by (by vm_compute).
  pose proof (zrange_forallb 255 _ H (c - 1) ltac:(lia)) as Hz. cbn beta in Hz.
  rewrite Z.sub_add, Hp in Hz. intros E. rewrite E in Hz. by rewrite String.eqb_refl in Hz.
Qed.

(** ** The parser without its fuel *)

Lemma mi_fuel_cons c l : mi_fuel (c :: l) = S (S (mi_fuel l)).
Proof. unfold mi_fuel. simpl. lia. Qed.

Lemma pv_const s k : forallb mi_plain s = true -> pv (mi_cstring s ++ k) = (JStr (string_of_bytes s), k).
Proof.
  intros Hs. unfold pv, mi_cstring. cbn [app]. rewrite mi_fuel_cons. cbn [parse_value].
  rewrite Z.eqb_refl, <- app_assoc. cbn [app].
  by rewrite parse_cstring_print, c_string_no_nul by auto using plain_no_nul.
Qed.
Lemma pv_tuple l : pv (LBRACE :: l) = let '(ms, r) := po (Some RBRACE) l in (JObj ms, r).
Proof.
  unfold pv. rewrite mi_fuel_cons, parse_value_S. change (LBRACE =? QUOTE) with false.
  rewrite Z.eqb_refl. cbv iota. rewrite po_enough by (unfold mi_fuel; lia). simpl. by destruct (po _ l).
Qed.
Lemma pv_list l : pv (LBRACKET :: l) = let '(vs, r) := pl l in (JArr vs, r).
Proof.
  unfold pv. rewrite mi_fuel_cons, parse_value_S. change (LBRACKET =? QUOTE) with false.
  change (LBRACKET =? LBRACE) with false. rewrite Z.eqb_refl. cbv iota.
  rewrite pl_enough by (unfold mi_fuel; lia). simpl. by destruct (pl l).
Qed.
Lemma po_close c l : po (Some c) (c :: l) = ([], l).
Proof. unfold po. rewrite mi_fuel_cons, parse_object_S. by rewrite bool_decide_true. Qed.
Lemma po_comma close l : close <> Some COMMA -> po close (COMMA :: l) = po close l.
Proof.
  intros Hc. unfold po at 1. rewrite mi_fuel_cons, parse_object_S. rewrite bool_decide_false by done.
  rewrite Z.eqb_refl. by rewrite po_enough by (unfold mi_fuel; lia).
Qed.
Lemma pl_close l : pl (RBRACKET :: l) = ([], l).
Proof. unfold pl. rewrite mi_fuel_cons. done. Qed.
Lemma pl_comma l : pl (COMMA :: l) = pl l.
Proof.
  unfold pl at 1. rewrite mi_fuel_cons, parse_list_S. change (COMMA =? RBRACKET) with false.
  rewrite Z.eqb_refl. cbv iota. by rewrite pl_enough by (unfold mi_fuel; lia).
Qed.

Lemma key_char_facts c :
  is_key_char c = true -> c <> COMMA /\ c <> RBRACE /\ c <> RBRACKET /\ c <> EQUALS /\ c <> 0.
Proof.
  intros H. assert (forall d, is_key_char d = false -> c <> d) as Hd by (intros d Hd ->; congruence).
  split_and!; by apply Hd.
Qed.
Lemma key_ok_cons k : mi_key_ok k = true -> exists c k', k = c :: k' /\ is_key_start c = true /\
  Forall (fun c => is_key_char c = true) k.
Proof.
  destruct k as [|c k]; [done|]. simpl. rewrite !andb_true_iff. intros (H1 & H2 & H3).
  exists c, k. split_and!; [done..|]. constructor; [done|]. by apply List.Forall_forall, forallb_forall.
Qed.
Lemma key_no_nul k : Forall (fun c => is_key_char c = true) k -> no_nul k = true.
Proof.
  intros H. apply forallb_forall. intros c Hc. rewrite List.Forall_forall in H.
  destruct (key_char_facts c (H c Hc)) as (_ & _ & _ & _ & ?). by destruct (Z.eqb_spec c 0).
Qed.

Lemma po_pair close k l :
  mi_key_ok k = true -> close = None \/ close = Some RBRACE ->
  po close (k ++ EQUALS :: l) =
  let '(v, r) := pv l in let '(ms, r') := po close r in ((string_of_bytes k, v) :: ms, r').
Proof.
  intros (c & k' & -> & Hs & Hk)%key_ok_cons Hc. cbn [app]. unfold po at 1. rewrite mi_fuel_cons.
  rewrite parse_object_S. pose proof (key_char_facts c (Forall_inv Hk)) as (F1 & F2 & _ & _ & _).
  rewrite bool_decide_false by (destruct Hc as [-> | ->]; [done|intros [= Hx]; by apply F2]).
  destruct (Z.eqb_spec c COMMA); [done|].
  destruct (take_while_all (in_key close) (c :: k') (EQUALS :: l)) as [Ht Hsk].
  { eapply Forall_impl; [exact Hk|]. intros x (G1 & G2 & _ & G4 & _)%key_char_facts. unfold in_key.
    destruct (Z.eqb_spec x EQUALS), (Z.eqb_spec x COMMA); try done. simpl.
    rewrite bool_decide_false; [done|]. destruct Hc as [-> | ->]; [done|]. intros [= Hx]. by apply G2. }
  { unfold in_key. by rewrite Z.eqb_refl. }
  rewrite <- app_comm_cons in Ht, Hsk. rewrite Ht, Hsk, Z.eqb_refl. cbv zeta.
  rewrite c_string_no_nul by (by apply key_no_nul).
  rewrite (pv_enough _ l) by (unfold mi_fuel; rewrite length_app; simpl; lia).
  pose proof (pv_length l) as Hr. destruct (pv l) as [v r]. cbn [snd mbind option_bind] in *.
  rewrite po_enough by (unfold mi_fuel; rewrite length_app; simpl; lia). simpl. by destruct (po close r).
Qed.

Lemma list_key_print k l :
  mi_key_ok k = true -> list_key (k ++ EQUALS :: l) = Some (k, l).
Proof.
  intros (c & k' & -> & Hs & Hk)%key_ok_cons. cbn [app list_key]. rewrite Hs.
  destruct (take_while_all is_key_char (c :: k') (EQUALS :: l)) as [Ht Hsk]; [exact Hk|done|].
  rewrite <- app_comm_cons in Ht, Hsk. by rewrite Ht, Hsk, Z.eqb_refl.
Qed.

Lemma pl_result k l :
  mi_key_ok k = true ->
  pl (k ++ EQUALS :: l) =
  let '(v, r) := pv l in let '(vs, r') := pl r in (JObj [(string_of_bytes k, v)] :: vs, r').
Proof.
  intros Hok. pose proof (list_key_print k l Hok) as Hlk.
  apply key_ok_cons in Hok as (c & k' & -> & Hs & Hk). cbn [app] in *. unfold pl at 1. rewrite mi_fuel_cons.
  rewrite parse_list_S. pose proof (key_char_facts c (Forall_inv Hk)) as (F1 & F2 & F3 & _ & _).
  destruct (Z.eqb_spec c RBRACKET); [done|]. destruct (Z.eqb_spec c COMMA); [done|].
  destruct (Z.eqb_spec c RBRACE); [done|]. rewrite Hlk.
  rewrite c_string_no_nul by (by apply key_no_nul).
  rewrite (pv_enough _ l) by (unfold mi_fuel; rewrite length_app; simpl; lia).
  pose proof (pv_length l) as Hr. destruct (pv l) as [v r]. cbn [snd mbind option_bind] in *.
  rewrite pl_enough by (unfold mi_fuel; rewrite length_app; simpl; lia). simpl. by destruct (pl r).
Qed.

Lemma pl_value c l :
  is_key_start c = false -> c <> RBRACKET -> c <> COMMA -> c <> RBRACE ->
  pl (c :: l) = let '(v, r) := pv (c :: l) in let '(vs, r') := pl r in (v :: vs, r').
Proof.
  intros Hk H1 H2 H3. unfold pl at 1. rewrite mi_fuel_cons. rewrite parse_list_S. cbn [list_key].
  destruct (Z.eqb_spec c RBRACKET); [done|]. destruct (Z.eqb_spec c COMMA); [done|].
  destruct (Z.eqb_spec c RBRACE); [done|]. rewrite Hk.
  pose proof (mi_value_progress c l H1 H2 H3) as Hp.
  rewrite (pv_enough (S (mi_fuel l))) by (unfold mi_fuel; simpl; lia).
  destruct (pv (c :: l)) as [v r]. cbn [snd length mbind option_bind] in *.
  destruct (Nat.eqb_spec (length r) (S (length l))); [lia|].
  rewrite pl_enough by (unfold mi_fuel; lia). simpl. by destruct (pl r).
Qed.

(** ** Round trip *)

Definition mi_pair (m : bytes * mi_value) : bytes := fst m ++ EQUALS :: mi_print (snd m).
Definition reads_back (v : mi_value) : Prop := forall k, mi_ok v = true -> pv (mi_print v ++ k) = (mi_json v, k).

Definition json_member (m : bytes * mi_value) : string * json := (string_of_bytes (fst m), mi_json (snd m)).

Lemma po_pairs close ms k :
  close = None \/ close = Some RBRACE ->
  Forall (fun m => reads_back (snd m)) ms ->
  forallb (fun m => mi_key_ok (fst m) && mi_ok (snd m)) ms = true ->
  po close (flat_map (fun m => COMMA :: mi_pair m) ms ++ k) =
  let '(l, r) := po close k in (map json_member ms ++ l, r).
Proof.
  intros Hc H. induction H as [|m ms Hm _ IH]; intros Hok; cbn [flat_map app map]; [by destruct (po close k)|].
  simpl in Hok. apply andb_true_iff in Hok as [[H1 H2]%andb_true_iff H3].
  rewrite <- app_assoc, po_comma by (by destruct Hc as [-> | ->]).
  unfold mi_pair at 1. rewrite <- !app_assoc. cbn [app].
  rewrite po_pair, Hm, IH by done. by destruct (po close k).
Qed.

Lemma comma_sep_cons {A} (f : A -> bytes) x l :
  comma_sep (map f (x :: l)) = f x ++ flat_map (fun y => COMMA :: f y) l.
Proof. simpl. f_equal. induction l as [|y l IH]; [done|]. simpl. by rewrite IH. Qed.

Lemma pv_tuple_print ms k :
  Forall (fun m => reads_back (snd m)) ms ->
  forallb (fun m => mi_key_ok (fst m) && mi_ok (snd m)) ms = true ->
  po (Some RBRACE) (comma_sep (map mi_pair ms) ++ RBRACE :: k) = (map json_member ms, k).
Proof.
  intros H Hok. destruct H as [|m ms Hm H]; [apply po_close|].
  simpl in Hok. apply andb_true_iff in Hok as [[H1 H2]%andb_true_iff H3].
  rewrite comma_sep_cons, <- app_assoc. unfold mi_pair at 1. rewrite <- !app_assoc. cbn [app].
  rewrite po_pair, Hm, po_pairs, po_close by (done || by right). by rewrite app_nil_r.
Qed.

Lemma pl_results_print ms k :
  Forall (fun m => reads_back (snd m)) ms ->
  forallb (fun m => mi_key_ok (fst m) && mi_ok (snd m)) ms = true ->
  pl (comma_sep (map mi_pair ms) ++ RBRACKET :: k) = (map (fun m => JObj [json_member m]) ms, k).
Proof.
  intros H Hok.
  assert (forall ms, Forall (fun m => reads_back (snd m)) ms ->
    forallb (fun m => mi_key_ok (fst m) && mi_ok (snd m)) ms = true ->
    pl (flat_map (fun m => COMMA :: mi_pair m) ms ++ RBRACKET :: k) =
    (map (fun m => JObj [json_member m]) ms, k)) as Htl.
  { clear. intros ms H. induction H as [|m ms Hm _ IH]; intros Hok; cbn [flat_map app map]; [apply pl_close|].
    simpl in Hok. apply andb_true_iff in Hok as [[H1 H2]%andb_true_iff H3].
    rewrite <- app_assoc, pl_comma. unfold mi_pair at 1. rewrite <- !app_assoc. cbn [app].
    by rewrite pl_result, Hm, IH by done. }
  destruct H as [|m ms Hm H]; [apply pl_close|].
  simpl in Hok. apply andb_true_iff in Hok as [[H1 H2]%andb_true_iff H3].
  rewrite comma_sep_cons, <- app_assoc. unfold mi_pair at 1. rewrite <- !app_assoc. cbn [app].
  by rewrite pl_result, Hm, Htl by done.
Qed.

Lemma print_head v : exists c l, mi_print v = c :: l /\ is_key_start c = false /\
  c <> RBRACKET /\ c <> COMMA /\ c <> RBRACE.
Proof. by destruct v; eexists _, _; split_and!. Qed.

Lemma pl_values_print vs k :
  Forall reads_back vs -> forallb mi_ok vs = true ->
  pl (comma_sep (map mi_print vs) ++ RBRACKET :: k) = (map mi_json vs, k).
Proof.
  intros H Hok.
  assert (forall v l, reads_back v -> mi_ok v = true ->
    pl (mi_print v ++ l) = let '(vs, r) := pl l in (mi_json v :: vs, r)) as Hone.
  { intros v l Hv Hw. pose proof (Hv l Hw) as Hp. destruct (print_head v) as (c & t & E & E1 & E2 & E3 & E4).
    rewrite E in *. cbn [app] in *. by rewrite pl_value, Hp by done. }
  assert (forall vs, Forall reads_back vs -> forallb mi_ok vs = true ->
    pl (flat_map (fun v => COMMA :: mi_print v) vs ++ RBRACKET :: k) = (map mi_json vs, k)) as Htl.
  { clear -Hone. intros vs H. induction H as [|v vs Hv _ IH]; intros Hok; cbn [flat_map app map]; [apply pl_close|].
    simpl in Hok. apply andb_true_iff in Hok as [H1 H2].
    by rewrite <- app_assoc, pl_comma, Hone, IH by done. }
  destruct H as [|v vs Hv H]; [apply pl_close|].
  simpl in Hok. apply andb_true_iff in Hok as [H1 H2].
  by rewrite comma_sep_cons, <- app_assoc, Hone, Htl by done.
Qed.

Lemma mi_value_reads_back v : reads_back v.
Proof.
  induction v as [s|ms IH|vs IH|ms IH] using mi_value_rect'; intros k Hok; cbn [mi_print mi_json].
  - by apply pv_const.
  - cbn [app]. rewrite pv_tuple, <- app_assoc. fold mi_pair. cbn [app].
    change (map (fun m => fst m ++ EQUALS :: mi_print (snd m)) ms) with (map mi_pair ms).
    by rewrite pv_tuple_print.
  - cbn [app]. rewrite pv_list, <- app_assoc. cbn [app]. by rewrite pl_values_print.
  - cbn [app]. rewrite pv_list, <- app_assoc. cbn [app].
    change (map (fun m => fst m ++ EQUALS :: mi_print (snd m)) ms) with (map mi_pair ms).
    by rewrite pl_results_print.
Qed.

(** A record as GDB prints it. *)
Definition mi_line (tok : bytes) (marker : Z) (cls : bytes) (results : list (bytes * mi_value)) : bytes :=
  tok ++ marker :: cls ++ flat_map (fun m => COMMA :: mi_pair m) results.

Lemma strip_eol_app l c eol :
  (c =? 10) || (c =? 13) = false -> Forall (fun x => (x =? 10) || (x =? 13) = true) eol ->
  strip_eol ((l ++ [c]) ++ eol) = l ++ [c].
Proof.
  intros Hc He. assert (strip_eol eol = []) as Hn.
  { induction He as [|x eol Hx _ IH]; [done|]. simpl. by rewrite IH, Hx. }
  rewrite <- app_assoc. cbn [app]. induction l as [|x l IH]; cbn [app strip_eol].
  - by rewrite Hn, Hc.
  - rewrite IH. by destruct l.
Qed.

Lemma print_last v : exists l c, mi_print v = l ++ [c] /\ (c =? 10) || (c =? 13) = false.
Proof.
  destruct v; cbn [mi_print].
  - exists (QUOTE :: flat_map mi_escape_char s), QUOTE. done.
  - eexists (LBRACE :: _), RBRACE. done.
  - eexists (LBRACKET :: _), RBRACKET. done.
  - eexists (LBRACKET :: _), RBRACKET. done.
Qed.

Lemma mi_digits_value tok :
  Forall (fun c => isdigit c = true) tok -> digits_value tok <= LONG_MAX ->
  mi_digits 0 tok = Some (digits_value tok).
Proof.
  unfold digits_value. assert (0 <= 0) as Hz by lia. revert Hz. generalize 0 at 2 3 4 5 as t.
  induction tok as [|c tok IH]; intros t Ht Hd Hv; [done|]. apply Forall_cons_1 in Hd as [Hc Hd].
  cbn [mi_digits fold_left] in *. unfold isdigit in Hc.
  apply andb_true_iff in Hc as [H1%Z.leb_le H2%Z.leb_le].
  assert (forall u l, 0 <= u -> Forall (fun c => isdigit c = true) l ->
    u <= fold_left (fun n c => n * 10 + (c - 48)) l u) as Hmono.
  { clear. intros u l. revert u. induction l as [|c l IH]; intros u Hu Hd; [done|].
    apply Forall_cons_1 in Hd as [Hc Hd]. unfold isdigit in Hc.
    apply andb_true_iff in Hc as [H1%Z.leb_le H2%Z.leb_le]. simpl. etrans; [|apply IH; [lia|done]]. lia. }
  pose proof (Hmono (t * 10 + (c - 48)) tok ltac:(lia) Hd). destruct (Z.ltb_spec LONG_MAX (t * 10 + (c - 48))); [lia|].
  apply IH; [lia|done|done].
Qed.

Lemma line_last tok marker cls results :
  mi_marker marker <> None -> Forall (fun c => is_key_char c = true) cls ->
  exists l c, mi_line tok marker cls results = l ++ [c] /\ (c =? 10) || (c =? 13) = false.
Proof.
  intros Hm Hc. unfold mi_line. destruct results as [|m results _] using rev_ind.
  - destruct cls as [|c cls _] using rev_ind.
    + exists tok, marker. split; [done|]. destruct (Z.eqb_spec marker 10) as [->|]; [done|].
      by destruct (Z.eqb_spec marker 13) as [->|].
    + exists (tok ++ marker :: cls), c. rewrite app_nil_r. split; [by rewrite <- app_assoc|].
      apply Forall_app in Hc as [_ Hc%Forall_inv].
      destruct (Z.eqb_spec c 10) as [->|]; [done|]. by destruct (Z.eqb_spec c 13) as [->|].
  - destruct (print_last (snd m)) as (l & c & El & Hl).
    exists (tok ++ marker :: cls ++ flat_map (fun m => COMMA :: mi_pair m) results ++ COMMA :: fst m ++ EQUALS :: l), c.
    split; [|done]. rewrite flat_map_app. simpl. unfold mi_pair at 2. rewrite El, app_nil_r.
    by repeat (rewrite <- ?app_assoc; cbn [app]).
Qed.

Lemma results_read_back results :
  forallb (fun m => mi_key_ok (fst m) && mi_ok (snd m)) results = true ->
  match flat_map (fun m => COMMA :: mi_pair m) results with
  | _ :: k => fst <$> parse_object_until (mi_fuel k) None k
  | [] => Some []
  end = Some (map json_member results).
Proof.
  intros Hr. destruct results as [|m results]; [done|]. cbn [flat_map app].
  simpl in Hr. apply andb_true_iff in Hr as [[H1 H2]%andb_true_iff H3].
  rewrite po_enough by (unfold mi_fuel; lia). unfold mi_pair at 1. rewrite <- app_assoc. cbn [app].
  rewrite po_pair, mi_value_reads_back by (done || by left).
  rewrite <- (app_nil_r (flat_map _ results)), po_pairs;
    [|by left|by apply Forall_true; intros; apply mi_value_reads_back|done].
  cbn. by rewrite app_nil_r.
Qed.

(** C37: what the interface's grammar writes is what is read.  A result or
    asynchronous record with an optional token of at most [LONG_MAX], an
    identifier as its class and any results (strings, tuples and lists of
    values or results, nested at will, whose strings are of printable ASCII,
    line feeds, tabs and carriage returns) is parsed into exactly its token,
    the first 31 characters of its class and its results, whatever CRs and LFs
    follow; strings come back unescaped.  Strings with other bytes do not come
    back ([mi_escapes_garbled]), greater tokens overflow
    ([mi_token_overflow]). *)
Theorem mi_record_roundtrip tok marker type cls results eol :
  Forall (fun c => isdigit c = true) tok -> digits_value tok <= LONG_MAX ->
  mi_marker marker = Some (type, false) ->
  Forall (fun c => is_key_char c = true) cls ->
  forallb (fun m => mi_key_ok (fst m) && mi_ok (snd m)) results = true ->
  Forall (fun x => (x =? 10) || (x =? 13) = true) eol ->
  sm_mi_parse_line (mi_line tok marker cls results ++ eol) =
  MiRecord (mk_mi type (if bool_decide (tok = []) then -1 else digits_value tok)
    (string_of_bytes (ztake 31 cls)) (Some (map json_member results)) None).
Proof.
  intros Ht Hv Hm Hc Hr He. unfold sm_mi_parse_line.
  destruct (line_last tok marker cls results) as (l & c & El & Hlast); [congruence|done|].
  rewrite El, strip_eol_app, <- El by done. clear El l c Hlast.
  assert (isdigit marker = false) as Hnd.
  { destruct (isdigit marker) eqn:E; [|done]. unfold isdigit in E.
    apply andb_true_iff in E as [H1%Z.leb_le H2%Z.leb_le].
    assert (forallb (fun z => bool_decide (mi_marker (z + 48) = None)) (zrange 10) = true) as Hz by (by vm_compute).
    pose proof (zrange_forallb 10 _ Hz (marker - 48) ltac:(lia)) as Hz'. apply bool_decide_eq_true in Hz'.
    replace (marker - 48 + 48) with marker in Hz' by lia. congruence. }
  rewrite bool_decide_false.
  2:{ unfold mi_line. destruct tok as [|d tok].
      - intros [= E _]. subst marker. done.
      - intros [= E _]. subst d. by apply Forall_cons_1 in Ht as [? _]. }
  unfold mi_line. destruct (take_while_all isdigit tok (marker :: cls ++ flat_map (fun m => COMMA :: mi_pair m) results) Ht Hnd)
    as [-> ->].
  rewrite mi_digits_value, Hm by done. cbv iota.
  destruct (take_while_all (fun c => negb (c =? COMMA)) cls (flat_map (fun m => COMMA :: mi_pair m) results)) as [-> ->].
  { eapply Forall_impl; [exact Hc|]. intros x (G & _)%key_char_facts. by destruct (Z.eqb_spec x COMMA). }
  { by destruct results. }
  rewrite results_read_back by done. do 2 f_equal.
  - by destruct tok.
  - apply c_string_no_nul, key_no_nul. unfold ztake. by apply Forall_take.
Qed.

Lemma mi_record_roundtrip_witness :
  sm_mi_parse_line (mi_line (bytes_of_string "42") (chr "^") (bytes_of_string "done")
    [(bytes_of_string "value", MConst [34; 10; 92])] ++ [13; 10]) =
  MiRecord (mk_mi SM_MI_RESULT 42 "done" (Some [("value", JStr (string_of_bytes [34; 10; 92]))]) None).
Proof.
  apply (mi_record_roundtrip (bytes_of_string "42") (chr "^") SM_MI_RESULT (bytes_of_string "done")
    [(bytes_of_string "value", MConst [34; 10; 92])] [13; 10]).
  - by repeat constructor.
  - by vm_compute.
  - done.
  - by repeat constructor.
  - done.
  - by repeat constructor.
Defined.

(** Streams: the text comes back, and a token in front of one is refused. *)
Lemma mi_stream_roundtrip marker type s :
  mi_marker marker = Some (type, true) -> forallb mi_plain s = true ->
  sm_mi_parse_line (marker :: mi_cstring s) =
    MiRecord (mk_mi type (-1) "" None (Some (string_of_bytes s))) /\
  sm_mi_parse_line (48 :: marker :: mi_cstring s) = MiReject.
Proof.
  intros Hm Hs. assert (marker = chr "~" \/ marker = chr "@" \/ marker = chr "&") as Hc.
  { unfold mi_marker in Hm. repeat case_match; simplify_eq;
      repeat match goal with H : (_ =? _) = true |- _ => apply Z.eqb_eq in H end; auto. }
  assert (forall l, strip_eol (l ++ mi_cstring s) = l ++ mi_cstring s) as Hl.
  { intros l. pose proof (strip_eol_app (l ++ QUOTE :: flat_map mi_escape_char s) QUOTE []) as H.
    rewrite app_nil_r, <- app_assoc in H. by apply H. }
  split.
  - unfold sm_mi_parse_line. pose proof (Hl [marker]) as H1. cbn [app] in H1. rewrite H1. rewrite bool_decide_false by (intros [= E _]; naive_solver).
    assert (isdigit marker = false) as Hd by (by destruct Hc as [-> |[-> | ->]]).
    cbn [take_while skip_while]. rewrite Hd. cbn [mi_digits length]. rewrite Hm. unfold mi_cstring.
    cbn [Nat.eqb negb]. rewrite Z.eqb_refl, parse_cstring_print by done. cbn [fst].
    by rewrite c_string_no_nul by auto using plain_no_nul.
  - unfold sm_mi_parse_line. pose proof (Hl [48; marker]) as H1. cbn [app] in H1. rewrite H1. rewrite bool_decide_false by done.
    by destruct Hc as [-> |[-> | ->]].
Qed.

(** A token of twenty digits has no defined value.  The digits of a record
    are added up in a [long] without a check, so a line that starts with more
    than a [long] can hold makes the accumulation overflow, where the
    interface promises a record or a rejection. *)
Theorem mi_token_overflow rest :
  sm_mi_parse_line (bytes_of_string "99999999999999999999^" ++ rest) = MiUndefined.
Proof.
  unfold sm_mi_parse_line.
  assert (forall p c l, (c =? 10) || (c =? 13) = false ->
    strip_eol (p ++ c :: l) = p ++ c :: strip_eol l) as Hs.
  { intros p c l Hc. induction p as [|x p IH]; cbn [app strip_eol].
    - destruct (strip_eol l); [by rewrite Hc|done].
    - rewrite IH. by destruct p. }
  change (bytes_of_string "99999999999999999999^" ++ rest)
    with (bytes_of_string "99999999999999999999" ++ chr "^" :: rest).
  rewrite Hs by done.
  rewrite bool_decide_false by done.
  by destruct (take_while_all isdigit (bytes_of_string "99999999999999999999") (chr "^" :: strip_eol rest)) as [-> ->];
    [by repeat constructor|done|].
Qed.
