(* ===== verification/Protocol.v ===== *)
(** * The message protocol ([src/protocol.c])

    Newline-delimited JSON: the message types and their names, the builders of
    every message, and the line codec with its nesting guard.  [cJSON_Print]
    and [cJSON_Parse] are the parameters of [JsonText]. *)
From S2P Require Import Prelude Codecs Json CJsonParse CJson.

#[local] Open Scope string_scope.
#[local] Open Scope list_scope.
#[local] Open Scope Z_scope.
#[local] Open Scope json_scope.

Definition SM_PROTOCOL_VERSION : Z := 1.
Definition SM_VERSION : string := "0.5.2".
Definition SM_MAX_EXPECT_RESULT_BYTES : Z := 65536.

Inductive sm_msg_type :=
  | SM_MSG_HELLO | SM_MSG_WELCOME | SM_MSG_SEND | SM_MSG_SEND_EXPECT
  | SM_MSG_LISTEN_EXPECT | SM_MSG_OUTPUT | SM_MSG_INPUT_ECHO | SM_MSG_EXPECT_RESULT
  | SM_MSG_TAKEOVER | SM_MSG_RELEASE | SM_MSG_STATUS | SM_MSG_STATUS_RESPONSE
  | SM_MSG_PIN_CONTROL | SM_MSG_SET_BAUD | SM_MSG_SUSPEND | SM_MSG_RESUME
  | SM_MSG_SUSPENDED | SM_MSG_RESUMED | SM_MSG_HISTORY_REQUEST | SM_MSG_HISTORY_RESPONSE
  | SM_MSG_INCIDENTS_REQUEST | SM_MSG_INCIDENTS_RESPONSE | SM_MSG_CONFIGURE_ANOMALY
  | SM_MSG_ANOMALY | SM_MSG_INTERRUPT_AUTOBOOT | SM_MSG_AUTOBOOT_RESULT
  | SM_MSG_BOOT_STAGE | SM_MSG_BOOT_STALL | SM_MSG_CONFIGURE_AUTORESPONDER
  | SM_MSG_AUTORESPONDERS_REQUEST | SM_MSG_AUTORESPONDERS_RESPONSE
  | SM_MSG_AUTORESPONDER_FIRED | SM_MSG_LINK_DOWN | SM_MSG_LINK_UP | SM_MSG_ERROR
  | SM_MSG_UNKNOWN.
#[export] Instance sm_msg_type_eq_dec : EqDecision sm_msg_type.
Proof. solve_decision. Defined.

Definition msg_type_map : list (string * sm_msg_type) :=
  [("hello", SM_MSG_HELLO); ("welcome", SM_MSG_WELCOME);
   ("send", SM_MSG_SEND); ("send_expect", SM_MSG_SEND_EXPECT);
   ("listen_expect", SM_MSG_LISTEN_EXPECT); ("output", SM_MSG_OUTPUT);
   ("input_echo", SM_MSG_INPUT_ECHO); ("expect_result", SM_MSG_EXPECT_RESULT);
   ("takeover", SM_MSG_TAKEOVER); ("release", SM_MSG_RELEASE);
   ("status", SM_MSG_STATUS); ("status_response", SM_MSG_STATUS_RESPONSE);
   ("pin_control", SM_MSG_PIN_CONTROL); ("set_baud", SM_MSG_SET_BAUD);
   ("suspend", SM_MSG_SUSPEND); ("resume", SM_MSG_RESUME);
   ("suspended", SM_MSG_SUSPENDED); ("resumed", SM_MSG_RESUMED);
   ("history_request", SM_MSG_HISTORY_REQUEST); ("history_response", SM_MSG_HISTORY_RESPONSE);
   ("incidents_request", SM_MSG_INCIDENTS_REQUEST); ("incidents_response", SM_MSG_INCIDENTS_RESPONSE);
   ("configure_anomaly", SM_MSG_CONFIGURE_ANOMALY); ("anomaly", SM_MSG_ANOMALY);
   ("interrupt_autoboot", SM_MSG_INTERRUPT_AUTOBOOT); ("autoboot_result", SM_MSG_AUTOBOOT_RESULT);
   ("boot_stage", SM_MSG_BOOT_STAGE); ("boot_stall", SM_MSG_BOOT_STALL);
   ("configure_autoresponder", SM_MSG_CONFIGURE_AUTORESPONDER); ("autoresponders_request", SM_MSG_AUTORESPONDERS_REQUEST);
   ("autoresponders_response", SM_MSG_AUTORESPONDERS_RESPONSE); ("autoresponder_fired", SM_MSG_AUTORESPONDER_FIRED);
   ("link_down", SM_MSG_LINK_DOWN); ("link_up", SM_MSG_LINK_UP);
   ("error", SM_MSG_ERROR)].

Record sm_msg := mk_msg { m_type : sm_msg_type; m_root : option json }.

(** ** Names *)

Fixpoint name_of_type (l : list (string * sm_msg_type)) (t : sm_msg_type) : string :=
  match l with
  | [] => "unknown"
  | (n, t') :: l' => if decide (t' = t) then n else name_of_type l' t
  end.
Definition sm_msg_type_name (t : sm_msg_type) : string := name_of_type msg_type_map t.

Fixpoint type_of_name (l : list (string * sm_msg_type)) (name : string) : sm_msg_type :=
  match l with
  | [] => SM_MSG_UNKNOWN
  | (n, t) :: l' => if streq n name then t else type_of_name l' name
  end.
Definition lookup_type (name : option string) : sm_msg_type :=
  match name with Some n => type_of_name msg_type_map n | None => SM_MSG_UNKNOWN end.

(** ** The line codec *)

Definition opens (c : Z) : bool := (c =? chr "{") || (c =? chr "[").
Definition closes (c : Z) : bool := (c =? chr "}") || (c =? chr "]").

(** The nesting guard: [true] when the line is refused. *)
Fixpoint depth_exceeds (line : bytes) (depth : Z) : bool :=
  match line with
  | [] => false
  | c :: rest =>
      if opens c then if 32 <? depth + 1 then true else depth_exceeds rest (depth + 1)
      else if closes c then depth_exceeds rest (depth - 1)
      else depth_exceeds rest depth
  end.

Definition strip_newline (line : bytes) : bytes :=
  if zat line (zlen line - 1) =? 10 then ztake (zlen line - 1) line else line.

Section codec.
Context `{JsonText}.

Definition sm_msg_encode (msg : json) : bytes :=
  bytes_of_string (cJSON_PrintUnformatted msg) ++ [10].

Definition sm_msg_decode (line : bytes) : sm_msg :=
  if zlen line =? 0 then mk_msg SM_MSG_UNKNOWN None
  else if depth_exceeds line 0 then mk_msg SM_MSG_UNKNOWN None
  else match cJSON_Parse (string_of_bytes (cstr (strip_newline line))) with
       | None => mk_msg SM_MSG_UNKNOWN None
       | Some root => mk_msg (lookup_type (sm_json_get_string root "type")) (Some root)
       end.
End codec.

(** ** Builders *)

Definition make_msg (type : string) : json := JObj [] |> add_string "type" type.

Definition add_b64_data (key : string) (data : bytes) : json -> json :=
  add_string key (string_of_bytes (sm_base64_encode data)).

(** [token] is the value of [SMOLMUX_AUTH_TOKEN] in the environment. *)
Definition sm_msg_hello (token name role : option string) : json :=
  let msg := make_msg "hello"
    |> add_string "name" (default "unnamed" name)
    |> add_string "role" (default "observer" role)
    |> add_int "protocol_version" SM_PROTOCOL_VERSION in
  match token with
  | Some t => if streq t "" then msg else add_string "token" t msg
  | None => msg
  end.

Definition sm_msg_welcome (version port : string) (baud : Z) (role : string) : json :=
  make_msg "welcome" |> add_string "broker_version" version
    |> add_int "protocol_version" SM_PROTOCOL_VERSION
    |> add_string "port" port |> add_int "baud" baud |> add_string "your_role" role.

Definition sm_msg_send (id : option string) (data : bytes) : json :=
  make_msg "send" |> add_string_opt "id" id |> add_b64_data "data" data.

Definition sm_msg_send_expect (id : option string) (data : bytes) (pattern : string)
    (timeout_ms : Z) : json :=
  make_msg "send_expect" |> add_string_opt "id" id |> add_b64_data "data" data
    |> add_string "pattern" pattern |> add_int "timeout_ms" timeout_ms.

Definition sm_msg_listen_expect (id pattern : option string) (timeout_ms : Z) : json :=
  make_msg "listen_expect" |> add_string_opt "id" id
    |> add_string "pattern" (default "" pattern) |> add_int "timeout_ms" timeout_ms.

Definition sm_msg_output (data : bytes) (timestamp : double) : json :=
  make_msg "output" |> add_b64_data "data" data |> add_number "timestamp" timestamp.

Definition sm_msg_output_b64 (b64 : option string) (timestamp : double) : json :=
  make_msg "output" |> add_string "data" (default "" b64) |> add_number "timestamp" timestamp.

Definition sm_msg_input_echo (data : bytes) (sender : string) (timestamp : double) : json :=
  make_msg "input_echo" |> add_b64_data "data" data |> add_string "sender" sender
    |> add_number "timestamp" timestamp.

(** The optional string members that are left out when empty. *)
Definition add_nonempty (key s : string) (msg : json) : json :=
  if streq s "" then msg else add_string key s msg.

Definition sm_msg_expect_result_ex (id : string) (matched : bool) (data : bytes)
    (pattern : string) (aborted : bool) (abort_reason abort_pattern : string) : json :=
  let truncated := SM_MAX_EXPECT_RESULT_BYTES <? zlen data in
  let data := if truncated then ztake SM_MAX_EXPECT_RESULT_BYTES data else data in
  let msg := make_msg "expect_result" |> add_string "id" id |> add_bool "matched" matched
    |> add_b64_data "data" data |> add_string "pattern" pattern in
  let msg := if truncated then add_bool "truncated" true msg else msg in
  if aborted then
    msg |> add_bool "aborted" true |> add_nonempty "abort_reason" abort_reason
        |> add_nonempty "abort_pattern" abort_pattern
  else msg.

Definition sm_msg_expect_result (id : string) (matched : bool) (data : bytes)
    (pattern : string) : json :=
  sm_msg_expect_result_ex id matched data pattern false "" "".

Definition sm_msg_takeover (id : option string) : json :=
  make_msg "takeover" |> add_string_opt "id" id.
Definition sm_msg_release (id : option string) : json :=
  make_msg "release" |> add_string_opt "id" id.
Definition sm_msg_status (id : option string) : json :=
  make_msg "status" |> add_string_opt "id" id.

Definition sm_msg_status_response (id : option string) (port : string) (baud : Z)
    (connected suspended : bool) : json :=
  make_msg "status_response" |> add_string_opt "id" id |> add_string "port" port
    |> add_int "baud" baud |> add_bool "connected" connected |> add_bool "suspended" suspended.

Definition sm_msg_pin_control (id : option string) (pin action : string) (duration_ms : Z) : json :=
  make_msg "pin_control" |> add_string_opt "id" id |> add_string "pin" pin
    |> add_string "action" action |> add_int "duration_ms" duration_ms.
Definition sm_msg_set_baud (id : option string) (baud : Z) : json :=
  make_msg "set_baud" |> add_string_opt "id" id |> add_int "baud" baud.
Definition sm_msg_suspend (id : option string) : json :=
  make_msg "suspend" |> add_string_opt "id" id.
Definition sm_msg_resume (id : option string) : json :=
  make_msg "resume" |> add_string_opt "id" id.
Definition sm_msg_suspended (port by_client : string) : json :=
  make_msg "suspended" |> add_string "port" port |> add_string "by_client" by_client.
Definition sm_msg_resumed (port : string) : json :=
  make_msg "resumed" |> add_string "port" port.

Definition sm_msg_history_request (id : option string) (since_ts : double) (last_bytes : Z) : json :=
  make_msg "history_request" |> add_string_opt "id" id |> add_number "since_ts" since_ts
    |> add_int "last_bytes" last_bytes.

Definition sm_msg_history_request_seq (id : option string) (since_seq max_bytes : Z) : json :=
  let msg := make_msg "history_request" |> add_string_opt "id" id
    |> add_int "since_seq" since_seq in
  if 0 <? max_bytes then add_int "max_bytes" max_bytes msg else msg.

(** [chunks ? chunks : cJSON_CreateArray()] and its likes. *)
Definition or_empty_array (a : option json) : json := default (JArr []) a.

Definition sm_msg_history_response (id : option string) (chunks : option json) : json :=
  make_msg "history_response" |> add_string_opt "id" id
    |> add_item "chunks" (or_empty_array chunks).
Definition sm_msg_incidents_request (id : option string) (since_ts : double) : json :=
  make_msg "incidents_request" |> add_string_opt "id" id |> add_number "since_ts" since_ts.
Definition sm_msg_incidents_response (id : option string) (incidents : option json) : json :=
  make_msg "incidents_response" |> add_string_opt "id" id
    |> add_item "incidents" (or_empty_array incidents).
Definition sm_msg_configure_anomaly (id : option string) (patterns : option json) : json :=
  make_msg "configure_anomaly" |> add_string_opt "id" id
    |> add_item "patterns" (or_empty_array patterns).

Definition sm_msg_anomaly (incident_id pattern_name severity : string) (timestamp : double)
    (match_text pre_context : string) : json :=
  make_msg "anomaly" |> add_string "incident_id" incident_id
    |> add_string "pattern_name" pattern_name |> add_string "severity" severity
    |> add_number "timestamp" timestamp |> add_string "match_text" match_text
    |> add_string "pre_context" pre_context.

Definition sm_msg_interrupt_autoboot (id : option string) (key : bytes)
    (interval_ms duration_ms : Z) (stop_pattern : option string) : json :=
  make_msg "interrupt_autoboot" |> add_string_opt "id" id |> add_b64_data "key_b64" key
    |> add_int "interval_ms" interval_ms |> add_int "duration_ms" duration_ms
    |> add_string_opt "stop_pattern" stop_pattern.

Definition sm_msg_autoboot_result (id : option string) (matched : bool) (reason : string)
    (elapsed_ms sent : Z) : json :=
  make_msg "autoboot_result" |> add_string_opt "id" id |> add_bool "matched" matched
    |> add_string "reason" reason |> add_int "elapsed_ms" elapsed_ms |> add_int "sent" sent.

Definition sm_msg_boot_stage (name : string) (index total : Z) (timestamp : double) : json :=
  make_msg "boot_stage" |> add_string "name" name |> add_int "index" index
    |> add_int "total" total |> add_number "timestamp" timestamp.

Definition sm_msg_boot_stall (name : string) (index total stalled_ms : Z) : json :=
  make_msg "boot_stall" |> add_string "name" name |> add_int "index" index
    |> add_int "total" total |> add_int "stalled_ms" stalled_ms.

Definition sm_msg_configure_autoresponder (id name pattern : option string) (response : bytes)
    (once : bool) (cooldown_ms : Z) (remove : bool) : json :=
  let msg := make_msg "configure_autoresponder" |> add_string_opt "id" id
    |> add_string_opt "name" name in
  if remove then add_bool "remove" true msg
  else msg |> add_string_opt "pattern" pattern |> add_b64_data "response_b64" response
    |> add_bool "once" once |> add_int "cooldown_ms" cooldown_ms.

Definition sm_msg_autoresponders_request (id : option string) : json :=
  make_msg "autoresponders_request" |> add_string_opt "id" id.
Definition sm_msg_autoresponders_response (id : option string) (rules : option json) : json :=
  make_msg "autoresponders_response" |> add_string_opt "id" id
    |> add_item "rules" (or_empty_array rules).
Definition sm_msg_autoresponder_fired (name matched_text : string) (sent : Z) : json :=
  make_msg "autoresponder_fired" |> add_string "name" name
    |> add_string "matched_text" matched_text |> add_int "sent" sent.
Definition sm_msg_link_down (port reason : string) : json :=
  make_msg "link_down" |> add_string "port" port |> add_string "reason" reason.
Definition sm_msg_link_up (port : string) : json :=
  make_msg "link_up" |> add_string "port" port.
Definition sm_msg_error (id : option string) (message : string) : json :=
  make_msg "error" |> add_string "id" (default "" id) |> add_string "message" message.
Definition sm_msg_ack (type : string) (id : option string) : json :=
  make_msg type |> add_string "id" (default "" id) |> add_string "status" "ok".

(** ** Theorems *)

(** Message type names are a bijection: every enumerator is found again
    under its wire name, and every name that is recognised is the one its type
    is printed with. *)
Theorem msg_type_name_roundtrip :
  (forall t, lookup_type (Some (sm_msg_type_name t)) = t) /\
  (forall n t, lookup_type (Some n) = t -> t <> SM_MSG_UNKNOWN -> sm_msg_type_name t = n).
Proof.
  split; [by intros []|].
  intros n t Ht Hne. subst t. unfold lookup_type in *.
  assert (In (n, type_of_name msg_type_map n) msg_type_map) as Hin.
  { revert Hne. generalize msg_type_map. intros l. induction l as [|[m t] l IH]; simpl; [done|].
    destruct (streq m n) eqn:E; [apply streq_spec in E as ->; by left|].
    intros Hne. right. by apply IH. }
  revert Hin. generalize (type_of_name msg_type_map n) as t. intros t Hin.
  simpl in Hin. repeat (destruct Hin as [[= <- <-]|Hin]; [reflexivity|]). done.
Qed.

Lemma get_add_same key v obj l :
  obj = JObj l -> assoc_first key l = None -> get_item (add_item key v obj) key = Some v.
Proof.
  intros -> Hn. simpl. rewrite assoc_first_app, Hn. simpl. by rewrite streq_refl.
Qed.

(** What a receiver gets out of a base64 member. *)
Definition payload (msg : json) (key : string) : option bytes :=
  match sm_json_get_string msg key with
  | Some s => sm_base64_decode (bytes_of_string s)
  | None => None
  end.

Lemma payload_string s data :
  all_bytes data -> s = string_of_bytes (sm_base64_encode data) ->
  sm_base64_decode (bytes_of_string s) = Some data.
Proof.
  intros Hd ->. rewrite bytes_of_string_of_bytes by apply b64_encode_bytes.
  by apply b64_roundtrip.
Qed.

(** Device bytes survive the wire format.  For the messages that carry
    raw bytes, what a receiver decodes from the message is what the sender put
    in; an expect result carries the first 64 KiB and says so exactly when it
    had to cut. *)
Theorem msg_payload_roundtrip id data ts sender pattern matched aborted r p :
  all_bytes data ->
  payload (sm_msg_output data ts) "data" = Some data /\
  payload (sm_msg_send id data) "data" = Some data /\
  payload (sm_msg_input_echo data sender ts) "data" = Some data /\
  let er := sm_msg_expect_result_ex (default "" id) matched data pattern aborted r p in
  payload er "data" = Some (ztake SM_MAX_EXPECT_RESULT_BYTES data) /\
  sm_json_get_bool er "truncated" false = (SM_MAX_EXPECT_RESULT_BYTES <? zlen data) /\
  sm_json_get_bool er "aborted" false = aborted /\
  sm_json_get_bool er "matched" false = matched.
Proof.
  intros Hd. unfold payload. split_and!.
  - by apply payload_string.
  - destruct id; by apply payload_string.
  - by apply payload_string.
  - unfold sm_msg_expect_result_ex, add_nonempty.
    destruct (Z.ltb_spec SM_MAX_EXPECT_RESULT_BYTES (zlen data));
      destruct aborted, (streq r ""), (streq p ""); apply payload_string;
      (by apply Forall_ztake) || done || by rewrite ztake_all by done.
  - unfold sm_msg_expect_result_ex, add_nonempty.
    by destruct (SM_MAX_EXPECT_RESULT_BYTES <? zlen data), aborted, (streq r ""), (streq p "").
  - unfold sm_msg_expect_result_ex, add_nonempty.
    by destruct (SM_MAX_EXPECT_RESULT_BYTES <? zlen data), aborted, (streq r ""), (streq p "").
  - unfold sm_msg_expect_result_ex, add_nonempty.
    by destruct (SM_MAX_EXPECT_RESULT_BYTES <? zlen data), aborted, (streq r ""), (streq p "").
Qed.

Lemma msg_payload_roundtrip_witness :
  payload (sm_msg_output [104; 105; 0; 255] 5) "data" = Some [104; 105; 0; 255].
Proof.
  apply (msg_payload_roundtrip None [104; 105; 0; 255] 5 "x" "" true false "" "").
  repeat constructor; unfold is_byte; lia.
Defined.

Lemma cstr_no_nul l : Forall (fun c => c <> 0) l -> cstr l = l.
Proof.
  induction 1 as [|c l Hc Hl IH]; simpl; [done|].
  destruct (Z.eqb_spec c 0); [done|]. by rewrite IH.
Qed.

Lemma strip_newline_snoc l : strip_newline (l ++ [10]) = l.
Proof.
  unfold strip_newline, zat. rewrite zlen_app, zget_app_r by zlia.
  replace (zlen l + zlen [10] - 1 - zlen l) with 0 by zlia. simpl.
  rewrite ztake_app_le by zlia. rewrite ztake_all; [done|zlia].
Qed.

(** Over any JSON text that reads the message back from what it prints. *)
Lemma decode_encode_text `{JsonText} msg :
  cJSON_Parse (cJSON_PrintUnformatted msg) = Some msg ->
  Forall (fun c => c <> 0) (bytes_of_string (cJSON_PrintUnformatted msg)) ->
  depth_exceeds (sm_msg_encode msg) 0 = false ->
  sm_msg_decode (sm_msg_encode msg) =
  mk_msg (lookup_type (sm_json_get_string msg "type")) (Some msg).
Proof.
  intros Hp Hn Hd. unfold sm_msg_decode. rewrite Hd.
  unfold sm_msg_encode at 1. destruct (Z.eqb_spec (zlen (bytes_of_string (cJSON_PrintUnformatted msg) ++ [10])) 0).
  { zlia. }
  unfold sm_msg_encode. rewrite strip_newline_snoc, cstr_no_nul by done.
  by rewrite string_of_bytes_of_string, Hp.
Qed.

(** C6: a message that is encoded with cJSON's printer and decoded with its
    parser comes back unchanged and with its type recognised: any tree of C
    strings and doubles of at most 15 digits, nested within cJSON's limit, whose
    line the guard of the protocol lets through.  (The guard counts brackets
    inside of strings too and so refuses some messages that are not nested at
    all, [depth_guard_bypass].) *)
Theorem sm_msg_decode_encode msg :
  json_ok CJSON_NESTING_LIMIT msg = true ->
  depth_exceeds (@sm_msg_encode cjson msg) 0 = false ->
  @sm_msg_decode cjson (@sm_msg_encode cjson msg) =
  mk_msg (lookup_type (sm_json_get_string msg "type")) (Some msg).
Proof.
  intros Hj Hd. apply decode_encode_text; [by apply cjson_parse_text| |done].
  apply cjson_text_nonzero.
Qed.

Lemma sm_msg_decode_encode_witness :
  let msg := sm_msg_ack "takeover" (Some "id-1") in
  @sm_msg_decode cjson (@sm_msg_encode cjson msg) = mk_msg SM_MSG_TAKEOVER (Some msg).
Proof.
  intros msg. apply (sm_msg_decode_encode msg); vm_compute; reflexivity.
Defined.

(** *** The nesting guard counts brackets inside strings *)

(** The real nesting depth of a JSON text: brackets outside strings. *)
Fixpoint nesting (l : bytes) (in_str esc : bool) (depth best : Z) : Z :=
  match l with
  | [] => best
  | c :: l' =>
      if in_str then
        if esc then nesting l' true false depth best
        else if c =? 92 then nesting l' true true depth best
        else nesting l' (negb (c =? 34)) false depth best
      else if c =? 34 then nesting l' true false depth best
      else if opens c then nesting l' false false (depth + 1) (Z.max best (depth + 1))
      else if closes c then nesting l' false false (depth - 1) best
      else nesting l' false false depth best
  end.

(** An object of two members: a string of [n] closing brackets, and arrays
    nested [n] deep. *)
Definition bypass_line (n : nat) : bytes :=
  bytes_of_string "{" ++ [34; 97; 34; 58; 34] ++ replicate n 93 ++ [34; 44; 34; 98; 34; 58] ++
  replicate n 91 ++ replicate n 93 ++ bytes_of_string "}".

Lemma depth_exceeds_plain l rest d :
  Forall (fun c => opens c = false /\ closes c = false) l ->
  depth_exceeds (l ++ rest) d = depth_exceeds rest d.
Proof. induction 1 as [|c l [Ho Hc] Hl IH]; simpl; [done|]. by rewrite Ho, Hc. Qed.

Lemma depth_exceeds_close n rest d :
  depth_exceeds (replicate n 93 ++ rest) d = depth_exceeds rest (d - Z.of_nat n).
Proof.
  revert d. induction n as [|n IH]; intros d; simpl; [f_equal; lia|]. rewrite IH. f_equal. lia.
Qed.

Lemma depth_exceeds_open n rest d :
  d + Z.of_nat n <= 32 ->
  depth_exceeds (replicate n 91 ++ rest) d = depth_exceeds rest (d + Z.of_nat n).
Proof.
  revert d. induction n as [|n IH]; intros d Hd; simpl; [f_equal; lia|].
  destruct (Z.ltb_spec 32 (d + 1)); [lia|]. rewrite IH by lia. f_equal. lia.
Qed.

Lemma nesting_str n rest d b :
  nesting (replicate n 93 ++ rest) true false d b = nesting rest true false d b.
Proof. induction n as [|n IH]; simpl; [done|]. exact IH. Qed.

Lemma nesting_open n rest d b :
  d <= b -> nesting (replicate n 91 ++ rest) false false d b =
  nesting rest false false (d + Z.of_nat n) (Z.max b (d + Z.of_nat n)).
Proof.
  revert d b. induction n as [|n IH]; intros d b Hd; simpl; [f_equal; lia|].
  rewrite IH by lia. f_equal; lia.
Qed.

Lemma nesting_close n rest d b :
  nesting (replicate n 93 ++ rest) false false d b =
  nesting rest false false (d - Z.of_nat n) b.
Proof. revert d. induction n as [|n IH]; intros d; simpl; [f_equal; lia|]. rewrite IH. f_equal; lia. Qed.

(** The nesting guard of [sm_msg_decode] does not bound the nesting.  It
    counts brackets inside strings as well, so for every depth there is a line
    that passes it and is nested deeper than that; and a flat object whose
    string holds 33 opening brackets is refused. *)
Theorem depth_guard_bypass :
  (forall n, depth_exceeds (bypass_line n) 0 = false /\
             nesting (bypass_line n) false false 0 0 = 1 + Z.of_nat n) /\
  (let flat := bytes_of_string "{" ++ [34; 97; 34; 58; 34] ++ replicate 33 91 ++ [34; 125] in
   nesting flat false false 0 0 = 1 /\ depth_exceeds flat 0 = true).
Proof.
  split; [|split; reflexivity]. intros n. unfold bypass_line.
  assert (forall l r d, depth_exceeds (bytes_of_string "{" ++ l ++ r) d =
    if 32 <? d + 1 then true else depth_exceeds (l ++ r) (d + 1)) as Hopen by done.
  split.
  - rewrite Hopen. simpl (32 <? 0 + 1). cbv iota.
    rewrite depth_exceeds_plain by (repeat constructor).
    rewrite depth_exceeds_close, depth_exceeds_plain by (repeat constructor).
    rewrite depth_exceeds_open, depth_exceeds_close by lia. reflexivity.
  - simpl. rewrite nesting_str. simpl. rewrite nesting_open, nesting_close by lia. simpl. lia.
Qed.
