(* ===== verification/Regex.v ===== *)
(** Matching: the wrapper of the regular expression engine, and the window of
    recent output that patterns are searched in. *)

(** * The regular expression wrapper ([src/regex_engine.c])

    The matcher itself (PCRE2 or the C library's [regexec]) is code outside
    the repository and enters as the class [RegexLib]; modelled here are the
    length limit, the static ReDoS check of the POSIX build, the input window
    of the POSIX build, and the measured match budget both builds share. *)
From stdpp Require Import pretty.
From S2P Require Import Prelude.

Definition SM_REGEX_MAX_PATTERN_LEN : Z := 1024.
Definition SM_REGEX_MAX_MATCH_MS : Z := 50.
Definition SM_REGEX_LOG_PATTERN_LEN : nat := 96.
Definition REDOS_MAX_DEPTH : nat := 32.

(** The matching library: whether a pattern compiles, where it first matches a
    subject, and how long a match takes.  [pcre2] is [SM_ENABLE_PCRE2]. *)
Class RegexLib := {
  pcre2 : bool;
  lib_compiles : string -> bool;
  lib_match : string -> bytes -> option Z;
  lib_time : string -> bytes -> double }.

(** What the code relies on: a match lies within the subject. *)
Class RegexLaws (R : RegexLib) : Prop := {
  lib_match_range : forall p s off, lib_match p s = Some off -> 0 <= off <= zlen s }.

(** ** The static check *)

Inductive redos := RdOk | RdReject (msg : string) | RdOverrun.

Definition is_quantifier (c : option Z) : bool :=
  match c with
  | Some c => (c =? chr "+") || (c =? chr "*") || (c =? chr "?") || (c =? chr "{")
  | None => false
  end.

(** The [while] of [skip_char_class]; the result starts with the closing
    bracket, or is empty when the loop stopped at the terminating NUL. *)
Fixpoint skip_class_loop (p : bytes) : bytes :=
  match p with
  | [] => []
  | c :: p' =>
      if c =? chr "]" then p
      else if c =? chr "\" then match p' with [] => [] | _ :: p'' => skip_class_loop p'' end
      else skip_class_loop p'
  end.

(** [p] is what follows the opening bracket. *)
Definition skip_char_class (p : bytes) : bytes :=
  let p := match p with c :: p' => if c =? chr "^" then p' else p | [] => [] end in
  let p := match p with c :: p' => if c =? chr "]" then p' else p | [] => [] end in
  skip_class_loop p.

Definition check_quantified_group (has_quantifier has_alternation : bool) : option string :=
  if has_quantifier then Some "nested quantifier rejected (ReDoS risk)"%string
  else if has_alternation then Some "quantified alternation rejected (ReDoS risk)"%string
  else None.

Record redos_state := mk_rs {
  has_q : list bool; has_a : list bool; rs_depth : nat; wildcards : Z; quantifiers : Z }.
Definition redos_init : redos_state :=
  mk_rs (replicate REDOS_MAX_DEPTH false) (replicate REDOS_MAX_DEPTH false) 0 0 0.
Definition reset_wildcards (s : redos_state) : redos_state := {| s with wildcards := 0 |}.

Definition redos_open (s : redos_state) : option redos_state :=
  if (REDOS_MAX_DEPTH <=? rs_depth s + 1)%nat then None
  else let d := S (rs_depth s) in
    Some (mk_rs (<[d := false]> (has_q s)) (<[d := false]> (has_a s)) d 0 (quantifiers s)).

(** A closing parenthesis at depth [> 0]: fold the group into its parent. *)
Definition redos_close (quantified : bool) (s : redos_state) : string + redos_state :=
  let d := rs_depth s in
  let q := has_q s !!! d in
  let a := has_a s !!! d in
  match (if quantified then check_quantified_group q a else None) with
  | Some msg => inl msg
  | None =>
      let p := (d - 1)%nat in
      inr (mk_rs (<[p := (has_q s !!! p) || (q || quantified)]> (has_q s))
                 (<[p := (has_a s !!! p) || a]> (has_a s)) p 0 (quantifiers s))
  end.

Definition redos_quantifier (prev : option Z) (s : redos_state) : option redos_state :=
  let hq := if (0 <? rs_depth s)%nat then <[rs_depth s := true]> (has_q s) else has_q s in
  let w := if bool_decide (prev = Some (chr ".")) then wildcards s + 1 else 0 in
  if 3 <=? w then None
  else Some (mk_rs hq (has_a s) (rs_depth s) w (quantifiers s + 1)).

(** The loop over the pattern: [p] is what is left of it, [prev] the character
    before.  Fuel: every iteration consumes a character.  An unterminated
    class leaves [p] at the NUL and the loop's [p++] steps over it. *)
Fixpoint redos_loop (fuel : nat) (prev : option Z) (p : bytes) (s : redos_state) : redos :=
  match fuel, p with
  | O, _ => RdOk
  | _, [] => if 20 <? quantifiers s then 
            RdReject ("too many quantifiers (" +:+ pretty (quantifiers s) +:+ ", max 20)")
          else RdOk
  | S f, c :: p' =>
      if (c =? chr "\") && (0 <? zlen p') then
        redos_loop f (head p') (tail p') (reset_wildcards s)
      else if c =? chr "[" then
        match skip_char_class p' with
        | [] => RdOverrun
        | c' :: p'' => redos_loop f (Some c') p'' (reset_wildcards s)
        end
      else if c =? chr "(" then
        match redos_open s with
        | None => RdReject "pattern nested too deeply"
        | Some s' => redos_loop f (Some c) p' s'
        end
      else if c =? chr ")" then
        if (rs_depth s =? 0)%nat then redos_loop f (Some c) p' (reset_wildcards s)
        else match redos_close (is_quantifier (head p')) s with
             | inl msg => RdReject msg
             | inr s' => redos_loop f (Some c) p' s'
             end
      else if c =? chr "|" then
        redos_loop f (Some c) p'
          {| s with has_a := if (0 <? rs_depth s)%nat then <[rs_depth s := true]> (has_a s)
                             else has_a s;
                    wildcards := 0 |}
      else if (c =? chr "+") || (c =? chr "*") || (c =? chr "{") then
        match redos_quantifier prev s with
        | None => RdReject "repeated wildcards rejected (ReDoS risk)"
        | Some s' => redos_loop f (Some c) p' s'
        end
      else redos_loop f (Some c) p' (if c =? chr "." then s else reset_wildcards s)
  end.

Definition check_redos_risk (pattern : string) : redos :=
  let p := bytes_of_string pattern in
  redos_loop (S (length p)) None p redos_init.

(** ** Compilation and matching *)

Record sm_regex := mk_re {
  re_code : string; re_disabled : bool; re_worst_s : double; re_pattern : string }.

Section regex.
Context `{R : RegexLib}.

Definition check_pattern_length (pattern : string) : bool :=
  Z.of_nat (String.length pattern) <=? SM_REGEX_MAX_PATTERN_LEN.

(** [None]: the pattern is refused.  A check that runs off the pattern's end
    is treated as refusing it. *)
Definition sm_regex_compile (pattern : string) : option sm_regex :=
  if negb (check_pattern_length pattern) then None
  else if negb pcre2 && negb (match check_redos_risk pattern with RdOk => true | _ => false end)
  then None
  else if lib_compiles pattern
  then Some (mk_re pattern false 0 (snprintf_s SM_REGEX_LOG_PATTERN_LEN pattern))
  else None.

(** The subject the library sees: PCRE2 is given the length; [regexec] reads
    the last 64 KiB up to the first NUL. *)
Definition exec_base (str : bytes) : Z :=
  if negb pcre2 && (65536 <? zlen str) then zlen str - 65536 else 0.
Definition exec_subject (str : bytes) : bytes :=
  if pcre2 then str else cstr (zdrop (exec_base str) str).

Definition regex_exec_impl (re : sm_regex) (str : bytes) : option Z :=
  match lib_match (re_code re) (exec_subject str) with
  | Some off => Some (exec_base str + off)
  | None => None
  end.

Definition match_time (re : sm_regex) (str : bytes) : double :=
  lib_time (re_code re) (exec_subject str).

Definition sm_regex_exec (re : sm_regex) (str : bytes) : option Z * sm_regex :=
  if re_disabled re then (None, re)
  else
    let elapsed := match_time re str in
    (regex_exec_impl re str,
     {| re with re_worst_s := (if re_worst_s re <? elapsed then elapsed else re_worst_s re);
                re_disabled := ms_to_s SM_REGEX_MAX_MATCH_MS <? elapsed |}).

Definition sm_regex_backend : string := if pcre2 then "pcre2" else "posix".

(** ** Properties *)

Lemma cstr_len l : zlen (cstr l) <= zlen l.
Proof. induction l as [|c l IH]; simpl; [done|]. destruct (c =? 0); zlia. Qed.

Lemma sm_regex_exec_range `{!RegexLaws R} re str off :
  fst (sm_regex_exec re str) = Some off -> 0 <= off <= zlen str.
Proof.
  unfold sm_regex_exec, regex_exec_impl, exec_subject, exec_base. destruct (re_disabled re); [done|].
  simpl. destruct (lib_match _ _) as [o|] eqn:E; [|done]. intros [= <-].
  apply lib_match_range in E. destruct pcre2; simpl in *; [lia|].
  pose proof (cstr_len (zdrop (if 65536 <? zlen str then zlen str - 65536 else 0) str)).
  destruct (Z.ltb_spec 65536 (zlen str)); zlia.
Qed.

(** Matching one pattern against a sequence of inputs; the times spent. *)
Fixpoint exec_times (re : sm_regex) (l : list bytes) : list double :=
  match l with
  | [] => []
  | str :: l' =>
      (if re_disabled re then 0 else match_time re str) ::
      exec_times (snd (sm_regex_exec re str)) l'
  end.

Lemma exec_times_disabled re l :
  re_disabled re = true -> exec_times re l = replicate (length l) 0.
Proof.
  intros Hd. induction l as [|str l IH]; simpl; [done|].
  unfold sm_regex_exec. rewrite Hd. simpl. by rewrite IH.
Qed.

Definition overruns (l : list double) : nat :=
  length (List.filter (fun t => ms_to_s SM_REGEX_MAX_MATCH_MS <? t) l).

Lemma overruns_cons t l :
  overruns (t :: l) = ((if (ms_to_s SM_REGEX_MAX_MATCH_MS <? t)%Z then 1 else 0) + overruns l)%nat.
Proof. unfold overruns. simpl. by destruct (_ <? t). Qed.

Lemma overruns_zeros n : overruns (replicate n 0) = 0%nat.
Proof. induction n as [|n IH]; simpl; [done|]. exact IH. Qed.

(** A hostile pattern costs at most one overrun.  However many inputs a
    pattern is run against, at most one of the matches takes longer than the
    budget; after it the pattern is disabled, matches nothing and costs
    nothing. *)
Theorem regex_budget_once re l :
  (overruns (exec_times re l) <= 1)%nat /\
  (forall str, ms_to_s SM_REGEX_MAX_MATCH_MS < match_time re str ->
     re_disabled re = false ->
     let re' := snd (sm_regex_exec re str) in
     overruns (exec_times re' l) = 0%nat /\ forall str', fst (sm_regex_exec re' str') = None).
Proof.
  split.
  - revert re. induction l as [|str l IH]; intros re; [simpl; unfold overruns; simpl; lia|].
    cbn [exec_times]. rewrite overruns_cons. destruct (re_disabled re) eqn:Hd.
    { unfold sm_regex_exec. rewrite Hd. simpl. rewrite exec_times_disabled by done.
      rewrite overruns_zeros. lia. }
    destruct (Z.ltb_spec (ms_to_s SM_REGEX_MAX_MATCH_MS) (match_time re str)) as [Hb|Hb].
    + rewrite exec_times_disabled, overruns_zeros; [lia|].
      unfold sm_regex_exec. rewrite Hd. simpl. lia.
    + apply IH.
  - intros str Hb Hd re'.
    assert (re_disabled re' = true) as Hd'.
    { unfold re', sm_regex_exec. rewrite Hd. simpl. lia. }
    split; [by rewrite exec_times_disabled, overruns_zeros|].
    intros str'. unfold sm_regex_exec. by rewrite Hd'.
Qed.
End regex.

(** *** The static check *)

Lemma skip_class_loop_open body :
  Forall (fun c => c <> chr "]" /\ c <> chr "\") body -> skip_class_loop body = [].
Proof.
  induction 1 as [|c l [H1 H2] Hl IH]; [done|]. cbn [skip_class_loop].
  destruct (Z.eqb_spec c (chr "]")); [done|]. by destruct (Z.eqb_spec c (chr "\")).
Qed.

(** The ReDoS check runs off the end of a pattern whose character class
    is not closed: for every pattern that opens a class and has no closing
    bracket (and no escape) behind it, the scan continues behind the
    terminating NUL. *)
Theorem redos_unterminated_class_overrun body :
  Forall (fun c => c <> chr "]" /\ c <> chr "\") body -> all_bytes body ->
  check_redos_risk (string_of_bytes (chr "[" :: body)) = RdOverrun.
Proof.
  intros Hb Hall. unfold check_redos_risk.
  rewrite bytes_of_string_of_bytes by (constructor; [unfold is_byte; vm_compute; split; congruence|done]).
  cbn [length redos_loop].
  assert (skip_char_class body = []) as Hs.
  { unfold skip_char_class. destruct body as [|c body]; [done|].
    apply Forall_cons_1 in Hb as [[Hc ?] Hb]. destruct (Z.eqb_spec c (chr "^")).
    - destruct body as [|c' body]; [done|]. pose proof Hb as Hb'.
      apply Forall_cons_1 in Hb' as [[Hc' ?] _].
      destruct (Z.eqb_spec c' (chr "]")); [done|]. by apply skip_class_loop_open.
    - destruct (Z.eqb_spec c (chr "]")); [done|]. by apply skip_class_loop_open; constructor. }
  rewrite Hs. reflexivity.
Qed.

Lemma redos_unterminated_class_overrun_witness :
  check_redos_risk "[a-z" = RdOverrun.
Proof.
  apply (redos_unterminated_class_overrun (bytes_of_string "a-z")); [|apply bytes_of_string_bytes].
  repeat constructor; vm_compute; congruence.
Defined.

(** [n] layers of parentheses around [inner], the outermost one starred. *)
Definition wrapped (n : nat) (inner : string) : string :=
  string_of_bytes (replicate n (chr "(") ++ bytes_of_string inner ++ replicate n (chr ")") ++
                   [chr "*"]).

Definition rejects (r : redos) : bool := match r with RdReject _ => true | _ => false end.

Lemma redos_loop_deep f prev n rest s :
  (REDOS_MAX_DEPTH <= rs_depth s + n)%nat -> (rs_depth s < REDOS_MAX_DEPTH)%nat -> (n <= f)%nat ->
  rejects (redos_loop f prev (replicate n (chr "(") ++ rest) s) = true.
Proof.
  revert f prev s. induction n as [|n IH]; intros f prev s Hn Hd Hf; [lia|].
  destruct f as [|f]; [lia|]. cbn [replicate app redos_loop].
  change ((chr "(" =? chr "\") && _) with false. cbv iota.
  change (chr "(" =? chr "[") with false. change (chr "(" =? chr "(") with true. cbv iota.
  unfold redos_open. destruct (Nat.leb_spec REDOS_MAX_DEPTH (rs_depth s + 1)); [done|].
  apply IH; simpl; lia.
Qed.

(** Extra parentheses cannot hide a risky group.  A starred group whose
    body has a quantifier or an alternation is refused however many layers of
    parentheses lie between them. *)
Theorem redos_wrapping_rejected n :
  (1 <= n)%nat ->
  rejects (check_redos_risk (wrapped n "a+")) = true /\
  rejects (check_redos_risk (wrapped n "a|a")) = true.
Proof.
  intros Hn. destruct (decide (n < REDOS_MAX_DEPTH)%nat) as [Hs|Hs].
  - assert (forallb (fun n => rejects (check_redos_risk (wrapped n "a+")) &&
                              rejects (check_redos_risk (wrapped n "a|a"))) (seq 1 31) = true) as Hall
      by (vm_compute; reflexivity).
    rewrite forallb_forall in Hall. unfold REDOS_MAX_DEPTH in Hs.
    specialize (Hall n). rewrite in_seq in Hall. apply andb_true_iff. apply Hall. lia.
  - unfold check_redos_risk, wrapped.
    assert (forall inner, all_bytes (replicate n (chr "(") ++ bytes_of_string inner ++
              replicate n (chr ")") ++ [chr "*"])) as Hb.
    { intros inner. rewrite !Forall_app. split_and!.
      - apply Forall_replicate. unfold is_byte. vm_compute. split; congruence.
      - apply bytes_of_string_bytes.
      - apply Forall_replicate. unfold is_byte. vm_compute. split; congruence.
      - constructor; [|done]. unfold is_byte. vm_compute. split; congruence. }
    rewrite !bytes_of_string_of_bytes by apply Hb.
    split; apply redos_loop_deep; simpl; unfold REDOS_MAX_DEPTH in *;
      rewrite ?length_app, ?length_replicate; lia.
Qed.

Lemma redos_wrapping_rejected_witness :
  rejects (check_redos_risk "((a+))*") = true /\ rejects (check_redos_risk "((a|a))*") = true.
Proof. apply (redos_wrapping_rejected 2). lia. Defined.


(** ** A literal matcher, the concrete library the examples run on *)

Fixpoint find_sub (p s : bytes) (i : Z) : option Z :=
  if bool_decide (take (length p) s = p) then Some i
  else match s with [] => None | _ :: s' => find_sub p s' (i + 1) end.

Definition lit_lib (is_pcre2 : bool) : RegexLib := {|
  pcre2 := is_pcre2;
  lib_compiles _ := true;
  lib_match p s := find_sub (bytes_of_string p) s 0;
  lib_time _ _ := 0 |}.

#[export] Instance lit_laws b : RegexLaws (lit_lib b).
Proof.
  split. intros p s off. simpl.
  assert (forall k i, find_sub k s i = Some off -> i <= off <= i + zlen s) as H.
  { intros k. induction s as [|c s IH]; intros i; simpl; case_bool_decide;
      try (intros [= <-]; zlia); try done.
    intros Hf%IH. zlia. }
  intros Hf%H. lia.
Qed.

(** * The sliding match window ([window_append] of [src/boot_stage.c] and
    [src/autoresponder.c])

    A fixed buffer holding the most recent output, with the offset behind
    which it has not been scanned yet.  One byte is kept for the NUL; a
    capacity of 0 stands for a window that could not be allocated. *)

Record window := mk_win { w_data : bytes; w_cap : Z; w_off : Z }.

Definition window_append (data : bytes) (w : window) : window :=
  if w_cap w =? 0 then w else
  if w_cap w <=? zlen data then
    let keep := w_cap w - 1 in
    mk_win (zdrop (zlen data - keep) data) (w_cap w) 0
  else
    let need := zlen (w_data w) + zlen data - (w_cap w - 1) in
    if 0 <? need then
      mk_win (zdrop need (w_data w) ++ data) (w_cap w)
        (if need <? w_off w then w_off w - need else 0)
    else mk_win (w_data w ++ data) (w_cap w) (w_off w).

Definition window_ok (w : window) : Prop :=
  0 < w_cap w /\ zlen (w_data w) <= w_cap w - 1 /\ 0 <= w_off w <= zlen (w_data w).

(** Go back to the start of the line that [pos] is in. *)
Fixpoint line_start (data : bytes) (pos : nat) : nat :=
  match pos with
  | O => O
  | S p => if zat data (Z.of_nat p) =? 10 then pos else line_start data p
  end.

(** The window holds the tail of the output, and what is behind the offset of
    a fully scanned window is the part of the new chunk that fits. *)
Lemma window_append_spec data w :
  window_ok w ->
  let w' := window_append data w in
  window_ok w' /\ w_cap w' = w_cap w /\
  w_data w' = zlast (w_cap w - 1) (w_data w ++ data) /\
  (w_off w = zlen (w_data w) -> zdrop (w_off w') (w_data w') = zlast (w_cap w - 1) data).
Proof.
  intros (Hc & Hl & Ho). unfold window_append.
  destruct (Z.eqb_spec (w_cap w) 0); [lia|].
  destruct (Z.leb_spec (w_cap w) (zlen data)).
  { split_and!; [unfold window_ok; cbn; zlia|done| |].
    - cbn. by rewrite zlast_app_r by lia.
    - intros _. cbn. by rewrite zdrop_neg by lia. }
  destruct (Z.ltb_spec 0 (zlen (w_data w) + zlen data - (w_cap w - 1))).
  - split_and!; [|done| |].
    + unfold window_ok. cbn. split; [lia|].
      destruct (Z.ltb_spec (zlen (w_data w) + zlen data - (w_cap w - 1)) (w_off w)); zlia.
    + cbn. rewrite zlast_app_l by lia. f_equal. unfold zlast. f_equal. lia.
    + intros E. cbn. rewrite (zlast_all _ data) by lia.
      destruct (Z.ltb_spec (zlen (w_data w) + zlen data - (w_cap w - 1)) (w_off w)).
      * rewrite zdrop_app_ge by zlia. apply zdrop_neg. zlia.
      * rewrite zdrop_neg by lia. rewrite (zdrop_all _ (w_data w)) by lia. done.
  - split_and!; [unfold window_ok; cbn; zlia|done| |].
    + cbn. rewrite zlast_all by zlia. done.
    + intros ->. cbn. rewrite zdrop_app_ge by lia. rewrite zdrop_neg, zlast_all by lia. done.
Qed.

Lemma line_start_le data pos : (line_start data pos <= pos)%nat.
Proof. induction pos as [|p IH]; simpl; [done|]. destruct (_ =? 10); lia. Qed.
