(* ===== verification/Expect.v ===== *)
(** * The expect engine ([src/expect.c])

    Pending pattern waits.  Every request keeps its own sliding window of the
    device output since it was added; requests leave when they match, time out
    or are aborted. *)
From S2P Require Import Prelude Arrays Regex.

Definition SM_MAX_EXPECT_PENDING : nat := 256.
Definition SM_MAX_EXPECT_PER_CLIENT : nat := 16.
Definition SM_MAX_EXPECT_BUF_SIZE : Z := 262144.
Definition SM_EXPECT_SCAN_LOOKBACK : Z := 256.

Definition SM_EXPECT_ERR_FULL : Z := -1.
Definition SM_EXPECT_ERR_PER_CLIENT : Z := -2.
Definition SM_EXPECT_ERR_BAD_PATTERN : Z := -3.
Definition SM_EXPECT_ERR_NOMEM : Z := -4.

Definition sm_expect_add_errstr (rc : Z) : string :=
  if rc =? SM_EXPECT_ERR_FULL then "too many pending expects"
  else if rc =? SM_EXPECT_ERR_PER_CLIENT then "too many expects for this client"
  else if rc =? SM_EXPECT_ERR_NOMEM then "out of memory"
  else "invalid regex pattern".

(** A request; [buf_len] is the length of [rq_buffer]. *)
Record sm_expect_request := mk_req {
  rq_id : string; rq_compiled : sm_regex; rq_pattern_str : string; rq_deadline : double;
  rq_buffer : bytes; rq_buf_cap : Z; rq_search_offset : Z;
  rq_matched : bool; rq_aborted : bool; rq_client_id : string;
  rq_abort_reason : string; rq_abort_pattern : string }.

Record sm_expect_engine := mk_eng { eng_requests : list sm_expect_request; eng_capacity : nat }.
Definition eng_count (eng : sm_expect_engine) : nat := length (eng_requests eng).

Record sm_expect_result := mk_res {
  er_id : string; er_matched : bool; er_aborted : bool; er_data : bytes; er_pattern : string;
  er_client_id : string; er_abort_reason : string; er_abort_pattern : string }.

Definition sm_expect_init : sm_expect_engine := mk_eng [] 0.
Definition sm_expect_destroy (eng : sm_expect_engine) : sm_expect_engine := mk_eng [] 0.

Definition of_client (client_id : string) (r : sm_expect_request) : bool :=
  streq (rq_client_id r) client_id.
Definition client_count (l : list sm_expect_request) (client_id : string) : nat :=
  length (List.filter (of_client client_id) l).

Section expect.
Context `{R : RegexLib}.

(** ** Adding *)

Definition new_request (id pattern client_id : string) (re : sm_regex) (deadline : double) :
    sm_expect_request :=
  mk_req (snprintf_s 64 id) re (snprintf_s 256 pattern) deadline [] 4096 0 false false
    (snprintf_s 32 client_id) "" "".

Definition sm_expect_add (realloc_ok malloc_ok : bool) (now : double) (eng : sm_expect_engine)
    (id pattern : string) (timeout_s : double) (client_id : string) : Z * sm_expect_engine :=
  if (SM_MAX_EXPECT_PENDING <=? eng_count eng)%nat then (SM_EXPECT_ERR_FULL, eng) else
  if (SM_MAX_EXPECT_PER_CLIENT <=? client_count (eng_requests eng) client_id)%nat
  then (SM_EXPECT_ERR_PER_CLIENT, eng) else
  let full := (eng_capacity eng <=? eng_count eng)%nat in
  let new_cap := if (eng_capacity eng =? 0)%nat then 16%nat else (eng_capacity eng * 2)%nat in
  if full && (SM_MAX_EXPECT_PENDING <? new_cap)%nat then (SM_EXPECT_ERR_FULL, eng) else
  if full && negb realloc_ok then (SM_EXPECT_ERR_NOMEM, eng) else
  let eng := if full then mk_eng (eng_requests eng) new_cap else eng in
  match sm_regex_compile pattern with
  | None => (SM_EXPECT_ERR_BAD_PATTERN, eng)
  | Some re =>
      if negb malloc_ok then (SM_EXPECT_ERR_NOMEM, eng) else
      (0, mk_eng (eng_requests eng ++ [new_request id pattern client_id re (now + timeout_s)])
            (eng_capacity eng))
  end.

(** ** Feeding device output *)

(** [while (buf_len + n >= buf_cap)]: the capacity reached, and whether a
    [realloc] failed ([ok] decides by size).  From 4096 seven doublings reach
    any window, so the fuel is never used up. *)
Fixpoint grow_buffer (fuel : nat) (ok : Z -> bool) (need cap : Z) : Z * bool :=
  match fuel with
  | O => (cap, true)
  | S f => if cap <=? need then
             if ok (cap * 2) then grow_buffer f ok need (cap * 2) else (cap, true)
           else (cap, false)
  end.

#[global] Arguments grow_buffer : simpl never.

(** The bytes taken from the chunk, and the window after making room. *)
Definition slide (buffer : bytes) (off : Z) (data : bytes) : bytes * bytes * Z :=
  let n := zlen data in
  if SM_MAX_EXPECT_BUF_SIZE <? n then
    (zdrop (n - SM_MAX_EXPECT_BUF_SIZE) data, [], 0)
  else if SM_MAX_EXPECT_BUF_SIZE <? zlen buffer + n then
    let drop := zlen buffer + n - SM_MAX_EXPECT_BUF_SIZE in
    (data, zdrop drop buffer, if drop <? off then off - drop else 0)
  else (data, buffer, off).

Definition feed_request (ok : Z -> bool) (data : bytes) (r : sm_expect_request) :
    sm_expect_request :=
  if rq_matched r then r else
  let '(src, buf, off) := slide (rq_buffer r) (rq_search_offset r) data in
  let '(cap, oom) := grow_buffer 20 ok (zlen buf + zlen src) (rq_buf_cap r) in
  if oom then {| r with rq_buffer := buf; rq_search_offset := off; rq_buf_cap := cap |} else
  let buf := buf ++ src in
  let search_start := if SM_EXPECT_SCAN_LOOKBACK <? off then off - SM_EXPECT_SCAN_LOOKBACK else 0 in
  let '(m, re) := sm_regex_exec (rq_compiled r) (zdrop search_start buf) in
  {| r with rq_buffer := buf; rq_buf_cap := cap; rq_search_offset := zlen buf;
            rq_compiled := re; rq_matched := match m with Some _ => true | None => false end |}.

Definition sm_expect_feed (ok : Z -> bool) (eng : sm_expect_engine) (data : bytes) :
    sm_expect_engine :=
  mk_eng (map (feed_request ok data) (eng_requests eng)) (eng_capacity eng).
End expect.

(** ** Collecting, aborting, cancelling *)

Definition req_done (now : double) (r : sm_expect_request) : bool :=
  rq_matched r || rq_aborted r || (rq_deadline r <=? now).

Definition result_of (r : sm_expect_request) : sm_expect_result :=
  mk_res (rq_id r) (rq_matched r) (rq_aborted r) (rq_buffer r) (rq_pattern_str r)
    (rq_client_id r) (rq_abort_reason r) (rq_abort_pattern r).

Definition sm_expect_collect (eng : sm_expect_engine) (now : double) (max_out : nat) :
    list sm_expect_result * sm_expect_engine :=
  let '(out, rest) := collect_if (req_done now) max_out (eng_requests eng) in
  (map result_of out, mk_eng rest (eng_capacity eng)).

Definition abort_request (reason pattern_name : option string) (r : sm_expect_request) :
    sm_expect_request :=
  if rq_matched r || rq_aborted r then r
  else {| r with rq_aborted := true;
                 rq_abort_reason := snprintf_s 32 (default "anomaly"%string reason);
                 rq_abort_pattern := snprintf_s 64 (default ""%string pattern_name) |}.
Definition sm_expect_abort_all (eng : sm_expect_engine) (reason pattern_name : option string) :
    sm_expect_engine :=
  mk_eng (map (abort_request reason pattern_name) (eng_requests eng)) (eng_capacity eng).

Definition sm_expect_cancel_id (eng : sm_expect_engine) (id : string) : sm_expect_engine :=
  mk_eng (remove_if (fun r => streq (rq_id r) id) (eng_requests eng)) (eng_capacity eng).
Definition sm_expect_cancel_client (eng : sm_expect_engine) (client_id : string) :
    sm_expect_engine :=
  mk_eng (remove_if (of_client client_id) (eng_requests eng)) (eng_capacity eng).
Definition sm_expect_cancel_all (eng : sm_expect_engine) : sm_expect_engine :=
  mk_eng [] (eng_capacity eng).

(** ** Invariant *)

(** A request's window fits its allocation, with a byte to spare for the NUL. *)
Definition req_ok (r : sm_expect_request) : Prop :=
  zlen (rq_buffer r) < rq_buf_cap r /\ 4096 <= rq_buf_cap r <= 2 * SM_MAX_EXPECT_BUF_SIZE /\
  zlen (rq_buffer r) <= SM_MAX_EXPECT_BUF_SIZE /\
  0 <= rq_search_offset r <= zlen (rq_buffer r) /\
  (String.length (rq_client_id r) < 32)%nat.

Record eng_ok (eng : sm_expect_engine) : Prop := {
  eng_cap_ok : (eng_count eng <= eng_capacity eng <= SM_MAX_EXPECT_PENDING)%nat;
  eng_per_client : forall cid, (client_count (eng_requests eng) cid <= SM_MAX_EXPECT_PER_CLIENT)%nat;
  eng_reqs_ok : Forall req_ok (eng_requests eng) }.

Lemma filter_length_Permutation {A} (P : A -> bool) l k :
  l ≡ₚ k -> length (List.filter P l) = length (List.filter P k).
Proof. intros Hp. by rewrite (filter_Permutation_bool P _ _ Hp). Qed.

Lemma filter_length_app {A} (P : A -> bool) l k :
  length (List.filter P (l ++ k)) = (length (List.filter P l) + length (List.filter P k))%nat.
Proof. by rewrite List.filter_app, length_app. Qed.

(** Dropping requests keeps the engine in order. *)
Lemma eng_ok_sub l gone cap eng :
  gone ++ l ≡ₚ eng_requests eng -> cap = eng_capacity eng -> eng_ok eng -> eng_ok (mk_eng l cap).
Proof.
  intros Hp -> [Hc Hcl Hr]. unfold eng_count, client_count in *. split; simpl.
  - unfold eng_count. simpl. apply Permutation_length in Hp. rewrite length_app in Hp. lia.
  - intros cid. specialize (Hcl cid). rewrite <- (filter_length_Permutation _ _ _ Hp) in Hcl.
    rewrite filter_length_app in Hcl. unfold client_count. lia.
  - rewrite <- Hp in Hr. by apply Forall_app in Hr as [_ ?].
Qed.

(** Rewriting requests in place, keeping their owners. *)
Lemma eng_ok_map f eng :
  (forall r, rq_client_id (f r) = rq_client_id r) -> (forall r, req_ok r -> req_ok (f r)) ->
  eng_ok eng -> eng_ok (mk_eng (map f (eng_requests eng)) (eng_capacity eng)).
Proof.
  intros Hid Hf [Hc Hcl Hr]. split; simpl.
  - unfold eng_count in *. simpl. by rewrite length_map.
  - intros cid. specialize (Hcl cid). unfold client_count, of_client in *.
    assert (length (List.filter (fun r => streq (rq_client_id r) cid) (map f (eng_requests eng))) =
            length (List.filter (fun r => streq (rq_client_id r) cid) (eng_requests eng))) as ->; [|done].
    clear - Hid. induction (eng_requests eng) as [|r l IH]; simpl; [done|].
    rewrite Hid. by destruct (streq (rq_client_id r) cid); simpl; rewrite IH.
  - apply Forall_map. eapply Forall_impl; [exact Hr|]. intros r. simpl. apply Hf.
Qed.

Lemma filter_negb_Permutation {A} (P : A -> bool) l :
  List.filter P l ++ List.filter (fun x => negb (P x)) l ≡ₚ l.
Proof.
  induction l as [|x l IH]; simpl; [done|]. destruct (P x); simpl; [by rewrite IH|].
  by rewrite <- Permutation_middle, IH.
Qed.

Lemma eng_ok_remove_if P eng :
  eng_ok eng -> eng_ok (mk_eng (remove_if P (eng_requests eng)) (eng_capacity eng)).
Proof.
  apply (eng_ok_sub _ (List.filter P (eng_requests eng))); [|done].
  rewrite remove_if_spec. apply filter_negb_Permutation.
Qed.

Lemma grow_buffer_S f ok need cap :
  grow_buffer (S f) ok need cap =
  if cap <=? need then
    if ok (cap * 2) then grow_buffer f ok need (cap * 2) else (cap, true)
  else (cap, false).
Proof. reflexivity. Qed.

Lemma grow_buffer_spec f ok need cap :
  4096 <= cap <= 2 * SM_MAX_EXPECT_BUF_SIZE -> 0 <= need <= SM_MAX_EXPECT_BUF_SIZE ->
  need < cap * 2 ^ Z.of_nat f ->
  let '(c, oom) := grow_buffer (S f) ok need cap in
  cap <= c <= 2 * SM_MAX_EXPECT_BUF_SIZE /\ (oom = false -> need < c) /\
  ((forall x, ok x = true) -> oom = false).
Proof.
  revert cap. induction f as [|f IH]; intros cap Hc Hn Hb; rewrite grow_buffer_S;
    destruct (Z.leb_spec cap need); try (split_and!; done || lia).
  { simpl in Hb. lia. }
  destruct (ok (cap * 2)) eqn:Eok.
  - specialize (IH (cap * 2)). destruct (grow_buffer (S f) ok need (cap * 2)) as [c oom].
    destruct IH as (? & ? & ?); [unfold SM_MAX_EXPECT_BUF_SIZE in *; lia|done| |].
    + rewrite Nat2Z.inj_succ, Z.pow_succ_r in Hb by lia. lia.
    + split_and!; done || lia.
  - split_and!; [lia|lia|done|]. intros Hall. by rewrite Hall in Eok.
Qed.

Lemma slide_spec buffer off data :
  zlen buffer <= SM_MAX_EXPECT_BUF_SIZE -> 0 <= off <= zlen buffer ->
  let '(src, buf, off') := slide buffer off data in
  buf ++ src = zlast SM_MAX_EXPECT_BUF_SIZE (buffer ++ data) /\ 0 <= off' <= zlen buf /\
  zlen buf <= zlen buffer.
Proof.
  intros Hb Ho. unfold slide.
  destruct (Z.ltb_spec SM_MAX_EXPECT_BUF_SIZE (zlen data)).
  { simpl. split; [|split; zlia]. rewrite zlast_app_r by lia. done. }
  destruct (Z.ltb_spec SM_MAX_EXPECT_BUF_SIZE (zlen buffer + zlen data)).
  - split.
    + rewrite zlast_app_l by lia. f_equal. unfold zlast. f_equal. lia.
    + split; [zcase; zlia|zlia].
  - split; [|done]. rewrite zlast_all by zlia. done.
Qed.

Section expect_proofs.
Context `{R : RegexLib}.

Lemma feed_request_spec ok d r :
  req_ok r ->
  let r' := feed_request ok d r in
  req_ok r' /\ rq_client_id r' = rq_client_id r /\
  (rq_matched r = true -> r' = r) /\
  (rq_matched r = false -> (forall x, ok x = true) ->
   rq_buffer r' = zlast SM_MAX_EXPECT_BUF_SIZE (rq_buffer r ++ d)).
Proof.
  intros (H1 & H2 & H3 & H4 & H5). unfold feed_request.
  destruct (rq_matched r) eqn:Em.
  { by split_and!. }
  pose proof (slide_spec (rq_buffer r) (rq_search_offset r) d H3 H4) as Hs.
  destruct (slide (rq_buffer r) (rq_search_offset r) d) as [[src buf] off].
  destruct Hs as (Hs & Ho & Hbuf). pose proof (f_equal zlen Hs) as Hl. rewrite zlen_zlast, zlen_app in Hl.
  pose proof (zlen_nonneg (rq_buffer r ++ d)). 
  assert (0 <= zlen buf + zlen src <= SM_MAX_EXPECT_BUF_SIZE) as Hn
    by (unfold SM_MAX_EXPECT_BUF_SIZE in *; lia).
  pose proof (grow_buffer_spec 19 ok (zlen buf + zlen src) (rq_buf_cap r) H2 Hn) as Hg.
  destruct (grow_buffer 20 ok (zlen buf + zlen src) (rq_buf_cap r)) as [cap oom].
  destruct Hg as (Hg1 & Hg2 & Hg3); [unfold SM_MAX_EXPECT_BUF_SIZE in *; simpl; lia|].
  destruct oom.
  { split_and!; try done; [|intros _ Hall; by specialize (Hg3 Hall)].
    unfold req_ok. simpl. zlia. }
  destruct (sm_regex_exec _ _) as [m re]. simpl.
  split_and!; [|done|done|done].
  unfold req_ok. simpl. specialize (Hg2 eq_refl). zlia.
Qed.

Lemma sm_expect_add_ok rok mok now eng id pattern t cid :
  eng_ok eng -> (String.length cid < 32)%nat ->
  eng_ok (snd (sm_expect_add rok mok now eng id pattern t cid)).
Proof.
  intros Hok Hcid. pose proof Hok as [Hc Hcl Hr]. unfold sm_expect_add.
  destruct (Nat.leb_spec SM_MAX_EXPECT_PENDING (eng_count eng)); [done|].
  destruct (Nat.leb_spec SM_MAX_EXPECT_PER_CLIENT (client_count (eng_requests eng) cid)); [done|].
  set (full := (eng_capacity eng <=? eng_count eng)%nat).
  set (nc := if (eng_capacity eng =? 0)%nat then 16%nat else (eng_capacity eng * 2)%nat).
  destruct (full && (SM_MAX_EXPECT_PENDING <? nc)%nat) eqn:E1; [done|].
  destruct (full && negb rok); [done|].
  set (eng1 := if full then mk_eng (eng_requests eng) nc else eng).
  assert (eng_requests eng1 = eng_requests eng /\
          (eng_count eng < eng_capacity eng1 <= SM_MAX_EXPECT_PENDING)%nat) as [Hreq Hcap].
  { unfold eng1, full, nc in *. destruct (Nat.leb_spec (eng_capacity eng) (eng_count eng)); [|split; [done|lia]].
    split; [done|]. simpl in E1. apply Nat.ltb_ge in E1. simpl.
    destruct (Nat.eqb_spec (eng_capacity eng) 0); lia. }
  assert (eng_ok eng1) as Hok1.
  { split; unfold eng_count in *; rewrite ?Hreq; [lia|done|done]. }
  destruct (sm_regex_compile pattern) as [re|]; [|done]. destruct mok; [|done]. simpl.
  split; unfold eng_count in *; simpl; rewrite ?Hreq.
  - rewrite length_app. simpl. lia.
  - intros c. unfold client_count in *. rewrite filter_length_app. simpl. unfold of_client at 2. simpl.
    rewrite snprintf_s_short by done. specialize (Hcl c).
    destruct (streq cid c) eqn:E; simpl; [|lia]. apply streq_spec in E as <-. lia.
  - apply Forall_app. split; [done|]. constructor; [|done].
    unfold req_ok, new_request, SM_MAX_EXPECT_BUF_SIZE. simpl.
    pose proof (snprintf_s_length 32 cid ltac:(lia)). zlia.
Qed.

(** *** The engine as a transition system *)

Inductive expect_step : sm_expect_engine -> sm_expect_engine -> Prop :=
  | es_add rok mok now id pattern t cid eng :
      (String.length cid < 32)%nat ->
      expect_step eng (snd (sm_expect_add rok mok now eng id pattern t cid))
  | es_feed ok data eng : expect_step eng (sm_expect_feed ok eng data)
  | es_collect now max eng : expect_step eng (snd (sm_expect_collect eng now max))
  | es_abort reason name eng : expect_step eng (sm_expect_abort_all eng reason name)
  | es_cancel_id id eng : expect_step eng (sm_expect_cancel_id eng id)
  | es_cancel_client cid eng : expect_step eng (sm_expect_cancel_client eng cid)
  | es_cancel_all eng : expect_step eng (sm_expect_cancel_all eng).

Lemma expect_step_ok eng eng' : expect_step eng eng' -> eng_ok eng -> eng_ok eng'.
Proof.
  destruct 1 as [rok mok now id pattern t cid eng Hcid|ok data eng|now max eng|reason name eng|
                 id eng|cid eng|eng]; intros Hok.
  - by apply sm_expect_add_ok.
  - apply eng_ok_map; [|by intros r Hr; apply feed_request_spec|done].
    intros r. unfold feed_request. destruct (rq_matched r); [done|].
    destruct (slide _ _ _) as [[src buf] off]. destruct (grow_buffer _ _ _ _) as [cap []]; [done|].
    by destruct (sm_regex_exec _ _).
  - unfold sm_expect_collect. pose proof (collect_if_spec (req_done now) max (eng_requests eng)) as Hc.
    destruct (collect_if _ _ _) as [out rest]. destruct Hc as (Hp & _). by eapply eng_ok_sub.
  - apply eng_ok_map; [| |done]; intros r; unfold abort_request; by destruct (rq_matched r || rq_aborted r).
  - by apply eng_ok_remove_if.
  - by apply eng_ok_remove_if.
  - apply (eng_ok_sub [] (eng_requests eng) _ eng); [by rewrite app_nil_r|done|done].
Qed.

Lemma sm_expect_init_ok : eng_ok sm_expect_init.
Proof.
  split; unfold eng_count, client_count; simpl; [unfold SM_MAX_EXPECT_PENDING; lia|intros; lia|constructor].
Qed.

(** The engine's limits hold in every reachable state: at most 256
    requests in all, at most 16 of one client, every window within its
    allocation and within 256 KiB, whatever is added, fed, collected, aborted
    or cancelled in whatever order and whatever the allocator does. *)
Theorem expect_limits eng :
  rtc expect_step sm_expect_init eng ->
  (eng_count eng <= SM_MAX_EXPECT_PENDING)%nat /\
  (forall cid, (client_count (eng_requests eng) cid <= SM_MAX_EXPECT_PER_CLIENT)%nat) /\
  Forall req_ok (eng_requests eng).
Proof.
  intros Hr. assert (eng_ok eng) as [? ? ?]; [|split_and!; [lia|done|done]].
  pose proof sm_expect_init_ok as H0. revert Hr H0. generalize sm_expect_init as e0.
  induction 1 as [|x y z Hs Hr IH]; intros Hok; [done|]. apply IH. by eapply expect_step_ok.
Qed.

(** A waiting request loses no output.  As long as it has not matched
    and memory lasts, its window holds the last 256 KiB of everything that was
    fed since it was added; once it matches it is frozen. *)
Theorem expect_window ok ds r :
  req_ok r -> (forall x, ok x = true) ->
  let r' := fold_left (fun r d => feed_request ok d r) ds r in
  exists k, (k <= length ds)%nat /\
    (rq_matched r = false -> zlen (rq_buffer r) <= SM_MAX_EXPECT_BUF_SIZE ->
     rq_buffer r' = zlast SM_MAX_EXPECT_BUF_SIZE (rq_buffer r ++ mjoin (take k ds))) /\
    (rq_matched r' = false -> k = length ds).
Proof.
  intros Hr Hok. revert r Hr. induction ds as [|d ds IH]; intros r Hr; simpl.
  { exists 0%nat. split_and!; [lia| |done]. intros _ Hl. simpl. rewrite app_nil_r, zlast_all; done. }
  destruct (feed_request_spec ok d r Hr) as (Hr1 & _ & Hm & Hb).
  destruct (IH _ Hr1) as (k & Hk & Hbuf & Hmat).
  destruct (rq_matched (feed_request ok d r)) eqn:Em.
  - assert (forall l, fold_left (fun r d => feed_request ok d r) l (feed_request ok d r) =
                      feed_request ok d r) as Hfix.
    { intros l. induction l as [|x l IHl]; simpl; [done|].
      destruct (feed_request_spec ok x _ Hr1) as (_ & _ & Hm1 & _). by rewrite Hm1. }
    rewrite Hfix in *. exists 1%nat. rewrite Em. split_and!; [lia| |done].
    intros Hf _. rewrite Hb by done. simpl. by rewrite app_nil_r.
  - exists (S k). split_and!; [lia| |intros H; by rewrite Hmat].
    intros Hf Hl. rewrite Hbuf by (done || apply Hr1). rewrite Hb by done. simpl.
    rewrite app_assoc. apply zlast_app_zlast. unfold SM_MAX_EXPECT_BUF_SIZE. lia.
Qed.

(** Collecting reports every finished wait exactly once.  The reported
    and the remaining requests are together the requests there were, what is
    reported has matched, was aborted or is past its deadline, and unless the
    caller's array was filled nothing finished stays behind. *)
Theorem expect_collect_exact eng now max :
  let '(results, eng') := sm_expect_collect eng now max in
  exists out, results = map result_of out /\ out ++ eng_requests eng' ≡ₚ eng_requests eng /\
    Forall (fun r => req_done now r = true) out /\ (length results <= max)%nat /\
    ((length results < max)%nat -> Forall (fun r => req_done now r = false) (eng_requests eng')).
Proof.
  unfold sm_expect_collect.
  pose proof (collect_if_spec (req_done now) max (eng_requests eng)) as H.
  destruct (collect_if _ _ _) as [out rest]. destruct H as (? & ? & ? & ?).
  exists out. simpl. rewrite length_map. done.
Qed.

(** An aborted wait can still turn into a match.  A request that was
    aborted stays in the engine until it is collected, and output fed in the
    meantime is still matched against it, so it can be reported as aborted and
    matched at once. *)
Theorem expect_abort_then_match ok data r off :
  req_ok r -> (forall x, ok x = true) -> rq_matched r = false -> rq_aborted r = false ->
  rq_buffer r = [] -> rq_search_offset r = 0 -> zlen data <= SM_MAX_EXPECT_BUF_SIZE ->
  fst (sm_regex_exec (rq_compiled r) data) = Some off ->
  let r' := feed_request ok data (abort_request None None r) in
  er_aborted (result_of r') = true /\ er_matched (result_of r') = true.
Proof.
  intros Hr Hok Hm Ha Hb Ho Hl Hx. unfold abort_request. rewrite Hm, Ha. simpl.
  unfold feed_request. simpl. rewrite Hb, Ho.
  assert (slide [] 0 data = (data, [], 0)) as ->.
  { unfold slide. zsimpl. destruct (Z.ltb_spec SM_MAX_EXPECT_BUF_SIZE (zlen data)); [lia|].
    destruct (Z.ltb_spec SM_MAX_EXPECT_BUF_SIZE (0 + zlen data)); [lia|done]. }
  destruct Hr as (? & Hcap & _).
  pose proof (grow_buffer_spec 19 ok (zlen (@nil Z) + zlen data) (rq_buf_cap r) Hcap) as Hg.
  destruct (grow_buffer 20 ok _ _) as [cap oom].
  destruct Hg as (_ & _ & Hg); [zlia|unfold SM_MAX_EXPECT_BUF_SIZE in *; simpl; zlia|].
  rewrite (Hg Hok). change (SM_EXPECT_SCAN_LOOKBACK <? 0) with false. cbv iota.
  rewrite zdrop_neg by lia. simpl. destruct (sm_regex_exec (rq_compiled r) data) as [m re].
  simpl in Hx. rewrite Hx. simpl. by split.
Qed.
End expect_proofs.

(** A request as [sm_expect_add] makes it, for the examples. *)
Definition demo_request : sm_expect_request :=
  new_request "1" "login" "client-1" (mk_re "login" false 0 "login") 100.

Lemma demo_request_ok : req_ok demo_request.
Proof. unfold req_ok. vm_compute. intuition (congruence || lia). Qed.

Lemma expect_limits_witness :
  (eng_count (snd (@sm_expect_add (lit_lib false) true true 0 sm_expect_init "1" "login" 5 "client-1"))
   <= SM_MAX_EXPECT_PENDING)%nat.
Proof.
  apply (@expect_limits (lit_lib false)). eapply rtc_l; [|apply rtc_refl].
  apply (@es_add (lit_lib false)). vm_compute. lia.
Defined.

Lemma expect_window_witness :
  let r' := fold_left (fun r d => @feed_request (lit_lib false) (fun _ => true) d r)
              [[108; 111]; [103]] demo_request in
  exists k, (k <= 2)%nat /\ (rq_matched r' = false -> k = 2%nat).
Proof.
  destruct (@expect_window (lit_lib false) (fun _ => true) [[108; 111]; [103]] demo_request
              demo_request_ok (fun _ => eq_refl)) as (k & Hk & _ & Hm).
  exists k. split; [exact Hk|exact Hm].
Defined.

Lemma expect_abort_then_match_witness :
  let r' := @feed_request (lit_lib false) (fun _ => true) (bytes_of_string "login:")
              (abort_request None None demo_request) in
  er_aborted (result_of r') = true /\ er_matched (result_of r') = true.
Proof.
  apply (@expect_abort_then_match (lit_lib false) (fun _ => true) (bytes_of_string "login:")
           demo_request 0 demo_request_ok); try reflexivity. vm_compute. congruence.
Defined.
