(* ===== verification/BootStage.v ===== *)
(** * Boot progress ([src/boot_stage.c])

    Ordered boot markers matched on the output: which were reached, how far
    the boot got, and whether it stalled. *)
From S2P Require Import Prelude Regex.

Definition SM_MAX_BOOT_STAGES : nat := 32.
Definition SM_BOOT_WINDOW_BYTES : Z := 8192.
Definition SM_BOOT_STALL_TIMEOUT_MS : Z := 10000.

Record sm_boot_stage := mk_stage {
  st_name : string; st_pattern : string; st_compiled : sm_regex;
  st_reached : bool; st_announced : bool; st_reached_ts : double }.

Record sm_boot_tracker := mk_boot {
  bt_stages : list sm_boot_stage; bt_stage_cap : nat; bt_furthest : Z;
  bt_last_advance : double; bt_stall_timeout : double; bt_window : window }.
Definition bt_count (t : sm_boot_tracker) : nat := length (bt_stages t).

Definition sm_boot_init (malloc_ok : bool) : sm_boot_tracker :=
  mk_boot [] 0 (-1) 0 (ms_to_s SM_BOOT_STALL_TIMEOUT_MS)
    (mk_win [] (if malloc_ok then SM_BOOT_WINDOW_BYTES else 0) 0).

Definition sm_boot_destroy (t : sm_boot_tracker) : sm_boot_tracker :=
  mk_boot [] 0 (-1) 0 0 (mk_win [] 0 0).

Definition sm_boot_set_stall_timeout (t : sm_boot_tracker) (timeout_ms : Z) : sm_boot_tracker :=
  if 0 <? timeout_ms then {| t with bt_stall_timeout := ms_to_s timeout_ms |} else t.

Definition reset_stage (s : sm_boot_stage) : sm_boot_stage :=
  {| s with st_reached := false; st_announced := false; st_reached_ts := 0 |}.
Definition sm_boot_reset (t : sm_boot_tracker) : sm_boot_tracker :=
  {| t with bt_stages := map reset_stage (bt_stages t); bt_furthest := -1;
            bt_last_advance := 0 |}.
Definition sm_boot_restart (t : sm_boot_tracker) : sm_boot_tracker :=
  {| (sm_boot_reset t) with bt_window := mk_win [] (w_cap (bt_window t)) 0 |}.

Section boot.
Context `{R : RegexLib}.

Definition sm_boot_add_stage (realloc_ok : bool) (t : sm_boot_tracker) (name pattern : string) :
    Z * sm_boot_tracker :=
  if (SM_MAX_BOOT_STAGES <=? bt_count t)%nat then (-1, t) else
  let full := (bt_stage_cap t <=? bt_count t)%nat in
  if full && negb realloc_ok then (-1, t) else
  let new_cap := Nat.min SM_MAX_BOOT_STAGES
                   (if (bt_stage_cap t =? 0)%nat then 8%nat else (bt_stage_cap t * 2)%nat) in
  let t := if full then {| t with bt_stage_cap := new_cap |} else t in
  match sm_regex_compile pattern with
  | None => (-1, t)
  | Some re =>
      (0, {| t with bt_stages := bt_stages t ++
             [mk_stage (snprintf_s 64 name) (snprintf_s 256 pattern) re false false 0] |})
  end.

(** The reboot heuristic: stage 0 again in the bytes that just arrived. *)
Definition boot_reboot (t : sm_boot_tracker) : sm_boot_tracker :=
  match bt_stages t with
  | s0 :: rest =>
      if 1 <=? bt_furthest t then
        let w := bt_window t in
        let '(m, re) := sm_regex_exec (st_compiled s0) (zdrop (w_off w) (w_data w)) in
        let t := {| t with bt_stages := {| s0 with st_compiled := re |} :: rest |} in
        match m with
        | Some noff =>
            sm_boot_reset {| t with bt_window :=
              mk_win (zdrop (w_off w + noff) (w_data w)) (w_cap w) 0 |}
        | None => t
        end
      else t
  | [] => t
  end.

(** The scan over the stages: what is left of the list, its index, the
    furthest stage and last advance so far. *)
Fixpoint feed_stages (region : bytes) (ts : double) (i : Z) (l : list sm_boot_stage)
    (furthest : Z) (last : double) (newly : nat) : list sm_boot_stage * Z * double * nat :=
  match l with
  | [] => ([], furthest, last, newly)
  | s :: l' =>
      if st_reached s then
        let '(k, f, a, n) := feed_stages region ts (i + 1) l' furthest last newly in
        (s :: k, f, a, n)
      else
        let '(m, re) := sm_regex_exec (st_compiled s) region in
        match m with
        | None =>
            let '(k, f, a, n) := feed_stages region ts (i + 1) l' furthest last newly in
            ({| s with st_compiled := re |} :: k, f, a, n)
        | Some _ =>
            let '(k, f, a, n) :=
              feed_stages region ts (i + 1) l' (if furthest <? i then i else furthest) ts (S newly) in
            ({| s with st_compiled := re; st_reached := true; st_reached_ts := ts |} :: k, f, a, n)
        end
  end.

Definition sm_boot_feed (t : sm_boot_tracker) (data : bytes) (ts : double) : nat * sm_boot_tracker :=
  if (zlen data =? 0) || (bt_count t =? 0)%nat || (w_cap (bt_window t) =? 0) then (0%nat, t) else
  let t := boot_reboot {| t with bt_window := window_append data (bt_window t) |} in
  let w := bt_window t in
  let search_start := if 256 <? w_off w then w_off w - 256 else 0 in
  let '(stages, f, a, n) :=
    feed_stages (zdrop search_start (w_data w)) ts 0 (bt_stages t) (bt_furthest t)
      (bt_last_advance t) 0 in
  (n, {| t with bt_stages := stages; bt_furthest := f; bt_last_advance := a;
                bt_window := mk_win (w_data w) (w_cap w) (zlen (w_data w)) |}).
End boot.

Definition sm_boot_terminal_reached (t : sm_boot_tracker) : bool :=
  match last (bt_stages t) with Some s => st_reached s | None => false end.

Definition sm_boot_stalled (t : sm_boot_tracker) (now : double) : bool :=
  if (bt_count t =? 0)%nat then false
  else if bt_furthest t <? 0 then false
  else if bt_stall_timeout t <=? 0 then false
  else if bt_last_advance t <=? 0 then false
  else if sm_boot_terminal_reached t then false
  else bt_stall_timeout t <? now - bt_last_advance t.

(** ** What [furthest] means *)

(** [f] is the index of the highest reached stage of [l], counting from [i];
    [-1 < i] is what it is when none is. *)
Definition furthest_of (l : list sm_boot_stage) (f : Z) : Prop :=
  (forall i s, zget l i = Some s -> st_reached s = true -> i <= f) /\
  (f = -1 \/ exists s, zget l f = Some s /\ st_reached s = true).

Definition boot_ok (t : sm_boot_tracker) : Prop :=
  furthest_of (bt_stages t) (bt_furthest t) /\ (bt_count t <= SM_MAX_BOOT_STAGES)%nat /\
  (w_cap (bt_window t) = 0 \/ window_ok (bt_window t)).

Lemma furthest_of_none l : Forall (fun s => st_reached s = false) l -> furthest_of l (-1).
Proof.
  intros Hl. split; [|by left]. intros i s Hi Hr.
  pose proof (zget_Some_lt _ _ _ Hi). rewrite zget_lookup in Hi by lia.
  eapply Forall_lookup_1 in Hl; [|exact Hi]. simpl in Hl. congruence.
Qed.

Lemma reset_none l : Forall (fun s => st_reached s = false) (map reset_stage l).
Proof. apply Forall_map, Forall_true. done. Qed.

Section boot_proofs.
Context `{R : RegexLib}.

Lemma feed_stages_spec region ts i l furthest last n :
  (forall j s, zget l j = Some s -> st_reached s = true -> i + j <= furthest) ->
  let '(k, f, a, m) := feed_stages region ts i l furthest last n in
  length k = length l /\ furthest <= f /\
  (forall j s, zget k j = Some s -> st_reached s = true -> i + j <= f) /\
  (f = furthest \/ exists s, zget k (f - i) = Some s /\ st_reached s = true) /\
  (forall j s, zget l j = Some s -> st_reached s = true ->
     exists s', zget k j = Some s' /\ st_reached s' = true).
Proof.
  revert i furthest last n. induction l as [|s l IH]; intros i furthest last n Hl.
  { simpl. split_and!; [done|lia|exact Hl|by left|by eauto]. }
  assert (forall f', furthest <= f' ->
    forall j x, zget l j = Some x -> st_reached x = true -> i + 1 + j <= f') as Hl'.
  { intros f' Hf j x Hj Hx. pose proof (zget_Some_lt _ _ _ Hj).
    pose proof (Hl (j + 1) x) as H'. rewrite zget_cons_S in H' by lia. specialize (H' Hj Hx). lia. }
  assert (forall s' k f f0, length k = length l -> furthest <= f0 -> f0 <= f ->
    (st_reached s' = true -> i <= f) -> (st_reached s = true -> st_reached s' = true) ->
    (f0 = furthest \/ (f0 = i /\ st_reached s' = true)) ->
    (forall j x, zget k j = Some x -> st_reached x = true -> i + 1 + j <= f) ->
    (f = f0 \/ exists x, zget k (f - (i + 1)) = Some x /\ st_reached x = true) ->
    (forall j x, zget l j = Some x -> st_reached x = true ->
       exists s', zget k j = Some s' /\ st_reached s' = true) ->
    length (s' :: k) = length (s :: l) /\ furthest <= f /\
    (forall j x, zget (s' :: k) j = Some x -> st_reached x = true -> i + j <= f) /\
    (f = furthest \/ exists x, zget (s' :: k) (f - i) = Some x /\ st_reached x = true) /\
    (forall j x, zget (s :: l) j = Some x -> st_reached x = true ->
       exists s'', zget (s' :: k) j = Some s'' /\ st_reached s'' = true)) as Hcons.
  { intros s' k f f0 Hlen H0 Hf Hs' Hss Hf0 Hk Hlast Hmono. split_and!; [simpl; congruence|lia| | |].
    - intros j x [[-> ->]|[? Hj]]%zget_cons_inv Hx; [specialize (Hs' Hx); lia|].
      specialize (Hk _ _ Hj Hx). lia.
    - destruct Hlast as [->|(x & Hx & Hr)].
      + destruct Hf0 as [->|[-> Hr]]; [by left|]. right. exists s'. rewrite Z.sub_diag. done.
      + right. exists x. pose proof (zget_Some_lt _ _ _ Hx).
        replace (f - i) with (f - (i + 1) + 1) by lia. rewrite zget_cons_S by lia. done.
    - intros j x [[-> ->]|[? Hj]]%zget_cons_inv Hx; [exists s'; split; [done|auto]|].
      destruct (Hmono _ _ Hj Hx) as (y & Hy & ?). exists y. split; [|done].
      pose proof (zget_Some_lt _ _ _ Hy).
      replace j with (j - 1 + 1) by lia. by rewrite zget_cons_S by lia. }
  simpl. destruct (st_reached s) eqn:Er.
  - specialize (IH (i + 1) furthest last n (Hl' furthest ltac:(lia))).
    destruct (feed_stages _ _ _ _ _ _ _) as [[[k f] a] m].
    destruct IH as (? & ? & ? & ? & ?). eapply (Hcons s k f furthest); try done; try lia; auto.
    intros _. specialize (Hl 0 s (zget_cons_0 _ _) Er). lia.
  - destruct (sm_regex_exec (st_compiled s) region) as [[off|] re].
    + set (f1 := if furthest <? i then i else furthest).
      assert (furthest <= f1 /\ i <= f1 /\ (f1 = furthest \/ f1 = i)) as (? & ? & Hf1)
        by (unfold f1; zcase; lia).
      specialize (IH (i + 1) f1 ts (S n) (Hl' f1 ltac:(lia))).
      destruct (feed_stages _ _ _ _ _ _ _) as [[[k f] a] m].
      destruct IH as (? & ? & ? & ? & ?). eapply (Hcons _ k f f1); try done; try lia.
      destruct Hf1; auto.
    + specialize (IH (i + 1) furthest last n (Hl' furthest ltac:(lia))).
      destruct (feed_stages _ _ _ _ _ _ _) as [[[k f] a] m].
      destruct IH as (? & ? & ? & ? & ?). eapply (Hcons _ k f furthest); simpl; try done; try lia; auto.
Qed.

Lemma boot_reboot_ok `{!RegexLaws R} t : boot_ok t -> boot_ok (boot_reboot t).
Proof.
  intros (Hf & Hc & Hw). unfold boot_reboot.
  destruct (bt_stages t) as [|s0 rest] eqn:Es; [by split_and!; rewrite ?Es|].
  destruct (1 <=? bt_furthest t); [|by split_and!; rewrite ?Es].
  destruct (sm_regex_exec _ _) as [[noff|] re] eqn:Ex.
  - unfold boot_ok, bt_count in *. rewrite Es in Hc. simpl in *.
    split_and!; [|by rewrite length_map|].
    + apply furthest_of_none. constructor; [done|]. apply reset_none.
    + destruct Hw as [|(Hw1 & Hw2 & Hw3)]; [by left|]. right. unfold window_ok. simpl.
      pose proof (sm_regex_exec_range (st_compiled s0) (zdrop (w_off (bt_window t)) (w_data (bt_window t)))
                    noff) as Hr.
      rewrite Ex in Hr. specialize (Hr eq_refl). zlia.
  - unfold boot_ok, bt_count in *. rewrite Es in Hc. simpl in *. split_and!; [|done|done].
    destruct Hf as [Hf1 Hf2]. split.
    + intros i s [[-> ->]|[? Hi]]%zget_cons_inv Hs.
      * by apply (Hf1 0 s0).
      * apply (Hf1 i s); [|done]. pose proof (zget_Some_lt _ _ _ Hi).
        replace i with (i - 1 + 1) by lia. by rewrite zget_cons_S by lia.
    + destruct Hf2 as [|(s & [[-> ->]|[? Hi]]%zget_cons_inv & Hs)]; [by left|right..].
      * eexists. split; [apply zget_cons_0|done].
      * exists s. pose proof (zget_Some_lt _ _ _ Hi).
        replace (bt_furthest t) with (bt_furthest t - 1 + 1) by lia.
        split; [by rewrite zget_cons_S by lia|done].
Qed.

Lemma sm_boot_feed_ok `{!RegexLaws R} t data ts :
  boot_ok t -> boot_ok (snd (sm_boot_feed t data ts)).
Proof.
  intros Hok. unfold sm_boot_feed. destruct (_ || _ || _) eqn:E; [done|].
  set (t1 := boot_reboot _).
  assert (boot_ok t1) as (Hf & Hc & Hw).
  { apply boot_reboot_ok. destruct Hok as (? & ? & Hw). unfold boot_ok. simpl. split_and!; try done.
    destruct Hw as [Hw|Hw]; [rewrite Hw in E; lia|]. right. by apply window_append_spec. }
  clearbody t1. set (region := zdrop _ _). clearbody region.
  pose proof (feed_stages_spec region ts 0 (bt_stages t1) (bt_furthest t1) (bt_last_advance t1) 0) as Hs.
  destruct (feed_stages _ _ _ _ _ _ _) as [[[k f] a] m].
  destruct Hs as (Hlen & Hle & Hk & Hlast & Hmono).
  { intros j s Hj Hr. by apply (proj1 Hf j s). }
  unfold boot_ok, bt_count in *. simpl. rewrite Hlen. split_and!; [|done|].
  - split; [intros i s Hi Hr; by apply (Hk i s)|].
    destruct Hlast as [->|(s & Hs & ?)]; [|right; exists s; by rewrite Z.sub_0_r in Hs].
    destruct Hf as [_ [|(s & Hs & Hr)]]; [by left|right]. destruct (Hmono _ _ Hs Hr) as (s' & ? & ?). eauto.
  - destruct Hw as [|(? & ? & ?)]; [by left|right]. unfold window_ok. simpl. zlia.
Qed.

Inductive boot_step : sm_boot_tracker -> sm_boot_tracker -> Prop :=
  | bs_add ok name pattern t : boot_step t (snd (sm_boot_add_stage ok t name pattern))
  | bs_feed data ts t : boot_step t (snd (sm_boot_feed t data ts))
  | bs_reset t : boot_step t (sm_boot_reset t)
  | bs_restart t : boot_step t (sm_boot_restart t)
  | bs_timeout ms t : boot_step t (sm_boot_set_stall_timeout t ms).

Lemma sm_boot_add_ok ok t name pattern :
  boot_ok t -> boot_ok (snd (sm_boot_add_stage ok t name pattern)).
Proof.
  intros Hok. unfold sm_boot_add_stage.
  destruct (Nat.leb_spec SM_MAX_BOOT_STAGES (bt_count t)) as [|Hc]; [done|].
  destruct (_ && _); [done|]. set (t1 := if (_ <=? _)%nat then _ else t).
  assert (boot_ok t1 /\ bt_stages t1 = bt_stages t) as [(Hf & Hc1 & Hw) Es]
    by (unfold t1; destruct (_ <=? _)%nat; done).
  destruct (sm_regex_compile pattern) as [re|]; [|done]. unfold boot_ok, bt_count in *. simpl.
  rewrite Es in *. split_and!; [|rewrite length_app; simpl; lia|done].
  destruct Hf as [Hf1 Hf2]. split.
  - intros i s Hi Hr. destruct (decide (i < zlen (bt_stages t))).
    + rewrite zget_app_l in Hi by done. by apply (Hf1 i s).
    + rewrite zget_app_r in Hi by lia.
      apply zget_cons_inv in Hi as [[? ->]|[? Hi]]; [done|].
      pose proof (zget_Some_lt _ _ _ Hi). zlia.
  - destruct Hf2 as [|(s & Hs & Hr)]; [by left|right]. exists s.
    pose proof (zget_Some_lt _ _ _ Hs). by rewrite zget_app_l by lia.
Qed.

Lemma boot_step_ok `{!RegexLaws R} t t' : boot_step t t' -> boot_ok t -> boot_ok t'.
Proof.
  destruct 1 as [ok name pattern t|data ts t|t|t|ms t]; intros Hok.
  - by apply sm_boot_add_ok.
  - by apply sm_boot_feed_ok.
  - destruct Hok as (_ & Hc & Hw). unfold boot_ok, bt_count in *. simpl. rewrite length_map.
    split_and!; [|done|done]. apply furthest_of_none, reset_none.
  - destruct Hok as (_ & Hc & Hw). unfold boot_ok, bt_count in *. simpl. rewrite length_map.
    split_and!; [apply furthest_of_none, reset_none|done|].
    destruct Hw as [|(? & ? & ?)]; [by left|right]. unfold window_ok. simpl. zlia.
  - unfold sm_boot_set_stall_timeout. by destruct (0 <? ms).
Qed.

Lemma sm_boot_init_ok ok : boot_ok (sm_boot_init ok).
Proof.
  unfold boot_ok, bt_count. simpl. split_and!; [by apply furthest_of_none|unfold SM_MAX_BOOT_STAGES; lia|].
  destruct ok; [right|by left]. unfold window_ok. simpl. unfold SM_BOOT_WINDOW_BYTES. zlia.
Qed.

(** Boot progress is what it says.  In every reachable tracker state
    [furthest] is the index of the highest reached stage ([-1]: none), there
    are at most 32 stages, and a stall is only reported for a boot that has
    begun and has not reached its last stage. *)
Theorem boot_progress `{!RegexLaws R} ok t :
  rtc boot_step (sm_boot_init ok) t ->
  furthest_of (bt_stages t) (bt_furthest t) /\ (bt_count t <= SM_MAX_BOOT_STAGES)%nat /\
  (forall now, sm_boot_stalled t now = true ->
     0 <= bt_furthest t < zlen (bt_stages t) - 1 /\
     bt_stall_timeout t < now - bt_last_advance t).
Proof.
  intros Hr. assert (boot_ok t) as (Hf & Hc & _).
  { pose proof (sm_boot_init_ok ok) as H0. revert Hr H0. generalize (sm_boot_init ok) as t0.
    induction 1 as [|x y z Hs Hr IH]; intros H0; [done|]. apply IH. by eapply boot_step_ok. }
  split_and!; [done|done|]. intros now. unfold sm_boot_stalled, sm_boot_terminal_reached.
  destruct (_ =? _)%nat; [done|]. destruct (Z.ltb_spec (bt_furthest t) 0); [done|].
  destruct (_ <=? 0); [done|]. destruct (_ <=? 0); [done|].
  destruct Hf as [_ [|(s & Hs & Hr')]]; [lia|]. pose proof (zget_Some_lt _ _ _ Hs) as Hlt.
  destruct (last (bt_stages t)) as [x|] eqn:El; [|apply last_None in El; rewrite El in Hlt; zlia].
  destruct (st_reached x) eqn:Ex; [done|]. intros ?%Z.ltb_lt. split; [|done].
  destruct (decide (bt_furthest t = zlen (bt_stages t) - 1)) as [E|]; [|lia].
  rewrite last_lookup in El. rewrite E, zget_lookup in Hs by lia.
  replace (Z.to_nat (zlen (bt_stages t) - 1)) with (pred (length (bt_stages t))) in Hs
    by (unfold zlen; lia). congruence.
Qed.
End boot_proofs.

Lemma boot_progress_witness :
  let R := lit_lib false in
  let t := snd (@sm_boot_feed R (snd (@sm_boot_add_stage R true (sm_boot_init true) "spl" "SPL"))
             (bytes_of_string "U-Boot SPL") 7) in
  bt_furthest t = 0 /\ furthest_of (bt_stages t) (bt_furthest t).
Proof.
  intros R t. split; [vm_compute; reflexivity|].
  apply (@boot_progress R _ true t).
  eapply rtc_l; [apply (@bs_add R true "spl" "SPL")|].
  eapply rtc_l; [apply (@bs_feed R (bytes_of_string "U-Boot SPL") 7)|apply rtc_refl].
Defined.
