(* ===== verification/Autoresponder.v ===== *)
(** * The autoresponder ([src/autoresponder.c])

    Standing "on prompt X send Y" rules matched on the output stream, with a
    re-fire cooldown and one-shot rules. *)
From Stdlib Require Import Sorted.
From S2P Require Import Prelude Regex.

Definition SM_MAX_AUTORESPONDERS : nat := 32.
Definition SM_AR_RESPONSE_MAX : Z := 256.
Definition SM_AR_WINDOW_BYTES : Z := 8192.
Definition SM_AR_DEFAULT_COOLDOWN_MS : Z := 1000.
Definition SM_AR_MAX_FIRED_PER_FEED : nat := 8.

Record sm_ar_rule := mk_rule {
  r_name : string; r_pattern : string; r_compiled : sm_regex; r_response : bytes;
  r_once : bool; r_enabled : bool; r_cooldown : double; r_last_fire : double;
  r_created_by : string }.

Record sm_ar_fired := mk_fired {
  f_index : nat; f_response : bytes; f_name : string; f_matched_text : string }.

Record sm_autoresponder := mk_ar {
  ar_rules : list sm_ar_rule; ar_rule_cap : nat; ar_window : window }.

Definition sm_autoresponder_init (malloc_ok : bool) : sm_autoresponder :=
  mk_ar [] 0 (mk_win [] (if malloc_ok then SM_AR_WINDOW_BYTES else 0) 0).
Definition sm_autoresponder_destroy (ar : sm_autoresponder) : sm_autoresponder :=
  mk_ar [] 0 (mk_win [] 0 0).
Definition sm_autoresponder_reset_window (ar : sm_autoresponder) : sm_autoresponder :=
  {| ar with ar_window := mk_win [] (w_cap (ar_window ar)) 0 |}.
Definition sm_autoresponder_clear (ar : sm_autoresponder) : sm_autoresponder :=
  {| ar with ar_rules := [] |}.

Fixpoint find_rule_from (name : string) (i : nat) (l : list sm_ar_rule) : option nat :=
  match l with
  | [] => None
  | r :: l' => if streq (r_name r) name then Some i else find_rule_from name (S i) l'
  end.
Definition find_rule (ar : sm_autoresponder) (name : string) : option nat :=
  find_rule_from name 0 (ar_rules ar).

Definition sm_autoresponder_set_owner (ar : sm_autoresponder) (name owner : string) :
    sm_autoresponder :=
  match find_rule ar name with
  | Some i =>
      {| ar with ar_rules := alter (fun r => {| r with r_created_by := snprintf_s 64 owner |}) i
                                   (ar_rules ar) |}
  | None => ar
  end.

Definition sm_autoresponder_remove (ar : sm_autoresponder) (name : string) : Z * sm_autoresponder :=
  match find_rule ar name with
  | Some i => (1, {| ar with ar_rules := delete i (ar_rules ar) |})
  | None => (0, ar)
  end.

Section ar.
Context `{R : RegexLib}.

Definition new_rule (name pattern : string) (re : sm_regex) (response : bytes) (once : bool)
    (cooldown_ms : Z) (owner : string) : sm_ar_rule :=
  mk_rule (snprintf_s 64 name) (snprintf_s 256 pattern) re response once true
    (ms_to_s (if 0 <? cooldown_ms then cooldown_ms else SM_AR_DEFAULT_COOLDOWN_MS)) 0 owner.

(** NULL and empty strings are both refused; a rule of the same name is
    replaced in place and keeps its owner. *)
Definition sm_autoresponder_add (realloc_ok : bool) (ar : sm_autoresponder)
    (name pattern : string) (response : bytes) (once : bool) (cooldown_ms : Z) :
    Z * sm_autoresponder :=
  if streq name "" || streq pattern "" then (-1, ar) else
  if SM_AR_RESPONSE_MAX <? zlen response then (-1, ar) else
  match sm_regex_compile pattern with
  | None => (-1, ar)
  | Some re =>
      match find_rule ar name with
      | Some i =>
          (0, {| ar with ar_rules :=
                 alter (fun r => new_rule name pattern re response once cooldown_ms (r_created_by r))
                   i (ar_rules ar) |})
      | None =>
          let count := length (ar_rules ar) in
          if (SM_MAX_AUTORESPONDERS <=? count)%nat then (-1, ar) else
          let full := (ar_rule_cap ar <=? count)%nat in
          if full && negb realloc_ok then (-1, ar) else
          let new_cap := Nat.min SM_MAX_AUTORESPONDERS
            (if (ar_rule_cap ar =? 0)%nat then 8%nat else (ar_rule_cap ar * 2)%nat) in
          (0, {| ar with ar_rule_cap := if full then new_cap else ar_rule_cap ar;
                 ar_rules := ar_rules ar ++
                   [new_rule name pattern re response once cooldown_ms ""] |})
      end
  end.

(** The line a match is in, as the 128-byte C string the report carries. *)
Definition matched_line (data : bytes) (win_match : Z) : string :=
  let wm := Z.min win_match (zlen data) in
  string_of_bytes (cstr (ztake 127 (zdrop (Z.of_nat (line_start data (Z.to_nat wm))) data))).

Definition cooling (ts : double) (r : sm_ar_rule) : bool :=
  (0 <? r_last_fire r) && (ts - r_last_fire r <? r_cooldown r).

(** The rule loop: index, rules left, and the reports still allowed. *)
Fixpoint ar_loop (data : bytes) (search_start : Z) (ts : double) (i : nat)
    (rules : list sm_ar_rule) (room : nat) : list sm_ar_rule * list sm_ar_fired :=
  match rules, room with
  | [], _ => ([], [])
  | _, O => (rules, [])
  | r :: rules', S room' =>
      if negb (r_enabled r) || cooling ts r then
        let '(k, out) := ar_loop data search_start ts (S i) rules' room in (r :: k, out)
      else
        let '(m, re) := sm_regex_exec (r_compiled r) (zdrop search_start data) in
        match m with
        | None =>
            let '(k, out) := ar_loop data search_start ts (S i) rules' room in
            ({| r with r_compiled := re |} :: k, out)
        | Some off =>
            let '(k, out) := ar_loop data search_start ts (S i) rules' room' in
            ({| r with r_compiled := re; r_last_fire := ts;
                       r_enabled := if r_once r then false else r_enabled r |} :: k,
             mk_fired i (r_response r) (r_name r) (matched_line data (search_start + off)) :: out)
        end
  end.

Definition sm_autoresponder_feed (ar : sm_autoresponder) (data : bytes) (ts : double)
    (max_out : nat) : list sm_ar_fired * sm_autoresponder :=
  if (zlen data =? 0) || (length (ar_rules ar) =? 0)%nat || (w_cap (ar_window ar) =? 0) ||
     (max_out =? 0)%nat then ([], ar) else
  let w := window_append data (ar_window ar) in
  let search_start := Z.of_nat (line_start (w_data w) (Z.to_nat (w_off w))) in
  let '(rules, out) := ar_loop (w_data w) search_start ts 0 (ar_rules ar) max_out in
  (out, {| ar with ar_rules := rules;
                   ar_window := mk_win (w_data w) (w_cap w) (zlen (w_data w)) |}).

(** ** When a rule fires *)

(** How often rule [i] is in a report. *)
Definition fired_at (i : nat) (out : list sm_ar_fired) : nat :=
  length (List.filter (fun f => f_index f =? i)%nat out).

(** What a feed at [ts] does to a rule that fired [n] times in it. *)
Definition rule_step (ts : double) (n : nat) (r r' : sm_ar_rule) : Prop :=
  r_once r' = r_once r /\ r_cooldown r' = r_cooldown r /\ r_response r' = r_response r /\
  match n with
  | O => r_enabled r' = r_enabled r /\ r_last_fire r' = r_last_fire r
  | 1%nat => r_enabled r = true /\ cooling ts r = false /\ r_last_fire r' = ts /\
         r_enabled r' = negb (r_once r)
  | _ => False
  end.

Lemma ar_loop_spec data ss ts i rules room :
  let '(k, out) := ar_loop data ss ts i rules room in
  length k = length rules /\ (length out <= room)%nat /\
  (forall j, (j < i)%nat -> fired_at j out = 0%nat) /\
  (forall j r, rules !! j = Some r ->
     exists r', k !! j = Some r' /\ rule_step ts (fired_at (i + j) out) r r').
Proof.
  revert i room. induction rules as [|r rules IH]; intros i room; simpl.
  { split_and!; [done|simpl; lia|done|done]. }
  assert (forall r' k out, length k = length rules ->
    (forall j, (j < S i)%nat -> fired_at j out = 0%nat) -> rule_step ts 0 r r' ->
    (forall j r, rules !! j = Some r ->
       exists r', k !! j = Some r' /\ rule_step ts (fired_at (S i + j) out) r r') ->
    (forall j, (j < i)%nat -> fired_at j out = 0%nat) /\
    (forall j x, (r :: rules) !! j = Some x ->
       exists x', (r' :: k) !! j = Some x' /\ rule_step ts (fired_at (i + j) out) x x')) as Hskip.
  { intros r' k out Hk Hlow Hr Hall. split; [intros; apply Hlow; lia|].
    intros [|j] x; simpl.
    - intros [= <-]. exists r'. rewrite Hlow by lia. done.
    - rewrite Nat.add_succ_r. apply Hall. }
  destruct room as [|room].
  { split_and!; [done|simpl; lia|done|]. intros j x Hj. exists x. split; [done|].
    unfold fired_at, rule_step. simpl. done. }
  destruct (negb (r_enabled r) || cooling ts r) eqn:Eskip.
  { specialize (IH (S i) (S room)). destruct (ar_loop _ _ _ _ _ _) as [k out].
    destruct IH as (Hk & Hm & Hlow & Hall). edestruct (Hskip r k out); try done.
    split_and!; try done. simpl. congruence. }
  apply orb_false_iff in Eskip as [Een%negb_false_iff Ecool].
  destruct (sm_regex_exec _ _) as [[off|] re].
  2:{ specialize (IH (S i) (S room)). destruct (ar_loop _ _ _ _ _ _) as [k out].
      destruct IH as (Hk & Hm & Hlow & Hall). edestruct (Hskip {| r with r_compiled := re |} k out); try done.
      split_and!; try done. simpl. congruence. }
  specialize (IH (S i) room). destruct (ar_loop _ _ _ _ _ _) as [k out].
  destruct IH as (Hk & Hm & Hlow & Hall). split_and!; [simpl; congruence|simpl; lia| |].
  - intros j Hj. unfold fired_at. simpl. destruct (Nat.eqb_spec i j); [lia|]. apply Hlow. lia.
  - intros [|j] x; simpl.
    + intros [= <-]. eexists. split; [done|]. unfold fired_at. simpl.
      rewrite Nat.add_0_r, Nat.eqb_refl. simpl. fold (fired_at i out). rewrite Hlow by lia.
      unfold rule_step. simpl. split_and!; try done. by destruct (r_once r).
    + intros Hj. destruct (Hall _ _ Hj) as (x' & ? & ?). exists x'. split; [done|].
      unfold fired_at. simpl. destruct (Nat.eqb_spec i (i + S j)); [lia|].
      by rewrite Nat.add_succ_r.
Qed.

Lemma sm_autoresponder_feed_spec ar data ts max :
  let '(out, ar') := sm_autoresponder_feed ar data ts max in
  (length out <= max)%nat /\
  (forall j r, ar_rules ar !! j = Some r ->
     exists r', ar_rules ar' !! j = Some r' /\ rule_step ts (fired_at j out) r r').
Proof.
  unfold sm_autoresponder_feed. destruct (_ || _ || _ || _).
  { split; [simpl; lia|]. intros j r Hj. exists r. by unfold rule_step, fired_at. }
  set (w := window_append data (ar_window ar)).
  pose proof (ar_loop_spec (w_data w) (Z.of_nat (line_start (w_data w) (Z.to_nat (w_off w)))) ts 0
                (ar_rules ar) max) as H.
  destruct (ar_loop _ _ _ _ _ _) as [k out]. destruct H as (_ & ? & _ & ?). done.
Qed.

(** The times rule [i] fires at over a sequence of feeds. *)
Fixpoint fire_times (i : nat) (ar : sm_autoresponder) (feeds : list (bytes * double)) :
    list double :=
  match feeds with
  | [] => []
  | (data, ts) :: feeds' =>
      let '(out, ar') := sm_autoresponder_feed ar data ts SM_AR_MAX_FIRED_PER_FEED in
      replicate (fired_at i out) ts ++ fire_times i ar' feeds'
  end.

Lemma fire_times_spec i ar feeds r :
  ar_rules ar !! i = Some r -> Forall (fun f => 0 < f.2) feeds ->
  let l := fire_times i ar feeds in
  Sorted (fun a b => a + r_cooldown r <= b) l /\
  (0 < r_last_fire r -> HdRel (fun a b => a + r_cooldown r <= b) (r_last_fire r) l) /\
  (r_once r = true -> (length l <= 1)%nat) /\
  (r_enabled r = false -> l = []).
Proof.
  revert ar r. induction feeds as [|[data ts] feeds IH]; intros ar r Hr Hts; simpl.
  { split_and!; try done; try lia; constructor. }
  apply Forall_cons_1 in Hts as [Ht Hts]. simpl in Ht.
  pose proof (sm_autoresponder_feed_spec ar data ts SM_AR_MAX_FIRED_PER_FEED) as H.
  destruct (sm_autoresponder_feed _ _ _ _) as [out ar']. destruct H as [_ H].
  destruct (H i r Hr) as (r' & Hr' & Ho & Hc & _ & Hstep).
  destruct (IH ar' r' Hr' Hts) as (IH1 & IH2 & IH3 & IH4). rewrite Hc, Ho in *.
  destruct (fired_at i out) as [|[|n]]; simpl; [| |done].
  - destruct Hstep as [He Hl]. rewrite He, Hl in *. done.
  - destruct Hstep as (He & Hcool & Hl & He'). rewrite Hl in IH2. split_and!.
    + constructor; [done|]. by apply IH2.
    + intros Hpos. constructor. unfold cooling in Hcool.
      destruct (Z.ltb_spec 0 (r_last_fire r)); [|lia]. simpl in Hcool. lia.
    + intros Honce. rewrite IH4; [simpl; lia|]. by rewrite He', Honce.
    + congruence.
Qed.

(** A rule never fires faster than its cooldown, and a one-shot rule at
    most once.  Over any sequence of output chunks (with a running clock), two
    consecutive fires of a rule are at least its cooldown apart; a rule that
    is disabled never fires, and one marked [once] fires at most once. *)
Theorem autoresponder_rate i ar feeds r :
  ar_rules ar !! i = Some r -> Forall (fun f => 0 < f.2) feeds ->
  Sorted (fun a b => a + r_cooldown r <= b) (fire_times i ar feeds) /\
  (r_once r = true -> (length (fire_times i ar feeds) <= 1)%nat) /\
  (r_enabled r = false -> fire_times i ar feeds = []).
Proof.
  intros Hr Hts. destruct (fire_times_spec i ar feeds r Hr Hts) as (? & _ & ? & ?). done.
Qed.

(** ** The rule table *)

Lemma find_rule_from_spec name i l j :
  find_rule_from name i l = Some j -> (i <= j < i + length l)%nat.
Proof.
  revert i. induction l as [|r l IH]; intros i; simpl; [done|].
  destruct (streq (r_name r) name); [intros [= <-]; lia|]. intros H%IH. lia.
Qed.

Lemma find_rule_from_none name i l :
  find_rule_from name i l = None <-> Forall (fun r => r_name r <> name) l.
Proof.
  revert i. induction l as [|r l IH]; intros i; simpl; [by split; constructor|].
  rewrite Forall_cons. destruct (streq (r_name r) name) eqn:E.
  - apply streq_spec in E. split; [done|]. by intros [? _].
  - apply streq_false in E. rewrite IH. naive_solver.
Qed.

(** A long rule name breaks replacement.  Names are stored cut to 63
    characters but looked up in full, so adding a rule twice under a name of
    64 characters or more does not replace it: the table grows, and neither
    removal nor attribution finds the rule. *)
Theorem autoresponder_long_name ok ar name pattern response once cooldown :
  (64 <= String.length name)%nat -> Forall (fun r => (String.length (r_name r) < 64)%nat) (ar_rules ar) ->
  find_rule ar name = None /\ sm_autoresponder_remove ar name = (0, ar) /\
  (let '(rc, ar') := sm_autoresponder_add ok ar name pattern response once cooldown in
   rc = 0 -> length (ar_rules ar') = S (length (ar_rules ar)) /\
             find_rule ar' name = None /\
             Forall (fun r => (String.length (r_name r) < 64)%nat) (ar_rules ar')).
Proof.
  intros Hn Hall.
  assert (forall l, Forall (fun r => (String.length (r_name r) < 64)%nat) l ->
            find_rule_from name 0 l = None) as Hnone.
  { intros l Hl. apply find_rule_from_none. eapply Forall_impl; [exact Hl|].
    simpl. intros r Hr <-. lia. }
  assert (find_rule ar name = None) as Hf by (by apply Hnone).
  split_and!; [done|unfold sm_autoresponder_remove; by rewrite Hf|].
  unfold sm_autoresponder_add. rewrite Hf.
  destruct (streq name "" || streq pattern ""); [done|].
  destruct (SM_AR_RESPONSE_MAX <? zlen response); [done|].
  destruct (sm_regex_compile pattern) as [re|]; [|done].
  destruct (SM_MAX_AUTORESPONDERS <=? _)%nat; [done|].
  destruct (_ && _); [done|]. intros _. simpl.
  assert (Forall (fun r => (String.length (r_name r) < 64)%nat)
            (ar_rules ar ++ [new_rule name pattern re response once cooldown ""])) as Hall'.
  { apply Forall_app. split; [done|]. constructor; [|done]. apply snprintf_s_length. lia. }
  split_and!; [rewrite length_app; simpl; lia|by apply Hnone|done].
Qed.
End ar.

Definition demo_ar : sm_autoresponder :=
  snd (@sm_autoresponder_add (lit_lib false) true (sm_autoresponder_init true) "login" "login:"
         (bytes_of_string "root") true 500).

Lemma autoresponder_rate_witness :
  let feeds := [(bytes_of_string "login:", one_s); (bytes_of_string "login:", 9 * one_s)] in
  fire_times (R := lit_lib false) 0 demo_ar feeds = [one_s] /\
  (length (fire_times (R := lit_lib false) 0 demo_ar feeds) <= 1)%nat.
Proof.
  intros feeds. split; [vm_compute; reflexivity|].
  assert (Forall (fun f => 0 < f.2) feeds) as Hts by (repeat constructor).
  destruct (ar_rules demo_ar !! 0%nat) as [r|] eqn:Er; [|vm_compute in Er; congruence].
  apply (@autoresponder_rate (lit_lib false) 0%nat demo_ar feeds r Er Hts).
  vm_compute in Er. injection Er as <-. reflexivity.
Defined.

Lemma autoresponder_long_name_witness :
  let name := string_of_bytes (replicate 64 97) in
  let ar := snd (@sm_autoresponder_add (lit_lib false) true demo_ar name "x" [] false 0) in
  find_rule ar name = None /\ length (ar_rules ar) = 2%nat.
Proof.
  intros name ar.
  destruct (@autoresponder_long_name (lit_lib false) true demo_ar name "x" [] false 0) as (_ & _ & H).
  - vm_compute. lia.
  - vm_compute. repeat constructor.
  - split; [|vm_compute; reflexivity]. vm_compute. vm_compute in H. by apply H.
Defined.
