(* ===== verification/Anomaly.v ===== *)
(** * The anomaly detector ([src/anomaly.c])

    Named patterns watched for on the output stream (panics, oopses, resets),
    a literal prefilter in front of the regex, a cooldown, and a bounded store
    of incidents with the text around them. *)
From S2P Require Import Prelude Regex.

Definition SM_MAX_ANOMALY_PATTERNS : nat := 64.
Definition SM_MAX_ANOMALY_INCIDENTS : nat := 1024.
Definition SM_MAX_ANOMALY_WINDOW : Z := 65536.
Definition SM_ANOMALY_CONTEXT_SIZE : Z := 1024.
Definition SM_ANOMALY_COOLDOWN_MS : Z := 5000.

Record sm_anomaly_incident := mk_inc {
  in_id : string; in_pattern_name : string; in_severity : string; in_timestamp : double;
  in_match_text : string; in_pre_context : string }.

Record sm_anomaly_pattern := mk_pat {
  p_name : string; p_severity : string; p_literal : string; p_compiled : sm_regex;
  p_last_fire : double }.

Record sm_anomaly_detector := mk_det {
  d_patterns : list sm_anomaly_pattern; d_pattern_cap : nat; d_id_seq : Z;
  d_incidents : list sm_anomaly_incident; d_incident_cap : nat;
  d_context : bytes; d_cooldown : double; d_window : window }.

(** ** The prefilter *)

(** The stretches between semicolons. *)
Fixpoint split_semi (l acc : bytes) : list bytes :=
  match l with
  | [] => [rev acc]
  | c :: l' => if c =? chr ";" then rev acc :: split_semi l' [] else split_semi l' (c :: acc)
  end.

Definition memmem (region needle : bytes) : bool :=
  match find_sub needle region 0 with Some _ => true | None => false end.

Definition region_has_literal (region : bytes) (literal : string) : bool :=
  if streq literal "" then true
  else existsb (fun n => (0 <? zlen n) && memmem region (ztake 31 n))
         (split_semi (bytes_of_string literal) []).

Definition is_meta (c : Z) : bool :=
  existsb (Z.eqb c) (bytes_of_string "[(.*+?|\^$").

(** The leading characters up to a metacharacter, at most [n] of them. *)
Fixpoint literal_run (n : nat) (p : bytes) : bytes :=
  match n, p with
  | S n', c :: p' => if is_meta c then [] else c :: literal_run n' p'
  | _, _ => []
  end.
Fixpoint drop_spaces (l : bytes) : bytes :=
  match l with c :: l' => if c =? 32 then drop_spaces l' else l | [] => [] end.
Definition strip_spaces (l : bytes) : bytes := rev (drop_spaces (rev l)).

(** [literal] has 48 bytes. *)
Definition extract_literal_prefix (pattern : string) : string :=
  string_of_bytes (strip_spaces (literal_run 47 (bytes_of_string pattern))).

(** ** Incident identifiers: [%08lx%04x%02x] *)

Definition hex_char (n : Z) : Z := if n <? 10 then 48 + n else 87 + n.
Fixpoint hex_digits (w : nat) (n : Z) : bytes :=
  match w with O => [] | S w' => hex_digits w' (n / 16) ++ [hex_char (n mod 16)] end.
Definition gen_id (sec nsec seq : Z) : string :=
  string_of_bytes (hex_digits 8 (u32 sec) ++ hex_digits 4 (Z.land (nsec / 100000) 65535) ++
                   hex_digits 2 (Z.land seq 255)).

(** ** Operations *)

Definition sm_anomaly_init (malloc_ok : bool) : sm_anomaly_detector :=
  mk_det [] 0 0 [] 0 [] (ms_to_s SM_ANOMALY_COOLDOWN_MS)
    (mk_win [] (if malloc_ok then 4096 else 0) 0).
Definition sm_anomaly_reset_window (det : sm_anomaly_detector) : sm_anomaly_detector :=
  {| det with d_window := mk_win [] (w_cap (d_window det)) 0 |}.
Definition sm_anomaly_destroy (det : sm_anomaly_detector) : sm_anomaly_detector :=
  mk_det [] 0 0 [] 0 [] 0 (mk_win [] 0 0).

Fixpoint find_pattern_from (name : string) (i : nat) (l : list sm_anomaly_pattern) : option nat :=
  match l with
  | [] => None
  | p :: l' => if streq (p_name p) name then Some i else find_pattern_from name (S i) l'
  end.

Section anomaly.
Context `{R : RegexLib}.

(** [severity] is NULL in some calls. *)
Definition sm_anomaly_add_pattern (realloc_ok : bool) (det : sm_anomaly_detector)
    (name pattern : string) (severity : option string) : Z * sm_anomaly_detector :=
  if streq name "" then (-1, det) else
  match sm_regex_compile pattern with
  | None => (-1, det)
  | Some re =>
      let sev := snprintf_s 16 (default "warning"%string severity) in
      match find_pattern_from name 0 (d_patterns det) with
      | Some i =>
          (0, {| det with d_patterns :=
                 alter (fun p => mk_pat (p_name p) sev (extract_literal_prefix pattern) re 0)
                   i (d_patterns det) |})
      | None =>
          let count := length (d_patterns det) in
          if (SM_MAX_ANOMALY_PATTERNS <=? count)%nat then (-1, det) else
          let full := (d_pattern_cap det <=? count)%nat in
          if full && negb realloc_ok then (-1, det) else
          (0, {| det with
                 d_pattern_cap := if full then
                     if (d_pattern_cap det =? 0)%nat then 16%nat else (d_pattern_cap det * 2)%nat
                   else d_pattern_cap det;
                 d_patterns := d_patterns det ++
                   [mk_pat (snprintf_s 64 name) sev (extract_literal_prefix pattern) re 0] |})
      end
  end.

(** The literal of the last pattern is overwritten. *)
Definition add_builtin (realloc_ok : bool) (name pattern severity literal : string)
    (det : sm_anomaly_detector) : sm_anomaly_detector :=
  let '(rc, det) := sm_anomaly_add_pattern realloc_ok det name pattern (Some severity) in
  if rc <? 0 then det
  else {| det with d_patterns :=
          alter (fun p => {| p with p_literal := snprintf_s 48 literal |})
            (length (d_patterns det) - 1)%nat (d_patterns det) |}.

Definition builtins : list (string * string * string * string) :=
  [("kernel_panic", "Kernel panic", "critical", "Kernel panic");
   ("oops", "Oops:", "critical", "Oops:");
   ("hard_fault", "HardFault", "critical", "HardFault");
   ("segfault", "Segmentation [Ff]ault", "critical", "Segmentation");
   ("oom_killer", "Out of memory", "critical", "Out of memory");
   ("stack_trace", "Call [Tt]race:", "warning", "Call ");
   ("watchdog", "watchdog.*reset|wdt.*timeout", "warning", "watchdog;wdt");
   ("assert_fail", "Assertion.*failed|BUG_ON|BUG:", "warning", "Assertion;BUG_ON;BUG:");
   ("guru_meditation", "Guru Meditation Error", "critical", "Guru Meditation");
   ("brownout", "Brownout detector was triggered", "critical", "Brownout");
   ("panic_abort", "abort\(\) was called", "critical", "abort()");
   ("stack_smashing", "Stack smashing protect", "critical", "Stack smashing");
   ("task_wdt", "Task watchdog got triggered", "warning", "Task watchdog");
   ("esp_reset", "rst:0x[0-9a-fA-F]+", "warning", "rst:0x")]%string.

Definition sm_anomaly_add_builtins (realloc_ok : bool) (det : sm_anomaly_detector) :
    sm_anomaly_detector :=
  fold_left (fun d '(n, p, s, l) => add_builtin realloc_ok n p s l d) builtins det.

(** ** Feeding *)

(** A window longer than 8 KiB is cut to its last 4 KiB. *)
Definition slide_off (off removed : Z) : Z := if removed <? off then off - removed else 0.
Definition an_trim (w : window) : window :=
  if 8192 <? zlen (w_data w) then
    let removed := zlen (w_data w) - 4096 in
    mk_win (zdrop removed (w_data w)) (w_cap w) (slide_off (w_off w) removed)
  else w.

(** The growth loop; [false]: an allocation failed and the chunk is given up.
    From 4096 four doublings reach the maximum, so the fuel suffices unless
    the capacity is 0, in which case the loop of the C code does not end
    either. *)
Fixpoint an_grow (fuel : nat) (ok : Z -> bool) (len : Z) (w : window) : window * bool :=
  match fuel with
  | O => (w, false)
  | S f =>
      if w_cap w <=? zlen (w_data w) + len then
        let new_cap := w_cap w * 2 in
        if SM_MAX_ANOMALY_WINDOW <? new_cap then
          if len <? zlen (w_data w) then
            let keep := Z.min (zlen (w_data w)) (Z.max len (w_cap w / 2)) in
            let removed := zlen (w_data w) - keep in
            (mk_win (zdrop removed (w_data w)) (w_cap w) (slide_off (w_off w) removed), true)
          else (mk_win [] (w_cap w) 0, true)
        else if ok new_cap then an_grow f ok len (mk_win (w_data w) new_cap (w_off w))
        else (w, false)
      else (w, true)
  end.

#[global] Arguments an_grow : simpl never.

(** Append when it fits; a chunk that never can is dropped. *)
Definition an_append (data : bytes) (w : window) : window :=
  if zlen (w_data w) + zlen data <? w_cap w
  then mk_win (w_data w ++ data) (w_cap w) (w_off w) else w.

(** The ring of the last bytes seen. *)
Definition an_context (ctx data : bytes) : bytes :=
  let len := zlen data in
  if SM_ANOMALY_CONTEXT_SIZE <=? len then zdrop (len - SM_ANOMALY_CONTEXT_SIZE) data
  else
    let avail := SM_ANOMALY_CONTEXT_SIZE - zlen ctx in
    if len <=? avail then ctx ++ data
    else zdrop (len - avail) ctx ++ data.

(** The copy the regex runs on: at most 4 KiB, NULs blanked. *)
Definition scratch (region : bytes) : bytes :=
  map (fun c => if c =? 0 then 32 else c) (ztake 4096 region).

Fixpoint line_length (l : bytes) : Z :=
  match l with
  | [] => 0
  | c :: l' => if (c =? 10) || (c =? 13) then 0 else 1 + line_length l'
  end.

(** A following "Backtrace:" line is appended within the 255 characters. *)
Definition add_backtrace (text from : bytes) : bytes :=
  match find_sub (bytes_of_string "Backtrace:") from 0 with
  | Some o =>
      if o + 10 <? zlen from then
        let bt := zdrop o from in
        let room := 255 - zlen text in
        if 4 <? room then
          text ++ bytes_of_string " | " ++ ztake (Z.min (line_length bt) (room - 3)) bt
        else text
      else text
  | None => text
  end.

Definition match_text (name : string) (data : bytes) (win_match : Z) : string :=
  let wm := Z.min win_match (zlen data) in
  let ls := Z.of_nat (line_start data (Z.to_nat wm)) in
  let text := cstr (ztake 255 (zdrop ls data)) in
  string_of_bytes
    (if streq name "guru_meditation" || streq name "panic_abort"
     then cstr (add_backtrace text (zdrop wm data)) else text).

(** The store: at the cap the oldest quarter goes. *)
Definition store_incident (realloc_ok : bool) (mk : sm_anomaly_incident)
    (incs : list sm_anomaly_incident) (cap : nat) : list sm_anomaly_incident * nat * bool :=
  let incs := if (SM_MAX_ANOMALY_INCIDENTS <=? length incs)%nat
              then drop (SM_MAX_ANOMALY_INCIDENTS / 4) incs else incs in
  let full := (cap <=? length incs)%nat in
  if full && negb realloc_ok then (incs, cap, false)
  else (incs ++ [mk],
        if full then if (cap =? 0)%nat then 16%nat else (cap * 2)%nat else cap, true).

(** One pattern of the scan, on the incidents, their capacity and the id
    counter; the number of new incidents counts up. *)
Definition pattern_step (iok : bool) (sec nsec : Z) (ts : double) (det : sm_anomaly_detector)
    (search_start : Z) (p : sm_anomaly_pattern)
    (st : list sm_anomaly_incident * nat * Z * nat) :
    sm_anomaly_pattern * (list sm_anomaly_incident * nat * Z * nat) :=
  let '(incs, cap, seq, n) := st in
  let data := w_data (d_window det) in
  let region := zdrop search_start data in
  if (0 <? p_last_fire p) && (ts - p_last_fire p <? d_cooldown det) then (p, st) else
  if negb (region_has_literal region (p_literal p)) then (p, st) else
  let '(m, re) := sm_regex_exec (p_compiled p) (scratch region) in
  match m with
  | None => ({| p with p_compiled := re |}, st)
  | Some off =>
      let inc := mk_inc (gen_id sec nsec seq) (p_name p) (p_severity p) ts
        (match_text (p_name p) data (search_start + off))
        (string_of_bytes (cstr (ztake 1023 (d_context det)))) in
      let '(incs, cap, stored) := store_incident iok inc incs cap in
      ({| p with p_compiled := re; p_last_fire := ts |},
       (incs, cap, if stored then u32 (seq + 1) else seq, if stored then S n else n))
  end.

Fixpoint scan_patterns (iok : bool) (sec nsec : Z) (ts : double) (det : sm_anomaly_detector)
    (search_start : Z) (l : list sm_anomaly_pattern)
    (st : list sm_anomaly_incident * nat * Z * nat) :
    list sm_anomaly_pattern * (list sm_anomaly_incident * nat * Z * nat) :=
  match l with
  | [] => ([], st)
  | p :: l' =>
      let '(p', st) := pattern_step iok sec nsec ts det search_start p st in
      let '(k, st) := scan_patterns iok sec nsec ts det search_start l' st in
      (p' :: k, st)
  end.

Definition sm_anomaly_feed (wok : Z -> bool) (iok : bool) (sec nsec : Z)
    (det : sm_anomaly_detector) (data : bytes) (ts : double) : nat * sm_anomaly_detector :=
  if zlen data =? 0 then (0%nat, det) else
  let w := an_trim (d_window det) in
  match an_grow 8 wok (zlen data) w with
  | (w, false) => (0%nat, {| det with d_window := w |})
  | (w, true) =>
      let w := an_append data w in
      let det := {| det with d_window := w; d_context := an_context (d_context det) data |} in
      let search_start := if 256 <? w_off w then w_off w - 256 else 0 in
      let '(pats, (incs, cap, seq, n)) :=
        scan_patterns iok sec nsec ts det search_start (d_patterns det)
          (d_incidents det, d_incident_cap det, d_id_seq det, 0%nat) in
      (n, {| det with d_patterns := pats; d_incidents := incs; d_incident_cap := cap;
                      d_id_seq := seq;
                      d_window := mk_win (w_data w) (w_cap w) (zlen (w_data w)) |})
  end.
End anomaly.

Definition sm_anomaly_get_incidents (det : sm_anomaly_detector) : list sm_anomaly_incident :=
  d_incidents det.

(** ** Invariant *)

(** The capacity is one of the sizes doubling from 4 KiB goes through. *)
Definition an_cap_ok (cap : Z) : Prop :=
  cap = 4096 \/ cap = 8192 \/ cap = 16384 \/ cap = 32768 \/ cap = SM_MAX_ANOMALY_WINDOW.
Definition an_window_ok (w : window) : Prop :=
  zlen (w_data w) < w_cap w /\ an_cap_ok (w_cap w) /\ 0 <= w_off w <= zlen (w_data w).

Record det_ok (det : sm_anomaly_detector) : Prop := {
  do_patterns : (length (d_patterns det) <= SM_MAX_ANOMALY_PATTERNS)%nat;
  do_incidents : (length (d_incidents det) <= SM_MAX_ANOMALY_INCIDENTS)%nat;
  do_context : zlen (d_context det) <= SM_ANOMALY_CONTEXT_SIZE;
  do_window : an_window_ok (d_window det) }.

(** Goals [an_window_ok (mk_win ..)] up to arithmetic. *)
Ltac an_win := unfold an_window_ok; simpl; split_and!; done || zlia.

Lemma an_context_spec ctx data :
  zlen ctx <= SM_ANOMALY_CONTEXT_SIZE ->
  an_context ctx data = zlast SM_ANOMALY_CONTEXT_SIZE (ctx ++ data).
Proof.
  intros Hc. unfold an_context.
  destruct (Z.leb_spec SM_ANOMALY_CONTEXT_SIZE (zlen data)).
  { by rewrite zlast_app_r by lia. }
  destruct (Z.leb_spec (zlen data) (SM_ANOMALY_CONTEXT_SIZE - zlen ctx)).
  - by rewrite zlast_all by zlia.
  - rewrite zlast_app_l by lia. f_equal. unfold zlast. f_equal. lia.
Qed.

Lemma slide_off_range off removed len :
  0 <= removed <= len -> 0 <= off <= len -> 0 <= slide_off off removed <= len - removed.
Proof. unfold slide_off. intros. zcase; lia. Qed.

Lemma zdrop_suffix {A} n (l : list A) : zdrop n l `suffix_of` l.
Proof. exists (ztake n l). symmetry. apply ztake_zdrop. Qed.

Lemma an_trim_spec w :
  an_window_ok w -> an_window_ok (an_trim w) /\ w_data (an_trim w) `suffix_of` w_data w /\
  zlen (w_data (an_trim w)) <= 8192.
Proof.
  intros (? & ? & ?). unfold an_trim. destruct (Z.ltb_spec 8192 (zlen (w_data w))); [|done].
  split_and!; [|apply zdrop_suffix|simpl; zlia].
  pose proof (slide_off_range (w_off w) (zlen (w_data w) - 4096) (zlen (w_data w))).
  an_win.
Qed.

Lemma an_grow_S f ok len w :
  an_grow (S f) ok len w =
  if w_cap w <=? zlen (w_data w) + len then
    let new_cap := w_cap w * 2 in
    if SM_MAX_ANOMALY_WINDOW <? new_cap then
      if len <? zlen (w_data w) then
        let keep := Z.min (zlen (w_data w)) (Z.max len (w_cap w / 2)) in
        let removed := zlen (w_data w) - keep in
        (mk_win (zdrop removed (w_data w)) (w_cap w) (slide_off (w_off w) removed), true)
      else (mk_win [] (w_cap w) 0, true)
    else if ok new_cap then an_grow f ok len (mk_win (w_data w) new_cap (w_off w))
    else (w, false)
  else (w, true).
Proof. reflexivity. Qed.

Lemma an_grow_ok f ok len w :
  an_window_ok w -> 0 <= len -> an_window_ok (fst (an_grow f ok len w)).
Proof.
  revert w. induction f as [|f IH]; intros w Hw Hl; [done|]. rewrite an_grow_S.
  pose proof Hw as (H1 & H2 & H3).
  destruct (Z.leb_spec (w_cap w) (zlen (w_data w) + len)); [|done]. cbn zeta.
  destruct (Z.ltb_spec SM_MAX_ANOMALY_WINDOW (w_cap w * 2)).
  - destruct (Z.ltb_spec len (zlen (w_data w))).
    + set (keep := Z.min _ _).
      assert (0 <= keep <= zlen (w_data w)) as Hk by (unfold keep; zdivmod).
      pose proof (slide_off_range (w_off w) (zlen (w_data w) - keep) (zlen (w_data w))).
      an_win.
    + an_win.
  - destruct (ok (w_cap w * 2)); [|done]. apply IH; [|done].
    unfold an_window_ok, an_cap_ok, SM_MAX_ANOMALY_WINDOW in *. simpl. lia.
Qed.

(** A chunk of up to 32 KiB always fits behind a trimmed window. *)
Lemma an_grow_fits f ok len w :
  an_window_ok w -> zlen (w_data w) <= 8192 -> 0 <= len <= 32768 -> (forall x, ok x = true) ->
  SM_MAX_ANOMALY_WINDOW <= w_cap w * 2 ^ Z.of_nat f ->
  let '(w', b) := an_grow (S f) ok len w in
  b = true /\ w_data w' = w_data w /\ w_off w' = w_off w /\ zlen (w_data w') + len < w_cap w'.
Proof.
  unfold SM_MAX_ANOMALY_WINDOW.
  revert w. induction f as [|f IH]; intros w Hw Hs Hl Hok Hf; rewrite an_grow_S;
    pose proof Hw as (H1 & H2 & H3); unfold an_cap_ok, SM_MAX_ANOMALY_WINDOW in *;
    (destruct (Z.leb_spec (w_cap w) (zlen (w_data w) + len)); [|done]); cbn zeta.
  { simpl in Hf. lia. }
  destruct (Z.ltb_spec 65536 (w_cap w * 2)); [lia|]. rewrite Hok.
  apply (IH (mk_win (w_data w) (w_cap w * 2) (w_off w))); try done.
  - unfold an_window_ok, an_cap_ok, SM_MAX_ANOMALY_WINDOW. simpl. lia.
  - simpl w_cap. rewrite Nat2Z.inj_succ, Z.pow_succ_r in Hf by lia. lia.
Qed.

Lemma an_append_ok data w : an_window_ok w -> an_window_ok (an_append data w).
Proof.
  intros (? & ? & ?). unfold an_append. zcase; [|done]. an_win.
Qed.

Lemma store_incident_bound ok inc incs cap :
  (length incs <= SM_MAX_ANOMALY_INCIDENTS)%nat ->
  (length (fst (fst (store_incident ok inc incs cap))) <= SM_MAX_ANOMALY_INCIDENTS)%nat.
Proof.
  intros Hl. unfold store_incident.
  set (incs1 := if (_ <=? _)%nat then _ else incs).
  assert (length incs1 < SM_MAX_ANOMALY_INCIDENTS)%nat as H1.
  { unfold incs1. destruct (Nat.leb_spec SM_MAX_ANOMALY_INCIDENTS (length incs)); [|done].
    rewrite length_drop. unfold SM_MAX_ANOMALY_INCIDENTS in *.
    change (1024 / 4)%nat with 256%nat. lia. }
  destruct (_ && _); simpl; [lia|]. rewrite length_app. simpl. lia.
Qed.

Section anomaly_proofs.
Context `{R : RegexLib}.

Lemma scan_patterns_spec iok sec nsec ts det ss l st :
  (length (st.1.1.1) <= SM_MAX_ANOMALY_INCIDENTS)%nat ->
  let '(k, st') := scan_patterns iok sec nsec ts det ss l st in
  length k = length l /\ (length (st'.1.1.1) <= SM_MAX_ANOMALY_INCIDENTS)%nat.
Proof.
  revert st. induction l as [|p l IH]; intros st Hst; [done|]. cbn [scan_patterns].
  assert (length ((pattern_step iok sec nsec ts det ss p st).2.1.1.1) <= SM_MAX_ANOMALY_INCIDENTS)%nat
    as H1.
  { unfold pattern_step. destruct st as [[[incs cap] seq] n]. simpl in Hst.
    destruct (_ && _); [done|]. destruct (negb _); [done|].
    destruct (sm_regex_exec _ _) as [[off|] re]; [|done].
    set (inc := mk_inc _ _ _ _ _ _). pose proof (store_incident_bound iok inc incs cap Hst) as Hb.
    destruct (store_incident iok inc incs cap) as [[incs' cap'] stored]. done. }
  destruct (pattern_step _ _ _ _ _ _ _ _) as [p' st1]. specialize (IH st1 H1).
  destruct (scan_patterns _ _ _ _ _ _ _ _) as [k st2]. destruct IH as [Hk Hs].
  split; [simpl; congruence|done].
Qed.

Lemma sm_anomaly_feed_ok wok iok sec nsec det data ts :
  det_ok det -> det_ok (snd (sm_anomaly_feed wok iok sec nsec det data ts)).
Proof.
  intros [Hp Hi Hc Hw]. unfold sm_anomaly_feed. destruct (zlen data =? 0); [done|].
  destruct (an_trim_spec _ Hw) as (Hw1 & _ & _).
  pose proof (an_grow_ok 8 wok (zlen data) _ Hw1 (zlen_nonneg data)) as Hw2.
  destruct (an_grow _ _ _ _) as [w []]; simpl in Hw2; [|by split].
  pose proof (an_append_ok data w Hw2) as Hw3. set (w3 := an_append data w) in *. cbn zeta.
  match goal with |- context [scan_patterns iok sec nsec ts ?d ?s ?l ?st] =>
    pose proof (scan_patterns_spec iok sec nsec ts d s l st Hi) as Hs;
    destruct (scan_patterns iok sec nsec ts d s l st) as [k [[[incs cap] seq] n]] end.
  destruct Hs as [Hk Hin]. simpl in *. split; simpl; [lia|done| |].
  - rewrite an_context_spec by done. unfold SM_ANOMALY_CONTEXT_SIZE. zlia.
  - destruct Hw3 as (? & ? & ?). an_win.
Qed.

(** What a feed of a chunk of ordinary size does to the buffers. *)
Lemma sm_anomaly_feed_buffers wok iok sec nsec det data ts :
  det_ok det -> zlen data <= 32768 -> (forall x, wok x = true) ->
  let det' := snd (sm_anomaly_feed wok iok sec nsec det data ts) in
  d_context det' = zlast SM_ANOMALY_CONTEXT_SIZE (d_context det ++ data) /\
  exists old, old `suffix_of` w_data (d_window det) /\ w_data (d_window det') = old ++ data.
Proof.
  intros [Hp Hi Hc Hw] Hl Hok. unfold sm_anomaly_feed.
  destruct (Z.eqb_spec (zlen data) 0) as [->%zlen_zero|Hz].
  { simpl. rewrite app_nil_r, zlast_all by done. split; [done|]. eexists. split; [done|].
    by rewrite app_nil_r. }
  destruct (an_trim_spec _ Hw) as (Hw1 & Hsuf & Hsz).
  pose proof (an_grow_fits 7 wok (zlen data) _ Hw1 Hsz ltac:(zlia) Hok) as Hg.
  destruct (an_grow 8 wok (zlen data) _) as [w b]. destruct Hg as (-> & Hd & Ho & Hfit).
  { destruct Hw1 as (_ & Hcap & _). unfold an_cap_ok, SM_MAX_ANOMALY_WINDOW in *. simpl. lia. }
  assert (w_data (an_append data w) = w_data w ++ data) as Hd3.
  { unfold an_append. destruct (Z.ltb_spec (zlen (w_data w) + zlen data) (w_cap w)); [done|lia]. }
  cbn zeta. destruct (scan_patterns _ _ _ _ _ _ _ _) as [k [[[incs cap] seq] n]]. simpl.
  rewrite an_context_spec by done. split; [done|]. exists (w_data w). by rewrite Hd3, Hd.
Qed.

(** The detector sees everything and stays within its bounds.  Over any
    sequence of chunks of up to 32 KiB, while memory lasts, the pre-context is
    the last 1 KiB of the output, the scanned window ends with the whole of the
    last chunk, and the stores keep their limits (64 patterns, 1024 incidents,
    a 64 KiB window). *)
Theorem anomaly_feed_complete wok iok sec nsec chunks det :
  det_ok det -> (forall x, wok x = true) -> Forall (fun c => zlen (fst c) <= 32768) chunks ->
  let det' := fold_left (fun d c => snd (sm_anomaly_feed wok iok sec nsec d (fst c) (snd c)))
                chunks det in
  det_ok det' /\
  d_context det' = zlast SM_ANOMALY_CONTEXT_SIZE (d_context det ++ mjoin (map fst chunks)) /\
  (forall data ts, last chunks = Some (data, ts) ->
     data `suffix_of` w_data (d_window det')).
Proof.
  intros Hd Hok. revert det Hd. induction chunks as [|[data ts] chunks IH] using rev_ind;
    intros det Hd Hc.
  { simpl. rewrite app_nil_r, zlast_all by apply Hd. done. }
  apply Forall_app in Hc as [Hc [Hl _]%Forall_cons_1]. simpl in Hl.
  destruct (IH det Hd Hc) as (Hd1 & Hctx & _). rewrite fold_left_app. cbn [fold_left].
  set (det1 := fold_left _ chunks det) in *. cbn [fst snd].
  destruct (sm_anomaly_feed_buffers wok iok sec nsec det1 data ts Hd1 Hl Hok) as (Hctx2 & old & Hold & Hw).
  split_and!.
  - by apply sm_anomaly_feed_ok.
  - rewrite Hctx2, Hctx, map_app. simpl.
    rewrite zlast_app_zlast by (unfold SM_ANOMALY_CONTEXT_SIZE; lia). f_equal.
    rewrite <- app_assoc. f_equal. clear.
    induction (map fst chunks) as [|x l IH]; simpl; [by rewrite app_nil_r|].
    by rewrite <- app_assoc, IH.
  - intros d t. rewrite last_snoc. intros [= <- <-]. rewrite Hw. by exists old.
Qed.
End anomaly_proofs.

Lemma sm_anomaly_init_ok : det_ok (sm_anomaly_init true).
Proof.
  split; simpl; unfold SM_MAX_ANOMALY_PATTERNS, SM_MAX_ANOMALY_INCIDENTS, SM_ANOMALY_CONTEXT_SIZE;
    [lia|lia|zlia|]. unfold an_window_ok, an_cap_ok. simpl. zlia.
Qed.

Lemma anomaly_feed_complete_witness :
  let det := fold_left (fun d c => snd (@sm_anomaly_feed (lit_lib false) (fun _ => true) true 0 0 d
               (fst c) (snd c))) [([1; 2], 5); ([3], 6)] (sm_anomaly_init true) in
  d_context det = [1; 2; 3] /\ [3] `suffix_of` w_data (d_window det).
Proof.
  intros det. split; [vm_compute; reflexivity|].
  apply (@anomaly_feed_complete (lit_lib false) (fun _ => true) true 0 0 [([1; 2], 5); ([3], 6)]
           (sm_anomaly_init true) sm_anomaly_init_ok (fun _ => eq_refl)) with (ts := 6).
  - repeat constructor; vm_compute; congruence.
  - reflexivity.
Defined.

(** *** The prefilter and alternations *)

Lemma literal_run_stop n a c b :
  Forall (fun x => is_meta x = false) a -> is_meta c = true -> (length a <= n)%nat ->
  literal_run n (a ++ c :: b) = a.
Proof.
  intros Ha Hc. revert n. induction Ha as [|x a Hx Ha IH]; intros [|n] Hn; simpl in *;
    try done; try lia.
  - by rewrite Hc.
  - rewrite Hx, IH by lia. done.
Qed.

Lemma strip_spaces_id a c : c <> 32 -> strip_spaces (a ++ [c]) = a ++ [c].
Proof.
  intros Hc. unfold strip_spaces. rewrite rev_app_distr. simpl.
  destruct (Z.eqb_spec c 32); [done|]. by rewrite <- (rev_involutive (a ++ [c])), rev_app_distr.
Qed.

Lemma split_semi_none a acc :
  Forall (fun x => x <> chr ";") a -> split_semi a acc = [rev acc ++ a].
Proof.
  intros Ha. revert acc. induction Ha as [|x a Hx Ha IH]; intros acc; cbn [split_semi].
  - by rewrite app_nil_r.
  - destruct (Z.eqb_spec x (chr ";")); [done|]. rewrite IH. simpl. by rewrite <- app_assoc.
Qed.

(** A plain word: what a user writes as one alternative. *)
Definition plain_word (a : string) : Prop :=
  let b := bytes_of_string a in
  Forall (fun c => is_meta c = false /\ c <> chr ";" /\ c <> 32) b /\ (0 < length b <= 31)%nat.

Lemma prefix_of_alternation a b :
  plain_word a -> extract_literal_prefix (a +:+ "|" +:+ b) = a.
Proof.
  intros [Ha Hl]. unfold extract_literal_prefix.
  assert (forall x y, bytes_of_string (x +:+ y) = bytes_of_string x ++ bytes_of_string y) as Happ.
  { intros x y. induction x as [|c x IH]; simpl; [done|]. by f_equal. }
  rewrite Happ. change (bytes_of_string ("|" +:+ b)) with (124 :: bytes_of_string b).
  rewrite literal_run_stop; [|eapply Forall_impl; [exact Ha|naive_solver]|done|lia].
  destruct (bytes_of_string a) as [|c l _] eqn:E using rev_ind; [simpl in Hl; lia|].
  apply Forall_app in Ha as [_ [(_ & _ & Hc) _]%Forall_cons_1].
  rewrite strip_spaces_id by done. rewrite <- E. apply string_of_bytes_of_string.
Qed.

Lemma region_lacks_word a region :
  plain_word a -> memmem region (bytes_of_string a) = false -> region_has_literal region a = false.
Proof.
  intros [Ha Hl] Hm. unfold region_has_literal. destruct (streq a "") eqn:E.
  { apply streq_spec in E as ->. simpl in Hl. lia. }
  rewrite split_semi_none by (eapply Forall_impl; [exact Ha|naive_solver]). simpl.
  rewrite ztake_all by (unfold zlen; lia). rewrite Hm, andb_false_r. done.
Qed.

(** A custom pattern with an alternation only ever reports its first
    alternative.  The prefilter word of [a|b] is [a], so output that does not
    contain [a] is never given to the regex, whether [b] matches it or not. *)
Theorem anomaly_alternation_missed `{R : RegexLib} name a b sev wok iok sec nsec data ts :
  plain_word a -> (forall x, wok x = true) -> 0 < zlen data < 4096 ->
  memmem data (bytes_of_string a) = false ->
  let '(rc, det) := sm_anomaly_add_pattern true (sm_anomaly_init true) name (a +:+ "|" +:+ b) sev in
  rc = 0 -> fst (sm_anomaly_feed wok iok sec nsec det data ts) = 0%nat.
Proof.
  intros Ha Hok Hl Hm. unfold sm_anomaly_add_pattern. destruct (streq name ""); [done|].
  destruct (sm_regex_compile _) as [re|]; [|done]. simpl. intros _.
  rewrite prefix_of_alternation by done. unfold sm_anomaly_feed.
  destruct (Z.eqb_spec (zlen data) 0); [lia|]. simpl d_window.
  change (an_trim (mk_win [] 4096 0)) with (mk_win [] 4096 0). rewrite an_grow_S. simpl w_cap.
  simpl w_data. zsimpl. destruct (Z.leb_spec 4096 (0 + zlen data)); [lia|].
  assert (an_append data (mk_win [] 4096 0) = mk_win data 4096 0) as ->.
  { unfold an_append. simpl. zsimpl. destruct (Z.ltb_spec (0 + zlen data) 4096); [done|lia]. }
  simpl w_off. change (256 <? 0) with false. cbv iota. cbn [d_patterns scan_patterns].
  unfold pattern_step. cbn [d_window w_data p_last_fire p_literal].
  change (0 <? 0) with false. cbn [andb]. rewrite zdrop_neg by lia.
  rewrite region_lacks_word by done. reflexivity.
Qed.

(** A matcher that finds every pattern everywhere. *)
Definition eager_lib : RegexLib := {|
  pcre2 := true; lib_compiles _ := true; lib_match _ _ := Some 0; lib_time _ _ := 0 |}.

Lemma anomaly_alternation_missed_witness :
  let det := snd (@sm_anomaly_add_pattern eager_lib true (sm_anomaly_init true) "boot"
                    "FAIL|PANIC" None) in
  let data := bytes_of_string "PANIC at 0x1234" in
  fst (@sm_regex_exec eager_lib (mk_re "FAIL|PANIC" false 0 "") data) = Some 0 /\
  fst (@sm_anomaly_feed eager_lib (fun _ => true) true 0 0 det data 7) = 0%nat.
Proof.
  intros det data. split; [reflexivity|].
  apply (@anomaly_alternation_missed eager_lib "boot" "FAIL" "PANIC" None (fun _ => true) true 0 0
           data 7).
  - split; [repeat constructor; vm_compute; congruence|vm_compute; lia].
  - reflexivity.
  - vm_compute. split; reflexivity.
  - vm_compute. reflexivity.
  - vm_compute. reflexivity.
Defined.
