(* ===== verification/McpText.v ===== *)
(** What the MCP servers tell an agent: schemas of the tools, and texts. *)

(** * MCP tool schemas ([src/sinks/mcp_schemas.c], [src/sinks/mcp_results.c])

    The tools the MCP servers list, the schemas of their structured results,
    and a validator for the part of JSON Schema they use. *)
From stdpp Require Import pretty.
From S2P Require Import Prelude Cstr Json Regex Anomaly.

#[local] Open Scope string_scope.
#[local] Open Scope list_scope.
#[local] Open Scope Z_scope.
#[local] Open Scope json_scope.

(** A quotation mark and a newline, for the texts. *)
Definition dq : string := String "034"%char "".
Definition nl : string := String "010"%char "".

Definition string_array (l : list string) : json := JArr (map JStr l).

(** ** Output schemas *)

(** [prop], [prop_nullable_string], [prop_enum] add a property. *)
Definition prop (name type : string) : json -> json :=
  add_item name (JObj [] |> add_string "type" type).
Definition prop_nullable_string (name : string) : json -> json :=
  add_item name (JObj [] |> add_item "type" (string_array ["string"; "null"])).
Definition prop_enum (name : string) (values : list string) : json -> json :=
  add_item name (JObj [] |> add_string "type" "string" |> add_item "enum" (string_array values)).
(** [object_schema] with its properties and [set_required]. *)
Definition object_schema (props : json) : json :=
  JObj [] |> add_string "type" "object" |> add_item "properties" props.
Definition set_required (names : list string) : json -> json := add_item "required" (string_array names).
Definition array_of (name : string) (items : json) : json -> json :=
  add_item name (JObj [] |> add_string "type" "array" |> add_item "items" items).

Definition boot_states : list string :=
  ["unconfigured"; "not started"; "in progress"; "stalled"; "complete"].

Definition client_props : json :=
  JObj [] |> prop "name" "string" |> prop "role" "string" |> prop "pid" "integer".
Definition port_status_props : json :=
  JObj [] |> prop "port" "string" |> prop "baud" "integer" |> prop "connected" "boolean"
    |> prop "suspended" "boolean" |> prop "link_type" "string"
    |> prop_nullable_string "takeover_client" |> prop "identity_strength" "string"
    |> prop "identity_by_id" "string" |> prop "identity_by_path" "string"
    |> prop "link_up_ts" "number" |> prop "last_rx_age_ms" "number"
    |> prop "bytes_rx_since_link_up" "number" |> prop "last_link_event" "string"
    |> prop "pin_states" "object" |> prop "log_path" "string" |> prop "board" "string"
    |> prop "role" "string"
    |> array_of "clients" (object_schema client_props |> set_required ["name"; "role"]).
Definition port_status_schema : json :=
  object_schema port_status_props
  |> set_required ["port"; "baud"; "connected"; "suspended"; "takeover_client"; "clients"].

Definition stage_props : json :=
  JObj [] |> prop "name" "string" |> prop "reached" "boolean" |> prop "timestamp" "number".
Definition boot_status_props : json :=
  JObj [] |> prop "configured" "boolean" |> prop_enum "state" boot_states
    |> prop "reached" "integer" |> prop "total" "integer" |> prop_nullable_string "furthest"
    |> array_of "stages" (object_schema stage_props |> set_required ["name"; "reached"]).
Definition boot_status_schema : json :=
  object_schema boot_status_props
  |> set_required ["configured"; "state"; "reached"; "total"; "furthest"; "stages"].

Definition incident_props : json :=
  JObj [] |> prop "incident_id" "string" |> prop "pattern_name" "string" |> prop "severity" "string"
    |> prop "timestamp" "number" |> prop "match_text" "string" |> prop "pre_context" "string".
Definition incidents_props : json :=
  JObj [] |> prop "count" "integer"
    |> array_of "incidents" (object_schema incident_props
         |> set_required ["pattern_name"; "severity"; "timestamp"; "match_text"; "pre_context"]).
Definition incidents_schema : json :=
  object_schema incidents_props |> set_required ["count"; "incidents"].

Definition port_props : json :=
  JObj [] |> prop "path" "string" |> prop "by_id" "string" |> prop "by_path" "string"
    |> prop "vid" "string" |> prop "pid" "string" |> prop "manufacturer" "string"
    |> prop "product" "string" |> prop_enum "identity" ["STRONG"; "WEAK"; "n/a"].
Definition list_ports_props : json :=
  JObj [] |> array_of "ports" (object_schema port_props |> set_required ["path"; "vid"; "pid"; "identity"]).
Definition list_ports_schema : json := object_schema list_ports_props |> set_required ["ports"].

Definition chunk_props : json :=
  JObj [] |> prop "text" "string" |> prop "timestamp" "number" |> prop "seq_start" "integer".
Definition history_props : json :=
  JObj [] |> prop_enum "mode" ["cursor"; "text"] |> prop "text" "string" |> prop "cursor" "integer"
    |> prop "dropped" "integer" |> prop "has_more" "boolean"
    |> array_of "chunks" (object_schema chunk_props |> set_required ["text"; "timestamp"]).
Definition history_schema : json := object_schema history_props |> set_required ["mode"].

Definition sm_mcp_output_schema (tool : option string) : option json :=
  match tool with
  | None => None
  | Some tool =>
      if streq tool "serial_port_status" then Some port_status_schema
      else if streq tool "serial_boot_status" then Some boot_status_schema
      else if streq tool "serial_get_incidents" then Some incidents_schema
      else if streq tool "serial_list_ports" then Some list_ports_schema
      else if streq tool "serial_output_history" then Some history_schema
      else None
  end.
Definition sm_mcp_tool_has_output_schema (tool : option string) : bool :=
  match sm_mcp_output_schema tool with Some _ => true | None => false end.

(** ** Input schemas *)

Definition schema_object : json := JObj [] |> add_string "type" "object".
Definition schema_add (type name desc : string) : json -> json :=
  add_item name (JObj [] |> add_string "type" type |> add_string "description" desc).
Definition schema_add_string : string -> string -> json -> json := schema_add "string".
Definition schema_add_integer : string -> string -> json -> json := schema_add "integer".
Definition schema_add_number : string -> string -> json -> json := schema_add "number".
Definition schema_add_boolean : string -> string -> json -> json := schema_add "boolean".
Definition no_args : json := schema_object |> add_item "properties" (JObj []).

Definition make_tool_ex (read_only destructive open_world : bool) (name desc : string) (input : json) :
    json :=
  let t := JObj [] |> add_string "name" name |> add_string "description" desc
             |> add_item "inputSchema" input in
  let t := match sm_mcp_output_schema (Some name) with
           | Some s => t |> add_item "outputSchema" s | None => t end in
  t |> add_item "annotations" (JObj [] |> add_bool "readOnlyHint" read_only
         |> add_bool "destructiveHint" destructive |> add_bool "openWorldHint" open_world).
Definition make_tool : string -> string -> json -> json := make_tool_ex false false true.
Definition make_tool_ro : string -> string -> json -> json := make_tool_ex true false false.
Definition make_tool_destr : string -> string -> json -> json := make_tool_ex false true true.

(** ** The tools *)

(** [getenv("SMOLMUX_MCP_MUTATE")]. *)
Definition sm_mcp_mutate_enabled (env : option string) : bool :=
  match env with
  | Some (String c _) =>
      let b := byte_of_ascii c in
      (b =? chr "1") || (b =? chr "y") || (b =? chr "Y") || (b =? chr "t") || (b =? chr "T")
  | _ => false
  end.

Definition mutate_tools : list string :=
  ["serial_send_command"; "serial_write"; "serial_add_autoresponder"; "serial_pin_control";
   "serial_reset"; "serial_sysrq"; "serial_suspend"; "serial_resume"; "serial_add_watchdog"].
Definition sm_mcp_tool_is_mutate (name : string) : bool := existsb (streq name) mutate_tools.

Definition tool_serial_send_command : json :=
  make_tool "serial_send_command"
    ("Send a command line and wait for its response (up to expect_pattern or the profile " +:+
     "prompt). Use for request/response shells; use serial_write for raw bytes with no " +:+
     "wait.")
    (schema_object |> add_item "properties" (JObj []
       |> schema_add_string "command"
         ("The command string to send.")
       |> schema_add_string "expect_pattern"
         ("Regex pattern to match end of response (default: from device profile).")
       |> schema_add_integer "timeout_ms"
         ("Timeout in milliseconds (default: from device profile).")
       |> schema_add_string "eol"
         ("Line ending appended to command: lf (default), cr, or crlf."))
     |> add_item "required" (JArr [JStr "command"])).
Definition tool_serial_read : json :=
  make_tool_ro "serial_read"
    ("Drain the output this MCP session buffered since the last read, without sending. " +:+
     "Quick look after your own command; lossy across turns. Lossless capture: " +:+
     "serial_output_history with since_seq. Waiting for known text: serial_wait_for.")
    no_args.
Definition tool_serial_write : json :=
  make_tool "serial_write"
    ("Write raw data to the serial port without waiting for a response. Use for " +:+
     "keystrokes and binary; use serial_send_command when you need the reply.")
    (schema_object |> add_item "properties" (JObj []
       |> schema_add_string "data"
         ("The string to send (sent as-is)."))
     |> add_item "required" (JArr [JStr "data"])).
Definition tool_serial_port_status : json :=
  make_tool_ro "serial_port_status"
    ("Check the link before sending, or when output looks wrong: port, baud, " +:+
     "connected/suspended, by-id identity strength, pins, who holds write control, and " +:+
     "connected clients. Boot progress: serial_boot_status. Crashes: " +:+
     "serial_get_incidents.")
    no_args.
Definition tool_serial_boot_status : json :=
  make_tool_ro "serial_boot_status"
    ("Report cold-boot progress: which boot stages the device has reached, the furthest " +:+
     "stage, and whether the boot has stalled. Requires the device profile to declare " +:+
     "boot_stages; otherwise reports none. Use after a reset or power cycle; if stalled, " +:+
     "check serial_get_incidents.")
    no_args.
Definition tool_serial_add_autoresponder : json :=
  make_tool "serial_add_autoresponder"
    ("Register a standing expect->send rule: when the device output matches `pattern`, " +:+
     "the broker auto-sends `send` (for boot menus, y/N prompts, unattended login) with " +:+
     "no round-trip. For a single reply now, use serial_send_command or serial_write; to " +:+
     "only watch for a pattern, serial_add_watchdog.")
    (schema_object |> add_item "properties" (JObj []
       |> schema_add_string "name"
         ("Unique name for this rule (re-adding the same name replaces it).")
       |> schema_add_string "pattern"
         ("Regex to match in device output.")
       |> schema_add_string "send"
         ("Bytes to send when it matches; \n \r \t \0 escapes are decoded (e.g. " +:+ dq +:+
          "y\n" +:+ dq +:+ ").")
       |> schema_add_boolean "once"
         ("If true, the rule fires once then disables itself.")
       |> schema_add_integer "cooldown_ms"
         ("Minimum ms between fires on still-visible text (default 1000)."))
     |> add_item "required" (JArr [JStr "name"; JStr "pattern"; JStr "send"])).
Definition tool_serial_pin_control : json :=
  make_tool_destr "serial_pin_control"
    ("Control DTR/RTS or send a break. DTR/RTS often drive reset and boot-mode lines " +:+
     "(ESP32, many dev boards), so a pulse can reset the target. For a Linux SysRq use " +:+
     "serial_sysrq, which sends the break and the key together.")
    (schema_object |> add_item "properties" (JObj []
       |> schema_add_string "pin"
         ("Pin to control: dtr, rts, or break.")
       |> schema_add_string "action"
         ("Action: set, clear, toggle, or pulse for dtr/rts (send aliases pulse: assert " +:+
          "then deassert immediately; duration_ms is for break only). For break: send or " +:+
          "pulse.")
       |> schema_add_integer "duration_ms"
         ("Break duration in ms (default 250)."))
     |> add_item "required" (JArr [JStr "pin"; JStr "action"])).
Definition tool_serial_reset : json :=
  make_tool_destr "serial_reset"
    ("Reset the target through the USB-serial auto-reset circuit: clears the other modem " +:+
     "line, holds the reset line, releases it. Use this instead of serial_pin_control " +:+
     "pulses, which do nothing on ESP32-style boards while DTR is asserted (it is, right " +:+
     "after the broker opens the port). Then check serial_boot_status.")
    (schema_object |> add_item "properties" (JObj []
       |> schema_add_string "pin"
         ("Reset line: rts (default; ESP32 dev kits, most CH340/CP210x auto-reset " +:+
          "circuits) or dtr.")
       |> schema_add_integer "hold_ms"
         ("How long the reset line is held (default 100, max 2000).")
       |> schema_add_string "wait_pattern"
         ("Optional regex for a boot line to wait for after the reset (armed before the " +:+
          "release, so a fast banner is not missed).")
       |> schema_add_integer "timeout_ms"
         ("With wait_pattern: max wait in ms (default 10000)."))).
Definition tool_serial_sysrq : json :=
  make_tool_destr "serial_sysrq"
    ("Send a Linux SysRq command (BREAK + key) to the serial device. Use when a Linux " +:+
     "target hangs: t dumps tasks, w blocked tasks; b reboots at once.")
    (schema_object |> add_item "properties" (JObj []
       |> schema_add_string "key"
         ("Single character SysRq key (e.g. h, b, t).")
       |> schema_add_integer "break_duration_ms"
         ("BREAK signal duration in ms (default 500).")
       |> schema_add_integer "delay_ms"
         ("Delay between BREAK and key in ms (default 100)."))
     |> add_item "required" (JArr [JStr "key"])).
Definition tool_serial_suspend : json :=
  make_tool_destr "serial_suspend"
    ("Close the serial port so an external tool (flasher, esptool, OpenOCD) can open it; " +:+
     "clients stay connected. Call serial_resume afterwards.")
    no_args.
Definition tool_serial_resume : json :=
  make_tool "serial_resume"
    ("Reopen the serial port after serial_suspend, once the external tool has exited.")
    no_args.
Definition tool_serial_wait_for : json :=
  make_tool_ro "serial_wait_for"
    ("Wait for a regex in serial output without sending. Use when you know the text to " +:+
     "expect (a prompt, login:, a log line). Works for observers. Ends early on a " +:+
     "critical anomaly ([ABORTED anomaly:...]). Open-ended listening: serial_monitor. " +:+
     "Output that already arrived: serial_output_history.")
    (schema_object |> add_item "properties" (JObj []
       |> schema_add_string "pattern"
         ("Regex to match in device output (listen-only; no TX).")
       |> schema_add_integer "timeout_ms"
         ("Max wait in ms (default 30000, clamp 100–3600000)."))
     |> add_item "required" (JArr [JStr "pattern"])).
Definition tool_serial_output_history : json :=
  make_tool_ro "serial_output_history"
    ("Read past output from the broker's shared history without consuming it. For " +:+
     "anything you must not miss, page with since_seq (start at 0; pass the returned " +:+
     "cursor back; check dropped and has_more). Without since_seq: text by seconds or " +:+
     "last_bytes. serial_read is drain-only.")
    (schema_object |> add_item "properties" (JObj []
       |> schema_add_number "seconds"
         ("If > 0, return output from the last N seconds (prose).")
       |> schema_add_integer "last_bytes"
         ("If > 0, return the last N bytes of output (prose).")
       |> schema_add_number "since_seq"
         ("Cursor from a prior history response: lossless page as JSON " +:+
          "(cursor/dropped/has_more/chunks). Prefer this over serial_read.")
       |> schema_add_integer "max_bytes"
         ("With since_seq: max raw bytes in this page (default broker cap)."))).
Definition tool_serial_get_incidents : json :=
  make_tool_ro "serial_get_incidents"
    ("List anomalies the broker detected in output (kernel panic, oops, hard fault, " +:+
     "assert, watchdog, brownout, ESP resets, plus profile patterns) with the match and " +:+
     "pre-context. Use when a boot stalls, a wait aborts, or output looks like a crash; " +:+
     "pair with serial_output_history for the surrounding log.")
    (schema_object |> add_item "properties" (JObj []
       |> schema_add_number "seconds"
         ("If > 0, only return incidents from the last N seconds."))).
Definition tool_serial_add_watchdog : json :=
  make_tool "serial_add_watchdog"
    ("Add a custom anomaly detection pattern; matches then appear in " +:+
     "serial_get_incidents and can abort serial_wait_for.")
    (schema_object |> add_item "properties" (JObj []
       |> schema_add_string "name"
         ("Name for this watchdog pattern.")
       |> schema_add_string "pattern"
         ("Regex pattern to match in serial output.")
       |> schema_add_string "severity"
         ("Severity level: critical, warning, or info."))
     |> add_item "required" (JArr [JStr "name"; JStr "pattern"])).
Definition tool_serial_monitor : json :=
  make_tool_ro "serial_monitor"
    ("Listen for a fixed time (default 30 s, max 300 s) and return what the device " +:+
     "printed plus anomalies in that window. Use when you do not know what to expect; " +:+
     "when you do, serial_wait_for returns as soon as it matches.")
    (schema_object |> add_item "properties" (JObj []
       |> schema_add_integer "duration_seconds"
         ("How long to monitor (max 300 seconds, default 30)."))).
Definition tool_serial_generate_report : json :=
  make_tool_ro "serial_generate_report"
    ("Markdown summary of device profile, port status and incidents. Use to open a " +:+
     "debugging session or hand a human a snapshot; for one fact, call the " +:+
     "single-purpose tool.")
    no_args.
Definition tool_serial_list_ports : json :=
  make_tool_ro "serial_list_ports"
    ("List serial ports on this host with by-id paths and USB VID/PID (works without a " +:+
     "broker). Use to pick a port before starting a broker, or when output is garbage " +:+
     "(wrong port). Bridge chips name the adapter, not the MCU.")
    no_args.

(** Each tool, and whether it is listed only when changes are enabled. *)
Definition tools : list (bool * json) :=
  [(true, tool_serial_send_command);
   (false, tool_serial_read);
   (true, tool_serial_write);
   (false, tool_serial_port_status);
   (false, tool_serial_boot_status);
   (true, tool_serial_add_autoresponder);
   (true, tool_serial_pin_control);
   (true, tool_serial_reset);
   (true, tool_serial_sysrq);
   (true, tool_serial_suspend);
   (true, tool_serial_resume);
   (false, tool_serial_wait_for);
   (false, tool_serial_output_history);
   (false, tool_serial_get_incidents);
   (true, tool_serial_add_watchdog);
   (false, tool_serial_monitor);
   (false, tool_serial_generate_report);
   (false, tool_serial_list_ports)].

Definition sm_mcp_build_tools_list (env : option string) : json :=
  let mutate := sm_mcp_mutate_enabled env in
  JArr (map snd (List.filter (fun t => negb (fst t) || mutate) tools)).

(** ** Validation *)

Definition type_ok (type : string) (v : json) : bool :=
  match v with
  | JNull => streq type "null"
  | JBool _ => streq type "boolean"
  | JNum d => streq type "number" || (streq type "integer" && (d mod one_s =? 0))
  | JStr _ => streq type "string"
  | JArr _ => streq type "array"
  | JObj _ => streq type "object"
  end.
Definition types_ok (t v : json) : bool :=
  match t with
  | JStr t => type_ok t v
  | JArr ts => existsb (fun t => match t with JStr t => type_ok t v | _ => false end) ts
  | _ => false
  end.
Definition enum_ok (e v : json) : bool :=
  match e, v with
  | JArr es, JStr s => existsb (fun t => match t with JStr t => streq s t | _ => false end) es
  | _, _ => false
  end.
Definition has_key (l : list (string * json)) (k : string) : bool :=
  match assoc_first k l with Some _ => true | None => false end.
Definition required_ok (r : json) (l : list (string * json)) : bool :=
  match r with
  | JArr ks => forallb (fun k => match k with JStr k => has_key l k | _ => false end) ks
  | _ => false
  end.

(** [opt]: a keyword that is absent constrains nothing. *)
Definition opt (o : option json) (f : json -> bool) : bool :=
  match o with Some s => f s | None => true end.

(** A value against a schema of depth at most [n]. *)
Fixpoint validates (n : nat) (schema v : json) : bool :=
  match n with
  | O => false
  | S n =>
      opt (get_item schema "type") (fun t => types_ok t v) &&
      opt (get_item schema "enum") (fun e => enum_ok e v) &&
      match v with
      | JObj l =>
          opt (get_item schema "required") (fun r => required_ok r l) &&
          opt (get_item schema "properties") (fun ps =>
            forallb (fun m => opt (get_item ps (fst m)) (fun s => validates n s (snd m))) l)
      | JArr l => opt (get_item schema "items") (fun s => forallb (validates n s) l)
      | _ => true
      end
  end.

(** Members that fit the properties, with some keys present. *)
Record obj_ok (n : nat) (props : json) (keys : list string) (o : json) : Prop := {
  oo_members : exists l, o = JObj l /\
    forallb (fun m => opt (get_item props (fst m)) (fun s => validates n s (snd m))) l = true /\
    Forall (fun k => has_key l k = true) keys }.

Section building.
Context (n : nat) (props : json).

Lemma obj_ok_nil : obj_ok n props [] (JObj []).
Proof. constructor. exists []. by split_and!. Qed.

Lemma has_key_snoc l k v k' :
  has_key l k' = true \/ k' = k -> has_key (l ++ [(k, v)]) k' = true.
Proof.
  unfold has_key. rewrite assoc_first_app. intros [H|H].
  - by destruct (assoc_first k' l).
  - destruct (assoc_first k' l); [done|]. simpl. subst. by rewrite streq_refl.
Qed.

(** A member the schema knows. *)
Lemma obj_ok_add keys k v o :
  obj_ok n props keys o -> opt (get_item props k) (fun s => validates n s v) = true ->
  obj_ok n props (k :: keys) (add_item k v o).
Proof.
  intros [(l & -> & Hl & Hk)] Hv. constructor. exists (l ++ [(k, v)]). split_and!; [done| |].
  - rewrite forallb_app, Hl. simpl. by rewrite Hv.
  - constructor; [apply has_key_snoc; by right|]. eapply Forall_impl; [done|].
    intros k' Hk'. apply has_key_snoc. by left.
Qed.
Lemma obj_ok_weaken keys keys' o :
  obj_ok n props keys o -> Forall (fun k => In k keys) keys' -> obj_ok n props keys' o.
Proof.
  intros [(l & -> & Hl & Hk)] Hs. constructor. exists l. split_and!; try done.
  eapply Forall_impl; [done|]. intros k Hin. rewrite List.Forall_forall in Hk. by apply Hk.
Qed.

Lemma obj_ok_validates keys required o :
  obj_ok n props keys o -> Forall (fun k => In k keys) required ->
  validates (S n) (object_schema props |> set_required required) o = true.
Proof.
  intros Ho Hr. apply (obj_ok_weaken _ required) in Ho as [(l & -> & Hl & Hk)]; [|done].
  cbn. rewrite Hl, andb_true_r. clear -Hk. induction Hk as [|k ks Hk _ IH]; simpl; [done|]. by rewrite Hk.
Qed.
End building.

(** * Texts of the MCP servers ([src/mcp_explain.c], [src/mcp_instructions.c])

    Hints for error texts, the recent incidents appended to results, the
    instructions and the prompts. *)

#[local] Open Scope string_scope.
#[local] Open Scope list_scope.
#[local] Open Scope Z_scope.
#[local] Open Scope json_scope.

(** ** Hints *)

(** Case-insensitive search; an empty needle is never found. *)
Fixpoint ci_prefix (needle hay : bytes) : bool :=
  match needle, hay with
  | [], _ => true
  | n :: needle', h :: hay' => (tolower h =? tolower n) && ci_prefix needle' hay'
  | _, [] => false
  end.
Fixpoint ci_search (needle hay : bytes) : bool :=
  match hay with
  | [] => false
  | _ :: hay' => ci_prefix needle hay || ci_search needle hay'
  end.
Definition has_ci (hay needle : string) : bool :=
  negb (streq needle "") && ci_search (bytes_of_string needle) (bytes_of_string hay).

(** The rules in order: the needles and the hint. *)
Definition hint_rules : list (list string * string) :=
  [(["authentication failed"; "rejected this client"; "hello handshake"],
     "The broker is running but refused this client. It was started with --auth-token " +:+
     "(or SMOLMUX_AUTH_TOKEN), so this MCP server needs the same token in its " +:+
     "environment: export SMOLMUX_AUTH_TOKEN=<token> where the MCP server is launched, " +:+
     "then retry. Restarting the broker without a token also works on a trusted host.");
   (["no broker"; "not connected to broker"; "broker socket"; "offline"],
     "Start a broker first: smolmux <device> -b <baud>. List live brokers with " +:+
     "smolmux-monitor -L. This MCP does not auto-spawn brokers.");
   (["suspended"],
     "Port was released for an external tool. Call serial_resume (or wait for the other " +:+
     "client). Use serial_suspend only around flashers; CLI with-port always resumes.");
   (["disconnected"; "link_down"; "not connected"],
     "Link is down (unplug or USB re-enumeration, common after ESP32 native-USB reset). " +:+
     "serial_list_ports; restart broker on the new path if the device node changed.");
   (["not authorized"; "takeover"; "observer"],
     "Another client holds write control. serial_port_status for clients; use takeover " +:+
     "if you must write (controller role).");
   (["invalid regex"; "invalid pattern"],
     "Regex failed to compile. Escape metacharacters (., *, [, etc.) or use a simpler " +:+
     "literal pattern.");
   (["ABORTED"; "anomaly:"],
     "A critical anomaly aborted the wait (crash/panic). serial_get_incidents and " +:+
     "serial_output_history; fix firmware or power — do not treat as a quiet device.");
   (["TIMEOUT"; "timeout"],
     "No match before timeout. Check baud/profile, serial_get_incidents (crash-loop vs " +:+
     "silence), and serial_output_history for what actually printed.");
   (["busy"; "open fail"; "cannot open"; "Permission denied"; "Device or resource busy"],
     "Port open failed or device busy. Another process may hold the TTY; use by-id " +:+
     "paths; suspend smolmux before external tools.");
   (["write failed"; "failed to send"],
     "Write failed. Check suspended/disconnected, takeover, and that the broker still " +:+
     "owns the port.");
   (["failed to reopen"],
     "Resume could not reopen the port (device gone or path wrong). serial_list_ports; " +:+
     "restart broker if the node changed.")].
Definition no_message_hint : string :=
  "Check serial_port_status; start the broker if needed (smolmux <device> -b <baud>).".

Definition sm_mcp_error_hint (message : string) : option string :=
  if streq message "" then Some no_message_hint
  else option_map snd (List.find (fun r => existsb (has_ci message) (fst r)) hint_rules).

Definition sm_mcp_error_with_hint (message : string) : string :=
  let msg := if streq message "" then "[ERROR] unknown error" else message in
  match sm_mcp_error_hint msg with Some h => msg +:+ nl +:+ "Hint: " +:+ h | None => msg end.

Definition sm_mcp_offline_broker_message : string :=
  sm_mcp_error_with_hint "[ERROR] no broker socket — smolmux broker is not running or not reachable".

Definition is_error_text (text : string) : bool := String.prefix "[ERROR]" text.
Definition sm_mcp_maybe_explain_result (text : option string) : string :=
  match text with
  | None => sm_mcp_error_with_hint "[ERROR] unknown error"
  | Some text =>
      if is_error_text text || String.prefix "[TIMEOUT]" text || String.prefix "[ABORTED" text
      then sm_mcp_error_with_hint text else text
  end.

(** ** Recent incidents *)

(** One line: newlines become spaces, at most 79 bytes. *)
Definition snippet (text : string) : string :=
  string_of_bytes (map (fun c => if (c =? 10) || (c =? 13) then 32 else c)
                       (ztake 79 (bytes_of_string text))).
Definition incident_line (inc : sm_anomaly_incident) : string :=
  "- " +:+ in_pattern_name inc +:+ " [" +:+ in_severity inc +:+ "]: " +:+ snippet (in_match_text inc) +:+ nl.

(** [snprintf] into what is left of [need] bytes; the loop stops when fewer
    than nine are left. *)
Fixpoint incident_lines (need off : nat) (incs : list sm_anomaly_incident) : string :=
  match incs with
  | [] => ""
  | inc :: incs' =>
      let line := incident_line inc in
      let off' := (off + String.length line)%nat in
      String.substring 0 (need - off - 1) line +:+
      (if (need <=? off' + 8)%nat then "" else incident_lines need off' incs')
  end.

Definition sm_mcp_append_recent_incidents (text : option string) (incs : list sm_anomaly_incident)
    (max_n : nat) : string :=
  let text := default "(no output)" text in
  let count := length incs in
  if (count =? 0)%nat || (max_n =? 0)%nat then text else
  let start := if (max_n <? count)%nat then (count - max_n)%nat else 0%nat in
  let need := (String.length text + 64 + (count - start) * 200)%nat in
  let head := text +:+ nl +:+ nl +:+ "## Recent incidents" +:+ nl in
  head +:+ incident_lines need (String.length head) (drop start incs).

(** ** Instructions and prompts *)

Definition SM_SERIAL_INSTRUCTIONS_RO : string :=
  "smolmux serial MCP — multiplexed access to a live device console held open by a " +:+
  "smolmux broker. Prefer these tools over pasting serial traffic by hand." +:+ nl +:+ nl +:+
  "Recommended workflow:" +:+ nl +:+
  "1. serial_port_status and serial_boot_status before sending traffic." +:+ nl +:+
  "2. serial_wait_for for listen-only regex (no TX); serial_monitor for a timed listen " +:+
  "window; serial_output_history with since_seq for lossless pages " +:+
  "(cursor/dropped/has_more). serial_read only drains the session buffer — not lossless " +:+
  "across turns." +:+ nl +:+
  "3. Crashes: serial_get_incidents plus history. wait_for may return [ABORTED " +:+
  "anomaly:…] on critical panics — not silence." +:+ nl +:+
  "4. Multi-client: observers can wait and read. Controllers write only when write tools " +:+
  "are listed." +:+ nl +:+
  "5. Baud must match firmware and the broker profile; garbage text is often the wrong " +:+
  "baud or the wrong port (list_ports, by-id paths)." +:+ nl +:+
  "6. Write tools (serial_write, serial_send_command, pins, reset, SysRq, suspend, " +:+
  "autoresponder add) are listed only when SMOLMUX_MCP_MUTATE=1. Default tools/list is " +:+
  "read-only." +:+ nl.
Definition SM_SERIAL_INSTRUCTIONS_RW : string :=
  "smolmux serial MCP — multiplexed access to a live device console held open by a " +:+
  "smolmux broker. Prefer these tools over pasting serial traffic by hand." +:+ nl +:+ nl +:+
  "Recommended workflow:" +:+ nl +:+
  "1. serial_port_status and serial_boot_status before thrashing writes." +:+ nl +:+
  "2. serial_send_command for interactive shells (command + expect); serial_write for " +:+
  "raw; serial_wait_for for listen-only regex (no TX); serial_monitor for a timed listen " +:+
  "window." +:+ nl +:+ "3. Lossless capture: serial_output_history with since_seq (JSON page: " +:+
  "cursor/dropped/has_more). Pass cursor back as since_seq. serial_read only drains the " +:+
  "session buffer — not lossless across turns." +:+ nl +:+
  "4. Crashes: serial_get_incidents plus history. wait_for/send_command may return " +:+
  "[ABORTED anomaly:…] on critical panics — not silence." +:+ nl +:+
  "5. Flash coexistence: serial_suspend, then flasher (or CLI with-port), then " +:+
  "serial_resume. Do not fight TIOCEXCL on the port." +:+ nl +:+
  "6. Multi-client: another controller may hold write rights; if writes fail, check " +:+
  "status / takeover." +:+ nl +:+
  "7. Baud must match firmware and the broker profile; garbage text is often the wrong " +:+
  "baud or the wrong port (list_ports, by-id paths)." +:+ nl +:+
  "8. Write tools are listed because SMOLMUX_MCP_MUTATE=1 is set." +:+ nl.

Definition sm_mcp_serial_instructions (env : option string) : string :=
  if sm_mcp_mutate_enabled env then SM_SERIAL_INSTRUCTIONS_RW else SM_SERIAL_INSTRUCTIONS_RO.

Definition PROMPT_NAMES : list string := ["bringup"; "debug_serial"; "flash_safe"].

Definition prompt_arg (name desc : string) (required : bool) : json :=
  JObj [] |> add_string "name" name |> add_string "description" desc |> add_bool "required" required.
Definition prompt_entry (name desc : string) (args : list json) : json :=
  JObj [] |> add_string "name" name |> add_string "description" desc |> add_item "arguments" (JArr args).

Definition sm_mcp_serial_prompts_list_result : json :=
  JObj [] |> add_item "prompts" (JArr
    [prompt_entry "bringup"
       ("Bring up a board on the smolmux serial broker: status, boot stages, and proof of " +:+ "life.")
       [prompt_arg "port" "Hint only (broker already owns a port); omit to use status." false];
     prompt_entry "debug_serial" "Capture serial output and diagnose crashes, stalls, or noise."
       [prompt_arg "seconds" "How long to monitor if needed (default 30)." false];
     prompt_entry "flash_safe" "Release the port for an external flasher, then resume and verify boot."
       []]).

Definition given (s : option string) : option string :=
  match s with Some "" => None | _ => s end.

Definition build_bringup (port_hint : option string) : string :=
  let hint := match given port_hint with Some p => " (user port hint: " +:+ p +:+ ")" | None => "" end in
  "Bring up the device on the smolmux serial broker" +:+ hint +:+ " end to end:" +:+ nl +:+ nl +:+
  "1. serial_port_status — confirm the link is up, baud, clients, and whether the port " +:+
  "is suspended." +:+ nl +:+
  "2. serial_list_ports only if you need to choose another device for a new broker; this " +:+
  "MCP talks to the already-running broker." +:+ nl +:+
  "3. serial_boot_status — report furthest boot stage / stall if the device profile " +:+
  "declares boot_stages." +:+ nl +:+
  "4. If the board needs a hard reset: serial_reset (clears the other modem line, holds " +:+
  "rts or dtr; pass wait_pattern for the boot line), then re-check serial_boot_status " +:+
  "and serial_output_history." +:+ nl +:+
  "5. Proof of life: serial_monitor briefly, or serial_read after history, looking for a " +:+
  "banner, prompt, or heartbeat line. If silent, serial_get_incidents — a crash-loop is " +:+
  "not quiet." +:+ nl +:+ "6. Report: port, baud, boot furthest stage, and the proof line." +:+
  nl.

Definition build_debug_serial (seconds : option string) : string :=
  let sec := default "30" (given seconds) in
  "Diagnose what the device is doing on serial:" +:+ nl +:+ nl +:+
  "1. serial_port_status — connected? suspended? baud?" +:+ nl +:+
  "2. serial_output_history with since_seq=0 (or omit for prose tail) — non-destructive; " +:+
  "keep cursor for lossless paging." +:+ nl +:+
  "3. serial_get_incidents — anomalies/crashes the broker already detected (Guru " +:+
  "Meditation, brownout, kernel panic, etc.)." +:+ nl +:+
  "4. For a specific line: serial_wait_for pattern=... (listen-only). Critical anomalies " +:+
  "abort early with [ABORTED anomaly:…]." +:+ nl +:+
  "5. Timed window: serial_monitor duration_seconds=" +:+ sec +:+ ". Interactive: " +:+
  "serial_send_command; raw: serial_write. Avoid serial_read alone for capture (it " +:+
  "drains)." +:+ nl +:+
  "6. Report: last meaningful output, any incidents with severity, and a concrete next " +:+
  "step (wrong baud, crash-loop, boot stall, or healthy idle)." +:+ nl.

Definition build_flash_safe : string :=
  "Flash or run an external tool that needs exclusive access to the same serial port the " +:+
  "broker holds:" +:+ nl +:+ nl +:+
  "1. serial_port_status — confirm you can control the session (not observer-only)." +:+ nl +:+
  "2. serial_suspend — broker closes the port (TIOCEXCL released) so " +:+
  "esptool/OpenOCD/avrdude/etc. can open it." +:+ nl +:+
  "3. Run the external flasher/tool (user or shell). Prefer CLI smolmux-cli with-port " +:+
  "<cmd> when available: it always resumes." +:+ nl +:+
  "4. serial_resume — broker reopens the port." +:+ nl +:+
  "5. serial_boot_status and serial_output_history (or a short serial_monitor) to prove " +:+
  "the new firmware is alive." +:+ nl +:+
  "6. If resume fails or the port vanished (USB re-enum): recheck serial_list_ports and " +:+
  "restart the broker on the new path if needed." +:+ nl +:+
  "Never leave the port suspended after a failed flash without saying so." +:+ nl.

(** The text and the description. *)
Definition sm_mcp_serial_prompt_get (name : string) (args : option json) : option (string * string) :=
  let port := args ≫= fun a => sm_json_get_string a "port" in
  let seconds := args ≫= fun a =>
    match sm_json_get_string a "seconds", get_item a "seconds" with
    | Some s, _ => Some s
    | None, Some (JNum d) => Some (snprintf_s 32 (pretty (Z.quot d one_s)))
    | None, _ => None
    end in
  if streq name "bringup" then
    Some (build_bringup port, "Bring up a board via smolmux serial tools")
  else if streq name "debug_serial" then
    Some (build_debug_serial seconds, "Diagnose serial output and crashes")
  else if streq name "flash_safe" then
    Some (build_flash_safe, "Suspend for flash, resume, verify boot")
  else None.

(** ** Facts *)

Lemma str_length_app s t : String.length (s +:+ t) = (String.length s + String.length t)%nat.
Proof. induction s as [|a s IH]; [done|]. change (S (String.length (s +:+ t)) = S (String.length s + String.length t)). by rewrite IH. Qed.

Lemma str_app_assoc (s t u : string) : s +:+ (t +:+ u) = (s +:+ t) +:+ u.
Proof. induction s as [|a s IH]; [done|]. change (String a (s +:+ (t +:+ u)) = String a ((s +:+ t) +:+ u)). by rewrite IH. Qed.

Lemma string_of_bytes_length l : String.length (string_of_bytes l) = length l.
Proof. induction l; simpl; congruence. Qed.

Lemma snippet_length t : (String.length (snippet t) <= 79)%nat.
Proof.
  unfold snippet. rewrite string_of_bytes_length, length_map. unfold ztake. rewrite length_take.
  change (Z.to_nat 79) with 79%nat. lia.
Qed.

Lemma substring_all n s : (String.length s <= n)%nat -> String.substring 0 n s = s.
Proof.
  revert n. induction s as [|a s IH]; intros [|n] Hn; simpl in *; try done; [lia|]. by rewrite IH by lia.
Qed.

(** The names and severities the detector stores fit, so no line is cut. *)
Definition fields_fit (inc : sm_anomaly_incident) : Prop :=
  (String.length (in_pattern_name inc) < 64)%nat /\ (String.length (in_severity inc) < 16)%nat.

Lemma incident_lines_all need off incs :
  Forall fields_fit incs -> (off + 200 * length incs + 9 <= need)%nat ->
  incident_lines need off incs = foldr String.append "" (map incident_line incs).
Proof.
  intros H. revert off. induction H as [|inc incs [H1 H2] _ IH]; intros off Hn; cbn [incident_lines map foldr]; [done|].
  assert (String.length (incident_line inc) <= 170)%nat as Hl.
  { unfold incident_line. rewrite !str_length_app. pose proof (snippet_length (in_match_text inc)). simpl. lia. }
  cbn [length] in Hn. rewrite substring_all by lia. f_equal.
  destruct (Nat.leb_spec need (off + String.length (incident_line inc) + 8)); [lia|]. apply IH. lia.
Qed.

Lemma recent_incidents_complete text incs :
  Forall fields_fit incs -> incs <> [] ->
  sm_mcp_append_recent_incidents text incs 5 =
  default "(no output)" text +:+ nl +:+ nl +:+ "## Recent incidents" +:+ nl +:+
  foldr String.append "" (map incident_line (drop (length incs - 5) incs)).
Proof.
  intros H Hne. unfold sm_mcp_append_recent_incidents. cbv zeta.
  destruct (Nat.eqb_spec (length incs) 0) as [E|_]; [by destruct incs|]. cbn [orb Nat.eqb].
  assert ((if (5 <? length incs)%nat then (length incs - 5)%nat else 0%nat) = (length incs - 5)%nat) as ->.
  { destruct (Nat.ltb_spec 5 (length incs)); lia. }
  rewrite incident_lines_all.
  - by rewrite <- !str_app_assoc.
  - apply Forall_drop, H.
  - rewrite !str_length_app, length_drop. simpl. lia.
Qed.
