(* ===== verification/Effects.v ===== *)
(** How effects are modelled: non-blocking descriptors, state passing, and a
    heap whose allocations may fail. *)

(** * Non-blocking descriptors

    What a [write] on a non-blocking descriptor can do, as a value the
    environment chooses.  A run is driven by the list of these outcomes: the
    code performs one system call per element, and a descriptor whose list is
    used up would block. *)
From stdpp Require Import gmap.
From S2P Require Import Prelude.

Inductive wres := WBytes (n : Z) | WAgain | WErr.

(** [write(fd, data, len)]: the number of bytes taken (at most [len]), or an
    error that [EAGAIN] is told apart from. *)
Definition sys_write (data : bytes) (env : list wres) : wres * list wres :=
  match env with
  | [] => (WAgain, [])
  | WBytes n :: env' => (WBytes (Z.max 0 (Z.min n (zlen data))), env')
  | r :: env' => (r, env')
  end.

Inductive rres := RBytes (b : bytes) | RAgain | REof | RErr.

(** [read(fd, buf, n)]: at most [n] bytes; no byte means end of file. *)
Definition sys_read (n : Z) (r : rres) : rres :=
  match r with
  | RBytes b => match ztake n b with [] => REof | b' => RBytes b' end
  | _ => r
  end.

Lemma sys_write_cases data env r env' :
  sys_write data env = (r, env') ->
  match r with WBytes n => 0 <= n <= zlen data | _ => True end /\
  (env' = tl env) /\ (r = WAgain \/ r = WErr \/ env <> []).
Proof.
  unfold sys_write. destruct env as [|[n| |] env]; intros [= <- <-]; simpl;
    split_and!; try done; auto; zlia.
Qed.

(** * State passing

    The state monad the stand-alone servers are written in, and programs that
    move the state along a preorder. *)

Definition ST (S A : Type) : Type := S -> S * A.
#[export] Instance ST_ret {S} : MRet (ST S) := fun A x s => (s, x).
#[export] Instance ST_bind {S} : MBind (ST S) := fun A B k m s => let '(s', x) := m s in k x s'.

Section state.
Context {S : Type}.
Definition sget {A} (f : S -> A) : ST S A := fun s => (s, f s).
Definition smod (f : S -> S) : ST S unit := fun s => (f s, tt).
Definition swhen (b : bool) (m : ST S unit) : ST S unit := if b then m else mret tt.

Definition srun {A} (p : ST S A) (s : S) : S := fst (p s).
Definition sresult {A} (p : ST S A) (s : S) : A := snd (p s).

Lemma srun_bind {A B} (p : ST S A) (k : A -> ST S B) s : srun (p ≫= k) s = srun (k (sresult p s)) (srun p s).
Proof. unfold srun, sresult, mbind, ST_bind. by destruct (p s). Qed.
Lemma sresult_bind {A B} (p : ST S A) (k : A -> ST S B) s :
  sresult (p ≫= k) s = sresult (k (sresult p s)) (srun p s).
Proof. unfold srun, sresult, mbind, ST_bind. by destruct (p s). Qed.

(** [p] moves the state along [R]. *)
Definition moves {A} (R : relation S) (p : ST S A) : Prop := forall s, R s (srun p s).

Context (R : relation S) `{!PreOrder R}.
Lemma moves_ret {A} (x : A) : moves R (mret x).
Proof. intros s. by apply (reflexivity (R := R)). Qed.
Lemma moves_seq {A B} (p : ST S A) (k : A -> ST S B) : moves R p -> (forall x, moves R (k x)) -> moves R (p ≫= k).
Proof. intros Hp Hk s. rewrite srun_bind. etrans; [apply Hp|apply Hk]. Qed.
Lemma moves_get {A} (f : S -> A) : moves R (sget f).
Proof. intros s. by apply (reflexivity (R := R)). Qed.
Lemma moves_mod f : (forall s, R s (f s)) -> moves R (smod f).
Proof. intros H s. apply H. Qed.
End state.

(** A view of the state that stays as it is. *)
Definition same {S T} (V : S -> T) (s s' : S) : Prop := V s' = V s.
#[export] Instance same_preorder {S T} (V : S -> T) : PreOrder (same V).
Proof. split; [done|]. intros x y z H1 H2. unfold same in *. congruence. Qed.

(** * The C heap

    Programs that follow pointers: a heap of allocated objects, [malloc],
    [free] and accesses through pointers.  An access to an object that is not
    allocated, and freeing it, is undefined behaviour, which is the result
    [None]. *)

Abbreviation loc := Z (only parsing).
Definition NULL : loc := 0.

(** [malloc] picks any address that is not in use, or NULL; which one may
    depend on the heap and on how often it was called. *)
Class Malloc (cell : Type) := {
  malloc_at : gmap loc cell -> nat -> loc;
  malloc_unused h n : malloc_at h n <> NULL -> h !! malloc_at h n = None }.

Record cstate (cell : Type) := mk_cs { cs_heap : gmap loc cell; cs_calls : nat }.
Arguments mk_cs {cell} _ _.
Arguments cs_heap {cell} _.
Arguments cs_calls {cell} _.

Definition C (cell A : Type) : Type := cstate cell -> option (A * cstate cell).
#[export] Instance C_ret {cell} : MRet (C cell) := fun A x s => Some (x, s).
#[export] Instance C_bind {cell} : MBind (C cell) := fun A B k m s =>
  match m s with Some (x, s') => k x s' | None => None end.

Section heap_ops.
Context {cell : Type} `{M : !Malloc cell}.

Definition undefined {A} : C cell A := fun _ => None.

Definition load (l : loc) : C cell cell := fun s =>
  match cs_heap s !! l with Some c => Some (c, s) | None => None end.

Definition store (l : loc) (c : cell) : C cell unit := fun s =>
  match cs_heap s !! l with
  | Some _ => Some (tt, mk_cs (<[l := c]> (cs_heap s)) (cs_calls s))
  | None => None
  end.

(** An object allocated and filled. *)
Definition malloc (c : cell) : C cell loc := fun s =>
  let l := malloc_at (cs_heap s) (cs_calls s) in
  Some (l, mk_cs (if l =? NULL then cs_heap s else <[l := c]> (cs_heap s)) (S (cs_calls s))).

(** [free(NULL)] does nothing. *)
Definition free (l : loc) : C cell unit := fun s =>
  if l =? NULL then Some (tt, s) else
  match cs_heap s !! l with
  | Some _ => Some (tt, mk_cs (delete l (cs_heap s)) (cs_calls s))
  | None => None
  end.

(** A loop along the pointers of the heap, with two steps for each object there
    is: it takes more only if it goes round in circles. *)
Definition walk {A} (loop : nat -> C cell A) : C cell A := fun s =>
  loop (2 * size (cs_heap s) + 2)%nat s.

(** Whether [malloc] ever fails. *)
Definition may_fail : Prop := exists h n, malloc_at h n = NULL.
End heap_ops.

Arguments C : simpl never.
#[global] Opaque C.
