(* ===== verification/Ws.v ===== *)
(** * The WebSocket sink ([src/sinks/ws.c])

    Frames, the handshake, and the two byte streams of a client: frames from
    the browser become lines for the broker, lines of the broker become frames.
    Whether a [write_all] succeeds is the class [WsEnv]; threads, the poll set
    and the listening socket are left out. *)
From S2P Require Import Prelude Cstr Arrays Codecs Effects.

#[local] Open Scope string_scope.
#[local] Open Scope list_scope.
#[local] Open Scope Z_scope.

Definition SM_WS_READ_BUF_SIZE : Z := 8192.
Definition SM_WS_MAX_CLIENTS : nat := 16.
Definition WS_GUID : string := "258EAFA5-E914-47DA-95CA-5AB5443F11F3".
Definition WS_OP_CONT : Z := 0.
Definition WS_OP_TEXT : Z := 1.
Definition WS_OP_CLOSE : Z := 8.
Definition WS_OP_PING : Z := 9.
Definition WS_OP_PONG : Z := 10.

(** ** Framing *)

(** The results 0 and -1, or the opcode, the payload and the bytes consumed. *)
Inductive ws_decoded := WsIncomplete | WsError | WsFrame (opcode : Z) (payload : bytes) (total : Z).

(** [p[i] ^= mask[i & 3]]. *)
Fixpoint unmask (i : Z) (mask p : bytes) : bytes :=
  match p with [] => [] | x :: p' => Z.lxor x (zat mask (Z.land i 3)) :: unmask (i + 1) mask p' end.

Definition be_value (l : bytes) : Z := fold_left (fun n b => u64 (Z.lor (Z.shiftl n 8) b)) l 0.

(** The extended length: the payload length and the header's size. *)
Definition ws_length (buf : bytes) : option (Z * Z) :=
  let plen := Z.land (zat buf 1) 127 in
  if plen =? 126 then
    if zlen buf <? 4 then None else Some (Z.lor (Z.shiftl (zat buf 2) 8) (zat buf 3), 4)
  else if plen =? 127 then
    if zlen buf <? 10 then None else Some (be_value (ztake 8 (zdrop 2 buf)), 10)
  else Some (plen, 2).

Definition ws_decode_frame (buf : bytes) : ws_decoded :=
  if zlen buf <? 2 then WsIncomplete else
  let opcode := Z.land (zat buf 0) 15 in
  let masked := Z.land (Z.shiftr (zat buf 1) 7) 1 in
  if masked =? 0 then WsError else
  if opcode =? WS_OP_CONT then WsError else
  match ws_length buf with
  | None => WsIncomplete
  | Some (plen, hdr) =>
      if SM_WS_READ_BUF_SIZE <? plen then WsError else
      let total := hdr + 4 + plen in
      if SM_WS_READ_BUF_SIZE <? total then WsError else
      if zlen buf <? total then WsIncomplete else
      WsFrame opcode (unmask 0 (ztake 4 (zdrop hdr buf)) (ztake plen (zdrop (hdr + 4) buf))) total
  end.

(** The frame, or nothing when it does not fit [out_cap]. *)
Definition ws_encode_frame (out_cap opcode : Z) (data : bytes) : bytes :=
  let len := zlen data in
  let hdr := if len <? 126 then 2 else if len <? 65536 then 4 else 10 in
  if (out_cap <? len) || (out_cap - len <? hdr) then [] else
  u8 (Z.lor 128 (Z.land opcode 15)) ::
  (if len <? 126 then [u8 len]
   else if len <? 65536 then 126 :: be_bytes 2 len
   else 127 :: be_bytes 8 len) ++ data.

(** ** Handshake *)

(** [strstr] from [l], with the character in front of what is left ([None]: the
    start of the request).  A name in the middle of a line, or without its
    colon, is skipped. *)
Fixpoint find_header_from (fuel : nat) (name : bytes) (prev : option Z) (l : bytes) : option bytes :=
  match fuel with
  | O => None
  | S fuel =>
      match strstr_from name l with
      | None => None
      | Some s =>
          let before := take (length l - length s) l in
          let before_char := match last before with Some c => Some c | None => prev end in
          let rest := drop (length name) s in
          let again := find_header_from fuel name (last name) rest in
          match before_char with
          | Some c => if negb (c =? 10) then again else
                      match rest with
                      | 58 :: v => Some (skip_while (fun c => c =? 32) v) | _ => again end
          | None => match rest with
                    | 58 :: v => Some (skip_while (fun c => c =? 32) v) | _ => again end
          end
      end
  end.
Definition CRLF : bytes := [13; 10].
(** The value up to the end of its line. *)
Definition header_value (v : bytes) : bytes :=
  match strstr_from CRLF v with Some s => take (length v - length s) v | None => v end.
Definition find_header (buf : bytes) (name : string) : option bytes :=
  option_map header_value (find_header_from (S (length buf)) (bytes_of_string name) None buf).

(** [strncasecmp(v, s, strlen(s)) == 0]. *)
Definition starts_with_nocase (s : string) (v : bytes) : bool :=
  starts_with (map tolower (bytes_of_string s)) (map tolower v).
Fixpoint contains_nocase (s : string) (v : bytes) : bool :=
  match v with
  | [] => false
  | _ :: v' => starts_with_nocase s v || contains_nocase s v'
  end.

Definition local_origin (host : string) (origin : bytes) : bool :=
  let h := bytes_of_string host in
  starts_with h origin &&
  match drop (length h) origin with [] => true | c :: _ => (c =? chr "/") || (c =? chr ":") end.
Definition origin_allowed (origin : bytes) : bool :=
  local_origin "http://localhost" origin || local_origin "http://127.0.0.1" origin ||
  local_origin "http://[::1]" origin.

Definition ws_accept (key : bytes) : bytes := sm_base64_encode (sm_sha1 (key ++ bytes_of_string WS_GUID)).

Definition ws_response (key : bytes) : bytes :=
  bytes_of_string "HTTP/1.1 101 Switching Protocols" ++ CRLF ++
  bytes_of_string "Upgrade: websocket" ++ CRLF ++ bytes_of_string "Connection: Upgrade" ++ CRLF ++
  bytes_of_string "Sec-WebSocket-Accept: " ++ ws_accept key ++ CRLF ++ CRLF.

(** The answer to a complete request. *)
Definition ws_answer (req : bytes) : option bytes :=
  if negb (starts_with (bytes_of_string "GET ") req) then None else
  match find_header req "Upgrade", find_header req "Connection" with
  | Some upgrade, Some conn =>
      if (zlen upgrade <? 9) || negb (starts_with_nocase "websocket" upgrade) then None else
      if negb (contains_nocase "Upgrade" conn) then None else
      if match find_header req "Origin" with Some o => negb (origin_allowed o) | None => false end
      then None else
      match find_header req "Sec-WebSocket-Key" with
      | Some key => if (zlen key <? 16) || (128 <? zlen key) then None else Some (ws_response key)
      | None => None
      end
  | _, _ => None
  end.

(** A turn of the read loop: no data within 100 ms, or a read. *)
Inductive hs_poll := HsTimeout | HsRead (r : rres).
(** [HsUndefined]: a buffer that was never written is searched. *)
Inductive hs_outcome := HsUndefined | HsFail | HsDone (response : bytes).

Definition HEADER_END : bytes := [13; 10; 13; 10].
Definition complete (buf : bytes) : bool :=
  match strstr_from HEADER_END (cstr buf) with Some _ => true | None => false end.

(** [None]: a failed read; the buffer is [None] until something was read. *)
Fixpoint hs_read (n : nat) (buf : option bytes) (env : list hs_poll) : option (option bytes) :=
  match n, env with
  | O, _ | _, [] => Some buf
  | S n, HsTimeout :: env' => hs_read n buf env'
  | S n, HsRead r :: env' =>
      let total := zlen (default [] buf) in
      match sys_read (4096 - total - 1) r with
      | RBytes b =>
          let buf' := default [] buf ++ b in
          if complete buf' then Some (Some buf') else hs_read n (Some buf') env'
      | _ => None
      end
  end.

Definition ws_handshake (env : list hs_poll) (write_ok : bool) : hs_outcome :=
  match hs_read 50 None env with
  | None => HsFail
  | Some None => HsUndefined
  | Some (Some buf) =>
      if negb (complete buf) then HsFail else
      match ws_answer (cstr buf) with
      | None => HsFail
      | Some resp => if write_ok then HsDone resp else HsFail
      end
  end.

(** ** Clients *)

Class WsEnv := ws_write_ok : nat -> bool.

(** The buffers, and what was written to the browser and to the broker. *)
Record sm_ws_client := mk_wsc {
  wc_buf : bytes; wc_br_buf : bytes; wc_to_ws : bytes; wc_to_bridge : bytes; wc_writes : nat }.
Definition ws_client_new : sm_ws_client := mk_wsc [] [] [] [] 0.

Section clients.
Context {W : WsEnv}.

Definition write_all_ws (data : bytes) (c : sm_ws_client) : bool * sm_ws_client :=
  let ok := ws_write_ok (wc_writes c) in
  (ok, {| c with wc_writes := S (wc_writes c);
                 wc_to_ws := if ok then wc_to_ws c ++ data else wc_to_ws c |}).
Definition write_line (data : bytes) (c : sm_ws_client) : bool * sm_ws_client :=
  if SM_WS_READ_BUF_SIZE + 1 <? zlen data + 1 then (false, c) else
  let ok := ws_write_ok (wc_writes c) in
  (ok, {| c with wc_writes := S (wc_writes c);
                 wc_to_bridge := if ok then wc_to_bridge c ++ data ++ [10] else wc_to_bridge c |}).

(** What is done with a frame: [false] removes the client. *)
Definition ws_handle_frame (op : Z) (payload : bytes) (c : sm_ws_client) : bool * sm_ws_client :=
  if op =? WS_OP_TEXT then write_line payload c
  else if op =? WS_OP_PING then
    match ws_encode_frame SM_WS_READ_BUF_SIZE WS_OP_PONG payload with
    | [] => (true, c)
    | frame => (true, snd (write_all_ws frame c))
    end
  else (negb (op =? WS_OP_CLOSE), c).

(** The frames at the front of the buffer: what is left of it, and whether the
    client is kept. *)
Fixpoint ws_frames (fuel : nat) (buf : bytes) (c : sm_ws_client) : bytes * bool * sm_ws_client :=
  match fuel, buf with
  | _, [] => (buf, true, c)
  | O, _ => (buf, true, c)
  | S fuel, _ =>
      match ws_decode_frame buf with
      | WsIncomplete => (buf, true, c)
      | WsError =>
          (buf, false, snd (write_all_ws (ws_encode_frame 128 WS_OP_CLOSE [3; 241]) c))
      | WsFrame op payload total =>
          let '(ok, c) := ws_handle_frame op payload c in
          if ok : bool then ws_frames fuel (zdrop total buf) c else (buf, false, c)
      end
  end.

(** [ws_fd] is readable. *)
Definition ws_fd_readable (r : rres) (c : sm_ws_client) : bool * sm_ws_client :=
  let space := SM_WS_READ_BUF_SIZE - zlen (wc_buf c) in
  if space =? 0 then (false, c) else
  match sys_read space r with
  | RBytes b =>
      let buf := wc_buf c ++ b in
      let '(rest, keep, c) := ws_frames (length buf) buf c in
      (keep, {| c with wc_buf := rest |})
  | _ => (false, c)
  end.

(** The lines at the front of the bridge buffer. *)
Fixpoint ws_lines (fuel : nat) (buf : bytes) (c : sm_ws_client) : bytes * bool * sm_ws_client :=
  match fuel with
  | O => (buf, true, c)
  | S fuel =>
      match split_at_char 10 buf with
      | None => (buf, true, c)
      | Some (line, rest) =>
          match ws_encode_frame (SM_WS_READ_BUF_SIZE + 14) WS_OP_TEXT line with
          | [] => ws_lines fuel rest c
          | frame =>
              let '(ok, c) := write_all_ws frame c in
              if ok : bool then ws_lines fuel rest c else (buf, false, c)
          end
      end
  end.

(** [bridge_fd] is readable. *)
Definition bridge_fd_readable (r : rres) (c : sm_ws_client) : bool * sm_ws_client :=
  let space := SM_WS_READ_BUF_SIZE - zlen (wc_br_buf c) in
  if space =? 0 then (true, {| c with wc_br_buf := [] |}) else
  match sys_read space r with
  | RBytes b =>
      let buf := wc_br_buf c ++ b in
      let '(rest, keep, c) := ws_lines (length buf) buf c in
      if negb keep then (false, c) else
      (true, {| c with wc_br_buf := if SM_WS_READ_BUF_SIZE <=? zlen rest then [] else rest |})
  | _ => (false, c)
  end.

(** One descriptor in the poll set: nothing, a read, or a hang-up. *)
Inductive ws_event := WevNone | WevRead (r : rres) | WevHup.

(** A client's turn: [false] removes it. *)
Definition ws_client_turn (ws_ev br_ev : ws_event) (c : sm_ws_client) : bool * sm_ws_client :=
  let '(keep, c) := match ws_ev with
                    | WevNone => (true, c) | WevRead r => ws_fd_readable r c | WevHup => (false, c) end in
  if negb keep then (false, c) else
  match br_ev with
  | WevNone => (true, c) | WevRead r => bridge_fd_readable r c | WevHup => (false, c) end.

(** The pass over the clients that were polled; a removal ends it. *)
Fixpoint ws_pass (i : nat) (evs : list (ws_event * ws_event)) (cs : list sm_ws_client) :
    list sm_ws_client :=
  match evs with
  | [] => cs
  | (e1, e2) :: evs' =>
      match cs !! i with
      | None => cs
      | Some c =>
          let '(keep, c') := ws_client_turn e1 e2 c in
          let cs' := <[i := c']> cs in
          if keep : bool then ws_pass (S i) evs' cs' else swap_remove i cs'
      end
  end.

Definition ws_accept_client (hs : hs_outcome) (pair_ok : bool) (cs : list sm_ws_client) :
    list sm_ws_client :=
  if (SM_WS_MAX_CLIENTS <=? length cs)%nat then cs else
  match hs with
  | HsDone _ => if pair_ok then cs ++ [ws_client_new] else cs
  | _ => cs
  end.

Definition ws_turn (listen : option (hs_outcome * bool)) (evs : list (ws_event * ws_event))
    (cs : list sm_ws_client) : list sm_ws_client :=
  let n := length cs in
  let cs := match listen with Some (hs, ok) => ws_accept_client hs ok cs | None => cs end in
  ws_pass 0 (take n evs) cs.
End clients.

(** ** Frames of a browser *)

(** A masked frame whose first byte is [b0]. *)
Definition client_frame (b0 : Z) (mask payload : bytes) : bytes :=
  b0 :: (if zlen payload <? 126 then [128 + zlen payload] else 254 :: be_bytes 2 (zlen payload)) ++
  mask ++ unmask 0 mask payload.
Definition frame_hdr (payload : bytes) : Z := if zlen payload <? 126 then 2 else 4.
(** A frame that can be received. *)
Record frame_ok (b0 : Z) (mask payload : bytes) : Prop := {
  fo_op : Z.land b0 15 <> WS_OP_CONT;
  fo_mask : zlen mask = 4;
  fo_fits : frame_hdr payload + 4 + zlen payload <= SM_WS_READ_BUF_SIZE }.

Lemma unmask_involutive i mask p : unmask i mask (unmask i mask p) = p.
Proof.
  revert i. induction p as [|x p IH]; intros i; simpl; [done|].
  by rewrite IH, Z.lxor_assoc, Z.lxor_nilpotent, Z.lxor_0_r.
Qed.
Lemma zlen_unmask i mask p : zlen (unmask i mask p) = zlen p.
Proof. revert i. induction p as [|x p IH]; intros i; simpl; [done|]. zsimpl. by rewrite IH. Qed.

Lemma be_bytes_2 n : 0 <= n < 65536 -> Z.lor (Z.shiftl (u8 (Z.shiftr n 8)) 8) (u8 (Z.shiftr n 0)) = n.
Proof.
  intros Hn. rewrite lor_shiftl_add by (unfold u8; pose proof (Z.mod_pos_bound (Z.shiftr n 0) 256); lia).
  unfold u8. rewrite !Z.shiftr_div_pow2 by lia. change (2 ^ 8) with 256. change (2 ^ 0) with 1. zdivmod.
Qed.

Lemma length_byte_bits n :
  0 <= n < 126 -> Z.land (128 + n) 127 = n /\ Z.land (Z.shiftr (128 + n) 7) 1 = 1.
Proof.
  intros Hn. pose proof (land_mask (128 + n) 7 ltac:(lia)) as H1. change (2 ^ 7 - 1) with 127 in H1.
  pose proof (land_mask (Z.shiftr (128 + n) 7) 1 ltac:(lia)) as H2. change (2 ^ 1 - 1) with 1 in H2.
  rewrite H1, H2, Z.shiftr_div_pow2 by lia. change (2 ^ 7) with 128. change (2 ^ 1) with 2. split; zdivmod.
Qed.

Section one_frame.
Context (b0 : Z) (mask payload : bytes) (Hok : frame_ok b0 mask payload).
Let hdr := frame_hdr payload.
Let total := hdr + 4 + zlen payload.

Lemma client_frame_split :
  exists h, client_frame b0 mask payload = h ++ mask ++ unmask 0 mask payload /\ zlen h = hdr.
Proof.
  unfold client_frame, hdr, frame_hdr. destruct (zlen payload <? 126).
  - by exists [b0; 128 + zlen payload].
  - exists (b0 :: 254 :: be_bytes 2 (zlen payload)). by rewrite !zlen_cons, zlen_be_bytes.
Qed.
Lemma zlen_client_frame : zlen (client_frame b0 mask payload) = total.
Proof.
  destruct client_frame_split as (h & -> & Hh). destruct Hok as [_ Hm _].
  rewrite !zlen_app, zlen_unmask. unfold total. lia.
Qed.

(** Every buffer that agrees with the frame so far. *)
Lemma ws_decode_prefix buf :
  (forall i, 0 <= i < Z.min (zlen buf) total -> zat buf i = zat (client_frame b0 mask payload) i) ->
  ws_decode_frame buf =
  if zlen buf <? total then WsIncomplete
  else WsFrame (Z.land b0 15)
    (unmask 0 (ztake 4 (zdrop hdr buf)) (ztake (zlen payload) (zdrop (hdr + 4) buf))) total.
Proof.
  intros Ha. pose proof (zlen_nonneg buf). pose proof (zlen_nonneg payload). destruct Hok as [Hop Hm Hf].
  unfold ws_decode_frame. assert (6 <= total) by (unfold total, hdr, frame_hdr; destruct (_ <? _); lia).
  destruct (Z.ltb_spec (zlen buf) 2); [destruct (Z.ltb_spec (zlen buf) total); [done|lia]|].
  rewrite (Ha 0), (Ha 1) by lia. unfold ws_length. fold hdr in Hf. fold total in Hf.
  change (zat (client_frame b0 mask payload) 0) with b0. destruct (Z.eqb_spec (Z.land b0 15) WS_OP_CONT); [done|].
  assert (0 <= zlen payload <= SM_WS_READ_BUF_SIZE) as Hp by (unfold total in Hf; unfold hdr, frame_hdr in Hf; destruct (_ <? _); lia).
  unfold SM_WS_READ_BUF_SIZE in *.
  assert (ws_len : forall l h, l = zlen payload -> h = hdr ->
    (if 8192 <? l then WsError else if 8192 <? h + 4 + l then WsError
     else if zlen buf <? h + 4 + l then WsIncomplete
     else WsFrame (Z.land b0 15) (unmask 0 (ztake 4 (zdrop h buf)) (ztake l (zdrop (h + 4) buf))) (h + 4 + l)) =
    if zlen buf <? total then WsIncomplete else WsFrame (Z.land b0 15)
      (unmask 0 (ztake 4 (zdrop hdr buf)) (ztake (zlen payload) (zdrop (hdr + 4) buf))) total).
  { intros l h -> ->. fold total. destruct (Z.ltb_spec 8192 (zlen payload)); [lia|].
    destruct (Z.ltb_spec 8192 total); [lia|done]. }
  destruct (Z.ltb_spec (zlen payload) 126) as [Hs|Hs].
  - assert (zat (client_frame b0 mask payload) 1 = 128 + zlen payload) as ->.
    { unfold client_frame. destruct (Z.ltb_spec (zlen payload) 126); [done|lia]. }
    destruct (length_byte_bits (zlen payload)) as [_ ->]; [lia|]. cbv beta iota zeta.
    destruct (Z.eqb_spec 1 0); [lia|]. rewrite (Ha 1) by lia.
    assert (zat (client_frame b0 mask payload) 1 = 128 + zlen payload) as ->.
    { unfold client_frame. destruct (Z.ltb_spec (zlen payload) 126); [done|lia]. }
    destruct (length_byte_bits (zlen payload)) as [-> _]; [lia|].
    destruct (Z.eqb_spec (zlen payload) 126); [lia|]. destruct (Z.eqb_spec (zlen payload) 127); [lia|].
    apply ws_len; [done|]. unfold hdr, frame_hdr. destruct (Z.ltb_spec (zlen payload) 126); [done|lia].
  - assert (hdr = 4) as Hh by (unfold hdr, frame_hdr; destruct (Z.ltb_spec (zlen payload) 126); [lia|done]).
    assert (client_frame b0 mask payload = b0 :: 254 :: u8 (Z.shiftr (zlen payload) 8) ::
      u8 (Z.shiftr (zlen payload) 0) :: mask ++ unmask 0 mask payload) as Hc.
    { unfold client_frame. destruct (Z.ltb_spec (zlen payload) 126); [lia|done]. }
    rewrite (Ha 1) by lia. rewrite Hc. change (zat (b0 :: 254 :: _) 1) with 254.
    change (Z.land (Z.shiftr 254 7) 1 =? 0) with false. change (Z.land 254 127) with 126. cbv iota.
    rewrite Z.eqb_refl. destruct (Z.ltb_spec (zlen buf) 4).
    { destruct (Z.ltb_spec (zlen buf) total); [done|lia]. }
    rewrite (Ha 2), (Ha 3) by lia. rewrite Hc.
    change (zat (b0 :: 254 :: _) 2) with (u8 (Z.shiftr (zlen payload) 8)).
    change (zat (b0 :: 254 :: _) 3) with (u8 (Z.shiftr (zlen payload) 0)).
    rewrite be_bytes_2 by lia. by apply ws_len.
Qed.

Lemma ws_decode_whole rest :
  ws_decode_frame (client_frame b0 mask payload ++ rest) = WsFrame (Z.land b0 15) payload total.
Proof.
  pose proof zlen_client_frame as Hl. pose proof (zlen_nonneg rest).
  rewrite ws_decode_prefix.
  2:{ intros i Hi. unfold zat. rewrite zget_app_l; [done|]. rewrite Hl. lia. }
  rewrite zlen_app, Hl. destruct (Z.ltb_spec (total + zlen rest) total); [lia|]. f_equal.
  destruct client_frame_split as (h & -> & Hh). pose proof (fo_mask _ _ _ Hok) as Hm. rewrite <- !app_assoc.
  rewrite <- Hh, zdrop_app_ge, Z.sub_diag, zdrop_neg, ztake_app_le, (ztake_all 4 mask) by lia.
  rewrite app_assoc, zdrop_app_ge by zlia. rewrite zlen_app, Hm, Z.sub_diag, zdrop_neg by lia.
  rewrite ztake_app_le, ztake_all by (rewrite zlen_unmask; lia). apply unmask_involutive.
Qed.

Lemma ws_decode_partial p :
  p `prefix_of` client_frame b0 mask payload -> zlen p < total -> ws_decode_frame p = WsIncomplete.
Proof.
  intros [k Hk] Hp. rewrite ws_decode_prefix.
  - by destruct (Z.ltb_spec (zlen p) total); [|lia].
  - intros i Hi. unfold zat. rewrite Hk, zget_app_l by lia. done.
Qed.
End one_frame.

(** ** Messages cut into reads *)

Section messages.
Context {A : Type} (enc : A -> bytes) (ok : A -> Prop).

(** A proper beginning of a message, or nothing. *)
Definition partial (p : bytes) : Prop :=
  p = [] \/ exists f, ok f /\ p `prefix_of` enc f /\ zlen p < zlen (enc f).

(** What has been received is whole messages and a part of one. *)
Lemma prefix_messages fs x k :
  Forall ok fs -> x ++ k = flat_map enc fs ->
  exists fs1 fs2 p, fs = fs1 ++ fs2 /\ x = flat_map enc fs1 ++ p /\ p ++ k = flat_map enc fs2 /\
    partial p.
Proof.
  intros H. revert x. induction H as [|f fs Hf H IH]; intros x Hx.
  { apply app_nil in Hx as [-> ->]. exists [], [], []. split_and!; try done. by left. }
  destruct (decide (zlen (enc f) <= zlen x)) as [Hl|Hl].
  - cbn [flat_map] in Hx. assert (exists y, x = enc f ++ y) as [y ->].
    { exists (zdrop (zlen (enc f)) x). rewrite <- (ztake_zdrop (zlen (enc f)) x) at 1. f_equal.
      apply (f_equal (ztake (zlen (enc f)))) in Hx.
      rewrite !ztake_app_le, (ztake_all _ (enc f)) in Hx by lia. done. }
    rewrite <- app_assoc in Hx. apply app_inv_head in Hx.
    destruct (IH y Hx) as (fs1 & fs2 & p & -> & -> & H1 & H2).
    exists (f :: fs1), fs2, p. split_and!; try done. cbn [flat_map]. by rewrite app_assoc.
  - exists [], (f :: fs), x. split_and!; try done.
    right. exists f. split_and!; [done| |lia]. cbn [flat_map] in Hx. apply (f_equal (ztake (zlen x))) in Hx.
    rewrite ztake_app_le, ztake_all, ztake_app_le in Hx by lia. rewrite Hx. apply prefix_take.
Qed.
End messages.

(** ** The browser's stream *)

(** A frame as sent: its first byte, its mask and its payload. *)
Record cframe := mk_cframe { cf_b0 : Z; cf_mask : bytes; cf_payload : bytes }.
Definition cf_bytes (f : cframe) : bytes := client_frame (cf_b0 f) (cf_mask f) (cf_payload f).
Definition cf_op (f : cframe) : Z := Z.land (cf_b0 f) 15.
Definition cf_ok (f : cframe) : Prop :=
  frame_ok (cf_b0 f) (cf_mask f) (cf_payload f) /\ cf_op f <> WS_OP_CLOSE.
(** What reaches the broker, and the browser, for a frame. *)
Definition cf_line (f : cframe) : bytes := if cf_op f =? WS_OP_TEXT then cf_payload f ++ [10] else [].
Definition cf_pong (f : cframe) : bytes :=
  if cf_op f =? WS_OP_PING then ws_encode_frame SM_WS_READ_BUF_SIZE WS_OP_PONG (cf_payload f) else [].

Lemma cf_bytes_length f : cf_ok f -> 6 <= zlen (cf_bytes f) <= SM_WS_READ_BUF_SIZE.
Proof.
  intros [Hf _]. unfold cf_bytes. rewrite zlen_client_frame by done. pose proof (fo_fits _ _ _ Hf).
  pose proof (zlen_nonneg (cf_payload f)). unfold frame_hdr in *. destruct (_ <? _); lia.
Qed.

Abbreviation partial_frame := (partial cf_bytes cf_ok) (only parsing).

Section stream.
Context {W : WsEnv} (Hwr : forall n, ws_write_ok n = true).

(** The frames [fs] were handled. *)
Definition handled (fs : list cframe) (c c' : sm_ws_client) : Prop :=
  wc_to_bridge c' = wc_to_bridge c ++ flat_map cf_line fs /\
  wc_to_ws c' = wc_to_ws c ++ flat_map cf_pong fs /\ wc_br_buf c' = wc_br_buf c.

Lemma ws_handle_frame_ok f c :
  cf_ok f ->
  let '(ok, c') := ws_handle_frame (cf_op f) (cf_payload f) c in ok = true /\ handled [f] c c'.
Proof.
  intros [Hf Hcl]. unfold ws_handle_frame, handled, cf_line, cf_pong. cbn [flat_map]. rewrite !app_nil_r.
  pose proof (fo_fits _ _ _ Hf) as Hfit. pose proof (zlen_nonneg (cf_payload f)).
  assert (2 <= frame_hdr (cf_payload f)) by (unfold frame_hdr; destruct (_ <? _); lia).
  destruct (Z.eqb_spec (cf_op f) WS_OP_TEXT) as [E|].
  - unfold write_line. destruct (Z.ltb_spec (SM_WS_READ_BUF_SIZE + 1) (zlen (cf_payload f) + 1)); [lia|].
    rewrite Hwr, E. simpl. by rewrite app_nil_r.
  - destruct (Z.eqb_spec (cf_op f) WS_OP_PING).
    + destruct (ws_encode_frame _ _ _) as [|x l]; [by rewrite !app_nil_r|].
      unfold write_all_ws. rewrite Hwr. simpl. by rewrite app_nil_r.
    + destruct (Z.eqb_spec (cf_op f) WS_OP_CLOSE); [done|]. by rewrite !app_nil_r.
Qed.

Lemma ws_frames_all fs p fuel c :
  Forall cf_ok fs -> partial_frame p -> (length (flat_map cf_bytes fs ++ p) <= fuel)%nat ->
  let '(rest, keep, c') := ws_frames fuel (flat_map cf_bytes fs ++ p) c in
  rest = p /\ keep = true /\ handled fs c c'.
Proof.
  intros H Hp. revert fuel c. induction H as [|f fs Hf _ IH]; intros fuel c Hl.
  - cbn [flat_map app] in *. assert (handled [] c c) as Hh by (unfold handled; simpl; by rewrite !app_nil_r).
    destruct p as [|x p]; [by destruct fuel|]. destruct fuel as [|fuel]; [simpl in Hl; lia|].
    destruct Hp as [|(f & [Hf Hc] & Hpre & Hlt)]; [done|]. cbn [ws_frames].
    unfold cf_bytes in Hlt. rewrite zlen_client_frame in Hlt by done.
    by rewrite (ws_decode_partial _ _ _ Hf (x :: p) Hpre Hlt).
  - pose proof (cf_bytes_length f Hf) as Hfl. cbn [flat_map] in *. rewrite <- app_assoc in *.
    set (rest := flat_map cf_bytes fs ++ p) in *.
    destruct fuel as [|fuel]; [rewrite length_app in Hl; unfold zlen in Hfl; lia|].
    destruct (cf_bytes f ++ rest) as [|x l] eqn:E; [apply app_nil in E as [E _]; rewrite E in Hfl; unfold zlen in Hfl; simpl in Hfl; lia|].
    cbn [ws_frames]. rewrite <- E. unfold cf_bytes at 1. rewrite ws_decode_whole by apply Hf.
    pose proof (ws_handle_frame_ok f c Hf) as Hh. fold (cf_op f).
    destruct (ws_handle_frame (cf_op f) (cf_payload f) c) as [ok c1]. destruct Hh as [-> (A1 & A2 & A3)].
    rewrite <- (zlen_client_frame (cf_b0 f) (cf_mask f) (cf_payload f)) by apply Hf. fold (cf_bytes f).
    rewrite zdrop_app_ge, Z.sub_diag, zdrop_neg by lia.
    specialize (IH fuel c1). destruct (ws_frames fuel rest c1) as [[r keep] c2].
    destruct IH as (-> & -> & B1 & B2 & B3).
    { rewrite <- E, length_app in Hl. unfold zlen in Hfl. lia. }
    split_and!; try done. unfold handled. rewrite B1, A1, B2, A2, B3, A3. cbn [flat_map].
    rewrite app_nil_r, app_nil_r. by rewrite !app_assoc.
Qed.

(** Reads one after the other; [read] is asked for what fits the buffer. *)
Fixpoint ws_feed (chunks : list bytes) (c : sm_ws_client) : bool * sm_ws_client :=
  match chunks with
  | [] => (true, c)
  | b :: chunks' =>
      let '(keep, c1) := ws_fd_readable (RBytes b) c in
      if keep : bool then ws_feed chunks' c1 else (false, c1)
  end.
Fixpoint ws_fits (chunks : list bytes) (c : sm_ws_client) : Prop :=
  match chunks with
  | [] => True
  | b :: chunks' =>
      0 < zlen b <= SM_WS_READ_BUF_SIZE - zlen (wc_buf c) /\
      ws_fits chunks' (snd (ws_fd_readable (RBytes b) c))
  end.

Lemma sys_read_fits n b : 0 < zlen b <= n -> sys_read n (RBytes b) = RBytes b.
Proof.
  intros Hb. simpl. rewrite ztake_all by lia. destruct b; [|done]. unfold zlen in Hb. simpl in Hb. lia.
Qed.

Lemma partial_whole p fs : Forall cf_ok fs -> partial_frame p -> p = flat_map cf_bytes fs -> p = [] /\ fs = [].
Proof.
  intros Hfs [-> |(f & [Hf _] & Hpre & Hlt)] Hp; destruct Hfs as [|g fs Hg _]; try done.
  exfalso. unfold cf_bytes in Hlt. rewrite zlen_client_frame in Hlt by done.
    pose proof (ws_decode_partial _ _ _ Hf p Hpre Hlt) as H1. rewrite Hp in H1. cbn [flat_map] in H1.
    unfold cf_bytes at 1 in H1. rewrite ws_decode_whole in H1 by apply Hg. done.
Qed.

Lemma ws_feed_frames chunks c fs :
  Forall cf_ok fs -> partial_frame (wc_buf c) -> ws_fits chunks c ->
  wc_buf c ++ mjoin chunks = flat_map cf_bytes fs ->
  let '(keep, c') := ws_feed chunks c in keep = true /\ wc_buf c' = [] /\ handled fs c c'.
Proof.
  revert c fs. induction chunks as [|b chunks IH]; intros c fs Hfs Hp Hfit Hin; cbn [ws_feed].
  { rewrite app_nil_r in Hin. destruct (partial_whole _ _ Hfs Hp Hin) as [-> ->].
    split_and!; [done..|]. unfold handled. simpl. by rewrite !app_nil_r. }
  destruct Hfit as [Hb Hfit]. change (mjoin (b :: chunks)) with (b ++ mjoin chunks) in Hin.
  rewrite app_assoc in Hin. destruct (prefix_messages cf_bytes cf_ok fs _ _ Hfs Hin) as (fs1 & fs2 & p & -> & Hx & Hk & Hpp).
  apply Forall_app in Hfs as [Hfs1 Hfs2]. unfold ws_fd_readable in *.
  destruct (Z.eqb_spec (SM_WS_READ_BUF_SIZE - zlen (wc_buf c)) 0); [lia|].
  rewrite sys_read_fits in * by done. rewrite Hx in *.
  pose proof (ws_frames_all fs1 p _ c Hfs1 Hpp (le_n _)) as Hw.
  destruct (ws_frames _ (flat_map cf_bytes fs1 ++ p) c) as [[rest keep] c1]. destruct Hw as (-> & -> & A1 & A2 & A3).
  cbn [snd] in Hfit. specialize (IH {| c1 with wc_buf := p |} fs2 Hfs2 Hpp Hfit Hk).
  destruct (ws_feed chunks _) as [keep2 c2]. destruct IH as (-> & -> & B1 & B2 & B3).
  split_and!; [done..|]. unfold handled. rewrite B1, B2, B3. cbn [wc_to_bridge wc_to_ws wc_br_buf].
  rewrite A1, A2, A3, !flat_map_app. by rewrite !app_assoc.
Qed.
End stream.

(** The broker gets the text of the frames.  For any masked frames that fit
    the buffer and are neither continuations nor closes, cut into any reads,
    the client stays connected, the broker gets the payload of every text frame
    as a line, in order, the browser gets a pong for every ping, and nothing is
    left in the buffer. *)
Theorem ws_frames_delivered {W : WsEnv} fs chunks :
  (forall n, ws_write_ok n = true) -> Forall cf_ok fs ->
  mjoin chunks = flat_map cf_bytes fs -> ws_fits chunks ws_client_new ->
  let '(keep, c) := ws_feed chunks ws_client_new in
  keep = true /\ wc_to_bridge c = flat_map cf_line fs /\ wc_to_ws c = flat_map cf_pong fs /\ wc_buf c = [].
Proof.
  intros Hw Hfs Hin Hfit.
  pose proof (ws_feed_frames Hw chunks ws_client_new fs Hfs (or_introl eq_refl) Hfit Hin) as H.
  destruct (ws_feed chunks ws_client_new) as [keep c]. destruct H as (H1 & H2 & H3 & H4 & _).
  by split_and!.
Qed.

(** ** The broker's stream *)

Definition line_bytes (l : bytes) : bytes := l ++ [10].
Definition line_fits (l : bytes) : Prop := ~ In 10 l /\ zlen l < SM_WS_READ_BUF_SIZE.
(** An unmasked text frame. *)
Definition text_frame (l : bytes) : bytes :=
  129 :: (if zlen l <? 126 then [zlen l] else 126 :: be_bytes 2 (zlen l)) ++ l.

Lemma ws_encode_text l :
  zlen l < SM_WS_READ_BUF_SIZE -> ws_encode_frame (SM_WS_READ_BUF_SIZE + 14) WS_OP_TEXT l = text_frame l.
Proof.
  unfold ws_encode_frame, text_frame, SM_WS_READ_BUF_SIZE. intros Hl. pose proof (zlen_nonneg l).
  destruct (Z.ltb_spec (8192 + 14) (zlen l)); [lia|].
  destruct (Z.ltb_spec (zlen l) 126).
  - destruct (Z.ltb_spec (8192 + 14 - zlen l) 2); [lia|]. cbn [orb]. by rewrite (u8_small (zlen l)) by (unfold is_byte; lia).
  - destruct (Z.ltb_spec (zlen l) 65536); [|lia]. by destruct (Z.ltb_spec (8192 + 14 - zlen l) 4); [lia|].
Qed.

Section lines.
Context {W : WsEnv} (Hwr : forall n, ws_write_ok n = true).

Lemma ws_lines_all ls p fuel c :
  Forall line_fits ls -> ~ In 10 p -> (length ls <= fuel)%nat ->
  let '(rest, keep, c') := ws_lines fuel (flat_map line_bytes ls ++ p) c in
  rest = p /\ keep = true /\ wc_to_ws c' = wc_to_ws c ++ flat_map text_frame ls /\
  wc_to_bridge c' = wc_to_bridge c /\ wc_buf c' = wc_buf c.
Proof.
  intros H Hp. revert fuel c. induction H as [|l ls [Hn Hf] _ IH]; intros fuel c Hl.
  - cbn [flat_map app]. rewrite app_nil_r. destruct fuel; cbn [ws_lines]; [done|].
    by rewrite (proj2 (split_at_char_None 10 p) Hp).
  - destruct fuel as [|fuel]; [simpl in Hl; lia|]. cbn [flat_map ws_lines]. unfold line_bytes at 1.
    rewrite <- !app_assoc. cbn [app]. rewrite split_at_char_app by done. rewrite ws_encode_text by done.
    unfold text_frame at 1. unfold write_all_ws. rewrite Hwr.
    match goal with |- context [ws_lines fuel _ ?c1] => specialize (IH fuel c1) end.
    destruct (ws_lines fuel _ _) as [[rest keep] c2]. destruct IH as (-> & -> & E1 & E2 & E3); [simpl in Hl; lia|].
    split_and!; try done. rewrite E1. cbn [wc_to_ws flat_map]. unfold text_frame at 1. by rewrite <- app_assoc.
Qed.

Fixpoint bridge_feed (chunks : list bytes) (c : sm_ws_client) : bool * sm_ws_client :=
  match chunks with
  | [] => (true, c)
  | b :: chunks' =>
      let '(keep, c1) := bridge_fd_readable (RBytes b) c in
      if keep : bool then bridge_feed chunks' c1 else (false, c1)
  end.
Fixpoint bridge_fits (chunks : list bytes) (c : sm_ws_client) : Prop :=
  match chunks with
  | [] => True
  | b :: chunks' =>
      0 < zlen b <= SM_WS_READ_BUF_SIZE - zlen (wc_br_buf c) /\
      bridge_fits chunks' (snd (bridge_fd_readable (RBytes b) c))
  end.

Lemma partial_line p : partial line_bytes line_fits p -> ~ In 10 p /\ zlen p < SM_WS_READ_BUF_SIZE.
Proof.
  intros [-> |(l & [Hn Hf] & [k Hk] & Hlt)]; [split; [by intros []|done]|]. unfold line_bytes in *.
  rewrite zlen_app in Hlt. change (zlen [10]) with 1 in Hlt. split; [|lia].
  assert (p = ztake (zlen p) l) as ->.
  { apply (f_equal (ztake (zlen p))) in Hk. rewrite !ztake_app_le, (ztake_all _ p) in Hk by lia. done. }
  intros Hin. apply Hn. rewrite <- (ztake_zdrop (zlen p) l). apply in_or_app. by left.
Qed.

Lemma bridge_feed_lines chunks c ls :
  Forall line_fits ls -> partial line_bytes line_fits (wc_br_buf c) -> bridge_fits chunks c ->
  wc_br_buf c ++ mjoin chunks = flat_map line_bytes ls ->
  let '(keep, c') := bridge_feed chunks c in
  keep = true /\ wc_br_buf c' = [] /\ wc_to_ws c' = wc_to_ws c ++ flat_map text_frame ls /\
  wc_to_bridge c' = wc_to_bridge c.
Proof.
  revert c ls. induction chunks as [|b chunks IH]; intros c ls Hls Hp Hfit Hin; cbn [bridge_feed].
  { rewrite app_nil_r in Hin. destruct (partial_line _ Hp) as [Hn _]. rewrite Hin in Hn |- *.
    destruct ls as [|l ls]; [simpl; by rewrite app_nil_r|]. destruct Hn. cbn [flat_map].
    unfold line_bytes. apply in_or_app. left. apply in_or_app. right. by left. }
  destruct Hfit as [Hb Hfit]. change (mjoin (b :: chunks)) with (b ++ mjoin chunks) in Hin.
  rewrite app_assoc in Hin.
  destruct (prefix_messages line_bytes line_fits ls _ _ Hls Hin) as (ls1 & ls2 & p & -> & Hx & Hk & Hpp).
  apply Forall_app in Hls as [Hls1 Hls2]. destruct (partial_line _ Hpp) as [Hn Hlt].
  unfold bridge_fd_readable in *.
  destruct (Z.eqb_spec (SM_WS_READ_BUF_SIZE - zlen (wc_br_buf c)) 0); [lia|].
  rewrite sys_read_fits in * by done. rewrite Hx in *.
  assert (Hlen : (length ls1 <= length (flat_map line_bytes ls1 ++ p))%nat).
  { clear. induction ls1 as [|l ls1 IH]; [simpl; lia|]. cbn [flat_map length]. unfold line_bytes at 1.
    rewrite !length_app in *. simpl. lia. }
  pose proof (ws_lines_all ls1 p _ c Hls1 Hn Hlen) as Hw.
  destruct (ws_lines _ (flat_map line_bytes ls1 ++ p) c) as [[rest keep] c1].
  destruct Hw as (-> & -> & A1 & A2 & A3).
  cbn [negb snd] in *. destruct (Z.leb_spec SM_WS_READ_BUF_SIZE (zlen p)); [lia|].
  specialize (IH {| c1 with wc_br_buf := p |} ls2 Hls2 Hpp Hfit Hk).
  destruct (bridge_feed chunks _) as [keep2 c2]. destruct IH as (-> & -> & B1 & B2).
  split_and!; [done..| |by rewrite B2].
  rewrite B1. cbn [wc_to_ws]. by rewrite A1, flat_map_app, app_assoc.
Qed.
End lines.

(** The browser gets the broker's lines.  For any lines of at most 8191
    bytes, cut into any reads, the client stays connected and the browser gets
    exactly one text frame per line, in order, with the line as its payload. *)
Theorem ws_lines_framed {W : WsEnv} ls chunks :
  (forall n, ws_write_ok n = true) -> Forall line_fits ls ->
  mjoin chunks = flat_map line_bytes ls -> bridge_fits chunks ws_client_new ->
  let '(keep, c) := bridge_feed chunks ws_client_new in
  keep = true /\ wc_to_ws c = flat_map text_frame ls /\ wc_br_buf c = [].
Proof.
  intros Hw Hls Hin Hfit.
  pose proof (bridge_feed_lines Hw chunks ws_client_new ls Hls (or_introl eq_refl) Hfit Hin) as H.
  destruct (bridge_feed chunks ws_client_new) as [keep c]. destruct H as (H1 & H2 & H3 & _).
  by split_and!.
Qed.

(** ** Where the sink does not do what it says *)

(** The bytes a client gets when a broker line does not fit: the buffer is
    dropped, and what is left of the line is sent as if it were a line. *)
Lemma ws_lines_full p (c : sm_ws_client) {W : WsEnv} fuel :
  ~ In 10 p -> ws_lines fuel p c = (p, true, c).
Proof. intros H. destruct fuel; cbn [ws_lines]; [done|]. by rewrite (proj2 (split_at_char_None 10 p) H). Qed.

Lemma bridge_full {W : WsEnv} head :
  ~ In 10 head -> zlen head = SM_WS_READ_BUF_SIZE ->
  bridge_fd_readable (RBytes head) ws_client_new = (true, ws_client_new).
Proof.
  intros Hh Hl. unfold bridge_fd_readable. cbn [wc_br_buf ws_client_new].
  change (SM_WS_READ_BUF_SIZE - zlen (@nil Z) =? 0) with false. cbv iota.
  rewrite sys_read_fits by (change (zlen (@nil Z)) with 0; unfold SM_WS_READ_BUF_SIZE in *; lia).
  cbn [app]. rewrite ws_lines_full by done. cbn [negb]. by rewrite Hl, Z.leb_refl.
Qed.

Lemma bridge_feed_full {W : WsEnv} head chunks :
  ~ In 10 head -> zlen head = SM_WS_READ_BUF_SIZE ->
  bridge_feed (head :: chunks) ws_client_new = bridge_feed chunks ws_client_new.
Proof. intros Hh Hl. cbn [bridge_feed]. by rewrite bridge_full. Qed.

(** A broker line of 8192 bytes or more is said to be dropped, but only its
    first 8192 bytes are: whatever ends the line, up to 8191 bytes, is sent to
    the browser as a text frame of its own. *)
Theorem ws_long_line_tail {W : WsEnv} head tail :
  (forall n, ws_write_ok n = true) ->
  ~ In 10 head -> zlen head = SM_WS_READ_BUF_SIZE -> line_fits tail -> zlen (tail ++ [10]) <= SM_WS_READ_BUF_SIZE ->
  let '(keep, c) := bridge_feed [head; tail ++ [10]] ws_client_new in
  keep = true /\ wc_to_ws c = text_frame tail /\ wc_br_buf c = [].
Proof.
  intros Hw Hh Hl Ht Hz. rewrite bridge_feed_full by done.
  assert (Hin : wc_br_buf ws_client_new ++ mjoin [tail ++ [10]] = flat_map line_bytes [tail]).
  { simpl. unfold line_bytes. by rewrite !app_nil_r. }
  assert (Hfit : bridge_fits [tail ++ [10]] ws_client_new).
  { cbn [bridge_fits wc_br_buf ws_client_new]. change (zlen (@nil Z)) with 0.
    pose proof (zlen_nonneg tail). rewrite zlen_app in *. change (zlen [10]) with 1 in *. split; [lia|done]. }
  pose proof (bridge_feed_lines Hw _ ws_client_new _ (Forall_cons_2 _ _ _ Ht (Forall_nil_2 _)) (or_introl eq_refl) Hfit Hin) as H.
  destruct (bridge_feed _ ws_client_new) as [keep c]. destruct H as (H1 & H2 & H3 & _).
  split_and!; [done| |done]. rewrite H3. cbn [flat_map wc_to_ws ws_client_new app]. apply app_nil_r.
Qed.

(** The FIN bit of a frame is not looked at, so the first fragment of a
    message in fragments is delivered to the broker as a whole line, and the
    continuation that follows removes the client. *)
Theorem ws_fragment_delivered {W : WsEnv} m1 m2 p1 p2 :
  (forall n, ws_write_ok n = true) -> zlen m1 = 4 -> zlen m2 = 4 -> zlen p1 < 126 -> zlen p2 < 126 ->
  let '(_, keep, c) := ws_frames 2
    (client_frame WS_OP_TEXT m1 p1 ++ client_frame (128 + WS_OP_CONT) m2 p2) ws_client_new in
  keep = false /\ wc_to_bridge c = p1 ++ [10].
Proof.
  intros Hw H1 H2 Hp1 Hp2. pose proof (zlen_nonneg p1). pose proof (zlen_nonneg p2).
  assert (frame_ok WS_OP_TEXT m1 p1) as Hok.
  { split; [done..|]. unfold frame_hdr, SM_WS_READ_BUF_SIZE. destruct (Z.ltb_spec (zlen p1) 126); lia. }
  set (f2 := client_frame (128 + WS_OP_CONT) m2 p2).
  assert (Hne : exists x l, client_frame WS_OP_TEXT m1 p1 ++ f2 = x :: l) by (unfold client_frame; simpl; eauto).
  destruct Hne as (x & l & E). cbn [ws_frames]. rewrite E, <- E. rewrite ws_decode_whole by done.
  change (Z.land WS_OP_TEXT 15) with WS_OP_TEXT. unfold ws_handle_frame.
  change (WS_OP_TEXT =? WS_OP_TEXT) with true. cbv iota. unfold write_line.
  destruct (Z.ltb_spec (SM_WS_READ_BUF_SIZE + 1) (zlen p1 + 1)); [unfold SM_WS_READ_BUF_SIZE in *; lia|].
  rewrite Hw. cbn [wc_to_bridge ws_client_new app wc_writes].
  rewrite <- (zlen_client_frame WS_OP_TEXT m1 p1 Hok), zdrop_app_ge, Z.sub_diag, zdrop_neg by lia.
  assert (ws_decode_frame f2 = WsError) as Hd.
  { unfold f2, client_frame. destruct (Z.ltb_spec (zlen p2) 126) as [_|]; [|lia]. unfold ws_decode_frame.
    cbn [app]. set (rest := m2 ++ unmask 0 m2 p2). pose proof (zlen_nonneg rest).
    rewrite (proj2 (Z.ltb_ge (zlen (_ :: _)) 2)) by (rewrite !zlen_cons; lia).
    change (zat ((128 + WS_OP_CONT) :: (128 + zlen p2) :: rest) 1) with (128 + zlen p2). destruct (length_byte_bits (zlen p2)) as [_ ->]; [lia|]. done. }
  clearbody f2. destruct f2 as [|y l2]; [done|]. rewrite Hd. by split.
Qed.

(** The accept key of RFC 6455's example.  The specification gives
    s3pPLMBiTxaQ9kYGzzhZRbK+xOo= for the key dGhlIHNhbXBsZSBub25jZQ==; the
    constant appended to the key is not the specification's, so the answer is
    another one and a conforming browser closes the connection. *)
Theorem ws_accept_not_rfc :
  ws_accept (bytes_of_string "dGhlIHNhbXBsZSBub25jZQ==") <> bytes_of_string "s3pPLMBiTxaQ9kYGzzhZRbK+xOo=" /\
  sm_base64_encode (sm_sha1 (bytes_of_string
    "dGhlIHNhbXBsZSBub25jZQ==258EAFA5-E914-47DA-95CA-C5AB0DC85B11")) =
  bytes_of_string "s3pPLMBiTxaQ9kYGzzhZRbK+xOo=".
Proof. split; [by vm_compute|by vm_compute]. Qed.

(** When a connection sends nothing for fifty polls, the handshake searches
    its uninitialised buffer for the end of the request. *)
Theorem ws_handshake_silent env ok :
  Forall (fun p => p = HsTimeout) env -> ws_handshake env ok = HsUndefined.
Proof.
  intros H. unfold ws_handshake. assert (forall n, hs_read n None env = Some None) as ->; [|done].
  induction H as [|p env -> _ IH]; intros [|n]; simpl; done.
Qed.

(** ** Witnesses *)

#[local] Instance demo_ws : WsEnv := fun _ => true.

(** A text frame "hi", a ping and an empty text frame, in three reads. *)
Definition demo_frames : list cframe :=
  [mk_cframe 129 [1; 2; 3; 4] [104; 105]; mk_cframe 137 [9; 8; 7; 6] [1]; mk_cframe 129 [0; 0; 0; 0] []].
Definition demo_frame_chunks : list bytes :=
  let s := flat_map cf_bytes demo_frames in [ztake 5 s; ztake 9 (zdrop 5 s); zdrop 14 s].
Definition demo_lines : list bytes := [bytes_of_string "one"; []; bytes_of_string "two"].
Definition demo_line_chunks : list bytes :=
  let s := flat_map line_bytes demo_lines in [ztake 2 s; ztake 4 (zdrop 2 s); zdrop 6 s].
Definition demo_head : bytes := repeat 65 (Z.to_nat SM_WS_READ_BUF_SIZE).

Lemma demo_frames_ok : Forall cf_ok demo_frames.
Proof. repeat constructor; vm_compute; congruence. Qed.
Lemma demo_lines_ok : Forall line_fits demo_lines.
Proof. repeat constructor; try (vm_compute; done); intros H; vm_compute in H; intuition congruence. Qed.
Lemma demo_head_fits : ~ In 10 demo_head /\ zlen demo_head = SM_WS_READ_BUF_SIZE.
Proof. split; [intros H; by apply repeat_spec in H|]. by vm_compute. Qed.

Lemma ws_frames_delivered_witness :
  wc_to_bridge (snd (ws_feed demo_frame_chunks ws_client_new)) = [104; 105; 10; 10] /\
  let '(keep, c) := ws_feed demo_frame_chunks ws_client_new in
  keep = true /\ wc_to_bridge c = flat_map cf_line demo_frames /\
  wc_to_ws c = flat_map cf_pong demo_frames /\ wc_buf c = [].
Proof.
  split; [by vm_compute|]. apply (ws_frames_delivered demo_frames demo_frame_chunks).
  - done.
  - apply demo_frames_ok.
  - by vm_compute.
  - vm_compute. by intuition congruence.
Defined.

Lemma ws_lines_framed_witness :
  let '(keep, c) := bridge_feed demo_line_chunks ws_client_new in
  keep = true /\ wc_to_ws c = flat_map text_frame demo_lines /\ wc_br_buf c = [].
Proof.
  apply (ws_lines_framed demo_lines demo_line_chunks).
  - done.
  - apply demo_lines_ok.
  - by vm_compute.
  - vm_compute. by intuition congruence.
Defined.

Lemma ws_long_line_tail_witness :
  let '(keep, c) := bridge_feed [demo_head; bytes_of_string "tail" ++ [10]] ws_client_new in
  keep = true /\ wc_to_ws c = text_frame (bytes_of_string "tail") /\ wc_br_buf c = [].
Proof.
  apply (ws_long_line_tail demo_head (bytes_of_string "tail")).
  - done.
  - apply demo_head_fits.
  - apply demo_head_fits.
  - split; [|by vm_compute]. intros H. vm_compute in H. intuition congruence.
  - by vm_compute.
Defined.

Lemma ws_fragment_delivered_witness :
  let '(_, keep, c) := ws_frames 2
    (client_frame WS_OP_TEXT [1; 2; 3; 4] [104] ++ client_frame (128 + WS_OP_CONT) [1; 2; 3; 4] [105]) ws_client_new in
  keep = false /\ wc_to_bridge c = [104] ++ [10].
Proof. by apply (ws_fragment_delivered [1; 2; 3; 4] [1; 2; 3; 4] [104] [105]). Defined.

Lemma ws_handshake_silent_witness : ws_handshake [HsTimeout; HsTimeout] true = HsUndefined.
Proof. apply (ws_handshake_silent [HsTimeout; HsTimeout] true). by repeat constructor. Defined.
