(* ===== verification/LinkWq.v ===== *)
(** * The deferred write queue of a link ([src/links/link_wq.c])

    Bytes the device did not take at once wait here in order.  Allocation
    outcomes and the results of [write] are arguments. *)
From S2P Require Import Prelude Arrays Effects.

Definition SM_LINK_WRITE_QUEUE_MAX_BYTES : Z := 524288.

(** An entry; its [len] is the length of [we_data]. *)
Record sm_link_wq_entry := mk_went { we_data : bytes; we_offset : Z }.
#[export] Instance went_inhabited : Inhabited sm_link_wq_entry := populate (mk_went [] 0).

(** The array [wq_entries] has [cap] elements. *)
Record sm_link_wq := mk_wq {
  wq_entries : list sm_link_wq_entry; wq_head : nat; wq_count : nat; wq_total_bytes : Z }.

Definition wq_cap (wq : sm_link_wq) : nat := length (wq_entries wq).

(** ** Operations *)

Definition sm_link_wq_init : sm_link_wq := mk_wq [] 0 0 0.

Definition sm_link_wq_clear (wq : sm_link_wq) : sm_link_wq := mk_wq [] 0 0 0.

Definition sm_link_wq_has_pending (wq : sm_link_wq) : bool := (0 <? wq_count wq)%nat.

(** The array is full: double it (or take 16 slots) and linearise the queue. *)
Definition wq_grow (wq : sm_link_wq) : sm_link_wq :=
  let new_cap := if (wq_cap wq =? 0)%nat then 16%nat else (wq_cap wq * 2)%nat in
  {| wq with wq_entries := circ_grow (wq_entries wq) (wq_head wq) (wq_count wq) new_cap (mk_went [] 0);
             wq_head := 0%nat |}.

(** The slot behind the last entry is filled. *)
Definition wq_push (wq : sm_link_wq) (data : bytes) : sm_link_wq :=
  {| wq with wq_entries := <[circ_idx (wq_cap wq) (wq_head wq) (wq_count wq) := mk_went data 0]>
                             (wq_entries wq);
             wq_count := S (wq_count wq);
             wq_total_bytes := wq_total_bytes wq + zlen data |}.

Definition sm_link_wq_enqueue (calloc_ok malloc_ok : bool) (wq : sm_link_wq) (data : bytes) :
    Z * sm_link_wq :=
  if zlen data =? 0 then (0, wq) else
  if SM_LINK_WRITE_QUEUE_MAX_BYTES <? wq_total_bytes wq + zlen data then (-1, wq) else
  let full := (wq_cap wq <=? wq_count wq)%nat in
  if full && negb calloc_ok then (-1, wq) else
  let wq := if full then wq_grow wq else wq in
  if negb malloc_ok then (-1, wq) else
  (0, wq_push wq data).

(** The direct write loop: return code, bytes the descriptor took, remaining
    outcomes; a remainder is queued when the descriptor would block. *)
Fixpoint wq_write_loop (calloc_ok malloc_ok : bool) (wq : sm_link_wq) (rest : bytes)
    (env : list wres) : Z * sm_link_wq * bytes * list wres :=
  if zlen rest =? 0 then (0, wq, [], env) else
  let again env' :=
    let '(rc, wq') := sm_link_wq_enqueue calloc_ok malloc_ok wq rest in (rc, wq', [], env') in
  match env with
  | [] => again []
  | r :: env' =>
      match fst (sys_write rest [r]) with
      | WAgain => again env'
      | WErr => (-1, wq, [], env')
      | WBytes n =>
          if n =? 0 then (-1, wq, [], env') else
          let '(rc, wq', out, env'') :=
            wq_write_loop calloc_ok malloc_ok wq (zdrop n rest) env' in
          (rc, wq', ztake n rest ++ out, env'')
      end
  end.

Definition sm_link_wq_write (calloc_ok malloc_ok : bool) (wq : sm_link_wq) (data : bytes)
    (env : list wres) : Z * sm_link_wq * bytes * list wres :=
  if zlen data =? 0 then (0, wq, [], env) else
  if sm_link_wq_has_pending wq then
    let '(rc, wq') := sm_link_wq_enqueue calloc_ok malloc_ok wq data in (rc, wq', [], env)
  else wq_write_loop calloc_ok malloc_ok wq data env.

(** Bytes of the head entry that were taken; the entry is dropped once all of
    it was. *)
Definition wq_advance (wq : sm_link_wq) (n : Z) : sm_link_wq :=
  let e := wq_entries wq !!! wq_head wq in
  let off := we_offset e + n in
  if zlen (we_data e) <=? off then
    mk_wq (<[wq_head wq := mk_went [] off]> (wq_entries wq))
      ((wq_head wq + 1) mod wq_cap wq)%nat (wq_count wq - 1)%nat (wq_total_bytes wq - n)
  else
    {| wq with wq_entries := <[wq_head wq := mk_went (we_data e) off]> (wq_entries wq);
               wq_total_bytes := wq_total_bytes wq - n |}.

(** One [write] per iteration, so the loop recurses on the outcomes. *)
Fixpoint sm_link_wq_flush (wq : sm_link_wq) (env : list wres) : Z * sm_link_wq * bytes * list wres :=
  if (wq_count wq =? 0)%nat then (0, wq, [], env) else
  let e := wq_entries wq !!! wq_head wq in
  let rest := zdrop (we_offset e) (we_data e) in
  match env with
  | [] => (1, wq, [], [])
  | r :: env' =>
      match fst (sys_write rest [r]) with
      | WAgain => (1, wq, [], env')
      | WErr => (-1, wq, [], env')
      | WBytes n =>
          if n =? 0 then (-1, wq, [], env') else
          let '(rc, wq', out, env'') := sm_link_wq_flush (wq_advance wq n) env' in
          (rc, wq', ztake n rest ++ out, env'')
      end
  end.

(** ** Invariant and abstraction *)

Definition wq_view (wq : sm_link_wq) : list sm_link_wq_entry :=
  circ_view (wq_entries wq) (wq_head wq) (wq_count wq).
Definition went_rest (e : sm_link_wq_entry) : bytes := zdrop (we_offset e) (we_data e).
(** The abstract queue: the bytes accepted and not yet taken, in order. *)
Definition wq_pending (wq : sm_link_wq) : bytes := mjoin (map went_rest (wq_view wq)).

Record wq_wf (wq : sm_link_wq) : Prop := {
  wqf_circ : circ_ok (wq_entries wq) (wq_head wq) (wq_count wq);
  wqf_entries : Forall (fun e => 0 <= we_offset e < zlen (we_data e)) (wq_view wq);
  wqf_total : wq_total_bytes wq = zlen (wq_pending wq);
  wqf_bound : wq_total_bytes wq <= SM_LINK_WRITE_QUEUE_MAX_BYTES }.

Lemma mjoin_snoc {A} (l : list (list A)) x : mjoin (l ++ [x]) = mjoin l ++ x.
Proof. induction l as [|y l IH]; simpl; [by rewrite app_nil_r|]. by rewrite IH, app_assoc. Qed.

Lemma wq_grow_wf wq :
  wq_wf wq -> (wq_cap wq <= wq_count wq)%nat ->
  wq_wf (wq_grow wq) /\ wq_pending (wq_grow wq) = wq_pending wq /\
  (wq_count wq < wq_cap (wq_grow wq))%nat.
Proof.
  intros [Hc He Ht Hb] Hfull.
  assert (wq_count wq <= wq_cap wq)%nat as Hle by apply Hc.
  set (n := if (wq_cap wq =? 0)%nat then 16%nat else (wq_cap wq * 2)%nat).
  assert (wq_count wq < n)%nat as Hn.
  { unfold n. destruct (Nat.eqb_spec (wq_cap wq) 0); lia. }
  assert (wq_view (wq_grow wq) = wq_view wq) as Hv by (apply circ_view_grow; lia).
  assert (wq_pending (wq_grow wq) = wq_pending wq) as Hp by (unfold wq_pending; by rewrite Hv).
  split_and!; [|done|].
  - split; rewrite ?Hp, ?Hv; try done. apply (circ_ok_grow _ _ _ n); lia.
  - unfold wq_cap at 1, wq_grow. fold n. simpl. rewrite length_circ_grow; lia.
Qed.

Lemma wq_push_wf wq data :
  wq_wf wq -> (wq_count wq < wq_cap wq)%nat -> 0 < zlen data ->
  wq_total_bytes wq + zlen data <= SM_LINK_WRITE_QUEUE_MAX_BYTES ->
  wq_wf (wq_push wq data) /\ wq_pending (wq_push wq data) = wq_pending wq ++ data.
Proof.
  intros [Hc He Ht Hb] Hroom Hd Hmax.
  assert (wq_view (wq_push wq data) = wq_view wq ++ [mk_went data 0]) as Hv
    by (by apply circ_view_push).
  assert (wq_pending (wq_push wq data) = wq_pending wq ++ data) as Hp.
  { unfold wq_pending. rewrite Hv, map_app. apply mjoin_snoc. }
  split; [|done]. split; rewrite ?Hv, ?Hp; try done.
  - by apply circ_ok_push.
  - apply Forall_app. split; [done|]. constructor; [simpl; lia|done].
  - simpl. zlia.
Qed.

(** What is left of [data] after an enqueue that returned [rc]. *)
Definition accepted (rc : Z) (data : bytes) : bytes := if rc =? 0 then data else [].

Lemma wq_enqueue_spec cok mok wq data :
  wq_wf wq ->
  let '(rc, wq') := sm_link_wq_enqueue cok mok wq data in
  wq_wf wq' /\ wq_pending wq' = wq_pending wq ++ accepted rc data /\
  rc = (if (0 <? zlen data) &&
          ((SM_LINK_WRITE_QUEUE_MAX_BYTES <? wq_total_bytes wq + zlen data) || negb mok ||
           (negb cok && (wq_cap wq <=? wq_count wq)%nat)) then -1 else 0).
Proof.
  intros Hwf. unfold sm_link_wq_enqueue, accepted.
  destruct (Z.eqb_spec (zlen data) 0) as [Hz|Hz].
  { rewrite Hz. apply zlen_zero in Hz as ->. simpl. by rewrite app_nil_r. }
  destruct (Z.ltb_spec 0 (zlen data)); [simpl|zlia].
  destruct (Z.ltb_spec SM_LINK_WRITE_QUEUE_MAX_BYTES (wq_total_bytes wq + zlen data)); simpl.
  { by rewrite app_nil_r. }
  destruct (Nat.leb_spec (wq_cap wq) (wq_count wq)) as [Hfull|Hfull]; simpl.
  - destruct cok; simpl.
    2:{ rewrite app_nil_r, orb_true_r. done. }
    destruct (wq_grow_wf wq Hwf Hfull) as (Hwf1 & Hp1 & Hroom).
    destruct mok; simpl; [|by rewrite app_nil_r].
    destruct (wq_push_wf (wq_grow wq) data Hwf1 Hroom) as [? ?]; [done|done|]. by rewrite <- Hp1.
  - rewrite andb_false_r. destruct mok; simpl; [|by rewrite app_nil_r].
    by destruct (wq_push_wf wq data Hwf).
Qed.

Lemma wq_write_loop_spec cok mok wq rest env :
  wq_wf wq -> wq_pending wq = [] ->
  let '(rc, wq', out, env') := wq_write_loop cok mok wq rest env in
  wq_wf wq' /\ (rc = 0 -> out ++ wq_pending wq' = rest) /\
  (rc <> 0 -> wq_pending wq' = [] /\ out `prefix_of` rest).
Proof.
  intros Hwf Hp. revert rest. induction env as [|r env IH]; intros rest; simpl;
    destruct (Z.eqb_spec (zlen rest) 0) as [->%zlen_zero|Hz]; try done;
    pose proof (wq_enqueue_spec cok mok wq rest Hwf) as Henq;
    destruct (sm_link_wq_enqueue cok mok wq rest) as [rc wq1];
    destruct Henq as (Hwf1 & Hp1 & _); rewrite Hp in Hp1; simpl in Hp1;
    unfold accepted in Hp1.
  { split_and!; [done| |].
    - intros ->. done.
    - intros Hrc. destruct (Z.eqb_spec rc 0); [done|]. split; [done|apply prefix_nil]. }
  destruct r as [n| |]; simpl.
  - destruct (Z.eqb_spec (Z.max 0 (Z.min n (zlen rest))) 0) as [|Hn].
    { split_and!; [done|done|]. intros _. split; [done|apply prefix_nil]. }
    set (m := Z.max 0 (Z.min n (zlen rest))) in *.
    specialize (IH (zdrop m rest)).
    destruct (wq_write_loop cok mok wq (zdrop m rest) env) as [[[rc2 wq2] out2] env2].
    destruct IH as (? & IH1 & IH2). split_and!; [done| |].
    + intros Hrc. rewrite <- app_assoc, IH1 by done. apply ztake_zdrop.
    + intros Hrc. destruct (IH2 Hrc) as [? [k Hk]]. split; [done|].
      exists k. rewrite <- app_assoc, <- Hk. symmetry. apply ztake_zdrop.
  - split_and!; [done| |].
    + intros ->. done.
    + intros Hrc. destruct (Z.eqb_spec rc 0); [done|]. split; [done|apply prefix_nil].
  - split_and!; [done|done|]. intros _. split; [done|apply prefix_nil].
Qed.

Lemma wq_write_spec cok mok wq data env :
  wq_wf wq ->
  let '(rc, wq', out, env') := sm_link_wq_write cok mok wq data env in
  wq_wf wq' /\
  (rc = 0 -> out ++ wq_pending wq' = wq_pending wq ++ data) /\
  (rc <> 0 -> wq_pending wq' = wq_pending wq /\ out `prefix_of` data).
Proof.
  intros Hwf. unfold sm_link_wq_write.
  destruct (Z.eqb_spec (zlen data) 0) as [->%zlen_zero|Hz].
  { rewrite app_nil_r. done. }
  unfold sm_link_wq_has_pending. destruct (Nat.ltb_spec 0 (wq_count wq)) as [Hn|Hn].
  - pose proof (wq_enqueue_spec cok mok wq data Hwf) as Henq.
    destruct (sm_link_wq_enqueue cok mok wq data) as [rc wq1].
    destruct Henq as (Hwf1 & Hp1 & _). unfold accepted in Hp1. split_and!; [done| |].
    + intros ->. done.
    + intros Hrc. destruct (Z.eqb_spec rc 0); [done|]. rewrite app_nil_r in Hp1.
      split; [done|apply prefix_nil].
  - assert (wq_pending wq = []) as Hp.
    { unfold wq_pending, wq_view. by replace (wq_count wq) with 0%nat by lia. }
    rewrite Hp. by apply wq_write_loop_spec.
Qed.

(** A link write never reorders or invents bytes.  When it reports
    success, what the descriptor took plus what is now queued is what was
    queued before plus the new data, in that order, and the queue stays within
    its bound; when it fails, the queue is as it was and only a prefix of the
    new data reached the descriptor. *)
Theorem sm_link_wq_write_fifo cok mok wq data env :
  wq_wf wq ->
  let '(rc, wq', out, env') := sm_link_wq_write cok mok wq data env in
  wq_wf wq' /\
  (rc = 0 -> out ++ wq_pending wq' = wq_pending wq ++ data) /\
  (rc <> 0 -> wq_pending wq' = wq_pending wq /\ out `prefix_of` data).
Proof. apply wq_write_spec. Qed.

Lemma wq_init_wf : wq_wf sm_link_wq_init.
Proof. split; [split; [simpl; lia|right; done]|constructor|done|vm_compute; congruence]. Qed.

Lemma sm_link_wq_write_fifo_witness :
  let '(rc, wq, out, _) :=
    sm_link_wq_write true true sm_link_wq_init [1; 2; 3; 4; 5] [WBytes 2; WAgain] in
  rc = 0 /\ out ++ wq_pending wq = [1; 2; 3; 4; 5].
Proof.
  pose proof (sm_link_wq_write_fifo true true sm_link_wq_init [1; 2; 3; 4; 5]
                [WBytes 2; WAgain] wq_init_wf) as Hw.
  destruct (sm_link_wq_write _ _ _ _ _) as [[[rc wq] out] env] eqn:E.
  assert (rc = 0) as Hrc by (vm_compute in E; congruence).
  split; [done|]. by apply Hw.
Defined.

Lemma wq_view_cons wq :
  wq_wf wq -> (0 < wq_count wq)%nat ->
  wq_view wq = (wq_entries wq !!! wq_head wq) ::
    circ_view (wq_entries wq) (circ_idx (wq_cap wq) (wq_head wq) 1) (wq_count wq - 1).
Proof.
  intros Hwf Hn. apply circ_view_head; [|done]. eapply circ_ok_head; [apply Hwf|done].
Qed.

Lemma wq_advance_wf wq n :
  wq_wf wq -> (0 < wq_count wq)%nat ->
  0 < n <= zlen (went_rest (wq_entries wq !!! wq_head wq)) ->
  wq_wf (wq_advance wq n) /\
  ztake n (went_rest (wq_entries wq !!! wq_head wq)) ++ wq_pending (wq_advance wq n) = wq_pending wq.
Proof.
  intros Hwf Hn Hb. pose proof (wq_view_cons wq Hwf Hn) as Hv.
  destruct Hwf as [Hc He Ht Hbd]. pose proof (circ_ok_head _ _ _ Hc Hn) as Hh.
  set (e := wq_entries wq !!! wq_head wq) in *.
  assert (wq_view (wq_advance wq n) =
    (if zlen (we_data e) <=? we_offset e + n then [] else [mk_went (we_data e) (we_offset e + n)]) ++
    circ_view (wq_entries wq) (circ_idx (wq_cap wq) (wq_head wq) 1) (wq_count wq - 1)) as Hv1.
  { unfold wq_advance. fold e. destruct (_ <=? _); unfold wq_view; simpl.
    - apply circ_view_pop; [apply Hc|done|done].
    - rewrite <- (circ_idx_0 (length (wq_entries wq)) (wq_head wq)) at 1 by done.
      rewrite circ_view_set by (done || apply Hc). fold (wq_view wq). by rewrite Hv. }
  unfold wq_pending in *. rewrite Hv in *. apply Forall_cons_1 in He as [He Hes].
  unfold went_rest in *. cbn [map] in Ht. 
  assert (ztake n (zdrop (we_offset e) (we_data e)) ++
    mjoin (map went_rest (wq_view (wq_advance wq n))) =
    zdrop (we_offset e) (we_data e) ++ mjoin (map went_rest
      (circ_view (wq_entries wq) (circ_idx (wq_cap wq) (wq_head wq) 1) (wq_count wq - 1)))) as Hp.
  { rewrite Hv1. destruct (Z.leb_spec (zlen (we_data e)) (we_offset e + n)); simpl.
    - by rewrite ztake_all by zlia.
    - unfold went_rest at 1. simpl. rewrite <- zdrop_zdrop by lia.
      by rewrite app_assoc, ztake_zdrop. }
  split; [|exact Hp].
  pose proof (f_equal zlen Hp) as Hl. simpl in Ht. rewrite zlen_app, zlen_ztake, zlen_app in Hl.
  rewrite zlen_app in Ht. unfold went_rest in Ht, Hl.
  assert (wq_total_bytes (wq_advance wq n) = wq_total_bytes wq - n) as Ht1.
  { unfold wq_advance. by destruct (_ <=? _). }
  split.
  - unfold wq_advance. fold e. destruct (_ <=? _); [by apply circ_ok_pop|].
    unfold circ_ok in *. simpl. by rewrite length_insert.
  - rewrite Hv1. apply Forall_app. split; [|done].
    destruct (Z.leb_spec (zlen (we_data e)) (we_offset e + n)); constructor; simpl; [lia|done].
  - unfold wq_pending, went_rest. rewrite Ht1. zlia.
  - lia.
Qed.

(** Flushing is a prefix of the queue.  Whatever the descriptor takes,
    the bytes sent followed by the bytes still queued are the bytes queued
    before, the byte count stays exact, [0] is returned only with an empty
    queue and [1] only with a non-empty one. *)
Lemma wq_flush_spec wq env :
  wq_wf wq ->
  let '(rc, wq', out, env') := sm_link_wq_flush wq env in
  wq_wf wq' /\ out ++ wq_pending wq' = wq_pending wq /\
  (rc = 0 -> wq_pending wq' = []) /\ (rc = 1 -> sm_link_wq_has_pending wq' = true) /\
  (rc = 0 \/ rc = 1 \/ rc = -1).
Proof.
  revert wq. unfold sm_link_wq_has_pending.
  induction env as [|r env IH]; intros wq Hwf; simpl;
    (destruct (Nat.eqb_spec (wq_count wq) 0) as [Hz|Hz];
     [assert (wq_pending wq = []) as -> by (unfold wq_pending, wq_view; by rewrite Hz); naive_solver|]).
  { split_and!; try done; try lia. intros _. apply Nat.ltb_lt. lia. }
  assert (0 < wq_count wq)%nat as Hn by lia. pose proof Hn as Hn2. apply Nat.ltb_lt in Hn.
  fold (went_rest (wq_entries wq !!! wq_head wq)).
  set (rest := went_rest (wq_entries wq !!! wq_head wq)) in *.
  destruct r as [n| |]; simpl; [|split_and!; try done; lia ..].
  destruct (Z.eqb_spec (Z.max 0 (Z.min n (zlen rest))) 0) as [|Hne].
  { split_and!; try done; lia. }
  set (m := Z.max 0 (Z.min n (zlen rest))) in *.
  destruct (wq_advance_wf wq m Hwf Hn2) as [Hwf1 Hp1].
  { fold rest. zlia. }
  specialize (IH _ Hwf1). destruct (sm_link_wq_flush (wq_advance wq m) env) as [[[rc wq2] out2] env2].
  destruct IH as (? & IH & ? & ? & ?). split_and!; try done.
  fold rest in Hp1. by rewrite <- app_assoc, IH.
Qed.

(** Bytes are handed to the descriptor only when none are waiting. *)
Lemma wq_write_waiting cok mok wq data env :
  let '(rc, wq', out, env') := sm_link_wq_write cok mok wq data env in
  out = [] \/ wq_pending wq = [].
Proof.
  unfold sm_link_wq_write, sm_link_wq_has_pending. destruct (zlen data =? 0); [by left|].
  destruct (Nat.ltb_spec 0 (wq_count wq)).
  - destruct (sm_link_wq_enqueue _ _ _ _). by left.
  - destruct (wq_write_loop _ _ _ _ _) as [[[? ?] ?] ?]. right.
    unfold wq_pending, wq_view. by replace (wq_count wq) with 0%nat by lia.
Qed.
