(* ===== verification/HeapLogic.v ===== *)
(** * A separation logic for the C heap

    Assertions over finite heaps, made an instance of the [bi] interface, so
    that the Iris proof mode works on them.  The logic is linear: an assertion
    speaks about exactly the objects it names, so a specification also says
    what is not leaked. *)
From stdpp Require Import gmap.
From iris.bi Require Import interface.
From iris.proofmode Require Import proofmode.
From S2P Require Import Prelude Effects.

Section assertions.
Context {cell : Type}.

Record hprop := HProp { holds : gmap loc cell -> Prop }.

#[local] Instance hprop_equiv : Equiv hprop := fun P Q => forall h, holds P h <-> holds Q h.
#[local] Instance hprop_equivalence : Equivalence (@equiv hprop _).
Proof.
  split.
  - by intros P h.
  - intros P Q H h. by rewrite (H h).
  - intros P Q R H1 H2 h. by rewrite (H1 h) (H2 h).
Qed.
Canonical Structure hpropO := discreteO hprop.

Record h_entails (P Q : hprop) : Prop := { entails_at h : holds P h -> holds Q h }.
Definition h_emp : hprop := HProp (fun h => h = ∅).
Definition h_pure (phi : Prop) : hprop := HProp (fun _ => phi).
Definition h_and (P Q : hprop) : hprop := HProp (fun h => holds P h /\ holds Q h).
Definition h_or (P Q : hprop) : hprop := HProp (fun h => holds P h \/ holds Q h).
Definition h_impl (P Q : hprop) : hprop := HProp (fun h => holds P h -> holds Q h).
Definition h_forall A (P : A -> hprop) : hprop := HProp (fun h => forall x, holds (P x) h).
Definition h_exist A (P : A -> hprop) : hprop := HProp (fun h => exists x, holds (P x) h).
(** The heap splits in two. *)
Definition h_sep (P Q : hprop) : hprop := HProp (fun h =>
  exists h1 h2, h = h1 ∪ h2 /\ h1 ##ₘ h2 /\ holds P h1 /\ holds Q h2).
Definition h_wand (P Q : hprop) : hprop := HProp (fun h =>
  forall h', h ##ₘ h' -> holds P h' -> holds Q (h ∪ h')).
Definition h_pers (P : hprop) : hprop := h_pure (h_entails h_emp P).

Lemma h_sep_elim_l P P' Q Q' h :
  (forall h, holds P h -> holds P' h) -> (forall h, holds Q h -> holds Q' h) ->
  holds (h_sep P Q) h -> holds (h_sep P' Q') h.
Proof. intros HP HQ (h1 & h2 & -> & Hd & H1 & H2). exists h1, h2. auto. Qed.

Lemma h_sep_comm P Q h : holds (h_sep P Q) h -> holds (h_sep Q P) h.
Proof.
  intros (h1 & h2 & -> & Hd & H1 & H2). exists h2, h1.
  split; [by rewrite map_union_comm|]. by split.
Qed.

Lemma h_sep_assoc P Q R h : holds (h_sep (h_sep P Q) R) h -> holds (h_sep P (h_sep Q R)) h.
Proof.
  intros (h12 & h3 & -> & Hd & (h1 & h2 & -> & Hd' & H1 & H2) & H3).
  apply map_disjoint_union_l in Hd as [Hd1 Hd2].
  exists h1, (h2 ∪ h3). split; [by rewrite assoc|].
  split; [by apply map_disjoint_union_r|]. split; [done|]. by exists h2, h3.
Qed.

Lemma h_bi_mixin :
  BiMixin h_entails h_emp h_pure h_and h_or h_impl h_forall h_exist h_sep h_wand.
Proof.
  split; try solve [intros; split; cbn; intros ?; naive_solver].
  - split; [by intros P|]. intros P Q R [H1] [H2]. split. auto.
  - intros P Q. split.
    + intros H. split; split; intros h; apply H.
    + intros [[H1] [H2]] h. split; [apply H1|apply H2].
  - intros n P P' HP Q Q' HQ h. split; intros [H1 H2]; split; by (apply HP || apply HQ).
  - intros n P P' HP Q Q' HQ h.
    split; (intros [H|H]; [left; by apply HP|right; by apply HQ]).
  - intros n P P' HP Q Q' HQ h. split; intros H Hp; apply HQ, H; by apply HP.
  - intros A n P P' HP h. split; intros H x; apply (HP x), H.
  - intros A n P P' HP h. split; intros [x H]; exists x; by apply (HP x).
  - intros n P P' HP Q Q' HQ h.
    split; apply h_sep_elim_l; intros; by (apply HP || apply HQ).
  - intros n P P' HP Q Q' HQ h. split; intros H h' Hd Hp; apply HQ, H; try apply HP; done.
  - intros phi P H. split. intros h Hp. by apply H.
  - intros P Q R [H1] [H2]. split. intros h Hp. split; auto.
  - intros P Q R [H1] [H2]. split. intros h [Hp|Hp]; auto.
  - intros P Q R [H]. split. intros h Hp Hq. by apply H.
  - intros P Q R [H]. split. intros h [Hp Hq]. by apply H.
  - intros P P' Q Q' [H1] [H2]. split. intros h. by apply h_sep_elim_l.
  - intros P. split. intros h Hp. exists ∅, h. split; [by rewrite map_empty_union|].
    split; [apply map_disjoint_empty_l|done].
  - intros P. split. intros h (h1 & h2 & -> & _ & -> & H). by rewrite map_empty_union.
  - intros P Q. split. intros h. apply h_sep_comm.
  - intros P Q R. split. intros h. apply h_sep_assoc.
  - intros P Q R [H]. split. intros h Hp h' Hd Hq. apply H. exists h, h'. auto.
  - intros P Q R [H]. split. intros h (h1 & h2 & -> & Hd & Hp & Hq). by apply H.
Qed.

Lemma h_pers_mixin : BiPersistentlyMixin h_entails h_emp h_and h_exist h_sep h_pers.
Proof.
  eapply bi_persistently_mixin_discrete, h_bi_mixin; [done| |done].
  intros A P [H]. destruct (H ∅ eq_refl) as [x Hx]. exists x. split. by intros h ->.
Qed.

Lemma h_later_mixin :
  BiLaterMixin h_entails h_pure h_or h_impl h_forall h_exist h_sep h_pers id.
Proof. eapply bi_later_mixin_id, h_bi_mixin. done. Qed.
End assertions.
Arguments hprop : clear implicits.

Canonical Structure heapI (cell : Type) : bi :=
  {| bi_ofe_mixin := ofe_mixin_of (hprop cell);
     bi_bi_mixin := h_bi_mixin; bi_bi_persistently_mixin := h_pers_mixin;
     bi_bi_later_mixin := h_later_mixin |}.
(** ** Assertions about objects *)

Section rules.
Context {cell : Type} `{M : !Malloc cell}.
Implicit Types P Q R : heapI cell.

(** The heap is the one object [c] at [l]. *)
Definition pointsto (l : loc) (c : cell) : heapI cell := HProp (fun h => h = {[l := c]} /\ l <> NULL).

(** The heap has at least [k] objects. *)
Definition at_least (k : nat) : heapI cell := HProp (fun h => (k <= size h)%nat).

(** [m], run in a heap that holds what the assertion says and whatever else,
    is defined, leaves everything else alone, and makes [Phi] of the rest. *)
Definition wp {A} (m : C cell A) (Phi : A -> heapI cell) : heapI cell := HProp (fun h =>
  forall hf n, h ##ₘ hf ->
  exists x h' n', m (mk_cs (h ∪ hf) n) = Some (x, mk_cs (h' ∪ hf) n') /\ h' ##ₘ hf /\ holds (Phi x) h').

Lemma wp_ret {A} (x : A) (Phi : A -> heapI cell) : Phi x ⊢ wp (mret x) Phi.
Proof. split. intros h H hf n Hd. by exists x, h, n. Qed.

Lemma wp_bind {A B} (m : C cell A) (k : A -> C cell B) Phi : wp m (fun x => wp (k x) Phi) ⊢ wp (m ≫= k) Phi.
Proof.
  split. intros h H hf n Hd. destruct (H hf n Hd) as (x & h' & n' & Hm & Hd' & H').
  destruct (H' hf n' Hd') as (y & h2 & n2 & Hk & Hd2 & H2). exists y, h2, n2.
  split; [|done]. unfold mbind, C_bind. by rewrite Hm.
Qed.

Lemma wp_wand {A} (m : C cell A) (Phi Psi : A -> heapI cell) :
  wp m Phi ⊢ (∀ x, Phi x -∗ Psi x) -∗ wp m Psi.
Proof.
  split. intros h H h2 Hd Hw hf n Hd2. apply map_disjoint_union_l in Hd2 as [Hd1 Hd2].
  destruct (H (h2 ∪ hf) n) as (x & h' & n' & Hm & Hd' & H').
  { by apply map_disjoint_union_r. }
  apply map_disjoint_union_r in Hd' as [Hd' Hd''].
  exists x, (h2 ∪ h'), n'. rewrite (map_union_comm h2 h') // -!assoc Hm.
  split; [done|]. split; [by apply map_disjoint_union_l|].
  rewrite map_union_comm; [by apply Hw|done].
Qed.

(** ** Access *)

Lemma lookup_pointsto l (c : cell) (h : gmap loc cell) : ({[l := c]} ∪ h) !! l = Some c.
Proof. by rewrite -insert_union_singleton_l lookup_insert_eq. Qed.

Lemma wp_load l c (Phi : cell -> heapI cell) :
  pointsto l c ⊢ (pointsto l c -∗ Phi c) -∗ wp (load l) Phi.
Proof.
  split. intros h [-> Hl] h2 Hd Hw hf n Hd2. exists c, ({[l := c]} ∪ h2), n.
  split; [unfold load; simpl|].
  { by rewrite -assoc lookup_pointsto. }
  split; [done|]. rewrite map_union_comm; [by apply Hw|done].
Qed.

Lemma union_insert_singleton l (c c' : cell) (h : gmap loc cell) : {[l := c]} ##ₘ h ->
  <[l := c']> ({[l := c]} ∪ h) = {[l := c']} ∪ h.
Proof. intros H. by rewrite insert_union_l insert_singleton_eq. Qed.

Lemma wp_store l c c' (Phi : unit -> heapI cell) :
  pointsto l c ⊢ (pointsto l c' -∗ Phi tt) -∗ wp (store l c') Phi.
Proof.
  split. intros h [-> Hl] h2 Hd Hw hf n Hd2. apply map_disjoint_union_l in Hd2 as [Hd1 Hd2].
  assert (h2 ##ₘ {[l := c']}).
  { apply map_disjoint_singleton_r. by apply map_disjoint_singleton_l in Hd. }
  exists tt, (h2 ∪ {[l := c']}), n. split; [unfold store; simpl|].
  { rewrite -assoc lookup_pointsto /=.
    rewrite union_insert_singleton ?assoc; [by rewrite (map_union_comm h2)|].
    by apply map_disjoint_union_r. }
  split; [|by apply Hw].
  apply map_disjoint_union_l. split; [done|].
  apply map_disjoint_singleton_l. by apply map_disjoint_singleton_l in Hd1.
Qed.

Lemma wp_free l c (Phi : unit -> heapI cell) : pointsto l c ⊢ Phi tt -∗ wp (free l) Phi.
Proof.
  split. intros h [-> Hl] h2 Hd Hw hf n Hd2. apply map_disjoint_union_l in Hd2 as [Hd1 Hd2].
  exists tt, h2, n. split; [unfold free; simpl|by split].
  destruct (Z.eqb_spec l NULL); [done|].
  rewrite -assoc lookup_pointsto /=.
  rewrite delete_union delete_singleton_eq left_id_L delete_id //.
  apply lookup_union_None. split; [by apply map_disjoint_singleton_l in Hd|].
  by apply map_disjoint_singleton_l in Hd1.
Qed.

Lemma wp_free_null (Phi : unit -> heapI cell) : Phi tt ⊢ wp (free NULL) Phi.
Proof. split. intros h H hf n Hd. by exists tt, h, n. Qed.

(** Allocation gives NULL, if it ever does, or a new object. *)
Lemma wp_malloc c (Phi : loc -> heapI cell) :
  (⌜may_fail⌝ → Phi NULL) ∧ (∀ l, pointsto l c -∗ Phi l) ⊢ wp (malloc c) Phi.
Proof.
  split. intros h [Hn Hs] hf n Hd. unfold malloc; simpl.
  destruct (Z.eqb_spec (malloc_at (h ∪ hf) n) NULL) as [E|E].
  { exists NULL, h, (S n). rewrite E. split; [done|]. split; [done|]. apply Hn. by eexists _, _. }
  set (l := malloc_at _ _) in *. pose proof (malloc_unused _ _ E) as Hl. fold l in Hl.
  apply lookup_union_None in Hl as [Hl1 Hl2].
  assert (Hd' : h ##ₘ {[l := c]}) by by apply map_disjoint_singleton_r.
  exists l, (h ∪ {[l := c]}), (S n). split; [do 3 f_equal|].
  { rewrite -(map_union_comm {[l := c]}) // -assoc. by rewrite -insert_union_singleton_l. }
  split; [|by apply Hs].
  apply map_disjoint_union_l. split; [done|]. by apply map_disjoint_singleton_l.
Qed.

Lemma wp_undefined_free {A} (m : C cell A) Phi h n :
  holds (wp m Phi) h -> is_Some (m (mk_cs h n)).
Proof.
  intros H. destruct (H ∅ n) as (x & h' & n' & Hm & _); [apply map_disjoint_empty_r|].
  rewrite right_id_L in Hm. rewrite Hm. by eexists.
Qed.

(** ** Counting objects *)

Lemma at_least_sep k j : at_least k ∗ at_least j ⊢ at_least (k + j).
Proof.
  split. intros h (h1 & h2 & -> & Hd & H1 & H2). cbn in *. rewrite map_size_disj_union //. lia.
Qed.
Lemma at_least_pointsto l c : pointsto l c ⊢ at_least 1.
Proof. split. intros h [-> _]. cbn. by rewrite map_size_singleton. Qed.
Lemma at_least_mono k j : (k <= j)%nat -> at_least j ⊢ at_least k.
Proof. intros Hk. split. intros h H. cbn in *. lia. Qed.
Lemma at_least_0 P : P ⊢ at_least 0.
Proof. split. intros h _. cbn. lia. Qed.

#[export] Instance at_least_absorbing k : Absorbing (at_least k).
Proof.
  unfold Absorbing, bi_absorbingly. split. intros h (h1 & h2 & -> & Hd & _ & H). cbn in *.
  rewrite map_size_disj_union //. lia.
Qed.

(** A loop along [k] objects of the heap has the steps it needs. *)
Lemma wp_walk {A} k (loop : nat -> C cell A) P Phi :
  (P ⊢ at_least k) -> (forall fuel, (2 * k + 1 < fuel)%nat -> P ⊢ wp (loop fuel) Phi) -> P ⊢ wp (walk loop) Phi.
Proof.
  intros [Hk] H. split. intros h Hp hf n Hd. unfold walk; simpl. apply H; [|done|done].
  pose proof (Hk h Hp) as Hk'. cbn in Hk'. rewrite map_size_disj_union //. lia.
Qed.
End rules.

Notation "l ↦ c" := (pointsto l c) (at level 20, format "l  ↦  c") : bi_scope.

(** ** Proof steps *)

Section facts.
Context {cell : Type}.
Implicit Types c : cell.

Lemma pointsto_nonnull l c : l ↦ c ⊢ ⌜l <> NULL⌝.
Proof. split. by intros h [-> Hl]. Qed.

Lemma pointsto_ne l c l' c' : l ↦ c -∗ l' ↦ c' -∗ ⌜l <> l'⌝.
Proof.
  apply bi.entails_wand, bi.wand_intro_r. split. intros h (h1 & h2 & -> & Hd & [-> _] & [-> _]) ->.
  by apply map_disjoint_singleton_l in Hd; rewrite lookup_singleton_eq in Hd.
Qed.
End facts.

(** Runs the first command of a sequence with the rule [lem], which takes the
    assertion [H] and gives it back changed. *)
Tactic Notation "wp_run" open_constr(lem) constr(H) :=
  iApply wp_bind; iApply (lem with H); iIntros H.
