(* ===== verification/CJsonTree.v ===== *)
(** * The linked items of cJSON ([deps/cJSON/cJSON.c])

    What the rest of the library takes as trees ([Json]) is in the program a
    web of allocated items: an item points to its first child, the children of
    an item form a chain by [next], and [prev] of the first child points to the
    last one, so that appending takes no walk.  Here are the functions the
    program builds, searches, copies and frees messages with, pointer by
    pointer, on a heap whose [malloc] may fail at every call. *)
From S2P Require Import Prelude Cstr Json Effects.

(** ** Items *)

Definition cJSON_False : Z := 1.
Definition cJSON_True : Z := 2.
Definition cJSON_NULL : Z := 4.
Definition cJSON_Number : Z := 8.
Definition cJSON_String : Z := 16.
Definition cJSON_Array : Z := 32.
Definition cJSON_Object : Z := 64.
Definition cJSON_IsReference : Z := 256.
Definition cJSON_StringIsConst : Z := 512.

Record cJSON := mk_item {
  it_next : loc; it_prev : loc; it_child : loc; it_type : Z;
  it_valuestring : loc; it_valueint : Z; it_valuedouble : double; it_string : loc }.

(** An allocated object: an item, or the characters of a string. *)
Inductive ccell := CItem (i : cJSON) | CText (s : string).

Definition zero_item : cJSON := mk_item NULL NULL NULL 0 NULL 0 0 NULL.

Section cjson.
Context `{M : !Malloc ccell}.

Definition item_at (l : loc) : C ccell cJSON :=
  c ← load l; match c with CItem i => mret i | CText _ => undefined end.
Definition text_at (l : loc) : C ccell string :=
  c ← load l; match c with CText s => mret s | CItem _ => undefined end.
Definition change (l : loc) (f : cJSON -> cJSON) : C ccell unit :=
  i ← item_at l; store l (CItem (f i)).
Definition set_next p := fun i : cJSON => {| i with it_next := p |}.
Definition set_prev p := fun i : cJSON => {| i with it_prev := p |}.
Definition set_child p := fun i : cJSON => {| i with it_child := p |}.
Definition set_type t := fun i : cJSON => {| i with it_type := t |}.
Definition set_valuestring p := fun i : cJSON => {| i with it_valuestring := p |}.
Definition set_string p := fun i : cJSON => {| i with it_string := p |}.

Definition is_ref (t : Z) : bool := negb (Z.land t cJSON_IsReference =? 0).
Definition is_const (t : Z) : bool := negb (Z.land t cJSON_StringIsConst =? 0).

Definition cJSON_New_Item : C ccell loc := malloc (CItem zero_item).

(** The argument NULL is [None]. *)
Definition cJSON_strdup (s : option string) : C ccell loc :=
  match s with Some s => malloc (CText s) | None => mret NULL end.

(** ** Freeing *)

Fixpoint delete_loop (fuel : nat) (item : loc) : C ccell unit :=
  match fuel with
  | O => undefined
  | S f =>
      if item =? NULL then mret tt else
      i ← item_at item;
      let next := it_next i in
      (if negb (is_ref (it_type i)) && negb (it_child i =? NULL)
       then delete_loop f (it_child i) else mret tt);;
      i ← item_at item;
      (if negb (is_ref (it_type i)) && negb (it_valuestring i =? NULL)
       then free (it_valuestring i);; change item (set_valuestring NULL) else mret tt);;
      i ← item_at item;
      (if negb (is_const (it_type i)) && negb (it_string i =? NULL)
       then free (it_string i);; change item (set_string NULL) else mret tt);;
      free item;;
      delete_loop f next
  end.
Definition cJSON_Delete (item : loc) : C ccell unit := walk (fun fuel => delete_loop fuel item).

(** ** Looking at arrays and objects *)

Fixpoint count_children (fuel : nat) (child : loc) (size : Z) : C ccell Z :=
  match fuel with
  | O => undefined
  | S f => if child =? NULL then mret size else
           i ← item_at child; count_children f (it_next i) (size + 1)
  end.
Definition cJSON_GetArraySize (array : loc) : C ccell Z :=
  if array =? NULL then mret 0 else
  i ← item_at array;
  n ← walk (fun fuel => count_children fuel (it_child i) 0);
  mret (i32 n).

Fixpoint nth_child (fuel : nat) (child : loc) (index : Z) : C ccell loc :=
  match fuel with
  | O => undefined
  | S f => if negb (child =? NULL) && (0 <? index)
           then i ← item_at child; nth_child f (it_next i) (index - 1)
           else mret child
  end.
Definition get_array_item (array : loc) (index : Z) : C ccell loc :=
  if array =? NULL then mret NULL else
  i ← item_at array; walk (fun fuel => nth_child fuel (it_child i) index).
Definition cJSON_GetArrayItem (array : loc) (index : Z) : C ccell loc :=
  if index <? 0 then mret NULL else get_array_item array index.

(** Whether the search for [name] stops at a child with the name at [string]:
    the search that minds the case stops at a child without a name. *)
Definition stops_at (case_sensitive : bool) (name : string) (string : loc) : C ccell bool :=
  if string =? NULL then mret case_sensitive else
  s ← text_at string;
  mret (if case_sensitive then streq name s else streqi (bytes_of_string name) (bytes_of_string s)).

Fixpoint find_child (fuel : nat) (case_sensitive : bool) (name : string) (child : loc) : C ccell loc :=
  match fuel with
  | O => undefined
  | S f => if child =? NULL then mret NULL else
           i ← item_at child;
           stop ← stops_at case_sensitive name (it_string i);
           if stop : bool then mret child else find_child f case_sensitive name (it_next i)
  end.
Definition get_object_item (object : loc) (name : option string) (case_sensitive : bool) : C ccell loc :=
  match name with
  | Some name =>
      if object =? NULL then mret NULL else
      i ← item_at object;
      cur ← walk (fun fuel => find_child fuel case_sensitive name (it_child i));
      if cur =? NULL then mret NULL else
      c ← item_at cur;
      mret (if it_string c =? NULL then NULL else cur)
  | None => mret NULL
  end.
Definition cJSON_GetObjectItem (object : loc) (string : string) : C ccell loc :=
  get_object_item object (Some string) false.
Definition cJSON_GetObjectItemCaseSensitive (object : loc) (string : string) : C ccell loc :=
  get_object_item object (Some string) true.

(** ** Appending *)

Definition suffix_object (prev item : loc) : C ccell unit :=
  change prev (set_next item);; change item (set_prev prev).

Definition add_item_to_array (array item : loc) : C ccell bool :=
  if (item =? NULL) || (array =? NULL) || (array =? item) then mret false else
  a ← item_at array;
  let child := it_child a in
  if child =? NULL then
    change array (set_child item);;
    change item (set_prev item);;
    change item (set_next NULL);;
    mret true
  else
    c ← item_at child;
    (if negb (it_prev c =? NULL) then
       suffix_object (it_prev c) item;;
       a ← item_at array;
       change (it_child a) (set_prev item)
     else mret tt);;
    mret true.
Definition cJSON_AddItemToArray (array item : loc) : C ccell bool := add_item_to_array array item.

(** A key is copied, or is a constant the item will point to. *)
Inductive cjson_key := KeyCopied (s : option string) | KeyConstant (p : loc).

Definition add_item_to_object (object : loc) (key : cjson_key) (item : loc) : C ccell bool :=
  let nokey := match key with KeyCopied None => true | KeyConstant p => p =? NULL | _ => false end in
  if (object =? NULL) || nokey || (item =? NULL) || (object =? item) then mret false else
  new_key ← match key with KeyConstant p => mret p | KeyCopied s => cJSON_strdup s end;
  if new_key =? NULL then mret false else
  i ← item_at item;
  let new_type := match key with
                  | KeyConstant _ => Z.lor (it_type i) cJSON_StringIsConst
                  | KeyCopied _ => Z.ldiff (it_type i) cJSON_StringIsConst
                  end in
  (if negb (is_const (it_type i)) && negb (it_string i =? NULL) then free (it_string i) else mret tt);;
  change item (set_string new_key);;
  change item (set_type new_type);;
  add_item_to_array object item.
Definition cJSON_AddItemToObject (object : loc) (string : string) (item : loc) : C ccell bool :=
  add_item_to_object object (KeyCopied (Some string)) item.

(** ** Creating items *)

(** A new item that [f] fills in, or NULL. *)
Definition create (f : cJSON -> cJSON) : C ccell loc :=
  item ← cJSON_New_Item;
  (if negb (item =? NULL) then change item f else mret tt);;
  mret item.
Definition cJSON_CreateNull : C ccell loc := create (set_type cJSON_NULL).
Definition cJSON_CreateBool (boolean : bool) : C ccell loc :=
  create (set_type (if boolean then cJSON_True else cJSON_False)).
Definition cJSON_CreateArray : C ccell loc := create (set_type cJSON_Array).
Definition cJSON_CreateObject : C ccell loc := create (set_type cJSON_Object).
(** [valueint] saturates ([Json.valueint]). *)
Definition cJSON_CreateNumber (num : double) : C ccell loc :=
  create (fun i => {| i with it_type := cJSON_Number; it_valuedouble := num; it_valueint := valueint num |}).
Definition cJSON_CreateString (string : option string) : C ccell loc :=
  item ← cJSON_New_Item;
  if item =? NULL then mret NULL else
  change item (set_type cJSON_String);;
  p ← cJSON_strdup string;
  change item (set_valuestring p);;
  if p =? NULL then cJSON_Delete item;; mret NULL else mret item.

(** What [cJSON_Add..ToObject] do with the item they made. *)
Definition add_or_delete (object : loc) (name : string) (item : loc) : C ccell loc :=
  added ← add_item_to_object object (KeyCopied (Some name)) item;
  if added : bool then mret item else cJSON_Delete item;; mret NULL.
Definition cJSON_AddNullToObject (object : loc) (name : string) : C ccell loc :=
  item ← cJSON_CreateNull; add_or_delete object name item.
Definition cJSON_AddBoolToObject (object : loc) (name : string) (boolean : bool) : C ccell loc :=
  item ← cJSON_CreateBool boolean; add_or_delete object name item.
Definition cJSON_AddNumberToObject (object : loc) (name : string) (number : double) : C ccell loc :=
  item ← cJSON_CreateNumber number; add_or_delete object name item.
Definition cJSON_AddStringToObject (object : loc) (name : string) (string : option string) : C ccell loc :=
  item ← cJSON_CreateString string; add_or_delete object name item.
Definition cJSON_AddObjectToObject (object : loc) (name : string) : C ccell loc :=
  item ← cJSON_CreateObject; add_or_delete object name item.
Definition cJSON_AddArrayToObject (object : loc) (name : string) : C ccell loc :=
  item ← cJSON_CreateArray; add_or_delete object name item.

(** The loop of [cJSON_CreateStringArray]: [p] is the last item so far. *)
Fixpoint string_items (a p : loc) (first : bool) (strings : list (option string)) : C ccell (option loc) :=
  match strings with
  | [] => mret (Some p)
  | s :: strings' =>
      n ← cJSON_CreateString s;
      if n =? NULL then cJSON_Delete a;; mret None else
      (if first then change a (set_child n) else suffix_object p n);;
      string_items a n false strings'
  end.
Definition cJSON_CreateStringArray (strings : list (option string)) : C ccell loc :=
  a ← cJSON_CreateArray;
  if a =? NULL then mret NULL else
  last ← string_items a NULL true strings;
  match last with
  | None => mret NULL
  | Some n =>
      i ← item_at a;
      (if negb (it_child i =? NULL) then change (it_child i) (set_prev n) else mret tt);;
      mret a
  end.

(** ** Copying *)

Definition CJSON_CIRCULAR_LIMIT : Z := 10000.

(** A string of the original, copied: NULL when there was none, [None] when
    there is no memory for it. *)
Definition dup_text (p : loc) : C ccell (option loc) :=
  if p =? NULL then mret (Some NULL) else
  s ← text_at p;
  q ← cJSON_strdup (Some s);
  mret (if q =? NULL then None else Some q).

(** The item itself, without its children. *)
Definition dup_fields (item newitem : loc) : C ccell bool :=
  i ← item_at item;
  change newitem (fun n => {| n with it_type := Z.ldiff (it_type i) cJSON_IsReference;
                                     it_valueint := it_valueint i; it_valuedouble := it_valuedouble i |});;
  vs ← dup_text (it_valuestring i);
  match vs with
  | None => mret false
  | Some vs =>
      (if it_valuestring i =? NULL then mret tt else change newitem (set_valuestring vs));;
      ks ← (if is_const (it_type i) then mret (Some (it_string i)) else dup_text (it_string i));
      match ks with
      | None => mret false
      | Some ks =>
          (if it_string i =? NULL then mret tt else change newitem (set_string ks));;
          mret true
      end
  end.

Definition dup_fail (newitem : loc) : C ccell loc := cJSON_Delete newitem;; mret NULL.

Fixpoint cJSON_Duplicate_rec (fuel : nat) (item : loc) (depth : Z) (recurse : bool) : C ccell loc :=
  match fuel with
  | O => undefined
  | S f =>
      if item =? NULL then mret NULL else
      newitem ← cJSON_New_Item;
      if newitem =? NULL then mret NULL else
      ok ← dup_fields item newitem;
      if negb ok then dup_fail newitem else
      if negb recurse then mret newitem else
      i ← item_at item;
      last ← dup_children f newitem (it_child i) NULL depth;
      match last with
      | None => dup_fail newitem
      | Some newchild =>
          n ← item_at newitem;
          (if negb (it_child n =? NULL) then change (it_child n) (set_prev newchild) else mret tt);;
          mret newitem
      end
  end
(** The chain of children; [next] is the last copy made, [None] a failure. *)
with dup_children (fuel : nat) (newitem child next : loc) (depth : Z) : C ccell (option loc) :=
  match fuel with
  | O => undefined
  | S f =>
      if child =? NULL then mret (Some next) else
      if CJSON_CIRCULAR_LIMIT <=? depth then mret None else
      newchild ← cJSON_Duplicate_rec f child (depth + 1) true;
      if newchild =? NULL then mret None else
      (if negb (next =? NULL)
       then change next (set_next newchild);; change newchild (set_prev next)
       else change newitem (set_child newchild));;
      c ← item_at child;
      dup_children f newitem (it_next c) newchild depth
  end.
Definition cJSON_Duplicate (item : loc) (recurse : bool) : C ccell loc :=
  walk (fun fuel => cJSON_Duplicate_rec fuel item 0 recurse).

(** ** Kinds of items, and the accessors of [util/json_helpers.c] *)

Definition has_type (types mask : Z) (item : loc) : C ccell bool :=
  if item =? NULL then mret false else
  i ← item_at item; mret (Z.land (it_type i) mask =? types).
Definition cJSON_IsTrue := has_type cJSON_True 255.
Definition cJSON_IsNull := has_type cJSON_NULL 255.
Definition cJSON_IsNumber := has_type cJSON_Number 255.
Definition cJSON_IsString := has_type cJSON_String 255.
Definition cJSON_IsArray := has_type cJSON_Array 255.
Definition cJSON_IsObject := has_type cJSON_Object 255.
Definition cJSON_IsBool (item : loc) : C ccell bool :=
  if item =? NULL then mret false else
  i ← item_at item; mret (negb (Z.land (it_type i) (Z.lor cJSON_True cJSON_False) =? 0)).

Definition sm_json_get_string (obj : loc) (key : string) : C ccell loc :=
  item ← cJSON_GetObjectItemCaseSensitive obj key;
  s ← cJSON_IsString item;
  if s : bool then i ← item_at item; mret (it_valuestring i) else mret NULL.
Definition sm_json_get_int (obj : loc) (key : string) (def : Z) : C ccell Z :=
  item ← cJSON_GetObjectItemCaseSensitive obj key;
  s ← cJSON_IsNumber item;
  if s : bool then i ← item_at item; mret (it_valueint i) else mret def.
Definition sm_json_get_bool (obj : loc) (key : string) (def : bool) : C ccell bool :=
  item ← cJSON_GetObjectItemCaseSensitive obj key;
  s ← cJSON_IsBool item;
  if s : bool then cJSON_IsTrue item else mret def.
Definition sm_json_get_double (obj : loc) (key : string) (def : double) : C ccell double :=
  item ← cJSON_GetObjectItemCaseSensitive obj key;
  s ← cJSON_IsNumber item;
  if s : bool then i ← item_at item; mret (it_valuedouble i) else mret def.
End cjson.
