(* ===== verification/CJsonOps.v ===== *)
(** The items of cJSON in the heap: which heap holds which tree, and what each
    operation does to it. *)

(** * Trees in the heap

    Which heaps hold which tree: [item k j l prev next] says that the heap is
    exactly the items and strings of the tree [j] at address [l], with name
    [k], linked to its siblings [prev] and [next].  The lemmas open an item or
    a chain of siblings to follow or change a link and close it again. *)
From stdpp Require Import gmap.
From iris.proofmode Require Import proofmode.
From S2P Require Import Prelude Cstr Json Effects HeapLogic CJsonTree.

(** ** Chains of siblings *)

(** What the heap holds for one sibling, given its address and its links. *)
Abbreviation sibling := (loc -> loc -> loc -> heapI ccell) (only parsing).

(** The siblings [Ps], from [first] to [last], between [prev] and [next]. *)
Fixpoint chain (Ps : list sibling) (first prev last next : loc) : heapI ccell :=
  match Ps with
  | [] => <affine> ⌜first = next /\ last = prev⌝
  | P :: Ps' => ∃ n, P first prev n ∗ chain Ps' n first last next
  end%I.

Lemma chain_app Ps Qs first prev last next :
  chain (Ps ++ Qs) first prev last next ⊣⊢ ∃ m q, chain Ps first prev q m ∗ chain Qs m q last next.
Proof.
  revert first prev. induction Ps as [|P Ps IH]; intros first prev; simpl.
  - iSplit.
    + iIntros "H". iExists first, prev. by iFrame.
    + iIntros "(%m & %q & %E & H)". destruct E as [-> ->]. iFrame.
  - iSplit.
    + iIntros "(%n & HP & H)". rewrite IH. iDestruct "H" as "(%m & %q & H1 & H2)".
      iExists m, q. iFrame.
    + iIntros "(%m & %q & (%n & HP & H1) & H2)". iExists n. iFrame. rewrite IH. iExists m, q. iFrame.
Qed.

(** ** Items *)

Definition text (p : loc) (s : option string) : heapI ccell :=
  match s with Some s => p ↦ CText s | None => <affine> ⌜p = NULL⌝ end%I.

Definition kind (j : json) : Z :=
  match j with
  | JNull => cJSON_NULL
  | JBool b => if b then cJSON_True else cJSON_False
  | JNum _ => cJSON_Number
  | JStr _ => cJSON_String
  | JArr _ => cJSON_Array
  | JObj _ => cJSON_Object
  end.

(** The fields that hold the value itself. *)
Definition fits (i : cJSON) (j : json) : Prop :=
  it_type i = kind j /\
  match j with JNum d => it_valuedouble i = d /\ it_valueint i = valueint d | _ => True end.
Definition string_of (j : json) : option string := match j with JStr s => Some s | _ => None end.

(** [prev] of the first child is the last one; an item of an array may have a
    name, which nobody looks at. *)
Fixpoint item (k : option string) (j : json) (l prev next : loc) : heapI ccell :=
  (let kids := match j with
               | JArr js => map (fun j l p n => ∃ k, item k j l p n)%I js
               | JObj ms => map (fun '(k, v) => item (Some k) v) ms
               | _ => []
               end in
   ∃ i last, l ↦ CItem i ∗ <affine> ⌜it_next i = next /\ it_prev i = prev /\ fits i j⌝ ∗
             text (it_string i) k ∗ text (it_valuestring i) (string_of j) ∗
             chain kids (it_child i) last last NULL)%I.

Definition element (j : json) : sibling := fun l p n => (∃ k, item k j l p n)%I.
Definition member (kv : string * json) : sibling := item (Some kv.1) kv.2.
Definition children (j : json) : list sibling :=
  match j with JArr js => map element js | JObj ms => map member ms | _ => [] end.

(** An item with the fields [i]. *)
Definition node (k : option string) (j : json) (l : loc) (i : cJSON) : heapI ccell :=
  (∃ last, l ↦ CItem i ∗ <affine> ⌜fits i j⌝ ∗ text (it_string i) k ∗
           text (it_valuestring i) (string_of j) ∗ chain (children j) (it_child i) last last NULL)%I.

(** An item that may be half built: its strings and the children it has, whose
    first one need not know the last one. *)
Definition shell (k vs : option string) (Ps : list sibling) (l : loc) (i : cJSON) : heapI ccell :=
  (∃ prev last, l ↦ CItem i ∗ text (it_string i) k ∗ text (it_valuestring i) vs ∗
                chain Ps (it_child i) prev last NULL)%I.
Lemma node_shell k j l i : node k j l i ⊢ shell k (string_of j) (children j) l i.
Proof. iIntros "(%last & Hl & _ & H)". iExists last, last. iFrame. Qed.

Lemma item_open k j l prev next :
  item k j l prev next ⊣⊢ ∃ i, <affine> ⌜it_next i = next /\ it_prev i = prev⌝ ∗ node k j l i.
Proof.
  assert (H : forall kids, kids = children j ->
    (∃ i last, l ↦ CItem i ∗ <affine> ⌜it_next i = next /\ it_prev i = prev /\ fits i j⌝ ∗
               text (it_string i) k ∗ text (it_valuestring i) (string_of j) ∗
               chain kids (it_child i) last last NULL) ⊣⊢
    ∃ i, <affine> ⌜it_next i = next /\ it_prev i = prev⌝ ∗ node k j l i).
  { intros kids ->. unfold node. iSplit.
    - iIntros "(%i & %last & Hl & %E & Hk & Hv & Hc)". destruct E as (? & ? & ?).
      iExists i. iSplit; [done|]. iExists last. by iFrame.
    - iIntros "(%i & %E & %last & Hl & %F & Hk & Hv & Hc)". destruct E.
      iExists i, last. by iFrame. }
  destruct j; [apply H; done..|]. apply H. cbn. apply map_ext. by intros [].
Qed.

(** The number of items of a tree. *)
Fixpoint items (j : json) : nat :=
  match j with
  | JArr js => S (list_sum (map items js))
  | JObj ms => S (list_sum (map (fun '(_, v) => items v) ms))
  | _ => 1
  end.
Definition child_items (j : json) : list nat :=
  match j with JArr js => map items js | JObj ms => map (fun kv => items kv.2) ms | _ => [] end.
Lemma items_children j : items j = S (list_sum (child_items j)).
Proof. destruct j; [done..|]. cbn. do 2 f_equal. apply map_ext. by intros []. Qed.

(** ** Links *)

Definition relink (p n : loc) (i : cJSON) : cJSON := {| i with it_prev := p; it_next := n |}.

(** A sibling whose links can be read and changed. *)
Definition linked (P : sibling) : Prop := forall l p n,
  P l p n ⊢ ∃ i, <affine> ⌜it_next i = n /\ it_prev i = p⌝ ∗ l ↦ CItem i ∗
                 (∀ p' n', l ↦ CItem (relink p' n' i) -∗ P l p' n').

Lemma linked_open P l p n : linked P ->
  P l p n ⊢ ∃ i, <affine> ⌜it_next i = n /\ it_prev i = p⌝ ∗ l ↦ CItem i ∗
                 (∀ p' n', l ↦ CItem (relink p' n' i) -∗ P l p' n').
Proof. intros H. apply H. Qed.

Lemma item_linked k j : linked (item k j).
Proof.
  intros l p n. rewrite item_open. iIntros "(%i & %E & %last & Hl & %F & H)". destruct E as [Hn Hp].
  iExists i. iFrame. iSplit; [done|]. iIntros (p' n') "Hl". rewrite item_open.
  iExists (relink p' n' i). iSplit; [done|]. iExists last. by iFrame.
Qed.

Lemma element_linked j : linked (element j).
Proof.
  intros l p n. iIntros "(%k & H)". iDestruct (linked_open _ _ _ _ (item_linked k j) with "H") as "(%i & Hi & Hl & H)".
  iExists i. iFrame. iIntros (p' n') "Hl". iExists k. by iApply "H".
Qed.

Lemma elements_linked js : Forall linked (map element js).
Proof. apply List.Forall_map, Forall_true. apply element_linked. Qed.
Lemma members_linked ms : Forall linked (map member ms).
Proof. apply List.Forall_map, Forall_true. intros kv. apply item_linked. Qed.

(** The first sibling: its [prev] can change. *)
Lemma chain_first P Ps first prev last next : linked P ->
  chain (P :: Ps) first prev last next ⊢
  ∃ i, <affine> ⌜it_prev i = prev⌝ ∗ first ↦ CItem i ∗
       (∀ p', first ↦ CItem (set_prev p' i) -∗ chain (P :: Ps) first p' last next).
Proof.
  iIntros (HP) "(%n & H & Hc)". iDestruct (linked_open _ _ _ _ HP with "H") as "(%i & %E & Hl & H)"; destruct E as [Hn Hp].
  iExists i. iFrame. iSplit; [done|]. iIntros (p') "Hl". iExists n. iFrame. iApply "H".
  by rewrite -Hn.
Qed.

(** The last sibling: its [next] can change. *)
Lemma chain_last P Ps first prev last next : linked P ->
  chain (Ps ++ [P]) first prev last next ⊢
  ∃ i, <affine> ⌜it_next i = next⌝ ∗ last ↦ CItem i ∗
       (∀ n', last ↦ CItem (set_next n' i) -∗ chain (Ps ++ [P]) first prev last n').
Proof.
  iIntros (HP) "H". rewrite chain_app. iDestruct "H" as "(%m & %q & H1 & %n & H & %E)"; destruct E as [-> ->].
  iDestruct (linked_open _ _ _ _ HP with "H") as "(%i & %E & Hl & H)"; destruct E as [Hn Hp].
  iExists i. iFrame. iSplit; [done|]. iIntros (n') "Hl". rewrite chain_app. iExists m, q. iFrame "H1".
  iExists n'. iSplit; [|by iPureIntro]. iApply "H". by rewrite -Hp.
Qed.

Lemma children_linked j : Forall linked (children j).
Proof. destruct j; [constructor..|apply elements_linked|apply members_linked]. Qed.

(** The chain is empty exactly when it starts with NULL. *)
Lemma chain_null Ps prev last : Forall linked Ps ->
  chain Ps NULL prev last NULL ⊢ <affine> ⌜Ps = [] /\ last = prev⌝.
Proof.
  destruct 1 as [|P Ps HP _]; simpl; [iIntros "%E"; iPureIntro; naive_solver|].
  iIntros "(%n & H & Hc)". iDestruct (linked_open _ _ _ _ HP with "H") as "(%i & Hi & Hl & Hw)".
  by iDestruct (pointsto_nonnull with "Hl") as %Hn.
Qed.
Lemma chain_nonnull P Ps first prev last next : linked P ->
  chain (P :: Ps) first prev last next ⊢ ⌜first <> NULL⌝.
Proof.
  iIntros (HP) "H". iDestruct (chain_first _ _ _ _ _ _ HP with "H") as "(%i & Hi & Hl & Hw)".
  by iDestruct (pointsto_nonnull with "Hl") as %Hn.
Qed.

(** ** One child among its siblings *)

Definition focus {A} (F : A -> sibling) (xs1 : list A) (x : A) (xs2 : list A)
    (first prev last q : loc) : heapI ccell :=
  (∃ a b, chain (map F xs1) first prev a q ∗ F x q a b ∗ chain (map F xs2) b q last NULL)%I.

Lemma focus_chain {A} (F : A -> sibling) xs1 x xs2 first prev last q :
  focus F xs1 x xs2 first prev last q ⊢ chain (map F (xs1 ++ x :: xs2)) first prev last NULL.
Proof.
  iIntros "(%a & %b & H1 & H & H2)". rewrite map_app chain_app. iExists q, a. iFrame "H1".
  cbn [List.map chain]. iExists b. iFrame.
Qed.

Lemma focus_here {A} (F : A -> sibling) x xs first prev last :
  chain (map F (x :: xs)) first prev last NULL ⊢ focus F [] x xs first prev last first.
Proof. iIntros "(%n & H & Hc)". iExists prev, n. iFrame. by iPureIntro. Qed.

Lemma focus_later {A} (F : A -> sibling) y n xs1 x xs2 first prev last q :
  F y first prev n ∗ focus F xs1 x xs2 n first last q ⊢ focus F (y :: xs1) x xs2 first prev last q.
Proof. iIntros "[H (%a & %b & H1 & H2 & H3)]". iExists a, b. iFrame. Qed.

(** * What the operations on items do to trees

    Every function of [CJsonTree] against the tree its items hold: it is
    defined (no access or [free] of what is not allocated), changes the tree as
    its model in [Json] does, and frees or leaks nothing else. *)

(** What is left of the members of a message when memory is short: some are
    missing, some strings are empty. *)
Inductive lost : list (string * json) -> list (string * json) -> Prop :=
  | lost_nil : lost [] []
  | lost_keep x l l' : lost l l' -> lost (x :: l) (x :: l')
  | lost_skip x l l' : lost l l' -> lost l (x :: l')
  | lost_text k s l l' : lost l l' -> lost ((k, JStr ""%string) :: l) ((k, JStr s) :: l').

Lemma lost_app a b c d : lost a b -> lost c d -> lost (a ++ c) (b ++ d).
Proof. induction 1; intros; simpl; [done|apply lost_keep|apply lost_skip|apply lost_text]; auto. Qed.
Lemma lost_app_skip a b x : lost a b -> lost a (b ++ [x]).
Proof. intros H. rewrite -(app_nil_r a). apply lost_app; [done|]. repeat constructor. Qed.
Lemma lost_app_keep a b x : lost a b -> lost (a ++ [x]) (b ++ [x]).
Proof. intros H. apply lost_app; [done|]. repeat constructor. Qed.
Lemma lost_app_empty a b k s : lost a (b ++ [(k, JStr ""%string)]) -> lost a (b ++ [(k, JStr s)]).
Proof.
  revert a. induction b as [|x b IH]; intros a H; inversion H; subst; cbn in *.
  - apply lost_text. done.
  - by apply lost_skip.
  - by apply lost_text.
  - apply lost_keep, IH. done.
  - apply lost_skip, IH. done.
  - apply lost_text, IH. done.
Qed.

Section ops.
Context `{M : !Malloc ccell}.

(** ** Fields *)

Lemma wp_item_at l i Phi : l ↦ CItem i ⊢ (l ↦ CItem i -∗ Phi i) -∗ wp (item_at l) Phi.
Proof.
  iIntros "H HP". wp_run wp_load "H". iApply wp_ret. by iApply "HP".
Qed.
Lemma wp_text_at l s Phi : l ↦ CText s ⊢ (l ↦ CText s -∗ Phi s) -∗ wp (text_at l) Phi.
Proof.
  iIntros "H HP". wp_run wp_load "H". iApply wp_ret. by iApply "HP".
Qed.
Lemma wp_change l f i Phi : l ↦ CItem i ⊢ (l ↦ CItem (f i) -∗ Phi tt) -∗ wp (change l f) Phi.
Proof.
  iIntros "H HP". wp_run wp_item_at "H". by iApply (wp_store with "H").
Qed.

(** ** Freeing *)

(** The sibling is at least [c] items, and freeing it takes as many steps. *)
Definition deletable (c : nat) (P : sibling) : Prop := forall l p n,
  (P l p n ⊢ at_least c) /\ (1 <= c)%nat /\
  forall f Phi, (c <= f)%nat -> P l p n ⊢ wp (delete_loop f n) Phi -∗ wp (delete_loop (S f) l) Phi.

Lemma chain_delete cs Ps first prev last f Phi :
  Forall2 deletable cs Ps -> (list_sum cs < f)%nat ->
  chain Ps first prev last NULL ⊢ Phi tt -∗ wp (delete_loop f first) Phi.
Proof.
  intros H. revert first prev f. induction H as [|c P cs Ps HP _ IH]; intros first prev f Hf; simpl in Hf.
  - destruct f as [|f]; [lia|]. iIntros "%E HP". destruct E as [-> ->]. simpl. by iApply wp_ret.
  - iIntros "(%n & HP & Hc) HPhi". destruct (HP first prev n) as (_ & H1 & Hd).
    destruct f as [|f]; [lia|]. iApply (Hd f with "HP"); [lia|].
    iApply (IH with "Hc HPhi"). lia.
Qed.

Lemma chain_at_least cs Ps first prev last next : Forall2 deletable cs Ps ->
  chain Ps first prev last next ⊢ at_least (list_sum cs).
Proof.
  intros H. revert first prev. induction H as [|c P cs Ps HP _ IH]; intros first prev; simpl.
  - apply at_least_0.
  - iIntros "(%n & HP & Hc)". iApply at_least_sep. destruct (HP first prev n) as (H1 & _).
    iSplitL "HP"; [by iApply H1|by iApply IH].
Qed.

(** A string is freed with its item, if there is one. *)
Lemma free_text l i p k set (Phi : unit -> heapI ccell) :
  l ↦ CItem i ∗ text p k ⊢
  (∀ i', ⌜i' = i \/ i' = set i⌝ → l ↦ CItem i' -∗ Phi tt) -∗
  wp (if negb (p =? NULL) then free p;; change l set else mret tt) Phi.
Proof.
  iIntros "[Hl Ht] HPhi". destruct k as [s|]; simpl.
  - iDestruct (pointsto_nonnull with "Ht") as %Hp. rewrite (proj2 (Z.eqb_neq _ _) Hp). simpl.
    iApply wp_bind. iApply (wp_free with "Ht"). iApply (wp_change with "Hl").
    iApply "HPhi". iPureIntro. by right.
  - iDestruct "Ht" as %->. simpl. iApply wp_ret. iApply ("HPhi" with "[] Hl"). iPureIntro. by left.
Qed.

Lemma kind_flags j : is_ref (kind j) = false /\ is_const (kind j) = false.
Proof. destruct j as [|[]| | | |]; done. Qed.

Definition owns_strings (i : cJSON) : Prop := is_ref (it_type i) = false /\ is_const (it_type i) = false.
Lemma fits_owns i j : fits i j -> owns_strings i.
Proof. intros [H _]. unfold owns_strings. rewrite H. apply kind_flags. Qed.

(** Freeing an item frees the children first, then what follows it. *)
Lemma delete_shell k vs Ps l i f Phi : owns_strings i -> Forall linked Ps ->
  (forall first prev last Psi, chain Ps first prev last NULL ⊢ Psi tt -∗ wp (delete_loop f first) Psi) ->
  shell k vs Ps l i ⊢ wp (delete_loop f (it_next i)) Phi -∗ wp (delete_loop (S f) l) Phi.
Proof.
  intros [Hr Hc] Hlinked Hkids.
  iIntros "(%prev & %last & Hl & Hk & Hv & Hch) HP". cbn [delete_loop].
  iDestruct (pointsto_nonnull with "Hl") as %Hnn. rewrite (proj2 (Z.eqb_neq _ _) Hnn).
  wp_run wp_item_at "Hl". rewrite Hr. cbn [negb andb].
  iApply (wp_bind (A := unit)).
  iAssert (∀ Psi, Psi tt -∗ wp (if negb (it_child i =? NULL) then delete_loop f (it_child i) else mret tt) Psi)%I
    with "[Hch]" as "Hd".
  { iIntros (Psi) "HPsi". destruct (Z.eqb_spec (it_child i) NULL) as [E|E]; cbn [negb].
    - rewrite E. iDestruct (chain_null with "Hch") as "_"; [done|]. by iApply wp_ret.
    - iApply (Hkids with "Hch HPsi"). }
  iApply "Hd". wp_run wp_item_at "Hl". rewrite Hr. cbn [negb andb].
  iApply (wp_bind (A := unit)). iApply (free_text with "[$Hl $Hv]"). iIntros (i1 Hi1) "Hl".
  assert (it_type i1 = it_type i /\ it_string i1 = it_string i) as [Ht1 Hs1] by by destruct Hi1 as [->| ->].
  wp_run wp_item_at "Hl". rewrite Ht1 Hc Hs1. cbn [negb andb].
  iApply (wp_bind (A := unit)). iApply (free_text with "[$Hl $Hk]"). iIntros (i2 Hi2) "Hl".
  iApply wp_bind. by iApply (wp_free with "Hl").
Qed.

Lemma item_deletable_children j k :
  Forall2 deletable (child_items j) (children j) -> deletable (items j) (item k j).
Proof.
  intros H l p n. rewrite items_children. split; [|split; [lia|]].
  - rewrite item_open. iIntros "(%i & _ & %last & Hl & _ & Hk & Hv & Hc)". iClear "Hk Hv".
    change (S ?x) with (1 + x)%nat. iApply at_least_sep. iSplitL "Hl"; [by iApply at_least_pointsto|].
    by iApply (chain_at_least with "Hc").
  - intros f Phi Hf. rewrite item_open. iIntros "(%i & %E & H)". destruct E as [<- _].
    iDestruct "H" as "(%last & Hl & %F & H)". iApply (delete_shell with "[Hl H]").
    + by eapply fits_owns.
    + apply children_linked.
    + intros first prev last' Psi. apply (chain_delete (child_items j)); [done|lia].
    + iExists last, last. iFrame.
Qed.

Lemma element_deletable j : (forall k, deletable (items j) (item k j)) -> deletable (items j) (element j).
Proof.
  intros Hj l p n. split; [|split].
  - iIntros "(%k & H)". destruct (Hj k l p n) as (H1 & _). by iApply H1.
  - by destruct (Hj None l p n) as (_ & H1 & _).
  - iIntros (f Phi Hf) "(%k & H)". destruct (Hj k l p n) as (_ & _ & H1). by iApply H1.
Qed.

Lemma children_deletable_of j :
  match j with
  | JArr js => Forall (fun j => forall k, deletable (items j) (item k j)) js
  | JObj ms => Forall (fun kv => forall k, deletable (items kv.2) (item k kv.2)) ms
  | _ => True
  end -> Forall2 deletable (child_items j) (children j).
Proof.
  destruct j as [| | | |js|ms]; try constructor; cbn.
  - induction 1 as [|j js Hj _ IH]; cbn; constructor; [|done]. by apply element_deletable.
  - induction 1 as [|kv ms Hj _ IH]; cbn; constructor; [|done]. apply Hj.
Qed.

Lemma item_deletable j k : deletable (items j) (item k j).
Proof.
  revert k. induction j using json_nested_ind; intros k;
    by apply item_deletable_children, children_deletable_of.
Qed.

Lemma children_deletable j : Forall2 deletable (child_items j) (children j).
Proof. apply children_deletable_of. destruct j; [done..| |]; apply Forall_true; intros ? k; apply item_deletable. Qed.

Definition freeable (P : sibling) : Prop := exists c, deletable c P.
Lemma freeable_counts Ps : Forall freeable Ps -> exists cs, Forall2 deletable cs Ps.
Proof.
  induction 1 as [|P Ps [c HP] _ [cs IH]]; [by exists []|]. exists (c :: cs). by constructor.
Qed.
Lemma children_freeable j : Forall freeable (children j).
Proof. induction (children_deletable j); constructor; [by eexists|done]. Qed.

(** The same for an item that is half built. *)
Lemma wp_delete_shell k vs Ps l i Phi : owns_strings i -> it_next i = NULL ->
  Forall linked Ps -> Forall freeable Ps ->
  shell k vs Ps l i ⊢ Phi tt -∗ wp (cJSON_Delete l) Phi.
Proof.
  intros Hi Hn Hl (cs & H)%freeable_counts. apply bi.wand_intro_r, (wp_walk (S (list_sum cs))).
  - iIntros "[(%prev & %last & Hl & Hk & Hv & Hc) HP]". iClear "Hk Hv HP".
    change (S ?x) with (1 + x)%nat. iApply at_least_sep. iSplitL "Hl"; [by iApply at_least_pointsto|].
    by iApply (chain_at_least with "Hc").
  - intros [|[|fuel]] Hf; [lia..|]. iIntros "[H HP]". iApply (delete_shell with "H"); [done..| |].
    + intros first prev last Psi. apply (chain_delete cs); [done|lia].
    + rewrite Hn. cbn. by iApply wp_ret.
Qed.

(** [cJSON_Delete] of an item that is not followed by another frees the tree,
    and nothing but the tree. *)
Lemma wp_delete k j l prev Phi : item k j l prev NULL ⊢ Phi tt -∗ wp (cJSON_Delete l) Phi.
Proof.
  apply bi.wand_intro_r, (wp_walk (items j)).
  - iIntros "[H HP]". destruct (item_deletable j k l prev NULL) as (H1 & _).
    iClear "HP". by iApply H1.
  - intros [|[|fuel]] Hf; destruct (item_deletable j k l prev NULL) as (_ & H1 & H2); [lia..|].
    iIntros "[H HP]". iApply (H2 with "H"); [lia|]. cbn. by iApply wp_ret.
Qed.

Lemma wp_delete_null Phi : Phi tt ⊢ wp (cJSON_Delete NULL) Phi.
Proof.
  apply (wp_walk 0); [apply at_least_0|]. intros [|fuel] Hf; [lia|]. apply wp_ret.
Qed.

(** ** Looking at arrays and objects *)

Lemma wp_node k j l i Phi : node k j l i ⊢ (node k j l i -∗ Phi i) -∗ wp (item_at l) Phi.
Proof.
  iIntros "(%last & Hl & H) HP". iApply (wp_item_at with "Hl"). iIntros "Hl".
  iApply "HP". iExists last. iFrame.
Qed.

Lemma node_nonnull k j l i : node k j l i ⊢ ⌜l <> NULL⌝.
Proof. iIntros "(%last & Hl & H)". by iApply (pointsto_nonnull with "Hl"). Qed.

Lemma chain_length Ps first prev last next : Forall linked Ps ->
  chain Ps first prev last next ⊢ at_least (length Ps).
Proof.
  intros H. revert first prev. induction H as [|P Ps HP _ IH]; intros first prev; [apply at_least_0|].
  iIntros "(%n & HP & Hc)". cbn [length]. change (S ?x) with (1 + x)%nat. iApply at_least_sep.
  iSplitL "HP"; [|by iApply IH].
  iDestruct (linked_open _ _ _ _ HP with "HP") as "(%i & _ & Hl & Hw)". iClear "Hw".
  by iApply at_least_pointsto.
Qed.

(** Reading the links of a sibling. *)
Lemma wp_linked P l p n Phi : linked P ->
  P l p n ⊢ (∀ i, ⌜it_next i = n⌝ → P l p n -∗ Phi i) -∗ wp (item_at l) Phi.
Proof.
  iIntros (HP) "H HPhi". iDestruct (linked_open _ _ _ _ HP with "H") as "(%i & %E & Hl & Hw)".
  destruct E as [<- <-]. iApply (wp_item_at with "Hl"). iIntros "Hl".
  iApply ("HPhi" with "[//]"). iApply "Hw". by destruct i.
Qed.

Lemma wp_count_children Ps first prev last fuel size Phi : Forall linked Ps -> (length Ps < fuel)%nat ->
  chain Ps first prev last NULL ⊢
  (chain Ps first prev last NULL -∗ Phi (size + zlen Ps)) -∗ wp (count_children fuel first size) Phi.
Proof.
  intros H. revert first prev fuel size. induction H as [|P Ps HP Hall IH]; intros first prev [|fuel] size Hf;
    [cbn in Hf; lia| |cbn in Hf; lia|].
  - iIntros "%E HPhi". destruct E as [-> ->]. cbn. iApply wp_ret. rewrite zlen_nil Z.add_0_r.
    by iApply "HPhi".
  - iIntros "Hc HPhi". iDestruct (chain_nonnull with "Hc") as %Hn; [done|].
    cbn [count_children]. rewrite (proj2 (Z.eqb_neq _ _) Hn). cbn [chain]. iDestruct "Hc" as "(%n & HP & Hc)".
    iApply wp_bind. iApply (wp_linked _ _ _ _ _ HP with "HP"). iIntros (i <-) "HP".
    iApply (IH with "Hc"); [cbn in Hf; lia|]. iIntros "Hc". rewrite zlen_cons Z.add_assoc.
    iApply "HPhi". iExists _. iFrame.
Qed.

Lemma wp_array_size k j l prev next Phi :
  item k j l prev next ⊢
  (item k j l prev next -∗ Phi (i32 (zlen (children j)))) -∗ wp (cJSON_GetArraySize l) Phi.
Proof.
  rewrite item_open. iIntros "(%i & E & H) HPhi". unfold cJSON_GetArraySize.
  iDestruct (node_nonnull with "H") as %Hn. rewrite (proj2 (Z.eqb_neq _ _) Hn).
  wp_run wp_node "H". iDestruct "H" as "(%last & Hl & F & Hk & Hv & Hc)".
  iApply wp_bind. iStopProof. apply (wp_walk (length (children j))).
  - iIntros "(_ & _ & _ & _ & _ & _ & Hc)". iApply chain_length; [apply children_linked|done].
  - iIntros (fuel Hf) "(E & HPhi & Hl & F & Hk & Hv & Hc)".
    iApply (wp_count_children with "Hc"); [apply children_linked|lia|]. iIntros "Hc".
    iApply wp_ret. iApply "HPhi". iExists i. iFrame.
Qed.

(** The child a search stops at, or none. *)
Definition search_result {A} (F : A -> sibling) (stops : A -> bool) (xs : list A)
    (first prev last q : loc) : heapI ccell :=
  ((<affine> ⌜q = NULL /\ Forall (fun x => stops x = false) xs⌝ ∗ chain (map F xs) first prev last NULL) ∨
   (∃ xs1 x xs2, <affine> ⌜xs = xs1 ++ x :: xs2 /\ Forall (fun x => stops x = false) xs1 /\ stops x = true⌝ ∗
                 focus F xs1 x xs2 first prev last q))%I.

Lemma search_result_later {A} (F : A -> sibling) stops x xs n first prev last q : stops x = false ->
  F x first prev n ∗ search_result F stops xs n first last q ⊢
  search_result F stops (x :: xs) first prev last q.
Proof.
  iIntros (Hx) "[H [[%E Hc]|(%xs1 & %y & %xs2 & %E & Hf)]]".
  - destruct E as [-> E]. iLeft. iSplit; [iPureIntro; by split; [|constructor]|]. iExists n. iFrame.
  - destruct E as (-> & E1 & E2). iRight. iExists (x :: xs1), y, xs2.
    iSplit; [iPureIntro; by split; [|split; [constructor|]]|]. iApply focus_later. iFrame.
Qed.

Definition named (case_sensitive : bool) (name : string) (kv : string * json) : bool :=
  if case_sensitive then streq name kv.1 else streqi (bytes_of_string name) (bytes_of_string kv.1).

Lemma wp_stops_at cs name p kv Phi :
  text p (Some kv.1) ⊢ (text p (Some kv.1) -∗ Phi (named cs name kv)) -∗ wp (stops_at cs name p) Phi.
Proof.
  iIntros "H HPhi". cbn [text]. iDestruct (pointsto_nonnull with "H") as %Hn.
  unfold stops_at. rewrite (proj2 (Z.eqb_neq _ _) Hn). wp_run wp_text_at "H". iApply wp_ret.
  by iApply "HPhi".
Qed.

Lemma wp_find_child cs name ms first prev last fuel Phi : (length ms < fuel)%nat ->
  chain (map member ms) first prev last NULL ⊢
  (∀ q, search_result member (named cs name) ms first prev last q -∗ Phi q) -∗
  wp (find_child fuel cs name first) Phi.
Proof.
  revert first prev fuel Phi. induction ms as [|kv ms IH]; intros first prev [|fuel] Phi Hf;
    [cbn in Hf; lia| |cbn in Hf; lia|].
  - iIntros "%E HPhi". destruct E as [-> ->]. cbn. iApply wp_ret. iApply "HPhi". iLeft. by iFrame "%".
  - iIntros "Hc HPhi". iDestruct (chain_nonnull with "Hc") as %Hn; [apply item_linked|].
    cbn [find_child]. rewrite (proj2 (Z.eqb_neq _ _) Hn). cbn [chain List.map]. iDestruct "Hc" as "(%n & HP & Hc)".
    iEval (rewrite /member item_open) in "HP". iDestruct "HP" as "(%i & %E & %l & Hl & F & Hk & Hv & Hch)".
    wp_run wp_item_at "Hl". iApply wp_bind. iApply (wp_stops_at with "Hk"). iIntros "Hk".
    iAssert (member kv first prev n) with "[Hl F Hk Hv Hch]" as "H".
    { unfold member. rewrite item_open. iExists i. iFrame. by iPureIntro. }
    destruct E as [<- _]. destruct (named cs name kv) eqn:Et.
    + iApply wp_ret. iApply "HPhi". iRight. iExists [], kv, ms. iSplit; [by iPureIntro|].
      iApply focus_here. iExists _. iFrame.
    + iApply (IH with "Hc"); [cbn in Hf; lia|]. iIntros (q) "Hq". iApply "HPhi".
      iApply search_result_later; [done|]. iFrame.
Qed.

(** A member lent out of its object, with the tree that comes back when the
    member is given back with another value. *)
Definition lent (k : option string) (ms : list (string * json)) (l prev next : loc)
    (stops : string * json -> bool) (q : loc) : heapI ccell :=
  ((<affine> ⌜q = NULL /\ Forall (fun kv => stops kv = false) ms⌝ ∗ item k (JObj ms) l prev next) ∨
   (∃ ms1 kv ms2 a b, <affine> ⌜ms = ms1 ++ kv :: ms2 /\ Forall (fun kv => stops kv = false) ms1 /\ stops kv = true⌝ ∗
      member kv q a b ∗
      (∀ v, member (kv.1, v) q a b -∗ item k (JObj (ms1 ++ (kv.1, v) :: ms2)) l prev next)))%I.

Lemma search_lent k ms l prev next stops q i last : it_next i = next -> it_prev i = prev -> fits i (JObj ms) ->
  l ↦ CItem i ∗ text (it_string i) k ∗ text (it_valuestring i) None ∗
  search_result member stops ms (it_child i) last last q ⊢ lent k ms l prev next stops q.
Proof.
  intros Hn Hp [Hf _]. iIntros "(Hl & Hk & Hv & [[%E Hc]|(%ms1 & %kv & %ms2 & %E & %a & %b & H1 & H2 & H3)])".
  - iLeft. iSplit; [done|]. rewrite item_open. iExists i. iSplit; [done|]. iExists last. iFrame.
    by iPureIntro.
  - iRight. iExists ms1, kv, ms2, a, b. iFrame "H2". iSplit; [done|]. iIntros (v) "H2".
    rewrite item_open. iExists i. iSplit; [done|]. iExists last. iFrame "Hl Hk Hv". iSplit; [by iPureIntro|].
    iApply focus_chain. iExists a, b. iFrame.
Qed.

(** The search for a member finds the first one with the name. *)
Lemma wp_get_object_item cs name k ms l prev next Phi :
  item k (JObj ms) l prev next ⊢
  (∀ q, lent k ms l prev next (named cs name) q -∗ Phi q) -∗
  wp (get_object_item l (Some name) cs) Phi.
Proof.
  rewrite item_open. iIntros "(%i & %E & H) HPhi". unfold get_object_item.
  iDestruct (node_nonnull with "H") as %Hn. rewrite (proj2 (Z.eqb_neq _ _) Hn).
  wp_run wp_node "H". iDestruct "H" as "(%last & Hl & %F & Hk & Hv & Hc)".
  iApply wp_bind. iStopProof. apply (wp_walk (length ms)).
  - iIntros "(_ & _ & _ & _ & Hc)". rewrite -(length_map member). iApply chain_length; [|done].
    apply members_linked.
  - iIntros (fuel Hf) "(HPhi & Hl & Hk & Hv & Hc)".
    iApply (wp_find_child with "Hc"); [lia|]. iIntros (q) "Hq".
    iAssert (∀ x, ⌜x = q⌝ → search_result member (named cs name) ms (it_child i) last last q -∗ Phi x)%I
      with "[HPhi Hl Hk Hv]" as "HPhi".
    { iIntros (x ->) "Hq". iApply "HPhi". destruct E. iApply (search_lent _ _ _ _ _ _ _ i last); [done..|]. iFrame. }
    iDestruct "Hq" as "[[%Eq Hc]|(%xs1 & %kv & %xs2 & %Eq & %a & %b & H1 & H2 & H3)]".
    + destruct Eq as [-> Eq]. cbn. iApply wp_ret. iApply ("HPhi" with "[//]"). iLeft. by iFrame.
    + iEval (rewrite /member item_open) in "H2". iDestruct "H2" as "(%c & Ec & H2)".
      iDestruct (node_nonnull with "H2") as %Hq. rewrite (proj2 (Z.eqb_neq _ _) Hq).
      iDestruct "H2" as "(%lc & H2 & Fc & Hkc & H4)". wp_run wp_item_at "H2".
      cbn [text]. iDestruct (pointsto_nonnull with "Hkc") as %Hs. rewrite (proj2 (Z.eqb_neq _ _) Hs).
      iApply wp_ret. iApply ("HPhi" with "[//]"). iRight. iExists xs1, kv, xs2. iFrame "%". iExists a, b. iFrame "H1 H3".
      iEval (rewrite /member item_open). iExists c. iFrame "Ec". iExists lc. iFrame.
Qed.

(** ** Appending *)

(** Linking an item behind the last one of a chain. *)
Lemma wp_suffix Ps P first prev last new p0 Phi : Forall linked Ps -> Ps <> [] -> linked P ->
  chain Ps first prev last NULL ∗ P new p0 NULL ⊢
  (chain (Ps ++ [P]) first prev new NULL -∗ Phi tt) -∗ wp (suffix_object last new) Phi.
Proof.
  iIntros (HPs Hne HP) "[Hc HP] HPhi". destruct (exists_last Hne) as (Ps1 & Q & ->).
  assert (HQ : linked Q) by (apply Forall_app in HPs as [_ H]; by inversion H).
  iDestruct (chain_last _ _ _ _ _ _ HQ with "Hc") as "(%d & %Ed & Hl & Hlw)".
  iDestruct (linked_open _ _ _ _ HP with "HP") as "(%e & %Ee & He & Hw)". destruct Ee as [E1 E2].
  unfold suffix_object. wp_run wp_change "Hl". iApply (wp_change with "He"). iIntros "He".
  iDestruct ("Hlw" with "Hl") as "Hc". iApply "HPhi". iEval (rewrite chain_app). iExists new, last. iFrame "Hc".
  iExists NULL. iSplit; [|by iPureIntro]. iApply ("Hw" $! last NULL). iStopProof.
  destruct e; cbn in *. by subst.
Qed.

Lemma chain_last_nonnull Ps first prev last next : Forall linked Ps -> Ps <> [] ->
  chain Ps first prev last next ⊢ ⌜last <> NULL⌝.
Proof.
  iIntros (HPs Hne) "Hc". destruct (exists_last Hne) as (Ps1 & Q & ->).
  assert (HQ : linked Q) by (apply Forall_app in HPs as [_ H]; by inversion H).
  iDestruct (chain_last _ _ _ _ _ _ HQ with "Hc") as "(%d & Hd & Hl & Hw)".
  by iApply (pointsto_nonnull with "Hl").
Qed.

(** The new item goes behind the last child, which the first one knows. *)
Lemma wp_append Ps P array a last new p0 Phi : Forall linked Ps -> linked P ->
  array ↦ CItem a ∗ chain Ps (it_child a) last last NULL ∗ P new p0 NULL ⊢
  (∀ c, array ↦ CItem (set_child c a) -∗ chain (Ps ++ [P]) c new new NULL -∗ Phi true) -∗
  wp (add_item_to_array array new) Phi.
Proof.
  iIntros (HPs HP) "(Ha & Hc & HP) HPhi". unfold add_item_to_array.
  iDestruct (linked_open _ _ _ _ HP with "HP") as "(%i & %E & Hi & Hw)". destruct E as [En Ep].
  iDestruct (pointsto_nonnull with "Hi") as %H1. iDestruct (pointsto_nonnull with "Ha") as %H2.
  iDestruct (pointsto_ne with "Ha Hi") as %H3.
  rewrite (proj2 (Z.eqb_neq _ _) H1) (proj2 (Z.eqb_neq _ _) H2) (proj2 (Z.eqb_neq _ _) H3). cbn [orb].
  wp_run wp_item_at "Ha". destruct HPs as [|P0 Ps HP0 HPs].
  - iDestruct "Hc" as %[-> _]. cbn. wp_run wp_change "Ha". wp_run wp_change "Hi". wp_run wp_change "Hi".
    iApply wp_ret. iApply ("HPhi" with "Ha"). iExists NULL. iSplit; [|by iPureIntro]. by iApply "Hw".
  - iDestruct ("Hw" $! p0 NULL with "[Hi]") as "HP"; [by rewrite -En -Ep; destruct i|].
    iDestruct (chain_nonnull with "Hc") as %Hn; [done|]. rewrite (proj2 (Z.eqb_neq _ _) Hn).
    iDestruct (chain_first _ _ _ _ _ _ HP0 with "Hc") as "(%c & %Ec & Hf & Hfw)".
    wp_run wp_item_at "Hf". rewrite Ec.
    iDestruct ("Hfw" $! last with "[Hf]") as "Hc"; [by rewrite -Ec; destruct c|].
    iDestruct (chain_last_nonnull with "Hc") as %Hl; [by constructor|done|].
    rewrite (proj2 (Z.eqb_neq _ _) Hl). cbn [negb].
    iApply (wp_bind (A := unit)). iApply (wp_bind (A := unit)).
    iApply (wp_suffix (P0 :: Ps) P with "[$Hc $HP]"); [by constructor|done..|]. iIntros "Hc".
    wp_run wp_item_at "Ha". cbn [app]. iDestruct (chain_first _ _ _ _ _ _ HP0 with "Hc") as "(%c' & %Ec' & Hf & Hfw)".
    iApply (wp_change with "Hf"). iIntros "Hf". iDestruct ("Hfw" with "Hf") as "Hc". iApply wp_ret.
    iApply ("HPhi" $! (it_child a) with "[Ha] Hc"). by destruct a.
Qed.

(** Every way of linking items in: the child becomes the last one. *)
Lemma wp_add_to_array k js v l prev next kv new p0 Phi :
  item k (JArr js) l prev next ∗ item kv v new p0 NULL ⊢
  (item k (JArr (js ++ [v])) l prev next -∗ Phi true) -∗ wp (cJSON_AddItemToArray l new) Phi.
Proof.
  rewrite {1}item_open. iIntros "[(%i & %E & %last & Hl & %F & Hk & Hv & Hc) Hn] HPhi".
  iApply (wp_append (map element js) (element v) with "[$Hl $Hc Hn]"); [apply elements_linked|apply element_linked|..].
  { iExists kv. iFrame. }
  iIntros (c) "Hl Hc". iApply "HPhi". rewrite item_open. iExists (set_child c i). iSplit; [done|].
  iExists new. iFrame. iSplit; [done|]. by rewrite /= map_app.
Qed.

(** The new member, lent out as the last one of its object. *)
Definition added (k : option string) (ms : list (string * json)) (l prev next : loc)
    (kv : string * json) (new : loc) : heapI ccell :=
  (∃ q, member kv new q NULL ∗
        (∀ v, member (kv.1, v) new q NULL -∗ item k (JObj (ms ++ [(kv.1, v)])) l prev next))%I.

Lemma added_item k ms l prev next kv new : added k ms l prev next kv new ⊢ item k (JObj (ms ++ [kv])) l prev next.
Proof. iIntros "(%q & H & Hw)". destruct kv. by iApply "Hw". Qed.

Lemma free_name p k Phi :
  text p k ⊢ Phi tt -∗ wp (if negb (p =? NULL) then free p else mret tt) Phi.
Proof.
  iIntros "Ht HPhi". destruct k as [s|]; simpl.
  - iDestruct (pointsto_nonnull with "Ht") as %Hp. rewrite (proj2 (Z.eqb_neq _ _) Hp). simpl.
    by iApply (wp_free with "Ht").
  - iDestruct "Ht" as %->. by iApply wp_ret.
Qed.

Lemma wp_add_to_object k ms v l prev next key kv new p0 Phi :
  item k (JObj ms) l prev next ∗ item kv v new p0 NULL ⊢
  ((⌜may_fail⌝ → item k (JObj ms) l prev next -∗ item kv v new p0 NULL -∗ Phi false) ∧
   (added k ms l prev next (key, v) new -∗ Phi true)) -∗
  wp (add_item_to_object l (KeyCopied (Some key)) new) Phi.
Proof.
  iIntros "[H Hn] HPhi". iEval (rewrite item_open) in "H". iDestruct "H" as "(%o & %Eo & H)".
  iEval (rewrite item_open) in "Hn". iDestruct "Hn" as "(%i & %E & %li & Hi & %F & Hk & Hv & Hc)".
  iDestruct (node_nonnull with "H") as %H1. iDestruct (pointsto_nonnull with "Hi") as %H2.
  iDestruct "H" as "(%lo & Ho & %Fo & H)". iDestruct (pointsto_ne with "Ho Hi") as %H3.
  unfold add_item_to_object. cbn [orb].
  rewrite (proj2 (Z.eqb_neq _ _) H1) (proj2 (Z.eqb_neq _ _) H2) (proj2 (Z.eqb_neq _ _) H3). cbn [orb cJSON_strdup].
  iApply wp_bind. iApply wp_malloc. iSplit.
  { iIntros "%Hm". rewrite Z.eqb_refl. iApply wp_ret. iDestruct "HPhi" as "[HPhi _]". iApply ("HPhi" with "[//] [Ho H]").
    - rewrite item_open. iExists o. iSplit; [done|]. iExists lo. by iFrame.
    - rewrite item_open. iExists i. iSplit; [done|]. iExists li. by iFrame. }
  iIntros (p) "Hp". iDestruct "HPhi" as "[_ HPhi]". iDestruct (pointsto_nonnull with "Hp") as %Hpn.
  rewrite (proj2 (Z.eqb_neq _ _) Hpn). wp_run wp_item_at "Hi".
  destruct F as [Ft Fv]. destruct (kind_flags v) as [_ Hconst]. rewrite Ft Hconst. cbn [negb andb].
  iApply (wp_bind (A := unit)). iApply (free_name with "Hk"). wp_run wp_change "Hi". wp_run wp_change "Hi".
  replace (Z.ldiff (kind v) cJSON_StringIsConst) with (kind v) by by destruct v as [|[]| | | |].
  iDestruct "H" as "(Hko & Hvo & Hco)".
  iApply (wp_append (map member ms) (member (key, v)) with "[$Ho $Hco Hi Hp Hv Hc]");
    [apply members_linked|apply item_linked|..].
  { rewrite /member item_open. iExists (set_type (kind v) (set_string p i)). iSplit; [done|]. iExists li.
    iFrame. by iPureIntro. }
  iIntros (c) "Ho Hco". iApply "HPhi". rewrite chain_app. iDestruct "Hco" as "(%m & %q & Hco & %n & Hm & %Em)".
  destruct Em as [-> <-]. iExists q. iFrame "Hm". iIntros (v') "Hm". rewrite item_open.
  iExists (set_child c o). iSplit; [done|]. iExists new. iFrame "Ho Hko Hvo". iSplit; [done|].
  rewrite /= map_app chain_app. iExists new, q. iFrame "Hco". iExists NULL. iFrame "Hm". by iPureIntro.
Qed.

(** ** Creating items *)

(** [m] gives a new item that holds [v], or NULL when memory is short. *)
Definition creates (m : C ccell loc) (v : json) : Prop := forall Phi : loc -> heapI ccell,
  (⌜may_fail⌝ → Phi NULL) ∧ (∀ l, item None v l NULL NULL -∗ Phi l) ⊢ wp m Phi.

Lemma creates_rule m v (Phi : loc -> heapI ccell) : creates m v ->
  (⌜may_fail⌝ → Phi NULL) ∧ (∀ l, item None v l NULL NULL -∗ Phi l) ⊢ wp m Phi.
Proof. intros H. apply H. Qed.

Lemma wp_create f (Phi : loc -> heapI ccell) :
  (⌜may_fail⌝ → Phi NULL) ∧ (∀ l, l ↦ CItem (f zero_item) -∗ Phi l) ⊢ wp (create f) Phi.
Proof.
  iIntros "HPhi". iApply wp_bind. iApply wp_malloc. iSplit.
  - iIntros "%Hm". iApply (wp_bind (A := unit)). iApply wp_ret. iApply wp_ret.
    iDestruct "HPhi" as "[HPhi _]". by iApply "HPhi".
  - iIntros (l) "Hl". iDestruct "HPhi" as "[_ HPhi]". iDestruct (pointsto_nonnull with "Hl") as %Hn.
    rewrite (proj2 (Z.eqb_neq _ _) Hn). wp_run wp_change "Hl". iApply wp_ret. by iApply "HPhi".
Qed.

(** A new item without strings and children. *)
Lemma new_item v l i : fits i v -> string_of v = None -> children v = [] ->
  it_next i = NULL -> it_prev i = NULL -> it_child i = NULL -> it_valuestring i = NULL -> it_string i = NULL ->
  l ↦ CItem i ⊢ item None v l NULL NULL.
Proof.
  intros Hf Hs Hc H1 H2 H3 H4 H5. iIntros "Hl". rewrite item_open. iExists i. iSplit; [done|].
  iExists NULL. rewrite Hs Hc H3 H4 H5. iFrame. by iPureIntro.
Qed.

Lemma create_creates f v : let i := f zero_item in
  fits i v -> string_of v = None -> children v = [] ->
  it_next i = NULL -> it_prev i = NULL -> it_child i = NULL -> it_valuestring i = NULL -> it_string i = NULL ->
  creates (create f) v.
Proof.
  intros i Hf Hs Hc H1 H2 H3 H4 H5 Phi. iIntros "HPhi". iApply wp_create. iSplit; [by iDestruct "HPhi" as "[$ _]"|].
  iIntros (l) "Hl". iDestruct "HPhi" as "[_ HPhi]". iApply "HPhi". by iApply new_item.
Qed.

Lemma creates_null : creates cJSON_CreateNull JNull.
Proof. by apply create_creates. Qed.
Lemma creates_bool b : creates (cJSON_CreateBool b) (JBool b).
Proof. by apply create_creates; destruct b. Qed.
Lemma creates_number d : creates (cJSON_CreateNumber d) (JNum d).
Proof. by apply create_creates. Qed.
Lemma creates_array : creates cJSON_CreateArray (JArr []).
Proof. by apply create_creates. Qed.
Lemma creates_object : creates cJSON_CreateObject (JObj []).
Proof. by apply create_creates. Qed.

(** A string needs memory twice. *)
Lemma creates_string s : creates (cJSON_CreateString (Some s)) (JStr s).
Proof.
  intros Phi. iIntros "HPhi". iApply wp_bind. iApply wp_malloc. iSplit.
  { iIntros "%Hm". rewrite Z.eqb_refl. iApply wp_ret. iDestruct "HPhi" as "[HPhi _]". by iApply "HPhi". }
  iIntros (l) "Hl". iDestruct (pointsto_nonnull with "Hl") as %Hn. rewrite (proj2 (Z.eqb_neq _ _) Hn).
  wp_run wp_change "Hl". iApply wp_bind. iApply wp_malloc. iSplit.
  - iIntros "%Hm". wp_run wp_change "Hl". rewrite Z.eqb_refl. iApply (wp_bind (A := unit)).
    iApply (wp_delete_shell None None [] l (set_valuestring NULL (set_type cJSON_String zero_item))
      with "[Hl]"); [done..| |].
    { iExists NULL, NULL. iFrame. by iPureIntro. }
    iApply wp_ret. iDestruct "HPhi" as "[HPhi _]". by iApply "HPhi".
  - iIntros (p) "Hp". iDestruct (pointsto_nonnull with "Hp") as %Hp. wp_run wp_change "Hl".
    rewrite (proj2 (Z.eqb_neq _ _) Hp). iApply wp_ret. iDestruct "HPhi" as "[_ HPhi]". iApply "HPhi".
    rewrite item_open. iExists _. iSplit; [|iExists NULL; iFrame]; [done|]. by iPureIntro.
Qed.

(** A pointer that is NULL is no string, hence no item. *)
Lemma wp_create_no_string (Phi : loc -> heapI ccell) : Phi NULL ⊢ wp (cJSON_CreateString None) Phi.
Proof.
  iIntros "HPhi". iApply wp_bind. iApply wp_malloc. iSplit.
  { iIntros "_". rewrite Z.eqb_refl. by iApply wp_ret. }
  iIntros (l) "Hl". iDestruct (pointsto_nonnull with "Hl") as %Hn. rewrite (proj2 (Z.eqb_neq _ _) Hn).
  wp_run wp_change "Hl". iApply wp_bind. iApply wp_ret. wp_run wp_change "Hl". rewrite Z.eqb_refl.
  iApply (wp_bind (A := unit)).
  iApply (wp_delete_shell None None [] l (set_valuestring NULL (set_type cJSON_String zero_item))
    with "[Hl]"); [done..| |by iApply wp_ret].
  iExists NULL, NULL. iFrame. by iPureIntro.
Qed.

(** ** The functions that create and add at once *)

Lemma wp_add_null object key Phi : Phi NULL ⊢ wp (add_or_delete object key NULL) Phi.
Proof.
  iIntros "HPhi". iApply (wp_bind (A := bool)). unfold add_item_to_object. rewrite Z.eqb_refl !orb_true_r.
  iApply wp_ret. iApply wp_bind. iApply wp_delete_null. by iApply wp_ret.
Qed.

Lemma wp_add_or_delete k ms l prev next key v new Phi :
  item k (JObj ms) l prev next ∗ item None v new NULL NULL ⊢
  ((⌜may_fail⌝ → item k (JObj ms) l prev next -∗ Phi NULL) ∧
   (added k ms l prev next (key, v) new -∗ Phi new)) -∗
  wp (add_or_delete l key new) Phi.
Proof.
  iIntros "H HPhi". iApply (wp_bind (A := bool)). iApply (wp_add_to_object with "H"). iSplit.
  - iIntros "%Hm Ho Hn". iApply (wp_bind (A := unit)). iApply (wp_delete with "Hn"). iApply wp_ret.
    iDestruct "HPhi" as "[HPhi _]". by iApply ("HPhi" with "[//]").
  - iIntros "H". iApply wp_ret. iDestruct "HPhi" as "[_ HPhi]". by iApply "HPhi".
Qed.

Lemma wp_add_to_null key v new Phi :
  item None v new NULL NULL ⊢ Phi NULL -∗ wp (add_or_delete NULL key new) Phi.
Proof.
  iIntros "H HPhi". iApply (wp_bind (A := bool)). unfold add_item_to_object. cbn [orb].
  rewrite Z.eqb_refl. cbn [orb]. iApply wp_ret. iApply (wp_bind (A := unit)).
  iApply (wp_delete with "H"). by iApply wp_ret.
Qed.

(** ** Messages

    Building a message member by member, as the program does, without a look at
    what the calls return. *)

(** [obj] is NULL, or an object with the members [ms], some of them lost where
    memory was short. *)
Definition built (ms : list (string * json)) (obj : loc) : heapI ccell :=
  ((<affine> ⌜obj = NULL /\ may_fail⌝) ∨
   (∃ ms', <affine> ⌜lost ms' ms /\ (may_fail \/ ms' = ms)⌝ ∗ item None (JObj ms') obj NULL NULL))%I.

Lemma built_new (Phi : loc -> heapI ccell) : (∀ obj, built [] obj -∗ Phi obj) ⊢ wp cJSON_CreateObject Phi.
Proof.
  iIntros "HPhi". iApply (creates_rule _ _ _ creates_object). iSplit.
  - iIntros "%Hm". iApply "HPhi". iLeft. by iPureIntro.
  - iIntros (l) "H". iApply "HPhi". iRight. iExists []. iFrame. iPureIntro. split; [constructor|by right].
Qed.

Lemma built_add m v key ms obj Phi : creates m v ->
  built ms obj ⊢ (∀ x, built (ms ++ [(key, v)]) obj -∗ Phi x) -∗
  wp (new ← m; add_or_delete obj key new) Phi.
Proof.
  iIntros (Hm) "H HPhi". iApply wp_bind. iApply (creates_rule _ _ _ Hm). iSplit.
  - iIntros "%Hf". iApply wp_add_null. iApply "HPhi". iDestruct "H" as "[%E|(%ms' & %E & H)]".
    + by iLeft.
    + iRight. iExists ms'. iFrame. iPureIntro. destruct E as [E _]. split; [|by left]. by apply lost_app_skip.
  - iIntros (new) "Hn". iDestruct "H" as "[%E|(%ms' & %E & H)]".
    + destruct E as [-> Hf]. iApply (wp_add_to_null with "Hn"). iApply "HPhi". by iLeft.
    + destruct E as [E1 E2]. iApply (wp_add_or_delete with "[$H $Hn]"). iSplit.
      * iIntros "%Hf H". iApply "HPhi". iRight. iExists ms'. iFrame. iPureIntro. split; [|by left]. by apply lost_app_skip.
      * iIntros "H". iApply "HPhi". iRight. iExists (ms' ++ [(key, v)]).
        iDestruct (added_item with "H") as "$". iPureIntro. split; [by apply lost_app_keep|].
        destruct E2 as [?| ->]; [by left|by right].
Qed.

Lemma built_add_none key ms obj Phi :
  built ms obj ⊢ (∀ x, built ms obj -∗ Phi x) -∗ wp (cJSON_AddStringToObject obj key None) Phi.
Proof.
  iIntros "H HPhi". iApply wp_bind. iApply wp_create_no_string. iApply wp_add_null. by iApply "HPhi".
Qed.

Lemma built_string key s ms obj Phi :
  built ms obj ⊢ (∀ x, built (ms ++ [(key, JStr s)]) obj -∗ Phi x) -∗
  wp (cJSON_AddStringToObject obj key (Some s)) Phi.
Proof. exact (built_add _ _ _ _ _ _ (creates_string s)). Qed.
Lemma built_number key d ms obj Phi :
  built ms obj ⊢ (∀ x, built (ms ++ [(key, JNum d)]) obj -∗ Phi x) -∗ wp (cJSON_AddNumberToObject obj key d) Phi.
Proof. exact (built_add _ _ _ _ _ _ (creates_number d)). Qed.
Lemma built_bool key b ms obj Phi :
  built ms obj ⊢ (∀ x, built (ms ++ [(key, JBool b)]) obj -∗ Phi x) -∗ wp (cJSON_AddBoolToObject obj key b) Phi.
Proof. exact (built_add _ _ _ _ _ _ (creates_bool b)). Qed.

(** A string that came out empty. *)
Lemma built_empty ms key s obj : may_fail ->
  built (ms ++ [(key, JStr ""%string)]) obj ⊢ built (ms ++ [(key, JStr s)]) obj.
Proof.
  iIntros (Hf) "[H|(%ms' & %E & H)]"; [by iLeft|]. iRight. iExists ms'. iFrame. iPureIntro.
  destruct E as [E _]. split; [by apply lost_app_empty|by left].
Qed.

(** Freeing a message, whether it was built or not. *)
Lemma built_delete ms obj Phi : built ms obj ⊢ Phi tt -∗ wp (cJSON_Delete obj) Phi.
Proof.
  iIntros "[%E|(%ms' & %E & H)] HPhi".
  - destruct E as [-> _]. by iApply wp_delete_null.
  - by iApply (wp_delete with "H").
Qed.
End ops.
