(* ===== verification/CJsonDup.v ===== *)
(** Reading trees in the heap: the deep copy, and the accessors. *)

(** * Copying a tree

    [cJSON_Duplicate] against the tree in the heap: a copy of its own, or, when
    memory is short or the tree is nested too deeply, nothing at all. *)
From stdpp Require Import gmap.
From iris.proofmode Require Import proofmode.
From S2P Require Import Prelude Cstr Json Effects HeapLogic CJsonTree CJsonOps.

(** How deeply a tree is nested, and the deepest of the children [js]. *)
Fixpoint height (j : json) : nat :=
  match j with
  | JArr js => list_max (map (fun j => S (height j)) js)
  | JObj ms => list_max (map (fun '(_, v) => S (height v)) ms)
  | _ => 0
  end.
Definition child_heights (j : json) : list nat :=
  match j with JArr js => map height js | JObj ms => map (fun kv => height kv.2) ms | _ => [] end.
Lemma height_children j : height j = list_max (map S (child_heights j)).
Proof. destruct j; [done..| |]; cbn; rewrite map_map; [done|]. f_equal. apply map_ext. by intros []. Qed.

Lemma length_child j : length (child_items j) = length (child_heights j).
Proof. destruct j; cbn; by rewrite ?length_map. Qed.

Section dup.
Context `{M : !Malloc ccell}.

(** ** The fields of an item *)

Lemma wp_dup_text p s (Phi : option loc -> heapI ccell) :
  text p s ⊢ (text p s -∗ (⌜may_fail⌝ → Phi None) ∧ (∀ q, text q s -∗ Phi (Some q))) -∗ wp (dup_text p) Phi.
Proof.
  iIntros "H HPhi". unfold dup_text. destruct s as [s|]; cbn [text].
  - iDestruct (pointsto_nonnull with "H") as %Hn. rewrite (proj2 (Z.eqb_neq _ _) Hn).
    wp_run wp_text_at "H". iSpecialize ("HPhi" with "H"). iApply wp_bind. iApply wp_malloc. iSplit.
    + iIntros "%Hf". rewrite Z.eqb_refl. iApply wp_ret. iDestruct "HPhi" as "[HPhi _]". by iApply "HPhi".
    + iIntros (q) "Hq". iDestruct (pointsto_nonnull with "Hq") as %Hq. rewrite (proj2 (Z.eqb_neq _ _) Hq).
      iApply wp_ret. iDestruct "HPhi" as "[_ HPhi]". by iApply "HPhi".
  - iDestruct "H" as %->. rewrite Z.eqb_refl. iApply wp_ret. iDestruct ("HPhi" with "[//]") as "[_ HPhi]".
    by iApply "HPhi".
Qed.

(** A copied string goes into its field, which is NULL when there is none. *)
Lemma wp_put_text p q s new i (set : loc -> cJSON -> cJSON) (Phi : unit -> heapI ccell) :
  set NULL i = i ->
  text p s ∗ text q s ∗ new ↦ CItem i ⊢
  (text p s -∗ text q s -∗ new ↦ CItem (set q i) -∗ Phi tt) -∗
  wp (if p =? NULL then mret tt else change new (set q)) Phi.
Proof.
  iIntros (Hs) "(Hp & Hq & Hn) HPhi". destruct s as [s|]; cbn [text].
  - iDestruct (pointsto_nonnull with "Hp") as %Hp. rewrite (proj2 (Z.eqb_neq _ _) Hp).
    iApply (wp_change with "Hn"). iApply ("HPhi" with "Hp Hq").
  - iDestruct "Hp" as %->. iDestruct "Hq" as %->. rewrite Z.eqb_refl. iApply wp_ret.
    iApply ("HPhi" with "[//] [//]"). by rewrite Hs.
Qed.

Definition bare (i : cJSON) : Prop := it_next i = NULL /\ it_prev i = NULL /\ it_child i = NULL.

Lemma wp_dup_fields k j l i new Phi :
  node k j l i ∗ new ↦ CItem zero_item ⊢
  (node k j l i -∗
   (⌜may_fail⌝ → ∀ i' ks vs, ⌜owns_strings i' /\ bare i'⌝ → shell ks vs [] new i' -∗ Phi false) ∧
   (∀ i', ⌜fits i' j /\ bare i'⌝ → new ↦ CItem i' -∗ text (it_string i') k -∗
          text (it_valuestring i') (string_of j) -∗ Phi true)) -∗
  wp (dup_fields l new) Phi.
Proof.
  iIntros "[(%last & Hl & %F & Hk & Hv & Hc) Hn] HPhi". unfold dup_fields.
  wp_run wp_item_at "Hl". wp_run wp_change "Hn". destruct (kind_flags j) as [Hr Hco].
  assert (Ht : Z.ldiff (it_type i) cJSON_IsReference = kind j).
  { destruct F as [-> _]. by destruct j as [|[]| | | |]. }
  rewrite Ht. destruct F as [Fk Fv].
  set (i1 := {| it_type := kind j |}).
  iApply wp_bind. iApply (wp_dup_text with "Hv"). iIntros "Hv". iSplit.
  { iIntros "%Hf". iApply wp_ret. iDestruct ("HPhi" with "[Hl Hk Hv Hc]") as "[HPhi _]".
    { iExists last. by iFrame. }
    iApply ("HPhi" with "[//] [%]"); [|iExists NULL, NULL; iFrame "Hn"]; [by repeat split; apply kind_flags|].
    instantiate (1 := None). instantiate (1 := None). by iPureIntro. }
  iIntros (vs) "Hvs". iApply wp_bind.
  iApply (wp_put_text _ _ _ _ _ set_valuestring with "[$Hv $Hvs $Hn]"); [done|]. iIntros "Hv Hvs Hn".
  rewrite Fk Hco. iApply wp_bind. iApply (wp_dup_text with "Hk"). iIntros "Hk". iSplit.
  { iIntros "%Hf". iApply wp_ret. iDestruct ("HPhi" with "[Hl Hk Hv Hc]") as "[HPhi _]".
    { iExists last. by iFrame. }
    iApply ("HPhi" with "[//] [%]"); [|iExists NULL, NULL; iFrame "Hn Hvs"]; [by repeat split; apply kind_flags|].
    instantiate (1 := None). by iPureIntro. }
  iIntros (ks) "Hks". iApply wp_bind.
  iApply (wp_put_text _ _ _ _ _ set_string with "[$Hk $Hks $Hn]"); [done|]. iIntros "Hk Hks Hn".
  iApply wp_ret. iDestruct ("HPhi" with "[Hl Hk Hv Hc]") as "[_ HPhi]".
  { iExists last. by iFrame. }
  iApply ("HPhi" with "[%] Hn Hks Hvs"). by repeat split.
Qed.

(** ** The children, then the item *)

(** Copying the sibling [P], nested [h] deep and of [c] items. *)
Definition dupable (c h : nat) (P : sibling) : Prop := forall l p n f d (Phi : loc -> heapI ccell),
  (2 * c <= f)%nat -> (1 <= c)%nat /\
  (P l p n ⊢ (P l p n -∗ (⌜may_fail \/ CJSON_CIRCULAR_LIMIT < d + Z.of_nat h⌝ → Phi NULL) ∧
                          (∀ l', P l' NULL NULL -∗ Phi l')) -∗ wp (cJSON_Duplicate_rec f l d true) Phi).

Lemma dupable_rule c h P l p n f d Phi : dupable c h P -> (2 * c <= f)%nat ->
  P l p n ⊢ (P l p n -∗ (⌜may_fail \/ CJSON_CIRCULAR_LIMIT < d + Z.of_nat h⌝ → Phi NULL) ∧
                         (∀ l', P l' NULL NULL -∗ Phi l')) -∗ wp (cJSON_Duplicate_rec f l d true) Phi.
Proof. intros H Hf. by apply H. Qed.

Lemma linked_nonnull P l p n : linked P -> P l p n ⊢ ⌜l <> NULL⌝.
Proof.
  iIntros (HP) "H". iDestruct (linked_open _ _ _ _ HP with "H") as "(%i & Hi & Hl & Hw)".
  by iApply (pointsto_nonnull with "Hl").
Qed.

(** The copy [l'] becomes the last child of [new]. *)
Lemma wp_link_copy Ds P new i nxt l' Phi : Forall linked Ds -> linked P -> bare (set_child NULL i) ->
  new ↦ CItem i ∗ chain Ds (it_child i) NULL nxt NULL ∗ P l' NULL NULL ⊢
  (∀ c, new ↦ CItem (set_child c i) -∗ chain (Ds ++ [P]) c NULL l' NULL -∗ Phi tt) -∗
  wp (if negb (nxt =? NULL) then change nxt (set_next l');; change l' (set_prev nxt)
      else change new (set_child l')) Phi.
Proof.
  iIntros (HDs HP Hb) "(Hn & Hc & H) HPhi". destruct Ds as [|D Ds].
  - iDestruct "Hc" as %[_ ->]. rewrite Z.eqb_refl. cbn [negb]. iApply (wp_change with "Hn"). iIntros "Hn".
    iApply ("HPhi" with "Hn"). iExists NULL. iFrame. by iPureIntro.
  - iDestruct (chain_last_nonnull with "Hc") as %Hl; [done..|]. rewrite (proj2 (Z.eqb_neq _ _) Hl). cbn [negb].
    iApply (wp_suffix (D :: Ds) P with "[$Hc $H]"); [done..|]. iApply ("HPhi" $! (it_child i) with "[Hn]"). by destruct i.
Qed.

Lemma wp_dup_children cs hs Ps new d : Forall linked Ps ->
  Forall2 (fun '(c, h) P => dupable c h P) (zip cs hs) Ps -> length cs = length hs ->
  forall Ds i first prev last nxt f (Phi : option loc -> heapI ccell),
  (1 + 2 * list_sum cs <= f)%nat -> Forall linked Ds -> bare (set_child NULL i) ->
  chain Ps first prev last NULL ∗ new ↦ CItem i ∗ chain Ds (it_child i) NULL nxt NULL ⊢
  (chain Ps first prev last NULL -∗
   (⌜may_fail \/ CJSON_CIRCULAR_LIMIT < d + Z.of_nat (list_max (map S hs))⌝ →
      ∀ c nxt' Ds', ⌜Ds' `prefix_of` Ds ++ Ps⌝ → new ↦ CItem (set_child c i) -∗
      chain Ds' c NULL nxt' NULL -∗ Phi None) ∧
   (∀ c nxt', new ↦ CItem (set_child c i) -∗ chain (Ds ++ Ps) c NULL nxt' NULL -∗ Phi (Some nxt'))) -∗
  wp (dup_children f new first nxt d) Phi.
Proof.
  intros Hl H Hlen. revert Hl. remember (zip cs hs) as chs eqn:E. revert cs hs E Hlen.
  induction H as [|[c h] P chs Ps HP Hall IH]; intros cs hs E Hlen Hl Ds i first prev last nxt f Phi Hf HDs Hb.
  - destruct f as [|f]; [lia|]. iIntros "(Hc & Hn & Hd) HPhi". iDestruct "Hc" as %[-> ->].
    cbn [dup_children]. rewrite Z.eqb_refl. iApply wp_ret. iDestruct ("HPhi" with "[//]") as "[_ HPhi]".
    iApply ("HPhi" $! (it_child i) with "[Hn]"); [by destruct i|]. by rewrite app_nil_r.
  - destruct cs as [|c' cs], hs as [|h' hs]; try done. injection E as <- <- ->. injection Hlen as Hlen.
    inversion_clear Hl as [|?? HlP HlPs]. replace (list_sum (c :: cs)) with (c + list_sum cs)%nat in Hf by done.
    change (list_max (map S (h :: hs))) with (Nat.max (S h) (list_max (map S hs))).
    destruct (HP first prev NULL (2 * c)%nat d (fun _ => emp)%I (le_n _)) as [Hc1 _].
    destruct f as [|f]; [lia|].
    iIntros "(Hc & Hn & Hd) HPhi". iDestruct (chain_nonnull with "Hc") as %Hnn; [done|].
    cbn [dup_children]. rewrite (proj2 (Z.eqb_neq _ _) Hnn).
    destruct (Z.leb_spec CJSON_CIRCULAR_LIMIT d) as [Hd|Hd].
    { iApply wp_ret. iDestruct ("HPhi" with "Hc") as "[HPhi _]".
      iSpecialize ("HPhi" with "[%]"); [right; lia|].
      iApply ("HPhi" $! (it_child i) nxt Ds with "[%] [Hn] Hd"); [by apply prefix_app_r|by destruct i]. }
    cbn [chain]. iDestruct "Hc" as "(%n & HP & Hc)". iApply wp_bind.
    iApply (dupable_rule _ _ _ _ _ _ _ (d + 1) _ HP with "HP"); [lia|]. iIntros "HP". iSplit.
    + iIntros "%Hfail". rewrite Z.eqb_refl. iApply wp_ret. iDestruct ("HPhi" with "[HP Hc]") as "[HPhi _]".
      { iExists n. iFrame. }
      iSpecialize ("HPhi" with "[%]"); [destruct Hfail; [by left|right; lia]|].
      iApply ("HPhi" $! (it_child i) nxt Ds with "[%] [Hn] Hd"); [by apply prefix_app_r|by destruct i].
    + iIntros (l') "Hl'". iDestruct (linked_nonnull with "Hl'") as %Hl'; [done|].
      rewrite (proj2 (Z.eqb_neq _ _) Hl'). iApply (wp_bind (A := unit)).
      iApply (wp_link_copy Ds P with "[$Hn $Hd $Hl']"); [done..|]. iIntros (c0) "Hn Hd".
      iApply wp_bind. iApply (wp_linked _ _ _ _ _ HlP with "HP"). iIntros (ci <-) "HP".
      iApply (IH cs hs eq_refl Hlen HlPs (Ds ++ [P]) (set_child c0 i) with "[$Hc $Hn $Hd]");
        [lia|apply Forall_app; by split; [|constructor]|done|].
      iIntros "Hc". iDestruct ("HPhi" with "[HP Hc]") as "HPhi"; [iExists _; iFrame|].
      rewrite -app_assoc. iSplit.
      * iIntros "%Hfail". iDestruct "HPhi" as "[HPhi _]". iApply "HPhi". iPureIntro.
        destruct Hfail; [by left|right; lia].
      * by iDestruct "HPhi" as "[_ HPhi]".
Qed.

Abbreviation dupable_children := (fun j =>
  Forall2 (fun '(c, h) P => dupable c h P) (zip (child_items j) (child_heights j)) (children j)) (only parsing).

(** A failed copy is freed as far as it got. *)
Lemma wp_dup_fail k vs Ps new i Phi : owns_strings i -> it_next i = NULL -> Forall linked Ps -> Forall freeable Ps ->
  shell k vs Ps new i ⊢ Phi NULL -∗ wp (dup_fail new) Phi.
Proof.
  iIntros (H1 H2 H3 H4) "H HPhi". iApply (wp_bind (A := unit)).
  iApply (wp_delete_shell with "H"); [done..|]. by iApply wp_ret.
Qed.

(** The first copy learns which one is the last. *)
Lemma wp_close_copy j new i c nxt k Phi : fits i j -> it_next i = NULL -> it_prev i = NULL ->
  new ↦ CItem (set_child c i) ∗ chain (children j) c NULL nxt NULL ∗
  text (it_string i) k ∗ text (it_valuestring i) (string_of j) ⊢
  (item k j new NULL NULL -∗ Phi new) -∗
  wp (n ← item_at new;
      (if negb (it_child n =? NULL) then change (it_child n) (set_prev nxt) else mret tt);; mret new) Phi.
Proof.
  iIntros (Hf Hn Hp) "(Hl & Hc & Hk & Hv) HPhi". wp_run wp_item_at "Hl". cbn [it_child set_child].
  iApply (wp_bind (A := unit)).
  iAssert (∀ last, new ↦ CItem (set_child c i) -∗ chain (children j) c last last NULL -∗ Phi new)%I
    with "[HPhi Hk Hv]" as "HPhi".
  { iIntros (last) "Hl Hc". iApply "HPhi". rewrite item_open. iExists (set_child c i). iSplit; [by iPureIntro|].
    iExists last. iFrame "Hl Hk Hv". iSplit; [by iPureIntro|iExact "Hc"]. }
  pose proof (children_linked j) as HL. destruct (children j) as [|P Ps].
  - iDestruct "Hc" as %[-> ->]. rewrite Z.eqb_refl. iApply wp_ret. iApply wp_ret.
    iApply ("HPhi" $! NULL with "Hl"). by iPureIntro.
  - inversion_clear HL as [|?? HP HPs]. iDestruct (chain_nonnull with "Hc") as %Hc; [done|].
    rewrite (proj2 (Z.eqb_neq _ _) Hc). cbn [negb].
    iDestruct (chain_first _ _ _ _ _ _ HP with "Hc") as "(%d & %Ed & Hd & Hw)".
    iApply (wp_change with "Hd"). iIntros "Hd". iApply wp_ret. iApply ("HPhi" $! nxt with "Hl"). by iApply "Hw".
Qed.

Lemma item_dupable_children j k : dupable_children j -> dupable (items j) (height j) (item k j).
Proof.
  intros H l p n f d Phi Hf. rewrite items_children in Hf |- *. split; [lia|].
  destruct f as [|f]; [lia|]. rewrite {1}item_open. iIntros "(%i & %E & Hi) HPhi". cbn [cJSON_Duplicate_rec].
  iDestruct (node_nonnull with "Hi") as %Hl. rewrite (proj2 (Z.eqb_neq _ _) Hl).
  iAssert (node k j l i -∗ (⌜may_fail \/ CJSON_CIRCULAR_LIMIT < d + Z.of_nat (height j)⌝ → Phi NULL) ∧
             (∀ l', item k j l' NULL NULL -∗ Phi l'))%I with "[HPhi]" as "HPhi".
  { iIntros "Hi". iApply "HPhi". rewrite item_open. iExists i. by iFrame. }
  iApply wp_bind. iApply wp_malloc. iSplit.
  { iIntros "%Hm". rewrite Z.eqb_refl. iApply wp_ret. iDestruct ("HPhi" with "Hi") as "[HPhi _]".
    iApply "HPhi". iPureIntro. by left. }
  iIntros (new) "Hn". iDestruct (pointsto_nonnull with "Hn") as %Hnew. rewrite (proj2 (Z.eqb_neq _ _) Hnew).
  iApply wp_bind. iApply (wp_dup_fields with "[$Hi $Hn]"). iIntros "Hi". iSplit.
  { iIntros "%Hm" (i' ks vs (Ho & Hb & _ & _)) "Hs". cbn [negb]. iApply (wp_dup_fail with "Hs"); [done..|].
    iDestruct ("HPhi" with "Hi") as "[HPhi _]". iApply "HPhi". iPureIntro. by left. }
  iIntros (i' (Hfit & Hb1 & Hb2 & Hb3)) "Hn Hk Hv". cbn [negb]. wp_run wp_node "Hi".
  iDestruct "Hi" as "(%last & Hl & F & Hki & Hvi & Hc)". iApply wp_bind.
  iApply (wp_dup_children (child_items j) (child_heights j) (children j) new d (children_linked j) H
            (length_child j) [] i' with "[$Hc $Hn]"); [lia|constructor|by repeat split|by iPureIntro|].
  iIntros "Hc". iDestruct ("HPhi" with "[Hl F Hki Hvi Hc]") as "HPhi"; [iExists last; iFrame|].
  rewrite -height_children. iSplit.
  - iIntros "%Hfail" (c nxt Ds' Hpre) "Hn Hc". destruct Hpre as [Rest EQ].
    pose proof (children_linked j) as HL. pose proof (children_freeable j) as HF. cbn in EQ.
    rewrite EQ in HL, HF. apply Forall_app in HL as [HL _]. apply Forall_app in HF as [HF _].
    iApply (wp_dup_fail k (string_of j) Ds' new (set_child c i') with "[Hn Hc Hk Hv]");
      [by eapply (fits_owns _ j)|done..|iExists NULL, nxt; iFrame|].
    iDestruct "HPhi" as "[HPhi _]". by iApply "HPhi".
  - iIntros (c nxt) "Hn Hc". iApply (wp_close_copy with "[$Hn $Hc $Hk $Hv]"); [done..|].
    by iDestruct "HPhi" as "[_ HPhi]".
Qed.

Lemma element_dupable j : (forall k, dupable (items j) (height j) (item k j)) ->
  dupable (items j) (height j) (element j).
Proof.
  intros H l p n f d Phi Hf. destruct (H None l p n f d Phi Hf) as [H1 _]. split; [done|].
  iIntros "(%k & Hk) HPhi". iApply (dupable_rule with "Hk"); [apply H|done|]. iIntros "Hk".
  iDestruct ("HPhi" with "[Hk]") as "HPhi"; [by iExists k|]. iSplit; [by iDestruct "HPhi" as "[$ _]"|].
  iIntros (l') "Hl'". iDestruct "HPhi" as "[_ HPhi]". iApply "HPhi". by iExists k.
Qed.

Lemma item_dupable j k : dupable (items j) (height j) (item k j).
Proof.
  revert k. induction j as [| | | |js IH|ms IH] using json_nested_ind; intros k;
    apply item_dupable_children; [constructor..| |]; cbn; clear k.
  - induction IH as [|j js Hj _ IHl]; cbn; constructor; [by apply element_dupable|done].
  - induction IH as [|kv ms Hj _ IHl]; cbn; constructor; [apply Hj|done].
Qed.

(** The copy is made for an item with or without siblings and a name. *)
Lemma wp_duplicate k j l prev next Phi :
  item k j l prev next ⊢
  (item k j l prev next -∗
   (⌜may_fail \/ CJSON_CIRCULAR_LIMIT < Z.of_nat (height j)⌝ → Phi NULL) ∧
   (∀ l', item k j l' NULL NULL -∗ Phi l')) -∗ wp (cJSON_Duplicate l true) Phi.
Proof.
  apply bi.wand_intro_r, (wp_walk (items j)).
  - iIntros "[H HP]". destruct (item_deletable j k l prev next) as (H1 & _). iClear "HP". by iApply H1.
  - iIntros (fuel Hf) "[H HPhi]". iApply (dupable_rule with "H"); [apply item_dupable|lia|done].
Qed.
End dup.

(** * Looking into a message

    The accessors of [util/json_helpers.c] and the look-up functions of cJSON
    give what their models in [Json] give, and leave the message as it is. *)

(** The search for the first member with a name. *)
Lemma streq_sym a b : streq a b = streq b a.
Proof. apply String.eqb_sym. Qed.
Lemma assoc_first_none key ms : Forall (fun kv => named true key kv = false) ms -> assoc_first key ms = None.
Proof.
  induction 1 as [|[k v] ms H _ IH]; [done|]. cbn [assoc_first named fst] in *. by rewrite streq_sym H.
Qed.
Lemma assoc_first_some key ms1 kv ms2 : Forall (fun kv => named true key kv = false) ms1 ->
  named true key kv = true -> assoc_first key (ms1 ++ kv :: ms2) = Some kv.2.
Proof.
  intros H1 H2. rewrite assoc_first_app assoc_first_none //. destruct kv as [k v].
  cbn [assoc_first named fst] in *. by rewrite streq_sym H2.
Qed.

Section get.
Context `{M : !Malloc ccell}.

Lemma wp_has_type types mask k j l prev next Phi :
  item k j l prev next ⊢ (item k j l prev next -∗ Phi (Z.land (kind j) mask =? types)) -∗
  wp (has_type types mask l) Phi.
Proof.
  rewrite item_open. iIntros "(%i & E & H) HPhi". unfold has_type.
  iDestruct (node_nonnull with "H") as %Hn. rewrite (proj2 (Z.eqb_neq _ _) Hn).
  iDestruct "H" as "(%last & Hl & %F & H)". wp_run wp_item_at "Hl". iApply wp_ret.
  pose proof F as [Ft _]. rewrite Ft. iApply "HPhi". iExists i. iFrame "E". iExists last. by iFrame.
Qed.

(** Reading a field of the member. *)
Lemma wp_fields k j l prev next Phi :
  item k j l prev next ⊢ (∀ i, ⌜fits i j⌝ → item k j l prev next -∗ Phi i) -∗ wp (item_at l) Phi.
Proof.
  iIntros "H HPhi". iEval (rewrite item_open) in "H". iDestruct "H" as "(%i & E & %last & Hl & %F & H)".
  iApply (wp_item_at with "Hl"). iIntros "Hl". iApply ("HPhi" with "[//]"). rewrite item_open. iExists i. iFrame "E". iExists last. by iFrame.
Qed.

(** A look-up and what is done with the member found: [K] leaves it as it is. *)
Lemma wp_lookup {A} (K : loc -> C ccell A) (value : option json -> A) k ms l prev next key Phi :
  (forall Psi : A -> heapI ccell, Psi (value None) ⊢ wp (K NULL) Psi) ->
  (forall k v q a b (Psi : A -> heapI ccell),
     item k v q a b ⊢ (item k v q a b -∗ Psi (value (Some v))) -∗ wp (K q) Psi) ->
  item k (JObj ms) l prev next ⊢
  (item k (JObj ms) l prev next -∗ Phi (value (get_item (JObj ms) key))) -∗
  wp (x ← cJSON_GetObjectItemCaseSensitive l key; K x) Phi.
Proof.
  iIntros (Hnone Hsome) "H HPhi". iApply wp_bind. iApply (wp_get_object_item with "H"). iIntros (q) "[[%E H]|H]".
  - destruct E as [-> E]. iApply Hnone. rewrite /get_item assoc_first_none //. by iApply "HPhi".
  - iDestruct "H" as "(%ms1 & %kv & %ms2 & %a & %b & %E & Hm & Hw)". destruct E as (-> & E1 & E2).
    rewrite /get_item assoc_first_some //. iApply (Hsome with "Hm"). iIntros "Hm". iApply "HPhi".
    destruct kv as [key' v]. by iApply "Hw".
Qed.

(** A default if there is no member or it is of another type, otherwise a field. *)
Lemma wp_accessor {A} types (read : cJSON -> A) (def : A) (value : json -> A) k ms l prev next key Phi :
  value JNull = def ->
  (forall j, (Z.land (kind j) 255 =? types) = false -> value j = def) ->
  (forall i j, fits i j -> (Z.land (kind j) 255 =? types) = true -> value j = read i) ->
  item k (JObj ms) l prev next ⊢
  (item k (JObj ms) l prev next -∗ Phi (value (default JNull (get_item (JObj ms) key)))) -∗
  wp (x ← cJSON_GetObjectItemCaseSensitive l key;
      s ← has_type types 255 x;
      if s : bool then i ← item_at x; mret (read i) else mret def) Phi.
Proof.
  intros Hdef Hoth Hval. apply (wp_lookup _ (fun o => value (default JNull o))).
  - intros Psi. iIntros "HPsi". iApply wp_bind. unfold has_type. rewrite Z.eqb_refl. iApply wp_ret.
    iApply wp_ret. by rewrite /= Hdef.
  - intros k' v q a b Psi. iIntros "Hm HPsi". iApply wp_bind. iApply (wp_has_type with "Hm"). iIntros "Hm".
    destruct (Z.land (kind v) 255 =? types) eqn:Et.
    + iApply wp_bind. iApply (wp_fields with "Hm"). iIntros (i Hi) "Hm". iApply wp_ret.
      rewrite -(Hval i v) //. by iApply "HPsi".
    + iApply wp_ret. rewrite -(Hoth v) //. by iApply "HPsi".
Qed.

Ltac by_kind := let j := fresh in intros j; destruct j as [|[]| | | |]; intros; done.

Lemma wp_get_int k ms l prev next key def Phi :
  item k (JObj ms) l prev next ⊢
  (item k (JObj ms) l prev next -∗ Phi (Json.sm_json_get_int (JObj ms) key def)) -∗
  wp (sm_json_get_int l key def) Phi.
Proof.
  iIntros "H HPhi". iApply (wp_accessor _ it_valueint def
    (fun j => match j with JNum d => valueint d | _ => def end) with "H"); [done|by_kind| |].
  - intros i j [_ Hv]. destruct j as [|[]| | | |]; try done. intros _. by destruct Hv as [_ ->].
  - unfold Json.sm_json_get_int. by destruct (get_item (JObj ms) key) as [[]|].
Qed.

Lemma wp_get_double k ms l prev next key def Phi :
  item k (JObj ms) l prev next ⊢
  (item k (JObj ms) l prev next -∗ Phi (Json.sm_json_get_double (JObj ms) key def)) -∗
  wp (sm_json_get_double l key def) Phi.
Proof.
  iIntros "H HPhi". iApply (wp_accessor _ it_valuedouble def
    (fun j => match j with JNum d => d | _ => def end) with "H"); [done|by_kind| |].
  - intros i j [_ Hv]. destruct j as [|[]| | | |]; try done. intros _. by destruct Hv as [-> _].
  - unfold Json.sm_json_get_double. by destruct (get_item (JObj ms) key) as [[]|].
Qed.

Lemma wp_is_bool k v q a b Phi :
  item k v q a b ⊢ (item k v q a b -∗ Phi (match v with JBool _ => true | _ => false end)) -∗
  wp (cJSON_IsBool q) Phi.
Proof.
  iIntros "H HPhi". unfold cJSON_IsBool. iAssert (⌜q <> NULL⌝)%I as %Hn.
  { iEval (rewrite item_open) in "H". iDestruct "H" as "(%i & E & H)". by iApply (node_nonnull with "H"). }
  rewrite (proj2 (Z.eqb_neq _ _) Hn). iApply wp_bind. iApply (wp_fields with "H").
  iIntros (i (Hi & _)) "H". iApply wp_ret. rewrite Hi. iSpecialize ("HPhi" with "H").
  by destruct v as [|[]| | | |].
Qed.

Lemma wp_get_bool k ms l prev next key def Phi :
  item k (JObj ms) l prev next ⊢
  (item k (JObj ms) l prev next -∗ Phi (Json.sm_json_get_bool (JObj ms) key def)) -∗
  wp (sm_json_get_bool l key def) Phi.
Proof.
  apply (wp_lookup _ (fun o => match o with Some (JBool b) => b | _ => def end)).
  - intros Psi. iIntros "H". iApply (wp_bind (A := bool)). unfold cJSON_IsBool. rewrite Z.eqb_refl.
    iApply wp_ret. by iApply wp_ret.
  - intros k' v q a b Psi. iIntros "H HPsi". iApply (wp_bind (A := bool)). iApply (wp_is_bool with "H").
    iIntros "H". destruct v as [|bo| | | |]; try (iApply wp_ret; by iApply "HPsi").
    iApply (wp_has_type with "H"). iIntros "H". iSpecialize ("HPsi" with "H"). by destruct bo.
Qed.

(** A string is lent out with its message. *)
Lemma wp_get_string k ms l prev next key Phi :
  item k (JObj ms) l prev next ⊢
  (∀ p, (match Json.sm_json_get_string (JObj ms) key with
         | Some s => p ↦ CText s ∗ (p ↦ CText s -∗ item k (JObj ms) l prev next)
         | None => <affine> ⌜p = NULL⌝ ∗ item k (JObj ms) l prev next
         end) -∗ Phi p) -∗
  wp (sm_json_get_string l key) Phi.
Proof.
  iIntros "H HPhi". iApply wp_bind. iApply (wp_get_object_item with "H").
  unfold Json.sm_json_get_string. iIntros (q) "[[%E H]|H]".
  - destruct E as [-> E]. iApply wp_bind. unfold cJSON_IsString, has_type. rewrite Z.eqb_refl.
    iApply wp_ret. iApply wp_ret. rewrite /get_item assoc_first_none //. iApply "HPhi". by iFrame.
  - iDestruct "H" as "(%ms1 & %kv & %ms2 & %a & %b & %E & Hm & Hw)". destruct E as (-> & E1 & E2).
    rewrite /get_item assoc_first_some //. iApply wp_bind. iApply (wp_has_type with "Hm"). iIntros "Hm".
    destruct kv as [key' v]. cbn [snd fst] in *.
    destruct v as [|[]| |s| |]; try (iApply wp_ret; iApply "HPhi"; iSplit; [done|]; by iApply "Hw").
    iEval (rewrite /member item_open) in "Hm". iDestruct "Hm" as "(%i & %E & %last & Hl & %F & Hk & Hv & Hc)".
    wp_run wp_item_at "Hl". iApply wp_ret. iApply "HPhi". iFrame "Hv". iIntros "Hv". iApply "Hw".
    rewrite /member item_open. iExists i. iSplit; [done|]. iExists last. by iFrame.
Qed.

(** The element at an index, lent out of its array; NULL behind the end. *)
Lemma wp_nth_child js first prev last fuel index Phi : 0 <= index -> (length js < fuel)%nat ->
  chain (map element js) first prev last NULL ⊢
  (∀ q, ((<affine> ⌜q = NULL /\ zlen js <= index⌝ ∗ chain (map element js) first prev last NULL) ∨
         (∃ js1 j js2, <affine> ⌜js = js1 ++ j :: js2 /\ zlen js1 = index⌝ ∗
            focus element js1 j js2 first prev last q)) -∗ Phi q) -∗
  wp (nth_child fuel first index) Phi.
Proof.
  revert first prev fuel index Phi. induction js as [|j js IH]; intros first prev [|fuel] index Phi Hi Hf;
    [cbn in Hf; lia| |cbn in Hf; lia|].
  - iIntros "%E HPhi". destruct E as [-> ->]. cbn. iApply wp_ret. iApply "HPhi". iLeft. by iFrame "%".
  - iIntros "Hc HPhi". iDestruct (chain_nonnull with "Hc") as %Hn; [apply element_linked|].
    cbn [nth_child]. rewrite (proj2 (Z.eqb_neq _ _) Hn). cbn [negb andb].
    destruct (Z.ltb_spec 0 index).
    + cbn [chain List.map]. iDestruct "Hc" as "(%n & HP & Hc)". iApply wp_bind.
      iApply (wp_linked _ _ _ _ _ (element_linked j) with "HP"). iIntros (i <-) "HP".
      iApply (IH with "Hc"); [lia|cbn in Hf; lia|]. iIntros (q) "[[%E Hc]|(%js1 & %x & %js2 & %E & H)]"; iApply "HPhi".
      * iLeft. iSplit; [iPureIntro; rewrite zlen_cons; split; [apply E|lia]|]. iExists _. iFrame.
      * iRight. destruct E as [-> E]. iExists (j :: js1), x, js2. rewrite zlen_cons. iSplit; [iPureIntro; split; [done|lia]|].
        iApply focus_later. iFrame.
    + iApply wp_ret. iApply "HPhi". iRight. iExists [], j, js. rewrite zlen_nil. iSplit; [iPureIntro; split; [done|lia]|].
      by iApply focus_here.
Qed.

Lemma wp_get_array_item k js l prev next index Phi : 0 <= index ->
  item k (JArr js) l prev next ⊢
  (∀ q, ((<affine> ⌜q = NULL /\ zlen js <= index⌝ ∗ item k (JArr js) l prev next) ∨
         (∃ js1 j js2 a b, <affine> ⌜js = js1 ++ j :: js2 /\ zlen js1 = index⌝ ∗ element j q a b ∗
            (∀ j', element j' q a b -∗ item k (JArr (js1 ++ j' :: js2)) l prev next))) -∗ Phi q) -∗
  wp (cJSON_GetArrayItem l index) Phi.
Proof.
  iIntros (Hi) "H HPhi". iEval (rewrite item_open) in "H". iDestruct "H" as "(%i & %E & H)".
  unfold cJSON_GetArrayItem, get_array_item. destruct (Z.ltb_spec index 0); [lia|].
  iDestruct (node_nonnull with "H") as %Hn. rewrite (proj2 (Z.eqb_neq _ _) Hn).
  wp_run wp_node "H". iDestruct "H" as "(%last & Hl & %F & Hk & Hv & Hc)".
  iStopProof. apply (wp_walk (length js)).
  - iIntros "(_ & _ & _ & _ & Hc)". rewrite -(length_map element). iApply chain_length; [|done].
    apply elements_linked.
  - iIntros (fuel Hf) "(HPhi & Hl & Hk & Hv & Hc)". iApply (wp_nth_child with "Hc"); [done|lia|].
    iIntros (q) "[[%E1 Hc]|(%js1 & %j & %js2 & %E1 & %a & %b & H1 & H2 & H3)]"; iApply "HPhi".
    + iLeft. iSplit; [done|]. rewrite item_open. iExists i. iSplit; [done|]. iExists last. by iFrame.
    + iRight. iExists js1, j, js2, a, b. iFrame "H2". iSplit; [done|]. iIntros (j') "H2".
      rewrite item_open. iExists i. iSplit; [done|]. iExists last. iFrame "Hl Hk Hv".
      iSplit; [iPureIntro; by destruct F|]. iApply focus_chain. iExists a, b. iFrame.
Qed.

(** ** Arrays of strings *)

Abbreviation strings := (fun ss => map element (map JStr ss)) (only parsing).

Lemma wp_string_items ss : forall done a i p (Phi : option loc -> heapI ccell),
  owns_strings i -> it_next i = NULL -> it_string i = NULL -> it_valuestring i = NULL ->
  a ↦ CItem i ∗ chain (strings done) (it_child i) NULL p NULL ⊢
  ((⌜may_fail⌝ → Phi None) ∧
   (∀ c n, a ↦ CItem (set_child c i) -∗ chain (strings (done ++ ss)) c NULL n NULL -∗ Phi (Some n))) -∗
  wp (string_items a p (bool_decide (done = [])) (map Some ss)) Phi.
Proof.
  induction ss as [|s ss IH]; intros done a i p Phi Ho H1 H2 H3; iIntros "[Ha Hc] HPhi".
  - iApply wp_ret. rewrite app_nil_r. iDestruct "HPhi" as "[_ HPhi]". iApply ("HPhi" $! (it_child i) with "[Ha] Hc").
    by destruct i.
  - cbn [string_items List.map]. iApply wp_bind. iApply (creates_rule _ _ _ (creates_string s)). iSplit.
    { iIntros "%Hf". rewrite Z.eqb_refl. iApply (wp_bind (A := unit)).
      iApply (wp_delete_shell None None (strings done) a i with "[Ha Hc]"); [done..| | | |].
      - apply elements_linked.
      - apply (children_freeable (JArr (map JStr done))).
      - iExists NULL, p. iFrame. iSplit; by iPureIntro.
      - iApply wp_ret. iDestruct "HPhi" as "[HPhi _]". by iApply "HPhi". }
    iIntros (n) "Hn". iDestruct (linked_nonnull with "Hn") as %Hn; [apply item_linked|].
    rewrite (proj2 (Z.eqb_neq _ _) Hn). iApply (wp_bind (A := unit)).
    assert (Hb : bool_decide (done ++ [s] = []) = false) by (apply bool_decide_false; by destruct done).
    iAssert (∀ c, a ↦ CItem (set_child c i) -∗ chain (strings (done ++ [s])) c NULL n NULL -∗
      wp (string_items a n (bool_decide (done ++ [s] = [])) (map Some ss)) Phi)%I with "[HPhi]" as "Hloop".
    { iIntros (c) "Ha Hc". iApply (IH (done ++ [s]) with "[$Ha $Hc]"); [done..|].
      by rewrite -app_assoc. }
    rewrite Hb. iAssert (element (JStr s) n NULL NULL) with "[Hn]" as "Hn"; [by iExists None|].
    destruct (decide (done = [])) as [->|Hne].
    + rewrite bool_decide_true //. iDestruct "Hc" as %[_ ->]. iApply (wp_change with "Ha"). iIntros "Ha".
      iApply ("Hloop" with "Ha"). iExists NULL. iFrame. by iPureIntro.
    + rewrite bool_decide_false //. iApply (wp_suffix (strings done) (element (JStr s)) with "[$Hc $Hn]").
      * apply elements_linked.
      * by destruct done.
      * apply element_linked.
      * iIntros "Hc". iApply ("Hloop" $! (it_child i) with "[Ha]"); [by destruct i|]. by rewrite !map_app.
Qed.

(** The array of the strings, or NULL and nothing is left. *)
Lemma creates_string_array ss : creates (cJSON_CreateStringArray (map Some ss)) (JArr (map JStr ss)).
Proof.
  intros Phi. iIntros "HPhi". iApply wp_bind. iApply wp_create. iSplit.
  { iIntros "%Hf". rewrite Z.eqb_refl. iApply wp_ret. iDestruct "HPhi" as "[HPhi _]". by iApply "HPhi". }
  iIntros (a) "Ha". iDestruct (pointsto_nonnull with "Ha") as %Ha. rewrite (proj2 (Z.eqb_neq _ _) Ha).
  iApply wp_bind. iApply (wp_string_items ss [] with "[$Ha]"); [done..|by iPureIntro|]. iSplit.
  { iIntros "%Hf". iApply wp_ret. iDestruct "HPhi" as "[HPhi _]". by iApply "HPhi". }
  iIntros (c n) "Ha Hc".
  iApply (wp_close_copy (JArr (map JStr ss)) a (set_type cJSON_Array zero_item) c n None with "[$Ha $Hc]"); [done..| |].
  - iSplit; by iPureIntro.
  - iIntros "H". iDestruct "HPhi" as "[_ HPhi]". by iApply "HPhi".
Qed.
End get.
