(* ===== verification/MsgHeap.v ===== *)
(** * Building messages in the heap ([protocol.c])

    The builders of [Protocol] once more, call by call, on the items of
    [CJsonTree], and that each of them builds the tree [Protocol] says: whole
    when no allocation fails, and otherwise with members lost, but never
    touching memory that is not its own, and leaking none but items that the
    four builders which link items into a message fail to link in. *)
From stdpp Require Import gmap.
From iris.proofmode Require Import proofmode.
From S2P Require Import Prelude Cstr Codecs Json Protocol Effects HeapLogic CJsonTree CJsonOps.

Section builders.
Context `{M : !Malloc ccell}.

Definition make_msg (type : string) : C ccell loc :=
  msg ← cJSON_CreateObject;
  cJSON_AddStringToObject msg "type" (Some type);;
  mret msg.

(** The encoded text lives in memory of its own for as long as it is needed. *)
Definition add_b64_data (msg : loc) (key : string) (data : bytes) : C ccell unit :=
  let enc := string_of_bytes (sm_base64_encode data) in
  b64 ← malloc (CText enc);
  cJSON_AddStringToObject msg key (Some (if b64 =? NULL then ""%string else enc));;
  free b64.

(** [if (s) cJSON_AddStringToObject(msg, key, s)] *)
Definition add_if (msg : loc) (key : string) (s : option string) : C ccell unit :=
  match s with Some _ => cJSON_AddStringToObject msg key s;; mret tt | None => mret tt end.
(** [if (s[0]) cJSON_AddStringToObject(msg, key, s)] *)
Definition add_if_nonempty (msg : loc) (key s : string) : C ccell unit :=
  if streq s "" then mret tt else cJSON_AddStringToObject msg key (Some s);; mret tt.
Definition add_int (msg : loc) (key : string) (n : Z) : C ccell loc :=
  cJSON_AddNumberToObject msg key (dbl_of_int n).

Definition sm_msg_hello (token name role : option string) : C ccell loc :=
  msg ← make_msg "hello";
  cJSON_AddStringToObject msg "name" (Some (default "unnamed"%string name));;
  cJSON_AddStringToObject msg "role" (Some (default "observer"%string role));;
  add_int msg "protocol_version" SM_PROTOCOL_VERSION;;
  add_if_nonempty msg "token" (default ""%string token);;
  mret msg.

Definition sm_msg_welcome (version port : string) (baud : Z) (role : string) : C ccell loc :=
  msg ← make_msg "welcome";
  cJSON_AddStringToObject msg "broker_version" (Some version);;
  add_int msg "protocol_version" SM_PROTOCOL_VERSION;;
  cJSON_AddStringToObject msg "port" (Some port);;
  add_int msg "baud" baud;;
  cJSON_AddStringToObject msg "your_role" (Some role);;
  mret msg.

Definition sm_msg_send (id : option string) (data : bytes) : C ccell loc :=
  msg ← make_msg "send";
  cJSON_AddStringToObject msg "id" id;;
  add_b64_data msg "data" data;;
  mret msg.

Definition sm_msg_send_expect (id : option string) (data : bytes) (pattern : string) (timeout_ms : Z) : C ccell loc :=
  msg ← make_msg "send_expect";
  cJSON_AddStringToObject msg "id" id;;
  add_b64_data msg "data" data;;
  cJSON_AddStringToObject msg "pattern" (Some pattern);;
  add_int msg "timeout_ms" timeout_ms;;
  mret msg.

Definition sm_msg_output (data : bytes) (timestamp : double) : C ccell loc :=
  msg ← make_msg "output";
  add_b64_data msg "data" data;;
  cJSON_AddNumberToObject msg "timestamp" timestamp;;
  mret msg.

Definition sm_msg_input_echo (data : bytes) (sender : string) (timestamp : double) : C ccell loc :=
  msg ← make_msg "input_echo";
  add_b64_data msg "data" data;;
  cJSON_AddStringToObject msg "sender" (Some sender);;
  cJSON_AddNumberToObject msg "timestamp" timestamp;;
  mret msg.

Definition sm_msg_expect_result_ex (id : string) (matched : bool) (data : bytes) (pattern : string)
    (aborted : bool) (abort_reason abort_pattern : string) : C ccell loc :=
  let truncated := SM_MAX_EXPECT_RESULT_BYTES <? zlen data in
  let data := if truncated then ztake SM_MAX_EXPECT_RESULT_BYTES data else data in
  msg ← make_msg "expect_result";
  cJSON_AddStringToObject msg "id" (Some id);;
  cJSON_AddBoolToObject msg "matched" matched;;
  add_b64_data msg "data" data;;
  cJSON_AddStringToObject msg "pattern" (Some pattern);;
  (if truncated then cJSON_AddBoolToObject msg "truncated" true;; mret tt else mret tt);;
  (if aborted then
     cJSON_AddBoolToObject msg "aborted" true;;
     add_if_nonempty msg "abort_reason" abort_reason;;
     add_if_nonempty msg "abort_pattern" abort_pattern
   else mret tt);;
  mret msg.

Definition sm_msg_expect_result (id : string) (matched : bool) (data : bytes) (pattern : string) : C ccell loc :=
  sm_msg_expect_result_ex id matched data pattern false "" "".

Definition sm_msg_status (id : option string) : C ccell loc :=
  msg ← make_msg "status";
  cJSON_AddStringToObject msg "id" id;;
  mret msg.

Definition sm_msg_status_response (id : option string) (port : string) (baud : Z)
    (connected suspended : bool) : C ccell loc :=
  msg ← make_msg "status_response";
  cJSON_AddStringToObject msg "id" id;;
  cJSON_AddStringToObject msg "port" (Some port);;
  add_int msg "baud" baud;;
  cJSON_AddBoolToObject msg "connected" connected;;
  cJSON_AddBoolToObject msg "suspended" suspended;;
  mret msg.

Definition sm_msg_anomaly (incident_id pattern_name severity : string) (timestamp : double)
    (match_text pre_context : string) : C ccell loc :=
  msg ← make_msg "anomaly";
  cJSON_AddStringToObject msg "incident_id" (Some incident_id);;
  cJSON_AddStringToObject msg "pattern_name" (Some pattern_name);;
  cJSON_AddStringToObject msg "severity" (Some severity);;
  cJSON_AddNumberToObject msg "timestamp" timestamp;;
  cJSON_AddStringToObject msg "match_text" (Some match_text);;
  cJSON_AddStringToObject msg "pre_context" (Some pre_context);;
  mret msg.

Definition sm_msg_configure_autoresponder (id name pattern : option string) (response : bytes)
    (once : bool) (cooldown_ms : Z) (remove : bool) : C ccell loc :=
  msg ← make_msg "configure_autoresponder";
  add_if msg "id" id;;
  add_if msg "name" name;;
  if remove then cJSON_AddBoolToObject msg "remove" true;; mret msg else
  add_if msg "pattern" pattern;;
  add_b64_data msg "response_b64" response;;
  cJSON_AddBoolToObject msg "once" once;;
  add_int msg "cooldown_ms" cooldown_ms;;
  mret msg.

Definition sm_msg_error (id : option string) (message : string) : C ccell loc :=
  msg ← make_msg "error";
  cJSON_AddStringToObject msg "id" (Some (default ""%string id));;
  cJSON_AddStringToObject msg "message" (Some message);;
  mret msg.

Definition sm_msg_listen_expect (id pattern : option string) (timeout_ms : Z) : C ccell loc :=
  msg ← make_msg "listen_expect";
  cJSON_AddStringToObject msg "id" id;;
  cJSON_AddStringToObject msg "pattern" (Some (default ""%string pattern));;
  add_int msg "timeout_ms" timeout_ms;;
  mret msg.

Definition sm_msg_output_b64 (b64 : option string) (timestamp : double) : C ccell loc :=
  msg ← make_msg "output";
  cJSON_AddStringToObject msg "data" (Some (default ""%string b64));;
  cJSON_AddNumberToObject msg "timestamp" timestamp;;
  mret msg.

Definition sm_msg_takeover (id : option string) : C ccell loc :=
  msg ← make_msg "takeover";
  cJSON_AddStringToObject msg "id" id;;
  mret msg.

Definition sm_msg_release (id : option string) : C ccell loc :=
  msg ← make_msg "release";
  cJSON_AddStringToObject msg "id" id;;
  mret msg.

Definition sm_msg_pin_control (id : option string) (pin action : string) (duration_ms : Z) : C ccell loc :=
  msg ← make_msg "pin_control";
  cJSON_AddStringToObject msg "id" id;;
  cJSON_AddStringToObject msg "pin" (Some pin);;
  cJSON_AddStringToObject msg "action" (Some action);;
  add_int msg "duration_ms" duration_ms;;
  mret msg.

Definition sm_msg_set_baud (id : option string) (baud : Z) : C ccell loc :=
  msg ← make_msg "set_baud";
  cJSON_AddStringToObject msg "id" id;;
  add_int msg "baud" baud;;
  mret msg.

Definition sm_msg_suspend (id : option string) : C ccell loc :=
  msg ← make_msg "suspend";
  cJSON_AddStringToObject msg "id" id;;
  mret msg.

Definition sm_msg_resume (id : option string) : C ccell loc :=
  msg ← make_msg "resume";
  cJSON_AddStringToObject msg "id" id;;
  mret msg.

Definition sm_msg_suspended (port by_client : string) : C ccell loc :=
  msg ← make_msg "suspended";
  cJSON_AddStringToObject msg "port" (Some port);;
  cJSON_AddStringToObject msg "by_client" (Some by_client);;
  mret msg.

Definition sm_msg_resumed (port : string) : C ccell loc :=
  msg ← make_msg "resumed";
  cJSON_AddStringToObject msg "port" (Some port);;
  mret msg.

Definition sm_msg_history_request (id : option string) (since_ts : double) (last_bytes : Z) : C ccell loc :=
  msg ← make_msg "history_request";
  cJSON_AddStringToObject msg "id" id;;
  cJSON_AddNumberToObject msg "since_ts" since_ts;;
  add_int msg "last_bytes" last_bytes;;
  mret msg.

Definition sm_msg_history_request_seq (id : option string) (since_seq max_bytes : Z) : C ccell loc :=
  msg ← make_msg "history_request";
  cJSON_AddStringToObject msg "id" id;;
  add_int msg "since_seq" since_seq;;
  (if 0 <? max_bytes then add_int msg "max_bytes" max_bytes;; mret tt else mret tt);;
  mret msg.

Definition sm_msg_incidents_request (id : option string) (since_ts : double) : C ccell loc :=
  msg ← make_msg "incidents_request";
  cJSON_AddStringToObject msg "id" id;;
  cJSON_AddNumberToObject msg "since_ts" since_ts;;
  mret msg.

Definition sm_msg_interrupt_autoboot (id : option string) (key : bytes) (interval_ms duration_ms : Z)
    (stop_pattern : option string) : C ccell loc :=
  msg ← make_msg "interrupt_autoboot";
  add_if msg "id" id;;
  add_b64_data msg "key_b64" key;;
  add_int msg "interval_ms" interval_ms;;
  add_int msg "duration_ms" duration_ms;;
  add_if msg "stop_pattern" stop_pattern;;
  mret msg.

Definition sm_msg_autoboot_result (id : option string) (matched : bool) (reason : string) (elapsed_ms sent : Z) : C ccell loc :=
  msg ← make_msg "autoboot_result";
  add_if msg "id" id;;
  cJSON_AddBoolToObject msg "matched" matched;;
  cJSON_AddStringToObject msg "reason" (Some reason);;
  add_int msg "elapsed_ms" elapsed_ms;;
  add_int msg "sent" sent;;
  mret msg.

Definition sm_msg_boot_stage (name : string) (index total : Z) (timestamp : double) : C ccell loc :=
  msg ← make_msg "boot_stage";
  cJSON_AddStringToObject msg "name" (Some name);;
  add_int msg "index" index;;
  add_int msg "total" total;;
  cJSON_AddNumberToObject msg "timestamp" timestamp;;
  mret msg.

Definition sm_msg_boot_stall (name : string) (index total stalled_ms : Z) : C ccell loc :=
  msg ← make_msg "boot_stall";
  cJSON_AddStringToObject msg "name" (Some name);;
  add_int msg "index" index;;
  add_int msg "total" total;;
  add_int msg "stalled_ms" stalled_ms;;
  mret msg.

Definition sm_msg_autoresponders_request (id : option string) : C ccell loc :=
  msg ← make_msg "autoresponders_request";
  add_if msg "id" id;;
  mret msg.

Definition sm_msg_autoresponder_fired (name matched_text : string) (sent : Z) : C ccell loc :=
  msg ← make_msg "autoresponder_fired";
  cJSON_AddStringToObject msg "name" (Some name);;
  cJSON_AddStringToObject msg "matched_text" (Some matched_text);;
  add_int msg "sent" sent;;
  mret msg.

Definition sm_msg_link_down (port reason : string) : C ccell loc :=
  msg ← make_msg "link_down";
  cJSON_AddStringToObject msg "port" (Some port);;
  cJSON_AddStringToObject msg "reason" (Some reason);;
  mret msg.

Definition sm_msg_link_up (port : string) : C ccell loc :=
  msg ← make_msg "link_up";
  cJSON_AddStringToObject msg "port" (Some port);;
  mret msg.

Definition sm_msg_ack (type : string) (id : option string) : C ccell loc :=
  msg ← make_msg type;
  cJSON_AddStringToObject msg "id" (Some (default ""%string id));;
  cJSON_AddStringToObject msg "status" (Some "ok"%string);;
  mret msg.

(** [cJSON_AddItemToObject(msg, key, items ? items : cJSON_CreateArray())]: the
    items are the caller's until they are linked in. *)
Definition add_items (msg : loc) (key : string) (items : loc) : C ccell bool :=
  items ← (if items =? NULL then cJSON_CreateArray else mret items);
  cJSON_AddItemToObject msg key items.

Definition sm_msg_history_response (id : option string) (chunks : loc) : C ccell loc :=
  msg ← make_msg "history_response";
  cJSON_AddStringToObject msg "id" id;;
  add_items msg "chunks" chunks;;
  mret msg.

Definition sm_msg_incidents_response (id : option string) (incidents : loc) : C ccell loc :=
  msg ← make_msg "incidents_response";
  cJSON_AddStringToObject msg "id" id;;
  add_items msg "incidents" incidents;;
  mret msg.

Definition sm_msg_configure_anomaly (id : option string) (patterns : loc) : C ccell loc :=
  msg ← make_msg "configure_anomaly";
  cJSON_AddStringToObject msg "id" id;;
  add_items msg "patterns" patterns;;
  mret msg.

Definition sm_msg_autoresponders_response (id : option string) (rules : loc) : C ccell loc :=
  msg ← make_msg "autoresponders_response";
  add_if msg "id" id;;
  add_items msg "rules" rules;;
  mret msg.

(** ** The trees they build *)

Definition members (j : json) : list (string * json) := match j with JObj ms => ms | _ => [] end.

(** The items a builder is handed: none at all, or a pointer that may be NULL
    to the tree it stands for. *)
Inductive tree_arg := NoTree | Tree (p : loc) (v : option json).

Definition handed (t : tree_arg) : heapI ccell :=
  match t with
  | NoTree => emp
  | Tree p None => <affine> ⌜p = NULL⌝
  | Tree p (Some v) => item None v p NULL NULL
  end%I.

(** The items that were not linked in where memory was short: those handed
    over, or the empty array in their place. *)
Definition unlinked (t : tree_arg) : heapI ccell :=
  match t with
  | NoTree => False
  | Tree _ None => ∃ p, item None (JArr []) p NULL NULL
  | Tree p (Some v) => item None v p NULL NULL
  end%I.
Definition left_over (t : tree_arg) : heapI ccell := (emp ∨ <affine> ⌜may_fail⌝ ∗ unlinked t)%I.

(** [m], handed [t], builds the message [j]. *)
Definition builds (t : tree_arg) (m : C ccell loc) (j : json) : Prop := forall Phi : loc -> heapI ccell,
  handed t ∗ (∀ obj, built (members j) obj ∗ left_over t -∗ Phi obj) ⊢ wp m Phi.

Lemma built_string_opt key s ms obj Phi :
  built ms obj ⊢
  (∀ x, built (match s with Some s => ms ++ [(key, JStr s)] | None => ms end) obj -∗ Phi x) -∗
  wp (cJSON_AddStringToObject obj key s) Phi.
Proof. destruct s; [apply built_string|apply built_add_none]. Qed.

Lemma built_if key s ms obj Phi :
  built ms obj ⊢
  (built (match s with Some s => ms ++ [(key, JStr s)] | None => ms end) obj -∗ Phi tt) -∗ wp (add_if obj key s) Phi.
Proof.
  iIntros "H HPhi". destruct s; [|iApply wp_ret; by iApply "HPhi"].
  iApply wp_bind. iApply (built_string with "H"). iIntros (x) "H". iApply wp_ret. by iApply "HPhi".
Qed.

Lemma built_if_nonempty key s ms obj Phi :
  built ms obj ⊢
  (built (if streq s "" then ms else ms ++ [(key, JStr s)]) obj -∗ Phi tt) -∗ wp (add_if_nonempty obj key s) Phi.
Proof.
  iIntros "H HPhi". unfold add_if_nonempty. destruct (streq s ""); [iApply wp_ret; by iApply "HPhi"|].
  iApply wp_bind. iApply (built_string with "H"). iIntros (x) "H". iApply wp_ret. by iApply "HPhi".
Qed.

Lemma built_int key n ms obj Phi :
  built ms obj ⊢ (∀ x, built (ms ++ [(key, JNum (dbl_of_int n))]) obj -∗ Phi x) -∗ wp (add_int obj key n) Phi.
Proof. apply built_number. Qed.

Lemma built_b64 key data ms obj Phi :
  built ms obj ⊢
  (built (ms ++ [(key, JStr (string_of_bytes (sm_base64_encode data)))]) obj -∗ Phi tt) -∗
  wp (add_b64_data obj key data) Phi.
Proof.
  iIntros "H HPhi". iApply wp_bind. iApply wp_malloc. iSplit.
  - iIntros "%Hf". rewrite Z.eqb_refl. iApply wp_bind. iApply (built_string with "H"). iIntros (x) "H".
    iApply wp_free_null. iApply "HPhi". by iApply built_empty.
  - iIntros (p) "Hp". iDestruct (pointsto_nonnull with "Hp") as %Hp. rewrite (proj2 (Z.eqb_neq _ _) Hp).
    iApply wp_bind. iApply (built_string with "H"). iIntros (x) "H". iApply (wp_free with "Hp"). by iApply "HPhi".
Qed.

Lemma built_link v new key ms obj Phi :
  built ms obj ∗ item None v new NULL NULL ⊢
  (∀ x, built (ms ++ [(key, v)]) obj ∗ (emp ∨ <affine> ⌜may_fail⌝ ∗ item None v new NULL NULL) -∗ Phi x) -∗
  wp (cJSON_AddItemToObject obj key new) Phi.
Proof.
  iIntros "[[%E|(%ms' & %E & H)] Hn] HPhi".
  - destruct E as [-> Hf]. unfold cJSON_AddItemToObject, add_item_to_object. rewrite Z.eqb_refl. cbn [orb].
    iApply wp_ret. iApply "HPhi". iSplitR; [by iLeft|]. iRight. iFrame. by iPureIntro.
  - destruct E as [E1 E2]. iApply (wp_add_to_object with "[$H $Hn]"). iSplit.
    + iIntros "%Hf H Hn". iApply "HPhi". iSplitL "H".
      * iRight. iExists ms'. iFrame. iPureIntro. split; [by apply lost_app_skip|by left].
      * iRight. iFrame. by iPureIntro.
    + iIntros "H". iApply "HPhi". iSplitL; [|by iLeft]. iRight. iExists (ms' ++ [(key, v)]).
      iDestruct (added_item with "H") as "$". iPureIntro. split; [by apply lost_app_keep|].
      destruct E2 as [?| ->]; [by left|by right].
Qed.

Lemma built_items key p v ms obj Phi :
  built ms obj ∗ handed (Tree p v) ⊢
  (∀ x, built (ms ++ [(key, or_empty_array v)]) obj ∗ left_over (Tree p v) -∗ Phi x) -∗
  wp (add_items obj key p) Phi.
Proof.
  iIntros "[H Ht] HPhi". iApply wp_bind. destruct v as [v|]; cbn [handed].
  - rewrite item_open. iDestruct "Ht" as "(%i & %E & Ht)". iDestruct (node_nonnull with "Ht") as %Hp.
    rewrite (proj2 (Z.eqb_neq _ _) Hp). iApply wp_ret. iApply (built_link with "[$H Ht] HPhi").
    rewrite item_open. iExists i. by iFrame.
  - iDestruct "Ht" as %->. rewrite Z.eqb_refl. iApply (creates_rule _ _ _ creates_array). iSplit.
    + iIntros "%Hf". unfold cJSON_AddItemToObject, add_item_to_object. rewrite Z.eqb_refl !orb_true_r.
      iApply wp_ret. iApply "HPhi". iSplitL; [|by iLeft].
      iDestruct "H" as "[%E|(%ms' & %E & H)]"; [by iLeft|].
      iRight. iExists ms'. iFrame. iPureIntro. destruct E as [E _]. split; [by apply lost_app_skip|by left].
    + iIntros (l) "Hl". iApply (built_link with "[$H $Hl]"). iIntros (x) "[H [_|[%Hf Hl]]]"; iApply "HPhi"; iFrame.
      * by iLeft.
      * iRight. iSplitR; [by iPureIntro|]. by iExists l.
Qed.

Lemma built_make_msg type (Phi : loc -> heapI ccell) :
  (∀ obj, built [("type"%string, JStr type)] obj -∗ Phi obj) ⊢ wp (make_msg type) Phi.
Proof.
  iIntros "HPhi". iApply wp_bind. iApply built_new. iIntros (obj) "H".
  iApply wp_bind. iApply (built_string with "H"). iIntros (x) "H". iApply wp_ret. by iApply "HPhi".
Qed.
End builders.

(** Runs the calls of a builder one by one. *)
Ltac build_step :=
  let go P := lazymatch P with
    | mbind _ _ => iApply wp_bind
    | mret _ => iApply wp_ret
    | add_int _ _ _ => iApply (built_int with "H"); iIntros (?) "H"
    | cJSON_AddStringToObject _ _ (Some _) => iApply (built_string with "H"); iIntros (?) "H"
    | cJSON_AddStringToObject _ _ _ => iApply (built_string_opt with "H"); iIntros (?) "H"
    | cJSON_AddNumberToObject _ _ _ => iApply (built_number with "H"); iIntros (?) "H"
    | cJSON_AddBoolToObject _ _ _ => iApply (built_bool with "H"); iIntros (?) "H"
    | add_b64_data _ _ _ => iApply (built_b64 with "H"); iIntros "H"
    | add_if _ _ _ => iApply (built_if with "H"); iIntros "H"
    | add_items _ _ _ => iApply (built_items with "[$H $Ht]"); iIntros (?) "[H Ht]"
    | add_if_nonempty _ _ _ => iApply (built_if_nonempty with "H");
        repeat match goal with E : streq ?s _ = _ |- context [streq ?s _] => rewrite E end; iIntros "H"
    end in
  lazymatch goal with |- environments.envs_entails _ (wp ?P _) => go P end.
Ltac build :=
  intros Phi; iIntros "[Ht HPhi]"; iApply wp_bind; iApply built_make_msg; iIntros (obj) "H";
  repeat build_step; iApply "HPhi"; iFrame; by first [iLeft | done].

Section refinement.
Context `{M : !Malloc ccell}.

Lemma build_welcome version port baud role :
  builds NoTree (sm_msg_welcome version port baud role) (Protocol.sm_msg_welcome version port baud role).
Proof. build. Qed.
Lemma build_send id data : builds NoTree (sm_msg_send id data) (Protocol.sm_msg_send id data).
Proof. destruct id; build. Qed.
Lemma build_hello token name role :
  builds NoTree (sm_msg_hello token name role) (Protocol.sm_msg_hello token name role).
Proof.
  unfold sm_msg_hello, Protocol.sm_msg_hello.
  destruct token as [t|]; cbn [default]; [destruct (streq t "") eqn:E|]; build.
Qed.
Lemma build_send_expect id data pattern t :
  builds NoTree (sm_msg_send_expect id data pattern t) (Protocol.sm_msg_send_expect id data pattern t).
Proof. destruct id; build. Qed.
Lemma build_output data ts : builds NoTree (sm_msg_output data ts) (Protocol.sm_msg_output data ts).
Proof. build. Qed.
Lemma build_input_echo data sender ts :
  builds NoTree (sm_msg_input_echo data sender ts) (Protocol.sm_msg_input_echo data sender ts).
Proof. build. Qed.
Lemma build_status id : builds NoTree (sm_msg_status id) (Protocol.sm_msg_status id).
Proof. destruct id; build. Qed.
Lemma build_status_response id port baud c s :
  builds NoTree (sm_msg_status_response id port baud c s) (Protocol.sm_msg_status_response id port baud c s).
Proof. destruct id; build. Qed.
Lemma build_anomaly i p sev ts m c :
  builds NoTree (sm_msg_anomaly i p sev ts m c) (Protocol.sm_msg_anomaly i p sev ts m c).
Proof. build. Qed.
Lemma build_error id m : builds NoTree (sm_msg_error id m) (Protocol.sm_msg_error id m).
Proof. build. Qed.
Lemma build_configure_autoresponder id name pattern response once cooldown remove :
  builds NoTree (sm_msg_configure_autoresponder id name pattern response once cooldown remove)
         (Protocol.sm_msg_configure_autoresponder id name pattern response once cooldown remove).
Proof. destruct id, name, remove, pattern; build. Qed.
Lemma build_expect_result_ex id matched data pattern aborted reason pat :
  builds NoTree (sm_msg_expect_result_ex id matched data pattern aborted reason pat)
         (Protocol.sm_msg_expect_result_ex id matched data pattern aborted reason pat).
Proof.
  unfold sm_msg_expect_result_ex, Protocol.sm_msg_expect_result_ex, add_nonempty.
  destruct (_ <? _), aborted, (streq reason "") eqn:?, (streq pat "") eqn:?; build.
Qed.
Lemma build_listen_expect id pattern timeout_ms :
  builds NoTree (sm_msg_listen_expect id pattern timeout_ms)
         (Protocol.sm_msg_listen_expect id pattern timeout_ms).
Proof. destruct id; build. Qed.
Lemma build_output_b64 b64 timestamp :
  builds NoTree (sm_msg_output_b64 b64 timestamp)
         (Protocol.sm_msg_output_b64 b64 timestamp).
Proof. build. Qed.
Lemma build_takeover id : builds NoTree (sm_msg_takeover id) (Protocol.sm_msg_takeover id).
Proof. destruct id; build. Qed.
Lemma build_release id : builds NoTree (sm_msg_release id) (Protocol.sm_msg_release id).
Proof. destruct id; build. Qed.
Lemma build_pin_control id pin action duration_ms :
  builds NoTree (sm_msg_pin_control id pin action duration_ms)
         (Protocol.sm_msg_pin_control id pin action duration_ms).
Proof. destruct id; build. Qed.
Lemma build_set_baud id baud : builds NoTree (sm_msg_set_baud id baud) (Protocol.sm_msg_set_baud id baud).
Proof. destruct id; build. Qed.
Lemma build_suspend id : builds NoTree (sm_msg_suspend id) (Protocol.sm_msg_suspend id).
Proof. destruct id; build. Qed.
Lemma build_resume id : builds NoTree (sm_msg_resume id) (Protocol.sm_msg_resume id).
Proof. destruct id; build. Qed.
Lemma build_suspended port by_client :
  builds NoTree (sm_msg_suspended port by_client)
         (Protocol.sm_msg_suspended port by_client).
Proof. build. Qed.
Lemma build_resumed port : builds NoTree (sm_msg_resumed port) (Protocol.sm_msg_resumed port).
Proof. build. Qed.
Lemma build_history_request id since_ts last_bytes :
  builds NoTree (sm_msg_history_request id since_ts last_bytes)
         (Protocol.sm_msg_history_request id since_ts last_bytes).
Proof. destruct id; build. Qed.
Lemma build_history_request_seq id since_seq max_bytes :
  builds NoTree (sm_msg_history_request_seq id since_seq max_bytes)
         (Protocol.sm_msg_history_request_seq id since_seq max_bytes).
Proof.
  unfold sm_msg_history_request_seq, Protocol.sm_msg_history_request_seq.
  destruct id, (0 <? max_bytes); build.
Qed.
Lemma build_incidents_request id since_ts :
  builds NoTree (sm_msg_incidents_request id since_ts)
         (Protocol.sm_msg_incidents_request id since_ts).
Proof. destruct id; build. Qed.
Lemma build_interrupt_autoboot id key interval_ms duration_ms stop_pattern :
  builds NoTree (sm_msg_interrupt_autoboot id key interval_ms duration_ms stop_pattern)
         (Protocol.sm_msg_interrupt_autoboot id key interval_ms duration_ms stop_pattern).
Proof. destruct id, stop_pattern; build. Qed.
Lemma build_autoboot_result id matched reason elapsed_ms sent :
  builds NoTree (sm_msg_autoboot_result id matched reason elapsed_ms sent)
         (Protocol.sm_msg_autoboot_result id matched reason elapsed_ms sent).
Proof. destruct id; build. Qed.
Lemma build_boot_stage name index total timestamp :
  builds NoTree (sm_msg_boot_stage name index total timestamp)
         (Protocol.sm_msg_boot_stage name index total timestamp).
Proof. build. Qed.
Lemma build_boot_stall name index total stalled_ms :
  builds NoTree (sm_msg_boot_stall name index total stalled_ms)
         (Protocol.sm_msg_boot_stall name index total stalled_ms).
Proof. build. Qed.
Lemma build_autoresponders_request id :
  builds NoTree (sm_msg_autoresponders_request id)
         (Protocol.sm_msg_autoresponders_request id).
Proof. destruct id; build. Qed.
Lemma build_autoresponder_fired name matched_text sent :
  builds NoTree (sm_msg_autoresponder_fired name matched_text sent)
         (Protocol.sm_msg_autoresponder_fired name matched_text sent).
Proof. build. Qed.
Lemma build_link_down port reason :
  builds NoTree (sm_msg_link_down port reason)
         (Protocol.sm_msg_link_down port reason).
Proof. build. Qed.
Lemma build_link_up port : builds NoTree (sm_msg_link_up port) (Protocol.sm_msg_link_up port).
Proof. build. Qed.
Lemma build_ack type id : builds NoTree (sm_msg_ack type id) (Protocol.sm_msg_ack type id).
Proof. build. Qed.

Lemma build_expect_result id matched data pattern :
  builds NoTree (sm_msg_expect_result id matched data pattern)
         (Protocol.sm_msg_expect_result id matched data pattern).
Proof. apply build_expect_result_ex. Qed.
Lemma build_history_response id p v :
  builds (Tree p v) (sm_msg_history_response id p) (Protocol.sm_msg_history_response id v).
Proof. destruct id; build. Qed.
Lemma build_incidents_response id p v :
  builds (Tree p v) (sm_msg_incidents_response id p) (Protocol.sm_msg_incidents_response id v).
Proof. destruct id; build. Qed.
Lemma build_configure_anomaly id p v :
  builds (Tree p v) (sm_msg_configure_anomaly id p) (Protocol.sm_msg_configure_anomaly id v).
Proof. destruct id; build. Qed.
Lemma build_autoresponders_response id p v :
  builds (Tree p v) (sm_msg_autoresponders_response id p) (Protocol.sm_msg_autoresponders_response id v).
Proof. destruct id; build. Qed.

(** Every builder of [protocol.c], the items it is handed and the message it
    builds. *)
Inductive message : tree_arg -> C ccell loc -> json -> Prop :=
  | m_welcome version port baud role :
      message NoTree (sm_msg_welcome version port baud role)
              (Protocol.sm_msg_welcome version port baud role)
  | m_send id data : message NoTree (sm_msg_send id data) (Protocol.sm_msg_send id data)
  | m_hello token name role :
      message NoTree (sm_msg_hello token name role)
              (Protocol.sm_msg_hello token name role)
  | m_send_expect id data pattern t :
      message NoTree (sm_msg_send_expect id data pattern t)
              (Protocol.sm_msg_send_expect id data pattern t)
  | m_output data ts : message NoTree (sm_msg_output data ts) (Protocol.sm_msg_output data ts)
  | m_input_echo data sender ts :
      message NoTree (sm_msg_input_echo data sender ts)
              (Protocol.sm_msg_input_echo data sender ts)
  | m_status id : message NoTree (sm_msg_status id) (Protocol.sm_msg_status id)
  | m_status_response id port baud c s :
      message NoTree (sm_msg_status_response id port baud c s)
              (Protocol.sm_msg_status_response id port baud c s)
  | m_anomaly i p sev ts m c :
      message NoTree (sm_msg_anomaly i p sev ts m c)
              (Protocol.sm_msg_anomaly i p sev ts m c)
  | m_error id m : message NoTree (sm_msg_error id m) (Protocol.sm_msg_error id m)
  | m_configure_autoresponder id name pattern response once cooldown remove :
      message NoTree (sm_msg_configure_autoresponder id name pattern response once cooldown remove)
              (Protocol.sm_msg_configure_autoresponder id name pattern response once cooldown remove)
  | m_expect_result_ex id matched data pattern aborted reason pat :
      message NoTree (sm_msg_expect_result_ex id matched data pattern aborted reason pat)
              (Protocol.sm_msg_expect_result_ex id matched data pattern aborted reason pat)
  | m_listen_expect id pattern timeout_ms :
      message NoTree (sm_msg_listen_expect id pattern timeout_ms)
              (Protocol.sm_msg_listen_expect id pattern timeout_ms)
  | m_output_b64 b64 timestamp :
      message NoTree (sm_msg_output_b64 b64 timestamp)
              (Protocol.sm_msg_output_b64 b64 timestamp)
  | m_takeover id : message NoTree (sm_msg_takeover id) (Protocol.sm_msg_takeover id)
  | m_release id : message NoTree (sm_msg_release id) (Protocol.sm_msg_release id)
  | m_pin_control id pin action duration_ms :
      message NoTree (sm_msg_pin_control id pin action duration_ms)
              (Protocol.sm_msg_pin_control id pin action duration_ms)
  | m_set_baud id baud : message NoTree (sm_msg_set_baud id baud) (Protocol.sm_msg_set_baud id baud)
  | m_suspend id : message NoTree (sm_msg_suspend id) (Protocol.sm_msg_suspend id)
  | m_resume id : message NoTree (sm_msg_resume id) (Protocol.sm_msg_resume id)
  | m_suspended port by_client :
      message NoTree (sm_msg_suspended port by_client)
              (Protocol.sm_msg_suspended port by_client)
  | m_resumed port : message NoTree (sm_msg_resumed port) (Protocol.sm_msg_resumed port)
  | m_history_request id since_ts last_bytes :
      message NoTree (sm_msg_history_request id since_ts last_bytes)
              (Protocol.sm_msg_history_request id since_ts last_bytes)
  | m_history_request_seq id since_seq max_bytes :
      message NoTree (sm_msg_history_request_seq id since_seq max_bytes)
              (Protocol.sm_msg_history_request_seq id since_seq max_bytes)
  | m_incidents_request id since_ts :
      message NoTree (sm_msg_incidents_request id since_ts)
              (Protocol.sm_msg_incidents_request id since_ts)
  | m_interrupt_autoboot id key interval_ms duration_ms stop_pattern :
      message NoTree (sm_msg_interrupt_autoboot id key interval_ms duration_ms stop_pattern)
              (Protocol.sm_msg_interrupt_autoboot id key interval_ms duration_ms stop_pattern)
  | m_autoboot_result id matched reason elapsed_ms sent :
      message NoTree (sm_msg_autoboot_result id matched reason elapsed_ms sent)
              (Protocol.sm_msg_autoboot_result id matched reason elapsed_ms sent)
  | m_boot_stage name index total timestamp :
      message NoTree (sm_msg_boot_stage name index total timestamp)
              (Protocol.sm_msg_boot_stage name index total timestamp)
  | m_boot_stall name index total stalled_ms :
      message NoTree (sm_msg_boot_stall name index total stalled_ms)
              (Protocol.sm_msg_boot_stall name index total stalled_ms)
  | m_autoresponders_request id :
      message NoTree (sm_msg_autoresponders_request id)
              (Protocol.sm_msg_autoresponders_request id)
  | m_autoresponder_fired name matched_text sent :
      message NoTree (sm_msg_autoresponder_fired name matched_text sent)
              (Protocol.sm_msg_autoresponder_fired name matched_text sent)
  | m_link_down port reason :
      message NoTree (sm_msg_link_down port reason)
              (Protocol.sm_msg_link_down port reason)
  | m_link_up port : message NoTree (sm_msg_link_up port) (Protocol.sm_msg_link_up port)
  | m_ack type id : message NoTree (sm_msg_ack type id) (Protocol.sm_msg_ack type id)
  | m_expect_result id matched data pattern :
      message NoTree (sm_msg_expect_result id matched data pattern)
              (Protocol.sm_msg_expect_result id matched data pattern)
  | m_history_response id p v :
      message (Tree p v) (sm_msg_history_response id p) (Protocol.sm_msg_history_response id v)
  | m_incidents_response id p v :
      message (Tree p v) (sm_msg_incidents_response id p) (Protocol.sm_msg_incidents_response id v)
  | m_configure_anomaly id p v :
      message (Tree p v) (sm_msg_configure_anomaly id p) (Protocol.sm_msg_configure_anomaly id v)
  | m_autoresponders_response id p v :
      message (Tree p v) (sm_msg_autoresponders_response id p) (Protocol.sm_msg_autoresponders_response id v).

Create HintDb build.
#[local] Hint Resolve build_welcome build_send build_hello build_send_expect build_output build_input_echo
  build_status build_status_response build_anomaly build_error build_configure_autoresponder
  build_expect_result_ex build_listen_expect build_output_b64 build_takeover build_release
  build_pin_control build_set_baud build_suspend build_resume build_suspended build_resumed
  build_history_request build_history_request_seq build_incidents_request
  build_interrupt_autoboot build_autoboot_result build_boot_stage build_boot_stall
  build_autoresponders_request build_autoresponder_fired build_link_down build_link_up build_ack
  build_expect_result build_history_response build_incidents_response build_configure_anomaly
  build_autoresponders_response : build.

Lemma message_builds t m j : message t m j -> builds t m j.
Proof.
  destruct 1; auto with build.
Qed.
End refinement.
