(* ===== verification/HeapProps.v ===== *)
(** * Messages in memory: the theorems

    What [CJsonOps], [CJsonDup] and [MsgHeap] say of runs from a
    heap, and two allocators to run them with. *)
From stdpp Require Import gmap.
From iris.proofmode Require Import proofmode.
From S2P Require Import Prelude Cstr Codecs Json Protocol Effects HeapLogic CJsonTree CJsonOps CJsonDup.
From S2P Require Import MsgHeap.

(** The heap [h] is exactly the items and strings of the tree [j] at [l], which
    has no siblings; its name, if it has one, is [k]. *)
Definition represents (k : option string) (j : json) (l : loc) (h : gmap loc ccell) : Prop :=
  holds (item k j l NULL NULL) h.

(** [m] run with [h] and other memory [hf] ends with [h'] and the same [hf]. *)
Definition runs {A} (m : C ccell A) (h hf : gmap loc ccell) (n : nat) (x : A) (h' : gmap loc ccell) (n' : nat) : Prop :=
  m (mk_cs (h ∪ hf) n) = Some (x, mk_cs (h' ∪ hf) n') /\ h' ##ₘ hf.

Section props.
Context `{M : !Malloc ccell}.

Lemma wp_runs {A} (m : C ccell A) P (Phi : A -> heapI ccell) h hf n : (P ⊢ wp m Phi) -> holds P h -> h ##ₘ hf ->
  exists x h' n', runs m h hf n x h' n' /\ holds (Phi x) h'.
Proof.
  intros [HP] Hh Hd. destruct (HP h Hh hf n Hd) as (x & h' & n' & H1 & H2 & H3). by exists x, h', n'.
Qed.

(** What ends with nothing restores the heap. *)
Lemma runs_emp {A} (m : C ccell A) P h hf n : (P ⊢ wp m (fun _ => emp)%I) -> holds P h -> h ##ₘ hf ->
  exists x n', m (mk_cs (h ∪ hf) n) = Some (x, mk_cs hf n').
Proof.
  intros HP Hh Hd. destruct (wp_runs m P (fun _ => emp)%I h hf n HP Hh Hd) as (x & h' & n' & [H1 H2] & H3).
  exists x, n'. rewrite H1. cbn in H3. by rewrite H3 left_id_L.
Qed.

Lemma represents_delete k j l h hf n : represents k j l h -> h ##ₘ hf ->
  exists n', cJSON_Delete l (mk_cs (h ∪ hf) n) = Some (tt, mk_cs hf n').
Proof.
  intros Hr Hd. destruct (runs_emp (cJSON_Delete l) (item k j l NULL NULL) h hf n) as ([] & n' & H);
    [|done..|by exists n'].
  iIntros "H". by iApply (wp_delete with "H").
Qed.

Lemma holds_affine phi h : holds (<affine> ⌜phi⌝ : heapI ccell)%I h -> phi /\ h = ∅.
Proof. by intros [H1 H2]. Qed.
Lemma holds_affine_sep phi (P : heapI ccell) h : holds (<affine> ⌜phi⌝ ∗ P)%I h -> phi /\ holds P h.
Proof.
  intros (h1 & h2 & -> & _ & [H ->]%holds_affine & HP). by rewrite left_id_L.
Qed.

Lemma built_holds ms obj h : holds (built ms obj) h ->
  (obj = NULL /\ h = ∅ /\ may_fail) \/
  (exists ms', represents None (JObj ms') obj h /\ lost ms' ms /\ (may_fail \/ ms' = ms)).
Proof.
  intros [[[H1 H2] ->]%holds_affine|(ms' & [[H1 H2] H3]%holds_affine_sep)]; [by left|right].
  by exists ms'.
Qed.

Lemma built_left_over t ms obj h : holds (built ms obj ∗ left_over t)%I h ->
  exists hm hl, h = hm ∪ hl /\ hm ##ₘ hl /\ holds (built ms obj) hm /\
    (hl = ∅ \/ may_fail /\ holds (unlinked t) hl).
Proof.
  intros (hm & hl & -> & Hd & H1 & H2). exists hm, hl. split_and!; [done..|].
  destruct H2 as [H2|[H2 H3]%holds_affine_sep]; [by left|by right].
Qed.

(** C3: every builder of [protocol.c], run with any allocator on any items it is
    handed (none, NULL or a tree) and any other memory, ends without undefined
    behaviour and leaves the other memory as it was.  If no allocation can fail
    it gives exactly the message of its model; otherwise NULL or an object
    whose members are those of the model, some missing or empty.  Freeing the
    result restores the other memory, and nothing is left but, of the four
    builders that link items in and only where an allocation may fail, the
    items that were not linked in: those handed over, or the empty array made
    in their place ([history_response_leaks]). *)
Theorem messages_built t m j ht h n : message t m j -> holds (handed t) ht -> ht ##ₘ h ->
  exists obj hm hl n', runs m ht h n obj (hm ∪ hl) n' /\ hm ##ₘ hl /\
    ((obj = NULL /\ hm = ∅ /\ may_fail) \/
     (exists ms, represents None (JObj ms) obj hm /\ lost ms (members j) /\ (may_fail \/ ms = members j))) /\
    (hl = ∅ \/ may_fail /\ holds (unlinked t) hl) /\
    exists n'', cJSON_Delete obj (mk_cs (hm ∪ hl ∪ h) n') = Some (tt, mk_cs (hl ∪ h) n'').
Proof.
  intros Hm Ht Hd.
  destruct (wp_runs m (handed t) (fun obj => built (members j) obj ∗ left_over t)%I ht h n)
    as (obj & h' & n' & Hr & (hm & hl & -> & Hml & Hb & Hl)%built_left_over); [|done..|].
  - iIntros "Ht". iApply (message_builds _ _ _ Hm). iFrame. by iIntros (obj) "H".
  - exists obj, hm, hl, n'. split_and!; [done..|by apply built_holds|done|].
    destruct Hr as [_ [Hmh Hlh]%map_disjoint_union_l].
    destruct (runs_emp (cJSON_Delete obj) (built (members j) obj) hm (hl ∪ h) n') as ([] & n'' & H);
      [|done|by apply map_disjoint_union_r|].
    + iIntros "H". by iApply (built_delete with "H").
    + exists n''. by rewrite -(assoc_L (∪)).
Qed.

(** C11: [cJSON_Duplicate] of a tree that lives anywhere in the heap, with or
    without a name and siblings, ends without undefined behaviour, leaves all
    other memory as it was and the tree as it stands, and gives a copy that
    shares nothing with it; or NULL, and then nothing is left behind, which
    happens only if an allocation fails or the tree is nested deeper than the
    limit. *)
Theorem duplicate_exact k j l prev next h hf n :
  holds (item k j l prev next) h -> h ##ₘ hf ->
  exists l' h1 h2 n', runs (cJSON_Duplicate l true) h hf n l' (h1 ∪ h2) n' /\ h1 ##ₘ h2 /\
    holds (item k j l prev next) h1 /\
    ((l' = NULL /\ h2 = ∅ /\ (may_fail \/ CJSON_CIRCULAR_LIMIT < Z.of_nat (height j))) \/
     represents k j l' h2).
Proof.
  intros Hh Hd.
  destruct (wp_runs (cJSON_Duplicate l true) (item k j l prev next)
    (fun l' => item k j l prev next ∗
       (<affine> ⌜l' = NULL /\ (may_fail \/ CJSON_CIRCULAR_LIMIT < Z.of_nat (height j))⌝ ∨ item k j l' NULL NULL))%I
    h hf n) as (l' & h' & n' & Hr & h1 & h2 & -> & Hd' & H1 & H2); [|done..|].
  - iIntros "H". iApply (wp_duplicate with "H"). iIntros "$". iSplit.
    + iIntros "%Hf". iLeft. by iPureIntro.
    + iIntros (l') "H". by iRight.
  - exists l', h1, h2, n'. split; [done|]. split; [done|]. split; [done|].
    destruct H2 as [[[H2 H3] ->]%holds_affine|H2]; [by left|by right].
Qed.

(** The accessors of messages, run on the items of a message anywhere in the
    heap, give what their models give on its tree, end without undefined
    behaviour, and leave the message as it is and all other memory alone. *)
Theorem accessors_agree k ms l prev next key h hf n :
  holds (item k (JObj ms) l prev next) h -> h ##ₘ hf ->
  (forall def, exists h' n', runs (sm_json_get_int l key def) h hf n (Json.sm_json_get_int (JObj ms) key def) h' n' /\
     holds (item k (JObj ms) l prev next) h') /\
  (forall def, exists h' n', runs (sm_json_get_bool l key def) h hf n (Json.sm_json_get_bool (JObj ms) key def) h' n' /\
     holds (item k (JObj ms) l prev next) h') /\
  (forall def, exists h' n', runs (sm_json_get_double l key def) h hf n (Json.sm_json_get_double (JObj ms) key def) h' n' /\
     holds (item k (JObj ms) l prev next) h') /\
  (exists p h' n', runs (sm_json_get_string l key) h hf n p h' n' /\
     holds (item k (JObj ms) l prev next) h' /\
     match Json.sm_json_get_string (JObj ms) key with
     | Some s => h' !! p = Some (CText s)
     | None => p = NULL
     end).
Proof.
  intros Hh Hd.
  assert (H : forall A (m : C ccell A) x,
    (forall Phi : A -> heapI ccell, item k (JObj ms) l prev next ⊢ (item k (JObj ms) l prev next -∗ Phi x) -∗ wp m Phi) ->
    exists h' n', runs m h hf n x h' n' /\ holds (item k (JObj ms) l prev next) h').
  { intros A m x Hm.
    destruct (wp_runs m (item k (JObj ms) l prev next) (fun y => <affine> ⌜y = x⌝ ∗ item k (JObj ms) l prev next)%I h hf n)
      as (y & h' & n' & Hr & [-> H]%holds_affine_sep); [|done..|by exists h', n'].
    iIntros "H". iApply (Hm with "H"). iIntros "$". by iPureIntro. }
  split; [intros def; apply H; intros Phi; apply wp_get_int|].
  split; [intros def; apply H; intros Phi; apply wp_get_bool|].
  split; [intros def; apply H; intros Phi; apply wp_get_double|].
  destruct (wp_runs (sm_json_get_string l key) (item k (JObj ms) l prev next) (fun p =>
    match Json.sm_json_get_string (JObj ms) key with
    | Some s => p ↦ CText s ∗ (p ↦ CText s -∗ item k (JObj ms) l prev next)
    | None => <affine> ⌜p = NULL⌝ ∗ item k (JObj ms) l prev next
    end)%I h hf n) as (p & h' & n' & Hr & Hp); [|done..|].
  - iIntros "H". iApply (wp_get_string with "H"). by iIntros (p) "H".
  - exists p, h', n'. split; [done|]. destruct (Json.sm_json_get_string (JObj ms) key) as [s|].
    + destruct Hp as (h1 & h2 & -> & Hd' & [-> Hp] & H2).
      split; [|by rewrite lookup_pointsto]. rewrite map_union_comm; [|done]. by apply H2.
    + apply holds_affine_sep in Hp as [-> Hp]. done.
Qed.
End props.

(** ** Runs *)

(** An allocator that hands out the addresses 1, 2, 3, ... and refuses the calls
    [refuses] says. *)
Definition bump_at (refuses : nat -> bool) (h : gmap loc ccell) (n : nat) : loc :=
  let l := Z.of_nat (S n) in
  match h !! l with Some _ => NULL | None => if refuses n then NULL else l end.
Program Definition bump (refuses : nat -> bool) : Malloc ccell := {| malloc_at := bump_at refuses |}.
Next Obligation.
  unfold bump_at. intros refuses h n. destruct (h !! Z.of_nat (S n)) eqn:E; [done|].
  by destruct (refuses n).
Qed.

(** The tree at an address, as deep as [fuel] allows. *)
Fixpoint read_tree (fuel : nat) (h : gmap loc ccell) (l : loc) : option json :=
  match fuel with
  | O => None
  | S f =>
      let fix chain (fuel : nat) (l : loc) : option (list (string * json)) :=
        match fuel with
        | O => None
        | S g =>
            if l =? NULL then Some [] else
            match h !! l with
            | Some (CItem i) =>
                match read_tree f h l, chain g (it_next i) with
                | Some v, Some l => Some ((match h !! it_string i with Some (CText s) => s | _ => ""%string end, v) :: l)
                | _, _ => None
                end
            | _ => None
            end
        end in
      match h !! l with
      | Some (CItem i) =>
          if it_type i =? cJSON_Object then option_map JObj (chain f (it_child i))
          else if it_type i =? cJSON_Array then option_map (fun l => JArr (map snd l)) (chain f (it_child i))
          else if it_type i =? cJSON_String then match h !! it_valuestring i with Some (CText s) => Some (JStr s) | _ => None end
          else if it_type i =? cJSON_Number then Some (JNum (it_valuedouble i))
          else if it_type i =? cJSON_NULL then Some JNull
          else Some (JBool (it_type i =? cJSON_True))
      | _ => None
      end
  end.

(** What a builder leaves in an empty heap, and the heap after freeing it. *)
Definition demo (refuses : nat -> bool) (m : Malloc ccell -> C ccell loc) : option (option json * nat) :=
  let M := bump refuses in
  match m M (mk_cs ∅ 0) with
  | Some (l, s) =>
      match cJSON_Delete l s with
      | Some (_, s') => Some (read_tree 10 (cs_heap s) l, size (cs_heap s'))
      | None => None
      end
  | None => None
  end.

(** An error message, then the same with the sixth allocation refused (the
    identifier is lost), and with the first one (there is no message). *)
Example demo_error :
  demo (fun _ => false) (fun M => sm_msg_error (Some "7"%string) "busy") =
    Some (Some (Protocol.sm_msg_error (Some "7"%string) "busy"), 0%nat) /\
  demo (fun n => (n =? 5)%nat) (fun M => sm_msg_error (Some "7"%string) "busy") =
    Some (Some (JObj [("type", JStr "error"); ("message", JStr "busy")]%string), 0%nat) /\
  demo (fun n => (n =? 0)%nat) (fun M => sm_msg_error (Some "7"%string) "busy") = Some (None, 0%nat).
Proof. vm_compute. done. Qed.

(** The copy of a message outlives the original. *)
Example demo_duplicate :
  demo (fun _ => false) (fun M =>
    x ← sm_msg_output [104; 105] 5; y ← cJSON_Duplicate x true; cJSON_Delete x;; mret y) =
  Some (Some (Protocol.sm_msg_output [104; 105] 5), 0%nat).
Proof. vm_compute. done. Qed.

(** The chunks of a history response belong to the message once it is built,
    but when there is no memory for the name of the member, they are neither
    linked in nor freed. *)
Definition demo_history (M : Malloc ccell) : C ccell loc :=
  chunks ← cJSON_CreateArray; sm_msg_history_response (Some "1"%string) chunks.
Theorem history_response_leaks :
  demo (fun _ => false) demo_history = Some (Some (Protocol.sm_msg_history_response (Some "1"%string) None), 0%nat) /\
  demo (fun n => (n =? 8)%nat) demo_history =
    Some (Some (JObj [("type", JStr "history_response"); ("id", JStr "1")]%string), 1%nat).
Proof. vm_compute. done. Qed.

(** ** Concrete heaps *)

(** [{"a": true}] at address 1, named "n", as the next sibling of an item at 9. *)
Definition small_heap : gmap loc ccell :=
  {[1 := CItem (mk_item NULL 9 2 cJSON_Object NULL 0 0 4)]} ∪
  ({[2 := CItem (mk_item NULL 2 NULL cJSON_True NULL 0 0 3)]} ∪
   ({[3 := CText "a"]} ∪ {[4 := CText "n"]})).

Lemma small_heap_holds : holds (item (Some "n"%string) (JObj [("a"%string, JBool true)]) 1 9 NULL) small_heap.
Proof.
  assert (H : (1 ↦ CItem (mk_item NULL 9 2 cJSON_Object NULL 0 0 4) ∗
    2 ↦ CItem (mk_item NULL 2 NULL cJSON_True NULL 0 0 3) ∗ 3 ↦ CText "a"%string ∗ 4 ↦ CText "n"%string : heapI ccell)
    ⊢ item (Some "n"%string) (JObj [("a"%string, JBool true)]) 1 9 NULL).
  { iIntros "(H1 & H2 & H3 & H4)". rewrite item_open. iExists _. iSplit; [|iExists 2; iFrame "H1"]; [done|].
    iSplit; [done|]. iFrame "H4". iSplit; [done|]. iExists NULL. iSplit; [|by iPureIntro].
    rewrite /member item_open. iExists _. iSplit; [|iExists NULL; iFrame "H2 H3"]; [done|].
    by iPureIntro. }
  apply H. unfold small_heap.
  repeat (eexists _, _; split; [reflexivity|]; split; [by apply (bool_decide_unpack _); vm_compute|]; split; [by split|]).
  by split.
Qed.

(** A response handed no chunks, beside other memory. *)
Lemma messages_built_witness :
  let M := bump (fun n => (n =? 5)%nat) in
  let h := {[40 := CText "other"%string]} in
  exists obj hm hl n', runs (sm_msg_history_response (Some "7"%string) NULL) ∅ h 0 obj (hm ∪ hl) n' /\ hm ##ₘ hl /\
    ((obj = NULL /\ hm = ∅ /\ may_fail) \/
     (exists ms, represents None (JObj ms) obj hm /\
        lost ms (members (Protocol.sm_msg_history_response (Some "7"%string) None)) /\
        (may_fail \/ ms = members (Protocol.sm_msg_history_response (Some "7"%string) None)))) /\
    (hl = ∅ \/ may_fail /\ holds (unlinked (Tree NULL None)) hl) /\
    exists n'', cJSON_Delete obj (mk_cs (hm ∪ hl ∪ h) n') = Some (tt, mk_cs (hl ∪ h) n'').
Proof.
  intros M h. apply messages_built; [constructor|by split|apply map_disjoint_empty_l].
Defined.

Lemma duplicate_exact_witness :
  let M := bump (fun _ => false) in
  let h := {[40 := CText "other"%string]} in
  exists l' h1 h2 n', runs (cJSON_Duplicate 1 true) small_heap h 50 l' (h1 ∪ h2) n' /\ h1 ##ₘ h2 /\
    holds (item (Some "n"%string) (JObj [("a"%string, JBool true)]) 1 9 NULL) h1 /\
    ((l' = NULL /\ h2 = ∅ /\ (may_fail \/ CJSON_CIRCULAR_LIMIT < Z.of_nat (height (JObj [("a"%string, JBool true)])))) \/
     represents (Some "n"%string) (JObj [("a"%string, JBool true)]) l' h2).
Proof.
  intros M h. apply duplicate_exact; [apply small_heap_holds|].
  by apply (bool_decide_unpack _); vm_compute.
Defined.

Lemma accessors_agree_witness :
  let M := bump (fun _ => false) in
  exists h' n', runs (sm_json_get_bool 1 "a" false) small_heap ∅ 0 true h' n' /\
    holds (item (Some "n"%string) (JObj [("a"%string, JBool true)]) 1 9 NULL) h'.
Proof.
  intros M. destruct (accessors_agree (Some "n"%string) [("a"%string, JBool true)] 1 9 NULL "a" small_heap ∅ 0)
    as (_ & H & _); [apply small_heap_holds|apply map_disjoint_empty_r|]. exact (H false).
Defined.
