(* ===== verification/Client.v ===== *)
(** * Broker clients ([src/client.c], [src/util/shared_line.c])

    The transport half of a client connection: a line-oriented read buffer, a
    bounded write queue of whole lines, and the reference-counted lines a
    broadcast shares between the queues of many clients. *)
From stdpp Require Import gmap.
From S2P Require Import Prelude Arrays Codecs Json CJson Protocol Effects.

#[local] Open Scope Z_scope.

Definition SM_CLIENT_READ_BUF_SIZE : Z := 65536.
Definition SM_CLIENT_WRITE_QUEUE_SIZE : nat := 256.
Definition SM_CLIENT_COALESCE_MAX_BYTES : Z := 16384.

(** ** Shared lines

    The heap of live lines: a reference count per line.  A line is freed when
    its count reaches zero. *)

Abbreviation heap := (gmap nat Z) (only parsing).
Definition refs (h : heap) (id : nat) : Z := default 0 (h !! id).
(** [sm_shared_line_new]: a line with one reference. *)
Definition sm_shared_line_new (h : heap) : nat * heap :=
  let id := fresh (dom h) in (id, <[id := 1]> h).
Definition sm_shared_line_acquire (id : nat) (h : heap) : heap := <[id := refs h id + 1]> h.
Definition sm_shared_line_release (id : nat) (h : heap) : heap :=
  if refs h id - 1 <=? 0 then delete id h else <[id := refs h id - 1]> h.

(** ** State *)

(** A queue entry: the line's bytes, how many were written, and the shared
    line they belong to, if any. *)
Record sm_write_entry := mk_we { e_data : bytes; e_offset : Z; e_shared : option nat }.
#[export] Instance we_inhabited : Inhabited sm_write_entry := populate (mk_we [] 0 None).

(** The transport state.  [read_len] is the length of [c_read_buf]; the array
    [c_queue] has [wq_cap] slots. *)
Record sm_client_io := mk_cio {
  c_read_buf : bytes; c_disconnected : bool;
  c_queue : list sm_write_entry; c_head : nat; c_count : nat; c_drops : Z }.

Definition sm_client_new : sm_client_io :=
  mk_cio [] false (replicate SM_CLIENT_WRITE_QUEUE_SIZE (mk_we [] 0 None)) 0 0 0.

Definition c_cap (c : sm_client_io) : nat := length (c_queue c).
Definition c_view (c : sm_client_io) : list sm_write_entry :=
  circ_view (c_queue c) (c_head c) (c_count c).

(** ** Reading *)

(** The first complete line and what follows it. *)
Fixpoint split_line (buf : bytes) : option (bytes * bytes) :=
  match buf with
  | [] => None
  | c :: rest =>
      if c =? 10 then Some ([], rest)
      else match split_line rest with
           | Some (line, rest') => Some (c :: line, rest')
           | None => None
           end
  end.

Section client.
Context `{JsonText}.

(** The extraction loop: messages (at most [room]) and the compacted buffer.
    Fuel: every iteration consumes a newline. *)
Fixpoint extract_lines (fuel room : nat) (buf : bytes) : list sm_msg * bytes :=
  match fuel, room with
  | O, _ | _, O => ([], buf)
  | S f, S room' =>
      match split_line buf with
      | None => ([], buf)
      | Some (line, rest) =>
          if zlen line =? 0 then extract_lines f room rest
          else
            let m := sm_msg_decode line in
            match m_root m with
            | None => extract_lines f room rest
            | Some _ => let '(ms, rest') := extract_lines f room' rest in (m :: ms, rest')
            end
      end
  end.

Definition sm_client_feed (r : rres) (max_out : nat) (c : sm_client_io) :
    list sm_msg * sm_client_io :=
  let avail := SM_CLIENT_READ_BUF_SIZE - zlen (c_read_buf c) - 1 in
  if avail =? 0 then ([], {| c with c_disconnected := true |}) else
  match sys_read avail r with
  | REof | RErr => ([], {| c with c_disconnected := true |})
  | RAgain =>
      let '(ms, rest) := extract_lines (S (length (c_read_buf c))) max_out (c_read_buf c) in
      (ms, {| c with c_read_buf := rest |})
  | RBytes b =>
      let buf := c_read_buf c ++ b in
      let '(ms, rest) := extract_lines (S (length buf)) max_out buf in
      (ms, {| c with c_read_buf := rest |})
  end.

(** ** Writing *)

Definition push_entry (e : sm_write_entry) (c : sm_client_io) : sm_client_io :=
  {| c with c_queue := <[circ_idx (c_cap c) (c_head c) (c_count c) := e]> (c_queue c);
            c_count := S (c_count c) |}.
Definition drop_message (c : sm_client_io) : sm_client_io := {| c with c_drops := c_drops c + 1 |}.

(** The slot's [shared] field is NULL: it was cleared when the slot was last
    dequeued. *)
Definition sm_client_send (msg : json) (c : sm_client_io) : Z * sm_client_io :=
  if (c_cap c <=? c_count c)%nat then (-1, drop_message c)
  else (0, push_entry (mk_we (sm_msg_encode msg) 0 None) c).

Definition sm_client_send_raw (data : bytes) (c : sm_client_io) : Z * sm_client_io :=
  if (c_cap c <=? c_count c)%nat then (-1, drop_message c)
  else (0, push_entry (mk_we data 0 None) c).

(** The 15 bytes [line_is_output] compares: an object whose first member is a
    type starting with "output". *)
Definition output_prefix : bytes :=
  [123; 34] ++ bytes_of_string "type" ++ [34; 58; 34] ++ bytes_of_string "output".
Definition line_is_output (line : bytes) : bool := bool_decide (ztake 15 line = output_prefix).

(** The merged line of two output lines, when both decode. *)
Definition merge_output (old new : bytes) : option bytes :=
  let m1 := sm_msg_decode old in
  let m2 := sm_msg_decode new in
  match m_root m1, m_root m2 with
  | Some r1, Some r2 =>
      if bool_decide (m_type m1 = SM_MSG_OUTPUT) && bool_decide (m_type m2 = SM_MSG_OUTPUT) then
        match sm_json_get_string r1 "data", sm_json_get_string r2 "data" with
        | Some b1, Some b2 =>
            match sm_base64_decode (bytes_of_string b1), sm_base64_decode (bytes_of_string b2) with
            | Some d1, Some d2 =>
                (* realloc to size 0 gives NULL *)
                if zlen d1 + zlen d2 =? 0 then None
                else Some (sm_msg_encode (sm_msg_output (d1 ++ d2)
                             (sm_json_get_double r2 "timestamp" 0)))
            | _, _ => None
            end
        | _, _ => None
        end
      else None
  | _, _ => None
  end.

Definition try_coalesce_output (line : bytes) (c : sm_client_io) (h : heap) :
    option (sm_client_io * heap) :=
  if (c_count c =? 0)%nat || negb (line_is_output line) then None else
  let slot := circ_idx (c_cap c) (c_head c) (c_count c - 1) in
  let prev := c_queue c !!! slot in
  if negb (e_offset prev =? 0) then None
  else if SM_CLIENT_COALESCE_MAX_BYTES <=? zlen (e_data prev) then None
  else match e_shared prev with
  | None => None
  | Some id =>
      if negb (line_is_output (e_data prev)) then None
      else match merge_output (e_data prev) line with
      | None => None
      | Some merged =>
          let '(id', h) := sm_shared_line_new h in
          Some ({| c with c_queue := <[slot := mk_we merged 0 (Some id')]> (c_queue c) |},
                sm_shared_line_release id h)
      end
  end.

(** [line] is the data of the live shared line [id]. *)
Definition sm_client_send_shared (id : nat) (line : bytes) (c : sm_client_io) (h : heap) :
    Z * sm_client_io * heap :=
  match try_coalesce_output line c h with
  | Some (c', h') => (0, c', h')
  | None =>
      if (c_cap c <=? c_count c)%nat then (-1, drop_message c, h)
      else (0, push_entry (mk_we line 0 (Some id)) c, sm_shared_line_acquire id h)
  end.

(** [n] bytes of the head entry were written; a finished entry is dequeued and
    its line released. *)
Definition client_advance (n : Z) (c : sm_client_io) (h : heap) : sm_client_io * heap :=
  let e := c_queue c !!! c_head c in
  let off := e_offset e + n in
  if zlen (e_data e) <=? off then
    ({| c with c_queue := <[c_head c := mk_we [] off None]> (c_queue c);
               c_head := ((c_head c + 1) mod c_cap c)%nat;
               c_count := (c_count c - 1)%nat |},
     match e_shared e with Some id => sm_shared_line_release id h | None => h end)
  else ({| c with c_queue := <[c_head c := mk_we (e_data e) off (e_shared e)]> (c_queue c) |}, h).

(** One [write] per iteration. *)
Fixpoint sm_client_flush (c : sm_client_io) (h : heap) (env : list wres) :
    Z * sm_client_io * heap * bytes :=
  if (c_count c =? 0)%nat then (0, c, h, []) else
  let e := c_queue c !!! c_head c in
  let rest := zdrop (e_offset e) (e_data e) in
  match env with
  | [] => (1, c, h, [])
  | r :: env' =>
      match fst (sys_write rest [r]) with
      | WAgain => (1, c, h, [])
      | WErr => (-1, c, h, [])
      | WBytes n =>
          let '(c', h') := client_advance n c h in
          let '(rc, c'', h'', out) := sm_client_flush c' h' env' in
          (rc, c'', h'', ztake n rest ++ out)
      end
  end.

Definition release_entry (h : heap) (e : sm_write_entry) : heap :=
  match e_shared e with Some id => sm_shared_line_release id h | None => h end.
Definition sm_client_destroy (c : sm_client_io) (h : heap) : heap :=
  fold_left release_entry (c_view c) h.
End client.

(** ** Line extraction *)

(** The complete lines of a buffer, and what the messages in it are. *)
Fixpoint lines_of (fuel : nat) (buf : bytes) : list bytes :=
  match fuel with
  | O => []
  | S f => match split_line buf with
           | None => []
           | Some (line, rest) => line :: lines_of f rest
           end
  end.

Lemma split_line_spec buf line rest :
  split_line buf = Some (line, rest) ->
  buf = line ++ 10 :: rest /\ (forall d, split_line (buf ++ d) = Some (line, rest ++ d)).
Proof.
  revert line rest. induction buf as [|c buf IH]; intros line rest; simpl; [done|].
  destruct (Z.eqb_spec c 10) as [->|].
  - intros [= <- <-]. done.
  - destruct (split_line buf) as [[l r]|]; [|done]. intros [= <- <-].
    destruct (IH l r eq_refl) as [-> Hd]. split; [done|]. intros d. by rewrite Hd.
Qed.

Lemma split_line_none buf : split_line buf = None <-> ~ In 10 buf.
Proof.
  induction buf as [|c buf IH]; simpl; [naive_solver|].
  destruct (Z.eqb_spec c 10) as [->|]; [naive_solver|].
  destruct (split_line buf) as [[l r]|]; naive_solver.
Qed.

Lemma lines_of_fuel f g buf :
  (length buf <= f)%nat -> (length buf <= g)%nat -> lines_of f buf = lines_of g buf.
Proof.
  revert g buf. induction f as [|f IH]; intros g buf Hf Hg.
  { destruct buf; [|simpl in Hf; lia]. by destruct g. }
  destruct g as [|g]; [destruct buf; [done|simpl in Hg; lia]|].
  simpl. destruct (split_line buf) as [[line rest]|] eqn:E; [|done]. f_equal.
  apply split_line_spec in E as [-> _]. rewrite length_app in Hf, Hg. simpl in Hf, Hg.
  apply IH; lia.
Qed.

Section client_proofs.
Context `{JsonText}.

Definition line_msgs (line : bytes) : list sm_msg :=
  if zlen line =? 0 then []
  else match m_root (sm_msg_decode line) with Some _ => [sm_msg_decode line] | None => [] end.
(** All the messages in the complete lines of [buf]. *)
Definition msgs_of (buf : bytes) : list sm_msg := mjoin (map line_msgs (lines_of (length buf) buf)).

Lemma msgs_of_split buf line rest d :
  split_line buf = Some (line, rest) -> msgs_of (buf ++ d) = line_msgs line ++ msgs_of (rest ++ d).
Proof.
  intros Hs. destruct (split_line_spec _ _ _ Hs) as [Hb Hd]. unfold msgs_of.
  rewrite (lines_of_fuel _ (S (length (buf ++ d))) (buf ++ d)) by lia. simpl. rewrite Hd.
  simpl. do 3 f_equal. apply lines_of_fuel; [|lia]. rewrite Hb, !length_app. simpl. lia.
Qed.

(** Extraction takes messages off the front of the stream, whatever arrives
    behind it later. *)
Lemma extract_lines_spec fuel room buf d :
  let '(ms, rest) := extract_lines fuel room buf in
  msgs_of (buf ++ d) = ms ++ msgs_of (rest ++ d) /\ (length ms <= room)%nat /\
  (length rest <= length buf)%nat /\
  ((length buf < fuel)%nat -> (0 < room)%nat -> In 10 rest -> (length rest < length buf)%nat).
Proof.
  revert room buf. induction fuel as [|fuel IH]; intros room buf.
  { simpl. split_and!; try done; simpl; lia. }
  destruct room as [|room]; [simpl; split_and!; try done; simpl; lia|].
  cbn [extract_lines]. destruct (split_line buf) as [[line rest]|] eqn:Es.
  2:{ split_and!; try done; [simpl; lia|]. intros _ _ Hin. by apply split_line_none in Es. }
  rewrite (msgs_of_split _ _ _ d Es). unfold line_msgs.
  destruct (split_line_spec _ _ _ Es) as [Hb _].
  assert (length buf = length line + S (length rest))%nat as Hlen
    by (rewrite Hb, length_app; done).
  destruct (zlen line =? 0).
  { specialize (IH (S room) rest). destruct (extract_lines fuel (S room) rest) as [ms r].
    destruct IH as (IH1 & IH2 & IH3 & _). split_and!; try done; intros; lia. }
  destruct (m_root (sm_msg_decode line)).
  - specialize (IH room rest). destruct (extract_lines fuel room rest) as [ms r].
    destruct IH as (IH1 & IH2 & IH3 & _). split_and!; [|simpl; lia|lia|intros; lia].
    simpl. by rewrite IH1.
  - specialize (IH (S room) rest). destruct (extract_lines fuel (S room) rest) as [ms r].
    destruct IH as (IH1 & IH2 & IH3 & _). split_and!; try done; intros; lia.
Qed.

(** The read buffer is never full while it still holds a complete line. *)
Definition read_ok (c : sm_client_io) : Prop :=
  zlen (c_read_buf c) <= SM_CLIENT_READ_BUF_SIZE - 1 /\
  (In 10 (c_read_buf c) -> zlen (c_read_buf c) < SM_CLIENT_READ_BUF_SIZE - 1).

Definition bytes_read (c : sm_client_io) (r : rres) : bytes :=
  let avail := SM_CLIENT_READ_BUF_SIZE - zlen (c_read_buf c) - 1 in
  if avail =? 0 then [] else match sys_read avail r with RBytes b => b | _ => [] end.

Lemma sm_client_feed_spec r max c d :
  read_ok c -> (0 < max)%nat ->
  let '(ms, c') := sm_client_feed r max c in
  read_ok c' /\ (length ms <= max)%nat /\
  msgs_of (c_read_buf c ++ bytes_read c r ++ d) = ms ++ msgs_of (c_read_buf c' ++ d).
Proof.
  intros [Hl Hn] Hm. unfold sm_client_feed, bytes_read.
  set (avail := SM_CLIENT_READ_BUF_SIZE - zlen (c_read_buf c) - 1).
  destruct (Z.eqb_spec avail 0) as [|Ha]; [split_and!; [done|simpl; lia|done]|].
  assert (forall b, b = [] \/ (exists x, r = RBytes x /\ sys_read avail r = RBytes b) ->
            zlen (c_read_buf c ++ b) <= SM_CLIENT_READ_BUF_SIZE - 1) as Hb.
  { intros b [->|(x & -> & Hx)]; [zlia|]. simpl in Hx.
    destruct (ztake avail x) eqn:E; [done|]. injection Hx as <-. rewrite <- E. zlia. }
  assert (forall b, zlen (c_read_buf c ++ b) <= SM_CLIENT_READ_BUF_SIZE - 1 ->
    let '(ms, rest) := extract_lines (S (length (c_read_buf c ++ b))) max (c_read_buf c ++ b) in
    read_ok {| c with c_read_buf := rest |} /\ (length ms <= max)%nat /\
    msgs_of (c_read_buf c ++ b ++ d) = ms ++ msgs_of (rest ++ d)) as Hext.
  { intros b Hlen. pose proof (extract_lines_spec (S (length (c_read_buf c ++ b))) max
                                 (c_read_buf c ++ b) d) as He.
    destruct (extract_lines _ max (c_read_buf c ++ b)) as [ms rest].
    destruct He as (He1 & He2 & He3 & He4). rewrite app_assoc. split_and!; [|done|done].
    unfold read_ok. simpl. unfold zlen in *. split; [lia|]. intros Hin.
    specialize (He4 ltac:(lia) Hm Hin). lia. }
  destruct (sys_read avail r) as [b| | |] eqn:Er.
  - assert (exists x, r = RBytes x) as [x ->].
    { destruct r; simpl in Er; eauto; congruence. }
    specialize (Hext b). destruct (extract_lines _ max (c_read_buf c ++ b)) as [ms rest].
    apply Hext, Hb. right. eauto.
  - specialize (Hext []). rewrite app_nil_r in Hext.
    destruct (extract_lines _ max (c_read_buf c)) as [ms rest]. apply Hext. exact Hl.
  - split_and!; [done|simpl; lia|done].
  - split_and!; [done|simpl; lia|done].
Qed.

(** A run of reads: the messages delivered, the bytes read, the final state. *)
Fixpoint feed_run (max : nat) (c : sm_client_io) (rs : list rres) :
    list sm_msg * bytes * sm_client_io :=
  match rs with
  | [] => ([], [], c)
  | r :: rs' =>
      let '(ms, c') := sm_client_feed r max c in
      let '(ms', b, c'') := feed_run max c' rs' in
      (ms ++ ms', bytes_read c r ++ b, c'')
  end.

(** The way the byte stream is cut into reads does not matter.  Whatever
    the sizes of the reads and however many messages are taken per call, the
    messages delivered followed by those still complete in the buffer are the
    messages of the whole stream, in order; and the connection is only dropped
    for an overlong line when the buffer really holds no newline. *)
Theorem client_feed_stream max c rs :
  read_ok c -> (0 < max)%nat ->
  let '(ms, b, c') := feed_run max c rs in
  read_ok c' /\ msgs_of (c_read_buf c ++ b) = ms ++ msgs_of (c_read_buf c') /\
  (SM_CLIENT_READ_BUF_SIZE - zlen (c_read_buf c') - 1 = 0 -> split_line (c_read_buf c') = None).
Proof.
  intros Hc Hm.
  assert (forall d, let '(ms, b, c') := feed_run max c rs in
    read_ok c' /\ msgs_of (c_read_buf c ++ b ++ d) = ms ++ msgs_of (c_read_buf c' ++ d)) as Hgen.
  { intros d. revert c Hc d. induction rs as [|r rs IH]; intros c Hc d; simpl; [done|].
    pose proof (fun e => sm_client_feed_spec r max c e Hc Hm) as Hf.
    destruct (sm_client_feed r max c) as [ms c1].
    destruct (Hf []) as (Hc1 & _ & _).
    specialize (IH c1 Hc1 d). destruct (feed_run max c1 rs) as [[ms' b] c2].
    destruct IH as [Hc2 IH]. split; [done|].
    destruct (Hf (b ++ d)) as (_ & _ & Hb). by rewrite <- (app_assoc _ b d), Hb, IH, app_assoc. }
  specialize (Hgen []). destruct (feed_run max c rs) as [[ms b] c']. rewrite !app_nil_r in Hgen.
  destruct Hgen as [[Hl Hn] Hgen]. split_and!; [done|done|].
  intros Hz. apply split_line_none. intros Hin%Hn. lia.
Qed.
End client_proofs.

(** ** Reference counts *)

Definition holds (id : nat) (e : sm_write_entry) : bool :=
  match e_shared e with Some i => (i =? id)%nat | None => false end.
(** How many entries of the queue refer to line [id]. *)
Definition cnt (id : nat) (c : sm_client_io) : nat := length (List.filter (holds id) (c_view c)).

Definition queue_ok (c : sm_client_io) : Prop :=
  circ_ok (c_queue c) (c_head c) (c_count c) /\ c_cap c = SM_CLIENT_WRITE_QUEUE_SIZE.

(** An operation changes the counts of the heap as it changes the queue. *)
Definition balanced (h h' : heap) (c c' : sm_client_io) : Prop :=
  queue_ok c' /\
  forall id, refs h' id - refs h id = Z.of_nat (cnt id c') - Z.of_nat (cnt id c).

Lemma refs_acquire id h i :
  refs (sm_shared_line_acquire id h) i = refs h i + (if (id =? i)%nat then 1 else 0).
Proof.
  unfold sm_shared_line_acquire. destruct (Nat.eqb_spec id i) as [->|].
  - unfold refs at 1. by rewrite lookup_insert_eq.
  - unfold refs at 1. rewrite lookup_insert_ne by done. unfold refs. lia.
Qed.

Lemma refs_release id h i :
  0 < refs h id ->
  refs (sm_shared_line_release id h) i = refs h i - (if (id =? i)%nat then 1 else 0).
Proof.
  intros Hp. unfold sm_shared_line_release. destruct (Nat.eqb_spec id i) as [->|].
  - destruct (Z.leb_spec (refs h i - 1) 0).
    + unfold refs at 1. rewrite lookup_delete_eq. simpl. lia.
    + unfold refs at 1. by rewrite lookup_insert_eq.
  - destruct (Z.leb_spec (refs h id - 1) 0); unfold refs at 1;
      [rewrite lookup_delete_ne by done|rewrite lookup_insert_ne by done]; unfold refs; lia.
Qed.

Lemma refs_new h i :
  let '(id, h') := sm_shared_line_new h in
  refs h id = 0 /\ refs h' i = refs h i + (if (id =? i)%nat then 1 else 0).
Proof.
  unfold sm_shared_line_new. pose proof (is_fresh (dom h)) as Hf.
  set (id := fresh (dom h)) in *. apply not_elem_of_dom in Hf.
  assert (refs h id = 0) as H0 by (unfold refs; by rewrite Hf). split; [done|].
  destruct (Nat.eqb_spec id i) as [<-|].
  - rewrite H0. unfold refs. by rewrite lookup_insert_eq.
  - unfold refs. rewrite lookup_insert_ne by done. lia.
Qed.

Lemma cnt_app id l k :
  length (List.filter (holds id) (l ++ k)) =
  (length (List.filter (holds id) l) + length (List.filter (holds id) k))%nat.
Proof. by rewrite List.filter_app, length_app. Qed.

Lemma c_view_push e c :
  queue_ok c -> (c_count c < c_cap c)%nat ->
  queue_ok (push_entry e c) /\ c_view (push_entry e c) = c_view c ++ [e].
Proof.
  intros [Hc Hcap] Hr. split; [|by apply circ_view_push].
  split; [by apply circ_ok_push|]. unfold c_cap in *. simpl. by rewrite length_insert.
Qed.

Lemma drop_message_balanced h c : queue_ok c -> balanced h h c (drop_message c).
Proof. intros [? ?]. split; [done|]. intros id. unfold cnt, c_view, drop_message. simpl. lia. Qed.

Section refcounts.
Context `{JsonText}.

Lemma try_coalesce_balanced line c h c' h' :
  queue_ok c -> (forall id, Z.of_nat (cnt id c) <= refs h id) ->
  try_coalesce_output line c h = Some (c', h') -> balanced h h' c c'.
Proof.
  intros [Hc Hcap] Hrefs. unfold try_coalesce_output.
  destruct (Nat.eqb_spec (c_count c) 0) as [|Hn]; [done|]. destruct (negb (line_is_output line)); [done|].
  cbn [orb]. set (slot := circ_idx (c_cap c) (c_head c) (c_count c - 1)).
  destruct (negb _); [done|]. destruct (_ <=? _); [done|].
  destruct (e_shared (c_queue c !!! slot)) as [id|] eqn:Es; [|done].
  destruct (negb _); [done|]. destruct (merge_output _ _) as [merged|]; [|done].
  pose proof (circ_view_last (c_queue c) (c_head c) (c_count c) ltac:(lia)) as Hv.
  fold (c_view c) in Hv. fold (c_cap c) in Hv. fold slot in Hv.
  assert (0 < refs h id) as Hpos.
  { specialize (Hrefs id). unfold cnt in Hrefs. rewrite Hv, cnt_app in Hrefs. simpl in Hrefs.
    unfold holds in Hrefs at 2. rewrite Es, Nat.eqb_refl in Hrefs. simpl in Hrefs. lia. }
  pose proof (refs_new h) as Hnew. destruct (sm_shared_line_new h) as [id' h1].
  intros [= <- <-]. split.
  { split; [|unfold c_cap in *; simpl; by rewrite length_insert].
    unfold circ_ok in *. simpl. by rewrite length_insert. }
  intros i. destruct (Hnew i) as [Hz Hi]. destruct (Hnew id) as [_ Hid].
  assert (id' <> id) as Hne by (intros ->; lia).
  assert (0 < refs h1 id) as Hpos1 by (destruct (id' =? id)%nat; lia).
  rewrite (refs_release id h1 i Hpos1), Hi.
  unfold cnt. unfold c_view at 1. simpl.
  unfold slot, c_cap. rewrite circ_view_set by (lia || apply Hc). fold (c_view c). rewrite Hv.
  rewrite insert_app_r_alt by (rewrite length_circ_view; lia).
  rewrite length_circ_view, Nat.sub_diag. simpl. rewrite !cnt_app. simpl.
  unfold holds at 2 4. rewrite Es. simpl.
  destruct (id' =? i)%nat, (id =? i)%nat; simpl; lia.
Qed.

Lemma send_shared_balanced id line c h :
  queue_ok c -> (forall i, Z.of_nat (cnt i c) <= refs h i) ->
  let '(rc, c', h') := sm_client_send_shared id line c h in balanced h h' c c'.
Proof.
  intros Hq Hr. unfold sm_client_send_shared.
  destruct (try_coalesce_output line c h) as [[c' h']|] eqn:E; [by eapply try_coalesce_balanced|].
  destruct (Nat.leb_spec (c_cap c) (c_count c)); [by apply drop_message_balanced|].
  destruct (c_view_push (mk_we line 0 (Some id)) c Hq) as [Hq' Hv]; [done|].
  split; [done|]. intros i. rewrite refs_acquire. unfold cnt. rewrite Hv, cnt_app. simpl.
  unfold holds at 2. simpl. destruct (id =? i)%nat; simpl; lia.
Qed.

Lemma send_balanced msg c h : queue_ok c -> balanced h h c (snd (sm_client_send msg c)).
Proof.
  intros Hq. unfold sm_client_send.
  destruct (Nat.leb_spec (c_cap c) (c_count c)); [by apply drop_message_balanced|].
  destruct (c_view_push (mk_we (sm_msg_encode msg) 0 None) c Hq) as [Hq' Hv]; [done|].
  split; [done|]. intros i. unfold cnt. cbn [snd]. rewrite Hv, cnt_app. simpl. lia.
Qed.
End refcounts.

Lemma c_view_cons c :
  queue_ok c -> (0 < c_count c)%nat ->
  c_view c = (c_queue c !!! c_head c) ::
    circ_view (c_queue c) (circ_idx (c_cap c) (c_head c) 1) (c_count c - 1).
Proof. intros [Hc _] Hn. apply circ_view_head; [by eapply circ_ok_head|done]. Qed.

Lemma client_advance_balanced n c h :
  queue_ok c -> (0 < c_count c)%nat -> (forall i, Z.of_nat (cnt i c) <= refs h i) ->
  let '(c', h') := client_advance n c h in balanced h h' c c'.
Proof.
  intros Hq Hn Hr. pose proof (c_view_cons c Hq Hn) as Hv. destruct Hq as [Hc Hcap].
  pose proof (circ_ok_head _ _ _ Hc Hn) as Hh.
  unfold client_advance. set (e := c_queue c !!! c_head c) in *. destruct (_ <=? _).
  - split.
    { split; [by apply circ_ok_pop|]. unfold c_cap in *. simpl. by rewrite length_insert. }
    intros i. unfold cnt. unfold c_view at 1. simpl.
    fold (circ_idx (c_cap c) (c_head c) 1). unfold c_cap.
    rewrite circ_view_pop by (done || apply Hc).
    rewrite Hv. simpl. destruct (e_shared e) as [id|] eqn:Es.
    + assert (0 < refs h id) as Hpos.
      { specialize (Hr id). unfold cnt in Hr. rewrite Hv in Hr. simpl in Hr.
        unfold holds in Hr at 1. rewrite Es, Nat.eqb_refl in Hr. simpl in Hr. lia. }
      rewrite refs_release by done.
      assert (holds i e = (id =? i)%nat) as -> by (unfold holds; by rewrite Es).
      unfold c_cap. destruct (id =? i)%nat; simpl; lia.
    + assert (holds i e = false) as -> by (unfold holds; by rewrite Es). unfold c_cap. lia.
  - split.
    { split; [unfold circ_ok in *; simpl; by rewrite length_insert|].
      unfold c_cap in *. simpl. by rewrite length_insert. }
    intros i. unfold cnt. unfold c_view at 1. simpl.
    rewrite <- (circ_idx_0 (length (c_queue c)) (c_head c)) at 1 by done.
    rewrite circ_view_set by (done || apply Hc). fold (c_view c). rewrite Hv. simpl.
    assert (holds i (mk_we (e_data e) (e_offset e + n) (e_shared e)) = holds i e) as -> by done.
    destruct (holds i e); simpl; lia.
Qed.

Lemma client_flush_balanced c h env :
  queue_ok c -> (forall i, Z.of_nat (cnt i c) <= refs h i) ->
  let '(rc, c', h', out) := sm_client_flush c h env in balanced h h' c c'.
Proof.
  revert c h. induction env as [|r env IH]; intros c h Hq Hr; simpl;
    (destruct (Nat.eqb_spec (c_count c) 0); [split; [done|intros; lia]|]).
  { split; [done|intros; lia]. }
  destruct r as [k| |]; simpl; [|split; [done|intros; lia] ..].
  set (m := Z.max 0 _). pose proof (client_advance_balanced m c h Hq ltac:(lia) Hr) as Ha.
  destruct (client_advance m c h) as [c1 h1]. destruct Ha as [Hq1 Hb1].
  specialize (IH c1 h1 Hq1). destruct (sm_client_flush c1 h1 env) as [[[rc c2] h2] out].
  destruct IH as [Hq2 Hb2]; [intros i; specialize (Hb1 i); specialize (Hr i); lia|].
  split; [done|]. intros i. specialize (Hb1 i). specialize (Hb2 i). lia.
Qed.

(** *** All the clients of a broker, and the lines a broadcast holds *)

Record line_world := mk_lw { lw_clients : list sm_client_io; lw_heap : heap; lw_held : list nat }.

Definition held_count (id : nat) (l : list nat) : nat := length (List.filter (Nat.eqb id) l).
Definition lines_ok (w : line_world) : Prop :=
  Forall queue_ok (lw_clients w) /\
  forall id, refs (lw_heap w) id =
    Z.of_nat (sum_list_with (cnt id) (lw_clients w) + held_count id (lw_held w)).

Inductive line_step `{JsonText} : line_world -> line_world -> Prop :=
  | ls_connect cs h held : line_step (mk_lw cs h held) (mk_lw (cs ++ [sm_client_new]) h held)
  | ls_new cs h held id h' :
      sm_shared_line_new h = (id, h') -> line_step (mk_lw cs h held) (mk_lw cs h' (id :: held))
  | ls_shared cs h held i c id line rc c' h' :
      cs !! i = Some c -> sm_client_send_shared id line c h = (rc, c', h') ->
      line_step (mk_lw cs h held) (mk_lw (<[i := c']> cs) h' held)
  | ls_release cs h id held :
      line_step (mk_lw cs h (id :: held)) (mk_lw cs (sm_shared_line_release id h) held)
  | ls_send cs h held i c msg :
      cs !! i = Some c ->
      line_step (mk_lw cs h held) (mk_lw (<[i := snd (sm_client_send msg c)]> cs) h held)
  | ls_flush cs h held i c env rc c' h' out :
      cs !! i = Some c -> sm_client_flush c h env = (rc, c', h', out) ->
      line_step (mk_lw cs h held) (mk_lw (<[i := c']> cs) h' held)
  | ls_destroy cs h held i c :
      cs !! i = Some c ->
      line_step (mk_lw cs h held) (mk_lw (delete i cs) (sm_client_destroy c h) held).

Lemma sum_list_insert {A} (f : A -> nat) l i x y :
  l !! i = Some x -> (sum_list_with f (<[i := y]> l) + f x = sum_list_with f l + f y)%nat.
Proof.
  revert i. induction l as [|z l IH]; intros [|i]; simpl; try done.
  - intros [= ->]. lia.
  - intros Hi. specialize (IH i Hi). lia.
Qed.

Lemma sum_list_delete {A} (f : A -> nat) l i x :
  l !! i = Some x -> (sum_list_with f (delete i l) + f x = sum_list_with f l)%nat.
Proof.
  revert i. induction l as [|z l IH]; intros [|i]; simpl; try done.
  - intros [= ->]. lia.
  - intros Hi. specialize (IH i Hi). lia.
Qed.

Lemma lines_ok_balanced cs h held i c c' h' :
  lines_ok (mk_lw cs h held) -> cs !! i = Some c ->
  ((forall id, Z.of_nat (cnt id c) <= refs h id) -> queue_ok c -> balanced h h' c c') ->
  lines_ok (mk_lw (<[i := c']> cs) h' held).
Proof.
  intros [Hq Hr] Hi Hb. simpl in *.
  assert (forall id, Z.of_nat (cnt id c) <= refs h id) as Hle.
  { intros id. rewrite Hr. pose proof (sum_list_delete (cnt id) cs i c Hi). lia. }
  destruct (Hb Hle (Forall_lookup_1 _ _ _ _ Hq Hi)) as [Hq' Hbal].
  split; simpl; [by apply Forall_insert|]. intros id. specialize (Hbal id).
  pose proof (sum_list_insert (cnt id) cs i c c' Hi). rewrite Hr in Hbal. lia.
Qed.

Lemma release_entries_refs l h :
  (forall id, Z.of_nat (length (List.filter (holds id) l)) <= refs h id) ->
  forall id, refs (fold_left release_entry l h) id =
             refs h id - Z.of_nat (length (List.filter (holds id) l)).
Proof.
  revert h. induction l as [|e l IH]; intros h Hle id; simpl; [lia|].
  assert (forall i, refs (release_entry h e) i =
                    refs h i - Z.of_nat (length (List.filter (holds i) [e]))) as He.
  { intros i. unfold release_entry. simpl. unfold holds. destruct (e_shared e) as [k|] eqn:Es; simpl; [|lia].
    rewrite refs_release.
    - destruct (k =? i)%nat; simpl; lia.
    - specialize (Hle k). simpl in Hle. unfold holds in Hle at 1.
      rewrite Es, Nat.eqb_refl in Hle. simpl in Hle. lia. }
  rewrite IH.
  - rewrite He. simpl. destruct (holds id e); simpl; lia.
  - intros i. rewrite He. specialize (Hle i). simpl in *. destruct (holds i e); simpl in *; lia.
Qed.

Lemma client_new_ok : queue_ok sm_client_new /\ forall id, cnt id sm_client_new = 0%nat.
Proof.
  split; [|done]. split; [|done]. split; simpl; unfold SM_CLIENT_WRITE_QUEUE_SIZE;
    rewrite ?length_replicate; simpl; lia.
Qed.

Lemma line_step_ok `{JsonText} w w' : line_step w w' -> lines_ok w -> lines_ok w'.
Proof.
  destruct 1 as [cs h held|cs h held id h' Hn|cs h held i c id line rc c' h' Hi Hs|cs h id held|
                 cs h held i c msg Hi|cs h held i c env rc c' h' out Hi Hf|cs h held i c Hi]; intros Hok.
  - destruct Hok as [Hq Hr]. destruct client_new_ok as [Hnq Hnc]. split; simpl in *.
    + apply Forall_app. by split; [|constructor].
    + intros id. rewrite Hr, sum_list_with_app. simpl. lia.
  - destruct Hok as [Hq Hr]. split; [done|]. simpl in *. intros i.
    pose proof (refs_new h i) as Hnew. rewrite Hn in Hnew. destruct Hnew as [_ ->]. rewrite Hr.
    unfold held_count. simpl. rewrite (Nat.eqb_sym i id). destruct (id =? i)%nat; simpl; lia.
  - eapply lines_ok_balanced; [done|done|]. intros Hle Hq.
    pose proof (send_shared_balanced id line c h Hq Hle) as Hb. by rewrite Hs in Hb.
  - destruct Hok as [Hq Hr]. split; [done|]. simpl in *. intros i. unfold held_count in *. simpl in *.
    rewrite refs_release.
    + rewrite Hr, (Nat.eqb_sym i id). destruct (id =? i)%nat; simpl; lia.
    + rewrite Hr, Nat.eqb_refl. simpl. lia.
  - eapply lines_ok_balanced; [done|done|]. intros _ Hq. by apply send_balanced.
  - eapply lines_ok_balanced; [done|done|]. intros Hle Hq.
    pose proof (client_flush_balanced c h env Hq Hle) as Hb. by rewrite Hf in Hb.
  - destruct Hok as [Hq Hr]. simpl in *. split; simpl; [by apply Forall_delete|]. intros id.
    unfold sm_client_destroy. rewrite release_entries_refs.
    + rewrite Hr. pose proof (sum_list_delete (cnt id) cs i c Hi). unfold cnt in *. lia.
    + intros k. rewrite Hr. pose proof (sum_list_delete (cnt k) cs i c Hi). unfold cnt in *. lia.
Qed.

(** Shared lines are freed exactly when the last reference goes.  In
    every state reachable by connecting, broadcasting, sending, flushing and
    dropping clients, a line's reference count is the number of queue entries
    and pending broadcasts that refer to it: a line some queue still refers to
    is live, a line nobody refers to is freed, and no queue exceeds its 256
    slots. *)
Theorem shared_line_refcount `{JsonText} w :
  rtc line_step (mk_lw [] empty []) w ->
  (forall id, refs (lw_heap w) id =
     Z.of_nat (sum_list_with (cnt id) (lw_clients w) + held_count id (lw_held w))) /\
  (forall i c e id, lw_clients w !! i = Some c -> In e (c_view c) -> e_shared e = Some id ->
     0 < refs (lw_heap w) id) /\
  Forall (fun c => (c_count c <= SM_CLIENT_WRITE_QUEUE_SIZE)%nat) (lw_clients w).
Proof.
  intros Hr. assert (lines_ok w) as [Hq Hrefs].
  { assert (lines_ok (mk_lw [] empty [])) as H0 by (split; [constructor|done]).
    revert Hr H0. generalize (mk_lw [] empty []) as w0.
    induction 1 as [|x y z Hs Hr IH]; intros H0; [done|]. apply IH. by eapply line_step_ok. }
  split_and!; [done| |].
  - intros i c e id Hi He Hid. rewrite Hrefs. pose proof (sum_list_delete (cnt id) _ i c Hi) as Hsum.
    assert (0 < cnt id c)%nat; [|lia]. unfold cnt.
    assert (In e (List.filter (holds id) (c_view c))) as Hin.
    { apply filter_In. split; [done|]. unfold holds. rewrite Hid. apply Nat.eqb_refl. }
    destruct (List.filter _ _); [done|simpl; lia].
  - eapply Forall_impl; [exact Hq|]. intros c [[Hc _] Hcap]. unfold c_cap in Hcap. simpl. lia.
Qed.

Lemma shared_line_refcount_witness :
  let line := @sm_msg_encode cjson (sm_msg_link_up "ttyUSB0") in
  let '(id, h) := sm_shared_line_new empty in
  let '(rc, c, h') := @sm_client_send_shared cjson id line sm_client_new h in
  refs h' id = Z.of_nat (cnt id c + 0 + 1).
Proof.
  intros line. destruct (sm_shared_line_new empty) as [id h] eqn:En.
  destruct (@sm_client_send_shared cjson id line sm_client_new h) as [[rc c] h'] eqn:Es.
  destruct (@shared_line_refcount cjson (mk_lw [c] h' [id])) as (Hr & _ & _).
  - eapply rtc_l; [apply ls_connect|]. cbn [app].
    eapply rtc_l; [by eapply ls_new|].
    eapply rtc_l; [by eapply (ls_shared [sm_client_new] h [id] 0%nat)|]. apply rtc_refl.
  - specialize (Hr id). unfold held_count in Hr. simpl in Hr. rewrite Nat.eqb_refl in Hr. exact Hr.
Defined.

Lemma client_feed_stream_witness :
  let b := @sm_msg_encode cjson (sm_msg_status (Some "7")) in
  let '(ms, _, c') := @feed_run cjson 4 sm_client_new [RBytes (ztake 5 b); RBytes (zdrop 5 b)] in
  map m_type ms = [SM_MSG_STATUS] /\ read_ok c'.
Proof.
  intros b. pose proof (@client_feed_stream cjson 4 sm_client_new
    [RBytes (ztake 5 b); RBytes (zdrop 5 b)]) as Hw.
  destruct (@feed_run cjson 4 sm_client_new _) as [[ms b'] c'] eqn:E.
  destruct Hw as (Hok & _).
  - split; [vm_compute; congruence|intros []].
  - lia.
  - split; [|exact Hok]. vm_compute in E. injection E as <- _ _. reflexivity.
Defined.
