(* ===== verification/BrokerState.v ===== *)
(** * The broker's state ([src/broker.h], [src/client.h], [src/links/link.h])

    The broker is single threaded: an event handler runs to completion on the
    state below.  Handlers are programs of a state monad [M] over a [world]:
    the broker's own fields, the link behind its vtable, the heap of shared
    lines, the chunk buffer pool, a counter that names the queries made to the
    environment (clocks, allocator, timers, sockets), and a trace of what the
    broker did to the device, to its clients and to its sinks. *)
From stdpp Require Import gmap pretty.
From S2P Require Import Prelude RingBuffer Json Protocol Regex Expect BootStage Autoresponder Anomaly Effects.
From S2P Require Import Client.

#[local] Open Scope string_scope.
#[local] Open Scope list_scope.
#[local] Open Scope Z_scope.

Definition SM_MAX_CLIENTS : nat := 32.
Definition SM_FLOOD_KEY_MAX : Z := 8.
Definition SM_FLOOD_TAIL_LEN : Z := 256.
Definition SM_RING_BUFFER_MAX_BYTES : Z := 2097152.

(** ** The environment *)

(** The link vtable over an abstract link state.  The results are the C
    return codes; an optional entry is a NULL pointer when [None]. *)
Class LinkOps := {
  link_state : Type;
  link_open : link_state -> Z * link_state;
  link_close : link_state -> link_state;
  link_read_fd : link_state -> Z;
  link_write_data : bytes -> link_state -> Z * link_state;
  link_flush_write_queue : option (link_state -> Z * link_state);
  link_send_break : Z -> link_state -> Z * link_state;
  link_set_param : string -> string -> link_state -> Z * link_state;
  link_get_status : link_state -> list (string * json);
  link_connect_begin : option (link_state -> Z * link_state);
  link_connect_poll : option (link_state -> Z * link_state);
  link_filter_rx : option (bytes -> link_state -> bytes * link_state);
  link_silence_normal : bool }.

(** The system, as answers to the [n]-th query. *)
Class SystemEnv := {
  env_monotonic : nat -> double;
  env_realtime : nat -> double;
  env_timespec : nat -> Z * Z;
  env_timer : nat -> bool;                      (* a timerfd or epoll call succeeds *)
  env_alloc : nat -> Z -> bool;                 (* an allocation succeeds *)
  env_writes : nat -> list wres;                (* a client socket accepts bytes *)
  env_by_path : nat -> string -> option string; (* /dev/serial/by-path look-up *)
  env_by_id : nat -> string -> option string }. (* /dev/serial/by-id look-up *)

(** ** Data *)

(** A client: [cl_key] stands for the address of the C object. *)
Record sm_client := mk_client {
  cl_key : nat; cl_id : string; cl_name : string; cl_role : string;
  cl_hello : bool; cl_connected_at : double; cl_peer_pid : Z; cl_requires_auth : bool;
  cl_le_start : double; cl_le_count : Z; cl_write_pending : bool; cl_io : sm_client_io }.

(** [calloc]ed by [sm_client_new]. *)
Definition new_client (key : nat) (num : Z) : sm_client :=
  mk_client key ("client-" +:+ pretty num) "" "observer" false 0 0 false 0 0 false sm_client_new.

Inductive brk_state := SM_BRK_IDLE | SM_BRK_ASSERTED | SM_BRK_DELAY.
#[export] Instance brk_state_eq_dec : EqDecision brk_state.
Proof. solve_decision. Defined.

Record pin_break_ctx := mk_pin_ctx { pc_client_id : string; pc_msg_id : string; pc_has_id : bool }.
(** A completion callback and its context: the broker's own, or a sink's. *)
Inductive break_done := DonePin (ctx : pin_break_ctx) | DoneSink (ctx : nat).

Record brk := mk_brk {
  bk_timer : bool; bk_state : brk_state; bk_pin : string; bk_followup : bytes;
  bk_delay_ms : Z; bk_done : option break_done }.

Record flood := mk_flood {
  fl_timer : bool; fl_active : bool; fl_key : bytes; fl_deadline : double;
  fl_stop_re : option sm_regex; fl_tail : bytes; fl_sent : Z; fl_start : double;
  fl_client_id : string; fl_msg_id : string;
  fl_reset_pin : string; fl_reset_deassert : string; fl_reset_pending : bool;
  fl_reset_deassert_time : double }.

Record history_pending := mk_hist {
  hp_active : bool; hp_client_id : string; hp_msg_id : string; hp_chunks : list sm_rb_chunk;
  hp_index : nat; hp_arr : list json; hp_truncated : bool; hp_has_cursor : bool;
  hp_cursor : double; hp_dropped : double; hp_has_more : bool;
  hp_first_skip : Z; hp_page_bytes : Z; hp_bytes_encoded : Z }.
Definition hist_zero : history_pending :=
  mk_hist false "" "" [] 0 [] false false 0 0 false 0 0 0.

(** Which callbacks a sink implements. *)
Record sm_sink := mk_sink { sk_output : bool; sk_event : bool; sk_expect : bool }.

Record link_flags := mk_lf {
  lf_suspended : bool; lf_reconnect : bool; lf_disconnected : bool; lf_reconnect_next : double;
  lf_delay_s : Z; lf_connecting : bool; lf_deadline : double;
  lf_pending_ack : bool; lf_pending_id : string;
  lf_last_rx : double; lf_healthy : bool; lf_up_ts : double; lf_bytes_rx : Z }.

Record identity := mk_ident {
  id_weak : bool; id_by_path : string; id_by_id : string }.

Record sm_broker := mk_broker {
  b_expect : sm_expect_engine; b_history : sm_ring_buffer; b_anomaly : sm_anomaly_detector;
  b_boot : sm_boot_tracker; b_ar : sm_autoresponder;
  b_io_log : option string; b_text_log : option string;
  b_clients : list sm_client; b_next_num : Z; b_next_key : nat; b_takeover : option nat;
  b_link : link_flags; b_brk : brk; b_flood : flood;
  b_stall_timer : bool; b_stall_notified : bool;
  b_port : string; b_baudrate : Z; b_board : string; b_role : string;
  b_identity : identity; b_auth_token : string;
  b_sinks : list sm_sink; b_hist : history_pending; b_last_health_check : double }.

(** ** The trace *)

Inductive event :=
  | EvSend (key : nat) (msg : json)              (* given to a client's queue *)
  | EvWrite (data : bytes) (sender : string)     (* link->write_data *)
  | EvParam (key value : string)                 (* link->set_param *)
  | EvBreak (ms : Z)                             (* link->send_break *)
  | EvOpen | EvConnect | EvPoll | EvClose | EvFlush
  | EvLogInput (data : bytes) (sender : string) (ts : double)
  | EvLogOutput (b64 : string) (ts : double)
  | EvLogIncident (id name severity : string) (ts : double)
  | EvText (data : bytes) (ts : double)
  | EvAccept (ctx : break_done)                  (* a break or reset was accepted *)
  | EvDone (ctx : break_done) (rc : Z)           (* its completion callback ran *)
  | EvSinkOutput (i : nat) (data : bytes) (ts : double)
  | EvSinkEvent (i : nat) (event payload : string)
  (* with the incidents the sink can look up *)
  | EvSinkExpect (i : nat) (r : sm_expect_result) (incs : list sm_anomaly_incident)
  | EvHangup (key : nat).                        (* a client destroyed *)

(** What reaches the device. *)
Definition is_device (e : event) : bool :=
  match e with
  | EvWrite _ _ | EvParam _ _ | EvBreak _ | EvOpen | EvConnect | EvPoll | EvClose | EvFlush => true
  | _ => false
  end.

Section state.
Context {L : LinkOps}.

Record world := mk_world {
  w_b : sm_broker; w_link : link_state; w_heap : heap; w_pool : rb_pool_t;
  w_tick : nat; w_trace : list event }.

(** ** The monad *)

Definition M (A : Type) : Type := world -> world * A.
#[export] Instance M_ret : MRet M := fun A x w => (w, x).
#[export] Instance M_bind : MBind M := fun A B k m w => let '(w', x) := m w in k x w'.

Definition run {A} (m : M A) (w : world) : world := fst (m w).
Definition result {A} (m : M A) (w : world) : A := snd (m w).

Definition gets {A} (f : sm_broker -> A) : M A := fun w => (w, f (w_b w)).
Definition ask : M sm_broker := gets (fun b => b).
Definition modify (f : sm_broker -> sm_broker) : M unit :=
  fun w => ({| w with w_b := f (w_b w) |}, tt).
Definition update (f : world -> world) : M unit := fun w => (f w, tt).
Definition emit (e : event) : M unit := fun w => ({| w with w_trace := w_trace w ++ [e] |}, tt).
Definition query {A} (f : nat -> A) : M A :=
  fun w => ({| w with w_tick := S (w_tick w) |}, f (w_tick w)).
Definition when (c : bool) (m : M unit) : M unit := if c then m else mret tt.
Fixpoint for_each {A} (f : A -> M unit) (l : list A) : M unit :=
  match l with [] => mret tt | x :: l' => f x ;; for_each f l' end.
(** With the index. *)
Fixpoint for_each_i {A} (f : nat -> A -> M unit) (i : nat) (l : list A) : M unit :=
  match l with [] => mret tt | x :: l' => f i x ;; for_each_i f (S i) l' end.

Definition link_view : M link_state := fun w => (w, w_link w).

(** A vtable call. *)
Definition link_call {A} (e : event) (f : link_state -> A * link_state) : M A :=
  fun w => let '(x, l) := f (w_link w) in
           ({| w with w_link := l; w_trace := w_trace w ++ [e] |}, x).
Definition set_param (key value : string) : M Z :=
  link_call (EvParam key value) (link_set_param key value).
Definition link_closed : M unit := link_call EvClose (fun l => (tt, link_close l)).

(** Sub-record updates. *)
Definition mod_link (f : link_flags -> link_flags) : M unit :=
  modify (fun b => {| b with b_link := f (b_link b) |}).
Definition mod_brk (f : brk -> brk) : M unit :=
  modify (fun b => {| b with b_brk := f (b_brk b) |}).
Definition mod_flood (f : flood -> flood) : M unit :=
  modify (fun b => {| b with b_flood := f (b_flood b) |}).
Definition mod_expect (f : sm_expect_engine -> sm_expect_engine) : M unit :=
  modify (fun b => {| b with b_expect := f (b_expect b) |}).

Definition lflag {A} (f : link_flags -> A) : M A := gets (fun b => f (b_link b)).
End state.

(** ** Pure helpers *)

Definition find_key (k : nat) (l : list sm_client) : option sm_client :=
  List.find (fun c => Nat.eqb (cl_key c) k) l.
Fixpoint key_index (k : nat) (i : nat) (l : list sm_client) : option nat :=
  match l with
  | [] => None
  | c :: l' => if Nat.eqb (cl_key c) k then Some i else key_index k (S i) l'
  end.
Definition upd_key (k : nat) (f : sm_client -> sm_client) (l : list sm_client) : list sm_client :=
  map (fun c => if Nat.eqb (cl_key c) k then f c else c) l.
Definition find_id (id : string) (l : list sm_client) : option sm_client :=
  List.find (fun c => streq (cl_id c) id) l.

(** The auth token comparison: every byte is looked at. *)
Fixpoint ct_loop (n : nat) (i : Z) (a b : bytes) (diff : Z) : Z :=
  match n with
  | O => diff
  | S n' =>
      let ca := if i <? zlen a then zat a i else 0 in
      let cb := if i <? zlen b then zat b i else 0 in
      ct_loop n' (i + 1) a b (Z.lor diff (u8 (Z.lxor ca cb)))
  end.
Definition ct_str_equal (a b : string) : bool :=
  let ba := bytes_of_string a in
  let bb := bytes_of_string b in
  let n := Nat.max (length ba) (length bb) in
  ct_loop n 0 ba bb (if zlen ba =? zlen bb then 0 else 1) =? 0.

Definition can_send (b : sm_broker) (c : sm_client) : bool :=
  if streq (cl_role c) "observer" then false
  else match b_takeover b with
       | Some k => Nat.eqb k (cl_key c)
       | None => true
       end.

(** The tag of the log file's name: [/dev/] stripped, slashes flattened. *)
Definition io_log_tag_from_port (port : option string) (out_len : nat) : string :=
  let p := match port with Some s => if streq s "" then "unknown" else s | None => "unknown" end in
  let p := if String.prefix "/dev/" p then String.substring 5 (String.length p - 5) p else p in
  string_of_bytes (map (fun q => if q =? chr "/" then chr "-" else q)
                       (bytes_of_string (snprintf_s out_len p))).

(** ** Serial identity ([src/util/sock_util.c]) *)

(** The part after the last slash. *)
Definition basename (s : bytes) : bytes :=
  fold_left (fun acc c => if c =? chr "/" then [] else acc ++ [c]) s [].
Definition isxdigit (c : Z) : bool :=
  ((48 <=? c) && (c <=? 57)) || ((65 <=? c) && (c <=? 70)) || ((97 <=? c) && (c <=? 102)).
(** A run of six hexadecimal digits. *)
Fixpoint has_hex_run (run : nat) (l : bytes) : bool :=
  match l with
  | [] => false
  | c :: l' =>
      if isxdigit c then (6 <=? S run)%nat || has_hex_run (S run) l' else has_hex_run 0 l'
  end.
Definition strstr (s needle : string) : bool :=
  match find_sub (bytes_of_string needle) (bytes_of_string s) 0 with Some _ => true | None => false end.
Definition sm_serial_by_id_is_weak (path : string) : bool :=
  if streq path "" then false else
  let base := basename (bytes_of_string path) in
  if negb (strstr path "by-id") && negb (bool_decide (ztake 4 base = bytes_of_string "usb-"))
  then false
  else negb (has_hex_run 0 base).

Definition sm_identity_refuse_weak_seat_change (weak : bool) (last_by_path now_by_path : string) :
    bool :=
  if negb weak then false
  else if streq last_by_path "" then true
  else if streq now_by_path "" then true
  else negb (streq last_by_path now_by_path).
