(* ===== verification/McpResults.v ===== *)
(** * Results of the MCP tools ([src/sinks/mcp_results.c])

    Each tool's text and its structured result, both from the same JSON: a
    status_response, an incidents array, a history page, a scan of the serial
    ports ([src/broker_info.c], [src/util/sock_util.c]). *)
From stdpp Require Import pretty.
From S2P Require Import Prelude Cstr Json Protocol Regex Anomaly McpText BrokerState.

#[local] Open Scope string_scope.
#[local] Open Scope list_scope.
#[local] Open Scope Z_scope.
#[local] Open Scope json_scope.

(** ** Printing *)

(** [%.<k>f]: rounded half to even at the [k]-th digit. *)
Definition round_div (a b : Z) : Z :=
  let q := a / b in let r := a mod b in
  if 2 * r <? b then q else if b <? 2 * r then q + 1 else if Z.even q then q else q + 1.
Definition pad_left (n : nat) (s : string) : string :=
  string_of_bytes (replicate (n - String.length s) 48) +:+ s.
(** [%0*d]. *)
Definition fmt_pad (w : nat) (n : Z) : string :=
  if n <? 0 then "-" +:+ pad_left (w - 1) (pretty (- n)) else pad_left w (pretty n).
Definition fmt_fixed (k : nat) (d : double) : string :=
  let scale := 10 ^ Z.of_nat k in
  let n := round_div (Z.abs d) (10 ^ (9 - Z.of_nat k)) in
  (if d <? 0 then "-" else "") +:+ pretty (n / scale) +:+
  match k with O => "" | _ => "." +:+ pad_left k (pretty (n mod scale)) end.
Definition fmt_bool (b : bool) : string := if b then "true" else "false".

(** ** Tool call results *)

Definition sm_mcp_tool_call_result (tool : option string) (text : option string)
    (structured : option json) : json :=
  let text := default "(allocation failed)" text in
  let result := JObj [] |> add_item "content" (JArr
    [JObj [] |> add_string "type" "text" |> add_string "text" text]) in
  let is_error := is_error_text text ||
    match structured with None => sm_mcp_tool_has_output_schema tool | Some _ => false end in
  let result := match structured with
                | Some s => if is_error then result else result |> add_item "structuredContent" s
                | None => result end in
  if is_error then result |> add_bool "isError" true else result.

(** ** Helpers *)

Definition copy_string (src : json) (key : string) (dst : json) : json :=
  match sm_json_get_string src key with Some v => dst |> add_string key v | None => dst end.
Definition copy_number (src : json) (key : string) (dst : json) : json :=
  match get_item src key with Some (JNum d) => dst |> add_number key d | _ => dst end.
(** [cJSON_ArrayForEach]. *)
Definition elements (o : option json) : list json :=
  match o with Some (JArr l) => l | Some (JObj l) => map snd l | _ => [] end.
Definition or_else (d : string) (o : option string) : string := default d o.

(** ** Port status *)

Definition status_identity (status : json) : string :=
  match sm_json_get_string status "identity_strength" with
  | Some s => s
  | None => if sm_json_get_bool status "identity_weak" false then "WEAK" else "n/a"
  end.

Section text.
Context {J : JsonText}.

Definition text_if (label : string) (s : option string) : string :=
  match given s with Some v => label +:+ v +:+ nl | None => "" end.

Definition sm_mcp_port_status_text (status : json) (last_link_event : option string) : string :=
  "Port: " +:+ or_else "?" (sm_json_get_string status "port") +:+ nl +:+
  "Baud: " +:+ pretty (sm_json_get_int status "baud" 0) +:+ nl +:+
  "Connected: " +:+ fmt_bool (sm_json_get_bool status "connected" false) +:+ nl +:+
  "Suspended: " +:+ fmt_bool (sm_json_get_bool status "suspended" false) +:+ nl +:+
  "Link up ts: " +:+ fmt_fixed 3 (sm_json_get_double status "link_up_ts" 0) +:+ nl +:+
  "Last RX age ms: " +:+ pretty (sm_json_get_int status "last_rx_age_ms" 0) +:+ nl +:+
  "Bytes since link up: " +:+
    fmt_fixed 0 (sm_json_get_double status "bytes_rx_since_link_up" 0) +:+ nl +:+
  match last_link_event with
  | Some e => "Last link event: " +:+ or_else "(none)" (given (Some e)) +:+ nl | None => "" end +:+
  "Identity: " +:+ status_identity status +:+ nl +:+
  text_if "Identity by-id: " (sm_json_get_string status "identity_by_id") +:+
  text_if "Identity by-path: " (sm_json_get_string status "identity_by_path") +:+
  match get_item status "pin_states" with
  | Some pins => "Pin states: " +:+ cJSON_PrintUnformatted pins +:+ nl | None => "" end +:+
  "Takeover: " +:+ or_else "none" (sm_json_get_string status "takeover_client") +:+ nl +:+
  match sm_json_get_string status "log_path" with
  | Some p => "Log: " +:+ p +:+ nl | None => "" end +:+
  "Clients:" +:+ nl +:+
  match get_item status "clients" with
  | Some (JArr cs) => foldr String.append "" (map (fun ci =>
      "  - " +:+ or_else "?" (sm_json_get_string ci "name") +:+ " (" +:+
      or_else "?" (sm_json_get_string ci "role") +:+ ")" +:+ nl) cs)
  | _ => ""
  end.
End text.

Definition client_structured (ci : json) : json :=
  JObj [] |> add_string "name" (or_else "" (sm_json_get_string ci "name"))
    |> add_string "role" (or_else "" (sm_json_get_string ci "role"))
    |> copy_number ci "pid".

Definition sm_mcp_port_status_structured (status : json) (last_link_event : option string) : json :=
  let o := JObj []
    |> add_string "port" (or_else "" (sm_json_get_string status "port"))
    |> add_int "baud" (sm_json_get_int status "baud" 0)
    |> add_bool "connected" (sm_json_get_bool status "connected" false)
    |> add_bool "suspended" (sm_json_get_bool status "suspended" false)
    |> copy_string status "link_type"
    |> add_item "takeover_client" match sm_json_get_string status "takeover_client" with
                                  | Some t => JStr t | None => JNull end
    |> add_string "identity_strength" (status_identity status)
    |> copy_string status "identity_by_id" |> copy_string status "identity_by_path"
    |> copy_number status "link_up_ts" |> copy_number status "last_rx_age_ms"
    |> copy_number status "bytes_rx_since_link_up" in
  let o := match given last_link_event with Some e => o |> add_string "last_link_event" e | None => o end in
  let o := match get_item status "pin_states" with
           | Some (JObj p) => o |> add_item "pin_states" (JObj p) | _ => o end in
  o |> copy_string status "log_path" |> copy_string status "board" |> copy_string status "role"
    |> add_item "clients" (JArr (map client_structured (elements (get_item status "clients")))).

(** ** Boot status *)

Record boot_view_t := mk_bv {
  bv_boot : bool; bv_stages : list json; bv_furthest : Z; bv_total : Z; bv_reached : Z;
  bv_furthest_name : option string; bv_state : string }.

Definition boot_state (i : nat) : string := default "" (boot_states !! i).

(** The count of reached stages and the name of the furthest. *)
Fixpoint scan_stages (idx furthest : Z) (l : list json) (reached : Z) (name : option string) :
    Z * option string :=
  match l with
  | [] => (reached, name)
  | st :: l' =>
      scan_stages (idx + 1) furthest l'
        (if sm_json_get_bool st "reached" false then reached + 1 else reached)
        (if idx =? furthest then sm_json_get_string st "name" else name)
  end.

Definition boot_view (status : json) : boot_view_t :=
  match get_item status "boot" with
  | Some (JObj m) =>
      let boot := JObj m in
      let furthest := sm_json_get_int boot "furthest" (-1) in
      let stages := elements (get_item boot "stages") in
      let '(reached, name) := scan_stages 0 furthest stages 0 None in
      mk_bv true stages furthest (sm_json_get_int boot "total" 0) reached name
        (if sm_json_get_bool boot "terminal_reached" false then boot_state 4
         else if sm_json_get_bool boot "stalled" false then boot_state 3
         else if furthest <? 0 then boot_state 1 else boot_state 2)
  | _ => mk_bv false [] (-1) 0 0 None (boot_state 0)
  end.

Fixpoint stage_lines (idx furthest : Z) (l : list json) : string :=
  match l with
  | [] => ""
  | st :: l' =>
      "  [" +:+ (if sm_json_get_bool st "reached" false then "x" else " ") +:+ "] " +:+
      or_else "?" (sm_json_get_string st "name") +:+
      (if idx =? furthest then "  <- furthest" else "") +:+ nl +:+ stage_lines (idx + 1) furthest l'
  end.
Definition sm_mcp_boot_status_text (status : json) : string :=
  let v := boot_view status in
  if negb (bv_boot v) then
    "No boot_stages defined in the device profile — boot progress tracking is not configured."
  else
    "Boot: " +:+ pretty (bv_reached v) +:+ "/" +:+ pretty (bv_total v) +:+ " stages reached" +:+
    match bv_furthest_name v with Some n => " (furthest: " +:+ n +:+ ")" | None => "" end +:+
    ", state: " +:+ (if streq (bv_state v) "stalled" then "STALLED" else bv_state v) +:+ nl +:+
    stage_lines 0 (bv_furthest v) (bv_stages v).

Definition stage_structured (st : json) : json :=
  JObj [] |> add_string "name" (or_else "" (sm_json_get_string st "name"))
    |> add_bool "reached" (sm_json_get_bool st "reached" false) |> copy_number st "timestamp".
Definition sm_mcp_boot_status_structured (status : json) : json :=
  let v := boot_view status in
  JObj [] |> add_bool "configured" (bv_boot v) |> add_string "state" (bv_state v)
    |> add_int "reached" (bv_reached v) |> add_int "total" (bv_total v)
    |> add_item "furthest" match bv_furthest_name v with Some n => JStr n | None => JNull end
    |> add_item "stages" (JArr (map stage_structured (bv_stages v))).

(** ** Incidents *)

Definition incident_block (num : Z) (inc : json) : string :=
  "### Incident " +:+ pretty num +:+ ": " +:+ or_else "?" (sm_json_get_string inc "pattern_name") +:+
  " [" +:+ or_else "?" (sm_json_get_string inc "severity") +:+ "]" +:+ nl +:+ "Match: " +:+
  or_else "" (sm_json_get_string inc "match_text") +:+ nl +:+
  match given (sm_json_get_string inc "pre_context") with
  | Some pre => "Pre-context:" +:+ nl +:+ "```" +:+ nl +:+ pre +:+ nl +:+ "```" +:+ nl
  | None => "" end +:+ nl.
Fixpoint incident_blocks (num : Z) (l : list json) : string :=
  match l with [] => "" | inc :: l' => incident_block num inc +:+ incident_blocks (num + 1) l' end.
Definition sm_mcp_incidents_text (incidents : option json) : string :=
  match incidents with
  | Some (JArr (i :: l)) => incident_blocks 1 (i :: l)
  | _ => "No anomalies detected."
  end.

Definition incident_structured (inc : json) : json :=
  JObj [] |> copy_string inc "incident_id"
    |> add_string "pattern_name" (or_else "" (sm_json_get_string inc "pattern_name"))
    |> add_string "severity" (or_else "" (sm_json_get_string inc "severity"))
    |> add_string "match_text" (or_else "" (sm_json_get_string inc "match_text"))
    |> add_string "pre_context" (or_else "" (sm_json_get_string inc "pre_context"))
    |> add_number "timestamp" (sm_json_get_double inc "timestamp" 0).
Definition sm_mcp_incidents_structured (incidents : option json) : json :=
  let l := elements incidents in
  JObj [] |> add_item "incidents" (JArr (map incident_structured l))
    |> add_int "count" (Z.of_nat (length l)).

(** ** Ports *)

Record sm_serial_port_info := mk_port {
  pi_path : string; pi_by_id : string; pi_by_path : string; pi_vid : string; pi_pid : string;
  pi_manufacturer : string; pi_product : string }.

Definition sm_serial_port_info_to_json (p : sm_serial_port_info) : json :=
  let id := if streq (pi_by_id p) "" then pi_path p else pi_by_id p in
  JObj [] |> add_string "path" (pi_path p) |> add_nonempty "by_id" (pi_by_id p)
    |> add_nonempty "by_path" (pi_by_path p) |> add_string "vid" (pi_vid p)
    |> add_string "pid" (pi_pid p) |> add_string "manufacturer" (pi_manufacturer p)
    |> add_string "product" (pi_product p)
    |> add_string "identity" (if sm_serial_by_id_is_weak id then "WEAK"
                              else if strstr id "by-id" then "STRONG" else "n/a").

(** A piece that does not fit what is left of the buffer is left out. *)
Definition put (cap : nat) (s piece : string) : string :=
  if (String.length piece <? cap - String.length s)%nat then s +:+ piece else s.
Definition port_pieces (p : sm_serial_port_info) : list string :=
  (if streq (pi_by_id p) "" then [] else
   [nl +:+ "  by-id: " +:+ pi_by_id p +:+
    (if sm_serial_by_id_is_weak (pi_by_id p) then " [WEAK: class-only by-id, no USB serial]"
     else " [STRONG]")]) ++
  (if streq (pi_by_path p) "" then [] else [nl +:+ "  by-path: " +:+ pi_by_path p]) ++
  (if streq (pi_vid p) "" && streq (pi_pid p) "" then [] else
   [nl +:+ "  usb: " +:+ (if streq (pi_vid p) "" then "????" else pi_vid p) +:+ ":" +:+
    (if streq (pi_pid p) "" then "????" else pi_pid p)]) ++
  (if streq (pi_manufacturer p) "" && streq (pi_product p) "" then [] else
   [nl +:+ "  " +:+ pi_manufacturer p +:+ " " +:+ pi_product p]).
Fixpoint port_lines (cap : nat) (s : string) (l : list sm_serial_port_info) : string :=
  match l with
  | [] => s
  | p :: l' =>
      if (cap - String.length s <=? String.length (pi_path p))%nat then s else
      let s := fold_left (put cap) (port_pieces p) (s +:+ pi_path p) in
      let s := match l' with
               | [] => s
               | _ => if (String.length s + 1 <? cap)%nat then s +:+ nl else s end in
      port_lines cap s l'
  end.
Definition sm_format_serial_ports_info_text (l : list sm_serial_port_info) : string :=
  match l with [] => "No serial ports found." | _ => port_lines (length l * 480 + 64) "" l end.

(** The structured result and the text of a scan. *)
Definition sm_mcp_list_ports (scan : list sm_serial_port_info) : json * string :=
  (JObj [] |> add_item "ports" (JArr (map sm_serial_port_info_to_json scan)),
   sm_format_serial_ports_info_text scan).

(** ** History *)

Definition sm_mcp_history_page_text {J : JsonText} (page : json) : string := cJSON_PrintUnformatted page.
Definition sm_mcp_history_page_structured (page : json) : json := page |> add_string "mode" "cursor".
Definition sm_mcp_history_text_structured (text : string) : json :=
  JObj [] |> add_string "mode" "text" |> add_string "text" text.

(** ** Conformance *)

Section conform.
Context (n : nat) (props : json).
#[local] Abbreviation ok := (obj_ok n props).

Lemma ok_copy_string src key keys o :
  ok keys o -> (forall s, opt (get_item props key) (fun p => validates n p (JStr s)) = true) ->
  ok keys (copy_string src key o).
Proof.
  intros Ho Hp. unfold copy_string. destruct (sm_json_get_string src key) as [v|]; [|done].
  eapply obj_ok_weaken; [by apply obj_ok_add|]. rewrite List.Forall_forall. intros k Hk. by right.
Qed.
Lemma ok_copy_number src key keys o :
  ok keys o ->
  (forall d, get_item src key = Some (JNum d) -> opt (get_item props key) (fun p => validates n p (JNum d)) = true) ->
  ok keys (copy_number src key o).
Proof.
  intros Ho Hp. unfold copy_number. destruct (get_item src key) as [[]|] eqn:E; try done.
  eapply obj_ok_weaken; [apply obj_ok_add; [done|by apply Hp]|]. rewrite List.Forall_forall. intros k Hk. by right.
Qed.
Lemma ok_add_nonempty key v keys o :
  ok keys o -> (forall s, opt (get_item props key) (fun p => validates n p (JStr s)) = true) ->
  ok keys (add_nonempty key v o).
Proof.
  intros Ho Hp. unfold add_nonempty. destruct (streq v ""); [done|].
  eapply obj_ok_weaken; [by apply obj_ok_add|]. rewrite List.Forall_forall. intros k Hk. by right.
Qed.
Lemma ok_if key v (c : option json) keys o :
  ok keys o -> (forall x, c = Some x -> opt (get_item props key) (fun p => validates n p (v x)) = true) ->
  ok keys match c with Some x => add_item key (v x) o | None => o end.
Proof.
  intros Ho Hp. destruct c as [x|]; [|done].
  eapply obj_ok_weaken; [apply obj_ok_add; [done|by apply Hp]|]. rewrite List.Forall_forall. intros k Hk. by right.
Qed.
End conform.

Lemma of_int_integral z : dbl_of_int z mod one_s = 0.
Proof. unfold dbl_of_int. apply Z_mod_mult. Qed.

Lemma validates_items n items l :
  forallb (validates n items) l = true ->
  validates (S n) (JObj [] |> add_string "type" "array" |> add_item "items" items) (JArr l) = true.
Proof. intros H. cbn. exact H. Qed.

(** Numbers that are integers. *)
Definition integral (v : json) : bool := match v with JNum d => d mod one_s =? 0 | _ => true end.
Definition pids_integral (status : json) : Prop :=
  Forall (fun c => forall v, get_item c "pid" = Some v -> integral v = true) (elements (get_item status "clients")).

(** The members a schema asks for, one by one. *)
Ltac conform_step :=
  idtac; match goal with
  | |- obj_ok _ _ _ (copy_string _ _ _) => apply ok_copy_string; [|by intros]
  | |- obj_ok _ _ _ (copy_number _ _ _) => apply ok_copy_number; [|by intros]
  | |- obj_ok _ _ _ (add_nonempty _ _ _) => apply ok_add_nonempty; [|by intros]
  | |- obj_ok _ _ _ (add_string _ _ _) => apply obj_ok_add; [|try reflexivity]
  | |- obj_ok _ _ _ (add_bool _ _ _) => apply obj_ok_add; [|try reflexivity]
  | |- obj_ok _ _ _ (add_int _ _ _) =>
      apply obj_ok_add; [|cbn; rewrite ?of_int_integral; reflexivity]
  | |- obj_ok _ _ _ (add_number _ _ _) => apply obj_ok_add; [|try reflexivity]
  | |- obj_ok _ _ _ (add_item _ _ _) => apply obj_ok_add; [|try reflexivity]
  | |- obj_ok _ _ _ (JObj []) => apply obj_ok_nil
  end.
Ltac conform_required := rewrite List.Forall_forall; simpl; intuition subst; auto 20.

Lemma client_conforms ci :
  (forall v, get_item ci "pid" = Some v -> integral v = true) ->
  validates 2 (object_schema client_props |> set_required ["name"; "role"]) (client_structured ci) = true.
Proof.
  intros Hp. eapply obj_ok_validates.
  - unfold client_structured. apply ok_copy_number.
    + repeat conform_step.
    + intros d Hd. specialize (Hp _ Hd). simpl in Hp. cbn. by rewrite Hp.
  - conform_required.
Qed.

Lemma port_status_conforms status event :
  pids_integral status ->
  validates 4 port_status_schema (sm_mcp_port_status_structured status event) = true.
Proof.
  intros Hp. eapply obj_ok_validates.
  - unfold sm_mcp_port_status_structured. cbv zeta.
    conform_step; [|apply validates_items; apply forallb_forall; intros x Hx; apply in_map_iff in Hx as (ci & <- & Hin);
      unfold pids_integral in Hp; rewrite List.Forall_forall in Hp; by apply client_conforms, Hp].
    do 3 conform_step.
    assert (forall keys o, obj_ok 3 port_status_props keys o -> obj_ok 3 port_status_props keys
      match get_item status "pin_states" with Some (JObj p) => add_item "pin_states" (JObj p) o | _ => o end) as Hpins.
    { intros keys o Ho. destruct (get_item status "pin_states") as [[]|]; try done.
      eapply obj_ok_weaken; [by apply obj_ok_add|]. rewrite List.Forall_forall. intros k Hk. by right. }
    apply Hpins. clear Hpins.
    assert (forall keys o, obj_ok 3 port_status_props keys o -> obj_ok 3 port_status_props keys
      match given event with Some e => add_string "last_link_event" e o | None => o end) as He.
    { intros keys o Ho. destruct (given event) as [e|]; [|done].
      eapply obj_ok_weaken; [by apply obj_ok_add|]. rewrite List.Forall_forall. intros k Hk. by right. }
    apply He. clear He. do 6 conform_step.
    conform_step; [|by destruct (sm_json_get_string status "takeover_client")]. repeat conform_step.
  - conform_required.
Qed.

Lemma stage_conforms st :
  validates 2 (object_schema stage_props |> set_required ["name"; "reached"]) (stage_structured st) = true.
Proof. eapply obj_ok_validates; [unfold stage_structured; repeat conform_step|conform_required]. Qed.

Lemma boot_status_conforms status :
  validates 4 boot_status_schema (sm_mcp_boot_status_structured status) = true.
Proof.
  eapply obj_ok_validates.
  - unfold sm_mcp_boot_status_structured. cbv zeta.
    conform_step; [|apply validates_items; apply forallb_forall; intros x Hx;
      apply in_map_iff in Hx as (st & <- & _); apply stage_conforms].
    conform_step; [|by destruct (bv_furthest_name (boot_view status))]. do 2 conform_step.
    conform_step; [repeat conform_step|]. unfold boot_view.
    destruct (get_item status "boot") as [[]|]; try reflexivity.
    destruct (scan_stages _ _ _ _ _) as [r nm]. cbn [bv_state].
    by repeat case_match.
  - conform_required.
Qed.

Lemma incident_conforms inc :
  validates 2 (object_schema incident_props
    |> set_required ["pattern_name"; "severity"; "timestamp"; "match_text"; "pre_context"])
    (incident_structured inc) = true.
Proof. eapply obj_ok_validates; [unfold incident_structured; repeat conform_step|conform_required]. Qed.

Lemma incidents_conform incs :
  validates 4 incidents_schema (sm_mcp_incidents_structured incs) = true.
Proof.
  eapply obj_ok_validates.
  - unfold sm_mcp_incidents_structured. conform_step.
    conform_step; [apply obj_ok_nil|]. apply validates_items. apply forallb_forall. intros x Hx.
    apply in_map_iff in Hx as (i & <- & _). apply incident_conforms.
  - conform_required.
Qed.

Lemma port_conforms p :
  validates 2 (object_schema port_props |> set_required ["path"; "vid"; "pid"; "identity"])
    (sm_serial_port_info_to_json p) = true.
Proof.
  eapply obj_ok_validates.
  - unfold sm_serial_port_info_to_json. cbv zeta. conform_step; [repeat conform_step|].
    by repeat case_match.
  - conform_required.
Qed.

Lemma list_ports_conform scan : validates 4 list_ports_schema (fst (sm_mcp_list_ports scan)) = true.
Proof.
  eapply obj_ok_validates.
  - unfold sm_mcp_list_ports, fst. conform_step; [apply obj_ok_nil|]. apply validates_items.
    apply forallb_forall. intros x Hx. apply in_map_iff in Hx as (p & <- & _). apply port_conforms.
  - conform_required.
Qed.

Lemma history_text_conforms text : validates 4 history_schema (sm_mcp_history_text_structured text) = true.
Proof. eapply obj_ok_validates; [unfold sm_mcp_history_text_structured; repeat conform_step|conform_required]. Qed.
