(* ===== verification/SerialTcp.v ===== *)
(** * The serial-over-TCP link ([src/links/serial_tcp.c])

    A socket to a raw or telnet (RFC 854, RFC 2217) serial server.  The socket
    API is the class [TcpEnv]; [st_wire] is the stream of bytes the current
    socket has taken.  The theorems relate the bytes on the wire to the telnet
    grammar in both directions. *)
From S2P Require Import Prelude Cstr Arrays Json Effects LinkWq BrokerState.

#[local] Open Scope string_scope.
#[local] Open Scope list_scope.
#[local] Open Scope Z_scope.

Definition TN_SE : Z := 240.
Definition TN_SB : Z := 250.
Definition TN_WILL : Z := 251.
Definition TN_WONT : Z := 252.
Definition TN_DO : Z := 253.
Definition TN_DONT : Z := 254.
Definition TN_IAC : Z := 255.
Definition TN_COMPORT : Z := 44.

Definition CPC_SET_BAUDRATE : Z := 1.
Definition CPC_SET_DATASIZE : Z := 2.
Definition CPC_SET_PARITY : Z := 3.
Definition CPC_SET_STOPSIZE : Z := 4.
Definition CPC_SET_CONTROL : Z := 5.

Definition CPCTL_FLOW_NONE : Z := 1.
Definition CPCTL_FLOW_XONXOFF : Z := 2.
Definition CPCTL_FLOW_HARDWARE : Z := 3.
Definition CPCTL_BREAK_ON : Z := 4.
Definition CPCTL_BREAK_OFF : Z := 5.
Definition CPCTL_DTR_ON : Z := 6.
Definition CPCTL_DTR_OFF : Z := 7.
Definition CPCTL_RTS_ON : Z := 8.
Definition CPCTL_RTS_OFF : Z := 9.

Inductive telnet_state := TS_DATA | TS_IAC | TS_OPT | TS_SB | TS_SB_IAC.
#[export] Instance telnet_state_eq_dec : EqDecision telnet_state.
Proof. solve_decision. Defined.

(** ** The socket API *)

Inductive connect_res := ConnOk | ConnInProgress | ConnErr.
(** [poll]'s return value, the two groups of [revents] the code looks at, and
    what [getsockopt(SO_ERROR)] then says ([None]: the call fails). *)
Record poll_res := mk_poll {
  pl_ready : Z; pl_out : bool; pl_errhup : bool; pl_so_error : option Z }.

(** Answers to the [n]-th system call of the link. *)
Class TcpEnv := {
  tcp_getaddrinfo : nat -> string -> Z -> option Z;
  tcp_socket : nat -> Z;
  tcp_connect : nat -> Z -> connect_res;
  tcp_poll : nat -> poll_res;
  tcp_writes : nat -> list wres;
  tcp_send : nat -> wres;
  tcp_calloc : nat -> bool;
  tcp_malloc : nat -> bool }.

(** [caddr_valid] is [st_caddr] being [Some]; an invalid address is never
    read. *)
Record serial_tcp_data := mk_st {
  st_host : string; st_port : Z; st_fd : Z; st_wq : sm_link_wq;
  st_tstate : telnet_state; st_topt_cmd : Z; st_rfc2217_active : bool;
  st_caddr : option Z; st_resolve_count : Z;
  st_wire : bytes; st_tick : nat }.

Section ops.
Context {T : TcpEnv}.

Definition st_ticked (d : serial_tcp_data) : serial_tcp_data :=
  {| d with st_tick := S (st_tick d) |}.

(** ** Connecting *)

Definition st_resolve (d : serial_tcp_data) : Z * serial_tcp_data :=
  match st_caddr d with
  | Some _ => (0, d)
  | None =>
      match tcp_getaddrinfo (st_tick d) (st_host d) (st_port d) with
      | None => (-1, st_ticked d)
      | Some a => (0, {| (st_ticked d) with st_caddr := Some a;
                                            st_resolve_count := st_resolve_count d + 1 |})
      end
  end.

Definition st_socket_connect (d : serial_tcp_data) : Z * serial_tcp_data :=
  let fd := tcp_socket (st_tick d) in
  let d := st_ticked d in
  if fd <? 0 then (-1, d) else
  let d := {| d with st_fd := fd; st_tstate := TS_DATA; st_rfc2217_active := false;
                     st_wire := [] |} in
  let r := tcp_connect (st_tick d) (default 0 (st_caddr d)) in
  let d := st_ticked d in
  match r with
  | ConnOk => (0, d)
  | ConnInProgress => (1, d)
  | ConnErr => (-1, {| d with st_fd := -1 |})
  end.

Definition st_open (d : serial_tcp_data) : Z * serial_tcp_data :=
  let '(rr, d) := st_resolve d in
  if negb (rr =? 0) then (-1, d) else
  let '(rc, d) := st_socket_connect d in
  if rc <? 0 then (-1, {| d with st_caddr := None |}) else
  if rc =? 0 then (0, d) else
  let p := tcp_poll (st_tick d) in
  let d := st_ticked d in
  if (0 <? pl_ready p) && pl_out p && bool_decide (pl_so_error p = Some 0) then (0, d)
  else (-1, {| d with st_fd := -1; st_caddr := None |}).

Definition st_connect_begin (d : serial_tcp_data) : Z * serial_tcp_data :=
  let '(rr, d) := st_resolve d in
  if negb (rr =? 0) then (-1, d) else
  let '(rc, d) := st_socket_connect d in
  if rc <? 0 then (rc, {| d with st_caddr := None |}) else (rc, d).

Definition st_connect_poll (d : serial_tcp_data) : Z * serial_tcp_data :=
  if st_fd d <? 0 then (-1, d) else
  let p := tcp_poll (st_tick d) in
  let d := st_ticked d in
  if pl_ready p <=? 0 then (0, d) else
  if pl_errhup p || negb (bool_decide (pl_so_error p = Some 0))
  then (-1, {| d with st_caddr := None |}) else (1, d).

Definition st_close (d : serial_tcp_data) : serial_tcp_data :=
  if st_fd d <? 0 then d else
  {| d with st_wq := sm_link_wq_clear (st_wq d); st_fd := -1 |}.

Definition st_read_fd (d : serial_tcp_data) : Z := st_fd d.
Definition st_write_fd (d : serial_tcp_data) : Z := st_fd d.
Definition st_has_write_pending (d : serial_tcp_data) : bool := sm_link_wq_has_pending (st_wq d).

(** ** Sending *)

Definition st_flush_write_queue (d : serial_tcp_data) : Z * serial_tcp_data :=
  if st_fd d <? 0 then (-1, d) else
  let '(rc, wq, out, _) := sm_link_wq_flush (st_wq d) (tcp_writes (st_tick d)) in
  (rc, {| (st_ticked d) with st_wq := wq; st_wire := st_wire d ++ out |}).

Definition raw_send (data : bytes) (d : serial_tcp_data) : Z * serial_tcp_data :=
  let n := st_tick d in
  let '(rc, wq, out, _) :=
    sm_link_wq_write (tcp_calloc n) (tcp_malloc n) (st_wq d) data (tcp_writes n) in
  (rc, {| (st_ticked d) with st_wq := wq; st_wire := st_wire d ++ out |}).

(** The copy loop of [st_write] and of [comport_send]. *)
Fixpoint iac_escape (data : bytes) : bytes :=
  match data with
  | [] => []
  | c :: data' => if c =? TN_IAC then c :: TN_IAC :: iac_escape data' else c :: iac_escape data'
  end.

Definition st_write (data : bytes) (d : serial_tcp_data) : Z * serial_tcp_data :=
  if st_fd d <? 0 then (-1, d) else
  match find_index TN_IAC data with
  | None => raw_send data d
  | Some _ =>
      let ok := tcp_malloc (st_tick d) in
      let d := st_ticked d in
      if negb ok then (-1, d) else raw_send (iac_escape data) d
  end.

(** [send(fd, resp, 3, MSG_NOSIGNAL)], its result ignored. *)
Definition tn_reply (resp : bytes) (d : serial_tcp_data) : serial_tcp_data :=
  if st_fd d <? 0 then d else
  let took := match fst (sys_write resp [tcp_send (st_tick d)]) with
              | WBytes n => ztake n resp | _ => [] end in
  {| (st_ticked d) with st_wire := st_wire d ++ took |}.

Definition telnet_refuse (cmd opt : Z) (d : serial_tcp_data) : serial_tcp_data :=
  if cmd =? TN_DO then tn_reply [TN_IAC; TN_WONT; opt] d
  else if cmd =? TN_WILL then tn_reply [TN_IAC; TN_DONT; opt] d
  else d.

Definition telnet_comport (cmd : Z) (d : serial_tcp_data) : serial_tcp_data :=
  if cmd =? TN_DO then
    tn_reply [TN_IAC; TN_WILL; TN_COMPORT] {| d with st_rfc2217_active := true |}
  else if cmd =? TN_DONT then {| d with st_rfc2217_active := false |}
  else d.

Definition comport_frame (cmd : Z) (val : bytes) : bytes :=
  [TN_IAC; TN_SB; TN_COMPORT; cmd] ++ iac_escape val ++ [TN_IAC; TN_SE].

Definition comport_send (cmd : Z) (val : bytes) (d : serial_tcp_data) : Z * serial_tcp_data :=
  if (st_fd d <? 0) || negb (st_rfc2217_active d) then (-1, d)
  else raw_send (comport_frame cmd val) d.

(** ** Receiving *)

(** One turn of the loop of [st_filter_rx]: what is written to [out]. *)
Definition st_filter_byte (c : Z) (d : serial_tcp_data) : bytes * serial_tcp_data :=
  match st_tstate d with
  | TS_DATA =>
      if c =? TN_IAC then ([], {| d with st_tstate := TS_IAC |}) else ([c], d)
  | TS_IAC =>
      if c =? TN_IAC then ([TN_IAC], {| d with st_tstate := TS_DATA |})
      else if (c =? TN_WILL) || (c =? TN_WONT) || (c =? TN_DO) || (c =? TN_DONT)
      then ([], {| d with st_topt_cmd := c; st_tstate := TS_OPT |})
      else if c =? TN_SB then ([], {| d with st_tstate := TS_SB |})
      else ([], {| d with st_tstate := TS_DATA |})
  | TS_OPT =>
      let d := if c =? TN_COMPORT then telnet_comport (st_topt_cmd d) d
               else telnet_refuse (st_topt_cmd d) c d in
      ([], {| d with st_tstate := TS_DATA |})
  | TS_SB => if c =? TN_IAC then ([], {| d with st_tstate := TS_SB_IAC |}) else ([], d)
  | TS_SB_IAC =>
      if c =? TN_SE then ([], {| d with st_tstate := TS_DATA |})
      else ([], {| d with st_tstate := TS_SB |})
  end.

Fixpoint st_filter_rx (input : bytes) (d : serial_tcp_data) : bytes * serial_tcp_data :=
  match input with
  | [] => ([], d)
  | c :: input' =>
      let '(o1, d1) := st_filter_byte c d in
      let '(o2, d2) := st_filter_rx input' d1 in (o1 ++ o2, d2)
  end.

(** ** Control *)

Definition st_send_break (duration_ms : Z) (d : serial_tcp_data) : Z * serial_tcp_data := (-1, d).

Definition baud_value (b : Z) : bytes :=
  [u8 (Z.shiftr b 24); u8 (Z.shiftr b 16); u8 (Z.shiftr b 8); u8 b].

Definition st_set_param (key value : string) (d : serial_tcp_data) : Z * serial_tcp_data :=
  if (st_fd d <? 0) || negb (st_rfc2217_active d) then (-1, d) else
  let v := bytes_of_string value in
  if streq key "baud" then
    let '(b, endp) := strtol10 v in
    if bool_decide (endp <> []) || (b <=? 0) || (4000000 <? b) then (-1, d)
    else comport_send CPC_SET_BAUDRATE (baud_value b) d
  else if streq key "data_bits" then
    let db := atoi v in
    if (db <? 5) || (8 <? db) then (-1, d) else comport_send CPC_SET_DATASIZE [u8 db] d
  else if streq key "parity" then
    if streq value "none" then comport_send CPC_SET_PARITY [1] d
    else if streq value "odd" then comport_send CPC_SET_PARITY [2] d
    else if streq value "even" then comport_send CPC_SET_PARITY [3] d
    else (-1, d)
  else if streq key "stop_bits" then
    let sb := atoi v in
    if negb (sb =? 1) && negb (sb =? 2) then (-1, d) else comport_send CPC_SET_STOPSIZE [u8 sb] d
  else if streq key "flow_control" then
    if streq value "none" then comport_send CPC_SET_CONTROL [CPCTL_FLOW_NONE] d
    else if streq value "xonxoff" then comport_send CPC_SET_CONTROL [CPCTL_FLOW_XONXOFF] d
    else if streq value "rtscts" then comport_send CPC_SET_CONTROL [CPCTL_FLOW_HARDWARE] d
    else (-1, d)
  else
    match (if streq value "set" || streq value "1" then Some true
           else if streq value "clear" || streq value "0" then Some false else None) with
    | None => (-1, d)
    | Some on =>
        if streq key "dtr" then
          comport_send CPC_SET_CONTROL [if on then CPCTL_DTR_ON else CPCTL_DTR_OFF] d
        else if streq key "rts" then
          comport_send CPC_SET_CONTROL [if on then CPCTL_RTS_ON else CPCTL_RTS_OFF] d
        else if streq key "break" then
          comport_send CPC_SET_CONTROL [if on then CPCTL_BREAK_ON else CPCTL_BREAK_OFF] d
        else (-1, d)
    end.

Definition st_get_status (d : serial_tcp_data) : list (string * json) :=
  [("link_type", JStr "serial-tcp"); ("host", JStr (st_host d));
   ("port", JNum (dbl_of_int (st_port d))); ("connected", JBool (0 <=? st_fd d));
   ("rfc2217", JBool (st_rfc2217_active d));
   ("addr_cached", JBool (bool_decide (is_Some (st_caddr d))));
   ("resolve_count", JNum (dbl_of_int (st_resolve_count d)))].

Definition sm_serial_tcp_new (host : string) (port : Z) : serial_tcp_data :=
  mk_st (snprintf_s 256 host) port (-1) sm_link_wq_init TS_DATA 0 false None 0 [] 0.

(** The vtable [sm_serial_tcp_new] fills in. *)
Definition serial_tcp_link : LinkOps := {|
  link_state := serial_tcp_data;
  link_open := st_open;
  link_close := st_close;
  link_read_fd := st_read_fd;
  link_write_data := st_write;
  link_flush_write_queue := Some st_flush_write_queue;
  link_send_break := st_send_break;
  link_set_param := st_set_param;
  link_get_status := st_get_status;
  link_connect_begin := Some st_connect_begin;
  link_connect_poll := Some st_connect_poll;
  link_filter_rx := Some st_filter_rx;
  link_silence_normal := false |}.
End ops.

(** ** The telnet grammar (RFC 854) *)

(** Inside a subnegotiation: a byte, or [IAC] and what follows it. *)
Inductive sub_item := SByte (b : Z) | SEsc (x : Z).
Inductive tn_token :=
  | TData (b : Z)                    (* a data byte *)
  | TLit                             (* IAC IAC: the data byte 255 *)
  | TCmd (c : Z)                     (* a two-byte command *)
  | TNeg (cmd opt : Z)               (* WILL, WONT, DO or DONT an option *)
  | TSub (items : list sub_item).    (* SB ... SE *)

Definition item_encode (i : sub_item) : bytes :=
  match i with SByte b => [b] | SEsc x => [TN_IAC; x] end.
Definition item_wf (i : sub_item) : Prop :=
  match i with SByte b => b <> TN_IAC | SEsc x => x <> TN_SE end.
Definition is_neg (c : Z) : bool :=
  (c =? TN_WILL) || (c =? TN_WONT) || (c =? TN_DO) || (c =? TN_DONT).

Definition tn_encode (t : tn_token) : bytes :=
  match t with
  | TData b => [b]
  | TLit => [TN_IAC; TN_IAC]
  | TCmd c => [TN_IAC; c]
  | TNeg cmd opt => [TN_IAC; cmd; opt]
  | TSub items => [TN_IAC; TN_SB] ++ flat_map item_encode items ++ [TN_IAC; TN_SE]
  end.
Definition tn_wf (t : tn_token) : Prop :=
  match t with
  | TData b => b <> TN_IAC
  | TLit => True
  | TCmd c => c <> TN_IAC /\ c <> TN_SB /\ is_neg c = false
  | TNeg cmd _ => is_neg cmd = true
  | TSub items => Forall item_wf items
  end.
(** The payload of a token. *)
Definition tn_data (t : tn_token) : bytes :=
  match t with TData b => [b] | TLit => [TN_IAC] | _ => [] end.
(** Whether RFC 2217 control is negotiated, after a token. *)
Definition tn_comport (on : bool) (t : tn_token) : bool :=
  match t with
  | TNeg cmd opt =>
      if opt =? TN_COMPORT then
        if cmd =? TN_DO then true else if cmd =? TN_DONT then false else on
      else on
  | _ => on
  end.

Abbreviation tn_bytes := (flat_map tn_encode) (only parsing).
Abbreviation tn_payload := (flat_map tn_data) (only parsing).

(** A token that is not complete yet leaves the parser in this state. *)
Inductive tn_tail : telnet_state -> bytes -> Prop :=
  | tail_none : tn_tail TS_DATA []
  | tail_iac : tn_tail TS_IAC [TN_IAC]
  | tail_opt cmd : is_neg cmd = true -> tn_tail TS_OPT [TN_IAC; cmd]
  | tail_sb items : Forall item_wf items ->
      tn_tail TS_SB ([TN_IAC; TN_SB] ++ flat_map item_encode items)
  | tail_sb_iac items : Forall item_wf items ->
      tn_tail TS_SB_IAC ([TN_IAC; TN_SB] ++ flat_map item_encode items ++ [TN_IAC]).

Section filter.
Context {T : TcpEnv}.

(** How a link receives a stream in pieces. *)
Fixpoint filter_chunks (chunks : list bytes) (d : serial_tcp_data) : list bytes * serial_tcp_data :=
  match chunks with
  | [] => ([], d)
  | c :: chunks' =>
      let '(o, d1) := st_filter_rx c d in
      let '(os, d2) := filter_chunks chunks' d1 in (o :: os, d2)
  end.

Lemma st_filter_rx_app a b d :
  st_filter_rx (a ++ b) d =
  let '(o1, d1) := st_filter_rx a d in let '(o2, d2) := st_filter_rx b d1 in (o1 ++ o2, d2).
Proof.
  revert d. induction a as [|c a IH]; intros d; simpl; [by destruct (st_filter_rx b d)|].
  destruct (st_filter_byte c d) as [o0 d0]. rewrite IH. destruct (st_filter_rx a d0) as [o1 d1].
  destruct (st_filter_rx b d1) as [o2 d2]. by rewrite app_assoc.
Qed.

Lemma filter_chunks_concat chunks d :
  st_filter_rx (mjoin chunks) d =
  (mjoin (fst (filter_chunks chunks d)), snd (filter_chunks chunks d)).
Proof.
  revert d. induction chunks as [|c chunks IH]; intros d; simpl; [done|].
  change (mjoin (c :: chunks)) with (c ++ mjoin chunks). rewrite st_filter_rx_app.
  destruct (st_filter_rx c d) as [o1 d1]. rewrite IH.
  by destruct (filter_chunks chunks d1) as [os d2].
Qed.

(** Replies and options do not touch what the parser works on. *)
Lemma telnet_comport_spec cmd d :
  st_tstate (telnet_comport cmd d) = st_tstate d /\
  st_rfc2217_active (telnet_comport cmd d) =
    if cmd =? TN_DO then true else if cmd =? TN_DONT then false else st_rfc2217_active d.
Proof. unfold telnet_comport, tn_reply. repeat (destruct (_ =? _); simpl); repeat (destruct (_ <? _)); done. Qed.
Lemma telnet_refuse_spec cmd opt d :
  st_tstate (telnet_refuse cmd opt d) = st_tstate d /\
  st_rfc2217_active (telnet_refuse cmd opt d) = st_rfc2217_active d.
Proof. unfold telnet_refuse, tn_reply. repeat (destruct (_ =? _); simpl); repeat (destruct (_ <? _)); done. Qed.

(** The input so far, its tokens and what the parser has made of them. *)
Record parsed (on : bool) (s : bytes) (o : bytes) (d : serial_tcp_data)
    (ts : list tn_token) (tail : bytes) : Prop := {
  pa_wf : Forall tn_wf ts;
  pa_input : s = tn_bytes ts ++ tail;
  pa_tail : tn_tail (st_tstate d) tail;
  pa_opt : st_tstate d = TS_OPT -> tail = [TN_IAC; st_topt_cmd d];
  pa_output : o = tn_payload ts;
  pa_comport : st_rfc2217_active d = fold_left tn_comport ts on }.

Lemma flat_map_snoc {A B} (f : A -> list B) l x : flat_map f (l ++ [x]) = flat_map f l ++ f x.
Proof. rewrite flat_map_app. simpl. by rewrite app_nil_r. Qed.

Lemma parsed_token on s o d ts tail c d' t :
  parsed on s o d ts tail -> tn_wf t -> tail ++ [c] = tn_encode t -> st_tstate d' = TS_DATA ->
  st_rfc2217_active d' = tn_comport (st_rfc2217_active d) t ->
  parsed on (s ++ [c]) (o ++ tn_data t) d' (ts ++ [t]) [].
Proof.
  intros [H1 H2 H3 _ H4 H5] Hw He Hs Hr. split.
  - by apply Forall_app; split; [|constructor].
  - by rewrite flat_map_snoc, app_nil_r, <- He, app_assoc, H2.
  - rewrite Hs. constructor.
  - by rewrite Hs.
  - by rewrite flat_map_snoc, H4.
  - by rewrite fold_left_app, Hr, <- H5.
Qed.

Lemma parsed_tail on s o d ts tail c d' :
  parsed on s o d ts tail -> tn_tail (st_tstate d') (tail ++ [c]) ->
  (st_tstate d' = TS_OPT -> tail ++ [c] = [TN_IAC; st_topt_cmd d']) ->
  st_rfc2217_active d' = st_rfc2217_active d ->
  parsed on (s ++ [c]) o d' ts (tail ++ [c]).
Proof. intros [H1 H2 H3 _ H4 H5] Ht Ho Hr. split; [done|by rewrite H2, app_assoc|done..|congruence]. Qed.

Lemma sub_snoc st items i :
  Forall item_wf items -> item_wf i -> st = TS_SB ->
  tn_tail st ([TN_IAC; TN_SB] ++ flat_map item_encode items ++ item_encode i).
Proof.
  intros H1 H2 ->. rewrite <- flat_map_snoc. constructor. by apply Forall_app; split; [|constructor].
Qed.

(** One byte. *)
Lemma st_filter_byte_parsed on s o d ts tail c :
  parsed on s o d ts tail ->
  let '(o1, d1) := st_filter_byte c d in
  exists ts' tail', parsed on (s ++ [c]) (o ++ o1) d1 ts' tail'.
Proof.
  intros H. pose proof (pa_tail _ _ _ _ _ _ H) as Ht. unfold st_filter_byte.
  destruct (st_tstate d) eqn:Es; inversion Ht; subst.
  - destruct (Z.eqb_spec c TN_IAC) as [->|Hc].
    + rewrite app_nil_r. eexists _, _. apply (parsed_tail _ _ _ _ _ _ _ _ H); [constructor|done..].
    + eexists _, _. by apply (parsed_token _ _ _ _ _ _ _ _ (TData c) H).
  - destruct (Z.eqb_spec c TN_IAC) as [->|Hc].
    { eexists _, _. by apply (parsed_token _ _ _ _ _ _ _ _ TLit H). }
    destruct (is_neg c) eqn:En; unfold is_neg in En; rewrite En.
    { rewrite app_nil_r. eexists _, _. apply (parsed_tail _ _ _ _ _ _ _ _ H); [by constructor|done..]. }
    destruct (Z.eqb_spec c TN_SB) as [->|Hsb].
    + rewrite app_nil_r. eexists _, _. apply (parsed_tail _ _ _ _ _ _ _ _ H); [by apply (tail_sb [])|done..].
    + eexists _, _. by apply (parsed_token _ _ _ _ _ _ _ _ (TCmd c) H).
  - pose proof (pa_opt _ _ _ _ _ _ H Es) as Hcmd. injection Hcmd as ->.
    destruct (telnet_comport_spec (st_topt_cmd d) d) as [_ Hr1].
    destruct (telnet_refuse_spec (st_topt_cmd d) c d) as [_ Hr2].
    eexists _, _. apply (parsed_token _ _ _ _ _ _ _ _ (TNeg (st_topt_cmd d) c) H); simpl; try done.
    by destruct (Z.eqb_spec c TN_COMPORT).
  - destruct (Z.eqb_spec c TN_IAC) as [->|Hc]; rewrite app_nil_r; eexists _, _;
      apply (parsed_tail _ _ _ _ _ _ _ _ H); simpl; try done; try congruence.
    + by constructor.
    + by apply (sub_snoc _ items (SByte c)).
  - destruct (Z.eqb_spec c TN_SE) as [->|Hc].
    + eexists _, _. apply (parsed_token _ _ _ _ _ _ _ _ (TSub items) H); simpl; try done.
      by rewrite <- app_assoc.
    + rewrite app_nil_r. eexists _, _. apply (parsed_tail _ _ _ _ _ _ _ _ H); simpl; try done.
      rewrite <- app_assoc. by apply (sub_snoc _ items (SEsc c)).
Qed.

Lemma st_filter_rx_parsed input on s o d ts tail :
  parsed on s o d ts tail ->
  let '(o1, d1) := st_filter_rx input d in
  exists ts' tail', parsed on (s ++ input) (o ++ o1) d1 ts' tail'.
Proof.
  revert s o d ts tail. induction input as [|c input IH]; intros s o d ts tail H; simpl.
  { rewrite !app_nil_r. by eexists _, _. }
  pose proof (st_filter_byte_parsed on s o d ts tail c H) as Hb.
  destruct (st_filter_byte c d) as [o1 d1]. destruct Hb as (ts1 & tail1 & H1).
  specialize (IH _ _ _ _ _ H1). destruct (st_filter_rx input d1) as [o2 d2].
  by rewrite <- !app_assoc in IH.
Qed.

Lemma st_filter_byte_length c d : zlen (fst (st_filter_byte c d)) <= 1.
Proof. unfold st_filter_byte. by destruct (st_tstate d); repeat destruct (_ =? _); simpl; repeat destruct (_ || _). Qed.
Lemma st_filter_rx_length input d : zlen (fst (st_filter_rx input d)) <= zlen input.
Proof.
  revert d. induction input as [|c input IH]; intros d; [done|]. simpl.
  pose proof (st_filter_byte_length c d) as H. destruct (st_filter_byte c d) as [o1 d1].
  specialize (IH d1). destruct (st_filter_rx input d1) as [o2 d2]. simpl in *. zlia.
Qed.

Lemma telnet_filter_parsed d input :
  st_tstate d = TS_DATA ->
  exists ts tail, Forall tn_wf ts /\ input = tn_bytes ts ++ tail /\
    tn_tail (st_tstate (snd (st_filter_rx input d))) tail /\ fst (st_filter_rx input d) = tn_payload ts.
Proof.
  intros Hs. pose proof (st_filter_rx_parsed input (st_rfc2217_active d) [] [] d [] []) as H.
  destruct (st_filter_rx input d) as [o d'].
  destruct H as (ts & tail & [H1 H2 H3 _ H4 _]); [split; try done; rewrite Hs; [constructor|done]|].
  by exists ts, tail.
Qed.

(** C16: the receive filter is a telnet parser, whatever arrives and however it
    is cut into reads.  The bytes received are the encoding of a sequence of
    telnet tokens and of one unfinished token; what the filter passes on is
    exactly the payload of these tokens, RFC 2217 control is on exactly when
    the last COM-PORT request among them said DO, and the parser is back in its
    data state exactly when no token is unfinished.  No call writes more than
    it was given. *)
Theorem telnet_filter_exact d chunks :
  st_tstate d = TS_DATA ->
  let '(outs, d') := filter_chunks chunks d in
  exists ts tail,
    Forall tn_wf ts /\ tn_tail (st_tstate d') tail /\ mjoin chunks = tn_bytes ts ++ tail /\
    mjoin outs = tn_payload ts /\
    st_rfc2217_active d' = fold_left tn_comport ts (st_rfc2217_active d) /\
    (st_tstate d' = TS_DATA <-> tail = []) /\
    Forall2 (fun o c => zlen o <= zlen c) outs chunks.
Proof.
  intros Hs. pose proof (st_filter_rx_parsed (mjoin chunks) (st_rfc2217_active d) [] [] d [] []) as H.
  rewrite filter_chunks_concat in H.
  assert (Forall2 (fun o c => zlen o <= zlen c) (fst (filter_chunks chunks d)) chunks) as Hl.
  { clear. revert d. induction chunks as [|c chunks IH]; intros d; simpl; [constructor|].
    pose proof (st_filter_rx_length c d). destruct (st_filter_rx c d) as [o1 d1]. specialize (IH d1).
    destruct (filter_chunks chunks d1) as [os d2]. by constructor. }
  destruct (filter_chunks chunks d) as [outs d']. simpl in *.
  destruct H as (ts & tail & [H1 H2 H3 _ H4 H5]); [split; try done; rewrite Hs; [constructor|done]|].
  exists ts, tail. split_and!; try done. destruct H3; done.
Qed.
End filter.

(** ** What the server reads *)

Definition data_token (b : Z) : tn_token := if b =? TN_IAC then TLit else TData b.
Definition value_items (b : Z) : list sub_item := if b =? TN_IAC then [SEsc TN_IAC] else [SByte b].

Lemma iac_escape_tokens data : iac_escape data = tn_bytes (map data_token data).
Proof.
  induction data as [|c data IH]; [done|]. simpl. unfold data_token at 1.
  destruct (Z.eqb_spec c TN_IAC) as [->|]; simpl; by rewrite IH.
Qed.
Lemma iac_escape_items val : iac_escape val = flat_map item_encode (flat_map value_items val).
Proof.
  induction val as [|c val IH]; [done|]. simpl. unfold value_items at 1.
  destruct (Z.eqb_spec c TN_IAC) as [->|]; simpl; by rewrite IH.
Qed.
Lemma iac_escape_none data : find_index TN_IAC data = None -> iac_escape data = data.
Proof.
  unfold find_index. generalize 0. induction data as [|c data IH]; intros i; [done|].
  cbn [find_index_from iac_escape]. rewrite (Z.eqb_sym TN_IAC c). destruct (c =? TN_IAC); [done|]. intros H. by rewrite (IH _ H).
Qed.
Lemma data_tokens_wf data : Forall tn_wf (map data_token data).
Proof. apply Forall_map, Forall_true. intros b. unfold data_token. by destruct (Z.eqb_spec b TN_IAC). Qed.
Lemma data_tokens_payload data : tn_payload (map data_token data) = data.
Proof.
  induction data as [|c data IH]; [done|]. simpl. rewrite IH. unfold data_token.
  by destruct (Z.eqb_spec c TN_IAC) as [->|].
Qed.

Definition comport_token (cmd : Z) (val : bytes) : tn_token :=
  TSub (SByte TN_COMPORT :: SByte cmd :: flat_map value_items val).

Lemma comport_frame_token cmd val : comport_frame cmd val = tn_encode (comport_token cmd val).
Proof. unfold comport_frame, comport_token. simpl. by rewrite iac_escape_items. Qed.
Lemma value_items_wf val : Forall item_wf (flat_map value_items val).
Proof.
  induction val as [|c val IH]; [constructor|]. simpl. apply Forall_app. split; [|done].
  unfold value_items. destruct (Z.eqb_spec c TN_IAC); by constructor.
Qed.

(** A serial port setting, as a client names it and as an RFC 2217 server
    reads it from the body of a subnegotiation. *)
Inductive setting :=
  | SetBaud (b : Z) | SetDataBits (n : Z) | SetParity (p : string) | SetStopBits (n : Z)
  | SetFlow (f : string) | SetLine (pin : string) (on : bool).

Inductive asked : string -> string -> setting -> Prop :=
  | ask_baud v b : strtol10 (bytes_of_string v) = (b, []) -> 0 < b <= 4000000 ->
      asked "baud" v (SetBaud b)
  | ask_data_bits v : 5 <= atoi (bytes_of_string v) <= 8 ->
      asked "data_bits" v (SetDataBits (atoi (bytes_of_string v)))
  | ask_parity v : asked "parity" v (SetParity v)
  | ask_stop_bits v : 1 <= atoi (bytes_of_string v) <= 2 ->
      asked "stop_bits" v (SetStopBits (atoi (bytes_of_string v)))
  | ask_flow v : asked "flow_control" v (SetFlow v)
  | ask_on pin v : v = "set" \/ v = "1" -> asked pin v (SetLine pin true)
  | ask_off pin v : v = "clear" \/ v = "0" -> asked pin v (SetLine pin false).

Definition item_byte (i : sub_item) : Z := match i with SByte b => b | SEsc x => x end.
Definition server_reads (t : tn_token) : option setting :=
  match t with
  | TSub items =>
      match map item_byte items with
      | [44; 1; a; b; c; d] => Some (SetBaud (((a * 256 + b) * 256 + c) * 256 + d))
      | [44; 2; n] => Some (SetDataBits n)
      | [44; 3; 1] => Some (SetParity "none")
      | [44; 3; 2] => Some (SetParity "odd")
      | [44; 3; 3] => Some (SetParity "even")
      | [44; 4; n] => Some (SetStopBits n)
      | [44; 5; 1] => Some (SetFlow "none")
      | [44; 5; 2] => Some (SetFlow "xonxoff")
      | [44; 5; 3] => Some (SetFlow "rtscts")
      | [44; 5; 4] => Some (SetLine "break" true)
      | [44; 5; 5] => Some (SetLine "break" false)
      | [44; 5; 6] => Some (SetLine "dtr" true)
      | [44; 5; 7] => Some (SetLine "dtr" false)
      | [44; 5; 8] => Some (SetLine "rts" true)
      | [44; 5; 9] => Some (SetLine "rts" false)
      | _ => None
      end
  | _ => None
  end.

Lemma value_items_bytes val : map item_byte (flat_map value_items val) = val.
Proof.
  induction val as [|c val IH]; [done|]. simpl. rewrite map_app, IH. unfold value_items.
  by destruct (Z.eqb_spec c TN_IAC) as [->|].
Qed.

Lemma baud_value_spec b :
  0 <= b < 4294967296 ->
  match baud_value b with
  | [w; x; y; z] => ((w * 256 + x) * 256 + y) * 256 + z = b
  | _ => False
  end.
Proof.
  intros Hb. unfold baud_value, u8. rewrite !Z.shiftr_div_pow2 by lia.
  change (2 ^ 24) with 16777216. change (2 ^ 16) with 65536. change (2 ^ 8) with 256. zdivmod.
Qed.

Section outbound.
Context {T : TcpEnv}.

(** All that has been accepted for the wire on this connection. *)
Definition st_out (d : serial_tcp_data) : bytes := st_wire d ++ wq_pending (st_wq d).

Lemma raw_send_spec data d d' :
  wq_wf (st_wq d) -> raw_send data d = (0, d') ->
  wq_wf (st_wq d') /\ st_out d' = st_out d ++ data.
Proof.
  intros Hwf. unfold raw_send, st_out.
  pose proof (wq_write_spec (tcp_calloc (st_tick d)) (tcp_malloc (st_tick d)) (st_wq d) data
                (tcp_writes (st_tick d)) Hwf) as H.
  destruct (sm_link_wq_write _ _ _ _ _) as [[[rc wq] out] env]. destruct H as (H1 & H2 & _).
  intros [= -> <-]. simpl. split; [done|]. by rewrite <- !app_assoc, H2.
Qed.

Lemma st_write_out data d d' :
  wq_wf (st_wq d) -> st_write data d = (0, d') ->
  wq_wf (st_wq d') /\ st_out d' = st_out d ++ tn_bytes (map data_token data).
Proof.
  intros Hwf. unfold st_write. destruct (_ <? _); [done|]. rewrite <- iac_escape_tokens.
  destruct (find_index TN_IAC data) eqn:Ef.
  - destruct (tcp_malloc _); [|done]. by apply (raw_send_spec _ (st_ticked d)).
  - rewrite (iac_escape_none data Ef). by apply raw_send_spec.
Qed.

Lemma comport_send_out cmd val d d' :
  wq_wf (st_wq d) -> comport_send cmd val d = (0, d') ->
  wq_wf (st_wq d') /\ st_out d' = st_out d ++ tn_encode (comport_token cmd val).
Proof.
  intros Hwf. unfold comport_send. destruct (_ || _); [done|].
  rewrite <- comport_frame_token. by apply raw_send_spec.
Qed.

Lemma st_flush_out d rc d' :
  wq_wf (st_wq d) -> st_flush_write_queue d = (rc, d') ->
  wq_wf (st_wq d') /\ st_out d' = st_out d.
Proof.
  intros Hwf. unfold st_flush_write_queue, st_out. destruct (_ <? _); [by intros [= <- <-]|].
  pose proof (wq_flush_spec (st_wq d) (tcp_writes (st_tick d)) Hwf) as H.
  destruct (sm_link_wq_flush _ _) as [[[rc' wq] out] env]. destruct H as (H1 & H2 & _).
  intros [= <- <-]. simpl. split; [done|]. by rewrite <- app_assoc, H2.
Qed.

Lemma set_line_asked key v on :
  (if streq v "set" || streq v "1" then Some true
   else if streq v "clear" || streq v "0" then Some false else None) = Some on ->
  asked key v (SetLine key on).
Proof.
  destruct (streq v "set" || streq v "1") eqn:E1.
  { intros [= <-]. constructor. apply orb_true_iff in E1 as [H|H]; apply streq_spec in H; auto. }
  destruct (streq v "clear" || streq v "0") eqn:E2; [|done].
  intros [= <-]. constructor. apply orb_true_iff in E2 as [H|H]; apply streq_spec in H; auto.
Qed.

(** A setting that is accepted goes out as one subnegotiation that says it. *)
Lemma st_set_param_out key value d d' :
  wq_wf (st_wq d) -> st_set_param key value d = (0, d') ->
  wq_wf (st_wq d') /\ exists t s, tn_wf t /\ tn_data t = [] /\ st_out d' = st_out d ++ tn_encode t /\
    server_reads t = Some s /\ asked key value s.
Proof.
  intros Hwf. unfold st_set_param. destruct (_ || _); [done|].
  assert (forall cmd val s,
    cmd <> TN_IAC -> server_reads (comport_token cmd val) = Some s -> asked key value s ->
    comport_send cmd val d = (0, d') ->
    wq_wf (st_wq d') /\ exists t s, tn_wf t /\ tn_data t = [] /\ st_out d' = st_out d ++ tn_encode t /\
      server_reads t = Some s /\ asked key value s) as Hsend.
  { intros cmd val s Hc Hr Ha Hs. destruct (comport_send_out _ _ _ _ Hwf Hs) as [H1 H2].
    split; [done|]. exists (comport_token cmd val), s. split_and!; [|done|exact H2|done|done].
    constructor; [done|]. constructor; [done|]. apply value_items_wf. }
  destruct (streq key "baud") eqn:E1.
  { apply streq_spec in E1 as ->. destruct (strtol10 _) as [b endp] eqn:Eb.
    destruct (bool_decide_reflect (endp <> [])) as [|He]; [done|]. simpl.
    destruct (Z.leb_spec b 0); [done|]. destruct (Z.ltb_spec 4000000 b); [done|]. simpl.
    apply (Hsend _ _ (SetBaud b)); [done| |].
    - pose proof (baud_value_spec b ltac:(lia)) as Hv. unfold comport_token, server_reads.
      cbn [map item_byte]. rewrite value_items_bytes. unfold baud_value in *. by rewrite Hv.
    - constructor; [|lia]. destruct endp; [done|]. by destruct He. }
  destruct (streq key "data_bits") eqn:E2.
  { apply streq_spec in E2 as ->. destruct (Z.ltb_spec (atoi (bytes_of_string value)) 5); [done|].
    destruct (Z.ltb_spec 8 (atoi (bytes_of_string value))); [done|]. simpl orb. cbv iota.
    rewrite u8_small by (unfold is_byte; lia).
    apply (Hsend _ _ (SetDataBits (atoi (bytes_of_string value)))); [done| |constructor; lia].
    unfold comport_token, server_reads. cbn [map item_byte]. by rewrite value_items_bytes. }
  destruct (streq key "parity") eqn:E3.
  { apply streq_spec in E3 as ->. streq_cases value; try done; by eapply Hsend; [|reflexivity|constructor]. }
  destruct (streq key "stop_bits") eqn:E4.
  { apply streq_spec in E4 as ->. set (sb := atoi _) in *.
    destruct (negb (sb =? 1) && negb (sb =? 2)) eqn:Eb; [done|].
    assert (1 <= sb <= 2) as Hsb by (destruct (Z.eqb_spec sb 1), (Z.eqb_spec sb 2); simpl in *; lia || done).
    rewrite u8_small by (unfold is_byte; lia).
    apply (Hsend _ _ (SetStopBits sb)); [done| |by constructor].
    unfold comport_token, server_reads. cbn [map item_byte]. by rewrite value_items_bytes. }
  destruct (streq key "flow_control") eqn:E5.
  { apply streq_spec in E5 as ->. streq_cases value; try done; by eapply Hsend; [|reflexivity|constructor]. }
  destruct (if _ || _ then _ else _) as [on|] eqn:Eon; [|done].
  pose proof (set_line_asked key value on Eon) as Ha.
  streq_cases key; try done; destruct on; by eapply Hsend; [|reflexivity|].
Qed.
End outbound.

(** ** Both ends *)

Section ends.
Context {T : TcpEnv}.

(** Reading from state [s]: what comes out and the state after it. *)
Definition reads (s : telnet_state) (input out : bytes) (s' : telnet_state) : Prop :=
  forall d, st_tstate d = s ->
    fst (st_filter_rx input d) = out /\ st_tstate (snd (st_filter_rx input d)) = s'.

Lemma reads_nil s : reads s [] [] s.
Proof. by intros d Hd. Qed.
Lemma reads_app s a o s' b o' s'' :
  reads s a o s' -> reads s' b o' s'' -> reads s (a ++ b) (o ++ o') s''.
Proof.
  intros Ha Hb d Hd. rewrite st_filter_rx_app. destruct (Ha d Hd) as [H1 H2].
  destruct (st_filter_rx a d) as [o1 d1]. destruct (Hb d1 H2) as [H3 H4].
  destruct (st_filter_rx b d1) as [o2 d2]. simpl in *. by subst.
Qed.
Lemma reads_byte s c o s' :
  (forall d, st_tstate d = s -> fst (st_filter_byte c d) = o /\ st_tstate (snd (st_filter_byte c d)) = s') ->
  reads s [c] o s'.
Proof.
  intros H d Hd. simpl. destruct (H d Hd) as [H1 H2]. destruct (st_filter_byte c d) as [o1 d1].
  simpl in *. by rewrite app_nil_r.
Qed.
Ltac read_byte := apply reads_byte; intros ? Hd; unfold st_filter_byte; rewrite Hd;
  repeat match goal with |- context [?x =? ?y] => destruct (Z.eqb_spec x y); try done end; try done.

Lemma reads_iac : reads TS_DATA [TN_IAC] [] TS_IAC.
Proof. read_byte. Qed.
Lemma reads_item i : item_wf i -> reads TS_SB (item_encode i) [] TS_SB.
Proof.
  destruct i as [b|x]; simpl; intros Hi; [read_byte|].
  apply (reads_app _ [TN_IAC] [] TS_SB_IAC [x] []); read_byte.
Qed.
Lemma reads_items items : Forall item_wf items -> reads TS_SB (flat_map item_encode items) [] TS_SB.
Proof.
  induction 1 as [|i items Hi _ IH]; [apply reads_nil|].
  by apply (reads_app _ _ [] TS_SB _ []); [apply reads_item|].
Qed.

(** The other end reads whole tokens. *)
Lemma reads_token t : tn_wf t -> reads TS_DATA (tn_encode t) (tn_data t) TS_DATA.
Proof.
  destruct t as [b| |c|cmd opt|items]; simpl; intros Hw.
  - read_byte.
  - apply (reads_app _ _ [] _ [TN_IAC] [TN_IAC] _ reads_iac). read_byte.
  - destruct Hw as (H1 & H2 & H3). apply (reads_app _ _ [] _ [c] [] _ reads_iac).
    apply reads_byte. intros d Hd. unfold st_filter_byte. rewrite Hd.
    unfold is_neg in H3. rewrite H3. by destruct (Z.eqb_spec c TN_IAC), (Z.eqb_spec c TN_SB).
  - apply (reads_app _ _ [] _ [cmd; opt] [] _ reads_iac).
    apply (reads_app _ [cmd] [] TS_OPT [opt] []); apply reads_byte; intros d Hd;
      unfold st_filter_byte; rewrite Hd; [|done].
    unfold is_neg in Hw. rewrite Hw. destruct (Z.eqb_spec cmd TN_IAC) as [->|]; done.
  - apply (reads_app _ _ [] _ (TN_SB :: flat_map item_encode items ++ [TN_IAC; TN_SE]) [] _ reads_iac).
    apply (reads_app _ [TN_SB] [] TS_SB _ []); [read_byte|].
    apply (reads_app _ _ [] TS_SB _ []); [by apply reads_items|].
    apply (reads_app _ [TN_IAC] [] TS_SB_IAC [TN_SE] []); read_byte.
Qed.

Lemma reads_tokens ts : Forall tn_wf ts -> reads TS_DATA (tn_bytes ts) (tn_payload ts) TS_DATA.
Proof.
  induction 1 as [|t ts Ht _ IH]; [apply reads_nil|]. by apply (reads_app _ _ _ TS_DATA); [apply reads_token|].
Qed.

(** What the broker asks of the link, with success. *)
Inductive request := ReqWrite (data : bytes) | ReqParam (key value : string).
Definition req_data (r : request) : bytes := match r with ReqWrite data => data | _ => [] end.

Inductive sends (d : serial_tcp_data) : list request -> serial_tcp_data -> Prop :=
  | sends_none : sends d [] d
  | sends_write rs data d1 d2 :
      sends d rs d1 -> st_write data d1 = (0, d2) -> sends d (rs ++ [ReqWrite data]) d2
  | sends_param rs key value d1 d2 :
      sends d rs d1 -> st_set_param key value d1 = (0, d2) -> sends d (rs ++ [ReqParam key value]) d2
  | sends_flush rs rc d1 d2 :
      sends d rs d1 -> st_flush_write_queue d1 = (rc, d2) -> sends d rs d2.

(** The tokens a request puts on the wire. *)
Definition conveys (r : request) (ts : list tn_token) : Prop :=
  match r with
  | ReqWrite data => ts = map data_token data
  | ReqParam key value =>
      exists t s, ts = [t] /\ tn_data t = [] /\ server_reads t = Some s /\ asked key value s
  end.

Lemma conveys_payload rs segs :
  Forall2 conveys rs segs -> tn_payload (mjoin segs) = flat_map req_data rs.
Proof.
  induction 1 as [|r seg rs segs Hc _ IH]; [done|].
  change (mjoin (seg :: segs)) with (seg ++ mjoin segs). rewrite flat_map_app, IH. simpl. f_equal.
  destruct r as [data|key value]; simpl in Hc; [subst; apply data_tokens_payload|].
  destruct Hc as (t & s & -> & Ht & _). simpl. by rewrite Ht.
Qed.

Lemma sends_out d rs d' :
  wq_wf (st_wq d) -> sends d rs d' ->
  wq_wf (st_wq d') /\ exists segs, Forall2 conveys rs segs /\ Forall (Forall tn_wf) segs /\
    st_out d' = st_out d ++ tn_bytes (mjoin segs).
Proof.
  intros Hwf. induction 1 as [|rs data d1 d2 _ IH Hop|rs key value d1 d2 _ IH Hop|rs rc d1 d2 _ IH Hop].
  - split; [done|]. exists []. split_and!; [constructor..|by rewrite app_nil_r].
  - destruct IH as (Hwf1 & segs & H1 & H2 & H3). destruct (st_write_out _ _ _ Hwf1 Hop) as [H4 H5].
    split; [done|]. exists (segs ++ [map data_token data]). split_and!.
    + by apply Forall2_app; [|constructor].
    + apply Forall_app. split; [done|]. constructor; [apply data_tokens_wf|done].
    + by rewrite H5, H3, mjoin_snoc, flat_map_app, app_assoc.
  - destruct IH as (Hwf1 & segs & H1 & H2 & H3).
    destruct (st_set_param_out _ _ _ _ Hwf1 Hop) as (H4 & t & s & Ht & Hd & H5 & Hr & Ha).
    split; [done|]. exists (segs ++ [[t]]). split_and!.
    + apply Forall2_app; [done|]. constructor; [|constructor]. by exists t, s.
    + apply Forall_app. split; [done|]. by repeat constructor.
    + rewrite H5, H3, mjoin_snoc, flat_map_app. simpl. by rewrite app_nil_r, app_assoc.
  - destruct IH as (Hwf1 & segs & H1 & H2 & H3). destruct (st_flush_out _ _ _ Hwf1 Hop) as [H4 H5].
    split; [done|]. exists segs. by rewrite H5.
Qed.

(** What is sent arrives.  After any sequence of successful writes and
    settings, with flushes in between that send whatever the socket takes, the
    bytes on the wire followed by the queued ones are a sequence of whole
    telnet tokens; a server that parses them reads back exactly the data
    written, in order and with every byte 255 intact, and one subnegotiation
    per setting, in its place, that says what was asked. *)
Theorem telnet_send_roundtrip d rs d' peer :
  wq_wf (st_wq d) -> st_out d = [] -> sends d rs d' -> st_tstate peer = TS_DATA ->
  (exists segs, Forall2 conveys rs segs /\ st_out d' = tn_bytes (mjoin segs)) /\
  fst (st_filter_rx (st_out d') peer) = flat_map req_data rs /\
  st_tstate (snd (st_filter_rx (st_out d') peer)) = TS_DATA.
Proof.
  intros Hwf He Hs Hp. destruct (sends_out _ _ _ Hwf Hs) as (_ & segs & H1 & H2 & H3).
  rewrite He in H3. simpl in H3. rewrite H3. split; [by exists segs|].
  rewrite <- (conveys_payload _ _ H1). apply reads_tokens; [|done].
  clear -H2. induction H2 as [|seg segs Hs _ IH]; [constructor|]. by apply Forall_app.
Qed.
End ends.

(** ** Connecting and replying *)

Section connecting.
Context {T : TcpEnv}.


(** With an address at hand no name is resolved; a failed attempt drops it. *)
Lemma st_connect_begin_cached d a :
  st_caddr d = Some a ->
  let '(rc, d') := st_connect_begin d in
  st_resolve_count d' = st_resolve_count d /\
  st_caddr d' = (if rc <? 0 then None else Some a) /\ (rc = 0 \/ rc = 1 \/ rc = -1) /\
  (0 <= rc -> 0 <= st_fd d' /\ st_tstate d' = TS_DATA /\ st_rfc2217_active d' = false).
Proof.
  intros Ha. unfold st_connect_begin, st_resolve. rewrite Ha. simpl. unfold st_socket_connect. simpl.
  destruct (Z.ltb_spec (tcp_socket (st_tick d)) 0); simpl; [split_and!; auto; lia|].
  rewrite Ha. destruct (tcp_connect _ _); simpl; split_and!; auto; lia.
Qed.

(** Opening gives a fresh connection, or none. *)
Lemma st_open_spec d :
  st_fd d = -1 ->
  let '(rc, d') := st_open d in
  (rc = 0 /\ 0 <= st_fd d' /\ st_tstate d' = TS_DATA /\ st_rfc2217_active d' = false /\
   st_wire d' = []) \/ (rc = -1 /\ st_fd d' = -1 /\ (st_caddr d' = None)).
Proof.
  intros Hfd. unfold st_open, st_resolve.
  assert (forall e, st_fd e = -1 ->
    let '(rc, d') := st_socket_connect e in
    (rc = -1 /\ st_fd d' = -1) \/
    ((rc = 0 \/ rc = 1) /\ 0 <= st_fd d' /\ st_tstate d' = TS_DATA /\ st_rfc2217_active d' = false /\
      st_wire d' = [])) as Hc.
  { intros e He. unfold st_socket_connect. destruct (Z.ltb_spec (tcp_socket (st_tick e)) 0); [by left|].
    destruct (tcp_connect _ _); [right|right|left]; split_and!; auto. }
  assert (forall e, st_fd e = -1 ->
    let '(rc, d') := (let '(rc, d) := st_socket_connect e in
      if rc <? 0 then (-1, {| d with st_caddr := None |}) else
      if rc =? 0 then (0, d) else
      let p := tcp_poll (st_tick d) in
      let d := st_ticked d in
      if (0 <? pl_ready p) && pl_out p && bool_decide (pl_so_error p = Some 0) then (0, d)
      else (-1, {| d with st_fd := -1; st_caddr := None |})) in
    (rc = 0 /\ 0 <= st_fd d' /\ st_tstate d' = TS_DATA /\ st_rfc2217_active d' = false /\
     st_wire d' = []) \/ (rc = -1 /\ st_fd d' = -1 /\ (st_caddr d' = None))) as Ho.
  { intros e He. specialize (Hc e He). destruct (st_socket_connect e) as [rc d'].
    destruct Hc as [[-> H]|[[-> | ->] H]]; simpl; [by right|by left|].
    destruct (_ && _ && _); [by left|by right]. }
  destruct (st_caddr d) eqn:Ea; [by apply (Ho d)|].
  destruct (tcp_getaddrinfo _ _ _); simpl; [|by right]. by apply Ho.
Qed.

(** Telnet replies overtake the write queue.  The answer to a request is
    handed to the socket directly, so bytes queued by an earlier write are sent
    behind it although they were accepted first; when the queue starts in the
    middle of an escape or of a subnegotiation the server reads something else
    than what was written. *)
Theorem telnet_reply_overtakes d opt :
  0 <= st_fd d -> st_tstate d = TS_DATA -> opt <> TN_COMPORT ->
  (forall n, tcp_send n = WBytes 3) ->
  let d' := snd (st_filter_rx [TN_IAC; TN_DO; opt] d) in
  st_wq d' = st_wq d /\ st_out d' = st_wire d ++ [TN_IAC; TN_WONT; opt] ++ wq_pending (st_wq d).
Proof.
  intros Hfd Hs Ho Hsend. cbn [st_filter_rx].
  assert (st_filter_byte TN_IAC d = ([], {| d with st_tstate := TS_IAC |})) as ->
    by (unfold st_filter_byte; by rewrite Hs).
  unfold st_filter_byte; cbn. destruct (Z.eqb_spec opt TN_COMPORT); [done|].
  unfold telnet_refuse, tn_reply, st_out. cbn. destruct (Z.ltb_spec (st_fd d) 0); [lia|]. cbn.
  rewrite Hsend. split; [done|]. cbn. by rewrite <- app_assoc.
Qed.
End connecting.

(** ** Runs *)

(** A socket that takes one byte per write. *)
Definition slow_tcp : TcpEnv := {|
  tcp_getaddrinfo _ _ _ := Some 1; tcp_socket _ := 5; tcp_connect _ _ := ConnOk;
  tcp_poll _ := mk_poll 1 true false (Some 0); tcp_writes _ := [WBytes 1]; tcp_send _ := WBytes 3;
  tcp_calloc _ := true; tcp_malloc _ := true |}.

Section runs.
#[local] Existing Instance slow_tcp.

Definition demo_tcp : serial_tcp_data := snd (st_open (sm_serial_tcp_new "ser2net" 2217)).
(** With RFC 2217 control, negotiated over a send buffer that was full. *)
Definition demo_tcp_rfc : serial_tcp_data := {| demo_tcp with st_rfc2217_active := true |}.

Lemma telnet_filter_exact_witness :
  let '(outs, d) := filter_chunks [[104; 255]; [253; 44; 105; 255; 250; 1]; [255; 240; 255; 255]] demo_tcp in
  mjoin outs = [104; 105; 255] /\ st_rfc2217_active d = true /\
  exists ts, Forall tn_wf ts /\
    [104; 255; 253; 44; 105; 255; 250; 1; 255; 240; 255; 255] = tn_bytes ts /\ [104; 105; 255] = tn_payload ts.
Proof.
  pose proof (telnet_filter_exact demo_tcp
    [[104; 255]; [253; 44; 105; 255; 250; 1]; [255; 240; 255; 255]] eq_refl) as H.
  destruct (filter_chunks _ _) as [outs d] eqn:E. vm_compute in E.
  destruct H as (ts & tail & Hw & _ & Hin & Hout & _ & Ht & _).
  assert (outs = [[104]; [105]; [255]] /\ st_tstate d = TS_DATA /\ st_rfc2217_active d = true)
    as (-> & Hd & Hr) by (by injection E as <- <-).
  rewrite (proj1 Ht Hd), app_nil_r in Hin. split; [done|]. split; [done|]. by exists ts.
Defined.

(** A write, a setting and a flush. *)
Definition demo_sent : serial_tcp_data :=
  snd (st_flush_write_queue (snd (st_set_param "baud" "115200" (snd (st_write [104; 255] demo_tcp_rfc))))).
Lemma demo_sends : sends demo_tcp_rfc [ReqWrite [104; 255]; ReqParam "baud" "115200"] demo_sent.
Proof.
  eapply (sends_flush _ _ _ _ demo_sent); [|by apply surjective_pairing].
  apply (sends_param _ [ReqWrite [104; 255]] _ _ (snd (st_write [104; 255] demo_tcp_rfc))); [|by vm_compute].
  apply (sends_write _ [] _ demo_tcp_rfc); [constructor|by vm_compute].
Qed.

Lemma telnet_send_roundtrip_witness :
  st_wire demo_sent = [104; 255] /\
  st_out demo_sent = [104; 255; 255; 255; 250; 44; 1; 0; 1; 194; 0; 255; 240] /\
  fst (st_filter_rx (st_out demo_sent) demo_tcp) = [104; 255].
Proof.
  split; [by vm_compute|]. split; [by vm_compute|].
  apply (telnet_send_roundtrip demo_tcp_rfc [ReqWrite [104; 255]; ReqParam "baud" "115200"] demo_sent).
  - apply wq_init_wf.
  - done.
  - apply demo_sends.
  - done.
Defined.

(** The byte 255 is written and half of its escape is still queued when the
    server asks for an option: it reads 255, 252, 1 as data. *)
Lemma telnet_reply_overtakes_witness :
  let d := snd (st_write [255] demo_tcp) in
  st_out d = [255; 255] /\
  st_out (snd (st_filter_rx [TN_IAC; TN_DO; 1] d)) = [255; 255; 252; 1; 255] /\
  fst (st_filter_rx [255; 255; 252; 1; 255] demo_tcp) = [255; 252; 1].
Proof.
  intros d. split; [by vm_compute|]. split; [|by vm_compute].
  destruct (telnet_reply_overtakes d 1) as [_ ->]; [done|done|done|done|by vm_compute].
Defined.
End runs.
