(* ===== verification/GdbLink.v ===== *)
(** * The GDB link ([src/links/gdb.c])

    A GDB process behind two pipes, and the guard that keeps clients from
    running shell commands through it.  Processes and pipes are the class
    [GdbEnv]; [gd_wire] is what the current child's stdin has taken, and
    [gd_calls] are the calls of [gdb_write_data] made on it, with what they
    returned: both are observation only. *)
From S2P Require Import Prelude Cstr Arrays Json Effects LinkWq BrokerState.

#[local] Open Scope string_scope.
#[local] Open Scope list_scope.
#[local] Open Scope Z_scope.

(** ** The command guard *)

Definition gdb_code_exec_cmds : list string := ["shell"; "pipe"; "python"; "guile"; "make"; "eval"].

Definition word_is_code_exec (word : bytes) : bool :=
  if zlen word <? 2 then false else
  existsb (fun name =>
    let n := bytes_of_string name in
    let m := if zlen word <? zlen n then zlen word else zlen n in
    bool_decide (ztake m word = ztake m n)) gdb_code_exec_cmds.

Definition is_blank (c : Z) : bool := (c =? 32) || (c =? 9).
Definition is_eol (c : Z) : bool := (c =? 13) || (c =? 10).
Definition is_nl (c : Z) : bool := c =? 10.
Definition is_bang (c : Z) : bool := (c =? chr "!") || (c =? chr "|").
(** What ends a word inside the arguments of -interpreter-exec. *)
Definition is_arg_sep (c : Z) : bool := is_blank c || (c =? 34) || is_eol c.

(** The [while (k < len)] loop: every turn takes a byte at least. *)
Fixpoint interp_scan (fuel : nat) (l : bytes) : bool :=
  match fuel, l with
  | _, [] => false
  | O, _ => false
  | S fuel, c :: l' =>
      if is_bang c then true
      else if is_arg_sep c then interp_scan fuel l'
      else
        let word := take_while (fun c => negb (is_arg_sep c)) l in
        if word_is_code_exec word then true
        else interp_scan fuel (match word with
                               | [] => l' | _ => skip_while (fun c => negb (is_arg_sep c)) l end)
  end.

Definition sm_gdb_line_invokes_shell (line : bytes) : bool :=
  let l := skip_while is_blank (skip_while isdigit line) in
  match l with
  | [] => false
  | c :: _ =>
      if is_bang c then true
      else if word_is_code_exec (take_while (fun c => negb (is_blank c || is_eol c)) l) then true
      else if starts_with (bytes_of_string "-interpreter-exec") l
      then interp_scan (length l) (zdrop 17 l)
      else false
  end.

Fixpoint contains_shell_loop (fuel : nat) (data : bytes) : bool :=
  match fuel, data with
  | _, [] => false
  | O, _ => false
  | S fuel, _ =>
      if sm_gdb_line_invokes_shell (take_while (fun c => negb (is_nl c)) data) then true
      else contains_shell_loop fuel (tl (skip_while (fun c => negb (is_nl c)) data))
  end.
Definition contains_shell_command (data : bytes) : bool := contains_shell_loop (length data) data.

(** ** The link *)

(** Answers to the [n]-th system call. *)
Class GdbEnv := {
  gdb_waitpid : nat -> Z -> bool;      (* the child is gone: reaped, or ECHILD *)
  gdb_pipe2 : nat -> option (Z * Z);   (* read end, write end *)
  gdb_fork : nat -> Z;
  gdb_writes : nat -> list wres;
  gdb_calloc : nat -> bool;
  gdb_malloc : nat -> bool }.

Record gdb_data := mk_gdb {
  gd_path : string; gd_target_spec : string; gd_pid : Z; gd_stdin_fd : Z; gd_stdout_fd : Z;
  gd_allow_shell : bool; gd_wq : sm_link_wq; gd_wire : bytes; gd_calls : list (bytes * Z);
  gd_tick : nat }.

(** A newline, a carriage return or another control character; [char] is
    signed, so the bytes above 127 are none. *)
Definition has_control (s : string) : bool :=
  existsb (fun p => (p =? 10) || (p =? 13) || ((0 <? p) && (p <? 32))) (bytes_of_string s).

Section ops.
Context {G : GdbEnv}.

Definition gd_ticked (d : gdb_data) : gdb_data := {| d with gd_tick := S (gd_tick d) |}.

Definition gdb_reap (d : gdb_data) : gdb_data :=
  if gd_pid d <=? 0 then d else
  let gone := gdb_waitpid (gd_tick d) (gd_pid d) in
  let d := gd_ticked d in
  if gone then {| d with gd_pid := -1 |} else d.

Definition gd_called (data : bytes) (rc : Z) (d : gdb_data) : gdb_data :=
  {| d with gd_calls := gd_calls d ++ [(data, rc)] |}.

Definition gdb_write_data (data : bytes) (d : gdb_data) : Z * gdb_data :=
  if gd_stdin_fd d <? 0 then (-1, d) else
  if negb (gd_allow_shell d) && contains_shell_command data then (-1, gd_called data (-1) d) else
  let n := gd_tick d in
  let '(rc, wq, out, _) :=
    sm_link_wq_write (gdb_calloc n) (gdb_malloc n) (gd_wq d) data (gdb_writes n) in
  (rc, gd_called data rc {| (gd_ticked d) with gd_wq := wq; gd_wire := gd_wire d ++ out |}).

Definition gdb_write_str (s : string) (d : gdb_data) : Z * gdb_data :=
  gdb_write_data (bytes_of_string s) d.

(** The parent's side; the pipes of a failed start are closed again. *)
Definition gdb_spawn (d : gdb_data) : Z * gdb_data :=
  let d := gdb_reap d in
  let d := {| d with gd_wq := sm_link_wq_clear (gd_wq d) |} in
  if has_control (gd_target_spec d) then (-1, d) else
  let to_child := gdb_pipe2 (gd_tick d) in
  let d := gd_ticked d in
  match to_child with
  | None => (-1, d)
  | Some (_, in_w) =>
      let from_child := gdb_pipe2 (gd_tick d) in
      let d := gd_ticked d in
      match from_child with
      | None => (-1, d)
      | Some (out_r, _) =>
          let pid := gdb_fork (gd_tick d) in
          let d := gd_ticked d in
          if pid <? 0 then (-1, d)
          else (0, {| d with gd_stdin_fd := in_w; gd_stdout_fd := out_r; gd_pid := pid;
                             gd_wire := []; gd_calls := [] |})
      end
  end.

Definition target_cmd (spec : string) : string :=
  snprintf_s 512 ("-target-select extended-remote " +:+ spec +:+ string_of_bytes [10]).

(** The polls around the first command only wait. *)
Definition gdb_bootstrap_mi (d : gdb_data) : gdb_data :=
  if gd_stdin_fd d <? 0 then d else
  let d := snd (gdb_write_str ("-gdb-set mi-async on" +:+ string_of_bytes [10]) d) in
  if streq (gd_target_spec d) "" then d else snd (gdb_write_str (target_cmd (gd_target_spec d)) d).

Definition gdb_open (d : gdb_data) : Z * gdb_data :=
  let '(rc, d) := gdb_spawn d in
  if negb (rc =? 0) then (-1, d) else (0, gdb_bootstrap_mi d).

Definition gdb_connect_begin (d : gdb_data) : Z * gdb_data :=
  let '(rc, d) := gdb_spawn d in
  if negb (rc =? 0) then (-1, d) else (0, gdb_bootstrap_mi d).

(** [kill] is not seen by the link but through the next [waitpid]. *)
Definition gdb_close (d : gdb_data) : gdb_data :=
  let d := if 0 <=? gd_stdin_fd d then
             {| (snd (gdb_write_str ("-gdb-exit" +:+ string_of_bytes [10]) d)) with gd_stdin_fd := -1 |}
           else d in
  let d := if 0 <? gd_pid d then
             let d := gdb_reap d in
             let d := if 0 <? gd_pid d then gdb_reap d else d in
             if 0 <? gd_pid d then gdb_reap d else d
           else d in
  let d := if 0 <=? gd_stdout_fd d then {| d with gd_stdout_fd := -1 |} else d in
  {| d with gd_wq := sm_link_wq_clear (gd_wq d) |}.

Definition gdb_read_fd (d : gdb_data) : Z := gd_stdout_fd d.
Definition gdb_write_fd_vt (d : gdb_data) : Z := gd_stdin_fd d.
Definition gdb_has_write_pending (d : gdb_data) : bool := sm_link_wq_has_pending (gd_wq d).

Definition gdb_flush_write_queue (d : gdb_data) : Z * gdb_data :=
  if gd_stdin_fd d <? 0 then (-1, d) else
  let '(rc, wq, out, _) := sm_link_wq_flush (gd_wq d) (gdb_writes (gd_tick d)) in
  (rc, {| (gd_ticked d) with gd_wq := wq; gd_wire := gd_wire d ++ out |}).

Definition gdb_send_break (duration_ms : Z) (d : gdb_data) : Z * gdb_data :=
  if gd_stdin_fd d <? 0 then (-1, d) else
  gdb_write_str ("-exec-interrupt" +:+ string_of_bytes [10]) d.

Definition gdb_set_param (key value : string) (d : gdb_data) : Z * gdb_data :=
  if gd_stdin_fd d <? 0 then (-1, d) else
  if streq key "target" then
    if has_control value then (-1, d) else
    gdb_write_str (target_cmd value) {| d with gd_target_spec := snprintf_s 256 value |}
  else if streq key "allow_shell" then
    (0, {| d with gd_allow_shell := streq value "1" || streq value "true" |})
  else (-1, d).

Definition gdb_get_status (d : gdb_data) : list (string * json) :=
  [("link_type", JStr "gdb"); ("gdb_path", JStr (gd_path d))] ++
  (if streq (gd_target_spec d) "" then [] else [("target", JStr (gd_target_spec d))]) ++
  [("connected", JBool (0 <? gd_pid d))] ++
  (if 0 <? gd_pid d then [("gdb_pid", JNum (dbl_of_int (gd_pid d)))] else []).

(** The broker's exit: the child is killed and reaped if it is still there. *)
Definition gdb_destroy (d : gdb_data) : gdb_data :=
  let d := if (0 <=? gd_stdin_fd d) || (0 <=? gd_stdout_fd d) then gdb_close d else d in
  let d := gdb_reap d in
  if 0 <? gd_pid d then gdb_reap d else d.

Definition sm_gdb_new (gdb_path target_spec : option string) : gdb_data :=
  mk_gdb (snprintf_s 256 (default "gdb" gdb_path))
    (match target_spec with Some s => snprintf_s 256 s | None => "" end)
    (-1) (-1) (-1) false sm_link_wq_init [] [] 0.

Definition gdb_link : LinkOps := {|
  link_state := gdb_data;
  link_open := gdb_open;
  link_close := gdb_close;
  link_read_fd := gdb_read_fd;
  link_write_data := gdb_write_data;
  link_flush_write_queue := Some gdb_flush_write_queue;
  link_send_break := gdb_send_break;
  link_set_param := gdb_set_param;
  link_get_status := gdb_get_status;
  link_connect_begin := Some gdb_connect_begin;
  link_connect_poll := None;
  link_filter_rx := None;
  link_silence_normal := true |}.
End ops.

(** ** What the guard refuses *)

(** A word GDB may take for one of the commands: an abbreviation of at least
    two letters, or a longer spelling. *)
Definition names_command (word : bytes) : Prop :=
  2 <= zlen word /\ exists name, In name gdb_code_exec_cmds /\
    (word `prefix_of` bytes_of_string name \/ bytes_of_string name `prefix_of` word).

(** The maximal stretches of a text without separators. *)
Definition flush_word (w : bytes) : list bytes := match w with [] => [] | _ => [w] end.
Fixpoint words_by (sep : Z -> bool) (cur : bytes) (l : bytes) : list bytes :=
  match l with
  | [] => flush_word cur
  | c :: l' => if sep c then flush_word cur ++ words_by sep [] l' else words_by sep (cur ++ [c]) l'
  end.
Definition words (sep : Z -> bool) (l : bytes) : list bytes := words_by sep [] l.

Definition bang_word (w : bytes) : Prop := exists c w', w = c :: w' /\ is_bang c = true.

Definition first_word (l : bytes) : bytes := take_while (fun c => negb (is_blank c || is_eol c)) l.

(** A line that reaches a shell: after the MI token and blanks a [!] or [|],
    one of the commands, or -interpreter-exec with such a word. *)
Definition shell_line (line : bytes) : Prop :=
  let rest := skip_while is_blank (skip_while isdigit line) in
  bang_word rest \/ names_command (first_word rest) \/
  exists args, rest = bytes_of_string "-interpreter-exec" ++ args /\
    Exists (fun w => bang_word w \/ names_command w) (words is_arg_sep args).

Lemma word_is_code_exec_spec word : word_is_code_exec word = true <-> names_command word.
Proof.
  unfold word_is_code_exec, names_command. destruct (Z.ltb_spec (zlen word) 2); [split; [done|lia]|].
  rewrite existsb_exists. split.
  - intros (name & Hin & Hm). split; [done|]. exists name. split; [done|]. cbv zeta in Hm.
    apply bool_decide_eq_true in Hm.
    destruct (Z.ltb_spec (zlen word) (zlen (bytes_of_string name))).
    + left. rewrite ztake_all in Hm by lia. rewrite Hm. apply prefix_take.
    + right. rewrite (ztake_all _ (bytes_of_string name)) in Hm by lia. rewrite <- Hm. apply prefix_take.
  - intros (_ & name & Hin & Hp). exists name. split; [done|]. cbv zeta. apply bool_decide_eq_true.
    destruct Hp as [[k Hk]|[k Hk]]; rewrite Hk in *; zsimpl.
    + destruct (Z.ltb_spec (zlen word) (zlen word + zlen k)); [|assert (k = []) as -> by (apply zlen_zero; zlia)].
      * rewrite ztake_app_le by lia. done.
      * by rewrite !app_nil_r, Z.add_0_r.
    + destruct (Z.ltb_spec (zlen (bytes_of_string name) + zlen k) (zlen (bytes_of_string name))); [zlia|].
      rewrite ztake_app_le by lia. by rewrite !ztake_all by lia.
Qed.

(** Words by scanning. *)
Section scanning.
Context (sep : Z -> bool).
Let nonsep := fun c => negb (sep c).

Lemma words_by_take cur l :
  words_by sep cur l =
  flush_word (cur ++ take_while nonsep l) ++ words sep (tl (skip_while nonsep l)).
Proof.
  revert cur. induction l as [|c l IH]; intros cur; simpl; [by rewrite !app_nil_r|].
  unfold nonsep at 1 3. destruct (sep c) eqn:E; simpl; [by rewrite app_nil_r|].
  rewrite IH, <- app_assoc. done.
Qed.
Lemma words_skip l : words sep (tl (skip_while nonsep l)) = words sep (skip_while nonsep l).
Proof.
  destruct (skip_while nonsep l) as [|c k] eqn:E; [done|]. apply skip_while_head in E.
  unfold nonsep in E. apply negb_false_iff in E. unfold words. simpl. by rewrite E.
Qed.
End scanning.

Lemma interp_scan_spec fuel l :
  (length l <= fuel)%nat ->
  interp_scan fuel l = true <-> Exists (fun w => bang_word w \/ names_command w) (words is_arg_sep l).
Proof.
  revert l. induction fuel as [|fuel IH]; intros [|c l] Hl; simpl in Hl; try lia;
    try (split; [done|by intros ?%Exists_nil]).
  cbn [interp_scan]. destruct (is_bang c) eqn:Eb.
  { split; [intros _|done]. unfold words. rewrite words_by_take.
    assert (is_arg_sep c = false) as Es.
    { unfold is_bang in Eb. apply orb_true_iff in Eb as [->%Z.eqb_eq| ->%Z.eqb_eq]; done. }
    cbn [take_while]. rewrite Es. simpl. apply Exists_cons_hd. left. by eexists _, _. }
  destruct (is_arg_sep c) eqn:Es.
  { rewrite IH by lia. unfold words. simpl. by rewrite Es. }
  unfold words. rewrite words_by_take, words_skip. cbn [take_while skip_while app]. rewrite Es. cbn [negb].
  set (w := take_while _ l). cbn [flush_word app]. rewrite Exists_cons, <- IH; last first.
  { etrans; [apply skip_while_length|lia]. }
  rewrite <- word_is_code_exec_spec. destruct (word_is_code_exec (c :: w)); [tauto|].
  split; [by right|]. intros [[(c' & w' & [= <- <-] & Hb)|]|]; [congruence|done..].
Qed.

Lemma line_invokes_shell_spec line : sm_gdb_line_invokes_shell line = true <-> shell_line line.
Proof.
  unfold sm_gdb_line_invokes_shell, shell_line.
  set (rest := skip_while is_blank (skip_while isdigit line)). clearbody rest. cbv zeta.
  destruct rest as [|c l].
  { split; [done|]. intros [(c & w & [=] & _)|[[Hz _]|(args & [=] & _)]]. vm_compute in Hz. congruence. }
  destruct (is_bang c) eqn:Eb; [split; [|done]; intros _; left; by eexists _, _|].
  fold (first_word (c :: l)). destruct (word_is_code_exec (first_word (c :: l))) eqn:Ew.
  { apply word_is_code_exec_spec in Ew. tauto. }
  assert (~ names_command (first_word (c :: l))) as Hn.
  { intros H%word_is_code_exec_spec. congruence. }
  assert (~ bang_word (c :: l)) as Hb.
  { intros (c' & w' & [= <- <-] & H). congruence. }
  destruct (starts_with _ (c :: l)) eqn:Ei.
  - apply starts_with_spec in Ei as [args Ei].
    rewrite interp_scan_spec by (unfold zdrop; rewrite length_drop; lia). rewrite Ei.
    change (zdrop 17 (bytes_of_string "-interpreter-exec" ++ args)) with args.
    split; [intros H; right; right; by exists args|].
    intros [?|[?|(args' & Ha & H)]]; [congruence|congruence|]. apply app_inv_head in Ha. by subst.
  - split; [done|]. intros [?|[?|(args & Ha & _)]]; [tauto|tauto|].
    enough (starts_with (bytes_of_string "-interpreter-exec") (c :: l) = true) by congruence.
    apply starts_with_spec. by exists args.
Qed.

(** C19: the guard refuses exactly the lines it is meant to.  A write is taken
    for a shell command if and only if one of its lines, after an optional MI
    token and blanks, starts with [!] or [|], or its first word is an
    abbreviation of at least two letters or a longer spelling of shell, pipe,
    python, guile, make or eval, or it is -interpreter-exec with such a word
    among its arguments; the scan looks at every line and always ends. *)
Theorem gdb_guard_exact data :
  contains_shell_command data = true <-> Exists shell_line (words is_nl data).
Proof.
  unfold contains_shell_command.
  enough (forall fuel data, (length data <= fuel)%nat ->
    contains_shell_loop fuel data = true <-> Exists shell_line (words is_nl data)) as H
    by (by apply H).
  clear. induction fuel as [|fuel IH]; intros [|c l] Hl; simpl in Hl; try lia;
    try (split; [done|by intros ?%Exists_nil]).
  cbn [contains_shell_loop]. set (data := c :: l) in *.
  assert (length (tl (skip_while (fun c => negb (is_nl c)) data)) <= fuel)%nat as Hlen.
  { pose proof (skip_while_length (fun c => negb (is_nl c)) l). unfold data. simpl.
    destruct (is_nl c); simpl; [lia|]. destruct (skip_while _ l); simpl in *; lia. }
  unfold words. rewrite (words_by_take is_nl). rewrite Exists_app, <- IH by done.
  set (w := take_while _ data). simpl app.
  assert (Exists shell_line (flush_word w) <-> sm_gdb_line_invokes_shell w = true) as ->.
  { rewrite line_invokes_shell_spec. destruct w as [|x w]; simpl.
    - split; [by intros ?%Exists_nil|]. intros H%line_invokes_shell_spec. done.
    - rewrite Exists_cons, Exists_nil. tauto. }
  destruct (sm_gdb_line_invokes_shell w); [tauto|]. split; [by right|]. by intros [?|?].
Qed.

(** ** What GDB is given *)

(** What a call of [gdb_write_data] gave GDB: a beginning of its data, and
    nothing when the guard refused it. *)
Definition given (call : bytes * Z) (p : bytes) : Prop :=
  p `prefix_of` fst call /\
  (contains_shell_command (fst call) = true -> snd call = -1 /\ p = []).

(** The switch is off, and all that GDB was given since it was started, or
    will be given from the queue, comes from the calls made, in their order. *)
Definition gd_guarded (d : gdb_data) : Prop :=
  gd_allow_shell d = false /\ wq_wf (gd_wq d) /\
  exists ps, Forall2 given (gd_calls d) ps /\ gd_wire d ++ wq_pending (gd_wq d) = mjoin ps.

Lemma given_prefix c p a : given c p -> a `prefix_of` p -> given c a.
Proof.
  intros [H1 H2] Ha. split; [by etrans|]. intros [Hr ->]%H2. split; [done|]. by apply prefix_nil_inv.
Qed.

Lemma pieces_prefix calls ps a b :
  Forall2 given calls ps -> a ++ b = mjoin ps -> exists ps', Forall2 given calls ps' /\ a = mjoin ps'.
Proof.
  intros H. revert a b. induction H as [|c p calls ps Hp _ IH]; intros a b Ha.
  { exists []. split; [done|]. by apply app_nil in Ha as [-> _]. }
  change (mjoin (p :: ps)) with (p ++ mjoin ps) in Ha. apply app_eq_inv in Ha as [(k & -> & Ha)|(k & -> & Ha)].
  - destruct (IH k b) as (ps' & H1 & ->); [done|]. exists (p :: ps'). split; [by constructor|done].
  - destruct (IH [] (mjoin ps)) as (ps' & H1 & H2); [done|]. exists (a :: ps'). split.
    + constructor; [|done]. eapply given_prefix; [done|]. by exists k.
    + change (mjoin (a :: ps')) with (a ++ mjoin ps'). by rewrite <- H2, app_nil_r.
Qed.

Section guarded.
Context {G : GdbEnv}.

Lemma gdb_reap_guarded d : gd_guarded d -> gd_guarded (gdb_reap d).
Proof. intros Hd. unfold gdb_reap. by repeat case_match. Qed.

Lemma gd_called_guarded data rc p wq out d :
  gd_guarded d -> wq_wf wq -> given (data, rc) p ->
  gd_wire d ++ out ++ wq_pending wq = (gd_wire d ++ wq_pending (gd_wq d)) ++ p ->
  gd_guarded (gd_called data rc {| (gd_ticked d) with gd_wq := wq; gd_wire := gd_wire d ++ out |}).
Proof.
  intros (Ha & _ & ps & Hp & Ho) Hw Hg He. split_and!; [done..|]. exists (ps ++ [p]). split.
  - simpl. apply Forall2_app; [done|]. by constructor; [|constructor].
  - rewrite mjoin_snoc, <- Ho. simpl. by rewrite <- app_assoc.
Qed.

Lemma gdb_write_guarded data d : gd_guarded d -> gd_guarded (snd (gdb_write_data data d)).
Proof.
  intros Hd. pose proof Hd as (Ha & Hw & ps & Hp & Ho). unfold gdb_write_data. case_match; [done|].
  rewrite Ha. simpl. destruct (contains_shell_command data) eqn:Ec.
  { split_and!; [done..|]. exists (ps ++ [[]]). rewrite mjoin_snoc, app_nil_r. split; [|done].
    apply Forall2_app; [done|]. constructor; [|done]. split; [apply prefix_nil|done]. }
  pose proof (wq_write_spec (gdb_calloc (gd_tick d)) (gdb_malloc (gd_tick d)) (gd_wq d) data
                (gdb_writes (gd_tick d)) Hw) as Hs.
  pose proof (wq_write_waiting (gdb_calloc (gd_tick d)) (gdb_malloc (gd_tick d)) (gd_wq d) data
                (gdb_writes (gd_tick d))) as Hq.
  destruct (sm_link_wq_write _ _ _ _ _) as [[[rc wq] out] env]. destruct Hs as (H1 & H2 & H3). cbn [snd].
  assert (forall p, p `prefix_of` data -> given (data, rc) p) as Hg by (intros p Hpre; split; [done|]; simpl; by rewrite Ec).
  destruct (decide (rc = 0)) as [->|Hrc].
  - apply (gd_called_guarded data 0 data); [done..|by apply Hg|]. by rewrite H2, app_assoc by done.
  - destruct (H3 Hrc) as [Hwq Hout]. destruct Hq as [-> |Hq].
    + apply (gd_called_guarded data rc []); [done..|by apply Hg, prefix_nil|]. by rewrite Hwq, app_nil_r.
    + apply (gd_called_guarded data rc out); [done..|by apply Hg|]. by rewrite Hwq, Hq, !app_nil_r.
Qed.

Lemma gd_clear_guarded d :
  gd_guarded d -> gd_guarded {| d with gd_wq := sm_link_wq_clear (gd_wq d) |}.
Proof.
  intros (Ha & Hw & ps & Hp & Ho). destruct (pieces_prefix _ ps _ _ Hp Ho) as (ps' & H1 & H2).
  split_and!; [done|apply wq_init_wf|]. exists ps'. split; [done|]. simpl. by rewrite H2, app_nil_r.
Qed.
(** Descriptors, the child and the target do not matter. *)
Lemma gd_guarded_same d d' :
  gd_allow_shell d' = gd_allow_shell d -> gd_wq d' = gd_wq d -> gd_wire d' = gd_wire d ->
  gd_calls d' = gd_calls d -> gd_guarded d -> gd_guarded d'.
Proof. intros H1 H2 H3 H4. unfold gd_guarded. by rewrite H1, H2, H3, H4. Qed.

Lemma gdb_spawn_guarded d : gd_guarded d -> gd_guarded (snd (gdb_spawn d)).
Proof.
  intros Hd%gdb_reap_guarded%gd_clear_guarded. unfold gdb_spawn.
  set (d1 := {| (gdb_reap d) with gd_wq := _ |}) in *.
  destruct (has_control _); [done|]. repeat case_match; try (by apply (gd_guarded_same d1)).
  destruct Hd as (Ha & Hw & _). split_and!; [done|done|]. by exists [].
Qed.

Lemma gdb_bootstrap_guarded d : gd_guarded d -> gd_guarded (gdb_bootstrap_mi d).
Proof.
  intros Hd. unfold gdb_bootstrap_mi, gdb_write_str. case_match; [done|].
  case_match; [by apply gdb_write_guarded|]. by do 2 apply gdb_write_guarded.
Qed.

Lemma gdb_open_guarded d : gd_guarded d -> gd_guarded (snd (gdb_open d)).
Proof.
  intros Hd%gdb_spawn_guarded. unfold gdb_open. destruct (gdb_spawn d) as [rc d1].
  destruct (negb _); [done|]. by apply gdb_bootstrap_guarded.
Qed.

Lemma gdb_close_guarded d : gd_guarded d -> gd_guarded (gdb_close d).
Proof.
  intros Hd. unfold gdb_close. apply gd_clear_guarded.
  assert (forall d, gd_guarded d -> gd_guarded (if 0 <=? gd_stdout_fd d
            then {| d with gd_stdout_fd := -1 |} else d)) as H1 by (intros e He; by case_match).
  apply H1. clear H1.
  assert (forall d, gd_guarded d -> gd_guarded (if 0 <? gd_pid d then gdb_reap d else d)) as H2.
  { intros e He. case_match; [by apply gdb_reap_guarded|done]. }
  set (d1 := if 0 <=? gd_stdin_fd d then _ else d).
  assert (gd_guarded d1) as H3.
  { unfold d1. case_match; [|done]. by apply (gdb_write_guarded _ d). }
  case_match; [|done]. by apply H2, H2, gdb_reap_guarded.
Qed.

Lemma gdb_flush_guarded d : gd_guarded d -> gd_guarded (snd (gdb_flush_write_queue d)).
Proof.
  intros (Ha & Hw & ps & Hp & Ho). unfold gdb_flush_write_queue.
  case_match; [by split_and!; [..|exists ps]|].
  pose proof (wq_flush_spec (gd_wq d) (gdb_writes (gd_tick d)) Hw) as Hs.
  destruct (sm_link_wq_flush _ _) as [[[rc wq] out] env]. destruct Hs as (H1 & H2 & _).
  split_and!; [done..|]. exists ps. split; [done|]. simpl. by rewrite <- app_assoc, H2.
Qed.
End guarded.

(** The guard looks at each write by itself.  With the switch off, the
    command "shell id" is refused in one write, but written as "s" and "hell id"
    both parts are accepted and GDB reads the command whole. *)
Theorem gdb_guard_split {G : GdbEnv} d :
  0 <= gd_stdin_fd d -> gd_allow_shell d = false -> gd_wq d = sm_link_wq_init ->
  (forall n, gdb_writes n = [WBytes 64]) ->
  let cmd := bytes_of_string ("shell id" +:+ string_of_bytes [10]) in
  let '(r1, d1) := gdb_write_data (ztake 1 cmd) d in
  let '(r2, d2) := gdb_write_data (zdrop 1 cmd) d1 in
  fst (gdb_write_data cmd d) = -1 /\ r1 = 0 /\ r2 = 0 /\ gd_wire d2 = gd_wire d ++ cmd.
Proof.
  intros Hfd Ha Hq Hw. cbv zeta. set (cmd := bytes_of_string _).
  assert (contains_shell_command cmd = true) as C1 by (by vm_compute).
  assert (contains_shell_command (ztake 1 cmd) = false) as C2 by (by vm_compute).
  assert (contains_shell_command (zdrop 1 cmd) = false) as C3 by (by vm_compute).
  assert (forall data (e : gdb_data), 0 < zlen data <= 64 -> contains_shell_command data = false ->
    0 <= gd_stdin_fd e -> gd_allow_shell e = false -> gd_wq e = sm_link_wq_init ->
    gdb_write_data data e = (0, gd_called data 0 {| (gd_ticked e) with gd_wire := gd_wire e ++ data |})) as Hok.
  { intros data e Hl Hc Hf Hs Hq'. unfold gdb_write_data. destruct (Z.ltb_spec (gd_stdin_fd e) 0); [lia|].
    rewrite Hs, Hc, Hw. destruct e; simpl in *; subst. unfold sm_link_wq_write, wq_write_loop. simpl.
    destruct (Z.eqb_spec (zlen data) 0); [lia|]. rewrite Z.min_r, Z.max_r by lia.
    destruct (Z.eqb_spec (zlen data) 0); [lia|]. rewrite zdrop_all, ztake_all by lia. simpl.
    by rewrite app_nil_r. }
  rewrite (Hok (ztake 1 cmd) d), Hok by (done || vm_compute; lia || done).
  split_and!; [|done|done|].
  - unfold gdb_write_data. destruct (_ <? _); [done|]. by rewrite Ha, C1.
  - simpl. by rewrite <- app_assoc, ztake_zdrop.
Qed.
