(* ===== verification/Uart.v ===== *)
(** * The UART link ([src/links/uart.c])

    A serial port behind termios.  The kernel's tty is a part of the state
    ([tty]), so that the theorems can say how the port is configured; whether
    a system call succeeds, and what the driver makes of an accepted
    [tcsetattr], is the class [UartEnv].  [ud_wire] and [ud_asked], the
    requests accepted since the port was opened, are observation only. *)
From S2P Require Import Prelude Cstr Arrays Json Effects LinkWq BrokerState.

#[local] Open Scope string_scope.
#[local] Open Scope list_scope.
#[local] Open Scope Z_scope.
#[local] Open Scope json_scope.

(** ** termios (Linux values) *)

Definition CSIZE : Z := 48.
Definition CS5 : Z := 0.
Definition CS6 : Z := 16.
Definition CS7 : Z := 32.
Definition CS8 : Z := 48.
Definition CSTOPB : Z := 64.
Definition CREAD : Z := 128.
Definition PARENB : Z := 256.
Definition PARODD : Z := 512.
Definition CLOCAL : Z := 2048.
Definition CRTSCTS : Z := 2147483648.
Definition IXON : Z := 1024.
Definition IXANY : Z := 2048.
Definition IXOFF : Z := 4096.
(** IGNBRK, BRKINT, PARMRK, ISTRIP, INLCR, IGNCR, ICRNL and IXON;
    ECHO, ECHONL, ICANON, ISIG and IEXTEN. *)
Definition RAW_IFLAG : Z := 1515.
Definition RAW_LFLAG : Z := 32843.
Definition OPOST : Z := 1.
Definition TIOCM_DTR : Z := 2.
Definition TIOCM_RTS : Z := 4.
Definition TIOCM_CTS : Z := 32.
Definition TIOCM_CD : Z := 64.
Definition TIOCM_RI : Z := 128.
Definition TIOCM_DSR : Z := 256.

(** [struct termios]; the speed, which the kernel keeps in further bits of
    [c_cflag], is a field of its own. *)
Record termios := mk_termios {
  c_iflag : Z; c_oflag : Z; c_cflag : Z; c_lflag : Z; c_vmin : Z; c_vtime : Z;
  c_ispeed : Z; c_ospeed : Z }.

(** [flags &= ~mask]. *)
Definition clear_bits (flags mask : Z) : Z := Z.ldiff flags mask.

Definition cfmakeraw (t : termios) : termios :=
  {| t with c_iflag := clear_bits (c_iflag t) RAW_IFLAG; c_oflag := clear_bits (c_oflag t) OPOST;
            c_lflag := clear_bits (c_lflag t) RAW_LFLAG;
            c_cflag := Z.lor (clear_bits (c_cflag t) (Z.lor CSIZE PARENB)) CS8;
            c_vmin := 1; c_vtime := 0 |}.
Definition cfsetspeed (speed : Z) (t : termios) : termios :=
  {| t with c_ispeed := speed; c_ospeed := speed |}.

(** The tty as the kernel keeps it: it outlives a descriptor. *)
Record tty := mk_tty { ty_termios : termios; ty_modem : Z; ty_break : bool; ty_excl : bool }.

(** Whether the [n]-th system call succeeds, and what [open] returns.
    [tcsetattr] succeeds when any of the requested changes was made: what is in
    force then, given what was before and what was asked, is the driver's. *)
Class UartEnv := {
  ua_ok : nat -> bool;
  ua_adopt : nat -> termios -> termios -> termios;
  ua_open : nat -> string -> Z;
  ua_writes : nat -> list wres;
  ua_calloc : nat -> bool;
  ua_malloc : nat -> bool }.

(** ** The link *)

Record uart_data := mk_uart {
  ud_port : string; ud_baud : Z; ud_exclusive : bool; ud_fd : Z;
  ud_orig_termios : option termios; (* [Some] is [orig_saved] *)
  ud_data_bits : Z; ud_parity : Z; ud_stop_bits : Z; ud_flow_control : Z; ud_wq : sm_link_wq;
  ud_tty : tty; ud_wire : bytes;
  ud_asked : list (termios * termios); (* asked for, in force afterwards *)
  ud_tick : nat }.

(** The speed constant and whether the rate is supported. *)
Definition baud_table : list (Z * Z) :=
  [(300, 7); (600, 8); (1200, 9); (2400, 11); (4800, 12); (9600, 13); (19200, 14); (38400, 15);
   (57600, 4097); (115200, 4098); (230400, 4099); (460800, 4100); (500000, 4101); (576000, 4102);
   (921600, 4103); (1000000, 4104); (1500000, 4106); (2000000, 4107); (3000000, 4109);
   (4000000, 4111)].
Definition B115200 : Z := 4098.
Definition baud_to_speed (baud : Z) : Z * bool :=
  match List.find (fun e => fst e =? baud) baud_table with
  | Some e => (snd e, true) | None => (B115200, false) end.

Definition apply_serial_config (t : termios) (ud : uart_data) : termios :=
  let c := clear_bits (c_cflag t) CSIZE in
  let c := Z.lor c (if ud_data_bits ud =? 5 then CS5 else if ud_data_bits ud =? 6 then CS6
                    else if ud_data_bits ud =? 7 then CS7 else CS8) in
  let c := clear_bits c (Z.lor PARENB PARODD) in
  let c := if ud_parity ud =? 1 then Z.lor c (Z.lor PARENB PARODD)
           else if ud_parity ud =? 2 then Z.lor c PARENB else c in
  let c := if ud_stop_bits ud =? 2 then Z.lor c CSTOPB else clear_bits c CSTOPB in
  let c := clear_bits c CRTSCTS in
  let i := clear_bits (c_iflag t) (Z.lor IXON (Z.lor IXOFF IXANY)) in
  if ud_flow_control ud =? 1 then {| t with c_cflag := Z.lor c CRTSCTS; c_iflag := i |}
  else if ud_flow_control ud =? 2 then {| t with c_cflag := c; c_iflag := Z.lor i (Z.lor IXON IXOFF) |}
  else {| t with c_cflag := c; c_iflag := i |}.

Section ops.
Context {U : UartEnv}.

Definition ud_ticked (ud : uart_data) : uart_data := {| ud with ud_tick := S (ud_tick ud) |}.
Definition on_tty (f : tty -> tty) (ud : uart_data) : uart_data := {| ud with ud_tty := f (ud_tty ud) |}.

(** A call that changes the tty when it succeeds. *)
Definition tty_call (f : tty -> tty) (ud : uart_data) : Z * uart_data :=
  let ok := ua_ok (ud_tick ud) in
  let ud := ud_ticked ud in
  if ok then (0, on_tty f ud) else (-1, ud).
Definition tcgetattr (ud : uart_data) : option termios * uart_data :=
  (if ua_ok (ud_tick ud) then Some (ty_termios (ud_tty ud)) else None, ud_ticked ud).
Definition tcsetattr (t : termios) (ud : uart_data) : Z * uart_data :=
  let n := ud_tick ud in
  let ud := ud_ticked ud in
  if ua_ok n then
    let t' := ua_adopt n (ty_termios (ud_tty ud)) t in
    (0, {| (on_tty (fun y => {| y with ty_termios := t' |}) ud) with
           ud_asked := ud_asked ud ++ [(t, t')] |})
  else (-1, ud).

(** [tcflush] and the logs are left out; [ud_wire] starts empty. *)
Definition uart_open (ud : uart_data) : Z * uart_data :=
  let fd := ua_open (ud_tick ud) (ud_port ud) in
  let ud := ud_ticked ud in
  if fd <? 0 then (-1, ud) else
  let ud := if ud_exclusive ud then snd (tty_call (fun y => {| y with ty_excl := true |}) ud) else ud in
  let '(orig, ud) := tcgetattr ud in
  let ud := match orig with Some t => {| ud with ud_orig_termios := Some t |} | None => ud end in
  let '(got, ud) := tcgetattr ud in
  match got with
  | None => (-1, ud)
  | Some t =>
      let t := cfmakeraw t in
      let t := {| t with c_cflag := Z.lor (c_cflag t) (Z.lor CLOCAL CREAD); c_vmin := 0; c_vtime := 0 |} in
      let t := apply_serial_config t ud in
      let '(speed, ok) := baud_to_speed (ud_baud ud) in
      if negb ok then (-1, ud) else
      let '(rc, ud) := tcsetattr (cfsetspeed speed t) ud in
      if rc <? 0 then (-1, ud)
      else (0, {| ud with ud_fd := fd; ud_wire := []; ud_asked := option_list (last (ud_asked ud)) |})
  end.

Definition uart_close (ud : uart_data) : uart_data :=
  if ud_fd ud <? 0 then ud else
  let ud := {| ud with ud_wq := sm_link_wq_clear (ud_wq ud) |} in
  let ud := match ud_orig_termios ud with Some t => snd (tcsetattr t ud) | None => ud end in
  let ud := if ud_exclusive ud then snd (tty_call (fun y => {| y with ty_excl := false |}) ud) else ud in
  {| ud with ud_fd := -1 |}.

Definition uart_read_fd (ud : uart_data) : Z := ud_fd ud.
Definition uart_write_fd (ud : uart_data) : Z := ud_fd ud.
Definition uart_has_write_pending (ud : uart_data) : bool := sm_link_wq_has_pending (ud_wq ud).

Definition uart_flush_write_queue (ud : uart_data) : Z * uart_data :=
  if ud_fd ud <? 0 then (-1, ud) else
  let '(rc, wq, out, _) := sm_link_wq_flush (ud_wq ud) (ua_writes (ud_tick ud)) in
  (rc, {| (ud_ticked ud) with ud_wq := wq; ud_wire := ud_wire ud ++ out |}).

Definition uart_write (data : bytes) (ud : uart_data) : Z * uart_data :=
  if ud_fd ud <? 0 then (-1, ud) else
  let n := ud_tick ud in
  let '(rc, wq, out, _) :=
    sm_link_wq_write (ua_calloc n) (ua_malloc n) (ud_wq ud) data (ua_writes n) in
  (rc, {| (ud_ticked ud) with ud_wq := wq; ud_wire := ud_wire ud ++ out |}).

Definition set_break (on : bool) (y : tty) : tty := {| y with ty_break := on |}.

(** [tcsendbreak] asserts and releases the line by itself; the sleep between
    the two calls takes no state. *)
Definition uart_send_break (duration_ms : Z) (ud : uart_data) : Z * uart_data :=
  if ud_fd ud <? 0 then (-1, ud) else
  if duration_ms <=? 0 then tty_call (fun y => y) ud else
  let '(rc, ud) := tty_call (set_break true) ud in
  if rc <? 0 then (-1, ud) else
  let '(rc, ud) := tty_call (set_break false) ud in
  if rc <? 0 then (-1, ud) else (0, ud).

Definition modem_set (bits : Z) (y : tty) : tty := {| y with ty_modem := Z.lor (ty_modem y) bits |}.
Definition modem_clear (bits : Z) (y : tty) : tty := {| y with ty_modem := Z.ldiff (ty_modem y) bits |}.

Definition uart_pin_control (bit : Z) (action : string) (ud : uart_data) : Z * uart_data :=
  if streq action "set" || streq action "1" then tty_call (modem_set bit) ud
  else if streq action "pulse" || streq action "send" then
    let '(rc, ud) := tty_call (modem_set bit) ud in
    if rc <? 0 then (-1, ud) else tty_call (modem_clear bit) ud
  else if streq action "toggle" then
    let modem := ty_modem (ud_tty ud) in
    let '(rc, ud) := tty_call (fun y => y) ud in
    if rc <? 0 then (-1, ud)
    else tty_call (fun y => {| y with ty_modem := Z.lxor modem bit |}) ud
  else tty_call (modem_clear bit) ud.

Definition uart_reapply_config (ud : uart_data) : Z * uart_data :=
  let '(got, ud) := tcgetattr ud in
  match got with None => (-1, ud) | Some t => tcsetattr (apply_serial_config t ud) ud end.

Definition uart_set_param (key value : string) (ud : uart_data) : Z * uart_data :=
  if ud_fd ud <? 0 then (-1, ud) else
  let v := bytes_of_string value in
  if streq key "baud" then
    let '(baud, endp) := strtol10 v in
    if bool_decide (endp <> []) || (baud <=? 0) || (4000000 <? baud) then (-1, ud) else
    let '(speed, ok) := baud_to_speed baud in
    if negb ok then (-1, ud) else
    let '(got, ud) := tcgetattr ud in
    match got with
    | None => (-1, ud)
    | Some t =>
        let '(rc, ud) := tcsetattr (cfsetspeed speed t) ud in
        if rc <? 0 then (-1, ud) else (0, {| ud with ud_baud := baud |})
    end
  else if streq key "dtr" then uart_pin_control TIOCM_DTR value ud
  else if streq key "rts" then uart_pin_control TIOCM_RTS value ud
  else if streq key "break" then
    if streq value "set" || streq value "1" then tty_call (set_break true) ud
    else tty_call (set_break false) ud
  else if streq key "data_bits" then
    let db := atoi v in
    if (db <? 5) || (8 <? db) then (-1, ud) else uart_reapply_config {| ud with ud_data_bits := db |}
  else if streq key "parity" then
    if streq value "none" then uart_reapply_config {| ud with ud_parity := 0 |}
    else if streq value "odd" then uart_reapply_config {| ud with ud_parity := 1 |}
    else if streq value "even" then uart_reapply_config {| ud with ud_parity := 2 |}
    else (-1, ud)
  else if streq key "stop_bits" then
    let sb := atoi v in
    if negb (sb =? 1) && negb (sb =? 2) then (-1, ud)
    else uart_reapply_config {| ud with ud_stop_bits := sb |}
  else if streq key "flow_control" then
    if streq value "none" then uart_reapply_config {| ud with ud_flow_control := 0 |}
    else if streq value "rtscts" then uart_reapply_config {| ud with ud_flow_control := 1 |}
    else if streq value "xonxoff" then uart_reapply_config {| ud with ud_flow_control := 2 |}
    else (-1, ud)
  else (-1, ud).

Definition pin_json (modem bit : Z) : json := JBool (negb (Z.land modem bit =? 0)).

Definition uart_get_status (ud : uart_data) : list (string * json) :=
  [("link_type", JStr "uart"); ("port", JStr (ud_port ud)); ("baud", JNum (dbl_of_int (ud_baud ud)));
   ("data_bits", JNum (dbl_of_int (ud_data_bits ud)));
   ("parity", JStr (if ud_parity ud =? 1 then "odd" else if ud_parity ud =? 2 then "even" else "none"));
   ("stop_bits", JNum (dbl_of_int (ud_stop_bits ud)));
   ("flow_control", JStr (if ud_flow_control ud =? 1 then "rtscts"
                          else if ud_flow_control ud =? 2 then "xonxoff" else "none"));
   ("connected", JBool (0 <=? ud_fd ud))] ++
  (if (0 <=? ud_fd ud) && ua_ok (ud_tick ud) then
     let m := ty_modem (ud_tty ud) in
     [("pin_states", JObj [("dtr", pin_json m TIOCM_DTR); ("rts", pin_json m TIOCM_RTS);
                           ("cts", pin_json m TIOCM_CTS); ("dsr", pin_json m TIOCM_DSR);
                           ("cd", pin_json m TIOCM_CD); ("ri", pin_json m TIOCM_RI)])]
   else []).

Definition sm_uart_new (port : string) (baud : Z) (exclusive : bool) (y : tty) : uart_data :=
  mk_uart (snprintf_s 256 port) baud exclusive (-1) None 8 0 1 0 sm_link_wq_init y [] [] 0.

Definition uart_link : LinkOps := {|
  link_state := uart_data;
  link_open := uart_open;
  link_close := uart_close;
  link_read_fd := uart_read_fd;
  link_write_data := uart_write;
  link_flush_write_queue := Some uart_flush_write_queue;
  link_send_break := uart_send_break;
  link_set_param := uart_set_param;
  link_get_status := uart_get_status;
  link_connect_begin := None;
  link_connect_poll := None;
  link_filter_rx := None;
  link_silence_normal := false |}.
End ops.

(** ** How a port is configured *)

(** The line settings that termios flags stand for. *)
Record line := mk_line { ln_data : Z; ln_parity : Z; ln_stop : Z; ln_flow : Z }.
Definition line_of (t : termios) : line :=
  let c := Z.testbit (c_cflag t) in
  mk_line (5 + Z.b2z (c 4) + 2 * Z.b2z (c 5))
    (if c 8 then (if c 9 then 1 else 2) else 0) (if c 6 then 2 else 1)
    (if c 31 then 1 else if Z.testbit (c_iflag t) 10 && Z.testbit (c_iflag t) 12 then 2 else 0).
Definition settings (ud : uart_data) : line :=
  mk_line (ud_data_bits ud) (ud_parity ud) (ud_stop_bits ud) (ud_flow_control ud).
Definition line_ok (l : line) : Prop :=
  5 <= ln_data l <= 8 /\ 0 <= ln_parity l <= 2 /\ 1 <= ln_stop l <= 2 /\ 0 <= ln_flow l <= 2.

(** The bits the settings use. *)
Definition cflag_bits : list Z := [4; 5; 6; 8; 9; 31].
Definition iflag_bits : list Z := [10; 11; 12].

(** A 32-bit constant has only the bits it is seen to have. *)
Lemma bits_outside (l : list Z) v :
  forallb (fun i => negb (Z.testbit v i) || existsb (Z.eqb i) l) (zrange 32) = true ->
  0 <= v < 2 ^ 32 -> forall i, 0 <= i -> ~ In i l -> Z.testbit v i = false.
Proof.
  intros Hb Hv i Hi Hn. destruct (decide (i < 32)) as [Hlt|].
  - pose proof (zrange_forallb 32 _ Hb i ltac:(lia)) as H. apply orb_true_iff in H as [H|H].
    + by apply negb_true_iff in H.
    + apply existsb_exists in H as (j & Hj & ->%Z.eqb_eq). done.
  - destruct (decide (v = 0)) as [->|]; [apply Z.bits_0|].
    apply Z.bits_above_log2; [lia|]. assert (Z.log2 v < 32) by (apply Z.log2_lt_pow2; lia). lia.
Qed.

(** The flags as one value per group of bits. *)
Definition cs_value (db : Z) : Z :=
  if db =? 5 then CS5 else if db =? 6 then CS6 else if db =? 7 then CS7 else CS8.
Definition parity_value (p : Z) : Z :=
  if p =? 1 then Z.lor PARENB PARODD else if p =? 2 then PARENB else 0.
Definition stop_value (s : Z) : Z := if s =? 2 then CSTOPB else 0.
Definition rtscts_value (f : Z) : Z := if f =? 1 then CRTSCTS else 0.
Definition xon_value (f : Z) : Z := if f =? 1 then 0 else if f =? 2 then Z.lor IXON IXOFF else 0.

Definition put (flags mask v : Z) : Z := Z.lor (Z.ldiff flags mask) v.
Lemma put_bit flags mask v i :
  Z.testbit (put flags mask v) i = Z.testbit flags i && negb (Z.testbit mask i) || Z.testbit v i.
Proof. unfold put. by rewrite Z.lor_spec, Z.ldiff_spec. Qed.

Lemma put_stop c s : put c CSTOPB (stop_value s) = if s =? 2 then Z.lor c CSTOPB else clear_bits c CSTOPB.
Proof.
  unfold put, stop_value, clear_bits. destruct (s =? 2); [|by rewrite Z.lor_0_r].
  apply Z.bits_inj'. intros i Hi. rewrite !Z.lor_spec, Z.ldiff_spec.
  by destruct (Z.testbit c i), (Z.testbit CSTOPB i).
Qed.

Lemma apply_cflag t ud :
  c_cflag (apply_serial_config t ud) =
  put (put (put (put (c_cflag t) CSIZE (cs_value (ud_data_bits ud)))
    (Z.lor PARENB PARODD) (parity_value (ud_parity ud))) CSTOPB (stop_value (ud_stop_bits ud)))
    CRTSCTS (rtscts_value (ud_flow_control ud)).
Proof.
  rewrite put_stop. unfold apply_serial_config, put at 1 2 3, cs_value, parity_value, rtscts_value, clear_bits.
  assert (forall c, (if ud_parity ud =? 1 then Z.lor c (Z.lor PARENB PARODD)
    else if ud_parity ud =? 2 then Z.lor c PARENB else c) = Z.lor c (if ud_parity ud =? 1
    then Z.lor PARENB PARODD else if ud_parity ud =? 2 then PARENB else 0)) as ->.
  { intros c. destruct (_ =? 1); [done|]. destruct (_ =? 2); [done|by rewrite Z.lor_0_r]. }
  destruct (ud_flow_control ud =? 1); [done|]. destruct (ud_flow_control ud =? 2); by rewrite Z.lor_0_r.
Qed.
Lemma apply_iflag t ud :
  c_iflag (apply_serial_config t ud) =
  put (c_iflag t) (Z.lor IXON (Z.lor IXOFF IXANY)) (xon_value (ud_flow_control ud)).
Proof.
  unfold apply_serial_config, put, xon_value, clear_bits. destruct (ud_flow_control ud =? 1); simpl.
  - by rewrite Z.lor_0_r.
  - destruct (ud_flow_control ud =? 2); [done|]. simpl. by rewrite Z.lor_0_r.
Qed.

(** The bits a group may set. *)
Ltac value_cases := unfold cs_value, parity_value, stop_value, rtscts_value, xon_value;
  repeat match goal with |- context [if ?b then _ else _] => destruct b end.

(** The configuration is exactly the settings, and nothing else changes. *)
Lemma apply_serial_config_exact t ud :
  line_ok (settings ud) ->
  let t' := apply_serial_config t ud in
  line_of t' = settings ud /\
  (forall i, 0 <= i -> ~ In i cflag_bits -> Z.testbit (c_cflag t') i = Z.testbit (c_cflag t) i) /\
  (forall i, 0 <= i -> ~ In i iflag_bits -> Z.testbit (c_iflag t') i = Z.testbit (c_iflag t) i).
Proof.
  intros (Hd & Hp & Hs & Hf). cbn [settings ln_data ln_parity ln_stop ln_flow] in *. cbv zeta.
  assert (forall v i, 0 <= i -> ~ In i cflag_bits ->
    In v [CSIZE; Z.lor PARENB PARODD; CSTOPB; CRTSCTS; 0; CS6; CS7; PARENB] -> Z.testbit v i = false) as Hc.
  { intros v i Hi Hn Hv. apply (bits_outside cflag_bits); try done;
      repeat (destruct Hv as [<-|Hv]; [by vm_compute|]); done. }
  assert (forall v i, 0 <= i -> ~ In i iflag_bits ->
    In v [Z.lor IXON (Z.lor IXOFF IXANY); Z.lor IXON IXOFF; 0] -> Z.testbit v i = false) as Hx.
  { intros v i Hi Hn Hv. apply (bits_outside iflag_bits); try done;
      repeat (destruct Hv as [<-|Hv]; [by vm_compute|]); done. }
  split_and!.
  - unfold line_of. rewrite apply_cflag, apply_iflag, !put_bit. unfold settings.
    assert (forall i, In i [6; 8; 9; 31] -> Z.testbit (cs_value (ud_data_bits ud)) i = false) as B1.
    { intros i Hi. repeat (destruct Hi as [<-|Hi]; [by value_cases|]). done. }
    assert (forall i, In i [4; 5; 6; 31] -> Z.testbit (parity_value (ud_parity ud)) i = false) as B2.
    { intros i Hi. repeat (destruct Hi as [<-|Hi]; [by value_cases|]). done. }
    assert (forall i, In i [4; 5; 8; 9; 31] -> Z.testbit (stop_value (ud_stop_bits ud)) i = false) as B3.
    { intros i Hi. repeat (destruct Hi as [<-|Hi]; [by value_cases|]). done. }
    assert (forall i, In i [4; 5; 6; 8; 9] -> Z.testbit (rtscts_value (ud_flow_control ud)) i = false) as B4.
    { intros i Hi. repeat (destruct Hi as [<-|Hi]; [by value_cases|]). done. }
    rewrite (B1 6), (B1 8), (B1 9), (B1 31), (B2 4), (B2 5), (B2 6), (B2 31) by (simpl; tauto).
    rewrite (B3 4), (B3 5), (B3 8), (B3 9), (B3 31), (B4 4), (B4 5), (B4 6), (B4 8), (B4 9) by (simpl; tauto).
    repeat match goal with |- context [Z.testbit ?v ?i] =>
      lazymatch v with
      | c_cflag _ => fail | c_iflag _ => fail | cs_value _ => fail | parity_value _ => fail
      | stop_value _ => fail | rtscts_value _ => fail | xon_value _ => fail
      | _ => let b := eval vm_compute in (Z.testbit v i) in change (Z.testbit v i) with b
      end end.
    cbn [negb]. rewrite ?andb_false_r, ?andb_true_r, ?orb_false_r, ?orb_false_l.
    f_equal.
    + assert (ud_data_bits ud = 5 \/ ud_data_bits ud = 6 \/ ud_data_bits ud = 7 \/ ud_data_bits ud = 8)
        as [-> |[-> |[-> | ->]]] by lia; done.
    + assert (ud_parity ud = 0 \/ ud_parity ud = 1 \/ ud_parity ud = 2) as [-> |[-> | ->]] by lia; done.
    + assert (ud_stop_bits ud = 1 \/ ud_stop_bits ud = 2) as [-> | ->] by lia; done.
    + assert (ud_flow_control ud = 0 \/ ud_flow_control ud = 1 \/ ud_flow_control ud = 2)
        as [-> |[-> | ->]] by lia; done.
  - intros i Hi Hn. rewrite apply_cflag, !put_bit.
    rewrite (Hc CSIZE), (Hc (Z.lor PARENB PARODD)), (Hc CSTOPB), (Hc CRTSCTS) by (done || (simpl; tauto)).
    rewrite (Hc (cs_value _)), (Hc (parity_value _)), (Hc (stop_value _)), (Hc (rtscts_value _))
      by (done || (value_cases; simpl; tauto)).
    cbn [negb]. by rewrite ?andb_true_r, ?orb_false_r.
  - intros i Hi Hn. rewrite apply_iflag, put_bit.
    rewrite (Hx (Z.lor IXON (Z.lor IXOFF IXANY))), (Hx (xon_value _)) by (done || (value_cases; simpl; tauto)).
    cbn [negb]. by rewrite ?andb_true_r, ?orb_false_r.
Qed.
Lemma apply_serial_config_rest t ud :
  let t' := apply_serial_config t ud in
  c_oflag t' = c_oflag t /\ c_lflag t' = c_lflag t /\ c_vmin t' = c_vmin t /\ c_vtime t' = c_vtime t /\
  c_ispeed t' = c_ispeed t /\ c_ospeed t' = c_ospeed t.
Proof. unfold apply_serial_config. by repeat case_match. Qed.

(** ** An open port *)

(** Raw mode: no echo, no line editing, no signals, no translation either way,
    receiver on, modem lines ignored, reads that do not wait. *)
Definition raw_mode (t : termios) : Prop :=
  Z.land (c_lflag t) RAW_LFLAG = 0 /\ Z.land (c_oflag t) OPOST = 0 /\
  (forall i, In i [0; 1; 3; 5; 6; 7; 8] -> Z.testbit (c_iflag t) i = false) /\
  Z.testbit (c_cflag t) 7 = true /\ Z.testbit (c_cflag t) 11 = true /\
  c_vmin t = 0 /\ c_vtime t = 0.

(** The port is in raw mode at these line settings and this rate. *)
Definition configured (l : line) (baud : Z) (t : termios) : Prop :=
  raw_mode t /\ line_of t = l /\
  baud_to_speed baud = (c_ispeed t, true) /\ c_ospeed t = c_ispeed t.

Lemma open_termios_configured t ud speed :
  line_ok (settings ud) -> baud_to_speed (ud_baud ud) = (speed, true) ->
  let r := cfmakeraw t in
  let r := {| r with c_cflag := Z.lor (c_cflag r) (Z.lor CLOCAL CREAD); c_vmin := 0; c_vtime := 0 |} in
  configured (settings ud) (ud_baud ud) (cfsetspeed speed (apply_serial_config r ud)).
Proof.
  intros Hl Hb r r'. destruct (apply_serial_config_exact r' ud Hl) as (H1 & H2 & H3).
  destruct (apply_serial_config_rest r' ud) as (R1 & R2 & R3 & R4 & _). fold r' in H1, H2, H3, R1, R2, R3, R4.
  split; [|split; [exact H1|]; split; [exact Hb|done]]. unfold raw_mode, cfsetspeed.
  cbn [c_iflag c_oflag c_cflag c_lflag c_vmin c_vtime]. rewrite R1, R2, R3, R4. unfold r', r. split_and!; try done.
  - apply Z.land_ldiff.
  - apply Z.land_ldiff.
  - intros i Hi. assert (0 <= i /\ ~ In i iflag_bits) as [Hi0 Hn].
    { repeat (destruct Hi as [<-|Hi]; [split; [lia|simpl; lia]|]). done. }
    rewrite H3 by done. cbn [c_iflag cfmakeraw r r']. unfold clear_bits. rewrite Z.ldiff_spec.
    repeat (destruct Hi as [<-|Hi]; [apply andb_false_r|]). done.
  - rewrite H2 by (simpl; lia). cbn [c_cflag r']. rewrite Z.lor_spec. apply orb_true_r.
  - rewrite H2 by (simpl; lia). cbn [c_cflag r']. rewrite Z.lor_spec. apply orb_true_r.
Qed.

Section port.
Context {U : UartEnv}.
Context (port : string) (excl : bool).

(** The requests accepted since the port was opened at the rate [fst]: the
    first asks for the whole configuration, each later one for another rate on
    top of what is in force. *)
Inductive asked : Z -> list (termios * termios) -> Prop :=
  | asked_open baud t t' : configured (mk_line 8 0 1 0) baud t -> asked baud [(t, t')]
  | asked_baud baud l t t' baud' speed u :
      asked baud (l ++ [(t, t')]) -> baud_to_speed baud' = (speed, true) ->
      asked baud' ((l ++ [(t, t')]) ++ [(cfsetspeed speed t', u)]).

(** Every request was adopted as it was asked for. *)
Definition adopted (l : list (termios * termios)) : Prop := Forall (fun r => snd r = fst r) l.

Lemma asked_last baud l :
  asked baud l -> exists l' t t', l = l' ++ [(t, t')] /\
    baud_to_speed baud = (c_ispeed t, true) /\ c_ospeed t = c_ispeed t /\
    (adopted l -> configured (mk_line 8 0 1 0) baud t').
Proof.
  unfold adopted.
  induction 1 as [baud t t' Hc|baud l t t' baud' speed u _ (l1 & t1 & t1' & E1 & _ & _ & IH) Hb].
  - exists [], t, t'. pose proof Hc as (_ & _ & H3 & H4). split_and!; [done..|].
    intros Ha. apply Forall_inv in Ha. simpl in Ha. by subst.
  - exists (l ++ [(t, t')]), (cfsetspeed speed t'), u. split_and!; [done|exact Hb|done|].
    intros [Ha Hu]%Forall_app. apply app_inj_tail in E1 as [-> [= -> ->]].
    apply Forall_inv in Hu. simpl in Hu. subst u. destruct (IH Ha) as (R & Hl & _ & _).
    split_and!; [exact R|exact Hl|exact Hb|done].
Qed.
Lemma asked_first baud l :
  asked baud l -> exists t t' rest b0, l = (t, t') :: rest /\ configured (mk_line 8 0 1 0) b0 t.
Proof.
  induction 1 as [baud t t' Hc|baud l t t' baud' speed u _ (t1 & t1' & rest & b0 & E1 & Hc) Hb].
  - by exists t, t', [], baud.
  - exists t1, t1', (rest ++ [(cfsetspeed speed t', u)]), b0. split; [|done]. by rewrite E1.
Qed.

(** The link keeps its port and 8N1, and an open port was asked for them. *)
Definition uart_sound (ud : uart_data) : Prop :=
  ud_port ud = port /\ ud_exclusive ud = excl /\ wq_wf (ud_wq ud) /\
  settings ud = mk_line 8 0 1 0 /\
  (0 <= ud_fd ud ->
     asked (ud_baud ud) (ud_asked ud) /\ exists r, last (ud_asked ud) = Some (r, ty_termios (ud_tty ud))).

(** What else a system call or a transfer changes does not matter. *)
Lemma uart_sound_same ud ud' :
  ud_port ud' = ud_port ud -> ud_exclusive ud' = ud_exclusive ud -> wq_wf (ud_wq ud') ->
  settings ud' = settings ud -> ud_baud ud' = ud_baud ud -> ud_fd ud' = ud_fd ud ->
  ty_termios (ud_tty ud') = ty_termios (ud_tty ud) -> ud_asked ud' = ud_asked ud ->
  uart_sound ud -> uart_sound ud'.
Proof.
  intros H1 H2 H3 H4 H5 H6 H7 H8 (S1 & S2 & _ & S4 & S5). unfold uart_sound.
  rewrite H1, H2, H4, H5, H6, H7, H8. by split_and!.
Qed.
Lemma tty_call_sound f ud :
  (forall y, ty_termios (f y) = ty_termios y) -> uart_sound ud -> uart_sound (snd (tty_call f ud)).
Proof.
  intros Hf Hs. pose proof Hs as (_ & _ & Hw & _). unfold tty_call.
  destruct (ua_ok _); apply (uart_sound_same ud); try done; simpl; apply Hf.
Qed.

Lemma uart_open_sound ud : uart_sound ud -> uart_sound (snd (uart_open ud)).
Proof.
  intros Hs. unfold uart_open. pose proof Hs as (_ & _ & Hw & _). set (fd := ua_open _ _).
  assert (uart_sound (ud_ticked ud)) as H0 by (by apply (uart_sound_same ud)).
  destruct (fd <? 0); [done|].
  set (u1 := if ud_exclusive (ud_ticked ud) then _ else ud_ticked ud).
  assert (uart_sound u1) as H1.
  { unfold u1. case_match; [by apply tty_call_sound|done]. }
  clearbody u1. unfold tcgetattr at 1. cbv iota beta.
  set (u2 := match (if ua_ok (ud_tick u1) then _ else _) with Some _ => _ | None => _ end).
  assert (uart_sound u2) as H2.
  { pose proof H1 as (_ & _ & Hw1 & _). unfold u2. case_match; by apply (uart_sound_same u1). }
  clearbody u2. unfold tcgetattr. destruct (ua_ok (ud_tick u2)); cbv iota beta;
    pose proof H2 as (_ & _ & Hw2 & _); [|by apply (uart_sound_same u2)].
  set (u3 := ud_ticked u2). assert (uart_sound u3) as H3 by (by apply (uart_sound_same u2)).
  destruct (baud_to_speed (ud_baud u3)) as [speed ok] eqn:Eb. destruct ok; cbn [negb]; [|done].
  destruct H3 as (S1 & S2 & S3 & S4 & S5). unfold tcsetattr. cbn [ud_tick].
  destruct (ua_ok (ud_tick u3)); simpl; [|by split_and!].
  split_and!; [done..|]. intros _. cbn [ud_asked ud_baud ud_tty]. rewrite last_snoc. split; [|by eexists].
  constructor. rewrite <- S4.
  apply (open_termios_configured (ty_termios (ud_tty u2)) u3 speed); [|done].
  rewrite S4. unfold line_ok. simpl. lia.
Qed.

Lemma uart_close_sound ud : uart_sound ud -> uart_sound (uart_close ud).
Proof.
  intros (S1 & S2 & S3 & S4 & S5). unfold uart_close. destruct (_ <? _); [by split_and!|].
  set (u1 := match _ with Some t => _ | None => _ end).
  assert (ud_port u1 = port /\ ud_exclusive u1 = excl /\ ud_wq u1 = sm_link_wq_init /\
          settings u1 = mk_line 8 0 1 0) as (A1 & A2 & A3 & A4).
  { unfold u1, tcsetattr, tty_call. by repeat case_match. }
  clearbody u1. unfold tty_call. destruct (ud_exclusive u1) eqn:Ex; [destruct (ua_ok (ud_tick u1))|];
    split_and!; try exact A4; simpl; try congruence; try done; try lia; rewrite A3; apply wq_init_wf.
Qed.

Lemma uart_transfer_sound ud data :
  uart_sound ud -> uart_sound (snd (uart_write data ud)) /\ uart_sound (snd (uart_flush_write_queue ud)).
Proof.
  intros Hs. pose proof Hs as (_ & _ & Hw & _). split.
  - unfold uart_write. destruct (_ <? _); [done|].
    pose proof (wq_write_spec (ua_calloc (ud_tick ud)) (ua_malloc (ud_tick ud)) (ud_wq ud) data
                  (ua_writes (ud_tick ud)) Hw) as H.
    destruct (sm_link_wq_write _ _ _ _ _) as [[[rc wq] out] env]. by apply (uart_sound_same ud); try apply H.
  - unfold uart_flush_write_queue. destruct (_ <? _); [done|].
    pose proof (wq_flush_spec (ud_wq ud) (ua_writes (ud_tick ud)) Hw) as H.
    destruct (sm_link_wq_flush _ _) as [[[rc wq] out] env]. by apply (uart_sound_same ud); try apply H.
Qed.

Lemma uart_break_sound ms ud : uart_sound ud -> uart_sound (snd (uart_send_break ms ud)).
Proof.
  intros Hs. unfold uart_send_break. destruct (_ <? _); [done|]. destruct (_ <=? _); [by apply tty_call_sound|].
  pose proof (tty_call_sound (set_break true) ud (fun _ => eq_refl) Hs) as H1.
  destruct (tty_call (set_break true) ud) as [rc u1]. destruct (rc <? 0); [done|].
  pose proof (tty_call_sound (set_break false) u1 (fun _ => eq_refl) H1) as H2.
  destruct (tty_call (set_break false) u1) as [rc2 u2]. by destruct (rc2 <? 0).
Qed.

Lemma uart_pin_sound bit action ud : uart_sound ud -> uart_sound (snd (uart_pin_control bit action ud)).
Proof.
  intros Hs. unfold uart_pin_control. destruct (_ || _); [by apply tty_call_sound|].
  destruct (_ || _).
  { pose proof (tty_call_sound (modem_set bit) ud (fun _ => eq_refl) Hs) as H1.
    destruct (tty_call (modem_set bit) ud) as [rc u1]. destruct (rc <? 0); [done|]. by apply tty_call_sound. }
  destruct (streq _ _); [|by apply tty_call_sound].
  pose proof (tty_call_sound (fun y => y) ud (fun _ => eq_refl) Hs) as H1.
  destruct (tty_call (fun y => y) ud) as [rc u1]. destruct (rc <? 0); [done|]. by apply tty_call_sound.
Qed.

Lemma uart_baud_sound value ud : uart_sound ud -> uart_sound (snd (uart_set_param "baud" value ud)).
Proof.
  intros Hs. pose proof Hs as (S1 & S2 & Hw & S4 & S5). unfold uart_set_param. destruct (Z.ltb_spec (ud_fd ud) 0); [done|].
  cbn [streq]. destruct (strtol10 _) as [baud endp]. destruct (_ || _); [done|].
  destruct (baud_to_speed baud) as [speed ok] eqn:Eb. destruct ok; [|done]. cbn [negb].
  unfold tcgetattr. destruct (ua_ok (ud_tick ud)); [|by apply (uart_sound_same ud)].
  unfold tcsetattr. destruct (ua_ok _); [|by apply (uart_sound_same ud)].
  split_and!; [done..|]. intros _. destruct S5 as (Ha & r & Hr); [done|].
  apply last_Some in Hr as [l Hl]. simpl.
  split; [|eexists; by rewrite last_snoc]. rewrite Hl in *. by eapply asked_baud.
Qed.
End port.

(** A failed open leaves the port locked.  [uart_close] drops exclusivity
    explicitly because the flag belongs to the tty and outlives the descriptor;
    the error returns of [uart_open] do not: with the exclusive option and a
    rate that is not supported, the link reports failure and has no descriptor,
    but the tty refuses every other opener. *)
Theorem uart_failed_open_keeps_exclusive {U : UartEnv} ud :
  ud_fd ud = -1 -> ud_exclusive ud = true -> (forall n, ua_ok n = true) ->
  (forall n p, 0 <= ua_open n p) -> snd (baud_to_speed (ud_baud ud)) = false ->
  let '(rc, ud') := uart_open ud in
  rc = -1 /\ ud_fd ud' = -1 /\ ty_excl (ud_tty ud') = true /\ ty_excl (ud_tty (uart_close ud')) = true.
Proof.
  intros Hfd Hx Hok Hop Hb. unfold uart_open. destruct (Z.ltb_spec (ua_open (ud_tick ud) (ud_port ud)) 0).
  { specialize (Hop (ud_tick ud) (ud_port ud)). lia. }
  unfold tty_call, tcgetattr. destruct ud; simpl in *. subst. rewrite !Hok. simpl.
  destruct (baud_to_speed _) as [speed ok]. simpl in Hb. subst ok. done.
Qed.

Definition all_ok : UartEnv := {|
  ua_ok _ := true; ua_adopt _ _ t := t; ua_open _ _ := 4; ua_writes _ := []; ua_calloc _ := true; ua_malloc _ := true |}.
(** A terminal in cooked mode at 9600 baud. *)
Definition cooked_tty : tty := mk_tty (mk_termios 1280 5 2237 35387 1 0 13 13) 0 false false.

Section runs.
#[local] Existing Instance all_ok.

Lemma uart_failed_open_keeps_exclusive_witness :
  let '(rc, ud) := uart_open (sm_uart_new "/dev/ttyUSB0" 12345 true cooked_tty) in
  rc = -1 /\ ud_fd ud = -1 /\ ty_excl (ud_tty ud) = true /\ ty_excl (ud_tty (uart_close ud)) = true.
Proof.
  apply (uart_failed_open_keeps_exclusive (sm_uart_new "/dev/ttyUSB0" 12345 true cooked_tty));
    [done|done|done|done|by vm_compute].
Defined.

(** Open, close: the terminal is as it was. *)
Example uart_open_close :
  let '(rc, ud) := uart_open (sm_uart_new "/dev/ttyUSB0" 115200 true cooked_tty) in
  rc = 0 /\ line_of (ty_termios (ud_tty ud)) = mk_line 8 0 1 0 /\
  c_ospeed (ty_termios (ud_tty ud)) = 4098 /\ ty_excl (ud_tty ud) = true /\
  ud_tty (uart_close ud) = cooked_tty.
Proof. vm_compute. done. Qed.
End runs.
