(* ===== verification/BrokerOps.v ===== *)
(** * Broker operations ([src/broker.c])

    Clients and fan-out, writing to the device, the deferred break machine,
    the autoboot flood, the boot-stall timer, suspend and resume, and bringing
    the link up and down. *)
From S2P Require Import Prelude Arrays Codecs RingBuffer Json Protocol Regex Expect BootStage Autoresponder.
From S2P Require Import Anomaly Effects Client BrokerState.

#[local] Open Scope string_scope.
#[local] Open Scope list_scope.
#[local] Open Scope Z_scope.

Definition SM_MAX_BREAK_DURATION_MS : Z := 2000.
Definition SM_DEFAULT_BREAK_DURATION_MS : Z := 250.
Definition SM_MAX_SYSRQ_DELAY_MS : Z := 500.
Definition SM_MIN_FLOOD_INTERVAL_MS : Z := 1.
Definition SM_DEFAULT_FLOOD_INTERVAL_MS : Z := 10.
Definition SM_DEFAULT_FLOOD_DURATION_MS : Z := 2000.
Definition SM_MAX_FLOOD_DURATION_MS : Z := 15000.
Definition SM_DEFAULT_RESET_HOLD_MS : Z := 100.
Definition SM_MAX_RESET_HOLD_MS : Z := 2000.
Definition SM_RECONNECT_BASE_S : Z := 2.
Definition SM_RECONNECT_MAX_S : Z := 60.
Definition SM_LINK_CONNECT_TIMEOUT_S : Z := 5.
Definition SM_HISTORY_FENCE_DOWN : bytes := bytes_of_string "*** smolmux: link down ***" ++ [10].
Definition SM_HISTORY_FENCE_UP : bytes := bytes_of_string "*** smolmux: link up ***" ++ [10].
Definition SM_MCP_CLIENT_ID : string := "mcp".

Section ops.
Context {L : LinkOps} {E : SystemEnv} {J : JsonText} {R : RegexLib}.

Definition sm_now_monotonic : M double := query env_monotonic.
Definition sm_now_realtime : M double := query env_realtime.
Definition timer_call : M bool := query env_timer.
Definition alloc_call : M bool := query (fun n => env_alloc n 0).
Definition alloc_fun : M (Z -> bool) := query env_alloc.

(** ** Clients *)

Definition send_to_client (k : nat) (msg : json) : M unit :=
  modify (fun b => {| b with b_clients := upd_key k
    (fun c => {| c with cl_io := snd (sm_client_send msg (cl_io c)) |}) (b_clients b) |}) ;;
  emit (EvSend k msg).

(** The fan-out loop: one shared line into the queue of every client that
    completed its hello, except [exclude]. *)
Fixpoint broadcast_loop (line_id : nat) (line : bytes) (exclude : option nat)
    (l : list sm_client) (h : heap) : list sm_client * heap * list nat :=
  match l with
  | [] => ([], h, [])
  | c :: l' =>
      if bool_decide (exclude = Some (cl_key c)) || negb (cl_hello c) then
        let '(k, h, to) := broadcast_loop line_id line exclude l' h in (c :: k, h, to)
      else
        let '(_, io, h) := sm_client_send_shared line_id line (cl_io c) h in
        let '(k, h, to) := broadcast_loop line_id line exclude l' h in
        ({| c with cl_io := io |} :: k, h, cl_key c :: to)
  end.

Definition broadcast (msg : json) (exclude : option nat) : M unit := fun w =>
  let line := sm_msg_encode msg in
  let '(id, h) := sm_shared_line_new (w_heap w) in
  let '(cs, h, to) := broadcast_loop id line exclude (b_clients (w_b w)) h in
  ({| w with w_b := {| (w_b w) with b_clients := cs |};
             w_heap := sm_shared_line_release id h;
             w_trace := w_trace w ++ map (fun k => EvSend k msg) to |}, tt).

(** Pending expects are cancelled, a takeover is released, the slot is filled
    with the last client. *)
Definition remove_client (k : nat) : M unit := fun w =>
  let b := w_b w in
  match find_key k (b_clients b), key_index k 0 (b_clients b) with
  | Some c, Some i =>
      ({| w with
          w_b := {| b with
            b_expect := sm_expect_cancel_client (b_expect b) (cl_id c);
            b_takeover := if bool_decide (b_takeover b = Some k) then None else b_takeover b;
            b_clients := swap_remove i (b_clients b) |};
          w_heap := sm_client_destroy (cl_io c) (w_heap w);
          w_trace := w_trace w ++ [EvHangup k] |}, tt)
  | _, _ => (w, tt)
  end.

(** [set_nonblocking], [sm_client_new] and the epoll registration; [pid] is
    what SO_PEERCRED says, [auth] what the transport asks for.  Client numbers
    are 32 bits wide. *)
Definition sm_broker_register_client (pid : Z) (auth : bool) : M (option nat) :=
  b ← ask;
  if (SM_MAX_CLIENTS <=? length (b_clients b))%nat then mret None else
  ok ← alloc_call;
  modify (fun b => {| b with b_next_num := u32 (b_next_num b + 1) |}) ;;
  if negb ok then mret None else
  now ← sm_now_monotonic;
  reg ← timer_call;
  if negb reg then mret None else
  let k := b_next_key b in
  let c := {| (new_client k (b_next_num b)) with
              cl_connected_at := now; cl_peer_pid := pid; cl_requires_auth := auth |} in
  modify (fun b => {| b with b_clients := b_clients b ++ [c]; b_next_key := S k |}) ;;
  mret (Some k).

(** ** Writing to the device *)

Definition sm_broker_do_write (data : bytes) (sender : string) : M Z :=
  susp ← lflag lf_suspended;
  if susp : bool then mret (-1) else
  disc ← lflag lf_disconnected;
  if disc : bool then mret (-2) else
  rc ← link_call (EvWrite data sender) (link_write_data data);
  if rc <? 0 then mret (-3) else
  log ← gets b_io_log;
  match log with
  | Some _ => ts ← sm_now_realtime; emit (EvLogInput data sender ts) ;; mret 0
  | None => mret 0
  end.

(** [do_write(...) < 0 ? -1 : 0]. *)
Definition write_rc (data : bytes) (sender : string) : M Z :=
  rc ← sm_broker_do_write data sender; mret (if rc <? 0 then -1 else 0).

(** ** The deferred break machine *)

Definition pin_break_done (ctx : pin_break_ctx) (rc : Z) : M unit :=
  let id := if pc_has_id ctx then Some (pc_msg_id ctx) else None in
  cs ← gets b_clients;
  match find_id (pc_client_id ctx) cs with
  | Some c => send_to_client (cl_key c)
      (if rc =? 0 then sm_msg_ack "pin_control" id else sm_msg_error id "pin control failed")
  | None => mret tt
  end.

(** [if (done) done(b, ctx, rc);] — a sink's callback is only recorded. *)
Definition call_done (done : option break_done) (rc : Z) : M unit :=
  match done with
  | None => mret tt
  | Some d =>
      emit (EvDone d rc) ;;
      match d with DonePin ctx => pin_break_done ctx rc | DoneSink _ => mret tt end
  end.

(** Observation only: a schedule call is about to return 0. *)
Definition accept (done : option break_done) : M unit :=
  match done with Some d => emit (EvAccept d) | None => mret tt end.

Definition break_complete (rc : Z) : M unit :=
  bk ← gets b_brk;
  mod_brk (fun k => {| k with bk_state := SM_BRK_IDLE; bk_followup := []; bk_done := None |}) ;;
  call_done (bk_done bk) rc.

Definition break_cancel : M unit :=
  bk ← gets b_brk;
  match bk_state bk with
  | SM_BRK_IDLE => mret tt
  | SM_BRK_ASSERTED => set_param (bk_pin bk) "clear" ;; break_complete (-1)
  | SM_BRK_DELAY => break_complete (-1)
  end.

(** The timerfd is created once. *)
Definition break_timer_ensure : M bool :=
  bk ← gets b_brk;
  if bk_timer bk then mret true else
  ok ← timer_call;
  mod_brk (fun k => {| k with bk_timer := ok |}) ;;
  mret ok.

Definition clamp_break_ms (ms : Z) : Z :=
  let ms := if ms <=? 0 then SM_DEFAULT_BREAK_DURATION_MS else ms in
  if SM_MAX_BREAK_DURATION_MS <? ms then SM_MAX_BREAK_DURATION_MS else ms.
Definition clamp_delay_ms (ms : Z) : Z :=
  let ms := if ms <? 0 then 0 else ms in
  if SM_MAX_SYSRQ_DELAY_MS <? ms then SM_MAX_SYSRQ_DELAY_MS else ms.
Definition clamp_hold_ms (ms : Z) : Z :=
  let ms := if ms <=? 0 then SM_DEFAULT_RESET_HOLD_MS else ms in
  if SM_MAX_RESET_HOLD_MS <? ms then SM_MAX_RESET_HOLD_MS else ms.

Definition link_down (b : sm_broker) : bool :=
  lf_suspended (b_link b) || lf_disconnected (b_link b).

Definition sm_broker_schedule_break (duration_ms : Z) (followup : bytes) (delay_ms : Z)
    (done : option break_done) : M Z :=
  b ← ask;
  if link_down b then mret (-1) else
  if negb (bool_decide (bk_state (b_brk b) = SM_BRK_IDLE)) then mret (-1) else
  if 8 <? zlen followup then mret (-1) else
  let duration_ms := clamp_break_ms duration_ms in
  let delay_ms := clamp_delay_ms delay_ms in
  mod_brk (fun k => {| k with bk_pin := "break" |}) ;;
  set ← set_param "break" "set";
  if negb (set =? 0) then
    (* no separate assert and release: run the sequence now *)
    rc ← link_call (EvBreak duration_ms) (link_send_break duration_ms);
    rc ← (if (rc =? 0) && negb (zlen followup =? 0) then write_rc followup "break" else mret rc);
    accept done ;; call_done done rc ;; mret 0
  else
  ok ← break_timer_ensure;
  if negb ok then set_param "break" "clear" ;; mret (-1) else
  mod_brk (fun k => {| k with bk_state := SM_BRK_ASSERTED; bk_followup := followup;
                              bk_delay_ms := delay_ms; bk_done := done |}) ;;
  armed ← timer_call;
  if negb armed then
    set_param "break" "clear" ;;
    mod_brk (fun k => {| k with bk_state := SM_BRK_IDLE; bk_followup := []; bk_done := None |}) ;;
    mret (-1)
  else accept done ;; mret 0.

Definition sm_broker_schedule_line_reset (pin : string) (hold_ms : Z) (done : option break_done) :
    M Z :=
  b ← ask;
  if link_down b then mret (-1) else
  if negb (bool_decide (bk_state (b_brk b) = SM_BRK_IDLE)) then mret (-1) else
  if negb (streq pin "rts") && negb (streq pin "dtr") then mret (-1) else
  let other := if streq pin "rts" then "dtr" else "rts" in
  rc ← set_param other "clear";
  if negb (rc =? 0) then mret (-1) else
  ok ← break_timer_ensure;
  if negb ok then mret (-1) else
  rc ← set_param pin "set";
  if negb (rc =? 0) then mret (-1) else
  mod_brk (fun k => {| k with bk_pin := snprintf_s 8 pin; bk_state := SM_BRK_ASSERTED;
                              bk_followup := []; bk_done := done |}) ;;
  armed ← timer_call;
  if negb armed then
    set_param pin "clear" ;;
    mod_brk (fun k => {| k with bk_state := SM_BRK_IDLE; bk_done := None |}) ;;
    mret (-1)
  else accept done ;; mret 0.

(** The release is tried twice. *)
Definition clear_break_pin (pin : string) : M Z :=
  rc ← set_param pin "clear";
  if rc =? 0 then mret rc else set_param pin "clear".

Definition handle_break_timer : M unit :=
  bk ← gets b_brk;
  match bk_state bk with
  | SM_BRK_ASSERTED =>
      rc ← clear_break_pin (bk_pin bk);
      if (rc =? 0) && negb (zlen (bk_followup bk) =? 0) then
        armed ← (if 0 <? bk_delay_ms bk then timer_call else mret false);
        if armed : bool then mod_brk (fun k => {| k with bk_state := SM_BRK_DELAY |})
        else rc ← write_rc (bk_followup bk) "break"; break_complete rc
      else break_complete rc
  | SM_BRK_DELAY => rc ← write_rc (bk_followup bk) "break"; break_complete rc
  | SM_BRK_IDLE => mret tt
  end.

(** ** The autoboot flood *)

Definition flood_finish (matched : bool) (reason : string) : M unit :=
  fl ← gets b_flood;
  if negb (fl_active fl) then mret tt else
  (if fl_reset_pending fl then set_param (fl_reset_pin fl) (fl_reset_deassert fl) ;; mret tt
   else mret tt) ;;
  mod_flood (fun f => {| f with fl_stop_re := None; fl_reset_pending := false;
                                fl_active := false |}) ;;
  now ← sm_now_monotonic;
  broadcast (sm_msg_autoboot_result (if streq (fl_msg_id fl) "" then None else Some (fl_msg_id fl))
               matched reason (s_to_ms (now - fl_start fl)) (fl_sent fl)) None.

Definition flood_cancel : M unit :=
  fl ← gets b_flood;
  when (fl_active fl) (flood_finish false "cancelled").

(** The rolling window of the last 256 bytes. *)
Definition flood_tail_append (tail buf : bytes) : bytes :=
  let n := zlen buf in
  if SM_FLOOD_TAIL_LEN <=? n then zdrop (n - SM_FLOOD_TAIL_LEN) buf
  else
    let keep := if SM_FLOOD_TAIL_LEN <? zlen tail + n then SM_FLOOD_TAIL_LEN - n else zlen tail in
    zdrop (zlen tail - keep) tail ++ buf.

Definition flood_feed (buf : bytes) : M unit :=
  fl ← gets b_flood;
  match fl_stop_re fl with
  | None => mret tt
  | Some re =>
      if negb (fl_active fl) || (zlen buf =? 0) then mret tt else
      let tail := flood_tail_append (fl_tail fl) buf in
      let '(m, re) := sm_regex_exec re tail in
      mod_flood (fun f => {| f with fl_tail := tail; fl_stop_re := Some re |}) ;;
      match m with Some _ => flood_finish true "matched" | None => mret tt end
  end.

Definition handle_flood_timer : M unit :=
  fl ← gets b_flood;
  if negb (fl_active fl) then mret tt else
  (if fl_reset_pending fl then
     now ← sm_now_monotonic;
     if fl_reset_deassert_time fl <=? now then
       set_param (fl_reset_pin fl) (fl_reset_deassert fl) ;;
       mod_flood (fun f => {| f with fl_reset_pending := false |})
     else mret tt
   else mret tt) ;;
  now ← sm_now_monotonic;
  if fl_deadline fl <=? now then flood_finish false "timeout" else
  rc ← sm_broker_do_write (fl_key fl) "autoboot";
  if rc <? 0 then flood_finish false "aborted"
  else mod_flood (fun f => {| f with fl_sent := fl_sent f + 1 |}).

Definition clamp_flood_interval (ms : Z) : Z :=
  if ms <? SM_MIN_FLOOD_INTERVAL_MS then SM_DEFAULT_FLOOD_INTERVAL_MS else ms.
Definition clamp_flood_duration (ms : Z) : Z :=
  let ms := if ms <=? 0 then SM_DEFAULT_FLOOD_DURATION_MS else ms in
  if SM_MAX_FLOOD_DURATION_MS <? ms then SM_MAX_FLOOD_DURATION_MS else ms.

(** The reset pulse asked for, checked: [inr None] is no reset. *)
Definition flood_reset_args (reset_pin reset_assert : option string) (hold_ms duration_ms : Z) :
    option (option (string * string * string * Z)) :=
  match reset_pin with
  | None => Some None
  | Some pin =>
      if streq pin "" then Some None
      else if negb (streq pin "dtr") && negb (streq pin "rts") then None
      else
        let hold := clamp_hold_ms hold_ms in
        if duration_ms <=? hold then None else
        let act := match reset_assert with
                   | Some a => if streq a "" then "clear" else a
                   | None => "clear"
                   end in
        Some (Some (pin, act, if streq act "set" then "clear" else "set", hold))
  end.

(** The stop pattern: [None] when it does not compile. *)
Definition flood_stop_arg (stop_pattern : option string) : option (option sm_regex) :=
  match stop_pattern with
  | None => Some None
  | Some p => if streq p "" then Some None
              else match sm_regex_compile p with Some re => Some (Some re) | None => None end
  end.

Definition flood_timer_ensure : M bool :=
  fl ← gets b_flood;
  if fl_timer fl then mret true else
  ok ← timer_call;
  mod_flood (fun f => {| f with fl_timer := ok |}) ;;
  mret ok.

(** Undo of a flood that could not be started. *)
Definition flood_abandon : M unit :=
  mod_flood (fun f => {| f with fl_active := false; fl_stop_re := None; fl_reset_pending := false |}).

Definition sm_broker_start_flood (key : bytes) (interval_ms duration_ms : Z)
    (stop_pattern : option string) (client_id msg_id : option string)
    (reset_pin reset_assert : option string) (reset_hold_ms : Z) : M Z :=
  b ← ask;
  if link_down b then mret (-1) else
  if fl_active (b_flood b) then mret (-1) else
  if (zlen key =? 0) || (SM_FLOOD_KEY_MAX <? zlen key) then mret (-1) else
  let duration_ms := clamp_flood_duration duration_ms in
  match flood_reset_args reset_pin reset_assert reset_hold_ms duration_ms with
  | None => mret (-1)
  | Some reset =>
  match flood_stop_arg stop_pattern with
  | None => mret (-1)
  | Some re =>
      ok ← flood_timer_ensure;
      if negb ok then mret (-1) else
      start ← sm_now_monotonic;
      mod_flood (fun f => {| f with
        fl_key := key; fl_stop_re := re; fl_tail := []; fl_sent := 0; fl_start := start;
        fl_deadline := start + ms_to_s duration_ms;
        fl_client_id := snprintf_s 32 (default "" client_id);
        fl_msg_id := snprintf_s 64 (default "" msg_id);
        fl_reset_pending := false; fl_reset_pin := ""; fl_active := true |}) ;;
      asserted ← match reset with
        | None => mret true
        | Some (pin, act, deact, hold) =>
            rc ← set_param pin act;
            if rc =? 0 then
              mod_flood (fun f => {| f with
                fl_reset_pin := snprintf_s 8 pin; fl_reset_deassert := snprintf_s 8 deact;
                fl_reset_pending := true; fl_reset_deassert_time := start + ms_to_s hold |}) ;;
              mret true
            else mret false
        end;
      if negb (asserted : bool) then flood_abandon ;; mret (-1) else
      armed ← timer_call;
      if negb armed then
        match reset with
        | Some (pin, _, deact, _) =>
            set_param (snprintf_s 8 pin) (snprintf_s 8 deact) ;; flood_abandon ;; mret (-1)
        | None => flood_abandon ;; mret (-1)
        end
      else
      rc ← sm_broker_do_write key "autoboot";
      when (rc =? 0) (mod_flood (fun f => {| f with fl_sent := fl_sent f + 1 |})) ;;
      mret 0
  end end.

(** ** The boot-stall timer *)

Definition stall_disarm : M unit := modify (fun b => {| b with b_stall_notified := false |}).

Definition stall_arm : M unit :=
  b ← ask;
  if s_to_ms (bt_stall_timeout (b_boot b)) <=? 0 then mret tt else
  ok ← (if b_stall_timer b then mret true else timer_call);
  modify (fun b => {| b with b_stall_timer := ok |}) ;;
  when ok stall_disarm.

Definition handle_stall_timer : M unit :=
  b ← ask;
  if b_stall_notified b then mret tt else
  if link_down b then mret tt else
  if (bt_furthest (b_boot b) <? 0) || sm_boot_terminal_reached (b_boot b) then mret tt else
  modify (fun b => {| b with b_stall_notified := true |}) ;;
  let idx := bt_furthest (b_boot b) in
  let name := match zget (bt_stages (b_boot b)) idx with Some s => st_name s | None => "" end in
  broadcast (sm_msg_boot_stall name idx (Z.of_nat (bt_count (b_boot b)))
               (s_to_ms (bt_stall_timeout (b_boot b)))) None.
End ops.
