(* ===== verification/BrokerLink.v ===== *)
(** The broker between the link and its history: receiving, writing and
    reconnecting, and the answers to history requests. *)

(** * The link side of the broker ([src/broker.c])

    Expect results, the receive path, link loss, the reconnect schedule, and
    suspend and resume. *)
From S2P Require Import Prelude Codecs RingBuffer Json Protocol Regex Expect BootStage Autoresponder Anomaly.
From S2P Require Import Effects Client BrokerState BrokerOps.

#[local] Open Scope string_scope.
#[local] Open Scope list_scope.
#[local] Open Scope Z_scope.

Definition SM_LINK_DRAIN_MAX_READS : nat := 16.
Definition SM_LINK_DRAIN_CHUNK : Z := 4096.

(** A read from the link's descriptor: bytes, nothing (with what FIONREAD
    then says, 0 when it fails), no data now, the device gone, another error. *)
Inductive dres := DBytes (b : bytes) | DZero (avail : Z) | DAgain | DGone | DError.

Section link.
Context {L : LinkOps} {E : SystemEnv} {J : JsonText} {R : RegexLib}.

(** ** Expect results *)

(** The first sink that takes expect results. *)
Fixpoint expect_sink (i : nat) (l : list sm_sink) : option nat :=
  match l with
  | [] => None
  | s :: l' => if sk_expect s then Some i else expect_sink (S i) l'
  end.

(** A result goes to the sink when it is the MCP sink's, else to its client. *)
Definition deliver_expect (r : sm_expect_result) : M unit :=
  sinks ← gets b_sinks;
  cs ← gets b_clients;
  det ← gets b_anomaly;
  match (if streq (er_client_id r) SM_MCP_CLIENT_ID then expect_sink 0 sinks else None) with
  | Some i => emit (EvSinkExpect i r (sm_anomaly_get_incidents det))
  | None =>
      match find_id (er_client_id r) cs with
      | Some c => send_to_client (cl_key c)
          (sm_msg_expect_result_ex (er_id r) (er_matched r) (er_data r) (er_pattern r)
             (er_aborted r) (er_abort_reason r) (er_abort_pattern r))
      | None => mret tt
      end
  end.

Definition process_expect_results : M unit :=
  now ← sm_now_monotonic;
  eng ← gets b_expect;
  let '(results, eng) := sm_expect_collect eng now 16 in
  mod_expect (fun _ => eng) ;;
  for_each deliver_expect results.

(** ** The receive path *)

Definition rb_append (data : bytes) (ts : double) : M unit :=
  a ← alloc_call; c ← alloc_call; m ← alloc_call;
  update (fun w =>
    let '(rb, pool, _) := sm_rb_append (mk_ok a c m) (b_history (w_b w)) (w_pool w) data ts in
    {| w with w_b := {| (w_b w) with b_history := rb |}; w_pool := pool |}).

Definition text_log_write (data : bytes) (ts : double) : M unit :=
  log ← gets b_text_log;
  match log with Some _ => emit (EvText data ts) | None => mret tt end.

Definition history_fence (line : bytes) : M unit :=
  if zlen line =? 0 then mret tt else
  ts ← sm_now_realtime;
  rb_append line ts ;;
  text_log_write line ts.

(** An incident is broadcast, logged and shown to the sinks. *)
Definition announce_incident (ts : double) (inc : sm_anomaly_incident) : M unit :=
  broadcast (sm_msg_anomaly (in_id inc) (in_pattern_name inc) (in_severity inc)
               (in_timestamp inc) (in_match_text inc) (in_pre_context inc)) None ;;
  log ← gets b_io_log;
  match log with
  | Some _ => emit (EvLogIncident (in_id inc) (in_pattern_name inc) (in_severity inc) ts)
  | None => mret tt
  end ;;
  sinks ← gets b_sinks;
  for_each_i (fun i s => when (sk_event s) (emit (EvSinkEvent i "anomaly" (in_pattern_name inc))))
    0 sinks.

(** The last critical one of the new incidents. *)
Definition abort_pattern (l : list sm_anomaly_incident) : option string :=
  fold_left (fun acc inc => if streq (in_severity inc) "critical"
                            then Some (in_pattern_name inc) else acc) l None.

Definition chunk_anomalies (buf : bytes) (ts : double) : M unit :=
  det ← gets b_anomaly;
  wok ← alloc_fun; iok ← alloc_call; tsp ← query env_timespec;
  let '(n, det) := sm_anomaly_feed wok iok (fst tsp) (snd tsp) det buf ts in
  modify (fun b => {| b with b_anomaly := det |}) ;;
  let incidents := sm_anomaly_get_incidents det in
  let fresh := drop (length incidents - n) incidents in
  for_each (announce_incident ts) fresh ;;
  match abort_pattern fresh with
  | Some p =>
      mod_expect (fun eng => sm_expect_abort_all eng (Some "anomaly") (Some p)) ;;
      process_expect_results
  | None => mret tt
  end.

Definition announce_stage (total : Z) (i : nat) (st : sm_boot_stage) : M unit :=
  if st_reached st && negb (st_announced st) then
    modify (fun b => {| b with b_boot := {| (b_boot b) with bt_stages :=
      alter (fun s => {| s with st_announced := true |}) i (bt_stages (b_boot b)) |} |}) ;;
    broadcast (sm_msg_boot_stage (st_name st) (Z.of_nat i) total (st_reached_ts st)) None
  else mret tt.

Definition chunk_boot (buf : bytes) (ts : double) : M unit :=
  boot ← gets b_boot;
  let '(n, boot) := sm_boot_feed boot buf ts in
  modify (fun b => {| b with b_boot := boot |}) ;;
  if (n =? 0)%nat then mret tt else
  for_each_i (announce_stage (Z.of_nat (bt_count boot))) 0 (bt_stages boot) ;;
  if sm_boot_terminal_reached boot then stall_disarm else stall_arm.

Definition fire_rule (f : sm_ar_fired) : M unit :=
  rc ← sm_broker_do_write (f_response f) "autoresponder";
  if rc =? 0 then
    broadcast (sm_msg_autoresponder_fired (f_name f) (f_matched_text f) (zlen (f_response f))) None
  else mret tt.

Definition chunk_autoresponder (buf : bytes) (ts : double) : M unit :=
  ar ← gets b_ar;
  let '(fired, ar) := sm_autoresponder_feed ar buf ts SM_AR_MAX_FIRED_PER_FEED in
  modify (fun b => {| b with b_ar := ar |}) ;;
  for_each fire_rule fired.

(** History, logs and sinks, then the output message to every client. *)
Definition chunk_output (buf : bytes) (ts : double) : M unit :=
  rb_append buf ts ;;
  mod_link (fun l => {| l with lf_bytes_rx := u64 (lf_bytes_rx l + zlen buf) |}) ;;
  let b64 := string_of_bytes (sm_base64_encode buf) in
  log ← gets b_io_log;
  match log with Some _ => emit (EvLogOutput b64 ts) | None => mret tt end ;;
  text_log_write buf ts ;;
  sinks ← gets b_sinks;
  for_each_i (fun i s => when (sk_output s) (emit (EvSinkOutput i buf ts))) 0 sinks ;;
  broadcast (sm_msg_output_b64 (Some b64) ts) None.

Definition process_link_chunk (buf : bytes) (ts : double) : M unit :=
  ok ← alloc_fun;
  mod_expect (fun eng => sm_expect_feed ok eng buf) ;;
  flood_feed buf ;;
  chunk_output buf ts ;;
  chunk_anomalies buf ts ;;
  chunk_boot buf ts ;;
  chunk_autoresponder buf ts.

(** The filter may answer on the link's own descriptor. *)
Definition filter_call (filter : bytes -> link_state -> bytes * link_state) (buf : bytes) :
    M bytes :=
  fun w => let '(out, l) := filter buf (w_link w) in ({| w with w_link := l |}, out).

Definition link_drain_chunk (buf : bytes) : M unit :=
  ts ← sm_now_realtime;
  now ← sm_now_monotonic;
  mod_link (fun l => {| l with lf_last_rx := now; lf_healthy := true |}) ;;
  match link_filter_rx with
  | Some filter =>
      out ← filter_call filter (ztake SM_LINK_DRAIN_CHUNK buf);
      when (0 <? zlen out) (process_link_chunk out ts)
  | None => process_link_chunk buf ts
  end.

(** 1 is a disconnect; [first] is whether this is the first read. *)
Fixpoint drain_link_fd (max_reads : nat) (first : bool) (env : list dres)
    (chunk_cb : bytes -> M unit) : M Z :=
  match max_reads, env with
  | O, _ => mret 0
  | _, [] => mret 0
  | S n, r :: env' =>
      match r with
      | DZero avail =>
          if 0 <? avail then drain_link_fd n false env' chunk_cb
          else mret (if first then 1 else 0)
      | DAgain | DError => mret 0
      | DGone => mret 1
      | DBytes b =>
          match ztake SM_LINK_DRAIN_CHUNK b with
          | [] => mret (if first then 1 else 0)
          | b' => chunk_cb b' ;; drain_link_fd n false env' chunk_cb
          end
      end
  end.

Definition handle_link_disconnect : M unit :=
  disc ← lflag lf_disconnected;
  if disc : bool then mret tt else
  break_cancel ;; flood_cancel ;; stall_disarm ;;
  link_closed ;;
  now ← sm_now_monotonic;
  mod_link (fun l => {| l with lf_disconnected := true; lf_delay_s := SM_RECONNECT_BASE_S;
                               lf_reconnect_next := now |}) ;;
  history_fence SM_HISTORY_FENCE_DOWN ;;
  mod_expect (fun eng => sm_expect_abort_all eng (Some "link_down") (Some "link_down")) ;;
  process_expect_results ;;
  port ← gets b_port;
  broadcast (sm_msg_link_down port "device disconnected") None.

Definition process_link_data (env : list dres) : M unit := fun w =>
  if link_read_fd (w_link w) <? 0 then (w, tt) else
  (rc ← drain_link_fd SM_LINK_DRAIN_MAX_READS true env link_drain_chunk;
   when (rc =? 1) handle_link_disconnect) w.

(** ** Serial identity *)

Definition broker_record_identity : M unit :=
  port ← gets b_port;
  if streq port "" then mret tt else
  bp ← query env_by_path;
  bid ← query env_by_id;
  modify (fun b => let i := b_identity b in
    {| b with b_identity := mk_ident (id_weak i)
        (match bp port with Some p => snprintf_s 256 p | None => id_by_path i end)
        (if strstr port "by-id" then snprintf_s 256 port
         else match bid port with Some p => snprintf_s 256 p | None => id_by_id i end) |}).

(** A weak identity blocks reopening when the seat is unknown or changed. *)
Definition broker_identity_blocks_reopen : M bool :=
  b ← ask;
  if negb (id_weak (b_identity b)) || streq (b_port b) "" then mret false else
  bp ← query env_by_path;
  let now_path := match bp (b_port b) with Some p => snprintf_s 256 p | None => "" end in
  mret (sm_identity_refuse_weak_seat_change true (id_by_path (b_identity b)) now_path).

(** ** Reconnecting *)

Definition next_delay (d : Z) : Z :=
  if SM_RECONNECT_MAX_S <? d * 2 then SM_RECONNECT_MAX_S else d * 2.

Definition link_schedule_retry : M unit :=
  now ← sm_now_monotonic;
  mod_link (fun l => {| l with lf_reconnect_next := now + dbl_of_int (lf_delay_s l);
                               lf_delay_s := next_delay (lf_delay_s l) |}).

Definition link_bring_up (broadcast_up : bool) : M unit :=
  mono ← sm_now_monotonic;
  real ← sm_now_realtime;
  mod_link (fun l => {| l with lf_connecting := false; lf_disconnected := false;
                               lf_last_rx := mono; lf_healthy := false; lf_up_ts := real;
                               lf_bytes_rx := 0 |}) ;;
  modify (fun b => {| b with b_boot := sm_boot_restart (b_boot b) |}) ;;
  stall_disarm ;;
  modify (fun b => {| b with b_ar := sm_autoresponder_reset_window (b_ar b);
                             b_anomaly := sm_anomaly_reset_window (b_anomaly b) |}) ;;
  history_fence SM_HISTORY_FENCE_UP ;;
  broker_record_identity ;;
  if negb broadcast_up then mret tt else
  b ← ask;
  if lf_pending_ack (b_link b) then
    broadcast (sm_msg_resumed (b_port b)) None ;;
    mod_link (fun l => {| l with lf_pending_ack := false |})
  else broadcast (sm_msg_link_up (b_port b)) None.

Definition link_watch_connecting : M unit :=
  now ← sm_now_monotonic;
  mod_link (fun l => {| l with lf_connecting := true;
                               lf_deadline := now + dbl_of_int SM_LINK_CONNECT_TIMEOUT_S |}).

(** A failed resume goes back to suspended. *)
Definition link_connect_give_up : M unit :=
  mod_link (fun l => {| l with lf_connecting := false |}) ;;
  link_closed ;;
  mod_link (fun l => {| l with lf_disconnected := true |}) ;;
  lf ← gets b_link;
  when (lf_pending_ack lf)
    (broadcast (sm_msg_error (Some (lf_pending_id lf)) "failed to reopen serial port") None ;;
     mod_link (fun l => {| l with lf_pending_ack := false; lf_pending_id := "";
                                  lf_suspended := true |})) ;;
  link_schedule_retry.

(** The epoll bits of a descriptor. *)
Record epoll_ev := mk_ev { ev_in : bool; ev_out : bool; ev_hup : bool }.

Definition handle_link_connecting (ev : epoll_ev) : M unit :=
  if ev_hup ev then link_connect_give_up else
  if negb (ev_out ev) then mret tt else
  rc ← match link_connect_poll with
       | Some poll => link_call EvPoll poll
       | None => mret (-1)
       end;
  if rc =? 1 then link_bring_up true
  else when (rc <? 0) link_connect_give_up.

Definition attempt_reconnect : M unit :=
  lf ← gets b_link;
  if lf_suspended lf then mret tt else
  if lf_connecting lf then mret tt else
  if negb (lf_disconnected lf) || negb (lf_reconnect lf) then mret tt else
  now ← sm_now_monotonic;
  if now <? lf_reconnect_next lf then mret tt else
  blocked ← broker_identity_blocks_reopen;
  if blocked : bool then
    now ← sm_now_monotonic;
    mod_link (fun l => {| l with lf_reconnect_next := now + dbl_of_int 30 |})
  else
  match link_connect_begin with
  | Some begin =>
      rc ← link_call EvConnect begin;
      if rc =? 0 then link_bring_up true
      else if rc =? 1 then link_watch_connecting
      else link_schedule_retry
  | None =>
      rc ← link_call EvOpen link_open;
      if rc =? 0 then link_bring_up true else link_schedule_retry
  end.

(** ** Suspend and resume *)

Definition sm_broker_do_suspend (by_name : string) : M Z :=
  susp ← lflag lf_suspended;
  if susp : bool then mret (-1) else
  break_cancel ;; flood_cancel ;; stall_disarm ;;
  mod_expect sm_expect_cancel_all ;;
  mod_link (fun l => {| l with lf_suspended := true; lf_connecting := false |}) ;;
  link_closed ;;
  port ← gets b_port;
  broadcast (sm_msg_suspended port by_name) None ;;
  mret 0.

Definition finish_resume : M Z :=
  link_bring_up false ;;
  port ← gets b_port;
  broadcast (sm_msg_resumed port) None ;;
  mret 0.

Definition sm_broker_do_resume (by_name : string) : M Z :=
  susp ← lflag lf_suspended;
  if negb (susp : bool) then mret (-1) else
  blocked ← broker_identity_blocks_reopen;
  if blocked : bool then mret (-2) else
  match link_connect_begin with
  | Some begin =>
      rc ← link_call EvConnect begin;
      if rc <? 0 then mret (-2) else
      mod_link (fun l => {| l with lf_suspended := false |}) ;;
      if rc =? 1 then
        mod_link (fun l => {| l with lf_pending_ack := true |}) ;;
        link_watch_connecting ;; mret 0
      else finish_resume
  | None =>
      rc ← link_call EvOpen link_open;
      if negb (rc =? 0) then mret (-2) else
      mod_link (fun l => {| l with lf_suspended := false |}) ;;
      finish_resume
  end.
End link.

(** * History requests ([src/broker.c])

    A history request copies the chunks it asks for and encodes them a few at
    a time, one batch per turn of the event loop, before the response is sent. *)

#[local] Open Scope string_scope.
#[local] Open Scope list_scope.
#[local] Open Scope Z_scope.
#[local] Open Scope json_scope.

Definition SM_MAX_HISTORY_RESPONSE_BYTES : Z := 524288.
Definition SM_HISTORY_ENCODE_MAX_CHUNKS : nat := 4.
Definition SM_HISTORY_ENCODE_MAX_BYTES : Z := 32768.

(** ** Encoding *)

(** The part of the next chunk that is sent: what [first_skip] leaves of it,
    cut at the page's end.  [None] when the page is already full. *)
Definition encode_range (h : history_pending) (ch : sm_rb_chunk) : option (Z * Z) :=
  let off := if (hp_index h =? 0)%nat && (0 <? hp_first_skip h)
             then Z.min (hp_first_skip h) (c_len ch) else 0 in
  let len := c_len ch - off in
  if 0 <? hp_page_bytes h then
    let remain := u64 (hp_page_bytes h - hp_bytes_encoded h) in
    if remain =? 0 then None else Some (off, Z.min len remain)
  else Some (off, len).

Definition encode_chunk (h : history_pending) (ch : sm_rb_chunk) (off len : Z) : json :=
  let o := JObj [] |> add_b64_data "data" (ztake len (zdrop off (c_data ch)))
                   |> add_number "timestamp" (c_timestamp ch) in
  if hp_has_cursor h then o |> add_int "seq_start" (c_seq_start ch + off) else o.

(** The encode loop of one turn; the fuel is [chunks_done]'s distance from its
    limit. *)
Fixpoint encode_loop (fuel : nat) (bytes_done : Z) (h : history_pending) : history_pending :=
  match fuel, hp_chunks h !! hp_index h with
  | O, _ | _, None => h
  | S f, Some ch =>
      if SM_HISTORY_ENCODE_MAX_BYTES <=? bytes_done then h else
      match encode_range h ch with
      | None => h
      | Some (off, len) =>
          let h := {| h with hp_arr := hp_arr h ++ [encode_chunk h ch off len];
                             hp_bytes_encoded := hp_bytes_encoded h + len;
                             hp_index := S (hp_index h) |} in
          if (0 <? hp_page_bytes h) && (hp_page_bytes h <=? hp_bytes_encoded h)
          then {| h with hp_index := length (hp_chunks h) |}
          else encode_loop f (bytes_done + len) h
      end
  end.

Definition history_response (h : history_pending) : json :=
  let resp := sm_msg_history_response (Some (hp_msg_id h)) (Some (JArr (hp_arr h))) in
  let resp := if hp_truncated h then resp |> add_bool "truncated" true else resp in
  if hp_has_cursor h then
    resp |> add_number "cursor" (hp_cursor h) |> add_number "dropped" (hp_dropped h)
         |> add_bool "has_more" (hp_has_more h)
  else resp.

(** The newest chunks that fit [budget] bytes: how many of [l], newest first. *)
Fixpoint select_newest (budget total : Z) (l : list sm_rb_chunk) : nat :=
  match l with
  | [] => 0
  | c :: l' =>
      if total + c_len c <=? budget then S (select_newest budget (total + c_len c) l') else 0
  end.

(** A copy owned by the request: exactly [len] bytes are allocated. *)
Definition own_chunk (c : sm_rb_chunk) : sm_rb_chunk :=
  mk_chunk (c_timestamp c) (c_seq_start c) (c_data c) (c_len c) (c_len c).

Section history.
Context {L : LinkOps} {E : SystemEnv} {J : JsonText}.

Definition mod_hist (f : history_pending -> history_pending) : M unit :=
  modify (fun b => {| b with b_hist := f (b_hist b) |}).

Definition history_pending_clear : M unit := mod_hist (fun _ => hist_zero).

Definition process_history_pending : M unit :=
  h ← gets b_hist;
  if negb (hp_active h) then mret tt else
  let h := encode_loop SM_HISTORY_ENCODE_MAX_CHUNKS 0 h in
  mod_hist (fun _ => h) ;;
  if (hp_index h <? length (hp_chunks h))%nat then mret tt else
  cs ← gets b_clients;
  match find_id (hp_client_id h) cs with
  | Some c => send_to_client (cl_key c) (history_response h)
  | None => mret tt
  end ;;
  history_pending_clear.

(** The cursor page of a request, [max_bytes] clamped to the response limit. *)
Definition clamp_page (max_bytes : Z) : Z :=
  let m := if max_bytes <=? 0 then SM_MAX_HISTORY_RESPONSE_BYTES else max_bytes in
  if SM_MAX_HISTORY_RESPONSE_BYTES <? m then SM_MAX_HISTORY_RESPONSE_BYTES else m.

Definition handle_history_since_seq (k : nat) (c : sm_client) (root : json)
    (id : option string) (seq_d : double) : M unit :=
  let since_seq := if seq_d <? 0 then 0 else Z.quot seq_d one_s in
  let max_bytes := clamp_page (sm_json_get_int root "max_bytes" 0) in
  ok ← alloc_call;
  rb ← gets b_history;
  let p := sm_rb_get_since_seq ok rb since_seq max_bytes in
  if (length (pg_chunks p) =? 0)%nat then
    send_to_client k (sm_msg_history_response (Some (default "" id)) None
      |> add_int "cursor" (pg_cursor p) |> add_int "dropped" (pg_dropped p)
      |> add_bool "has_more" (pg_has_more p))
  else
  ok ← alloc_call;
  if negb ok then send_to_client k (sm_msg_error id "out of memory") else
  mod_hist (fun _ => mk_hist true (snprintf_s 32 (cl_id c)) (snprintf_s 64 (default "" id))
    (map own_chunk (pg_chunks p)) 0 [] false true
    (dbl_of_int (pg_cursor p)) (dbl_of_int (pg_dropped p)) (pg_has_more p)
    (pg_first_skip p) max_bytes 0).

Definition handle_history_request (k : nat) (c : sm_client) (root : json) : M unit :=
  let id := sm_json_get_string root "id" in
  h ← gets b_hist;
  if hp_active h then send_to_client k (sm_msg_error id "history request already in progress") else
  match get_item root "since_seq" with
  | Some (JNum seq_d) => handle_history_since_seq k c root id seq_d
  | _ =>
      let since_ts := sm_json_get_double root "since_ts" 0 in
      let last_bytes := sm_json_get_int root "last_bytes" 0 in
      ok ← alloc_call;
      rb ← gets b_history;
      let chunks :=
        if 0 <? last_bytes then sm_rb_get_last_n_bytes ok rb last_bytes
        else if 0 <? since_ts then sm_rb_get_since ok rb since_ts
        else sm_rb_get_all ok rb in
      let sel := select_newest SM_MAX_HISTORY_RESPONSE_BYTES 0 (rev chunks) in
      let truncated := (sel <? length chunks)%nat in
      if (sel =? 0)%nat then
        let resp := sm_msg_history_response (Some (default "" id)) None in
        send_to_client k (if truncated then resp |> add_bool "truncated" true else resp)
      else
      ok ← alloc_call;
      if negb ok then send_to_client k (sm_msg_error id "out of memory") else
      mod_hist (fun h => mk_hist true (snprintf_s 32 (cl_id c)) (snprintf_s 64 (default "" id))
        (map own_chunk (drop (length chunks - sel) chunks)) 0 [] truncated false
        (hp_cursor h) (hp_dropped h) (hp_has_more h) 0 0 0)
  end.
End history.
