(* ===== verification/BrokerHandlers.v ===== *)
(** * Message handlers ([src/broker.c])

    One handler per request of the wire protocol, and the dispatch with its
    hello gate. *)
From stdpp Require Import pretty.
From S2P Require Import Prelude Codecs RingBuffer Json Protocol Regex Expect BootStage Autoresponder Anomaly.
From S2P Require Import Effects Client BrokerState BrokerOps BrokerLink.

#[local] Open Scope string_scope.
#[local] Open Scope list_scope.
#[local] Open Scope Z_scope.
#[local] Open Scope json_scope.

Definition SM_MAX_SEND_PAYLOAD : Z := 40960.
Definition SM_MAX_SEND_B64_LEN : Z := (SM_MAX_SEND_PAYLOAD + 2) / 3 * 4 + 4.
Definition SM_DEFAULT_EXPECT_TIMEOUT_MS : Z := 5000.
Definition SM_MAX_EXPECT_TIMEOUT_MS : Z := 3600000.
Definition SM_LISTEN_EXPECT_RATE : Z := 8.
Definition SM_LISTEN_EXPECT_RATE_WINDOW : double := one_s.

Definition nonempty (s : option string) : option string :=
  match s with Some x => if streq x "" then None else s | None => None end.

Section handlers.
Context {L : LinkOps} {E : SystemEnv} {J : JsonText} {R : RegexLib}.

Definition get_id (root : json) : option string := sm_json_get_string root "id".

(** The handlers hold a pointer to a live client. *)
Definition with_client (k : nat) (f : sm_client -> M unit) : M unit :=
  cs ← gets b_clients;
  match find_key k cs with Some c => f c | None => mret tt end.
Definition mod_client (k : nat) (f : sm_client -> sm_client) : M unit :=
  modify (fun b => {| b with b_clients := upd_key k f (b_clients b) |}).

Definition send_error (k : nat) (id : option string) (why : string) : M unit :=
  send_to_client k (sm_msg_error id why).

(** ** Hello *)

(** [sm_client_flush] on the socket's answers [env]. *)
Definition flush_with (k : nat) (env : list wres) : M Z := fun w =>
  match find_key k (b_clients (w_b w)) with
  | None => (w, 0)
  | Some c =>
      let '(rc, io, h, _) := sm_client_flush (cl_io c) (w_heap w) env in
      ({| w with w_b := {| (w_b w) with b_clients :=
                   upd_key k (fun c => {| c with cl_io := io |}) (b_clients (w_b w)) |};
                 w_heap := h |}, rc)
  end.
Definition flush_client (k : nat) : M Z := env ← query env_writes; flush_with k env.
Definition set_disconnected (k : nat) : M unit :=
  mod_client k (fun c => {| c with cl_io := {| (cl_io c) with c_disconnected := true |} |}).

Definition token_ok (b : sm_broker) (c : sm_client) (root : json) : bool :=
  if cl_requires_auth c && negb (streq (b_auth_token b) "") then
    match sm_json_get_string root "token" with
    | Some t => ct_str_equal t (b_auth_token b)
    | None => false
    end
  else true.

Definition valid_role (role : option string) : bool :=
  match role with Some r => streq r "observer" || streq r "controller" | None => true end.
Definition version_ok (root : json) : bool :=
  match get_item root "protocol_version" with
  | Some (JNum d) => valueint d =? SM_PROTOCOL_VERSION
  | _ => false
  end.

(** Older connections of the same name, from the end of the array. *)
Fixpoint replace_loop (k : nat) (name : string) (i : nat) : M unit :=
  match i with
  | O => mret tt
  | S i' =>
      cs ← gets b_clients;
      match cs !! i' with
      | Some old =>
          when (negb (Nat.eqb (cl_key old) k) && cl_hello old && negb (streq (cl_name old) "") &&
                streq (cl_name old) name)
               (remove_client (cl_key old))
      | None => mret tt
      end ;;
      replace_loop k name i'
  end.

Definition handle_hello (k : nat) (c : sm_client) (root : json) : M unit :=
  if cl_hello c then send_error k None "hello already received" else
  b ← ask;
  if negb (token_ok b c root) then
    send_error k None "authentication failed" ;; flush_client k ;; set_disconnected k
  else
  let name := sm_json_get_string root "name" in
  let role := sm_json_get_string root "role" in
  if negb (valid_role role) then send_error k None "invalid role" else
  let name := match name with Some n => snprintf_s 64 n | None => cl_name c end in
  mod_client k (fun c => {| c with cl_name := name |}) ;;
  if negb (version_ok root) then send_error k None "protocol version mismatch" else
  let role := match role with Some r => snprintf_s 16 r | None => cl_role c end in
  mod_client k (fun c => {| c with cl_role := role; cl_hello := true |}) ;;
  cs ← gets b_clients;
  when (negb (streq name "")) (replace_loop k name (length cs)) ;;
  send_to_client k (sm_msg_welcome SM_VERSION (b_port b) (b_baudrate b) role).

(** ** Sending *)

Definition write_error (rc : Z) : string :=
  if rc =? -1 then "serial port is suspended"
  else if rc =? -2 then "serial port disconnected" else "write failed".

Definition echo_input (k : nat) (c : sm_client) (data : bytes) : M unit :=
  ts ← sm_now_realtime;
  broadcast (sm_msg_input_echo data (cl_name c) ts) (Some k).

Definition too_large (b64 : string) : bool :=
  SM_MAX_SEND_B64_LEN <? Z.of_nat (String.length b64).

Definition handle_send (k : nat) (c : sm_client) (root : json) : M unit :=
  let id := get_id root in
  b ← ask;
  if negb (can_send b c) then send_error k id "not authorized to send" else
  match sm_json_get_string root "data" with
  | None => send_error k id "missing data field"
  | Some b64 =>
      if too_large b64 then send_error k id "payload too large" else
      match sm_base64_decode (bytes_of_string b64) with
      | None => send_error k id "invalid base64 data"
      | Some data =>
          rc ← sm_broker_do_write data (cl_name c);
          if rc =? 0 then echo_input k c data else send_error k id (write_error rc)
      end
  end.

Definition clamp_timeout (ms : Z) : Z :=
  let ms := if ms <? 100 then 100 else ms in
  if SM_MAX_EXPECT_TIMEOUT_MS <? ms then SM_MAX_EXPECT_TIMEOUT_MS else ms.

Definition expect_add (id pattern : string) (timeout_s : double) (client_id : string) : M Z :=
  r ← alloc_call; m ← alloc_call; now ← sm_now_monotonic;
  eng ← gets b_expect;
  let '(rc, eng) := sm_expect_add r m now eng id pattern timeout_s client_id in
  mod_expect (fun _ => eng) ;; mret rc.

(** What the error paths after [sm_expect_add] do. *)
Definition cancel_and_error (k : nat) (id why : string) : M unit :=
  mod_expect (fun eng => sm_expect_cancel_id eng id) ;; send_error k (Some id) why.

Definition expect_send (k : nat) (c : sm_client) (id b64 : string) : M unit :=
  if too_large b64 then cancel_and_error k id "payload too large" else
  match sm_base64_decode (bytes_of_string b64) with
  | None => cancel_and_error k id "invalid base64 data"
  | Some data =>
      rc ← sm_broker_do_write data (cl_name c);
      if rc <? 0 then cancel_and_error k id (write_error rc) else echo_input k c data
  end.

Definition handle_send_expect (k : nat) (c : sm_client) (root : json) : M unit :=
  let id := get_id root in
  b ← ask;
  if negb (can_send b c) then send_error k id "not authorized to send" else
  if lf_suspended (b_link b) then send_error k id "serial port is suspended" else
  if lf_disconnected (b_link b) then send_error k id "serial port disconnected" else
  let timeout_ms := clamp_timeout (sm_json_get_int root "timeout_ms" SM_DEFAULT_EXPECT_TIMEOUT_MS) in
  match sm_json_get_string root "pattern", id with
  | Some pattern, Some i =>
      rc ← expect_add i pattern (ms_to_s timeout_ms) (cl_id c);
      if negb (rc =? 0) then send_error k id (sm_expect_add_errstr rc) else
      match sm_json_get_string root "data" with
      | Some b64 => expect_send k c i b64
      | None => mret tt
      end
  | _, _ => send_error k id "missing id or pattern"
  end.

(** The per-client window of listen-only expects: the new window start and
    count. *)
Definition listen_window (now : double) (c : sm_client) : double * Z :=
  let '(start, count) :=
    if SM_LISTEN_EXPECT_RATE_WINDOW <=? now - cl_le_start c then (now, 0)
    else (cl_le_start c, cl_le_count c) in
  (start, count + 1).

Definition handle_listen_expect (k : nat) (c : sm_client) (root : json) : M unit :=
  let id := get_id root in
  b ← ask;
  if lf_suspended (b_link b) then send_error k id "serial port is suspended" else
  if lf_disconnected (b_link b) then send_error k id "serial port disconnected" else
  let timeout_ms := clamp_timeout (sm_json_get_int root "timeout_ms" SM_DEFAULT_EXPECT_TIMEOUT_MS) in
  match nonempty (sm_json_get_string root "pattern"), id with
  | Some pattern, Some i =>
      now ← sm_now_monotonic;
      let '(start, count) := listen_window now c in
      mod_client k (fun c => {| c with cl_le_start := start; cl_le_count := count |}) ;;
      if SM_LISTEN_EXPECT_RATE <? count then send_error k id "listen_expect rate limit" else
      rc ← expect_add i pattern (ms_to_s timeout_ms) (cl_id c);
      if negb (rc =? 0) then send_error k id (sm_expect_add_errstr rc) else mret tt
  | _, _ => send_error k id "missing id or pattern"
  end.

(** ** Takeover *)

Definition set_takeover (t : option nat) : M unit := modify (fun b => {| b with b_takeover := t |}).

Definition handle_takeover (k : nat) (c : sm_client) (root : json) : M unit :=
  let id := get_id root in
  if streq (cl_role c) "observer" then send_error k id "observers cannot take over" else
  t ← gets b_takeover;
  match t with
  | Some k' => if Nat.eqb k' k then send_to_client k (sm_msg_ack "takeover" id)
               else send_error k id "another client has takeover"
  | None => set_takeover (Some k) ;; send_to_client k (sm_msg_ack "takeover" id)
  end.

Definition handle_release (k : nat) (c : sm_client) (root : json) : M unit :=
  t ← gets b_takeover;
  when (bool_decide (t = Some k)) (set_takeover None) ;;
  send_to_client k (sm_msg_ack "release" (get_id root)).

(** ** Status *)

Definition client_status (c : sm_client) : json :=
  let o := JObj [] |> add_string "id" (cl_id c) |> add_string "name" (cl_name c)
             |> add_string "role" (cl_role c) in
  let o := if 0 <? cl_peer_pid c then o |> add_int "pid" (cl_peer_pid c) else o in
  o |> add_int "wq_drops" (c_drops (cl_io c))
    |> add_int "wq_count" (Z.of_nat (c_count (cl_io c))).

Definition identity_strength (b : sm_broker) : string :=
  let id := if streq (id_by_id (b_identity b)) "" then b_port b else id_by_id (b_identity b) in
  if id_weak (b_identity b) || sm_serial_by_id_is_weak id then "WEAK"
  else if strstr id "by-id" || String.prefix "usb-" id then "STRONG" else "n/a".

(** The link's own members, where the broker has not set the key. *)
Definition merge_link_status (status : list (string * json)) (resp : json) : json :=
  fold_left (fun resp '(key, v) =>
    match get_item resp key with Some _ => resp | None => resp |> add_item key v end) status resp.

Definition stage_status (s : sm_boot_stage) : json :=
  let o := JObj [] |> add_string "name" (st_name s) |> add_bool "reached" (st_reached s) in
  if st_reached s then o |> add_number "timestamp" (st_reached_ts s) else o.
Definition boot_status (t : sm_boot_tracker) (now : double) : json :=
  JObj [] |> add_int "furthest" (bt_furthest t) |> add_int "total" (Z.of_nat (bt_count t))
    |> add_bool "stalled" (sm_boot_stalled t now)
    |> add_bool "terminal_reached" (sm_boot_terminal_reached t)
    |> add_item "stages" (JArr (map stage_status (bt_stages t))).

(** [connected] and [status] are what the link reports. *)
Definition status_members (b : sm_broker) (id : option string) (connected : bool)
    (status : list (string * json)) (mono real : double) : json :=
  let age := (mono - lf_last_rx (b_link b)) * 1000 in
  let resp := sm_msg_status_response (Some (default "" id)) (b_port b) (b_baudrate b) connected
      (lf_suspended (b_link b))
    |> add_item "clients" (JArr (map client_status (b_clients b)))
    |> add_item "takeover_client"
         match b_takeover b with
         | Some k => match find_key k (b_clients b) with
                     | Some c => JStr (cl_name c) | None => JNull end
         | None => JNull
         end
    |> add_string "board" (b_board b) |> add_string "role" (b_role b)
    |> add_number "link_up_ts" (lf_up_ts (b_link b))
    |> add_number "last_rx_age_ms" (if age <? 0 then 0 else age)
    |> add_int "bytes_rx_since_link_up" (lf_bytes_rx (b_link b))
    |> add_bool "identity_weak" (id_weak (b_identity b))
    |> add_string "identity_strength" (identity_strength b)
    |> add_string "identity_by_id" (id_by_id (b_identity b))
    |> add_string "identity_by_path" (id_by_path (b_identity b)) in
  let resp := merge_link_status status resp |> add_item "link" (JObj status) in
  let resp := resp |> add_string_opt "log_path" (b_io_log b)
    |> add_string_opt "text_log_path" (nonempty (b_text_log b)) in
  if (bt_count (b_boot b) =? 0)%nat then resp
  else resp |> add_item "boot" (boot_status (b_boot b) real).

Definition sm_broker_status_json (id : option string) : M json :=
  mono ← sm_now_monotonic;
  real ← sm_now_realtime;
  b ← ask;
  l ← link_view;
  mret (status_members b id (0 <=? link_read_fd l) (link_get_status l) mono real).

Definition handle_status (k : nat) (c : sm_client) (root : json) : M unit :=
  resp ← sm_broker_status_json (get_id root);
  send_to_client k resp.

(** ** Device control *)

(** The key: base64, else literal, else a space. *)
Definition flood_key_arg (root : json) : option bytes :=
  match nonempty (sm_json_get_string root "key_b64"), nonempty (sm_json_get_string root "key") with
  | Some kb64, _ =>
      match sm_base64_decode (bytes_of_string kb64) with
      | Some d => if (zlen d =? 0) || (SM_FLOOD_KEY_MAX <? zlen d) then None else Some d
      | None => None
      end
  | None, Some kstr => Some (ztake SM_FLOOD_KEY_MAX (bytes_of_string kstr))
  | None, None => Some [32]
  end.

Definition handle_interrupt_autoboot (k : nat) (c : sm_client) (root : json) : M unit :=
  let id := get_id root in
  b ← ask;
  if negb (can_send b c) then send_error k id "not authorized to send" else
  match flood_key_arg root with
  | None => send_error k id "invalid key_b64"
  | Some key =>
      rc ← sm_broker_start_flood key
        (sm_json_get_int root "interval_ms" SM_DEFAULT_FLOOD_INTERVAL_MS)
        (sm_json_get_int root "duration_ms" SM_DEFAULT_FLOOD_DURATION_MS)
        (sm_json_get_string root "stop_pattern") (Some (cl_id c)) id
        (sm_json_get_string root "reset_pin") (sm_json_get_string root "reset_assert")
        (sm_json_get_int root "reset_hold_ms" SM_DEFAULT_RESET_HOLD_MS);
      when (negb (rc =? 0))
        (send_error k id "autoboot flood rejected (busy, suspended, link down, or bad args)")
  end.

Definition pin_is_line_control (pin : string) : bool :=
  streq pin "dtr" || streq pin "rts" || streq pin "break".

Definition pin_ctx (c : sm_client) (id : option string) : pin_break_ctx :=
  mk_pin_ctx (snprintf_s 32 (cl_id c))
    (match id with Some i => snprintf_s 64 i | None => "" end)
    (match id with Some _ => true | None => false end).

Definition handle_pin_control (k : nat) (c : sm_client) (root : json) : M unit :=
  let id := get_id root in
  b ← ask;
  if negb (can_send b c) then send_error k id "not authorized" else
  match sm_json_get_string root "pin", sm_json_get_string root "action" with
  | Some pin, Some action =>
      if negb (pin_is_line_control pin) then
        send_error k id "unknown pin (expected dtr, rts, or break)"
      else if streq action "reset" && negb (streq pin "break") then
        ok ← alloc_call;
        if negb ok then send_error k id "out of memory" else
        rc ← sm_broker_schedule_line_reset pin
               (sm_json_get_int root "duration_ms" SM_DEFAULT_RESET_HOLD_MS)
               (Some (DonePin (pin_ctx c id)));
        when (negb (rc =? 0)) (send_error k id
          "reset busy or unavailable (suspended, link down, or modem lines not drivable)")
      else if streq pin "break" then
        ok ← alloc_call;
        if negb ok then send_error k id "out of memory" else
        rc ← sm_broker_schedule_break (sm_json_get_int root "duration_ms" 250) [] 0
               (Some (DonePin (pin_ctx c id)));
        when (negb (rc =? 0)) (send_error k id "break busy or unavailable")
      else
        rc ← set_param pin action;
        if rc =? 0 then send_to_client k (sm_msg_ack "pin_control" id)
        else send_error k id "pin control failed"
  | _, _ => send_error k id "missing pin or action"
  end.

Definition handle_set_baud (k : nat) (c : sm_client) (root : json) : M unit :=
  let id := get_id root in
  b ← ask;
  if negb (can_send b c) then send_error k id "not authorized" else
  let baud := sm_json_get_int root "baud" 0 in
  if baud <=? 0 then send_error k id "invalid baud rate" else
  rc ← set_param "baud" (snprintf_s 16 (pretty baud));
  if rc =? 0 then
    modify (fun b => {| b with b_baudrate := baud |}) ;;
    send_to_client k (sm_msg_ack "set_baud" id |> add_int "baud" baud)
  else send_error k id "failed to set baud rate".

Definition handle_suspend (k : nat) (c : sm_client) (root : json) : M unit :=
  let id := get_id root in
  b ← ask;
  if negb (can_send b c) then send_error k id "not authorized to suspend" else
  rc ← sm_broker_do_suspend (cl_name c);
  when (rc <? 0) (send_error k id "already suspended").

Definition handle_resume (k : nat) (c : sm_client) (root : json) : M unit :=
  let id := get_id root in
  b ← ask;
  if negb (can_send b c) then send_error k id "not authorized to resume" else
  rc ← sm_broker_do_resume (cl_name c);
  if rc =? -1 then send_error k id "not suspended"
  else if rc =? -2 then send_error k id "failed to reopen serial port"
  else
    ack ← lflag lf_pending_ack;
    match id with
    | Some i => when ((rc =? 0) && ack)
        (mod_link (fun l => {| l with lf_pending_id := snprintf_s 64 i |}))
    | None => mret tt
    end.

(** ** Incidents and rules *)

Definition incident_json (inc : sm_anomaly_incident) : json :=
  JObj [] |> add_string "incident_id" (in_id inc) |> add_string "pattern_name" (in_pattern_name inc)
    |> add_string "severity" (in_severity inc) |> add_number "timestamp" (in_timestamp inc)
    |> add_string "match_text" (in_match_text inc) |> add_string "pre_context" (in_pre_context inc).
Definition sm_broker_incidents_json (b : sm_broker) (since_ts : double) : json :=
  JArr (map incident_json (List.filter
    (fun inc => negb ((0 <? since_ts) && (in_timestamp inc <? since_ts)))
    (sm_anomaly_get_incidents (b_anomaly b)))).

Definition handle_incidents_request (k : nat) (c : sm_client) (root : json) : M unit :=
  b ← ask;
  send_to_client k (sm_msg_incidents_response (Some (default "" (get_id root)))
    (Some (sm_broker_incidents_json b (sm_json_get_double root "since_ts" 0)))).

(** One pattern of a configure_anomaly request; counts the accepted ones. *)
Fixpoint add_patterns (items : list json) (added : Z) : M Z :=
  match items with
  | [] => mret added
  | item :: items' =>
      match sm_json_get_string item "name", sm_json_get_string item "pattern" with
      | Some name, Some pat =>
          ok ← alloc_call;
          det ← gets b_anomaly;
          let '(rc, det) := sm_anomaly_add_pattern ok det name pat
            (Some (default "warning" (sm_json_get_string item "severity"))) in
          modify (fun b => {| b with b_anomaly := det |}) ;;
          add_patterns items' (if rc =? 0 then added + 1 else added)
      | _, _ => add_patterns items' added
      end
  end.

Definition handle_configure_anomaly (k : nat) (c : sm_client) (root : json) : M unit :=
  let id := get_id root in
  b ← ask;
  if negb (can_send b c) then send_error k id "not authorized" else
  match get_item root "patterns" with
  | Some (JArr items) =>
      added ← add_patterns items 0;
      send_to_client k (sm_msg_ack "configure_anomaly" id |> add_int "patterns_added" added)
  | _ => send_error k id "patterns must be an array"
  end.

(** The response bytes of a rule: base64, else literal, else none. *)
Definition ar_response_arg (root : json) : option bytes :=
  match nonempty (sm_json_get_string root "response_b64"),
        nonempty (sm_json_get_string root "response") with
  | Some rb64, _ =>
      match sm_base64_decode (bytes_of_string rb64) with
      | Some d => if SM_AR_RESPONSE_MAX <? zlen d then None else Some d
      | None => None
      end
  | None, Some rstr => Some (ztake SM_AR_RESPONSE_MAX (bytes_of_string rstr))
  | None, None => Some []
  end.

Definition mod_ar (ar : sm_autoresponder) : M unit := modify (fun b => {| b with b_ar := ar |}).

Definition handle_configure_autoresponder (k : nat) (c : sm_client) (root : json) : M unit :=
  let id := get_id root in
  b ← ask;
  if negb (can_send b c) then send_error k id "not authorized" else
  match nonempty (sm_json_get_string root "name") with
  | None => send_error k id "missing name"
  | Some name =>
  if sm_json_get_bool root "remove" false then
    let '(removed, ar) := sm_autoresponder_remove (b_ar b) name in
    mod_ar ar ;;
    send_to_client k (sm_msg_ack "configure_autoresponder" id
                      |> add_bool "removed" (negb (removed =? 0)))
  else
  match nonempty (sm_json_get_string root "pattern") with
  | None => send_error k id "missing pattern"
  | Some pattern =>
  match ar_response_arg root with
  | None => send_error k id "invalid response_b64"
  | Some response =>
      ok ← alloc_call;
      let '(rc, ar) := sm_autoresponder_add ok (b_ar b) name pattern response
        (sm_json_get_bool root "once" false)
        (sm_json_get_int root "cooldown_ms" SM_AR_DEFAULT_COOLDOWN_MS) in
      mod_ar ar ;;
      if negb (rc =? 0) then
        send_error k id "autoresponder rejected (bad regex, full, or response too long)"
      else
        mod_ar (sm_autoresponder_set_owner ar name
                  (if streq (cl_name c) "" then cl_id c else cl_name c)) ;;
        send_to_client k (sm_msg_ack "configure_autoresponder" id |> add_string "name" name)
  end end end.

(** A rule as a client sees it: the response only for who could install it. *)
Definition rule_json (may_send : bool) (r : sm_ar_rule) : json :=
  let o := JObj [] |> add_string "name" (r_name r) |> add_string "pattern" (r_pattern r) in
  let o := if may_send then o |> add_b64_data "response_b64" (r_response r)
           else o |> add_int "response_len" (zlen (r_response r)) in
  o |> add_string "created_by" (r_created_by r) |> add_bool "once" (r_once r)
    |> add_bool "enabled" (r_enabled r) |> add_int "cooldown_ms" (s_to_ms (r_cooldown r)).

Definition handle_autoresponders_request (k : nat) (c : sm_client) (root : json) : M unit :=
  b ← ask;
  send_to_client k (sm_msg_autoresponders_response (Some (default "" (get_id root)))
    (Some (JArr (map (rule_json (can_send b c)) (ar_rules (b_ar b)))))).

(** ** Dispatch *)

Definition dispatch (k : nat) (c : sm_client) (type : sm_msg_type) (root : json) : M unit :=
  match type with
  | SM_MSG_HELLO => handle_hello k c root
  | SM_MSG_SEND => handle_send k c root
  | SM_MSG_SEND_EXPECT => handle_send_expect k c root
  | SM_MSG_LISTEN_EXPECT => handle_listen_expect k c root
  | SM_MSG_TAKEOVER => handle_takeover k c root
  | SM_MSG_RELEASE => handle_release k c root
  | SM_MSG_STATUS => handle_status k c root
  | SM_MSG_PIN_CONTROL => handle_pin_control k c root
  | SM_MSG_SET_BAUD => handle_set_baud k c root
  | SM_MSG_SUSPEND => handle_suspend k c root
  | SM_MSG_RESUME => handle_resume k c root
  | SM_MSG_HISTORY_REQUEST => handle_history_request k c root
  | SM_MSG_INCIDENTS_REQUEST => handle_incidents_request k c root
  | SM_MSG_CONFIGURE_ANOMALY => handle_configure_anomaly k c root
  | SM_MSG_CONFIGURE_AUTORESPONDER => handle_configure_autoresponder k c root
  | SM_MSG_AUTORESPONDERS_REQUEST => handle_autoresponders_request k c root
  | SM_MSG_INTERRUPT_AUTOBOOT => handle_interrupt_autoboot k c root
  | _ => send_error k (get_id root) "unknown message type"
  end.

Definition handle_client_message (k : nat) (msg : sm_msg) : M unit :=
  with_client k (fun c =>
    if negb (cl_hello c) && negb (bool_decide (m_type msg = SM_MSG_HELLO))
    then send_error k None "hello required"
    else dispatch k c (m_type msg) (default JNull (m_root msg))).
End handlers.
