(* ===== verification/BrokerLoop.v ===== *)
(** * The event loop ([src/broker.c], [sm_broker_run])

    One turn of the loop: pending expects and history, the reconnect schedule,
    the descriptors epoll reported, the client queues, and the periodic
    housekeeping.  What epoll, the sockets and the sinks do in a turn is its
    input. *)
From S2P Require Import Prelude RingBuffer Json Protocol Regex Expect BootStage Autoresponder Anomaly Effects.
From S2P Require Import Client BrokerState BrokerOps BrokerLink BrokerHandlers.

#[local] Open Scope string_scope.
#[local] Open Scope list_scope.
#[local] Open Scope Z_scope.

Definition SM_HELLO_TIMEOUT_S : Z := 10.
Definition health_period : double := dbl_of_int 2.
Definition idle_degraded : double := dbl_of_int 8.
Definition idle_recovered : double := dbl_of_int 3.

(** What a sink asks of the broker from inside its [on_readable]. *)
Inductive sink_call :=
  | ScWrite (data : bytes) (sender : string)
  | ScBreak (duration_ms : Z) (followup : bytes) (delay_ms : Z) (ctx : nat)
  | ScReset (pin : string) (hold_ms : Z) (ctx : nat)
  | ScParam (pin action : string)
  | ScSuspend (by_name : string)
  | ScResume (by_name : string)
  | ScExpect (id pattern : string) (timeout_s : double)
  | ScCancel
  | ScCancelId (id : string)
  | ScRule (name pattern : string) (response : bytes) (once : bool) (cooldown_ms : Z)
  | ScWatchdog (name pattern severity : string)
  | ScBroadcast (msg : json)
  | ScAsk.                                           (* a clock or the allocator *)

(** What epoll reports, with what the descriptor then delivers. *)
Inductive loop_event :=
  | LeListen (pid : option Z)                        (* accept; None when it fails *)
  | LePipe (regs : list (Z * bool))                  (* fds handed over by sinks *)
  | LeBreakTimer | LeFloodTimer | LeStallTimer
  | LeLink (ev : epoll_ev) (reads : list dres)
  | LeLinkOut (out : bool)
  | LeSink (calls : list sink_call)
  | LeClient (key : nat) (ev : epoll_ev) (reads : list rres).

Section loop.
Context {L : LinkOps} {E : SystemEnv} {J : JsonText} {R : RegexLib}.

(** [sm_broker_init] on the link state [l]. *)
Definition sm_broker_init (ok : bool) (port : string) (baud : Z) : sm_broker :=
  mk_broker sm_expect_init (sm_rb_init SM_RING_BUFFER_MAX_BYTES)
    (sm_anomaly_add_builtins ok (sm_anomaly_init ok)) (sm_boot_init ok) (sm_autoresponder_init ok)
    None None [] 0 0 None
    (mk_lf false true false 0 0 false 0 false "" 0 false 0 0)
    (mk_brk false SM_BRK_IDLE "" [] 0 None)
    (mk_flood false false [] 0 None [] 0 0 "" "" "" "" false 0)
    false false port baud "" "" (mk_ident false "" "") "" [] hist_zero 0.
Definition init_world (b : sm_broker) (l : link_state) : world := mk_world b l ∅ [] 0 [].

Definition is_client_live (k : nat) : M bool :=
  cs ← gets b_clients; mret (match find_key k cs with Some _ => true | None => false end).

Definition client_disconnected (k : nat) : M bool :=
  cs ← gets b_clients;
  mret (match find_key k cs with Some c => c_disconnected (cl_io c) | None => false end).

(** [sm_client_feed] on what the socket delivers. *)
Definition feed_client (k : nat) (r : rres) : M (list sm_msg) := fun w =>
  match find_key k (b_clients (w_b w)) with
  | None => (w, [])
  | Some c =>
      let '(msgs, io) := sm_client_feed r 16 (cl_io c) in
      ({| w with w_b := {| (w_b w) with b_clients :=
                   upd_key k (fun c => {| c with cl_io := io |}) (b_clients (w_b w)) |} |}, msgs)
  end.

Definition handle_if_connected (k : nat) (msg : sm_msg) : M unit :=
  d ← client_disconnected k;
  when (negb d) (handle_client_message k msg).

(** The read loop, at most [fuel] batches of 16 messages; [true] when the
    client was removed. *)
Fixpoint client_input (fuel : nat) (k : nat) (reads : list rres) : M bool :=
  match fuel with
  | O => mret false
  | S f =>
      msgs ← feed_client k (default RAgain (head reads));
      for_each (handle_if_connected k) msgs ;;
      d ← client_disconnected k;
      if d : bool then remove_client k ;; mret true
      else if (length msgs =? 16)%nat then client_input f k (tail reads)
      else mret false
  end.

Definition set_write_pending (k : nat) (p : bool) : M unit :=
  mod_client k (fun c => {| c with cl_write_pending := p |}).

Definition flush_or_remove (k : nat) : M bool :=
  rc ← flush_client k;
  if rc <? 0 then remove_client k ;; mret false
  else when (rc =? 0) (set_write_pending k false) ;; mret true.

Definition process_client_event (k : nat) (ev : epoll_ev) (reads : list rres) : M unit :=
  removed ← (if ev_in ev then client_input 64 k reads else mret false);
  if removed : bool then mret tt else
  if ev_hup ev then remove_client k else
  live ← is_client_live k;
  if negb live then mret tt else
  kept ← (if ev_out ev then flush_or_remove k else mret true);
  if negb (kept : bool) then mret tt else
  with_client k (fun c =>
    when ((0 <? c_count (cl_io c))%nat && negb (cl_write_pending c)) (set_write_pending k true)).

Definition any_client_write_pending : M bool :=
  cs ← gets b_clients; mret (existsb (fun c => (0 <? c_count (cl_io c))%nat) cs).

(** The index stays where a client was removed; every iteration moves it or
    removes one. *)
Fixpoint flush_client_queues (fuel : nat) (i : nat) : M unit :=
  match fuel with
  | O => mret tt
  | S f =>
      cs ← gets b_clients;
      match cs !! i with
      | None => mret tt
      | Some c =>
          if (0 <? c_count (cl_io c))%nat then
            rc ← flush_client (cl_key c);
            if rc <? 0 then remove_client (cl_key c) ;; flush_client_queues f i
            else flush_client_queues f (S i)
          else flush_client_queues f (S i)
      end
  end.

(** ** Housekeeping *)

(** A client that never said hello, or whose process is gone ([gone]). *)
Definition stale_client (now : double) (gone : nat -> bool) (c : sm_client) : bool :=
  (negb (cl_hello c) && (0 <? cl_connected_at c) &&
   (dbl_of_int SM_HELLO_TIMEOUT_S <? now - cl_connected_at c)) || gone (cl_key c).

Fixpoint drop_stale (now : double) (gone : nat -> bool) (i : nat) : M unit :=
  match i with
  | O => mret tt
  | S i' =>
      cs ← gets b_clients;
      match cs !! i' with
      | Some c => when (stale_client now gone c) (remove_client (cl_key c))
      | None => mret tt
      end ;;
      drop_stale now gone i'
  end.

Definition link_health (now : double) : M unit :=
  b ← ask;
  let lf := b_link b in
  let idle := now - lf_last_rx lf in
  if link_down b || link_silence_normal then mret tt
  else if (0 <? lf_last_rx lf) && (idle_degraded <? idle) && (lf_bytes_rx lf =? 0) then
    mod_link (fun l => {| l with lf_healthy := false |})
  else when (idle <? idle_recovered) (mod_link (fun l => {| l with lf_healthy := true |})).

Definition housekeeping (gone : nat -> bool) : M unit :=
  now ← sm_now_monotonic;
  b ← ask;
  if now - b_last_health_check b <=? health_period then mret tt else
  modify (fun b => {| b with b_last_health_check := now |}) ;;
  drop_stale now gone (length (b_clients b)) ;;
  link_health now.

(** ** Events *)

Definition add_rule (name pattern : string) (response : bytes) (once : bool) (cooldown_ms : Z) : M Z :=
  ok ← alloc_call;
  ar ← gets b_ar;
  let '(rc, ar) := sm_autoresponder_add ok ar name pattern response once cooldown_ms in
  mod_ar ar ;; mret rc.
Definition add_watchdog (name pattern severity : string) : M Z :=
  ok ← alloc_call;
  det ← gets b_anomaly;
  let '(rc, det) := sm_anomaly_add_pattern ok det name pattern (Some severity) in
  modify (fun b => {| b with b_anomaly := det |}) ;; mret rc.

Definition sink_op (s : sink_call) : M unit :=
  match s with
  | ScWrite data sender => sm_broker_do_write data sender ;; mret tt
  | ScBreak d f delay ctx => sm_broker_schedule_break d f delay (Some (DoneSink ctx)) ;; mret tt
  | ScReset pin hold ctx => sm_broker_schedule_line_reset pin hold (Some (DoneSink ctx)) ;; mret tt
  | ScParam pin action =>
      when (pin_is_line_control pin && negb (streq pin "break")) (set_param pin action ;; mret tt)
  | ScSuspend name => sm_broker_do_suspend name ;; mret tt
  | ScResume name => sm_broker_do_resume name ;; mret tt
  | ScExpect id pattern t => expect_add id pattern t SM_MCP_CLIENT_ID ;; mret tt
  | ScCancel => mod_expect (fun eng => sm_expect_cancel_client eng SM_MCP_CLIENT_ID)
  | ScCancelId id => mod_expect (fun eng => sm_expect_cancel_id eng id)
  | ScRule name pattern response once cd => add_rule name pattern response once cd ;; mret tt
  | ScWatchdog name pattern severity => add_watchdog name pattern severity ;; mret tt
  | ScBroadcast msg => broadcast msg None
  | ScAsk => query (fun _ => tt)
  end.

Definition flush_link : M unit :=
  match link_flush_write_queue with
  | None => mret tt
  | Some flush => rc ← link_call EvFlush flush; when (rc <? 0) handle_link_disconnect
  end.

(** The link's descriptor outside a connect: input is drained before a hangup
    is honoured. *)
Definition link_event (ev : epoll_ev) (reads : list dres) : M unit :=
  (if ev_in ev || ev_hup ev then process_link_data reads else mret tt) ;;
  d ← lflag lf_disconnected;
  when (negb d && ev_hup ev) handle_link_disconnect ;;
  d ← lflag lf_disconnected;
  when (negb d && ev_out ev) flush_link.

Definition process_event (e : loop_event) : M unit :=
  match e with
  | LeListen None => mret tt
  | LeListen (Some pid) => sm_broker_register_client pid false ;; mret tt
  | LePipe regs => for_each (fun r => sm_broker_register_client (fst r) (snd r) ;; mret tt) regs
  | LeBreakTimer => handle_break_timer
  | LeFloodTimer => handle_flood_timer
  | LeStallTimer => handle_stall_timer
  | LeLink ev reads =>
      lf ← gets b_link;
      if lf_suspended lf then mret tt
      else if lf_connecting lf then handle_link_connecting ev
      else if lf_disconnected lf then mret tt
      else link_event ev reads
  | LeLinkOut out =>
      b ← ask;
      when (negb (link_down b) && out) flush_link
  | LeSink calls => for_each sink_op calls
  | LeClient k ev reads =>
      live ← is_client_live k;
      when live (process_client_event k ev reads)
  end.

Definition check_connect_timeout : M unit :=
  lf ← gets b_link;
  if lf_connecting lf then
    now ← sm_now_monotonic; when (lf_deadline lf <? now) link_connect_give_up
  else mret tt.

Definition loop_turn (events : list loop_event) (gone : nat -> bool) : M unit :=
  b ← ask;
  when (0 <? eng_count (b_expect b))%nat process_expect_results ;;
  process_history_pending ;;
  attempt_reconnect ;;
  check_connect_timeout ;;
  for_each process_event events ;;
  pending ← any_client_write_pending;
  cs ← gets b_clients;
  when pending (flush_client_queues (length cs) 0) ;;
  housekeeping gone.

(** Any number of turns. *)
Definition all_turns (turns : list (list loop_event * (nat -> bool))) : M unit :=
  for_each (fun t => loop_turn (fst t) (snd t)) turns.

(** ** Start and stop *)

(** The part of [broker_setup] that opens the link; the sockets and log files
    follow it. *)
Definition broker_setup_link : M Z :=
  rc ← link_call EvOpen link_open;
  if negb (rc =? 0) then mret (-1) else
  mono ← sm_now_monotonic;
  real ← sm_now_realtime;
  mod_link (fun l => {| l with lf_last_rx := mono; lf_healthy := true; lf_up_ts := real;
                               lf_bytes_rx := 0 |}) ;;
  broker_record_identity ;;
  mret 0.

(** The end of [sm_broker_run]. *)
Definition run_cleanup : M unit :=
  break_cancel ;;
  mod_brk (fun k => {| k with bk_timer := false |}) ;;
  mod_flood (fun f => {| f with fl_active := false; fl_stop_re := None; fl_timer := false |}) ;;
  modify (fun b => {| b with b_stall_timer := false |}).

Definition destroy_clients : M unit :=
  update (fun w =>
    {| w with w_heap := fold_right (fun c h => sm_client_destroy (cl_io c) h) (w_heap w)
                          (b_clients (w_b w));
              w_b := {| (w_b w) with b_clients := [] |};
              w_trace := w_trace w ++ rev (map (fun c => EvHangup (cl_key c)) (b_clients (w_b w))) |}).

Definition sm_broker_destroy : M unit :=
  break_cancel ;; flood_cancel ;; stall_disarm ;;
  mod_brk (fun k => {| k with bk_timer := false |}) ;;
  mod_flood (fun f => {| f with fl_stop_re := None; fl_timer := false |}) ;;
  modify (fun b => {| b with b_stall_timer := false |}) ;;
  destroy_clients ;;
  link_closed ;;
  history_pending_clear ;;
  update (fun w =>
    let '(rb, pool) := sm_rb_destroy (b_history (w_b w)) (w_pool w) in
    {| w with w_pool := pool; w_b := {| (w_b w) with
         b_expect := sm_expect_destroy (b_expect (w_b w)); b_history := rb;
         b_anomaly := sm_anomaly_destroy (b_anomaly (w_b w));
         b_boot := sm_boot_destroy (b_boot (w_b w));
         b_ar := sm_autoresponder_destroy (b_ar (w_b w));
         b_sinks := []; b_io_log := None; b_text_log := None |} |}).

(** ** Executions *)

(** A broker as [sm_broker_init] and the command line leave it: no client, no
    break, no flood, nothing done yet.  Its configuration is arbitrary. *)
Record initial (w : world) : Prop := {
  in_clients : b_clients (w_b w) = []; in_takeover : b_takeover (w_b w) = None;
  in_brk : bk_state (b_brk (w_b w)) = SM_BRK_IDLE; in_done : bk_done (b_brk (w_b w)) = None;
  in_flood : fl_active (b_flood (w_b w)) = false;
  in_reset : fl_reset_pending (b_flood (w_b w)) = false;
  in_link : lf_suspended (b_link (w_b w)) = false /\ lf_disconnected (b_link (w_b w)) = false /\
            lf_connecting (b_link (w_b w)) = false /\ lf_pending_ack (b_link (w_b w)) = false /\
            lf_delay_s (b_link (w_b w)) = 0;
  in_hist : b_hist (w_b w) = hist_zero;
  in_history : b_history (w_b w) = sm_rb_init SM_RING_BUFFER_MAX_BYTES; in_pool : w_pool w = [];
  in_trace : w_trace w = [] }.

Inductive reachable : world -> Prop :=
  | reach_init w : initial w -> reachable w
  | reach_turn w events gone : reachable w -> reachable (run (loop_turn events gone) w).
End loop.
