(* ===== verification/McpTools.v ===== *)
(** The MCP sink: its state and pending calls, and its tools. *)

(** * The MCP sink ([src/sinks/mcp.c], [src/sinks/mcp_internal.h])

    A JSON-RPC server on the broker's standard input and output.  Its
    operations are programs of a state monad [P] over the sink and the broker's
    [world]; a broker operation is lifted with [lift], which then runs the
    callbacks the broker made into the sink, in the order of the trace.  This
    file has the sink's state, the callbacks, and the operations the tools
    share; the tools are in [McpTools]. *)
From stdpp Require Import pretty.
From S2P Require Import Prelude Cstr RingBuffer Json Protocol Regex Expect BootStage Autoresponder Anomaly.
From S2P Require Import McpText Effects Client BrokerState McpResults BrokerOps BrokerLink BrokerHandlers BrokerLoop.

#[local] Open Scope string_scope.
#[local] Open Scope list_scope.
#[local] Open Scope Z_scope.
#[local] Open Scope json_scope.

Definition SM_MCP_OUTPUT_BUFFER_MAX : Z := 1048576.
Definition SM_MCP_READ_BUF_MAX : Z := 1048576.
Definition SM_MCP_MAX_PENDING_CALLS : nat := 64.
Definition SM_MCP_PROTOCOL_VERSION : string := "2024-11-05".
Definition SM_NAME : string := "smolmux".

(** A slot of the pending table; free when it has no id. *)
Record sm_mcp_pending := mk_pend {
  pd_jsonrpc_id : option json; pd_expect_id : string; pd_timeout_mode : bool; pd_is_monitor : bool;
  pd_monitor_start : double }.
Definition free_slot : sm_mcp_pending := mk_pend None "" false false 0.

(** The contexts of [mcp_break_done] and [mcp_reset_done]. *)
Inductive mcp_ctx :=
  | CtxBreak (jsonrpc_id : option json) (key : Z)
  | CtxReset (jsonrpc_id : option json) (pin : string) (hold_ms : Z).

(** [mp_ctxs] are the contexts in the order of their allocation; [mp_stdout]
    the messages written; [mp_undefined] that a write left its buffer or a
    conversion its type; [mp_tick] names the allocations asked for. *)
Record sm_mcp_sink := mk_mcp {
  mp_output : bytes; mp_output_cap : Z; mp_pending : list sm_mcp_pending; mp_next_expect_seq : Z;
  mp_read : bytes; mp_read_cap : Z; mp_initialized : bool;
  mp_ctxs : list mcp_ctx; mp_stdout : list json; mp_stopped : bool; mp_undefined : bool;
  mp_tick : nat }.

(** [sm_mcp_sink_new]. *)
Definition sm_mcp_sink_new : sm_mcp_sink :=
  mk_mcp [] 8192 (replicate SM_MCP_MAX_PENDING_CALLS free_slot) 0 [] 8192 false [] [] false false 0.

(** The device profile the broker was started with. *)
Record sm_device_profile := mk_profile {
  pr_name : string; pr_device_type : string; pr_description : string; pr_prompt_pattern : string;
  pr_command_prefix : string; pr_response_mode : string; pr_default_timeout_ms : Z }.

(** What the sink finds around it: its place among the sinks, whether a
    [realloc] succeeds, the environment variable, a scan of the ports. *)
Class McpEnv := {
  mcp_index : nat; mcp_profile : sm_device_profile;
  mcp_realloc : nat -> bool; mcp_mutate_env : option string;
  mcp_scan : nat -> list sm_serial_port_info }.

(** ** JSON-RPC *)

Definition rpc_message (id : option json) (key : string) (v : json) : json :=
  JObj [] |> add_string "jsonrpc" "2.0" |> add_item "id" (default JNull id) |> add_item key v.

(** Written whole: a short write of [stdout] ends the message early and is not
    reported. *)
Definition mcp_write_json (msg : json) (s : sm_mcp_sink) : sm_mcp_sink :=
  {| s with mp_stdout := mp_stdout s ++ [msg] |}.
Definition mcp_send_result (id : option json) (result : json) : sm_mcp_sink -> sm_mcp_sink :=
  mcp_write_json (rpc_message id "result" result).
Definition mcp_send_tool_result (id : option json) (text : string) : sm_mcp_sink -> sm_mcp_sink :=
  mcp_send_result id (sm_mcp_tool_call_result None (Some text) None).
Definition mcp_send_error (id : option json) (code : Z) (message : string) : sm_mcp_sink -> sm_mcp_sink :=
  mcp_write_json (rpc_message id "error"
    (JObj [] |> add_int "code" code |> add_string "message" message)).

Definition set_undefined (s : sm_mcp_sink) : sm_mcp_sink := {| s with mp_undefined := true |}.

(** ** Pending calls *)

Fixpoint find_slot (f : sm_mcp_pending -> bool) (i : nat) (l : list sm_mcp_pending) :
    option (nat * sm_mcp_pending) :=
  match l with
  | [] => None
  | p :: l' => if f p then Some (i, p) else find_slot f (S i) l'
  end.
Definition is_free (p : sm_mcp_pending) : bool :=
  match pd_jsonrpc_id p with None => true | Some _ => false end.

(** The slot taken, or nothing when the table is full. *)
Definition mcp_alloc_pending (id : option json) (expect_id : string) (s : sm_mcp_sink) :
    option (nat * sm_mcp_sink) :=
  match find_slot is_free 0 (mp_pending s) with
  | None => None
  | Some (i, p) =>
      Some (i, {| s with mp_pending := <[i := mk_pend id (snprintf_s 16 expect_id) false false
                                               (pd_monitor_start p)]> (mp_pending s) |})
  end.

Definition mcp_gen_expect_id (s : sm_mcp_sink) : string * sm_mcp_sink :=
  (snprintf_s 16 ("mcp-" +:+ string_of_bytes (hex_digits 8 (u32 (mp_next_expect_seq s)))),
   {| s with mp_next_expect_seq := mp_next_expect_seq s + 1 |}).

Section sink.
Context {L : LinkOps} {E : SystemEnv} {J : JsonText} {R : RegexLib} {X : McpEnv}.

(** ** Output *)

Definition strip_nul (l : bytes) : bytes := List.filter (fun c => negb (c =? 0)) l.

(** The buffer doubles up to its maximum while a [realloc] succeeds. *)
Fixpoint grow_output (fuel : nat) (need : Z) (cap : Z) (tick : nat) : Z * nat :=
  match fuel with
  | O => (cap, tick)
  | S f =>
      if (cap <? need) && (cap <? SM_MCP_OUTPUT_BUFFER_MAX) then
        if mcp_realloc tick then grow_output f need (Z.min (cap * 2) SM_MCP_OUTPUT_BUFFER_MAX) (S tick)
        else (cap, S tick)
      else (cap, tick)
  end.

(** How much of the oldest output makes room. *)
Definition evict_amount (len valid cap : Z) : Z :=
  let need := len + valid - cap in
  let evict := if len <? need then len else need in
  let evict := if evict <? cap / 2 then cap / 2 else evict in
  if len <? evict then len else evict.

Definition mcp_buffer_output (data : bytes) (s : sm_mcp_sink) : sm_mcp_sink :=
  let valid := strip_nul data in
  if zlen valid =? 0 then s else
  let '(cap, tick) := grow_output 64 (zlen (mp_output s) + zlen valid) (mp_output_cap s) (mp_tick s) in
  let out := if cap <? zlen (mp_output s) + zlen valid
             then zdrop (evict_amount (zlen (mp_output s)) (zlen valid) cap) (mp_output s)
             else mp_output s in
  let s := {| s with mp_output := out ++ valid; mp_output_cap := cap; mp_tick := tick |} in
  if cap <? zlen (mp_output s) then set_undefined s else s.

Definition mcp_drain_output (s : sm_mcp_sink) : string * sm_mcp_sink :=
  if zlen (mp_output s) =? 0 then ("(no output)", s)
  else (string_of_bytes (mp_output s), {| s with mp_output := [] |}).

(** ** Callbacks *)

(** Text that ends up in a C string. *)
Definition c_text (b : bytes) : string := string_of_bytes (cstr b).

Definition abort_prefix (r : sm_expect_result) : string :=
  "[ABORTED anomaly:" +:+
  (if streq (er_abort_pattern r) "" then "unknown" else er_abort_pattern r) +:+ "] ".

Definition monitor_report (data : bytes) (start : double) (incs : list sm_anomaly_incident) : bytes :=
  let found := List.filter (fun inc => start <=? in_timestamp inc) incs in
  bytes_of_string ("## Serial Monitor Report" +:+ nl +:+ nl +:+ "Output:" +:+ nl +:+ "```" +:+ nl) ++
  data ++ bytes_of_string (nl +:+ "```" +:+ nl +:+
    match found with
    | [] => nl +:+ "No anomalies detected during monitoring." +:+ nl
    | _ => nl +:+ "## Anomalies Detected" +:+ nl +:+ foldr String.append "" (map (fun inc =>
        "- **" +:+ in_pattern_name inc +:+ "** [" +:+ in_severity inc +:+ "]: " +:+
        in_match_text inc +:+ nl) found)
    end).

(** The response text, and whether it fitted its buffer of [data_len + 128]. *)
Definition expect_text (p : sm_mcp_pending) (r : sm_expect_result) (incs : list sm_anomaly_incident) :
    string * bool :=
  if 0 <? zlen (er_data r) then
    if er_aborted r && negb (pd_is_monitor p) then
      let prefix := bytes_of_string (abort_prefix r) in
      (c_text (prefix ++ er_data r), zlen prefix <=? 127)
    else if negb (er_matched r) && negb (pd_timeout_mode p) && negb (pd_is_monitor p) then
      (c_text (bytes_of_string "[TIMEOUT] " ++ er_data r), true)
    else if pd_is_monitor p then (c_text (monitor_report (er_data r) (pd_monitor_start p) incs), true)
    else (c_text (er_data r), true)
  else if er_aborted r && negb (pd_is_monitor p) then
    (snprintf_s 256 (abort_prefix r +:+ "(no output)"), true)
  else ("(no output)", true).

Definition waits_for (id : string) (p : sm_mcp_pending) : bool :=
  negb (is_free p) && streq (pd_expect_id p) id.

Definition mcp_on_expect_result (r : sm_expect_result) (incs : list sm_anomaly_incident)
    (s : sm_mcp_sink) : sm_mcp_sink :=
  match find_slot (waits_for (er_id r)) 0 (mp_pending s) with
  | None => s
  | Some (i, p) =>
      let '(text, fits) := expect_text p r incs in
      let text := if pd_is_monitor p then text else
                  sm_mcp_maybe_explain_result (Some (sm_mcp_append_recent_incidents (Some text) incs 5)) in
      let s := mcp_send_tool_result (pd_jsonrpc_id p) text s in
      let s := if fits : bool then s else set_undefined s in
      {| s with mp_pending := <[i := {| p with pd_jsonrpc_id := None |}]> (mp_pending s) |}
  end.

Definition mcp_break_done (id : option json) (key rc : Z) : sm_mcp_sink -> sm_mcp_sink :=
  mcp_send_tool_result id (snprintf_s 48
    (if negb (rc =? 0) then
       "[ERROR] " +:+ (if negb (key =? 0) then "BREAK+SysRq" else "pin control") +:+ " failed"
     else if negb (key =? 0) then "OK (SysRq+" +:+ string_of_bytes [key] +:+ ")" else "OK")).

(** Without an id an expect answers the call. *)
Definition mcp_reset_done (id : option json) (pin : string) (hold_ms rc : Z) (s : sm_mcp_sink) :
    sm_mcp_sink :=
  match id with
  | None => s
  | Some _ =>
      mcp_send_tool_result id (snprintf_s 96
        (if negb (rc =? 0) then "[ERROR] reset via " +:+ pin +:+ " failed"
         else "OK (reset via " +:+ pin +:+ ", held " +:+ pretty hold_ms +:+ " ms)")) s
  end.

(** A callback of the broker. *)
Definition callback (e : event) (s : sm_mcp_sink) : sm_mcp_sink :=
  match e with
  | EvSinkOutput i data _ => if Nat.eqb i mcp_index then mcp_buffer_output data s else s
  | EvSinkExpect i r incs => if Nat.eqb i mcp_index then mcp_on_expect_result r incs s else s
  | EvDone (DoneSink ctx) rc =>
      match mp_ctxs s !! ctx with
      | Some (CtxBreak id key) => mcp_break_done id key rc s
      | Some (CtxReset id pin hold) => mcp_reset_done id pin hold rc s
      | None => s
      end
  | _ => s
  end.
Definition callbacks (es : list event) (s : sm_mcp_sink) : sm_mcp_sink :=
  fold_left (fun s e => callback e s) es s.

(** ** The monad *)

Definition P (A : Type) : Type := sm_mcp_sink * world -> (sm_mcp_sink * world) * A.
#[export] Instance P_ret : MRet P := fun A x s => (s, x).
#[export] Instance P_bind : MBind P := fun A B k m s => let '(s', x) := m s in k x s'.

Definition on_sink (f : sm_mcp_sink -> sm_mcp_sink) : P unit := fun '(s, w) => ((f s, w), tt).
Definition from_sink {A} (f : sm_mcp_sink -> A * sm_mcp_sink) : P A :=
  fun '(s, w) => let '(x, s') := f s in ((s', w), x).
Definition lift {A} (m : M A) : P A := fun '(s, w) =>
  let '(w', x) := m w in
  ((callbacks (drop (length (w_trace w)) (w_trace w')) s, w'), x).
Definition with_broker {A} (f : sm_broker -> A) : P A := lift (gets f).
Definition pwhen (c : bool) (m : P unit) : P unit := if c then m else mret tt.
End sink.

(** * The tools of the MCP sink ([src/sinks/mcp_tools.c]) and its input

    Each tool is a program of [P]; it answers at once with a text and perhaps a
    structured result, or not at all when a callback will.  The file ends with
    the dispatcher, the JSON-RPC methods and the reading of standard input. *)

#[local] Open Scope string_scope.
#[local] Open Scope list_scope.
#[local] Open Scope Z_scope.
#[local] Open Scope json_scope.

(** The pattern that never matches. *)
Definition NEVER : string := "^\b$".

(** The text, and the structured content. *)
Abbreviation answer := (option string * option json)%type (only parsing).

Section tools.
Context {L : LinkOps} {E : SystemEnv} {J : JsonText} {R : RegexLib} {X : McpEnv}.

Definition say (text : string) : P answer := mret (Some text, None).
Definition deferred : P answer := mret (None, None).

(** ** Shared steps *)

Definition link_connected : P bool := lift (l ← link_view; mret (0 <=? link_read_fd l)).
Definition gen_expect_id : P string := from_sink mcp_gen_expect_id.
Definition mcp_expect_add (id pattern : string) (timeout_s : double) : P Z :=
  lift (expect_add id pattern timeout_s SM_MCP_CLIENT_ID).
Definition expect_error (erc : Z) : string := snprintf_s 128 ("[ERROR] " +:+ sm_expect_add_errstr erc).
Definition cancel_id (id : string) : P unit := lift (mod_expect (fun eng => sm_expect_cancel_id eng id)).
Definition cancel_client : P unit :=
  lift (mod_expect (fun eng => sm_expect_cancel_client eng SM_MCP_CLIENT_ID)).

(** The slot, [None] when the table is full. *)
Definition alloc_pending (id : option json) (expect_id : string) : P (option nat) :=
  from_sink (fun s => match mcp_alloc_pending id expect_id s with
                      | Some (i, s') => (Some i, s') | None => (None, s) end).
Definition set_pending (i : nat) (f : sm_mcp_pending -> sm_mcp_pending) : P unit :=
  on_sink (fun s => {| s with mp_pending := alter f i (mp_pending s) |}).

Definition input_echo (data : bytes) : P unit :=
  ts ← lift sm_now_realtime;
  lift (broadcast (sm_msg_input_echo data "mcp" ts) None).

(** ** Commands and writes *)

Definition profile_command (command : string) : string := pr_command_prefix mcp_profile +:+ command.

(** The pattern and whether silence is the normal end. *)
Definition resolve_pattern (expect_pattern : option string) : string * bool :=
  match nonempty expect_pattern with
  | Some p => (p, false)
  | None => if streq (pr_response_mode mcp_profile) "timeout" then (NEVER, true)
            else (pr_prompt_pattern mcp_profile, false)
  end.

(** [None]: not a line ending. *)
Definition resolve_eol (eol : option string) : option bytes :=
  match nonempty eol with
  | None => Some [10]
  | Some e => if streq e "cr" then Some [13] else if streq e "crlf" then Some [13; 10]
              else if streq e "lf" then Some [10] else None
  end.

(** Trailing newlines are dropped. *)
Fixpoint strip_newlines (l : bytes) : bytes :=
  match l with
  | [] => []
  | c :: l' =>
      match strip_newlines l' with
      | [] => if (c =? 10) || (c =? 13) then [] else [c]
      | k => c :: k
      end
  end.

Definition tool_serial_send_command (args : json) (id : option json) : P answer :=
  match sm_json_get_string args "command" with
  | None => say "[ERROR] missing 'command' argument"
  | Some command =>
  let cmd := bytes_of_string (profile_command command) in
  if 4096 <=? zlen cmd then say "[ERROR] command too long" else
  let timeout_ms := sm_json_get_int args "timeout_ms" 0 in
  let timeout_ms := if timeout_ms <=? 0 then pr_default_timeout_ms mcp_profile else timeout_ms in
  let '(pattern, timeout_mode) := resolve_pattern (sm_json_get_string args "expect_pattern") in
  match resolve_eol (sm_json_get_string args "eol") with
  | None => say "[ERROR] eol must be lf, cr, or crlf"
  | Some ending =>
  let cmd := strip_newlines cmd in
  if 4096 <=? zlen cmd + zlen ending then say "[ERROR] command too long" else
  let cmd := cmd ++ ending in
  b ← with_broker (fun b => b);
  connected ← link_connected;
  if lf_suspended (b_link b) then say "[ERROR] serial port is suspended" else
  if lf_disconnected (b_link b) then say "[ERROR] serial port disconnected" else
  if negb connected then say "[ERROR] serial port not connected" else
  expect_id ← gen_expect_id;
  erc ← mcp_expect_add expect_id pattern (ms_to_s timeout_ms);
  if negb (erc =? 0) then say (expect_error erc) else
  rc ← lift (sm_broker_do_write cmd "mcp");
  if rc <? 0 then cancel_id expect_id ;; say "[ERROR] write failed" else
  input_echo cmd ;;
  slot ← alloc_pending id expect_id;
  match slot with
  | None => cancel_client ;; say "[ERROR] too many pending calls"
  | Some i => set_pending i (fun p => {| p with pd_timeout_mode := timeout_mode |}) ;; deferred
  end
  end end.

Definition tool_serial_read : P answer :=
  text ← from_sink mcp_drain_output;
  incs ← with_broker (fun b => sm_anomaly_get_incidents (b_anomaly b));
  say (sm_mcp_append_recent_incidents (Some text) incs 5).

Definition tool_serial_write (args : json) : P answer :=
  match sm_json_get_string args "data" with
  | None => say "[ERROR] missing 'data' argument"
  | Some d =>
      let data := bytes_of_string d in
      rc ← lift (sm_broker_do_write data "mcp");
      if rc =? -1 then say (sm_mcp_error_with_hint "[ERROR] serial port is suspended") else
      if rc =? -2 then say (sm_mcp_error_with_hint "[ERROR] serial port disconnected") else
      if rc =? -3 then say (sm_mcp_error_with_hint "[ERROR] write failed") else
      input_echo data ;;
      say "OK"
  end.

(** ** Status and rules *)

Definition tool_serial_port_status : P answer :=
  status ← lift (sm_broker_status_json None);
  mret (Some (sm_mcp_port_status_text status None), Some (sm_mcp_port_status_structured status None)).

Definition tool_serial_boot_status : P answer :=
  status ← lift (sm_broker_status_json None);
  mret (Some (sm_mcp_boot_status_text status), Some (sm_mcp_boot_status_structured status)).

Definition tool_serial_add_autoresponder (args : json) : P answer :=
  match sm_json_get_string args "name", sm_json_get_string args "pattern",
        sm_json_get_string args "send" with
  | Some name, Some pattern, Some send =>
      let once := sm_json_get_bool args "once" false in
      let cooldown_ms := sm_json_get_int args "cooldown_ms" SM_AR_DEFAULT_COOLDOWN_MS in
      let resp := sm_str_unescape (bytes_of_string send) (Z.to_nat SM_AR_RESPONSE_MAX) in
      rc ← lift (add_rule name pattern resp once cooldown_ms);
      if negb (rc =? 0) then
        say "[ERROR] autoresponder rejected (bad regex, full, or response too long)"
      else say (snprintf_s 384 ("Autoresponder '" +:+ name +:+ "' added (pattern=/" +:+ pattern +:+
             "/, " +:+ pretty (zlen resp) +:+ " bytes" +:+ (if once then ", once" else "") +:+ ")"))
  | _, _, _ => say "[ERROR] missing name, pattern, or send"
  end.

Definition tool_serial_add_watchdog (args : json) : P answer :=
  match sm_json_get_string args "name", sm_json_get_string args "pattern" with
  | Some name, Some pattern =>
      let severity := default "warning" (sm_json_get_string args "severity") in
      rc ← lift (add_watchdog name pattern severity);
      if negb (rc =? 0) then say "[ERROR] invalid regex pattern"
      else say (snprintf_s 256 ("Watchdog '" +:+ name +:+ "' added (severity=" +:+ severity +:+
             ", pattern=" +:+ pattern +:+ ")"))
  | _, _ => say "[ERROR] missing name or pattern"
  end.

(** ** Lines *)

(** A context for a completion callback; it is freed when nothing was
    scheduled. *)
Definition schedule (ctx : mcp_ctx) (m : break_done -> M Z) : P bool :=
  n ← from_sink (fun s => (length (mp_ctxs s), {| s with mp_ctxs := mp_ctxs s ++ [ctx] |}));
  rc ← lift (m (DoneSink n));
  if rc =? 0 then mret true
  else on_sink (fun s => {| s with mp_ctxs := take n (mp_ctxs s) |}) ;; mret false.

Definition mcp_alloc : P bool := lift alloc_call.

Definition tool_serial_pin_control (args : json) (id : option json) : P answer :=
  match sm_json_get_string args "pin", sm_json_get_string args "action" with
  | Some pin, Some action =>
      let duration_ms := sm_json_get_int args "duration_ms" 250 in
      if negb (pin_is_line_control pin) then
        say "[ERROR] unknown pin (expected dtr, rts, or break)" else
      let action := if streq action "send" && negb (streq pin "break") then "pulse" else action in
      if streq pin "break" then
        ok ← mcp_alloc;
        if negb (ok : bool) then say "[ERROR] out of memory" else
        accepted ← schedule (CtxBreak id 0)
          (fun d => sm_broker_schedule_break duration_ms [] 0 (Some d));
        if accepted : bool then deferred else say "[ERROR] break busy or unavailable"
      else
        rc ← lift (set_param pin action);
        say (if rc =? 0 then "OK" else "[ERROR] pin control failed")
  | _, _ => say "[ERROR] missing pin or action"
  end.

Definition tool_serial_sysrq (args : json) (id : option json) : P answer :=
  match nonempty (sm_json_get_string args "key") with
  | None => say "[ERROR] missing 'key' argument"
  | Some key =>
      let break_ms := sm_json_get_int args "break_duration_ms" 500 in
      let delay_ms := sm_json_get_int args "delay_ms" 100 in
      let ch := default 0 (head (bytes_of_string key)) in
      ok ← mcp_alloc;
      if negb (ok : bool) then say "[ERROR] out of memory" else
      accepted ← schedule (CtxBreak id ch)
        (fun d => sm_broker_schedule_break break_ms [ch] delay_ms (Some d));
      if accepted : bool then deferred else say "[ERROR] break busy or unavailable"
  end.

Definition tool_serial_suspend : P answer :=
  rc ← lift (sm_broker_do_suspend "mcp");
  if rc <? 0 then say (sm_mcp_error_with_hint "[ERROR] already suspended") else
  port ← with_broker b_port;
  say (snprintf_s 512 ("OK - serial port " +:+ port +:+ " released. Use serial_resume() when done.")).

Definition tool_serial_resume : P answer :=
  rc ← lift (sm_broker_do_resume "mcp");
  if rc =? -1 then say (sm_mcp_error_with_hint "[ERROR] not suspended") else
  if rc =? -2 then say (sm_mcp_error_with_hint "[ERROR] failed to reopen serial port") else
  say "OK - serial port re-acquired.".

Definition clamp_reset_hold (ms : Z) : Z :=
  let ms := if ms <? 1 then 1 else ms in
  if SM_MAX_RESET_HOLD_MS <? ms then SM_MAX_RESET_HOLD_MS else ms.
Definition tool_serial_reset (args : json) (id : option json) : P answer :=
  let pin := default "rts" (nonempty (sm_json_get_string args "pin")) in
  if negb (streq pin "rts") && negb (streq pin "dtr") then say "[ERROR] pin must be rts or dtr" else
  let hold_ms := clamp_reset_hold (sm_json_get_int args "hold_ms" SM_DEFAULT_RESET_HOLD_MS) in
  let wait_pat := nonempty (sm_json_get_string args "wait_pattern") in
  let wait_ms := clamp_timeout (sm_json_get_int args "timeout_ms" 10000) in
  ok ← mcp_alloc;
  if negb (ok : bool) then say "[ERROR] out of memory" else
  accepted ← schedule
    (CtxReset (match wait_pat with Some _ => None | None => id end) (snprintf_s 4 pin) hold_ms)
    (fun d => sm_broker_schedule_line_reset pin hold_ms (Some d));
  if negb (accepted : bool) then
    say "[ERROR] reset busy or unavailable (suspended, link down, or modem lines not drivable)" else
  match wait_pat with
  | None => deferred
  | Some pat =>
      expect_id ← gen_expect_id;
      erc ← mcp_expect_add expect_id pat (ms_to_s wait_ms);
      if negb (erc =? 0) then
        say (snprintf_s 160 ("[ERROR] reset started, but wait_pattern rejected: " +:+
                             sm_expect_add_errstr erc)) else
      slot ← alloc_pending id expect_id;
      match slot with
      | None => cancel_id expect_id ;; say "[ERROR] reset started, but too many pending calls"
      | Some _ => deferred
      end
  end.

(** ** Waiting *)

Definition tool_serial_wait_for (args : json) (id : option json) : P answer :=
  match nonempty (sm_json_get_string args "pattern") with
  | None => say "[ERROR] missing 'pattern' argument"
  | Some pattern =>
  let timeout_ms := clamp_timeout (sm_json_get_int args "timeout_ms" 30000) in
  susp ← with_broker (fun b => lf_suspended (b_link b));
  connected ← link_connected;
  if susp : bool then say "[ERROR] serial port is suspended" else
  if negb connected then say "[ERROR] serial port not connected" else
  expect_id ← gen_expect_id;
  erc ← mcp_expect_add expect_id pattern (ms_to_s timeout_ms);
  if negb (erc =? 0) then say (expect_error erc) else
  slot ← alloc_pending id expect_id;
  match slot with
  | None => cancel_id expect_id ;; say "[ERROR] too many pending calls"
  | Some _ => deferred
  end
  end.

Definition tool_serial_monitor (args : json) (id : option json) : P answer :=
  let duration := sm_json_get_int args "duration_seconds" 30 in
  let duration := if 300 <? duration then 300 else duration in
  let duration := if duration <? 1 then 1 else duration in
  susp ← with_broker (fun b => lf_suspended (b_link b));
  connected ← link_connected;
  if susp : bool then say "[ERROR] serial port is suspended" else
  if negb connected then say "[ERROR] serial port not connected" else
  expect_id ← gen_expect_id;
  erc ← mcp_expect_add expect_id NEVER (dbl_of_int duration);
  if negb (erc =? 0) then say (expect_error erc) else
  slot ← alloc_pending id expect_id;
  match slot with
  | None => cancel_client ;; say "[ERROR] too many pending calls"
  | Some i =>
      now ← lift sm_now_realtime;
      set_pending i (fun p => {| p with pd_is_monitor := true; pd_monitor_start := now |}) ;;
      deferred
  end.

(** ** History *)

Definition page_max (max_bytes : Z) : Z :=
  if (max_bytes <=? 0) || (SM_MAX_HISTORY_RESPONSE_BYTES <? max_bytes)
  then SM_MAX_HISTORY_RESPONSE_BYTES else max_bytes.

(** The chunks of a page, NULs stripped, at most [max] bytes. *)
Fixpoint page_chunks (max skip encoded : Z) (cs : list sm_rb_chunk) : list json :=
  match cs with
  | [] => []
  | c :: cs' =>
      let len := c_len c - skip in
      let len := if max <? encoded + len then max - encoded else len in
      if len =? 0 then [] else
      (JObj [] |> add_string "text" (string_of_bytes (strip_nul (ztake len (zdrop skip (c_data c)))))
         |> add_number "timestamp" (c_timestamp c) |> add_int "seq_start" (c_seq_start c + skip)) ::
      (if max <=? encoded + len then [] else page_chunks max 0 (encoded + len) cs')
  end.
Definition history_json_page (since_seq max_bytes : Z) : P json :=
  let max := page_max max_bytes in
  ok ← mcp_alloc;
  rb ← with_broker b_history;
  let p := sm_rb_get_since_seq ok rb since_seq max in
  mret (JObj [] |> add_int "cursor" (pg_cursor p) |> add_int "dropped" (pg_dropped p)
          |> add_bool "has_more" (pg_has_more p)
          |> add_item "chunks" (JArr (page_chunks max (pg_first_skip p) 0 (pg_chunks p)))).

(** [(uint64_t)d] is defined for what fits. *)
Definition to_u64 (d : double) : option Z :=
  let n := Z.quot d one_s in
  if (0 <=? n) && (n <? 18446744073709551616) then Some n else None.

Definition history_text (cs : list sm_rb_chunk) : bytes := mjoin (map (fun c => strip_nul (c_data c)) cs).

Definition tool_serial_output_history (args : json) : P answer :=
  match get_item args "since_seq" with
  | Some (JNum d) =>
      match to_u64 d with
      | None => on_sink set_undefined ;; say ""
      | Some since_seq =>
          page ← history_json_page since_seq (sm_json_get_int args "max_bytes" 0);
          mret (Some (sm_mcp_history_page_text page), Some (sm_mcp_history_page_structured page))
      end
  | _ =>
      let seconds := sm_json_get_double args "seconds" 0 in
      let last_bytes := sm_json_get_int args "last_bytes" 0 in
      ok ← mcp_alloc;
      rb ← with_broker b_history;
      chunks ← (if 0 <? last_bytes then mret (sm_rb_get_last_n_bytes ok rb last_bytes)
                else if 0 <? seconds then
                  now ← lift sm_now_realtime; mret (sm_rb_get_since ok rb (now - seconds))
                else mret (sm_rb_get_all ok rb));
      let none := (Some "(no output in history)", Some (sm_mcp_history_text_structured "")) in
      if (length chunks =? 0)%nat then mret none else
      let text := history_text chunks in
      if zlen text =? 0 then mret none
      else mret (Some (string_of_bytes text), Some (sm_mcp_history_text_structured (string_of_bytes text)))
  end.

Definition tool_serial_get_incidents (args : json) : P answer :=
  let seconds := sm_json_get_double args "seconds" 0 in
  since ← (if 0 <? seconds then now ← lift sm_now_realtime; mret (now - seconds) else mret 0);
  incs ← with_broker (fun b => sm_broker_incidents_json b since);
  mret (Some (sm_mcp_incidents_text (Some incs)), Some (sm_mcp_incidents_structured (Some incs))).

(** ** Reports *)

Definition report_text (b : sm_broker) (connected : bool) (chunks : list sm_rb_chunk) : bytes :=
  let pr := mcp_profile in
  let incs := sm_anomaly_get_incidents (b_anomaly b) in
  bytes_of_string ("# smolmux Device Report" +:+ nl +:+ nl +:+ "## Device Profile" +:+ nl +:+
    "- Name: " +:+ pr_name pr +:+ nl +:+ "- Type: " +:+ pr_device_type pr +:+ nl +:+
    "- Description: " +:+ pr_description pr +:+ nl +:+ "- Prompt: `" +:+ pr_prompt_pattern pr +:+ "`" +:+
    nl +:+ "- Response mode: " +:+ pr_response_mode pr +:+ nl +:+
    (if streq (pr_command_prefix pr) "" then ""
     else "- Command prefix: `" +:+ pr_command_prefix pr +:+ "`" +:+ nl) +:+
    nl +:+ "## Port Status" +:+ nl +:+ "- Port: " +:+ b_port b +:+ nl +:+
    "- Baud: " +:+ pretty (b_baudrate b) +:+ nl +:+ "- Connected: " +:+ fmt_bool connected +:+ nl +:+
    "- Clients: " +:+ pretty (length (b_clients b)) +:+ nl +:+
    match incs with
    | [] => nl +:+ "## Incidents" +:+ nl +:+ "None detected." +:+ nl
    | _ => nl +:+ "## Incidents (" +:+ pretty (length incs) +:+ " total)" +:+ nl +:+
           foldr String.append "" (map (fun inc =>
             "- **" +:+ in_pattern_name inc +:+ "** [" +:+ in_severity inc +:+ "]: " +:+
             in_match_text inc +:+ nl) incs)
    end +:+
    nl +:+ "## Recent Output (last 32KB)" +:+ nl) ++
  match chunks with
  | [] => bytes_of_string ("(no output)" +:+ nl)
  | _ => bytes_of_string ("```" +:+ nl) ++ history_text chunks ++ bytes_of_string (nl +:+ "```" +:+ nl)
  end.

Definition tool_serial_generate_report : P answer :=
  b ← with_broker (fun b => b);
  connected ← link_connected;
  ok ← mcp_alloc;
  say (string_of_bytes (report_text b connected (sm_rb_get_last_n_bytes ok (b_history b) 32768))).

Definition tool_serial_list_ports : P answer :=
  scan ← lift (query mcp_scan);
  let '(structured, text) := sm_mcp_list_ports scan in
  mret (Some text, Some structured).

(** ** The dispatcher *)

Definition run_tool (name : string) (args : json) (id : option json) : P answer :=
  if streq name "serial_send_command" then tool_serial_send_command args id
  else if streq name "serial_read" then tool_serial_read
  else if streq name "serial_write" then tool_serial_write args
  else if streq name "serial_port_status" then tool_serial_port_status
  else if streq name "serial_boot_status" then tool_serial_boot_status
  else if streq name "serial_add_autoresponder" then tool_serial_add_autoresponder args
  else if streq name "serial_pin_control" then tool_serial_pin_control args id
  else if streq name "serial_reset" then tool_serial_reset args id
  else if streq name "serial_sysrq" then tool_serial_sysrq args id
  else if streq name "serial_suspend" then tool_serial_suspend
  else if streq name "serial_resume" then tool_serial_resume
  else if streq name "serial_wait_for" then tool_serial_wait_for args id
  else if streq name "serial_output_history" then tool_serial_output_history args
  else if streq name "serial_get_incidents" then tool_serial_get_incidents args
  else if streq name "serial_add_watchdog" then tool_serial_add_watchdog args
  else if streq name "serial_monitor" then tool_serial_monitor args id
  else if streq name "serial_generate_report" then tool_serial_generate_report
  else if streq name "serial_list_ports" then tool_serial_list_ports
  else say (sm_mcp_error_with_hint (snprintf_s 256 ("[ERROR] unknown tool: " +:+ name))).

Definition mcp_tool_dispatch (name : string) (args : json) (id : option json) : P answer :=
  let mutate := sm_mcp_tool_is_mutate name in
  if mutate && negb (sm_mcp_mutate_enabled mcp_mutate_env) then
    say "[ERROR] mutate tools disabled (set SMOLMUX_MCP_MUTATE=1)" else
  takeover ← with_broker b_takeover;
  if mutate && match takeover with Some _ => true | None => false end then
    say "[ERROR] another client holds takeover" else
  a ← run_tool name args id;
  mret match a with
       | (Some text, st) => (Some (sm_mcp_maybe_explain_result (Some text)), st)
       | (None, st) => (None, st)
       end.

(** ** JSON-RPC methods *)

Definition send_result (id : option json) (result : json) : P unit := on_sink (mcp_send_result id result).
Definition send_rpc_error (id : option json) (code : Z) (why : string) : P unit :=
  on_sink (mcp_send_error id code why).

Definition handle_initialize (id : option json) : P unit :=
  send_result id (JObj [] |> add_string "protocolVersion" SM_MCP_PROTOCOL_VERSION
    |> add_item "capabilities" (JObj [] |> add_item "tools" (JObj []) |> add_item "prompts" (JObj []))
    |> add_item "serverInfo" (JObj [] |> add_string "name" SM_NAME |> add_string "version" SM_VERSION)
    |> add_string "instructions" (sm_mcp_serial_instructions mcp_mutate_env)) ;;
  on_sink (fun s => {| s with mp_initialized := true |}).

Definition handle_prompts_list (id : option json) : P unit :=
  send_result id sm_mcp_serial_prompts_list_result.

Definition handle_prompts_get (id : option json) (params : option json) : P unit :=
  match nonempty (params ≫= fun p => sm_json_get_string p "name") with
  | None => send_rpc_error id (-32602) "missing prompt name"
  | Some name =>
      match sm_mcp_serial_prompt_get name (params ≫= fun p => get_item p "arguments") with
      | None => send_rpc_error id (-32602) "unknown prompt"
      | Some (text, desc) =>
          send_result id (JObj [] |> add_string "description" desc
            |> add_item "messages" (JArr [JObj [] |> add_string "role" "user"
                 |> add_item "content" (JObj [] |> add_string "type" "text" |> add_string "text" text)]))
      end
  end.

Definition handle_tools_list (id : option json) : P unit :=
  send_result id (JObj [] |> add_item "tools" (sm_mcp_build_tools_list mcp_mutate_env)).

Definition handle_tools_call (id : option json) (params : json) : P unit :=
  match sm_json_get_string params "name" with
  | None => send_rpc_error id (-32602) "missing tool name"
  | Some name =>
      a ← mcp_tool_dispatch name (default (JObj []) (get_item params "arguments")) id;
      match a with
      | (Some text, st) => send_result id (sm_mcp_tool_call_result (Some name) (Some text) st)
      | (None, _) => mret tt
      end
  end.

Definition dispatch_message (msg : json) : P unit :=
  let id := get_item msg "id" in
  let if_id (m : P unit) : P unit := match id with Some _ => m | None => mret tt end in
  match sm_json_get_string msg "method" with
  | None => if_id (send_rpc_error id (-32600) "invalid request: missing method")
  | Some m =>
      if streq m "initialize" then handle_initialize id
      else if streq m "notifications/initialized" then mret tt
      else if streq m "tools/list" then handle_tools_list id
      else if streq m "tools/call" then handle_tools_call id (default (JObj []) (get_item msg "params"))
      else if streq m "prompts/list" then handle_prompts_list id
      else if streq m "prompts/get" then handle_prompts_get id (get_item msg "params")
      else if_id (send_rpc_error id (-32601) "method not found")
  end.

(** ** Standard input *)

Definition handle_line (line : bytes) : P unit :=
  match cJSON_Parse (c_text line) with
  | Some msg => dispatch_message msg
  | None => send_rpc_error None (-32700) "parse error"
  end.

(** The complete lines of the buffer, one after the other. *)
Fixpoint mcp_lines (fuel : nat) : P unit :=
  match fuel with
  | O => mret tt
  | S f =>
      buf ← from_sink (fun s => (mp_read s, s));
      match split_at_char 10 buf with
      | None => mret tt
      | Some (line, rest) =>
          handle_line line ;;
          on_sink (fun s => {| s with mp_read := rest |}) ;;
          mcp_lines f
      end
  end.

Definition mcp_on_readable (r : rres) : P unit :=
  s ← from_sink (fun s => (s, s));
  let full := mp_read_cap s <=? zlen (mp_read s) in
  if full && (SM_MCP_READ_BUF_MAX <=? mp_read_cap s) then on_sink (fun s => {| s with mp_read := [] |}) else
  if full && negb (mcp_realloc (mp_tick s)) then on_sink (fun s => {| s with mp_tick := S (mp_tick s) |}) else
  pwhen full (on_sink (fun s => {| s with mp_tick := S (mp_tick s);
                                 mp_read_cap := Z.min (mp_read_cap s * 2) SM_MCP_READ_BUF_MAX |})) ;;
  s ← from_sink (fun s => (s, s));
  match sys_read (mp_read_cap s - zlen (mp_read s)) r with
  | RBytes b =>
      on_sink (fun s => {| s with mp_read := mp_read s ++ b |}) ;;
      mcp_lines (length (mp_read s ++ b))
  | REof => on_sink (fun s => {| s with mp_stopped := true |})
  | _ => mret tt
  end.

(** ** The broker with the sink *)

(** An event of the loop: the broker's own, or input for the sink. *)
Inductive mcp_event := McpBroker (e : loop_event) | McpStdin (r : rres).

Definition mcp_process (e : mcp_event) : P unit :=
  match e with McpBroker e => lift (process_event e) | McpStdin r => mcp_on_readable r end.
Fixpoint pfor_each {A} (f : A -> P unit) (l : list A) : P unit :=
  match l with [] => mret tt | x :: l' => f x ;; pfor_each f l' end.

(** The two ends of [loop_turn]. *)
Definition turn_head : M unit :=
  b ← ask;
  when (0 <? eng_count (b_expect b))%nat process_expect_results ;;
  process_history_pending ;; attempt_reconnect ;; check_connect_timeout.
Definition turn_tail (gone : nat -> bool) : M unit :=
  pending ← any_client_write_pending;
  cs ← gets b_clients;
  when pending (flush_client_queues (length cs) 0) ;;
  housekeeping gone.
Definition mcp_turn (events : list mcp_event) (gone : nat -> bool) : P unit :=
  lift turn_head ;; pfor_each mcp_process events ;; lift (turn_tail gone).
End tools.
