(* ===== verification/BrokerDemo.v ===== *)
(** * A concrete broker

    A loop-back link, a ticking clock and a literal matcher: the instance the
    examples and the witnesses of the broker run on. *)
From S2P Require Import Prelude Codecs RingBuffer Json CJson Protocol Regex Expect BootStage Autoresponder.
From S2P Require Import Anomaly Effects Client BrokerState BrokerOps BrokerLink BrokerHandlers BrokerLoop.

#[local] Open Scope string_scope.
#[local] Open Scope list_scope.
#[local] Open Scope Z_scope.
#[local] Open Scope json_scope.

(** Whether the link is open, and what was written to it.  [async] links
    connect in the background. *)
Record demo_state := mk_demo { ds_open : bool; ds_out : bytes }.

Definition demo_link (async : bool) : LinkOps := {|
  link_state := demo_state;
  link_open s := (0, mk_demo true (ds_out s));
  link_close s := mk_demo false (ds_out s);
  link_read_fd s := if ds_open s then 3 else -1;
  link_write_data d s := if ds_open s then (0, mk_demo true (ds_out s ++ d)) else (-1, s);
  link_flush_write_queue := Some (fun s => (0, s));
  link_send_break _ s := (0, s);
  link_set_param key _ s :=
    (if ds_open s && (streq key "dtr" || streq key "rts" || streq key "break" || streq key "baud")
     then 0 else -1, s);
  link_get_status s := [("link_type", JStr "demo"); ("port", JStr "shadowed")];
  link_connect_begin := if async then Some (fun s => (1, mk_demo false (ds_out s))) else None;
  link_connect_poll := if async then Some (fun s => (1, mk_demo true (ds_out s))) else None;
  link_filter_rx := None;
  link_silence_normal := false |}.

(** A query takes a millisecond. *)
Definition demo_env : SystemEnv := {|
  env_monotonic n := ms_to_s (1000 + Z.of_nat n);
  env_realtime n := ms_to_s (5000 + Z.of_nat n);
  env_timespec n := (5 + Z.of_nat n, 0);
  env_timer _ := true;
  env_alloc _ _ := true;
  env_writes _ := [];
  env_by_path _ _ := None;
  env_by_id _ _ := None |}.

#[export] Existing Instance demo_env.
#[export] Existing Instance cjson.
Definition demo_regex : RegexLib := lit_lib true.
#[export] Existing Instance demo_regex.

(** A client that has said hello. *)
Definition demo_client (key : nat) (name role : string) : sm_client :=
  {| (new_client key (Z.of_nat key)) with cl_name := name; cl_role := role; cl_hello := true |}.

Definition demo_broker : sm_broker :=
  {| (sm_broker_init true "/dev/ttyUSB0" 115200) with
     b_clients := [demo_client 0 "watch" "observer"; demo_client 1 "agent" "controller"];
     b_next_key := 2; b_next_num := 2 |}.

Definition demo_world (async : bool) : @world (demo_link async) :=
  @init_world (demo_link async) demo_broker (mk_demo true []).

Definition hello_json (name role : string) : json := sm_msg_hello None (Some name) (Some role).
Definition hello_line (name role : string) : bytes := sm_msg_encode (hello_json name role).

(** A fresh broker, and a turn of the loop in which a controller connects and
    sends [msgs]. *)
Definition demo_start (async : bool) : @world (demo_link async) :=
  @init_world (demo_link async) (sm_broker_init true "/dev/ttyUSB0" 115200) (mk_demo true []).
Lemma demo_start_initial async : initial (demo_start async).
Proof. by split. Qed.

Definition demo_turn (async : bool) (msgs : list json) (rest : list loop_event) :
    @world (demo_link async) :=
  run (loop_turn (LeListen (Some 100) ::
         LeClient 0 (mk_ev true false false)
           [RBytes (hello_line "agent" "controller" ++ mjoin (map sm_msg_encode msgs))] :: rest)
       (fun _ => false)) (demo_start async).
Lemma demo_turn_reachable async msgs rest : reachable (demo_turn async msgs rest).
Proof. apply reach_turn, reach_init, demo_start_initial. Qed.

Section runs.
#[local] Existing Instance demo_link.

Definition msg_of (j : json) : sm_msg := mk_msg (lookup_type (sm_json_get_string j "type")) (Some j).

(** The controller's bytes reach the device and are echoed to the observer. *)
Example demo_send :
  let w := run (L := demo_link false)
             (handle_client_message 1 (msg_of (sm_msg_send (Some "1") [104; 105])))
             (demo_world false) in
  ds_out (w_link w) = [104; 105] /\
  map (fun e => match e with EvWrite d s => Some (d, s) | _ => None end) (w_trace w) =
    [Some ([104; 105], "agent"); None] /\
  map (fun e => match e with EvSend k _ => Some k | _ => None end) (w_trace w) = [None; Some 0%nat].
Proof. vm_compute. done. Qed.

(** The observer is refused. *)
Example demo_refused :
  let w := run (L := demo_link false)
             (handle_client_message 0 (msg_of (sm_msg_send (Some "1") [104; 105])))
             (demo_world false) in
  ds_out (w_link w) = [] /\
  w_trace w = [EvSend 0 (sm_msg_error (Some "1") "not authorized to send")].
Proof. vm_compute. done. Qed.

(** A break: asserted, released by the timer, acknowledged. *)
Example demo_break :
  let w := run (L := demo_link false)
             (handle_client_message 1 (msg_of (sm_msg_pin_control (Some "b") "break" "pulse" 250)) ;;
              handle_break_timer) (demo_world false) in
  List.filter is_device (w_trace w) = [EvParam "break" "set"; EvParam "break" "clear"] /\
  last (w_trace w) = Some (EvSend 1 (sm_msg_ack "pin_control" (Some "b"))).
Proof. vm_compute. done. Qed.

(** A turn of the loop with device output: both clients get it. *)
Example demo_output :
  let w := run (L := demo_link false)
             (loop_turn [LeLink (mk_ev true false false) [DBytes [62; 32]; DAgain]] (fun _ => false))
             (demo_world false) in
  rb_content (b_history (w_b w)) = [62; 32] /\
  map (fun e => match e with EvSend k m => Some (k, payload m "data") | _ => None end) (w_trace w) =
    [Some (0%nat, Some [62; 32]); Some (1%nat, Some [62; 32])].
Proof. vm_compute. done. Qed.
End runs.
