(* ===== verification/BrokerFrame.v ===== *)
(** * Reasoning about broker programs

    [keeps V Q m]: [m] leaves the view [V] of broker and link alone and every
    event it adds to the trace satisfies [Q].  [inv I m]: [m] preserves [I].
    Both are compositional over the monad; the tactics walk a handler's syntax
    and leave the leaves.  [turn_part] are the pieces a turn of the loop is made
    of and [mid_turn] the states between them. *)
From S2P Require Import Prelude Arrays Codecs RingBuffer Json Protocol Regex Expect BootStage Autoresponder.
From S2P Require Import Anomaly Effects Client BrokerState BrokerOps BrokerLink BrokerHandlers BrokerLoop.

#[local] Open Scope Z_scope.

Create HintDb broker discriminated.
#[export] Hint Constants Opaque : broker.

(** Messages, logs and sink callbacks: nothing that reaches the device, no
    break accepted or completed, no client destroyed. *)
Definition quiet_event (e : event) : Prop :=
  match e with
  | EvSend _ _ | EvLogInput _ _ _ | EvLogOutput _ _ | EvLogIncident _ _ _ _ | EvText _ _
  | EvSinkOutput _ _ _ | EvSinkEvent _ _ _ | EvSinkExpect _ _ _ => True
  | _ => False
  end.
Definition any_event (e : event) : Prop := True.
Definition no_device (e : event) : Prop := is_device e = false.

(** Who a client is; the rest of its record is transport. *)
Definition cident (c : sm_client) : nat * string * string * string * bool * bool :=
  (cl_key c, cl_id c, cl_name c, cl_role c, cl_hello c, cl_requires_auth c).

Lemma cident_eq c c' :
  cident c' = cident c ->
  cl_key c' = cl_key c /\ cl_id c' = cl_id c /\ cl_name c' = cl_name c /\ cl_role c' = cl_role c /\
  cl_hello c' = cl_hello c /\ cl_requires_auth c' = cl_requires_auth c.
Proof. unfold cident. intros [=]. split_and!; congruence. Qed.

Section frame.
Context {L : LinkOps}.

(** The trace grew by events in [Q]. *)
Definition grows (Q : event -> Prop) (w w' : world) : Prop :=
  exists t, w_trace w' = w_trace w ++ t /\ Forall Q t.

Definition kept {T} (V : sm_broker -> link_state -> T) (Q : event -> Prop) (w w' : world) : Prop :=
  V (w_b w') (w_link w') = V (w_b w) (w_link w) /\ grows Q w w'.
Definition keeps {T A} (V : sm_broker -> link_state -> T) (Q : event -> Prop) (m : M A) : Prop :=
  forall w, kept V Q w (run m w).

Definition inv {A} (I : world -> Prop) (m : M A) : Prop := forall w, I w -> I (run m w).

#[export] Instance grows_preorder Q : PreOrder (grows Q).
Proof.
  split.
  - intros w. exists []. by rewrite app_nil_r.
  - intros w1 w2 w3 (t1 & E1 & F1) (t2 & E2 & F2).
    exists (t1 ++ t2). rewrite E2, E1, app_assoc. split; [done|]. by apply Forall_app.
Qed.
#[export] Instance kept_preorder {T} (V : sm_broker -> link_state -> T) Q : PreOrder (kept V Q).
Proof.
  split; [by intros w; split|].
  intros w1 w2 w3 [H1 G1] [H2 G2]. split; [congruence|by etrans].
Qed.

Lemma run_bind {A B} (m : M A) (k : A -> M B) w :
  run (m ≫= k) w = run (k (result m w)) (run m w).
Proof. unfold run, result, mbind, M_bind. by destruct (m w). Qed.

Lemma result_bind {A B} (m : M A) (k : A -> M B) w :
  result (m ≫= k) w = result (k (result m w)) (run m w).
Proof. unfold run, result, mbind, M_bind. by destruct (m w). Qed.

(** Reading and writing the broker's own fields. *)
Lemma run_gets {A B} (f : sm_broker -> A) (k : A -> M B) w :
  run (gets f ≫= k) w = run (k (f (w_b w))) w.
Proof. done. Qed.
Lemma run_ask {B} (k : sm_broker -> M B) w : run (ask ≫= k) w = run (k (w_b w)) w.
Proof. done. Qed.
Lemma run_lflag {A B} (f : link_flags -> A) (k : A -> M B) w :
  run (lflag f ≫= k) w = run (k (f (b_link (w_b w)))) w.
Proof. done. Qed.
Lemma run_modify {B} f (k : unit -> M B) w :
  run (modify f ≫= k) w = run (k tt) {| w with w_b := f (w_b w) |}.
Proof. done. Qed.
Lemma run_mod_brk {B} f (k : unit -> M B) w :
  run (mod_brk f ≫= k) w = run (k tt) {| w with w_b := {| (w_b w) with b_brk := f (b_brk (w_b w)) |} |}.
Proof. done. Qed.
Lemma run_mod_client {B} i f (k : unit -> M B) w :
  run (mod_client i f ≫= k) w =
  run (k tt) {| w with w_b := {| (w_b w) with b_clients := upd_key i f (b_clients (w_b w)) |} |}.
Proof. done. Qed.

Lemma grows_mono (Q Q' : event -> Prop) w w' :
  (forall e, Q e -> Q' e) -> grows Q w w' -> grows Q' w w'.
Proof. intros HQ (t & E & F). exists t. split; [done|]. by eapply Forall_impl. Qed.

Lemma keeps_mono {T A} (V : sm_broker -> link_state -> T) (Q Q' : event -> Prop) (m : M A) :
  (forall e, Q e -> Q' e) -> keeps V Q m -> keeps V Q' m.
Proof. intros HQ Hm w. destruct (Hm w). split; [done|]. by eapply grows_mono. Qed.

(** ** Programs that keep a view *)
Section keeps.
Context {T : Type} (V : sm_broker -> link_state -> T) (Q : event -> Prop).

Lemma grows_nil w w' : w_trace w' = w_trace w -> grows Q w w'.
Proof. intros E. exists []. by rewrite app_nil_r. Qed.

Lemma keeps_ret {A} (x : A) : keeps V Q (mret x).
Proof. by intros w. Qed.
Lemma keeps_bind {A B} (m : M A) (k : A -> M B) :
  keeps V Q m -> (forall x, keeps V Q (k x)) -> keeps V Q (m ≫= k).
Proof. intros Hm Hk w. rewrite run_bind. etrans; [apply Hm|apply Hk]. Qed.
Lemma keeps_gets {A} (f : sm_broker -> A) : keeps V Q (gets f).
Proof. by intros w. Qed.
Lemma keeps_ask : keeps V Q ask.
Proof. by intros w. Qed.
Lemma keeps_lflag {A} (f : link_flags -> A) : keeps V Q (lflag f).
Proof. by intros w. Qed.
Lemma keeps_link_view : keeps V Q link_view.
Proof. by intros w. Qed.
Lemma keeps_query {A} (f : nat -> A) : keeps V Q (query f).
Proof. intros w. split; [done|by apply grows_nil]. Qed.
Lemma keeps_modify f : (forall b l, V (f b) l = V b l) -> keeps V Q (modify f).
Proof. intros Hf w. split; [apply Hf|by apply grows_nil]. Qed.
Lemma keeps_update f : (forall w, kept V Q w (f w)) -> keeps V Q (update f).
Proof. intros Hf w. apply Hf. Qed.
Lemma keeps_emit e : Q e -> keeps V Q (emit e).
Proof. intros He w. split; [done|]. exists [e]. split; [done|]. by constructor. Qed.
Lemma keeps_when c m : keeps V Q m -> keeps V Q (when c m).
Proof. intros Hm. destruct c; [done|apply keeps_ret]. Qed.
Lemma keeps_for_each {A} (f : A -> M unit) l :
  (forall x, keeps V Q (f x)) -> keeps V Q (for_each f l).
Proof. intros Hf. induction l; simpl; [apply keeps_ret|]. by apply keeps_bind. Qed.
Lemma keeps_for_each_i {A} (f : nat -> A -> M unit) i l :
  (forall i x, keeps V Q (f i x)) -> keeps V Q (for_each_i f i l).
Proof.
  intros Hf. revert i. induction l; intros i; simpl; [apply keeps_ret|]. by apply keeps_bind.
Qed.
Lemma keeps_link_call {A} e (f : link_state -> A * link_state) :
  Q e -> (forall b l l', V b l = V b l') -> keeps V Q (link_call e f).
Proof.
  intros He HV w. unfold link_call, run. destruct (f (w_link w)) as [x l]. split; [apply HV|].
  exists [e]. split; [done|]. by constructor.
Qed.
Lemma keeps_filter_call f buf : (forall b l l', V b l = V b l') -> keeps V Q (filter_call f buf).
Proof.
  intros HV w. unfold filter_call, run. destruct (f buf (w_link w)) as [x l].
  split; [apply HV|by apply grows_nil].
Qed.
End keeps.

(** ** Invariants *)
Section invariants.
Context (I : world -> Prop).

Lemma inv_ret {A} (x : A) : inv I (mret x).
Proof. by intros w. Qed.
Lemma inv_bind {A B} (m : M A) (k : A -> M B) :
  inv I m -> (forall x, inv I (k x)) -> inv I (m ≫= k).
Proof. intros Hm Hk w Hw. rewrite run_bind. by apply Hk, Hm. Qed.
Lemma inv_gets_bind {A B} (f : sm_broker -> A) (k : A -> M B) :
  (forall w, I w -> inv I (k (f (w_b w)))) -> inv I (gets f ≫= k).
Proof. intros Hk w Hw. rewrite run_bind. by apply (Hk w). Qed.
Lemma inv_ask_bind {B} (k : sm_broker -> M B) :
  (forall w, I w -> inv I (k (w_b w))) -> inv I (ask ≫= k).
Proof. apply (inv_gets_bind (fun b => b)). Qed.
Lemma inv_lflag_bind {A B} (f : link_flags -> A) (k : A -> M B) :
  (forall w, I w -> inv I (k (f (b_link (w_b w))))) -> inv I (lflag f ≫= k).
Proof. apply (inv_gets_bind (fun b => f (b_link b))). Qed.
Lemma inv_when c m : inv I m -> inv I (when c m).
Proof. intros Hm. destruct c; [done|apply inv_ret]. Qed.
Lemma inv_for_each {A} (f : A -> M unit) l : (forall x, inv I (f x)) -> inv I (for_each f l).
Proof. intros Hf. induction l; simpl; [apply inv_ret|]. by apply inv_bind. Qed.
Lemma inv_kept {T A} (V : sm_broker -> link_state -> T) Q (m : M A) :
  (forall w w', kept V Q w w' -> I w -> I w') -> keeps V Q m -> inv I m.
Proof. intros HI Hm w Hw. by apply (HI w); [apply Hm|]. Qed.
End invariants.
End frame.

(** ** Client lists *)

Lemma map_cident_upd k f l :
  (forall c, cident (f c) = cident c) -> map cident (upd_key k f l) = map cident l.
Proof.
  intros Hf. unfold upd_key. rewrite map_map. apply map_ext. intros c.
  by destruct (Nat.eqb _ _); [apply Hf|].
Qed.

Lemma broadcast_loop_spec `{J : JsonText} id line ex l h :
  let '(l', h', to) := broadcast_loop id line ex l h in
  map cident l' = map cident l /\
  to = map cl_key (List.filter
         (fun c => negb (bool_decide (ex = Some (cl_key c)) || negb (cl_hello c))) l).
Proof.
  revert h. induction l as [|c l IH]; intros h; simpl; [done|].
  destruct (bool_decide _ || negb (cl_hello c)); simpl.
  - specialize (IH h). destruct (broadcast_loop id line ex l h) as [[l' h'] to].
    destruct IH as [Hl Hto]. simpl. by rewrite Hl, Hto.
  - destruct (sm_client_send_shared id line (cl_io c) h) as [[? io] h1].
    specialize (IH h1). destruct (broadcast_loop id line ex l h1) as [[l' h'] to].
    destruct IH as [Hl Hto]. simpl. by rewrite Hl, Hto.
Qed.

(** ** The transport operations

    A view that sees clients only by identity is kept by everything that only
    moves bytes. *)
Class ClientView {L : LinkOps} {T} (V : sm_broker -> link_state -> T) : Prop :=
  view_clients : forall b l cs,
    map cident cs = map cident (b_clients b) -> V {| b with b_clients := cs |} l = V b l.
(** Quiet, and no expect result for a sink: that one may owe an answer. *)
Definition talk_event (e : event) : Prop :=
  match e with EvSinkExpect _ _ _ => False | _ => quiet_event e end.
Class Talk (Q : event -> Prop) : Prop := talk : forall e, talk_event e -> Q e.

#[export] Instance Talk_quiet : Talk quiet_event.
Proof. by intros []. Qed.
#[export] Instance Talk_any : Talk any_event.
Proof. by intros e. Qed.
#[export] Instance Talk_no_device : Talk no_device.
Proof. by intros []. Qed.

Section transport.
Context {L : LinkOps} {E : SystemEnv} {J : JsonText} {R : RegexLib}.
Context {T : Type} (V : sm_broker -> link_state -> T) (Q : event -> Prop).
Context `{!ClientView V, !Talk Q}.

Lemma keeps_mod_client k f :
  (forall c, cident (f c) = cident c) -> keeps V Q (mod_client k f).
Proof.
  intros Hf. apply keeps_modify. intros b l. by apply view_clients, map_cident_upd.
Qed.

Lemma keeps_send k msg : keeps V Q (send_to_client k msg).
Proof.
  apply keeps_bind; [by apply (keeps_mod_client k)|intros _].
  by apply keeps_emit, talk.
Qed.

Lemma keeps_broadcast msg ex : keeps V Q (broadcast msg ex).
Proof.
  intros w. unfold broadcast, run.
  destruct (sm_shared_line_new (w_heap w)) as [id h].
  pose proof (broadcast_loop_spec id (sm_msg_encode msg) ex (b_clients (w_b w)) h) as Hb.
  destruct (broadcast_loop _ _ _ _ _) as [[cs h'] to]. destruct Hb as [Hcs _]. simpl.
  split; [by apply view_clients|]. eexists. split; [done|].
  apply Forall_map, Forall_true. intros k. by apply talk.
Qed.

Lemma keeps_flush k : keeps V Q (flush_client k).
Proof.
  apply keeps_bind; [apply keeps_query|intros env w]. unfold flush_with, run.
  destruct (find_key k _); [|done].
  destruct (sm_client_flush _ _ _) as [[[rc io] h] o]. split; simpl.
  - by apply view_clients, map_cident_upd.
  - by apply grows_nil.
Qed.

Lemma keeps_feed k r : keeps V Q (feed_client k r).
Proof.
  intros w. unfold feed_client, run. destruct (find_key k _); [|done].
  destruct (sm_client_feed _ _ _) as [msgs io]. split; simpl.
  - by apply view_clients, map_cident_upd.
  - by apply grows_nil.
Qed.
End transport.

#[export] Hint Resolve keeps_ret keeps_gets keeps_ask keeps_lflag keeps_link_view keeps_query
  keeps_send keeps_broadcast keeps_flush keeps_feed : broker.

(** ** Automation *)

Ltac head_of t := lazymatch t with ?f _ => head_of f | _ => t end.

Ltac talk_tac := first [exact Logic.I | reflexivity | by apply talk | assumption | done].

Ltac kept_update :=
  cbv beta zeta;
  repeat match goal with |- context [match ?x with (_, _) => _ end] => destruct x end;
  split; [reflexivity|apply grows_nil; reflexivity].

(** One step through the syntax of a program; a definition is unfolded when
    nothing is known about it; a loop needs a lemma of its own. *)
Ltac keeps_step :=
  lazymatch goal with
  | |- keeps _ _ (mbind _ _) => apply keeps_bind; [|intros ?]
  | |- keeps _ _ (when _ _) => apply keeps_when
  | |- keeps _ _ (for_each _ _) => apply keeps_for_each; intros ?
  | |- keeps _ _ (for_each_i _ _ _) => apply keeps_for_each_i; intros ? ?
  | |- keeps _ _ (emit _) => apply keeps_emit; talk_tac
  | |- keeps _ _ (mod_client _ _) => first
      [ apply keeps_mod_client; [typeclasses eauto|intros; reflexivity]
      | apply keeps_modify; intros; reflexivity ]
  | |- keeps _ _ (modify _) => apply keeps_modify; intros; reflexivity
  | |- keeps _ _ (update _) => apply keeps_update; intros ?; kept_update
  | |- keeps _ _ (link_call _ _) => apply keeps_link_call; [talk_tac|intros; reflexivity]
  | |- keeps _ _ (filter_call _ _) => apply keeps_filter_call; intros; reflexivity
  | |- keeps _ _ (if ?c then _ else _) => destruct c
  | |- keeps _ _ (match ?c with _ => _ end) => destruct c
  | |- keeps _ _ (client_input _ _ _) => solve [eauto 2 with broker]
  | |- keeps _ _ (flush_client_queues _ _) => solve [eauto 2 with broker]
  | |- keeps _ _ (drop_stale _ _ _) => solve [eauto 2 with broker]
  | |- keeps _ _ (replace_loop _ _ _) => solve [eauto 2 with broker]
  | |- keeps _ _ (add_patterns _ _) => solve [eauto 2 with broker]
  | |- keeps _ _ (drain_link_fd _ _ _ _) => solve [eauto 2 with broker]
  | |- keeps _ _ ?m => first [solve [eauto 2 with broker typeclass_instances]
                             | let h := head_of m in progress unfold h]
  end.
Ltac keeps_tac := repeat keeps_step.

(** The same walk for an invariant; [leaf] closes what keeps the invariant's
    view. *)
Ltac inv_step leaf :=
  lazymatch goal with
  | |- inv _ (mbind _ (gets _)) => apply inv_gets_bind; intros ? ?
  | |- inv _ (mbind _ (lflag _)) => apply inv_lflag_bind; intros ? ?
  | |- inv _ (mbind _ ask) => apply inv_ask_bind; intros ? ?
  | |- inv _ (mbind _ _) => apply inv_bind; [|intros ?]
  | |- inv _ (mret _) => apply inv_ret
  | |- inv _ (when _ _) => apply inv_when
  | |- inv _ (for_each _ _) => apply inv_for_each; intros ?
  | |- inv _ (if ?c then _ else _) => destruct c
  | |- inv _ (match ?c with _ => _ end) => destruct c
  | |- inv _ (client_input _ _ _) => solve [eauto 2 with broker | leaf]
  | |- inv _ (flush_client_queues _ _) => solve [eauto 2 with broker | leaf]
  | |- inv _ (drop_stale _ _ _) => solve [eauto 2 with broker | leaf]
  | |- inv _ (replace_loop _ _ _) => solve [eauto 2 with broker | leaf]
  | |- inv _ (add_patterns _ _) => solve [eauto 2 with broker | leaf]
  | |- inv _ (drain_link_fd _ _ _ _) => solve [eauto 2 with broker | leaf]
  | |- inv _ ?m => first [ solve [eauto 2 with broker]
                         | solve [leaf]
                         | let h := head_of m in progress unfold h ]
  end.
Ltac inv_tac leaf := repeat inv_step leaf.

(** ** Removing a client *)

Lemma key_index_Some k i l j :
  key_index k i l = Some j -> exists c, l !! (j - i)%nat = Some c /\ cl_key c = k /\ (i <= j)%nat.
Proof.
  revert i. induction l as [|c l IH]; intros i; simpl; [done|].
  destruct (Nat.eqb_spec (cl_key c) k) as [Ek|].
  - intros [= ->]. exists c. by rewrite Nat.sub_diag.
  - intros (c' & Hl & Ek & Hle)%IH. exists c'. split_and!; [|done|lia].
    by replace (j - i)%nat with (S (j - S i))%nat by lia.
Qed.

Lemma find_key_Some k l c : find_key k l = Some c -> In c l /\ cl_key c = k.
Proof. intros [Hin Hk]%List.find_some. split; [done|]. by apply Nat.eqb_eq. Qed.

Lemma find_key_In k l c :
  NoDup (map cl_key l) -> In c l -> cl_key c = k -> find_key k l = Some c.
Proof.
  intros Hnd Hin <-. induction l as [|x l IH]; [done|]. simpl in *.
  apply NoDup_cons in Hnd as [Hx Hnd]. destruct (Nat.eqb_spec (cl_key x) (cl_key c)) as [E|].
  - destruct Hin as [->|Hin]; [done|]. destruct Hx. rewrite E. by apply list_elem_of_In, in_map.
  - destruct Hin as [->|Hin]; [done|]. by apply IH.
Qed.

Section removal.
Context {L : LinkOps}.

(** What [remove_client] does to the broker, when the client is there. *)
Lemma remove_client_spec k w :
  run (remove_client k) w = w \/
  exists c i, find_key k (b_clients (w_b w)) = Some c /\ b_clients (w_b w) !! i = Some c /\
    b_clients (w_b (run (remove_client k) w)) = swap_remove i (b_clients (w_b w)) /\
    b_takeover (w_b (run (remove_client k) w)) =
      (if bool_decide (b_takeover (w_b w) = Some k) then None else b_takeover (w_b w)) /\
    b_next_key (w_b (run (remove_client k) w)) = b_next_key (w_b w).
Proof.
  unfold remove_client, run. destruct (find_key k _) as [c|] eqn:Hf; [|by left].
  destruct (key_index k 0 _) as [i|] eqn:Hi; [|by left]. right.
  assert (b_clients (w_b w) !! i = Some c) as Hl.
  { clear - Hf Hi. revert i Hi. generalize (b_clients (w_b w)) Hf. intros l. clear.
    enough (forall j i, find_key k l = Some c -> key_index k j l = Some i -> l !! (i - j)%nat = Some c /\ (j <= i)%nat) as H.
    { intros Hf i Hi. destruct (H 0%nat i Hf Hi) as [He _]. by rewrite Nat.sub_0_r in He. }
    induction l as [|x l IH]; intros j i; [done|]. unfold find_key. simpl.
    destruct (Nat.eqb (cl_key x) k); [intros [= ->] [= ->]; by rewrite Nat.sub_diag|].
    intros Hf Hi. destruct (IH (S j) i Hf Hi) as [He Hle]. split; [|lia].
    by replace (i - j)%nat with (S (i - S j))%nat by lia. }
  exists c, i. split_and!; done.
Qed.
End removal.

(** ** Between two parts of a turn *)

Section between.
Context {L : LinkOps} {E : SystemEnv} {J : JsonText} {R : RegexLib}.

(** The parts a turn of the loop runs one after the other, resume requests
    left out. *)
Inductive turn_part : forall {A}, M A -> Prop :=
  | tp_expect : turn_part process_expect_results
  | tp_history : turn_part process_history_pending
  | tp_reconnect : turn_part attempt_reconnect
  | tp_timeout : turn_part check_connect_timeout
  | tp_listen pid : turn_part (process_event (LeListen pid))
  | tp_pipe regs : turn_part (process_event (LePipe regs))
  | tp_break : turn_part (process_event LeBreakTimer)
  | tp_flood : turn_part (process_event LeFloodTimer)
  | tp_stall : turn_part (process_event LeStallTimer)
  | tp_link ev reads : turn_part (process_event (LeLink ev reads))
  | tp_link_out out : turn_part (process_event (LeLinkOut out))
  | tp_feed k r : turn_part (feed_client k r)
  | tp_message k msg : m_type msg <> SM_MSG_RESUME -> turn_part (handle_client_message k msg)
  | tp_pending k p : turn_part (set_write_pending k p)
  | tp_flush k : turn_part (flush_client k)
  | tp_remove k : turn_part (remove_client k)
  | tp_sink s : (forall n, s <> ScResume n) -> turn_part (sink_op s)
  | tp_housekeeping gone : turn_part (housekeeping gone).

(** The states between two parts of any execution, resume requests included. *)
Inductive mid_turn : world -> Prop :=
  | mt_initial w : initial w -> mid_turn w
  | mt_part A (m : M A) w : turn_part m -> mid_turn w -> mid_turn (run m w)
  | mt_resume k msg w :
      m_type msg = SM_MSG_RESUME -> mid_turn w -> mid_turn (run (handle_client_message k msg) w)
  | mt_sink_resume n w : mid_turn w -> mid_turn (run (sink_op (ScResume n)) w).

Lemma mid_part {A} (m : M A) : turn_part m -> inv mid_turn m.
Proof. intros Hm w. by apply mt_part. Qed.
Ltac part_leaf := apply mid_part; constructor.
Lemma mid_message k msg : inv mid_turn (handle_client_message k msg).
Proof.
  destruct (m_type msg) eqn:Hm; try (apply mid_part, tp_message; by rewrite Hm).
  intros w. by apply mt_resume.
Qed.
Lemma mid_sink s : inv mid_turn (sink_op s).
Proof. destruct s; try by apply mid_part, tp_sink. intros w. apply mt_sink_resume. Qed.
#[local] Hint Resolve mid_message mid_sink : broker.
Lemma mid_client_input fuel k reads : inv mid_turn (client_input fuel k reads).
Proof. revert reads. induction fuel; intros reads; cbn [client_input]; inv_tac part_leaf. Qed.
Lemma mid_flush_queues fuel i : inv mid_turn (flush_client_queues fuel i).
Proof. revert i. induction fuel; intros i; cbn [flush_client_queues]; inv_tac part_leaf. Qed.
#[local] Hint Resolve mid_client_input mid_flush_queues : broker.
Lemma mid_event e : inv mid_turn (process_event e).
Proof. destruct e; try solve [part_leaf]; cbn [process_event]; inv_tac part_leaf. Qed.
#[local] Hint Resolve mid_event : broker.

(** A turn of the loop is such parts, one after the other. *)
Lemma loop_turn_mid_turn events gone : inv mid_turn (loop_turn events gone).
Proof. unfold loop_turn. inv_tac part_leaf. Qed.
Lemma reachable_mid_turn w : reachable w -> mid_turn w.
Proof. induction 1; [by apply mt_initial|by apply loop_turn_mid_turn]. Qed.
End between.
