(* ===== verification/BrokerAuth.v ===== *)
(** * Authorisation

    Who may reach the device: the token check, the hello gate, roles and the
    takeover lock. *)
From S2P Require Import Prelude Arrays Codecs RingBuffer Json CJson Protocol Regex Expect BootStage.
From S2P Require Import Autoresponder Anomaly Effects Client BrokerState BrokerOps BrokerLink BrokerHandlers BrokerLoop BrokerDemo.
From S2P Require Import BrokerFrame.

#[local] Open Scope string_scope.
#[local] Open Scope list_scope.
#[local] Open Scope Z_scope.

(** ** The token comparison *)

Lemma ct_loop_zero n i a b d :
  0 <= i -> 0 <= d ->
  ct_loop n i a b d = 0 <->
  d = 0 /\ forall j, i <= j < i + Z.of_nat n ->
    u8 (Z.lxor (if j <? zlen a then zat a j else 0) (if j <? zlen b then zat b j else 0)) = 0.
Proof.
  revert i d. induction n as [|n IH]; intros i d Hi Hd; cbn [ct_loop].
  - split; [intros ->; split; [done|lia]|by intros [-> _]].
  - set (x := u8 _). assert (0 <= x) by (unfold x, u8; zdivmod).
    rewrite IH by (try lia; apply Z.lor_nonneg; lia).
    rewrite Z.lor_eq_0_iff. split.
    + intros [[-> Hx] Hj]. split; [done|]. intros j Hr.
      destruct (Z.eq_dec j i) as [->|]; [done|]. apply Hj. lia.
    + intros [-> Hj]. split_and!; [done|apply (Hj i); lia|]. intros j Hr. apply Hj. lia.
Qed.

Lemma bytes_ext a b :
  all_bytes a -> all_bytes b -> zlen a = zlen b ->
  (forall j, 0 <= j < zlen a -> u8 (Z.lxor (zat a j) (zat b j)) = 0) -> a = b.
Proof.
  revert b. induction a as [|x a IH]; intros b Ha Hb Hl Hj.
  - symmetry. apply zlen_zero. by rewrite <- Hl.
  - destruct b as [|y b]; [zlia|]. apply Forall_cons in Ha as [Hx Ha]. apply Forall_cons in Hb as [Hy Hb].
    f_equal.
    + specialize (Hj 0 ltac:(zlia)). unfold zat in Hj. rewrite !zget_cons_0 in Hj. simpl in Hj.
      apply Z.lxor_eq. rewrite u8_small in Hj; [done|]. unfold is_byte in *.
      split; [by apply Z.lxor_nonneg; lia|].
      destruct (Z.eq_dec (Z.lxor x y) 0) as [->|Hne]; [lia|].
      apply Z.log2_lt_pow2 with (b := 8); [pose proof (Z.lxor_nonneg x y); lia|].
      pose proof (Z.log2_lxor x y ltac:(lia) ltac:(lia)).
      assert (forall z, 0 <= z < 256 -> Z.log2 z < 8) as Hlog.
      { intros z Hz. destruct (Z.eq_dec z 0) as [->|]; [done|]. apply Z.log2_lt_pow2; lia. }
      pose proof (Hlog x Hx). pose proof (Hlog y Hy). lia.
    + apply IH; [done..|zlia|]. intros j Hr. specialize (Hj (j + 1) ltac:(zlia)).
      unfold zat in Hj |- *. by rewrite !zget_cons_S in Hj by lia.
Qed.

(** The constant-time token comparison accepts exactly the configured token. *)
Theorem ct_str_equal_correct a b : ct_str_equal a b = true <-> a = b.
Proof.
  unfold ct_str_equal. rewrite Z.eqb_eq. set (la := bytes_of_string a). set (lb := bytes_of_string b).
  rewrite ct_loop_zero by (try destruct (_ =? _); lia). split.
  - intros [Hl Hj]. apply bytes_of_string_inj. fold la lb.
    assert (zlen la = zlen lb) as El by (destruct (Z.eqb_spec (zlen la) (zlen lb)); [done|lia]).
    apply bytes_ext; [apply bytes_of_string_bytes..|done|].
    intros j Hr. specialize (Hj j ltac:(unfold zlen in *; lia)).
    destruct (Z.ltb_spec j (zlen la)); [|lia]. by destruct (Z.ltb_spec j (zlen lb)); [|lia].
  - intros ->. subst la lb. rewrite Z.eqb_refl. split; [done|]. intros j _. by rewrite Z.lxor_nilpotent.
Qed.

(** ** What an unauthorised client can do *)

Section auth.
Context {L : LinkOps} {E : SystemEnv} {J : JsonText} {R : RegexLib}.

(** Everything that steers the device or reacts to it, and the link itself. *)
Definition control (b : sm_broker) (l : link_state) :=
  (b_link b, b_brk b, b_flood b, b_ar b, b_anomaly b, b_boot b, b_history b, b_baudrate b,
   b_auth_token b, l).
#[local] Instance control_view : ClientView control.
Proof. by intros b l cs. Qed.

Lemma remove_client_control k : keeps control no_device (remove_client k).
Proof.
  intros w. unfold remove_client, run. destruct (find_key k _) as [c|]; [|done].
  destruct (key_index k 0 _) as [i|]; [|done]. split; [done|]. exists [EvHangup k].
  split; [done|]. by constructor.
Qed.
#[local] Hint Resolve remove_client_control : broker.

Lemma replace_loop_control k name i : keeps control no_device (replace_loop k name i).
Proof. induction i; simpl; keeps_tac. Qed.
#[local] Hint Resolve replace_loop_control : broker.

Lemma denied {A} (c : sm_client) (e : M A) (m : sm_broker -> M A) w :
  can_send (w_b w) c = false -> keeps control no_device e ->
  kept control no_device w (run (b ← ask; if negb (can_send b c) then e else m b) w).
Proof. intros Hc He. rewrite run_bind. unfold ask, gets, run, result. simpl. rewrite Hc. apply He. Qed.

Lemma dispatch_denied k c type root w :
  can_send (w_b w) c = false -> kept control no_device w (run (dispatch k c type root) w).
Proof.
  intros Hc.
  destruct type; cbn [dispatch];
    unfold handle_send, handle_send_expect, handle_interrupt_autoboot, handle_pin_control,
      handle_set_baud, handle_suspend, handle_resume, handle_configure_anomaly,
      handle_configure_autoresponder; cbv zeta;
    first [apply denied; [done|]
          |revert w Hc; intros w _; revert w;
           lazymatch goal with |- forall w, kept ?V ?Q w (run ?m w) => change (keeps V Q m) end];
    keeps_tac.
Qed.

Lemma denied_message w k c msg :
  find_key k (b_clients (w_b w)) = Some c ->
  cl_hello c = false \/ can_send (w_b w) c = false ->
  kept control no_device w (run (handle_client_message k msg) w).
Proof.
  intros Hk Hc. unfold handle_client_message, with_client. rewrite run_bind.
  unfold gets, run at 2, result. simpl. rewrite Hk.
  destruct (cl_hello c) eqn:Hh; simpl.
  - destruct Hc as [|Hc]; [done|]. by apply dispatch_denied.
  - case_bool_decide as Ht; simpl; [|by apply keeps_send; typeclasses eauto].
    rewrite Ht. revert w Hk Hc. intros w _ _. revert w.
    change (keeps control no_device (handle_hello k c (default JNull (m_root msg)))). keeps_tac.
Qed.
(** C1: a client that has not completed its hello, is an observer, or is locked
    out by another client's takeover cannot reach the device: whatever message
    it sends, no vtable entry of the link is called, and the link flags, the
    break and flood machines, the autoresponder rules, the anomaly patterns,
    boot progress, the history and the baud rate stay as they are. *)
Theorem unauthorised_harmless w k c msg :
  find_key k (b_clients (w_b w)) = Some c ->
  cl_hello c = false \/ can_send (w_b w) c = false ->
  kept control no_device w (run (handle_client_message k msg) w).
Proof. apply denied_message. Qed.
End auth.

(** An observer asks for a BREAK and is told off. *)
Lemma unauthorised_harmless_witness :
  let w := demo_world false in
  let w' := run (handle_client_message 0 (msg_of (sm_msg_pin_control (Some "1") "break" "send" 250))) w in
  control (w_b w') (w_link w') = control (w_b w) (w_link w) /\
  w_trace w' = [EvSend 0 (sm_msg_error (Some "1") "not authorized")].
Proof.
  split; [|by vm_compute].
  apply (unauthorised_harmless (demo_world false) 0 (demo_client 0 "watch" "observer")
           (msg_of (sm_msg_pin_control (Some "1") "break" "send" 250))); [reflexivity|].
  right. reflexivity.
Defined.
