(* ===== verification/BrokerClients.v ===== *)
(** * The client table

    Invariants of the clients the broker keeps: slots, identities, names, and
    the takeover lock. *)
From S2P Require Import Prelude Arrays Codecs RingBuffer Json CJson Protocol Regex Expect BootStage.
From S2P Require Import Autoresponder Anomaly Effects Client BrokerState BrokerOps BrokerLink BrokerHandlers BrokerLoop BrokerDemo.
From S2P Require Import BrokerFrame.

#[local] Open Scope string_scope.
#[local] Open Scope list_scope.
#[local] Open Scope Z_scope.

(** Two clients that completed their hello share no name. *)
Definition names_differ (c c' : sm_client) : Prop :=
  cl_hello c = true -> cl_hello c' = true -> cl_name c <> "" -> cl_name c <> cl_name c'.

(** [P] says for whose keys the names are known to differ: while a client is
    being renamed they may clash. *)
Record clients_ok_for (P : nat -> Prop) (b : sm_broker) : Prop := {
  ck_keys : NoDup (map cl_key (b_clients b));
  ck_fresh : Forall (fun c => (cl_key c < b_next_key b)%nat) (b_clients b);
  ck_count : (length (b_clients b) <= SM_MAX_CLIENTS)%nat;
  ck_names : forall c c', In c (b_clients b) -> In c' (b_clients b) -> cl_key c <> cl_key c' ->
               P (cl_key c) -> P (cl_key c') -> names_differ c c';
  ck_silent : Forall (fun c => cl_hello c = false -> cl_role c = "observer") (b_clients b);
  ck_takeover : forall k, b_takeover b = Some k ->
    exists c, find_key k (b_clients b) = Some c /\ cl_hello c = true /\ cl_role c <> "observer" }.
Abbreviation clients_ok := (clients_ok_for (fun _ => True)) (only parsing).

Section clients.
Context {L : LinkOps} {E : SystemEnv} {J : JsonText} {R : RegexLib}.

Definition table (b : sm_broker) (l : link_state) :=
  (map cident (b_clients b), b_next_key b, b_takeover b).
#[local] Instance table_view : ClientView table.
Proof. intros b l cs H. unfold table. simpl. by rewrite H. Qed.

Definition table_ok_for (P : nat -> Prop) (w : world) : Prop := clients_ok_for P (w_b w).
Definition table_ok (w : world) : Prop := clients_ok (w_b w).

Lemma cident_find k l l' :
  map cident l' = map cident l ->
  forall c, find_key k l = Some c -> exists c', find_key k l' = Some c' /\ cident c' = cident c.
Proof.
  revert l'. induction l as [|x l IH]; intros [|x' l'] Hm c; try done.
  apply (f_equal (fun l => (List.hd (cident x) l, tl l))) in Hm as [= Hk ? ? ? ? ? Hm'].
  assert (cident x' = cident x) as Hx by (unfold cident; congruence).
  unfold find_key. simpl. rewrite Hk.
  destruct (Nat.eqb (cl_key x) k); [intros [= <-]; by exists x'|]. by apply IH.
Qed.

Lemma cident_In l l' c' :
  map cident l' = map cident l -> In c' l' -> exists c, In c l /\ cident c' = cident c.
Proof.
  intros Hm Hin. apply (in_map cident) in Hin. rewrite Hm in Hin.
  apply in_map_iff in Hin as (c & ? & ?). by exists c.
Qed.

Lemma cident_Forall (P : sm_client -> Prop) l l' :
  (forall c c', cident c' = cident c -> P c -> P c') ->
  map cident l' = map cident l -> Forall P l -> Forall P l'.
Proof.
  intros HP Hm HF. apply List.Forall_forall. intros c' Hin.
  destruct (cident_In _ _ _ Hm Hin) as (c & Hc & Ec).
  apply (HP c); [done|]. by apply (proj1 (List.Forall_forall _ _) HF).
Qed.

Lemma clients_ok_table P b b' l l' :
  table b' l' = table b l -> clients_ok_for P b -> clients_ok_for P b'.
Proof.
  intros [= Hm Hk Ht] [H1 H2 H3 H4 H5 H6]. split.
  - replace (map cl_key (b_clients b')) with (map (fun t => t.1.1.1.1.1) (map cident (b_clients b')))
      by (rewrite map_map; by apply map_ext).
    rewrite Hm, map_map. done.
  - rewrite Hk. eapply cident_Forall; [|done|done]. intros c c' (Ek&_&_&Er&Eh&_)%cident_eq. by rewrite ?Ek, ?Er, ?Eh.
  - assert (length (map cident (b_clients b')) = length (map cident (b_clients b))) as Hl by congruence.
    rewrite !length_map in Hl. lia.
  - intros c c' Hc Hc' Hne HP HP'. destruct (cident_In _ _ _ Hm Hc) as (d & Hd & Ed).
    destruct (cident_In _ _ _ Hm Hc') as (d' & Hd' & Ed').
    apply cident_eq in Ed as (Ek&_&En&_&Eh&_). apply cident_eq in Ed' as (Ek'&_&En'&_&Eh'&_).
    specialize (H4 d d' Hd Hd'). unfold names_differ in *. rewrite Ek, Ek' in *.
    rewrite En, En', Eh, Eh'. by apply H4.
  - eapply cident_Forall; [|done|done]. intros c c' (Ek&_&_&Er&Eh&_)%cident_eq. by rewrite ?Ek, ?Er, ?Eh.
  - rewrite Ht. intros k (c & Hf & ? & ?)%H6.
    destruct (cident_find k _ _ Hm c Hf) as (c' & Hf' & Ec). exists c'.
    apply cident_eq in Ec as (_&_&_&Er&Eh&_). by rewrite Er, Eh.
Qed.

Lemma table_kept_for P Q w w' : kept table Q w w' -> table_ok_for P w -> table_ok_for P w'.
Proof. intros [Ht _]. by apply (clients_ok_table P _ _ (w_link w) (w_link w')). Qed.
Lemma table_kept Q w w' : kept table Q w w' -> table_ok w -> table_ok w'.
Proof. apply table_kept_for. Qed.

(** Dropping clients keeps the table sound, if a dropped holder loses the
    lock. *)
Lemma clients_ok_remove P b b' c l :
  c :: l ≡ₚ b_clients b -> b_clients b' = l -> b_next_key b' = b_next_key b ->
  b_takeover b' = (if bool_decide (b_takeover b = Some (cl_key c)) then None else b_takeover b) ->
  clients_ok_for P b -> clients_ok_for P b'.
Proof.
  intros Hp Hc Hk Ht [H1 H2 H3 H4 H5 H6].
  assert (forall x, In x l -> In x (b_clients b)) as Hsub.
  { intros x Hx. rewrite <- list_elem_of_In in *. rewrite <- Hp. by apply list_elem_of_further. }
  assert (NoDup (map cl_key (c :: l))) as Hnd by (by rewrite Hp).
  split; rewrite ?Hc, ?Hk.
  - by apply NoDup_cons in Hnd as [_ Hnd].
  - rewrite <- Hp in H2. by apply Forall_cons in H2 as [_ H2].
  - apply Permutation_length in Hp. simpl in Hp. lia.
  - intros x y Hx Hy. apply H4; by apply Hsub.
  - rewrite <- Hp in H5. by apply Forall_cons in H5 as [_ H5].
  - rewrite Ht. case_bool_decide as Hd; [done|]. intros k Hk'.
    destruct (H6 k Hk') as (x & [Hin Hkey]%find_key_Some & Hh & Hr). exists x.
    split_and!; [|done..]. apply find_key_In; [by apply NoDup_cons in Hnd as [_ Hnd]| |done].
    rewrite <- list_elem_of_In in *. rewrite <- Hp in Hin. apply elem_of_cons in Hin as [->|]; [|done].
    congruence.
Qed.

Lemma remove_client_table_for P k : inv (table_ok_for P) (remove_client k).
Proof.
  intros w Hw. destruct (remove_client_spec k w) as [->|(c & i & Hf & Hl & Hc & Ht & Hk)]; [done|].
  apply find_key_Some in Hf as [_ <-].
  eapply clients_ok_remove; [by apply swap_remove_Permutation|done..].
Qed.
Lemma remove_client_table k : inv table_ok (remove_client k).
Proof. apply remove_client_table_for. Qed.
#[local] Hint Resolve remove_client_table : broker.

(** ** A new client *)

Lemma clients_ok_add b c :
  clients_ok b -> (length (b_clients b) < SM_MAX_CLIENTS)%nat -> cl_key c = b_next_key b ->
  cl_hello c = false -> cl_role c = "observer" ->
  clients_ok {| b with b_clients := b_clients b ++ [c]; b_next_key := S (b_next_key b) |}.
Proof.
  intros [H1 H2 H3 H4 H5 H6] Hl Hk Hh Hr.
  assert (Forall (fun x => (cl_key x < S (b_next_key b))%nat) (b_clients b)) as H2'
    by (apply (Forall_impl _ _ _ H2); simpl; intros; lia).
  split; simpl.
  - rewrite map_app. apply NoDup_app. split_and!; [done| |apply NoDup_singleton].
    intros x Hx%list_elem_of_In Hx'. apply list_elem_of_singleton in Hx' as ->.
    apply in_map_iff in Hx as (y & Ey & Hy%list_elem_of_In).
    pose proof (proj1 (Forall_forall _ _) H2 y Hy). simpl in *. lia.
  - apply Forall_app. split; [done|]. constructor; [lia|done].
  - rewrite length_app. simpl. lia.
  - intros x y Hx Hy Hne _ _. apply in_app_iff in Hx as [Hx|[<-|[]]]; [|by intros; congruence].
    apply in_app_iff in Hy as [Hy|[<-|[]]]; [by apply H4|by intros; congruence].
  - apply Forall_app. split; [done|]. by constructor.
  - intros k (x & Hf & ?)%H6. exists x. split; [|done]. unfold find_key in *. clear - Hf.
    induction (b_clients b) as [|y l IH]; simpl in *; [done|]. by destruct (Nat.eqb _ _); [|apply IH].
Qed.

Lemma register_client_table pid auth : inv table_ok (sm_broker_register_client pid auth).
Proof.
  intros w Hw. unfold sm_broker_register_client, alloc_call, sm_now_monotonic, timer_call, run, mbind,
    M_bind, mret, M_ret, ask, gets, query, modify. cbn [fst snd w_b w_link w_tick].
  destruct (Nat.leb_spec SM_MAX_CLIENTS (length (b_clients (w_b w)))); [done|].
  destruct (env_alloc (w_tick w) 0); cbn [negb fst w_b];
    [|by apply (clients_ok_table _ (w_b w) _ (w_link w) (w_link w))].
  destruct (env_timer _); cbn [negb fst w_b];
    [|by apply (clients_ok_table _ (w_b w) _ (w_link w) (w_link w))].
  refine (clients_ok_table _ _ _ (w_link w) (w_link w) _ (clients_ok_add (w_b w) _ Hw _ _ _ _));
    [reflexivity|done|reflexivity..].
Qed.
#[local] Hint Resolve register_client_table : broker.

(** ** Hello *)

(** The clients [replace_loop] looks for. *)
Definition clashes (k : nat) (name : string) (c : sm_client) : bool :=
  negb (Nat.eqb (cl_key c) k) && cl_hello c && negb (streq (cl_name c) "") && streq (cl_name c) name.

Lemma NoDup_key_index (l : list sm_client) i j c c' :
  NoDup (map cl_key l) -> l !! i = Some c -> l !! j = Some c' -> cl_key c = cl_key c' -> i = j.
Proof.
  intros Hnd Hi Hj Hk. apply (NoDup_lookup (map cl_key l) i j (cl_key c) Hnd).
  - by rewrite list_lookup_fmap, Hi.
  - by rewrite list_lookup_fmap, Hj, Hk.
Qed.

Lemma replace_loop_spec P k name i w :
  table_ok_for P w -> Forall (fun c => clashes k name c = false) (drop i (b_clients (w_b w))) ->
  let w' := run (replace_loop k name i) w in
  table_ok_for P w' /\ Forall (fun c => clashes k name c = false) (b_clients (w_b w')) /\
  (forall c, In c (b_clients (w_b w')) -> In c (b_clients (w_b w))).
Proof.
  revert w. induction i as [|i IH]; intros w Hw Hd; cbn [replace_loop]; [by rewrite drop_0 in Hd|].
  rewrite run_bind. cbn [gets result run fst snd]. rewrite run_bind.
  destruct (b_clients (w_b w) !! i) as [old|] eqn:Hi.
  2:{ apply IH; [done|]. apply lookup_ge_None in Hi. rewrite drop_ge by lia. constructor. }
  fold (clashes k name old). destruct (clashes k name old) eqn:Hc; cbn [when].
  2:{ apply IH; [done|]. rewrite (drop_S _ _ _ Hi). by constructor. }
  assert (table_ok_for P (run (remove_client (cl_key old)) w)) as Hw'
    by (by apply remove_client_table_for).
  destruct (remove_client_spec (cl_key old) w) as [Eq|(c & j & Hf & Hj & Hcl & _ & _)].
  - destruct Hw as [Hnd _ _ _ _ _]. exfalso.
    assert (find_key (cl_key old) (b_clients (w_b w)) = Some old) as Hf.
    { apply find_key_In; [done| |done]. by eapply list_elem_of_In, list_elem_of_lookup_2. }
    revert Eq. unfold run, remove_client. rewrite Hf.
    destruct (key_index (cl_key old) 0 (b_clients (w_b w))) as [j|] eqn:Hj.
    + simpl. intros Eq. apply (f_equal (fun w => length (w_trace w))) in Eq. simpl in Eq.
      rewrite length_app in Eq. simpl in Eq. lia.
    + intros _. clear - Hi Hj. revert i Hi Hj. generalize 0%nat.
      induction (b_clients (w_b w)) as [|x l IHl]; intros n i Hi Hj; [done|]. simpl in Hj.
      destruct i; [injection Hi as ->; by rewrite Nat.eqb_refl in Hj|].
      destruct (Nat.eqb _ _); [done|]. by eapply IHl.
  - assert (j = i) as ->.
    { eapply NoDup_key_index; [apply Hw|done..|]. by apply find_key_Some in Hf as [_ ->]. }
    assert (c = old) as -> by congruence.
    destruct (swap_remove_lookup _ _ _ Hi) as (b & Eb & Hp & El & Hlt).
    specialize (IH (run (remove_client (cl_key old)) w) Hw'). rewrite Hcl, Eb in IH.
    destruct IH as (H1 & H2 & H3).
    { rewrite drop_app_length' by (rewrite length_take; lia). rewrite Hp. done. }
    split_and!; [done..|]. intros x Hx%H3. rewrite El. apply in_app_iff in Hx as [Hx|Hx].
    + apply in_app_iff. by left.
    + apply in_app_iff. right. right. apply list_elem_of_In. rewrite <- Hp. by apply list_elem_of_In.
Qed.

Lemma In_upd_key k f l c' :
  (forall c, cl_key (f c) = cl_key c) -> In c' (upd_key k f l) ->
  exists c, In c l /\ cl_key c' = cl_key c /\ c' = (if Nat.eqb (cl_key c) k then f c else c).
Proof.
  intros Hf Hin. apply in_map_iff in Hin as (c & <- & Hin). exists c. split_and!; [done| |done].
  by destruct (Nat.eqb _ _).
Qed.

Lemma map_key_upd k f l : (forall c, cl_key (f c) = cl_key c) -> map cl_key (upd_key k f l) = map cl_key l.
Proof.
  intros Hf. unfold upd_key. rewrite map_map. apply map_ext. intros c. by destruct (Nat.eqb _ _).
Qed.

(** Changing the client [k], who does not hold the takeover. *)
Lemma clients_ok_upd P k f b :
  (forall c, cl_key (f c) = cl_key c) ->
  (forall c, In c (b_clients b) -> cl_key c = k -> cl_hello (f c) = false -> cl_role (f c) = "observer") ->
  b_takeover b <> Some k -> clients_ok_for P b ->
  clients_ok_for (fun x => P x /\ x <> k) {| b with b_clients := upd_key k f (b_clients b) |}.
Proof.
  intros Hf Hs Ht [H1 H2 H3 H4 H5 H6]. split; simpl.
  - by rewrite map_key_upd.
  - apply List.Forall_forall. intros c' (c & Hc & -> & _)%In_upd_key; [|done].
    by apply (proj1 (List.Forall_forall _ _) H2).
  - unfold upd_key. by rewrite length_map.
  - intros c c' (x & Hx & Ex & ->)%In_upd_key (x' & Hx' & Ex' & ->)%In_upd_key Hne [HP ?] [HP' ?]; try done.
    rewrite Ex, Ex' in *. destruct (Nat.eqb_spec (cl_key x) k); [done|].
    destruct (Nat.eqb_spec (cl_key x') k); [done|]. by apply H4.
  - apply List.Forall_forall. intros c' (c & Hc & _ & ->)%In_upd_key; [|done].
    destruct (Nat.eqb_spec (cl_key c) k); [by apply Hs|]. by apply (proj1 (List.Forall_forall _ _) H5).
  - intros k' Hk'. destruct (H6 k' Hk') as (c & [Hin Hk]%find_key_Some & ? & ?). exists c.
    split_and!; [|done..]. apply find_key_In; [by rewrite map_key_upd| |done].
    apply in_map_iff. exists c. split; [|done]. destruct (Nat.eqb_spec (cl_key c) k); [congruence|done].
Qed.

Lemma clients_ok_rejoin k b :
  clients_ok_for (fun x => x <> k) b ->
  (forall c c', In c (b_clients b) -> In c' (b_clients b) -> cl_key c = k -> cl_key c' <> k ->
     names_differ c c' /\ names_differ c' c) ->
  clients_ok b.
Proof.
  intros [H1 H2 H3 H4 H5 H6] Hn. split; try done.
  intros c c' Hc Hc' Hne _ _. destruct (Nat.eq_dec (cl_key c) k) as [Ek|].
  { apply (Hn c c'); [done..|]. congruence. }
  destruct (Nat.eq_dec (cl_key c') k) as [Ek'|]; [by apply (Hn c' c)|by apply H4].
Qed.

Lemma clients_ok_weaken (P P' : nat -> Prop) b :
  (forall x, P' x -> P x) -> clients_ok_for P b -> clients_ok_for P' b.
Proof. intros HP [H1 H2 H3 H4 H5 H6]. split; try done. intros c c' ? ? ? ? ?. by apply H4; auto. Qed.

Lemma handle_hello_table k c root w :
  table_ok w -> find_key k (b_clients (w_b w)) = Some c ->
  table_ok (run (handle_hello k c root) w).
Proof.
  intros Hw Hf.
  assert (forall A (m : M A) w, keeps table any_event m -> table_ok w -> table_ok (run m w)) as Hkeep
    by (intros A m w1 Hm Hw1; apply (inv_kept _ table any_event m (table_kept any_event)); done).
  unfold handle_hello. destruct (cl_hello c) eqn:Hh; [apply Hkeep; [keeps_tac|done]|].
  rewrite run_ask.
  destruct (negb (token_ok _ _ _)); [apply Hkeep; [keeps_tac|done]|].
  destruct (negb (valid_role _)); [apply Hkeep; [keeps_tac|done]|].
  set (name := match sm_json_get_string root "name" with Some n => _ | None => _ end).
  set (role := match sm_json_get_string root "role" with Some n => _ | None => _ end).
  assert (b_takeover (w_b w) <> Some k) as Ht.
  { intros Ht. destruct Hw as [_ _ _ _ _ Hto]. destruct (Hto k Ht) as (c' & Hf' & ? & _). congruence. }
  assert (forall x, In x (b_clients (w_b w)) -> cl_key x = k -> x = c) as Huniq.
  { intros x Hx Hk. apply (find_key_In k) in Hx; [congruence|apply Hw|done]. }
  rewrite run_mod_client.
  set (w1 := {| w with w_b := _ |}).
  assert (clients_ok_for (fun x => True /\ x <> k) (w_b w1)) as H1.
  { apply clients_ok_upd; [done| |done|apply Hw]. intros x Hx Hk _.
    rewrite (Huniq x Hx Hk). simpl. destruct Hw as [_ _ _ _ Hs _].
    apply find_key_Some in Hf as [Hin _]. by apply (proj1 (List.Forall_forall _ _) Hs). }
  assert (forall x, In x (b_clients (w_b w1)) -> cl_key x = k -> cl_hello x = false /\ cl_name x = name)
    as Hk1.
  { intros x (y & Hy & Ek & ->)%In_upd_key Hk; [|done]. rewrite Ek in Hk. rewrite Hk, Nat.eqb_refl. simpl.
    by rewrite (Huniq y Hy Hk). }
  destruct (negb (version_ok root)).
  { apply Hkeep; [keeps_tac|]. apply (clients_ok_rejoin k).
    - eapply clients_ok_weaken; [|exact H1]. done.
    - intros x y Hx Hy Hkx Hky. destruct (Hk1 x Hx Hkx) as [Hhx _]. split; intros ? ?; congruence. }
  rewrite run_mod_client.
  set (w2 := {| w1 with w_b := _ |}).
  assert (clients_ok_for (fun x => x <> k) (w_b w2)) as H2.
  { eapply clients_ok_weaken; [|apply clients_ok_upd; [done| |done|exact H1]]; [done|].
    intros x Hx Hk. simpl. done. }
  assert (forall x, In x (b_clients (w_b w2)) -> cl_key x = k -> cl_name x = name) as Hk2.
  { intros x (y & Hy & Ek & ->)%In_upd_key Hk; [|done]. rewrite Ek in Hk. rewrite Hk, Nat.eqb_refl. simpl.
    by apply Hk1. }
  rewrite run_gets, run_bind.
  apply Hkeep; [keeps_tac|].
  destruct (streq name "") eqn:Hn; cbn [negb when].
  - apply streq_spec in Hn. apply (clients_ok_rejoin k); [done|]. intros x y Hx Hy Hkx Hky.
    unfold names_differ. rewrite (Hk2 x Hx Hkx), Hn. split; [by intros ? ? []|done].
  - destruct (replace_loop_spec (fun x => x <> k) k name (length (b_clients (w_b w2))) w2 H2)
      as (H3 & Hcl & Hsub); [by rewrite drop_all|].
    apply (clients_ok_rejoin k); [done|]. intros x y Hx Hy Hkx Hky.
    pose proof (proj1 (List.Forall_forall _ _) Hcl y Hy) as Hc. simpl in Hc.
    assert (cl_name x = name) as Hnx by (apply Hk2; [by apply Hsub|done]).
    assert (cl_hello y = true -> cl_name y <> name) as Hny.
    { intros Hhy Ey. unfold clashes in Hc. rewrite Hhy, Ey, Hn, streq_refl in Hc.
      destruct (Nat.eqb_spec (cl_key y) k); [done|]. done. }
    unfold names_differ. rewrite Hnx. split; [|by intros; apply Hny].
    intros _ Hhy _ Eq. by apply (Hny Hhy).
Qed.

(** ** Takeover *)

Lemma handle_takeover_table k c root w :
  table_ok w -> find_key k (b_clients (w_b w)) = Some c -> cl_hello c = true ->
  table_ok (run (handle_takeover k c root) w).
Proof.
  intros Hw Hf Hh. unfold handle_takeover.
  destruct (streq (cl_role c) "observer") eqn:Hr.
  { apply (inv_kept _ table any_event _ (table_kept any_event)); [keeps_tac|done]. }
  rewrite run_gets. destruct (b_takeover (w_b w)) as [k'|].
  { apply (inv_kept _ table any_event _ (table_kept any_event)); [keeps_tac|done]. }
  unfold set_takeover. rewrite run_modify.
  apply (inv_kept _ table any_event _ (table_kept any_event)); [keeps_tac|].
  destruct Hw as [H1 H2 H3 H4 H5 H6]. split; try done.
  simpl. intros k' [= <-]. exists c. split_and!; [done..|]. by apply streq_false.
Qed.

Lemma set_takeover_none_table : inv table_ok (set_takeover None).
Proof. intros w [H1 H2 H3 H4 H5 H6]. by split. Qed.
#[local] Hint Resolve set_takeover_none_table : broker.

Lemma add_patterns_table items n : keeps table any_event (add_patterns items n).
Proof. revert n. induction items; intros n; cbn [add_patterns]; keeps_tac. Qed.
#[local] Hint Resolve add_patterns_table : broker.

Lemma drain_table n first env cb :
  (forall b, keeps table any_event (cb b)) -> keeps table any_event (drain_link_fd n first env cb).
Proof.
  intros Hcb. revert first env. induction n; intros first env; destruct env; cbn [drain_link_fd];
    keeps_tac.
Qed.

Lemma process_link_data_table env : keeps table any_event (process_link_data env).
Proof.
  intros w. unfold process_link_data, run.
  destruct (link_read_fd (w_link w) <? 0); [done|]. revert w.
  change (keeps table any_event (rc ← drain_link_fd SM_LINK_DRAIN_MAX_READS true env link_drain_chunk;
    when (rc =? 1) handle_link_disconnect)).
  apply keeps_bind; [apply drain_table|]; intros; keeps_tac.
Qed.
#[local] Hint Resolve process_link_data_table : broker.

Ltac table_leaf := apply (inv_kept _ table any_event _ (table_kept any_event)); keeps_tac.

Lemma handle_client_message_table k msg : inv table_ok (handle_client_message k msg).
Proof.
  intros w Hw. unfold handle_client_message, with_client. rewrite run_gets.
  destruct (find_key k (b_clients (w_b w))) as [c|] eqn:Hf; [|done].
  destruct (cl_hello c) eqn:Hh; cbn [negb andb].
  - destruct (m_type msg) eqn:Ht; cbn [dispatch];
      first [by apply handle_hello_table | by apply handle_takeover_table | idtac];
      revert w Hw Hf; intros w Hw _; revert w Hw;
      lazymatch goal with |- forall w, table_ok w -> table_ok (run ?m w) => change (inv table_ok m) end;
      inv_tac table_leaf.
  - case_bool_decide as Ht; cbn [negb].
    + rewrite Ht. by apply handle_hello_table.
    + revert w Hw Hf. intros w Hw _. revert w Hw.
      change (inv table_ok (send_error k None "hello required")). inv_tac table_leaf.
Qed.
#[local] Hint Resolve handle_client_message_table : broker.

(** ** Identity *)

(** A client's identity is decided by its first hello that passes the checks. *)
Definition identity_step (b : sm_broker) (k : nat) (msg : sm_msg) (c c' : sm_client) : Prop :=
  let root := default JNull (m_root msg) in
  cident c' = cident c \/
  (cl_key c = k /\ m_type msg = SM_MSG_HELLO /\ cl_hello c = false /\
   token_ok b c root = true /\ valid_role (sm_json_get_string root "role") = true /\
   (cl_key c', cl_id c', cl_requires_auth c') = (cl_key c, cl_id c, cl_requires_auth c) /\
   if cl_hello c'
   then version_ok root = true /\
        cl_role c' = match sm_json_get_string root "role" with
                     | Some r => snprintf_s 16 r | None => cl_role c end
   else cl_role c' = cl_role c).

Lemma remove_client_sub k w c :
  In c (b_clients (w_b (run (remove_client k) w))) -> In c (b_clients (w_b w)).
Proof.
  destruct (remove_client_spec k w) as [->|(x & i & _ & Hl & -> & _)]; [done|].
  rewrite <- !list_elem_of_In. intros Hc. rewrite <- (swap_remove_Permutation _ _ _ Hl).
  by apply list_elem_of_further.
Qed.

Lemma replace_loop_sub k name i w c :
  In c (b_clients (w_b (run (replace_loop k name i) w))) -> In c (b_clients (w_b w)).
Proof.
  revert w. induction i as [|i IH]; intros w; cbn [replace_loop]; [done|].
  rewrite run_gets, run_bind. intros Hc%IH. revert Hc.
  destruct (_ !! i); [|done]. destruct (_ && _); [apply remove_client_sub|done].
Qed.

Lemma when_replace_sub b k name i w c :
  In c (b_clients (w_b (run (when b (replace_loop k name i)) w))) -> In c (b_clients (w_b w)).
Proof. destruct b; [apply replace_loop_sub|done]. Qed.

Definition idents (b : sm_broker) (l : link_state) := map cident (b_clients b).
#[local] Instance idents_view : ClientView idents.
Proof. by intros b l cs H. Qed.

Lemma add_patterns_idents items n : keeps idents any_event (add_patterns items n).
Proof. intros w. destruct (add_patterns_table items n w) as [[= Hc _ _] Hg]. by split. Qed.
#[local] Hint Resolve add_patterns_idents : broker.

Lemma keeps_sub {A} (m : M A) w c' :
  keeps idents any_event m -> In c' (b_clients (w_b (run m w))) ->
  exists c, In c (b_clients (w_b w)) /\ cident c' = cident c.
Proof. intros Hm. destruct (Hm w) as [Hc _]. by apply cident_In. Qed.
Lemma keeps_identity {A} b k msg (m : M A) w c' :
  keeps idents any_event m -> In c' (b_clients (w_b (run m w))) ->
  exists c, In c (b_clients (w_b w)) /\ identity_step b k msg c c'.
Proof.
  intros Hm Hin. destruct (keeps_sub m w c' Hm Hin) as (c & ? & ?). exists c. split; [done|by left].
Qed.

Lemma handle_hello_identity k c msg w c' :
  NoDup (map cl_key (b_clients (w_b w))) -> find_key k (b_clients (w_b w)) = Some c ->
  m_type msg = SM_MSG_HELLO ->
  In c' (b_clients (w_b (run (handle_hello k c (default JNull (m_root msg))) w))) ->
  exists x, In x (b_clients (w_b w)) /\ identity_step (w_b w) k msg x c'.
Proof.
  intros Hnd Hf Hty. set (root := default JNull (m_root msg)).
  assert (forall x, In x (b_clients (w_b w)) -> cl_key x = k -> x = c) as Huniq.
  { intros x Hx Hk. apply (find_key_In k) in Hx; [congruence|done..]. }
  unfold handle_hello. destruct (cl_hello c) eqn:Hh; [apply keeps_identity; keeps_tac|].
  rewrite run_ask. destruct (token_ok (w_b w) c root) eqn:Htok; cbn [negb];
    [|apply keeps_identity; keeps_tac].
  destruct (valid_role _) eqn:Hrole; cbn [negb]; [|apply keeps_identity; keeps_tac].
  rewrite run_mod_client. destruct (version_ok root) eqn:Hver; cbn [negb].
  - rewrite run_mod_client, run_gets, run_bind. intros Hin.
    apply keeps_sub in Hin as (d & Hd & Ed); [|keeps_tac].
    apply when_replace_sub in Hd as Hd2. cbn [w_b b_clients] in Hd2.
    apply In_upd_key in Hd2 as (y & Hy & Ey & Eqd); [|done].
    apply In_upd_key in Hy as (x & Hx & Ex & Eqy); [|done]. exists x. split; [done|].
    rewrite Ex in *. destruct (Nat.eqb_spec (cl_key x) k) as [Ek|]; [|left; congruence].
    right. assert (x = c) as -> by auto. subst d y. apply cident_eq in Ed. simpl in Ed.
    destruct Ed as (-> & -> & _ & -> & -> & ->). split_and!; done.
  - intros Hin.
    apply keeps_sub in Hin as (d & Hd & Ed); [|keeps_tac].
    cbn [w_b b_clients] in Hd. apply In_upd_key in Hd as (x & Hx & Ex & Eqd); [|done].
    exists x. split; [done|]. destruct (Nat.eqb_spec (cl_key x) k) as [Ek|]; [|left; congruence].
    right. assert (x = c) as -> by auto. subst d. apply cident_eq in Ed. simpl in Ed.
    destruct Ed as (-> & -> & _ & -> & -> & ->). rewrite Hh. split_and!; done.
Qed.

(** Identity is fixed by the hello.  Whatever message is handled, every
    client left was there before with the same key, id and authentication duty;
    its name, role and hello flag changed only if the message is its own first
    hello, its role is a valid one and it presented the token where one is
    required.  A client that completed its hello keeps its role for good. *)
Theorem identity_frozen w k msg c' :
  clients_ok (w_b w) ->
  In c' (b_clients (w_b (run (handle_client_message k msg) w))) ->
  exists c, In c (b_clients (w_b w)) /\ identity_step (w_b w) k msg c c'.
Proof.
  intros Hok. unfold handle_client_message, with_client. rewrite run_gets.
  destruct (find_key k (b_clients (w_b w))) as [c|] eqn:Hf;
    [|by apply (keeps_identity _ _ _ (mret tt)), keeps_ret].
  destruct (negb (cl_hello c) && _); [apply keeps_identity; keeps_tac|].
  destruct (m_type msg) eqn:Ht; cbn [dispatch];
    [by apply handle_hello_identity; [apply Hok|..]|apply keeps_identity; keeps_tac..].
Qed.

(** ** The loop *)

Lemma client_input_table fuel k reads : inv table_ok (client_input fuel k reads).
Proof. revert reads. induction fuel; intros reads; cbn [client_input]; inv_tac table_leaf. Qed.
Lemma flush_client_queues_table fuel i : inv table_ok (flush_client_queues fuel i).
Proof. revert i. induction fuel; intros i; cbn [flush_client_queues]; inv_tac table_leaf. Qed.
Lemma drop_stale_table now gone i : inv table_ok (drop_stale now gone i).
Proof. induction i; cbn [drop_stale]; inv_tac table_leaf. Qed.
#[local] Hint Resolve client_input_table flush_client_queues_table drop_stale_table : broker.

Lemma loop_turn_table events gone : inv table_ok (loop_turn events gone).
Proof. inv_tac table_leaf. Qed.

Lemma reachable_table w : reachable w -> table_ok w.
Proof.
  induction 1 as [w Hi|w events gone _ IH]; [|by apply loop_turn_table].
  destruct Hi as [Hc Ht _ _ _ _ _ _ _ _ _]. split; rewrite ?Hc, ?Ht;
    [constructor|constructor|apply Nat.le_0_l|by intros c c' []|constructor|done].
Qed.

(** C33: the client table in every execution.  There are at most 32 clients,
    all distinct; two clients that completed their hello never carry the same
    name; a client that has not is an observer; and the takeover lock, when it
    is held, is held by a live client that completed its hello and is not an
    observer. *)
Theorem client_table_sound w : reachable w -> clients_ok (w_b w).
Proof. apply reachable_table. Qed.
End clients.

(** Two clients connect and say hello under one name: the second replaces the
    first, and takes over. *)
Definition demo_turns : @world (demo_link false) :=
  run (loop_turn [LeListen (Some 100); LeListen (Some 101);
         LeClient 0 (mk_ev true false false) [RBytes (hello_line "agent" "controller")];
         LeClient 1 (mk_ev true false false)
           [RBytes (hello_line "agent" "controller" ++ sm_msg_encode (sm_msg_takeover (Some "t")))]]
       (fun _ => false))
    (demo_start false).

Lemma demo_turns_reachable : reachable demo_turns.
Proof. apply reach_turn, reach_init, demo_start_initial. Qed.

Lemma client_table_sound_witness :
  clients_ok (w_b demo_turns) /\
  map (fun c => (cl_key c, cl_name c, cl_role c)) (b_clients (w_b demo_turns)) =
    [(1%nat, "agent", "controller")] /\
  b_takeover (w_b demo_turns) = Some 1%nat.
Proof.
  split; [apply client_table_sound, demo_turns_reachable|]. vm_compute. done.
Defined.

Lemma demo_turns_ok : clients_ok (w_b demo_turns).
Proof. apply (reachable_table demo_turns), demo_turns_reachable. Qed.

Definition demo_rehello : @world (demo_link false) :=
  run (handle_client_message 1 (msg_of (hello_json "agent" "observer"))) demo_turns.

Lemma identity_frozen_witness :
  exists c', In c' (b_clients (w_b demo_rehello)) /\ cl_role c' = "controller" /\
  exists c, In c (b_clients (w_b demo_turns)) /\
    identity_step (w_b demo_turns) 1 (msg_of (hello_json "agent" "observer")) c c'.
Proof.
  destruct (b_clients (w_b demo_rehello)) as [|c' l] eqn:El; [vm_compute in El; done|].
  exists c'. split; [by left|]. split; [vm_compute in El; by injection El as <- _|].
  apply (identity_frozen demo_turns 1 (msg_of (hello_json "agent" "observer")) c' demo_turns_ok).
  change (In c' (b_clients (w_b demo_rehello))). rewrite El. by left.
Defined.
