(* ===== verification/BrokerDevice.v ===== *)
(** * The device side

    Breaks and resets complete exactly once, and clients and sinks reach only
    the parameters of the link they are meant to. *)
From S2P Require Import Prelude Arrays Codecs RingBuffer Json CJson Protocol Regex Expect BootStage.
From S2P Require Import Autoresponder Anomaly Effects Client BrokerState BrokerOps BrokerLink BrokerHandlers BrokerLoop BrokerDemo.
From S2P Require Import BrokerFrame.

#[local] Open Scope string_scope.
#[local] Open Scope list_scope.
#[local] Open Scope Z_scope.

(** The link parameters the broker may set. *)
Definition modem_pin (p : string) : Prop := p = "dtr" \/ p = "rts".
Definition line_pin (p : string) : Prop := modem_pin p \/ p = "break".
Definition param_ok (e : event) : Prop :=
  match e with EvParam p _ => line_pin p \/ p = "baud" | _ => True end.

(** Callbacks accepted and called, in order. *)
Definition accepted (t : list event) : list break_done :=
  flat_map (fun e => match e with EvAccept d => [d] | _ => [] end) t.
Definition completed (t : list event) : list break_done :=
  flat_map (fun e => match e with EvDone d _ => [d] | _ => [] end) t.
Lemma accepted_app t u : accepted (t ++ u) = accepted t ++ accepted u.
Proof. apply flat_map_app. Qed.
Lemma completed_app t u : completed (t ++ u) = completed t ++ completed u.
Proof. apply flat_map_app. Qed.

(** Neither a parameter nor a break's start or end. *)
Definition off_line (e : event) : Prop :=
  match e with EvParam _ _ | EvAccept _ | EvDone _ _ => False | _ => True end.
#[export] Instance Talk_off_line : Talk off_line.
Proof. by intros []. Qed.

Section device.
Context {L : LinkOps} {E : SystemEnv} {J : JsonText} {R : RegexLib}.

Definition lines (b : sm_broker) (l : link_state) :=
  (bk_state (b_brk b), bk_pin (b_brk b), bk_done (b_brk b),
   fl_reset_pending (b_flood b), fl_reset_pin (b_flood b)).
#[local] Instance lines_view : ClientView lines.
Proof. by intros b l cs. Qed.

Record device_ok (w : world) : Prop := {
  dv_once : accepted (w_trace w) = completed (w_trace w) ++ option_list (bk_done (b_brk (w_b w)));
  dv_idle : bk_state (b_brk (w_b w)) = SM_BRK_IDLE -> bk_done (b_brk (w_b w)) = None;
  dv_pin : bk_state (b_brk (w_b w)) = SM_BRK_ASSERTED -> line_pin (bk_pin (b_brk (w_b w)));
  dv_reset : fl_reset_pending (b_flood (w_b w)) = true -> modem_pin (fl_reset_pin (b_flood (w_b w)));
  dv_params : Forall param_ok (w_trace w) }.
(** ... with the machine idle and [p] as its pin. *)
Definition device_idle (p : string) (w : world) : Prop :=
  device_ok w /\ bk_state (b_brk (w_b w)) = SM_BRK_IDLE /\ bk_pin (b_brk (w_b w)) = p.

Lemma off_line_trace t :
  Forall off_line t -> accepted t = [] /\ completed t = [] /\ Forall param_ok t.
Proof.
  induction 1 as [|e t He _ (IH1 & IH2 & IH3)]; [done|].
  destruct e; try done; split_and!; try done; by constructor.
Qed.

Lemma device_kept w w' : kept lines off_line w w' -> device_ok w -> device_ok w'.
Proof.
  intros [[= E1 E2 E3 E4 E5] (t & Et & (Ha & Hc & Hp)%off_line_trace)] [H1 H2 H3 H4 H5].
  split; rewrite ?E1, ?E2, ?E3, ?E4, ?E5, ?Et; try done.
  - by rewrite accepted_app, completed_app, Ha, Hc, H1, !app_nil_r.
  - by apply Forall_app.
Qed.
Lemma device_idle_kept p w w' : kept lines off_line w w' -> device_idle p w -> device_idle p w'.
Proof.
  intros Hk (Hd & Hi & Hp). split; [by eapply device_kept|]. by destruct Hk as [[= -> -> _ _ _] _].
Qed.

Lemma set_param_ok p v : line_pin p \/ p = "baud" -> inv device_ok (set_param p v).
Proof.
  intros Hp w [H1 H2 H3 H4 H5]. unfold set_param, link_call, run.
  destruct (link_set_param p v (w_link w)) as [x l]. split; simpl; try done.
  - rewrite accepted_app, completed_app. simpl. by rewrite !app_nil_r.
  - apply Forall_app. split; [done|]. by constructor.
Qed.
Lemma set_param_idle q p v : line_pin p \/ p = "baud" -> inv (device_idle q) (set_param p v).
Proof.
  intros Hp w [Hd Hi]. split; [by apply set_param_ok|]. unfold set_param, link_call, run.
  by destruct (link_set_param p v (w_link w)).
Qed.

Ltac dev_leaf := apply (inv_kept _ lines off_line _ device_kept); keeps_tac.
Ltac idle_leaf := apply (inv_kept _ lines off_line _ (device_idle_kept _)); keeps_tac.

(** ** Completion *)

Lemma call_done_quiet d rc w : kept lines off_line {| w with w_trace := w_trace w ++ [EvDone d rc] |}
  (run (call_done (Some d) rc) w).
Proof.
  cbn [call_done]. rewrite run_bind.
  assert (keeps lines off_line
    match d with DonePin ctx => pin_break_done ctx rc | DoneSink _ => mret tt end) as Hk by keeps_tac.
  apply Hk.
Qed.

Lemma break_complete_ok rc : inv device_ok (break_complete rc).
Proof.
  intros w [H1 H2 H3 H4 H5]. unfold break_complete. rewrite run_gets. unfold mod_brk. rewrite run_modify.
  destruct (bk_done (b_brk (w_b w))) as [d|] eqn:Hd.
  - eapply device_kept; [apply call_done_quiet|]. split; simpl; try done.
    + rewrite accepted_app, completed_app. simpl. by rewrite H1, !app_nil_r.
    + apply Forall_app. split; [done|]. by constructor.
  - split; simpl; done.
Qed.
#[local] Hint Resolve break_complete_ok : broker.

Lemma break_cancel_ok : inv device_ok break_cancel.
Proof.
  apply inv_gets_bind. intros w [_ _ H3 _ _]. destruct (bk_state _) eqn:Hs; [apply inv_ret| |auto with broker].
  apply inv_bind; [|intros; auto with broker]. apply set_param_ok. left. by apply H3.
Qed.
#[local] Hint Resolve break_cancel_ok : broker.

(** From the idle machine to [done] stored or called. *)
Lemma accept_called p done rc w :
  device_idle p w -> device_ok (run (accept done ;; call_done done rc) w).
Proof.
  intros ([H1 H2 H3 H4 H5] & Hi & _). rewrite run_bind. destruct done as [d|]; [|done].
  eapply device_kept; [apply call_done_quiet|]. specialize (H2 Hi). split; simpl; try done.
  - rewrite !accepted_app, !completed_app. simpl. rewrite H1, H2. simpl. by rewrite !app_nil_r.
  - apply Forall_app. split; [apply Forall_app; split; [done|]|]; by repeat constructor.
Qed.

(** The common end of the two schedule calls. *)
Definition arm_or_undo (p : string) (undo : brk -> brk) (done : option break_done) : M Z :=
  armed ← timer_call;
  if negb armed then set_param p "clear" ;; mod_brk undo ;; mret (-1)
  else accept done ;; mret 0.

Lemma arm_or_undo_ok q p done f undo w :
  device_idle q w -> line_pin p ->
  (forall k, bk_pin k = q ->
     bk_state (f k) = SM_BRK_ASSERTED /\ bk_pin (f k) = p /\ bk_done (f k) = done) ->
  (forall k, bk_state (undo k) = SM_BRK_IDLE /\ bk_done (undo k) = None) ->
  device_ok (run (mod_brk f ;; arm_or_undo p undo done) w).
Proof.
  intros ([H1 H2 H3 H4 H5] & Hi & Hq) Hp Hf Hu. unfold arm_or_undo, mod_brk, timer_call, set_param, accept.
  rewrite run_modify, run_bind. unfold query. unfold run at 2, result. cbn [fst snd w_tick].
  destruct (Hf (b_brk (w_b w)) Hq) as (Es & Ep & Ed). specialize (H2 Hi).
  destruct (env_timer (w_tick w)); cbn [negb].
  - rewrite run_bind. destruct done as [d|]; unfold emit, run, mret, M_ret; cbn [fst]; split; simpl;
      rewrite ?Es, ?Ep, ?Ed; try done.
    + rewrite accepted_app, completed_app, H1, H2. simpl. by rewrite !app_nil_r.
    + apply Forall_app. split; [done|]. by constructor.
    + by rewrite H1, H2.
  - rewrite !run_bind. unfold link_call. unfold run at 3. cbn [w_link].
    destruct (link_set_param p "clear" (w_link w)) as [x l]. unfold modify, run, mret, M_ret. cbn [fst w_b].
    destruct (Hu (f (b_brk (w_b w)))) as (Eu & Eud).
    split; simpl; rewrite ?Eu, ?Eud; try done.
    + rewrite accepted_app, completed_app, H1, H2. simpl. by rewrite !app_nil_r.
    + apply Forall_app. split; [done|]. constructor; [by left|done].
Qed.

Lemma break_timer_ensure_idle p : inv (device_idle p) break_timer_ensure.
Proof. idle_leaf. Qed.

(** Continue after [m], knowing only that the machine is still idle. *)
Lemma device_idle_bind {A B} p (m : M A) (k : A -> M B) w :
  device_idle p w -> inv (device_idle p) m ->
  (forall x w', device_idle p w' -> device_ok (run (k x) w')) -> device_ok (run (m ≫= k) w).
Proof. intros Hw Hm Hk. rewrite run_bind. by apply Hk, Hm. Qed.

Lemma schedule_break_ok d f delay done : inv device_ok (sm_broker_schedule_break d f delay done).
Proof.
  intros w Hw. unfold sm_broker_schedule_break. rewrite run_ask. destruct (link_down _); [done|].
  case_bool_decide as Hi; cbn [negb]; [|done]. destruct (8 <? zlen f); [done|].
  assert (line_pin "break" \/ "break" = "baud") as Hp by (left; by right).
  rewrite run_mod_brk. apply (device_idle_bind "break").
  { destruct Hw as [A1 A2 A3 A4 A5]. split; [|by split]. split; simpl; try done. congruence. }
  { by apply set_param_idle. }
  clear w Hw Hi. intros rc w Hw. destruct (rc =? 0); cbn [negb].
  - apply (device_idle_bind "break"); [done|apply break_timer_ensure_idle|]. clear w Hw. intros ok w Hw.
    destruct ok; cbn [negb].
    + apply (arm_or_undo_ok "break" "break" done); [done|by right| |done]. intros k Hk. by split_and!.
    + rewrite run_bind. apply (set_param_ok "break" "clear" Hp), Hw.
  - apply (device_idle_bind "break"); [done|idle_leaf|]. clear w Hw. intros rc' w Hw.
    apply (device_idle_bind "break"); [done|idle_leaf|]. clear w Hw. intros rc'' w Hw.
    pose proof (accept_called "break" done rc'' w Hw) as H. by rewrite !run_bind in *.
Qed.

Lemma schedule_line_reset_ok pin hold done : inv device_ok (sm_broker_schedule_line_reset pin hold done).
Proof.
  intros w Hw. unfold sm_broker_schedule_line_reset. rewrite run_ask. destruct (link_down _); [done|].
  case_bool_decide as Hi; cbn [negb]; [|done].
  destruct (negb (streq pin "rts") && negb (streq pin "dtr")) eqn:Hpin; [done|].
  assert (modem_pin pin) as Hm.
  { apply andb_false_iff in Hpin as [Hp|Hp]; apply negb_false_iff, streq_spec in Hp; [by right|by left]. }
  assert (modem_pin (if streq pin "rts" then "dtr" else "rts")) as Ho
    by (destruct (streq pin "rts"); [by left|by right]).
  apply (device_idle_bind (bk_pin (b_brk (w_b w)))); [done|apply set_param_idle; by left; left|].
  generalize (bk_pin (b_brk (w_b w))). clear w Hw Hi. intros q rc w Hw.
  destruct (rc =? 0); cbn [negb]; [|apply Hw].
  apply (device_idle_bind q); [done|apply break_timer_ensure_idle|]. clear w Hw. intros ok w Hw.
  destruct ok; cbn [negb]; [|apply Hw].
  apply (device_idle_bind q); [done|apply set_param_idle; by left; left|]. clear w Hw. intros rc' w Hw.
  destruct (rc' =? 0); cbn [negb]; [|apply Hw].
  apply (arm_or_undo_ok q pin done); [done|by left| |done]. intros k _. split_and!; try done.
  destruct Hm as [-> | ->]; done.
Qed.
#[local] Hint Resolve schedule_break_ok schedule_line_reset_ok : broker.

Lemma handle_break_timer_ok : inv device_ok handle_break_timer.
Proof.
  apply inv_gets_bind. intros w [_ _ H3 _ _]. destruct (bk_state _) eqn:Hs; [apply inv_ret| |].
  - assert (line_pin (bk_pin (b_brk (w_b w))) \/ bk_pin (b_brk (w_b w)) = "baud") as Hp by (left; by apply H3).
    apply inv_bind.
    + unfold clear_break_pin. apply inv_bind; [by apply set_param_ok|]. intros rc.
      destruct (rc =? 0); [apply inv_ret|by apply set_param_ok].
    + intros rc. destruct (_ && _); [|auto with broker]. apply inv_bind; [dev_leaf|].
      intros armed. destruct armed; [|inv_tac dev_leaf].
      intros w' [A1 A2 A3 A4 A5]. by split.
  - inv_tac dev_leaf.
Qed.
#[local] Hint Resolve handle_break_timer_ok : broker.

(** ** The flood *)

Lemma mod_flood_ok f :
  (forall fl, (fl_reset_pending fl = true -> modem_pin (fl_reset_pin fl)) ->
     fl_reset_pending (f fl) = true -> modem_pin (fl_reset_pin (f fl))) ->
  inv device_ok (mod_flood f).
Proof. intros Hf w [H1 H2 H3 H4 H5]. split; simpl; auto. Qed.

Ltac flood_leaf := first [apply mod_flood_ok; simpl; solve [auto; done] | dev_leaf].

Lemma flood_finish_ok m r : inv device_ok (flood_finish m r).
Proof.
  apply inv_gets_bind. intros w [_ _ _ H4 _]. destruct (fl_active _); cbn [negb]; [|apply inv_ret].
  apply inv_bind; [|intros; inv_tac flood_leaf].
  destruct (fl_reset_pending _); [|apply inv_ret]. apply inv_bind; [|intros; apply inv_ret].
  apply set_param_ok. left. left. by apply H4.
Qed.
#[local] Hint Resolve flood_finish_ok : broker.

Lemma handle_flood_timer_ok : inv device_ok handle_flood_timer.
Proof.
  apply inv_gets_bind. intros w [_ _ _ H4 _]. destruct (fl_active _); cbn [negb]; [|apply inv_ret].
  apply inv_bind; [|intros; inv_tac flood_leaf].
  destruct (fl_reset_pending _); [|apply inv_ret]. apply inv_bind; [dev_leaf|intros now].
  destruct (_ <=? now); [|apply inv_ret]. apply inv_bind; [|intros; flood_leaf].
  apply set_param_ok. left. left. by apply H4.
Qed.
#[local] Hint Resolve handle_flood_timer_ok : broker.

Lemma modem_snprintf pin : modem_pin pin -> modem_pin (snprintf_s 8 pin).
Proof. intros [-> | ->]; [by left|by right]. Qed.

Lemma flood_reset_args_pin rp ra hold dur pin act deact h :
  flood_reset_args rp ra hold dur = Some (Some (pin, act, deact, h)) -> modem_pin pin.
Proof.
  unfold flood_reset_args. destruct rp as [p|]; [|done]. destruct (streq p ""); [done|].
  destruct (streq p "dtr") eqn:Hd; cbn [negb andb].
  - apply streq_spec in Hd as ->. destruct (dur <=? _); [done|]. intros [= <- _ _ _]. by left.
  - destruct (streq p "rts") eqn:Hr; cbn [negb]; [|done]. apply streq_spec in Hr as ->.
    destruct (dur <=? _); [done|]. intros [= <- _ _ _]. by right.
Qed.

Lemma start_flood_ok key i d stop cid mid rp ra hold :
  inv device_ok (sm_broker_start_flood key i d stop cid mid rp ra hold).
Proof.
  unfold sm_broker_start_flood. apply inv_ask_bind. intros w _.
  destruct (link_down _); [apply inv_ret|]. destruct (fl_active _); [apply inv_ret|].
  destruct (_ || _); [apply inv_ret|]. cbv zeta.
  destruct (flood_reset_args _ _ _ _) as [reset|] eqn:Hr; [|apply inv_ret].
  destruct (flood_stop_arg stop) as [re|]; [|apply inv_ret].
  apply inv_bind; [dev_leaf|]. intros ok. destruct (negb ok); [apply inv_ret|].
  apply inv_bind; [dev_leaf|]. intros start.
  apply inv_bind; [by apply mod_flood_ok|]. intros _.
  destruct reset as [[[[pin act] deact] h]|].
  - apply flood_reset_args_pin in Hr as Hm.
    apply inv_bind; [|intros asserted; destruct (negb asserted); [inv_tac flood_leaf|]].
    + apply inv_bind; [apply set_param_ok; by left; left|]. intros rc. destruct (rc =? 0); [|apply inv_ret].
      apply inv_bind; [|intros; apply inv_ret]. apply mod_flood_ok. intros. by apply modem_snprintf.
    + apply inv_bind; [dev_leaf|]. intros armed. destruct (negb armed); [|inv_tac flood_leaf].
      apply inv_bind; [|intros; inv_tac flood_leaf].
      apply set_param_ok. left. left. by apply modem_snprintf.
  - apply inv_bind; [apply inv_ret|]. intros asserted. inv_tac flood_leaf.
Qed.
#[local] Hint Resolve start_flood_ok : broker.

(** ** Clients and sinks *)

Lemma pin_is_line_control_spec pin : pin_is_line_control pin = true -> line_pin pin.
Proof.
  unfold pin_is_line_control. intros [[H|H]%orb_true_iff|H]%orb_true_iff; apply streq_spec in H as ->;
    [by left; left|by left; right|by right].
Qed.

Lemma handle_pin_control_ok k c root : inv device_ok (handle_pin_control k c root).
Proof.
  unfold handle_pin_control. apply inv_ask_bind. intros w _.
  destruct (negb (can_send _ _)); [dev_leaf|].
  destruct (sm_json_get_string root "pin") as [pin|]; [|dev_leaf].
  destruct (sm_json_get_string root "action") as [action|]; [|dev_leaf].
  destruct (pin_is_line_control pin) eqn:Hp; cbn [negb]; [|dev_leaf].
  apply pin_is_line_control_spec in Hp. destruct (_ && _); [inv_tac dev_leaf|].
  destruct (streq pin "break"); [inv_tac dev_leaf|].
  apply inv_bind; [apply set_param_ok; by left|]. intros rc. dev_leaf.
Qed.

Lemma handle_set_baud_ok k c root : inv device_ok (handle_set_baud k c root).
Proof.
  unfold handle_set_baud. apply inv_ask_bind. intros w _. destruct (negb _); [dev_leaf|].
  destruct (_ <=? 0); [dev_leaf|]. apply inv_bind; [apply set_param_ok; by right|]. intros rc. dev_leaf.
Qed.
#[local] Hint Resolve handle_pin_control_ok handle_set_baud_ok : broker.

Lemma sink_op_ok s : inv device_ok (sink_op s).
Proof.
  destruct s; cbn [sink_op].
  4: { destruct (pin_is_line_control pin) eqn:Hp; cbn [andb]; [|apply inv_ret]. apply inv_when.
       apply pin_is_line_control_spec in Hp.
       apply inv_bind; [apply set_param_ok; by left|intros; apply inv_ret]. }
  all: inv_tac dev_leaf.
Qed.
#[local] Hint Resolve sink_op_ok : broker.

Lemma remove_client_lines k : keeps lines off_line (remove_client k).
Proof.
  intros w. unfold remove_client, run. destruct (find_key k _) as [c|]; [|done].
  destruct (key_index k 0 _) as [i|]; [|done]. split; [done|]. exists [EvHangup k].
  split; [done|]. by constructor.
Qed.
#[local] Hint Resolve remove_client_lines : broker.
Lemma replace_loop_lines k name i : keeps lines off_line (replace_loop k name i).
Proof. induction i; cbn [replace_loop]; keeps_tac. Qed.
Lemma add_patterns_lines items n : keeps lines off_line (add_patterns items n).
Proof. revert n. induction items; intros n; cbn [add_patterns]; keeps_tac. Qed.
#[local] Hint Resolve replace_loop_lines add_patterns_lines : broker.

Lemma process_link_chunk_ok buf ts : inv device_ok (process_link_chunk buf ts).
Proof. inv_tac flood_leaf. Qed.
#[local] Hint Resolve process_link_chunk_ok : broker.
Lemma link_drain_chunk_ok buf : inv device_ok (link_drain_chunk buf).
Proof. inv_tac dev_leaf. Qed.
#[local] Hint Resolve link_drain_chunk_ok : broker.
Lemma drain_link_fd_ok n first env : inv device_ok (drain_link_fd n first env link_drain_chunk).
Proof.
  revert first env. induction n; intros first env; destruct env; cbn [drain_link_fd]; inv_tac dev_leaf.
Qed.
#[local] Hint Resolve drain_link_fd_ok : broker.
Lemma handle_link_disconnect_ok : inv device_ok handle_link_disconnect.
Proof. inv_tac dev_leaf. Qed.
#[local] Hint Resolve handle_link_disconnect_ok : broker.
Lemma process_link_data_ok env : inv device_ok (process_link_data env).
Proof.
  intros w. unfold process_link_data, run. destruct (link_read_fd (w_link w) <? 0); [done|]. revert w.
  change (inv device_ok (rc ← drain_link_fd SM_LINK_DRAIN_MAX_READS true env link_drain_chunk;
    when (rc =? 1) handle_link_disconnect)). inv_tac dev_leaf.
Qed.
#[local] Hint Resolve process_link_data_ok : broker.

Lemma handle_client_message_ok k msg : inv device_ok (handle_client_message k msg).
Proof. unfold handle_client_message, with_client, dispatch. inv_tac dev_leaf. Qed.
#[local] Hint Resolve handle_client_message_ok : broker.

Lemma client_input_ok fuel k reads : inv device_ok (client_input fuel k reads).
Proof. revert reads. induction fuel; intros reads; cbn [client_input]; inv_tac dev_leaf. Qed.
Lemma flush_client_queues_ok fuel i : inv device_ok (flush_client_queues fuel i).
Proof. revert i. induction fuel; intros i; cbn [flush_client_queues]; inv_tac dev_leaf. Qed.
Lemma drop_stale_ok now gone i : inv device_ok (drop_stale now gone i).
Proof. induction i; cbn [drop_stale]; inv_tac dev_leaf. Qed.
#[local] Hint Resolve client_input_ok flush_client_queues_ok drop_stale_ok : broker.

Lemma process_event_ok e : inv device_ok (process_event e).
Proof. inv_tac dev_leaf. Qed.
Lemma before_events_ok :
  inv device_ok (b ← ask; when (0 <? eng_count (b_expect b))%nat process_expect_results ;;
                 process_history_pending ;; attempt_reconnect ;; check_connect_timeout).
Proof. inv_tac dev_leaf. Qed.
Lemma after_events_ok gone :
  inv device_ok (pending ← any_client_write_pending; cs ← gets b_clients;
                 when pending (flush_client_queues (length cs) 0) ;; housekeeping gone).
Proof. inv_tac dev_leaf. Qed.

Lemma loop_turn_ok events gone : inv device_ok (loop_turn events gone).
Proof. inv_tac dev_leaf. Qed.

Lemma reachable_device w : reachable w -> device_ok w.
Proof.
  induction 1 as [w [_ _ Hb Hd _ Hr _ _ _ _ Ht]|w events gone _ IH]; [|by apply loop_turn_ok].
  split; rewrite ?Hb, ?Hd, ?Hr, ?Ht; done.
Qed.

Lemma turn_part_device {A} (m : M A) : turn_part m -> inv device_ok m.
Proof.
  destruct 1; first [solve [auto with broker] | apply process_event_ok | solve [inv_tac dev_leaf]].
Qed.
Lemma mid_turn_device w : mid_turn w -> device_ok w.
Proof.
  induction 1 as [w [_ _ Hb Hd _ Hr _ _ _ _ Ht]|A m w Hm _ IH|k msg w _ _ IH|n w _ IH].
  - split; rewrite ?Hb, ?Hd, ?Hr, ?Ht; done.
  - by apply turn_part_device.
  - by apply handle_client_message_ok.
  - by apply sink_op_ok.
Qed.

(** C32: a break or reset that was accepted completes exactly once.  In every
    execution the completion callbacks called so far are the accepted ones, in
    order, followed by at most the one in flight; when the machine is idle
    none is owed. *)
Theorem break_done_once w :
  reachable w ->
  accepted (w_trace w) = completed (w_trace w) ++ option_list (bk_done (b_brk (w_b w))) /\
  (bk_state (b_brk (w_b w)) = SM_BRK_IDLE -> accepted (w_trace w) = completed (w_trace w)).
Proof.
  intros [H1 H2 _ _ _]%reachable_device. split; [done|]. intros Hi. rewrite H1, (H2 Hi). apply app_nil_r.
Qed.

(** The only link parameters the broker ever sets are the lines dtr, rts
    and break and the baud rate: no client, sink or timer can reach another
    parameter (such as the shell switch of a GDB link). *)
Theorem params_confined w p v :
  reachable w -> In (EvParam p v) (w_trace w) ->
  p = "dtr" \/ p = "rts" \/ p = "break" \/ p = "baud".
Proof.
  intros [_ _ _ _ H5]%reachable_device Hin. pose proof (proj1 (List.Forall_forall _ _) H5 _ Hin) as Hp.
  simpl in Hp. unfold line_pin, modem_pin in Hp. tauto.
Qed.
End device.

(** A break is asked for, a second one refused as busy, and the timer fires. *)
Definition demo_breaks (rest : list loop_event) : @world (demo_link false) :=
  demo_turn false
    [sm_msg_pin_control (Some "1") "break" "pulse" 250; sm_msg_pin_control (Some "2") "break" "pulse" 250]
    rest.

Lemma break_done_once_witness :
  accepted (w_trace (demo_breaks [])) =
    [DonePin (mk_pin_ctx "client-0" "1" true)] /\ completed (w_trace (demo_breaks [])) = [] /\
  bk_state (b_brk (w_b (demo_breaks [LeBreakTimer]))) = SM_BRK_IDLE /\
  accepted (w_trace (demo_breaks [LeBreakTimer])) = completed (w_trace (demo_breaks [LeBreakTimer])).
Proof.
  split; [by vm_compute|]. split; [by vm_compute|]. split; [by vm_compute|].
  apply (break_done_once (demo_breaks [LeBreakTimer]) (demo_turn_reachable _ _ _)). by vm_compute.
Defined.

Definition demo_pins : @world (demo_link false) :=
  demo_turn false
    [sm_msg_pin_control (Some "1") "allow_shell" "set" 0; sm_msg_pin_control (Some "2") "dtr" "set" 0]
    [].

Lemma params_confined_witness :
  In (EvParam "dtr" "set") (w_trace demo_pins) /\
  ("dtr" = "dtr" \/ "dtr" = "rts" \/ "dtr" = "break" \/ "dtr" = "baud").
Proof.
  assert (In (EvParam "dtr" "set") (w_trace demo_pins)) as Hin.
  { apply List.nth_error_In with (n := 2%nat). by vm_compute. }
  split; [exact Hin|]. exact (params_confined demo_pins "dtr" "set" (demo_turn_reachable _ _ _) Hin).
Defined.
