(* ===== verification/BrokerSuspend.v ===== *)
(** * Suspension and the reconnect schedule

    A suspended broker leaves the wire to whoever asked for it; a lost link is
    retried on a bounded schedule. *)
From S2P Require Import Prelude Arrays Codecs RingBuffer Json CJson Protocol Regex Expect BootStage.
From S2P Require Import Autoresponder Anomaly Effects Client BrokerState BrokerOps BrokerLink BrokerHandlers BrokerLoop BrokerDemo.
From S2P Require Import BrokerFrame BrokerDevice.

#[local] Open Scope string_scope.
#[local] Open Scope list_scope.
#[local] Open Scope Z_scope.

(** Does not open, close, write to or flush the link, and sends no break, timed
    or through the [break] parameter; a break may only be released.  The modem
    lines and the baud rate are the other parameters set. *)
Definition off_wire (e : event) : Prop :=
  match e with
  | EvWrite _ _ | EvBreak _ | EvOpen | EvConnect | EvPoll | EvClose | EvFlush => False
  | EvParam p v => streq p "dtr" || streq p "rts" || streq p "baud" || (streq p "break" && streq v "clear") = true
  | _ => True
  end.
#[export] Instance Talk_off_wire : Talk off_wire.
Proof. by intros []. Qed.

Section suspend.
Context {L : LinkOps} {E : SystemEnv} {J : JsonText} {R : RegexLib}.

Definition wire (b : sm_broker) (l : link_state) :=
  (lf_suspended (b_link b), lf_connecting (b_link b), bk_state (b_brk b), bk_pin (b_brk b),
   fl_reset_pending (b_flood b), fl_reset_pin (b_flood b)).
#[local] Instance wire_view : ClientView wire.
Proof. by intros b l cs. Qed.

(** Suspended, and nothing touched the wire since the trace was [t0].  A break
    or a flood may still be under way, when a resume that had to wait for its
    connection failed. *)
Record released (t0 : list event) (w : world) : Prop := {
  rl_suspended : lf_suspended (b_link (w_b w)) = true;
  rl_connecting : lf_connecting (b_link (w_b w)) = false;
  rl_pin : bk_state (b_brk (w_b w)) = SM_BRK_ASSERTED -> line_pin (bk_pin (b_brk (w_b w)));
  rl_reset : fl_reset_pending (b_flood (w_b w)) = true -> modem_pin (fl_reset_pin (b_flood (w_b w)));
  rl_trace : exists t, w_trace w = t0 ++ t /\ Forall off_wire t }.

Section parts.
Context (t0 : list event).

Lemma released_kept w w' : kept wire off_wire w w' -> released t0 w -> released t0 w'.
Proof.
  intros [[= E1 E2 E3 E4 E5 E6] (t & Et & Ht)] [H1 H2 H3 H4 (u & Eu & Hu)].
  split; rewrite ?E1, ?E2, ?E3, ?E4, ?E5, ?E6; try done.
  exists (u ++ t). rewrite Et, Eu, app_assoc. split; [done|]. by apply Forall_app.
Qed.

Ltac wire_leaf := apply (inv_kept _ wire off_wire _ released_kept); keeps_tac.

Lemma do_write_released data sender : inv (released t0) (sm_broker_do_write data sender).
Proof. apply inv_lflag_bind. intros w [-> _ _ _ _]. apply inv_ret. Qed.
#[local] Hint Resolve do_write_released : broker.

Lemma released_down w : released t0 w -> link_down (w_b w) = true.
Proof. intros [H _ _ _ _]. unfold link_down. by rewrite H. Qed.

Lemma schedule_break_released d f delay done :
  inv (released t0) (sm_broker_schedule_break d f delay done).
Proof. apply inv_ask_bind. intros w Hw%released_down. rewrite Hw. apply inv_ret. Qed.
Lemma schedule_line_reset_released p h done :
  inv (released t0) (sm_broker_schedule_line_reset p h done).
Proof. apply inv_ask_bind. intros w Hw%released_down. rewrite Hw. apply inv_ret. Qed.
Lemma start_flood_released key i d stop cid mid rp ra hold :
  inv (released t0) (sm_broker_start_flood key i d stop cid mid rp ra hold).
Proof. apply inv_ask_bind. intros w Hw%released_down. rewrite Hw. apply inv_ret. Qed.
Lemma do_suspend_released name : inv (released t0) (sm_broker_do_suspend name).
Proof. apply inv_lflag_bind. intros w [-> _ _ _ _]. apply inv_ret. Qed.
Lemma attempt_reconnect_released : inv (released t0) attempt_reconnect.
Proof. apply inv_gets_bind. intros w [-> _ _ _ _]. apply inv_ret. Qed.
Lemma check_connect_timeout_released : inv (released t0) check_connect_timeout.
Proof. apply inv_gets_bind. intros w [_ -> _ _ _]. apply inv_ret. Qed.

Lemma set_released p v : off_wire (EvParam p v) -> inv (released t0) (set_param p v).
Proof.
  intros Hp. apply (inv_kept _ wire off_wire _ released_kept), keeps_link_call; [done|by intros].
Qed.
Lemma modem_off_wire p v : modem_pin p -> off_wire (EvParam p v).
Proof. by intros [-> | ->]. Qed.
Lemma line_off_wire p : line_pin p -> off_wire (EvParam p "clear").
Proof. intros [[-> | ->]| ->]; done. Qed.
Lemma mod_brk_released f :
  (forall k, bk_state (f k) <> SM_BRK_ASSERTED) -> inv (released t0) (mod_brk f).
Proof. intros Hf w [H1 H2 H3 H4 H5]. split; simpl; try done. by intros ?%Hf. Qed.
Lemma mod_flood_released f :
  (forall fl, (fl_reset_pending fl = true -> modem_pin (fl_reset_pin fl)) ->
     fl_reset_pending (f fl) = true -> modem_pin (fl_reset_pin (f fl))) ->
  inv (released t0) (mod_flood f).
Proof. intros Hf w [H1 H2 H3 H4 H5]. split; simpl; auto. Qed.
Ltac run_leaf :=
  first [ apply mod_brk_released; intros ?; discriminate
        | apply mod_flood_released; simpl; solve [auto; done] | wire_leaf ].

Lemma break_complete_released rc : inv (released t0) (break_complete rc).
Proof.
  apply inv_gets_bind. intros w _. apply inv_bind; [by apply mod_brk_released|]. intros _. wire_leaf.
Qed.
#[local] Hint Resolve break_complete_released : broker.
Lemma handle_break_timer_released : inv (released t0) handle_break_timer.
Proof.
  apply inv_gets_bind. intros w [_ _ H3 _ _]. destruct (bk_state _) eqn:Hs; [apply inv_ret| |inv_tac run_leaf].
  assert (off_wire (EvParam (bk_pin (b_brk (w_b w))) "clear")) as Hp by (by apply line_off_wire, H3).
  apply inv_bind.
  - unfold clear_break_pin. apply inv_bind; [by apply set_released|]. intros rc.
    destruct (rc =? 0); [apply inv_ret|by apply set_released].
  - intros rc. inv_tac run_leaf.
Qed.
Lemma flood_finish_released m r : inv (released t0) (flood_finish m r).
Proof.
  apply inv_gets_bind. intros w [_ _ _ H4 _]. destruct (fl_active _); cbn [negb]; [|apply inv_ret].
  apply inv_bind; [|intros; inv_tac run_leaf].
  destruct (fl_reset_pending _); [|apply inv_ret]. apply inv_bind; [|intros; apply inv_ret].
  by apply set_released, modem_off_wire, H4.
Qed.
#[local] Hint Resolve flood_finish_released : broker.
Lemma handle_flood_timer_released : inv (released t0) handle_flood_timer.
Proof.
  apply inv_gets_bind. intros w [_ _ _ H4 _]. destruct (fl_active _); cbn [negb]; [|apply inv_ret].
  apply inv_bind; [|intros; inv_tac run_leaf].
  destruct (fl_reset_pending _); [|apply inv_ret]. apply inv_bind; [wire_leaf|intros now].
  destruct (_ <=? now); [|apply inv_ret]. apply inv_bind; [|intros; run_leaf].
  by apply set_released, modem_off_wire, H4.
Qed.
#[local] Hint Resolve schedule_break_released schedule_line_reset_released start_flood_released
  do_suspend_released attempt_reconnect_released check_connect_timeout_released
  handle_break_timer_released handle_flood_timer_released : broker.

Lemma link_released ev reads : inv (released t0) (process_event (LeLink ev reads)).
Proof. apply inv_gets_bind. intros w [-> _ _ _ _]. apply inv_ret. Qed.
Lemma link_out_released out : inv (released t0) (process_event (LeLinkOut out)).
Proof. apply inv_ask_bind. intros w Hw%released_down. rewrite Hw. apply inv_ret. Qed.
#[local] Hint Resolve link_released link_out_released : broker.

Lemma remove_client_wire k : keeps wire off_wire (remove_client k).
Proof.
  intros w. unfold remove_client, run. destruct (find_key k _) as [c|]; [|done].
  destruct (key_index k 0 _) as [i|]; [|done]. split; [done|]. exists [EvHangup k].
  split; [done|]. by constructor.
Qed.
#[local] Hint Resolve remove_client_wire : broker.
Lemma replace_loop_wire k name i : keeps wire off_wire (replace_loop k name i).
Proof. induction i; cbn [replace_loop]; keeps_tac. Qed.
Lemma add_patterns_wire items n : keeps wire off_wire (add_patterns items n).
Proof. revert n. induction items; intros n; cbn [add_patterns]; keeps_tac. Qed.
Lemma drop_stale_wire now gone i : keeps wire off_wire (drop_stale now gone i).
Proof. induction i; cbn [drop_stale]; keeps_tac. Qed.
#[local] Hint Resolve replace_loop_wire add_patterns_wire drop_stale_wire : broker.

(** A pin that is set directly is a modem line. *)
Lemma direct_pin pin v :
  pin_is_line_control pin = true -> streq pin "break" = false -> off_wire (EvParam pin v).
Proof.
  intros [[Hm|Hm]| ->]%pin_is_line_control_spec Hb; [by apply modem_off_wire; left|by apply modem_off_wire; right|done].
Qed.
Lemma handle_pin_control_released k c root : inv (released t0) (handle_pin_control k c root).
Proof.
  unfold handle_pin_control. apply inv_ask_bind. intros w _.
  destruct (negb (can_send _ _)); [wire_leaf|].
  destruct (sm_json_get_string root "pin") as [pin|]; [|wire_leaf].
  destruct (sm_json_get_string root "action") as [action|]; [|wire_leaf].
  destruct (pin_is_line_control pin) eqn:Hp; cbn [negb]; [|wire_leaf].
  destruct (_ && _); [inv_tac wire_leaf|].
  destruct (streq pin "break") eqn:Hb; [inv_tac wire_leaf|].
  apply inv_bind; [|intros rc; wire_leaf].
  by apply set_released, direct_pin.
Qed.
#[local] Hint Resolve handle_pin_control_released : broker.

Lemma handle_client_message_released k msg :
  m_type msg <> SM_MSG_RESUME -> inv (released t0) (handle_client_message k msg).
Proof.
  intros Hm. unfold handle_client_message, with_client, dispatch.
  destruct (m_type msg) eqn:Ht; try done; inv_tac wire_leaf.
Qed.

Lemma sink_op_released s : (forall n, s <> ScResume n) -> inv (released t0) (sink_op s).
Proof.
  intros Hs. destruct s; cbn [sink_op]; try (by destruct (Hs by_name)); try solve [inv_tac wire_leaf].
  destruct (pin_is_line_control pin) eqn:Hp; [|apply inv_ret].
  destruct (streq pin "break") eqn:Hb; [apply inv_ret|]. cbn [negb andb when].
  apply inv_bind; [|intros; apply inv_ret].
  by apply set_released, direct_pin.
Qed.

Lemma turn_part_released {A} (m : M A) : turn_part m -> inv (released t0) m.
Proof.
  destruct 1; first
    [ solve [auto with broker] | by apply handle_client_message_released
    | by apply sink_op_released | solve [cbn [process_event]; inv_tac wire_leaf] | solve [wire_leaf] ].
Qed.
End parts.

(** ** The link flags *)

(** Suspended, connecting, disconnected, resume pending, retry delay. *)
Definition flags (b : sm_broker) (l : link_state) : bool * bool * bool * bool * Z :=
  let f := b_link b in
  (lf_suspended f, lf_connecting f, lf_disconnected f, lf_pending_ack f, lf_delay_s f).
#[local] Instance flags_view : ClientView flags.
Proof. by intros b l cs. Qed.

(** A broker that is retrying has a delay to wait; an asynchronous connect
    belongs to a resume or to a retry, and never to a suspended broker. *)
Definition flags_ok (f : bool * bool * bool * bool * Z) : Prop :=
  let '(susp, conn, disc, ack, delay) := f in
  (susp = true -> conn = false) /\
  (delay = 0 \/ 2 <= delay <= 60) /\
  (disc = true -> susp = false -> conn = false \/ ack = false -> 2 <= delay) /\
  (conn = true -> ack = true \/ disc = true).
Definition link_ok (w : world) : Prop := flags_ok (flags (w_b w) (w_link w)).

Lemma link_kept w w' : kept flags any_event w w' -> link_ok w -> link_ok w'.
Proof. intros [Hf _]. unfold link_ok. by rewrite Hf. Qed.
Ltac link_leaf := apply (inv_kept _ flags any_event _ link_kept); keeps_tac.

Lemma link_ok_eq w w' :
  flags (w_b w') (w_link w') = flags (w_b w) (w_link w) -> link_ok w -> link_ok w'.
Proof. intros E1. unfold link_ok. by rewrite E1. Qed.

(** After a step that keeps the flags. *)
Lemma flags_bind {A B} (P : world -> Prop) (m : M A) (k : A -> M B) w :
  keeps flags any_event m ->
  (forall x w', flags (w_b w') (w_link w') = flags (w_b w) (w_link w) -> P (run (k x) w')) ->
  P (run (m ≫= k) w).
Proof. intros Hm Hk. rewrite run_bind. apply Hk. apply Hm. Qed.

Lemma run_mod_link {B} f (k : unit -> M B) w :
  run (mod_link f ≫= k) w =
  run (k tt) {| w with w_b := {| (w_b w) with b_link := f (b_link (w_b w)) |} |}.
Proof. done. Qed.

Lemma flags_end {A} (P : bool * bool * bool * bool * Z -> Prop) (m : M A) w :
  keeps flags any_event m -> P (flags (w_b w) (w_link w)) ->
  P (flags (w_b (run m w)) (w_link (run m w))).
Proof. intros Hm. destruct (Hm w) as [-> _]. done. Qed.

Lemma bring_up_flags up w :
  flags (w_b (run (link_bring_up up) w)) (w_link (run (link_bring_up up) w)) =
  let '(susp, _, _, ack, delay) := flags (w_b w) (w_link w) in
  (susp, false, false, if up then false else ack, delay).
Proof.
  unfold link_bring_up.
  match goal with |- _ = ?x => set (P w' := flags (w_b w') (w_link w') = x) end.
  apply (flags_bind P); [keeps_tac|]. intros mono w1 E1. apply (flags_bind P); [keeps_tac|].
  intros real w2 E2. rewrite run_mod_link. apply (flags_bind P); [keeps_tac|]. intros _ w3 E3.
  apply (flags_bind P); [keeps_tac|]. intros _ w4 E4. apply (flags_bind P); [keeps_tac|]. intros _ w5 E5.
  apply (flags_bind P); [keeps_tac|]. intros _ w6 E6. apply (flags_bind P); [keeps_tac|]. intros _ w7 E7.
  rewrite E6, E5, E4, E3 in E7. clear E3 E4 E5 E6. unfold flags in E7. simpl in E7.
  rewrite E1 in E2. unfold flags in E2. injection E2 as S1 S2 S3 S4 S5.
  injection E7 as T1 T2 T3 T4 T5. unfold P. clear P.
  destruct up; cbn [negb].
  - rewrite run_ask. destruct (lf_pending_ack (b_link (w_b w7))) eqn:Ha.
    + rewrite run_bind.
      pose proof (keeps_broadcast flags any_event (sm_msg_resumed (b_port (w_b w7))) None w7) as [Hb _].
      unfold flags, mod_link, modify, run in *. simpl in *. congruence.
    + pose proof (keeps_broadcast flags any_event (sm_msg_link_up (b_port (w_b w7))) None w7) as [Hb _].
      unfold flags, run in *. simpl in *. congruence.
  - unfold flags, run, mret, M_ret. simpl. congruence.
Qed.

Lemma mod_link_ok f :
  (forall l, let '(susp, conn, disc, ack, delay) :=
       (lf_suspended l, lf_connecting l, lf_disconnected l, lf_pending_ack l, lf_delay_s l) in
     flags_ok (susp, conn, disc, ack, delay) ->
     flags_ok (lf_suspended (f l), lf_connecting (f l), lf_disconnected (f l), lf_pending_ack (f l),
               lf_delay_s (f l))) ->
  inv link_ok (mod_link f).
Proof. intros Hf w Hw. unfold link_ok, flags. simpl. by apply Hf. Qed.

Lemma bring_up_ok up : inv link_ok (link_bring_up up).
Proof.
  intros w. unfold link_ok. rewrite bring_up_flags. unfold flags, flags_ok. intros (H1 & H2 & H3 & H4).
  split_and!; done.
Qed.
#[local] Hint Resolve bring_up_ok : broker.

Lemma next_delay_range d : (d = 0 \/ 2 <= d <= 60) -> next_delay d = 0 /\ d = 0 \/ 2 <= next_delay d <= 60 /\ 2 <= d.
Proof.
  unfold next_delay, SM_RECONNECT_MAX_S. intros H. destruct (Z.ltb_spec 60 (d * 2)); lia.
Qed.

Lemma schedule_retry_ok : inv link_ok link_schedule_retry.
Proof.
  unfold link_schedule_retry. apply inv_bind; [link_leaf|]. intros now. apply mod_link_ok. simpl.
  intros l (H1 & H2 & H3 & H4). destruct (next_delay_range _ H2) as [[-> E0]|[? ?]];
    split_and!; try done; try lia; intros; try (pose proof (H3 ltac:(done) ltac:(done) ltac:(done))); lia.
Qed.
#[local] Hint Resolve schedule_retry_ok : broker.

Lemma give_up_ok w :
  link_ok w -> lf_connecting (b_link (w_b w)) = true -> link_ok (run link_connect_give_up w).
Proof.
  intros Hw Hc. unfold link_ok, flags, flags_ok in Hw. destruct Hw as (H1 & H2 & H3 & H4).
  rewrite Hc in H1, H3, H4.
  assert (lf_suspended (b_link (w_b w)) = false) as Hs
    by (destruct (lf_suspended (b_link (w_b w))); [by discriminate H1|done]).
  unfold link_connect_give_up. rewrite run_mod_link.
  apply (flags_bind link_ok); [keeps_tac|]. intros _ w1 E1. rewrite run_mod_link, run_gets.
  unfold flags in E1. simpl in E1. injection E1 as S1 S2 S3 S4 S5. rewrite run_bind.
  apply schedule_retry_ok. cbn [b_link w_b lf_pending_ack].
  destruct (lf_pending_ack (b_link (w_b w1))) eqn:Ha; cbn [when].
  - apply (flags_bind link_ok); [keeps_tac|]. intros _ w2 E2. unfold flags in E2. simpl in E2.
    injection E2 as T1 T2 T3 T4 T5. unfold link_ok, flags, mod_link, modify, run. simpl.
    rewrite T2, T3, T5, S2, S5. split_and!; done.
  - unfold link_ok, flags, run, mret, M_ret. simpl. rewrite S1, S2, S5.
    assert (lf_pending_ack (b_link (w_b w)) = false) as Hack by congruence.
    split_and!; try done. intros _ _ _. apply H3; [|done|by right].
    destruct (H4 eq_refl) as [?|?]; [congruence|done].
Qed.

Lemma attempt_reconnect_ok : inv link_ok attempt_reconnect.
Proof.
  intros w Hw. unfold attempt_reconnect. rewrite run_gets.
  destruct (lf_suspended (b_link (w_b w))) eqn:Hs; [done|].
  destruct (lf_connecting (b_link (w_b w))) eqn:Hc; [done|].
  destruct (lf_disconnected (b_link (w_b w))) eqn:Hd; cbn [negb orb]; [|done].
  destruct (negb (lf_reconnect (b_link (w_b w)))); [done|].
  apply (flags_bind link_ok); [keeps_tac|]. intros now w1 E1. destruct (now <? _); [by apply (link_ok_eq w)|].
  apply (flags_bind link_ok); [keeps_tac|]. intros blocked w2 E2. rewrite E1 in E2.
  assert (link_ok w2) as H2 by (by apply (link_ok_eq w)).
  destruct blocked.
  { apply (flags_bind link_ok); [keeps_tac|]. intros now' w3 E3. by apply (link_ok_eq w2). }
  destruct link_connect_begin as [begin|].
  - apply (flags_bind link_ok); [keeps_tac|]. intros rc w3 E3. rewrite E2 in E3.
    assert (link_ok w3) as H3 by (by apply (link_ok_eq w)).
    destruct (rc =? 0); [by apply bring_up_ok|]. destruct (rc =? 1); [|by apply schedule_retry_ok].
    unfold link_watch_connecting. apply (flags_bind link_ok); [keeps_tac|]. intros now' w4 E4.
    rewrite E3 in E4. unfold flags in E4. injection E4 as S1 S2 S3 S4 S5.
    unfold link_ok, flags, mod_link, modify, run. simpl. unfold link_ok, flags, flags_ok in Hw.
    destruct Hw as (A1 & A2 & A3 & A4). rewrite S1, S3, S4, S5, Hs, Hd in *. split_and!; auto; congruence.
  - apply (flags_bind link_ok); [keeps_tac|]. intros rc w3 E3. rewrite E2 in E3.
    assert (link_ok w3) as H3 by (by apply (link_ok_eq w)).
    destruct (rc =? 0); [by apply bring_up_ok|by apply schedule_retry_ok].
Qed.
#[local] Hint Resolve attempt_reconnect_ok : broker.

Lemma watch_flags w :
  flags (w_b (run link_watch_connecting w)) (w_link (run link_watch_connecting w)) =
  let '(susp, _, disc, ack, delay) := flags (w_b w) (w_link w) in (susp, true, disc, ack, delay).
Proof. done. Qed.

Lemma finish_resume_ok : inv link_ok finish_resume.
Proof. inv_tac link_leaf. Qed.
#[local] Hint Resolve finish_resume_ok : broker.

Lemma unsuspend_ok :
  inv link_ok (mod_link (fun l => {| l with lf_suspended := false |}) ;; finish_resume).
Proof.
  intros w Hw. rewrite run_mod_link. unfold finish_resume. rewrite run_bind.
  match goal with |- link_ok (run ?m _) => assert (inv link_ok m) as Hm by inv_tac link_leaf end.
  apply Hm. clear Hm. unfold link_ok in *. rewrite bring_up_flags. unfold flags, flags_ok in *. simpl.
  destruct Hw as (H1 & H2 & H3 & H4). by split_and!.
Qed.

Lemma do_resume_ok name : inv link_ok (sm_broker_do_resume name).
Proof.
  intros w Hw. unfold sm_broker_do_resume. rewrite run_lflag.
  destruct (lf_suspended (b_link (w_b w))) eqn:Hs; cbn [negb]; [|done].
  apply (flags_bind link_ok); [keeps_tac|]. intros blocked w1 E1.
  assert (link_ok w1) as H1 by (by apply (link_ok_eq w)). destruct blocked; [done|].
  destruct link_connect_begin as [begin|].
  - apply (flags_bind link_ok); [keeps_tac|]. intros rc w2 E2. rewrite E1 in E2.
    assert (link_ok w2) as H2 by (by apply (link_ok_eq w)). destruct (rc <? 0); [done|].
    destruct (rc =? 1); [|by apply unsuspend_ok].
    rewrite !run_mod_link, run_bind. unfold link_ok, run at 1, mret, M_ret. cbn [fst].
    fold (run link_watch_connecting) . rewrite watch_flags. unfold link_ok, flags, flags_ok in *. simpl.
    destruct H2 as (A1 & A2 & A3 & A4). split_and!; auto. intros _ _ [|]; done.
  - apply (flags_bind link_ok); [keeps_tac|]. intros rc w2 E2. rewrite E1 in E2.
    assert (link_ok w2) as H2 by (by apply (link_ok_eq w)). destruct (negb (rc =? 0)); [done|].
    by apply unsuspend_ok.
Qed.

Ltac flag_ok :=
  apply mod_link_ok; unfold SM_RECONNECT_BASE_S; simpl; intros ? (? & ? & ? & ?); split_and!; solve [auto; lia].
Ltac link_leaf' := first [flag_ok | link_leaf].

Lemma do_suspend_ok name : inv link_ok (sm_broker_do_suspend name).
Proof. inv_tac link_leaf'. Qed.
Lemma handle_link_disconnect_link_ok : inv link_ok handle_link_disconnect.
Proof. inv_tac link_leaf'. Qed.
#[local] Hint Resolve do_resume_ok do_suspend_ok handle_link_disconnect_link_ok : broker.

(** ** The loop *)

Lemma handle_link_connecting_ok ev w :
  link_ok w -> lf_connecting (b_link (w_b w)) = true -> link_ok (run (handle_link_connecting ev) w).
Proof.
  intros Hw Hc. unfold handle_link_connecting. destruct (ev_hup ev); [by apply give_up_ok|].
  destruct (negb (ev_out ev)); [done|].
  apply (flags_bind link_ok); [keeps_tac|]. intros rc w1 E1.
  assert (link_ok w1) as H1 by (by apply (link_ok_eq w)). destruct (rc =? 1); [by apply bring_up_ok|].
  destruct (rc <? 0); [|done]. apply give_up_ok; [done|].
  unfold flags in E1. injection E1 as _ E2 _ _ _. congruence.
Qed.

Lemma check_connect_timeout_ok : inv link_ok check_connect_timeout.
Proof.
  intros w Hw. unfold check_connect_timeout. rewrite run_gets.
  destruct (lf_connecting (b_link (w_b w))) eqn:Hc; [|done].
  apply (flags_bind link_ok); [keeps_tac|]. intros now w1 E1.
  assert (link_ok w1) as H1 by (by apply (link_ok_eq w)). destruct (_ <? now); [|done].
  apply give_up_ok; [done|]. unfold flags in E1. injection E1 as _ E2 _ _ _. congruence.
Qed.
#[local] Hint Resolve check_connect_timeout_ok : broker.

Lemma remove_client_flags k : keeps flags any_event (remove_client k).
Proof.
  intros w. unfold remove_client, run. destruct (find_key k _) as [c|]; [|done].
  destruct (key_index k 0 _) as [i|]; [|done]. split; [done|]. exists [EvHangup k].
  split; [done|]. by constructor.
Qed.
#[local] Hint Resolve remove_client_flags : broker.
Lemma replace_loop_flags k name i : keeps flags any_event (replace_loop k name i).
Proof. induction i; cbn [replace_loop]; keeps_tac. Qed.
Lemma add_patterns_flags items n : keeps flags any_event (add_patterns items n).
Proof. revert n. induction items; intros n; cbn [add_patterns]; keeps_tac. Qed.
Lemma drop_stale_flags now gone i : keeps flags any_event (drop_stale now gone i).
Proof. induction i; cbn [drop_stale]; keeps_tac. Qed.
#[local] Hint Resolve replace_loop_flags add_patterns_flags drop_stale_flags : broker.
Lemma link_drain_chunk_flags buf : keeps flags any_event (link_drain_chunk buf).
Proof. keeps_tac. Qed.
#[local] Hint Resolve link_drain_chunk_flags : broker.
Lemma drain_link_fd_flags n first env : keeps flags any_event (drain_link_fd n first env link_drain_chunk).
Proof.
  revert first env. induction n; intros first env; destruct env; cbn [drain_link_fd]; keeps_tac.
Qed.
#[local] Hint Resolve drain_link_fd_flags : broker.
Lemma process_link_data_link_ok env : inv link_ok (process_link_data env).
Proof.
  intros w. unfold process_link_data, run. destruct (link_read_fd (w_link w) <? 0); [done|]. revert w.
  change (inv link_ok (rc ← drain_link_fd SM_LINK_DRAIN_MAX_READS true env link_drain_chunk;
    when (rc =? 1) handle_link_disconnect)). inv_tac link_leaf.
Qed.
#[local] Hint Resolve process_link_data_link_ok : broker.

Lemma handle_client_message_link_ok k msg : inv link_ok (handle_client_message k msg).
Proof. unfold handle_client_message, with_client, dispatch. inv_tac link_leaf'. Qed.
#[local] Hint Resolve handle_client_message_link_ok : broker.
Lemma client_input_link_ok fuel k reads : inv link_ok (client_input fuel k reads).
Proof. revert reads. induction fuel; intros reads; cbn [client_input]; inv_tac link_leaf. Qed.
Lemma flush_client_queues_link_ok fuel i : inv link_ok (flush_client_queues fuel i).
Proof. revert i. induction fuel; intros i; cbn [flush_client_queues]; inv_tac link_leaf. Qed.
#[local] Hint Resolve client_input_link_ok flush_client_queues_link_ok : broker.

Lemma link_event_ok ev reads : inv link_ok (process_event (LeLink ev reads)).
Proof.
  intros w Hw. cbn [process_event]. rewrite run_gets. destruct (lf_suspended _); [done|].
  destruct (lf_connecting (b_link (w_b w))) eqn:Hc; [by apply handle_link_connecting_ok|].
  destruct (lf_disconnected _); [done|]. revert w Hw Hc. intros w Hw _. revert w Hw.
  change (inv link_ok (link_event ev reads)). inv_tac link_leaf.
Qed.

Lemma process_event_link_ok e : inv link_ok (process_event e).
Proof.
  destruct e; [..|apply link_event_ok| | |]; cbn [process_event]; inv_tac link_leaf.
Qed.
#[local] Hint Resolve process_event_link_ok : broker.

Lemma loop_turn_link_ok events gone : inv link_ok (loop_turn events gone).
Proof. unfold loop_turn. inv_tac link_leaf. Qed.

Lemma reachable_link w : reachable w -> link_ok w.
Proof.
  induction 1 as [w [_ _ _ _ _ _ Hl _ _ _ _]|w events gone _ IH]; [|by apply loop_turn_link_ok].
  destruct Hl as (H1 & H2 & H3 & H4 & H5). unfold link_ok, flags. rewrite H1, H2, H3, H4, H5.
  split_and!; [done|by left|done|done].
Qed.

(** ** Between two parts *)

Lemma sink_op_link_ok s : inv link_ok (sink_op s).
Proof. destruct s; cbn [sink_op]; inv_tac link_leaf. Qed.
Lemma turn_part_link_ok {A} (m : M A) : turn_part m -> inv link_ok m.
Proof.
  destruct 1; first [solve [auto with broker] | apply process_event_link_ok | apply sink_op_link_ok
                    | solve [inv_tac link_leaf]].
Qed.
Lemma mid_turn_link w : mid_turn w -> link_ok w.
Proof.
  induction 1 as [w [_ _ _ _ _ _ Hl _ _ _ _]|A m w Hm _ IH|k msg w _ _ IH|n w _ IH].
  - destruct Hl as (H1 & H2 & H3 & H4 & H5). unfold link_ok, flags. rewrite H1, H2, H3, H4, H5.
    split_and!; [done|by left|done|done].
  - by apply turn_part_link_ok.
  - by apply handle_client_message_link_ok.
  - by apply sink_op_link_ok.
Qed.

(** C35: suspend gives the wire away.  Take any state of any execution, between
    two turns of the loop or between two parts of one: while the broker is
    suspended, no part of a turn writes to the link, sends a break on it
    (timed, or asserted through the [break] parameter), opens, closes, connects
    or flushes it, and the broker stays suspended: timers, reconnect, pending
    floods and breaks, autoresponders, every client request and every sink
    call, a resume apart.  A request that sets DTR, RTS or the baud rate still
    reaches the link's [set_param], and so does the release of a line that was
    asserted during a resume that failed. *)
Theorem suspend_releases_wire {A} (m : M A) w :
  mid_turn w -> turn_part m -> lf_suspended (b_link (w_b w)) = true ->
  lf_suspended (b_link (w_b (run m w))) = true /\ grows off_wire w (run m w).
Proof.
  intros Hw Hm Hs. destruct (mid_turn_link w Hw) as (H1 & _). destruct (mid_turn_device w Hw) as [_ _ H3 H4 _].
  destruct (turn_part_released (w_trace w) m Hm w) as [A1 _ _ _ A5].
  - split; [done|by apply H1|done..|]. exists []. by rewrite app_nil_r.
  - by split.
Qed.

(** The reconnect schedule never spins.  A broker that waits to reconnect
    has a retry delay between 2 and 60 seconds, and an attempt that fails puts
    the next one at least that delay after it and doubles the delay, up to 60
    seconds. *)
Theorem reconnect_backoff w :
  reachable w -> lf_disconnected (b_link (w_b w)) = true ->
  lf_suspended (b_link (w_b w)) = false -> lf_connecting (b_link (w_b w)) = false ->
  let d := lf_delay_s (b_link (w_b w)) in
  let w' := run link_schedule_retry w in
  2 <= d <= 60 /\
  lf_reconnect_next (b_link (w_b w')) = env_monotonic (w_tick w) + dbl_of_int d /\
  lf_delay_s (b_link (w_b w')) = Z.min 60 (2 * d).
Proof.
  intros Hr Hd Hs Hc. destruct (reachable_link w Hr) as (_ & H2 & H3 & _).
  specialize (H3 Hd Hs (or_introl Hc)). split; [lia|]. split; [done|]. simpl.
  unfold next_delay, SM_RECONNECT_MAX_S. destruct (Z.ltb_spec 60 (lf_delay_s (b_link (w_b w)) * 2)); lia.
Qed.
End suspend.

(** The controller suspends, then tries to send. *)
Definition demo_suspended : @world (demo_link false) := demo_turn false [sm_msg_suspend (Some "s")] [].
Definition demo_late_send : @M (demo_link false) unit :=
  handle_client_message 0 (msg_of (sm_msg_send (Some "1") [104; 105])).

Lemma suspend_releases_wire_witness :
  lf_suspended (b_link (w_b (run demo_late_send demo_suspended))) = true /\
  grows off_wire demo_suspended (run demo_late_send demo_suspended).
Proof.
  apply (suspend_releases_wire demo_late_send demo_suspended).
  - apply reachable_mid_turn, demo_turn_reachable.
  - apply tp_message. discriminate.
  - by vm_compute.
Defined.

(** The device is unplugged. *)
Definition demo_unplugged : @world (demo_link false) :=
  demo_turn false [] [LeLink (mk_ev false false true) []].

Lemma reconnect_backoff_witness :
  lf_delay_s (b_link (w_b demo_unplugged)) = 2 /\
  lf_delay_s (b_link (w_b (run link_schedule_retry demo_unplugged))) =
    Z.min 60 (2 * lf_delay_s (b_link (w_b demo_unplugged))).
Proof.
  split; [by vm_compute|].
  apply (reconnect_backoff demo_unplugged (demo_turn_reachable _ _ _)); by vm_compute.
Defined.
