(* ===== verification/BrokerStream.v ===== *)
(** * Device output on its way to the clients

    History responses are complete, and device output reaches the history and
    every client unchanged. *)
From S2P Require Import Prelude Arrays Codecs RingBuffer Json CJson Protocol Regex Expect BootStage.
From S2P Require Import Autoresponder Anomaly Effects Client BrokerState BrokerOps BrokerLink BrokerHandlers BrokerLoop BrokerDemo.
From S2P Require Import BrokerFrame.

#[local] Open Scope string_scope.
#[local] Open Scope list_scope.
#[local] Open Scope Z_scope.
#[local] Open Scope json_scope.

(** ** Encoding a history response *)

(** What a receiver decodes from the chunks of a response. *)
Definition chunks_payload (arr : list json) : bytes :=
  mjoin (map (fun j => default [] (payload j "data")) arr).

Definition hp_skip (h : history_pending) : Z := if (hp_index h =? 0)%nat then hp_first_skip h else 0.

(** The bytes still to be encoded. *)
Definition hp_rest (h : history_pending) : bytes :=
  let data := zdrop (hp_skip h) (mjoin (map c_data (drop (hp_index h) (hp_chunks h)))) in
  if 0 <? hp_page_bytes h then ztake (hp_page_bytes h - hp_bytes_encoded h) data else data.

Record hp_ok (h : history_pending) : Prop := {
  ho_index : (hp_index h <= length (hp_chunks h))%nat;
  ho_bytes : Forall (fun c => all_bytes (c_data c)) (hp_chunks h);
  ho_page : hp_page_bytes h <= SM_MAX_HISTORY_RESPONSE_BYTES;
  ho_enc : 0 <= hp_bytes_encoded h;
  ho_room : 0 < hp_page_bytes h -> (hp_index h < length (hp_chunks h))%nat ->
            hp_bytes_encoded h < hp_page_bytes h;
  ho_skip : 0 <= hp_first_skip h /\
            (forall c, head (hp_chunks h) = Some c -> hp_first_skip h <= c_len c) }.

Lemma encode_chunk_payload h ch off len :
  all_bytes (c_data ch) ->
  payload (encode_chunk h ch off len) "data" = Some (ztake len (zdrop off (c_data ch))).
Proof.
  intros Hb. unfold encode_chunk, payload.
  destruct (hp_has_cursor h); (apply payload_string; [by apply Forall_ztake, Forall_zdrop|done]).
Qed.

Lemma encode_range_ok h ch :
  hp_ok h -> hp_chunks h !! hp_index h = Some ch ->
  exists len, encode_range h ch = Some (hp_skip h, len) /\ 0 <= hp_skip h <= c_len ch /\
    len = (if 0 <? hp_page_bytes h
           then Z.min (c_len ch - hp_skip h) (hp_page_bytes h - hp_bytes_encoded h)
           else c_len ch - hp_skip h).
Proof.
  intros [H1 H2 H3 H4 H5 [H6 H7]] Hch. unfold encode_range, hp_skip, SM_MAX_HISTORY_RESPONSE_BYTES in *.
  pose proof (lookup_lt_Some _ _ _ Hch) as Hlt. pose proof (zlen_nonneg (c_data ch)).
  fold (c_len ch) in *.
  assert ((if (hp_index h =? 0)%nat && (0 <? hp_first_skip h) then Z.min (hp_first_skip h) (c_len ch) else 0)
          = (if (hp_index h =? 0)%nat then hp_first_skip h else 0) /\
          0 <= (if (hp_index h =? 0)%nat then hp_first_skip h else 0) <= c_len ch) as [-> Hr].
  { destruct (Nat.eqb_spec (hp_index h) 0) as [E|]; simpl; [|lia].
    rewrite E in Hch. destruct (hp_chunks h) as [|c l]; [done|]. injection Hch as ->.
    specialize (H7 ch eq_refl). destruct (Z.ltb_spec 0 (hp_first_skip h)); lia. }
  destruct (Z.ltb_spec 0 (hp_page_bytes h)).
  - specialize (H5 ltac:(lia) Hlt). unfold u64. rewrite Z.mod_small by lia.
    destruct (Z.eqb_spec (hp_page_bytes h - hp_bytes_encoded h) 0); [lia|]. by eexists.
  - by eexists.
Qed.

(** One chunk encoded. *)
Definition encode_one (h : history_pending) (ch : sm_rb_chunk) (off len : Z) : history_pending :=
  let h := {| h with hp_arr := hp_arr h ++ [encode_chunk h ch off len];
                     hp_bytes_encoded := hp_bytes_encoded h + len;
                     hp_index := S (hp_index h) |} in
  if (0 <? hp_page_bytes h) && (hp_page_bytes h <=? hp_bytes_encoded h)
  then {| h with hp_index := length (hp_chunks h) |} else h.

Lemma chunks_payload_snoc arr j d :
  payload j "data" = Some d -> chunks_payload (arr ++ [j]) = chunks_payload arr ++ d.
Proof. intros Hj. unfold chunks_payload. rewrite map_app, mjoin_app. simpl. by rewrite Hj, app_nil_r. Qed.

Lemma encode_one_ok h ch len :
  hp_ok h -> hp_chunks h !! hp_index h = Some ch -> encode_range h ch = Some (hp_skip h, len) ->
  let h' := encode_one h ch (hp_skip h) len in
  hp_ok h' /\ (hp_index h < hp_index h')%nat /\ hp_chunks h' = hp_chunks h /\
  chunks_payload (hp_arr h') ++ hp_rest h' = chunks_payload (hp_arr h) ++ hp_rest h.
Proof.
  intros Hok Hch Hr. destruct (encode_range_ok h ch Hok Hch) as (len' & Hr' & Hsk & Hlen).
  rewrite Hr in Hr'. injection Hr' as <-. pose proof Hok as [H1 H2 H3 H4 H5 [H6 H7]].
  pose proof (lookup_lt_Some _ _ _ Hch) as Hlt.
  assert (all_bytes (c_data ch)) as Hb by (by apply (proj1 (Forall_lookup _ _) H2 _ _ Hch)).
  assert (hp_rest h =
    let data := zdrop (hp_skip h) (c_data ch) ++ mjoin (map c_data (drop (S (hp_index h)) (hp_chunks h))) in
    if 0 <? hp_page_bytes h then ztake (hp_page_bytes h - hp_bytes_encoded h) data else data) as ->.
  { unfold hp_rest. rewrite (drop_S _ _ _ Hch). simpl map. cbn [mjoin list_join].
    rewrite zdrop_app_le by (unfold c_len in Hsk; lia). done. }
  pose proof (encode_chunk_payload h ch (hp_skip h) len Hb) as Hpl.
  assert (zlen (zdrop (hp_skip h) (c_data ch)) = c_len ch - hp_skip h) as Hz
    by (rewrite zlen_zdrop; unfold c_len in *; lia).
  unfold encode_one. cbn [hp_page_bytes hp_bytes_encoded hp_chunks hp_index].
  destruct (Z.ltb_spec 0 (hp_page_bytes h)) as [Hp|Hp]; cbn [andb].
  - specialize (H5 Hp Hlt). subst len.
    destruct (Z.leb_spec (hp_page_bytes h)
                (hp_bytes_encoded h + Z.min (c_len ch - hp_skip h) (hp_page_bytes h - hp_bytes_encoded h)))
      as [Hfull|Hmore].
    + split; [split; simpl; try done; try lia|]. split; [simpl; lia|]. split; [done|].
      unfold hp_rest. cbn [hp_arr hp_page_bytes hp_bytes_encoded hp_index hp_chunks hp_skip].
      rewrite (chunks_payload_snoc _ _ _ Hpl), drop_all. rewrite <- app_assoc. f_equal.
      destruct (Z.ltb_spec 0 (hp_page_bytes h)); [|lia].
      assert (hp_page_bytes h - hp_bytes_encoded h <= c_len ch - hp_skip h) by lia.
      rewrite Z.min_r in * by lia. rewrite ztake_app_le by lia.
      rewrite (ztake_neg (hp_page_bytes h - (_ + _))) by lia. apply app_nil_r.
    + rewrite Z.min_l in * by lia. split; [split; simpl; try done; try lia|]. split; [simpl; lia|].
      split; [done|]. unfold hp_rest, hp_skip at 2. cbn [hp_arr hp_page_bytes hp_bytes_encoded hp_index hp_chunks].
      rewrite (chunks_payload_snoc _ _ _ Hpl). rewrite <- app_assoc. f_equal. cbn [Nat.eqb].
      destruct (Z.ltb_spec 0 (hp_page_bytes h)); [|lia]. rewrite (zdrop_neg 0) by lia.
      rewrite (ztake_all (c_len ch - hp_skip h)) by lia. rewrite ztake_app_ge by lia. do 2 f_equal. lia.
  - subst len. split; [split; simpl; try done; try lia; pose proof (zlen_nonneg (c_data ch)); unfold c_len in *; lia|].
    split; [simpl; lia|]. split; [done|].
    unfold hp_rest, hp_skip at 2. cbn [hp_arr hp_page_bytes hp_bytes_encoded hp_index hp_chunks].
    rewrite (chunks_payload_snoc _ _ _ Hpl). rewrite <- app_assoc. f_equal. cbn [Nat.eqb].
    destruct (Z.ltb_spec 0 (hp_page_bytes h)); [lia|]. rewrite (zdrop_neg 0) by lia.
    rewrite (ztake_all (c_len ch - hp_skip h)) by lia. done.
Qed.

(** One turn's encoding: at least one chunk, nothing lost. *)
Lemma encode_loop_ok fuel n h :
  hp_ok h ->
  let h' := encode_loop fuel n h in
  hp_ok h' /\ (hp_index h <= hp_index h')%nat /\ hp_chunks h' = hp_chunks h /\
  chunks_payload (hp_arr h') ++ hp_rest h' = chunks_payload (hp_arr h) ++ hp_rest h.
Proof.
  revert n h. induction fuel as [|f IH]; intros n h Hok; cbn [encode_loop]; [done|].
  destruct (hp_chunks h !! hp_index h) as [ch|] eqn:Hch; [|done].
  destruct (_ <=? n); [done|].
  destruct (encode_range_ok h ch Hok Hch) as (len & Hr & _). rewrite Hr.
  destruct (encode_one_ok h ch len Hok Hch Hr) as (H1 & H2 & H3 & H4).
  unfold encode_one in H1, H2, H3, H4. cbv zeta in *. destruct (_ && _).
  - split_and!; [done|lia|done..].
  - destruct (IH (n + len) _ H1) as (A1 & A2 & A3 & A4).
    split_and!; [done|lia|congruence|congruence].
Qed.

Lemma encode_loop_progress f h :
  hp_ok h -> (hp_index h < length (hp_chunks h))%nat ->
  (hp_index h < hp_index (encode_loop (S f) 0 h))%nat.
Proof.
  intros Hok Hlt. destruct (lookup_lt_is_Some_2 _ _ Hlt) as [ch Hch]. cbn [encode_loop]. rewrite Hch.
  destruct (encode_range_ok h ch Hok Hch) as (len & Hr & _). rewrite Hr.
  destruct (encode_one_ok h ch len Hok Hch Hr) as (H1 & H2 & _).
  unfold encode_one in H1, H2. cbv zeta in *. cbn [Z.leb Z.compare SM_HISTORY_ENCODE_MAX_BYTES].
  destruct (_ && _); [done|].
  pose proof (encode_loop_ok f (0 + len) _ H1) as (_ & A2 & _).
  eapply Nat.lt_le_trans; [exact H2|exact A2].
Qed.

Lemma encode_loop_meta fuel n h :
  let h' := encode_loop fuel n h in
  hp_client_id h' = hp_client_id h /\ hp_msg_id h' = hp_msg_id h /\ hp_active h' = hp_active h /\
  hp_truncated h' = hp_truncated h /\ hp_has_cursor h' = hp_has_cursor h /\
  hp_cursor h' = hp_cursor h /\ hp_dropped h' = hp_dropped h /\ hp_has_more h' = hp_has_more h.
Proof.
  revert n h. induction fuel as [|f IH]; intros n h; cbn [encode_loop]; [done|].
  destruct (_ !! _); [|done]. destruct (_ <=? n); [done|]. destruct (encode_range _ _) as [[off len]|]; [|done].
  cbv zeta. destruct (_ && _); [done|]. destruct (IH (n + len) {|
    hp_active := hp_active h; hp_client_id := hp_client_id h; hp_msg_id := hp_msg_id h;
    hp_chunks := hp_chunks h; hp_index := S (hp_index h);
    hp_arr := hp_arr h ++ [encode_chunk h s off len]; hp_truncated := hp_truncated h;
    hp_has_cursor := hp_has_cursor h; hp_cursor := hp_cursor h; hp_dropped := hp_dropped h;
    hp_has_more := hp_has_more h; hp_first_skip := hp_first_skip h; hp_page_bytes := hp_page_bytes h;
    hp_bytes_encoded := hp_bytes_encoded h + len |}) as (? & ? & ? & ? & ? & ? & ? & ?).
  simpl in *. split_and!; done.
Qed.

Lemma hp_rest_done h : (length (hp_chunks h) <= hp_index h)%nat -> hp_rest h = [].
Proof.
  intros Hl. unfold hp_rest. rewrite drop_ge by done.
  change (mjoin (map c_data [])) with (@nil Z). unfold zdrop, ztake. rewrite drop_nil, take_nil.
  by destruct (0 <? _).
Qed.

Section history.
Context {L : LinkOps} {E : SystemEnv} {J : JsonText} {R : RegexLib}.

(** What a turn of encoding does not change. *)
Definition turn_constant {T} (V : history_pending -> T) : Prop :=
  forall h, hp_ok h -> V (encode_loop SM_HISTORY_ENCODE_MAX_CHUNKS 0 h) = V h.

(** A response to [h]: made when everything is encoded, from a request that is
    [h] as far as turns do not change it. *)
Definition settles (resp : json) (h : history_pending) : Prop :=
  exists h', resp = history_response h' /\ (length (hp_chunks h') <= hp_index h')%nat /\
    (forall T (V : history_pending -> T), turn_constant V -> V h' = V h).

Lemma turn_constant_payload : turn_constant (fun h => chunks_payload (hp_arr h) ++ hp_rest h).
Proof. intros h Hok. by destruct (encode_loop_ok SM_HISTORY_ENCODE_MAX_CHUNKS 0 h Hok) as (_ & _ & _ & ->). Qed.
Lemma turn_constant_meta :
  turn_constant (fun h => (hp_has_cursor h, hp_cursor h, hp_dropped h, hp_has_more h)).
Proof.
  intros h _. destruct (encode_loop_meta SM_HISTORY_ENCODE_MAX_CHUNKS 0 h) as (_ & _ & _ & _ & M5 & M6 & M7 & M8).
  congruence.
Qed.

Lemma run_alloc {B} (k : bool -> M B) w :
  (forall n z, env_alloc n z = true) ->
  run (alloc_call ≫= k) w = run (k true) {| w with w_tick := S (w_tick w) |}.
Proof. intros H. unfold alloc_call. rewrite run_bind. unfold result, query. simpl. by rewrite H. Qed.

(** One turn: more to do, or the response. *)
Lemma process_history_more w :
  let h' := encode_loop SM_HISTORY_ENCODE_MAX_CHUNKS 0 (b_hist (w_b w)) in
  hp_active (b_hist (w_b w)) = true -> (hp_index h' < length (hp_chunks h'))%nat ->
  run process_history_pending w = {| w with w_b := {| (w_b w) with b_hist := h' |} |}.
Proof.
  intros h' Ha Hi. unfold process_history_pending. rewrite run_gets, Ha. cbn [negb].
  unfold mod_hist. rewrite run_modify. fold h'. apply Nat.ltb_lt in Hi. by rewrite Hi.
Qed.

Lemma process_history_last w c :
  let h' := encode_loop SM_HISTORY_ENCODE_MAX_CHUNKS 0 (b_hist (w_b w)) in
  hp_active (b_hist (w_b w)) = true -> (length (hp_chunks h') <= hp_index h')%nat ->
  find_id (hp_client_id h') (b_clients (w_b w)) = Some c ->
  b_hist (w_b (run process_history_pending w)) = hist_zero /\
  w_trace (run process_history_pending w) = w_trace w ++ [EvSend (cl_key c) (history_response h')].
Proof.
  intros h' Ha Hi Hc. unfold process_history_pending. rewrite run_gets, Ha. cbn [negb].
  unfold mod_hist. rewrite run_modify. fold h'.
  destruct (Nat.ltb_spec (hp_index h') (length (hp_chunks h'))); [lia|].
  rewrite run_gets. cbn [w_b b_clients]. by rewrite Hc.
Qed.

(** *** The rest of a turn

    What a turn does beside encoding leaves a pending request alone: another
    request is refused while one is pending. *)
Section pending.
Context (P : history_pending -> Prop) (w0 : world).
Hypothesis HP : forall h, P h -> hp_active h = true \/ (forall h', P h').

Definition pending (w : world) : Prop := P (b_hist (w_b w)) /\ grows any_event w0 w.

Definition hist_view (b : sm_broker) (l : link_state) : history_pending := b_hist b.
#[local] Instance hist_view_clients : ClientView hist_view.
Proof. by intros b l cs. Qed.

Lemma pending_kept w w' : kept hist_view any_event w w' -> pending w -> pending w'.
Proof. intros [E1 G1] [H1 G2]. unfold hist_view in E1. split; [by rewrite E1|by etrans]. Qed.
Ltac hist_leaf := apply (inv_kept _ hist_view any_event _ pending_kept); keeps_tac.

Lemma remove_client_hist k : keeps hist_view any_event (remove_client k).
Proof.
  intros w. unfold remove_client, run. destruct (find_key k _) as [c|]; [|done].
  destruct (key_index k 0 _) as [i|]; [|done]. split; [done|]. exists [EvHangup k].
  split; [done|]. by constructor.
Qed.
#[local] Hint Resolve remove_client_hist : broker.
Lemma replace_loop_hist k name i : keeps hist_view any_event (replace_loop k name i).
Proof. induction i; cbn [replace_loop]; keeps_tac. Qed.
Lemma add_patterns_hist items n : keeps hist_view any_event (add_patterns items n).
Proof. revert n. induction items; intros n; cbn [add_patterns]; keeps_tac. Qed.
Lemma drop_stale_hist now gone i : keeps hist_view any_event (drop_stale now gone i).
Proof. induction i; cbn [drop_stale]; keeps_tac. Qed.
#[local] Hint Resolve replace_loop_hist add_patterns_hist drop_stale_hist : broker.
Lemma link_drain_chunk_hist buf : keeps hist_view any_event (link_drain_chunk buf).
Proof. keeps_tac. Qed.
#[local] Hint Resolve link_drain_chunk_hist : broker.
Lemma drain_link_fd_hist n first env : keeps hist_view any_event (drain_link_fd n first env link_drain_chunk).
Proof.
  revert first env. induction n; intros first env; destruct env; cbn [drain_link_fd]; keeps_tac.
Qed.
#[local] Hint Resolve drain_link_fd_hist : broker.
Lemma process_link_data_hist env : keeps hist_view any_event (process_link_data env).
Proof.
  intros w. unfold process_link_data, run. destruct (link_read_fd (w_link w) <? 0); [done|]. revert w.
  change (keeps hist_view any_event (rc ← drain_link_fd SM_LINK_DRAIN_MAX_READS true env link_drain_chunk;
    when (rc =? 1) handle_link_disconnect)). keeps_tac.
Qed.
#[local] Hint Resolve process_link_data_hist : broker.

Lemma pending_mod_hist f : (forall h, P h -> P (f h)) -> inv pending (mod_hist f).
Proof. intros Hf w [H G]. split; [by apply Hf|]. etrans; [exact G|]. by apply grows_nil. Qed.

Lemma handle_history_request_pending k c root : inv pending (handle_history_request k c root).
Proof.
  unfold handle_history_request. apply inv_gets_bind. intros w [Hh _].
  destruct (HP _ Hh) as [->|Hall]; [hist_leaf|].
  destruct (hp_active _); [hist_leaf|]. unfold handle_history_since_seq.
  assert (forall f, inv pending (mod_hist f)) as Hm by (intros f; by apply pending_mod_hist).
  inv_tac ltac:(first [apply Hm | hist_leaf]).
Qed.
#[local] Hint Resolve handle_history_request_pending : broker.

Lemma handle_client_message_pending k msg : inv pending (handle_client_message k msg).
Proof. unfold handle_client_message, with_client, dispatch. inv_tac hist_leaf. Qed.
#[local] Hint Resolve handle_client_message_pending : broker.
Lemma client_input_pending fuel k reads : inv pending (client_input fuel k reads).
Proof. revert reads. induction fuel; intros reads; cbn [client_input]; inv_tac hist_leaf. Qed.
Lemma flush_client_queues_pending fuel i : inv pending (flush_client_queues fuel i).
Proof. revert i. induction fuel; intros i; cbn [flush_client_queues]; inv_tac hist_leaf. Qed.
#[local] Hint Resolve client_input_pending flush_client_queues_pending : broker.
Lemma process_event_pending e : inv pending (process_event e).
Proof. destruct e; cbn [process_event]; inv_tac hist_leaf. Qed.
#[local] Hint Resolve process_event_pending : broker.

(** A turn behind the encoding. *)
Definition turn_after (events : list loop_event) (gone : nat -> bool) : M unit :=
  attempt_reconnect ;;
  check_connect_timeout ;;
  for_each process_event events ;;
  pending ← any_client_write_pending;
  cs ← gets b_clients;
  when pending (flush_client_queues (length cs) 0) ;;
  housekeeping gone.

Lemma turn_after_pending events gone : inv pending (turn_after events gone).
Proof. unfold turn_after. inv_tac hist_leaf. Qed.
End pending.

(** A turn before it. *)
Definition turn_before : M unit :=
  b ← ask; when (0 <? eng_count (b_expect b))%nat process_expect_results.

Lemma turn_split_at_events events gone w :
  run (loop_turn events gone) w = run (turn_after events gone) (run process_history_pending (run turn_before w)).
Proof. unfold loop_turn, turn_before, turn_after. by rewrite !run_ask, !run_bind. Qed.

Definition id_view (b : sm_broker) (l : link_state) := (b_hist b, map cident (b_clients b)).
#[local] Instance id_view_clients : ClientView id_view.
Proof. intros b l cs E1. unfold id_view. cbn. by rewrite E1. Qed.

Lemma turn_before_keeps : keeps id_view any_event turn_before.
Proof. unfold turn_before. keeps_tac. Qed.

(** The key of the client an identifier names. *)
Definition key_of (id : string) (w : world) : option nat := option_map cl_key (find_id id (b_clients (w_b w))).

Lemma find_id_cident id l l' : map cident l' = map cident l ->
  option_map cl_key (find_id id l') = option_map cl_key (find_id id l).
Proof.
  revert l'. induction l as [|c l IH]; intros [|c' l']; cbn [map]; intros H; try done.
  injection H as H1 H2 H3 H4 H5 H6 Hl. unfold find_id. cbn [List.find]. rewrite H2.
  destruct (streq (cl_id c) id); [by cbn; rewrite H1|]. by apply IH.
Qed.

Lemma turn_after_grows events gone w : grows any_event w (run (turn_after events gone) w).
Proof. apply (turn_after_pending (fun _ => True) w); [by right|]. by split. Qed.
Lemma turn_after_hist events gone w :
  hp_active (b_hist (w_b w)) = true ->
  b_hist (w_b (run (turn_after events gone) w)) = b_hist (w_b w) /\ grows any_event w (run (turn_after events gone) w).
Proof.
  intros Ha. apply (turn_after_pending (fun h => h = b_hist (w_b w)) w); [by left; subst|]. by split.
Qed.

(** The client is there at the start of every turn. *)
Definition stays (id : string) (k : nat) (turns : list (list loop_event * (nat -> bool))) (w : world) : Prop :=
  forall n, (n < length turns)%nat -> key_of id (run (all_turns (take n turns)) w) = Some k.

Lemma run_all_turns_cons t ts w :
  run (all_turns (t :: ts)) w = run (all_turns ts) (run (loop_turn (fst t) (snd t)) w).
Proof. change (all_turns (t :: ts)) with (loop_turn (fst t) (snd t) ;; all_turns ts). apply run_bind. Qed.

(** [resp] was sent to [k] after [w]. *)
Definition sent_since (w w' : world) (k : nat) (resp : json) : Prop :=
  exists before after, w_trace w' = w_trace w ++ before ++ EvSend k resp :: after.

Lemma history_turns_complete n ts w k :
  let h := b_hist (w_b w) in
  hp_active h = true -> hp_ok h -> stays (hp_client_id h) k ts w ->
  (length (hp_chunks h) - hp_index h <= S n)%nat -> (S n <= length ts)%nat ->
  exists m resp, (m <= S n)%nat /\ settles resp h /\ sent_since w (run (all_turns (take m ts)) w) k resp.
Proof.
  revert ts w. induction n as [|n IH]; intros ts w h Hact Hok Hst Hn Hlen;
    (destruct ts as [|[events gone] ts]; [simpl in Hlen; lia|]);
    pose proof (Hst 0%nat ltac:(simpl; lia)) as Hk; cbn [take] in Hk;
    destruct (turn_before_keeps w) as [[= Eh Ec] (t1 & Et1 & _)];
    set (w1 := run turn_before w) in *;
    set (h' := encode_loop SM_HISTORY_ENCODE_MAX_CHUNKS 0 h);
    destruct (encode_loop_ok SM_HISTORY_ENCODE_MAX_CHUNKS 0 h Hok) as (Hok' & Hi & Hch & Hpay);
    destruct (encode_loop_meta SM_HISTORY_ENCODE_MAX_CHUNKS 0 h) as (M1 & M2 & M3 & M4 & M5 & M6 & M7 & M8);
    fold h' in Hok', Hi, Hch, Hpay, M1, M2, M3, M4, M5, M6, M7, M8;
    assert (Hprog : (hp_index h < length (hp_chunks h))%nat -> (hp_index h < hp_index h')%nat)
      by (intros Hlt; by apply (encode_loop_progress 3));
    (destruct (Nat.lt_ge_cases (hp_index h') (length (hp_chunks h'))) as [Hmore|Hdone];
     [|exists 1%nat, (history_response h'); split; [lia|]; split;
       [exists h'; split_and!; [done..|]; intros T V HV; by apply HV|];
       unfold sent_since; cbn [take]; rewrite run_all_turns_cons; cbn [fst snd]; rewrite turn_split_at_events; fold w1;
       unfold key_of in Hk; change (run (all_turns []) w) with w in Hk;
       rewrite <- (find_id_cident _ _ _ Ec), <- M1 in Hk;
       destruct (find_id (hp_client_id h') (b_clients (w_b w1))) as [c|] eqn:Hc; [|done];
       injection Hk as <-;
       destruct (process_history_last w1 c) as [_ Htr]; [by rewrite Eh|by rewrite Eh|by rewrite Eh|];
       destruct (turn_after_grows events gone (run process_history_pending w1)) as (t2 & Et2 & _);
       exists t1, t2; change (run (all_turns (take 0 ts)) ?x) with x;
       rewrite Et2, Htr, Et1, Eh; by rewrite <- !app_assoc]).
  - exfalso. rewrite Hch in Hmore. specialize (Hprog ltac:(lia)). lia.
  - assert (Hmore1 : run process_history_pending w1 = {| w1 with w_b := {| (w_b w1) with b_hist := h' |} |}).
    { rewrite (process_history_more w1); [by rewrite Eh|by rewrite Eh|by rewrite Eh]. }
    destruct (turn_after_hist events gone (run process_history_pending w1)) as [Eh3 (t2 & Et2 & _)];
      [rewrite Hmore1; cbn [w_b b_hist]; by rewrite M3|].
    rewrite Hmore1 in Eh3 at 2. cbn [w_b b_hist] in Eh3.
    set (w3 := run (turn_after events gone) (run process_history_pending w1)) in *.
    assert (E3 : run (loop_turn events gone) w = w3) by apply turn_split_at_events.
    destruct (IH ts w3) as (m & resp & Hm & Hans & before & after & Htr).
    + by rewrite Eh3, M3.
    + by rewrite Eh3.
    + rewrite Eh3, M1. intros j Hj. specialize (Hst (S j) ltac:(simpl; lia)). cbn [take] in Hst.
      rewrite run_all_turns_cons in Hst. cbn [fst snd] in Hst. by rewrite E3 in Hst.
    + rewrite Eh3, Hch. rewrite Hch in Hmore. specialize (Hprog ltac:(lia)). lia.
    + simpl in Hlen. lia.
    + exists (S m), resp. split; [lia|]. rewrite Eh3 in Hans. split.
      * destruct Hans as (h2 & -> & Hd2 & Hv2). exists h2. split_and!; [done..|].
        intros T V HV. rewrite (Hv2 T V HV). by apply HV.
      * exists (t1 ++ t2 ++ before), after. cbn [take]. rewrite run_all_turns_cons. cbn [fst snd].
        rewrite E3, Htr, Et2, Hmore1. cbn [w_trace]. rewrite Et1. by rewrite <- !app_assoc.
Qed.

Lemma history_response_members h :
  hp_has_cursor h = true ->
  get_item (history_response h) "chunks" = Some (JArr (hp_arr h)) /\
  sm_json_get_double (history_response h) "cursor" 0 = hp_cursor h /\
  sm_json_get_double (history_response h) "dropped" 0 = hp_dropped h /\
  sm_json_get_bool (history_response h) "has_more" false = hp_has_more h.
Proof. intros Hc. unfold history_response. rewrite Hc. by destruct (hp_truncated h). Qed.

Lemma clamp_page_range m : 0 < clamp_page m <= SM_MAX_HISTORY_RESPONSE_BYTES.
Proof.
  unfold clamp_page, SM_MAX_HISTORY_RESPONSE_BYTES.
  destruct (Z.leb_spec m 0); [simpl; lia|]. destruct (Z.ltb_spec 524288 m); lia.
Qed.

Lemma map_c_data_own l : map c_data (map own_chunk l) = map c_data l.
Proof. rewrite map_map. by apply map_ext. Qed.

Lemma all_bytes_mjoin (l : list sm_rb_chunk) :
  all_bytes (mjoin (map c_data l)) -> Forall (fun c => all_bytes (c_data c)) l.
Proof.
  induction l as [|c l IH]; [constructor|]. simpl map. cbn [mjoin list_join].
  intros [H1 H2]%Forall_app. constructor; auto.
Qed.

(** The pending request that a page becomes. *)
Definition page_pending (c : sm_client) (id : option string) (max : Z) (p : seq_page) : history_pending :=
  mk_hist true (snprintf_s 32 (cl_id c)) (snprintf_s 64 (default "" id))
    (map own_chunk (pg_chunks p)) 0 [] false true
    (dbl_of_int (pg_cursor p)) (dbl_of_int (pg_dropped p)) (pg_has_more p) (pg_first_skip p) max 0.

(** A page that is not empty is a run of retained chunks. *)
Lemma page_run since max rb stream :
  rb_refines rb stream -> 0 <= max ->
  let p := sm_rb_get_since_seq true rb since max in
  pg_chunks p <> [] ->
  exists l1 ch cs l2, pg_chunks p = ch :: cs /\ rb_view rb = l1 ++ (ch :: cs) ++ l2 /\
    0 <= pg_first_skip p < c_len ch.
Proof.
  intros Href Hm p Hne.
  destruct (Z.lt_ge_cases (Z.max since (rb_first_seq rb)) (rb_total_seq rb)) as [Hw|Hge].
  - destruct (since_seq_nonempty rb stream since max Href Hm Hw)
      as (l1 & ch & l2 & k & Hv & Hk & _ & Hskip & _ & Hp). fold p in Hp. rewrite Hp.
    destruct k as [|k]; [lia|]. exists l1, ch, (take k l2), (drop k l2). simpl.
    by rewrite take_drop.
  - destruct Hne. unfold p, sm_rb_get_since_seq.
    destruct (Z.leb_spec (rb_total_seq rb) (if since <? rb_first_seq rb then rb_first_seq rb else since));
      [by rewrite orb_true_r|]. destruct (Z.ltb_spec since (rb_first_seq rb)); lia.
Qed.

Lemma page_pending_ok c id max since rb stream :
  rb_refines rb stream -> all_bytes stream -> 0 < max <= SM_MAX_HISTORY_RESPONSE_BYTES ->
  let p := sm_rb_get_since_seq true rb since max in
  pg_chunks p <> [] ->
  hp_ok (page_pending c id max p) /\ hp_rest (page_pending c id max p) = page_bytes max p /\
  (length (pg_chunks p) <= rb_count rb)%nat.
Proof.
  intros Href Hb Hm p Hne.
  destruct (page_run since max rb stream Href ltac:(lia) Hne) as (l1 & ch & cs & l2 & Hpc & Hv & Hskip).
  fold p in Hpc, Hskip.
  assert (all_bytes (rb_content rb)) as Hcb.
  { destruct (rb_content_stream rb stream Href) as [-> _]. by apply Forall_zdrop. }
  apply all_bytes_mjoin in Hcb. rewrite Hv in Hcb. apply Forall_app in Hcb as [_ [Hcb _]%Forall_app].
  split_and!.
  - split; cbn [page_pending hp_index hp_chunks hp_page_bytes hp_bytes_encoded hp_first_skip]; try lia.
    + apply Forall_map. by rewrite Hpc.
    + rewrite Hpc. split; [lia|]. intros c0 [= <-]. unfold own_chunk, c_len in *. simpl in *. lia.
  - unfold hp_rest, hp_skip, page_bytes. cbn [page_pending hp_index hp_chunks hp_page_bytes hp_bytes_encoded
      hp_first_skip Nat.eqb]. rewrite drop_0, map_c_data_own, Z.sub_0_r. done.
  - rewrite <- rb_view_length, Hv, Hpc, !length_app. lia.
Qed.

(** A cursor request either answers at once or leaves a pending page. *)
Lemma history_request_pending w k c root d :
  (forall n z, env_alloc n z = true) ->
  hp_active (b_hist (w_b w)) = false -> get_item root "since_seq" = Some (JNum d) -> 0 <= d ->
  let max := clamp_page (sm_json_get_int root "max_bytes" 0) in
  let id := sm_json_get_string root "id" in
  let p := sm_rb_get_since_seq true (b_history (w_b w)) (Z.quot d one_s) max in
  let w' := run (handle_history_request k c root) w in
  if (length (pg_chunks p) =? 0)%nat then
    w_trace w' = w_trace w ++ [EvSend k (sm_msg_history_response (Some (default "" id)) None
      |> add_int "cursor" (pg_cursor p) |> add_int "dropped" (pg_dropped p)
      |> add_bool "has_more" (pg_has_more p))]
  else b_hist (w_b w') = page_pending c id max p /\ b_clients (w_b w') = b_clients (w_b w) /\
       w_trace w' = w_trace w.
Proof.
  intros Hal Hact Hseq Hd max id p w'. unfold w', handle_history_request.
  rewrite run_gets, Hact, Hseq. unfold handle_history_since_seq. destruct (Z.ltb_spec d 0); [lia|].
  fold max. rewrite run_alloc by done. rewrite run_gets. cbn [w_b]. fold p.
  destruct (length (pg_chunks p) =? 0)%nat; [done|]. by rewrite run_alloc.
Qed.

(** The page of a request that is not empty is sent within a turn per chunk,
    whatever else happens in these turns. *)
Lemma history_request_settles w k c root d stream ts :
  (forall n z, env_alloc n z = true) -> rb_refines (b_history (w_b w)) stream -> all_bytes stream ->
  hp_active (b_hist (w_b w)) = false -> get_item root "since_seq" = Some (JNum d) -> 0 <= d ->
  (String.length (cl_id c) < 32)%nat ->
  let w1 := run (handle_history_request k c root) w in
  stays (cl_id c) k ts w1 -> (rb_count (b_history (w_b w)) <= length ts)%nat ->
  let max := clamp_page (sm_json_get_int root "max_bytes" 0) in
  let p := sm_rb_get_since_seq true (b_history (w_b w)) (Z.quot d one_s) max in
  pg_chunks p <> [] ->
  exists n resp, (n <= rb_count (b_history (w_b w)))%nat /\
    sent_since w (run (all_turns (take n ts)) w1) k resp /\
    settles resp (page_pending c (sm_json_get_string root "id") max p).
Proof.
  intros Hal Href Hb Hact Hseq Hd Hlen w1 Hst Hts max p Hne.
  pose proof (clamp_page_range (sm_json_get_int root "max_bytes" 0)) as Hmax. fold max in Hmax.
  pose proof (history_request_pending w k c root d Hal Hact Hseq Hd) as Hreq. cbv zeta in Hreq. fold max p in Hreq.
  destruct (page_pending_ok c (sm_json_get_string root "id") max (Z.quot d one_s) _ stream Href Hb Hmax Hne)
    as (Hok & _ & Hcnt). fold p in Hok, Hcnt.
  destruct (pg_chunks p) as [|c0 cs] eqn:Hpc; [done|]. cbn [length Nat.eqb] in Hreq.
  destruct Hreq as (Hh & Hcl & Htr).
  simpl in Hcnt. fold w1 in Hh, Hcl, Htr.
  destruct (history_turns_complete (length cs) ts w1 k) as (n & resp & Hn & Hans & before & after & Hsent);
    [by rewrite Hh|by rewrite Hh| | |lia|].
  { rewrite Hh. cbn [hp_client_id page_pending]. by rewrite snprintf_s_short. }
  { rewrite Hh. cbn [hp_chunks page_pending hp_index]. rewrite Hpc, length_map. simpl. lia. }
  exists n, resp. rewrite Hh in Hans. split_and!; [lia| |done].
  exists before, after. by rewrite Hsent, Htr.
Qed.

End history.

(** ** Device output *)

Definition is_output (msg : json) : bool :=
  match sm_json_get_string msg "type" with Some t => streq t "output" | None => false end.

(** The device bytes that a stretch of the trace sends to client [k]. *)
Definition output_of (k : nat) (e : event) : bytes :=
  match e with
  | EvSend k' msg => if (k' =? k)%nat && is_output msg then default [] (payload msg "data") else []
  | _ => []
  end.
Definition outputs (k : nat) (t : list event) : bytes := mjoin (map (output_of k) t).

Definition no_output (e : event) : Prop :=
  match e with EvSend _ msg => is_output msg = false | _ => True end.

Lemma outputs_app k t1 t2 : outputs k (t1 ++ t2) = outputs k t1 ++ outputs k t2.
Proof. unfold outputs. by rewrite map_app, mjoin_app. Qed.

Lemma outputs_none k t : Forall no_output t -> outputs k t = [].
Proof.
  induction 1 as [|e t He _ IH]; [done|]. change (outputs k ([e] ++ t) = []).
  rewrite outputs_app, IH, app_nil_r. destruct e; try done. simpl in He. unfold outputs. simpl.
  by rewrite He, andb_false_r.
Qed.

Lemma expect_result_not_output id m data p a reason pat :
  is_output (sm_msg_expect_result_ex id m data p a reason pat) = false.
Proof.
  unfold sm_msg_expect_result_ex, add_nonempty. cbv zeta.
  destruct (SM_MAX_EXPECT_RESULT_BYTES <? _), a; try reflexivity;
    destruct (streq reason ""), (streq pat ""); reflexivity.
Qed.

Section output.
Context {L : LinkOps} {E : SystemEnv} {J : JsonText} {R : RegexLib}.

(** Clients, history and pool are as in [w0], and no device output was sent
    since. *)
Definition still (w0 w : world) : Prop :=
  map cident (b_clients (w_b w)) = map cident (b_clients (w_b w0)) /\
  b_history (w_b w) = b_history (w_b w0) /\ w_pool w = w_pool w0 /\ grows no_output w0 w.

#[local] Instance still_preorder : PreOrder still.
Proof.
  split; [intros w; by split_and!|].
  intros w1 w2 w3 (A1 & B1 & C1 & G1) (A2 & B2 & C2 & G2). split_and!; [congruence..|by etrans].
Qed.

Section leaves.
Context (w0 : world).

Lemma still_step {A} (m : M A) : (forall w, still w (run m w)) -> inv (still w0) m.
Proof. intros Hm w Hw. by etrans. Qed.

Lemma still_emit e : no_output e -> inv (still w0) (emit e).
Proof.
  intros He. apply still_step. intros w. split_and!; try done. exists [e]. split; [done|]. by constructor.
Qed.
Lemma still_send k msg : is_output msg = false -> inv (still w0) (send_to_client k msg).
Proof.
  intros Hm. apply still_step. intros w. split_and!; [by apply map_cident_upd|done..|].
  exists [EvSend k msg]. split; [done|]. by constructor.
Qed.
Lemma still_broadcast msg ex : is_output msg = false -> inv (still w0) (broadcast msg ex).
Proof.
  intros Hm. apply still_step. intros w. unfold broadcast, run.
  destruct (sm_shared_line_new (w_heap w)) as [id h].
  pose proof (broadcast_loop_spec id (sm_msg_encode msg) ex (b_clients (w_b w)) h) as Hb.
  destruct (broadcast_loop _ _ _ _ _) as [[cs h'] to]. destruct Hb as [Hcs _].
  split_and!; [done..|]. eexists. split; [done|]. apply Forall_map, Forall_true. by intros k.
Qed.
Lemma still_link_call {A} e (f : link_state -> A * link_state) :
  no_output e -> inv (still w0) (link_call e f).
Proof.
  intros He. apply still_step. intros w. unfold link_call, run. destruct (f (w_link w)) as [x l].
  split_and!; try done. exists [e]. split; [done|]. by constructor.
Qed.
Lemma still_modify f :
  (forall b, b_clients (f b) = b_clients b /\ b_history (f b) = b_history b) -> inv (still w0) (modify f).
Proof.
  intros Hf. apply still_step. intros w. destruct (Hf (w_b w)) as [H1 H2].
  split_and!; simpl; [by rewrite H1|done..|by apply grows_nil].
Qed.
Lemma still_query {A} (f : nat -> A) : inv (still w0) (query f).
Proof. apply still_step. intros w. split_and!; try done. by apply grows_nil. Qed.
Lemma still_gets {A} (f : sm_broker -> A) : inv (still w0) (gets f).
Proof. by intros w. Qed.
Lemma still_for_each_i {A} (f : nat -> A -> M unit) i l :
  (forall i x, inv (still w0) (f i x)) -> inv (still w0) (for_each_i f i l).
Proof. intros Hf. revert i. induction l; intros i; simpl; [by intros w|]. by apply inv_bind. Qed.
End leaves.

Ltac not_output :=
  lazymatch goal with
  | |- is_output (match ?c with _ => _ end) = _ => destruct c; not_output
  | |- is_output ?m = _ =>
      let h := head_of m in
      first [reflexivity | apply expect_result_not_output | unfold h; repeat case_match; reflexivity]
  end.
Ltac still_leaf := idtac;
  lazymatch goal with
  | |- inv _ (emit _) => apply still_emit; exact Logic.I
  | |- inv _ (send_to_client _ _) => apply still_send; not_output
  | |- inv _ (broadcast _ _) => apply still_broadcast; not_output
  | |- inv _ (link_call _ _) => apply still_link_call; exact Logic.I
  | |- inv _ (modify _) => apply still_modify; intros; split; reflexivity
  | |- inv _ (query _) => apply still_query
  | |- inv _ (gets _) => apply still_gets
  end.
Ltac still_tac :=
  repeat first [inv_step still_leaf | apply still_for_each_i; intros ? ?].

Lemma flood_feed_still w0 buf : inv (still w0) (flood_feed buf).
Proof. still_tac. Qed.
Lemma chunk_anomalies_still w0 buf ts : inv (still w0) (chunk_anomalies buf ts).
Proof. still_tac. Qed.
Lemma chunk_boot_still w0 buf ts : inv (still w0) (chunk_boot buf ts).
Proof. still_tac. Qed.
Lemma chunk_autoresponder_still w0 buf ts : inv (still w0) (chunk_autoresponder buf ts).
Proof. still_tac. Qed.
(** ** Bytes stored in the history and bytes sent to the clients *)

Definition ikey (i : nat * string * string * string * bool * bool) : nat := i.1.1.1.1.1.
Definition ihello (i : nat * string * string * string * bool * bool) : bool := i.1.2.

Record moved (st se : bytes) (w w' : world) : Prop := {
  mv_clients : map cident (b_clients (w_b w')) = map cident (b_clients (w_b w));
  mv_history : forall stream, rb_refines (b_history (w_b w)) stream -> pool_ok (w_pool w) ->
    rb_refines (b_history (w_b w')) (stream ++ st) /\ pool_ok (w_pool w');
  mv_sent : exists t, w_trace w' = w_trace w ++ t /\
    (NoDup (map ikey (map cident (b_clients (w_b w)))) ->
     forall i, In i (map cident (b_clients (w_b w))) ->
       outputs (ikey i) t = if ihello i then se else []) }.
Definition carries {A} (st se : bytes) (m : M A) : Prop := forall w, moved st se w (run m w).

Lemma moved_trans s1 s2 t1 t2 w1 w2 w3 :
  moved s1 t1 w1 w2 -> moved s2 t2 w2 w3 -> moved (s1 ++ s2) (t1 ++ t2) w1 w3.
Proof.
  intros [C1 H1 (l1 & E1 & S1)] [C2 H2 (l2 & E2 & S2)]. split.
  - congruence.
  - intros stream Hr Hp. destruct (H1 stream Hr Hp) as [Hr' Hp']. rewrite app_assoc. by apply H2.
  - exists (l1 ++ l2). split; [by rewrite E2, E1, app_assoc|]. intros Hnd i Hi.
    rewrite C1 in S2. rewrite outputs_app, S1, S2 by done. by destruct (ihello i).
Qed.

Lemma moves_bind {A B} s1 s2 t1 t2 (m : M A) (k : A -> M B) :
  carries s1 t1 m -> (forall x, carries s2 t2 (k x)) -> carries (s1 ++ s2) (t1 ++ t2) (m ≫= k).
Proof. intros Hm Hk w. rewrite run_bind. by eapply moved_trans; [apply Hm|apply Hk]. Qed.

Lemma moves_still {A} (m : M A) : (forall w0, inv (still w0) m) -> carries [] [] m.
Proof.
  intros Hm w. destruct (Hm w w) as (C & H & P & t & Et & Ft); [done|]. split; [done| |].
  - intros stream. rewrite H, P, app_nil_r. done.
  - exists t. split; [done|]. intros _ i _. rewrite outputs_none by done. by destruct (ihello i).
Qed.

Lemma moves_after {A B} st se (m : M A) (k : A -> M B) :
  (forall w0, inv (still w0) m) -> (forall x, carries st se (k x)) -> carries st se (m ≫= k).
Proof. intros Hm Hk. by apply (moves_bind [] st [] se); [apply moves_still|]. Qed.
Lemma moves_before {A B} st se (m : M A) (k : A -> M B) :
  carries st se m -> (forall x w0, inv (still w0) (k x)) -> carries st se (m ≫= k).
Proof.
  intros Hm Hk. rewrite <- (app_nil_r st), <- (app_nil_r se).
  apply moves_bind; [done|]. intros x. by apply moves_still.
Qed.

(** The clients a broadcast without exclusion reaches. *)
Definition listeners (l : list sm_client) : list nat := map cl_key (List.filter cl_hello l).

Lemma listeners_filter l :
  map cl_key (List.filter
    (fun c => negb (bool_decide (None = Some (cl_key c)) || negb (cl_hello c))) l) = listeners l.
Proof. unfold listeners. f_equal. apply List.filter_ext. intros c. simpl. apply negb_involutive. Qed.

Section one_message.
Context (msg : json) (d : bytes) (Hd : payload msg "data" = Some d) (Ho : is_output msg = true).

Lemma outputs_send k k' t :
  outputs k (EvSend k' msg :: t) = (if (k' =? k)%nat then d else []) ++ outputs k t.
Proof. unfold outputs. simpl. rewrite Ho, Hd, andb_true_r. by destruct (k' =? k)%nat. Qed.

Lemma outputs_stranger k l :
  ~ In k (map ikey (map cident l)) -> outputs k (map (fun k => EvSend k msg) (listeners l)) = [].
Proof.
  induction l as [|c l IH]; intros Hk; [done|]. cbn [map In] in Hk.
  unfold listeners. simpl. destruct (cl_hello c); [|by apply IH; tauto].
  simpl map. fold (listeners l). rewrite outputs_send, IH by tauto.
  destruct (Nat.eqb_spec (cl_key c) k) as [<-|]; [|done]. destruct Hk. by left.
Qed.

Lemma outputs_listener l i :
  NoDup (map ikey (map cident l)) -> In i (map cident l) ->
  outputs (ikey i) (map (fun k => EvSend k msg) (listeners l)) = if ihello i then d else [].
Proof.
  induction l as [|c l IH]; intros Hnd Hi; [done|]. cbn [map] in Hnd, Hi.
  apply NoDup_cons in Hnd as [Hc Hnd]. rewrite list_elem_of_In in Hc.
  unfold listeners. simpl. destruct Hi as [<-|Hi].
  - change (ihello (cident c)) with (cl_hello c). destruct (cl_hello c); [|by apply outputs_stranger].
    simpl map. fold (listeners l). rewrite outputs_send. change (ikey (cident c)) with (cl_key c) in *.
    rewrite Nat.eqb_refl, outputs_stranger by done. apply app_nil_r.
  - destruct (cl_hello c); [|by apply IH]. simpl map. fold (listeners l). rewrite outputs_send.
    destruct (Nat.eqb_spec (cl_key c) (ikey i)) as [He|]; [|by apply IH].
    destruct Hc. apply in_map_iff. by exists i.
Qed.

Lemma moves_broadcast : carries [] d (broadcast msg None).
Proof.
  intros w. unfold broadcast, run. destruct (sm_shared_line_new (w_heap w)) as [id h].
  pose proof (broadcast_loop_spec id (sm_msg_encode msg) None (b_clients (w_b w)) h) as Hb.
  destruct (broadcast_loop _ _ _ _ _) as [[cs h'] to]. destruct Hb as [Hcs ->]. split; simpl.
  - done.
  - intros stream. by rewrite app_nil_r.
  - eexists. split; [done|]. intros Hnd i Hi. rewrite listeners_filter. by apply outputs_listener.
Qed.
End one_message.

Section delivery.
Context (Hal : forall n z, env_alloc n z = true).

Lemma moves_rb_append data ts : carries data [] (rb_append data ts).
Proof.
  intros w. unfold rb_append. rewrite !run_alloc by done. unfold update, run.
  split; simpl; destruct (sm_rb_append _ _ _ _ _) as [[rb pool] stored] eqn:Ha; simpl; [done| |].
  - intros stream Hr Hp. pose proof (rb_append_spec (mk_ok true true true) _ _ stream data ts Hr Hp) as H.
    rewrite Ha in H. destruct H as (H1 & H2 & _ & _ & H3). by rewrite H3 in H1.
  - exists []. rewrite app_nil_r. split; [done|]. intros _ i _. by destruct (ihello i).
Qed.

Lemma chunk_output_moves buf ts : all_bytes buf -> carries buf buf (chunk_output buf ts).
Proof.
  intros Hb. unfold chunk_output.
  rewrite <- (app_nil_r buf) at 1. rewrite <- (app_nil_l buf) at 2.
  apply moves_bind; [apply moves_rb_append|intros _].
  repeat (apply moves_after; [intros w0; still_tac|intros ?]).
  apply moves_broadcast; [|done]. by apply payload_string.
Qed.

Lemma process_link_chunk_moves buf ts : all_bytes buf -> carries buf buf (process_link_chunk buf ts).
Proof.
  intros Hb. unfold process_link_chunk. do 3 (apply moves_after; [intros w0; still_tac|intros ?]).
  apply moves_before; [by apply chunk_output_moves|]. intros _ w0. still_tac.
Qed.

Context (Hfilter : link_filter_rx = None).

(** What a drain of the link reads. *)
Fixpoint drained (max_reads : nat) (env : list dres) : bytes :=
  match max_reads, env with
  | S n, DBytes b :: env' =>
      match ztake SM_LINK_DRAIN_CHUNK b with [] => [] | b' => b' ++ drained n env' end
  | S n, DZero avail :: env' => if 0 <? avail then drained n env' else []
  | _, _ => []
  end.

Lemma link_drain_chunk_moves buf : all_bytes buf -> carries buf buf (link_drain_chunk buf).
Proof.
  intros Hb. unfold link_drain_chunk. rewrite Hfilter.
  do 3 (apply moves_after; [intros w0; still_tac|intros ?]). by apply process_link_chunk_moves.
Qed.

Lemma drain_moves n first env :
  all_bytes (drained n env) ->
  carries (drained n env) (drained n env) (drain_link_fd n first env link_drain_chunk).
Proof.
  revert first env. induction n as [|n IH]; intros first [|r env]; cbn [drained drain_link_fd];
    try (intros _; apply moves_still; intros w0; still_tac).
  destruct r as [b|avail| | |]; try (intros _; apply moves_still; intros w0; still_tac).
  - destruct (ztake _ b) as [|x b']; [intros _; apply moves_still; intros w0; still_tac|].
    intros [H1 H2]%Forall_app. apply moves_bind; [by apply link_drain_chunk_moves|]. intros _. by apply IH.
  - destruct (0 <? avail); [apply IH|]. intros _; apply moves_still; intros w0; still_tac.
Qed.
End delivery.

End output.

(** ** Runs *)

(** A broker that has recorded three bytes; the controller asks for the history
    behind the first. *)
Definition demo_recorded : @world (demo_link false) :=
  @init_world (demo_link false)
    {| demo_broker with b_history := fst (rb_appends 100 [([104; 105], 1); ([33], 2)]) |}
    (mk_demo true []).
Definition demo_request : json :=
  make_msg "history_request" |> add_string "id" "h" |> add_int "since_seq" 1.

(** Two turns: a device byte arrives, then a client knocks. *)
Definition demo_busy_turns : list (list loop_event * (nat -> bool)) :=
  [([LeLink (mk_ev true false false) [DBytes [35]; DAgain]], fun _ => false);
   ([LeListen (Some 300)], fun _ => false)].


