(* ===== verification/BrokerVtable.v ===== *)
(** The broker with each of the links in the place of the abstract one. *)

(** * The broker over a concrete link

    The broker reaches its link through the vtable only.  So what every entry
    of a vtable preserves holds of the link in every execution
    ([link_preserved]), and a link whose receive filter decodes a protocol
    ([LinkDecoder]) has its decoded stream recorded and delivered. *)
From S2P Require Import Prelude Arrays Codecs RingBuffer Json CJson Protocol Regex Expect BootStage.
From S2P Require Import Autoresponder Anomaly Effects LinkWq Client BrokerState SerialTcp GdbLink Uart BrokerOps.
From S2P Require Import BrokerLink BrokerHandlers BrokerLoop BrokerDemo BrokerFrame BrokerDevice BrokerStream.

#[local] Open Scope string_scope.
#[local] Open Scope list_scope.
#[local] Open Scope Z_scope.

(** ** What every vtable entry preserves *)

(** A property of the link that each of its operations preserves, setting a
    parameter the broker never sets excepted. *)
Class LinkInvariant {L : LinkOps} (P : link_state -> Prop) : Prop := {
  li_open l : P l -> P (snd (link_open l));
  li_close l : P l -> P (link_close l);
  li_write data l : P l -> P (snd (link_write_data data l));
  li_flush f l : link_flush_write_queue = Some f -> P l -> P (snd (f l));
  li_break ms l : P l -> P (snd (link_send_break ms l));
  li_param key value l : line_pin key \/ key = "baud" -> P l -> P (snd (link_set_param key value l));
  li_begin f l : link_connect_begin = Some f -> P l -> P (snd (f l));
  li_poll f l : link_connect_poll = Some f -> P l -> P (snd (f l));
  li_filter f buf l : link_filter_rx = Some f -> P l -> P (snd (f buf l)) }.

Section link_walk.
Context {L : LinkOps} {E : SystemEnv} {J : JsonText} {R : RegexLib}.
Context (Q : event -> Prop) (P : link_state -> Prop).

(** [P] holds of the link if the trace is as [Q] says. *)
Definition on_link (w : world) : Prop := Forall Q (w_trace w) -> P (w_link w).

Lemma on_link_same {A} (m : M A) :
  (forall w, w_link (run m w) = w_link w /\ exists t, w_trace (run m w) = w_trace w ++ t) ->
  inv on_link m.
Proof.
  intros Hm w. unfold on_link. destruct (Hm w) as [-> [t ->]]. intros Hw [Ht _]%Forall_app. by apply Hw.
Qed.
Lemma on_link_silent {A} (m : M A) :
  (forall w, w_link (run m w) = w_link w /\ w_trace (run m w) = w_trace w) -> inv on_link m.
Proof.
  intros Hm. apply on_link_same. intros w. destruct (Hm w) as [H1 H2]. split; [done|].
  exists []. by rewrite app_nil_r.
Qed.
Lemma on_link_emit e : inv on_link (emit e).
Proof. apply on_link_same. intros w. split; [done|]. by exists [e]. Qed.
Lemma on_link_broadcast msg ex : inv on_link (broadcast msg ex).
Proof.
  apply on_link_same. intros w. unfold broadcast, run.
  destruct (sm_shared_line_new _) as [id h]. destruct (broadcast_loop _ _ _ _ _) as [[cs h'] to].
  split; [done|]. by eexists.
Qed.
Lemma on_link_feed k r : inv on_link (feed_client k r).
Proof.
  apply on_link_silent. intros w. unfold feed_client, run. destruct (find_key k _); [|done].
  by destruct (sm_client_feed _ _ _).
Qed.
Lemma on_link_flush k env : inv on_link (flush_with k env).
Proof.
  apply on_link_silent. intros w. unfold flush_with, run. destruct (find_key k _); [|done].
  by destruct (sm_client_flush _ _ _) as [[[rc io] h] o].
Qed.
Lemma on_link_remove k : inv on_link (remove_client k).
Proof.
  apply on_link_same. intros w. unfold remove_client, run.
  assert (exists t, w_trace w = w_trace w ++ t) by (exists []; by rewrite app_nil_r).
  destruct (find_key k _); [|done]. destruct (key_index k 0 _); [|done]. split; [done|]. by eexists.
Qed.
Lemma on_link_append ok data ts :
  inv on_link (update (fun w =>
    let '(rb, pool, _) := sm_rb_append ok (b_history (w_b w)) (w_pool w) data ts in
    {| w with w_b := {| (w_b w) with b_history := rb |}; w_pool := pool |})).
Proof.
  apply on_link_silent. intros w. unfold update, run. simpl.
  by destruct (sm_rb_append _ _ _ _ _) as [[rb pool] stored].
Qed.
Lemma on_link_for_each_i {A} (f : nat -> A -> M unit) i l :
  (forall i x, inv on_link (f i x)) -> inv on_link (for_each_i f i l).
Proof. intros Hf. revert i. induction l; intros i; simpl; [by intros w|]. by apply inv_bind. Qed.
Lemma on_link_call {A} e (f : link_state -> A * link_state) :
  (forall l, Q e -> P l -> P (snd (f l))) -> inv on_link (link_call e f).
Proof.
  intros Hf w Hw. specialize (Hf (w_link w)). unfold link_call, run, on_link in *.
  destruct (f (w_link w)) as [x l]. intros [Ht He]%Forall_app. apply (proj1 (Forall_singleton _ _)) in He.
  exact (Hf He (Hw Ht)).
Qed.
End link_walk.

(** The walk; [call] closes the vtable calls. *)
Ltac on_link_leaf call := idtac;
  lazymatch goal with
  | |- inv _ (broadcast _ _) => apply on_link_broadcast
  | |- inv _ (link_call _ _) => apply on_link_call; intros ? ? ?; call
  | |- inv _ (feed_client _ _) => apply on_link_feed
  | |- inv _ (flush_with _ _) => apply on_link_flush
  | |- inv _ (remove_client _) => apply on_link_remove
  | |- inv _ (update _) => apply on_link_append
  | |- inv _ (modify _) => apply on_link_silent; intros ?; split; reflexivity
  | |- inv _ (emit _) => apply on_link_emit
  | |- inv _ (query _) => apply on_link_silent; intros ?; split; reflexivity
  | |- inv _ (gets _) => by intros ?
  | |- inv _ link_view => by intros ?
  end.

Section link_invariant.
Context {L : LinkOps} {E : SystemEnv} {J : JsonText} {R : RegexLib}.
Context (P : link_state -> Prop) `{HP : !LinkInvariant P}.

Abbreviation on_vt := (on_link param_ok P) (only parsing).

Lemma on_link_filter f buf : link_filter_rx = Some f -> inv on_vt (filter_call f buf).
Proof.
  intros Hf w Hw. pose proof (li_filter f buf (w_link w) Hf) as H. unfold filter_call, run, on_link in *.
  destruct (f buf (w_link w)). auto.
Qed.

Ltac vt_call := idtac; simpl snd; (* close returns nothing *)
  first [by apply li_write | by apply li_param | by apply li_break | by apply li_open
        | by apply li_close | by eapply li_flush | by eapply li_begin | by eapply li_poll].
Ltac vt_step :=
  lazymatch goal with
  | |- inv _ (match link_filter_rx with _ => _ end) => destruct link_filter_rx eqn:?
  | |- inv _ (match link_flush_write_queue with _ => _ end) => destruct link_flush_write_queue eqn:?
  | |- inv _ (match link_connect_begin with _ => _ end) => destruct link_connect_begin eqn:?
  | |- inv _ (match link_connect_poll with _ => _ end) => destruct link_connect_poll eqn:?
  | |- inv _ (filter_call _ _) => by apply on_link_filter
  | |- inv _ (for_each_i _ _ _) => apply on_link_for_each_i; intros ? ?
  | |- _ => inv_step ltac:(on_link_leaf vt_call)
  end.
Ltac vt_tac := repeat vt_step.

Lemma drain_link_fd_link n first env : inv on_vt (drain_link_fd n first env link_drain_chunk).
Proof.
  revert first env. induction n as [|n IH]; intros first [|[]]; cbn [drain_link_fd]; vt_tac; apply IH.
Qed.
#[local] Hint Resolve drain_link_fd_link : broker.
Lemma process_link_data_link env : inv on_vt (process_link_data env).
Proof.
  intros w Hw. unfold process_link_data, run. destruct (_ <? 0); [done|].
  change (on_vt (run (rc ← drain_link_fd SM_LINK_DRAIN_MAX_READS true env link_drain_chunk;
                         when (rc =? 1) handle_link_disconnect) w)).
  revert w Hw. apply inv_bind; [apply drain_link_fd_link|intros rc]. vt_tac.
Qed.
Lemma replace_loop_link k name i : inv on_vt (replace_loop k name i).
Proof. induction i; cbn [replace_loop]; vt_tac. Qed.
Lemma add_patterns_link items n : inv on_vt (add_patterns items n).
Proof. revert n. induction items; intros n; cbn [add_patterns]; vt_tac; auto. Qed.
#[local] Hint Resolve process_link_data_link replace_loop_link add_patterns_link : broker.
Lemma client_input_link fuel k reads : inv on_vt (client_input fuel k reads).
Proof. revert reads. induction fuel; intros reads; cbn [client_input]; vt_tac. Qed.
Lemma flush_client_queues_link fuel i : inv on_vt (flush_client_queues fuel i).
Proof. revert i. induction fuel; intros i; cbn [flush_client_queues]; vt_tac. Qed.
Lemma drop_stale_link now gone i : inv on_vt (drop_stale now gone i).
Proof. induction i; cbn [drop_stale]; vt_tac. Qed.
#[local] Hint Resolve client_input_link flush_client_queues_link drop_stale_link : broker.

Lemma loop_turn_link events gone : inv on_vt (loop_turn events gone).
Proof. vt_tac. Qed.

Lemma all_turns_reachable turns w : reachable w -> reachable (run (all_turns turns) w).
Proof.
  revert w. induction turns as [|t turns IH]; intros w Hw; [done|].
  change (all_turns (t :: turns)) with (loop_turn (fst t) (snd t) ;; all_turns turns).
  rewrite run_bind. by apply IH, reach_turn.
Qed.

Lemma link_preserved turns w : initial w -> P (w_link w) -> P (w_link (run (all_turns turns) w)).
Proof.
  intros Hi Hw. assert (on_vt (run (all_turns turns) w)) as H.
  { apply (inv_for_each on_vt); [|by intros _]. intros [events gone]. apply loop_turn_link. }
  apply H, dv_params, reachable_device. by apply all_turns_reachable, reach_init.
Qed.
End link_invariant.

(** A broker as it is started, over any link. *)
Lemma fresh_initial `{L : LinkOps} eof port baud (l : link_state) :
  initial (init_world (sm_broker_init eof port baud) l).
Proof. by split. Qed.

(** ** Decoding links *)

(** A link whose filter decodes a protocol: the decoder's state is a part of
    the link's that writing and setting parameters leave alone. *)
Class LinkDecoder (L : LinkOps) := {
  dec_state : Type;
  dec_of : link_state -> dec_state;
  dec_step : bytes -> dec_state -> bytes * dec_state;
  dec_filter : bytes -> link_state -> bytes * link_state;
  dec_entry : link_filter_rx = Some dec_filter;
  dec_filter_ok buf l :
    (fst (dec_filter buf l), dec_of (snd (dec_filter buf l))) = dec_step buf (dec_of l);
  dec_bytes buf s : all_bytes buf -> all_bytes (fst (dec_step buf s));
  dec_write data l : dec_of (snd (link_write_data data l)) = dec_of l;
  dec_param key value l : dec_of (snd (link_set_param key value l)) = dec_of l }.

Section decoded.
Context {L : LinkOps} {D : LinkDecoder L} {E : SystemEnv} {J : JsonText} {R : RegexLib}.

(** The reads of a drain, decoded one after the other. *)
Fixpoint decoded (max_reads : nat) (env : list dres) (s : dec_state) : bytes * dec_state :=
  match max_reads, env with
  | S n, DBytes b :: env' =>
      match ztake SM_LINK_DRAIN_CHUNK b with
      | [] => ([], s)
      | b' => let '(o, s1) := dec_step b' s in let '(o', s2) := decoded n env' s1 in (o ++ o', s2)
      end
  | S n, DZero avail :: env' => if 0 <? avail then decoded n env' s else ([], s)
  | _, _ => ([], s)
  end.

Ltac dec_call := idtac; simpl snd; first [by rewrite dec_write | by rewrite dec_param].
Ltac dec_tac :=
  repeat first [inv_step ltac:(on_link_leaf dec_call) | apply on_link_for_each_i; intros ? ?].

Lemma process_link_chunk_dec s buf ts :
  inv (on_link any_event (fun l => dec_of l = s)) (process_link_chunk buf ts).
Proof. dec_tac. Qed.

Context (Hal : forall n z, env_alloc n z = true).

Lemma moved_same w w' :
  b_clients (w_b w') = b_clients (w_b w) -> b_history (w_b w') = b_history (w_b w) ->
  w_pool w' = w_pool w -> w_trace w' = w_trace w -> moved [] [] w w'.
Proof.
  intros H1 H2 H3 H4. split; rewrite ?H1, ?H2, ?H3, ?H4; [done|intros stream; by rewrite app_nil_r|].
  exists []. split; [by rewrite app_nil_r|]. intros _ i _. by destruct (ihello i).
Qed.

Lemma link_drain_chunk_decoded buf w :
  all_bytes buf -> zlen buf <= SM_LINK_DRAIN_CHUNK ->
  let '(o, s) := dec_step buf (dec_of (w_link w)) in
  moved o o w (run (link_drain_chunk buf) w) /\ dec_of (w_link (run (link_drain_chunk buf) w)) = s.
Proof.
  intros Hb Hl. pose proof (dec_filter_ok buf (w_link w)) as Hf.
  pose proof (dec_bytes buf (dec_of (w_link w)) Hb) as Hob.
  destruct (dec_step buf (dec_of (w_link w))) as [o s]. injection Hf as Ho Hs. simpl in Hob.
  unfold link_drain_chunk. rewrite dec_entry, !run_bind.
  set (ts := result sm_now_realtime w). set (w1 := run (mod_link _) _).
  assert (w_link w1 = w_link w) as Hw1 by done.
  rewrite (ztake_all _ buf Hl). unfold filter_call, run at 1 2 3 4, result. rewrite Hw1.
  destruct (dec_filter buf (w_link w)) as [o' l]. simpl in Ho, Hs |- *. subst o' s.
  set (w2 := {| w1 with w_link := l |}).
  assert (moved [] [] w w2) as Hm2 by (by apply moved_same).
  destruct (Z.ltb_spec 0 (zlen o)) as [Hpos|Hpos]; simpl.
  - pose proof (process_link_chunk_moves Hal o ts Hob w2) as Hm3. split.
    + exact (moved_trans _ _ _ _ _ _ _ Hm2 Hm3).
    + apply (process_link_chunk_dec (dec_of l) o ts w2); [by intros _|]. by apply Forall_true.
  - assert (o = []) as -> by (apply zlen_zero; zlia). by split.
Qed.

Lemma drain_decoded n first env w :
  all_bytes (drained n env) ->
  let '(o, s) := decoded n env (dec_of (w_link w)) in
  let w' := run (drain_link_fd n first env link_drain_chunk) w in
  moved o o w w' /\ dec_of (w_link w') = s.
Proof.
  revert first env w. induction n as [|n IH]; intros first [|r env] w Hb; cbn [decoded drain_link_fd];
    try (split; [by apply moved_same|done]).
  cbn [drained] in Hb. destruct r as [b|avail| | |]; try (split; [by apply moved_same|done]).
  - assert (zlen (ztake SM_LINK_DRAIN_CHUNK b) <= SM_LINK_DRAIN_CHUNK) as Hl
      by (rewrite zlen_ztake; unfold SM_LINK_DRAIN_CHUNK; lia).
    destruct (ztake _ b) as [|x b']; [split; [by apply moved_same|done]|].
    apply Forall_app in Hb as [H1 H2]. rewrite run_bind.
    pose proof (link_drain_chunk_decoded (x :: b') w H1 Hl) as Hc.
    destruct (dec_step (x :: b') _) as [o s]. destruct Hc as [Hm Hs].
    specialize (IH false env (run (link_drain_chunk (x :: b')) w) H2). rewrite Hs in IH.
    destruct (decoded n env s) as [o' s']. destruct IH as [Hm' Hs'].
    split; [by apply (moved_trans _ _ _ _ _ _ _ Hm Hm')|done].
  - destruct (0 <? avail); [by apply IH|]. split; [by apply moved_same|done].
Qed.
End decoded.

(** ** Serial over TCP *)

Section telnet.
Context {T : TcpEnv}.

(** The decoder's part of the link. *)
Definition tn_step (c : Z) (s : telnet_state) : bytes * telnet_state :=
  match s with
  | TS_DATA => if c =? TN_IAC then ([], TS_IAC) else ([c], TS_DATA)
  | TS_IAC =>
      if c =? TN_IAC then ([TN_IAC], TS_DATA)
      else if is_neg c then ([], TS_OPT)
      else if c =? TN_SB then ([], TS_SB) else ([], TS_DATA)
  | TS_OPT => ([], TS_DATA)
  | TS_SB => ([], if c =? TN_IAC then TS_SB_IAC else TS_SB)
  | TS_SB_IAC => ([], if c =? TN_SE then TS_DATA else TS_SB)
  end.
Fixpoint tn_run (input : bytes) (s : telnet_state) : bytes * telnet_state :=
  match input with
  | [] => ([], s)
  | c :: input' =>
      let '(o1, s1) := tn_step c s in let '(o2, s2) := tn_run input' s1 in (o1 ++ o2, s2)
  end.

Lemma tn_step_ok c d :
  (fst (st_filter_byte c d), st_tstate (snd (st_filter_byte c d))) = tn_step c (st_tstate d).
Proof.
  unfold st_filter_byte, tn_step, is_neg. destruct (st_tstate d) eqn:E; repeat case_match; simpl; congruence.
Qed.
Lemma tn_run_ok input d :
  (fst (st_filter_rx input d), st_tstate (snd (st_filter_rx input d))) = tn_run input (st_tstate d).
Proof.
  revert d. induction input as [|c input IH]; intros d; simpl; [done|].
  rewrite <- tn_step_ok. destruct (st_filter_byte c d) as [o1 d1]. simpl. rewrite <- IH.
  by destruct (st_filter_rx input d1) as [o2 d2].
Qed.
Lemma tn_run_bytes input s : all_bytes input -> all_bytes (fst (tn_run input s)).
Proof.
  intros H. revert s. induction H as [|c input Hc _ IH]; intros s; simpl; [constructor|].
  assert (all_bytes (fst (tn_step c s))) as H1.
  { unfold tn_step. destruct s; repeat case_match; simpl;
      first [by apply Forall_nil | by apply Forall_singleton | apply Forall_singleton; unfold is_byte, TN_IAC; lia]. }
  destruct (tn_step c s) as [o1 s1]. specialize (IH s1). destruct (tn_run input s1) as [o2 s2].
  by apply Forall_app.
Qed.
Lemma raw_send_tstate data d : st_tstate (snd (raw_send data d)) = st_tstate d.
Proof. unfold raw_send. by destruct (sm_link_wq_write _ _ _ _ _) as [[[rc wq] out] env]. Qed.
Lemma st_write_tstate data d : st_tstate (snd (st_write data d)) = st_tstate d.
Proof. unfold st_write. repeat case_match; try done; by rewrite raw_send_tstate. Qed.
Lemma st_set_param_cases key value d :
  snd (st_set_param key value d) = d \/ exists cmd val, snd (st_set_param key value d) = snd (comport_send cmd val d).
Proof. unfold st_set_param. repeat case_match; eauto. Qed.
Lemma comport_send_cases cmd val d :
  snd (comport_send cmd val d) = d \/ snd (comport_send cmd val d) = snd (raw_send (comport_frame cmd val) d).
Proof. unfold comport_send. case_match; eauto. Qed.
Lemma st_set_param_tstate key value d : st_tstate (snd (st_set_param key value d)) = st_tstate d.
Proof.
  destruct (st_set_param_cases key value d) as [->|(cmd & val & ->)]; [done|].
  destruct (comport_send_cases cmd val d) as [->| ->]; [done|apply raw_send_tstate].
Qed.

#[export, refine] Instance telnet_decoder : LinkDecoder serial_tcp_link := {|
  dec_state := telnet_state; dec_of := st_tstate : @link_state serial_tcp_link -> _;
  dec_step := tn_run; dec_filter := st_filter_rx : _ -> @link_state serial_tcp_link -> _ |}.
Proof.
  - done.
  - apply tn_run_ok.
  - apply tn_run_bytes.
  - apply st_write_tstate.
  - apply st_set_param_tstate.
Defined.
End telnet.

(** What the reads of a drain return, undecoded and in one piece. *)
Lemma decoded_run `{T : TcpEnv} n env s :
  decoded (D := telnet_decoder) n env s = tn_run (drained n env) s.
Proof.
  revert env s. induction n as [|n IH]; intros [|[b|avail| | |] env] s; cbn [decoded drained]; try done.
  - destruct (ztake _ b) as [|x b']; [done|]. cbn [dec_step telnet_decoder].
    enough (forall a b s, tn_run (a ++ b) s = let '(o, s1) := tn_run a s in
      let '(o', s2) := tn_run b s1 in (o ++ o', s2)) as Happ.
    { rewrite Happ. destruct (tn_run (x :: b') s) as [o s1]. by rewrite IH. }
    clear. intros a b. induction a as [|c a IH]; intros s; simpl; [by destruct (tn_run b s)|].
    destruct (tn_step c s) as [o1 s1]. rewrite IH. destruct (tn_run a s1) as [o2 s2].
    destruct (tn_run b s2) as [o3 s3]. by rewrite app_assoc.
  - destruct (0 <? avail); [apply IH|done].
Qed.

(** Over a telnet link the clients see the payload.  Whatever a drain of
    the socket returns, however the server cut its stream, the bytes read are a
    sequence of telnet tokens and an unfinished one; the history grows by
    exactly the payload of these tokens, every client that has said hello is
    sent exactly this payload, in order and once, and the parser keeps its
    place for the next drain, though autoresponder rules and the flood may
    write to the link in between. *)
Theorem telnet_output_delivered {T : TcpEnv} {E : SystemEnv} {J : JsonText} {R : RegexLib}
    n first env (w : @world serial_tcp_link) stream :
  (forall i z, env_alloc i z = true) -> st_tstate (w_link w) = TS_DATA ->
  rb_refines (b_history (w_b w)) stream -> pool_ok (w_pool w) ->
  NoDup (map cl_key (b_clients (w_b w))) -> all_bytes (drained n env) ->
  let w' := run (drain_link_fd n first env link_drain_chunk) w in
  exists ts tail,
    Forall tn_wf ts /\ drained n env = flat_map tn_encode ts ++ tail /\
    tn_tail (st_tstate (w_link w')) tail /\
    rb_refines (b_history (w_b w')) (stream ++ flat_map tn_data ts) /\ pool_ok (w_pool w') /\
    exists t, w_trace w' = w_trace w ++ t /\
      forall c, In c (b_clients (w_b w)) ->
        outputs (cl_key c) t = if cl_hello c then flat_map tn_data ts else [].
Proof.
  intros Hal Hs Hr Hp Hnd Hb w'.
  pose proof (drain_decoded (D := telnet_decoder) Hal n first env w Hb) as Hd.
  rewrite decoded_run in Hd. cbn [dec_of telnet_decoder] in Hd. rewrite <- tn_run_ok in Hd.
  destruct Hd as [[_ Hh (t & Et & Ho)] Hst]. fold w' in Hh, Et, Hst.
  destruct (telnet_filter_parsed (w_link w) (drained n env) Hs) as (ts & tail & Hw & Hin & Htl & Hout).
  rewrite Hout in Hh, Ho. exists ts, tail. destruct (Hh stream Hr Hp) as [H1 H2].
  rewrite Hst. split_and!; [done..|]. exists t. split; [done|].
  intros c Hc. apply (Ho ltac:(by rewrite map_map) (cident c)). by apply in_map.
Qed.

(** ** The telnet link in every execution *)

Section sound.
Context {T : TcpEnv}.

Definition st_sound (host : string) (port : Z) (d : serial_tcp_data) : Prop :=
  wq_wf (st_wq d) /\ st_host d = host /\ st_port d = port.

Lemma raw_send_sound h p data d : st_sound h p d -> st_sound h p (snd (raw_send data d)).
Proof.
  intros (Hw & Hh & Hp). unfold raw_send.
  pose proof (wq_write_spec (tcp_calloc (st_tick d)) (tcp_malloc (st_tick d)) (st_wq d) data
                (tcp_writes (st_tick d)) Hw) as H.
  destruct (sm_link_wq_write _ _ _ _ _) as [[[rc wq] out] env]. by split_and!; [apply H|..].
Qed.

Lemma st_ops_sound h p d :
  st_sound h p d ->
  st_sound h p (snd (st_open d)) /\ st_sound h p (snd (st_connect_begin d)) /\
  st_sound h p (snd (st_connect_poll d)) /\ st_sound h p (st_close d).
Proof.
  intros Hd. assert (forall d' : serial_tcp_data,
    st_wq d' = st_wq d -> st_host d' = st_host d -> st_port d' = st_port d -> st_sound h p d') as Hsame.
  { intros d' H1 H2 H3. destruct Hd as (? & ? & ?). unfold st_sound. by rewrite H1, H2, H3. }
  unfold st_open, st_connect_begin, st_connect_poll, st_close, st_resolve, st_socket_connect.
  split_and!; repeat case_match; simplify_eq/=; try done; try (by apply Hsame).
  destruct Hd as (? & ? & ?). split_and!; [apply wq_init_wf|done..].
Qed.

Lemma tn_reply_sound h p resp d : st_sound h p d -> st_sound h p (tn_reply resp d).
Proof. intros Hd. unfold tn_reply. by case_match. Qed.
Lemma st_filter_rx_sound h p input d : st_sound h p d -> st_sound h p (snd (st_filter_rx input d)).
Proof.
  revert d. induction input as [|c input IH]; intros d Hd; [done|]. cbn [st_filter_rx].
  assert (st_sound h p (snd (st_filter_byte c d))) as H1.
  { unfold st_filter_byte, telnet_comport, telnet_refuse.
    destruct (st_tstate d); repeat case_match; simpl; try exact Hd; by apply tn_reply_sound. }
  destruct (st_filter_byte c d) as [o1 d1]. specialize (IH d1 H1).
  by destruct (st_filter_rx input d1) as [o2 d2].
Qed.

#[export] Instance serial_tcp_invariant h p :
  LinkInvariant (L := serial_tcp_link) (st_sound h p).
Proof.
  split; try (intros * H; by apply st_ops_sound).
  - intros data d Hd. simpl. unfold st_write. repeat case_match; simpl; try done; by apply raw_send_sound.
  - intros f d [= <-] Hd. simpl. unfold st_flush_write_queue. case_match; [done|].
    destruct Hd as (Hw & Hh & Hp). pose proof (wq_flush_spec (st_wq d) (tcp_writes (st_tick d)) Hw) as Hf.
    destruct (sm_link_wq_flush _ _) as [[[rc wq] out] env]. by split_and!; [apply Hf|..].
  - done.
  - intros key value d _ Hd. change (st_sound h p (snd (st_set_param key value d))).
    destruct (st_set_param_cases key value d) as [->|(cmd & val & ->)]; [done|].
    destruct (comport_send_cases cmd val d) as [->| ->]; [done|by apply raw_send_sound].
  - intros f d [= <-]. apply st_ops_sound.
  - intros f d [= <-]. apply st_ops_sound.
  - intros f buf d [= <-]. apply st_filter_rx_sound.
Qed.
End sound.

(** The link stays bounded and stays itself.  In every execution of the
    broker over a serial-over-TCP link, whatever clients, sockets, allocator
    and server do, the link talks to the host and port it was made for and its
    write queue is well formed: the byte count is exact and never above
    512 KiB. *)
Theorem telnet_link_sound {T : TcpEnv} {E : SystemEnv} {J : JsonText} {R : RegexLib}
    host port turns (w : @world serial_tcp_link) :
  initial w -> w_link w = snd (st_open (sm_serial_tcp_new host port)) ->
  let d := w_link (run (all_turns turns) w) in
  st_host d = snprintf_s 256 host /\ st_port d = port /\
  wq_total_bytes (st_wq d) = zlen (wq_pending (st_wq d)) /\
  wq_total_bytes (st_wq d) <= SM_LINK_WRITE_QUEUE_MAX_BYTES.
Proof.
  intros Hi Hw. assert (st_sound (snprintf_s 256 host) port (w_link w)) as H0.
  { rewrite Hw. apply st_ops_sound. split_and!; [apply wq_init_wf|done..]. }
  destruct (link_preserved (L := serial_tcp_link) _ turns w Hi H0) as (Hwf & Hh & Hp).
  split_and!; [done|done|apply Hwf|apply Hwf].
Qed.

(** ** Runs *)

Section runs.
#[local] Existing Instance slow_tcp.

Definition telnet_world : @world serial_tcp_link :=
  @init_world serial_tcp_link demo_broker demo_tcp.

Lemma telnet_output_delivered_witness :
  exists ts tail t,
    [104; 255; 251; 1; 105] = flat_map tn_encode ts ++ tail /\
    w_trace (run (drain_link_fd 16 true [DBytes [104; 255]; DBytes [251; 1; 105]; DAgain] link_drain_chunk)
               telnet_world) = t /\
    outputs 1 t = flat_map tn_data ts /\ outputs 1 t = [104; 105].
Proof.
  destruct (telnet_output_delivered 16 true [DBytes [104; 255]; DBytes [251; 1; 105]; DAgain]
    telnet_world []) as (ts & tail & Hw & Hin & Htl & _ & _ & t & Et & Ho).
  - done.
  - done.
  - by apply sm_rb_init_refines.
  - exact (proj2 (rb_appends_refines 1 [] ltac:(done))).
  - apply (bool_decide_unpack (NoDup _)). by vm_compute.
  - repeat constructor; lia.
  - exists ts, tail, t. split; [exact Hin|]. split; [exact Et|]. split.
    + apply (Ho (demo_client 1 "agent" "controller")). right. by left.
    + change (w_trace telnet_world) with (@nil event) in Et. cbn [app] in Et. rewrite <- Et. by vm_compute.
Defined.

Definition telnet_start : @world serial_tcp_link :=
  @init_world serial_tcp_link (sm_broker_init true "" 0) demo_tcp.
Definition telnet_turns : list (list loop_event * (nat -> bool)) :=
  [([LeLink (mk_ev true false false) [DBytes [62]; DAgain]], fun _ => false); ([], fun _ => false)].

Lemma telnet_link_sound_witness :
  let d := w_link (run (all_turns telnet_turns) telnet_start) in
  st_host d = "ser2net" /\ st_port d = 2217 /\ wq_total_bytes (st_wq d) <= 524288.
Proof.
  destruct (telnet_link_sound "ser2net" 2217 telnet_turns telnet_start (fresh_initial _ _ _ _) eq_refl) as (H1 & H2 & _ & H4).
  split; [exact H1|]. split; [exact H2|exact H4].
Defined.
End runs.

(** * The broker over a GDB link

    The command guard in every execution. *)

#[local] Open Scope string_scope.
#[local] Open Scope list_scope.
#[local] Open Scope Z_scope.

#[export] Instance gdb_guard_invariant {G : GdbEnv} : LinkInvariant (L := gdb_link) gd_guarded.
Proof.
  split.
  - apply gdb_open_guarded.
  - apply gdb_close_guarded.
  - apply gdb_write_guarded.
  - intros f d [= <-]. apply gdb_flush_guarded.
  - intros ms d Hd. simpl. unfold gdb_send_break. case_match; [done|]. by apply gdb_write_guarded.
  - intros key value d Hk Hd. simpl. unfold gdb_set_param. case_match; [done|].
    assert (streq key "target" = false /\ streq key "allow_shell" = false) as [-> ->]; [|done].
    destruct Hk as [[[-> | ->]| ->]| ->]; done.
  - intros f d [= <-]. apply gdb_open_guarded.
  - done.
  - done.
Qed.

(** C17: clients cannot lift the guard.  In every execution of the broker over a
    GDB link that was started without --gdb-allow-shell, whatever its clients,
    its sinks and the system do, the shell switch stays off, and everything
    given to the running GDB or queued for it comes from the writes made on it,
    in their order: each contributed its data or a beginning of it, and one
    that holds a shell command was refused and contributed nothing. *)
Theorem gdb_guard_kept {G : GdbEnv} {E : SystemEnv} {J : JsonText} {R : RegexLib}
    path spec turns (w : @world gdb_link) :
  initial w -> w_link w = snd (gdb_open (sm_gdb_new path spec)) ->
  let d := w_link (run (all_turns turns) w) in
  gd_allow_shell d = false /\
  exists ps, Forall2 given (gd_calls d) ps /\ gd_wire d ++ wq_pending (gd_wq d) = mjoin ps.
Proof.
  intros Hi Hw. assert (gd_guarded (w_link w)) as H0.
  { rewrite Hw. apply gdb_open_guarded. split_and!; [done|apply wq_init_wf|by exists []]. }
  by destruct (link_preserved (L := gdb_link) _ turns w Hi H0) as (H1 & _ & H3).
Qed.

(** ** Runs *)

Definition demo_gdb_env : GdbEnv := {|
  gdb_waitpid _ _ := true; gdb_pipe2 _ := Some (7, 8); gdb_fork _ := 42;
  gdb_writes _ := [WBytes 64]; gdb_calloc _ := true; gdb_malloc _ := true |}.

Section runs.
#[local] Existing Instance demo_gdb_env.

Definition demo_gdb : gdb_data := snd (gdb_open (sm_gdb_new None (Some "localhost:3333"))).

Lemma gdb_guard_split_witness :
  let cmd := bytes_of_string ("shell id" +:+ string_of_bytes [10]) in
  let '(r1, d1) := gdb_write_data (ztake 1 cmd) demo_gdb in
  let '(r2, d2) := gdb_write_data (zdrop 1 cmd) d1 in
  fst (gdb_write_data cmd demo_gdb) = -1 /\ r1 = 0 /\ r2 = 0 /\ gd_wire d2 = gd_wire demo_gdb ++ cmd.
Proof. apply (gdb_guard_split demo_gdb); [by vm_compute|by vm_compute|by vm_compute|done]. Defined.

Definition gdb_start : @world gdb_link :=
  @init_world gdb_link (sm_broker_init true "" 0) (snd (gdb_open (sm_gdb_new None None))).
Definition gdb_line (s : string) : bytes := bytes_of_string (s +:+ string_of_bytes [10]).

(** A controller sends a harmless line and a shell one. *)
Definition gdb_sends : list (list loop_event * (nat -> bool)) :=
  [([LeListen (Some 100);
     LeClient 0 (mk_ev true false false)
       [RBytes (hello_line "agent" "controller" ++
                mjoin (map sm_msg_encode [sm_msg_send (Some "1") (gdb_line "info target");
                                          sm_msg_send (Some "2") (gdb_line "shell id")]))]],
    fun _ => false)].

Lemma gdb_guard_kept_witness :
  let d := w_link (run (all_turns gdb_sends) gdb_start) in
  gd_allow_shell d = false /\
  gd_calls d = [(gdb_line "-gdb-set mi-async on", 0); (gdb_line "info target", 0);
                (gdb_line "shell id", -1)] /\
  exists ps, Forall2 given (gd_calls d) ps /\ gd_wire d ++ wq_pending (gd_wq d) = mjoin ps.
Proof.
  destruct (gdb_guard_kept None None gdb_sends gdb_start (fresh_initial _ _ _ _) eq_refl) as [H1 H2].
  split; [exact H1|]. split; [by vm_compute|exact H2].
Defined.
End runs.

(** * The broker over a UART

    The port's configuration in every execution. *)

#[local] Open Scope string_scope.
#[local] Open Scope list_scope.
#[local] Open Scope Z_scope.

#[export] Instance uart_invariant {U : UartEnv} port excl :
  LinkInvariant (L := uart_link) (uart_sound port excl).
Proof.
  split.
  - apply uart_open_sound.
  - apply uart_close_sound.
  - intros data ud Hs. by apply uart_transfer_sound.
  - intros f ud [= <-] Hs. by apply (uart_transfer_sound _ _ _ []).
  - apply uart_break_sound.
  - intros key value ud Hk Hs. destruct Hk as [[[-> | ->]| ->]| ->]; [| | |by apply uart_baud_sound];
      simpl; unfold uart_set_param; (destruct (_ <? _); [done|]); cbn [streq].
    + by apply uart_pin_sound.
    + by apply uart_pin_sound.
    + simpl. destruct (_ || _); by apply tty_call_sound.
  - done.
  - done.
  - done.
Qed.

(** C18: the port is asked for the right configuration.  In every execution of
    the broker over a UART opened at the start, whatever its clients and sinks
    ask for, whichever system calls fail and whatever the driver makes of the
    requests it accepts, the link keeps its port, its write queue is within
    512 KiB, and while the port is open: it was first asked for raw mode at
    eight data bits, no parity, one stop bit and no flow control; the rate of
    the last request accepted is the one the link reports, which is a supported
    one; and if the driver adopted the accepted requests as they were asked,
    the port is in raw mode at 8N1 and at the reported rate. *)
Theorem uart_configured_as_asked {U : UartEnv} {E : SystemEnv} {J : JsonText} {R : RegexLib}
    port baud excl y turns (w : @world uart_link) :
  initial w -> w_link w = snd (uart_open (sm_uart_new port baud excl y)) ->
  let ud := w_link (run (all_turns turns) w) in
  ud_port ud = snprintf_s 256 port /\ wq_total_bytes (ud_wq ud) <= SM_LINK_WRITE_QUEUE_MAX_BYTES /\
  (0 <= ud_fd ud -> exists l t,
     ud_asked ud = l ++ [(t, ty_termios (ud_tty ud))] /\
     baud_to_speed (ud_baud ud) = (c_ispeed t, true) /\ c_ospeed t = c_ispeed t /\
     (exists t1 t1' rest b1, ud_asked ud = (t1, t1') :: rest /\ configured (mk_line 8 0 1 0) b1 t1) /\
     (adopted (ud_asked ud) -> configured (mk_line 8 0 1 0) (ud_baud ud) (ty_termios (ud_tty ud)))).
Proof.
  intros Hi Hw. assert (uart_sound (snprintf_s 256 port) excl (w_link w)) as H0.
  { rewrite Hw. apply uart_open_sound. split_and!; try done. apply wq_init_wf. }
  destruct (link_preserved (L := uart_link) _ turns w Hi H0) as (H1 & _ & H3 & _ & H5).
  split_and!; [done|apply H3|]. intros Hfd. destruct (H5 Hfd) as (Ha & r & Hr).
  destruct (asked_last _ _ Ha) as (l & t & t' & El & Hb & Ho & Hc). rewrite El, last_snoc in Hr.
  injection Hr as -> ->. exists l, r. split_and!; try done. by apply (asked_first _ _ Ha).
Qed.

(** ** Runs *)

Section runs.
#[local] Existing Instance all_ok.

(** The broker as it is started, with the port open, and a client that asks for
    another rate. *)
Definition uart_start : @world uart_link :=
  @init_world uart_link (sm_broker_init true "/dev/ttyUSB0" 115200)
    (snd (uart_open (sm_uart_new "/dev/ttyUSB0" 115200 true cooked_tty))).
Definition uart_turns : list (list loop_event * (nat -> bool)) :=
  [([LeListen (Some 100);
     LeClient 0 (mk_ev true false false)
       [RBytes (hello_line "agent" "controller" ++ sm_msg_encode (sm_msg_set_baud (Some "1") 9600))]],
    fun _ => false)].

Lemma uart_configured_as_asked_witness :
  let ud := w_link (run (all_turns uart_turns) uart_start) in
  ud_fd ud = 4 /\ ud_baud ud = 9600 /\ map (fun r => c_ospeed (fst r)) (ud_asked ud) = [4098; 13] /\
  configured (mk_line 8 0 1 0) (ud_baud ud) (ty_termios (ud_tty ud)).
Proof.
  destruct (uart_configured_as_asked "/dev/ttyUSB0" 115200 true cooked_tty uart_turns uart_start
    (fresh_initial _ _ _ _)
    ltac:(unfold uart_start, init_world; cbn [w_link]; reflexivity)) as (_ & _ & H).
  split; [by vm_compute|]. split; [by vm_compute|]. split; [by vm_compute|].
  destruct H as (l & t & _ & _ & _ & _ & H); [by vm_compute|]. apply H. vm_compute. by repeat constructor.
Defined.
End runs.
