(* ===== verification/BrokerStore.v ===== *)
(** * The history in every execution

    Only [rb_append] touches the history buffer and the chunk pool, so the
    refinement of the ring buffer holds throughout the broker's life: it keeps
    exactly the last 2 MiB of a stream that only grows. *)
From S2P Require Import Prelude Arrays Codecs RingBuffer Json CJson Protocol Regex Expect BootStage.
From S2P Require Import Autoresponder Anomaly Effects Client BrokerState BrokerOps BrokerLink BrokerHandlers BrokerLoop BrokerDemo.
From S2P Require Import BrokerFrame BrokerStream.

#[local] Open Scope string_scope.
#[local] Open Scope list_scope.
#[local] Open Scope Z_scope.

Section store.
Context {L : LinkOps} {E : SystemEnv} {J : JsonText} {R : RegexLib}.

Section from.
Context (start : bytes).

(** The history is the tail of a stream that extends [start], within its
    limit, and the pool's slots are sound. *)
Definition recorded (w : world) : Prop :=
  rb_max_bytes (b_history (w_b w)) = SM_RING_BUFFER_MAX_BYTES /\
  (exists more, rb_refines (b_history (w_b w)) (start ++ more)) /\ pool_ok (w_pool w).

Definition untouched (w w' : world) : Prop :=
  b_history (w_b w') = b_history (w_b w) /\ w_pool w' = w_pool w.

Lemma recorded_untouched {A} (m : M A) : (forall w, untouched w (run m w)) -> inv recorded m.
Proof. intros Hm w. destruct (Hm w) as [H1 H2]. unfold recorded. by rewrite H1, H2. Qed.

Lemma recorded_modify f : (forall b, b_history (f b) = b_history b) -> inv recorded (modify f).
Proof. intros Hf. apply recorded_untouched. intros w. split; [apply Hf|done]. Qed.
Lemma recorded_broadcast msg ex : inv recorded (broadcast msg ex).
Proof.
  apply recorded_untouched. intros w. unfold broadcast, run.
  destruct (sm_shared_line_new _) as [id h]. by destruct (broadcast_loop _ _ _ _ _) as [[cs h'] to].
Qed.
Lemma recorded_link_call {A} e (f : link_state -> A * link_state) : inv recorded (link_call e f).
Proof. apply recorded_untouched. intros w. unfold link_call, run. by destruct (f (w_link w)). Qed.
Lemma recorded_filter f buf : inv recorded (filter_call f buf).
Proof. apply recorded_untouched. intros w. unfold filter_call, run. by destruct (f buf (w_link w)). Qed.
Lemma recorded_feed k r : inv recorded (feed_client k r).
Proof.
  apply recorded_untouched. intros w. unfold feed_client, run. destruct (find_key k _); [|done].
  by destruct (sm_client_feed _ _ _).
Qed.
Lemma recorded_flush k env : inv recorded (flush_with k env).
Proof.
  apply recorded_untouched. intros w. unfold flush_with, run. destruct (find_key k _); [|done].
  by destruct (sm_client_flush _ _ _) as [[[rc io] h] o].
Qed.
Lemma recorded_remove k : inv recorded (remove_client k).
Proof.
  apply recorded_untouched. intros w. unfold remove_client, run. destruct (find_key k _); [|done].
  by destruct (key_index k 0 _).
Qed.
Lemma recorded_for_each_i {A} (f : nat -> A -> M unit) i l :
  (forall i x, inv recorded (f i x)) -> inv recorded (for_each_i f i l).
Proof. intros Hf. revert i. induction l; intros i; simpl; [by intros w|]. by apply inv_bind. Qed.

(** The one operation that stores. *)
Lemma recorded_update_append ok data ts :
  inv recorded (update (fun w =>
    let '(rb, pool, _) := sm_rb_append ok (b_history (w_b w)) (w_pool w) data ts in
    {| w with w_b := {| (w_b w) with b_history := rb |}; w_pool := pool |})).
Proof.
  intros w (Hmax & [more Hr] & Hp). unfold update, run. simpl.
  pose proof (rb_append_spec ok _ _ (start ++ more) data ts Hr Hp) as Hs.
  destruct (sm_rb_append _ _ _ _ _) as [[rb pool] stored]. destruct Hs as (H1 & H2 & H3 & _).
  split_and!; simpl; [congruence| |done].
  destruct stored; [|by exists more]. exists (more ++ data). by rewrite app_assoc.
Qed.

Ltac store_leaf := idtac;
  lazymatch goal with
  | |- inv _ (modify _) => apply recorded_modify; intros; reflexivity
  | |- inv _ (broadcast _ _) => apply recorded_broadcast
  | |- inv _ (link_call _ _) => apply recorded_link_call
  | |- inv _ (filter_call _ _) => apply recorded_filter
  | |- inv _ (feed_client _ _) => apply recorded_feed
  | |- inv _ (flush_with _ _) => apply recorded_flush
  | |- inv _ (remove_client _) => apply recorded_remove
  | |- inv _ (update _) => apply recorded_update_append
  | |- inv _ (emit _) => apply recorded_untouched; intros ?; split; reflexivity
  | |- inv _ (query _) => apply recorded_untouched; intros ?; split; reflexivity
  | |- inv _ (gets _) => by intros ?
  | |- inv _ link_view => by intros ?
  end.
Ltac store_tac := repeat first [inv_step store_leaf | apply recorded_for_each_i; intros ? ?].

Lemma drain_link_fd_recorded n first env : inv recorded (drain_link_fd n first env link_drain_chunk).
Proof.
  revert first env. induction n as [|n IH]; intros first [|[]]; cbn [drain_link_fd]; store_tac; apply IH.
Qed.
#[local] Hint Resolve drain_link_fd_recorded : broker.
Lemma process_link_data_recorded env : inv recorded (process_link_data env).
Proof.
  intros w Hw. unfold process_link_data, run. destruct (_ <? 0); [done|].
  change (recorded (run (rc ← drain_link_fd SM_LINK_DRAIN_MAX_READS true env link_drain_chunk;
                         when (rc =? 1) handle_link_disconnect) w)).
  revert w Hw. apply inv_bind; [apply drain_link_fd_recorded|intros rc]. store_tac.
Qed.
Lemma replace_loop_recorded k name i : inv recorded (replace_loop k name i).
Proof. induction i; cbn [replace_loop]; store_tac. Qed.
Lemma add_patterns_recorded items n : inv recorded (add_patterns items n).
Proof. revert n. induction items; intros n; cbn [add_patterns]; store_tac; auto. Qed.
#[local] Hint Resolve process_link_data_recorded replace_loop_recorded add_patterns_recorded : broker.
Lemma client_input_recorded fuel k reads : inv recorded (client_input fuel k reads).
Proof. revert reads. induction fuel; intros reads; cbn [client_input]; store_tac. Qed.
Lemma flush_client_queues_recorded fuel i : inv recorded (flush_client_queues fuel i).
Proof. revert i. induction fuel; intros i; cbn [flush_client_queues]; store_tac. Qed.
Lemma drop_stale_recorded now gone i : inv recorded (drop_stale now gone i).
Proof. induction i; cbn [drop_stale]; store_tac. Qed.
#[local] Hint Resolve client_input_recorded flush_client_queues_recorded drop_stale_recorded : broker.

Lemma loop_turn_recorded events gone : inv recorded (loop_turn events gone).
Proof. store_tac. Qed.
Lemma process_link_chunk_recorded buf ts : inv recorded (process_link_chunk buf ts).
Proof. store_tac. Qed.
End from.

Lemma reachable_recorded w : reachable w -> recorded [] w.
Proof.
  induction 1 as [w [_ _ _ _ _ _ _ _ Hh Hp _]|w events gone _ IH]; [|by apply loop_turn_recorded].
  unfold recorded. rewrite Hh, Hp. split_and!; [done| |apply pool_ok_nil].
  exists []. by apply sm_rb_init_refines.
Qed.

Lemma recorded_last_2mib start w stream :
  recorded start w -> rb_refines (b_history (w_b w)) stream ->
  rb_content (b_history (w_b w)) = zlast 2097152 stream /\
  rb_total_seq (b_history (w_b w)) = zlen stream.
Proof. intros (Hmax & _) [_ Hs Hc]. rewrite Hmax in Hc. by split. Qed.

(** C36: the history is append-only in every execution.  At any time the buffer
    holds exactly the last 2 MiB of a stream of bytes, numbered from the first
    byte ever recorded; a turn of the loop, whatever its events, only appends
    to that stream, and afterwards the buffer holds the last 2 MiB of the
    longer one, so a cursor a client was given keeps its meaning for good.
    Where allocations succeed, every chunk the link delivers is appended whole. *)
Theorem history_append_only w events gone :
  reachable w ->
  exists stream, rb_refines (b_history (w_b w)) stream /\
    rb_content (b_history (w_b w)) = zlast 2097152 stream /\
    rb_total_seq (b_history (w_b w)) = zlen stream /\
    (exists more, let rb := b_history (w_b (run (loop_turn events gone) w)) in
      rb_refines rb (stream ++ more) /\
      rb_content rb = zlast 2097152 (stream ++ more) /\
      rb_total_seq rb = zlen (stream ++ more)) /\
    ((forall i z, env_alloc i z = true) -> forall buf ts, all_bytes buf ->
      let rb := b_history (w_b (run (process_link_chunk buf ts) w)) in
      rb_refines rb (stream ++ buf) /\ rb_content rb = zlast 2097152 (stream ++ buf)).
Proof.
  intros Hrec%reachable_recorded. pose proof Hrec as (Hmax & [stream Hr] & Hp). exists stream.
  assert (recorded stream w) as Hs by (split_and!; [done|exists []; by rewrite app_nil_r|done]).
  destruct (recorded_last_2mib _ _ _ Hrec Hr) as [Hc Hn]. split_and!; [done..| |].
  - pose proof (loop_turn_recorded stream events gone w Hs) as Ht.
    pose proof Ht as (_ & [more Hm] & _). exists more. split; [done|]. by apply (recorded_last_2mib stream).
  - intros Hal buf ts Hb. destruct (process_link_chunk_moves Hal buf ts Hb w) as [_ Hh _].
    destruct (Hh stream Hr Hp) as [Hb' _]. split; [done|].
    by apply (recorded_last_2mib stream _ _ (process_link_chunk_recorded _ buf ts _ Hs)).
Qed.
End store.

(** Two turns with device output. *)
Definition demo_recording : @world (demo_link false) :=
  demo_turn false [] [LeLink (mk_ev true false false) [DBytes [104; 105]; DAgain]].

Lemma history_append_only_witness :
  rb_content (b_history (w_b demo_recording)) = [104; 105] /\
  exists stream, rb_refines (b_history (w_b demo_recording)) stream /\
    (exists more, rb_refines (b_history (w_b (run (loop_turn
      [LeLink (mk_ev true false false) [DBytes [33]; DAgain]] (fun _ => false)) demo_recording)))
      (stream ++ more)) /\
    rb_content (b_history (w_b (run (process_link_chunk [63] 1) demo_recording)))
      = zlast 2097152 (stream ++ [63]).
Proof.
  split; [by vm_compute|].
  destruct (history_append_only demo_recording
    [LeLink (mk_ev true false false) [DBytes [33]; DAgain]] (fun _ => false)
    (demo_turn_reachable _ _ _)) as (stream & H1 & _ & _ & (more & H2 & _) & H3).
  exists stream. split_and!; [exact H1|by exists more|].
  apply H3; [done|repeat constructor; lia].
Defined.
