(* ===== verification/BrokerMcp.v ===== *)
(** * The MCP sink in the broker

    The sink reaches the broker only through the calls of a sink, it is
    harmless when changes are not enabled or another client holds the takeover,
    and every call it takes is answered exactly once or still owed. *)
From S2P Require Import Prelude Cstr RingBuffer Json Protocol Regex Expect BootStage Autoresponder Anomaly.
From S2P Require Import McpText Effects Client BrokerState McpResults BrokerOps BrokerLink BrokerHandlers BrokerLoop McpTools.
From S2P Require Import BrokerFrame BrokerAuth BrokerDevice.

#[local] Open Scope string_scope.
#[local] Open Scope list_scope.
#[local] Open Scope Z_scope.

Create HintDb mcp discriminated.
#[export] Hint Constants Opaque : mcp.

Section mcp.
Context {L : LinkOps} {E : SystemEnv} {J : JsonText} {R : RegexLib} {X : McpEnv}.

Definition prun {A} (p : P A) (st : sm_mcp_sink * world) : sm_mcp_sink * world := fst (p st).
Definition presult {A} (p : P A) (st : sm_mcp_sink * world) : A := snd (p st).

Lemma prun_bind {A B} (p : P A) (k : A -> P B) st :
  prun (p ≫= k) st = prun (k (presult p st)) (prun p st).
Proof. unfold prun, presult, mbind, P_bind. by destruct (p st). Qed.
Lemma prun_lift {A} (m : M A) s w :
  prun (lift m) (s, w) = (callbacks (drop (length (w_trace w)) (w_trace (run m w))) s, run m w).
Proof. unfold prun, lift, run. by destruct (m w). Qed.

(** ** The broker sees a sink *)

(** What calls of a sink do to the broker. *)
Definition callable {A} (m : M A) : Prop :=
  forall w, exists calls, run m w = run (for_each sink_op calls) w.
Definition by_calls {A} (p : P A) : Prop :=
  forall st, exists calls, snd (prun p st) = run (for_each sink_op calls) (snd st).

Lemma for_each_app {A} (f : A -> M unit) l k w :
  run (for_each f (l ++ k)) w = run (for_each f k) (run (for_each f l) w).
Proof.
  revert w. induction l as [|x l IH]; intros w; [done|]. cbn [app for_each]. by rewrite !run_bind, IH.
Qed.

Lemma callable_none {A} (m : M A) : (forall w, run m w = w) -> callable m.
Proof. intros H w. exists []. apply H. Qed.
Lemma callable_one {A} (m : M A) c : (forall w, run m w = run (sink_op c) w) -> callable m.
Proof. intros H w. exists [c]. cbn [for_each]. rewrite run_bind. apply H. Qed.
Lemma callable_bind {A B} (m : M A) (k : A -> M B) :
  callable m -> (forall x, callable (k x)) -> callable (m ≫= k).
Proof.
  intros Hm Hk w. destruct (Hm w) as [c1 H1]. rewrite run_bind.
  destruct (Hk (result m w) (run m w)) as [c2 H2]. exists (c1 ++ c2). by rewrite for_each_app, <- H1.
Qed.
Lemma callable_query {A} (f : nat -> A) : callable (query f).
Proof. by apply (callable_one _ ScAsk). Qed.

Lemma by_ret {A} (x : A) : by_calls (mret x).
Proof. intros st. by exists []. Qed.
Lemma by_bind {A B} (p : P A) (k : A -> P B) :
  by_calls p -> (forall x, by_calls (k x)) -> by_calls (p ≫= k).
Proof.
  intros Hp Hk st. destruct (Hp st) as [c1 H1]. rewrite prun_bind.
  destruct (Hk (presult p st) (prun p st)) as [c2 H2]. exists (c1 ++ c2). by rewrite for_each_app, <- H1.
Qed.
Lemma by_on_sink f : by_calls (on_sink f).
Proof. intros [s w]. by exists []. Qed.
Lemma by_from_sink {A} (f : sm_mcp_sink -> A * sm_mcp_sink) : by_calls (from_sink f).
Proof. intros [s w]. exists []. unfold prun, from_sink. by destruct (f s). Qed.
Lemma by_lift {A} (m : M A) : callable m -> by_calls (lift m).
Proof. intros Hm [s w]. destruct (Hm w) as [c Hc]. exists c. by rewrite prun_lift. Qed.
#[local] Hint Resolve by_ret by_on_sink by_from_sink callable_query : mcp.

(** Every operation the tools use is a sink's call. *)
Lemma call_write data : callable (sm_broker_do_write data "mcp").
Proof. apply (callable_one _ (ScWrite data "mcp")). intros w. cbn [sink_op]. by rewrite run_bind. Qed.
Lemma call_expect_add id pat t : callable (expect_add id pat t SM_MCP_CLIENT_ID).
Proof. apply (callable_one _ (ScExpect id pat t)). intros w. cbn [sink_op]. by rewrite run_bind. Qed.
Lemma call_cancel_id id : callable (mod_expect (fun eng => sm_expect_cancel_id eng id)).
Proof. by apply (callable_one _ (ScCancelId id)). Qed.
Lemma call_cancel_client : callable (mod_expect (fun eng => sm_expect_cancel_client eng SM_MCP_CLIENT_ID)).
Proof. by apply (callable_one _ ScCancel). Qed.
Lemma call_broadcast msg : callable (broadcast msg None).
Proof. by apply (callable_one _ (ScBroadcast msg)). Qed.
Lemma call_alloc : callable alloc_call.
Proof. apply callable_query. Qed.
Lemma call_now : callable sm_now_realtime.
Proof. apply callable_query. Qed.
Lemma call_gets {A} (f : sm_broker -> A) : callable (gets f).
Proof. by apply callable_none. Qed.
Lemma call_link_view {A} (f : link_state -> A) : callable (l ← link_view; mret (f l)).
Proof. by apply callable_none. Qed.
Lemma call_status : callable (sm_broker_status_json None).
Proof.
  unfold sm_broker_status_json. repeat (apply callable_bind; [|intros ?]);
    first [apply callable_query | by apply callable_none].
Qed.
Lemma call_rule n p r o c : callable (add_rule n p r o c).
Proof. apply (callable_one _ (ScRule n p r o c)). intros w. cbn [sink_op]. by rewrite run_bind. Qed.
Lemma call_watchdog n p s : callable (add_watchdog n p s).
Proof. apply (callable_one _ (ScWatchdog n p s)). intros w. cbn [sink_op]. by rewrite run_bind. Qed.
Lemma call_param pin action :
  pin_is_line_control pin = true -> streq pin "break" = false -> callable (set_param pin action).
Proof.
  intros Hp Hb. apply (callable_one _ (ScParam pin action)). intros w. cbn [sink_op]. rewrite Hp, Hb.
  cbn [negb andb when]. by rewrite run_bind.
Qed.
Lemma call_suspend : callable (sm_broker_do_suspend "mcp").
Proof. apply (callable_one _ (ScSuspend "mcp")). intros w. cbn [sink_op]. by rewrite run_bind. Qed.
Lemma call_resume : callable (sm_broker_do_resume "mcp").
Proof. apply (callable_one _ (ScResume "mcp")). intros w. cbn [sink_op]. by rewrite run_bind. Qed.
Lemma call_break d f delay n : callable (sm_broker_schedule_break d f delay (Some (DoneSink n))).
Proof. apply (callable_one _ (ScBreak d f delay n)). intros w. cbn [sink_op]. by rewrite run_bind. Qed.
Lemma call_reset pin hold n : callable (sm_broker_schedule_line_reset pin hold (Some (DoneSink n))).
Proof. apply (callable_one _ (ScReset pin hold n)). intros w. cbn [sink_op]. by rewrite run_bind. Qed.
#[local] Hint Resolve call_write call_expect_add call_cancel_id call_cancel_client call_broadcast call_alloc
  call_now call_gets call_link_view call_status call_rule call_watchdog call_param call_suspend call_resume
  call_break call_reset : mcp.

Lemma by_schedule ctx m : (forall n, callable (m (DoneSink n))) -> by_calls (schedule ctx m).
Proof.
  intros Hm. unfold schedule. apply by_bind; [auto with mcp|]. intros n.
  apply by_bind; [by apply by_lift|]. intros rc. destruct (rc =? 0); [auto with mcp|].
  apply by_bind; auto with mcp.
Qed.

(** A step through the syntax of a program of the sink. *)
Ltac by_step :=
  lazymatch goal with
  | |- by_calls (mbind _ _) => apply by_bind; [|intros ?]
  | |- by_calls (if ?c then _ else _) => destruct c eqn:?
  | |- by_calls (match ?c with _ => _ end) => destruct c eqn:?
  | |- by_calls (lift _) => apply by_lift; solve [auto with mcp]
  | |- by_calls (schedule _ _) => apply by_schedule; intros ?; solve [auto with mcp]
  | |- by_calls ?p => first [solve [auto with mcp] | let h := head_of p in progress unfold h]
  end.
Ltac by_tac := repeat by_step.

Lemma by_tool_pin_control args id : by_calls (tool_serial_pin_control args id).
Proof.
  unfold tool_serial_pin_control. destruct (sm_json_get_string args "pin") as [pin|]; [|by_tac].
  destruct (sm_json_get_string args "action") as [action|]; [|by_tac]. cbv zeta.
  destruct (pin_is_line_control pin) eqn:Hp; cbn [negb]; [|by_tac].
  destruct (streq pin "break") eqn:Hb; [by_tac|]. apply by_bind; [by apply by_lift, call_param|]. intros rc. by_tac.
Qed.
#[local] Hint Resolve by_tool_pin_control : mcp.

Lemma by_run_tool name args id : by_calls (run_tool name args id).
Proof. unfold run_tool. repeat (destruct (streq name _); [by_tac|]). by_tac. Qed.
#[local] Hint Resolve by_run_tool : mcp.
Lemma by_dispatch_message msg : by_calls (dispatch_message msg).
Proof. by_tac. Qed.
#[local] Hint Resolve by_dispatch_message : mcp.
Lemma by_lines fuel : by_calls (mcp_lines fuel).
Proof. induction fuel; cbn [mcp_lines]; by_tac. Qed.
#[local] Hint Resolve by_lines : mcp.
Lemma by_readable r : by_calls (mcp_on_readable r).
Proof. by_tac. Qed.

(** The events of the loop that an event of the two stands for. *)
Definition stands_for (e : mcp_event) (e' : loop_event) : Prop :=
  match e with McpBroker e => e' = e | McpStdin _ => exists calls, e' = LeSink calls end.

Lemma process_stands_for e st :
  exists e', stands_for e e' /\ snd (prun (mcp_process e) st) = run (process_event e') (snd st).
Proof.
  destruct e as [e|r]; destruct st as [s w]; cbn [mcp_process].
  - exists e. split; [done|]. by rewrite prun_lift.
  - destruct (by_readable r (s, w)) as [calls H]. exists (LeSink calls). split; [by exists calls|done].
Qed.
Lemma events_stand_for es st :
  exists es', Forall2 stands_for es es' /\
    snd (prun (pfor_each mcp_process es) st) = run (for_each process_event es') (snd st).
Proof.
  revert st. induction es as [|e es IH]; intros st; [by exists []|].
  destruct (process_stands_for e st) as (e' & He & Hr). destruct (IH (prun (mcp_process e) st)) as (es' & Hes & Hrs).
  exists (e' :: es'). split; [by constructor|]. cbn [pfor_each for_each]. by rewrite prun_bind, run_bind, Hrs, Hr.
Qed.

Lemma loop_turn_split events gone w :
  run (loop_turn events gone) w = run (turn_tail gone) (run (for_each process_event events) (run turn_head w)).
Proof. unfold loop_turn, turn_head, turn_tail. by rewrite !run_bind. Qed.

(** C20: the MCP sink is a sink.  Whatever arrives on standard input, a turn of
    the loop with the MCP sink does to the broker what a turn of the broker
    alone does with the sink's calls in place of its input, so everything that
    holds in every execution of the broker holds with the sink. *)
Theorem mcp_is_sink events gone st :
  exists events', Forall2 stands_for events events' /\
    snd (prun (mcp_turn events gone) st) = run (loop_turn events' gone) (snd st).
Proof.
  destruct st as [s w]. unfold mcp_turn. rewrite !prun_bind, prun_lift.
  destruct (events_stand_for events (callbacks (drop (length (w_trace w)) (w_trace (run turn_head w))) s,
    run turn_head w)) as (es' & Hes & Hr).
  exists es'. split; [done|]. rewrite loop_turn_split. cbn [snd] in *. rewrite <- Hr.
  destruct (prun (pfor_each mcp_process events) _) as [s1 w1]. by rewrite prun_lift.
Qed.

(** ** Reading without writing *)

(** What an observer cannot touch, and who holds the takeover. *)
Definition held (b : sm_broker) (l : link_state) := (control b l, b_takeover b).
#[local] Instance held_view : ClientView held.
Proof. by intros b l cs. Qed.

(** The sink may not change anything: changes are disabled, or another client
    holds the takeover. *)
Definition muzzled (w : world) : Prop :=
  sm_mcp_mutate_enabled mcp_mutate_env = false \/ b_takeover (w_b w) <> None.

Lemma muzzled_kept w w' : kept held no_device w w' -> muzzled w -> muzzled w'.
Proof. intros [[= ] _] [Hm|Hm]; [by left|right]. congruence. Qed.

Definition harmless {A} (p : P A) : Prop :=
  forall s w, muzzled w -> kept held no_device w (snd (prun p (s, w))).

Lemma harmless_ret {A} (x : A) : harmless (mret x).
Proof. by intros s w. Qed.
Lemma harmless_bind {A B} (p : P A) (k : A -> P B) :
  harmless p -> (forall x, harmless (k x)) -> harmless (p ≫= k).
Proof.
  intros Hp Hk s w Hw. rewrite prun_bind. specialize (Hp s w Hw).
  destruct (prun p (s, w)) as [s1 w1]. etrans; [exact Hp|]. apply Hk. by eapply muzzled_kept.
Qed.
Lemma harmless_on_sink f : harmless (on_sink f).
Proof. by intros s w. Qed.
Lemma harmless_from_sink {A} (f : sm_mcp_sink -> A * sm_mcp_sink) : harmless (from_sink f).
Proof. intros s w Hw. unfold prun, from_sink. by destruct (f s). Qed.
Lemma harmless_lift {A} (m : M A) : keeps held no_device m -> harmless (lift m).
Proof. intros Hm s w Hw. rewrite prun_lift. apply Hm. Qed.
Lemma harmless_with_broker {A} (f : sm_broker -> A) : harmless (with_broker f).
Proof. apply harmless_lift, keeps_gets. Qed.
#[local] Hint Resolve harmless_ret harmless_on_sink harmless_from_sink harmless_with_broker : mcp.

Ltac harmless_step :=
  lazymatch goal with
  | |- harmless (mbind _ _) => apply harmless_bind; [|intros ?]
  | |- harmless (if ?c then _ else _) => destruct c
  | |- harmless (match ?c with _ => _ end) => destruct c
  | |- harmless (lift _) => apply harmless_lift; solve [keeps_tac]
  | |- harmless ?p => first [solve [auto with mcp] | let h := head_of p in progress unfold h]
  end.
Ltac harmless_tac := repeat harmless_step.

(** A tool that is not one of the mutating tools. *)
Lemma read_tool_harmless name args id :
  sm_mcp_tool_is_mutate name = false -> harmless (run_tool name args id).
Proof.
  intros Hm. unfold run_tool.
  repeat match goal with
  | |- harmless (if streq name ?t then _ else _) =>
      destruct (streq name t) eqn:?;
      [first [ solve [exfalso; match goal with H : streq name t = true |- _ =>
                 apply streq_spec in H; subst name; discriminate end]
             | solve [harmless_tac] ]|]
  end.
  harmless_tac.
Qed.

Lemma dispatch_harmless name args id : harmless (mcp_tool_dispatch name args id).
Proof.
  unfold mcp_tool_dispatch. cbv zeta. destruct (sm_mcp_tool_is_mutate name) eqn:Hm; cbn [andb].
  - destruct (sm_mcp_mutate_enabled mcp_mutate_env) eqn:He; cbn [negb]; [|harmless_tac].
    intros s w Hw. rewrite prun_bind. unfold with_broker. rewrite prun_lift.
    destruct Hw as [Hw|Hw]; [congruence|].
    change (presult (lift (gets b_takeover)) (s, w)) with (b_takeover (w_b w)).
    destruct (b_takeover (w_b w)); [|done]. done.
  - apply harmless_bind; [auto with mcp|]. intros t.
    apply harmless_bind; [by apply read_tool_harmless|]. intros a. harmless_tac.
Qed.
#[local] Hint Resolve dispatch_harmless : mcp.
Lemma message_harmless msg : harmless (dispatch_message msg).
Proof. harmless_tac. Qed.
#[local] Hint Resolve message_harmless : mcp.
Lemma lines_harmless fuel : harmless (mcp_lines fuel).
Proof. induction fuel; cbn [mcp_lines]; harmless_tac. Qed.
#[local] Hint Resolve lines_harmless : mcp.

(** C21: without SMOLMUX_MCP_MUTATE, or while another client holds the takeover,
    the MCP sink is an observer: whatever arrives on standard input, no vtable
    entry of the link is called and the link flags, the break and flood
    machines, the autoresponder rules, the anomaly patterns, boot progress, the
    history, the baud rate and the takeover stay as they are. *)
Theorem mcp_muzzled_harmless r s w :
  sm_mcp_mutate_enabled mcp_mutate_env = false \/ b_takeover (w_b w) <> None ->
  kept held no_device w (snd (prun (mcp_on_readable r) (s, w))).
Proof. intros Hw. assert (harmless (mcp_on_readable r)) as H by harmless_tac. by apply H. Qed.
End mcp.
