(* ===== verification/McpLedger.v ===== *)
(** * Calls of the MCP sink and their answers

    The books of the sink: the ids answered on standard output, the ids in the
    pending table, and the id of the break or reset in flight.  A request adds
    its id once; nothing else adds or removes one. *)
From S2P Require Import Prelude Cstr RingBuffer Json Protocol Regex Expect BootStage Autoresponder Anomaly.
From S2P Require Import McpText Effects Client BrokerState McpResults BrokerOps BrokerLink BrokerHandlers BrokerLoop McpTools.
From S2P Require Import BrokerFrame BrokerDevice BrokerMcp.

#[local] Open Scope string_scope.
#[local] Open Scope list_scope.
#[local] Open Scope Z_scope.

(** No callback of a sink is accepted. *)
Definition no_sink_accept (e : event) : Prop :=
  match e with EvAccept (DoneSink _) => False | _ => True end.
#[export] Instance Talk_no_sink_accept : Talk no_sink_accept.
Proof. by intros []. Qed.
Definition no_accept (e : event) : Prop := match e with EvAccept _ => False | _ => True end.
#[export] Instance Talk_no_accept : Talk no_accept.
Proof. by intros []. Qed.

Section ledger.
Context {L : LinkOps} {E : SystemEnv} {J : JsonText} {R : RegexLib} {X : McpEnv}.

Definition msg_id (m : json) : json := default JNull (get_item m "id").
Definition slot_ids (s : sm_mcp_sink) : list json :=
  flat_map (fun p => option_list (pd_jsonrpc_id p)) (mp_pending s).
(** The message a context's callback will write. *)
Definition ctx_ids (c : mcp_ctx) : list json :=
  match c with CtxBreak id _ => [default JNull id] | CtxReset id _ _ => option_list id end.
Definition done_ids (s : sm_mcp_sink) (d : break_done) : list json :=
  match d with DoneSink n => flat_map ctx_ids (option_list (mp_ctxs s !! n)) | DonePin _ => [] end.
(** Answered or promised by the sink. *)
Definition booked (s : sm_mcp_sink) : list json := map msg_id (mp_stdout s) ++ slot_ids s.
Definition in_flight (w : world) : list break_done := option_list (bk_done (b_brk (w_b w))).
Definition ledger (st : sm_mcp_sink * world) : list json :=
  booked (fst st) ++ flat_map (done_ids (fst st)) (in_flight (snd st)).

(** The machine accounts for its callbacks, and the one in flight exists. *)
Definition good (st : sm_mcp_sink * world) : Prop :=
  device_ok (snd st) /\ forall n, In (DoneSink n) (in_flight (snd st)) -> (n < length (mp_ctxs (fst st)))%nat.

(** ** Callbacks *)

Lemma booked_send id key v s :
  booked (mcp_write_json (rpc_message id key v) s) ≡ₚ default JNull id :: booked s.
Proof.
  unfold booked, mcp_write_json. cbn [mp_stdout mp_pending]. unfold slot_ids. cbn [mp_pending].
  rewrite map_app, <- app_assoc. cbn [map]. change (msg_id (rpc_message id key v)) with (default JNull id).
  symmetry. apply Permutation_middle.
Qed.

Lemma find_slot_spec f i l j p :
  find_slot f i l = Some (j, p) -> exists l1 l2, l = l1 ++ p :: l2 /\ j = (i + length l1)%nat /\ f p = true.
Proof.
  revert i. induction l as [|q l IH]; intros i; [done|]. cbn [find_slot]. destruct (f q) eqn:Ef.
  - intros [= <- <-]. exists [], l. simpl. split_and!; [done|lia|done].
  - intros (l1 & l2 & -> & -> & Hp)%IH. exists (q :: l1), l2. simpl. split_and!; [done|lia|done].
Qed.

Lemma insert_middle {A} (l1 l2 : list A) x y : <[length l1 := y]> (l1 ++ x :: l2) = l1 ++ y :: l2.
Proof. rewrite insert_app_r_alt by lia. by rewrite Nat.sub_diag. Qed.

(** A result moves its call from the table to the output. *)
Lemma booked_expect_result r incs s :
  booked (mcp_on_expect_result r incs s) ≡ₚ booked s /\ mp_ctxs (mcp_on_expect_result r incs s) = mp_ctxs s.
Proof.
  unfold mcp_on_expect_result. destruct (find_slot _ 0 (mp_pending s)) as [[i p]|] eqn:Ef; [|done].
  apply find_slot_spec in Ef as (l1 & l2 & El & -> & Hw).
  unfold waits_for, is_free in Hw. destruct (pd_jsonrpc_id p) as [id|] eqn:Ep; [|done].
  destruct (expect_text p r incs) as [text fits].
  assert (forall t s', s' = mcp_send_tool_result (Some id) t s \/ s' = set_undefined (mcp_send_tool_result (Some id) t s) ->
    let s2 := {| s' with mp_pending := <[(0 + length l1)%nat := {| p with pd_jsonrpc_id := None |}]> (mp_pending s') |} in
    booked s2 ≡ₚ booked s /\ mp_ctxs s2 = mp_ctxs s) as H.
  { intros t s' Hs. assert (map msg_id (mp_stdout s') = map msg_id (mp_stdout s) ++ [id] /\
      mp_pending s' = mp_pending s /\ mp_ctxs s' = mp_ctxs s) as (E1 & E2 & E3).
    { destruct Hs as [-> | ->]; simpl; rewrite map_app; done. }
    cbv zeta. split; [|done]. unfold booked, slot_ids. cbn [mp_stdout mp_pending]. rewrite E1, E2, El.
    simpl (0 + length l1)%nat. rewrite insert_middle, !flat_map_app. cbn [flat_map pd_jsonrpc_id].
    rewrite Ep. simpl. rewrite <- app_assoc. apply Permutation_app_head. simpl. apply Permutation_middle. }
  cbv zeta. destruct (pd_is_monitor p), fits; apply (H _ _ (or_introl eq_refl)) || apply (H _ _ (or_intror eq_refl)).
Qed.

Lemma booked_output data s :
  booked (mcp_buffer_output data s) = booked s /\ mp_ctxs (mcp_buffer_output data s) = mp_ctxs s.
Proof.
  unfold mcp_buffer_output. destruct (_ =? 0); [done|]. destruct (grow_output _ _ _ _) as [cap tick].
  cbv zeta. by destruct (cap <? _), (cap <? _).
Qed.

Lemma callback_booked e s :
  mp_ctxs (callback e s) = mp_ctxs s /\
  booked (callback e s) ≡ₚ booked s ++ flat_map (done_ids s) (completed [e]).
Proof.
  assert (forall x : list json, x ≡ₚ x ++ []) as Hnil by (intros x; by rewrite app_nil_r).
  destruct e; cbn [callback completed flat_map app]; try (split; [done|apply Hnil]).
  - (* completion *)
    rewrite app_nil_r. destruct ctx as [|n]; [split; [done|apply Hnil]|]. cbn [done_ids].
    destruct (mp_ctxs s !! n) as [[id key|id pin hold]|]; cbn [option_list flat_map]; rewrite ?app_nil_r;
      [| |by split].
    + split; [done|]. etrans; [apply booked_send|]. cbn [ctx_ids]. apply Permutation_cons_append.
    + destruct id as [id|]; [|cbn [ctx_ids option_list]; rewrite app_nil_r; by split].
      split; [done|]. etrans; [apply booked_send|]. apply Permutation_cons_append.
  - destruct (Nat.eqb i mcp_index); [|split; [done|apply Hnil]].
    destruct (booked_output data s) as [-> ->]. split; [done|apply Hnil].
  - destruct (Nat.eqb i mcp_index); [|split; [done|apply Hnil]].
    destruct (booked_expect_result r incs s) as [H1 H2]. rewrite app_nil_r. by split.
Qed.

Lemma callbacks_booked es s :
  mp_ctxs (callbacks es s) = mp_ctxs s /\
  booked (callbacks es s) ≡ₚ booked s ++ flat_map (done_ids s) (completed es).
Proof.
  revert s. induction es as [|e es IH]; intros s; [simpl; by rewrite app_nil_r|].
  destruct (callback_booked e s) as [H1 H2]. destruct (IH (callback e s)) as [H3 H4].
  change (callbacks (e :: es) s) with (callbacks es (callback e s)). split; [congruence|].
  assert (forall d, done_ids (callback e s) d = done_ids s d) as Hd by (intros []; simpl; by rewrite ?H1).
  rewrite H4, H2. change (e :: es) with ([e] ++ es). rewrite completed_app, flat_map_app, app_assoc.
  apply Permutation_app_head. erewrite flat_map_ext; [done|apply Hd].
Qed.

(** ** Broker operations *)

Lemma segment_accounts w w' es :
  device_ok w -> device_ok w' -> w_trace w' = w_trace w ++ es ->
  in_flight w ++ accepted es = completed es ++ in_flight w'.
Proof.
  intros [H _ _ _ _] [H' _ _ _ _] Et. rewrite Et, accepted_app, completed_app, H in H'.
  rewrite <- !app_assoc in H'. by apply app_inv_head in H'.
Qed.

Lemma done_ids_ctxs s s' d : mp_ctxs s' = mp_ctxs s -> done_ids s' d = done_ids s d.
Proof. intros Hc. destruct d; simpl; by rewrite ?Hc. Qed.

Lemma lift_accounts {A} (m : M A) s w es :
  good (s, w) -> device_ok (run m w) -> w_trace (run m w) = w_trace w ++ es ->
  (forall n, In (DoneSink n) (accepted es) -> (n < length (mp_ctxs s))%nat) ->
  good (prun (lift m) (s, w)) /\ mp_ctxs (fst (prun (lift m) (s, w))) = mp_ctxs s /\
  ledger (prun (lift m) (s, w)) ≡ₚ flat_map (done_ids s) (accepted es) ++ ledger (s, w).
Proof.
  intros [Hd Hn] Hd' Et Ha. pose proof (segment_accounts _ _ _ Hd Hd' Et) as Hs. cbn [fst snd] in *.
  rewrite prun_lift, Et, drop_app_length. destruct (callbacks_booked es s) as [Hc Hb]. unfold good. cbn [fst snd].
  rewrite Hc. split_and!; [done| |done|].
  - intros n Hin. assert (In (DoneSink n) (in_flight w ++ accepted es)) as Hi
      by (rewrite Hs; apply in_or_app; by right).
    apply in_app_or in Hi as [Hi|Hi]; [by apply Hn|by apply Ha].
  - unfold ledger. cbn [fst snd]. rewrite Hb. rewrite (flat_map_ext (done_ids (callbacks es s)) (done_ids s))
      by (intros d; by apply done_ids_ctxs).
    rewrite <- app_assoc, <- flat_map_app, <- Hs, flat_map_app, app_assoc. apply Permutation_app_comm.
Qed.

(** ** Programs of the sink *)

(** [p] adds [D x] to the books when its result is [x]. *)
Definition books {A} (D : A -> list json) (p : P A) : Prop :=
  forall st, good st -> good (prun p st) /\ ledger (prun p st) ≡ₚ D (presult p st) ++ ledger st.
Definition balanced {A} (p : P A) : Prop := books (fun _ => []) p.
(** The same for a program that starts after [pre] was added. *)
Definition owes {A} (pre : list json) (D : A -> list json) (p : P A) : Prop :=
  forall st l, good st -> ledger st ≡ₚ pre ++ l -> good (prun p st) /\ ledger (prun p st) ≡ₚ D (presult p st) ++ l.

Lemma owes_books {A} D (p : P A) : owes [] D p -> books D p.
Proof. intros H st Hst. by apply (H st (ledger st)). Qed.
Lemma owes_ret {A} pre (D : A -> list json) x : pre ≡ₚ D x -> owes pre D (mret x).
Proof. intros Hx st l Hst Hl. split; [done|]. etrans; [exact Hl|]. by apply Permutation_app_tail. Qed.
Lemma presult_bind {A B} (p : P A) (k : A -> P B) st :
  presult (p ≫= k) st = presult (k (presult p st)) (prun p st).
Proof. unfold prun, presult, mbind, P_bind. by destruct (p st). Qed.
Lemma owes_bind {A B} pre D1 D (p : P A) (k : A -> P B) :
  books D1 p -> (forall x, owes (D1 x ++ pre) D (k x)) -> owes pre D (p ≫= k).
Proof.
  intros Hp Hk st l Hst Hl. rewrite prun_bind, presult_bind. destruct (Hp st Hst) as [Hg Hb].
  apply Hk; [done|]. etrans; [exact Hb|]. rewrite <- app_assoc. by apply Permutation_app_head.
Qed.
Lemma owes_step {A B} pre D (p : P A) (k : A -> P B) :
  balanced p -> (forall x, owes pre D (k x)) -> owes pre D (p ≫= k).
Proof. intros Hp Hk. by apply (owes_bind _ (fun _ => [])). Qed.
Lemma balanced_bind {A B} (p : P A) (k : A -> P B) :
  balanced p -> (forall x, balanced (k x)) -> balanced (p ≫= k).
Proof.
  intros Hp Hk st Hst. rewrite prun_bind. destruct (Hp st Hst) as [Hg Hb].
  destruct (Hk (presult p st) (prun p st) Hg) as [Hg' Hb']. split; [done|]. cbn [app] in *. by rewrite Hb'.
Qed.
Lemma balanced_ret {A} (x : A) : balanced (mret x).
Proof. by intros st Hst. Qed.

(** What leaves the books alone. *)
Definition same_books (s s' : sm_mcp_sink) : Prop :=
  mp_stdout s' = mp_stdout s /\ slot_ids s' = slot_ids s /\ mp_ctxs s' = mp_ctxs s.
Lemma same_books_ledger s s' w : same_books s s' -> good (s, w) -> good (s', w) /\ ledger (s', w) = ledger (s, w).
Proof.
  intros (H1 & H2 & H3) [Hd Hn]. split; [split; [done|]; cbn [fst]; by rewrite H3|].
  unfold ledger, booked. cbn [fst snd]. rewrite H1, H2. f_equal. apply flat_map_ext. intros d. by apply done_ids_ctxs.
Qed.
Lemma balanced_on_sink f : (forall s, same_books s (f s)) -> balanced (on_sink f).
Proof.
  intros Hf [s w] Hst. destruct (same_books_ledger _ _ w (Hf s) Hst) as [Hg Hl]. split; [done|].
  cbn [app]. unfold prun, on_sink. cbn [fst]. by rewrite Hl.
Qed.
Lemma balanced_from_sink {A} (f : sm_mcp_sink -> A * sm_mcp_sink) :
  (forall s, same_books s (snd (f s))) -> balanced (from_sink f).
Proof.
  intros Hf [s w] Hst. specialize (Hf s). unfold prun, presult, from_sink. destruct (f s) as [x s'].
  destruct (same_books_ledger _ _ w Hf Hst) as [Hg Hl]. split; [done|]. cbn [fst snd app] in *. by rewrite Hl.
Qed.

Definition nothing (b : sm_broker) (l : link_state) : unit := tt.
#[local] Instance nothing_view : ClientView nothing.
Proof. by intros b l cs. Qed.

Lemma no_sink_accepted es : Forall no_sink_accept es -> forall n, In (DoneSink n) (accepted es) -> False.
Proof.
  induction 1 as [|e es He _ IH]; intros n Hin; [done|]. unfold accepted in *. cbn [flat_map] in Hin.
  apply in_app_or in Hin as [Hin|Hin]; [|by eapply IH]. destruct e; try done. destruct Hin as [-> |[]]. done.
Qed.
Lemma done_ids_none s l : (forall n, In (DoneSink n) l -> False) -> flat_map (done_ids s) l = [].
Proof.
  induction l as [|d l IH]; intros H; [done|]. cbn [flat_map]. rewrite IH by (intros n Hn; apply (H n); by right).
  destruct d as [c|n]; [done|]. exfalso. apply (H n). by left.
Qed.

Lemma balanced_lift {A} (m : M A) :
  inv device_ok m -> keeps nothing no_sink_accept m -> balanced (lift m).
Proof.
  intros Hi Hk [s w] Hst. destruct (Hk w) as [_ (es & Et & He)]. pose proof (no_sink_accepted _ He) as Ha.
  destruct (lift_accounts m s w es Hst) as (Hg & _ & Hl); [by apply Hi, Hst|done|by intros n Hn%Ha|].
  split; [done|]. by rewrite Hl, done_ids_none.
Qed.

Lemma callable_device {A} (m : M A) : callable m -> inv device_ok m.
Proof.
  intros Hm w Hw. destruct (Hm w) as [calls ->].
  assert (inv device_ok (for_each sink_op calls)) as H by (apply inv_for_each, sink_op_ok). by apply H.
Qed.
Lemma balanced_call {A} (m : M A) : callable m -> keeps nothing no_sink_accept m -> balanced (lift m).
Proof. intros Hm Hk. apply balanced_lift; [by apply callable_device|done]. Qed.

(** ** Breaks and resets *)

(** [m] accepts the callback exactly when it returns 0. *)
Definition accepts (d : break_done) (m : M Z) : Prop :=
  forall w, exists es, w_trace (run m w) = w_trace w ++ es /\
    accepted es = if result m w =? 0 then [d] else [].

Lemma no_accept_accepted es : Forall no_accept es -> accepted es = [].
Proof. induction 1 as [|e es He _ IH]; [done|]. by destruct e. Qed.
Lemma accepts_fail d rc : rc <> 0 -> accepts d (mret rc).
Proof. intros Hr w. exists []. rewrite app_nil_r. split; [done|]. cbn. by destruct (Z.eqb_spec rc 0). Qed.
Lemma accepts_bind {A} d (m : M A) k :
  keeps nothing no_accept m -> (forall x, accepts d (k x)) -> accepts d (m ≫= k).
Proof.
  intros Hm Hk w. rewrite run_bind, result_bind. destruct (Hm w) as [_ (es & Et & He)].
  destruct (Hk (result m w) (run m w)) as (es' & Et' & Ha). exists (es ++ es').
  rewrite Et', Et, app_assoc, accepted_app, (no_accept_accepted _ He). done.
Qed.
Lemma accepts_accept d (k : M Z) :
  keeps nothing no_accept k -> (forall w, result k w = 0) -> accepts d (accept (Some d) ;; k).
Proof.
  intros Hk Hr w. rewrite run_bind, result_bind, Hr. unfold accept, emit. unfold run at 2. cbn [fst].
  match goal with |- context [run k ?w1] => destruct (Hk w1) as [_ (es & Et & He)] end.
  exists (EvAccept d :: es). rewrite Et. cbn [w_trace]. rewrite <- app_assoc. split; [done|].
  change (EvAccept d :: es) with ([EvAccept d] ++ es). by rewrite accepted_app, (no_accept_accepted _ He).
Qed.

Ltac accepts_step :=
  lazymatch goal with
  | |- accepts _ (mbind _ (accept _)) =>
      apply accepts_accept; [solve [keeps_tac]|intros ?; rewrite ?result_bind; reflexivity]
  | |- accepts _ (mbind _ _) => apply accepts_bind; [solve [keeps_tac]|intros ?]
  | |- accepts _ (if ?c then _ else _) => destruct c
  | |- accepts _ (mret _) => apply accepts_fail; lia
  end.

Lemma break_accepts d f delay c : accepts (DoneSink c) (sm_broker_schedule_break d f delay (Some (DoneSink c))).
Proof. unfold sm_broker_schedule_break. cbv zeta. repeat accepts_step. Qed.
Lemma reset_accepts pin hold c : accepts (DoneSink c) (sm_broker_schedule_line_reset pin hold (Some (DoneSink c))).
Proof. unfold sm_broker_schedule_line_reset. cbv zeta. repeat accepts_step. Qed.

Lemma done_ids_take s s' k l :
  mp_ctxs s' = mp_ctxs s ++ k -> (forall n, In (DoneSink n) l -> (n < length (mp_ctxs s))%nat) ->
  flat_map (done_ids s') l = flat_map (done_ids s) l.
Proof.
  intros Hc. induction l as [|d l IH]; intros Hl; [done|]. cbn [flat_map].
  rewrite IH by (intros n Hn; apply Hl; by right). f_equal. destruct d as [|n]; [done|]. cbn [done_ids].
  by rewrite Hc, lookup_app_l by (apply Hl; by left).
Qed.

Lemma books_schedule ctx m :
  (forall n, callable (m (DoneSink n))) -> (forall n, accepts (DoneSink n) (m (DoneSink n))) ->
  books (fun ok : bool => if ok then ctx_ids ctx else []) (schedule ctx m).
Proof.
  intros Hc Ha [s w] [Hd Hn]. unfold schedule. rewrite prun_bind, presult_bind.
  set (s1 := {| s with mp_ctxs := mp_ctxs s ++ [ctx] |}). set (n := length (mp_ctxs s)).
  change (presult (from_sink _) (s, w)) with n. change (prun (from_sink _) (s, w)) with (s1, w).
  assert (mp_ctxs s1 = mp_ctxs s ++ [ctx]) as Hs1 by done.
  assert (good (s1, w)) as Hg1.
  { split; [done|]. cbn [fst snd] in *. intros k Hk%Hn. rewrite Hs1, length_app. simpl. lia. }
  assert (ledger (s1, w) = ledger (s, w)) as Hl1.
  { unfold ledger. cbn [fst snd]. f_equal. by apply (done_ids_take _ _ [ctx]). }
  destruct (Ha n w) as (es & Et & Hacc).
  destruct (lift_accounts (m (DoneSink n)) s1 w es Hg1) as (Hg & Hctx & Hl); [by apply callable_device|done| |].
  { intros k Hk. rewrite Hacc in Hk. destruct (_ =? 0); [|done]. destruct Hk as [[= <-]|[]].
    rewrite Hs1, length_app. simpl. lia. }
  rewrite prun_bind, presult_bind. change (presult (lift (m (DoneSink n))) (s1, w)) with (snd (lift (m (DoneSink n)) (s1, w))).
  assert (snd (lift (m (DoneSink n)) (s1, w)) = result (m (DoneSink n)) w) as Hres.
  { unfold lift, result. by destruct (m (DoneSink n) w). }
  rewrite Hres. destruct (result (m (DoneSink n)) w =? 0).
  - split; [done|]. change (presult (mret true) _) with true. cbv iota.
    change (prun (mret true) ?st) with st. rewrite Hl, Hacc, Hl1. cbn [flat_map done_ids].
    unfold n. rewrite Hs1, lookup_app_r, Nat.sub_diag by lia. simpl. by rewrite !app_nil_r.
  - rewrite prun_bind, presult_bind. pose proof (segment_accounts w _ es Hd (callable_device _ (Hc n) w Hd) Et) as Hseg.
    rewrite Hacc, app_nil_r in Hseg. rewrite prun_lift, Et, drop_app_length in Hg, Hctx, Hl |- *.
    set (s2 := callbacks es s1) in *. set (w2 := run (m (DoneSink n)) w) in *.
    change (prun (on_sink _) (s2, w2)) with ({| s2 with mp_ctxs := take n (mp_ctxs s2) |}, w2).
    change (presult (mret false) _) with false. cbv iota. change (prun (mret false) ?st) with st.
    assert (take n (mp_ctxs s2) = mp_ctxs s) as Htake.
    { cbn [fst] in Hctx. rewrite Hctx, Hs1. apply take_app_length. }
    assert (forall k, In (DoneSink k) (in_flight w2) -> (k < length (mp_ctxs s))%nat) as Hfl.
    { intros k Hk. apply Hn. cbn [snd]. rewrite Hseg. apply in_or_app. by right. }
    split.
    + split; [apply Hg|]. cbn [fst snd mp_ctxs]. by rewrite Htake.
    + rewrite Hacc in Hl. cbn [flat_map app] in Hl. rewrite Hl1 in Hl. cbn [app]. rewrite <- Hl.
      unfold ledger. cbn [fst snd]. apply Permutation_app; [done|].
      rewrite (done_ids_take {| s2 with mp_ctxs := take n (mp_ctxs s2) |} s2 [ctx]); [done| |].
      * cbn [mp_ctxs]. rewrite Htake. by rewrite <- Hs1.
      * cbn [mp_ctxs]. by rewrite Htake.
Qed.

(** ** The tools *)

Section call.
Context (id : json).

Lemma books_alloc_pending eid :
  books (fun o : option nat => match o with Some _ => [id] | None => [] end) (alloc_pending (Some id) eid).
Proof.
  intros [s w] Hst. unfold alloc_pending, prun, presult, from_sink, mcp_alloc_pending.
  destruct (find_slot is_free 0 (mp_pending s)) as [[i p]|] eqn:Ef; cbn [fst snd app]; [|done].
  apply find_slot_spec in Ef as (l1 & l2 & El & -> & Hf). unfold is_free in Hf.
  destruct (pd_jsonrpc_id p) eqn:Ep; [done|]. split; [exact Hst|].
  unfold ledger, booked, slot_ids. cbn [fst snd mp_stdout mp_pending]. simpl (0 + length l1)%nat.
  rewrite El, insert_middle, !flat_map_app. cbn [flat_map pd_jsonrpc_id]. rewrite Ep. simpl.
  rewrite <- !app_assoc. cbn [app]. symmetry. rewrite (app_assoc (map msg_id _)). rewrite Permutation_middle.
  by rewrite <- !app_assoc.
Qed.

Lemma balanced_set_pending i f :
  (forall p, pd_jsonrpc_id (f p) = pd_jsonrpc_id p) -> balanced (set_pending i f).
Proof.
  intros Hf. apply balanced_on_sink. intros s. split_and!; [done| |done]. unfold slot_ids. cbn [mp_pending].
  generalize (mp_pending s). intros l. revert i.
  induction l as [|p l IH]; intros [|i]; [done..| |]; cbn; [by rewrite Hf|by rewrite IH].
Qed.

Lemma balanced_gen : balanced gen_expect_id.
Proof. by apply balanced_from_sink. Qed.
Lemma balanced_drain : balanced (from_sink mcp_drain_output).
Proof. apply balanced_from_sink. intros s. unfold mcp_drain_output. by destruct (_ =? 0). Qed.
Lemma balanced_undefined : balanced (on_sink set_undefined).
Proof. by apply balanced_on_sink. Qed.
Lemma balanced_status : balanced (lift (sm_broker_status_json None)).
Proof. apply balanced_call; [apply call_status|keeps_tac]. Qed.
#[local] Hint Resolve balanced_ret balanced_gen balanced_drain balanced_undefined balanced_status : mcp.
#[local] Hint Resolve call_write call_expect_add call_cancel_id call_cancel_client call_broadcast call_alloc
  call_now call_gets call_link_view call_rule call_watchdog call_suspend call_resume
  call_break call_reset callable_query break_accepts reset_accepts : mcp.

Ltac balanced_step :=
  lazymatch goal with
  | |- balanced (mbind _ _) => apply balanced_bind; [|intros ?]
  | |- balanced (if ?c then _ else _) => destruct c
  | |- balanced (match ?c with _ => _ end) => destruct c
  | |- balanced (set_pending _ _) => apply balanced_set_pending; intros ?; reflexivity
  | |- balanced (on_sink _) => first [solve [auto with mcp] | apply balanced_on_sink; intros ?; by split_and!]
  | |- balanced (from_sink _) => first [solve [auto with mcp] | apply balanced_from_sink; intros ?; by split_and!]
  | |- balanced (lift _) => first [solve [auto with mcp] | apply balanced_call; [solve [auto with mcp]|solve [keeps_tac]]]
  | |- balanced ?p => first [solve [auto with mcp] | let h := head_of p in progress unfold h]
  end.
Ltac balanced_tac := repeat balanced_step.

(** An answer at once adds nothing yet; a deferred one has the id booked. *)
Definition promised (a : answer) : list json := match fst a with Some _ => [] | None => [id] end.

Ltac owes_step :=
  lazymatch goal with
  | |- owes _ _ (mbind _ (alloc_pending _ _)) => eapply owes_bind; [apply books_alloc_pending|intros [?|]]
  | |- owes _ _ (mbind _ (schedule _ _)) =>
      eapply owes_bind; [apply books_schedule; intros ?; solve [auto with mcp]|intros [|]; cbn [negb]]
  | |- owes _ _ (mbind _ _) => apply owes_step; [solve [balanced_tac]|intros ?]
  | |- owes _ _ (if ?c then _ else _) => destruct c
  | |- owes _ _ (match ?c with _ => _ end) => destruct c
  | |- owes _ _ (mret _) => apply owes_ret; reflexivity
  | |- owes _ _ ?p => let h := head_of p in progress unfold h
  end.
Ltac owes_tac := repeat owes_step.

Lemma pin_control_books args : books promised (tool_serial_pin_control args (Some id)).
Proof.
  apply owes_books. unfold tool_serial_pin_control. destruct (sm_json_get_string args "pin") as [pin|]; [|owes_tac].
  destruct (sm_json_get_string args "action") as [action|]; [|owes_tac]. cbv zeta.
  destruct (pin_is_line_control pin) eqn:Hp; cbn [negb]; [|owes_tac].
  destruct (streq pin "break") eqn:Hb; [owes_tac|].
  apply owes_step; [apply balanced_call; [by apply call_param|keeps_tac]|intros rc; owes_tac].
Qed.

Lemma reset_books args : books promised (tool_serial_reset args (Some id)).
Proof.
  apply owes_books. unfold tool_serial_reset. cbv zeta.
  destruct (nonempty (sm_json_get_string args "wait_pattern")); owes_tac.
Qed.

Lemma tool_books name args : books promised (run_tool name args (Some id)).
Proof.
  unfold run_tool.
  repeat (destruct (streq name _); [first [apply pin_control_books | apply reset_books | apply owes_books; solve [owes_tac]]|]).
  apply owes_books. owes_tac.
Qed.

Lemma books_send key v : books (fun _ => [id]) (on_sink (mcp_write_json (rpc_message (Some id) key v))).
Proof.
  intros [s w] Hst. split; [exact Hst|]. unfold prun, on_sink, ledger. cbn [fst snd app].
  rewrite app_comm_cons. apply Permutation_app; [apply booked_send|].
  by rewrite (flat_map_ext _ (done_ids s)) by (intros d; by apply done_ids_ctxs).
Qed.

Lemma dispatch_books name args : books promised (mcp_tool_dispatch name args (Some id)).
Proof.
  unfold mcp_tool_dispatch. cbv zeta. apply owes_books. destruct (_ && _); [owes_tac|].
  apply owes_step; [balanced_tac|]. intros t. destruct (_ && _); [owes_tac|].
  eapply owes_bind; [apply tool_books|]. intros [[text|] st]; apply owes_ret; by rewrite app_nil_r.
Qed.

Lemma tools_call_books params : books (fun _ => [id]) (handle_tools_call (Some id) params).
Proof.
  unfold handle_tools_call. destruct (sm_json_get_string params "name") as [name|]; [|apply books_send].
  apply owes_books. eapply owes_bind; [apply dispatch_books|]. intros [[text|] st]; cbn [promised fst app].
  - intros st' l Hst Hl. destruct (books_send "result" (sm_mcp_tool_call_result (Some name) (Some text) st) st' Hst) as [Hg Hb].
    split; [done|]. etrans; [exact Hb|]. by apply Permutation_app_head.
  - by apply owes_ret.
Qed.

Lemma initialize_books : books (fun _ => [id]) (handle_initialize (Some id)).
Proof.
  apply owes_books. eapply (owes_bind _ (fun _ => [id])); [apply books_send|]. intros _ st l Hst Hl.
  destruct (balanced_on_sink (fun s => {| s with mp_initialized := true |}) ltac:(by intros) st Hst) as [Hg Hb].
  split; [done|]. by rewrite Hb.
Qed.

Lemma message_books msg m :
  get_item msg "id" = Some id -> sm_json_get_string msg "method" = Some m -> m <> "notifications/initialized" ->
  books (fun _ => [id]) (dispatch_message msg).
Proof.
  intros Hid Hm Hn. unfold dispatch_message. cbv zeta. rewrite Hid, Hm.
  destruct (streq m "initialize"); [apply initialize_books|].
  destruct (streq m "notifications/initialized") eqn:Ei; [by apply streq_spec in Ei|].
  destruct (streq m "tools/list"); [apply books_send|]. destruct (streq m "tools/call"); [apply tools_call_books|].
  destruct (streq m "prompts/list"); [apply books_send|]. destruct (streq m "prompts/get"); [|apply books_send].
  unfold handle_prompts_get. destruct (nonempty _) as [name|]; [|apply books_send].
  destruct (sm_mcp_serial_prompt_get _ _) as [[text desc]|]; apply books_send.
Qed.
End call.


(** ** The broker's own events *)

Lemma remove_client_accept k : keeps nothing no_sink_accept (remove_client k).
Proof.
  intros w. unfold remove_client, run. destruct (find_key k _) as [c|]; [|done].
  destruct (key_index k 0 _) as [i|]; [|done]. split; [done|]. exists [EvHangup k].
  split; [done|]. by constructor.
Qed.
#[local] Hint Resolve remove_client_accept : broker.
Lemma replace_loop_accept k name i : keeps nothing no_sink_accept (replace_loop k name i).
Proof. induction i; cbn [replace_loop]; keeps_tac. Qed.
Lemma add_patterns_accept items n : keeps nothing no_sink_accept (add_patterns items n).
Proof. revert n. induction items; intros n; cbn [add_patterns]; keeps_tac. Qed.
Lemma drop_stale_accept now gone i : keeps nothing no_sink_accept (drop_stale now gone i).
Proof. induction i; cbn [drop_stale]; keeps_tac. Qed.
#[local] Hint Resolve replace_loop_accept add_patterns_accept drop_stale_accept : broker.
Lemma handle_client_message_accept k msg : keeps nothing no_sink_accept (handle_client_message k msg).
Proof. unfold handle_client_message, with_client, dispatch. keeps_tac. Qed.
#[local] Hint Resolve handle_client_message_accept : broker.
Lemma client_input_accept fuel k reads : keeps nothing no_sink_accept (client_input fuel k reads).
Proof. revert reads. induction fuel; intros reads; cbn [client_input]; keeps_tac. Qed.
Lemma flush_client_queues_accept fuel i : keeps nothing no_sink_accept (flush_client_queues fuel i).
Proof. revert i. induction fuel; intros i; cbn [flush_client_queues]; keeps_tac. Qed.
Lemma link_drain_chunk_accept buf : keeps nothing no_sink_accept (link_drain_chunk buf).
Proof. keeps_tac. Qed.
#[local] Hint Resolve client_input_accept flush_client_queues_accept link_drain_chunk_accept : broker.
Lemma drain_link_fd_accept n first env : keeps nothing no_sink_accept (drain_link_fd n first env link_drain_chunk).
Proof. revert first env. induction n; intros first env; destruct env; cbn [drain_link_fd]; keeps_tac. Qed.
#[local] Hint Resolve drain_link_fd_accept : broker.
Lemma process_link_data_accept env : keeps nothing no_sink_accept (process_link_data env).
Proof.
  intros w. unfold process_link_data, run. destruct (link_read_fd (w_link w) <? 0); [done|]. revert w.
  change (keeps nothing no_sink_accept (rc ← drain_link_fd SM_LINK_DRAIN_MAX_READS true env link_drain_chunk;
    when (rc =? 1) handle_link_disconnect)). keeps_tac.
Qed.
#[local] Hint Resolve process_link_data_accept : broker.

Definition is_sink_event (e : loop_event) : bool := match e with LeSink _ => true | _ => false end.

Lemma event_balanced e : is_sink_event e = false -> balanced (lift (process_event e)).
Proof.
  intros He. apply balanced_lift; [apply process_event_ok|]. destruct e; try done; cbn [process_event]; keeps_tac.
Qed.

Lemma head_balanced : balanced (lift turn_head).
Proof. apply balanced_lift; unfold turn_head; [exact before_events_ok|keeps_tac]. Qed.
Lemma tail_balanced gone : balanced (lift (turn_tail gone)).
Proof. apply balanced_lift; unfold turn_tail; [exact (after_events_ok gone)|keeps_tac]. Qed.

(** The broker's own events settle the books.  While the broker runs its
    loop -- clients, timers, the link, expect results and finished breaks
    included -- ids only move: from the pending table or the break in flight
    to standard output. *)
Theorem mcp_events_settle events gone st :
  good st -> Forall (fun e => is_sink_event e = false) events ->
  let st' := prun (mcp_turn (map McpBroker events) gone) st in
  good st' /\ ledger st' ≡ₚ ledger st.
Proof.
  intros Hst Hes. assert (balanced (mcp_turn (map McpBroker events) gone)) as H; [|by apply H].
  unfold mcp_turn. apply balanced_bind; [apply head_balanced|intros _].
  apply balanced_bind; [|intros _; apply tail_balanced].
  induction Hes as [|e es He _ IH]; [apply balanced_ret|]. cbn [map pfor_each mcp_process].
  apply balanced_bind; [by apply event_balanced|by intros _].
Qed.
End ledger.
