(* ===== verification/McpProps.v ===== *)
(** The MCP sink: that its results have the announced shape, and runs of it. *)

(** * What the MCP tools return

    Structured results conform to the schemas the tools declare, the output
    buffer holds the tail of the output and never overflows, and where results
    go wrong. *)
From stdpp Require Import pretty.
From S2P Require Import Prelude Cstr RingBuffer Json CJson Protocol Regex Expect BootStage Autoresponder.
From S2P Require Import Anomaly McpText Effects Client BrokerState McpResults BrokerOps BrokerLink BrokerHandlers BrokerLoop.
From S2P Require Import McpTools BrokerDemo BrokerFrame BrokerDevice BrokerMcp McpLedger.

#[local] Open Scope string_scope.
#[local] Open Scope list_scope.
#[local] Open Scope Z_scope.
#[local] Open Scope json_scope.

Section conform.
Context {L : LinkOps} {E : SystemEnv} {J : JsonText} {R : RegexLib} {X : McpEnv}.

(** ** The status *)

Lemma get_add_item o k v k' :
  get_item (add_item k v o) k' =
  match get_item o k' with
  | Some x => Some x
  | None => match o with JObj _ => if streq k k' then Some v else None | _ => None end
  end.
Proof. destruct o; try done. cbn. rewrite assoc_first_app. by destruct (assoc_first k' l). Qed.

Lemma get_item_kept o k v k' x : get_item o k' = Some x -> get_item (add_item k v o) k' = Some x.
Proof. intros H. by rewrite get_add_item, H. Qed.

Lemma merge_kept l o k x : get_item o k = Some x -> get_item (merge_link_status l o) k = Some x.
Proof.
  unfold merge_link_status. revert o. induction l as [|[key v] l IH]; intros o H; [done|]. cbn [fold_left].
  apply IH. destruct (get_item o key); [done|]. by apply get_item_kept.
Qed.

Lemma status_clients b id conn st mono real :
  get_item (status_members b id conn st mono real) "clients" = Some (JArr (map client_status (b_clients b))).
Proof.
  unfold status_members. cbv zeta.
  assert (forall o k s, get_item o "clients" = Some (JArr (map client_status (b_clients b))) ->
    get_item (add_string_opt k s o) "clients" = Some (JArr (map client_status (b_clients b)))) as Hopt.
  { intros o k [s|] H; [by apply get_item_kept|done]. }
  destruct (bt_count (b_boot b) =? 0)%nat; [|apply get_item_kept];
    apply Hopt, Hopt, get_item_kept, merge_kept; reflexivity.
Qed.

Lemma client_pid_integral c v : get_item (client_status c) "pid" = Some v -> integral v = true.
Proof.
  unfold client_status. cbv zeta. destruct (0 <? cl_peer_pid c).
  - intros H. cbn in H. injection H as <-. unfold integral. by rewrite of_int_integral.
  - intros H. cbn in H. done.
Qed.

Lemma status_pids b id conn st mono real : pids_integral (status_members b id conn st mono real).
Proof.
  unfold pids_integral. rewrite status_clients. cbn [elements]. apply Forall_map.
  apply Forall_true. intros c v. apply client_pid_integral.
Qed.

(** ** The page *)

Lemma page_chunks_conform max skip enc cs :
  forallb (validates 2 (object_schema chunk_props |> set_required ["text"; "timestamp"])) (page_chunks max skip enc cs) = true.
Proof.
  revert skip enc. induction cs as [|c cs IH]; intros skip enc; [done|]. cbn [page_chunks]. cbv zeta.
  destruct (_ =? 0); [done|]. cbn [forallb]. apply andb_true_iff. split; [|by destruct (_ <=? _)].
  eapply obj_ok_validates; [repeat conform_step|conform_required].
Qed.

(** ** Results *)

Lemma presult_lift {A} (m : M A) s w : presult (lift m) (s, w) = result m w.
Proof. unfold presult, lift, result. by destruct (m w). Qed.

(** A tool that declares a schema answers with content that conforms. *)
Definition conforming (schema : json) (a : answer) : Prop :=
  match snd a with Some v => validates 4 schema v = true | None => True end.

Lemma conforming_bind {A} schema (p : P A) k st :
  (forall x st', conforming schema (presult (k x) st')) -> conforming schema (presult (p ≫= k) st).
Proof. intros H. rewrite presult_bind. apply H. Qed.

Lemma port_status_answer st : conforming port_status_schema (presult tool_serial_port_status st).
Proof.
  destruct st as [s w]. unfold tool_serial_port_status. rewrite presult_bind, presult_lift.
  apply port_status_conforms, status_pids.
Qed.
Lemma boot_status_answer st : conforming boot_status_schema (presult tool_serial_boot_status st).
Proof. apply conforming_bind. intros x st'. apply boot_status_conforms. Qed.
Lemma incidents_answer args st : conforming incidents_schema (presult (tool_serial_get_incidents args) st).
Proof. apply conforming_bind. intros x st'. apply conforming_bind. intros y st''. apply incidents_conform. Qed.
Lemma list_ports_answer st : conforming list_ports_schema (presult tool_serial_list_ports st).
Proof. apply conforming_bind. intros scan st'. apply list_ports_conform. Qed.

Lemma page_structured_conforms since max st :
  validates 4 history_schema (sm_mcp_history_page_structured (presult (history_json_page since max) st)) = true.
Proof.
  unfold history_json_page. rewrite !presult_bind. set (p := sm_rb_get_since_seq _ _ _ _).
  eapply obj_ok_validates.
  - unfold sm_mcp_history_page_structured. change (presult (mret ?x) ?s) with x.
    conform_step. conform_step; [repeat conform_step|]. apply validates_items, page_chunks_conform.
  - conform_required.
Qed.

Lemma history_answer args st : conforming history_schema (presult (tool_serial_output_history args) st).
Proof.
  unfold tool_serial_output_history.
  assert (forall st', conforming history_schema (presult (
    ok ← mcp_alloc; rb ← with_broker b_history;
    chunks ← (if 0 <? sm_json_get_int args "last_bytes" 0 then mret (sm_rb_get_last_n_bytes ok rb (sm_json_get_int args "last_bytes" 0))
              else if 0 <? sm_json_get_double args "seconds" 0 then
                now ← lift sm_now_realtime; mret (sm_rb_get_since ok rb (now - sm_json_get_double args "seconds" 0))
              else mret (sm_rb_get_all ok rb));
    if (length chunks =? 0)%nat then mret (Some "(no output in history)", Some (sm_mcp_history_text_structured "")) else
    if zlen (history_text chunks) =? 0 then mret (Some "(no output in history)", Some (sm_mcp_history_text_structured ""))
    else mret (Some (string_of_bytes (history_text chunks)), Some (sm_mcp_history_text_structured (string_of_bytes (history_text chunks))))) st')) as Htext.
  { intros st'. do 3 (apply conforming_bind; intros ? ?).
    destruct (_ =? 0)%nat; [apply history_text_conforms|]. destruct (_ =? 0); apply history_text_conforms. }
  destruct (get_item args "since_seq") as [[]|]; try apply Htext.
  destruct (to_u64 d) as [since|]; [|by apply conforming_bind].
  rewrite presult_bind. unfold conforming. apply page_structured_conforms.
Qed.

Lemma schema_answer name args id st schema :
  sm_mcp_output_schema (Some name) = Some schema -> conforming schema (presult (run_tool name args id) st).
Proof.
  cbn [sm_mcp_output_schema]. intros H.
  destruct (streq name "serial_port_status") eqn:E1;
    [apply streq_spec in E1 as ->; injection H as <-; apply port_status_answer|].
  destruct (streq name "serial_boot_status") eqn:E2;
    [apply streq_spec in E2 as ->; injection H as <-; apply boot_status_answer|].
  destruct (streq name "serial_get_incidents") eqn:E3;
    [apply streq_spec in E3 as ->; injection H as <-; apply incidents_answer|].
  destruct (streq name "serial_list_ports") eqn:E4;
    [apply streq_spec in E4 as ->; injection H as <-; apply list_ports_answer|].
  destruct (streq name "serial_output_history") eqn:E5;
    [apply streq_spec in E5 as ->; injection H as <-; apply history_answer|done].
Qed.

Lemma dispatch_answer name args id st schema :
  sm_mcp_output_schema (Some name) = Some schema ->
  conforming schema (presult (mcp_tool_dispatch name args id) st).
Proof.
  intros Hs. unfold mcp_tool_dispatch. cbv zeta. destruct (_ && _); [done|].
  apply conforming_bind. intros t st'. destruct (_ && _); [done|]. rewrite presult_bind.
  pose proof (schema_answer name args id st' schema Hs) as Ha.
  by destruct (presult (run_tool name args id) st') as [[text|] sc].
Qed.

(** C23: no result claims success without content that conforms.  For every tool
    that declares an outputSchema, whatever its arguments and whatever the
    broker's state, the tools/call result either carries isError or a
    structuredContent that validates against the declared schema. *)
Theorem mcp_results_conform name args id st text sc schema :
  sm_mcp_output_schema (Some name) = Some schema ->
  presult (mcp_tool_dispatch name args id) st = (Some text, sc) ->
  let r := sm_mcp_tool_call_result (Some name) (Some text) sc in
  get_item r "isError" = Some (JBool true) \/
  exists v, get_item r "structuredContent" = Some v /\ validates 4 schema v = true.
Proof.
  intros Hs Hr. pose proof (dispatch_answer name args id st schema Hs) as Hc. rewrite Hr in Hc.
  unfold sm_mcp_tool_call_result, sm_mcp_tool_has_output_schema. rewrite Hs. cbv zeta.
  change (default "(allocation failed)" (Some text)) with text.
  destruct sc as [v|]; destruct (is_error_text text); try by left. right. exists v. by split.
Qed.
End conform.

(** ** The output buffer *)

Section output.
Context {X : McpEnv}.

Definition output_ok (s : sm_mcp_sink) : Prop :=
  8192 <= mp_output_cap s <= SM_MCP_OUTPUT_BUFFER_MAX /\ zlen (mp_output s) <= mp_output_cap s /\
  mp_undefined s = false.

Lemma grow_output_bounds fuel need cap tick :
  8192 <= cap <= SM_MCP_OUTPUT_BUFFER_MAX ->
  8192 <= fst (grow_output fuel need cap tick) <= SM_MCP_OUTPUT_BUFFER_MAX /\
  cap <= fst (grow_output fuel need cap tick).
Proof.
  revert cap tick. induction fuel as [|f IH]; intros cap tick Hc; cbn [grow_output]; [simpl; lia|].
  destruct (_ && _); [|simpl; lia]. destruct (mcp_realloc tick); [|simpl; lia].
  specialize (IH (Z.min (cap * 2) SM_MCP_OUTPUT_BUFFER_MAX) (S tick)). unfold SM_MCP_OUTPUT_BUFFER_MAX in *. lia.
Qed.

(** With memory the buffer grows until the need or the maximum is met. *)
Lemma grow_output_enough fuel need cap tick :
  (forall n, mcp_realloc n = true) -> 8192 <= cap -> (SM_MCP_OUTPUT_BUFFER_MAX <= cap * 2 ^ Z.of_nat fuel) ->
  Z.min need SM_MCP_OUTPUT_BUFFER_MAX <= fst (grow_output fuel need cap tick).
Proof.
  intros Hr. revert cap tick. induction fuel as [|f IH]; intros cap tick Hc Hf; cbn [grow_output]; [simpl in *; lia|].
  destruct (Z.ltb_spec cap need); cbn [andb]; [|simpl; lia].
  destruct (Z.ltb_spec cap SM_MCP_OUTPUT_BUFFER_MAX); [|simpl; lia]. rewrite Hr. apply IH.
  - unfold SM_MCP_OUTPUT_BUFFER_MAX in *. lia.
  - rewrite Nat2Z.inj_succ, Z.pow_succ_r in Hf by lia. destruct (Z.min_spec (cap * 2) SM_MCP_OUTPUT_BUFFER_MAX) as [[_ ->]|[_ ->]]; [lia|].
    assert (1 <= 2 ^ Z.of_nat f) by (apply (Z.pow_le_mono_r 2 0); lia). unfold SM_MCP_OUTPUT_BUFFER_MAX in *. nia.
Qed.

Lemma evict_room len valid cap :
  0 <= len <= cap -> 0 <= valid <= cap -> cap < len + valid ->
  0 <= evict_amount len valid cap <= len /\ len - evict_amount len valid cap + valid <= cap.
Proof.
  intros Hl Hv Hc. unfold evict_amount. destruct (Z.ltb_spec len (len + valid - cap)); [lia|].
  assert (0 <= cap / 2) by (apply Z.div_pos; lia).
  destruct (Z.ltb_spec (len + valid - cap) (cap / 2)).
  - destruct (Z.ltb_spec len (cap / 2)); lia.
  - destruct (Z.ltb_spec len (len + valid - cap)); lia.
Qed.

Lemma strip_nul_length l : zlen (strip_nul l) <= zlen l.
Proof. unfold strip_nul, zlen. pose proof (List.filter_length_le (fun c => negb (c =? 0)) l). lia. Qed.

Lemma buffer_output_spec data s :
  output_ok s -> zlen data <= 8192 ->
  output_ok (mcp_buffer_output data s) /\
  (exists old, old `suffix_of` mp_output s /\ mp_output (mcp_buffer_output data s) = old ++ strip_nul data) /\
  ((forall n, mcp_realloc n = true) -> zlen (mp_output s) + zlen data <= SM_MCP_OUTPUT_BUFFER_MAX ->
   mp_output (mcp_buffer_output data s) = mp_output s ++ strip_nul data).
Proof.
  intros (Hc & Hl & Hu) Hd. pose proof (strip_nul_length data) as Hs. pose proof (zlen_nonneg (strip_nul data)).
  pose proof (zlen_nonneg (mp_output s)). unfold mcp_buffer_output.
  destruct (Z.eqb_spec (zlen (strip_nul data)) 0) as [E|E].
  { apply zlen_zero in E. rewrite E. split; [done|]. split; [exists (mp_output s)|]; by rewrite ?app_nil_r. }
  set (need := zlen (mp_output s) + zlen (strip_nul data)).
  pose proof (grow_output_bounds 64 need (mp_output_cap s) (mp_tick s) Hc) as [Hb Hb'].
  pose proof (grow_output_enough 64 need (mp_output_cap s) (mp_tick s)) as Hen.
  destruct (grow_output 64 need (mp_output_cap s) (mp_tick s)) as [cap tick]. cbn [fst] in *. cbv zeta. cbn [mp_output].
  destruct (Z.ltb_spec cap need) as [Hn|Hn].
  - destruct (evict_room (zlen (mp_output s)) (zlen (strip_nul data)) cap) as [He Hr]; [lia|lia|done|].
    rewrite (proj2 (Z.ltb_ge _ _)) by (rewrite zlen_app, zlen_zdrop; lia). cbn [mp_output]. split_and!.
    + split_and!; cbn [mp_output mp_output_cap mp_undefined]; [lia..| |done]. rewrite zlen_app, zlen_zdrop. lia.
    + eexists. split; [|done]. exists (ztake (evict_amount (zlen (mp_output s)) (zlen (strip_nul data)) cap) (mp_output s)).
      symmetry. apply ztake_zdrop.
    + intros Hm Ht. exfalso. specialize (Hen Hm). unfold need, SM_MCP_OUTPUT_BUFFER_MAX in *. lia.
  - rewrite (proj2 (Z.ltb_ge _ _)) by (rewrite zlen_app; lia). cbn [mp_output]. split_and!; [| |done].
    + split_and!; cbn [mp_output mp_output_cap mp_undefined]; [lia..| |done]. rewrite zlen_app. lia.
    + by exists (mp_output s).
Qed.

(** Serial_read returns the tail of the output.  From a fresh sink, whatever
    chunks of at most 8 KiB the broker delivers, the buffer never overflows,
    and what a read then returns is the end of everything that was delivered,
    NULs aside: all of it when there is memory and no more than 1 MiB, and in
    any case the whole last chunk. *)
Theorem mcp_output_tail chunks data :
  Forall (fun c => zlen c <= 8192) chunks -> zlen data <= 8192 ->
  let s := fold_left (fun s c => mcp_buffer_output c s) (chunks ++ [data]) sm_mcp_sink_new in
  let all := strip_nul (mjoin (chunks ++ [data])) in
  output_ok s /\ mp_output s `suffix_of` all /\ strip_nul data `suffix_of` mp_output s /\
  ((forall n, mcp_realloc n = true) -> zlen (mjoin (chunks ++ [data])) <= SM_MCP_OUTPUT_BUFFER_MAX -> mp_output s = all).
Proof.
  intros Hcs Hd. cbv zeta. rewrite fold_left_app. cbn [fold_left].
  assert (Hgen : forall cs s0 pre, Forall (fun c => zlen c <= 8192) cs -> output_ok s0 -> mp_output s0 `suffix_of` strip_nul pre ->
    let s := fold_left (fun s c => mcp_buffer_output c s) cs s0 in
    output_ok s /\ mp_output s `suffix_of` strip_nul (pre ++ mjoin cs) /\
    ((forall n, mcp_realloc n = true) -> mp_output s0 = strip_nul pre -> zlen (pre ++ mjoin cs) <= SM_MCP_OUTPUT_BUFFER_MAX ->
     mp_output s = strip_nul (pre ++ mjoin cs))).
  { intros cs. induction cs as [|c cs IH]; intros s0 pre Hf H0 Hp; cbn [fold_left].
    { change (mjoin []) with (@nil Z). rewrite app_nil_r. done. }
    apply Forall_cons in Hf as [Hc Hf]. destruct (buffer_output_spec c s0 H0 Hc) as (H1 & (old & [k Hk] & Ho) & H2).
    change (mjoin (c :: cs)) with (c ++ mjoin cs). rewrite app_assoc.
    specialize (IH (mcp_buffer_output c s0) (pre ++ c) Hf H1). destruct IH as (A1 & A2 & A3).
    { rewrite Ho. destruct Hp as [j Hj]. unfold strip_nul in *. rewrite List.filter_app, Hj, Hk. exists (j ++ k). by rewrite !app_assoc. }
    split_and!; [done..|]. intros Hm Heq Ht. apply A3; [done| |done]. unfold strip_nul in *. rewrite List.filter_app, <- Heq.
    apply H2; [done|]. rewrite Heq. pose proof (strip_nul_length pre) as Hs. unfold strip_nul in Hs.
    rewrite !zlen_app in Ht. pose proof (zlen_nonneg (mjoin cs)). lia. }
  destruct (Hgen chunks sm_mcp_sink_new [] Hcs) as (H1 & H2 & H3); [by vm_compute|by exists []|]. cbn [app] in H2, H3.
  destruct (buffer_output_spec data _ H1 Hd) as (H4 & (old & [k Hk] & Ho) & H5).
  assert (strip_nul (mjoin (chunks ++ [data])) = strip_nul (mjoin chunks) ++ strip_nul data) as ->.
  { rewrite mjoin_app. change (mjoin [data]) with (data ++ []). rewrite app_nil_r. apply List.filter_app. }
  split_and!; [done| | |].
  - rewrite Ho. destruct H2 as [j Hj]. rewrite Hj, Hk. exists (j ++ k). by rewrite !app_assoc.
  - rewrite Ho. by exists old.
  - intros Hm Ht. rewrite mjoin_app in Ht. change (mjoin [data]) with (data ++ []) in Ht. rewrite app_nil_r, zlen_app in Ht.
    rewrite H5; [|done|]; rewrite H3; try done; pose proof (zlen_nonneg data); try lia.
    pose proof (strip_nul_length (mjoin chunks)). lia.
Qed.
End output.

(** * The MCP sink at work

    A concrete sink beside the broker of [BrokerDemo]: runs, the witnesses of the
    MCP theorems, and calls that are never answered. *)

#[local] Open Scope string_scope.
#[local] Open Scope list_scope.
#[local] Open Scope Z_scope.
#[local] Open Scope json_scope.

(** ** Calls a suspension strands *)

(** No expect result is handed to a sink. *)
Definition no_sink_expect (e : event) : Prop :=
  match e with EvSinkExpect _ _ _ => False | _ => True end.
#[export] Instance Talk_no_sink_expect : Talk no_sink_expect.
Proof. by intros []. Qed.

Section strand.
Context {L : LinkOps} {E : SystemEnv} {J : JsonText} {R : RegexLib} {X : McpEnv}.

Lemma buffer_output_pending data s : mp_pending (mcp_buffer_output data s) = mp_pending s.
Proof.
  unfold mcp_buffer_output. destruct (_ =? 0); [done|]. destruct (grow_output _ _ _ _). cbv zeta. by destruct (_ <? _).
Qed.

Lemma callback_pending e s : no_sink_expect e -> mp_pending (callback e s) = mp_pending s.
Proof.
  destruct e; try done; cbn [callback]; intros _.
  - destruct ctx as [|n]; [done|]. by destruct (mp_ctxs s !! n) as [[|[id|]]|].
  - destruct (Nat.eqb _ _); [apply buffer_output_pending|done].
Qed.

Lemma callbacks_pending es s : Forall no_sink_expect es -> mp_pending (callbacks es s) = mp_pending s.
Proof.
  intros H. revert s. induction H as [|e es He _ IH]; intros s; [done|].
  unfold callbacks in *. cbn [fold_left]. by rewrite IH, callback_pending.
Qed.

Definition expects (b : sm_broker) (l : link_state) : list sm_expect_request :=
  eng_requests (b_expect b).
#[local] Instance expects_view : ClientView expects.
Proof. by intros b l cs. Qed.
Definition nothing_kept (b : sm_broker) (l : link_state) : unit := tt.
#[local] Instance nothing_kept_view : ClientView nothing_kept.
Proof. by intros b l cs. Qed.

Lemma suspend_forgets name w :
  lf_suspended (b_link (w_b w)) = false ->
  eng_requests (b_expect (w_b (run (sm_broker_do_suspend name) w))) = [].
Proof.
  intros Hs. unfold sm_broker_do_suspend. rewrite run_lflag, Hs. do 3 rewrite run_bind.
  unfold mod_expect. rewrite run_modify.
  match goal with |- context [run ?m {| ?w1 with w_b := ?b |}] => set (rest := m); set (w2 := {| w1 with w_b := b |}) end.
  assert (keeps expects any_event rest) as Hk by keeps_tac.
  destruct (Hk w2) as [He _]. exact He.
Qed.

(** Suspending the port strands the calls that wait for it.  When
    serial_suspend succeeds every expect is forgotten without a result, but the
    pending table keeps the calls: nothing is left that could answer them. *)
Theorem mcp_suspend_strands s w :
  lf_suspended (b_link (w_b w)) = false ->
  let st := prun tool_serial_suspend (s, w) in
  eng_requests (b_expect (w_b (snd st))) = [] /\ mp_pending (fst st) = mp_pending s.
Proof.
  intros Hs. cbv zeta. unfold tool_serial_suspend.
  pose proof (suspend_forgets "mcp" w Hs) as He.
  assert (keeps nothing_kept no_sink_expect (sm_broker_do_suspend "mcp")) as Hk by keeps_tac.
  destruct (Hk w) as [_ (t & Ht & Hq)].
  assert (forall A (k : Z -> P A), (forall rc st, prun (k rc) st = st) ->
    prun (lift (sm_broker_do_suspend "mcp") ≫= k) (s, w) =
    (callbacks t s, run (sm_broker_do_suspend "mcp") w)) as Hrun.
  { intros A k Hid. rewrite prun_bind, Hid, prun_lift, Ht, drop_app_length. done. }
  rewrite Hrun; [split; [exact He|by apply callbacks_pending]|].
  intros rc [s' w']. destruct (rc <? 0); [done|]. unfold with_broker. rewrite prun_bind, prun_lift.
  change (run (gets b_port) w') with w'. by rewrite drop_all.
Qed.
End strand.

(** ** A sink beside the demo broker *)

Definition demo_profile : sm_device_profile :=
  mk_profile "generic" "shell" "a shell" "# " "" "prompt" 2000.
Definition demo_mcp (mutate : option string) : McpEnv := {|
  mcp_index := 0; mcp_profile := demo_profile; mcp_realloc _ := true; mcp_mutate_env := mutate;
  mcp_scan _ := [] |}.

(** The sink is registered first. *)
Definition demo_mcp_broker : sm_broker :=
  {| (sm_broker_init true "/dev/ttyUSB0" 115200) with b_sinks := [mk_sink true true true] |}.
Definition demo_mcp_start : sm_mcp_sink * @world (demo_link false) :=
  (sm_mcp_sink_new, @init_world (demo_link false) demo_mcp_broker (mk_demo true [])).

Section runs.
#[local] Existing Instance demo_link.
#[local] Instance demo_armed : McpEnv := demo_mcp (Some "1").

Definition call_json (id : Z) (tool : string) (args : json) : json :=
  JObj [] |> add_string "jsonrpc" "2.0" |> add_int "id" id |> add_string "method" "tools/call"
    |> add_item "params" (JObj [] |> add_string "name" tool |> add_item "arguments" args).
Definition call_line (id : Z) (tool : string) (args : json) : bytes :=
  bytes_of_string (cJSON_PrintUnformatted (call_json id tool args)) ++ [10].
Definition answer_text (m : json) : option string :=
  match get_item m "result" with
  | Some r => match head (elements (get_item r "content")) with
              | Some t => sm_json_get_string t "text" | None => None end
  | None => None
  end.

Definition wait_args : json := JObj [] |> add_string "pattern" "login:" |> add_int "timeout_ms" 5000.
Definition device_says (text : string) : loop_event :=
  LeLink (mk_ev true false false) [DBytes (bytes_of_string text); DAgain].

Definition demo_answers (turns : list (list mcp_event)) : list (json * option string) :=
  let st := fold_left (fun st es => prun (L := demo_link false) (mcp_turn es (fun _ => false)) st) turns demo_mcp_start in
  map (fun m => (msg_id m, answer_text m)) (mp_stdout (fst st)).

(** A wait is answered when the device says what it waits for. *)
Example demo_wait :
  demo_answers [[McpStdin (RBytes (call_line 7 "serial_wait_for" wait_args))];
                [McpBroker (device_says "board login: ")]; []] =
  [(JNum (dbl_of_int 7), Some "board login: ")].
Proof. vm_compute. done. Qed.

(** The port is suspended and resumed meanwhile: call 7 has no answer, although
    the device says it and the timeout passes. *)
Example demo_stranded :
  map fst (demo_answers [[McpStdin (RBytes (call_line 7 "serial_wait_for" wait_args))];
                         [McpStdin (RBytes (call_line 8 "serial_suspend" (JObj [])))];
                         [McpStdin (RBytes (call_line 9 "serial_resume" (JObj [])))];
                         [McpBroker (device_says "board login: ")]; []]) =
  [JNum (dbl_of_int 8); JNum (dbl_of_int 9)].
Proof. vm_compute. done. Qed.

(** Device output that begins like one of the sink's own errors makes the read
    an error, with a hint for the model. *)
Example demo_device_error :
  let st := prun (L := demo_link false) (mcp_turn [McpBroker (device_says "[ERROR] disk"); McpStdin (RBytes (call_line 1 "serial_read" (JObj [])))] (fun _ => false)) demo_mcp_start in
  map (fun m => get_item (default JNull (get_item m "result")) "isError") (mp_stdout (fst st)) = [Some (JBool true)].
Proof. vm_compute. done. Qed.

(** A negative cursor is converted to an unsigned integer it does not fit. *)
Example demo_negative_cursor :
  let args := JObj [] |> add_int "since_seq" (-1) in
  mp_undefined (fst (prun (L := demo_link false) (dispatch_message (call_json 1 "serial_output_history" args)) demo_mcp_start)) = true.
Proof. vm_compute. done. Qed.
End runs.

(** ** Witnesses *)

Lemma demo_mcp_good : good demo_mcp_start.
Proof. split; [|by intros n []]. apply reachable_device, reach_init. by split. Qed.

Section witnesses.
#[local] Existing Instance demo_link.

Lemma mcp_suspend_strands_witness :
  let X := demo_mcp (Some "1") in
  let st := prun (L := demo_link false) (dispatch_message (call_json 7 "serial_wait_for" wait_args)) demo_mcp_start in
  length (eng_requests (b_expect (w_b (snd st)))) = 1%nat /\ length (slot_ids (fst st)) = 1%nat /\
  let st' := prun tool_serial_suspend (fst st, snd st) in
  eng_requests (b_expect (w_b (snd st'))) = [] /\ mp_pending (fst st') = mp_pending (fst st).
Proof.
  intros X st. split; [by vm_compute|]. split; [by vm_compute|].
  exact (mcp_suspend_strands (L := demo_link false) (fst st) (snd st) eq_refl).
Defined.

Lemma mcp_muzzled_harmless_witness :
  let X := demo_mcp None in
  let args := JObj [] |> add_string "data" "reboot" in
  let st := prun (L := demo_link false) (mcp_on_readable (RBytes (call_line 1 "serial_write" args))) demo_mcp_start in
  kept held no_device (snd demo_mcp_start) (snd st) /\ length (mp_stdout (fst st)) = 1%nat.
Proof.
  intros X args st. split; [|by vm_compute].
  exact (mcp_muzzled_harmless (L := demo_link false) (RBytes (call_line 1 "serial_write" args))
           (fst demo_mcp_start) (snd demo_mcp_start) (or_introl eq_refl)).
Defined.


Lemma mcp_events_settle_witness :
  let X := demo_mcp (Some "1") in
  let st := prun (L := demo_link false) (dispatch_message (call_json 7 "serial_wait_for" wait_args)) demo_mcp_start in
  let st' := prun (L := demo_link false) (mcp_turn (map McpBroker [device_says "login: "]) (fun _ => false)) st in
  ledger st' ≡ₚ ledger st /\ length (slot_ids (fst st')) = 1%nat.
Proof.
  intros X st st'. split; [|by vm_compute].
  refine (proj2 (mcp_events_settle (L := demo_link false) [device_says "login: "] (fun _ => false) st _ _)).
  - exact (proj1 (message_books (L := demo_link false) (JNum (dbl_of_int 7)) (call_json 7 "serial_wait_for" wait_args)
                    "tools/call" eq_refl eq_refl ltac:(done) demo_mcp_start demo_mcp_good)).
  - by repeat constructor.
Defined.

Lemma mcp_results_conform_witness :
  let X := demo_mcp None in
  let r := sm_mcp_tool_call_result (Some "serial_boot_status")
             (fst (presult (L := demo_link false) (mcp_tool_dispatch "serial_boot_status" (JObj []) None) demo_mcp_start))
             (snd (presult (L := demo_link false) (mcp_tool_dispatch "serial_boot_status" (JObj []) None) demo_mcp_start)) in
  get_item r "isError" = Some (JBool true) \/
  exists v, get_item r "structuredContent" = Some v /\ validates 4 boot_status_schema v = true.
Proof.
  intros X r.
  exact (mcp_results_conform (L := demo_link false) "serial_boot_status" (JObj []) None demo_mcp_start _ _
           boot_status_schema eq_refl eq_refl).
Defined.

Lemma mcp_output_tail_witness :
  let X := demo_mcp None in
  let s := fold_left (fun s c => mcp_buffer_output c s) ([[104; 0; 105]] ++ [[33]]) sm_mcp_sink_new in
  mp_output s = [104; 105; 33].
Proof.
  intros X s.
  destruct (mcp_output_tail [[104; 0; 105]] [33]) as (_ & _ & _ & H);
    [by repeat constructor|done|]. by apply H.
Defined.
End witnesses.
