(* ===== verification/BrokerListen.v ===== *)
(** * The listening socket ([create_listen_socket] of [broker.c])

    How the broker puts its socket into a directory other processes use too:
    between any two of its system calls they may do anything to it that the
    directory lets them.  The socket is bound under a temporary name and then
    renamed, so that the final name never stands for something half made. *)
From stdpp Require Import gmap pretty.
From S2P Require Import Prelude Effects.

(** What a name in the directory stands for.  A socket has the process that
    bound it and its permissions. *)
Inductive dirent := DSocket (owner : Z) (mode : Z) | DSymlink | DDirectory | DOther.
Abbreviation directory := (gmap string dirent) (only parsing).

(** This process, and the rest of the system: what the others do to the directory before the
    [n]-th system call, who accepts connections, and which calls fail. *)
Class ListenEnv := {
  le_self : Z;
  le_pid : Z;
  le_others : nat -> directory -> directory;
  le_accepts : nat -> Z -> bool;
  le_fails : nat -> bool }.

(** Ours: the directory, the umask, whether our socket exists and listens, the
    names we changed, and how many calls were made. *)
Record listen_state := mk_ls {
  ls_dir : directory; ls_umask : Z; ls_open : bool; ls_listening : bool;
  ls_changed : list string; ls_calls : nat }.
Abbreviation L := (ST listen_state) (only parsing).

Section listen.
Context `{E : !ListenEnv}.

(** The others' turn; the number of the call that follows. *)
Definition turn : L nat := fun s =>
  ({| s with ls_dir := le_others (ls_calls s) (ls_dir s); ls_calls := S (ls_calls s) |}, ls_calls s).

Definition lstat (path : string) : L (option dirent) := turn;; sget (fun s => ls_dir s !! path).

(** A connection to a socket somebody listens on; a link may lead anywhere. *)
Definition connects (path : string) : L bool :=
  n ← turn;
  sget (fun s => match ls_dir s !! path with
                 | Some (DSocket o _) => le_accepts n o
                 | Some DSymlink => le_accepts n 0
                 | _ => false
                 end).

Definition socket : L bool := n ← turn; mret (negb (le_fails n)).

Definition changed (path : string) : L unit := smod (fun s => {| s with ls_changed := path :: ls_changed s |}).

Definition unlink (path : string) : L unit :=
  turn;; changed path;;
  smod (fun s => {| s with ls_dir := match ls_dir s !! path with
                                     | Some DDirectory => ls_dir s
                                     | _ => delete path (ls_dir s)
                                     end |}).

Definition umask (m : Z) : L Z := turn;; old ← sget ls_umask; smod (fun s => {| s with ls_umask := m |});; mret old.

(** [bind] makes the name, and refuses one that exists, a link included. *)
Definition bind (path : string) : L bool :=
  n ← turn;
  free ← sget (fun s => bool_decide (ls_dir s !! path = None));
  if negb free || le_fails n then mret false else
  changed path;;
  smod (fun s => {| s with ls_dir := <[path := DSocket le_self (Z.ldiff 511 (ls_umask s))]> (ls_dir s) |});;
  mret true.

Definition listen : L bool :=
  n ← turn;
  if le_fails n then mret false else smod (fun s => {| s with ls_listening := true |});; mret true.

(** [rename] replaces what is there, but no directory, and follows no link. *)
Definition rename (from to : string) : L bool :=
  n ← turn;
  src ← sget (fun s => ls_dir s !! from);
  dst ← sget (fun s => ls_dir s !! to);
  match src, dst with
  | None, _ | _, Some DDirectory => mret false
  | Some e, _ =>
      if le_fails n then mret false else
      changed to;; changed from;;
      smod (fun s => {| s with ls_dir := <[to := e]> (delete from (ls_dir s)) |});;
      mret true
  end.

Definition close : L unit := turn;; smod (fun s => {| s with ls_open := false; ls_listening := false |}).

(** ** [create_listen_socket] *)

Definition SUN_PATH_SIZE : Z := 108.
Definition tmp_path (path : string) : string := (path ++ "." ++ pretty le_pid ++ ".tmp")%string.

(** The name is a link, or somebody answers behind it. *)
Definition name_taken (path : string) : L bool :=
  st ← lstat path;
  match st with
  | Some DSymlink => mret true
  | Some (DSocket _ _) =>
      ok ← socket;
      if ok : bool then answered ← connects path; turn;; mret answered else mret false
  | _ => mret false
  end.

(** [true]: the broker listens on its socket. *)
Definition create_listen_socket (path : string) : L bool :=
  taken ← name_taken path;
  if taken : bool then mret false else
  if SUN_PATH_SIZE <=? Z.of_nat (String.length (tmp_path path)) then mret false else
  ok ← socket;
  if negb ok then mret false else
  smod (fun s => {| s with ls_open := true |});;
  unlink (tmp_path path);;
  old ← umask 63;
  bound ← bind (tmp_path path);
  umask old;;
  if negb bound then close;; mret false else
  listening ← listen;
  if negb listening then close;; unlink (tmp_path path);; mret false else
  renamed ← rename (tmp_path path) path;
  if negb renamed then close;; unlink (tmp_path path);; mret false else
  mret true.

(** From the socket to the end of the broker: [sm_broker_run], or when it could
    not be set up [sm_broker_destroy], closes the socket and removes the name. *)
Definition listen_and_end (path : string) : L bool :=
  ok ← create_listen_socket path;
  (if ok : bool then close else mret tt);;
  unlink path;;
  mret ok.

(** ** What the directory looks like at each step *)

Definition hoare {A} (P : listen_state -> Prop) (m : L A) (Q : A -> listen_state -> Prop) : Prop :=
  forall s, P s -> Q (sresult m s) (srun m s).

Lemma hoare_bind {A B} P (m : L A) (k : A -> L B) Q R :
  hoare P m Q -> (forall x, hoare (Q x) (k x) R) -> hoare P (m ≫= k) R.
Proof. intros Hm Hk s Hs. rewrite srun_bind, sresult_bind. by apply Hk, Hm. Qed.
Lemma hoare_ret {A} (P : listen_state -> Prop) (x : A) (Q : A -> listen_state -> Prop) :
  (forall s, P s -> Q x s) -> hoare P (mret x) Q.
Proof. intros H s Hs. by apply H. Qed.

End listen.

(** Runs the next command, which [lem] speaks about. *)
Ltac next lem := eapply hoare_bind; [apply lem|cbn beta].
Ltac run_out := unfold srun, sresult, mbind, ST_bind, mret, ST_ret, sget, smod, changed; cbn.

Section safe.
Context `{E : !ListenEnv}.

(** Nobody else removes or replaces a socket of ours, or makes one. *)
Definition others_keep_off : Prop := forall n d p m,
  le_others n d !! p = Some (DSocket le_self m) <-> d !! p = Some (DSocket le_self m).

Context (path : string).

(** The one socket of ours in the directory is at [where_], open to nobody else;
    the other fields; and the names that were changed are the temporary one
    and, once [done], the final one. *)
Record at_step (where_ : option string) (um : Z) (open listening : bool) (renamed : bool) (s : listen_state) : Prop := {
  at_ours p m : ls_dir s !! p = Some (DSocket le_self m) <-> where_ = Some p /\ m = 448;
  at_umask : ls_umask s = um;
  at_open : ls_open s = open;
  at_listening : ls_listening s = listening;
  at_changed p : p ∈ ls_changed s -> p = tmp_path path \/ p = path /\ renamed = true }.

Hypothesis Hoff : others_keep_off.

Lemma turn_step w um o l r : hoare (at_step w um o l r) turn (fun _ => at_step w um o l r).
Proof.
  intros s [H1 H2 H3 H4 H5]. split; cbn; [|done..]. intros p m. etrans; [apply Hoff|apply H1].
Qed.

Lemma tmp_not_path : tmp_path path <> path.
Proof.
  unfold tmp_path. generalize (pretty le_pid ++ ".tmp")%string. intros t.
  induction path as [|c s IH]; cbn; [done|]. intros [= H]. by apply IH.
Qed.


Lemma get_step {A} P (f : listen_state -> A) : hoare P (sget f) (fun x s => P s /\ x = f s).
Proof. intros s Hs. by split. Qed.
Lemma hoare_pure {A} P (phi : Prop) (m : L A) Q : (phi -> hoare P m Q) -> hoare (fun s => P s /\ phi) m Q.
Proof. intros H s [Hs Hphi]. by apply H. Qed.
Lemma hoare_weaken {A} P (m : L A) (Q Q' : A -> listen_state -> Prop) :
  hoare P m Q -> (forall x s, Q x s -> Q' x s) -> hoare P m Q'.
Proof. intros H HQ s Hs. by apply HQ, H. Qed.


(** Calls that change nothing of ours. *)
Lemma look_step {A} w um o l r (f : nat -> listen_state -> A) :
  hoare (at_step w um o l r) (n ← turn; sget (f n)) (fun _ => at_step w um o l r).
Proof. next turn_step. intros n s Hs. exact Hs. Qed.
Lemma lstat_step w um o l r : hoare (at_step w um o l r) (lstat path) (fun _ => at_step w um o l r).
Proof. apply (look_step _ _ _ _ _ (fun _ s => ls_dir s !! path)). Qed.
Lemma connects_step w um o l r : hoare (at_step w um o l r) (connects path) (fun _ => at_step w um o l r).
Proof. apply look_step. Qed.
Lemma socket_step w um o l r : hoare (at_step w um o l r) socket (fun _ => at_step w um o l r).
Proof. next turn_step. intros n. by apply hoare_ret. Qed.

Lemma umask_step w um o l r m : hoare (at_step w um o l r) (umask m) (fun old s => at_step w m o l r s /\ old = um).
Proof.
  next turn_step. intros _ s [H1 H2 H3 H4 H5]. split; [|exact H2]. by split.
Qed.

(** The temporary name is cleared of whatever is there: our socket too. *)
Lemma unlink_step w um o l r : w = None \/ w = Some (tmp_path path) ->
  hoare (at_step w um o l r) (unlink (tmp_path path)) (fun _ => at_step None um o l r).
Proof.
  intros Hw. next turn_step. intros _ s [H1 H2 H3 H4 H5]. run_out. split; cbn; [|done..|].
  - intros p m. destruct (decide (p = tmp_path path)) as [->|Hp].
    + split; [|naive_solver]. intros H. exfalso.
      destruct (ls_dir s !! tmp_path path) as [[]|] eqn:Ee; cbn in H; rewrite ?lookup_delete_eq in H; congruence.
    + split; [|naive_solver]. intros H. exfalso. assert (H' : ls_dir s !! p = Some (DSocket le_self m)).
      { destruct (ls_dir s !! tmp_path path) as [[]|]; cbn in H; rewrite ?lookup_delete_ne in H by done; done. }
      apply H1 in H' as [H' _]. naive_solver.
  - intros p. set_solver.
Qed.

(** [bind] under the umask 077 makes our socket, open to nobody else. *)
Lemma bind_step o l r : hoare (at_step None 63 o l r) (bind (tmp_path path))
  (fun ok => at_step (if ok : bool then Some (tmp_path path) else None) 63 o l r).
Proof.
  next turn_step. intros n s [H1 H2 H3 H4 H5].
  run_out.
  destruct (decide (ls_dir s !! tmp_path path = None)) as [E'|E'].
  - rewrite bool_decide_true by done. cbn. destruct (le_fails n); cbn; [by split|]. split; cbn; [|done..|].
    + intros p m. rewrite H2. destruct (decide (p = tmp_path path)) as [->|Hp].
      * rewrite lookup_insert_eq. split; [intros [= <-]; done|]. by intros [_ ->].
      * rewrite lookup_insert_ne by done. rewrite H1. naive_solver.
    + intros p. set_solver.
  - rewrite bool_decide_false by done. cbn. by split.
Qed.

Lemma listen_step w um o r : hoare (at_step w um o false r) listen (fun ok => at_step w um o ok r).
Proof.
  next turn_step. intros n. destruct (le_fails n); [by apply hoare_ret|].
  intros s [H1 H2 H3 H4 H5]. by split.
Qed.

Lemma close_step w um o l r : hoare (at_step w um o l r) close (fun _ => at_step w um false false r).
Proof. next turn_step. intros _ s [H1 H2 H3 H4 H5]. by split. Qed.

(** [rename] moves our socket to the final name, or leaves it where it is. *)
Lemma rename_step um o l : hoare (at_step (Some (tmp_path path)) um o l false) (rename (tmp_path path) path)
  (fun ok => at_step (Some (if ok : bool then path else tmp_path path)) um o l ok).
Proof.
  next turn_step. intros n s [H1 H2 H3 H4 H5]. pose proof tmp_not_path as Hne.
  run_out.
  assert (Hsrc : ls_dir s !! tmp_path path = Some (DSocket le_self 448)) by by apply H1.
  assert (Hstay : at_step (Some (tmp_path path)) um o l false s) by by split.
  rewrite Hsrc. destruct (ls_dir s !! path) as [[]|] eqn:Ed; cbn; [| |done| |];
    (destruct (le_fails n); cbn; [done|]); (split; cbn; [|done..|set_solver]);
    (intros p m; destruct (decide (p = path)) as [->|Hp];
      [rewrite lookup_insert_eq; naive_solver|rewrite lookup_insert_ne by done];
      destruct (decide (p = tmp_path path)) as [->|Hp'];
      [rewrite lookup_delete_eq|rewrite lookup_delete_ne, H1 by done]; naive_solver).
Qed.

Lemma name_taken_step w um o l r : hoare (at_step w um o l r) (name_taken path) (fun _ => at_step w um o l r).
Proof.
  next lstat_step. intros [[]|]; try (by apply hoare_ret). next socket_step. intros [|]; [|by apply hoare_ret].
  next connects_step. intros x. next turn_step. intros _. by apply hoare_ret.
Qed.

(** The result of [create_listen_socket]. *)
Definition listening_at (um : Z) (ok : bool) : listen_state -> Prop :=
  at_step (if ok then Some path else None) um ok ok ok.

End safe.

(** A link under the final name is refused at once, and left alone. *)
Lemma link_refused `{E : !ListenEnv} path s :
  le_others (ls_calls s) (ls_dir s) !! path = Some DSymlink ->
  sresult (create_listen_socket path) s = false /\
  ls_dir (srun (create_listen_socket path) s) = le_others (ls_calls s) (ls_dir s) /\
  ls_changed (srun (create_listen_socket path) s) = ls_changed s.
Proof.
  intros H. unfold create_listen_socket, name_taken, lstat.
  repeat rewrite ?srun_bind, ?sresult_bind. run_out. by rewrite H.
Qed.

(** A broker that is refused because another one answers takes the name of that
    one away at its own end. *)
Theorem refused_broker_unlinks `{E : !ListenEnv} path o m s :
  (forall n d, le_others n d = d) -> (forall n, le_fails n = false) -> (forall n, le_accepts n o = true) ->
  ls_dir s !! path = Some (DSocket o m) ->
  sresult (listen_and_end path) s = false /\ ls_dir (srun (listen_and_end path) s) = delete path (ls_dir s).
Proof.
  intros Ho Hf Ha Hd. unfold listen_and_end, create_listen_socket, name_taken, lstat, socket, connects, turn, unlink.
  repeat (rewrite ?srun_bind, ?sresult_bind; run_out; rewrite ?Ho, ?Hd, ?Hf, ?Ha; cbn). done.
Qed.

(** ** Runs *)

Definition demo_path : string := "/run/user/1000/smolmux-ttyUSB0.sock".
(** Before the [at_]-th call somebody puts [e] under the final name. *)
Definition demo_env (at_ : nat) (e : option dirent) (answers : bool) (fails : nat -> bool) : ListenEnv := {|
  le_self := 1; le_pid := 4711;
  le_others n d := match e, d !! demo_path with
                   | Some _, Some (DSocket 1 _) | None, _ => d
                   | Some e, _ => if (n =? at_)%nat then <[demo_path := e]> d else d
                   end;
  le_accepts _ _ := answers; le_fails := fails |}.
Definition demo_start (d : gmap string dirent) : listen_state := mk_ls d 18 false false [] 0.
Definition demo_listen (env : ListenEnv) (d : gmap string dirent) : bool * option dirent * list string :=
  let r := create_listen_socket (E := env) demo_path (demo_start d) in
  (snd r, ls_dir (fst r) !! demo_path, ls_changed (fst r)).

(** A socket nobody answers behind is replaced; one somebody answers behind and
    a link are not; a link put there behind the check is replaced, not followed. *)
Example demo_listens :
  demo_listen (demo_env 0 None false (fun _ => false)) {[demo_path := DSocket 7 448]} =
    (true, Some (DSocket 1 448), [demo_path ++ ".4711.tmp"; demo_path; demo_path ++ ".4711.tmp"; demo_path ++ ".4711.tmp"]%string) /\
  demo_listen (demo_env 0 None true (fun _ => false)) {[demo_path := DSocket 7 448]} = (false, Some (DSocket 7 448), []) /\
  demo_listen (demo_env 0 None true (fun _ => false)) {[demo_path := DSymlink]} = (false, Some DSymlink, []) /\
  fst (demo_listen (demo_env 4 (Some DSymlink) true (fun _ => false)) ∅) = (true, Some (DSocket 1 448)).
Proof. vm_compute. done. Qed.

(** The check for another instance and the renaming are not one step: an
    instance that appears between them, and answers, loses its name. *)
Theorem second_instance_race :
  demo_listen (demo_env 0 (Some (DSocket 7 448)) true (fun _ => false)) ∅ = (false, Some (DSocket 7 448), []) /\
  fst (demo_listen (demo_env 2 (Some (DSocket 7 448)) true (fun _ => false)) ∅) = (true, Some (DSocket 1 448)).
Proof. vm_compute. done. Qed.

