(* ===== verification/Fds.v ===== *)
(** * File descriptors

    What a process can do wrong with its descriptors: close one that is not
    open any more, which by then may be somebody else's, or lose one.  The table
    of open descriptors, the calls that change it, and triples that account for
    the descriptors a piece of code owns, whatever else is open. *)
From stdpp Require Import gmultiset.
From S2P Require Import Prelude Effects.

(** Undefined behaviour: closing a number that is not open, joining a thread
    that was never made. *)
Inductive fault := BadClose (fd : Z) | BadJoin.

Record fd_table := mk_fds { fd_open : list Z; fd_calls : nat; fd_faults : list fault }.
Abbreviation K := (ST fd_table) (only parsing).

(** The number the kernel gives a new descriptor: not negative, and none that is
    open.  Which calls succeed, and which allocations. *)
Class FdEnv := {
  fe_pick : list Z -> Z;
  fe_ok : nat -> bool;
  fe_mem : nat -> bool;
  fe_fresh l : 0 <= fe_pick l /\ fe_pick l ∉ l }.

Section calls.
Context `{E : !FdEnv}.

(** A call, and an allocation, that may fail. *)
Definition attempt : K bool := fun k =>
  ({| k with fd_calls := S (fd_calls k) |}, fe_ok (fd_calls k)).

Definition allocate : K bool := fun k =>
  ({| k with fd_calls := S (fd_calls k) |}, fe_mem (fd_calls k)).

Definition new_fd : K Z := fun k =>
  let fd := fe_pick (fd_open k) in ({| k with fd_open := fd :: fd_open k |}, fd).

(** [socket], [accept4], [epoll_create1], [timerfd_create]: -1 when they fail. *)
Definition open_fd : K Z := ok ← attempt; if ok : bool then new_fd else mret (-1).
(** [pipe2], [socketpair]. *)
Definition open_pair : K (option (Z * Z)) :=
  ok ← attempt;
  if ok : bool then (a ← new_fd; b ← new_fd; mret (Some (a, b))) else mret None.

Definition fault_at (f : fault) : K unit := smod (fun k => {| k with fd_faults := f :: fd_faults k |}).

Fixpoint remove_first (x : Z) (l : list Z) : list Z :=
  match l with [] => [] | y :: l' => if x =? y then l' else y :: remove_first x l' end.

(** [close] of a negative number fails and does nothing. *)
Definition close (fd : Z) : K unit :=
  if fd <? 0 then mret tt else
  there ← sget (fun k => bool_decide (fd ∈ fd_open k));
  if there : bool then smod (fun k => {| k with fd_open := remove_first fd (fd_open k) |})
  else fault_at (BadClose fd).

(** [if (fd >= 0) { close(fd); fd = -1; }] *)
Definition close_open (fd : Z) : K unit := swhen (0 <=? fd) (close fd).

Fixpoint close_all (l : list Z) : K unit :=
  match l with [] => mret tt | fd :: l => close fd;; close_all l end.
End calls.

(** ** Who owns which descriptor *)

Abbreviation fdset := (gmultiset Z) (only parsing).

Definition fds (l : list Z) : gmultiset Z := list_to_set_disj l.
(** The descriptor a field holds, if any. *)
Definition held (fd : Z) : gmultiset Z := if 0 <=? fd then {[+ fd +]} else ∅.

(** [m] turns the descriptors [own] into those of [post], leaves all others
    alone and does nothing wrong. *)
Definition owns {A} (own : gmultiset Z) (m : ST fd_table A) (post : A -> gmultiset Z) : Prop :=
  forall frame k, fds (fd_open k) = own ⊎ frame ->
  fds (fd_open (srun m k)) = post (sresult m k) ⊎ frame /\ fd_faults (srun m k) = fd_faults k.

#[global] Arguments gmultiset_disj_union : simpl never.
#[global] Arguments gmultiset_singleton : simpl never.
#[global] Arguments fds : simpl never.
#[global] Arguments held : simpl never.
#[global] Arguments owns : simpl never.

Section rules.
Context `{E : !FdEnv}.

Lemma fds_cons x l : fds (x :: l) = {[+ x +]} ⊎ fds l.
Proof. apply list_to_set_disj_cons. Qed.
Lemma held_of fd : 0 <= fd -> held fd = {[+ fd +]}.
Proof. intros H. unfold held. by rewrite (proj2 (Z.leb_le _ _)). Qed.
Lemma held_none fd : fd < 0 -> held fd = ∅.
Proof. intros H. unfold held. by rewrite (proj2 (Z.leb_gt _ _)). Qed.

Lemma owns_ret {A} (x : A) post : owns (post x) (mret x) post.
Proof. by intros fr k H. Qed.
Lemma owns_bind {A B} own (m : ST fd_table A) (f : A -> ST fd_table B) mid post :
  owns own m mid -> (forall x, owns (mid x) (f x) post) -> owns own (m ≫= f) post.
Proof.
  intros Hm Hf fr k H. rewrite srun_bind, sresult_bind. destruct (Hm fr k H) as [H1 H2].
  destruct (Hf _ fr _ H1) as [H3 H4]. split; [done|congruence].
Qed.
Lemma owns_ret_bind {A B} own (x : A) (f : A -> ST fd_table B) post : owns own (f x) post -> owns own (mret x ≫= f) post.
Proof. done. Qed.
(** What the code does not speak about stays. *)
Lemma owns_frame {A} own rest (m : ST fd_table A) post :
  owns own m post -> owns (own ⊎ rest) m (fun x => post x ⊎ rest).
Proof.
  intros Hm fr k H. destruct (Hm (rest ⊎ fr) k) as [H1 H2]; [by rewrite H, (assoc_L (⊎))|].
  split; [by rewrite H1, (assoc_L (⊎))|done].
Qed.
Lemma owns_eq {A} own own' (m : ST fd_table A) post post' :
  owns own' m post' -> own = own' -> (forall x, post' x = post x) -> owns own m post.
Proof. intros Hm -> Hp fr k H. rewrite <- Hp. by apply Hm. Qed.

(** [x] is a result [m] can have. *)
Definition returns {A} (m : ST fd_table A) (x : A) : Prop := exists k, sresult m k = x.
Lemma returns_ret {A} (x y : A) : returns (mret x : ST fd_table A) y -> y = x.
Proof. by intros [k <-]. Qed.
Lemma returns_bind {A B} (m : ST fd_table A) (f : A -> ST fd_table B) y :
  returns (m ≫= f) y -> exists x, returns m x /\ returns (f x) y.
Proof. intros [k <-]. rewrite sresult_bind. eexists. split; by eexists. Qed.
Lemma owns_returns {A B} own (m : ST fd_table A) (f : A -> ST fd_table B) mid post :
  owns own m mid -> (forall x, returns m x -> owns (mid x) (f x) post) -> owns own (m ≫= f) post.
Proof.
  intros Hm Hf fr k H. rewrite srun_bind, sresult_bind. destruct (Hm fr k H) as [H1 H2].
  destruct (Hf (sresult m k) (ex_intro _ k eq_refl) fr _ H1) as [H3 H4]. split; [done|congruence].
Qed.

(** The next command, of which [own'] is the part of [own] it needs. *)
Lemma owns_step {A B} own own' rest (m : ST fd_table A) (f : A -> ST fd_table B) mid post :
  owns own' m mid -> own = own' ⊎ rest -> (forall x, owns (mid x ⊎ rest) (f x) post) -> owns own (m ≫= f) post.
Proof. intros Hm -> Hf. eapply owns_bind; [by apply owns_frame|done]. Qed.
Lemma owns_return {A} own (x : A) post : own = post x -> owns own (mret x) post.
Proof. intros ->. apply owns_ret. Qed.

End rules.

(** The next command, by its rule; the rest of what is owned, found piece by
    piece, stays. *)
Ltac without own a :=
  lazymatch a with
  | ∅ => own
  | ?a1 ⊎ ?a2 => let own := without own a1 in without own a2
  | _ =>
    lazymatch own with
    | a => constr:(∅ : gmultiset Z)
    | a ⊎ ?y => y
    | ?x ⊎ a => x
    | ?x ⊎ ?y =>
        match goal with
        | _ => let x := without x a in constr:(x ⊎ y)
        | _ => let y := without y a in constr:(x ⊎ y)
        end
    end
  end.
Ltac fd_frame :=
  lazymatch goal with |- ?own = ?own' ⊎ ?rest =>
    let r := without own own' in unify rest r; multiset_solver
  end.
Ltac fd_step lem := eapply owns_step; [apply lem|fd_frame|cbn beta; intros].
Ltac fd_done := apply owns_return; cbn; multiset_solver.

Section rules.
Context `{E : !FdEnv}.

Lemma owns_attempt : owns ∅ attempt (fun _ => ∅).
Proof. by intros fr k H. Qed.

Lemma owns_allocate : owns ∅ allocate (fun _ => ∅).
Proof. by intros fr k H. Qed.
Lemma owns_new_fd : owns ∅ new_fd held.
Proof.
  intros fr k H. split; [|done]. unfold srun, sresult. cbn.
  destruct (fe_fresh (fd_open k)) as [Hp _]. rewrite held_of, fds_cons by done. multiset_solver.
Qed.
Lemma owns_open_fd : owns ∅ open_fd held.
Proof.
  eapply owns_bind; [apply owns_attempt|]. intros [|]; [apply owns_new_fd|by apply owns_return].
Qed.
Definition held_pair (p : option (Z * Z)) : gmultiset Z :=
  match p with Some (a, b) => held a ⊎ held b | None => ∅ end.
Lemma owns_open_pair : owns ∅ open_pair held_pair.
Proof.
  eapply owns_bind; [apply owns_attempt|]. intros [|]; [|by apply owns_return].
  eapply owns_bind; [apply owns_new_fd|]. intros a.
  fd_step owns_new_fd. fd_done.
Qed.

Lemma fds_remove_first x l : x ∈ l -> fds l = {[+ x +]} ⊎ fds (remove_first x l).
Proof.
  induction l as [|y l IH]; [by intros ?%not_elem_of_nil|]. cbn. intros Hx.
  destruct (Z.eqb_spec x y) as [->|Hne]; [apply fds_cons|].
  apply elem_of_cons in Hx as [?|Hx]; [done|]. rewrite !fds_cons, IH by done. multiset_solver.
Qed.
Lemma elem_of_fds x l : x ∈ fds l <-> x ∈ l.
Proof. apply elem_of_list_to_set_disj. Qed.

Lemma owns_close fd : owns (held fd) (close fd) (fun _ => ∅).
Proof.
  intros fr k H. unfold close. destruct (Z.ltb_spec fd 0) as [Hn|Hp].
  { rewrite held_none in H by done. split; [exact H|done]. }
  rewrite held_of in H by done. rewrite !srun_bind. cbn.
  assert (Hin : fd ∈ fd_open k). { apply elem_of_fds. rewrite H. multiset_solver. }
  rewrite bool_decide_true by done. split; [|done]. unfold srun. cbn.
  rewrite (fds_remove_first fd) in H by done. multiset_solver.
Qed.
Lemma owns_close_open fd : owns (held fd) (close_open fd) (fun _ => ∅).
Proof.
  unfold close_open. destruct (0 <=? fd) eqn:Ef; cbn; [apply owns_close|].
  rewrite held_none by lia. by apply owns_return.
Qed.
Fixpoint held_all (l : list Z) : gmultiset Z :=
  match l with [] => ∅ | fd :: l => held fd ⊎ held_all l end.
Lemma owns_close_all l : owns (held_all l) (close_all l) (fun _ => ∅).
Proof.
  induction l as [|fd l IH]; cbn; [by apply owns_return|].
  fd_step owns_close. eapply owns_eq; [apply IH|multiset_solver|done].
Qed.
Lemma held_all_perm l l' : l ≡ₚ l' -> held_all l = held_all l'.
Proof. induction 1; cbn; try congruence; multiset_solver. Qed.
Lemma held_all_app l l' : held_all (l ++ l') = held_all l ⊎ held_all l'.
Proof. induction l as [|fd l IH]; cbn; [multiset_solver|]. rewrite IH. multiset_solver. Qed.
End rules.

(** What went wrong stays known. *)
Definition more_faults (k k' : fd_table) : Prop := fd_faults k ⊆ fd_faults k'.
#[export] Instance more_faults_preorder : PreOrder more_faults.
Proof. split; [by intros x f|]. intros x y z H1 H2 f Hf. by apply H2, H1. Qed.
Lemma close_more_faults fd : moves more_faults (close fd).
Proof.
  unfold close. destruct (fd <? 0); [apply (moves_ret more_faults)|].
  apply (moves_seq more_faults); [apply (moves_get more_faults)|].
  intros [|]; apply (moves_mod more_faults); intros k f; cbn; set_solver.
Qed.
Lemma close_open_more_faults fd : moves more_faults (close_open fd).
Proof. unfold close_open. destruct (0 <=? fd); [apply close_more_faults|apply (moves_ret more_faults)]. Qed.

(** ** A kernel that gives the lowest free number *)

Fixpoint lowest_from (n : nat) (fd : Z) (l : list Z) : Z :=
  match n with
  | O => fd
  | S n => if bool_decide (fd ∈ l) then lowest_from n (fd + 1) l else fd
  end.
Definition lowest_free (l : list Z) : Z := lowest_from (length l) 0 l.

Lemma above_le fd (l : list Z) :
  (length (filter (fun x : Z => (fd + 1 <= x)%Z) l) <= length (filter (fun x : Z => (fd <= x)%Z) l))%nat.
Proof.
  induction l as [|z l IH]; [done|]. rewrite !filter_cons. repeat case_decide; cbn; lia.
Qed.
(** Among as many numbers as are open, and one more, one is free. *)
Lemma lowest_from_fresh n : forall fd l, 0 <= fd -> (length (filter (fun x : Z => (fd <= x)%Z) l) <= n)%nat ->
  0 <= lowest_from n fd l /\ lowest_from n fd l ∉ l.
Proof.
  induction n as [|n IH]; intros fd l Hfd Hl; cbn.
  - split; [done|]. intros Hin. apply Nat.le_0_r, length_zero_iff_nil in Hl.
    assert (fd ∈ filter (fun x : Z => (fd <= x)%Z) l) as Hf by (apply list_elem_of_filter; split; [lia|done]).
    rewrite Hl in Hf. by apply not_elem_of_nil in Hf.
  - case_bool_decide as Hin; [|done]. apply IH; [lia|].
    assert (length (filter (fun x : Z => (fd + 1 <= x)%Z) l) < length (filter (fun x : Z => (fd <= x)%Z) l))%nat; [|lia].
    clear Hl Hfd IH. induction l as [|y l IHl]; [by apply not_elem_of_nil in Hin|].
    rewrite !filter_cons. apply elem_of_cons in Hin as [<-|Hin].
    + rewrite decide_False, decide_True by lia. cbn. pose proof (above_le fd l). lia.
    + specialize (IHl Hin). repeat case_decide; cbn; lia.
Qed.
Lemma lowest_free_fresh l : 0 <= lowest_free l /\ lowest_free l ∉ l.
Proof. apply lowest_from_fresh; [done|]. apply length_filter. Qed.

Definition lowest_env (ok mem : nat -> bool) : FdEnv :=
  {| fe_pick := lowest_free; fe_ok := ok; fe_mem := mem; fe_fresh := lowest_free_fresh |}.
