(* ===== verification/WsThread.v ===== *)
(** * The WebSocket sink's thread and its descriptors ([src/sinks/ws.c])

    The sink from [sm_ws_sink_new] to [ws_destroy]: its listener, the pipe that
    stops its thread, the thread itself with two descriptors for each client,
    and the way from a connection to the broker.  What a turn does with the
    bytes of a client is [ws_client_turn] of [Ws]. *)
From stdpp Require Import gmultiset.
From S2P Require Import Prelude Arrays Effects Ws Fds.

(** A slot of the array of clients. *)
Record ws_slot := mk_slot { sl_ws_fd : Z; sl_bridge_fd : Z; sl_client : sm_ws_client }.

(** The thread: never made or already joined, in its loop with its clients, or
    at its end and not yet joined.  Only the loop has clients. *)
Inductive ws_thread_state := ThNone | ThLoop (clients : list ws_slot) | ThEnded.

Record sm_ws_sink := mk_ws { wk_listen_fd : Z; wk_shutdown : Z * Z; wk_thread : ws_thread_state }.

Definition sm_ws_sink_new : sm_ws_sink := mk_ws (-1) (-1, -1) ThNone.

(** What a turn of the thread meets: [poll] is interrupted or fails, the pipe
    was written to, or there are events, a connection with its handshake
    perhaps, and those of the clients in the poll set. *)
Inductive ws_wakeup :=
  | WkEintr | WkPollError | WkShutdown
  | WkEvents (connection : option hs_outcome) (evs : list (ws_event * ws_event)).

Section ws.
Context `{E : !FdEnv} {W : WsEnv}.

(** [sm_broker_register_client_async]: the descriptor goes through the pipe to
    the broker, [queue], or is closed. *)
Definition sm_broker_register_client_async (queue : list Z) (fd : Z) : K (list Z) :=
  written ← attempt;
  if written : bool then mret (queue ++ [fd]) else close fd;; mret queue.

Definition ws_remove_client (idx : nat) (cs : list ws_slot) : K (list ws_slot) :=
  match cs !! idx with
  | None => mret cs
  | Some c => close_open (sl_ws_fd c);; close_open (sl_bridge_fd c);; mret (swap_remove idx cs)
  end.

(** A connection waits at the listener. *)
Definition ws_accept_connection (listen_fd : Z) (hs : hs_outcome) (cs : list ws_slot) (queue : list Z) :
    K (list ws_slot * list Z) :=
  cfd ← open_fd;
  if cfd <? 0 then mret (cs, queue) else
  if (SM_WS_MAX_CLIENTS <=? length cs)%nat then close cfd;; mret (cs, queue) else
  match hs with
  | HsDone _ =>
      pair ← open_pair;
      match pair with
      | None => close cfd;; mret (cs, queue)
      | Some (p0, p1) =>
          queue ← sm_broker_register_client_async queue p0;
          mret (cs ++ [mk_slot cfd p1 ws_client_new], queue)
      end
  | _ => close cfd;; mret (cs, queue)
  end.

(** The pass over the clients that were in the poll set; a removal ends it. *)
Fixpoint ws_serve (i : nat) (evs : list (ws_event * ws_event)) (cs : list ws_slot) : K (list ws_slot) :=
  match evs with
  | [] => mret cs
  | (e1, e2) :: evs' =>
      match cs !! i with
      | None => mret cs
      | Some c =>
          let '(keep, data) := ws_client_turn e1 e2 (sl_client c) in
          let cs := <[i := {| c with sl_client := data |}]> cs in
          if keep : bool then ws_serve (S i) evs' cs else ws_remove_client i cs
      end
  end.

(** The clean-up at the end of the thread. *)
Fixpoint ws_remove_all (n : nat) (cs : list ws_slot) : K (list ws_slot) :=
  match n, cs with
  | S n, _ :: _ => cs ← ws_remove_client 0 cs; ws_remove_all n cs
  | _, _ => mret cs
  end.
Definition ws_thread_end (cs : list ws_slot) : K ws_thread_state :=
  ws_remove_all (length cs) cs;; mret ThEnded.

(** A turn of [ws_thread]. *)
Definition ws_thread_turn (wake : ws_wakeup) (ws : sm_ws_sink) (queue : list Z) : K (sm_ws_sink * list Z) :=
  match wk_thread ws with
  | ThLoop cs =>
      match wake with
      | WkEintr => mret (ws, queue)
      | WkPollError | WkShutdown => th ← ws_thread_end cs; mret ({| ws with wk_thread := th |}, queue)
      | WkEvents connection evs =>
          let polled := length cs in
          x ← match connection with
              | Some hs => ws_accept_connection (wk_listen_fd ws) hs cs queue
              | None => mret (cs, queue)
              end;
          cs ← ws_serve 0 (take polled evs) x.1;
          mret ({| ws with wk_thread := ThLoop cs |}, x.2)
      end
  | _ => mret (ws, queue)
  end.

(** [ws_start]: 0 or -1. *)
Definition ws_start (ws : sm_ws_sink) : K (Z * sm_ws_sink) :=
  fd ← open_fd;
  if fd <? 0 then mret (-1, ws) else
  bound ← attempt;
  if negb bound then close fd;; mret (-1, ws) else
  listening ← attempt;
  if negb listening then close fd;; mret (-1, ws) else
  let ws := {| ws with wk_listen_fd := fd |} in
  pipe ← open_pair;
  match pipe with
  | None => close fd;; mret (-1, ws)
  | Some (r, w) =>
      let ws := {| ws with wk_shutdown := (r, w) |} in
      created ← attempt;
      if negb created then close fd;; close r;; close w;; mret (-1, ws) else
      mret (0, {| ws with wk_thread := ThLoop [] |})
  end.

(** [ws_stop]: the byte in the pipe ends the thread, which is waited for. *)
Definition ws_stop (ws : sm_ws_sink) : K sm_ws_sink :=
  match wk_thread ws with
  | ThNone => fault_at BadJoin
  | ThLoop cs => _ ← ws_thread_end cs; mret tt
  | ThEnded => mret tt
  end;;
  close (wk_shutdown ws).1;; close (wk_shutdown ws).2;;
  close_open (wk_listen_fd ws);;
  mret {| ws with wk_listen_fd := -1; wk_thread := ThNone |}.
End ws.

(** ** What the sink owns *)

Definition client_fds (cs : list ws_slot) : list Z := flat_map (fun c => [sl_ws_fd c; sl_bridge_fd c]) cs.
#[global] Arguments client_fds : simpl never.
Lemma client_fds_cons c cs : client_fds (c :: cs) = sl_ws_fd c :: sl_bridge_fd c :: client_fds cs.
Proof. done. Qed.
Lemma client_fds_app cs cs' : client_fds (cs ++ cs') = client_fds cs ++ client_fds cs'.
Proof. apply flat_map_app. Qed.
Definition ws_base_fds (ws : sm_ws_sink) : gmultiset Z :=
  held (wk_listen_fd ws) ⊎ held (wk_shutdown ws).1 ⊎ held (wk_shutdown ws).2.
(** Without a thread, whatever the fields hold was never opened, or is closed. *)
Definition ws_fds (ws : sm_ws_sink) : gmultiset Z :=
  match wk_thread ws with
  | ThNone => ∅
  | ThLoop cs => ws_base_fds ws ⊎ held_all (client_fds cs)
  | ThEnded => ws_base_fds ws
  end.

Section owned.
Context `{E : !FdEnv} {W : WsEnv}.

Lemma owns_register queue fd :
  owns (held fd ⊎ held_all queue) (sm_broker_register_client_async queue fd) held_all.
Proof.
  fd_step owns_attempt. destruct x.
  - apply owns_return. rewrite held_all_app. cbn. multiset_solver.
  - fd_step owns_close. fd_done.
Qed.

Lemma client_fds_remove i cs c : cs !! i = Some c ->
  held_all (client_fds cs) = held (sl_ws_fd c) ⊎ held (sl_bridge_fd c) ⊎ held_all (client_fds (swap_remove i cs)).
Proof.
  intros H. rewrite (held_all_perm (client_fds cs) (client_fds (c :: swap_remove i cs))).
  - rewrite client_fds_cons. cbn. multiset_solver.
  - unfold client_fds. by rewrite (swap_remove_Permutation _ _ _ H).
Qed.

Lemma owns_remove_client i cs :
  owns (held_all (client_fds cs)) (ws_remove_client i cs) (fun cs => held_all (client_fds cs)).
Proof.
  unfold ws_remove_client. destruct (cs !! i) as [c|] eqn:Ec; [|by apply owns_return].
  rewrite (client_fds_remove _ _ _ Ec).
  fd_step owns_close_open. fd_step owns_close_open. fd_done.
Qed.

Lemma client_fds_insert i cs c data : cs !! i = Some c ->
  client_fds (<[i := {| c with sl_client := data |}]> cs) = client_fds cs.
Proof.
  revert i. induction cs as [|c' cs IH]; intros [|i] H; try done; cbn in *.
  - by injection H as ->.
  - rewrite !client_fds_cons. by rewrite IH.
Qed.

Lemma owns_serve evs : forall i cs,
  owns (held_all (client_fds cs)) (ws_serve i evs cs) (fun cs => held_all (client_fds cs)).
Proof.
  induction evs as [|[e1 e2] evs IH]; intros i cs; cbn; [by apply owns_return|].
  destruct (cs !! i) as [c|] eqn:Ec; [|by apply owns_return].
  destruct (ws_client_turn e1 e2 (sl_client c)) as [keep data].
  rewrite <- (client_fds_insert i cs c data) by done.
  destruct keep; [apply IH|apply owns_remove_client].
Qed.

Lemma owns_accept fd hs cs queue :
  owns (held_all (client_fds cs) ⊎ held_all queue) (ws_accept_connection fd hs cs queue)
       (fun x => held_all (client_fds x.1) ⊎ held_all x.2).
Proof.
  unfold ws_accept_connection. fd_step owns_open_fd. rename x into cfd.
  destruct (Z.ltb_spec cfd 0) as [Hn|_]; [rewrite held_none by done; fd_done|].
  destruct (_ <=? _)%nat; [fd_step owns_close; fd_done|].
  assert (Hclose : owns (held cfd ⊎ (held_all (client_fds cs) ⊎ held_all queue))
    (close cfd;; mret (cs, queue)) (fun x => held_all (client_fds x.1) ⊎ held_all x.2)).
  { fd_step owns_close. fd_done. }
  destruct hs; [done..|]. fd_step owns_open_pair. destruct x as [[p0 p1]|]; cbn [held_pair].
  - fd_step owns_register. apply owns_return. cbn [fst snd].
    rewrite client_fds_app, held_all_app, client_fds_cons. cbn. multiset_solver.
  - eapply owns_eq; [apply Hclose|multiset_solver|done].
Qed.

Lemma returns_remove_client i cs c cs' :
  returns (ws_remove_client i cs) cs' -> cs !! i = Some c -> cs' = swap_remove i cs.
Proof.
  unfold ws_remove_client. intros H Hc. rewrite Hc in H.
  apply returns_bind in H as (_ & _ & H). apply returns_bind in H as (_ & _ & H). by apply returns_ret in H.
Qed.

(** With as many rounds as clients, none is left. *)
Lemma owns_remove_all n : forall cs, length cs = n ->
  owns (held_all (client_fds cs)) (ws_remove_all n cs) (fun cs' => held_all (client_fds cs')).
Proof.
  induction n as [|n IH]; intros cs Hn; cbn [ws_remove_all]; [by apply owns_return|].
  destruct cs as [|c cs]; [by apply owns_return|].
  eapply owns_returns; [apply owns_remove_client|]. intros cs' ->%(returns_remove_client _ _ c); [|done].
  apply IH. rewrite (length_swap_remove 0 _ c) by done. cbn in *. lia.
Qed.
Lemma returns_remove_all n : forall cs cs', length cs = n -> returns (ws_remove_all n cs) cs' -> cs' = [].
Proof.
  induction n as [|n IH]; intros [|c cs] cs' Hn H; cbn [ws_remove_all] in H; try done; [by apply returns_ret in H..|].
  apply returns_bind in H as (cs1 & ->%(returns_remove_client _ _ c) & H); [|done].
  apply IH in H; [done|]. rewrite (length_swap_remove 0 _ c) by done. cbn in *. lia.
Qed.

Lemma owns_thread_end cs : owns (held_all (client_fds cs)) (ws_thread_end cs) (fun _ => ∅).
Proof.
  eapply owns_returns; [by apply owns_remove_all|]. intros cs' ->%returns_remove_all; [|done]. fd_done.
Qed.
Lemma returns_thread_end cs th : returns (ws_thread_end cs) th -> th = ThEnded.
Proof. intros (_ & _ & H)%returns_bind. by apply returns_ret in H. Qed.

Lemma owns_thread_turn wake ws queue :
  owns (ws_fds ws ⊎ held_all queue) (ws_thread_turn wake ws queue) (fun x => ws_fds x.1 ⊎ held_all x.2).
Proof.
  unfold ws_thread_turn, ws_fds. destruct (wk_thread ws) as [|cs|] eqn:Et.
  1, 3: apply owns_return; cbn; by rewrite Et.
  assert (Hend : owns (ws_base_fds ws ⊎ held_all (client_fds cs) ⊎ held_all queue)
    (th ← ws_thread_end cs; mret ({| ws with wk_thread := th |}, queue)) (fun x => ws_fds x.1 ⊎ held_all x.2)).
  { eapply owns_returns with (mid := fun _ => ws_base_fds ws ⊎ held_all queue).
    - eapply owns_eq; [apply (owns_frame (held_all (client_fds cs)) (ws_base_fds ws ⊎ held_all queue)), owns_thread_end
        |multiset_solver|intros; cbn; multiset_solver].
    - intros th ->%returns_thread_end. by apply owns_return. }
  destruct wake as [| | |[hs|] evs]; [apply owns_return; cbn; by rewrite Et|apply Hend..| |].
  - fd_step owns_accept. fd_step owns_serve. apply owns_return. unfold ws_base_fds. cbn. multiset_solver.
  - apply owns_ret_bind. cbn [fst snd]. fd_step owns_serve. apply owns_return. unfold ws_base_fds. cbn. multiset_solver.
Qed.
(** The thread is there until it is joined. *)
Definition ws_started (ws : sm_ws_sink) : Prop := wk_thread ws <> ThNone.

(** A start that succeeds leaves a running thread; one that fails leaves nothing
    open, whatever the fields hold. *)
Lemma owns_start : owns ∅ (ws_start sm_ws_sink_new) (fun x => ws_fds x.2).
Proof.
  unfold ws_start. fd_step owns_open_fd. rename x into fd.
  destruct (Z.ltb_spec fd 0) as [Hn|_]; [rewrite held_none by done; fd_done|].
  fd_step owns_attempt. destruct x; cbn [negb]; [|fd_step owns_close; fd_done].
  fd_step owns_attempt. destruct x; cbn [negb]; [|fd_step owns_close; fd_done].
  fd_step owns_open_pair. destruct x as [[r w]|]; cbn [held_pair]; [|fd_step owns_close; fd_done].
  fd_step owns_attempt. destruct x; cbn [negb].
  - apply owns_return. unfold ws_fds, ws_base_fds. cbn. multiset_solver.
  - fd_step owns_close. fd_step owns_close. fd_step owns_close. fd_done.
Qed.
Lemma started_start rc ws : returns (ws_start sm_ws_sink_new) (rc, ws) -> ws_started ws <-> rc = 0.
Proof.
  unfold ws_started. intros [k H]. unfold ws_start in H. rewrite sresult_bind in H.
  destruct (_ <? 0); [injection H as <- <-; cbn; naive_solver|].
  repeat (rewrite sresult_bind in H; match type of H with context [negb ?b] => destruct b; cbn [negb] in H end;
    [|rewrite sresult_bind in H; injection H as <- <-; cbn; naive_solver]).
  rewrite sresult_bind in H. destruct (sresult open_pair _) as [[r w]|];
    [|rewrite sresult_bind in H; injection H as <- <-; cbn; naive_solver].
  rewrite sresult_bind in H. destruct (sresult attempt _); cbn [negb] in H.
  - injection H as <- <-; cbn; naive_solver.
  - rewrite !sresult_bind in H. injection H as <- <-; cbn; naive_solver.
Qed.

Lemma owns_stop ws : ws_started ws -> owns (ws_fds ws) (ws_stop ws) (fun _ => ∅).
Proof.
  intros Hs. unfold ws_stop. eapply owns_bind with (mid := fun _ => ws_base_fds ws).
  - unfold ws_fds. destruct (wk_thread ws) as [|cs|] eqn:Et; [by destruct Hs| |by apply owns_return].
    fd_step owns_thread_end. fd_done.
  - intros []. unfold ws_base_fds. fd_step owns_close. fd_step owns_close. fd_step owns_close_open. fd_done.
Qed.
Lemma returns_stop ws ws' : returns (ws_stop ws) ws' -> ws_fds ws' = ∅.
Proof.
  unfold ws_stop. intros H. do 4 apply returns_bind in H as (_ & _ & H). apply returns_ret in H. by rewrite H.
Qed.
End owned.

(** ** What goes wrong *)

(** When the sink could not be started, and it is stopped all the same, a thread
    is waited for that was never made. *)
Theorem ws_stop_without_thread `{E : !FdEnv} k rc ws :
  sresult (ws_start sm_ws_sink_new) k = (rc, ws) -> rc <> 0 ->
  BadJoin ∈ fd_faults (srun (ws_stop ws) (srun (ws_start sm_ws_sink_new) k)).
Proof.
  intros H Hrc. assert (Hw : wk_thread ws = ThNone).
  { destruct (started_start rc ws (ex_intro _ k H)) as [Hs _].
    destruct (wk_thread ws) eqn:Et; [done|..]; destruct Hrc; apply Hs; unfold ws_started; by rewrite Et. }
  generalize (srun (ws_start sm_ws_sink_new) k). clear k H. intros k.
  unfold ws_stop. rewrite Hw, srun_bind.
  apply (moves_seq more_faults (close (wk_shutdown ws).1)); [apply close_more_faults| |].
  - intros _. apply (moves_seq more_faults); [apply close_more_faults|]. intros _.
    apply (moves_seq more_faults); [apply close_open_more_faults|]. intros _. apply (moves_ret more_faults).
  - unfold srun, fault_at. cbn. by left.
Qed.

(** Without a pipe, or without a thread, the start closes the descriptors it
    leaves in the fields, and the stop closes them again. *)
Definition stop_after_start (ok : nat -> bool) : Z * list fault :=
  let k := mk_fds [2; 1; 0] 0 [] in
  let r := ws_start (E := lowest_env ok (fun _ => true)) sm_ws_sink_new k in
  (fst (snd r), fd_faults (srun (ws_stop (snd (snd r))) (fst r))).
Example demo_failed_starts :
  stop_after_start (fun _ => true) = (0, []) /\
  stop_after_start (fun n => negb (n =? 1)%nat) = (-1, [BadJoin]) /\
  stop_after_start (fun n => negb (n =? 3)%nat) = (-1, [BadClose 3; BadJoin]) /\
  stop_after_start (fun n => negb (n =? 4)%nat) = (-1, [BadClose 3; BadClose 5; BadClose 4; BadJoin]).
Proof. vm_compute. done. Qed.
