(* ===== verification/BrokerLife.v ===== *)
(** * The life of a broker's descriptors ([src/broker.c], [src/client.c])

    From [sm_broker_init] through [sm_broker_run] to [sm_broker_destroy]: the
    timers made when they are first needed, the listener, the event queue, the
    pipe other threads hand connections through, the clients and the sinks.
    Each of them is closed exactly once, on every path, with the exceptions
    stated at the end.  The link and the log files close what is theirs
    themselves; what the events do besides is in the files on the broker. *)
From stdpp Require Import gmultiset.
From S2P Require Import Prelude Arrays Effects BrokerState Ws Fds WsThread.

(** The sinks, with what they own. *)
Inductive sink := SkMcp | SkTcp (listen_fd : Z) | SkWs (ws : sm_ws_sink).

(** The descriptors in [sm_broker_t]; [bf_queue] is what the pipe holds. *)
Record broker_fds := mk_bf {
  bf_break : Z; bf_flood : Z; bf_stall : Z; bf_epoll : Z; bf_listen : Z; bf_pipe : Z * Z;
  bf_clients : list Z;
  bf_queue : list Z; bf_sinks : list sink }.

(** What happens in the loop, as far as descriptors are concerned. *)
Inductive life_event :=
  | EvBreakTimer | EvFloodTimer | EvStallTimer
  | EvAccept | EvPipe | EvRemove (i : nat)
  | EvTcpReadable (sink_idx : nat) (connections : nat)
  | EvWsThread (sink_idx : nat) (wake : ws_wakeup).

Section life.
Context `{E : !FdEnv} {W : WsEnv}.

(** ** Clients *)

Definition sm_client_destroy (fd : Z) : K unit := close_open fd.

(** A client that gets no buffers is destroyed, its descriptor closed. *)
Definition sm_client_new (fd : Z) : K bool :=
  c ← allocate;
  if negb c then mret false else
  read_buf ← allocate;
  write_queue ← allocate;
  if negb read_buf || negb write_queue then sm_client_destroy fd;; mret false else mret true.

Definition sm_broker_register_client (fd : Z) (b : broker_fds) : K broker_fds :=
  if (SM_MAX_CLIENTS <=? length (bf_clients b))%nat then close fd;; mret b else
  made ← sm_client_new fd;
  if negb made then close fd;; mret b else
  watched ← attempt;
  if negb watched then sm_client_destroy fd;; mret b
  else mret {| b with bf_clients := bf_clients b ++ [fd] |}.

Definition accept_client (b : broker_fds) : K broker_fds :=
  fd ← open_fd;
  if fd <? 0 then mret b else sm_broker_register_client fd b.

(** The records in the pipe, to the last. *)
Fixpoint register_all (fds : list Z) (b : broker_fds) : K broker_fds :=
  match fds with
  | [] => mret b
  | fd :: fds => b ← sm_broker_register_client fd b; register_all fds b
  end.
Definition read_pipe (b : broker_fds) : K broker_fds :=
  register_all (bf_queue b) {| b with bf_queue := [] |}.

Definition remove_client_fd (i : nat) (b : broker_fds) : K broker_fds :=
  match bf_clients b !! i with
  | None => mret b
  | Some fd => sm_client_destroy fd;; mret {| b with bf_clients := swap_remove i (bf_clients b) |}
  end.

(** ** Timers: made when first needed, and given up when they cannot be watched *)

Definition timer_ensure (fd : Z) : K Z :=
  if 0 <=? fd then mret fd else
  fd ← open_fd;
  if fd <? 0 then mret (-1) else
  watched ← attempt;
  if watched : bool then mret fd else close fd;; mret (-1).

(** ** Sinks *)

Definition tcp_start : K (Z * Z) :=
  fd ← open_fd;
  if fd <? 0 then mret (-1, -1) else
  bound ← attempt;
  if negb bound then close fd;; mret (-1, -1) else
  listening ← attempt;
  if negb listening then close fd;; mret (-1, -1) else mret (0, fd).
Definition tcp_stop (listen_fd : Z) : K Z := close_open listen_fd;; mret (-1).

Fixpoint tcp_on_readable (connections : nat) (b : broker_fds) : K broker_fds :=
  match connections with
  | O => mret b
  | S n => fd ← open_fd; if fd <? 0 then mret b else b ← sm_broker_register_client fd b; tcp_on_readable n b
  end.

Definition sink_start (s : sink) : K sink :=
  match s with
  | SkMcp => mret SkMcp
  | SkTcp _ => x ← tcp_start; mret (SkTcp x.2)
  | SkWs ws => x ← ws_start ws; mret (SkWs x.2)
  end.
Definition sink_stop (s : sink) : K sink :=
  match s with
  | SkMcp => mret SkMcp
  | SkTcp fd => fd ← tcp_stop fd; mret (SkTcp fd)
  | SkWs ws => ws ← ws_stop ws; mret (SkWs ws)
  end.
Fixpoint each_sink (f : sink -> K sink) (l : list sink) : K (list sink) :=
  match l with [] => mret [] | s :: l => s ← f s; l ← each_sink f l; mret (s :: l) end.

(** ** The program *)

(** Without memory for the clients the descriptors stay as [memset] left them:
    all are descriptor 0. *)
Definition sm_broker_init : K (Z * broker_fds) :=
  clients ← allocate;
  if negb clients then mret (-1, mk_bf 0 0 0 0 0 (0, 0) [] [] []) else
  pipe ← open_pair;
  mret (match pipe with
        | None => (-1, mk_bf (-1) (-1) (-1) (-1) (-1) (-1, -1) [] [] [])
        | Some p => (0, mk_bf (-1) (-1) (-1) (-1) (-1) p [] [] [])
        end).
Definition sm_broker_add_sink (s : sink) (b : broker_fds) : K broker_fds :=
  grown ← allocate;
  mret (if grown : bool then {| b with bf_sinks := bf_sinks b ++ [s] |} else b).
Fixpoint add_sinks (sinks : list sink) (b : broker_fds) : K broker_fds :=
  match sinks with [] => mret b | s :: sinks => b ← sm_broker_add_sink s b; add_sinks sinks b end.

(** The descriptors of [create_listen_socket]; what it does to the directory is
    in [BrokerListen]. *)
Definition create_listen_socket_fd (is_link is_socket too_long : bool) : K Z :=
  if is_link then mret (-1) else
  answered ← (if is_socket then
                test_fd ← open_fd;
                if test_fd <? 0 then mret false else answered ← attempt; close test_fd;; mret answered
              else mret false);
  if (answered : bool) || too_long then mret (-1) else
  fd ← open_fd;
  if fd <? 0 then mret (-1) else
  bound ← attempt;
  if negb bound then close fd;; mret (-1) else
  listening ← attempt;
  if negb listening then close fd;; mret (-1) else
  renamed ← attempt;
  if negb renamed then close fd;; mret (-1) else mret fd.

(** What a start finds under its name, and whether its link is polled. *)
Record life_start := mk_start {
  st_is_link : bool; st_is_socket : bool; st_too_long : bool; st_link_fd : bool }.

Definition broker_setup (st : life_start) (b : broker_fds) : K (Z * broker_fds) :=
  opened ← attempt;
  if negb opened then mret (-1, b) else
  fd ← create_listen_socket_fd (st_is_link st) (st_is_socket st) (st_too_long st);
  let b := {| b with bf_listen := fd |} in
  if fd <? 0 then mret (-1, b) else
  fd ← open_fd;
  let b := {| b with bf_epoll := fd |} in
  if fd <? 0 then mret (-1, b) else
  link_watched ← (if st_link_fd st then attempt else mret true);
  if negb link_watched then mret (-1, b) else
  listen_watched ← attempt;
  if negb listen_watched then mret (-1, b) else
  pipe_watched ← (if (bf_pipe b).1 <? 0 then mret false else attempt);
  if negb pipe_watched then mret (-1, b) else
  sinks ← each_sink sink_start (bf_sinks b);
  mret (0, {| b with bf_sinks := sinks |}).

Definition life_step (ev : life_event) (b : broker_fds) : K broker_fds :=
  match ev with
  | EvBreakTimer => fd ← timer_ensure (bf_break b); mret {| b with bf_break := fd |}
  | EvFloodTimer => fd ← timer_ensure (bf_flood b); mret {| b with bf_flood := fd |}
  | EvStallTimer => fd ← timer_ensure (bf_stall b); mret {| b with bf_stall := fd |}
  | EvAccept => accept_client b
  | EvPipe => read_pipe b
  | EvRemove i => remove_client_fd i b
  | EvTcpReadable s n => match bf_sinks b !! s with Some (SkTcp _) => tcp_on_readable n b | _ => mret b end
  | EvWsThread s wake =>
      match bf_sinks b !! s with
      | Some (SkWs ws) =>
          x ← ws_thread_turn wake ws (bf_queue b);
          mret {| b with bf_sinks := <[s := SkWs x.1]> (bf_sinks b); bf_queue := x.2 |}
      | _ => mret b
      end
  end.
Fixpoint life_steps (evs : list life_event) (b : broker_fds) : K broker_fds :=
  match evs with [] => mret b | ev :: evs => b ← life_step ev b; life_steps evs b end.

(** The clean-up at the end of [sm_broker_run]. *)
Definition run_cleanup_fds (b : broker_fds) : K broker_fds :=
  sinks ← each_sink sink_stop (bf_sinks b);
  close_open (bf_break b);; close_open (bf_flood b);; close_open (bf_stall b);;
  close_open (bf_epoll b);; close_open (bf_listen b);;
  close_open (bf_pipe b).1;; close_open (bf_pipe b).2;;
  mret {| b with bf_break := -1; bf_flood := -1; bf_stall := -1; bf_epoll := -1; bf_listen := -1;
                 bf_pipe := (-1, -1); bf_sinks := sinks |}.

(** [sm_broker_destroy]: what the run left. *)
Definition sm_broker_destroy_fds (b : broker_fds) : K broker_fds :=
  close_open (bf_break b);; close_open (bf_flood b);; close_open (bf_stall b);;
  close_all (rev (bf_clients b));;
  close_open (bf_epoll b);; close_open (bf_listen b);;
  close_open (bf_pipe b).1;; close_open (bf_pipe b).2;;
  mret {| b with bf_break := -1; bf_flood := -1; bf_stall := -1; bf_epoll := -1; bf_listen := -1;
                 bf_pipe := (-1, -1); bf_clients := [] |}.

(** The broker up to its shutdown, and the result of the setup.  [main] goes on
    whatever [sm_broker_init] returns: without the pipe the setup fails; without
    the clients it runs on, until a client is registered in the array that is
    not there, which the model does not follow. *)
Definition broker_up (sinks : list sink) (st : life_start) (evs : list life_event) : K (Z * broker_fds) :=
  init ← sm_broker_init;
  b ← add_sinks sinks init.2;
  x ← broker_setup st b;
  let '(rc, b) := x in
  if rc =? 0 then b ← life_steps evs b; mret (0, b) else mret (rc, b).
(** ... and from there to its end. *)
Definition broker_down (x : Z * broker_fds) : K (list Z) :=
  let '(rc, b) := x in
  b ← (if rc =? 0 then run_cleanup_fds b else mret b);
  b ← sm_broker_destroy_fds b;
  mret (bf_queue b).
End life.

(** ** What the broker owns *)

Definition sink_fds (s : sink) : gmultiset Z :=
  match s with
  | SkMcp => ∅
  | SkTcp fd => held fd
  | SkWs ws => ws_fds ws
  end.
Fixpoint sinks_fds (l : list sink) : gmultiset Z :=
  match l with [] => ∅ | s :: l => sink_fds s ⊎ sinks_fds l end.
Definition bf_own (b : broker_fds) : gmultiset Z :=
  held (bf_break b) ⊎ held (bf_flood b) ⊎ held (bf_stall b) ⊎ held (bf_epoll b) ⊎ held (bf_listen b) ⊎
  held (bf_pipe b).1 ⊎ held (bf_pipe b).2 ⊎ held_all (bf_clients b) ⊎ held_all (bf_queue b).
Definition bf_fds (b : broker_fds) : gmultiset Z := bf_own b ⊎ sinks_fds (bf_sinks b).

(** The sinks before they are started, and while the broker runs. *)
Definition sink_fresh (s : sink) : Prop := s = SkMcp \/ s = SkTcp (-1) \/ s = SkWs sm_ws_sink_new.
Definition sink_up (s : sink) : Prop := match s with SkWs ws => ws_started ws | _ => True end.

Section owned.
Context `{E : !FdEnv} {W : WsEnv}.

(** Memory suffices. *)
Hypothesis memory : forall n, fe_mem n = true.


Lemma owns_allocated {B} own (f : bool -> ST fd_table B) post : owns own (f true) post -> owns own (allocate ≫= f) post.
Proof.
  intros H. eapply owns_returns with (mid := fun _ => own).
  - eapply owns_eq; [apply (owns_frame ∅ own), owns_allocate|multiset_solver|intros; cbn; multiset_solver].
  - intros x [k <-]. unfold allocate, sresult. cbn. by rewrite memory.
Qed.
Lemma owns_client_new fd : owns (held fd) (sm_client_new fd) (fun ok => if ok : bool then held fd else ∅).
Proof. unfold sm_client_new. repeat (apply owns_allocated; cbn [negb orb]). by apply owns_return. Qed.
Lemma returns_allocated {B} (f : bool -> ST fd_table B) y : returns (allocate ≫= f) y -> returns (f true) y.
Proof.
  intros (x & [k <-] & H)%returns_bind. unfold allocate, sresult in H. cbn in H. by rewrite memory in H.
Qed.
Lemma returns_client_new fd ok : returns (sm_client_new fd) ok -> ok = true.
Proof. intros H. do 3 apply returns_allocated in H. by apply returns_ret in H. Qed.

Ltac owned := unfold bf_fds, bf_own; cbn; rewrite ?held_all_app; cbn; multiset_solver.

Lemma owns_register_client fd b : owns (held fd ⊎ bf_fds b) (sm_broker_register_client fd b) bf_fds.
Proof.
  unfold sm_broker_register_client. destruct (_ <=? _)%nat; [fd_step owns_close; fd_done|].
  eapply owns_returns; [apply (owns_frame (held fd)), owns_client_new|]. intros ok ->%returns_client_new.
  cbn [negb]. fd_step owns_attempt. destruct x; cbn [negb].
  - apply owns_return. owned.
  - fd_step owns_close_open. fd_done.
Qed.
Lemma owns_accept_client b : owns (bf_fds b) (accept_client b) bf_fds.
Proof.
  unfold accept_client. fd_step owns_open_fd.
  destruct (Z.ltb_spec x 0); [rewrite held_none by done; fd_done|]. apply owns_register_client.
Qed.
Lemma owns_register_all l : forall b, owns (held_all l ⊎ bf_fds b) (register_all l b) bf_fds.
Proof.
  induction l as [|fd l IH]; intros b; cbn [register_all held_all]; [fd_done|].
  fd_step owns_register_client. eapply owns_eq; [apply IH|multiset_solver|done].
Qed.
Lemma owns_read_pipe b : owns (bf_fds b) (read_pipe b) bf_fds.
Proof. eapply owns_eq; [apply owns_register_all|owned|done]. Qed.
Lemma owns_tcp_on_readable n : forall b, owns (bf_fds b) (tcp_on_readable n b) bf_fds.
Proof.
  induction n as [|n IH]; intros b; cbn [tcp_on_readable]; [by apply owns_return|]. fd_step owns_open_fd.
  destruct (Z.ltb_spec x 0); [rewrite held_none by done; fd_done|].
  eapply owns_bind; [apply owns_register_client|]. apply IH.
Qed.
Lemma owns_remove_client_fd i b : owns (bf_fds b) (remove_client_fd i b) bf_fds.
Proof.
  unfold remove_client_fd. destruct (bf_clients b !! i) as [fd|] eqn:Ei; [|by apply owns_return].
  unfold bf_fds, bf_own. rewrite <- (held_all_perm _ _ (swap_remove_Permutation _ _ _ Ei)). cbn [held_all].
  fd_step owns_close_open. fd_done.
Qed.
Lemma owns_timer fd : owns (held fd) (timer_ensure fd) held.
Proof.
  unfold timer_ensure. destruct (Z.leb_spec 0 fd) as [|Hn]; [by apply owns_return|]. rewrite held_none by done.
  fd_step owns_open_fd. destruct (Z.ltb_spec x 0) as [Hx|]; [rewrite held_none by done; fd_done|].
  fd_step owns_attempt. destruct x0; [fd_done|]. fd_step owns_close. fd_done.
Qed.

Lemma sinks_fds_insert i s l : l !! i = Some s -> exists rest,
  sinks_fds l = sink_fds s ⊎ rest /\ forall s', sinks_fds (<[i := s']> l) = sink_fds s' ⊎ rest.
Proof.
  revert i. induction l as [|x l IH]; intros [|i] H; try done; cbn in *.
  - injection H as ->. by eexists.
  - destruct (IH i H) as (rest & -> & E2). exists (sink_fds x ⊎ rest). split; [multiset_solver|]. intros s'.
    change (sink_fds x ⊎ sinks_fds (<[i := s']> l) = sink_fds s' ⊎ (sink_fds x ⊎ rest)).
    rewrite E2. multiset_solver.
Qed.
Lemma owns_ws_step i ws wake b : bf_sinks b !! i = Some (SkWs ws) ->
  owns (bf_fds b)
    (x ← ws_thread_turn wake ws (bf_queue b);
     mret {| b with bf_sinks := <[i := SkWs x.1]> (bf_sinks b); bf_queue := x.2 |}) bf_fds.
Proof.
  intros (rest & E1 & E2)%sinks_fds_insert. unfold bf_fds, bf_own. rewrite E1. cbn [sink_fds].
  fd_step owns_thread_turn. apply owns_return. cbn. rewrite E2. cbn. multiset_solver.
Qed.

Lemma owns_life_step ev b : owns (bf_fds b) (life_step ev b) bf_fds.
Proof.
  destruct ev; cbn [life_step].
  1-3: unfold bf_fds, bf_own; fd_step owns_timer; fd_done.
  - apply owns_accept_client.
  - apply owns_read_pipe.
  - apply owns_remove_client_fd.
  - destruct (bf_sinks b !! sink_idx) as [[]|]; try by apply owns_return. apply owns_tcp_on_readable.
  - destruct (bf_sinks b !! sink_idx) as [[| |ws]|] eqn:Es; try by apply owns_return. by apply owns_ws_step.
Qed.
Lemma owns_life_steps evs : forall b, owns (bf_fds b) (life_steps evs b) bf_fds.
Proof.
  induction evs as [|ev evs IH]; intros b; cbn [life_steps]; [by apply owns_return|].
  eapply owns_bind; [apply owns_life_step|]. apply IH.
Qed.

Lemma owns_tcp_start : owns ∅ tcp_start (fun x => held x.2).
Proof.
  unfold tcp_start. fd_step owns_open_fd. destruct (Z.ltb_spec x 0); [rewrite held_none by done; fd_done|].
  fd_step owns_attempt. destruct x0; cbn [negb]; [|fd_step owns_close; fd_done].
  fd_step owns_attempt. destruct x0; cbn [negb]; [fd_done|fd_step owns_close; fd_done].
Qed.
Lemma owns_sink_start s : sink_fresh s -> owns (sink_fds s) (sink_start s) sink_fds.
Proof.
  intros [->|[->| ->]]; cbn [sink_start].
  - by apply owns_return.
  - fd_step owns_tcp_start. fd_done.
  - fd_step owns_start. fd_done.
Qed.
Lemma owns_sinks_start l : Forall sink_fresh l -> owns (sinks_fds l) (each_sink sink_start l) sinks_fds.
Proof.
  induction 1 as [|s l Hs Hl IH]; cbn [each_sink sinks_fds]; [by apply owns_return|].
  eapply owns_step; [by apply owns_sink_start|done|]. cbn beta. intros s'.
  fd_step IH. fd_done.
Qed.
Lemma fresh_sinks_fds l : Forall sink_fresh l -> sinks_fds l = ∅.
Proof. induction 1 as [|s l [->|[->| ->]] Hl IH]; cbn; [done|..]; rewrite IH; done. Qed.

Lemma owns_sink_stop s : sink_up s -> owns (sink_fds s) (sink_stop s) (fun _ => ∅).
Proof.
  destruct s as [|fd|ws]; intros Hs; cbn [sink_stop sink_fds].
  - by apply owns_return.
  - eapply owns_bind with (mid := fun _ => ∅); [|intros; by apply owns_return].
    unfold tcp_stop. fd_step owns_close_open. fd_done.
  - eapply owns_bind; [by apply owns_stop|]. intros ws'. by apply owns_return.
Qed.
Lemma owns_sinks_stop l : Forall sink_up l -> owns (sinks_fds l) (each_sink sink_stop l) (fun _ => ∅).
Proof.
  induction 1 as [|s l Hs Hl IH]; cbn [each_sink sinks_fds]; [by apply owns_return|].
  eapply owns_step; [by apply owns_sink_stop|done|]. cbn beta. intros s'.
  fd_step IH. fd_done.
Qed.

Lemma owns_init : owns ∅ sm_broker_init (fun x => held (bf_pipe x.2).1 ⊎ held (bf_pipe x.2).2).
Proof.
  unfold sm_broker_init. apply owns_allocated. cbn [negb]. fd_step owns_open_pair.
  apply owns_return. destruct x as [[r w]|]; cbn; rewrite ?(held_none (-1)) by done; multiset_solver.
Qed.
Lemma returns_init x : returns sm_broker_init x ->
  exists p, x.2 = mk_bf (-1) (-1) (-1) (-1) (-1) p [] [] [].
Proof.
  intros H. apply returns_allocated in H. cbn [negb] in H.
  apply returns_bind in H as ([p|] & _ & H); apply returns_ret in H as ->; by eexists.
Qed.

Lemma owns_add_sinks sinks : forall p l,
  owns (held p.1 ⊎ held p.2) (add_sinks sinks (mk_bf (-1) (-1) (-1) (-1) (-1) p [] [] l))
    (fun _ => held p.1 ⊎ held p.2).
Proof.
  induction sinks as [|s sinks IH]; intros p l; cbn [add_sinks]; [by apply owns_return|].
  eapply owns_returns with (mid := fun _ => held p.1 ⊎ held p.2).
  - unfold sm_broker_add_sink. apply owns_allocated. by apply owns_return.
  - intros b H%returns_allocated. apply returns_ret in H as ->. apply IH.
Qed.
Lemma returns_add_sinks sinks : forall p l b,
  returns (add_sinks sinks (mk_bf (-1) (-1) (-1) (-1) (-1) p [] [] l)) b ->
  b = mk_bf (-1) (-1) (-1) (-1) (-1) p [] [] (l ++ sinks).
Proof.
  induction sinks as [|s sinks IH]; intros p l b; cbn [add_sinks].
  - intros ->%returns_ret. by rewrite app_nil_r.
  - intros (b1 & H1%returns_allocated & H2)%returns_bind. apply returns_ret in H1 as ->.
    apply IH in H2 as ->. cbn. by rewrite <- app_assoc.
Qed.

Lemma owns_create_listen_socket l s t : owns ∅ (create_listen_socket_fd l s t) held.
Proof.
  unfold create_listen_socket_fd. destruct l; [by apply owns_return|].
  eapply owns_bind with (mid := fun _ => ∅).
  { destruct s; [|by apply owns_return]. fd_step owns_open_fd.
    destruct (Z.ltb_spec x 0); [rewrite held_none by done; fd_done|].
    fd_step owns_attempt. fd_step owns_close. fd_done. }
  intros answered. destruct (_ || _); [by apply owns_return|]. fd_step owns_open_fd.
  destruct (Z.ltb_spec x 0); [rewrite held_none by done; fd_done|].
  do 3 (fd_step owns_attempt; destruct x0; cbn [negb]; [|fd_step owns_close; fd_done]). fd_done.
Qed.

(** What the setup leaves: when it fails no sink was started. *)
Ltac left_over := apply owns_return; unfold bf_own; cbn; rewrite ?(held_none (-1)) by done; multiset_solver.
Lemma owns_setup st p sinks : Forall sink_fresh sinks ->
  owns (held p.1 ⊎ held p.2) (broker_setup st (mk_bf (-1) (-1) (-1) (-1) (-1) p [] [] sinks))
    (fun x => bf_own x.2 ⊎ (if x.1 =? 0 then sinks_fds (bf_sinks x.2) else ∅)).
Proof.
  intros Hs. assert (Hstart : owns ∅ (each_sink sink_start sinks) sinks_fds).
  { rewrite <- (fresh_sinks_fds _ Hs). by apply owns_sinks_start. }
  unfold broker_setup. cbn zeta.
  fd_step owns_attempt. destruct x; cbn [negb]; [|left_over].
  fd_step owns_create_listen_socket. rename x into l. destruct (l <? 0); [left_over|].
  fd_step owns_open_fd. rename x into e. destruct (e <? 0); [left_over|].
  eapply owns_bind with (mid := fun _ => held e ⊎ (held l ⊎ (held p.1 ⊎ held p.2))).
  { destruct (st_link_fd st); [|fd_done].
    eapply owns_eq; [apply (owns_frame ∅ (held e ⊎ (held l ⊎ (held p.1 ⊎ held p.2)))), owns_attempt|multiset_solver|intros; cbn; multiset_solver]. }
  intros watched. destruct watched; cbn [negb]; [|left_over].
  fd_step owns_attempt. destruct x; cbn [negb]; [|left_over].
  eapply owns_bind with (mid := fun _ => held e ⊎ (held l ⊎ (held p.1 ⊎ held p.2))).
  { cbn [bf_pipe]. destruct (p.1 <? 0); [fd_done|].
    eapply owns_eq; [apply (owns_frame ∅ (held e ⊎ (held l ⊎ (held p.1 ⊎ held p.2)))), owns_attempt|multiset_solver|intros; cbn; multiset_solver]. }
  intros pipe_watched. destruct pipe_watched; cbn [negb]; [|left_over].
  fd_step Hstart. left_over.
Qed.

(** The clean-up leaves only the clients, and what is in the pipe. *)
Lemma owns_cleanup b : Forall sink_up (bf_sinks b) -> owns (bf_fds b) (run_cleanup_fds b) bf_own.
Proof.
  intros Hs. unfold run_cleanup_fds, bf_fds, bf_own. fd_step (owns_sinks_stop _ Hs).
  do 7 fd_step owns_close_open. left_over.
Qed.
Lemma held_all_rev l : held_all (rev l) = held_all l.
Proof. apply held_all_perm. by rewrite <- Permutation_rev. Qed.
Lemma owns_destroy b : owns (bf_own b) (sm_broker_destroy_fds b) (fun b => held_all (bf_queue b)).
Proof.
  unfold sm_broker_destroy_fds, bf_own. rewrite <- (held_all_rev (bf_clients b)).
  do 3 fd_step owns_close_open. fd_step owns_close_all. do 4 fd_step owns_close_open. fd_done.
Qed.

(** What is owned after the setup and the events. *)
Definition up_fds (x : Z * broker_fds) : gmultiset Z :=
  bf_own x.2 ⊎ (if x.1 =? 0 then sinks_fds (bf_sinks x.2) else ∅).

Lemma owns_up sinks st evs : Forall sink_fresh sinks -> owns ∅ (broker_up sinks st evs) up_fds.
Proof.
  intros Hs. unfold broker_up. eapply owns_returns; [apply owns_init|].
  intros [irc ib] (p & Ep)%returns_init. cbn [snd] in Ep. subst ib. cbn [snd bf_pipe].
  eapply owns_returns; [apply owns_add_sinks|]. intros ib ->%returns_add_sinks. cbn [app].
  eapply owns_bind; [by apply owns_setup|].
  intros [rc b]. cbn [fst snd]. destruct (Z.eqb_spec rc 0) as [->|Hrc].
  - eapply owns_bind; [apply owns_life_steps|]. intros b'. by apply owns_return.
  - apply owns_return. unfold up_fds. cbn [fst snd]. by rewrite (proj2 (Z.eqb_neq _ _)).
Qed.

(** The sinks at the end of the loop were started. *)
Definition sinks_up (x : Z * broker_fds) : Prop := x.1 = 0 -> Forall sink_up (bf_sinks x.2).

Lemma owns_down x : sinks_up x -> owns (up_fds x) (broker_down x) held_all.
Proof.
  destruct x as [rc b]. unfold sinks_up, up_fds, broker_down. cbn [fst snd]. intros Hup.
  eapply owns_bind with (mid := bf_own).
  - destruct (Z.eqb_spec rc 0) as [->|]; [by apply owns_cleanup, Hup|]. fd_done.
  - intros b'. eapply owns_bind; [apply owns_destroy|]. intros b''. by apply owns_return.
Qed.

(** C4: whatever calls fail, whatever the sinks are and whatever happens while the
    broker runs: from its start to its end the broker closes every descriptor
    it opened, was handed or accepted, exactly once and no other, unless memory
    runs out or a WebSocket sink did not start.  Only the connections
    that are still in the pipe at the end are left open. *)
Theorem broker_descriptors_settled sinks st evs k :
  Forall sink_fresh sinks -> sinks_up (sresult (broker_up sinks st evs) k) ->
  let up := broker_up sinks st evs in
  let down := broker_down (sresult up k) in
  fds (fd_open (srun down (srun up k))) = held_all (sresult down (srun up k)) ⊎ fds (fd_open k) /\
  fd_faults (srun down (srun up k)) = fd_faults k.
Proof.
  intros Hs Hup. cbn zeta.
  destruct (owns_up sinks st evs Hs (fds (fd_open k)) k) as [H1 H2]; [multiset_solver|].
  destruct (owns_down _ Hup (fds (fd_open k)) _ H1) as [H3 H4]. split; [done|congruence].
Qed.
End owned.

(** ** What goes wrong *)

(** When memory runs out between a client and its buffers, its descriptor is
    closed with the client and then again. *)
Theorem client_closed_twice `{E : !FdEnv} fd others b k :
  0 <= fd -> fd_open k = fd :: others -> fd ∉ others ->
  (length (bf_clients b) < SM_MAX_CLIENTS)%nat ->
  fe_mem (fd_calls k) = true -> fe_mem (S (fd_calls k)) = false ->
  fd_faults (srun (sm_broker_register_client fd b) k) = BadClose fd :: fd_faults k.
Proof.
  intros Hfd Hopen Hnot Hroom H1 H2. unfold sm_broker_register_client.
  rewrite (proj2 (Nat.leb_gt _ _)) by done.
  unfold sm_client_new, allocate, sm_client_destroy, close_open, close, swhen, srun, mbind, ST_bind, mret, ST_ret,
    sget, smod, fault_at. cbn. rewrite H1. cbn. rewrite H2. cbn.
  rewrite (proj2 (Z.leb_le _ _)), (proj2 (Z.ltb_ge _ _)), Hopen by done. cbn.
  rewrite bool_decide_true by left. cbn. rewrite Z.eqb_refl. by rewrite bool_decide_false by done.
Qed.

(** ** A run *)

Definition demo_sinks : list sink := [SkMcp; SkTcp (-1); SkWs sm_ws_sink_new].
Definition demo_start : life_start := mk_start false true false true.
(** A browser connects and leaves, other clients come and go, timers are made;
    a second browser connects when the broker has stopped to listen to the pipe. *)
Definition demo_events : list life_event :=
  [ EvAccept; EvBreakTimer; EvTcpReadable 1 2; EvWsThread 2 (WkEvents (Some (HsDone [])) []); EvPipe;
    EvRemove 0; EvBreakTimer; EvStallTimer; EvWsThread 2 (WkEvents None [(WevHup, WevNone)]);
    EvWsThread 2 (WkEvents (Some (HsDone [])) []) ].
Definition demo_life_of (mem ok : nat -> bool) (evs : list life_event) : Z * (list Z * list Z * list fault) :=
  let E := lowest_env ok mem in let W : WsEnv := fun _ => true in
  let k := mk_fds [2; 1; 0] 0 [] in
  let up := broker_up demo_sinks demo_start evs k in
  let down := broker_down (snd up) (fst up) in
  (fst (snd up), (fd_open (fst down), snd down, fd_faults (fst down))).
Definition demo_life (ok : nat -> bool) : list Z * list Z * list fault :=
  snd (demo_life_of (fun _ => true) ok demo_events).

(** With everything up only the connection in the pipe is left open; nothing is
    when another instance answers; and when the port of the WebSocket sink is
    taken, or its thread cannot be made, the stop of the sink goes wrong. *)
Example demo_lives :
  demo_life (fun n => negb (n =? 6)%nat) = ([17; 2; 1; 0], [17], []) /\
  demo_life (fun _ => true) = ([2; 1; 0], [], []) /\
  demo_life (fun n => negb (n =? 6)%nat && negb (n =? 19)%nat) = ([2; 1; 0], [], [BadJoin]) /\
  demo_life (fun n => negb (n =? 6)%nat && negb (n =? 22)%nat) =
    ([2; 1; 0], [], [BadClose 10; BadClose 8; BadClose 9; BadJoin]).
Proof. vm_compute. done. Qed.

(** [main] ignores a failed [sm_broker_init].  Without the pipe the setup fails
    and everything is settled; without memory for the clients the broker comes
    up, and its end closes standard input, and descriptor 0 four times more. *)
Example demo_init_failures :
  demo_life_of (fun _ => true) (fun n => negb (n =? 1)%nat) [] = (-1, ([2; 1; 0], [], [])) /\
  demo_life_of (fun n => negb (n =? 0)%nat) (fun n => negb (n =? 5)%nat) [] =
    (0, ([2; 1], [], [BadClose 0; BadClose 0; BadClose 0; BadClose 0])).
Proof. vm_compute. done. Qed.

Definition demo_fd_env : FdEnv := lowest_env (fun n => negb (n =? 6)%nat) (fun _ => true).
Definition demo_ws_env : WsEnv := fun _ => true.
Definition demo_fds : fd_table := mk_fds [2; 1; 0] 0 [].
Lemma broker_descriptors_settled_witness :
  let up := broker_up (E := demo_fd_env) (W := demo_ws_env) demo_sinks demo_start demo_events in
  let down := broker_down (sresult up demo_fds) in
  Forall sink_fresh demo_sinks /\
  fds (fd_open (srun down (srun up demo_fds))) =
    held_all (sresult down (srun up demo_fds)) ⊎ fds (fd_open demo_fds) /\
  fd_faults (srun down (srun up demo_fds)) = fd_faults demo_fds.
Proof.
  assert (Hs : Forall sink_fresh demo_sinks) by (repeat constructor; unfold sink_fresh; auto).
  cbn zeta. split; [exact Hs|].
  apply (broker_descriptors_settled (E := demo_fd_env) (W := demo_ws_env) (fun _ => eq_refl) demo_sinks demo_start
    demo_events demo_fds Hs).
  vm_compute. intros _. repeat constructor; done.
Defined.
