(* ===== verification/McpConn.v ===== *)
(** * The connection of the MCP servers to a broker ([src/mcp_broker_conn.c])

    Lines of JSON over a socket: a reader that hands device output and link
    events to callbacks and looks for the message it was asked for, and the
    waiting around it.  What the socket, the clock and the allocator do is a
    script. *)
From S2P Require Import Prelude Cstr Codecs Json Protocol Regex Anomaly Effects Client McpTools.

#[local] Open Scope string_scope.
#[local] Open Scope list_scope.
#[local] Open Scope Z_scope.

(** ** State *)

(** [bc_fd] is -1 without a connection.  The two flags say whether a callback
    is registered; what it is given is returned by the operations. *)
Record sm_broker_conn := mk_conn {
  bc_fd : Z; bc_running : bool; bc_read : bytes; bc_read_cap : Z; bc_next_seq : Z;
  bc_on_output : bool; bc_on_event : bool }.

(** A call of [on_output] or [on_event]. *)
Inductive delivery := DeliverOutput (data : bytes) | DeliverEvent (type : string) (root : json).

Definition sm_broker_conn_init (ok : bool) (read_cap : Z) : option sm_broker_conn :=
  if ok then Some (mk_conn (-1) true [] read_cap 0 false false) else None.
Definition sm_broker_conn_destroy (c : sm_broker_conn) : sm_broker_conn :=
  {| c with bc_fd := -1; bc_read := []; bc_read_cap := 0 |}.
Definition sm_broker_conn_set_output_cb (c : sm_broker_conn) : sm_broker_conn :=
  {| c with bc_on_output := true |}.
Definition sm_broker_conn_set_event_cb (c : sm_broker_conn) : sm_broker_conn :=
  {| c with bc_on_event := true |}.

(** ["mcp-%08x"] of an unsigned counter. *)
Definition sm_broker_conn_gen_wire_id (len : nat) (c : sm_broker_conn) : string * sm_broker_conn :=
  (snprintf_s len ("mcp-" +:+ string_of_bytes (hex_digits 8 (u32 (bc_next_seq c)))),
   {| c with bc_next_seq := u32 (bc_next_seq c + 1) |}).

(** ** Writing *)

(** Blocking writes until everything is sent; interrupted calls are repeated
    and not listed. *)
Fixpoint sm_write_all (data : bytes) (env : list wres) : Z * bytes :=
  match data, env with
  | [], _ => (0, [])
  | _, WBytes n :: env' =>
      let n := Z.max 0 (Z.min n (zlen data)) in
      if n =? 0 then (-1, []) else
      let '(rc, sent) := sm_write_all (zdrop n data) env' in (rc, ztake n data ++ sent)
  | _, _ => (-1, [])
  end.

(** What [poll] reports in a turn of a server's main loop: for the broker
    whether it is readable or hung up and what a read gives, for standard input
    the same. *)
Record main_poll := mk_poll {
  mp_broker_in : bool; mp_broker_hup : bool; mp_broker_realloc : bool; mp_broker_read : rres;
  mp_stdin_in : bool; mp_stdin_hup : bool; mp_stdin_read : rres }.
Inductive main_event := MainInterrupted | MainFailed | MainPoll (p : main_poll).

Section conn.
Context {J : JsonText}.

(** The result and the bytes that went out. *)
Definition sm_broker_conn_send (msg : json) (env : list wres) : Z * bytes :=
  sm_write_all (sm_msg_encode msg) env.

(** ** Reading *)

Definition is_link_event (t : sm_msg_type) : bool :=
  match t with
  | SM_MSG_LINK_DOWN | SM_MSG_LINK_UP | SM_MSG_SUSPENDED | SM_MSG_RESUMED => true
  | _ => false
  end.

(** What a message is handed to. *)
Definition deliver (c : sm_broker_conn) (m : sm_msg) : list delivery :=
  match m_root m with
  | None => []
  | Some root =>
      match m_type m with
      | SM_MSG_OUTPUT =>
          match sm_json_get_string root "data" with
          | Some b64 =>
              if bc_on_output c then
                match sm_base64_decode (bytes_of_string b64) with
                | Some data => [DeliverOutput data] | None => [] end
              else []
          | None => []
          end
      | t => if bc_on_event c && is_link_event t then [DeliverEvent (sm_msg_type_name t) root] else []
      end
  end.

(** Whether it is the message waited for: by id, or the answer to a hello. *)
Definition answers (wire_id : option string) (m : sm_msg) : bool :=
  match m_root m with
  | None => false
  | Some root =>
      match m_type m with
      | SM_MSG_OUTPUT => false
      | t =>
          match wire_id with
          | Some w => match sm_json_get_string root "id" with Some id => streq id w | None => false end
          | None => match t with SM_MSG_WELCOME | SM_MSG_ERROR => true | _ => false end
          end
      end
  end.

(** The complete lines of the buffer up to the message waited for: that
    message, the calls made, what stays in the buffer. *)
Fixpoint conn_lines (fuel : nat) (wire_id : option string) (c : sm_broker_conn) (buf : bytes) :
    option json * list delivery * bytes :=
  match fuel with
  | O => (None, [], buf)
  | S f =>
      match split_line buf with
      | None => (None, [], buf)
      | Some (line, rest) =>
          let m := sm_msg_decode line in
          if answers wire_id m then (m_root m, deliver c m, rest)
          else let '(r, ds, more) := conn_lines f wire_id c rest in (r, deliver c m ++ ds, more)
      end
  end.

Definition conn_read_cap (c : sm_broker_conn) : Z :=
  Z.min (bc_read_cap c * 2) SM_MCP_READ_BUF_MAX.

Definition conn_take (wire_id : option string) (b : bytes) (c : sm_broker_conn) :
    option json * list delivery * sm_broker_conn :=
  let buf := bc_read c ++ b in
  let '(r, ds, more) := conn_lines (length buf) wire_id c buf in
  (r, ds, {| c with bc_read := more |}).

Definition sm_broker_conn_read (wire_id : option string) (realloc_ok : bool) (r : rres)
    (c : sm_broker_conn) : option json * list delivery * sm_broker_conn :=
  let full := bc_read_cap c - 1 <=? zlen (bc_read c) in
  if full && (conn_read_cap c <=? bc_read_cap c) then (None, [], {| c with bc_read := [] |}) else
  if full && negb realloc_ok then (None, [], c) else
  let c := if full then {| c with bc_read_cap := conn_read_cap c |} else c in
  match sys_read (bc_read_cap c - zlen (bc_read c) - 1) r with
  | RBytes b => conn_take wire_id b c
  | REof => (None, [], {| c with bc_running := false |})
  | _ => (None, [], c)
  end.

(** ** Waiting *)

Abbreviation timespec := (Z * Z)%type (only parsing).
Inductive poll_res := PollEintr | PollError | PollTimeout | PollReady (pin phup : bool).
(** A round of the loop: the time, what [poll] returns, what a [read] gives. *)
Record wait_step := mk_step { ws_now : timespec; ws_poll : poll_res; ws_realloc : bool; ws_read : rres }.

Definition wait_deadline (now : timespec) (timeout_ms : Z) : timespec :=
  let sec := fst now + Z.quot timeout_ms 1000 in
  let nsec := snd now + Z.rem timeout_ms 1000 * 1000000 in
  if 1000000000 <=? nsec then (sec + 1, nsec - 1000000000) else (sec, nsec).
Definition remain_ms (deadline now : timespec) : Z :=
  (fst deadline - fst now) * 1000 + Z.quot (snd deadline - snd now) 1000000.

(** Rounds until the message comes, the deadline passes or the connection is
    lost; when the script ends nothing comes any more and [poll] times out. *)
Fixpoint conn_wait_loop (deadline : timespec) (wire_id : option string) (steps : list wait_step)
    (c : sm_broker_conn) : option json * list delivery * sm_broker_conn :=
  match steps with
  | [] => (None, [], c)
  | s :: steps' =>
      if negb (bc_running c) then (None, [], c) else
      if remain_ms deadline (ws_now s) <=? 0 then (None, [], c) else
      match ws_poll s with
      | PollEintr => conn_wait_loop deadline wire_id steps' c
      | PollError | PollTimeout => (None, [], c)
      | PollReady pin phup =>
          let '(r, ds, c) := if pin then sm_broker_conn_read wire_id (ws_realloc s) (ws_read s) c
                             else (None, [], c) in
          match r with
          | Some _ => (r, ds, c)
          | None =>
              if phup then (None, ds, {| c with bc_running := false |}) else
              let '(r, ds', c) := conn_wait_loop deadline wire_id steps' c in (r, ds ++ ds', c)
          end
      end
  end.
Definition sm_broker_conn_wait (wire_id : option string) (timeout_ms : Z) (now : timespec)
    (steps : list wait_step) (c : sm_broker_conn) : option json * list delivery * sm_broker_conn :=
  conn_wait_loop (wait_deadline now timeout_ms) wire_id steps c.

(** Bytes sent, answer, calls, state. *)
Definition sm_broker_conn_request (msg : json) (wire_id : string) (timeout_ms : Z) (env : list wres)
    (now : timespec) (steps : list wait_step) (c : sm_broker_conn) :
    bytes * (option json * list delivery * sm_broker_conn) :=
  let '(rc, sent) := sm_broker_conn_send msg env in
  (sent, if rc <? 0 then (None, [], c)
         else sm_broker_conn_wait (Some wire_id) timeout_ms now steps c).

(** One round; whatever message surfaces is dropped. *)
Definition sm_broker_conn_pump (s : wait_step) (c : sm_broker_conn) :
    Z * list delivery * sm_broker_conn :=
  match ws_poll s with
  | PollEintr | PollTimeout => (0, [], c)
  | PollError => (-1, [], c)
  | PollReady true _ =>
      let '(_, ds, c) := sm_broker_conn_read None (ws_realloc s) (ws_read s) c in
      (if bc_running c then 1 else -1, ds, c)
  | PollReady false phup => if phup then (-1, [], {| c with bc_running := false |}) else (0, [], c)
  end.

(** ** The stream *)

Lemma line_msgs_nil line : line_msgs line = [] -> m_root (sm_msg_decode line) = None.
Proof.
  unfold line_msgs, sm_msg_decode. destruct (zlen line =? 0); [done|].
  by destruct (m_root _).
Qed.
Lemma msgs_of_none buf : split_line buf = None -> msgs_of buf = [].
Proof. intros H. unfold msgs_of. destruct buf; [done|]. cbn [length lines_of]. by rewrite H. Qed.
Lemma line_msgs_cases line :
  line_msgs line = match m_root (sm_msg_decode line) with Some _ => [sm_msg_decode line] | None => [] end.
Proof.
  unfold line_msgs. destruct (zlen line =? 0) eqn:E; [|done]. unfold sm_msg_decode. by rewrite E.
Qed.

(** The callbacks of a run of messages. *)
Definition deliveries (c : sm_broker_conn) (ms : list sm_msg) : list delivery := mjoin (map (deliver c) ms).
Lemma deliveries_line c line : deliveries c (line_msgs line) = deliver c (sm_msg_decode line).
Proof.
  rewrite line_msgs_cases. unfold deliver. destruct (m_root (sm_msg_decode line)) eqn:E; [|done].
  unfold deliveries. cbn. unfold deliver. by rewrite E, app_nil_r.
Qed.
Lemma deliveries_app c ms ms' : deliveries c (ms ++ ms') = deliveries c ms ++ deliveries c ms'.
Proof. unfold deliveries. by rewrite map_app, join_app. Qed.
Lemma deliver_kept c cap buf run : deliver {| c with bc_read := buf; bc_read_cap := cap; bc_running := run |} = deliver c.
Proof. done. Qed.

(** Messages are taken off the front of the stream; the scan ends at the one
    waited for, or behind the last complete line. *)
Lemma conn_lines_spec fuel w c buf d :
  (length buf <= fuel)%nat ->
  let '(r, ds, more) := conn_lines fuel w c buf in
  exists ms, msgs_of (buf ++ d) = ms ++ msgs_of (more ++ d) /\ ds = deliveries c ms /\
    (length more <= length buf)%nat /\
    match r with
    | Some root => exists pre m, ms = pre ++ [m] /\ m_root m = Some root /\ answers w m = true /\
                                 Forall (fun m => answers w m = false) pre
    | None => split_line more = None /\ Forall (fun m => answers w m = false) ms
    end.
Proof.
  revert buf. induction fuel as [|fuel IH]; intros buf Hf.
  { destruct buf; [|simpl in Hf; lia]. cbn. exists []. by split_and!. }
  cbn [conn_lines]. destruct (split_line buf) as [[line rest]|] eqn:Es; [|exists []; by split_and!].
  destruct (split_line_spec _ _ _ Es) as [Hb _].
  assert (length buf = length line + S (length rest))%nat as Hl by (rewrite Hb, length_app; done).
  rewrite (msgs_of_split _ _ _ d Es). cbv zeta. destruct (answers w (sm_msg_decode line)) eqn:Ea.
  - exists (line_msgs line). rewrite deliveries_line.
    destruct (m_root (sm_msg_decode line)) as [root|] eqn:Er; [|unfold answers in Ea; by rewrite Er in Ea].
    split_and!; [done..|lia|]. exists [], (sm_msg_decode line). rewrite line_msgs_cases, Er. by split_and!.
  - specialize (IH rest ltac:(lia)). destruct (conn_lines fuel w c rest) as [[r ds] more].
    destruct IH as (ms & Hm & -> & Hlen & Hr). exists (line_msgs line ++ ms).
    rewrite deliveries_app, deliveries_line, <- app_assoc, Hm. split_and!; [done..|lia|].
    assert (Forall (fun m => answers w m = false) (line_msgs line)) as Hline.
    { rewrite line_msgs_cases. destruct (m_root (sm_msg_decode line)); by repeat constructor. }
    destruct r as [root|].
    + destruct Hr as (pre & m & -> & H1 & H2 & H3). exists (line_msgs line ++ pre), m.
      rewrite app_assoc. split_and!; try done. by apply Forall_app.
    + destruct Hr as [H1 H2]. split; [done|]. by apply Forall_app.
Qed.

(** ** Runs of reads *)

(** What the read takes from the socket; [None]: the line in the buffer is too
    long and is dropped. *)
Definition read_taken (realloc_ok : bool) (r : rres) (c : sm_broker_conn) : option bytes :=
  let full := bc_read_cap c - 1 <=? zlen (bc_read c) in
  if full && (conn_read_cap c <=? bc_read_cap c) then None else
  if full && negb realloc_ok then Some [] else
  let cap := if full then conn_read_cap c else bc_read_cap c in
  match sys_read (cap - zlen (bc_read c) - 1) r with RBytes b => Some b | _ => Some [] end.

Fixpoint conn_run (rs : list (option string * bool * rres)) (c : sm_broker_conn) :
    list (option json) * list delivery * option bytes * sm_broker_conn :=
  match rs with
  | [] => ([], [], Some [], c)
  | (w, ok, r) :: rs' =>
      let taken := read_taken ok r c in
      let '(x, ds, c) := sm_broker_conn_read w ok r c in
      let '(xs, ds', b, c) := conn_run rs' c in
      (x :: xs, ds ++ ds', match taken, b with Some a, Some b => Some (a ++ b) | _, _ => None end, c)
  end.

Lemma conn_read_spec w ok r c d b :
  read_taken ok r c = Some b ->
  let '(x, ds, c') := sm_broker_conn_read w ok r c in
  exists ms, msgs_of (bc_read c ++ b ++ d) = ms ++ msgs_of (bc_read c' ++ d) /\ ds = deliveries c ms /\
    deliver c' = deliver c /\
    (x = None -> Forall (fun m => answers w m = false) ms) /\
    (forall root, x = Some root -> exists pre m, ms = pre ++ [m] /\ m_root m = Some root /\ answers w m = true).
Proof.
  unfold read_taken, sm_broker_conn_read. cbv zeta. intros Hb.
  destruct (_ && (conn_read_cap c <=? bc_read_cap c)); [done|].
  destruct (_ && negb ok); [injection Hb as <-; exists []; by split_and!|].
  set (full := bc_read_cap c - 1 <=? zlen (bc_read c)) in *.
  replace (bc_read_cap (if full then {| c with bc_read_cap := conn_read_cap c |} else c))
    with (if full then conn_read_cap c else bc_read_cap c) by (by destruct full).
  replace (zlen (bc_read (if full then {| c with bc_read_cap := conn_read_cap c |} else c)))
    with (zlen (bc_read c)) by (by destruct full).
  destruct (sys_read _ r) as [b'| | |]; injection Hb as <-;
    try (exists []; destruct full; split_and!; by try intros).
  unfold conn_take.
  replace (bc_read (if full then {| c with bc_read_cap := conn_read_cap c |} else c)) with (bc_read c) by (by destruct full).
  set (c0 := if full then {| c with bc_read_cap := conn_read_cap c |} else c).
  assert (deliver c0 = deliver c) as Hd by (unfold c0; by destruct full).
  pose proof (conn_lines_spec (length (bc_read c ++ b')) w c0 (bc_read c ++ b') d ltac:(done)) as Hs.
  destruct (conn_lines _ w c0 _) as [[x ds] more]. destruct Hs as (ms & H1 & -> & _ & H2).
  exists ms. rewrite app_assoc. split_and!.
  - exact H1.
  - unfold deliveries. by rewrite Hd.
  - exact Hd.
  - intros ->. apply H2.
  - intros root ->. destruct H2 as (pre & m & ? & ? & ? & _). eauto.
Qed.

(** The connection loses nothing and reorders nothing.  Whatever reads the
    socket gives and whatever each of them looks for, as long as no line
    outgrows the buffer: the messages of everything received are those
    processed followed by those still in the buffer, and exactly the processed
    ones were handed to the callbacks, in order. *)
Theorem conn_stream rs c b xs ds c' :
  conn_run rs c = (xs, ds, Some b, c') ->
  exists ms, msgs_of (bc_read c ++ b) = ms ++ msgs_of (bc_read c') /\ ds = deliveries c ms.
Proof.
  enough (forall d b, let '(_, ds, b', c') := conn_run rs c in b' = Some b ->
    exists ms, msgs_of (bc_read c ++ b ++ d) = ms ++ msgs_of (bc_read c' ++ d) /\ ds = deliveries c ms) as H.
  { intros Hr. specialize (H [] b). rewrite Hr in H. destruct (H eq_refl) as (ms & Hm & ?).
    exists ms. by rewrite !app_nil_r in Hm. }
  intros d. revert c. induction rs as [|[[w ok] r] rs IH]; intros c b0; cbn [conn_run].
  { intros [= <-]. exists []. by split. }
  pose proof (fun b1 => conn_read_spec w ok r c (b1 ++ d)) as Hs. cbv zeta.
  destruct (read_taken ok r c) as [a|]; [|destruct (sm_broker_conn_read w ok r c) as [[? ?] c1]; by destruct (conn_run rs c1) as [[[? ?] ?] ?]].
  specialize (fun b1 => Hs b1 a eq_refl). destruct (sm_broker_conn_read w ok r c) as [[x dl] c1].
  specialize (IH c1). destruct (conn_run rs c1) as [[[xs1 ds1] [b1|]] c2]; [|done].
  intros [= <-]. destruct (IH b1 eq_refl) as (ms2 & H1 & ->). destruct (Hs b1) as (ms1 & H2 & -> & Hd & _).
  exists (ms1 ++ ms2). rewrite <- !app_assoc, H2, H1, deliveries_app. split; [done|].
  unfold deliveries. by rewrite Hd.
Qed.
End conn.

(** ** What is already there is not looked at *)

Section buffered.
Context {J : JsonText}.

(** A wait only looks at the buffer after a read.  While nothing arrives,
    a wait ends without an answer and leaves the buffer alone, even when the
    answer is in it: the scan for an earlier answer stops at that answer and
    leaves the complete lines behind it. *)
Theorem conn_buffered_unseen w timeout_ms now steps c :
  Forall (fun s => match ws_poll s with PollReady _ _ => False | _ => True end) steps ->
  sm_broker_conn_wait w timeout_ms now steps c = (None, [], c).
Proof.
  unfold sm_broker_conn_wait. intros H. induction H as [|s steps Hs _ IH]; [done|]. cbn [conn_wait_loop].
  destruct (negb _); [done|]. destruct (_ <=? 0); [done|]. by destruct (ws_poll s).
Qed.
End buffered.
