(* ===== verification/McpClient.v ===== *)
(** * The stand-alone MCP server ([src/mcp_client.c])

    A program in front of a broker's socket: JSON-RPC on standard input and
    output, wire messages on the connection.  Its operations are programs of a
    state monad [K] over the server's state; the socket, the clocks, the
    allocator and the environment answer through [ClientEnv].  Allocations other
    than the growth of buffers and the text of a message succeed. *)
From stdpp Require Import pretty.
From S2P Require Import Prelude Cstr Codecs Json Protocol Regex Autoresponder Anomaly McpText Effects.
From S2P Require Import Client BrokerState McpResults BrokerOps BrokerHandlers McpTools McpConn.

#[local] Open Scope string_scope.
#[local] Open Scope list_scope.
#[local] Open Scope Z_scope.
#[local] Open Scope json_scope.

(** ** State *)

(** [cx_sent] is everything written to brokers, [cx_stdout] the messages that
    went out whole, [cx_cut] that one was cut short; [cx_undefined] that freed memory was read, an integer overflowed
    or a conversion left its type. *)
Record client_ctx := mk_ctx {
  cx_conn : sm_broker_conn; cx_output : bytes; cx_stdin : bytes; cx_stdin_cap : Z;
  cx_offline : bool; cx_offline_reason : string; cx_socket_path : string;
  cx_last_link_event : string; cx_initialized : bool;
  cx_sent : bytes; cx_stdout : list json; cx_cut : bool; cx_undefined : bool; cx_tick : nat }.

(** The configuration, and the answers of the system in the order asked:
    [ce_text] whether there is memory for the text of a message, [ce_stdout]
    what each [write] of a message's line returns, given what is left. *)
Class ClientEnv := {
  ce_profile : sm_device_profile; ce_patterns : list (string * string * string);
  ce_name : string; ce_use_tcp : bool; ce_socket_explicit : bool;
  ce_mutate : option string; ce_socket_env : option string; ce_token : nat -> option string;
  ce_writes : nat -> list wres; ce_clock : nat -> Z * Z; ce_steps : nat -> list wait_step;
  ce_realtime : nat -> double; ce_realloc : nat -> bool; ce_text : nat -> bool; ce_stdout : nat -> nat -> Z -> Z; ce_connect : nat -> Z;
  (* several brokers answer and none is pinned; the socket found; the ports *)
  ce_refuse : nat -> bool; ce_discover : nat -> option string;
  ce_ports : nat -> list sm_serial_port_info }.

Abbreviation K := (ST client_ctx).
Definition kask {A} (f : nat -> A) : K A := fun s => ({| s with cx_tick := S (cx_tick s) |}, f (cx_tick s)).
Definition on_conn (f : sm_broker_conn -> sm_broker_conn) : K unit :=
  smod (fun s => {| s with cx_conn := f (cx_conn s) |}).
Definition client_undefined : K unit := smod (fun s => {| s with cx_undefined := true |}).

(** ** Output *)

(** The buffer has its full size from the start. *)
Definition buffer_output (data : bytes) (s : client_ctx) : client_ctx :=
  let valid := strip_nul data in
  if zlen valid =? 0 then s else
  let cap := SM_MCP_OUTPUT_BUFFER_MAX in
  let out := if cap <? zlen (cx_output s) + zlen valid
             then zdrop (evict_amount (zlen (cx_output s)) (zlen valid) cap) (cx_output s)
             else cx_output s in
  let s := {| s with cx_output := out ++ valid |} in
  if cap <? zlen (cx_output s) then {| s with cx_undefined := true |} else s.

Definition drain_output : K string :=
  out ← sget cx_output;
  if zlen out =? 0 then mret "(no output)"
  else smod (fun s => {| s with cx_output := [] |}) ;; mret (string_of_bytes out).

Definition mcp_on_broker_event (type : string) (s : client_ctx) : client_ctx :=
  {| s with cx_last_link_event := snprintf_s 32 type |}.
Definition on_delivery (d : delivery) (s : client_ctx) : client_ctx :=
  match d with DeliverOutput data => buffer_output data s | DeliverEvent t _ => mcp_on_broker_event t s end.
Definition on_deliveries (ds : list delivery) (s : client_ctx) : client_ctx :=
  fold_left (fun s d => on_delivery d s) ds s.

Section client.
Context {J : JsonText} {N : ClientEnv}.

(** ** The connection *)

Definition gen_wire_id : K string := fun s =>
  let '(id, c) := sm_broker_conn_gen_wire_id 64 (cx_conn s) in ({| s with cx_conn := c |}, id).

Definition broker_send (msg : json) : K Z :=
  env ← kask ce_writes;
  let '(rc, sent) := sm_broker_conn_send msg env in
  smod (fun s => {| s with cx_sent := cx_sent s ++ sent |}) ;; mret rc.

(** A connection operation and the callbacks it makes. *)
Definition conn_op (f : sm_broker_conn -> option json * list delivery * sm_broker_conn) :
    K (option json) := fun s =>
  let '(r, ds, c) := f (cx_conn s) in (on_deliveries ds {| s with cx_conn := c |}, r).

Definition wait_for_response (wire_id : option string) (timeout_ms : Z) : K (option json) :=
  now ← kask ce_clock;
  steps ← kask ce_steps;
  conn_op (sm_broker_conn_wait wire_id timeout_ms now steps).

Definition broker_request (msg : json) (wire_id : string) (timeout_ms : Z) : K (option json) :=
  rc ← broker_send msg;
  if rc <? 0 then mret None else wait_for_response (Some wire_id) timeout_ms.

Definition read_broker (wire_id : option string) (ok : bool) (r : rres) : K (option json) :=
  conn_op (sm_broker_conn_read wire_id ok r).

(** ** Answers of the broker *)

Definition is_broker_error (resp : json) : bool :=
  match sm_json_get_string resp "type" with Some t => streq t "error" | None => false end.
Definition broker_error_as (fallback : string) (resp : json) : string :=
  snprintf_s 512 ("[ERROR] " +:+ default fallback (sm_json_get_string resp "message")).
Definition broker_error_text (resp : json) : string := broker_error_as "unknown error" resp.

Definition abort_name (resp : json) : string := or_else "unknown" (nonempty (sm_json_get_string resp "abort_pattern")).

(** The text of an expect result; whether memory that was freed is read. *)
Definition expect_answer (empty : string) (timeout_mode : bool) (resp : json) : string * bool :=
  let matched := sm_json_get_bool resp "matched" false in
  let aborted := sm_json_get_bool resp "aborted" false in
  let abort_text := "[ABORTED anomaly:" +:+ abort_name resp +:+ "] " in
  match nonempty (sm_json_get_string resp "data") with
  | None => (if aborted then snprintf_s 256 (abort_text +:+ "(no output)") else empty, false)
  | Some b64 =>
      match sm_base64_decode (bytes_of_string b64) with
      | None => ("(no output)", false)
      | Some data =>
          if aborted then
            (c_text (bytes_of_string abort_text ++ data),
             match sm_json_get_string resp "abort_pattern" with Some _ => true | None => false end)
          else if negb matched && negb timeout_mode then
            (c_text (bytes_of_string "[TIMEOUT] " ++ data), false)
          else (c_text data, false)
      end
  end.

(** [timeout_ms + 5000] in an [int]. *)
Definition wait_sum (a b : Z) : K Z :=
  if INT_MAX <? a + b then client_undefined ;; mret (a + b) else mret (a + b).

Definition say_expect (p : string * bool) : K (option string * option json) :=
  swhen (snd p) client_undefined ;; mret (Some (fst p), None).
Definition tell (text : string) : K (option string * option json) := mret (Some text, None).

(** ** Tools *)

Definition tool_serial_send_command (args : json) : K answer :=
  match sm_json_get_string args "command" with
  | None => tell "[ERROR] missing 'command' argument"
  | Some command =>
  let cmd := bytes_of_string (pr_command_prefix ce_profile +:+ command) in
  if 4096 <=? zlen cmd then tell "[ERROR] command too long" else
  let timeout_ms := sm_json_get_int args "timeout_ms" 0 in
  let timeout_ms := if timeout_ms <=? 0 then pr_default_timeout_ms ce_profile else timeout_ms in
  let '(pattern, timeout_mode) :=
    match nonempty (sm_json_get_string args "expect_pattern") with
    | Some p => (p, false)
    | None => if streq (pr_response_mode ce_profile) "timeout" then (NEVER, true)
              else (pr_prompt_pattern ce_profile, false)
    end in
  match resolve_eol (sm_json_get_string args "eol") with
  | None => tell "[ERROR] eol must be lf, cr, or crlf"
  | Some ending =>
  let cmd := strip_newlines cmd in
  if 4096 <=? zlen cmd + zlen ending then tell "[ERROR] command too long" else
  wire_id ← gen_wire_id;
  wait_ms ← wait_sum timeout_ms 5000;
  resp ← broker_request (sm_msg_send_expect (Some wire_id) (cmd ++ ending) pattern timeout_ms) wire_id wait_ms;
  match resp with
  | None => tell "[ERROR] timeout waiting for broker response"
  | Some resp => if is_broker_error resp then tell (broker_error_text resp)
                 else say_expect (expect_answer "(no output)" timeout_mode resp)
  end
  end end.

Definition incident_name (inc : json) : string :=
  match sm_json_get_string inc "pattern_name" with
  | Some n => n | None => or_else "?" (sm_json_get_string inc "name") end.
Definition recent_line (inc : json) : string :=
  "- " +:+ incident_name inc +:+ " [" +:+ or_else "?" (sm_json_get_string inc "severity") +:+ "]: " +:+
  or_else "" (sm_json_get_string inc "match_text") +:+ nl.

Definition tool_serial_read : K answer :=
  text ← drain_output;
  wire_id ← gen_wire_id;
  resp ← broker_request (sm_msg_incidents_request (Some wire_id) 0) wire_id 2000;
  match resp ≫= fun r => get_item r "incidents" with
  | Some (JArr incs) =>
      if (length incs =? 0)%nat then tell text
      else tell (text +:+ nl +:+ nl +:+ "## Recent incidents" +:+ nl +:+
                 foldr String.append "" (map recent_line (drop (length incs - 5) incs)))
  | _ => tell text
  end.

Definition tool_serial_write (args : json) : K answer :=
  match sm_json_get_string args "data" with
  | None => tell "[ERROR] missing 'data' argument"
  | Some data =>
  wire_id ← gen_wire_id;
  rc ← broker_send (sm_msg_send (Some wire_id) (bytes_of_string data));
  if rc <? 0 then tell "[ERROR] failed to send" else
  resp ← wait_for_response (Some wire_id) 500;
  match resp with
  | Some r => tell (if is_broker_error r then broker_error_text r else "OK")
  | None => tell "OK"
  end
  end.

(** A request of the status, for what is made of it. *)
Definition with_status (f : json -> K answer) : K answer :=
  wire_id ← gen_wire_id;
  resp ← broker_request (sm_msg_status (Some wire_id)) wire_id 5000;
  match resp with
  | None => tell "[ERROR] timeout"
  | Some r => if is_broker_error r then tell (broker_error_text r) else f r
  end.
Definition tool_serial_port_status : K answer :=
  with_status (fun r =>
    event ← sget cx_last_link_event;
    mret (Some (sm_mcp_port_status_text r (Some event)), Some (sm_mcp_port_status_structured r (Some event)))).
Definition tool_serial_boot_status : K answer :=
  with_status (fun r => mret (Some (sm_mcp_boot_status_text r), Some (sm_mcp_boot_status_structured r))).

(** A request that is acknowledged. *)
Definition acknowledged (msg : string -> json) (wait_ms : Z) (fallback : string) (done : string) : K answer :=
  wire_id ← gen_wire_id;
  resp ← broker_request (msg wire_id) wire_id wait_ms;
  match resp with
  | None => tell "[ERROR] timeout"
  | Some r => if is_broker_error r then tell (broker_error_as fallback r) else tell done
  end.

Definition tool_serial_add_autoresponder (args : json) : K answer :=
  match sm_json_get_string args "name", sm_json_get_string args "pattern",
        sm_json_get_string args "send" with
  | Some name, Some pattern, Some send =>
      let once := sm_json_get_bool args "once" false in
      let cooldown_ms := sm_json_get_int args "cooldown_ms" SM_AR_DEFAULT_COOLDOWN_MS in
      let resp := sm_str_unescape (bytes_of_string send) (Z.to_nat SM_AR_RESPONSE_MAX) in
      acknowledged (fun w => sm_msg_configure_autoresponder (Some w) (Some name) (Some pattern) resp once
                               cooldown_ms false) 5000 "rejected"
        (snprintf_s 384 ("Autoresponder '" +:+ name +:+ "' added (pattern=/" +:+ pattern +:+
           "/, " +:+ pretty (zlen resp) +:+ " bytes" +:+ (if once then ", once" else "") +:+ ")"))
  | _, _, _ => tell "[ERROR] missing name, pattern, or send"
  end.

Definition tool_serial_pin_control (args : json) : K answer :=
  match sm_json_get_string args "pin", sm_json_get_string args "action" with
  | Some pin, Some action =>
      let duration_ms := sm_json_get_int args "duration_ms" 250 in
      let action := if streq action "send" && negb (streq pin "break") then "pulse" else action in
      acknowledged (fun w => sm_msg_pin_control (Some w) pin action duration_ms) 5000 "pin control failed" "OK"
  | _, _ => tell "[ERROR] missing pin or action"
  end.

(** The first 120 bytes of a pattern. *)
Definition pattern_head (pat : string) : string := string_of_bytes (take 120 (bytes_of_string pat)).

Definition tool_serial_reset (args : json) : K answer :=
  let pin := default "rts" (nonempty (sm_json_get_string args "pin")) in
  if negb (streq pin "rts") && negb (streq pin "dtr") then tell "[ERROR] pin must be rts or dtr" else
  let hold_ms := clamp_reset_hold (sm_json_get_int args "hold_ms" SM_DEFAULT_RESET_HOLD_MS) in
  let wait_pat := nonempty (sm_json_get_string args "wait_pattern") in
  let wait_ms := clamp_timeout (sm_json_get_int args "timeout_ms" 10000) in
  let reset (k : K answer) : K answer :=
    wire_id ← gen_wire_id;
    resp ← broker_request (sm_msg_pin_control (Some wire_id) pin "reset" hold_ms) wire_id (hold_ms + 5000);
    match resp with
    | None => tell "[ERROR] timeout"
    | Some r => if is_broker_error r then tell (broker_error_as "reset failed" r) else k
    end in
  match wait_pat with
  | None => reset (tell (snprintf_s 256 ("OK (reset via " +:+ pin +:+ ", held " +:+ pretty hold_ms +:+ " ms)")))
  | Some pat =>
      wait_id ← gen_wire_id;
      rc ← broker_send (sm_msg_listen_expect (Some wait_id) (Some pat) wait_ms);
      if negb (rc =? 0) then tell "[ERROR] broker send failed" else
      reset (
        res ← wait_for_response (Some wait_id) (wait_ms + 5000);
        let matched := match res with Some r => sm_json_get_bool r "matched" false | None => false end in
        tell (snprintf_s 256
          (if matched then "OK (reset via " +:+ pin +:+ "; boot line /" +:+ pattern_head pat +:+ "/ seen)"
           else "[TIMEOUT] reset via " +:+ pin +:+ " done, but /" +:+ pattern_head pat +:+
                "/ not seen within " +:+ pretty wait_ms +:+ " ms")))
  end.

Definition tool_serial_sysrq (args : json) : K answer :=
  match nonempty (sm_json_get_string args "key") with
  | None => tell "[ERROR] missing 'key' argument"
  | Some key =>
      let break_ms := Z.min (sm_json_get_int args "break_duration_ms" 500) SM_MAX_BREAK_DURATION_MS in
      let ch := default 0 (head (bytes_of_string key)) in
      wire_id ← gen_wire_id;
      resp ← broker_request (sm_msg_pin_control (Some wire_id) "break" "send" break_ms) wire_id (break_ms + 5000);
      match resp with
      | None => tell "[ERROR] timeout sending BREAK"
      | Some r =>
          if is_broker_error r then
            tell (snprintf_s 512 ("[ERROR sending BREAK] " +:+ default "unknown error" (sm_json_get_string r "message")))
          else
            wire_id ← gen_wire_id;
            broker_send (sm_msg_send (Some wire_id) [ch]) ;;
            tell (snprintf_s 32 ("OK (SysRq+" +:+ string_of_bytes [ch] +:+ ")"))
      end
  end.

(** A message whose success is silent: an error may come within half a second;
    whether the message went out is not looked at. *)
Definition unless_error (msg : string -> json) (fallback done : string) : K answer :=
  wire_id ← gen_wire_id;
  broker_send (msg wire_id) ;;
  resp ← wait_for_response (Some wire_id) 500;
  match resp with
  | Some r => tell (if is_broker_error r then broker_error_as fallback r else done)
  | None => tell done
  end.
Definition tool_serial_suspend : K answer :=
  unless_error (fun w => sm_msg_suspend (Some w)) "suspend failed"
    "OK - serial port released. Use serial_resume() when done.".
Definition tool_serial_resume : K answer :=
  unless_error (fun w => sm_msg_resume (Some w)) "resume failed" "OK - serial port re-acquired.".

Definition tool_serial_wait_for (args : json) : K answer :=
  match nonempty (sm_json_get_string args "pattern") with
  | None => tell "[ERROR] missing 'pattern' argument"
  | Some pattern =>
      let timeout_ms := clamp_timeout (sm_json_get_int args "timeout_ms" 30000) in
      wire_id ← gen_wire_id;
      resp ← broker_request (sm_msg_listen_expect (Some wire_id) (Some pattern) timeout_ms) wire_id (timeout_ms + 5000);
      match resp with
      | None => tell "[ERROR] timeout waiting for broker response"
      | Some r =>
          if is_broker_error r then tell (broker_error_text r) else
          let empty := if sm_json_get_bool r "matched" false then "(matched, no capture)"
                       else "[TIMEOUT] (no output)" in
          say_expect (expect_answer empty false r)
      end
  end.

(** ** History *)

Definition chunk_data (chunk : json) : option bytes :=
  match sm_json_get_string chunk "data" with
  | Some b64 => sm_base64_decode (bytes_of_string b64)
  | None => None
  end.

Definition page_chunk (chunk : json) : option json :=
  match chunk_data chunk with
  | None => None
  | Some data =>
      let ch := JObj [] |> add_string "text" (string_of_bytes (strip_nul data))
        |> add_number "timestamp" (sm_json_get_double chunk "timestamp" 0) in
      Some match get_item chunk "seq_start" with
           | Some (JNum d) => ch |> add_number "seq_start" d | _ => ch end
  end.
Definition history_page_from_resp (resp : json) : json :=
  JObj [] |> add_number "cursor" (sm_json_get_double resp "cursor" 0)
    |> add_number "dropped" (sm_json_get_double resp "dropped" 0)
    |> add_bool "has_more" (sm_json_get_bool resp "has_more" false)
    |> add_item "chunks" (JArr match get_item resp "chunks" with
                              | Some (JArr cs) => omap page_chunk cs | _ => [] end).

Definition time_stamp (ts : double) : string :=
  let sec := Z.quot ts one_s in
  let ms := Z.quot (ts - sec * one_s) 1000000 in
  "[" +:+ fmt_pad 2 (sec mod 86400 / 3600) +:+ ":" +:+ fmt_pad 2 (sec mod 3600 / 60) +:+ ":" +:+
  fmt_pad 2 (sec mod 60) +:+ "." +:+ fmt_pad 3 ms +:+ "] ".

Fixpoint history_lines (chunks : list json) (cap : Z) (buf : bytes) : K bytes :=
  match chunks with
  | [] => mret buf
  | chunk :: chunks' =>
      let v := strip_nul (default [] (chunk_data chunk)) in
      if zlen v =? 0 then history_lines chunks' cap buf else
      let put (cap : Z) : K bytes :=
        let buf := buf ++ bytes_of_string (time_stamp (sm_json_get_double chunk "timestamp" 0)) in
        history_lines chunks' cap (buf ++ ztake (cap - 1 - zlen buf) v) in
      if cap <? zlen buf + zlen v + 32 then
        ok ← kask ce_realloc;
        if ok : bool then put (zlen buf + zlen v + 32768) else mret buf
      else put cap
  end.

Definition tool_serial_output_history (args : json) : K answer :=
  let none := (Some "(no output in history)", Some (sm_mcp_history_text_structured "")) in
  match get_item args "since_seq" with
  | Some (JNum d) =>
      match to_u64 d with
      | None => client_undefined ;; tell ""
      | Some since_seq =>
          wire_id ← gen_wire_id;
          resp ← broker_request (sm_msg_history_request_seq (Some wire_id) since_seq
                                   (sm_json_get_int args "max_bytes" 0)) wire_id 10000;
          match resp with
          | None => tell "[ERROR] timeout"
          | Some r =>
              if is_broker_error r then tell (broker_error_text r) else
              let page := history_page_from_resp r in
              mret (Some (sm_mcp_history_page_text page), Some (sm_mcp_history_page_structured page))
          end
      end
  | _ =>
      let seconds := sm_json_get_double args "seconds" 0 in
      let last_bytes := sm_json_get_int args "last_bytes" 0 in
      since_ts ← (if 0 <? seconds then now ← kask ce_realtime; mret (now - seconds) else mret 0);
      wire_id ← gen_wire_id;
      resp ← broker_request (sm_msg_history_request (Some wire_id) since_ts last_bytes) wire_id 10000;
      match resp with
      | None => tell "[ERROR] timeout"
      | Some r =>
          if is_broker_error r then tell (broker_error_text r) else
          match get_item r "chunks" with
          | Some (JArr (c :: cs)) =>
              buf ← history_lines (c :: cs) 65536 [];
              if zlen buf =? 0 then mret none
              else mret (Some (string_of_bytes buf), Some (sm_mcp_history_text_structured (string_of_bytes buf)))
          | _ => mret none
          end
      end
  end.

Definition tool_serial_get_incidents (args : json) : K answer :=
  let seconds := sm_json_get_double args "seconds" 0 in
  since_ts ← (if 0 <? seconds then now ← kask ce_realtime; mret (now - seconds) else mret 0);
  wire_id ← gen_wire_id;
  resp ← broker_request (sm_msg_incidents_request (Some wire_id) since_ts) wire_id 10000;
  match resp with
  | None => tell "[ERROR] timeout"
  | Some r =>
      if is_broker_error r then tell (broker_error_text r) else
      let incs := get_item r "incidents" in
      mret (Some (sm_mcp_incidents_text incs), Some (sm_mcp_incidents_structured incs))
  end.

Definition tool_serial_add_watchdog (args : json) : K answer :=
  match sm_json_get_string args "name", sm_json_get_string args "pattern" with
  | Some name, Some pattern =>
      let severity := default "warning" (sm_json_get_string args "severity") in
      let patterns := JArr [JObj [] |> add_string "name" name |> add_string "pattern" pattern
                                    |> add_string "severity" severity] in
      acknowledged (fun w => sm_msg_configure_anomaly (Some w) (Some patterns)) 5000 "failed to add pattern"
        (snprintf_s 256 ("Watchdog '" +:+ name +:+ "' added (severity=" +:+ severity +:+
           ", pattern=" +:+ pattern +:+ ")"))
  | _, _ => tell "[ERROR] missing name or pattern"
  end.

(** ** Reports *)

Definition bold_incident (inc : json) : string :=
  "- **" +:+ or_else "?" (sm_json_get_string inc "pattern_name") +:+ "** [" +:+
  or_else "?" (sm_json_get_string inc "severity") +:+ "]: " +:+
  or_else "" (sm_json_get_string inc "match_text") +:+ nl.
Definition bold_incidents (incs : list json) : string := foldr String.append "" (map bold_incident incs).
Definition array_of_item (o : option json) : list json :=
  match o with Some (JArr l) => l | _ => [] end.

Definition monitor_text (output : string) (inc_resp : option json) : string :=
  "## Serial Monitor Report" +:+ nl +:+ nl +:+ "Output:" +:+ nl +:+ "```" +:+ nl +:+ output +:+ nl +:+ "```" +:+ nl +:+
  match inc_resp with
  | None => ""
  | Some r =>
      match array_of_item (get_item r "incidents") with
      | [] => nl +:+ "No anomalies detected during monitoring." +:+ nl
      | incs => nl +:+ "## Anomalies Detected" +:+ nl +:+ bold_incidents incs
      end
  end.

Definition tool_serial_monitor (args : json) : K answer :=
  let duration := sm_json_get_int args "duration_seconds" 30 in
  let duration := if 300 <? duration then 300 else duration in
  let duration := if duration <? 1 then 1 else duration in
  monitor_start ← kask ce_realtime;
  wire_id ← gen_wire_id;
  let timeout_ms := duration * 1000 in
  resp ← broker_request (sm_msg_send_expect (Some wire_id) [] NEVER timeout_ms) wire_id (timeout_ms + 5000);
  let report (output : string) : K answer :=
    wire_id2 ← gen_wire_id;
    inc_resp ← broker_request (sm_msg_incidents_request (Some wire_id2) monitor_start) wire_id2 5000;
    tell (monitor_text output inc_resp) in
  match resp with
  | None => report "(no output)"
  | Some r =>
      if is_broker_error r then tell (broker_error_as "monitor failed" r) else
      match nonempty (sm_json_get_string r "data") with
      | None => report "(no output)"
      | Some b64 =>
          match sm_base64_decode (bytes_of_string b64) with
          | None => report "(no output)"
          | Some data => report (c_text data)
          end
      end
  end.

Definition profile_text : string :=
  let pr := ce_profile in
  "# smolmux Device Report" +:+ nl +:+ nl +:+ "## Device Profile" +:+ nl +:+
  "- Name: " +:+ pr_name pr +:+ nl +:+ "- Type: " +:+ pr_device_type pr +:+ nl +:+
  "- Description: " +:+ pr_description pr +:+ nl +:+ "- Prompt: `" +:+ pr_prompt_pattern pr +:+ "`" +:+
  nl +:+ "- Response mode: " +:+ pr_response_mode pr +:+ nl +:+
  (if streq (pr_command_prefix pr) "" then ""
   else "- Command prefix: `" +:+ pr_command_prefix pr +:+ "`" +:+ nl).
Definition status_text (status : json) : string :=
  nl +:+ "## Port Status" +:+ nl +:+ "- Port: " +:+ or_else "?" (sm_json_get_string status "port") +:+ nl +:+
  "- Baud: " +:+ pretty (sm_json_get_int status "baud" 0) +:+ nl +:+
  "- Connected: " +:+ fmt_bool (sm_json_get_bool status "connected" false) +:+ nl +:+
  match get_item status "clients" with
  | Some (JArr l) => "- Clients: " +:+ pretty (length l) +:+ nl | _ => "" end.
Definition incidents_section (r : json) : string :=
  match array_of_item (get_item r "incidents") with
  | [] => nl +:+ "## Incidents" +:+ nl +:+ "None detected." +:+ nl
  | incs => nl +:+ "## Incidents (" +:+ pretty (length incs) +:+ " total)" +:+ nl +:+ bold_incidents incs
  end.
Definition output_section (r : json) : bytes :=
  match array_of_item (get_item r "chunks") with
  | [] => bytes_of_string ("(no output)" +:+ nl)
  | cs => bytes_of_string ("```" +:+ nl) ++
          mjoin (map (fun c => strip_nul (default [] (chunk_data c))) cs) ++
          bytes_of_string (nl +:+ "```" +:+ nl)
  end.

Definition tool_serial_generate_report : K answer :=
  wid1 ← gen_wire_id;
  status ← broker_request (sm_msg_status (Some wid1)) wid1 5000;
  wid2 ← gen_wire_id;
  inc_resp ← broker_request (sm_msg_incidents_request (Some wid2) 0) wid2 5000;
  wid3 ← gen_wire_id;
  hist_resp ← broker_request (sm_msg_history_request (Some wid3) 0 32768) wid3 10000;
  tell (string_of_bytes
    (bytes_of_string (profile_text +:+ from_option status_text "" status +:+
                      from_option incidents_section "" inc_resp +:+
                      nl +:+ "## Recent Output (last 32KB)" +:+ nl) ++
     from_option output_section [] hist_resp)).

Definition tool_serial_list_ports : K answer :=
  scan ← kask ce_ports;
  let '(structured, text) := sm_mcp_list_ports scan in
  mret (Some text, Some structured).

(** ** Connecting *)

Definition configure_broker_anomalies : K unit :=
  match ce_patterns with
  | [] => mret tt
  | ps =>
      let patterns := JArr (map (fun '(name, pattern, severity) =>
        JObj [] |> add_string "name" name |> add_string "pattern" pattern |> add_string "severity" severity) ps) in
      wire_id ← gen_wire_id;
      broker_request (sm_msg_configure_anomaly (Some wire_id) (Some patterns)) wire_id 5000 ;;
      mret tt
  end.

(** The list of candidates an ambiguous choice is answered with. *)
Definition sm_identity_ambiguous_json (board device reason : string) (scan : list sm_serial_port_info) : json :=
  JObj [] |> add_string "error" "identity_ambiguous" |> add_string "board" board
    |> add_string "device" device |> add_string "reason" reason
    |> add_item "candidates" (JArr (map sm_serial_port_info_to_json scan)).

Definition go_offline : K Z := smod (fun s => {| s with cx_offline := true |}) ;; mret (-1).
Definition set_offline (reason : string) : K unit :=
  smod (fun s => {| s with cx_offline := true; cx_offline_reason := snprintf_s 4096 reason;
                     cx_conn := {| (cx_conn s) with bc_fd := -1; bc_running := true |} |}).

(** The hello and its answer. *)
Definition handshake : K Z :=
  token ← kask ce_token;
  broker_send (sm_msg_hello token (Some ce_name) (Some "controller")) ;;
  reply ← wait_for_response None 5000;
  match reply with
  | None => set_offline "[ERROR] broker did not answer the hello handshake" ;; mret (-1)
  | Some r =>
      let welcome := match sm_json_get_string r "type" with Some t => streq t "welcome" | None => false end in
      if negb welcome then
        set_offline (snprintf_s 192 ("[ERROR] broker rejected this client: " +:+
          default "handshake refused" (nonempty (sm_json_get_string r "message")))) ;; mret (-1)
      else
        configure_broker_anomalies ;;
        smod (fun s => {| s with cx_offline := false; cx_offline_reason := "" |}) ;; mret 0
  end.

Definition connect_fd : K Z :=
  fd ← kask ce_connect;
  on_conn (fun c => {| c with bc_fd := fd |}) ;;
  if fd <? 0 then go_offline else handshake.

Definition try_connect_broker : K Z :=
  smod (fun s => {| s with cx_offline_reason := "";
                     cx_conn := {| (cx_conn s) with bc_fd := -1; bc_running := true |} |}) ;;
  if ce_use_tcp then connect_fd else
  path ← sget cx_socket_path;
  if negb (streq path "") then connect_fd else
  let pinned := ce_socket_explicit || match nonempty ce_socket_env with Some _ => true | None => false end in
  several ← kask ce_refuse;
  if several && negb pinned then
    scan ← kask ce_ports;
    smod (fun s => {| s with cx_offline_reason := snprintf_s 4096 (cJSON_PrintUnformatted
      (sm_identity_ambiguous_json "" "" "multiple brokers; pass -s to pin a socket" scan)) |}) ;;
    go_offline
  else
    found ← kask ce_discover;
    match found with
    | None => go_offline
    | Some p => smod (fun s => {| s with cx_socket_path := p |}) ;; connect_fd
    end.

(** ** The dispatcher *)

Definition run_client_tool (name : string) (args : json) : K answer :=
  if streq name "serial_send_command" then tool_serial_send_command args
  else if streq name "serial_read" then tool_serial_read
  else if streq name "serial_write" then tool_serial_write args
  else if streq name "serial_port_status" then tool_serial_port_status
  else if streq name "serial_boot_status" then tool_serial_boot_status
  else if streq name "serial_add_autoresponder" then tool_serial_add_autoresponder args
  else if streq name "serial_pin_control" then tool_serial_pin_control args
  else if streq name "serial_reset" then tool_serial_reset args
  else if streq name "serial_sysrq" then tool_serial_sysrq args
  else if streq name "serial_suspend" then tool_serial_suspend
  else if streq name "serial_resume" then tool_serial_resume
  else if streq name "serial_wait_for" then tool_serial_wait_for args
  else if streq name "serial_output_history" then tool_serial_output_history args
  else if streq name "serial_get_incidents" then tool_serial_get_incidents args
  else if streq name "serial_add_watchdog" then tool_serial_add_watchdog args
  else if streq name "serial_monitor" then tool_serial_monitor args
  else if streq name "serial_generate_report" then tool_serial_generate_report
  else if streq name "serial_list_ports" then tool_serial_list_ports
  else tell (sm_mcp_error_with_hint (snprintf_s 256 ("[ERROR] unknown tool: " +:+ name))).

(** Whether a broker can be talked to, after an attempt to connect. *)
Definition ensure_connected (name : string) : K bool :=
  if streq name "serial_list_ports" then mret true else
  up ← sget (fun s => (0 <=? bc_fd (cx_conn s)) && bc_running (cx_conn s));
  if up : bool then mret true else
  rc ← try_connect_broker; mret (rc =? 0).

Definition dispatch_tool (name : string) (args : json) : K answer :=
  up ← ensure_connected name;
  if negb (up : bool) then
    reason ← sget cx_offline_reason;
    tell (if streq reason "" then sm_mcp_offline_broker_message else sm_mcp_error_with_hint reason) else
  if sm_mcp_tool_is_mutate name && negb (sm_mcp_mutate_enabled ce_mutate) then
    tell "[ERROR] mutate tools disabled (set SMOLMUX_MCP_MUTATE=1)" else
  a ← run_client_tool name args;
  mret match a with
       | (Some text, st) => (Some (sm_mcp_maybe_explain_result (Some text)), st)
       | (None, st) => (None, st)
       end.

(** ** JSON-RPC *)

(** The loop of writes with [left] bytes to go, and how many are left at its end.
    Every round takes a byte: [left] rounds are enough. *)
Fixpoint write_out (fuel i : nat) (left : Z) (writes : nat -> Z -> Z) : Z :=
  match fuel with
  | O => left
  | S f =>
      if left <=? 0 then left else
      let n := writes i left in
      if n <=? 0 then left else write_out f (S i) (left - Z.min n left) writes
  end.

(** [mcp_write_json]: nothing without memory for the text, and a part of the
    line when standard output does not take all of it. *)
Definition client_write (msg : json) : K unit :=
  text ← kask ce_text;
  if negb text then mret tt else
  writes ← kask ce_stdout;
  let total := zlen (bytes_of_string (cJSON_PrintUnformatted msg)) + 1 in
  let left := write_out (Z.to_nat total) 0 total writes in
  smod (fun s => if left =? 0 then {| s with cx_stdout := cx_stdout s ++ [msg] |}
                 else {| s with cx_cut := cx_cut s || (left <? total) |}).
Definition client_send_result (id : option json) (result : json) : K unit :=
  client_write (rpc_message id "result" result).
Definition client_send_error (id : option json) (code : Z) (message : string) : K unit :=
  client_write (rpc_message id "error" (JObj [] |> add_int "code" code |> add_string "message" message)).

Definition client_initialize (id : option json) : K unit :=
  client_send_result id (JObj [] |> add_string "protocolVersion" SM_MCP_PROTOCOL_VERSION
    |> add_item "capabilities" (JObj [] |> add_item "tools" (JObj []) |> add_item "prompts" (JObj []))
    |> add_item "serverInfo" (JObj [] |> add_string "name" (SM_NAME +:+ "-mcp") |> add_string "version" SM_VERSION)
    |> add_string "instructions" (sm_mcp_serial_instructions ce_mutate)) ;;
  smod (fun s => {| s with cx_initialized := true |}).

Definition client_prompts_get (id : option json) (params : option json) : K unit :=
  match nonempty (params ≫= fun p => sm_json_get_string p "name") with
  | None => client_send_error id (-32602) "missing prompt name"
  | Some name =>
      match sm_mcp_serial_prompt_get name (params ≫= fun p => get_item p "arguments") with
      | None => client_send_error id (-32602) "unknown prompt"
      | Some (text, desc) =>
          client_send_result id (JObj [] |> add_string "description" desc
            |> add_item "messages" (JArr [JObj [] |> add_string "role" "user"
                 |> add_item "content" (JObj [] |> add_string "type" "text" |> add_string "text" text)]))
      end
  end.

Definition client_tools_call (id : option json) (params : json) : K unit :=
  match sm_json_get_string params "name" with
  | None => client_send_error id (-32602) "missing tool name"
  | Some name =>
      a ← dispatch_tool name (default (JObj []) (get_item params "arguments"));
      client_send_result id (sm_mcp_tool_call_result (Some name) (fst a) (snd a))
  end.

Definition dispatch_mcp_message (msg : json) : K unit :=
  let id := get_item msg "id" in
  let if_id (m : K unit) : K unit := match id with Some _ => m | None => mret tt end in
  match sm_json_get_string msg "method" with
  | None => if_id (client_send_error id (-32600) "invalid request: missing method")
  | Some m =>
      if streq m "initialize" then client_initialize id
      else if streq m "notifications/initialized" then mret tt
      else if streq m "tools/list" then
        client_send_result id (JObj [] |> add_item "tools" (sm_mcp_build_tools_list ce_mutate))
      else if streq m "tools/call" then client_tools_call id (default (JObj []) (get_item msg "params"))
      else if streq m "prompts/list" then client_send_result id sm_mcp_serial_prompts_list_result
      else if streq m "prompts/get" then client_prompts_get id (get_item msg "params")
      else if_id (client_send_error id (-32601) "method not found")
  end.

(** ** Standard input and the main loop *)

Fixpoint stdin_lines (fuel : nat) : K unit :=
  match fuel with
  | O => mret tt
  | S f =>
      buf ← sget cx_stdin;
      match split_at_char 10 buf with
      | None => mret tt
      | Some (line, rest) =>
          match cJSON_Parse (c_text line) with
          | Some msg => dispatch_mcp_message msg
          | None => client_send_error None (-32700) "parse error"
          end ;;
          smod (fun s => {| s with cx_stdin := rest |}) ;;
          stdin_lines f
      end
  end.

Definition stop_running : K unit := on_conn (fun c => {| c with bc_running := false |}).

Definition handle_stdin_data (r : rres) : K unit :=
  len ← sget (fun s => zlen (cx_stdin s));
  cap ← sget cx_stdin_cap;
  let full := cap - 1 <=? len in
  if full && (SM_MCP_READ_BUF_MAX <=? cap) then smod (fun s => {| s with cx_stdin := [] |}) else
  ok ← (if full then kask ce_realloc else mret true);
  if negb (ok : bool) then mret tt else
  let cap := if full then Z.min (cap * 2) SM_MCP_READ_BUF_MAX else cap in
  smod (fun s => {| s with cx_stdin_cap := cap |}) ;;
  match sys_read (cap - len - 1) r with
  | RBytes b =>
      smod (fun s => {| s with cx_stdin := cx_stdin s ++ b |}) ;;
      buf ← sget cx_stdin;
      stdin_lines (length buf)
  | REof => stop_running
  | _ => mret tt
  end.

Definition main_turn (p : main_poll) : K unit :=
  connected ← sget (fun s => 0 <=? bc_fd (cx_conn s));
  (if connected && mp_broker_in p
   then read_broker None (mp_broker_realloc p) (mp_broker_read p) ;; mret tt else mret tt) ;;
  (if connected && mp_broker_hup p
   then smod (fun s => {| s with cx_offline := true; cx_conn := {| (cx_conn s) with bc_fd := -1 |} |})
   else mret tt) ;;
  if mp_stdin_in p then handle_stdin_data (mp_stdin_read p)
  else if mp_stdin_hup p then stop_running else mret tt.

Fixpoint main_loop (es : list main_event) : K unit :=
  match es with
  | [] => mret tt
  | e :: es' =>
      running ← sget (fun s => bc_running (cx_conn s));
      if negb (running : bool) then mret tt else
      match e with
      | MainInterrupted => main_loop es'
      | MainFailed => mret tt
      | MainPoll p => main_turn p ;; main_loop es'
      end
  end.

(** What [main] sets up before the first connection. *)
Definition client_start (socket_path : string) : client_ctx :=
  mk_ctx (mk_conn (-1) true [] 8192 0 true true) [] [] 8192 false "" socket_path "" false [] [] false false 0.
(** The first attempt to connect may fail. *)
Definition client_main (es : list main_event) : K unit :=
  rc ← try_connect_broker;
  (if negb (rc =? 0)
   then smod (fun s => {| s with cx_offline := true; cx_conn := {| (cx_conn s) with bc_running := true |} |})
   else mret tt) ;;
  main_loop es.
End client.
