(* ===== verification/McpClientProps.v ===== *)
(** The stand-alone MCP server: answers, history, what it refuses when it is
    read-only, and runs of it. *)

(** * What the stand-alone MCP server does

    Every request that is dispatched is answered at most once, and exactly once
    when its output works, whatever the broker does; a server that may
    not change anything sends nothing that could; both MCP surfaces page
    through the history in the same way; and where the server goes wrong. *)
From stdpp Require Import pretty.
From S2P Require Import Prelude Cstr Codecs RingBuffer Json CJson Protocol Regex Expect BootStage.
From S2P Require Import Autoresponder Anomaly McpText Effects Client BrokerState McpResults BrokerOps BrokerLink BrokerHandlers.
From S2P Require Import BrokerLoop McpTools BrokerDemo BrokerFrame BrokerAuth BrokerStream BrokerMcp McpLedger McpProps McpConn.
From S2P Require Import McpClient.

#[local] Open Scope string_scope.
#[local] Open Scope list_scope.
#[local] Open Scope Z_scope.
#[local] Open Scope json_scope.

(** ** Requests are answered *)

Abbreviation same_stdout := (same cx_stdout).

Create HintDb client discriminated.
#[export] Hint Constants Opaque : client.

Lemma on_delivery_stdout d s : cx_stdout (on_delivery d s) = cx_stdout s.
Proof.
  destruct d; [|done]. cbn [on_delivery]. unfold buffer_output. destruct (_ =? 0); [done|]. cbv zeta.
  by destruct (_ <? _).
Qed.
Lemma on_deliveries_stdout ds s : cx_stdout (on_deliveries ds s) = cx_stdout s.
Proof.
  unfold on_deliveries. revert s. induction ds as [|d ds IH]; intros s; [done|]. cbn [fold_left].
  by rewrite IH, on_delivery_stdout.
Qed.

Section stdout.
Context {J : JsonText} {N : ClientEnv}.
Abbreviation silent := (moves same_stdout).

Lemma silent_mod f : (forall s, cx_stdout (f s) = cx_stdout s) -> silent (smod f).
Proof. intros H s. apply H. Qed.
Lemma silent_ask {A} (f : nat -> A) : silent (kask f).
Proof. done. Qed.
Lemma silent_gen : silent gen_wire_id.
Proof. done. Qed.
Lemma silent_conn_op f : silent (conn_op f).
Proof. intros s. unfold conn_op, srun. destruct (f _) as [[r ds] c]. unfold same. cbn [fst].
  by rewrite on_deliveries_stdout. Qed.
Hint Resolve moves_ret moves_get silent_ask silent_gen silent_conn_op same_preorder : client.

Ltac silent_step :=
  lazymatch goal with
  | |- moves _ (mbind _ _) => apply moves_seq; [exact _| |intros ?]
  | |- moves _ (smod _) => apply silent_mod; reflexivity
  | |- moves _ (if ?c then _ else _) => destruct c
  | |- moves _ (match ?c with _ => _ end) => destruct c
  | |- moves _ (let _ := _ in _) => cbv zeta
  | |- moves _ (history_lines _ _ _) => solve [eauto 2 with client]
  | |- moves _ ?p => first [solve [eauto 2 with client] | let h := head_of p in progress unfold h]
  end.
Ltac silent_tac := repeat (cbv zeta; silent_step).

Lemma silent_history_lines cs cap buf : silent (history_lines cs cap buf).
Proof.
  revert cap buf. induction cs as [|c cs IH]; intros cap buf; cbn [history_lines]; [eauto 2 with client|].
  cbv zeta. destruct (_ =? 0); [apply IH|]. destruct (_ <? _); [|apply IH].
  apply moves_seq; [exact _|eauto 2 with client|]. intros []; [apply IH|eauto 2 with client].
Qed.
Hint Resolve silent_history_lines : client.
Lemma silent_tool name args : silent (run_client_tool name args).
Proof. silent_tac. Qed.
Lemma silent_connect : silent try_connect_broker.
Proof. silent_tac. Qed.
Hint Resolve silent_tool silent_connect : client.
Lemma silent_dispatch name args : silent (dispatch_tool name args).
Proof. silent_tac. Qed.

Lemma rpc_message_id id key v : msg_id (rpc_message (Some id) key v) = id.
Proof. done. Qed.

(** There is memory for every text, and standard output takes every line. *)
Definition output_works : Prop :=
  forall n, ce_text n = true /\
    (forall total, 0 < total -> write_out (Z.to_nat total) 0 total (ce_stdout n) = 0).

(** The program answers [id] at most once, and once when output works. *)
Definition replies {A} (id : json) (p : K A) : Prop := forall s,
  (cx_stdout (srun p s) = cx_stdout s /\ ~ output_works) \/
  exists m, cx_stdout (srun p s) = cx_stdout s ++ [m] /\ msg_id m = id.
Lemma replies_write id key v : replies id (client_write (rpc_message (Some id) key v)).
Proof.
  intros s. unfold client_write. rewrite srun_bind. cbn [sresult srun kask fst snd].
  destruct (ce_text (cx_tick s)) eqn:Et; cbn [negb].
  - rewrite srun_bind. cbn [sresult srun kask fst snd cx_tick smod].
    match goal with |- context [write_out ?f 0 ?t ?r] => destruct (Z.eqb_spec (write_out f 0 t r) 0) as [E1|E1] end.
    + right. by eexists.
    + left. split; [done|]. intros H. apply E1, H. pose proof (zlen_nonneg (bytes_of_string
        (cJSON_PrintUnformatted (rpc_message (Some id) key v)))). lia.
  - left. split; [done|]. intros H. destruct (H (cx_tick s)) as [H1 _]. congruence.
Qed.
Lemma replies_then {A B} id (p : K A) (k : A -> K B) :
  replies id p -> (forall x, silent (k x)) -> replies id (p ≫= k).
Proof.
  intros Hp Hk s. rewrite srun_bind. pose proof (Hk (sresult p s) (srun p s)) as Hs. unfold same in Hs.
  rewrite Hs. apply Hp.
Qed.
Lemma replies_after {A B} id (p : K A) (k : A -> K B) :
  silent p -> (forall x, replies id (k x)) -> replies id (p ≫= k).
Proof.
  intros Hp Hk s. rewrite srun_bind. pose proof (Hp s) as Hs. unfold same in Hs. rewrite <- Hs. apply Hk.
Qed.

End stdout.

(** * The two MCP surfaces show the same history

    A page of the history that the stand-alone server rebuilds from the
    broker's answer is the page the sink inside the broker returns. *)

#[local] Open Scope string_scope.
#[local] Open Scope list_scope.
#[local] Open Scope Z_scope.
#[local] Open Scope json_scope.

(** ** Chunks *)

(** The chunk both surfaces show. *)
Definition shown_chunk (ch : sm_rb_chunk) (off len : Z) : json :=
  JObj [] |> add_string "text" (string_of_bytes (strip_nul (ztake len (zdrop off (c_data ch)))))
    |> add_number "timestamp" (c_timestamp ch) |> add_int "seq_start" (c_seq_start ch + off).

Lemma page_chunk_encoded h ch off len :
  hp_has_cursor h = true -> all_bytes (c_data ch) ->
  page_chunk (encode_chunk h ch off len) = Some (shown_chunk ch off len).
Proof.
  intros Hc Hb. pose proof (encode_chunk_payload h ch off len Hb) as Hp. unfold payload in Hp.
  unfold page_chunk, chunk_data. destruct (sm_json_get_string _ "data"); [|done]. simpl in Hp. rewrite Hp.
  unfold encode_chunk. rewrite Hc. done.
Qed.

(** What is still to be shown of a pending request. *)
Definition rest_page (h : history_pending) : list json :=
  page_chunks (hp_page_bytes h) (hp_skip h) (hp_bytes_encoded h) (drop (hp_index h) (hp_chunks h)).

(** A cursor request for a page, without empty chunks. *)
Definition paged (h : history_pending) : bool :=
  hp_has_cursor h && (0 <? hp_page_bytes h) && forallb (fun c => 0 <? c_len c) (hp_chunks h) &&
  match hp_chunks h with [] => true | c :: _ => hp_first_skip h <? c_len c end.
Definition shown (h : history_pending) : option (list json) :=
  if paged h then Some (omap page_chunk (hp_arr h) ++ rest_page h) else None.

Lemma paged_skip h ch :
  paged h = true -> hp_ok h -> hp_chunks h !! hp_index h = Some ch -> 0 <= hp_skip h < c_len ch.
Proof.
  unfold paged. rewrite !andb_true_iff. intros [[[_ _] Hl] Hs] Hok Hch. rewrite forallb_forall in Hl.
  assert (In ch (hp_chunks h)) as Hin by (apply list_elem_of_In; by eapply list_elem_of_lookup_2).
  specialize (Hl _ Hin). apply Z.ltb_lt in Hl. destruct (ho_skip _ Hok) as [H0 _]. unfold hp_skip.
  destruct (Nat.eqb_spec (hp_index h) 0) as [E|]; [|lia]. rewrite E in Hch.
  destruct (hp_chunks h) as [|c l]; [done|]. injection Hch as ->. apply Z.ltb_lt in Hs. lia.
Qed.

Lemma encode_one_shown h ch len :
  hp_ok h -> hp_chunks h !! hp_index h = Some ch -> encode_range h ch = Some (hp_skip h, len) ->
  shown (encode_one h ch (hp_skip h) len) = shown h.
Proof.
  intros Hok Hch Hr. destruct (encode_range_ok h ch Hok Hch) as (len' & Hr' & Hsk & Hlen).
  rewrite Hr in Hr'. injection Hr' as <-.
  pose proof (lookup_lt_Some _ _ _ Hch) as Hlt. pose proof (ho_room _ Hok) as Hroom.
  assert (all_bytes (c_data ch)) as Hb by (by apply (proj1 (Forall_lookup _ _) (ho_bytes _ Hok) _ _ Hch)).
  assert (paged (encode_one h ch (hp_skip h) len) = paged h) as Hpg.
  { unfold encode_one. cbv zeta. by destruct (_ && _). }
  unfold shown. rewrite Hpg. destruct (paged h) eqn:Ep; [|done]. f_equal.
  pose proof (paged_skip h ch Ep Hok Hch) as Hs.
  unfold paged in Ep. rewrite !andb_true_iff in Ep. destruct Ep as [[[Hcur Hpb] _] _].
  rewrite Hpb in Hlen. apply Z.ltb_lt in Hpb. specialize (Hroom Hpb Hlt).
  pose proof (page_chunk_encoded h ch (hp_skip h) len Hcur Hb) as Hpc.
  unfold rest_page at 2. rewrite (drop_S _ _ _ Hch). cbn [page_chunks]. cbv zeta.
  replace (if hp_page_bytes h <? hp_bytes_encoded h + (c_len ch - hp_skip h)
           then hp_page_bytes h - hp_bytes_encoded h else c_len ch - hp_skip h) with len
    by (rewrite Hlen; destruct (Z.ltb_spec (hp_page_bytes h) (hp_bytes_encoded h + (c_len ch - hp_skip h))); lia).
  destruct (Z.eqb_spec len 0); [lia|]. fold (shown_chunk ch (hp_skip h) len).
  unfold encode_one. cbv zeta. cbn [hp_page_bytes hp_bytes_encoded].
  rewrite (proj2 (Z.ltb_lt _ _) Hpb). cbn [andb].
  assert (omap page_chunk (hp_arr h ++ [encode_chunk h ch (hp_skip h) len]) =
          omap page_chunk (hp_arr h) ++ [shown_chunk ch (hp_skip h) len]) as Ho.
  { rewrite omap_app. simpl. by rewrite Hpc. }
  destruct (Z.leb_spec (hp_page_bytes h) (hp_bytes_encoded h + len)).
  - unfold rest_page. cbn [hp_arr hp_page_bytes hp_bytes_encoded hp_index hp_chunks hp_skip].
    rewrite drop_all, Ho, <- app_assoc. done.
  - unfold rest_page. cbn [hp_arr hp_page_bytes hp_bytes_encoded hp_index hp_chunks hp_skip].
    rewrite Ho, <- app_assoc. done.
Qed.

Lemma encode_loop_shown fuel n h : hp_ok h -> shown (encode_loop fuel n h) = shown h.
Proof.
  revert n h. induction fuel as [|f IH]; intros n h Hok; cbn [encode_loop]; [done|].
  destruct (hp_chunks h !! hp_index h) as [ch|] eqn:Hch; [|done]. destruct (_ <=? n); [done|].
  destruct (encode_range_ok h ch Hok Hch) as (len & Hr & _). rewrite Hr.
  pose proof (encode_one_shown h ch len Hok Hch Hr) as Hs.
  destruct (encode_one_ok h ch len Hok Hch Hr) as (H1 & _).
  unfold encode_one in Hs, H1. cbv zeta in *. destruct (_ && _); [done|].
  rewrite <- Hs. by apply IH.
Qed.

Section surfaces.
Context {L : LinkOps} {E : SystemEnv} {J : JsonText} {R : RegexLib} {X : McpEnv}.

Lemma turn_constant_shown : turn_constant shown.
Proof. intros h Hok. by apply encode_loop_shown. Qed.

Lemma page_max_clamp m : page_max m = clamp_page m.
Proof.
  unfold page_max, clamp_page, SM_MAX_HISTORY_RESPONSE_BYTES. destruct (Z.leb_spec m 0); cbn [orb]; [done|].
  by destruct (524288 <? m).
Qed.

(** The page of the sink. *)
Lemma sink_page since max s w :
  (forall n z, env_alloc n z = true) ->
  let p := sm_rb_get_since_seq true (b_history (w_b w)) since (clamp_page max) in
  presult (history_json_page since max) (s, w) =
  JObj [] |> add_int "cursor" (pg_cursor p) |> add_int "dropped" (pg_dropped p)
    |> add_bool "has_more" (pg_has_more p)
    |> add_item "chunks" (JArr (page_chunks (clamp_page max) (pg_first_skip p) 0 (pg_chunks p))).
Proof.
  intros Hal. unfold history_json_page. rewrite page_max_clamp, !presult_bind. unfold mcp_alloc, with_broker.
  rewrite presult_lift, prun_lift. unfold alloc_call, query, run, result. cbn. by rewrite Hal.
Qed.

Lemma page_chunks_own max skip enc cs :
  page_chunks max skip enc (map own_chunk cs) = page_chunks max skip enc cs.
Proof.
  revert skip enc. induction cs as [|c cs IH]; intros skip enc; [done|]. cbn [map page_chunks]. cbv zeta.
  rewrite !IH. done.
Qed.

(** A page of the history is a page without empty chunks. *)
Lemma page_pending_paged c id max since rb stream :
  rb_refines rb stream -> 0 < max ->
  let p := sm_rb_get_since_seq true rb since max in
  pg_chunks p <> [] -> paged (page_pending c id max p) = true.
Proof.
  intros Href Hm p Hne.
  destruct (page_run since max rb stream Href ltac:(lia) Hne) as (l1 & ch & cs & l2 & Hpc & Hv & Hskip).
  fold p in Hpc, Hskip. pose proof (wf_chunks _ (ref_wf _ _ Href)) as Hck.
  rewrite Hv in Hck. apply Forall_app in Hck as [_ [Hck _]%Forall_app].
  unfold paged. cbn [page_pending hp_has_cursor hp_page_bytes hp_chunks hp_first_skip]. rewrite Hpc.
  rewrite (proj2 (Z.ltb_lt 0 max)) by done. cbn [andb]. apply andb_true_iff. split.
  - apply forallb_forall. intros x (c0 & <- & Hin)%in_map_iff. apply Z.ltb_lt.
    rewrite Forall_forall in Hck. destruct (Hck c0) as [Hl _]; [by apply list_elem_of_In|done].
  - cbn [map]. apply Z.ltb_lt. apply Hskip.
Qed.

(** What a finished answer shows is the page. *)
Lemma settled_page c id max since rb stream h' :
  rb_refines rb stream -> 0 < max ->
  let p := sm_rb_get_since_seq true rb since max in
  pg_chunks p <> [] -> (length (hp_chunks h') <= hp_index h')%nat ->
  (forall T (V : history_pending -> T), turn_constant V -> V h' = V (page_pending c id max p)) ->
  omap page_chunk (hp_arr h') = page_chunks max (pg_first_skip p) 0 (pg_chunks p).
Proof.
  intros Href Hm p Hne Hdone Hv. pose proof (Hv _ _ turn_constant_shown) as Hs. unfold shown at 2 in Hs.
  unfold p in Hs. rewrite (page_pending_paged c id max since rb stream Href Hm Hne) in Hs. fold p in Hs.
  unfold shown in Hs. destruct (paged h'); [|done]. injection Hs as Hs.
  unfold rest_page in Hs at 1. rewrite drop_ge, app_nil_r in Hs by done. rewrite Hs.
  unfold rest_page, hp_skip. cbn [page_pending hp_arr hp_index hp_chunks hp_page_bytes hp_bytes_encoded
    hp_first_skip Nat.eqb omap list_omap app]. rewrite drop_0. apply page_chunks_own.
Qed.

End surfaces.

(** * A read-only MCP server

    Without leave to change anything the stand-alone server only sends
    messages that leave the device alone, whatever broker they reach. *)

#[local] Open Scope string_scope.
#[local] Open Scope list_scope.
#[local] Open Scope Z_scope.

(** ** Messages *)

(** What such a server sends. *)
Inductive observing : json -> Prop :=
  | obs_hello token name role : observing (sm_msg_hello token name role)
  | obs_patterns id ps : observing (sm_msg_configure_anomaly id ps)
  | obs_status id : observing (sm_msg_status id)
  | obs_incidents id since : observing (sm_msg_incidents_request id since)
  | obs_history id since last : observing (sm_msg_history_request id since last)
  | obs_page id since max : observing (sm_msg_history_request_seq id since max)
  | obs_listen id pat ms : observing (sm_msg_listen_expect id pat ms)
  | obs_monitor id pat ms : observing (sm_msg_send_expect id [] pat ms).

(** The device is not reached: at most it is written no bytes. *)
Definition no_reach (e : event) : Prop :=
  match e with EvWrite data _ => data = [] | _ => no_device e end.
#[export] Instance Talk_no_reach : Talk no_reach.
Proof. by intros []. Qed.

Section broker.
Context {L : LinkOps} {E : SystemEnv} {J : JsonText} {R : RegexLib}.

(** Everything that steers the device, and the history. *)
Definition steering (b : sm_broker) (l : link_state) :=
  (b_link b, b_brk b, b_flood b, b_ar b, b_boot b, b_history b, b_baudrate b, b_auth_token b).
#[local] Instance steering_view : ClientView steering.
Proof. by intros b l cs. Qed.

Lemma remove_client_steering k : keeps steering no_reach (remove_client k).
Proof.
  intros w. destruct (remove_client_control k w) as [Hc Hg]. split.
  - unfold control in Hc. unfold steering. congruence.
  - eapply grows_mono; [|exact Hg]. by intros [].
Qed.
#[local] Hint Resolve remove_client_steering : broker.
Lemma replace_loop_steering k name i : keeps steering no_reach (replace_loop k name i).
Proof. induction i; simpl; keeps_tac. Qed.
Lemma add_patterns_steering items n : keeps steering no_reach (add_patterns items n).
Proof. revert n. induction items; intros n; cbn [add_patterns]; keeps_tac. Qed.
#[local] Hint Resolve replace_loop_steering add_patterns_steering : broker.

(** An expect that sends nothing. *)
Lemma expect_send_nothing k c i : keeps steering no_reach (expect_send k c i "").
Proof.
  unfold expect_send. change (too_large "") with false.
  change (sm_base64_decode (bytes_of_string "")) with (Some (@nil Z)). cbv beta iota.
  keeps_tac.
Qed.

(** Messages whose handlers reach nothing, whatever they carry. *)
Definition passive (t : sm_msg_type) : bool :=
  match t with
  | SM_MSG_HELLO | SM_MSG_CONFIGURE_ANOMALY | SM_MSG_STATUS | SM_MSG_INCIDENTS_REQUEST
  | SM_MSG_HISTORY_REQUEST | SM_MSG_LISTEN_EXPECT => true
  | _ => false
  end.
Lemma passive_harmless k c t root : passive t = true -> keeps steering no_reach (dispatch k c t root).
Proof. destruct t; try discriminate; intros _; cbn [dispatch]; keeps_tac. Qed.
Lemma monitor_harmless k c id pat ms :
  keeps steering no_reach (dispatch k c SM_MSG_SEND_EXPECT (sm_msg_send_expect id [] pat ms)).
Proof.
  cbn [dispatch]. unfold handle_send_expect.
  replace (sm_json_get_string (sm_msg_send_expect id [] pat ms) "data") with (Some "") by (by destruct id).
  pose proof expect_send_nothing. keeps_tac.
Qed.

(** Such a message steers nothing. *)
Lemma observing_harmless k m :
  observing m -> keeps steering no_reach (handle_client_message k (msg_of m)).
Proof.
  intros Hm. unfold handle_client_message, with_client. apply keeps_bind; [keeps_tac|]. intros cs.
  destruct (find_key k cs) as [c|]; [|keeps_tac]. destruct (_ && _); [keeps_tac|].
  assert (passive (m_type (msg_of m)) = true \/ exists id pat ms, m = sm_msg_send_expect id [] pat ms) as [Hp|(id & pat & ms & ->)].
  { destruct Hm as [[t|]|id|id|id|id|id since max|id|]; [left..|right; by eauto];
      try reflexivity; try (by destruct id).
    - unfold sm_msg_hello. cbv zeta. by destruct (streq t "").
    - unfold sm_msg_history_request_seq. cbv zeta. by destruct id, (0 <? max). }
  - by apply passive_harmless.
  - replace (m_type (msg_of (sm_msg_send_expect id [] pat ms))) with SM_MSG_SEND_EXPECT by (by destruct id).
    apply monitor_harmless.
Qed.
End broker.

(** ** The server *)

(** What was sent since consists of beginnings of such messages: a write may
    fail half way. *)
Definition sent_part `{JsonText} (p : json * nat) : bytes := take (snd p) (sm_msg_encode (fst p)).
Definition sends_observing `{JsonText} (s s' : client_ctx) : Prop :=
  exists parts, cx_sent s' = cx_sent s ++ mjoin (map sent_part parts) /\ Forall (fun p => observing (fst p)) parts.
#[export] Instance sends_observing_preorder `{JsonText} : PreOrder sends_observing.
Proof.
  split.
  - intros s. exists []. by rewrite app_nil_r.
  - intros s1 s2 s3 (p1 & E1 & F1) (p2 & E2 & F2). exists (p1 ++ p2).
    rewrite E2, E1, map_app, join_app, app_assoc. split; [done|]. by apply Forall_app.
Qed.

Lemma sm_write_all_prefix data env : exists n, snd (sm_write_all data env) = take n data.
Proof.
  revert data. induction env as [|r env IH]; intros data; (destruct data as [|x data]; [by exists 0%nat|]).
  { by exists 0%nat. }
  cbn [sm_write_all]. destruct r as [n| |]; [|by exists 0%nat..]. cbv zeta.
  destruct (_ =? 0); [by exists 0%nat|]. set (m := Z.max _ _). destruct (IH (zdrop m (x :: data))) as [k Hk].
  destruct (sm_write_all _ env) as [rc sent]. cbn [snd] in *. subst sent.
  exists (Z.to_nat m + k)%nat. apply take_take_drop.
Qed.

Lemma on_deliveries_sent ds s : cx_sent (on_deliveries ds s) = cx_sent s.
Proof.
  unfold on_deliveries. revert s. induction ds as [|d ds IH]; intros s; [done|]. cbn [fold_left].
  rewrite IH. destruct d; [|done]. cbn [on_delivery]. unfold buffer_output. destruct (_ =? 0); [done|]. cbv zeta.
  by destruct (_ <? _).
Qed.

Section server.
Context {J : JsonText} {N : ClientEnv}.
Abbreviation watches := (moves sends_observing).

Lemma same_sent s s' : cx_sent s' = cx_sent s -> sends_observing s s'.
Proof. intros H. exists []. by rewrite H, app_nil_r. Qed.
Lemma watches_mod f : (forall s, cx_sent (f s) = cx_sent s) -> watches (smod f).
Proof. intros H s. by apply same_sent. Qed.
Lemma watches_ask {A} (f : nat -> A) : watches (kask f).
Proof. intros s. by apply same_sent. Qed.
Lemma watches_gen : watches gen_wire_id.
Proof. intros s. by apply same_sent. Qed.
Lemma watches_conn_op f : watches (conn_op f).
Proof.
  intros s. apply same_sent. unfold conn_op, srun. destruct (f _) as [[r ds] c]. cbn [fst].
  by rewrite on_deliveries_sent.
Qed.
Lemma watches_send m : observing m -> watches (broker_send m).
Proof.
  intros Hm s. unfold broker_send. rewrite srun_bind. unfold sm_broker_conn_send.
  destruct (sm_write_all_prefix (sm_msg_encode m) (sresult (kask ce_writes) s)) as [n Hn].
  destruct (sm_write_all _ _) as [rc sent]. cbn [snd] in Hn. subst sent.
  exists [(m, n)]. cbn. rewrite app_nil_r. split; [done|]. by repeat constructor.
Qed.
Hint Resolve moves_ret moves_get watches_ask watches_gen watches_conn_op sends_observing_preorder : client.

Ltac watch_step :=
  lazymatch goal with
  | |- moves _ (mbind _ _) => apply moves_seq; [exact _| |intros ?]
  | |- moves _ (smod _) => first [apply watches_mod; reflexivity | fail 1]
  | |- moves _ (broker_send _) => apply watches_send; solve [constructor]
  | |- moves _ (if ?c then _ else _) => destruct c
  | |- moves _ (match ?c with _ => _ end) => destruct c
  | |- moves _ (history_lines _ _ _) => solve [eauto 2 with client]
  | |- moves _ (stdin_lines _) => solve [eauto 2 with client]
  | |- moves _ (main_loop _) => solve [eauto 2 with client]
  | |- moves _ ?p => first [solve [eauto 2 with client] | let h := head_of p in progress unfold h]
  end.
Ltac watch_tac := repeat (cbv zeta; watch_step).

Lemma watches_history_lines cs cap buf : watches (history_lines cs cap buf).
Proof.
  revert cap buf. induction cs as [|c cs IH]; intros cap buf; cbn [history_lines]; watch_tac; apply IH.
Qed.
Lemma watches_write msg : watches (client_write msg).
Proof.
  unfold client_write. watch_tac. apply watches_mod. intros s. by destruct (_ =? 0).
Qed.
Hint Resolve watches_history_lines watches_write : client.
Lemma read_tool_watches name args :
  sm_mcp_tool_is_mutate name = false -> watches (run_client_tool name args).
Proof.
  intros Hm. unfold run_client_tool.
  repeat match goal with
  | |- moves _ (if streq name ?t then _ else _) =>
      destruct (streq name t) eqn:?;
      [first [ solve [exfalso; match goal with H : streq name t = true |- _ =>
                 apply streq_spec in H; subst name; discriminate end]
             | solve [watch_tac] ]|]
  end.
  watch_tac.
Qed.
Lemma connect_watches : watches try_connect_broker.
Proof. watch_tac. Qed.
Hint Resolve connect_watches : client.

Section readonly.
Hypothesis Hro : sm_mcp_mutate_enabled ce_mutate = false.
Lemma dispatch_watches name args : watches (dispatch_tool name args).
Proof.
  unfold dispatch_tool. apply moves_seq; [exact _|watch_tac|]. intros up. destruct (negb up); [watch_tac|].
  rewrite Hro. destruct (sm_mcp_tool_is_mutate name) eqn:Hm; cbn [andb negb]; [watch_tac|].
  apply moves_seq; [exact _|by apply read_tool_watches|]. intros a. watch_tac.
Qed.
Hint Resolve dispatch_watches : client.
Lemma stdin_lines_watches fuel : watches (stdin_lines fuel).
Proof. induction fuel; cbn [stdin_lines]; watch_tac. Qed.
Hint Resolve stdin_lines_watches : client.
Lemma main_loop_watches es : watches (main_loop es).
Proof. induction es as [|e es IH]; cbn [main_loop]; watch_tac. Qed.
End readonly.
Hint Resolve main_loop_watches : client.
End server.

(** C24: without SMOLMUX_MCP_MUTATE the stand-alone server cannot reach the
    device.  Whatever arrives on its standard input and from the broker, all it
    ever writes to the connection is beginnings of messages, each of which
    leaves any broker's link flags, break and flood machines, autoresponder
    rules, boot progress, history and baud rate as they are and calls no vtable
    entry of the link, except to write no bytes. *)
Theorem client_readonly `{JsonText, ClientEnv, L : LinkOps, SystemEnv, RegexLib} es path :
  sm_mcp_mutate_enabled ce_mutate = false ->
  exists parts : list (json * nat),
    cx_sent (srun (client_main es) (client_start path)) =
      mjoin (map (fun p => take (snd p) (sm_msg_encode (fst p))) parts) /\
    Forall (fun p => forall k, keeps steering no_reach (handle_client_message k (msg_of (fst p)))) parts.
Proof.
  intros Hro. assert (moves sends_observing (client_main es)) as Hw.
  { unfold client_main. apply moves_seq; [exact _|apply connect_watches|]. intros rc.
    apply moves_seq; [exact _| |intros _; by apply main_loop_watches].
    destruct (negb _); [by apply watches_mod|by apply moves_ret, _]. }
  destruct (Hw (client_start path)) as (parts & Hs & Hp). exists parts. split; [exact Hs|].
  eapply Forall_impl; [exact Hp|]. intros p Ho k. by apply observing_harmless.
Qed.

(** * The stand-alone MCP server at work

    A concrete server in front of a scripted broker: the witnesses of the
    theorems about it, and how it comes to an end. *)

#[local] Open Scope string_scope.
#[local] Open Scope list_scope.
#[local] Open Scope Z_scope.
#[local] Open Scope json_scope.

(** ** A broker that goes away *)

Section loss.
Context {J : JsonText} {N : ClientEnv}.

(** A broker that closes the connection takes the server with it.  The
    read that meets the end of the file clears the flag that also keeps the
    main loop running: unless a request comes in the same poll, whatever
    requests arrive afterwards, none is read and nothing is written any more,
    although the tools are meant to answer that the broker is offline. *)
Theorem broker_loss_stops_server p es s :
  0 <= bc_fd (cx_conn s) -> bc_running (cx_conn s) = true ->
  zlen (bc_read (cx_conn s)) < bc_read_cap (cx_conn s) - 1 ->
  mp_broker_in p = true -> mp_broker_read p = REof -> mp_stdin_in p = false ->
  srun (main_loop (MainPoll p :: es)) s = srun (main_turn p) s /\
  cx_stdout (srun (main_loop (MainPoll p :: es)) s) = cx_stdout s.
Proof.
  intros Hfd Hrun Hroom Hin Hr Hstd.
  assert (sm_broker_conn_read None (mp_broker_realloc p) REof (cx_conn s) =
          (None, [], {| (cx_conn s) with bc_running := false |})) as Hread.
  { unfold sm_broker_conn_read. cbv zeta. by destruct (Z.leb_spec (bc_read_cap (cx_conn s) - 1) (zlen (bc_read (cx_conn s)))); [lia|]. }
  assert (bc_running (cx_conn (srun (main_turn p) s)) = false /\ cx_stdout (srun (main_turn p) s) = cx_stdout s) as [Hoff Hout].
  { unfold main_turn. rewrite srun_bind. cbn [sresult srun sget fst snd].
    rewrite Hin, Hr, Hstd, (proj2 (Z.leb_le _ _) Hfd). cbn [andb]. rewrite !srun_bind.
    unfold read_broker, conn_op at 1 2. cbn [srun fst]. unfold srun. rewrite Hread.
    destruct (mp_broker_hup p), (mp_stdin_hup p); done. }
  enough (srun (main_loop (MainPoll p :: es)) s = srun (main_turn p) s) as -> by done.
  cbn [main_loop]. rewrite srun_bind. cbn [sresult srun sget fst snd]. rewrite Hrun. cbn [negb].
  rewrite srun_bind. destruct es as [|e es]; [done|]. cbn [main_loop]. rewrite srun_bind.
  cbn [sresult srun sget fst snd]. by rewrite Hoff.
Qed.
End loss.

(** ** A server *)

(** The broker's lines, and a wait that gets them in one read. *)
Definition wire_lines (l : list json) : bytes := mjoin (map sm_msg_encode l).
Definition arrives (l : list json) : wait_step := mk_step (0, 0) (PollReady true false) true (RBytes (wire_lines l)).

(** Everything is written at once; the [n]-th question about the socket gets
    the [n]-th script. *)
Definition demo_client_env (mutate : option string) (script : nat -> list wait_step) : ClientEnv := {|
  ce_profile := demo_profile; ce_patterns := []; ce_name := "mcp"; ce_use_tcp := false;
  ce_socket_explicit := true; ce_mutate := mutate; ce_socket_env := None; ce_token _ := None;
  ce_writes _ := [WBytes 65536]; ce_clock _ := (0, 0); ce_steps := script; ce_realtime _ := 0;
  ce_realloc _ := true; ce_text _ := true; ce_stdout _ _ r := r; ce_connect _ := 7; ce_refuse _ := false; ce_discover _ := None; ce_ports _ := [] |}.

Definition welcome : json := sm_msg_welcome SM_VERSION "/dev/ttyUSB0" 115200 "controller".
(** The welcome first, then the answer to the first request. *)
Definition demo_script (reply : json) (n : nat) : list wait_step :=
  if (n <=? 4)%nat then [arrives [welcome]] else [arrives [reply]].
Definition demo_status_reply : json :=
  sm_msg_status_response (Some "mcp-00000000") "/dev/ttyUSB0" 115200 true false.
Definition demo_poll (b : bytes) : main_event :=
  MainPoll (mk_poll false false true RAgain true false (RBytes b)).
Definition status_call : json := call_json 7 "serial_port_status" (JObj []).

Section runs.
#[local] Instance demo_server : ClientEnv := demo_client_env None (demo_script demo_status_reply).

(** The server connects, is welcomed, is asked for the port's status and asks
    the broker. *)
Definition demo_asked : client_ctx :=
  srun (client_main [demo_poll (call_line 7 "serial_port_status" (JObj []))]) (client_start "/run/x.sock").
Example demo_status_text :
  map (fun m => (msg_id m, String.substring 0 32 (default "" (answer_text m)))) (cx_stdout demo_asked) =
  [(JNum 7000000000, "Port: /dev/ttyUSB0" +:+ nl +:+ "Baud: 115200" +:+ nl)].
Proof. vm_compute. reflexivity. Qed.

Lemma demo_output_works : output_works.
Proof.
  intros n. split; [done|]. intros total Ht. cbn [ce_stdout demo_server demo_client_env].
  destruct (Z.to_nat total) as [|f] eqn:Ef; [lia|]. cbn [write_out].
  destruct (Z.leb_spec total 0); [lia|]. cbv zeta. destruct (Z.leb_spec total 0); [lia|].
  rewrite Z.min_id, Z.sub_diag. by destruct f.
Qed.

(** Nobody set SMOLMUX_MCP_MUTATE, and a write is asked for. *)
Definition demo_refused : list main_event :=
  [demo_poll (call_line 7 "serial_write" (JObj [] |> add_string "data" "reboot"))].
Lemma client_readonly_witness :
  (exists parts : list (json * nat),
     cx_sent (srun (client_main demo_refused) (client_start "/run/x.sock")) =
       mjoin (map (fun p => take (snd p) (sm_msg_encode (fst p))) parts) /\
     Forall (fun p => forall k, keeps (L := demo_link false) steering no_reach
                                  (handle_client_message k (msg_of (fst p)))) parts) /\
  map answer_text (cx_stdout (srun (client_main demo_refused) (client_start "/run/x.sock"))) =
    [Some "[ERROR] mutate tools disabled (set SMOLMUX_MCP_MUTATE=1)"].
Proof.
  split; [|by vm_compute].
  apply (client_readonly (L := demo_link false) demo_refused "/run/x.sock"). vm_compute. reflexivity.
Defined.

(** The connection is closed by the broker; then a request arrives. *)
Definition demo_gone : main_poll := mk_poll true true true REof false false RAgain.
Lemma broker_loss_stops_server_witness :
  cx_stdout (srun (main_loop [MainPoll demo_gone; demo_poll (call_line 8 "serial_port_status" (JObj []))]) demo_asked) =
    cx_stdout demo_asked /\ cx_offline (srun (main_turn demo_gone) demo_asked) = true.
Proof.
  split; [|by vm_compute].
  apply (broker_loss_stops_server demo_gone
           [demo_poll (call_line 8 "serial_port_status" (JObj []))] demo_asked);
    vm_compute; first [reflexivity|discriminate].
Defined.

(** ** The connection *)

Definition demo_conn : sm_broker_conn := mk_conn 7 true [] 8192 0 true true.
Definition ack_a : json := sm_msg_ack "pin_control" (Some "a").
Definition ack_b : json := sm_msg_ack "pin_control" (Some "b").

(** Two reads: the second brings the end of the second line and a third. *)
Definition demo_wire : bytes := wire_lines [sm_msg_output [104; 105] 0; ack_a; ack_b].
Lemma conn_stream_witness :
  exists xs ds b c' ms,
    conn_run [(Some "a", true, RBytes (take 50 demo_wire)); (Some "a", true, RBytes (drop 50 demo_wire))] demo_conn =
      (xs, ds, Some b, c') /\ xs = [None; Some ack_a] /\
    msgs_of b = ms ++ msgs_of (bc_read c') /\ ds = deliveries demo_conn ms.
Proof.
  do 4 eexists.
  match goal with |- exists ms, ?r = (?xs, ?ds, Some ?b, ?c) /\ _ =>
    destruct (conn_stream [(Some "a", true, RBytes (take 50 demo_wire)); (Some "a", true, RBytes (drop 50 demo_wire))]
      demo_conn b xs ds c) as (ms & Hm & Hd); [vm_compute; reflexivity|]
  end.
  exists ms. split_and!; [vm_compute; reflexivity|vm_compute; reflexivity|exact Hm|exact Hd].
Defined.

(** Both answers come in one read; the wait for the first takes the first, and
    the wait for the second finds nothing although the second is there. *)
Definition demo_both : option json * list delivery * sm_broker_conn :=
  sm_broker_conn_wait (Some "a") 1000 (0, 0) [arrives [ack_a; ack_b]] demo_conn.
Lemma conn_buffered_unseen_witness :
  fst demo_both = (Some ack_a, []) /\
  existsb (McpConn.answers (Some "b")) (msgs_of (bc_read (snd demo_both))) = true /\
  sm_broker_conn_wait (Some "b") 1000 (0, 0) [mk_step (0, 0) PollTimeout true RAgain] (snd demo_both) =
    (None, [], snd demo_both).
Proof.
  split_and!; [by vm_compute..|].
  apply (conn_buffered_unseen (Some "b") 1000 (0, 0) [mk_step (0, 0) PollTimeout true RAgain] (snd demo_both)).
  by repeat constructor.
Defined.

(** ** Both surfaces *)

End runs.
