(* ===== verification/HostPaths.v ===== *)
(** The host: sockets, tokens and device nodes, and the processes behind a
    socket. *)

(** * Sockets, tokens and device nodes on the host ([src/util/sock_util.c],
      [src/util/auth_token.c])

    Where a broker's socket is, which socket a client takes, how a token
    reaches a client, and what a device node is called.  The file system, the
    sockets and the environment answer through [HostEnv]: a picture of the
    system at the moment of the call. *)
From stdpp Require Import pretty.
From S2P Require Import Prelude Cstr Json Regex Anomaly McpText Effects BrokerState McpResults.

#[local] Open Scope string_scope.
#[local] Open Scope list_scope.
#[local] Open Scope Z_scope.

(** ** Strings *)

(** [strlen]. *)
Definition slen (s : string) : Z := Z.of_nat (String.length s).
(** [snprintf] into [n] bytes: the text cut, and the length it wanted. *)
Definition snprintf_n (n : Z) (s : string) : string * Z := (snprintf_s (Z.to_nat n) s, slen s).
Definition nonempty_s (o : option string) : option string :=
  match o with Some s => if streq s "" then None else Some s | None => None end.
Definition ends_with (suffix s : bytes) : bool :=
  (zlen suffix <=? zlen s) && bool_decide (zdrop (zlen s - zlen suffix) s = suffix).

(** What precedes and what follows the last [c]. *)
Fixpoint split_last (c : Z) (l : bytes) : option (bytes * bytes) :=
  match l with
  | [] => None
  | x :: l' =>
      match split_last c l' with
      | Some (a, b) => Some (x :: a, b)
      | None => if x =? c then Some ([], l') else None
      end
  end.

(** ** The system *)

Inductive file_type := FReg | FChr | FSock | FDir | FOther.
#[export] Instance file_type_eq_dec : EqDecision file_type.
Proof. solve_decision. Defined.
Record file_stat := mk_stat { st_type : file_type; st_uid : Z; st_nlink : Z; st_mode : Z }.

Class HostEnv := {
  he_env : string -> option string;
  (* [setenv] finds memory for the variable and its value *)
  he_setenv : string -> string -> bool;
  he_euid : Z;
  (* [stat]; [lstat] finds something; [open] without following a link, and
     what the file holds *)
  he_stat : string -> option file_stat;
  he_lstat : string -> bool;
  he_open : string -> option (file_stat * bytes);
  he_readable : string -> bool;
  he_file : string -> option bytes;
  he_glob : string -> list string;
  he_realpath : string -> option string;
  (* a connection and the user on the other side, when it can be asked for *)
  he_connect : string -> option (option Z);
  he_resolve : string -> Z -> option (list (option bool)) }.

(** ** Socket paths *)

Definition SM_SOCK_PATH_MAX : Z := 108.
Definition SM_SOCK_BIND_TMP_EXTRA : Z := 16.
Definition SM_SOCK_FINAL_MAX : Z := SM_SOCK_PATH_MAX - 1 - SM_SOCK_BIND_TMP_EXTRA.

Definition fnv1a32 (s : bytes) : Z :=
  fold_left (fun h c => u32 (Z.lxor h c * 16777619)) s 2166136261.

Definition path_basename (path : string) : string :=
  if streq path "" then "unknown" else
  let b := basename (bytes_of_string path) in
  snprintf_s 256 (if zlen b =? 0 then "unknown" else string_of_bytes b).

Definition hex8 (h : Z) : string := string_of_bytes (hex_digits 8 h).

Definition format_smolmux_sock (out_len : Z) (dir tag : string) (max_strlen : Z) : option string :=
  if (out_len =? 0) || streq dir "" || streq tag "" then None else
  let '(out, n) := snprintf_n out_len (dir +:+ "/smolmux-" +:+ tag +:+ ".sock") in
  if (n <? out_len) && (n <=? max_strlen) then Some out else
  let h := fnv1a32 (bytes_of_string tag) in
  let fixed := slen dir + 9 + 1 + 8 + 5 in
  if (out_len <=? fixed) || (max_strlen <? fixed) then None else
  let prefix_max := max_strlen - fixed in
  let prefix_max := if out_len <=? prefix_max + fixed then out_len - 1 - fixed else prefix_max in
  if prefix_max <? 1 then None else
  let plen := Z.min (slen tag) prefix_max in
  let prefix := String.substring 0 (Z.to_nat plen) tag in
  let '(out, n) := snprintf_n out_len (dir +:+ "/smolmux-" +:+ prefix +:+ "-" +:+ hex8 h +:+ ".sock") in
  if (out_len <=? n) || (max_strlen <? n) then None else Some out.

Section host.
Context {H : HostEnv}.

Definition sock_runtime_dir : string := default "/tmp" (nonempty_s (he_env "XDG_RUNTIME_DIR")).

Definition sm_derive_socket_path (out_len : Z) (device_or_label : string) : option string :=
  if streq device_or_label "" then None
  else format_smolmux_sock out_len sock_runtime_dir (path_basename device_or_label) SM_SOCK_FINAL_MAX.

Definition sm_derive_board_socket_path (out_len : Z) (board role : string) : option string :=
  if streq board "" || streq role "" then None
  else format_smolmux_sock out_len sock_runtime_dir (snprintf_s 256 (board +:+ "-" +:+ role)) SM_SOCK_FINAL_MAX.

Definition arg_looks_like_device_node (arg : string) : bool :=
  match he_stat arg with
  | Some st => bool_decide (st_type st = FChr)
  | None => String.prefix "/dev/tty" arg || String.prefix "/dev/pts/" arg || strstr arg "/serial/"
  end.

(** The path, and whether it was derived from a device node. *)
Definition sm_resolve_client_socket (out_len : Z) (arg : string) : option (string * bool) :=
  if (out_len =? 0) || streq arg "" then None else
  if arg_looks_like_device_node arg then
    match sm_derive_socket_path out_len arg with Some p => Some (p, true) | None => None end
  else if out_len <=? slen arg then None else Some (arg, false).

(** ** Connecting *)

(** The path is cut to the 108 bytes of a socket address. *)
Definition sm_connect_unix (path : string) : bool :=
  match he_connect (snprintf_s 108 path) with
  | None => false
  | Some None => true
  | Some (Some uid) => uid =? he_euid
  end.
Definition sm_socket_is_reachable (path : string) : bool :=
  if streq path "" then false else sm_connect_unix path.

(** The addresses a name resolves to, each with what [socket] and [connect]
    give ([None]: no socket). *)
Definition sm_connect_tcp (host : string) (port : Z) : bool :=
  match he_resolve host port with
  | None => false
  | Some addrs => existsb (fun a => default false a) addrs
  end.

(** ** Discovery *)

Definition SM_SOCKET_GLOB : string := "/tmp/smolmux-*.sock".
Definition xdg_glob (dir : string) : string := snprintf_s 256 (dir +:+ "/smolmux-*.sock").

Definition first_reachable_glob (pattern : string) (out_len : Z) : option string :=
  match List.find sm_socket_is_reachable (he_glob pattern) with
  | Some p => Some (snprintf_s (Z.to_nat out_len) p)
  | None => None
  end.

Definition sm_discover_socket (out_len : Z) : option string :=
  match nonempty_s (he_env "SMOLMUX_SOCKET") with
  | Some env => Some (snprintf_s (Z.to_nat out_len) env)
  | None =>
      let tmp := first_reachable_glob SM_SOCKET_GLOB out_len in
      match nonempty_s (he_env "XDG_RUNTIME_DIR") with
      | Some dir => match first_reachable_glob (xdg_glob dir) out_len with Some p => Some p | None => tmp end
      | None => tmp
      end
  end.

(** The table and how many were counted. *)
Definition add_unique (max : nat) (path : string) (st : list string * nat) : list string * nat :=
  let '(out, count) := st in
  if existsb (streq path) (take (Nat.min count max) out) then st
  else ((if (count <? max)%nat then out ++ [snprintf_s 108 path] else out), S count).
Definition add_glob (pattern : string) (max : nat) (st : list string * nat) : list string * nat :=
  fold_left (fun st p => add_unique max p st) (he_glob pattern) st.

Definition sm_discover_all_sockets (max : nat) : list string * nat :=
  let st := ([], 0%nat) in
  let st := match nonempty_s (he_env "SMOLMUX_SOCKET") with Some env => add_unique max env st | None => st end in
  let st := match nonempty_s (he_env "XDG_RUNTIME_DIR") with Some dir => add_glob (xdg_glob dir) max st | None => st end in
  add_glob SM_SOCKET_GLOB max st.

(** The live ones that fit, and how many are live. *)
Definition sm_discover_reachable_sockets (max : nat) : list string * nat :=
  let live := List.filter sm_socket_is_reachable (fst (sm_discover_all_sockets 64)) in
  (take max live, length live).

Definition sm_autodiscover_should_refuse (explicit_pin : bool) : bool :=
  if explicit_pin then false else (1 <? snd (sm_discover_reachable_sockets 32))%nat.

(** ** Who holds a socket *)

Definition sm_client_name_is_mcp (name : string) : bool :=
  if streq name "" then false
  else if ends_with (bytes_of_string "-mcp") (bytes_of_string name) then true
  else streq name "claude-mcp".

Definition sm_gc_should_kill (name : string) (pid_alive : bool) (ppid : Z) (kill_all_mcp : bool) : bool :=
  if negb (sm_client_name_is_mcp name) then false
  else if kill_all_mcp then true else if negb pid_alive then true else ppid =? 1.

Definition sm_unix_sock_name_matches (name sock_path : string) : bool :=
  if streq name "" || streq sock_path "" then false else
  if streq name sock_path then true else
  if negb (starts_with (bytes_of_string sock_path) (bytes_of_string name)) then false else
  match zdrop (slen sock_path) (bytes_of_string name) with
  | 46 :: p =>
      match take_while isdigit p with
      | [] => false
      | _ => bool_decide (skip_while isdigit p = bytes_of_string ".tmp")
      end
  | _ => false
  end.

(** A table of inode numbers with a bound. *)
Definition add_ino (max : nat) (ino : Z) (v : list Z) : list Z :=
  if (ino =? 0) || bool_decide (ino ∈ v) || (max <=? length v)%nat then v else v ++ [ino].
Definition ino_in (v : list Z) (ino : Z) : bool := negb (ino =? 0) && bool_decide (ino ∈ v).

(** The two passes over the kernel's list of sockets: (inode, peer, name). *)
Definition diag_pass1 (path : string) (max : nat) (socks : list (Z * Z * string)) (st : list Z * list Z) :
    list Z * list Z :=
  fold_left (fun '(named, out) '(ino, peer, name) =>
    if sm_unix_sock_name_matches name path
    then (add_ino 128 ino named, add_ino max peer (add_ino max ino out)) else (named, out)) socks st.
Definition diag_pass2 (named : list Z) (max : nat) (socks : list (Z * Z * string)) (out : list Z) : list Z :=
  fold_left (fun out '(ino, peer, _) => if ino_in named peer then add_ino max ino out else out) socks out.
Definition unix_diag_inodes_for_path (path : string) (max : nat) (first second : list (Z * Z * string)) : list Z :=
  let '(named, out) := diag_pass1 path max first ([], []) in diag_pass2 named max second out.

(** ** Device nodes *)

(** The first link below a directory that leads to the same node. *)
Definition link_to (pattern dev : string) : option string :=
  let real := default (snprintf_s 512 dev) (he_realpath dev) in
  List.find (fun p => match he_realpath p with Some t => streq t real | None => false end) (he_glob pattern).
Definition fill_by_id (dev : string) : string :=
  match link_to "/dev/serial/by-id/*" dev with Some p => snprintf_s 256 p | None => "" end.
Definition sm_serial_resolve_by_id (out_len : Z) (dev : string) : option string :=
  if out_len =? 0 then None else
  let id := fill_by_id dev in
  if streq id "" then None else Some (snprintf_s (Z.to_nat out_len) id).
Definition sm_serial_resolve_by_path (out_len : Z) (dev : string) : option string :=
  if out_len =? 0 then None else
  match link_to "/dev/serial/by-path/*" dev with
  | Some p => Some (snprintf_s (Z.to_nat out_len) p)
  | None => None
  end.

Definition sm_identity_named_board_is_ambiguous (has_board weak : bool) (policy pinned now : option string)
    (identity_ok : bool) : bool :=
  if negb has_board || identity_ok || negb weak then false else
  match policy, nonempty_s pinned, nonempty_s now with
  | Some p, Some a, Some b => negb (streq p "seat" && streq a b)
  | _, _, _ => true
  end.
End host.

(** Polls until [ok] or the deadline: the clock before the loop and after each
    failed check. *)
Fixpoint wait_until (deadline : double) (polls : list (bool * double)) : Z :=
  match polls with
  | [] => -1
  | (ok, now) :: polls' => if ok : bool then 0 else if deadline <=? now then -1 else wait_until deadline polls'
  end.
Definition sm_wait_path_exists (path : string) (timeout_s now : double) (polls : list (bool * double)) : Z :=
  if streq path "" then -1 else wait_until (now + Z.max 0 timeout_s) polls.
Definition sm_wait_device_open (path : string) (timeout_s now : double) (polls : list (bool * double)) : Z :=
  if streq path "" then -1 else wait_until (now + Z.max 0 timeout_s) polls.

(** The host, cut to its buffer, and the port, if one is given. *)
Definition sm_parse_host_port (spec : string) (host_len : nat) (port : Z) : string * Z :=
  match split_last 58 (bytes_of_string spec) with
  | Some ((_ :: _) as host, rest) => (snprintf_s host_len (string_of_bytes host), atoi rest)
  | _ => (snprintf_s host_len spec, port)
  end.

(** ** The ports *)

(** [fgets] into [n] bytes: what is read and what is left; [None] at the end
    of the file. *)
Definition fgets (n : Z) (b : bytes) : option (bytes * bytes) :=
  match b with
  | [] => None
  | _ =>
      let line := take_while (fun c => negb (c =? 10)) b in
      let k := Z.min (n - 1) (if zlen line <? zlen b then zlen line + 1 else zlen line) in
      Some (ztake k b, zdrop k b)
  end.

Section ports.
Context {H : HostEnv}.

Definition is_crlf (c : Z) : bool := (c =? 10) || (c =? 13).
Definition rstrip (f : Z -> bool) (b : bytes) : bytes := rev (skip_while f (rev b)).

Definition read_sysfs_str (path : string) (out_len : Z) : string :=
  match he_file path ≫= fgets out_len with
  | Some (line, _) => string_of_bytes (rstrip is_crlf (cstr line))
  | None => ""
  end.

Fixpoint usb_walk (depth : nat) (walk : string) : option (string * string * string * string) :=
  match depth with
  | O => None
  | S d =>
      if he_readable (walk +:+ "/idVendor") then
        Some (read_sysfs_str (walk +:+ "/idVendor") 8, read_sysfs_str (walk +:+ "/idProduct") 8,
              read_sysfs_str (walk +:+ "/manufacturer") 64, read_sysfs_str (walk +:+ "/product") 64)
      else
        match split_last 47 (bytes_of_string walk) with
        | None | Some ([], _) => None
        | Some (parent, _) => usb_walk d (string_of_bytes parent)
        end
  end.
Definition fill_usb_ids (dev : string) : option (string * string * string * string) :=
  let base := match split_last 47 (bytes_of_string dev) with
              | Some (_, b) => string_of_bytes b | None => dev end in
  match he_realpath (snprintf_s 512 ("/sys/class/tty/" +:+ base +:+ "/device")) with
  | Some resolved => usb_walk 8 (snprintf_s 512 resolved)
  | None => None
  end.

Definition sm_glob_serial_ports : list string := he_glob "/dev/ttyUSB*" ++ he_glob "/dev/ttyACM*".
Definition port_info (path : string) : sm_serial_port_info :=
  let path := snprintf_s 128 path in
  let '(vid, pid, manufacturer, product) := default ("", "", "", "") (fill_usb_ids path) in
  mk_port path (fill_by_id path) (default "" (sm_serial_resolve_by_path 256 path)) vid pid manufacturer product.
Definition sm_list_serial_ports_info (max : nat) : list sm_serial_port_info :=
  map port_info (take max sm_glob_serial_ports).
Definition sm_format_serial_ports_text : string :=
  sm_format_serial_ports_info_text (sm_list_serial_ports_info 64).

(** ** Secrets *)

(** A file only its owner can touch, reached by one name. *)
Definition private_file (st : file_stat) : bool :=
  bool_decide (st_type st = FReg) && (st_uid st =? he_euid) && (st_nlink st =? 1) && (Z.land (st_mode st) 511 =? 384).

(** The first byte behind the line end, if any. *)
Definition extra_byte (rest : bytes) : option Z :=
  match rest with
  | 13 :: 10 :: rest' => head rest'
  | 13 :: rest' => head rest'
  | 10 :: rest' => head rest'
  | _ => head rest
  end.

Definition sm_read_owner_secret_file (path : string) (out_len : Z) : option string :=
  if streq path "" || (out_len <? 2) then None else
  match he_open path with
  | None => None
  | Some (st, content) =>
      if negb (private_file st) then None else
      match fgets out_len content with
      | None => None
      | Some (line, rest) =>
          let out := take_while (fun c => negb (is_crlf c)) (cstr line) in
          if zlen out =? 0 then None else
          match extra_byte rest with Some _ => None | None => Some (string_of_bytes out) end
      end
  end.

(** ** Tokens *)

Definition sm_auth_token_dir : string := default "/tmp" (nonempty_s (he_env "XDG_RUNTIME_DIR")).
Definition token_name (dir kind : string) (port : Z) : string :=
  dir +:+ "/smolmux-" +:+ kind +:+ "-" +:+ pretty port +:+ ".token".
Definition sm_auth_token_path (out_len : Z) (kind : string) (port : Z) : option string :=
  if port <=? 0 then None else
  let '(out, n) := snprintf_n out_len (token_name sm_auth_token_dir kind port) in
  if out_len <=? n then None else Some out.
Definition sm_auth_token_dirs : list string :=
  if streq sm_auth_token_dir "/tmp" then ["/tmp"] else [sm_auth_token_dir; "/tmp"].
Definition sm_auth_token_find (out_len : Z) (kind : string) (port : Z) : option string :=
  List.find (fun p => (slen p <? out_len) && he_lstat p) (map (fun d => token_name d kind port) sm_auth_token_dirs).

Definition SM_AUTH_TOKEN_HEX_LEN : Z := 48.
(** The token is the random bytes in hexadecimal; less than 24 bytes:
    [getrandom] failed. *)
Definition sm_auth_token_generate (out_len : Z) (raw : bytes) : option string :=
  if out_len <? SM_AUTH_TOKEN_HEX_LEN + 1 then None else
  if zlen raw <? SM_AUTH_TOKEN_HEX_LEN / 2 then None else
  Some (string_of_bytes (mjoin (map (hex_digits 2) (ztake (SM_AUTH_TOKEN_HEX_LEN / 2) raw)))).

(** What the file holds afterwards: whether [fchmod] and [ftruncate] succeed
    and how much the two writes take. *)
Definition sm_auth_token_write (opened : option file_stat) (chmod_ok trunc_ok : bool) (w1 w2 : Z)
    (token : string) (old : bytes) : Z * bytes :=
  if streq token "" then (-1, old) else
  match opened with
  | None => (-1, old)
  | Some st =>
      if negb (bool_decide (st_type st = FReg) && (st_uid st =? he_euid) && (st_nlink st =? 1)) then (-1, old) else
      if negb chmod_ok then (-1, old) else if negb trunc_ok then (-1, old) else
      let t := bytes_of_string token in
      if negb (w1 =? zlen t) then (-1, ztake w1 t) else
      if negb (w2 =? 1) then (-1, t) else (0, t ++ [10])
  end.

(** [inet_pton] for IPv4: four decimal numbers below 256 without leading
    zeros. *)
Definition octet (b : bytes) : option Z :=
  match b with
  | [] => None
  | c :: b' =>
      if negb (forallb isdigit b) || ((c =? 48) && (0 <? zlen b')) || (3 <? zlen b) || (255 <? digits_value b)
      then None else Some (digits_value b)
  end.
Fixpoint split_dots (fuel : nat) (b : bytes) : list bytes :=
  match fuel, split_at_char 46 b with
  | S f, Some (a, rest) => a :: split_dots f rest
  | _, _ => [b]
  end.
Definition inet_pton4 (host : string) : option Z :=
  match map octet (split_dots 4 (bytes_of_string host)) with
  | [Some a; Some b; Some c; Some d] => Some (((a * 256 + b) * 256 + c) * 256 + d)
  | _ => None
  end.
Definition in_loopback (addr : Z) : bool := Z.shiftr addr 24 =? 127.

Definition sm_host_is_loopback (host : string) : bool :=
  if streq host "" then false else
  if streq host "localhost" || streq host "::1" then true else
  match inet_pton4 host with Some a => in_loopback a | None => false end.

(** The environment variable and whether a file filled it. *)
Record token_env := mk_token { te_var : option string; te_from_file : bool }.
Definition sm_auth_token_autoload (host : string) (port : Z) (te : token_env) : Z * token_env :=
  let exported := match nonempty_s (te_var te) with Some _ => negb (te_from_file te) | None => false end in
  if exported || negb (sm_host_is_loopback host) then (0, te) else
  match sm_auth_token_find 512 "tcp" port with
  | None => (0, if te_from_file te then mk_token None false else te)
  | Some path =>
      match sm_read_owner_secret_file path 256 with
      | None => (-1, te)
      | Some tok => if he_setenv "SMOLMUX_AUTH_TOKEN" tok then (1, mk_token (Some tok) true) else (-1, te)
      end
  end.
End ports.

(** ** Socket paths fit *)

Lemma slen_app a b : slen (a +:+ b) = slen a + slen b.
Proof. unfold slen. induction a as [|c a IH]; [done|]. simpl. lia. Qed.
Lemma slen_nonneg a : 0 <= slen a.
Proof. unfold slen. lia. Qed.
Lemma snprintf_s_fits n s : slen s < n -> snprintf_s (Z.to_nat n) s = s.
Proof. intros Hs. apply snprintf_s_short. unfold slen in Hs. lia. Qed.
Lemma substring_length n s : (n <= String.length s)%nat -> String.length (String.substring 0 n s) = n.
Proof.
  revert n. induction s as [|c s IH]; intros [|n] Hn; simpl in *; try lia. by rewrite IH by lia.
Qed.

(** The readable name if it fits, else a prefix and the hash. *)
Lemma format_smolmux_sock_spec out_len dir tag max :
  dir <> "" -> tag <> "" -> slen dir + 24 <= max -> max < out_len ->
  exists mid, format_smolmux_sock out_len dir tag max = Some (dir +:+ "/smolmux-" +:+ mid +:+ ".sock") /\
    slen (dir +:+ "/smolmux-" +:+ mid +:+ ".sock") <= max /\
    (mid = tag \/ max < slen (dir +:+ "/smolmux-" +:+ tag +:+ ".sock") /\
       exists n, mid = String.substring 0 n tag +:+ "-" +:+ hex8 (fnv1a32 (bytes_of_string tag))).
Proof.
  intros Hd Ht Hm Ho. pose proof (slen_nonneg dir). pose proof (slen_nonneg tag). unfold format_smolmux_sock.
  destruct (Z.eqb_spec out_len 0); [lia|].
  destruct (streq dir "") eqn:E1; [by apply streq_spec in E1|].
  destruct (streq tag "") eqn:E2; [by apply streq_spec in E2|]. cbn [orb]. unfold snprintf_n.
  set (full := dir +:+ "/smolmux-" +:+ tag +:+ ".sock").
  destruct (Z.leb_spec (slen full) max) as [Hl|Hl].
  { exists tag. rewrite (proj2 (Z.ltb_lt (slen full) out_len)), snprintf_s_fits by lia. auto. }
  rewrite andb_false_r. set (h := fnv1a32 _). cbv zeta.
  assert (slen full = slen dir + 9 + slen tag + 5) as Hf by (unfold full; rewrite !slen_app; change (slen "/smolmux-") with 9; change (slen ".sock") with 5; lia).
  destruct (Z.leb_spec out_len (slen dir + 9 + 1 + 8 + 5)); [lia|].
  destruct (Z.ltb_spec max (slen dir + 9 + 1 + 8 + 5)); [lia|]. cbn [orb].
  replace (max - (slen dir + 9 + 1 + 8 + 5) + (slen dir + 9 + 1 + 8 + 5)) with max by lia.
  destruct (Z.leb_spec out_len max); [lia|].
  destruct (Z.ltb_spec (max - (slen dir + 9 + 1 + 8 + 5)) 1); [lia|]. rewrite Z.min_r by lia.
  set (k := Z.to_nat (max - (slen dir + 9 + 1 + 8 + 5))).
  exists (String.substring 0 k tag +:+ "-" +:+ hex8 h).
  set (out := dir +:+ "/smolmux-" +:+ String.substring 0 k tag +:+ "-" +:+ hex8 h +:+ ".sock").
  assert (dir +:+ "/smolmux-" +:+ (String.substring 0 k tag +:+ "-" +:+ hex8 h) +:+ ".sock" = out) as ->
    by (unfold out; by rewrite <- !str_app_assoc).
  assert (slen out = max) as Hout.
  { assert (slen (String.substring 0 k tag) = Z.of_nat k) as Hk.
    { unfold slen. rewrite substring_length; [done|]. unfold k, slen in *. lia. }
    unfold out. rewrite !slen_app, Hk. change (slen "/smolmux-") with 9. change (slen "-") with 1.
    change (slen (hex8 h)) with 8. change (slen ".sock") with 5. unfold k. lia. }
  destruct (Z.leb_spec out_len (slen out)); [lia|]. destruct (Z.ltb_spec max (slen out)); [lia|]. cbn [orb].
  rewrite snprintf_s_fits by lia. split_and!; [done|lia|]. right. split; [done|]. by exists k.
Qed.

Lemma take_while_prefix f l : take_while f l `prefix_of` l.
Proof. exists (skip_while f l). by rewrite take_skip_while. Qed.
Lemma cstr_prefix l : cstr l `prefix_of` l.
Proof.
  induction l as [|c l IH]; [done|]. cbn [cstr]. destruct (c =? 0); [apply prefix_nil|]. by apply prefix_cons.
Qed.
Lemma fgets_prefix n l line rest : fgets n l = Some (line, rest) -> line `prefix_of` l.
Proof.
  unfold fgets. destruct l as [|c l]; [done|]. cbv zeta. intros [= <- _]. eexists. symmetry. apply take_drop.
Qed.

Section holds.
Context {H : HostEnv}.

Lemma path_basename_nonempty path : path_basename path <> "".
Proof.
  unfold path_basename. destruct (streq path ""); [done|]. cbv zeta.
  destruct (zlen (basename (bytes_of_string path)) =? 0) eqn:E; [done|]. apply Z.eqb_neq in E.
  destruct (basename (bytes_of_string path)) as [|c b]; [done|]. done.
Qed.
Lemma sock_runtime_dir_nonempty : sock_runtime_dir <> "".
Proof.
  unfold sock_runtime_dir, nonempty_s. destruct (he_env "XDG_RUNTIME_DIR") as [s|]; [|done].
  destruct (streq s "") eqn:E; [done|]. intros Hs. simpl in Hs. subst s. done.
Qed.

(** A broker always gets a socket path that fits.  For every device and
    every runtime directory of at most 67 bytes a path is derived; it is the
    readable one if that fits and else ends in a prefix of the name and its
    hash; and in the 108 bytes of an address it leaves room for the temporary
    name the broker binds first, which is up to 16 bytes longer. *)
Theorem socket_path_fits dev ext :
  dev <> "" -> slen sock_runtime_dir <= 67 -> slen ext <= SM_SOCK_BIND_TMP_EXTRA ->
  exists mid, sm_derive_socket_path SM_SOCK_PATH_MAX dev = Some (sock_runtime_dir +:+ "/smolmux-" +:+ mid +:+ ".sock") /\
    slen ((sock_runtime_dir +:+ "/smolmux-" +:+ mid +:+ ".sock") +:+ ext) < SM_SOCK_PATH_MAX /\
    (mid = path_basename dev \/
     exists n, mid = String.substring 0 n (path_basename dev) +:+ "-" +:+
                     hex8 (fnv1a32 (bytes_of_string (path_basename dev)))).
Proof.
  unfold SM_SOCK_BIND_TMP_EXTRA, SM_SOCK_PATH_MAX. intros Hd Hlen Hext. unfold sm_derive_socket_path.
  destruct (streq dev "") eqn:E; [by apply streq_spec in E|].
  destruct (format_smolmux_sock_spec 108 sock_runtime_dir (path_basename dev) SM_SOCK_FINAL_MAX
    sock_runtime_dir_nonempty (path_basename_nonempty dev)) as (mid & Hf & Hl & Hm);
    [unfold SM_SOCK_FINAL_MAX, SM_SOCK_PATH_MAX, SM_SOCK_BIND_TMP_EXTRA; lia..|].
  exists mid. split; [done|]. split; [|destruct Hm as [->|[_ Hn]]; [by left|by right]].
  rewrite slen_app. unfold SM_SOCK_FINAL_MAX, SM_SOCK_PATH_MAX, SM_SOCK_BIND_TMP_EXTRA in Hl. lia.
Qed.

(** ** Tokens *)

Definition token_char (c : Z) : bool := negb (is_crlf c) && negb (c =? 0).

Lemma cstr_token t k : forallb token_char t = true -> cstr (t ++ k) = t ++ cstr k.
Proof.
  intros Ht. induction t as [|c t IH]; [done|]. simpl in *. apply andb_true_iff in Ht as [Hc Ht].
  unfold token_char in Hc. destruct (c =? 0); [by rewrite andb_false_r in Hc|]. by rewrite IH.
Qed.

(** What [fgets] and the check behind it make of a line. *)
Lemma secret_line t eol n :
  forallb token_char t = true -> zlen t < n -> (eol = [] \/ eol = [10] \/ eol = [13; 10]) -> t <> [] ->
  exists line rest, fgets n (t ++ eol) = Some (line, rest) /\
    take_while (fun c => negb (is_crlf c)) (cstr line) = t /\ extra_byte rest = None.
Proof.
  intros Ht Hn Heol Hne.
  assert (Forall (fun c => negb (c =? 10) = true) t /\ Forall (fun c => negb (is_crlf c) = true) t) as [H1 H2].
  { rewrite forallb_forall in Ht. split; apply Forall_forall; intros x Hx%list_elem_of_In; specialize (Ht x Hx);
      unfold token_char, is_crlf in *; destruct (x =? 10), (x =? 13), (x =? 0); done. }
  unfold fgets. destruct (t ++ eol) as [|c0 l0] eqn:Et; [by destruct t|]. rewrite <- Et. clear Et c0 l0.
  assert (forall e, (e = [] \/ e = [13]) -> take_while (fun c => negb (is_crlf c)) (cstr (t ++ e)) = t) as Hcut.
  { intros e He. rewrite cstr_token by done. by destruct (take_while_all _ t (cstr e) H2); destruct He as [->| ->]. }
  pose proof (zlen_nonneg t).
  destruct Heol as [->|[->| ->]].
  - rewrite app_nil_r. destruct (take_while_all _ t [] H1 Logic.I) as [Hl _]. rewrite app_nil_r in Hl. rewrite Hl.
    rewrite Z.ltb_irrefl. rewrite Z.min_r by lia. rewrite ztake_all, zdrop_all by lia.
    eexists _, _. split; [done|]. split; [|done]. specialize (Hcut [] ltac:(by left)). by rewrite app_nil_r in Hcut.
  - destruct (take_while_all _ t [10] H1 eq_refl) as [-> _].
    destruct (Z.ltb_spec (zlen t) (zlen (t ++ [10]))); [|zlia].
    destruct (Z.le_gt_cases (zlen t + 1) (n - 1)).
    + rewrite Z.min_r by lia. rewrite ztake_all, zdrop_all by zlia. eexists _, _. split; [done|]. split; [|done].
      rewrite cstr_token by done. by destruct (take_while_all _ t (cstr [10]) H2 eq_refl).
    + rewrite Z.min_l by lia. replace (n - 1) with (zlen t) by lia.
      rewrite ztake_app_le, ztake_all, zdrop_app_ge by lia. rewrite Z.sub_diag. eexists _, _. split; [done|].
      split; [|done]. specialize (Hcut [] ltac:(by left)). by rewrite app_nil_r in Hcut.
  - assert (take_while (fun c => negb (c =? 10)) (t ++ [13; 10]) = t ++ [13]) as ->.
    { change [13; 10] with ([13] ++ [10]). rewrite app_assoc.
      by destruct (take_while_all (fun c => negb (c =? 10)) (t ++ [13]) [10]); [apply Forall_app; split; [done|by repeat constructor]|done|]. }
    destruct (Z.ltb_spec (zlen (t ++ [13])) (zlen (t ++ [13; 10]))); [|zlia].
    destruct (Z.le_gt_cases (zlen t + 2) (n - 1)); [|destruct (Z.le_gt_cases (zlen t + 1) (n - 1))].
    + rewrite Z.min_r by zlia. rewrite ztake_all, zdrop_all by zlia. eexists _, _. split; [done|]. split; [|done].
      rewrite cstr_token by done. by destruct (take_while_all _ t (cstr [13; 10]) H2 eq_refl).
    + rewrite Z.min_l by zlia. replace (n - 1) with (zlen t + 1) by lia.
      change [13; 10] with ([13] ++ [10]). rewrite app_assoc, ztake_app_le, ztake_all, zdrop_app_ge by zlia.
      replace (zlen t + 1 - zlen (t ++ [13])) with 0 by zlia. eexists _, _. split; [done|].
      split; [|done]. apply Hcut. by right.
    + rewrite Z.min_l by zlia. replace (n - 1) with (zlen t) by lia.
      rewrite ztake_app_le, ztake_all, zdrop_app_ge by lia. rewrite Z.sub_diag. eexists _, _. split; [done|].
      split; [|done]. specialize (Hcut [] ltac:(by left)). by rewrite app_nil_r in Hcut.
Qed.

(** A token that was written is read back.  Whatever token without line
    ends of at most 255 bytes a broker writes into its file, a client of the
    same user that finds the file reads exactly that token. *)
Theorem auth_token_roundtrip st chmod_ok trunc_ok w1 w2 tok old content path st' :
  sm_auth_token_write (Some st) chmod_ok trunc_ok w1 w2 tok old = (0, content) ->
  forallb token_char (bytes_of_string tok) = true -> slen tok < 256 ->
  path <> "" -> he_open path = Some (st', content) -> private_file st' = true ->
  sm_read_owner_secret_file path 256 = Some tok.
Proof.
  unfold sm_auth_token_write. destruct (streq tok "") eqn:Et; [done|]. destruct (negb _); [done|].
  destruct chmod_ok; [|done]. destruct trunc_ok; [|done]. cbn [negb]. destruct (w1 =? _); [|done]. destruct (w2 =? 1); [|done].
  cbn [negb]. intros [= <-] Hc Hl Hp Ho Hst. unfold sm_read_owner_secret_file.
  destruct (streq path "") eqn:Ep; [by apply streq_spec in Ep|]. cbn [orb]. change (256 <? 2) with false. cbv iota.
  rewrite Ho, Hst. cbn [negb].
  assert (bytes_of_string tok <> []) as Hne by (by destruct tok).
  destruct (secret_line (bytes_of_string tok) [10] 256 Hc) as (line & rest & -> & -> & ->); [|auto|done|].
  { unfold zlen, slen in *. rewrite length_bytes_of_string. done. }
  destruct (Z.eqb_spec (zlen (bytes_of_string tok)) 0) as [E%zlen_zero|]; [done|].
  by rewrite string_of_bytes_of_string.
Qed.

Definition owner_only (st : file_stat) : Prop :=
  st_type st = FReg /\ st_uid st = he_euid /\ st_nlink st = 1 /\ Z.land (st_mode st) 511 = 384.
Lemma private_owner_only st : private_file st = true -> owner_only st.
Proof.
  unfold private_file, owner_only. rewrite !andb_true_iff, !Z.eqb_eq, bool_decide_eq_true. tauto.
Qed.

(** C28: a token is only taken from a private file, and only for this machine.
    When loading changes the variable to a token, the host is a loopback
    address, the user has not exported a token of his own, and the token is
    the line of a regular file at one of the two agreed places that belongs to
    the user, has a single name and mode 0600, and was not reached through a
    link. *)
Theorem autoload_private host port te rc te' tok :
  sm_auth_token_autoload host port te = (rc, te') -> te_var te' = Some tok -> te' <> te ->
  sm_host_is_loopback host = true /\ (nonempty_s (te_var te) = None \/ te_from_file te = true) /\
  exists dir st content line,
    In dir [sm_auth_token_dir; "/tmp"] /\ he_open (token_name dir "tcp" port) = Some (st, content) /\
    owner_only st /\ line `prefix_of` content /\ tok = string_of_bytes line.
Proof.
  unfold sm_auth_token_autoload. intros Hl Hv Hne.
  destruct (sm_host_is_loopback host); [|rewrite orb_true_r in Hl; by injection Hl as _ <-].
  rewrite orb_false_r in Hl.
  destruct (match nonempty_s (te_var te) with Some _ => negb (te_from_file te) | None => false end) eqn:Ee;
    [by injection Hl as _ <-|].
  assert (nonempty_s (te_var te) = None \/ te_from_file te = true) as Hx.
  { destruct (nonempty_s (te_var te)); [right; by apply negb_false_iff|by left]. }
  destruct (sm_auth_token_find 512 "tcp" port) as [path|] eqn:Ef.
  2: { injection Hl as _ <-. destruct (te_from_file te); [done|done]. }
  destruct (sm_read_owner_secret_file path 256) as [tok'|] eqn:Er; [|by injection Hl as _ <-].
  destruct (he_setenv _ _); [|by injection Hl as _ <-].
  injection Hl as _ <-. injection Hv as ->. split; [done|]. split; [done|].
  apply List.find_some in Ef as [Hin _]. apply in_map_iff in Hin as (dir & <- & Hd).
  unfold sm_read_owner_secret_file in Er. destruct (_ || _); [done|].
  destruct (he_open (token_name dir "tcp" port)) as [[st content]|] eqn:Eo; [|done]. exists dir, st, content.
  destruct (private_file st) eqn:Ep; [|done]. cbn [negb] in Er.
  destruct (fgets 256 content) as [[line rest]|] eqn:Eg; [|done]. destruct (_ =? 0); [done|].
  destruct (extra_byte rest); [done|]. injection Er as <-.
  exists (take_while (fun c => negb (is_crlf c)) (cstr line)).
  split_and!; [|done|by apply private_owner_only| |done].
  - unfold sm_auth_token_dirs in Hd. destruct (streq _ _); [|done]. destruct Hd as [<-|[]]. right. by left.
  - etrans; [apply take_while_prefix|]. etrans; [apply cstr_prefix|]. by eapply fgets_prefix.
Qed.
End holds.

(** ** A host *)

Definition demo_token : string := "0123456789abcdef".
Definition demo_private : file_stat := mk_stat FReg 1000 1 384.
(** The user 1000 with a runtime directory, and a broker's token below /tmp. *)
Definition demo_host : HostEnv := {|
  he_setenv _ _ := true; he_env v := if streq v "XDG_RUNTIME_DIR" then Some "/run/user/1000" else None;
  he_euid := 1000;
  he_stat _ := None;
  he_lstat p := streq p "/tmp/smolmux-tcp-5555.token";
  he_open p := if streq p "/tmp/smolmux-tcp-5555.token"
               then Some (demo_private, bytes_of_string demo_token ++ [10]) else None;
  he_readable _ := false; he_file _ := None; he_glob _ := []; he_realpath _ := None;
  he_connect _ := None; he_resolve _ _ := None |}.
#[local] Existing Instance demo_host.

(** A readable name, and one that is too long. *)
Example demo_socket_paths :
  sm_derive_socket_path 108 "/dev/ttyUSB0" = Some "/run/user/1000/smolmux-ttyUSB0.sock" /\
  sm_derive_socket_path 108
    "/dev/serial/by-id/usb-Silicon_Labs_CP2102N_USB_to_UART_Bridge_Controller_0123456789abcdef-if00-port0" =
    Some "/run/user/1000/smolmux-usb-Silicon_Labs_CP2102N_USB_to_UART_Bridge_Controller-4141ed35.sock".
Proof. by vm_compute. Qed.

Lemma socket_path_fits_witness :
  exists mid, sm_derive_socket_path 108 "/dev/ttyUSB0" = Some ("/run/user/1000" +:+ "/smolmux-" +:+ mid +:+ ".sock") /\
    slen (("/run/user/1000" +:+ "/smolmux-" +:+ mid +:+ ".sock") +:+ ".4194304.tmp") < 108.
Proof.
  destruct (socket_path_fits "/dev/ttyUSB0" ".4194304.tmp") as (mid & H1 & H2 & _); [done|vm_compute; congruence..|].
  exists mid. split; [exact H1|exact H2].
Defined.

Lemma auth_token_roundtrip_witness :
  sm_read_owner_secret_file "/tmp/smolmux-tcp-5555.token" 256 = Some demo_token.
Proof.
  apply (auth_token_roundtrip demo_private true true 16 1 demo_token [] (bytes_of_string demo_token ++ [10])
           "/tmp/smolmux-tcp-5555.token" demo_private); done.
Defined.

Lemma autoload_private_witness :
  sm_auth_token_autoload "127.0.0.1" 5555 (mk_token None false) = (1, mk_token (Some demo_token) true) /\
  exists dir st content line,
    In dir [sm_auth_token_dir; "/tmp"] /\ he_open (token_name dir "tcp" 5555) = Some (st, content) /\
    owner_only st /\ line `prefix_of` content /\ demo_token = string_of_bytes line.
Proof.
  split; [by vm_compute|].
  apply (autoload_private "127.0.0.1" 5555 (mk_token None false) 1 (mk_token (Some demo_token) true) demo_token);
    [by vm_compute|done|done].
Defined.

(** * The processes behind a socket ([src/util/sock_util.c])

    Which MCP servers hold a connection to a broker: the kernel's list of
    sockets, read from the bytes of its answers, and the process table.  Both
    answer through [PeerEnv]. *)

#[local] Open Scope string_scope.
#[local] Open Scope list_scope.
#[local] Open Scope Z_scope.

(** ** Attributes *)

(** A little-endian number. *)
Definition le (l : bytes) : Z := fold_right (fun c n => c + 256 * n) 0 l.
Definition align4 (n : Z) : Z := (n + 3) / 4 * 4.
Definition le_at (off n : Z) (l : bytes) : Z := le (ztake n (zdrop off l)).

Definition nla_ok (a : bytes) (rem : Z) : bool :=
  (4 <=? rem) && (4 <=? le_at 0 2 a) && (le_at 0 2 a <=? rem).
(** What follows, and the length left, which is unsigned. *)
Definition nla_next (a : bytes) (rem : Z) : bytes * Z :=
  let tot := align4 (le_at 0 2 a) in (zdrop tot a, u32 (rem - tot)).

(** The name and the peer among the attributes: None when the walk leaves the
    message, which it does when the padding of the last attribute is missing. *)
Fixpoint nla_walk (fuel : nat) (a : bytes) (rem : Z) (name : string) (peer : Z) : option (string * Z) :=
  if zlen a <? rem then None
  else
    match fuel with
    | O => Some (name, peer)
    | S f =>
        if negb (nla_ok a rem) then Some (name, peer)
        else
          let typ := Z.land (le_at 2 2 a) 16383 in
          let plen := le_at 0 2 a - 4 in
          let payload := ztake plen (zdrop 4 a) in
          let name := if (typ =? 0) && (0 <? plen) then string_of_bytes (cstr (ztake 107 payload)) else name in
          let peer := if (typ =? 2) && (4 <=? plen) then le_at 0 4 payload else peer in
          let '(a, rem) := nla_next a rem in
          nla_walk f a rem name peer
    end.

(** ** The list of sockets *)

(** The messages of one datagram: the sockets, and whether the list is done
    ([None]: an error). *)
Fixpoint nl_messages (fuel : nat) (buf : bytes) (rem : Z) : option (list (Z * Z * string) * bool) :=
  match fuel with
  | O => Some ([], false)
  | S f =>
      let len := le_at 0 4 buf in
      let typ := le_at 4 2 buf in
      if negb ((16 <=? rem) && (16 <=? len) && (len <=? rem)) then Some ([], false)
      else if typ =? 3 then Some ([], true)
      else if (typ =? 2) || (len <? 32) then None
      else
        '(name, peer) ← nla_walk (length buf) (ztake (len - 32) (zdrop 32 buf)) (len - 32) "" 0;
        '(socks, done) ← nl_messages f (zdrop (align4 len) buf) (rem - align4 len);
        Some ((le_at 20 4 buf, peer, name) :: socks, done)
  end.

(** One datagram after the other; the list must be brought to its end. *)
Fixpoint unix_diag_foreach (datagrams : list bytes) : option (list (Z * Z * string)) :=
  match datagrams with
  | [] | [] :: _ => None
  | d :: datagrams' =>
      let d := ztake 8192 d in
      '(socks, done) ← nl_messages (length d) d (zlen d);
      if done : bool then Some socks else more ← unix_diag_foreach datagrams'; Some (socks ++ more)
  end.

(** ** Processes *)

(** [pe_diag] are the datagrams of the two dumps. *)
Class PeerEnv := {
  pe_self : Z;
  pe_diag : option (list bytes * list bytes);
  pe_proc : option (list string);
  pe_comm : Z -> option bytes;
  pe_fds : Z -> option (list (string * option bytes)) }.

Section peers.
Context {HE : HostEnv} {PE : PeerEnv}.

Definition comm_is_mcp (pid : Z) : bool :=
  match pe_comm pid ≫= fgets 64 with
  | Some (line, _) =>
      let comm := cstr line in
      sm_client_name_is_mcp (string_of_bytes
        (match last comm with Some 10 => ztake (zlen comm - 1) comm | _ => comm end))
  | None => false
  end.

(** [sscanf(dest, "socket:[%lu]")]. *)
Definition socket_link (dest : bytes) : option Z :=
  let p := bytes_of_string "socket:[" in
  if negb (starts_with p dest) then None
  else match take_while isdigit (skip_while isspace (zdrop (zlen p) dest)) with
       | [] => None
       | ds => Some (Z.min 18446744073709551615 (digits_value ds))
       end.

Definition pid_holds_any_inode (pid : Z) (inos : list Z) : bool :=
  existsb (fun '(name, dest) =>
    negb (String.prefix "." name) &&
    match dest ≫= (fun d => socket_link (cstr (ztake 63 d))) with Some ino => ino_in inos ino | None => false end)
    (default [] (pe_fds pid)).

Definition inodes_for_path (path : string) : option (list Z) :=
  '(d1, d2) ← pe_diag;
  first ← unix_diag_foreach d1;
  second ← unix_diag_foreach d2;
  Some (unix_diag_inodes_for_path path 256 first second).

Definition peer_pid (skip : Z) (inos : list Z) (entry : string) : option Z :=
  match bytes_of_string entry with
  | c :: _ =>
      let pid := atoi (bytes_of_string entry) in
      if isdigit c && (0 <? pid) && negb (pid =? skip) && negb (pid =? pe_self) && comm_is_mcp pid &&
         pid_holds_any_inode pid inos
      then Some pid else None
  | [] => None
  end.

(** None: the peers cannot be listed. *)
Definition sm_unix_mcp_peer_pids (path : string) (skip : Z) (max : nat) : option (list Z) :=
  match he_stat path with
  | None => Some []
  | Some _ =>
      inos ← inodes_for_path path;
      match inos with
      | [] => Some []
      | _ => entries ← pe_proc; Some (take max (omap (peer_pid skip inos) entries))
      end
  end.
End peers.

(** ** Facts *)

(** An attribute as the kernel writes it: its length, its type, its value,
    padded to four bytes. *)
Definition nla_encode (typ : Z) (payload : bytes) : bytes :=
  let len := 4 + zlen payload in
  [len mod 256; len / 256; typ; 0] ++ payload ++ replicate (Z.to_nat (align4 len - len)) 0.

Example nla_examples :
  let a := nla_encode 0 (bytes_of_string "/run/a.sock") ++ nla_encode 2 [7; 1; 0; 0] in
  nla_walk 9 a (zlen a) "" 0 = Some ("/run/a.sock", 263) /\
  (* without its padding the last attribute takes the walk out of the message *)
  nla_walk 9 [5; 0; 1; 0; 9] 5 "" 0 = None.
Proof. vm_compute. done. Qed.

Section facts.
Context {HE : HostEnv} {PE : PeerEnv}.

(** Whoever is listed is another process than the broker and the program, has
    the name of an MCP server and holds one of the sockets. *)
Lemma peer_pids_sound path skip max pids pid :
  sm_unix_mcp_peer_pids path skip max = Some pids -> In pid pids ->
  0 < pid /\ pid <> skip /\ pid <> pe_self /\ comm_is_mcp pid = true /\
  exists inos, inodes_for_path path = Some inos /\ pid_holds_any_inode pid inos = true.
Proof.
  unfold sm_unix_mcp_peer_pids. destruct (he_stat path); [|by intros [= <-]].
  destruct (inodes_for_path path) as [inos|]; [|done]. simpl. destruct inos as [|i inos]; [by intros [= <-]|].
  destruct pe_proc as [entries|]; [|done]. simpl. intros [= <-] Hin.
  assert (In pid (omap (peer_pid skip (i :: inos)) entries)) as Hp.
  { rewrite <- (take_drop max (omap _ entries)). apply in_app_iff. by left. }
  apply list_elem_of_In, list_elem_of_omap in Hp as (e & _ & He).
  unfold peer_pid in He. destruct (bytes_of_string e) as [|c r]; [done|].
  destruct (isdigit c && _ && _ && _ && _ && _) eqn:Ec; [|done]. injection He as <-.
  rewrite !andb_true_iff, !negb_true_iff, !Z.eqb_neq, Z.ltb_lt in Ec. destruct Ec as [[[[[_ ?] ?] ?] ?] ?].
  split_and!; try done. by exists (i :: inos).
Qed.

(** At most the given number are listed. *)
Lemma peer_pids_bound path skip max pids :
  sm_unix_mcp_peer_pids path skip max = Some pids -> (length pids <= max)%nat.
Proof.
  unfold sm_unix_mcp_peer_pids. destruct (he_stat path); [|by intros [= <-]; simpl; lia].
  destruct (inodes_for_path path) as [inos|]; [|done]. simpl. destruct inos as [|i inos]; [by intros [= <-]; simpl; lia|].
  destruct pe_proc as [entries|]; [|done]. simpl. intros [= <-]. rewrite length_take. lia.
Qed.
End facts.
