(* ===== verification/Profiles.v ===== *)
(** * Profiles and manifests ([src/device_profile.c], [src/gdb_profile.c],
      [src/board_manifest.c], [src/util/profile_resolve.c])

    Files of JSON that describe a device, a debug target or a board.  Arrays
    of fixed size are strings and lists cut where the code cuts them; whether
    the [n]-th slot of a growing array can be had is an argument. *)
From S2P Require Import Prelude Cstr Json Regex BootStage Anomaly Effects BrokerState McpResults McpTools.
From S2P Require Import HostPaths.

#[local] Open Scope string_scope.
#[local] Open Scope list_scope.
#[local] Open Scope Z_scope.
#[local] Open Scope json_scope.

(** ** Reading a member *)

(** The text of a member into an array of [n] bytes, if there is one. *)
Definition copy_str (n : nat) (obj : json) (key : string) (old : string) : string :=
  match get_item obj key with Some (JStr s) => snprintf_s n s | _ => old end.
Definition copy_int (obj : json) (key : string) (old : Z) : Z :=
  match get_item obj key with Some (JNum d) => valueint d | _ => old end.
(** The elements of an array; of an object, its members' values. *)
Definition each (j : option json) : list json :=
  match j with Some (JArr l) => l | Some (JObj l) => map snd l | _ => [] end.

(** Up to [cap] of what [f] makes of the elements: an element it makes nothing
    of is passed over; a slot that cannot be had ends the loop. *)
Fixpoint fill {A} (f : json -> option A) (ok : nat -> bool) (cap : nat) (acc : list A) (items : list json) : list A :=
  match items with
  | [] => acc
  | x :: items' =>
      match f x with
      | None => fill f ok cap acc items'
      | Some a => if (cap <=? length acc)%nat || negb (ok (length acc)) then acc
                  else fill f ok cap (acc ++ [a]) items'
      end
  end.

(** A file of at most [max] bytes as a string; [None] when it cannot be read. *)
Definition file_text (max : Z) (file : option bytes) : option string :=
  match file with
  | Some b => if max <? zlen b then None else Some (string_of_bytes (cstr b))
  | None => None
  end.

(** ** Device profiles *)

Record device_profile := mk_dprofile {
  dp_base : sm_device_profile; dp_boot_banner : string;
  dp_commands : list (string * string); dp_anomalies : list (string * string * string);
  dp_boot_stages : list (string * string); dp_boot_stall_timeout_ms : Z }.

Definition SM_PROFILE_MAX_COMMANDS : nat := 64.
Definition SM_PROFILE_MAX_ANOMALY_PATTERNS : nat := 64.
Definition SM_PROFILE_MAX_BOOT_STAGES : nat := 32.
Definition SM_MAX_PROFILE_FILE_BYTES : Z := 1048576.
Definition SM_PROFILE_DEFAULT_PROMPT : string := "\$[[:space:]]*$|#[[:space:]]*$|>[[:space:]]*$".

Definition sm_profile_init_default : device_profile :=
  mk_dprofile (mk_profile "generic" "unknown" "Generic serial device" SM_PROFILE_DEFAULT_PROMPT "" "prompt" 5000)
    "" [] [] [] 0.

(** The prefix is cleared when a control character other than CR and LF is in
    it. *)
Definition prefix_char (c : Z) : bool := (c =? 13) || (c =? 10) || negb ((c <? 32) || (c =? 127)).
Definition check_prefix (s : string) : string := if forallb prefix_char (bytes_of_string s) then s else "".

(** Every element takes a slot before it is looked at. *)
Fixpoint parse_commands (ok : nat -> bool) (acc : list (string * string)) (items : list json) : list (string * string) :=
  match items with
  | [] => acc
  | x :: items' =>
      if (SM_PROFILE_MAX_COMMANDS <=? length acc)%nat || negb (ok (length acc)) then acc else
      parse_commands ok
        (match x with
         | JStr s => acc ++ [(snprintf_s 256 s, "")]
         | JObj _ =>
             match sm_json_get_string x "cmd" with
             | Some c => acc ++ [(snprintf_s 256 c, copy_str 256 x "description" "")]
             | None => acc
             end
         | _ => acc
         end) items'
  end.
Definition parse_anomaly (x : json) : option (string * string * string) :=
  match sm_json_get_string x "name", sm_json_get_string x "pattern" with
  | Some n, Some p => Some (snprintf_s 64 n, snprintf_s 256 p, copy_str 16 x "severity" "warning")
  | _, _ => None
  end.
Definition parse_boot_stage (x : json) : option (string * string) :=
  match sm_json_get_string x "name", sm_json_get_string x "pattern" with
  | Some n, Some p => Some (snprintf_s 64 n, snprintf_s 256 p)
  | _, _ => None
  end.

Definition array_item (root : json) (key : string) : option (list json) :=
  match get_item root key with Some (JArr l) => Some l | _ => None end.

Definition parse_profile_json (ok : nat -> bool) (root : json) (p : device_profile) : device_profile :=
  let b := dp_base p in
  let anomalies := match get_item root "custom_anomaly_patterns" with
                   | Some (JArr l) => Some l | Some _ => None | None => array_item root "anomaly_patterns" end in
  {| dp_base := {|
       pr_name := copy_str 64 root "name" (pr_name b);
       pr_device_type := copy_str 64 root "device_type" (pr_device_type b);
       pr_description := copy_str 256 root "description" (pr_description b);
       pr_prompt_pattern := copy_str 256 root "prompt_pattern" (pr_prompt_pattern b);
       pr_command_prefix := match get_item root "command_prefix" with
                            | Some (JStr s) => check_prefix (snprintf_s 64 s) | _ => pr_command_prefix b end;
       pr_response_mode := copy_str 16 root "response_mode" (pr_response_mode b);
       pr_default_timeout_ms := copy_int root "default_timeout_ms" (pr_default_timeout_ms b) |};
     dp_boot_banner := copy_str 256 root "boot_banner" (dp_boot_banner p);
     dp_commands := match array_item root "commands" with
                    | Some l => parse_commands ok (dp_commands p) l | None => dp_commands p end;
     dp_anomalies := match anomalies with
                     | Some l => fill parse_anomaly ok SM_PROFILE_MAX_ANOMALY_PATTERNS (dp_anomalies p) l
                     | None => dp_anomalies p end;
     dp_boot_stages := match array_item root "boot_stages" with
                       | Some l => fill parse_boot_stage ok SM_PROFILE_MAX_BOOT_STAGES (dp_boot_stages p) l
                       | None => dp_boot_stages p end;
     dp_boot_stall_timeout_ms := copy_int root "boot_stall_timeout_ms" (dp_boot_stall_timeout_ms p) |}.

Section load.
Context {J : JsonText} {R : RegexLib}.

(** The result, and the profile: the defaults when the text is no JSON. *)
Definition sm_profile_from_json (ok : nat -> bool) (text : string) : Z * device_profile :=
  match cJSON_Parse text with
  | None => (-1, sm_profile_init_default)
  | Some root => (0, parse_profile_json ok root sm_profile_init_default)
  end.
Definition sm_profile_load (ok : nat -> bool) (file : option bytes) (p : device_profile) : Z * device_profile :=
  match file with
  | None => (-1, p)
  | Some b =>
      if (zlen b =? 0) || (SM_MAX_PROFILE_FILE_BYTES <? zlen b) then (-1, p)
      else sm_profile_from_json ok (string_of_bytes (cstr b))
  end.

Definition sm_profile_apply_boot (ok : bool) (p : device_profile) (t : sm_boot_tracker) : sm_boot_tracker :=
  fold_left (fun t '(name, pattern) => snd (sm_boot_add_stage ok t name pattern)) (dp_boot_stages p)
    (sm_boot_set_stall_timeout t (dp_boot_stall_timeout_ms p)).
Definition sm_profile_apply_anomaly (ok : bool) (p : device_profile) (det : sm_anomaly_detector) : sm_anomaly_detector :=
  fold_left (fun det '(name, pattern, severity) =>
    snd (sm_anomaly_add_pattern ok det name pattern (Some severity))) (dp_anomalies p) det.

(** The lists are given back; the texts stay. *)
Definition sm_profile_destroy (p : device_profile) : device_profile :=
  {| p with dp_commands := []; dp_anomalies := []; dp_boot_stages := [] |}.

(** ** Targets of a debugger *)

Record sm_gdb_profile := mk_gprofile {
  gp_name : string; gp_description : string; gp_arch : string; gp_gdb_path : string; gp_rtos : string;
  gp_init_commands : list string; gp_registers : list string;
  gp_fault_registers : list (string * string); gp_peripherals : list (string * string);
  gp_rtos_commands : list string }.

Definition SM_GDB_PROFILE_MAX_REGISTERS : nat := 64.
Definition SM_GDB_PROFILE_MAX_FAULT_REGS : nat := 16.
Definition SM_GDB_PROFILE_MAX_PERIPHERALS : nat := 64.
Definition SM_GDB_PROFILE_MAX_INIT_CMDS : nat := 16.
Definition SM_GDB_PROFILE_MAX_RTOS_CMDS : nat := 16.
Definition SM_GDB_REG_NAME_LEN : nat := 16.
Definition SM_GDB_ADDR_LEN : nat := 24.
Definition SM_GDB_PERIPH_NAME_LEN : nat := 32.
Definition SM_GDB_CMD_LEN : nat := 128.

Definition DEFAULT_REGISTERS : list string := ["r0"; "r1"; "r2"; "r3"; "r12"; "sp"; "lr"; "pc"; "xpsr"].
Definition DEFAULT_FAULT_REGS : list (string * string) :=
  [("CFSR", "0xE000ED28"); ("HFSR", "0xE000ED2C"); ("MMFAR", "0xE000ED34"); ("BFAR", "0xE000ED38")].
Definition sm_gdb_profile_init_default : sm_gdb_profile :=
  mk_gprofile "generic" "Generic ARM Cortex-M target" "arm" "arm-none-eabi-gdb" "" []
    DEFAULT_REGISTERS DEFAULT_FAULT_REGS [] [].

Definition sm_gdb_profile_peripheral_addr (p : sm_gdb_profile) (name : string) : option string :=
  snd <$> List.find (fun q => streq (fst q) name) (gp_peripherals p).

Definition any_slot (n : nat) : bool := true.
Definition str_item (n : nat) (x : json) : option string :=
  match x with JStr s => Some (snprintf_s n s) | _ => None end.
Definition parse_string_array (width cap : nat) (l : list json) : list string :=
  fill (str_item width) any_slot cap [] l.
Definition fault_item (x : json) : option (string * string) :=
  match x with
  | JObj _ =>
      match sm_json_get_string x "name", sm_json_get_string x "address" with
      | Some n, Some a => Some (snprintf_s SM_GDB_REG_NAME_LEN n, snprintf_s SM_GDB_ADDR_LEN a)
      | _, _ => None
      end
  | _ => None
  end.
(** A member of [peripheral_map]. *)
Fixpoint fill_periphs (cap : nat) (acc : list (string * string)) (ms : list (string * json)) : list (string * string) :=
  match ms with
  | [] => acc
  | (k, JStr a) :: ms' =>
      if (cap <=? length acc)%nat then acc
      else fill_periphs cap (acc ++ [(snprintf_s SM_GDB_PERIPH_NAME_LEN k, snprintf_s SM_GDB_ADDR_LEN a)]) ms'
  | _ :: ms' => fill_periphs cap acc ms'
  end.

(** The loop over fault registers checks the object, then the bound, then the
    members. *)
Fixpoint fill_faults (cap : nat) (acc : list (string * string)) (items : list json) : list (string * string) :=
  match items with
  | [] => acc
  | JObj ms :: items' =>
      if (cap <=? length acc)%nat then acc else
      fill_faults cap (match fault_item (JObj ms) with Some q => acc ++ [q] | None => acc end) items'
  | _ :: items' => fill_faults cap acc items'
  end.

Definition gdb_profile_of_json (root : json) (p : sm_gdb_profile) : sm_gdb_profile :=
  let strings key width cap old :=
    match array_item root key with Some l => parse_string_array width cap l | None => old end in
  {| gp_name := copy_str 64 root "name" (gp_name p);
     gp_description := copy_str 256 root "description" (gp_description p);
     gp_arch := copy_str 16 root "arch" (gp_arch p);
     gp_gdb_path := copy_str 256 root "gdb_path" (gp_gdb_path p);
     gp_rtos := copy_str 32 root "rtos" (gp_rtos p);
     gp_init_commands := strings "gdb_init_commands" SM_GDB_CMD_LEN SM_GDB_PROFILE_MAX_INIT_CMDS (gp_init_commands p);
     gp_registers := strings "important_registers" SM_GDB_REG_NAME_LEN SM_GDB_PROFILE_MAX_REGISTERS (gp_registers p);
     gp_fault_registers := match array_item root "fault_registers" with
       | Some l => fill_faults SM_GDB_PROFILE_MAX_FAULT_REGS [] l | None => gp_fault_registers p end;
     gp_peripherals := match get_item root "peripheral_map" with
       | Some (JObj ms) => fill_periphs SM_GDB_PROFILE_MAX_PERIPHERALS [] ms | _ => gp_peripherals p end;
     gp_rtos_commands := strings "rtos_commands" SM_GDB_CMD_LEN SM_GDB_PROFILE_MAX_RTOS_CMDS (gp_rtos_commands p) |}.
Definition sm_gdb_profile_from_json (text : string) (p : sm_gdb_profile) : Z * sm_gdb_profile :=
  match cJSON_Parse text with None => (-1, p) | Some root => (0, gdb_profile_of_json root p) end.
Definition sm_gdb_profile_load (file : option bytes) (p : sm_gdb_profile) : Z * sm_gdb_profile :=
  match file_text 1048576 file with None => (-1, p) | Some text => sm_gdb_profile_from_json text p end.

Definition sm_gdb_profile_to_json (p : sm_gdb_profile) : json :=
  JObj [] |> add_string "name" (gp_name p) |> add_string "description" (gp_description p)
    |> add_string "arch" (gp_arch p) |> add_string "gdb_path" (gp_gdb_path p) |> add_string "rtos" (gp_rtos p)
    |> add_item "gdb_init_commands" (JArr (map JStr (gp_init_commands p)))
    |> add_item "important_registers" (JArr (map JStr (gp_registers p)))
    |> add_item "fault_registers" (JArr (map (fun '(n, a) =>
         JObj [] |> add_string "name" n |> add_string "address" a) (gp_fault_registers p)))
    |> add_item "peripheral_map" (JObj (map (fun '(n, a) => (n, JStr a)) (gp_peripherals p)))
    |> add_item "rtos_commands" (JArr (map JStr (gp_rtos_commands p))).
End load.

(** ** Boards *)

Record sm_board_wire := mk_wire {
  bw_role : string; bw_link : string; bw_device : string; bw_by_id : string; bw_by_path : string;
  bw_policy : string; bw_baud : Z; bw_gdb_path : string; bw_target : string; bw_profile : string;
  bw_socket : string }.
Record sm_board_manifest := mk_manifest { bm_board : string; bm_wires : list sm_board_wire }.
Definition SM_BOARD_MAX_WIRES : nat := 16.
Definition SM_DEFAULT_BAUD : Z := 115200.

Definition parse_wire (w : json) : sm_board_wire :=
  let dev := get_item w "device" in
  let obj := default JNull dev in
  let keyed := match dev with Some (JObj _) => true | _ => false end in
  let key k n := if keyed then copy_str n obj k "" else "" in
  let by_id := key "by_id" 256%nat in
  let by_path := key "by_path" 256%nat in
  mk_wire (copy_str 32 w "role" "") (copy_str 8 w "link" "")
    (match dev with
     | Some (JStr s) => snprintf_s 256 s
     | _ => if streq by_id "" then by_path else by_id
     end)
    by_id by_path (key "policy" 32%nat) (copy_int w "baud" SM_DEFAULT_BAUD) (copy_str 128 w "gdb_path" "gdb")
    (copy_str 128 w "target" "") (copy_str 256 w "profile" "") (copy_str 108 w "socket" "").

Definition wire_ok (w : sm_board_wire) : bool :=
  negb (streq (bw_role w) "") && (streq (bw_link w) "uart" || streq (bw_link w) "gdb") &&
  negb (streq (bw_link w) "uart" && streq (bw_device w) "").

(** The wires so far and whether all is well. *)
Fixpoint parse_wires (acc : list sm_board_wire) (items : list json) : bool * list sm_board_wire :=
  match items with
  | [] => (true, acc)
  | JObj ms :: items' =>
      if (SM_BOARD_MAX_WIRES <=? length acc)%nat then (true, acc) else
      let w := parse_wire (JObj ms) in
      if wire_ok w then parse_wires (acc ++ [w]) items' else (false, acc)
  | _ :: items' => parse_wires acc items'
  end.

Section boards.
Context {J : JsonText} {H : HostEnv}.

Definition sm_board_manifest_from_json (text : string) : Z * sm_board_manifest :=
  match cJSON_Parse text with
  | None => (-1, mk_manifest "" [])
  | Some root =>
      match nonempty_s (sm_json_get_string root "board") with
      | None => (-1, mk_manifest "" [])
      | Some name =>
          let board := snprintf_s 64 name in
          match array_item root "wires" with
          | None | Some [] => (-1, mk_manifest board [])
          | Some l =>
              let '(ok, ws) := parse_wires [] l in
              (if ok && (0 <? length ws)%nat then 0 else -1, mk_manifest board ws)
          end
      end
  end.
Definition sm_board_manifest_load (file : option bytes) (m : sm_board_manifest) : Z * sm_board_manifest :=
  match file_text 1048576 file with None => (-1, m) | Some text => sm_board_manifest_from_json text end.

Definition sm_board_wire_socket (m : sm_board_manifest) (w : sm_board_wire) (len : Z) : option string :=
  if negb (streq (bw_socket w) "") then if len <=? slen (bw_socket w) then None else Some (bw_socket w)
  else sm_derive_board_socket_path len (bm_board m) (bw_role w).

(** ** Finding a profile *)

Definition path_readable (path : string) : bool := negb (streq path "") && he_readable path.
Definition copy_path (out_len : Z) (path : string) : option string :=
  if out_len =? 0 then None else nonempty_s (Some (snprintf_s (Z.to_nat out_len) path)).
Definition try_candidate (out_len : Z) (path : string) : option string :=
  if path_readable path then copy_path out_len path else None.

Definition stem_from_path (path suffix : string) : string :=
  let stem := bytes_of_string (snprintf_s 256 (string_of_bytes (basename (bytes_of_string (snprintf_s 512 path))))) in
  let s := bytes_of_string suffix in
  string_of_bytes (if (0 <? zlen s) && (zlen s <? zlen stem) && ends_with s stem
                   then ztake (zlen stem - zlen s) stem else stem).

Fixpoint first_some {A} (l : list (option A)) : option A :=
  match l with [] => None | Some x :: _ => Some x | None :: l' => first_some l' end.

Definition sm_profile_resolve_path (spec suffix : string) (out_len : Z) : option string :=
  if streq spec "" || (out_len =? 0) then None else
  match try_candidate out_len spec with
  | Some p => Some p
  | None =>
      if existsb (Z.eqb (chr "/")) (bytes_of_string spec) then None else
      let home := nonempty_s (he_env "HOME") in
      let cut s := snprintf_s 512 s in
      first_some
        [home ≫= (fun h => try_candidate out_len (cut (h +:+ "/.config/smolmux/" +:+ spec +:+ suffix)));
         try_candidate out_len (cut ("profiles/" +:+ spec +:+ suffix));
         try_candidate out_len (cut ("configs/" +:+ spec +:+ suffix));
         home ≫= (fun h => first_some (map (fun p =>
           if streq (stem_from_path p suffix) spec then try_candidate out_len p else None)
             (he_glob (cut (h +:+ "/.config/smolmux/*" +:+ suffix)))))]
  end.
End boards.

(** ** What holds *)

Definition fits (n : nat) (s : string) : Prop := (String.length s < n)%nat.

Lemma snprintf_fits n s : (0 < n)%nat -> fits n (snprintf_s n s).
Proof. intros. by apply snprintf_s_length. Qed.
Lemma copy_str_fits n obj k old : (0 < n)%nat -> fits n old -> fits n (copy_str n obj k old).
Proof.
  intros Hn Ho. unfold copy_str. destruct (get_item obj k) as [[]|]; try done. by apply snprintf_fits.
Qed.

(** A list that was filled: bounded, and of what the reader makes. *)
Lemma fill_spec {A} (f : json -> option A) ok cap (P : A -> Prop) acc items :
  (forall x a, f x = Some a -> P a) -> (length acc <= cap)%nat -> Forall P acc ->
  (length (fill f ok cap acc items) <= cap)%nat /\ Forall P (fill f ok cap acc items).
Proof.
  intros Hf. revert acc. induction items as [|x items IH]; intros acc Hl Ha; cbn [fill]; [done|].
  destruct (f x) as [a|] eqn:E; [|by apply IH].
  destruct (Nat.leb_spec cap (length acc)); [done|]. cbn [orb]. destruct (negb _); [done|].
  apply IH; [rewrite length_app; simpl; lia|]. apply Forall_app. split; [done|]. constructor; [by eapply Hf|done].
Qed.

(** Every array and string of a target profile is within its bounds. *)
Record gp_ok (p : sm_gdb_profile) : Prop := {
  go_name : fits 64 (gp_name p); go_desc : fits 256 (gp_description p); go_arch : fits 16 (gp_arch p);
  go_path : fits 256 (gp_gdb_path p); go_rtos : fits 32 (gp_rtos p);
  go_init : (length (gp_init_commands p) <= 16)%nat /\ Forall (fits 128) (gp_init_commands p);
  go_regs : (length (gp_registers p) <= 64)%nat /\ Forall (fits 16) (gp_registers p);
  go_faults : (length (gp_fault_registers p) <= 16)%nat /\
              Forall (fun q => fits 16 (fst q) /\ fits 24 (snd q)) (gp_fault_registers p);
  go_periphs : (length (gp_peripherals p) <= 64)%nat /\
               Forall (fun q => fits 32 (fst q) /\ fits 24 (snd q)) (gp_peripherals p);
  go_cmds : (length (gp_rtos_commands p) <= 16)%nat /\ Forall (fits 128) (gp_rtos_commands p) }.

Lemma string_array_spec width cap l :
  (0 < width)%nat -> (length (parse_string_array width cap l) <= cap)%nat /\ Forall (fits width) (parse_string_array width cap l).
Proof.
  intros Hw. apply fill_spec; [|simpl; lia|done]. intros [] a; try done. intros [= <-]. by apply snprintf_fits.
Qed.
Lemma fill_faults_spec cap acc items :
  (length acc <= cap)%nat -> Forall (fun q => fits 16 (fst q) /\ fits 24 (snd q)) acc ->
  (length (fill_faults cap acc items) <= cap)%nat /\
  Forall (fun q => fits 16 (fst q) /\ fits 24 (snd q)) (fill_faults cap acc items).
Proof.
  revert acc. induction items as [|x items IH]; intros acc Hl Ha; cbn [fill_faults]; [done|].
  destruct x; try by apply IH. destruct (Nat.leb_spec cap (length acc)); [done|].
  destruct (fault_item (JObj l)) as [[n a]|] eqn:E; [|by apply IH].
  apply IH; [rewrite length_app; simpl; lia|]. apply Forall_app. split; [done|]. constructor; [|done].
  unfold fault_item in E. destruct (sm_json_get_string _ "name"); [|done].
  destruct (sm_json_get_string _ "address"); [|done]. injection E as <- <-. split; apply snprintf_fits; unfold SM_GDB_REG_NAME_LEN, SM_GDB_ADDR_LEN; lia.
Qed.
Lemma fill_periphs_spec cap acc ms :
  (length acc <= cap)%nat -> Forall (fun q => fits 32 (fst q) /\ fits 24 (snd q)) acc ->
  (length (fill_periphs cap acc ms) <= cap)%nat /\
  Forall (fun q => fits 32 (fst q) /\ fits 24 (snd q)) (fill_periphs cap acc ms).
Proof.
  revert acc. induction ms as [|[k x] ms IH]; intros acc Hl Ha; cbn [fill_periphs]; [done|].
  destruct x; try by apply IH. destruct (Nat.leb_spec cap (length acc)); [done|].
  apply IH; [rewrite length_app; simpl; lia|]. apply Forall_app. split; [done|]. constructor; [|done].
  split; apply snprintf_fits; unfold SM_GDB_PERIPH_NAME_LEN, SM_GDB_ADDR_LEN; lia.
Qed.

Lemma gdb_profile_of_json_ok root p : gp_ok p -> gp_ok (gdb_profile_of_json root p).
Proof.
  intros [H1 H2 H3 H4 H5 H6 H7 H8 H9 H10]. unfold gdb_profile_of_json. split; cbn;
    try (apply copy_str_fits; [lia|done]).
  - destruct (array_item root "gdb_init_commands"); [|done]. apply string_array_spec. unfold SM_GDB_CMD_LEN. lia.
  - destruct (array_item root "important_registers"); [|done]. apply string_array_spec. unfold SM_GDB_REG_NAME_LEN. lia.
  - destruct (array_item root "fault_registers"); [|done]. apply fill_faults_spec; [simpl; lia|done].
  - destruct (get_item root "peripheral_map") as [[]|]; try done. apply fill_periphs_spec; [simpl; lia|done].
  - destruct (array_item root "rtos_commands"); [|done]. apply string_array_spec. unfold SM_GDB_CMD_LEN. lia.
Qed.

(** A string that fits is copied whole. *)
Lemma snprintf_whole n s : fits n s -> snprintf_s n s = s.
Proof. apply snprintf_s_short. Qed.

Lemma string_array_whole width cap l :
  (length l <= cap)%nat -> Forall (fits width) l -> parse_string_array width cap (map JStr l) = l.
Proof.
  unfold parse_string_array. intros Hl Hf.
  enough (forall acc, (length acc + length l <= cap)%nat ->
    fill (str_item width) any_slot cap acc (map JStr l) = acc ++ l) as Hx by (by rewrite Hx).
  clear Hl. induction Hf as [|s l Hs _ IH]; intros acc Hl; cbn [map fill]; [by rewrite app_nil_r|].
  cbn [str_item]. simpl in Hl. destruct (Nat.leb_spec cap (length acc)); [lia|]. cbn [orb any_slot negb].
  rewrite snprintf_whole by done. rewrite IH by (rewrite length_app; simpl; lia). by rewrite <- app_assoc.
Qed.
Lemma fill_faults_whole cap l :
  (length l <= cap)%nat -> Forall (fun q => fits 16 (fst q) /\ fits 24 (snd q)) l ->
  fill_faults cap [] (map (fun '(n, a) => JObj [] |> add_string "name" n |> add_string "address" a) l) = l.
Proof.
  intros Hl Hf. enough (forall acc, (length acc + length l <= cap)%nat ->
    fill_faults cap acc (map (fun '(n, a) => JObj [] |> add_string "name" n |> add_string "address" a) l) = acc ++ l)
    as Hx by (by rewrite Hx).
  clear Hl. induction Hf as [|[n a] l [Hn Ha] _ IH]; intros acc Hl; [by rewrite app_nil_r|].
  cbn [map]. simpl in Hl. cbn [add_string add_item app fill_faults]. destruct (Nat.leb_spec cap (length acc)); [lia|].
  cbn in Hn, Ha. change (fault_item _) with (Some (snprintf_s 16 n, snprintf_s 24 a)).
  rewrite !snprintf_whole by done. rewrite IH by (rewrite length_app; simpl; lia). by rewrite <- app_assoc.
Qed.
Lemma fill_periphs_whole cap l :
  (length l <= cap)%nat -> Forall (fun q => fits 32 (fst q) /\ fits 24 (snd q)) l ->
  fill_periphs cap [] (map (fun '(n, a) => (n, JStr a)) l) = l.
Proof.
  intros Hl Hf. enough (forall acc, (length acc + length l <= cap)%nat ->
    fill_periphs cap acc (map (fun '(n, a) => (n, JStr a)) l) = acc ++ l) as Hx by (by rewrite Hx).
  clear Hl. induction Hf as [|[n a] l [Hn Ha] _ IH]; intros acc Hl; [by rewrite app_nil_r|].
  cbn [map fill_periphs]. simpl in Hl. destruct (Nat.leb_spec cap (length acc)); [lia|].
  cbn in Hn, Ha. rewrite !snprintf_whole by done. rewrite IH by (rewrite length_app; simpl; lia). by rewrite <- app_assoc.
Qed.

Section theorems.
Context {J : JsonText} {H : HostEnv}.

(** A profile within the bounds of the arrays is read back field by field. *)
Lemma gdb_profile_roundtrip p p0 text :
  gp_ok p -> cJSON_Parse text = Some (sm_gdb_profile_to_json p) ->
  sm_gdb_profile_from_json text p0 = (0, p).
Proof.
  intros [H1 H2 H3 H4 H5 [H6 H6'] [H7 H7'] [H8 H8'] [H9 H9'] [H10 H10']] Hp.
  unfold sm_gdb_profile_from_json. rewrite Hp. f_equal. unfold gdb_profile_of_json, array_item, copy_str. cbn.
  rewrite !snprintf_whole by done.
  rewrite !string_array_whole, fill_faults_whole, fill_periphs_whole by done. by destruct p.
Qed.

(** A board manifest that is accepted can be brought up.  It names the
    board and one to sixteen wires, and every wire has a role and a link, and a
    UART a device to open. *)
Theorem manifest_accepted text m :
  sm_board_manifest_from_json text = (0, m) ->
  bm_board m <> "" /\ (1 <= length (bm_wires m) <= 16)%nat /\
  Forall (fun w => bw_role w <> "" /\ (bw_link w = "uart" /\ bw_device w <> "" \/ bw_link w = "gdb")) (bm_wires m).
Proof.
  assert (forall acc items, (length acc <= 16)%nat -> Forall (fun w => wire_ok w = true) acc ->
    let '(ok, ws) := parse_wires acc items in (length ws <= 16)%nat /\ Forall (fun w => wire_ok w = true) ws) as Hw.
  { intros acc items. revert acc. induction items as [|x items IH]; intros acc Hl Ha; cbn [parse_wires]; [done|].
    destruct x; try by apply IH. destruct (Nat.leb_spec SM_BOARD_MAX_WIRES (length acc)); [done|]. cbv zeta.
    destruct (wire_ok (parse_wire (JObj l))) eqn:E; [|done].
    apply IH; [rewrite length_app; unfold SM_BOARD_MAX_WIRES in *; simpl; lia|]. apply Forall_app. auto. }
  unfold sm_board_manifest_from_json. destruct (cJSON_Parse text) as [root|]; [|done].
  destruct (nonempty_s (sm_json_get_string root "board")) as [name|] eqn:En; [|done].
  destruct (array_item root "wires") as [[|x l]|]; [done| |done].
  specialize (Hw [] (x :: l) ltac:(simpl; lia) ltac:(done)). destruct (parse_wires [] (x :: l)) as [ok ws].
  destruct ok; [|done]. cbn [andb]. destruct (Nat.ltb_spec 0 (length ws)) as [Hpos|]; [|done]. intros [= <-].
  destruct Hw as [Hl Hf]. cbn [bm_board bm_wires]. split_and!; [|lia|lia|].
  - unfold nonempty_s in En. destruct (sm_json_get_string root "board") as [s|]; [|done].
    destruct (streq s "") eqn:Es; [done|]. injection En as ->. by destruct name.
  - eapply Forall_impl; [exact Hf|]. intros w. unfold wire_ok. rewrite !andb_true_iff, orb_true_iff.
    intros [[Hr Hk] Hd]. split; [intros E; by rewrite E in Hr|].
    destruct Hk as [Hk|Hk]; apply streq_spec in Hk; [left|by right]. split; [done|].
    intros E. rewrite Hk, E in Hd. done.
Qed.
End theorems.

(** ** A profile and a manifest *)

(** A text that is its tree. *)
Definition text_of (j : json) : JsonText := {| cJSON_PrintUnformatted _ := "{}"; cJSON_Parse _ := Some j |}.

Definition demo_manifest : json :=
  JObj [] |> add_string "board" "pico" |> add_item "wires" (JArr [JObj [] |> add_string "role" "console"
    |> add_string "link" "uart" |> add_item "device" (JObj [] |> add_string "by_path" "/dev/serial/by-path/a")]).
Lemma manifest_accepted_witness :
  let J := text_of demo_manifest in
  let m := snd (sm_board_manifest_from_json "{}") in
  bm_board m = "pico" /\ map bw_device (bm_wires m) = ["/dev/serial/by-path/a"] /\
  (1 <= length (bm_wires m) <= 16)%nat.
Proof.
  intros J m. split; [done|]. split; [done|]. apply (manifest_accepted "{}" m). done.
Defined.
