(* ===== verification/Logs.v ===== *)
(** * The logs ([src/text_log.c], [src/io_log.c])

    The text log is a transcript with a time in front of every line, one file a
    day; the I/O log holds one JSON record for every chunk of output, every
    input and every incident.  Files are opened privately.  [localtime_r],
    [open], [fstat], [fchmod] and [fdopen] answer through [LogEnv]; what is
    written is recorded in order.  Strings are allocated and written successfully. *)
From stdpp Require Import pretty.
From S2P Require Import Prelude Cstr Codecs Json CJson Protocol McpText BrokerState McpResults HostPaths.

#[local] Open Scope string_scope.
#[local] Open Scope list_scope.
#[local] Open Scope Z_scope.
#[local] Open Scope json_scope.

Record tm := mk_tm {
  tm_year : Z; tm_mon : Z; tm_mday : Z; tm_yday : Z; tm_hour : Z; tm_min : Z; tm_sec : Z }.
(** [le_open]: the status of the file opened or created for the [n]-th time
    for appending, never through a link, when both [open] and [fstat] succeed. *)
Class LogEnv := {
  le_euid : Z; le_localtime : Z -> tm; le_time : Z; le_alloc : bool;
  le_open : nat -> option file_stat; le_fchmod : nat -> bool; le_fdopen : nat -> bool }.

Definition others (mode : Z) : bool := negb (Z.land mode 63 =? 0).
(** The mode a file of others' permissions ends up with. *)
Definition tightened (ok : bool) (st : file_stat) : file_stat :=
  if others (st_mode st) && ok then {| st with st_mode := 384 |} else st.

Section logs.
Context {J : JsonText} {E : LogEnv}.

(** ** The text log *)

(** A line of a file: its path, the time in front, the text. *)
Record text_line := mk_tline { tn_path : string; tn_stamp : string; tn_text : bytes }.
Record sm_text_log := mk_tlog {
  tl_open : bool; tl_dir : string; tl_port_name : string; tl_day : Z; tl_year : Z; tl_line : bytes;
  tl_path : string; tl_written : list text_line; tl_opens : nat }.

(** The file as it is when the log is used. *)
Definition text_open_private (n : nat) : option file_stat :=
  match le_open n with
  | None => None
  | Some st =>
      if negb (bool_decide (st_type st = FReg)) || negb (st_uid st =? le_euid) then None else
      if le_fdopen n then Some (tightened (le_fchmod n) st) else None
  end.

(** A file that cannot be opened leaves the previous one in use. *)
Definition open_file (now : Z) (l : sm_text_log) : sm_text_log :=
  let t := le_localtime now in
  let path := snprintf_s 512 (tl_dir l +:+ "/" +:+ tl_port_name l +:+ "-" +:+ fmt_pad 4 (tm_year t + 1900) +:+
                fmt_pad 2 (tm_mon t + 1) +:+ fmt_pad 2 (tm_mday t) +:+ ".log") in
  let file := text_open_private (tl_opens l) in
  let l := {| l with tl_opens := S (tl_opens l) |} in
  match file with
  | Some _ => {| l with tl_open := true; tl_path := path; tl_day := tm_yday t; tl_year := tm_year t |}
  | None => l
  end.

Definition port_file_name (port : string) : string :=
  let p := if String.prefix "/dev/" port then String.substring 5 (String.length port - 5) port else port in
  string_of_bytes (map (fun c => if c =? 47 then 45 else c) (bytes_of_string p)).
(** The log, and the directory made for it. *)
Definition sm_text_log_open (dir port_name : string) : option (sm_text_log * list (string * Z)) :=
  if le_alloc
  then Some (open_file le_time (mk_tlog false dir (port_file_name port_name) 0 0 [] "" [] 0), [(dir, 448)])
  else None.

Definition put_line (stamp : string) (text : bytes) (l : sm_text_log) : sm_text_log :=
  {| l with tl_written := tl_written l ++ [mk_tline (tl_path l) stamp text] |}.
(** The lines written by the end. *)
Definition sm_text_log_close (l : sm_text_log) : list text_line :=
  tl_written (if tl_open l && (0 <? zlen (tl_line l)) then put_line "" (tl_line l) l else l).

Definition TEXT_LINE_MAX : Z := 4095.
Definition time_of_day (t : tm) : string :=
  "[" +:+ fmt_pad 2 (tm_hour t) +:+ ":" +:+ fmt_pad 2 (tm_min t) +:+ ":" +:+ fmt_pad 2 (tm_sec t) +:+ "] ".
Fixpoint text_bytes (stamp : string) (data : bytes) (l : sm_text_log) : sm_text_log :=
  match data with
  | [] => l
  | c :: data' =>
      let ended := {| (put_line stamp (tl_line l) l) with tl_line := [] |} in
      if c =? 10 then text_bytes stamp data' ended
      else if c =? 13 then
        match data' with
        | 10 :: data'' => text_bytes stamp data'' ended
        | _ => text_bytes stamp data' ended
        end
      else text_bytes stamp data'
             (if zlen (tl_line l) <? TEXT_LINE_MAX then {| l with tl_line := tl_line l ++ [c] |} else l)
  end.
Definition sm_text_log_write (data : bytes) (ts : double) (l : sm_text_log) : sm_text_log :=
  if negb (tl_open l) then l else
  let sec := Z.quot ts one_s in
  let t := le_localtime sec in
  let l := if negb (tm_yday t =? tl_day l) || negb (tm_year t =? tl_year l) then open_file sec l else l in
  text_bytes (time_of_day t) data l.

(** ** The I/O log *)

Definition SM_IO_LOG_FLUSH_RECORDS : Z := 16.
(** Records flushed to the system, and those written to the stream since. *)
Record sm_io_log := mk_iolog { il_path : string; il_records_since_flush : Z; il_disk : list string; il_buf : list string }.

(** Directories made, with their modes. *)
Fixpoint parents (pre l : bytes) : list bytes :=
  match l with
  | [] => []
  | c :: l' => (if c =? 47 then [pre] else []) ++ parents (pre ++ [c]) l'
  end.
Definition ensure_parent_dir (path : string) : list (string * Z) :=
  match split_last 47 (bytes_of_string (snprintf_s 512 path)) with
  | Some ((c :: dir), _) =>
      map (fun d => (string_of_bytes d, 493)) (parents [c] dir) ++ [(string_of_bytes (c :: dir), 448)]
  | _ => []
  end.

Definition open_append_private (n : nat) : option file_stat :=
  match le_open n with
  | None => None
  | Some st =>
      if negb (bool_decide (st_type st = FReg)) || negb (st_uid st =? le_euid) || negb (st_nlink st =? 1) then None else
      if le_fdopen n then Some (tightened (le_fchmod n) st) else None
  end.
Definition sm_io_log_open (path : string) (n : nat) : option sm_io_log * list (string * Z) :=
  if negb le_alloc then (None, []) else
  (match open_append_private n with Some _ => Some (mk_iolog path 0 [] []) | None => None end,
   ensure_parent_dir path).

Definition sm_io_log_flush (l : sm_io_log) : sm_io_log :=
  {| l with il_disk := il_disk l ++ il_buf l; il_buf := []; il_records_since_flush := 0 |}.
Definition write_json_line (obj : json) (force_flush : bool) (l : sm_io_log) : sm_io_log :=
  let l := {| l with il_buf := il_buf l ++ [cJSON_PrintUnformatted obj];
                     il_records_since_flush := il_records_since_flush l + 1 |} in
  if force_flush || (SM_IO_LOG_FLUSH_RECORDS <=? il_records_since_flush l) then sm_io_log_flush l else l.
Definition sm_io_log_close (l : sm_io_log) : list string := il_disk (sm_io_log_flush l).

Definition output_record (b64 : string) (ts : double) : json :=
  JObj [] |> add_string "type" "output" |> add_number "timestamp" ts |> add_string "data" b64.
Definition sm_io_log_output (data : bytes) (ts : double) : sm_io_log -> sm_io_log :=
  write_json_line (output_record (string_of_bytes (sm_base64_encode data)) ts) false.
Definition sm_io_log_output_b64 (b64 : option string) (ts : double) : sm_io_log -> sm_io_log :=
  write_json_line (output_record (default "" b64) ts) false.
Definition input_record (data : bytes) (sender : option string) (ts : double) : json :=
  JObj [] |> add_string "type" "input" |> add_number "timestamp" ts |> add_string "sender" (default "" sender)
    |> add_string "data" (string_of_bytes (sm_base64_encode data)).
Definition sm_io_log_input (data : bytes) (sender : option string) (ts : double) : sm_io_log -> sm_io_log :=
  write_json_line (input_record data sender ts) false.
Definition incident_record (incident_id pattern_name severity : string) (ts : double) : json :=
  JObj [] |> add_string "type" "incident" |> add_number "timestamp" ts |> add_string "incident_id" incident_id
    |> add_string "pattern_name" pattern_name |> add_string "severity" severity.
Definition sm_io_log_incident (incident_id pattern_name severity : string) (ts : double) : sm_io_log -> sm_io_log :=
  write_json_line (incident_record incident_id pattern_name severity ts) true.

(** ** What the logs hold *)

(** Lines end at CR, LF or CR LF: the complete ones and the rest. *)
Fixpoint text_lines (l : bytes) : list bytes * bytes :=
  match l with
  | [] => ([], [])
  | c :: l' =>
      if c =? 10 then let '(ls, r) := text_lines l' in ([] :: ls, r)
      else if c =? 13 then
        let '(ls, r) := match l' with 10 :: l'' => text_lines l'' | _ => text_lines l' end in ([] :: ls, r)
      else let '(ls, r) := text_lines l' in
           match ls with [] => ([], c :: r) | a :: ls' => ((c :: a) :: ls', r) end
  end.
Definition line_end (c : Z) : bool := (c =? 10) || (c =? 13).
Definition plain (l : bytes) : Prop := Forall (fun c => line_end c = false) l.

Lemma text_lines_plain p d :
  plain p ->
  text_lines (p ++ d) = match text_lines d with ([], r) => ([], p ++ r) | (a :: ls, r) => ((p ++ a) :: ls, r) end.
Proof.
  induction 1 as [|c p Hc _ IH]; [cbn [app]; by destruct (text_lines d) as [[] ]|]. cbn [app text_lines].
  apply orb_false_iff in Hc as [-> ->]. rewrite IH. by destruct (text_lines d) as [[]].
Qed.
(** An end of line, after [p]. *)
Lemma text_lines_end p c d rest :
  plain p -> line_end c = true -> rest = (if c =? 13 then match d with 10 :: d' => d' | _ => d end else d) ->
  text_lines (p ++ c :: d) = (p :: fst (text_lines rest), snd (text_lines rest)).
Proof.
  intros Hp Hc ->. rewrite text_lines_plain by done. cbn [text_lines]. unfold line_end in Hc.
  destruct (Z.eqb_spec c 10) as [->|]; [cbn; destruct (text_lines d); cbn; by rewrite app_nil_r|].
  cbn [orb] in Hc. rewrite Hc.
  assert (match d with 10 :: l'' => text_lines l'' | _ => text_lines d end =
          text_lines match d with 10 :: d' => d' | _ => d end) as ->.
  { destruct d as [|x d]; [done|]. destruct x as [|q|q]; try done. repeat (destruct q as [q|q|]; try done). }
  destruct (text_lines _). cbn. by rewrite app_nil_r.
Qed.

Definition cut_line (t : bytes) : bytes := ztake TEXT_LINE_MAX t.
Lemma cut_snoc p c :
  cut_line (p ++ [c]) = if zlen (cut_line p) <? TEXT_LINE_MAX then cut_line p ++ [c] else cut_line p.
Proof.
  unfold cut_line, TEXT_LINE_MAX. rewrite zlen_ztake. destruct (Z.ltb_spec (Z.max 0 (Z.min 4095 (zlen p))) 4095).
  - pose proof (zlen_nonneg p). rewrite (ztake_all 4095 p), ztake_all by (rewrite ?zlen_app, ?zlen_cons, ?zlen_nil; lia). done.
  - apply ztake_app_le. lia.
Qed.

(** A chunk: every line it ends is written, cut to what fits. *)
Lemma text_bytes_spec stamp data p l :
  plain p -> tl_line l = cut_line p ->
  text_bytes stamp data l =
  {| l with tl_written := tl_written l ++ map (fun t => mk_tline (tl_path l) stamp (cut_line t)) (fst (text_lines (p ++ data)));
            tl_line := cut_line (snd (text_lines (p ++ data))) |}.
Proof.
  remember (length data) as n eqn:Hn. assert (length data <= n)%nat as Hl by lia. clear Hn. revert data p l Hl.
  induction n as [|n IH]; intros data p l Hl Hp Hcut; (destruct data as [|c data];
    [cbn [text_bytes]; rewrite app_nil_r, <- (app_nil_r p), (text_lines_plain p []) by done; cbn;
     rewrite !app_nil_r, <- Hcut; by destruct l|simpl in Hl; try lia]).
  destruct (line_end c) eqn:Hc.
  - set (rest := if c =? 13 then match data with 10 :: d' => d' | _ => data end else data).
    assert (text_bytes stamp (c :: data) l = text_bytes stamp rest {| (put_line stamp (tl_line l) l) with tl_line := [] |}) as ->.
    { unfold rest. cbn [text_bytes]. unfold line_end in Hc. destruct (Z.eqb_spec c 10) as [->|]; [done|].
      cbn [orb] in Hc. rewrite Hc. destruct data as [|x d]; [done|]. destruct x as [|q|q]; try done.
      repeat (destruct q as [q|q|]; try done). }
    assert (length rest <= n)%nat as Hr.
    { unfold rest. destruct (c =? 13); [|lia]. destruct data as [|x d]; [simpl; lia|]. destruct x as [|q|q]; try lia.
      repeat (destruct q as [q|q|]; try lia). simpl in *. lia. }
    rewrite (IH rest [] _ Hr) by (done || constructor). rewrite (text_lines_end p c data rest) by done.
    cbn [fst snd map app]. unfold put_line. cbn. rewrite Hcut, <- app_assoc. done.
  - assert (text_bytes stamp (c :: data) l = text_bytes stamp data
      (if zlen (tl_line l) <? TEXT_LINE_MAX then {| l with tl_line := tl_line l ++ [c] |} else l)) as ->.
    { cbn [text_bytes]. by apply orb_false_iff in Hc as [-> ->]. }
    rewrite (IH data (p ++ [c])); [|lia|by apply Forall_app_2, Forall_singleton|].
    + rewrite <- app_assoc. cbn [app]. by destruct (_ <? _).
    + rewrite cut_snoc, <- Hcut. by destruct (_ <? _).
Qed.

(** ** Runs *)

Definition text_run (cs : list (bytes * double)) (l : sm_text_log) : sm_text_log :=
  fold_left (fun l c => sm_text_log_write (fst c) (snd c) l) cs l.
(** No chunk ends between a CR and its LF. *)
Fixpoint unsplit (cs : list (bytes * double)) : Prop :=
  match cs with
  | (a, _) :: ((b, _) :: _) as cs' => ~ (last a = Some 13 /\ head b = Some 10) /\ b <> [] /\ unsplit cs'
  | _ => True
  end.

Lemma plain_or_end a :
  plain a \/ exists p c d, a = p ++ c :: d /\ plain p /\ line_end c = true.
Proof.
  induction a as [|x a IH]; [left; constructor|]. destruct (line_end x) eqn:Ex.
  { right. exists [], x, a. split_and!; [done|constructor|done]. }
  destruct IH as [IH|(p & c & d & -> & Hp & Hc)]; [left; by constructor|].
  right. exists (x :: p), c, d. split_and!; [done|by constructor|done].
Qed.
Lemma text_lines_none a : plain a -> text_lines a = ([], a).
Proof. intros H. rewrite <- (app_nil_r a) at 1. rewrite text_lines_plain by done. cbn. by rewrite app_nil_r. Qed.

(** What remains behind an end of line. *)
Definition after_end (c : Z) (d : bytes) : bytes := if c =? 13 then match d with 10 :: d' => d' | _ => d end else d.
Lemma after_end_cases c d : after_end c d = d \/ c = 13 /\ d = 10 :: after_end c d.
Proof.
  unfold after_end. destruct (Z.eqb_spec c 13); [|by left]. destruct d as [|x d]; [by left|].
  destruct x as [|q|q]; try by left. repeat (destruct q as [q|q|]; try by left). by right.
Qed.
Lemma after_end_app c d b :
  ~ (last (c :: d) = Some 13 /\ head b = Some 10) -> after_end c (d ++ b) = after_end c d ++ b.
Proof.
  unfold after_end. intros H. destruct (Z.eqb_spec c 13) as [->|]; [|done].
  destruct d as [|x d]; [|destruct x as [|q|q]; try done; by repeat (destruct q as [q|q|]; try done)].
  cbn [app]. destruct b as [|x b]; [done|]. destruct x as [|q|q]; try done.
  repeat (destruct q as [q|q|]; try done). exfalso. by apply H.
Qed.
Lemma text_lines_app a b :
  ~ (last a = Some 13 /\ head b = Some 10) ->
  text_lines (a ++ b) = (fst (text_lines a) ++ fst (text_lines (snd (text_lines a) ++ b)),
                         snd (text_lines (snd (text_lines a) ++ b))).
Proof.
  remember (length a) as n eqn:Hn. assert (length a <= n)%nat as Hl by lia. clear Hn. revert a Hl.
  induction n as [|n IH]; intros a Hl Hab.
  { destruct a; [|simpl in Hl; lia]. apply surjective_pairing. }
  destruct (plain_or_end a) as [Hp|(p & c & d & -> & Hp & Hc)].
  { rewrite (text_lines_none a Hp). apply surjective_pairing. }
  assert (~ (last (c :: d) = Some 13 /\ head b = Some 10)) as Hcd.
  { intros [H1 H2]. apply Hab. split; [|done]. by rewrite last_app, H1. }
  rewrite <- app_assoc. cbn [app]. rewrite (text_lines_end p c (d ++ b) _ Hp Hc eq_refl).
  rewrite (text_lines_end p c d _ Hp Hc eq_refl). fold (after_end c (d ++ b)) (after_end c d).
  rewrite after_end_app by done. rewrite length_app in Hl. simpl in Hl.
  assert (length (after_end c d) <= length d)%nat as Hlen
    by (destruct (after_end_cases c d) as [-> |[_ He]]; [lia|rewrite He at 2; simpl; lia]).
  rewrite IH; [done|lia|]. intros [H1 H2]. apply Hcd. split; [|done].
  destruct (after_end_cases c d) as [He|[_ He]].
  - rewrite He in H1. destruct d; [done|]. exact H1.
  - destruct (after_end c d); [done|]. rewrite He. exact H1.
Qed.
Lemma text_lines_rest a : plain (snd (text_lines a)).
Proof.
  remember (length a) as n eqn:Hn. assert (length a <= n)%nat as Hl by lia. clear Hn. revert a Hl.
  induction n as [|n IH]; intros a Hl; [destruct a; [constructor|simpl in Hl; lia]|].
  destruct (plain_or_end a) as [Hp|(p & c & d & -> & Hp & Hc)]; [by rewrite text_lines_none|].
  rewrite (text_lines_end p c d _ Hp Hc eq_refl). cbn [snd]. apply IH. rewrite length_app in Hl. simpl in Hl.
  fold (after_end c d). destruct (after_end_cases c d) as [-> |[_ He]]; [lia|]. rewrite He in Hl. simpl in Hl. lia.
Qed.

Lemma text_write_spec data ts p l :
  tl_open l = true -> plain p -> tl_line l = cut_line p ->
  let l' := sm_text_log_write data ts l in
  tl_open l' = true /\ tl_line l' = cut_line (snd (text_lines (p ++ data))) /\
  map tn_text (tl_written l') = map tn_text (tl_written l) ++ map cut_line (fst (text_lines (p ++ data))).
Proof.
  intros Ho Hp Hc. cbv zeta. unfold sm_text_log_write. rewrite Ho. cbn [negb]. cbv zeta.
  set (l1 := if _ || _ then _ else l).
  assert (tl_open l1 = true /\ tl_line l1 = tl_line l /\ tl_written l1 = tl_written l) as (H1 & H2 & H3).
  { unfold l1, open_file. destruct (_ || _); [|done]. cbv zeta. by destruct (text_open_private _). }
  clearbody l1. rewrite (text_bytes_spec _ data p l1 Hp) by congruence. cbn. split_and!; [done..|].
  rewrite H3, map_app, map_map. done.
Qed.

(** The transcript holds the lines of the device.  For any chunks of
    output, at any times and across any change of the day, the texts written
    are the lines of the whole stream, each ended by CR, LF or both and cut to
    the 4095 bytes that fit, and the unfinished line is kept; provided that no
    chunk ends between a CR and its LF. *)
Theorem text_log_lines cs p l :
  tl_open l = true -> plain p -> tl_line l = cut_line p -> unsplit cs ->
  let l' := text_run cs l in
  let all := text_lines (p ++ mjoin (map fst cs)) in
  tl_line l' = cut_line (snd all) /\
  map tn_text (tl_written l') = map tn_text (tl_written l) ++ map cut_line (fst all).
Proof.
  cbv zeta. unfold text_run. revert p l. induction cs as [|[d ts] cs IH]; intros p l Ho Hp Hc Hu.
  { cbn. rewrite app_nil_r, text_lines_none by done. cbn. by rewrite app_nil_r. }
  cbn [fold_left map mjoin list_join fst snd].
  destruct (text_write_spec d ts p l Ho Hp Hc) as (H1 & H2 & H3). set (l1 := sm_text_log_write d ts l) in *. clearbody l1.
  assert (unsplit cs) as Hu2 by (destruct cs as [|[]]; [done|]; tauto || by destruct Hu as (_ & _ & ?)).
  destruct (IH _ l1 H1 (text_lines_rest (p ++ d)) H2 Hu2) as [H4 H5].
  rewrite app_assoc, text_lines_app; [cbn [fst snd]|].
  - rewrite H4, H5, H3. split; [done|]. by rewrite map_app, app_assoc.
  - intros [Hlast Hhead]. destruct cs as [|[b tb] cs]; [done|]. destruct Hu as (Hn & Hb & _). apply Hn.
    cbn [map mjoin list_join fst] in Hhead. split; [|by destruct b].
    rewrite last_app in Hlast. destruct (last d) eqn:Ed; [done|].
    apply last_Some_elem_of in Hlast. unfold plain in Hp. rewrite Forall_forall in Hp. by apply Hp in Hlast.
Qed.

(** ** The records *)

Definition io_event (e : event) : sm_io_log -> sm_io_log :=
  match e with
  | EvLogInput data sender ts => sm_io_log_input data (Some sender) ts
  | EvLogOutput b64 ts => sm_io_log_output_b64 (Some b64) ts
  | EvLogIncident id name severity ts => sm_io_log_incident id name severity ts
  | _ => fun l => l
  end.
Definition io_record (e : event) : option json :=
  match e with
  | EvLogInput data sender ts => Some (input_record data (Some sender) ts)
  | EvLogOutput b64 ts => Some (output_record b64 ts)
  | EvLogIncident id name severity ts => Some (incident_record id name severity ts)
  | _ => None
  end.
Definition is_incident (e : event) : bool := match e with EvLogIncident _ _ _ _ => true | _ => false end.
Definition io_ok (l : sm_io_log) : Prop :=
  il_records_since_flush l = zlen (il_buf l) /\ zlen (il_buf l) < SM_IO_LOG_FLUSH_RECORDS.

Lemma write_json_spec obj force l :
  io_ok l ->
  let l' := write_json_line obj force l in
  io_ok l' /\ il_disk l' ++ il_buf l' = il_disk l ++ il_buf l ++ [cJSON_PrintUnformatted obj] /\
  (force = true -> il_buf l' = []).
Proof.
  intros [H1 H2]. cbv zeta. unfold write_json_line, io_ok in *. cbv zeta. cbn [il_records_since_flush].
  destruct (force || _) eqn:Ef.
  - cbn. by rewrite app_nil_r.
  - apply orb_false_iff in Ef as [-> Ef%Z.leb_gt]. cbn [il_records_since_flush il_buf il_disk] in *.
    rewrite zlen_app, zlen_cons, zlen_nil. split_and!; [lia|lia|done|done].
Qed.

(** The I/O log is complete and at most fifteen records behind.  Whatever
    the broker logs, the records on disk and in the buffer are those events in
    order; fewer than sixteen are in the buffer; an incident takes everything
    before it to disk; and closing the log leaves nothing out. *)
Theorem io_log_complete evs l :
  io_ok l ->
  let l' := fold_left (fun l e => io_event e l) evs l in
  let all := il_disk l ++ il_buf l ++ map cJSON_PrintUnformatted (omap io_record evs) in
  io_ok l' /\ il_disk l' ++ il_buf l' = all /\ sm_io_log_close l' = all /\
  (match last evs with Some e => is_incident e = true | None => False end -> il_buf l' = []).
Proof.
  intros Hok. cbv zeta. induction evs as [|e evs IH] using rev_ind.
  { cbn. rewrite !app_nil_r. by split_and!. }
  rewrite fold_left_app, omap_app, map_app, last_snoc. cbn [fold_left]. destruct IH as (K1 & K2 & _ & _).
  set (l1 := fold_left _ evs l) in *. clearbody l1.
  assert (io_ok (io_event e l1) /\
    il_disk (io_event e l1) ++ il_buf (io_event e l1) =
      (il_disk l1 ++ il_buf l1) ++ map cJSON_PrintUnformatted (omap io_record [e]) /\
    (is_incident e = true -> il_buf (io_event e l1) = [])) as (A1 & A2 & A3).
  { destruct e; cbn [io_event io_record omap list_omap map is_incident];
      try (rewrite app_nil_r; by split_and!);
      unfold sm_io_log_input, sm_io_log_output_b64, sm_io_log_incident;
      match goal with |- io_ok (write_json_line ?o ?b l1) /\ _ =>
        destruct (write_json_spec o b l1 K1) as (B1 & B2 & B3) end;
      rewrite <- app_assoc; by split_and!. }
  split_and!; [done| | |exact A3].
  - by rewrite A2, K2, <- !app_assoc.
  - unfold sm_io_log_close, sm_io_log_flush. cbn [il_disk]. by rewrite A2, K2, <- !app_assoc.
Qed.
End logs.

(** ** Sessions *)

Definition demo_logs : LogEnv := {|
  le_euid := 1000; le_localtime := fun t => mk_tm 126 0 (1 + t / 86400) (t / 86400) (t / 3600 mod 24) (t / 60 mod 60) (t mod 60);
  le_time := 0; le_alloc := true; le_open := fun _ => Some (mk_stat FReg 1000 1 420); le_fchmod := fun _ => true;
  le_fdopen := fun _ => true |}.
Definition demo_text : sm_text_log := default (mk_tlog false "" "" 0 0 [] "" [] 0) (fst <$> @sm_text_log_open demo_logs "/logs" "/dev/ttyUSB0").
Definition demo_chunks : list (bytes * double) :=
  [(bytes_of_string "U-Bo", 10 * one_s); (bytes_of_string "ot" ++ [13; 10] ++ bytes_of_string "=> ", 86401 * one_s)].

Lemma text_log_lines_witness :
  map tn_text (tl_written (@text_run demo_logs demo_chunks demo_text)) = [bytes_of_string "U-Boot"] /\
  map tn_path (tl_written (@text_run demo_logs demo_chunks demo_text)) = ["/logs/ttyUSB0-20260102.log"].
Proof.
  split; [|by vm_compute].
  refine (eq_trans (proj2 (@text_log_lines demo_logs demo_chunks [] demo_text _ _ _ _)) _);
    [by vm_compute|constructor|by vm_compute|split_and!; [by intros []|done|done]|by vm_compute].
Defined.
(** A CR LF that two chunks share ends two lines. *)
Example crlf_in_two_chunks :
  map tn_text (tl_written (@text_run demo_logs [([97; 13], one_s); ([10], one_s)] demo_text)) = [[97]; []].
Proof. by vm_compute. Qed.

Lemma io_log_complete_witness (e := [EvLogOutput "QQ==" 0; EvLogIncident "i" "panic" "critical" one_s; EvLogInput [65] "me" 0]) :
  length (@sm_io_log_close (fold_left (fun l e => @io_event cjson e l) e (mk_iolog "/x" 0 [] []))) = 3%nat.
Proof.
  destruct (@io_log_complete cjson e (mk_iolog "/x" 0 [] [])) as (_ & _ & -> & _); [by vm_compute|by vm_compute].
Defined.

(** ** Diagnostics ([src/logger.c]) *)

Inductive sm_log_level := SM_LOG_DEBUG | SM_LOG_INFO | SM_LOG_WARN | SM_LOG_ERROR.
Definition log_level (l : sm_log_level) : Z :=
  match l with SM_LOG_DEBUG => 0 | SM_LOG_INFO => 1 | SM_LOG_WARN => 2 | SM_LOG_ERROR => 3 end.
Definition level_name (l : sm_log_level) : string :=
  match l with SM_LOG_DEBUG => "DEBUG" | SM_LOG_INFO => "INFO" | SM_LOG_WARN => "WARN" | SM_LOG_ERROR => "ERROR" end.
Definition pad_right (n : nat) (s : string) : string :=
  s +:+ string_of_list_ascii (repeat " "%char (n - String.length s)).

(** What a message prints; [text] is the formatted message. *)
Definition sm_log (g_log_level : sm_log_level) (now : tm) (nsec : Z) (level : sm_log_level)
    (component text : string) : string :=
  if log_level level <? log_level g_log_level then "" else
  fmt_pad 2 (tm_hour now) +:+ ":" +:+ fmt_pad 2 (tm_min now) +:+ ":" +:+ fmt_pad 2 (tm_sec now) +:+ "." +:+
  fmt_pad 3 (nsec / 1000000) +:+ " [" +:+ pad_right 5 (level_name level) +:+ "] " +:+ component +:+ ": " +:+ text +:+ nl.
