(* ===== verification/BrokerMain.v ===== *)
(** The broker as a program: the TCP sink, options, and what [main] sets up. *)

(** * The TCP sink ([src/sinks/tcp.c])

    A listener whose connections become clients of the broker that have to
    present the token.  [socket], [bind], [listen] and [accept4] answer through
    the arguments; addresses are in host order. *)
From S2P Require Import Prelude Cstr RingBuffer Json Protocol Regex Expect BootStage Autoresponder Anomaly.
From S2P Require Import McpText Effects Client BrokerState McpResults SerialTcp GdbLink Uart BrokerOps BrokerLoop.
From S2P Require Import McpTools BrokerFrame HostPaths Profiles.

#[local] Open Scope string_scope.
#[local] Open Scope list_scope.
#[local] Open Scope Z_scope.

Record sm_tcp_sink := mk_tcp { ts_listen_fd : Z; ts_port : Z; ts_bind_addr : Z }.

Definition INADDR_LOOPBACK : Z := 2130706433.
Definition sm_tcp_sink_new (ok : bool) (port : Z) (bind_addr : option string) : option sm_tcp_sink :=
  if negb ok then None else
  Some (mk_tcp (-1) port
          match bind_addr with
          | None => INADDR_LOOPBACK
          | Some a => default INADDR_LOOPBACK (inet_pton4 a)
          end).

Definition sm_tcp_bind_is_loopback (bind_addr : option string) : bool :=
  match bind_addr with
  | None => true
  | Some a => match inet_pton4 a with None => true | Some addr => in_loopback addr end
  end.
Definition sm_tcp_refuse_unauthenticated (bind_addr : option string) (have_auth_token allow_insecure : bool) : bool :=
  if have_auth_token then false else
  if allow_insecure then false else negb (sm_tcp_bind_is_loopback bind_addr).

(** The address and port listened on; the descriptor of [socket] or a negative
    one, and whether [bind] and [listen] succeed. *)
Definition tcp_start (fd : Z) (bound listening : bool) (t : sm_tcp_sink) : Z * option (Z * Z) * sm_tcp_sink :=
  if fd <? 0 then (-1, None, t) else
  if negb bound then (-1, None, t) else
  if negb listening then (-1, None, t) else
  (0, Some (ts_bind_addr t, ts_port t mod 65536), {| t with ts_listen_fd := fd |}).
Definition tcp_stop (t : sm_tcp_sink) : sm_tcp_sink :=
  if 0 <=? ts_listen_fd t then {| t with ts_listen_fd := -1 |} else t.

Section sink.
Context {L : LinkOps} {E : SystemEnv} {J : JsonText} {R : RegexLib}.

(** What [accept4] gives, up to the first failure: the process id SO_PEERCRED
    finds for the descriptor. *)
Fixpoint tcp_on_readable (accepts : list (option Z)) : M unit :=
  match accepts with
  | Some pid :: accepts' => sm_broker_register_client pid true ;; tcp_on_readable accepts'
  | _ => mret tt
  end.

Fixpoint tcp_accepted (accepts : list (option Z)) : list (Z * bool) :=
  match accepts with Some pid :: accepts' => (pid, true) :: tcp_accepted accepts' | _ => [] end.
(** To the broker it is like registrations that come over the pipe. *)
Lemma tcp_on_readable_pipe accepts w :
  run (tcp_on_readable accepts) w = run (process_event (LePipe (tcp_accepted accepts))) w.
Proof.
  cbn [process_event]. revert w. induction accepts as [|[pid|] accepts IH]; intros w; [done| |done].
  cbn [tcp_on_readable tcp_accepted for_each]. rewrite !run_bind, IH. done.
Qed.
End sink.

(** ** Exposure *)

(** The gate and the sink read the address alike. *)
Lemma bind_in_step port bind_addr t :
  sm_tcp_sink_new true port bind_addr = Some t ->
  sm_tcp_bind_is_loopback bind_addr = in_loopback (ts_bind_addr t).
Proof.
  intros [= <-]. unfold sm_tcp_bind_is_loopback. cbn [ts_bind_addr].
  destruct bind_addr as [a|]; [|done]. by destruct (inet_pton4 a).
Qed.
Example exposed_addresses :
  map (fun a => sm_tcp_bind_is_loopback (Some a)) ["127.0.0.1"; "127.9.9.9"; "0.0.0.0"; "10.0.0.1"; "localhost"; ""] =
  [true; true; false; false; true; true].
Proof. by vm_compute. Qed.

(** * The broker's main program ([src/main.c])

    Options, defaults, the choice of the link, the identity of the device, the
    token of network clients and its files, and the sinks.  [getopt_long] hands
    over the options in order; the system answers through [MainEnv] and
    [HostEnv].  All features are built in.  Messages to the user, signals and
    [diagnose_busy_port] are left out. *)

#[local] Open Scope string_scope.
#[local] Open Scope list_scope.
#[local] Open Scope Z_scope.

(** ** Options *)

Inductive main_opt :=
  | OptBaud (arg : string) | OptSocket (arg : string) | OptLogDir (arg : string) | OptTextLogDir (arg : string)
  | OptProfile (arg : string) | OptGdb | OptGdbPath (arg : string) | OptGdbTarget (arg : string) | OptGdbAllowShell
  | OptSerialTcp (arg : string) | OptMcp | OptTcpPort (arg : string) | OptTcpBind (arg : string)
  | OptAuthToken (arg : string) | OptAuthTokenFile (arg : string) | OptInsecureNoAuth
  | OptBoard (arg : string) | OptRole (arg : string) | OptIdentityPolicy (arg : string) | OptByPath (arg : string)
  | OptWsPort (arg : string) | OptNoTextLog | OptNoIoLog | OptNoReconnect | OptWaitDevice (arg : string)
  | OptListPorts | OptListProfiles | OptHelpProtocol | OptVerbose | OptVersion | OptHelp | OptUnknown.

Record main_args := mk_margs {
  ma_baud : Z; ma_socket : string; ma_log_dir : string; ma_text_log_dir : string; ma_profile : option string;
  ma_gdb : bool; ma_gdb_path : option string; ma_gdb_target : option string; ma_allow_shell : bool;
  ma_serial_tcp : option string; ma_mcp : bool; ma_tcp_port : Z; ma_tcp_bind : option string;
  ma_token : option string; ma_token_file : option string; ma_insecure : bool;
  ma_board : option string; ma_role : option string; ma_policy : option string; ma_by_path : option string;
  ma_ws_port : Z; ma_no_text_log : bool; ma_no_io_log : bool; ma_no_reconnect : bool; ma_wait_s : Z;
  ma_list_ports : bool; ma_list_profiles : bool; ma_help_protocol : bool; ma_verbose : bool }.

(** The program ends with a status, or goes on. *)
Inductive outcome (A : Type) := Exit (code : Z) | Go (a : A).
Arguments Exit {A} code.
Arguments Go {A} a.
#[export] Instance outcome_ret : MRet outcome := fun A a => Go a.
#[export] Instance outcome_bind : MBind outcome :=
  fun A B f o => match o with Exit code => Exit code | Go a => f a end.
Definition exit_if (c : bool) : outcome unit := if c then Exit 1 else Go tt.

(** A number that takes the whole argument and is in range. *)
Definition number_in (lo hi : Z) (arg : string) : option Z :=
  let '(v, rest) := strtol10 (bytes_of_string arg) in
  if negb (zlen rest =? 0) || (v <? lo) || (hi <? v) then None else Some v.
Definition numeric (lo hi : Z) (arg : string) (f : Z -> main_args) : outcome main_args :=
  match number_in lo hi arg with Some v => Go (f v) | None => Exit 1 end.

Definition main_option (o : main_opt) (a : main_args) : outcome main_args :=
  match o with
  | OptBaud s => numeric 1 4000000 s (fun v => {| a with ma_baud := v |})
  | OptSocket s => Go {| a with ma_socket := snprintf_s 108 s |}
  | OptLogDir s => Go {| a with ma_log_dir := snprintf_s 256 s |}
  | OptTextLogDir s => Go {| a with ma_text_log_dir := snprintf_s 256 s |}
  | OptProfile s => Go {| a with ma_profile := Some s |}
  | OptGdb => Go {| a with ma_gdb := true |}
  | OptGdbPath s => Go {| a with ma_gdb_path := Some s |}
  | OptGdbTarget s => Go {| a with ma_gdb_target := Some s |}
  | OptGdbAllowShell => Go {| a with ma_allow_shell := true |}
  | OptSerialTcp s => Go {| a with ma_serial_tcp := Some s |}
  | OptMcp => Go {| a with ma_mcp := true |}
  | OptTcpPort s => numeric 1 65535 s (fun v => {| a with ma_tcp_port := v |})
  | OptTcpBind s => Go {| a with ma_tcp_bind := Some s |}
  | OptAuthToken s => Go {| a with ma_token := Some s |}
  | OptAuthTokenFile s => Go {| a with ma_token_file := Some s |}
  | OptInsecureNoAuth => Go {| a with ma_insecure := true |}
  | OptBoard s => Go {| a with ma_board := Some s |}
  | OptRole s => Go {| a with ma_role := Some s |}
  | OptIdentityPolicy s => Go {| a with ma_policy := Some s |}
  | OptByPath s => Go {| a with ma_by_path := Some s |}
  | OptWsPort s => numeric 1 65535 s (fun v => {| a with ma_ws_port := v |})
  | OptNoTextLog => Go {| a with ma_no_text_log := true |}
  | OptNoIoLog => Go {| a with ma_no_io_log := true |}
  | OptNoReconnect => Go {| a with ma_no_reconnect := true |}
  | OptWaitDevice s => numeric 0 86400 s (fun v => {| a with ma_wait_s := v |})
  | OptListPorts => Go {| a with ma_list_ports := true |}
  | OptListProfiles => Go {| a with ma_list_profiles := true |}
  | OptHelpProtocol => Go {| a with ma_help_protocol := true |}
  | OptVerbose => Go {| a with ma_verbose := true |}
  | OptVersion | OptHelp => Exit 0
  | OptUnknown => Exit 1
  end.
Fixpoint main_options (os : list main_opt) (a : main_args) : outcome main_args :=
  match os with [] => Go a | o :: os' => a ← main_option o a; main_options os' a end.

(** [me_link]: the link is allocated; [me_polls]: what opening the device gives
    and the clock; [me_token_open], [me_token_write]: how the token file can be
    opened, whether [fchmod] and [ftruncate] succeed and what the writes take. *)
Class MainEnv := {
  me_link : bool; me_tty : tty; me_clock : double; me_polls : list (bool * double); me_random : bytes;
  me_alloc : bool; me_slots : nat -> bool; me_mcp : bool; me_tcp : bool; me_ws : bool; me_sinks : nat -> bool;
  me_token_open : string -> option file_stat; me_token_write : string -> bool * bool * Z * Z }.

Section main.
Context {J : JsonText} {R : RegexLib} {H : HostEnv} {G : GdbEnv} {E : MainEnv}.

(** Before the options: the environment and the defaults. *)
Definition main_defaults : main_args :=
  let wait := match nonempty_s (he_env "SMOLMUX_WAIT_DEVICE_S") with
              | Some w => default 0 (number_in 0 86400 w) | None => 0 end in
  let text := match he_env "HOME" with
              | Some h => snprintf_s 256 (h +:+ "/.local/share/smolmux/logs") | None => "" end in
  let log := match nonempty_s (he_env "XDG_STATE_HOME"), nonempty_s (he_env "HOME") with
             | Some x, _ => snprintf_s 256 (x +:+ "/smolmux")
             | None, Some h => snprintf_s 256 (h +:+ "/.local/state/smolmux")
             | None, None => "/tmp"
             end in
  mk_margs SM_DEFAULT_BAUD "" log text None false None None false None false 0 None
    (he_env "SMOLMUX_AUTH_TOKEN") None false None None None None 0 false false false wait false false false false.

(** ** Profiles *)

Definition SM_PROFILE_FILE_SUFFIX : string := ".smolmux-profile.json".
Definition SM_LIST_PROFILES_SEEN_MAX : nat := 64.

Definition load_profile_at (spec : string) : option device_profile :=
  match sm_profile_resolve_path spec SM_PROFILE_FILE_SUFFIX 512 with
  | None => None
  | Some path => let '(rc, p) := sm_profile_load me_slots (he_file path) sm_profile_init_default in
                 if rc =? 0 then Some p else None
  end.
Definition main_discover_profile (explicit_path : option string) : outcome device_profile :=
  let found spec := match load_profile_at spec with Some p => Go p | None => Exit 1 end in
  match nonempty_s explicit_path, nonempty_s (he_env "SMOLMUX_DEVICE_PROFILE") with
  | Some spec, _ => found spec
  | None, Some spec => found spec
  | None, None => Go sm_profile_init_default
  end.

(** The name, the description and the tag of a line; and the names seen. *)
Definition profile_row : Type := string * string * string.
Definition list_profile (tag path : string) (st : list profile_row * list string) : list profile_row * list string :=
  let '(rows, seen) := st in
  let '(rc, p) := sm_profile_load me_slots (he_file path) sm_profile_init_default in
  let name := pr_name (dp_base p) in
  if negb (rc =? 0) || existsb (streq name) seen then st else
  (rows ++ [(name, pr_description (dp_base p), tag)],
   if (length seen <? SM_LIST_PROFILES_SEEN_MAX)%nat then seen ++ [snprintf_s 64 name] else seen).
Definition list_profiles_glob (pattern tag : string) (st : list profile_row * list string) :=
  fold_left (fun st p => list_profile tag p st) (he_glob pattern) st.
(** No row: the hint where to put profiles is printed. *)
Definition do_list_profiles : list profile_row :=
  let st := match nonempty_s (he_env "SMOLMUX_DEVICE_PROFILE") with
            | Some path => list_profile "$SMOLMUX_DEVICE_PROFILE" path ([], []) | None => ([], []) end in
  let st := match he_env "HOME" with
            | Some h =>
                let dir := snprintf_s 512 (h +:+ "/.config/smolmux") in
                list_profiles_glob (dir +:+ snprintf_s (512 - String.length dir) ("/*" +:+ SM_PROFILE_FILE_SUFFIX)) "" st
            | None => st
            end in
  fst (list_profiles_glob ("profiles/*" +:+ SM_PROFILE_FILE_SUFFIX) "profiles/" st).

(** ** The link and the device *)

Inductive link_choice :=
  | LinkGdb (d : gdb_data) | LinkSerialTcp (d : serial_tcp_data) | LinkUart (d : uart_data).

Definition SM_SERIAL_TCP_DEFAULT_PORT : Z := 23.
Definition create_link (a : main_args) (port : option string) : outcome link_choice :=
  if ma_gdb a then
    exit_if (negb me_link) ;;
    let d := sm_gdb_new (ma_gdb_path a) (ma_gdb_target a) in
    Go (LinkGdb (if ma_allow_shell a then snd (gdb_set_param "allow_shell" "1" d) else d))
  else
  match ma_serial_tcp a with
  | Some spec =>
      let '(host, tport) := sm_parse_host_port spec 240 SM_SERIAL_TCP_DEFAULT_PORT in
      exit_if (negb me_link) ;; Go (LinkSerialTcp (sm_serial_tcp_new host tport))
  | None =>
      match port with
      | None => Exit 1
      | Some p => exit_if (negb me_link) ;; Go (LinkUart (sm_uart_new p (ma_baud a) true me_tty))
      end
  end.

Definition port_label (a : main_args) (port : option string) : string :=
  default (default "gdb" (ma_serial_tcp a)) port.
Definition main_socket (a : main_args) (port : option string) : outcome string :=
  if negb (streq (ma_socket a) "") then Go (ma_socket a) else
  match sm_derive_socket_path 108 (port_label a port) with Some p => Go p | None => Exit 1 end.

Definition wait_for_device (a : main_args) (port : option string) : outcome unit :=
  match port with
  | Some p => exit_if ((0 <? ma_wait_s a) &&
                       negb (sm_wait_device_open p (dbl_of_int (ma_wait_s a)) me_clock me_polls =? 0))
  | None => Go tt
  end.

Definition identity_ok : bool :=
  match nonempty_s (he_env "SMOLMUX_IDENTITY_OK") with Some v => negb (streq v "0") | None => false end.
Definition identity_gate (a : main_args) (port : option string) : outcome unit :=
  match nonempty_s (ma_board a), port with
  | Some _, Some p =>
      exit_if (sm_serial_by_id_is_weak p &&
               sm_identity_named_board_is_ambiguous true true (ma_policy a) (ma_by_path a)
                 (Some (default "" (sm_serial_resolve_by_path 256 p))) identity_ok)
  | _, _ => Go tt
  end.

Definition opt_copy (n : nat) (o : option string) : string :=
  match o with Some s => snprintf_s n s | None => "" end.
Definition configured_broker (a : main_args) (port : option string) : sm_broker :=
  let b := sm_broker_init me_alloc (snprintf_s 256 (port_label a port)) (ma_baud a) in
  {| b with
     b_board := opt_copy 64 (ma_board a); b_role := opt_copy 32 (ma_role a);
     b_identity := mk_ident (match port with Some p => sm_serial_by_id_is_weak p | None => false end)
                     (opt_copy 256 (nonempty_s (ma_by_path a))) "";
     b_link := {| (b_link b) with lf_reconnect := negb (ma_no_reconnect a) |} |}.

(** ** The token *)

Definition BROKER_TOKEN_LEN : nat := 64.
Definition given_token (a : main_args) : outcome string :=
  match ma_token_file a with
  | Some f => match sm_read_owner_secret_file f (Z.of_nat BROKER_TOKEN_LEN) with Some t => Go t | None => Exit 1 end
  | None => Go (opt_copy BROKER_TOKEN_LEN (ma_token a))
  end.

Definition tcp_on_loopback (a : main_args) : bool := (0 <? ma_tcp_port a) && sm_tcp_bind_is_loopback (ma_tcp_bind a).
Definition ws_on (a : main_args) : bool := 0 <? ma_ws_port a.
(** The token, and the ports whose clients find it in a file. *)
Definition generated_token (a : main_args) (token : string) : outcome (string * (Z * Z)) :=
  if streq token "" && negb (ma_insecure a) && (tcp_on_loopback a || ws_on a) then
    match sm_auth_token_generate (Z.of_nat BROKER_TOKEN_LEN) me_random with
    | None => Exit 1
    | Some t => Go (t, (if tcp_on_loopback a then ma_tcp_port a else 0, if ws_on a then ma_ws_port a else 0))
    end
  else Go (token, (0, 0)).

(** ** Sinks *)

Inductive sink_choice := SinkMcp | SinkTcp (t : sm_tcp_sink) | SinkWs (port : Z).
Definition sink_callbacks (s : sink_choice) : sm_sink :=
  match s with SinkMcp => mk_sink true true true | _ => mk_sink false false false end.
(** A sink that cannot be added is only reported. *)
Definition sm_broker_add_sink (n : nat) (s : sink_choice) (ss : list sink_choice) : list sink_choice :=
  if me_sinks n then ss ++ [s] else ss.

Definition add_mcp (a : main_args) (ss : list sink_choice) : outcome (list sink_choice) :=
  if ma_mcp a then exit_if (negb me_mcp) ;; Go (sm_broker_add_sink 0 SinkMcp ss) else Go ss.
Definition add_tcp (a : main_args) (token : string) (ss : list sink_choice) : outcome (list sink_choice) :=
  if 0 <? ma_tcp_port a then
    exit_if (sm_tcp_refuse_unauthenticated (ma_tcp_bind a) (negb (streq token "")) (ma_insecure a)) ;;
    match sm_tcp_sink_new me_tcp (ma_tcp_port a) (ma_tcp_bind a) with
    | None => Exit 1
    | Some t => Go (sm_broker_add_sink 1 (SinkTcp t) ss)
    end
  else Go ss.
Definition add_ws (a : main_args) (ss : list sink_choice) : outcome (list sink_choice) :=
  if 0 <? ma_ws_port a then exit_if (negb me_ws) ;; Go (sm_broker_add_sink 2 (SinkWs (ma_ws_port a)) ss) else Go ss.

(** ** Token files *)

(** The file of a kind of listener, if it needs one: its path and what it
    holds. *)
Definition token_file (token kind : string) (port : Z) : option (list (string * bytes)) :=
  if port <=? 0 then Some [] else
  match sm_auth_token_path 512 kind port with
  | None => None
  | Some path =>
      let '(chmod_ok, trunc_ok, w1, w2) := me_token_write path in
      let '(rc, content) := sm_auth_token_write (me_token_open path) chmod_ok trunc_ok w1 w2 token
                              (default [] (he_file path)) in
      if rc =? 0 then Some [(path, content)] else None
  end.
(** The files written; when the second fails the first is removed. *)
Definition token_files (token : string) (ports : Z * Z) : outcome (list (string * bytes)) :=
  match token_file token "tcp" (fst ports) with
  | None => Exit 1
  | Some f1 => match token_file token "ws" (snd ports) with None => Exit 1 | Some f2 => Go (f1 ++ f2) end
  end.

(** ** The program *)

Record startup := mk_startup {
  su_link : link_choice; su_socket : string; su_broker : sm_broker; su_profile : device_profile;
  su_log_dir : string; su_text_log_dir : string; su_no_text_log : bool; su_no_io_log : bool;
  su_sinks : list sink_choice; su_files : list (string * bytes) }.

(** Up to [sm_broker_run], with the first argument that is no option. *)
Definition broker_start (a : main_args) (port : option string) : outcome startup :=
  exit_if (match port, ma_serial_tcp a with None, None => negb (ma_gdb a) | _, _ => false end) ;;
  socket ← main_socket a port;
  link ← create_link a port;
  wait_for_device a port ;;
  identity_gate a port ;;
  token ← given_token a;
  gen ← generated_token a token;
  let '(token, ports) := gen : string * (Z * Z) in
  profile ← main_discover_profile (ma_profile a);
  let b := {| (configured_broker a port) with b_auth_token := token |} in
  let b := {| b with b_anomaly := sm_profile_apply_anomaly me_alloc profile (b_anomaly b);
                     b_boot := sm_profile_apply_boot me_alloc profile (b_boot b) |} in
  ss ← add_mcp a [];
  ss ← add_tcp a token ss;
  ss ← add_ws a ss;
  files ← token_files token ports;
  Go (mk_startup link socket {| b with b_sinks := map sink_callbacks ss |} profile (ma_log_dir a) (ma_text_log_dir a)
        (ma_no_text_log a) (ma_no_io_log a) ss files).
Definition main_start (os : list main_opt) (positional : list string) : outcome startup :=
  a ← main_options os main_defaults;
  if ma_list_ports a then Exit 0 else
  if ma_list_profiles a then Exit 0 else
  if ma_help_protocol a then Exit 0 else
  broker_start a (head positional).
(** The status, given that of [sm_broker_run], and the token files removed. *)
Definition main (os : list main_opt) (positional : list string) (rc : startup -> Z) : Z * list string :=
  match main_start os positional with
  | Exit code => (code, [])
  | Go s => (if rc s <? 0 then 1 else 0, map fst (su_files s))
  end.
End main.
