(* ===== verification/Watcher.v ===== *)
(** * The watcher ([src/watcher.c])

    An observer that writes a report for every anomaly: it asks for the output
    around it and waits for the answer, one anomaly at a time.  The clocks, the
    allocator and the file system answer through [WatchEnv]; the files the
    watcher made are part of the state.  cJSON copies succeed; diagnostics are
    left out. *)
From stdpp Require Import pretty.
From S2P Require Import Prelude Cstr Codecs Json CJson Protocol McpText Effects Client McpResults.
From S2P Require Import McpConn HostPaths.

#[local] Open Scope string_scope.
#[local] Open Scope list_scope.
#[local] Open Scope Z_scope.

Definition WATCHER_READ_BUF_INIT : Z := 65536.
Definition WATCHER_READ_BUF_MAX : Z := 4194304.
Definition SM_WATCHER_DEFAULT_OUTPUT_DIR : string := "./smolmux-incidents".
Definition SM_WATCHER_DEFAULT_CONTEXT_BYTES : Z := 8192.
Definition SM_WATCHER_RECONNECT_BASE_S : Z := 2.
Definition SM_WATCHER_RECONNECT_MAX_S : Z := 60.
Definition SM_WATCHER_HISTORY_TIMEOUT_S : Z := 5.

(** ** Dates *)

(** Year, month, day, hour, minute, second of seconds since 1970. *)
Definition gmtime (t : Z) : Z * Z * Z * Z * Z * Z :=
  let z := t / 86400 + 719468 in
  let era := z / 146097 in
  let doe := z mod 146097 in
  let yoe := (doe - doe / 1460 + doe / 36524 - doe / 146096) / 365 in
  let doy := doe - (365 * yoe + yoe / 4 - yoe / 100) in
  let mp := (5 * doy + 2) / 153 in
  let m := if mp <? 10 then mp + 3 else mp - 9 in
  let y := yoe + era * 400 + (if m <=? 2 then 1 else 0) in
  (y, m, doy - (153 * mp + 2) / 5 + 1, t / 3600 mod 24, t / 60 mod 60, t mod 60).
Example gmtime_days :
  gmtime 0 = (1970, 1, 1, 0, 0, 0) /\ gmtime 951827696 = (2000, 2, 29, 12, 34, 56) /\
  gmtime 1767225599 = (2025, 12, 31, 23, 59, 59).
Proof. by vm_compute. Qed.

(** ** Names *)

Definition name_char (c : Z) : bool :=
  ((97 <=? c) && (c <=? 122)) || ((65 <=? c) && (c <=? 90)) || isdigit c || (c =? 45) || (c =? 95).
Definition ends_dot (l : bytes) : bool := match last l with Some c => c =? 46 | None => false end.
(** The last dot becomes an underscore. *)
Definition undot (l : bytes) : bytes := if ends_dot l then removelast l ++ [95] else l.
Fixpoint sanitize_loop (limit : Z) (dst src : bytes) : bytes :=
  match src with
  | [] => dst
  | c :: src' =>
      if limit <=? zlen dst then dst else
      sanitize_loop limit (if name_char c then dst ++ [c] else if c =? 46 then undot dst ++ [46] else dst ++ [95]) src'
  end.
Definition watcher_sanitize_filename (src : string) (dst_len : Z) : string :=
  string_of_bytes (undot (sanitize_loop (Z.min 128 (dst_len - 1)) [] (bytes_of_string src))).

Definition date_part (ts : double) : string :=
  if 0 <? ts then
    let '(y, m, d, h, mi, s) := gmtime (ts / one_s) in
    pretty y +:+ fmt_pad 2 m +:+ fmt_pad 2 d +:+ "-" +:+ fmt_pad 2 h +:+ fmt_pad 2 mi +:+ fmt_pad 2 s
  else "00000000-000000".
Definition watcher_make_report_filename (anomaly : json) (out_len : nat) : string :=
  let part key := watcher_sanitize_filename (default "unknown" (sm_json_get_string anomaly key)) 130 in
  snprintf_s out_len (date_part (sm_json_get_double anomaly "timestamp" 0) +:+ "-" +:+ part "pattern_name" +:+ "-" +:+
                      part "incident_id" +:+ ".md").

(** ** The report *)

Definition format_timestamp (ts : double) : string :=
  if ts <=? 0 then "unknown" else
  let '(y, m, d, h, mi, s) := gmtime (ts / one_s) in
  snprintf_s 64 (fmt_pad 4 y +:+ "-" +:+ fmt_pad 2 m +:+ "-" +:+ fmt_pad 2 d +:+ "T" +:+ fmt_pad 2 h +:+ ":" +:+
                 fmt_pad 2 mi +:+ ":" +:+ fmt_pad 2 s +:+ "." +:+ fmt_pad 6 (ts mod one_s / 1000) +:+ "Z").
Definition format_chunk_timestamp (ts : double) : string :=
  if ts <=? 0 then "?" else
  let '(_, _, _, h, mi, s) := gmtime (ts / one_s) in
  snprintf_s 32 (fmt_pad 2 h +:+ ":" +:+ fmt_pad 2 mi +:+ ":" +:+ fmt_pad 2 s +:+ "." +:+ fmt_pad 3 (ts mod one_s / 1000000)).

(** Items of an array or members of an object. *)
Definition json_children (j : option json) : list json :=
  match j with Some (JArr l) => l | Some (JObj ms) => map snd ms | _ => [] end.
Definition fence : string := "```".
Definition chunk_report (chunk : json) : bytes :=
  match sm_json_get_string chunk "data" ≫= fun b => sm_base64_decode (bytes_of_string b) with
  | None => []
  | Some data =>
      bytes_of_string ("**[" +:+ format_chunk_timestamp (sm_json_get_double chunk "timestamp" 0) +:+ "]**" +:+ nl +:+ fence +:+ nl)
      ++ map (fun c => if c =? 0 then 32 else c) data ++ bytes_of_string (nl +:+ fence +:+ nl +:+ nl)
  end.
Definition watcher_format_report (anomaly : json) (chunks : option json) : bytes :=
  let field key def := default def (sm_json_get_string anomaly key) in
  let row name value := "| " +:+ name +:+ " | " +:+ value +:+ " |" +:+ nl in
  let pre := field "pre_context" "" in
  bytes_of_string ("# Incident: " +:+ field "pattern_name" "unknown" +:+ nl +:+ nl +:+
    row "Field" "Value" +:+ "|-------|-------|" +:+ nl +:+
    row "Incident ID" ("`" +:+ field "incident_id" "" +:+ "`") +:+
    row "Pattern" (field "pattern_name" "") +:+
    row "Severity" (field "severity" "") +:+
    row "Timestamp" (format_timestamp (sm_json_get_double anomaly "timestamp" 0)) +:+
    row "Match" (field "match_text" "") +:+ nl +:+
    (if streq pre "" then "" else "## Pre-context" +:+ nl +:+ nl +:+ fence +:+ nl +:+ pre +:+ nl +:+ fence +:+ nl +:+ nl) +:+
    "## Output History" +:+ nl +:+ nl)
  ++ match json_children chunks with
     | [] => bytes_of_string ("(no history available)" +:+ nl +:+ nl)
     | l => mjoin (map chunk_report l)
     end.

(** ** State *)

(** A report that was due: for which anomaly and with which history, under which
    path and with which text, and whether the watcher counts it as written;
    [wt_files] are the files it made. *)
Record report := mk_report {
  rp_anomaly : json; rp_chunks : option json; rp_path : string; rp_text : bytes; rp_written : bool }.
Record watcher_ctx := mk_watcher {
  wt_output_dir : string; wt_context_bytes : Z; wt_read : bytes; wt_read_cap : Z; wt_incident_count : Z;
  wt_pending : option json; wt_pending_id : string; wt_pending_time : Z; wt_seq : Z;
  wt_sent : list json; wt_reports : list report; wt_files : list (string * bytes); wt_tick : nat }.
(** [we_text]: there is memory for the text; [we_open]: the system lets a new
    file be made; [we_stored]: how much of a text reaches it. *)
Class WatchEnv := {
  we_token : option string; we_time : nat -> Z; we_nsec : nat -> Z; we_realloc : nat -> bool; we_text : nat -> bool;
  we_open : nat -> string -> bool; we_fdopen : nat -> bool; we_stored : nat -> Z -> Z }.

Section watcher.
Context {J : JsonText} {N : WatchEnv}.

Definition wt_send (msg : json) (c : watcher_ctx) : watcher_ctx := {| c with wt_sent := wt_sent c ++ [msg] |}.
Definition clear_pending (c : watcher_ctx) : watcher_ctx :=
  {| c with wt_pending := None; wt_pending_id := ""; wt_pending_time := 0 |}.

(** The file is made with [O_EXCL]: not over one that is there.  What [fputs] and
    [fclose] return is not looked at. *)
Definition write_report (anomaly : json) (chunks : option json) (c : watcher_ctx) : watcher_ctx :=
  let n := wt_tick c in
  let text := watcher_format_report anomaly chunks in
  let path := snprintf_s 768 (wt_output_dir c +:+ "/" +:+ watcher_make_report_filename anomaly 512) in
  let taken := existsb (fun f => streq (fst f) path) (wt_files c) in
  let opened := we_text n && negb taken && we_open n path in
  let ok := opened && we_fdopen n in
  {| c with wt_tick := S n;
            wt_incident_count := if ok then wt_incident_count c + 1 else wt_incident_count c;
            wt_files := if opened then wt_files c ++ [(path, if ok then ztake (we_stored n (zlen text)) text else [])]
                        else wt_files c;
            wt_reports := wt_reports c ++ [mk_report anomaly chunks path text ok] |}.

Definition make_request_id (n : nat) (seq : Z) : string := snprintf_s 64 ("w-" +:+ pretty (we_nsec n) +:+ "-" +:+ pretty seq).

(** A report without history for an anomaly that still waits. *)
Definition flush_pending (c : watcher_ctx) : watcher_ctx :=
  match wt_pending c with Some a => clear_pending (write_report a None c) | None => c end.
Definition wt_handle_anomaly (root : json) (c : watcher_ctx) : watcher_ctx :=
  let c := flush_pending c in
  let n := wt_tick c in
  let id := make_request_id n (wt_seq c) in
  wt_send (sm_msg_history_request (Some id) 0 (wt_context_bytes c))
    {| c with wt_pending := Some root; wt_pending_id := id; wt_pending_time := we_time n; wt_seq := wt_seq c + 1;
              wt_tick := S n |}.
Definition handle_history_response (root : json) (c : watcher_ctx) : watcher_ctx :=
  match wt_pending c, sm_json_get_string root "id" with
  | Some a, Some id =>
      if streq id (wt_pending_id c) then clear_pending (write_report a (get_item_ci root "chunks") c) else c
  | _, _ => c
  end.
Definition wt_dispatch (m : sm_msg) (c : watcher_ctx) : watcher_ctx :=
  match m_root m, m_type m with
  | Some root, SM_MSG_ANOMALY => wt_handle_anomaly root c
  | Some root, SM_MSG_HISTORY_RESPONSE => handle_history_response root c
  | _, _ => c
  end.

Fixpoint wt_lines (fuel : nat) (buf : bytes) (c : watcher_ctx) : bytes * watcher_ctx :=
  match fuel, split_line buf with
  | S f, Some (line, rest) => wt_lines f rest (wt_dispatch (sm_msg_decode line) c)
  | _, _ => (buf, c)
  end.
(** Room for a byte and the terminator: the new capacity. *)
Definition wt_grow (c : watcher_ctx) : option watcher_ctx :=
  let cap := wt_read_cap c in
  if zlen (wt_read c) + 1 <? cap then Some c else
  let new := if cap =? 0 then WATCHER_READ_BUF_INIT else cap * 2 in
  if (WATCHER_READ_BUF_MAX <? new) && (WATCHER_READ_BUF_MAX <=? cap) then None else
  if we_realloc (wt_tick c)
  then Some {| c with wt_tick := S (wt_tick c); wt_read_cap := Z.min new WATCHER_READ_BUF_MAX |} else None.
(** Whether the connection holds. *)
Definition wt_broker_data (r : rres) (c : watcher_ctx) : bool * watcher_ctx :=
  match wt_grow c with
  | None => (false, c)
  | Some c =>
      match sys_read (wt_read_cap c - zlen (wt_read c) - 1) r with
      | RBytes b =>
          let '(rest, c) := wt_lines (length (wt_read c ++ b)) (wt_read c ++ b) c in
          (true, {| c with wt_read := rest |})
      | _ => (false, c)
      end
  end.

Definition check_pending_timeout (c : watcher_ctx) : watcher_ctx :=
  match wt_pending c with
  | None => c
  | Some a =>
      let n := wt_tick c in
      let c := {| c with wt_tick := S n |} in
      if SM_WATCHER_HISTORY_TIMEOUT_S <=? we_time n - wt_pending_time c then flush_pending c else c
  end.

(** ** The program *)

(** A [poll]: interrupted, failed, or what is ready (nothing at the timeout). *)
Inductive watch_poll := WatchIntr | WatchFail | WatchReady (pin phup : bool) (r : rres).
Fixpoint watch_loop (ps : list watch_poll) (c : watcher_ctx) : watcher_ctx :=
  match ps with
  | [] => c
  | WatchIntr :: ps' => watch_loop ps' c
  | WatchFail :: _ => c
  | WatchReady pin phup r :: ps' =>
      let '(up, c) := if pin then wt_broker_data r c else (true, c) in
      if negb up || phup then c else watch_loop ps' (check_pending_timeout c)
  end.
(** A connection: the first read, then the loop. *)
Definition watch_session (welcome : rres) (ps : list watch_poll) (c : watcher_ctx) : watcher_ctx :=
  let c := clear_pending {| c with wt_read := [] |} in
  let c := wt_send (sm_msg_hello we_token (Some "watcher") (Some "observer")) c in
  clear_pending (watch_loop ps (snd (wt_broker_data welcome c))).

Definition watch_next_delay (d : Z) : Z := Z.min (d * 2) SM_WATCHER_RECONNECT_MAX_S.
(** Attempts to connect, until a signal; the waits between them, in seconds. *)
Fixpoint watcher_main (delay : Z) (conns : list (option (rres * list watch_poll))) (c : watcher_ctx) : list Z * watcher_ctx :=
  match conns with
  | [] => ([], c)
  | None :: conns' =>
      let '(ds, c) := watcher_main (watch_next_delay delay) conns' c in (delay :: ds, c)
  | Some (welcome, ps) :: conns' =>
      let '(ds, c) := watcher_main (watch_next_delay SM_WATCHER_RECONNECT_BASE_S) conns' (watch_session welcome ps c) in
      (SM_WATCHER_RECONNECT_BASE_S :: ds, c)
  end.
End watcher.

Definition watcher_start (output_dir context_bytes : option string) : watcher_ctx :=
  let n := match context_bytes with Some s => atoi (bytes_of_string s) | None => SM_WATCHER_DEFAULT_CONTEXT_BYTES end in
  mk_watcher (snprintf_s 256 (default SM_WATCHER_DEFAULT_OUTPUT_DIR output_dir))
    (if n <=? 0 then SM_WATCHER_DEFAULT_CONTEXT_BYTES else n) [] 0 0 None "" 0 0 [] [] [] 0.
(** The socket watched: given, or found when there is no doubt. *)
Definition watcher_socket `{!HostEnv} (socket : option string) (args : list string) : option string :=
  match (match socket with Some s => Some s | None => head args end) with
  | None =>
      if sm_autodiscover_should_refuse (match nonempty_s (he_env "SMOLMUX_SOCKET") with Some _ => true | None => false end)
      then None else sm_discover_socket 108
  | Some s => fst <$> sm_resolve_client_socket 108 s
  end.

(** ** What every report keeps

    Whatever relates the states around a report and around steps that make
    none relates those around a run. *)
Section runs.
Context {J : JsonText} {N : WatchEnv} (R : watcher_ctx -> watcher_ctx -> Prop) {HR : PreOrder R}.
Context (Hwrite : forall a chunks c, R c (write_report a chunks c)).
Context (Hsame : forall c c', wt_output_dir c' = wt_output_dir c -> wt_reports c' = wt_reports c ->
  wt_files c' = wt_files c -> wt_incident_count c' = wt_incident_count c -> R c c').

Lemma flush_pending_keeps c : R c (flush_pending c).
Proof. unfold flush_pending. destruct (wt_pending c); [|done]. etrans; [apply Hwrite|by apply Hsame]. Qed.
Lemma dispatch_keeps m c : R c (wt_dispatch m c).
Proof.
  unfold wt_dispatch. destruct (m_root m) as [root|]; [|done]. destruct (m_type m); try done.
  - unfold handle_history_response. destruct (wt_pending c); [|done]. destruct (sm_json_get_string _ _); [|done].
    destruct (streq _ _); [|done]. etrans; [apply Hwrite|by apply Hsame].
  - etrans; [apply flush_pending_keeps|by apply Hsame].
Qed.
Lemma lines_keep fuel buf c : R c (snd (wt_lines fuel buf c)).
Proof.
  revert buf c. induction fuel as [|fuel IH]; intros buf c; [done|]. cbn [wt_lines].
  destruct (split_line buf) as [[line rest]|]; [|done]. etrans; [apply dispatch_keeps|apply IH].
Qed.
Lemma broker_data_keeps r c : R c (snd (wt_broker_data r c)).
Proof.
  unfold wt_broker_data. destruct (wt_grow c) as [c1|] eqn:Eg; [|done].
  assert (R c c1) as H1.
  { unfold wt_grow in Eg. cbv zeta in Eg. destruct (_ <? _); [by injection Eg as <-|].
    destruct (_ && _); [done|]. destruct (we_realloc _); [|done]. injection Eg as <-. by apply Hsame. }
  destruct (sys_read _ r) as [b| | |]; try done.
  pose proof (lines_keep (length (wt_read c1 ++ b)) (wt_read c1 ++ b) c1) as H2. destruct (wt_lines _ _ c1).
  etrans; [exact H1|]. etrans; [exact H2|by apply Hsame].
Qed.
Lemma timeout_keeps c : R c (check_pending_timeout c).
Proof.
  unfold check_pending_timeout. destruct (wt_pending c) eqn:Ep; [|done]. cbv zeta. rewrite <- Ep.
  destruct (_ <=? _); [|by apply Hsame]. etrans; [|apply flush_pending_keeps]. by apply Hsame.
Qed.
Lemma loop_keeps ps c : R c (watch_loop ps c).
Proof.
  revert c. induction ps as [|[| |pin phup r] ps IH]; intros c; cbn [watch_loop]; [done|by apply IH|done|].
  pose proof (broker_data_keeps r c) as Hb.
  destruct pin; [destruct (wt_broker_data r c) as [up c1]|];
    (destruct (_ || _); [done|]; (etrans; [|apply IH]); (etrans; [|apply timeout_keeps]); done).
Qed.
Lemma session_keeps welcome ps c : R c (watch_session welcome ps c).
Proof.
  unfold watch_session. cbv zeta. set (c1 := wt_send _ _). trans c1; [by apply Hsame|].
  etrans; [apply (broker_data_keeps welcome c1)|]. etrans; [apply (loop_keeps ps)|by apply Hsame].
Qed.
Lemma main_keeps delay conns c : R c (snd (watcher_main delay conns c)).
Proof.
  revert delay c. induction conns as [|[[welcome ps]|] conns IH]; intros delay c; cbn [watcher_main]; [done|..].
  - pose proof (IH (watch_next_delay SM_WATCHER_RECONNECT_BASE_S) (watch_session welcome ps c)) as Hi.
    destruct (watcher_main _ _ _). etrans; [apply session_keeps|exact Hi].
  - pose proof (IH (watch_next_delay delay) c) as Hi. by destruct (watcher_main _ _ _).
Qed.
End runs.

(** ** Every anomaly is noted *)

Section noted.
Context {J : JsonText} {N : WatchEnv}.

(** The anomalies reported so far, and the one that waits for its history. *)
Definition noted (c : watcher_ctx) : list json :=
  map rp_anomaly (wt_reports c) ++ match wt_pending c with Some a => [a] | None => [] end.
Definition anomaly_of (m : sm_msg) : list json :=
  match m_root m, m_type m with Some root, SM_MSG_ANOMALY => [root] | _, _ => [] end.

Lemma write_report_notes a chunks c :
  wt_pending c = Some a -> noted (clear_pending (write_report a chunks c)) = noted c.
Proof. intros Hp. unfold noted. cbn. by rewrite map_app, Hp, app_nil_r. Qed.
Lemma flush_pending_notes c : noted (flush_pending c) = noted c /\ wt_pending (flush_pending c) = None.
Proof.
  unfold flush_pending. destruct (wt_pending c) as [a|] eqn:Hp; [|done]. split; [by apply write_report_notes|done].
Qed.
Lemma dispatch_notes m c : noted (wt_dispatch m c) = noted c ++ anomaly_of m.
Proof.
  unfold wt_dispatch, anomaly_of. destruct (m_root m) as [root|]; [|by rewrite app_nil_r].
  destruct (m_type m); rewrite ?app_nil_r; try done.
  - unfold handle_history_response. destruct (wt_pending c) as [a|] eqn:Hp; [|done].
    destruct (sm_json_get_string root "id"); [|done]. destruct (streq _ _); [|done]. by apply write_report_notes.
  - destruct (flush_pending_notes c) as [Hn Hp]. rewrite <- Hn. unfold noted. cbn. rewrite Hp. by rewrite app_nil_r.
Qed.

Lemma lines_note fuel buf c d :
  (length buf <= fuel)%nat ->
  let '(rest, c') := wt_lines fuel buf c in
  noted c' = noted c ++ mjoin (map anomaly_of (msgs_of buf)) /\ split_line rest = None /\
  msgs_of (buf ++ d) = msgs_of buf ++ msgs_of (rest ++ d).
Proof.
  revert buf c. induction fuel as [|fuel IH]; intros buf c Hf.
  { destruct buf; [|simpl in Hf; lia]. cbn. by rewrite app_nil_r. }
  cbn [wt_lines]. destruct (split_line buf) as [[line rest]|] eqn:Es.
  - destruct (split_line_spec _ _ _ Es) as [Hb _].
    assert (length rest <= fuel)%nat as Hr by (rewrite Hb, length_app in Hf; simpl in Hf; lia).
    pose proof (msgs_of_split _ _ _ [] Es) as Hm0. rewrite !app_nil_r in Hm0.
    rewrite (msgs_of_split _ _ _ d Es), Hm0.
    specialize (IH rest (wt_dispatch (sm_msg_decode line) c) Hr). destruct (wt_lines fuel rest _) as [r c'].
    destruct IH as (H1 & H2 & H3). split_and!; [|done|by rewrite H3, app_assoc].
    rewrite H1, dispatch_notes, map_app, join_app, <- app_assoc. do 2 f_equal.
    rewrite line_msgs_cases. unfold anomaly_of at 1. destruct (m_root (sm_msg_decode line)) eqn:Er; [|done].
    cbn [map mjoin list_join]. rewrite app_nil_r. unfold anomaly_of. by rewrite Er.
  - rewrite (msgs_of_none _ Es). cbn. by rewrite app_nil_r.
Qed.

(** The bytes a read takes, and all those of a run of the loop. *)
Definition watch_took (r : rres) (c : watcher_ctx) : bytes :=
  match wt_grow c with
  | Some c => match sys_read (wt_read_cap c - zlen (wt_read c) - 1) r with RBytes b => b | _ => [] end
  | None => []
  end.
Fixpoint watch_bytes (ps : list watch_poll) (c : watcher_ctx) : bytes :=
  match ps with
  | WatchIntr :: ps' => watch_bytes ps' c
  | WatchReady pin phup r :: ps' =>
      let '(up, c') := if pin then wt_broker_data r c else (true, c) in
      (if pin then watch_took r c else []) ++
      (if negb up || phup then [] else watch_bytes ps' (check_pending_timeout c'))
  | _ => []
  end.

Lemma broker_data_notes r c d :
  split_line (wt_read c) = None ->
  let '(_, c') := wt_broker_data r c in
  exists ms, msgs_of (wt_read c ++ watch_took r c ++ d) = ms ++ msgs_of (wt_read c' ++ d) /\
    noted c' = noted c ++ mjoin (map anomaly_of ms) /\ split_line (wt_read c') = None.
Proof.
  intros Hs. unfold wt_broker_data, watch_took. destruct (wt_grow c) as [c1|] eqn:Eg;
    [|exists []; by rewrite app_nil_r].
  assert (wt_read c1 = wt_read c /\ noted c1 = noted c) as [Hr Hn].
  { unfold wt_grow in Eg. cbv zeta in Eg. destruct (_ <? _); [by injection Eg as <-|].
    destruct (_ && _); [done|]. destruct (we_realloc _); [by injection Eg as <-|done]. }
  destruct (sys_read _ r) as [b| | |]; try (exists []; by rewrite Hr, Hn, app_nil_r).
  pose proof (lines_note (length (wt_read c1 ++ b)) (wt_read c1 ++ b) c1 d ltac:(lia)) as Hl.
  destruct (wt_lines _ _ c1) as [rest c2]. destruct Hl as (H1 & H2 & H3). rewrite Hr in *.
  exists (msgs_of (wt_read c ++ b)). cbn [wt_read]. rewrite app_assoc. split_and!; [done| |done].
  rewrite <- Hn. exact H1.
Qed.
Lemma timeout_notes c : noted (check_pending_timeout c) = noted c /\ wt_read (check_pending_timeout c) = wt_read c.
Proof.
  unfold check_pending_timeout. destruct (wt_pending c) as [a|] eqn:Hp; [|done]. cbv zeta. rewrite <- Hp.
  destruct (_ <=? _); [|done].
  set (c1 := {| c with wt_tick := _ |}). change (noted c) with (noted c1). split; [apply flush_pending_notes|].
  unfold flush_pending. cbn. by rewrite Hp.
Qed.

Lemma loop_notes ps c :
  split_line (wt_read c) = None ->
  exists ms, noted (watch_loop ps c) = noted c ++ mjoin (map anomaly_of ms) /\
    msgs_of (wt_read c ++ watch_bytes ps c) = ms ++ msgs_of (wt_read (watch_loop ps c)) /\
    split_line (wt_read (watch_loop ps c)) = None.
Proof.
  revert c. induction ps as [|p ps IH]; intros c Hs; [exists []; cbn; by rewrite !app_nil_r|].
  destruct p as [| |pin phup r]; cbn [watch_loop watch_bytes]; [by apply IH|exists []; by rewrite !app_nil_r|].
  destruct pin.
  - destruct (wt_broker_data r c) as [up c1] eqn:Ed.
    set (more := if negb up || phup then [] else watch_bytes ps (check_pending_timeout c1)).
    pose proof (broker_data_notes r c more Hs) as Hb. rewrite Ed in Hb. destruct Hb as (ms & H1 & H2 & H3).
    destruct (negb up || phup); subst more; cbv beta iota in *.
    + exists ms. rewrite app_nil_r in *. rewrite H1, app_nil_r. done.
    + destruct (timeout_notes c1) as [T1 T2].
      destruct (IH (check_pending_timeout c1)) as (ms2 & H4 & H5 & H6); [by rewrite T2|].
      exists (ms ++ ms2). rewrite H4, T1, H2, map_app, join_app, <- app_assoc. split_and!; [done| |done].
      rewrite H1, <- T2, H5, app_assoc. done.
  - destruct (negb true || phup) eqn:E; [exists []; by rewrite !app_nil_r|].
    destruct (timeout_notes c) as [T1 T2].
    destruct (IH (check_pending_timeout c)) as (ms2 & H4 & H5 & H6); [by rewrite T2|].
    exists ms2. rewrite H4, T1. split_and!; [done| |done]. cbn [app]. rewrite <- H5, T2. done.
Qed.

(** *** The files *)

(** Memory and file system do what they are asked. *)
Definition system_works : Prop := forall n,
  we_text n = true /\ (forall path, we_open n path = true) /\ we_fdopen n = true /\ (forall len, we_stored n len = len).
(** The report says what it should, is in its file if it counts as written, and
    it does if the system works, unless a file of its name was there. *)
Definition filed (files : list (string * bytes)) (r : report) : Prop :=
  rp_text r = watcher_format_report (rp_anomaly r) (rp_chunks r) /\
  (rp_written r = true -> exists n, In (rp_path r, ztake (we_stored n (zlen (rp_text r))) (rp_text r)) files) /\
  (system_works -> In (rp_path r) (map fst files) /\ (rp_written r = true -> In (rp_path r, rp_text r) files)).
Definition count_written (rs : list report) : Z := zlen (List.filter rp_written rs).

Definition files_reports (c c' : watcher_ctx) : Prop :=
  (exists more, wt_files c' = wt_files c ++ more) /\
  exists new, wt_reports c' = wt_reports c ++ new /\ Forall (filed (wt_files c')) new /\
    wt_incident_count c' = wt_incident_count c + count_written new.

Lemma filed_more files more r : filed files r -> filed (files ++ more) r.
Proof.
  intros (H1 & H2 & H3). split_and!; [done| |].
  - intros Hw. destruct (H2 Hw) as [n Hn]. exists n. apply in_app_iff. by left.
  - intros Hs. destruct (H3 Hs) as [H4 H5]. split; [rewrite map_app; apply in_app_iff; by left|].
    intros Hw. apply in_app_iff. left. by apply H5.
Qed.
#[local] Instance files_reports_preorder : PreOrder files_reports.
Proof.
  split.
  - intros c. split; [exists []; by rewrite app_nil_r|]. exists []. rewrite app_nil_r. split_and!; [done..|].
    unfold count_written. cbn [List.filter]. rewrite zlen_nil. lia.
  - intros c1 c2 c3 [[m1 F1] (n1 & R1 & W1 & C1)] [[m2 F2] (n2 & R2 & W2 & C2)]. split.
    + exists (m1 ++ m2). by rewrite F2, F1, app_assoc.
    + exists (n1 ++ n2). split_and!; [by rewrite R2, R1, app_assoc| |].
      * apply Forall_app. split; [|done]. eapply Forall_impl; [exact W1|]. intros r Hr. rewrite F2. by apply filed_more.
      * rewrite C2, C1. unfold count_written. rewrite List.filter_app, zlen_app. lia.
Qed.
Lemma write_report_filed a chunks c : files_reports c (write_report a chunks c).
Proof.
  unfold write_report. cbv zeta. set (text := watcher_format_report a chunks). set (path := snprintf_s 768 _).
  set (taken := existsb _ (wt_files c)). set (opened := we_text _ && negb taken && we_open _ path).
  assert (taken = true -> In path (map fst (wt_files c))) as Ht.
  { intros (f & Hf & He%streq_spec)%existsb_exists. apply in_map_iff. by exists f. }
  split; [cbn; destruct opened; [by eexists|exists []; by rewrite app_nil_r]|].
  eexists [_]. split_and!; [done| |].
  - constructor; [|done]. unfold filed. cbn [rp_text rp_anomaly rp_chunks rp_path rp_written wt_files]. split_and!; [done| |].
    + intros [Ho Hf]%andb_true_iff. rewrite Ho, Hf. cbn [andb]. exists (wt_tick c). apply in_app_iff. right. by left.
    + intros Hs. destruct (Hs (wt_tick c)) as (S1 & S2 & S3 & S4). unfold opened in *. rewrite S1, S2, S3. cbn [andb].
      rewrite !andb_true_r. destruct taken; cbn [negb]; [split; [by apply Ht|done]|]. rewrite S4, ztake_all by lia.
      split; [rewrite map_app; apply in_app_iff; right; by left|]. intros _. apply in_app_iff. right. by left.
  - cbn [wt_incident_count]. unfold count_written. cbn [List.filter rp_written]. destruct (opened && _); rewrite ?zlen_cons, zlen_nil; lia.
Qed.
Lemma same_filed c c' : wt_output_dir c' = wt_output_dir c -> wt_reports c' = wt_reports c ->
  wt_files c' = wt_files c -> wt_incident_count c' = wt_incident_count c -> files_reports c c'.
Proof.
  intros _ Hr Hf Hc. split; [exists []; by rewrite Hf, app_nil_r|]. exists []. rewrite Hr, Hc, app_nil_r.
  split_and!; [done..|]. unfold count_written. cbn [List.filter]. rewrite zlen_nil. lia.
Qed.

End noted.

(** ** Reports stay in their directory *)

Definition safe_char (c : Z) : bool := name_char c || (c =? 46).
(** No two dots in a row; [prev]: behind a dot. *)
Fixpoint dots_ok (prev : bool) (l : bytes) : bool :=
  match l with [] => true | c :: l' => negb (prev && (c =? 46)) && dots_ok (c =? 46) l' end.
Definition dot_after (prev : bool) (l : bytes) : bool := match last l with Some c => c =? 46 | None => prev end.
(** A file name of harmless characters that is no path. *)
Definition safe_name (prev : bool) (l : bytes) : bool := forallb safe_char l && dots_ok prev l.

Lemma dot_after_cons prev c l : dot_after prev (c :: l) = dot_after (c =? 46) l.
Proof. unfold dot_after. rewrite last_cons. by destruct (last l). Qed.
Lemma dots_ok_app prev a b : dots_ok prev (a ++ b) = dots_ok prev a && dots_ok (dot_after prev a) b.
Proof.
  revert prev. induction a as [|c a IH]; intros prev; [done|]. cbn [app dots_ok].
  by rewrite IH, dot_after_cons, andb_assoc.
Qed.
Lemma safe_name_app prev a b : safe_name prev (a ++ b) = safe_name prev a && safe_name (dot_after prev a) b.
Proof.
  unfold safe_name. rewrite forallb_app, dots_ok_app. destruct (forallb safe_char a), (forallb safe_char b), (dots_ok prev a); done.
Qed.
Lemma dot_after_snoc prev l c : dot_after prev (l ++ [c]) = (c =? 46).
Proof. unfold dot_after. by rewrite last_snoc. Qed.
Lemma name_char_dot c : name_char c = true -> (c =? 46) = false.
Proof. unfold name_char, isdigit. intros H. destruct (Z.eqb_spec c 46) as [->|]; [done|done]. Qed.
(** Characters other than dots are safe behind anything. *)
Lemma plain_name prev l : forallb name_char l = true -> safe_name prev l = true /\ (l <> [] -> dot_after prev l = false).
Proof.
  revert prev. induction l as [|c l IH]; intros prev; [done|]. cbn [forallb]. intros [Hc Hl]%andb_true_iff.
  destruct (IH (c =? 46) Hl) as [H1 H2]. unfold safe_name in *. apply andb_true_iff in H1 as [H1 H3]. cbn [forallb dots_ok].
  rewrite H1, H3, (name_char_dot _ Hc), andb_false_r. unfold safe_char. rewrite Hc. split; [done|]. intros _.
  rewrite dot_after_cons, (name_char_dot _ Hc). destruct l; [done|].
  rewrite (name_char_dot _ Hc) in H2. by apply H2.
Qed.

Lemma undot_safe l : safe_name false l = true -> safe_name false (undot l) = true /\ ends_dot (undot l) = false.
Proof.
  intros Hl. unfold undot. destruct (ends_dot l) eqn:E; [|done]. unfold ends_dot. rewrite last_snoc. split; [|done].
  destruct l as [|x l _] using rev_ind; [done|]. rewrite removelast_last. rewrite safe_name_app in *.
  apply andb_true_iff in Hl as [-> _]. cbn. unfold safe_name. cbn. by rewrite andb_false_r.
Qed.
Lemma sanitize_safe limit dst src : safe_name false dst = true -> safe_name false (sanitize_loop limit dst src) = true.
Proof.
  revert dst. induction src as [|c src IH]; intros dst Hd; [done|]. cbn [sanitize_loop]. destruct (_ <=? _); [done|].
  apply IH. destruct (name_char c) eqn:Ec; [|destruct (Z.eqb_spec c 46) as [->|]].
  - rewrite safe_name_app, Hd. apply (plain_name _ [c]). cbn. by rewrite Ec.
  - destruct (undot_safe dst Hd) as [H1 H2]. rewrite safe_name_app, H1. unfold ends_dot in H2. unfold dot_after.
    destruct (last (undot dst)); [by rewrite H2|done].
  - rewrite safe_name_app, Hd. apply (plain_name _ [95]). done.
Qed.

(** *** Names in strings *)

Lemma bytes_of_string_cat a b : bytes_of_string (a +:+ b) = bytes_of_string a ++ bytes_of_string b.
Proof. induction a as [|x a IH]; [done|]. simpl. by rewrite IH. Qed.
Lemma snprintf_take n s : bytes_of_string (snprintf_s n s) = take (n - 1) (bytes_of_string s).
Proof. unfold snprintf_s. generalize (n - 1)%nat as k. induction s as [|x s IH]; intros [|k]; simpl; [done..|]. by rewrite IH. Qed.
Definition plain_string (s : string) : bool := forallb name_char (bytes_of_string s).
Lemma plain_cat a b : plain_string (a +:+ b) = plain_string a && plain_string b.
Proof. unfold plain_string. by rewrite bytes_of_string_cat, forallb_app. Qed.

Lemma pretty_N_plain x s : plain_string s = true -> plain_string (pretty_N_go x s) = true.
Proof.
  revert s. induction (N.lt_wf_0 x) as [x _ IH]. intros s Hs. destruct (decide (x = 0)%N) as [->|Hx].
  { by rewrite pretty_N_go_0. }
  rewrite pretty_N_go_step by lia. apply IH; [apply N.div_lt; lia|]. unfold plain_string in *. cbn [bytes_of_string forallb].
  rewrite Hs, andb_true_r. unfold pretty_N_char. repeat (case_match; try done).
Qed.
Lemma pretty_plain (z : Z) : plain_string (pretty z) = true.
Proof.
  assert (forall p, plain_string (pretty (N.pos p)) = true) as Hp.
  { intros p. unfold pretty, pretty_N. case_decide; [done|]. by apply pretty_N_plain. }
  destruct z as [|p|p]; [done|apply Hp|]. change (pretty (Z.neg p)) with ("-" +:+ pretty (N.pos p)). by rewrite plain_cat, Hp.
Qed.
Lemma fmt_pad_plain w n : plain_string (fmt_pad w n) = true.
Proof.
  assert (forall w s, plain_string s = true -> plain_string (pad_left w s) = true) as Hp.
  { intros v s Hs. unfold pad_left. rewrite plain_cat, Hs, andb_true_r. unfold plain_string. rewrite bytes_of_string_of_bytes.
    - apply forallb_forall. intros x Hx%list_elem_of_In. apply elem_of_replicate in Hx as [-> _]. done.
    - by apply Forall_replicate. }
  unfold fmt_pad. destruct (n <? 0); [rewrite plain_cat|]; apply Hp, pretty_plain.
Qed.
Lemma date_part_plain ts : plain_string (date_part ts) = true.
Proof.
  unfold date_part. destruct (0 <? ts); [|done]. destruct (gmtime _) as [[[[[y m] d] h] mi] s].
  by rewrite !plain_cat, pretty_plain, !fmt_pad_plain.
Qed.
Lemma date_part_some ts : bytes_of_string (date_part ts) <> [].
Proof.
  unfold date_part. destruct (0 <? ts); [|done]. destruct (gmtime _) as [[[[[y m] d] h] mi] s].
  rewrite !bytes_of_string_cat. intros [_ [_ [_ [H _]%app_eq_nil]%app_eq_nil]%app_eq_nil]%app_eq_nil. done.
Qed.
Lemma sanitize_string src n :
  safe_name false (bytes_of_string (watcher_sanitize_filename src n)) = true /\
  dot_after false (bytes_of_string (watcher_sanitize_filename src n)) = false.
Proof.
  unfold watcher_sanitize_filename. set (l := sanitize_loop _ _ _).
  assert (safe_name false l = true) as Hl by (by apply sanitize_safe). destruct (undot_safe l Hl) as [H1 H2].
  rewrite bytes_of_string_of_bytes; [split; [done|exact H2]|].
  apply andb_true_iff in H1 as [H1 _]. rewrite forallb_forall in H1. apply Forall_forall. intros c Hc%list_elem_of_In%H1.
  unfold is_byte, safe_char, name_char, isdigit in *. lia.
Qed.

(** The name of a report is harmless as a whole. *)
Lemma report_name_safe anomaly n : safe_name true (bytes_of_string (watcher_make_report_filename anomaly n)) = true.
Proof.
  unfold watcher_make_report_filename. cbv zeta. rewrite snprintf_take.
  destruct (sanitize_string (default "unknown" (sm_json_get_string anomaly "pattern_name")) 130) as [P1 P2].
  destruct (sanitize_string (default "unknown" (sm_json_get_string anomaly "incident_id")) 130) as [I1 I2].
  set (p := watcher_sanitize_filename _ _) in P1, P2 |- *. set (i := watcher_sanitize_filename _ _) in I1, I2 |- *.
  set (ts := sm_json_get_double _ _ _). clearbody p i ts.
  assert (safe_name true (bytes_of_string (date_part ts +:+ "-" +:+ p +:+ "-" +:+ i +:+ ".md")) = true) as Hall.
  { destruct (plain_name true (bytes_of_string (date_part ts)) (date_part_plain ts)) as [H1 H2].
    rewrite !bytes_of_string_cat, !safe_name_app, H1, (H2 (date_part_some ts)).
    change (dot_after false (bytes_of_string "-")) with false. rewrite P1, P2.
    change (dot_after false (bytes_of_string "-")) with false. by rewrite I1, I2. }
  rewrite <- (take_drop (n - 1) (bytes_of_string _)), safe_name_app in Hall. by apply andb_true_iff in Hall as [-> _].
Qed.

Section confined.
Context {J : JsonText} {N : WatchEnv}.

(** Directly in the directory, under a name that is no path. *)
Definition in_dir (dir : string) (r : report) : Prop :=
  exists base, rp_path r = dir +:+ "/" +:+ base /\ base <> "" /\ safe_name true (bytes_of_string base) = true.
Definition confined (dir : string) (c : watcher_ctx) : Prop := wt_output_dir c = dir /\ Forall (in_dir dir) (wt_reports c).

Context (dir : string) (Hdir : (String.length dir < 256)%nat).

Lemma path_in_dir name :
  name <> "" -> safe_name true (bytes_of_string name) = true ->
  exists base, snprintf_s 768 (dir +:+ "/" +:+ name) = dir +:+ "/" +:+ base /\ base <> "" /\
    safe_name true (bytes_of_string base) = true.
Proof.
  intros Hn Hs. set (k := (766 - String.length dir)%nat). exists (String.substring 0 k name).
  assert (forall a m b, String.substring 0 (String.length a + m) (a +:+ b) = a +:+ String.substring 0 m b) as Hsub.
  { induction a as [|x a IH]; intros m b; [done|]. simpl. by rewrite IH. }
  split_and!.
  - unfold snprintf_s. replace (768 - 1)%nat with (String.length dir + S k)%nat by lia. by rewrite Hsub.
  - destruct name; [done|]. replace k with (S (765 - String.length dir)) by lia. done.
  - pose proof (snprintf_take (S k) name) as Ht. unfold snprintf_s in Ht. replace (S k - 1)%nat with k in Ht by lia.
    rewrite Ht. rewrite <- (take_drop k (bytes_of_string name)), safe_name_app in Hs. by apply andb_true_iff in Hs as [-> _].
Qed.
Lemma report_name_some anomaly : watcher_make_report_filename anomaly 512 <> "".
Proof.
  intros H%(f_equal bytes_of_string). unfold watcher_make_report_filename in H. cbv zeta in H.
  rewrite snprintf_take, bytes_of_string_cat in H. pose proof (date_part_some (sm_json_get_double anomaly "timestamp" 0)) as Hd.
  by destruct (bytes_of_string (date_part _)).
Qed.

Lemma write_report_confined a chunks c : confined dir c -> confined dir (write_report a chunks c).
Proof.
  intros [Ho Hr]. split; [done|]. cbn [write_report wt_reports]. apply Forall_app. split; [done|]. constructor; [|done].
  unfold in_dir. cbn [rp_path]. rewrite Ho. apply path_in_dir; [apply report_name_some|apply report_name_safe].
Qed.
Lemma main_confined delay conns c : confined dir c -> confined dir (snd (watcher_main delay conns c)).
Proof.
  assert (PreOrder (fun c c' => confined dir c -> confined dir c')) as HR by (split; [by intros c1|intros c1 c2 c3 H1 H2 H; by apply H2, H1]).
  apply (main_keeps (fun c c' => confined dir c -> confined dir c')).
  - intros a chunks c1. apply write_report_confined.
  - unfold confined. intros c1 c2 -> -> _ _. done.
Qed.
End confined.

(** Reports stay where they belong.  Whatever a broker sends as pattern
    names and incident numbers, every file the watcher writes is directly in
    the output directory, under a name of letters, digits, dashes, underscores
    and single dots that does not begin with a dot. *)
Theorem reports_confined `{!JsonText, !WatchEnv} out bytes delay conns r :
  let c0 := watcher_start out bytes in
  In r (wt_reports (snd (watcher_main delay conns c0))) -> in_dir (wt_output_dir c0) r.
Proof.
  cbv zeta. intros Hr. set (c0 := watcher_start out bytes) in *.
  assert (String.length (wt_output_dir c0) < 256)%nat as Hl by (apply snprintf_s_length; lia).
  destruct (main_confined (wt_output_dir c0) Hl delay conns c0) as [_ Hf]; [by split|].
  rewrite List.Forall_forall in Hf. by apply Hf.
Qed.

(** ** A session *)

Definition demo_watch : WatchEnv := {|
  we_token := None; we_time := fun n => Z.of_nat n; we_nsec := fun _ => 7; we_realloc := fun _ => true;
  we_text := fun _ => true; we_open := fun _ _ => true; we_fdopen := fun _ => true;
  we_stored := fun _ len => len |}.
#[local] Existing Instance demo_watch.
#[local] Existing Instance cjson.
Definition demo_anomaly : json :=
  JObj [("type", JStr "anomaly"); ("pattern_name", JStr "../../etc/panic"); ("incident_id", JStr "i.1.");
        ("timestamp", JNum (1767225599 * one_s))].
Definition demo_history : json :=
  JObj [("type", JStr "history_response"); ("id", JStr "w-7-0");
        ("chunks", JArr [JObj [("timestamp", JNum one_s); ("data", JStr "aGk=")]])].
Definition demo_polls : list watch_poll :=
  [WatchReady true false (RBytes (sm_msg_encode demo_anomaly)); WatchIntr;
   WatchReady true false (RBytes (sm_msg_encode demo_history)); WatchReady true false (RBytes (sm_msg_encode demo_anomaly))].


Definition demo_conns : list (option (rres * list watch_poll)) := [None; Some (RAgain, demo_polls)].
Lemma reports_confined_witness
    (rs := wt_reports (snd (watcher_main SM_WATCHER_RECONNECT_BASE_S demo_conns (watcher_start None None)))) :
  length rs = 1%nat /\ Forall (in_dir "./smolmux-incidents") rs.
Proof.
  split; [by vm_compute|]. apply List.Forall_forall. intros r Hr.
  exact (reports_confined None None SM_WATCHER_RECONNECT_BASE_S demo_conns r Hr).
Defined.
(** The second anomaly, which waits when the connection ends, gets no report. *)
Example pending_lost :
  length (wt_reports (watch_session RAgain demo_polls (watcher_start None None))) = 1%nat.
Proof. by vm_compute. Qed.
