(* ===== verification/BrokerNetwork.v ===== *)
(** The broker on the network: who may connect and with which token, and runs. *)

(** * Clients from the network

    The main program, the TCP sink and the broker together: whoever connects
    over the network has to present the token before anything it says counts. *)
From S2P Require Import Prelude Cstr Arrays Codecs RingBuffer Json CJson Protocol Regex Expect.
From S2P Require Import BootStage Autoresponder Anomaly Effects Client BrokerState McpResults SerialTcp GdbLink Uart.
From S2P Require Import BrokerOps BrokerLink BrokerHandlers BrokerLoop McpTools BrokerDemo BrokerFrame BrokerAuth BrokerClients BrokerVtable.
From S2P Require Import HostPaths Profiles BrokerMain.

#[local] Open Scope string_scope.
#[local] Open Scope list_scope.
#[local] Open Scope Z_scope.

(** A hello that carries the token. *)
Definition presents (t : string) (msg : sm_msg) : Prop :=
  m_type msg = SM_MSG_HELLO /\ sm_json_get_string (default JNull (m_root msg)) "token" = Some t.

Section network.
Context {L : LinkOps} {E : SystemEnv} {J : JsonText} {R : RegexLib}.

(** A turn of the loop before and after its events. *)
Definition turn_start : M unit :=
  b ← ask;
  when (0 <? eng_count (b_expect b))%nat process_expect_results ;;
  process_history_pending ;;
  attempt_reconnect ;;
  check_connect_timeout.
Definition turn_end (gone : nat -> bool) : M unit :=
  pending ← any_client_write_pending;
  cs ← gets b_clients;
  when pending (flush_client_queues (length cs) 0) ;;
  housekeeping gone.
Lemma loop_turn_parts events gone w :
  run (loop_turn events gone) w = run (turn_end gone) (run (for_each process_event events) (run turn_start w)).
Proof. unfold loop_turn, turn_start, turn_end. rewrite !run_ask, !run_bind. done. Qed.

Inductive executes (w0 : world) : world -> Prop :=
  | ex_start : executes w0 w0
  | ex_turn w events gone : executes w0 w -> executes w0 (run (loop_turn events gone) w).

Definition from_client (k : nat) (e : loop_event) : Prop :=
  match e with LeClient k' _ _ => k' = k | _ => False end.
(** The states of a broker, started in [w0], to which client [k] connected over
    the network and has not presented the token [t]; what the broker does for
    this client is taken apart, everything else happens in any order. *)
Inductive tokenless (w0 : world) (t : string) (k : nat) : world -> Prop :=
  | tl_accept w pid : executes w0 w -> result (sm_broker_register_client pid true) w = Some k ->
      tokenless w0 t k (run (sm_broker_register_client pid true) w)
  | tl_feed w r : tokenless w0 t k w -> tokenless w0 t k (run (feed_client k r) w)
  | tl_message w msg : tokenless w0 t k w -> ~ presents t msg -> tokenless w0 t k (run (handle_client_message k msg) w)
  | tl_remove w : tokenless w0 t k w -> tokenless w0 t k (run (remove_client k) w)
  | tl_flush w : tokenless w0 t k w -> tokenless w0 t k (run (flush_or_remove k) w)
  | tl_pending w : tokenless w0 t k w -> tokenless w0 t k (run (set_write_pending k true) w)
  | tl_event w e : tokenless w0 t k w -> ~ from_client k e -> tokenless w0 t k (run (process_event e) w)
  | tl_turn_start w : tokenless w0 t k w -> tokenless w0 t k (run turn_start w)
  | tl_turn_end w gone : tokenless w0 t k w -> tokenless w0 t k (run (turn_end gone) w).

(** ** The token stays *)

Definition secret (b : sm_broker) (l : link_state) := (b_auth_token b, b_next_key b).
#[local] Instance secret_view : ClientView secret.
Proof. by intros b l cs. Qed.

Lemma remove_client_secret k : keeps secret any_event (remove_client k).
Proof.
  intros w. unfold remove_client, run. destruct (find_key k _) as [c|]; [|done].
  destruct (key_index k 0 _) as [i|]; [|done]. split; [done|]. exists [EvHangup k].
  split; [done|]. by constructor.
Qed.
#[local] Hint Resolve remove_client_secret : broker.
Lemma replace_loop_secret k name i : keeps secret any_event (replace_loop k name i).
Proof. induction i; simpl; keeps_tac. Qed.
Lemma add_patterns_secret items n : keeps secret any_event (add_patterns items n).
Proof. revert n. induction items; intros n; cbn [add_patterns]; keeps_tac. Qed.
#[local] Hint Resolve replace_loop_secret add_patterns_secret : broker.
Lemma handle_client_message_secret k msg : keeps secret any_event (handle_client_message k msg).
Proof.
  intros w. unfold handle_client_message, with_client. rewrite run_gets.
  destruct (find_key k (b_clients (w_b w))) as [c|]; [|done].
  destruct (cl_hello c); cbn [negb andb]; [|case_bool_decide; cbn [negb]];
    [destruct (m_type msg) eqn:Ht; cbn [dispatch]|destruct (m_type msg) eqn:Ht; cbn [dispatch]|];
    revert w; lazymatch goal with |- forall w, kept ?V ?Q w (run ?m w) => change (keeps V Q m) end; keeps_tac.
Qed.

(** ** Who is silent stays silent *)

(** Of the clients in [K], all that are left have to present the token and have
    not. *)
Record net_ok (t : string) (K : nat -> Prop) (w : world) : Prop := {
  nk_table : table_ok w;
  nk_token : b_auth_token (w_b w) = t;
  nk_known : forall k, K k -> (k < b_next_key (w_b w))%nat;
  nk_silent : forall c, In c (b_clients (w_b w)) -> K (cl_key c) -> cl_requires_auth c = true /\ cl_hello c = false }.

Definition net (b : sm_broker) (l : link_state) := (table b l, b_auth_token b).
#[local] Instance net_view : ClientView net.
Proof. intros b l cs Hc. unfold net, table. simpl. by rewrite Hc. Qed.

Section silent.
Context (t : string) (K : nat -> Prop).

Lemma net_kept w w' : kept net any_event w w' -> net_ok t K w -> net_ok t K w'.
Proof.
  intros [Hn Hg] [H1 H2 H3 H4]. unfold net in Hn. apply pair_equal_spec in Hn as [Ht Htok]. pose proof Ht as Htab.
  unfold table in Ht. apply pair_equal_spec in Ht as [Ht _]. apply pair_equal_spec in Ht as [Hc Hk]. split.
  - by apply (table_kept any_event w w'); [split|].
  - congruence.
  - intros k Hkk. rewrite Hk. auto.
  - intros c Hin HK. destruct (cident_In _ _ _ Hc Hin) as (d & Hd & (Ek & _ & _ & _ & Eh & Ea)%cident_eq).
    rewrite Ek in HK. rewrite Eh, Ea. auto.
Qed.

Lemma remove_client_net k : inv (net_ok t K) (remove_client k).
Proof.
  intros w [H1 H2 H3 H4]. destruct (remove_client_secret k w) as [[= Ht Hn] _]. split.
  - by apply remove_client_table.
  - congruence.
  - intros k' Hk. rewrite Hn. auto.
  - intros c Hc%remove_client_sub. auto.
Qed.
Lemma register_client_net pid auth : inv (net_ok t K) (sm_broker_register_client pid auth).
Proof.
  intros w Hw. assert (table_ok (run (sm_broker_register_client pid auth) w)) as Htab by (apply register_client_table, Hw).
  destruct Hw as [H1 H2 H3 H4]. revert Htab.
  unfold sm_broker_register_client, alloc_call, sm_now_monotonic, timer_call, run, mbind,
    M_bind, mret, M_ret, ask, gets, query, modify. cbn [fst snd w_b w_link w_tick].
  destruct (_ <=? _)%nat; [done|].
  destruct (env_alloc (w_tick w) 0); cbn [negb fst w_b]; [|by split].
  destruct (env_timer _); cbn [negb fst w_b]; [|by split].
  intros Htab. split; [done|done|..]; cbn [w_b b_clients b_next_key].
  - intros k Hk. specialize (H3 k Hk). lia.
  - intros c Hc HK. apply in_app_iff in Hc as [Hc|[<-|[]]]; [auto|]. specialize (H3 _ HK). cbn in H3. lia.
Qed.

(** A message of somebody else, or one without the token. *)
Lemma message_net w k msg :
  t <> "" -> (K k -> ~ presents t msg) -> net_ok t K w -> net_ok t K (run (handle_client_message k msg) w).
Proof.
  intros Ht Hp [H1 H2 H3 H4]. destruct (handle_client_message_secret k msg w) as [[= E1 E2] _]. split.
  - by apply handle_client_message_table.
  - congruence.
  - intros k' Hk. rewrite E2. auto.
  - intros c' Hin HK. destruct (identity_frozen w k msg c' H1 Hin) as (c & Hc & Hs).
    destruct Hs as [(Ek & _ & _ & _ & Eh & Ea)%cident_eq|(Ek & Ety & _ & Htok & _ & [= Ek' _ Ea] & _)].
    { rewrite Ek in HK. rewrite Eh, Ea. auto. }
    exfalso. rewrite Ek', Ek in HK. destruct (H4 c Hc) as [Hauth _]; [by rewrite Ek|].
    unfold token_ok in Htok. rewrite Hauth, H2 in Htok.
    destruct (streq t "") eqn:Es; [by apply streq_spec in Es|]. cbn [negb andb] in Htok.
    destruct (sm_json_get_string _ "token") as [t'|] eqn:Et; [|done].
    apply ct_str_equal_correct in Htok as ->. by apply Hp.
Qed.

(** ** The loop *)

Lemma drain_net n first env cb :
  (forall b, keeps net any_event (cb b)) -> keeps net any_event (drain_link_fd n first env cb).
Proof.
  intros Hcb. revert first env. induction n; intros first env; destruct env; cbn [drain_link_fd]; keeps_tac.
Qed.
Lemma process_link_data_net env : keeps net any_event (process_link_data env).
Proof.
  intros w. unfold process_link_data, run. destruct (link_read_fd (w_link w) <? 0); [done|]. revert w.
  change (keeps net any_event (rc ← drain_link_fd SM_LINK_DRAIN_MAX_READS true env link_drain_chunk;
    when (rc =? 1) handle_link_disconnect)).
  apply keeps_bind; [apply drain_net|]; intros; keeps_tac.
Qed.
#[local] Hint Resolve process_link_data_net remove_client_net register_client_net : broker.
Ltac net_leaf := apply (inv_kept _ net any_event _ net_kept); keeps_tac.

Lemma flush_client_queues_net fuel i : inv (net_ok t K) (flush_client_queues fuel i).
Proof. revert i. induction fuel; intros i; cbn [flush_client_queues]; inv_tac net_leaf. Qed.
Lemma drop_stale_net now gone i : inv (net_ok t K) (drop_stale now gone i).
Proof. induction i; cbn [drop_stale]; inv_tac net_leaf. Qed.
#[local] Hint Resolve flush_client_queues_net drop_stale_net : broker.

Context (Ht : t <> "").
Lemma client_message_net k msg : ~ K k -> inv (net_ok t K) (handle_client_message k msg).
Proof. intros HK w. by apply message_net. Qed.
#[local] Hint Resolve client_message_net : broker.
Lemma client_input_net fuel k reads : ~ K k -> inv (net_ok t K) (client_input fuel k reads).
Proof. intros HK. revert reads. induction fuel; intros reads; cbn [client_input]; inv_tac net_leaf. Qed.
#[local] Hint Resolve client_input_net : broker.

Lemma process_event_net e : (forall k, K k -> ~ from_client k e) -> inv (net_ok t K) (process_event e).
Proof.
  intros He. assert (match e with LeClient k _ _ => ~ K k | _ => True end) as Hk
    by (destruct e; [done..|]; intros HK; by apply (He _ HK)).
  destruct e; cbn [process_event]; inv_tac net_leaf.
Qed.
Lemma turn_start_net : inv (net_ok t K) turn_start.
Proof. inv_tac net_leaf. Qed.
Lemma turn_end_net gone : inv (net_ok t K) (turn_end gone).
Proof. inv_tac net_leaf. Qed.
End silent.

Definition nobody (k : nat) : Prop := False.
Lemma executes_net w0 w t :
  t <> "" -> net_ok t nobody w0 -> executes w0 w -> net_ok t nobody w.
Proof.
  intros Ht H0. induction 1 as [|w events gone _ IH]; [done|]. rewrite loop_turn_parts.
  apply turn_end_net, inv_for_each; [|by apply turn_start_net]. intros e. by apply process_event_net.
Qed.
Lemma accepted_net w t k pid :
  net_ok t nobody w -> result (sm_broker_register_client pid true) w = Some k ->
  net_ok t (eq k) (run (sm_broker_register_client pid true) w).
Proof.
  intros Hw. pose proof (register_client_net t nobody pid true w Hw) as [Htab Htok _ _]. destruct Hw as [H1 H2 _ _].
  revert Htab Htok. unfold sm_broker_register_client, alloc_call, sm_now_monotonic, timer_call, run, result, mbind,
    M_bind, mret, M_ret, ask, gets, query, modify. cbn [fst snd w_b w_link w_tick].
  destruct (_ <=? _)%nat; [done|]. destruct (env_alloc (w_tick w) 0); cbn [negb fst snd w_b]; [|done].
  destruct (env_timer _); cbn [negb fst snd w_b]; [|done]. intros Htab Htok [= <-].
  split; [done|done|..]; cbn [w_b b_clients b_next_key].
  - intros k <-. lia.
  - intros c Hc HK. apply in_app_iff in Hc as [Hc|[<-|[]]]; [|done]. exfalso.
    apply list_elem_of_In in Hc. pose proof (ck_fresh _ _ H1) as Hf. rewrite Forall_forall in Hf. apply Hf in Hc.
    cbn in HK, Hc. lia.
Qed.
Lemma tokenless_net w0 t k w :
  t <> "" -> net_ok t nobody w0 -> tokenless w0 t k w -> net_ok t (eq k) w.
Proof.
  intros Ht H0. induction 1; try done.
  - apply accepted_net; [|done]. by eapply executes_net.
  - by apply (net_kept t (eq k) w); [apply keeps_feed; typeclasses eauto|].
  - by apply message_net.
  - by apply remove_client_net.
  - revert IHtokenless. apply (inv_bind _ (flush_client k)).
    + apply (inv_kept _ net any_event _ (net_kept t (eq k))). apply keeps_flush; typeclasses eauto.
    + intros rc. destruct (rc <? 0).
      * apply inv_bind; [apply remove_client_net|]. intros _. apply inv_ret.
      * apply (inv_kept _ net any_event _ (net_kept t (eq k))). keeps_tac.
  - by apply (net_kept t (eq k) w); [apply keeps_mod_client; [typeclasses eauto|done]|].
  - apply process_event_net; [done| |done]. by intros k' <-.
  - by apply turn_start_net.
  - by apply turn_end_net.
Qed.
End network.

(** ** The main program insists on a token *)

Lemma exit_if_Go c : exit_if c = Go tt -> c = false.
Proof. by destruct c. Qed.
Lemma outcome_bind_Go {A B} (o : outcome A) (f : A -> outcome B) b :
  (o ≫= f) = Go b -> exists a, o = Go a /\ f a = Go b.
Proof. destruct o; [done|]. by exists a. Qed.
Ltac go := match goal with Hs : (_ ≫= _) = Go _ |- _ => apply outcome_bind_Go in Hs as (? & ? & Hs) end.

Section start.
Context {J : JsonText} {R : RegexLib} {H : HostEnv} {G : GdbEnv} {M : MainEnv}.

Definition network_sink (s : sink_choice) : bool := match s with SinkMcp => false | _ => true end.

Lemma generated_token_nonempty a token t ports :
  generated_token a token = Go (t, ports) -> ma_insecure a = false ->
  tcp_on_loopback a || ws_on a = true -> t <> "".
Proof.
  unfold generated_token. intros Hg Hi Hl. rewrite Hi, Hl in Hg. destruct (streq token "") eqn:Es; cbn [negb andb] in Hg.
  - unfold sm_auth_token_generate in Hg. change (_ <? SM_AUTH_TOKEN_HEX_LEN + 1) with false in Hg. cbv iota in Hg.
    destruct (Z.ltb_spec (zlen me_random) (SM_AUTH_TOKEN_HEX_LEN / 2)) as [|Hr]; [done|].
    change (SM_AUTH_TOKEN_HEX_LEN / 2) with 24 in *. injection Hg as <- _.
    destruct me_random as [|x l]; [exfalso; by apply Hr|]. done.
  - injection Hg as <- _. intros ->. done.
Qed.

Lemma add_mcp_local a ss : add_mcp a [] = Go ss -> existsb network_sink ss = false.
Proof.
  unfold add_mcp. destruct (ma_mcp a); [|by intros [= <-]]. intros (_ & _ & [= <-])%outcome_bind_Go.
  unfold sm_broker_add_sink. by destruct (me_sinks 0).
Qed.
Lemma add_tcp_gate a token ss ss' :
  add_tcp a token ss = Go ss' ->
  (0 <? ma_tcp_port a) = false /\ ss' = ss \/
  (0 <? ma_tcp_port a) = true /\ (token <> "" \/ ma_insecure a = true \/ tcp_on_loopback a = true).
Proof.
  unfold add_tcp, tcp_on_loopback. destruct (0 <? ma_tcp_port a); [|intros [= <-]; by left].
  intros ([] & Hr%exit_if_Go & _)%outcome_bind_Go. right. split; [done|]. unfold sm_tcp_refuse_unauthenticated in Hr.
  destruct (streq token "") eqn:Es; [|left; intros ->; done]. cbn [negb] in Hr.
  destruct (ma_insecure a); [by right; left|]. apply negb_false_iff in Hr. by right; right.
Qed.

Lemma broker_start_parts a port s :
  broker_start a port = Go s ->
  exists given t ports p ss ss' ,
    generated_token a given = Go (t, ports) /\ add_mcp a [] = Go ss /\ add_tcp a t ss = Go ss' /\
    add_ws a ss' = Go (su_sinks s) /\ token_files t ports = Go (su_files s) /\
    su_broker s = {| (configured_broker a port) with
      b_auth_token := t; b_anomaly := sm_profile_apply_anomaly me_alloc p (b_anomaly (configured_broker a port));
      b_boot := sm_profile_apply_boot me_alloc p (b_boot (configured_broker a port));
      b_sinks := map sink_callbacks (su_sinks s) |}.
Proof.
  unfold broker_start. intros Hs. do 7 go. match goal with y : string * (Z * Z) |- _ => destruct y as [t ports] end.
  do 5 go. injection Hs as <-. cbn [su_sinks su_broker su_files]. eexists _, t, ports, _, _, _. by split_and!.
Qed.

(** A broker that serves the network has a token, unless that was waived. *)
Lemma started_token a port s :
  broker_start a port = Go s -> ma_insecure a = false -> existsb network_sink (su_sinks s) = true ->
  b_auth_token (su_broker s) <> "".
Proof.
  intros (given & t & ports & p & ss & ss' & Hg & Hm & Ht & Hw & _ & ->)%broker_start_parts Hi Hn. cbn [b_auth_token].
  destruct (tcp_on_loopback a || ws_on a) eqn:Eon; [by eapply generated_token_nonempty|].
  apply orb_false_iff in Eon as [El Ew]. unfold add_ws in Hw. unfold ws_on in Ew. rewrite Ew in Hw. injection Hw as Hw.
  destruct (add_tcp_gate _ _ _ _ Ht) as [[_ ->]|[_ [?|[?|?]]]]; [|done|congruence..].
  apply add_mcp_local in Hm. congruence.
Qed.
Lemma main_options_insecure os a a' :
  main_options os a = Go a' -> ~ In OptInsecureNoAuth os -> ma_insecure a' = ma_insecure a.
Proof.
  revert a. induction os as [|o os IH]; intros a; cbn [main_options]; [by intros [= <-]|].
  intros (a1 & Ho & Hos)%outcome_bind_Go Hn. rewrite (IH _ Hos) by (intros ?; apply Hn; by right).
  destruct o; cbn [main_option] in Ho; unfold numeric in Ho; try destruct (number_in _ _ _);
    try (injection Ho as <-; done); try done. exfalso. apply Hn. by left.
Qed.
End start.

Lemma started_net `{!LinkOps, !JsonText, !RegexLib, !HostEnv, !GdbEnv, !MainEnv} a port s l :
  broker_start a port = Go s ->
  net_ok (b_auth_token (su_broker s)) nobody (init_world (su_broker s) l).
Proof.
  intros (given & t & ports & p & ss & ss' & _ & _ & _ & _ & _ & ->)%broker_start_parts.
  split; [|done..]. split; cbn; [constructor|constructor|lia|by intros ? ? []|constructor|done].
Qed.

(** ** The token reaches the user's clients *)

Lemma hex_token_chars l : forallb token_char (mjoin (map (hex_digits 2) l)) = true.
Proof.
  assert (forall n, 0 <= n < 16 -> token_char (hex_char n) = true) as Hc.
  { intros n Hn. unfold token_char, is_crlf, hex_char. destruct (Z.ltb_spec n 10); lia. }
  induction l as [|x l IH]; [done|]. cbn [map mjoin list_join]. rewrite forallb_app. apply andb_true_iff. split; [|exact IH].
  cbn. rewrite !Hc by (apply Z.mod_pos_bound; lia). done.
Qed.
Lemma hex_token_length l : zlen (mjoin (map (hex_digits 2) l)) = 2 * zlen l.
Proof.
  induction l as [|x l IH]; [done|]. cbn [map].
  change (mjoin (hex_digits 2 x :: map (hex_digits 2) l)) with (hex_digits 2 x ++ mjoin (map (hex_digits 2) l)).
  rewrite zlen_app, IH, zlen_cons. change (zlen (hex_digits 2 x)) with 2. lia.
Qed.
Lemma hex_token_string l : bytes_of_string (string_of_bytes (mjoin (map (hex_digits 2) l))) = mjoin (map (hex_digits 2) l).
Proof.
  apply bytes_of_string_of_bytes. induction l as [|x l IH]; [constructor|]. cbn [map mjoin list_join].
  apply Forall_app. split; [|exact IH].
  assert (forall n, 0 <= n < 16 -> is_byte (hex_char n)) as Hc
    by (intros n Hn; unfold is_byte, hex_char; destruct (Z.ltb_spec n 10); lia).
  cbn. repeat constructor; apply Hc, Z.mod_pos_bound; lia.
Qed.

Section composed.
Context {L : LinkOps} {E : SystemEnv} {J : JsonText} {R : RegexLib} {H : HostEnv} {G : GdbEnv} {M : MainEnv}.

Lemma silent_harmless w k t msg : net_ok t (eq k) w -> kept control no_device w (run (handle_client_message k msg) w).
Proof.
  intros Hw. destruct (find_key k (b_clients (w_b w))) as [c|] eqn:Hf.
  - apply (denied_message w k c msg Hf). left. apply find_key_Some in Hf as [Hin Hk].
    by apply (nk_silent _ _ _ Hw c Hin).
  - unfold handle_client_message, with_client. rewrite run_gets, Hf. done.
Qed.

(** C2: nobody steers the device over the network without the token.  If the
    main program starts a broker with a TCP or WebSocket sink and was not told
    --insecure-no-auth, the broker has a token; and whatever the other clients,
    the device and the clocks do, a client that was accepted from the network
    and whose messages never present the token reaches nothing: each of its
    messages leaves the link, the machines, the rules, the history and the baud
    rate as they are, and calls no entry of the link. *)
Theorem network_needs_token os positional s l k w msg :
  main_start os positional = Go s -> ~ In OptInsecureNoAuth os -> existsb network_sink (su_sinks s) = true ->
  let t := b_auth_token (su_broker s) in
  t <> "" /\
  (tokenless (init_world (su_broker s) l) t k w -> kept control no_device w (run (handle_client_message k msg) w)).
Proof.
  unfold main_start. intros (a & Ha & Hs)%outcome_bind_Go Hi Hn. cbv zeta.
  destruct (ma_list_ports a); [done|]. destruct (ma_list_profiles a); [done|]. destruct (ma_help_protocol a); [done|].
  assert (b_auth_token (su_broker s) <> "") as Ht
    by (eapply started_token; [done|by rewrite (main_options_insecure _ _ _ Ha Hi)|done]).
  split; [done|]. intros Hw. eapply silent_harmless, tokenless_net; [exact Ht|by eapply started_net|exact Hw].
Qed.

(** A token file: the broker generated the token, and the file holds it. *)
Lemma token_file_written t kind p files path content :
  token_file t kind p = Some files -> In (path, content) files -> 0 < p /\ content = bytes_of_string t ++ [10].
Proof.
  unfold token_file. destruct (Z.leb_spec p 0); [by intros [= <-]|]. destruct (sm_auth_token_path _ _ _) as [q|]; [|done].
  destruct (me_token_write q) as [[[c1 c2] w1] w2]. destruct (sm_auth_token_write _ _ _ _ _ _ _) as [rc b] eqn:Ew.
  destruct (Z.eqb_spec rc 0) as [->|]; [|done]. intros [= <-] [[= -> ->]|[]]. split; [done|].
  unfold sm_auth_token_write in Ew. repeat (case_match; try done). by injection Ew as <-.
Qed.
Lemma started_files a port s path content :
  broker_start a port = Go s -> In (path, content) (su_files s) ->
  exists raw, b_auth_token (su_broker s) = string_of_bytes (mjoin (map (hex_digits 2) raw)) /\ zlen raw = 24 /\
    content = bytes_of_string (b_auth_token (su_broker s)) ++ [10].
Proof.
  intros (given & t & [p1 p2] & p & ss & ss' & Hg & _ & _ & _ & Hf & ->)%broker_start_parts. cbn [b_auth_token].
  revert Hf Hg.
  unfold token_files. cbn [fst snd]. destruct (token_file t "tcp" p1) as [f1|] eqn:E1; [|done].
  destruct (token_file t "ws" p2) as [f2|] eqn:E2; [|done]. intros [= Hs] Hg Hin. rewrite <- Hs in Hin.
  assert ((0 < p1 \/ 0 < p2) /\ content = bytes_of_string t ++ [10]) as [Hp Hcont].
  { apply in_app_iff in Hin as [Hin|Hin];
      [destruct (token_file_written _ _ _ _ _ _ E1 Hin)|destruct (token_file_written _ _ _ _ _ _ E2 Hin)]; tauto. }
  unfold generated_token in Hg. destruct (_ && _); [|by injection Hg as -> <- <-; lia].
  unfold sm_auth_token_generate in Hg. change (_ <? SM_AUTH_TOKEN_HEX_LEN + 1) with false in Hg. cbv iota in Hg.
  destruct (Z.ltb_spec (zlen me_random) (SM_AUTH_TOKEN_HEX_LEN / 2)) as [|Hr]; [done|].
  change (SM_AUTH_TOKEN_HEX_LEN / 2) with 24 in *. injection Hg as <- _ _. exists (ztake 24 me_random).
  split_and!; [done| |done]. rewrite zlen_ztake. lia.
Qed.
End composed.

(** The token a broker made for itself reaches the clients of its user.  Of
    any token file a started broker left, a client of the same user ([H']), on a
    loopback address and without a token of its own, that finds this file with
    these contents and still private takes exactly the broker's token. *)
Theorem generated_token_loads (J : JsonText) (R : RegexLib) (H H' : HostEnv) (G : GdbEnv) (M : MainEnv)
    os positional s path content host port st :
  @main_start J R H G M os positional = Go s -> In (path, content) (su_files s) ->
  sm_host_is_loopback host = true -> @sm_auth_token_find H' 512 "tcp" port = Some path ->
  @he_open H' path = Some (st, content) -> @private_file H' st = true ->
  (forall name v, @he_setenv H' name v = true) ->
  @sm_auth_token_autoload H' host port (mk_token None false) = (1, mk_token (Some (b_auth_token (su_broker s))) true).
Proof.
  unfold main_start. intros (a & _ & Hs)%outcome_bind_Go Hin Hl Hf Ho Hp Hset.
  destruct (ma_list_ports a); [done|]. destruct (ma_list_profiles a); [done|]. destruct (ma_help_protocol a); [done|].
  destruct (started_files _ _ _ _ _ Hs Hin) as (raw & -> & Hraw & ->). set (t := mjoin _) in *.
  assert (bytes_of_string (string_of_bytes t) = t) as Et by apply hex_token_string. rewrite Et in Ho.
  assert (zlen t = 48) as Hlen by (unfold t; rewrite hex_token_length; lia).
  unfold sm_auth_token_autoload. cbn [te_var te_from_file nonempty_s orb]. rewrite Hl, Hf. cbn [negb].
  enough (@sm_read_owner_secret_file H' path 256 = Some (string_of_bytes t)) as -> by (by rewrite Hset).
  unfold sm_read_owner_secret_file. destruct (streq path "") eqn:Ep.
  { exfalso. apply streq_spec in Ep as ->. unfold sm_auth_token_find in Hf. apply find_some in Hf as [Hf _].
    apply in_map_iff in Hf as (d & Hd & _). unfold token_name in Hd. by destruct d. }
  cbn [orb]. change (256 <? 2) with false. cbv iota. rewrite Ho, Hp. cbn [negb].
  destruct (secret_line t [10] 256) as (line & rest & -> & -> & ->);
    [apply hex_token_chars|lia|auto|by intros ->|]. rewrite Hlen. done.
Qed.

(** * A broker on the network

    A start with --tcp-port, the witnesses of the theorems about it, and what
    becomes of a token that does not fit. *)

#[local] Open Scope string_scope.
#[local] Open Scope list_scope.
#[local] Open Scope Z_scope.

Definition demo_main : MainEnv := {|
  me_link := true; me_tty := mk_tty (mk_termios 0 0 0 0 0 0 0 0) 0 false false; me_clock := 0; me_polls := [];
  me_random := seqZ 0 24; me_alloc := true; me_slots := fun _ => true; me_mcp := true; me_tcp := true; me_ws := true;
  me_sinks := fun _ => true; me_token_open := fun _ => Some demo_private;
  me_token_write := fun _ => (true, true, 48, 1) |}.
#[local] Existing Instance demo_main.
#[local] Existing Instance demo_host.
#[local] Existing Instance demo_gdb_env.

Definition exited : startup :=
  mk_startup (LinkUart (sm_uart_new "" 0 true me_tty)) "" demo_broker sm_profile_init_default "" "" false false [] [].
Definition started (o : outcome startup) : startup := match o with Go s => s | Exit _ => exited end.
Definition demo_tcp : startup := started (main_start [OptTcpPort "5555"] ["/dev/ttyUSB0"]).
Lemma demo_tcp_started : main_start [OptTcpPort "5555"] ["/dev/ttyUSB0"] = Go demo_tcp.
Proof. by vm_compute. Qed.
Definition generated : string := "000102030405060708090a0b0c0d0e0f1011121314151617".
Example demo_tcp_config :
  b_auth_token (su_broker demo_tcp) = generated /\ su_sinks demo_tcp = [SinkTcp (mk_tcp (-1) 5555 INADDR_LOOPBACK)] /\
  su_files demo_tcp = [("/run/user/1000/smolmux-tcp-5555.token", bytes_of_string generated ++ [10])].
Proof. by vm_compute. Qed.
(** Open to the network only with a token, or when told so. *)
Example exposed_starts :
  main_start [OptTcpPort "5555"; OptTcpBind "0.0.0.0"] ["/dev/ttyUSB0"] = Exit 1 /\
  map (fun o => b_auth_token (su_broker (started (main_start (OptTcpPort "5555" :: OptTcpBind "0.0.0.0" :: o) ["/dev/ttyUSB0"]))))
    [[OptAuthToken "s3cret"]; [OptInsecureNoAuth]; [OptWsPort "8080"]] = ["s3cret"; ""; generated].
Proof. by vm_compute. Qed.
(** A token of 64 characters loses its last one: who presents it is refused. *)
Example long_token_cut :
  let t := "0123456789abcdef0123456789abcdef0123456789abcdef0123456789abcdef" in
  ct_str_equal t (b_auth_token (su_broker (started
    (main_start [OptTcpPort "5555"; OptAuthToken t] ["/dev/ttyUSB0"])))) = false.
Proof. by vm_compute. Qed.

Section demo.
#[local] Instance demo_wire : LinkOps := demo_link false.

Definition net_link : link_state := mk_demo true [].
Definition net_start : world := init_world (su_broker demo_tcp) net_link.
Definition net_accepted : world := run (sm_broker_register_client (-1) true) net_start.
Lemma net_accepted_tokenless : tokenless net_start generated 0 net_accepted.
Proof. apply tl_accept; [constructor|by vm_compute]. Qed.

(** A hello with a wrong token, then a BREAK. *)
Definition wrong_hello : sm_msg :=
  msg_of (JObj [("type", JStr "hello"); ("name", JStr "x"); ("protocol_version", JNum one_s); ("token", JStr "guess")]).
Definition net_guessed : world := run (handle_client_message 0 wrong_hello) net_accepted.
Lemma network_needs_token_witness (msg := msg_of (sm_msg_pin_control (Some "1") "break" "send" 250)) :
  control (w_b (run (handle_client_message 0 msg) net_guessed)) (w_link (run (handle_client_message 0 msg) net_guessed)) =
    control (w_b net_guessed) (w_link net_guessed) /\
  w_trace (run (handle_client_message 0 msg) net_guessed) =
    [EvSend 0 (sm_msg_error None "authentication failed"); EvSend 0 (sm_msg_error None "hello required")].
Proof.
  split; [|by vm_compute].
  apply (proj2 (network_needs_token [OptTcpPort "5555"] ["/dev/ttyUSB0"] demo_tcp net_link 0 net_guessed msg
    demo_tcp_started ltac:(by intros [|[]]) eq_refl)).
  apply tl_message; [exact net_accepted_tokenless|]. by intros [_ [=]].
Defined.
End demo.

(** A client of the same user finds the file. *)
Definition demo_user : HostEnv := {|
  he_setenv _ _ := true; he_env v := if streq v "XDG_RUNTIME_DIR" then Some "/run/user/1000" else None;
  he_euid := 1000; he_stat _ := None;
  he_lstat p := streq p "/run/user/1000/smolmux-tcp-5555.token";
  he_open p := if streq p "/run/user/1000/smolmux-tcp-5555.token"
               then Some (demo_private, bytes_of_string generated ++ [10]) else None;
  he_readable _ := false; he_file _ := None; he_glob _ := []; he_realpath _ := None;
  he_connect _ := None; he_resolve _ _ := None |}.
Lemma demo_token_found : @sm_auth_token_find demo_user 512 "tcp" 5555 = Some "/run/user/1000/smolmux-tcp-5555.token".
Proof. by vm_compute. Qed.
Lemma generated_token_loads_witness :
  @sm_auth_token_autoload demo_user "127.0.0.1" 5555 (mk_token None false) = (1, mk_token (Some generated) true).
Proof.
  rewrite <- (proj1 demo_tcp_config).
  eapply (generated_token_loads cjson demo_regex demo_host demo_user demo_gdb_env demo_main); [exact demo_tcp_started| | |exact demo_token_found| | |done].
  - rewrite (proj2 (proj2 demo_tcp_config)). by left.
  - by vm_compute.
  - reflexivity.
  - reflexivity.
Defined.
