(* ===== verification/GdbMcp.v ===== *)
(** * The GDB MCP server ([src/gdb_mcp.c])

    A program in front of a broker whose link is a debugger: each MI command
    is sent with a token, and the stream of device output is cut into lines,
    parsed as MI records and searched for the result with that token.  Its
    operations are programs over the server's state; the socket, the clock,
    the files and the environment answer through [GdbMcpEnv]. *)
From stdpp Require Import pretty.
From S2P Require Import Prelude Cstr Codecs Json MiParse Protocol Regex Anomaly McpText Effects.
From S2P Require Import Client BrokerState McpResults McpTools McpConn HostPaths Profiles.

#[local] Open Scope string_scope.
#[local] Open Scope list_scope.
#[local] Open Scope Z_scope.
#[local] Open Scope json_scope.

(** ** State *)

(** Where the target stopped last. *)
Record stop_info := mk_stop {
  sp_reason : string; sp_func : string; sp_file : string; sp_line : string; sp_signal : string;
  sp_signal_meaning : string }.

(** [g_sent] is everything written to the broker, [g_stdout] the messages
    written, [g_files] the files opened for writing (path, whether an existing
    one may be replaced, text); [g_undefined] that a token overflowed. *)
Record gdb_ctx := mk_gctx {
  g_conn : sm_broker_conn; g_mi_buf : bytes; g_next_token : Z; g_pending_token : Z;
  g_have_result : bool; g_result : option json; g_result_class : string;
  g_target_running : bool; g_have_stopped : bool; g_stop : stop_info; g_console : bytes;
  g_stdin : bytes; g_stdin_cap : Z; g_initialized : bool;
  g_sent : bytes; g_stdout : list json; g_files : list (string * bool * string); g_undefined : bool; g_tick : nat }.

Inductive save_result := SaveOk | SaveExists | SaveFailed (why : string).
(** The configuration, and the answers of the system in the order asked;
    [gm_print] is cJSON's formatted printer. *)
Class GdbMcpEnv := {
  gm_profile : sm_gdb_profile; gm_home : option string; gm_name : string; gm_token : option string;
  gm_print : json -> string;
  gm_writes : nat -> list wres; gm_clock : nat -> Z * Z; gm_steps : nat -> list wait_step;
  gm_realloc : nat -> bool; gm_save : nat -> save_result }.

Abbreviation G := (ST gdb_ctx).
Definition gask {A} (f : nat -> A) : G A := fun s => ({| s with g_tick := S (g_tick s) |}, f (g_tick s)).

(** [cJSON_GetObjectItem], of which the code looks at the type next. *)
Definition item_ci (obj : json) (key : string) : json := default JNull (get_item_ci obj key).
Definition jstr (obj : json) (key def : string) : string := default def (sm_json_get_string obj key).

Definition quoted (s : string) : string := dq +:+ s +:+ dq.

(** ** The MI stream *)

Definition GDB_CONSOLE_MAX : Z := 262144.
Definition SM_GDB_MCP_MI_BUF_MAX : Z := 262144.

Definition console_append (s : bytes) (g : gdb_ctx) : gdb_ctx :=
  {| g with g_console := (if GDB_CONSOLE_MAX <? zlen (g_console g) then [] else g_console g) ++ cstr s |}.

Definition stop_of (results : json) : stop_info :=
  let frame := item_ci results "frame" in
  mk_stop (snprintf_s 64 (jstr results "reason" "")) (snprintf_s 128 (jstr frame "func" ""))
    (snprintf_s 256 (jstr frame "file" "")) (snprintf_s 16 (jstr frame "line" ""))
    (snprintf_s 32 (jstr results "signal-name" "")) (snprintf_s 160 (jstr results "signal-meaning" "")).

Definition handle_mi_record (rec : sm_mi_record) (g : gdb_ctx) : gdb_ctx :=
  let results := match mi_results rec with Some ms => JObj ms | None => JNull end in
  match mi_type rec with
  | SM_MI_RESULT =>
      if negb (g_pending_token g =? 0) && (mi_token rec =? g_pending_token g) then
        {| g with g_result := option_map JObj (mi_results rec);
                  g_result_class := snprintf_s 32 (mi_class rec);
                  g_have_result := true; g_pending_token := 0 |}
      else g
  | SM_MI_EXEC_ASYNC =>
      if streq (mi_class rec) "stopped" then
        {| g with g_target_running := false; g_have_stopped := true; g_stop := stop_of results |}
      else if streq (mi_class rec) "running" then {| g with g_target_running := true |} else g
  | SM_MI_CONSOLE | SM_MI_TARGET | SM_MI_LOG =>
      match mi_stream_data rec with Some s => console_append (bytes_of_string s) g | None => g end
  | _ => g
  end.

(** A complete line: a record, or text of the target. *)
Definition handle_mi_line (line : bytes) (g : gdb_ctx) : gdb_ctx :=
  match sm_mi_parse_line line with
  | MiRecord rec => match mi_type rec with SM_MI_PROMPT => g | _ => handle_mi_record rec g end
  | MiReject => if 0 <? zlen line then console_append [10] (console_append line g) else g
  | MiUndefined | MiEndless => {| g with g_undefined := true |}
  end.

Fixpoint mi_lines (fuel : nat) (buf : bytes) (g : gdb_ctx) : gdb_ctx * bytes :=
  match fuel, split_at_char 10 buf with
  | S f, Some (line, rest) => mi_lines f rest (handle_mi_line line g)
  | _, _ => (g, buf)
  end.

Definition gdb_on_broker_output (data : bytes) (g : gdb_ctx) : gdb_ctx :=
  let buf := zlast SM_GDB_MCP_MI_BUF_MAX (g_mi_buf g ++ data) in
  let '(g, rest) := mi_lines (length buf) buf g in
  {| g with g_mi_buf := rest |}.
Definition gdb_on_delivery (d : delivery) (g : gdb_ctx) : gdb_ctx :=
  match d with DeliverOutput data => gdb_on_broker_output data g | DeliverEvent _ _ => g end.
Definition gdb_on_deliveries (ds : list delivery) (g : gdb_ctx) : gdb_ctx :=
  fold_left (fun g d => gdb_on_delivery d g) ds g.

(** ** MI commands *)

Definition remaining_ms (deadline now : Z * Z) : Z :=
  let ms := remain_ms deadline now in
  if ms <? 0 then 0 else if INT_MAX <? ms then INT_MAX else ms.

Section server.
Context {J : JsonText} {N : GdbMcpEnv}.

(** Rounds until [done], the deadline or the end of the connection; when the
    script ends the time is over. *)
Fixpoint pump_until (done : gdb_ctx -> bool) (deadline : Z * Z) (steps : list wait_step) : G unit :=
  match steps with
  | [] => mret tt
  | st :: steps' =>
      go ← sget (fun g => bc_running (g_conn g) && negb (done g));
      if negb (go : bool) then mret tt else
      if remaining_ms deadline (ws_now st) <=? 0 then mret tt else
      rc ← (fun g => let '(rc, ds, c) := sm_broker_conn_pump st (g_conn g) in
                     (gdb_on_deliveries ds {| g with g_conn := c |}, rc));
      if rc <? 0 then mret tt else pump_until done deadline steps'
  end.
Definition pump_for (done : gdb_ctx -> bool) (timeout_ms : Z) : G unit :=
  now ← gask gm_clock;
  steps ← gask gm_steps;
  pump_until done (wait_deadline now timeout_ms) steps.

Definition take_token : G Z := fun g =>
  let token := g_next_token g in
  let next := u32 (token + 1) in
  ({| g with g_result := None; g_have_result := false;
             g_next_token := (if next =? 0 then 1 else next); g_pending_token := token |}, token).
Definition gdb_wire_id : G string := fun g =>
  let '(id, c) := sm_broker_conn_gen_wire_id 64 (g_conn g) in ({| g with g_conn := c |}, id).
Definition gdb_send (msg : json) : G Z :=
  env ← gask gm_writes;
  let '(rc, sent) := sm_broker_conn_send msg env in
  smod (fun g => {| g with g_sent := g_sent g ++ sent |}) ;; mret rc.
Definition no_pending : G unit := smod (fun g => {| g with g_pending_token := 0 |}).

Definition mi_line_of (token : Z) (mi_cmd : string) : bytes := bytes_of_string (pretty token +:+ mi_cmd) ++ [10].

Definition gdb_mi_send (mi_cmd : string) : G Z :=
  token ← take_token;
  wire_id ← gdb_wire_id;
  gdb_send (sm_msg_send (Some wire_id) (mi_line_of token mi_cmd)).
Definition gdb_mi_result : G (option (json * string)) :=
  no_pending ;;
  have ← sget g_have_result;
  if negb (have : bool) then mret None else
  r ← sget g_result;
  cls ← sget g_result_class;
  smod (fun g => {| g with g_result := None; g_have_result := false |}) ;;
  mret (option_map (fun r => (r, cls)) r).
(** The results and the class of the record, if it comes in time. *)
Definition gdb_mi_command (mi_cmd : string) (timeout_ms : Z) : G (option (json * string)) :=
  rc ← gdb_mi_send mi_cmd;
  if rc <? 0 then no_pending ;; mret None else
  pump_for g_have_result timeout_ms ;;
  gdb_mi_result.

(** ** Tools *)

Definition fmtdup (s : string) : string := snprintf_s 1024 s.
Definition mi_error_text (r : option (json * string)) : option string :=
  match r with
  | None => Some "[ERROR] no response from GDB (timeout or link down)"
  | Some (res, cls) =>
      if streq cls "error"
      then Some (fmtdup ("[ERROR] " +:+ default "GDB error" (sm_json_get_string res "msg"))) else None
  end.

(** A command whose failure is the answer. *)
Definition with_mi (cmd : string) (timeout_ms : Z) (k : json -> G string) : G string :=
  r ← gdb_mi_command cmd timeout_ms;
  match mi_error_text r with
  | Some e => mret e
  | None => k (default JNull (fst <$> r))
  end.
Definition succeeded (r : option (json * string)) : option json :=
  match r with Some (res, cls) => if streq cls "error" then None else Some res | None => None end.

Definition tool_launch (args : json) : G string :=
  match sm_json_get_string args "executable" with
  | None => mret "[ERROR] missing 'executable'"
  | Some exe =>
      with_mi (snprintf_s 512 ("-file-exec-and-symbols " +:+ quoted exe)) 30000 (fun _ =>
        let out := "Loaded symbols: " +:+ exe in
        match nonempty_s (sm_json_get_string args "target") with
        | None => mret out
        | Some target =>
            tr ← gdb_mi_command (snprintf_s 512 ("-target-select " +:+ target)) 15000;
            mret (out +:+ match succeeded tr with
              | Some _ => nl +:+ "Connected target: " +:+ target
              | None => nl +:+ "Target " +:+ target +:+ " not (re)selected — the broker already owns the connection"
              end)
        end)
  end.

Definition tool_breakpoint (args : json) : G string :=
  match sm_json_get_string args "location" with
  | None => mret "[ERROR] missing 'location'"
  | Some loc =>
      let cond := match nonempty_s (sm_json_get_string args "condition") with
                  | Some c => " -c " +:+ quoted c | None => "" end in
      with_mi ("-break-insert" +:+ (if sm_json_get_bool args "temporary" false then " -t" else "") +:+ cond +:+ " " +:+ loc)
        5000 (fun r =>
          let bkpt := item_ci r "bkpt" in
          mret (fmtdup ("Breakpoint " +:+ jstr bkpt "number" "?" +:+ " at " +:+ jstr bkpt "addr" loc)))
  end.

Definition tool_delete_breakpoint (args : json) : G string :=
  let number := sm_json_get_int args "number" (-1) in
  if number <? 0 then mret "[ERROR] missing/invalid 'number'" else
  with_mi (snprintf_s 64 ("-break-delete " +:+ pretty number)) 5000 (fun _ =>
    mret (fmtdup ("Deleted breakpoint " +:+ pretty number))).

Definition tool_continue : G string :=
  with_mi "-exec-continue" 5000 (fun _ => mret "Running — use gdb_wait_stop to wait for the next stop").
Definition tool_interrupt : G string :=
  with_mi "-exec-interrupt" 5000 (fun _ => mret "Interrupt requested — call gdb_wait_stop to confirm the halt").

Definition step_command (mode : string) : string :=
  if streq mode "next" then "-exec-next" else if streq mode "finish" then "-exec-finish"
  else if streq mode "stepi" then "-exec-step-instruction"
  else if streq mode "nexti" then "-exec-next-instruction" else "-exec-step".
Definition tool_step (args : json) : G string :=
  let mi := step_command (jstr args "mode" "step") in
  let count := sm_json_get_int args "count" 1 in
  with_mi (snprintf_s 64 (if 1 <? count then mi +:+ " " +:+ pretty count else mi)) 10000 (fun _ =>
    mret "Stepped — use gdb_wait_stop for the resulting stop location").

(** The elements of an array that has some, or a text. *)
Definition listing (j : json) (none : string) (f : json -> string) : string :=
  match j with JArr (x :: l) => foldr String.append "" (map f (x :: l)) | _ => none end.

Definition frame_line (entry : json) : string :=
  let f := match item_ci entry "frame" with JNull => entry | f => f end in
  "#" +:+ jstr f "level" "?" +:+ " " +:+ jstr f "addr" "" +:+ " in " +:+ jstr f "func" "?" +:+ " at " +:+
  jstr f "file" "?" +:+ ":" +:+ jstr f "line" "?" +:+ nl.
Definition tool_backtrace : G string :=
  with_mi "-stack-list-frames" 5000 (fun r => mret (listing (item_ci r "stack") "No frames" frame_line)).

(** *** Registers *)

Definition skip_dollar (b : bytes) : bytes := match b with 36 :: b' => b' | _ => b end.
Definition reg_name_match (a b : string) : bool :=
  streqi (skip_dollar (bytes_of_string a)) (skip_dollar (bytes_of_string b)).

(** The index is cut to an [int]. *)
Definition reg_name_at (names : option (list json)) (number : string) : option string :=
  match names with
  | None => None
  | Some l =>
      let '(i, rest) := strtol10 (bytes_of_string number) in
      if negb (zlen rest =? 0) || (i <? 0) then None else
      if i32 i <? 0 then None else
      match l !! Z.to_nat (i32 i) with
      | Some (JStr s) => if streq s "" then None else Some s
      | _ => None
      end
  end.

Definition names_in (l : list json) : list string :=
  take SM_GDB_PROFILE_MAX_REGISTERS (omap (fun x => match x with JStr s => nonempty_s (Some s) | _ => None end) l).
Fixpoint tokens_by (sep : Z -> bool) (cur : bytes) (b : bytes) : list bytes :=
  match b with
  | [] => match cur with [] => [] | _ => [cur] end
  | c :: b' => if sep c then (match cur with [] => [] | _ => [cur] end) ++ tokens_by sep [] b'
               else tokens_by sep (cur ++ [c]) b'
  end.
Definition is_name_sep (c : Z) : bool := (c =? 44) || (c =? 32) || (c =? 9).
Definition csv_names (s : string) : list string :=
  take SM_GDB_PROFILE_MAX_REGISTERS (map string_of_bytes (tokens_by is_name_sep [] (bytes_of_string s))).

(** The registers asked for and whether they were named. *)
Definition wanted_registers (args : json) : list string * bool :=
  match item_ci args "names" with
  | JArr ((_ :: _) as l) => (names_in l, true)
  | JStr s =>
      if streq s "" then (gp_registers gm_profile, false) else
      let parsed := if String.prefix "[" s
                    then match cJSON_Parse s with Some (JArr l) => names_in l | _ => [] end else [] in
      (match parsed with [] => csv_names s | _ => parsed end, true)
  | _ => (gp_registers gm_profile, false)
  end.

Fixpoint find_register (i : nat) (names : list json) (want : string) : option nat :=
  match names with
  | [] => None
  | JStr s :: names' => if negb (streq s "") && reg_name_match s want then Some i else find_register (S i) names' want
  | _ :: names' => find_register (S i) names' want
  end.
(** The indices, or the first name that is not known. *)
Fixpoint register_indices (names : list json) (named : bool) (wanted : list string) : list nat + string :=
  match wanted with
  | [] => inl []
  | w :: wanted' =>
      match find_register 0 names w with
      | Some i => match register_indices names named wanted' with inl l => inl (i :: l) | inr e => inr e end
      | None => if named then inr w else register_indices names named wanted'
      end
  end.

Definition register_line (names : option (list json)) (e : json) : string :=
  let num := jstr e "number" "?" in
  match reg_name_at names num with
  | Some name => "  " +:+ name +:+ foldr String.append "" (replicate (6 - String.length name) " ") +:+ " " +:+
                 jstr e "value" "?" +:+ nl
  | None => "  r" +:+ num +:+ ": " +:+ jstr e "value" "?" +:+ nl
  end.

Definition read_register_values (names : option (list json)) (idx : list nat) : G string :=
  with_mi (snprintf_s 512 (match idx with
                           | [] => "-data-list-register-values x"
                           | _ => "-data-list-register-values x " +:+ String.concat " " (map pretty idx)
                           end)) 5000 (fun r =>
    mret (listing (item_ci r "register-values") "No register data" (register_line names))).

Definition tool_read_registers (args : json) : G string :=
  nr ← gdb_mi_command "-data-list-register-names" 5000;
  let names := match succeeded nr with
               | Some r => match item_ci r "register-names" with JArr l => Some l | _ => None end | None => None end in
  let '(wanted, named) := wanted_registers args in
  match wanted, names with
  | [], _ => read_register_values names []
  | _, None => if named then mret "[ERROR] register names unavailable (is the target attached?)"
               else read_register_values names []
  | _, Some l =>
      match register_indices l named wanted with
      | inr w => mret (fmtdup ("[ERROR] unknown register name: " +:+ w))
      | inl idx => if named && (length idx =? 0)%nat then mret "[ERROR] no matching registers for names filter"
                   else read_register_values names idx
      end
  end.

(** *** Memory, expressions, threads *)

Definition memory_line (region : json) : string :=
  "  " +:+ jstr region "begin" "?" +:+ ": " +:+ jstr region "contents" "" +:+ nl.
Definition format_memory (result : json) : string := listing (item_ci result "memory") "No data" memory_line.

Definition tool_read_memory (args : json) : G string :=
  let length := sm_json_get_int args "length" 256 in
  match sm_json_get_string args "address" with
  | None => mret "[ERROR] missing 'address'"
  | Some addr =>
      let length := if length <=? 0 then 256 else length in
      with_mi (snprintf_s 256 ("-data-read-memory-bytes " +:+ addr +:+ " " +:+ pretty length)) 5000 (fun r =>
        mret (format_memory r))
  end.

Definition tool_evaluate (args : json) : G string :=
  match sm_json_get_string args "expression" with
  | None => mret "[ERROR] missing 'expression'"
  | Some expr =>
      with_mi (snprintf_s 512 ("-data-evaluate-expression " +:+ quoted expr)) 5000 (fun r =>
        mret (fmtdup (jstr r "value" "void")))
  end.

Definition thread_line (t : json) : string :=
  "  Thread " +:+ jstr t "id" "?" +:+ " (" +:+ jstr t "target-id" "" +:+ ") state=" +:+ jstr t "state" "?" +:+
  " in " +:+ jstr (item_ci t "frame") "func" "?" +:+ nl.
Fixpoint rtos_lines (cmds : list string) : G string :=
  match cmds with
  | [] => mret ""
  | c :: cmds' =>
      rr ← gdb_mi_command c 5000;
      rest ← rtos_lines cmds';
      mret match rr with
           | Some (res, _) => "  " +:+ c +:+ ": " +:+ cJSON_PrintUnformatted res +:+ nl +:+ rest
           | None => rest
           end
  end.
Definition tool_threads : G string :=
  with_mi "-thread-info" 5000 (fun r =>
    let out := listing (item_ci r "threads") "No threads" thread_line in
    match gp_rtos_commands gm_profile with
    | [] => mret out
    | cmds =>
        let rtos := if streq (gp_rtos gm_profile) "" then "generic" else gp_rtos gm_profile in
        more ← rtos_lines cmds;
        mret (out +:+ nl +:+ "RTOS (" +:+ rtos +:+ "):" +:+ nl +:+ more)
    end).

Definition tool_load : G string :=
  with_mi "-target-download" 60000 (fun _ => mret "Loaded (flashed) the ELF to the target").

Definition gdb_flush_register_cache : G (option string) :=
  r ← gdb_mi_command ("-interpreter-exec console " +:+ quoted "maintenance flush register-cache") 5000;
  mret (mi_error_text r).

Definition tool_reset (args : json) : G string :=
  let mode := jstr args "mode" "halt" in
  with_mi (if streq mode "init" then "monitor reset init" else "monitor reset halt") 10000 (fun _ =>
    gdb_flush_register_cache ;;
    if streq mode "run" then
      cr ← gdb_mi_command "-exec-continue" 10000;
      match mi_error_text cr with
      | Some e => mret e
      | None =>
          smod (fun g => {| g with g_target_running := true; g_have_stopped := false |}) ;;
          mret "Reset (run): halt + flush + continue"
      end
    else
      smod (fun g => {| g with g_target_running := false; g_have_stopped := true |}) ;;
      mret (fmtdup ("Reset (" +:+ mode +:+ "): done, register cache flushed"))).

Definition tool_status : G string :=
  g ← sget id;
  mret (fmtdup ("Profile: " +:+ gp_name gm_profile +:+ " (" +:+ gp_arch gm_profile +:+ ")" +:+ nl +:+ "Link: " +:+
    (if bc_running (g_conn g) then "connected to broker" else "disconnected") +:+ nl +:+ "Target: " +:+
    (if g_target_running g then "running" else "stopped/unknown"))).

Definition or_mark (s d : string) : string := if streq s "" then d else s.
Definition stop_text (st : stop_info) : string :=
  "Stopped: " +:+ or_mark (sp_reason st) "unknown" +:+ " — " +:+ or_mark (sp_func st) "?" +:+ " at " +:+
  or_mark (sp_file st) "?" +:+ ":" +:+ or_mark (sp_line st) "?" +:+
  (if streq (sp_signal st) "" then ""
   else " (signal: " +:+ sp_signal st +:+ " — " +:+ sp_signal_meaning st +:+ ")").
Definition tool_wait_stop (args : json) : G string :=
  let timeout_ms := sm_json_get_int args "timeout_ms" 30000 in
  pump_for g_have_stopped (if timeout_ms <=? 0 then 30000 else timeout_ms) ;;
  have ← sget g_have_stopped;
  if negb (have : bool) then mret "[TIMEOUT] target may still be running" else
  smod (fun g => {| g with g_have_stopped := false |}) ;;
  st ← sget g_stop;
  mret (stop_text st).

Definition tool_console_output : G string :=
  out ← sget g_console;
  if zlen out =? 0 then mret "(no console output)"
  else smod (fun g => {| g with g_console := [] |}) ;; mret (string_of_bytes out).

(** *** Fault registers *)

Definition CFSR_BITS : list (Z * string) :=
  [(0, "IACCVIOL"); (1, "DACCVIOL"); (3, "MUNSTKERR"); (4, "MSTKERR"); (7, "MMARVALID");
   (8, "IBUSERR"); (9, "PRECISERR"); (10, "IMPRECISERR"); (11, "UNSTKERR"); (12, "STKERR"); (13, "LSPERR");
   (15, "BFARVALID"); (16, "UNDEFINSTR"); (17, "INVSTATE"); (18, "INVPC"); (19, "NOCP");
   (24, "UNALIGNED"); (25, "DIVBYZERO")].
Definition HFSR_BITS : list (Z * string) := [(1, "VECTTBL"); (30, "FORCED"); (31, "DEBUGEVT")].
Definition set_bits (bits : list (Z * string)) (v : Z) : list string :=
  map snd (List.filter (fun b => Z.testbit v (fst b)) bits).
Definition decode_fault_bits (reg : string) (v : Z) : string :=
  String.concat ", " (if streq reg "CFSR" then set_bits CFSR_BITS v
                      else if streq reg "HFSR" then set_bits HFSR_BITS v else []).

Definition xval (c : Z) : option Z :=
  if isdigit c then Some (c - 48) else if (97 <=? c) && (c <=? 102) then Some (c - 87)
  else if (65 <=? c) && (c <=? 70) then Some (c - 55) else None.
(** [strtol] of two characters in base 16 that takes both. *)
Definition strtol16_2 (a b : Z) : option Z :=
  match xval a, xval b with
  | Some x, Some y => Some (16 * x + y)
  | None, Some y => if isspace a || (a =? 43) then Some y else if a =? 45 then Some (- y) else None
  | _, None => None
  end.
Fixpoint le_bytes (n : nat) (i : Z) (hex : bytes) : option Z :=
  match n, hex with
  | O, _ => Some 0
  | S m, a :: b :: hex' =>
      match strtol16_2 a b, le_bytes m (i + 8) hex' with
      | Some v, Some w => Some (Z.lor (Z.shiftl (Z.land v 255) i) w)
      | _, _ => None
      end
  | _, _ => None
  end.
Definition parse_hex_le32 (hex : option string) : option Z :=
  match hex with
  | Some h => if slen h <? 8 then None else le_bytes 4 0 (bytes_of_string h)
  | None => None
  end.

Definition memory_contents (r : json) : option string :=
  match item_ci r "memory" with JArr (x :: _) => sm_json_get_string x "contents" | _ => None end.

Definition fault_line (name addr : string) (val : option Z) (cfsr : option Z) : string :=
  let flag k v t := if streq name k && match cfsr with Some c => Z.testbit c v | None => false end then t else "" in
  "  " +:+ name +:+ " (" +:+ addr +:+ "): 0x" +:+ hex8 (default 0 val) +:+
  match val with
  | None => ""
  | Some v =>
      let bits := decode_fault_bits name v in
      (if streq bits "" then "" else " — " +:+ bits) +:+
      flag "MMFAR" 7 " (MMARVALID — faulting address)" +:+ flag "BFAR" 15 " (BFARVALID — faulting address)"
  end +:+ nl.
Fixpoint read_faults (regs : list (string * string)) (cfsr : option Z) : G string :=
  match regs with
  | [] => mret ""
  | (name, addr) :: regs' =>
      r ← gdb_mi_command (snprintf_s 128 ("-data-read-memory-bytes " +:+ addr +:+ " 4")) 5000;
      match succeeded r with
      | None => rest ← read_faults regs' cfsr;
                mret ("  " +:+ name +:+ " (" +:+ addr +:+ "): read failed" +:+ nl +:+ rest)
      | Some res =>
          let val := parse_hex_le32 (memory_contents res) in
          let cfsr := match val with Some v => if streq name "CFSR" then Some v else cfsr | None => cfsr end in
          rest ← read_faults regs' cfsr;
          mret (fault_line name addr val cfsr +:+ rest)
      end
  end.
Definition tool_read_fault_registers : G string :=
  match gp_fault_registers gm_profile with
  | [] => mret "No fault_registers in target profile"
  | regs => read_faults regs None
  end.

Definition tool_read_peripheral (args : json) : G string :=
  let num := sm_json_get_int args "num_registers" 16 in
  match sm_json_get_string args "name" with
  | None => mret "[ERROR] missing 'name'"
  | Some name =>
      let num := if num <=? 0 then 16 else num in
      match gp_peripherals gm_profile with
      | [] => mret "No peripheral_map in target profile"
      | ps =>
          match sm_gdb_profile_peripheral_addr gm_profile name with
          | None => mret (fmtdup ("Unknown peripheral '" +:+ name +:+ "'. Available: " +:+ String.concat ", " (map fst ps)))
          | Some addr =>
              swhen (INT_MAX <? num * 4) (smod (fun g => {| g with g_undefined := true |})) ;;
              with_mi (snprintf_s 128 ("-data-read-memory-bytes " +:+ addr +:+ " " +:+ pretty (i32 (num * 4)))) 5000 (fun r =>
                mret (fmtdup (name +:+ " @ " +:+ addr +:+ ":" +:+ nl +:+ format_memory r)))
          end
      end
  end.

(** *** Raw commands *)

Definition blocked_commands : list string := ["shell"; "pipe"; "python"; "guile"; "make"; "eval"].
Definition ends_word (b : bytes) : bool :=
  match b with [] => true | c :: _ => (c =? 32) || (c =? 9) || (c =? 13) || (c =? 10) end.
Definition is_pad (c : Z) : bool := (c =? 32) || (c =? 9).
Definition command_is_blocked (cmd : bytes) : bool :=
  let cmd := skip_while is_pad (skip_while isdigit (skip_while is_pad cmd)) in
  match cmd with
  | c :: _ => (c =? 33) || (c =? 124) ||
      existsb (fun w => let w := bytes_of_string w in starts_with w cmd && ends_word (zdrop (zlen w) cmd)) blocked_commands
  | [] => false
  end.

Definition sanitize (cmd : bytes) : bytes :=
  take 1023 (List.filter (fun c => negb ((c =? 10) || (c =? 13))) cmd).
Definition tool_command (args : json) : G string :=
  match sm_json_get_string args "command" with
  | None => mret "[ERROR] missing 'command'"
  | Some command =>
      if command_is_blocked (bytes_of_string command)
      then mret "[ERROR] blocked command (shell/pipe/python/guile/make)" else
      r ← gdb_mi_command (string_of_bytes (sanitize (bytes_of_string command))) 10000;
      match r with
      | None => mret "[ERROR] no response from GDB (timeout or link down)"
      | Some (res, cls) =>
          let j := cJSON_PrintUnformatted res in
          mret (fmtdup (if streq cls "error" then "[" +:+ cls +:+ "] " +:+ j else "^" +:+ cls +:+ " " +:+ j))
      end
  end.

(** *** What the target is *)

Definition read_word_le32 (addr : string) : G (option Z) :=
  r ← gdb_mi_command (snprintf_s 128 ("-data-read-memory-bytes " +:+ addr +:+ " 4")) 5000;
  mret (succeeded r ≫= fun res => parse_hex_le32 (memory_contents res)).

Definition cortex_m_core (partno : Z) : option string :=
  if partno =? 3104 then Some "Cortex-M0" else if partno =? 3168 then Some "Cortex-M0+"
  else if partno =? 3105 then Some "Cortex-M1" else if partno =? 3107 then Some "Cortex-M3"
  else if partno =? 3108 then Some "Cortex-M4" else if partno =? 3111 then Some "Cortex-M7"
  else if partno =? 3360 then Some "Cortex-M23" else if partno =? 3361 then Some "Cortex-M33"
  else if partno =? 3362 then Some "Cortex-M55" else None.

(** [%0wx]. *)
Definition hex_min (w : nat) (v : Z) : string :=
  string_of_bytes (hex_digits (Nat.max w (Z.to_nat (Z.log2 v / 4 + 1))) v).
Definition bits (v lo n : Z) : Z := Z.land (Z.shiftr v lo) (Z.ones n).

(** Members found and evidence. *)
Definition found := (json * list string)%type.
Definition evidence_add (t : string) (f : found) : found := (fst f, snd f ++ [snprintf_s 256 t]).
Definition found_string (k v : string) (f : found) : found := (add_string k v (fst f), snd f).
Definition found_int (k : string) (v : Z) (f : found) : found := (add_int k v (fst f), snd f).

Definition cpuid_found (cpuid : option Z) (f : found) : found :=
  match cpuid with
  | None =>
      f |> found_string "core" "unknown"
        |> evidence_add "CPUID 0xE000ED00: read failed (not a Cortex-M, or target not halted/attached)"
  | Some v =>
      let core := cortex_m_core (bits v 4 12) in
      let arm := bits v 24 8 =? 65 in
      let rev := "r" +:+ pretty (bits v 20 4) +:+ "p" +:+ pretty (bits v 0 4) in
      f |> found_string "cpuid" ("0x" +:+ hex8 v)
        |> found_string "implementer" (if arm then "ARM" else "unknown")
        |> found_string "core" (default "unknown Cortex-M" core) |> found_string "revision" rev
        |> evidence_add ("CPUID 0xE000ED00 = 0x" +:+ hex8 v +:+ " -> " +:+ (if arm then "ARM" else "impl?") +:+ " " +:+
             default "unknown-core" core +:+ " " +:+ rev)
  end.
Definition rom_found (rom0 : option Z) : found -> found :=
  evidence_add match rom0 with
    | Some v => "ROM table 0xE00FF000 entry0 = 0x" +:+ hex8 v +:+ " (" +:+
                (if Z.testbit v 0 then "CoreSight debug present" else "no first entry") +:+ ")"
    | None => "ROM table 0xE00FF000: read failed"
    end.
Definition ALL_ONES : Z := 4294967295.
Definition stm32_found (v : Z) (f : found) : found :=
  f |> found_string "vendor_guess" "STMicroelectronics STM32" |> found_string "dev_id" ("0x" +:+ hex_min 3 (bits v 0 12))
    |> evidence_add ("STM32 DBGMCU_IDCODE 0xE0042000 = 0x" +:+ hex8 v +:+ " -> DEV_ID=0x" +:+ hex_min 3 (bits v 0 12) +:+
         " REV_ID=0x" +:+ hex_min 4 (bits v 16 16)).
Definition sam_found (v : Z) (f : found) : found :=
  f |> found_string "vendor_guess" "Microchip/Atmel SAM" |> found_string "dev_id" ("0x" +:+ hex8 v)
    |> evidence_add ("SAM DSU DID 0x41002018 = 0x" +:+ hex8 v +:+ " -> PROCESSOR=" +:+ pretty (bits v 28 4) +:+
         " FAMILY=" +:+ pretty (bits v 23 5) +:+ " SERIES=" +:+ pretty (bits v 16 6) +:+ " DIE=" +:+ pretty (bits v 12 4) +:+
         " REV=" +:+ string_of_bytes [65 + bits v 8 4] +:+ " DEVSEL=0x" +:+ hex_min 2 (bits v 0 8)).
Definition nrf_found (part : Z) (ram flash : option Z) (f : found) : found :=
  let size k v f := match v with Some n => if n =? ALL_ONES then f else found_int k n f | None => f end in
  f |> found_string "vendor_guess" "Nordic nRF" |> found_string "dev_id" ("0x" +:+ hex_min 5 part)
    |> evidence_add ("nRF FICR.INFO.PART 0x10000100 = 0x" +:+ hex_min 5 part)
    |> size "ram_kb" ram |> size "flash_kb" flash.
Definition no_vendor_found (f : found) : found :=
  f |> found_string "vendor_guess" "unknown"
    |> evidence_add ("No known vendor ID register responded (STM32 0xE0042000, SAM 0x41002018, nRF 0x10000100). " +:+
         "Read the part's ID register from its datasheet with gdb_read_memory.").

(** The evidence stands first in the object. *)
Definition found_json (f : found) : json :=
  match fst f with JObj l => JObj (("evidence", JArr (map JStr (snd f))) :: l) | j => j end.

Definition usable (v : option Z) (ok : Z -> bool) : option Z :=
  match v with Some x => if negb (x =? ALL_ONES) && ok x then Some x else None | None => None end.

Definition identify_findings : G json :=
  cpuid ← read_word_le32 "0xE000ED00";
  rom0 ← read_word_le32 "0xE00FF000";
  let f := (JObj [], []) |> cpuid_found cpuid |> rom_found rom0 in
  idcode ← read_word_le32 "0xE0042000";
  match usable idcode (fun v => negb (bits v 0 12 =? 0)) with
  | Some v => mret (found_json (stm32_found v f))
  | None =>
      did ← read_word_le32 "0x41002018";
      match usable did (fun v => negb (v =? 0)) with
      | Some v => mret (found_json (sam_found v f))
      | None =>
          part ← read_word_le32 "0x10000100";
          match usable part (fun v => negb (v =? 0)) with
          | Some v =>
              ram ← read_word_le32 "0x1000010C";
              flash ← read_word_le32 "0x10000110";
              mret (found_json (nrf_found v ram flash f))
          | None => mret (found_json (no_vendor_found f))
          end
      end
  end.

Definition tool_identify_target : G string := out ← identify_findings; mret (gm_print out).

(** *** A profile for it *)

Definition core_is_mainline (core : string) : bool :=
  strstr core "M3" || strstr core "M4" || strstr core "M7" || strstr core "M33" || strstr core "M55".
Definition vendor_slug (vendor : string) : string :=
  if strstr vendor "STM32" then "stm32" else if strstr vendor "SAM" then "sam"
  else if strstr vendor "nRF" then "nrf" else "unknown".

Fixpoint slug_loop (n : Z) (out : bytes) (l : bytes) : bytes :=
  match l with
  | [] => out
  | c :: l' =>
      if n <=? zlen out + 4 then out else
      slug_loop n (out ++ (if c =? 43 then bytes_of_string "plus" else if isupper c then [c + 32]
                           else if islower c || isdigit c then [c]
                           else if (c =? 32) || (c =? 45) || (c =? 47) then [45] else [])) l'
  end.
Definition slugify (s : string) (n : Z) : string :=
  let out := slug_loop n [] (bytes_of_string s) in
  if zlen out =? 0 then snprintf_s (Z.to_nat n) "unknown" else string_of_bytes out.

Definition profile_dir (n : nat) : option string :=
  match nonempty_s gm_home with Some h => Some (snprintf_s n (h +:+ "/.config/smolmux")) | None => None end.
Definition SM_GDB_PROFILE_FILE_SUFFIX : string := ".gdb-profile.json".

Definition has_dotdot (b : bytes) : bool :=
  bool_decide (b = bytes_of_string "..") || starts_with (bytes_of_string "../") b ||
  match strstr_from (bytes_of_string "/../") b with Some _ => true | None => false end ||
  ends_with (bytes_of_string "/..") b.
Definition has_slash (b : bytes) : bool := existsb (Z.eqb 47) b.
Definition cut100 (s : string) : string := String.substring 0 100 s.

(** The file to write, or why not. *)
Definition resolve_profile_write_path (spec : string) (n : Z) : string + string :=
  match profile_dir 400 with
  | None => inr "HOME is not set, so there is no profile directory to write to"
  | Some dir =>
      let expanded := snprintf_s 512 (if String.prefix "~/" spec
                        then default "" gm_home +:+ "/" +:+ String.substring 2 (String.length spec - 2) spec else spec) in
      let e := bytes_of_string expanded in
      let d := bytes_of_string dir in
      if has_dotdot e then inr "path contains '..'" else
      let base : bytes + string :=
        if negb (has_slash e) then inl e else
        if negb (starts_with d e && starts_with [47] (zdrop (zlen d) e)) then
          inr (snprintf_s 320 ("profiles may only be written to " +:+ cut100 dir +:+ " (got " +:+ cut100 expanded +:+ ")"))
        else
          let b := zdrop (zlen d + 1) e in
          if (zlen b =? 0) || has_slash b then
            inr (snprintf_s 320 ("write directly into " +:+ cut100 dir +:+
                 ", not a subdirectory — profile discovery does not recurse"))
          else inl b in
      match base with
      | inr why => inr why
      | inl b =>
          let suffix := bytes_of_string SM_GDB_PROFILE_FILE_SUFFIX in
          if (zlen b <=? zlen suffix) || negb (ends_with suffix b) then
            inr ("filename must end in " +:+ SM_GDB_PROFILE_FILE_SUFFIX)
          else
            let out := dir +:+ "/" +:+ string_of_bytes b in
            if n <=? slen out then inr "path too long" else inl out
      end
  end.

(** Never through a link, and without [overwrite] only a new file. *)
Definition write_profile_file (path text : string) (overwrite : bool) : G save_result :=
  smod (fun g => {| g with g_files := g_files g ++ [(path, overwrite, text)] |}) ;;
  gask gm_save.

Definition BASELINE_REGS : list string :=
  ["r0"; "r1"; "r2"; "r3"; "r4"; "r5"; "r6"; "r7"; "r8"; "r9"; "r10"; "r11"; "r12";
   "sp"; "lr"; "pc"; "xpsr"; "msp"; "psp"; "primask"; "control"].
Definition MAINLINE_EXTRA_REGS : list string := ["basepri"; "faultmask"].
Definition SCB_FAULT_REGS : list (string * string) :=
  [("CFSR", "0xE000ED28"); ("HFSR", "0xE000ED2C"); ("DFSR", "0xE000ED30"); ("MMFAR", "0xE000ED34");
   ("BFAR", "0xE000ED38"); ("AFSR", "0xE000ED3C")].
Definition ARCH_PERIPHS : list (string * string) :=
  [("SCB", "0xE000ED00"); ("SYSTICK", "0xE000E010"); ("NVIC", "0xE000E100"); ("DCB", "0xE000EDF0");
   ("ROMTABLE", "0xE00FF000")].
Definition MAINLINE_PERIPHS : list (string * string) :=
  [("ITM", "0xE0000000"); ("DWT", "0xE0001000"); ("FPB", "0xE0002000"); ("MPU", "0xE000ED90")].
Definition add_periph (ps : list (string * string)) (q : string * string) : list (string * string) :=
  if (SM_GDB_PROFILE_MAX_PERIPHERALS <=? length ps)%nat then ps
  else ps ++ [(snprintf_s SM_GDB_PERIPH_NAME_LEN (fst q), snprintf_s SM_GDB_ADDR_LEN (snd q))].

(** A size in kilobytes, cut to an integer; beyond an [int] that is undefined. *)
Definition found_kb (f : json) (key : string) : option Z :=
  match item_ci f key with JNum d => Some (Z.quot d one_s) | _ => None end.
Definition beyond_int (o : option Z) : bool := match o with Some v => INT_MAX <? v | None => false end.
Definition memory_note (f : json) : string :=
  snprintf_s 80 match found_kb f "flash_kb", found_kb f "ram_kb" with
    | Some a, Some b => " " +:+ pretty a +:+ " KB flash / " +:+ pretty b +:+ " KB RAM."
    | Some a, None => " " +:+ pretty a +:+ " KB flash."
    | None, Some b => " " +:+ pretty b +:+ " KB RAM."
    | None, None => ""
    end.
Definition vendor_periph (vslug : string) : list (string * string) :=
  if streq vslug "stm32" then [("DBGMCU", "0xE0042000")] else if streq vslug "sam" then [("DSU", "0x41002000")]
  else if streq vslug "nrf" then [("FICR", "0x10000000")] else [].

Definition generated_profile (f : json) (rtos : option string) : sm_gdb_profile :=
  let core := jstr f "core" "unknown Cortex-M" in
  let vendor := jstr f "vendor_guess" "unknown" in
  let dev_id := jstr f "dev_id" "" in
  let mainline := core_is_mainline core in
  let vslug := vendor_slug vendor in
  let if_mainline (l : list (string * string)) := if mainline then l else [] in
  {| gp_name := snprintf_s 64 (vslug +:+ "-" +:+ slugify core 32);
     gp_description := snprintf_s 256
       ("Auto-gen from gdb_identify_target: " +:+ core +:+ " " +:+ jstr f "revision" "" +:+ ", vendor " +:+ vendor +:+
        (if streq dev_id "" then "" else ", dev_id ") +:+ dev_id +:+ "." +:+ memory_note f +:+
        " peripheral_map seeded with Cortex-M + vendor debug blocks; add application peripherals (UART/SPI/GPIO) + rtos from the datasheet.");
     gp_arch := "arm"; gp_gdb_path := "gdb-multiarch";
     gp_rtos := default "" (snprintf_s 32 <$> rtos); gp_init_commands := [];
     gp_registers := map (snprintf_s SM_GDB_REG_NAME_LEN) (BASELINE_REGS ++ if mainline then MAINLINE_EXTRA_REGS else []);
     gp_fault_registers := if_mainline SCB_FAULT_REGS;
     gp_peripherals := fold_left add_periph (ARCH_PERIPHS ++ if_mainline MAINLINE_PERIPHS ++ vendor_periph vslug) [];
     gp_rtos_commands := match rtos with Some _ => ["info threads"] | None => [] end |}.

Definition tool_generate_profile (args : json) : G string :=
  f ← identify_findings;
  swhen (beyond_int (found_kb f "flash_kb") || beyond_int (found_kb f "ram_kb"))
    (smod (fun g => {| g with g_undefined := true |})) ;;
  let pjson := gm_print (sm_gdb_profile_to_json (generated_profile f (nonempty_s (sm_json_get_string args "rtos")))) in
  match nonempty_s (sm_json_get_string args "path") with
  | None => mret pjson
  | Some path =>
      match resolve_profile_write_path path 512 with
      | inr why =>
          mret ("[ERROR] refused to write '" +:+ path +:+ "': " +:+ why +:+ "." +:+ nl +:+ "Pass a bare filename ending in " +:+
                SM_GDB_PROFILE_FILE_SUFFIX +:+ ", or omit path to get the profile inline." +:+ nl +:+ nl +:+ pjson)
      | inl target =>
          res ← write_profile_file target pjson (sm_json_get_bool args "overwrite" false);
          mret (match res with
                | SaveOk => "Saved auto-generated target profile to " +:+ target +:+ nl +:+ "Use it next session with `-p " +:+
                            target +:+ "` — it is already in the auto-discovery directory." +:+ nl +:+ nl
                | SaveExists => "[ERROR] " +:+ target +:+ " already exists — not overwriting. Pass overwrite:true to replace it, or choose another name. Profile returned inline:" +:+ nl +:+ nl
                | SaveFailed why => "[ERROR] could not write " +:+ target +:+ ": " +:+ why +:+ " — profile returned inline:" +:+ nl +:+ nl
                end +:+ pjson)
      end
  end.
End server.
