(* ===== verification/GdbServer.v ===== *)
(** The GDB MCP server as a program: what it lists, and what it does with
    requests. *)

(** * What the GDB MCP server lists ([src/gdb_mcp.c])

    The tools with their schemas, the resources and the prompts. *)
From S2P Require Import Prelude Cstr Json MiParse Protocol Regex Anomaly McpText Effects Client.
From S2P Require Import McpResults McpTools McpConn HostPaths Profiles GdbMcp.

#[local] Open Scope string_scope.
#[local] Open Scope list_scope.
#[local] Open Scope Z_scope.
#[local] Open Scope json_scope.

(** ** Tools *)

Definition sm_gdb_mcp_tool_names : list string :=
  ["gdb_launch"; "gdb_breakpoint"; "gdb_delete_breakpoint"; "gdb_continue";
   "gdb_interrupt"; "gdb_step"; "gdb_backtrace"; "gdb_read_registers";
   "gdb_read_memory"; "gdb_evaluate"; "gdb_threads"; "gdb_load"; "gdb_reset";
   "gdb_status"; "gdb_wait_stop"; "gdb_console_output";
   "gdb_read_fault_registers"; "gdb_read_peripheral"; "gdb_identify_target";
   "gdb_generate_profile"; "gdb_command"].
Definition gdb_tool_listed (name : string) : bool := existsb (fun n => streq n name) sm_gdb_mcp_tool_names.

Definition schema_add_str_array (name desc : string) : json -> json :=
  add_item name (JObj [] |> add_string "type" "array" |> add_item "items" (JObj [] |> add_string "type" "string")
                   |> add_string "description" desc).
Definition tool_entry (name desc : string) (props : json) (required : list string) : json :=
  let s := schema_object |> add_item "properties" props in
  let s := match required with [] => s | _ => s |> add_item "required" (string_array required) end in
  JObj [] |> add_string "name" name |> add_string "description" desc |> add_item "inputSchema" s.

Definition list_gdb_launch : json :=
  tool_entry "gdb_launch"
    ("Load an ELF's symbols (the broker owns the gdb process/connection). Call first when you have the firmware ELF: " +:+
      "breakpoints by name, backtraces and gdb_load need it. Unknown board, no ELF: gdb_identify_target works without " +:+
      "one.")
    (JObj []
      |> schema_add_string "executable" "Path to the ELF file to load symbols from."
      |> schema_add_string "target" "Optional GDB target string to (re)select.") ["executable"].
Definition list_gdb_breakpoint : json :=
  tool_entry "gdb_breakpoint"
    "Set a breakpoint, then gdb_continue and gdb_wait_stop to run to it. temporary=true for a one-shot stop."
    (JObj []
      |> schema_add_string "location" "Function name, file:line, or *0xADDRESS."
      |> schema_add_string "condition" "Optional condition expression."
      |> schema_add_boolean "temporary" "Delete the breakpoint after the first hit.") ["location"].
Definition list_gdb_delete_breakpoint : json :=
  tool_entry "gdb_delete_breakpoint"
    "Delete a breakpoint by number (numbers come from gdb_breakpoint, or gdb_command -break-list)."
    (JObj []
      |> schema_add_integer "number" "Breakpoint number to delete.") ["number"].
Definition list_gdb_continue : json :=
  tool_entry "gdb_continue"
    ("Resume execution. Returns immediately; use gdb_wait_stop to wait for a breakpoint or fault, gdb_interrupt to " +:+
      "halt it yourself.")
    (JObj []) [].
Definition list_gdb_interrupt : json :=
  tool_entry "gdb_interrupt"
    "Halt a running target (e.g. after a long continue/step). Follow with gdb_wait_stop."
    (JObj []) [].
Definition list_gdb_step : json :=
  tool_entry "gdb_step"
    ("Step from a halted target: step into, next over, finish out of the frame, stepi/nexti by instruction. A next " +:+
      "over a slow loop can time out on SWD; use stepi or a breakpoint past it, and gdb_interrupt if it keeps running.")
    (JObj []
      |> schema_add_string "mode" "step (into), next (over), finish (out), stepi, nexti."
      |> schema_add_integer "count" "Number of steps (default 1).") [].
Definition list_gdb_backtrace : json :=
  tool_entry "gdb_backtrace"
    ("Get the current call stack with frame details. Target must be halted; needs gdb_launch symbols for function " +:+
      "names.")
    (JObj []) [].
Definition list_gdb_read_registers : json :=
  tool_entry "gdb_read_registers"
    ("Read CPU registers (optionally filtered by names). For decoded Cortex-M fault state use " +:+
      "gdb_read_fault_registers; for a named peripheral block, gdb_read_peripheral.")
    (JObj []
      |> schema_add_str_array "names" ("Optional list of register names to read (e.g. [" +:+ dq +:+ "pc" +:+ dq +:+ "," +:+ dq +:+ "sp" +:+ dq +:+ "," +:+
          dq +:+ "lr" +:+ dq +:+
          "]). Default = the target profile's important registers. Also accepts a CSV string for clients that send strings.")) [].
Definition list_gdb_read_memory : json :=
  tool_entry "gdb_read_memory"
    ("Read raw memory from the target as bytes. For a typed value or a struct use gdb_evaluate; for a profile-named " +:+
      "peripheral, gdb_read_peripheral.")
    (JObj []
      |> schema_add_string "address" "Hex address (0x...) or expression (&var)."
      |> schema_add_integer "length" "Number of bytes to read (default 256).") ["address"].
Definition list_gdb_evaluate : json :=
  tool_entry "gdb_evaluate"
    ("Evaluate a C expression in the current frame context (variables, struct fields, casts like *(uint32_t*)0x...). " +:+
      "Needs gdb_launch symbols for names; raw bytes: gdb_read_memory.")
    (JObj []
      |> schema_add_string "expression" "C expression to evaluate in the current frame.") ["expression"].
Definition list_gdb_threads : json :=
  tool_entry "gdb_threads"
    ("List all threads (RTOS-aware if the profile configures it). Without RTOS support the bare-metal core shows as " +:+
      "one thread. For the current thread's call stack use gdb_backtrace.")
    (JObj []) [].
Definition list_gdb_load : json :=
  tool_entry "gdb_load"
    "Flash the ELF from gdb_launch to the target via GDB, then gdb_reset to run it. Writes flash."
    (JObj []) [].
Definition list_gdb_reset : json :=
  tool_entry "gdb_reset"
    ("Reset the target via OpenOCD monitor. mode halt/init: leave stopped and flush GDB register cache. mode run: " +:+
      "reset halt, flush cache, then -exec-continue (so GDB breakpoints apply; not bare monitor reset run). Use after " +:+
      "gdb_load to start the new image; to stop a running target without a reset, use gdb_interrupt.")
    (JObj []
      |> schema_add_string "mode" "halt (stop at reset), run, or init.") [].
Definition list_gdb_status : json :=
  tool_entry "gdb_status"
    ("Check first: loaded profile, broker link, and whether the target is running or stopped. If running, " +:+
      "gdb_interrupt before reading state.")
    (JObj []) [].
Definition list_gdb_wait_stop : json :=
  tool_entry "gdb_wait_stop"
    ("Wait for the target to stop (breakpoint, signal, or step completion) after gdb_continue or gdb_step. Returns " +:+
      "[TIMEOUT] if it is still running; then gdb_interrupt.")
    (JObj []
      |> schema_add_integer "timeout_ms" "Maximum time to wait in ms (default 30000).") [].
Definition list_gdb_console_output : json :=
  tool_entry "gdb_console_output"
    ("Drain buffered GDB console/target output since the last read (e.g. OpenOCD monitor replies, semihosting). Not " +:+
      "the serial console: that is smolmux-mcp.")
    (JObj []) [].
Definition list_gdb_read_fault_registers : json :=
  tool_entry "gdb_read_fault_registers"
    ("Read and decode ARM Cortex-M fault status registers (CFSR/HFSR/MMFAR/BFAR). Use when the target stopped in a " +:+
      "HardFault or other fault handler; follow with gdb_backtrace. M0/M0+/M23 have no CFSR.")
    (JObj []) [].
Definition list_gdb_read_peripheral : json :=
  tool_entry "gdb_read_peripheral"
    ("Read memory-mapped registers from a peripheral named in the target profile's peripheral_map. Arbitrary " +:+
      "addresses: gdb_read_memory.")
    (JObj []
      |> schema_add_string "name" "Peripheral name from the target profile (e.g. UARTE0)."
      |> schema_add_integer "num_registers" "Number of 32-bit registers to read (default 16).") ["name"].
Definition list_gdb_identify_target : json :=
  tool_entry "gdb_identify_target"
    ("Identify unknown silicon: decode SCB CPUID (ARM Cortex-M core + revision), probe the CoreSight ROM table, and " +:+
      "best-effort read vendor device-ID registers (STM32 DBGMCU_IDCODE, SAM DSU DID, nRF FICR) -> structured JSON " +:+
      "{core, revision, vendor_guess, dev_id, flash_kb, ram_kb, evidence}. Target must be halted and attached. Use on " +:+
      "an unknown board before anything else; gdb_generate_profile turns the result into a starter profile.")
    (JObj []) [].
Definition list_gdb_generate_profile : json :=
  tool_entry "gdb_generate_profile"
    ("Run gdb_identify_target and emit a starter *.gdb-profile.json for the detected silicon: arch, the architectural " +:+
      "register set, and — keyed off the core — the SCB fault registers (present on M3/M4/M7/M33, empty on " +:+
      "M0/M0+/M23). peripheral_map is seeded with the fixed-address Cortex-M system/debug blocks " +:+
      "(SCB/NVIC/SysTick/DWT/...) plus the vendor debug block; add application peripherals from the datasheet. " +:+
      "Optionally writes the file so the next session can load that profile with -p.")
    (JObj []
      |> schema_add_string "path" ("Optional filename to save the profile as, e.g. 'mine.gdb-profile.json'. Must end in .gdb-profile.json and is " +:+
          "always written into the auto-discovery directory ~/.config/smolmux/ — a full path there is accepted, anywhere " +:+
          "else is refused, and an existing file is never replaced unless overwrite is true. Omit to return the JSON " +:+
          "inline only.")
      |> schema_add_boolean "overwrite" "Replace the file if it already exists (default false)."
      |> schema_add_string "rtos" "Optional RTOS name (e.g. 'zephyr', 'freertos') to stamp into the profile — not auto-detected over SWD.") [].
Definition list_gdb_command : json :=
  tool_entry "gdb_command"
    ("Send a raw GDB/MI command to the debugger when no dedicated tool fits (e.g. -break-list, " +:+
      "-data-list-changed-registers). Prefer the dedicated tools. Shell/python commands are refused unless the broker " +:+
      "runs with --gdb-allow-shell.")
    (JObj []
      |> schema_add_string "command" "GDB/MI command (e.g. -break-list).") ["command"].
Definition listed_tools : list json :=
  [list_gdb_launch; list_gdb_breakpoint; list_gdb_delete_breakpoint; list_gdb_continue;
   list_gdb_interrupt; list_gdb_step; list_gdb_backtrace; list_gdb_read_registers;
   list_gdb_read_memory; list_gdb_evaluate; list_gdb_threads; list_gdb_load;
   list_gdb_reset; list_gdb_status; list_gdb_wait_stop; list_gdb_console_output;
   list_gdb_read_fault_registers; list_gdb_read_peripheral; list_gdb_identify_target; list_gdb_generate_profile;
   list_gdb_command].

(** A list that does not agree with the names is not given out. *)
Definition entry_listed (it : json) : bool :=
  match get_item it "name" with Some (JStr nm) => gdb_tool_listed nm | _ => false end.
Definition without_drift (tools : list json) : json :=
  if (length tools =? length sm_gdb_mcp_tool_names)%nat && forallb entry_listed tools then JArr tools else JArr [].
Definition build_gdb_tools_list : json := without_drift listed_tools.

(** ** Resources *)

Definition GDB_PROFILE_RESOURCE_URI : string := "smolmux-gdb://target/profile".
Definition GDB_PROBING_RESOURCE_URI : string := "smolmux-gdb://board-probing".
Definition resource_entry (uri name desc mime : string) : json :=
  JObj [] |> add_string "uri" uri |> add_string "name" name |> add_string "description" desc |> add_string "mimeType" mime.
Definition gdb_resources_list : json :=
  JObj [] |> add_item "resources" (JArr
    [resource_entry GDB_PROFILE_RESOURCE_URI "GDB target profile"
       ("The active target profile: arch, important/fault registers, " +:+
        "peripheral map, and RTOS-awareness commands the tools use.") "application/json";
     resource_entry GDB_PROBING_RESOURCE_URI "Unknown-board probing runbook"
       ("Runbook for identifying and mapping an unknown board over SWD/GDB: " +:+
        "CPUID -> vendor ID -> memory map -> peripherals -> console banner.") "text/markdown"]).

(** ** Prompts *)

Definition PROMPT_PROBE_UNKNOWN_BOARD : string :=
  "You are probing an unknown embedded board over SWD/GDB. Read facts from the silicon — do not guess from a " +:+
  "datasheet you haven't confirmed. Work top-down:" +:+ nl +:+ nl +:+ "1. Confirm the debug session is live:" +:+ nl +:+
  "   - gdb_status(); if the target is running, gdb_interrupt() then gdb_wait_stop(). Most reads below need a " +:+
  "halted core." +:+ nl +:+ "2. Identify the silicon (the fast path):" +:+ nl +:+
  "   - gdb_identify_target() — decodes SCB CPUID (ARM Cortex-M core + rNpM revision), probes the CoreSight ROM " +:+
  "table, and reads well-known vendor ID registers (STM32 DBGMCU_IDCODE, SAM DSU DID, nRF FICR) into structured " +:+
  "JSON with an evidence trail. Start here." +:+ nl +:+
  "   - If vendor_guess is 'unknown', read the part's ID register manually with gdb_read_memory once you know the " +:+
  "family from CPUID + the datasheet. Key addresses: CPUID 0xE000ED00; STM32 DBGMCU_IDCODE 0xE0042000; SAM DSU DID " +:+
  "0x41002018; nRF FICR.INFO.PART 0x10000100." +:+ nl +:+ "   - gdb_command({command:" +:+ dq +:+ "monitor ..." +:+ dq +:+
  "}) surfaces what the gdbserver already scanned (OpenOCD: 'monitor mdw', 'monitor flash banks')." +:+ nl +:+
  "3. Map memory. With small gdb_read_memory() reads, confirm flash (0x00000000 / 0x08000000 / ...) and SRAM " +:+
  "(0x20000000) respond and roughly where each ends. A fault means unmapped — that is itself information." +:+ nl +:+
  "4. Snapshot CPU state: gdb_reset({mode:" +:+ dq +:+ "halt" +:+ dq +:+
  "}), then gdb_read_registers() (name-labeled), gdb_backtrace()." +:+ nl +:+
  "5. Enumerate peripherals: for each peripheral in the target profile, gdb_read_peripheral({name:...}) and " +:+
  "cross-reference the dump against the datasheet register table. gdb_read_fault_registers() decodes Cortex-M " +:+
  "fault state (M3/M4/M7/M33; M0/M0+ have none)." +:+ nl +:+
  "6. Correlate with the console. Over the serial tools (smolmux-mcp), reset the board and read " +:+
  "serial_output_history() for the boot banner; confirm the CPUID-derived core matches the SoC the banner names. " +:+
  "Note every place SWD, UART, and the datasheet disagree; record those discrepancies." +:+ nl +:+
  "7. Persist what you learned. gdb_generate_profile({path:" +:+ dq +:+ "~/.config/smolmux/<board>.gdb-profile.json" +:+
  dq +:+
  "}) writes a starter profile (arch, register set, core-correct fault registers). Load it next session with -p; " +:+
  "then fill in peripheral_map and rtos from the datasheet." +:+ nl +:+ nl +:+
  "Full runbook: docs/board-exploration-workflow.md in the smolmux repo." +:+ nl.
Definition PROMPT_ANALYZE_CRASH : string :=
  "A crash was detected. Correlate serial console output with GDB target state:" +:+ nl +:+ nl +:+
  "1. From the smolmux serial tools (smolmux-mcp), get the crash context:" +:+ nl +:+
  "   - serial_get_incidents() for the crash event and pre-crash output." +:+ nl +:+
  "   - serial_read()/history for the full output timeline." +:+ nl +:+ "2. From the GDB tools, inspect the target:" +:+
  nl +:+ "   - gdb_backtrace() for the call stack." +:+ nl +:+ "   - gdb_read_fault_registers() for fault details." +:+
  nl +:+ "   - gdb_read_registers() for CPU state." +:+ nl +:+ "   - gdb_evaluate() for variable inspection." +:+ nl +:+
  "3. Correlate the two:" +:+ nl +:+ "   - What was the last serial output before the crash?" +:+ nl +:+
  "   - Does the backtrace match the expected code path?" +:+ nl +:+ "   - Is an interrupt handler in the call stack?" +:+
  nl +:+ "4. Form a hypothesis and verify with gdb_read_memory()." +:+ nl +:+
  "5. Propose a fix with a root-cause explanation." +:+ nl.
Definition prompt_diagnose_fault (symptom : string) : string :=
  "The embedded target has experienced: " +:+ symptom +:+
  nl +:+ nl +:+ "Work through these steps using the gdb_* tools:" +:+ nl +:+
  "1. gdb_status() — confirm GDB is connected and the target is halted." +:+ nl +:+
  "2. gdb_backtrace() — capture the call stack at the fault." +:+ nl +:+
  "3. gdb_read_fault_registers() — read CFSR/HFSR/MMFAR/BFAR and decode" +:+ nl +:+
  "   the bits to classify the fault (usage/bus/mem-manage/hard)." +:+ nl +:+
  "4. gdb_read_registers() — inspect CPU register state (pc, sp, lr, ...)." +:+ nl +:+
  "5. gdb_evaluate() — inspect variables from the faulting frame." +:+ nl +:+
  "6. gdb_read_memory() — examine stack contents around SP." +:+ nl +:+
  "7. Cross-reference the backtrace with the source to find root cause." +:+ nl +:+
  "Note: on Cortex-M0/M0+ there are no configurable fault registers; the" +:+ nl +:+
  "profile's fault_registers will be empty and step 3 reports none." +:+ nl.

Definition prompt_entry (name desc : string) (args : list json) : json :=
  JObj [] |> add_string "name" name |> add_string "description" desc |> add_item "arguments" (JArr args).
Definition gdb_prompts_list : json :=
  JObj [] |> add_item "prompts" (JArr
    [prompt_entry "diagnose_fault" "Step-by-step guide to diagnose a target fault with the GDB tools."
       [JObj [] |> add_string "name" "symptom"
          |> add_string "description" "What went wrong (e.g. 'hard fault', 'hang', 'stack overflow')."
          |> add_bool "required" false];
     prompt_entry "analyze_crash" "Guide to correlate serial console output with GDB target state after a crash." [];
     prompt_entry "probe_unknown_board"
       ("Runbook to identify and map an unknown board over SWD/GDB " +:+
        "(CPUID -> vendor ID -> memory map -> peripherals -> console banner).") []]).

(** Text and description. *)
Definition gdb_prompt (name : string) (args : option json) : option (string * string) :=
  if streq name "diagnose_fault" then
    let symptom := match args ≫= fun a => sm_json_get_string a "symptom" with
                   | Some s => if streq s "" then "hard fault" else s | None => "hard fault" end in
    Some (prompt_diagnose_fault symptom, "Diagnose a target fault with GDB")
  else if streq name "analyze_crash" then
    Some (PROMPT_ANALYZE_CRASH, "Correlate serial output with GDB state after a crash")
  else if streq name "probe_unknown_board" then
    Some (PROMPT_PROBE_UNKNOWN_BOARD, "Identify and map an unknown board over SWD/GDB")
  else None.

(** * The GDB MCP server: requests and the program ([src/gdb_mcp.c])

    The tool dispatcher, the JSON-RPC methods, standard input, the start of the
    program and its main loop, over the tools of [GdbMcp].  [main]'s options
    are taken as [getopt_long] gives them. *)

#[local] Open Scope string_scope.
#[local] Open Scope list_scope.
#[local] Open Scope Z_scope.
#[local] Open Scope json_scope.

Section server.
Context {J : JsonText} {N : GdbMcpEnv}.

Definition run_gdb_tool (name : string) (args : json) : G string :=
  if streq name "gdb_launch" then tool_launch args
  else if streq name "gdb_breakpoint" then tool_breakpoint args
  else if streq name "gdb_delete_breakpoint" then tool_delete_breakpoint args
  else if streq name "gdb_continue" then tool_continue
  else if streq name "gdb_interrupt" then tool_interrupt
  else if streq name "gdb_step" then tool_step args
  else if streq name "gdb_backtrace" then tool_backtrace
  else if streq name "gdb_read_registers" then tool_read_registers args
  else if streq name "gdb_read_memory" then tool_read_memory args
  else if streq name "gdb_evaluate" then tool_evaluate args
  else if streq name "gdb_threads" then tool_threads
  else if streq name "gdb_load" then tool_load
  else if streq name "gdb_reset" then tool_reset args
  else if streq name "gdb_status" then tool_status
  else if streq name "gdb_wait_stop" then tool_wait_stop args
  else if streq name "gdb_console_output" then tool_console_output
  else if streq name "gdb_read_fault_registers" then tool_read_fault_registers
  else if streq name "gdb_read_peripheral" then tool_read_peripheral args
  else if streq name "gdb_identify_target" then tool_identify_target
  else if streq name "gdb_generate_profile" then tool_generate_profile args
  else if streq name "gdb_command" then tool_command args
  else mret (fmtdup ("[ERROR] unknown tool: " +:+ name)).
Definition gdb_dispatch_tool (name : string) (args : json) : G string :=
  if negb (gdb_tool_listed name) then mret (fmtdup ("[ERROR] unknown tool: " +:+ name)) else run_gdb_tool name args.

(** ** JSON-RPC *)

Definition gdb_write (msg : json) : G unit := smod (fun g => {| g with g_stdout := g_stdout g ++ [msg] |}).
Definition gdb_send_result (id : option json) (result : json) : G unit := gdb_write (rpc_message id "result" result).
Definition gdb_send_error (id : option json) (code : Z) (message : string) : G unit :=
  gdb_write (rpc_message id "error" (JObj [] |> add_int "code" code |> add_string "message" message)).
Definition text_item (text : string) : json := JObj [] |> add_string "type" "text" |> add_string "text" text.
Definition gdb_send_tool_result (id : option json) (text : string) : G unit :=
  gdb_send_result id (JObj [] |> add_item "content" (JArr [text_item text])).

Definition gdb_resources_read (id : option json) (params : json) : G unit :=
  let give u mime text := gdb_send_result id (JObj [] |> add_item "contents" (JArr
    [JObj [] |> add_string "uri" u |> add_string "mimeType" mime |> add_string "text" text])) in
  match get_item params "uri" with
  | Some (JStr u) =>
      if streq u GDB_PROFILE_RESOURCE_URI
      then give u "application/json" (gm_print (sm_gdb_profile_to_json gm_profile))
      else if streq u GDB_PROBING_RESOURCE_URI then give u "text/markdown" PROMPT_PROBE_UNKNOWN_BOARD
      else gdb_send_error id (-32602) "unknown resource uri"
  | _ => gdb_send_error id (-32602) "missing resource uri"
  end.

Definition gdb_prompts_get (id : option json) (params : json) : G unit :=
  match get_item params "name" with
  | Some (JStr name) =>
      match gdb_prompt name (get_item params "arguments") with
      | Some (text, desc) =>
          gdb_send_result id (JObj [] |> add_string "description" desc
            |> add_item "messages" (JArr [JObj [] |> add_string "role" "user" |> add_item "content" (text_item text)]))
      | None => gdb_send_error id (-32602) "unknown prompt"
      end
  | _ => gdb_send_error id (-32602) "missing prompt name"
  end.

Definition gdb_initialize (id : option json) : G unit :=
  gdb_send_result id (JObj [] |> add_string "protocolVersion" SM_MCP_PROTOCOL_VERSION
    |> add_item "capabilities" (JObj [] |> add_item "tools" (JObj []) |> add_item "resources" (JObj [])
         |> add_item "prompts" (JObj []))
    |> add_item "serverInfo" (JObj [] |> add_string "name" (SM_NAME +:+ "-gdb-mcp") |> add_string "version" SM_VERSION)) ;;
  smod (fun g => {| g with g_initialized := true |}).

Definition gdb_tools_call (id : option json) (params : json) : G unit :=
  match get_item params "name" with
  | Some (JStr name) =>
      text ← gdb_dispatch_tool name (default (JObj []) (get_item params "arguments"));
      gdb_send_tool_result id text
  | _ => gdb_send_error id (-32602) "missing tool name"
  end.

Definition gdb_dispatch_message (msg : json) : G unit :=
  let id := get_item msg "id" in
  let params := default (JObj []) (get_item msg "params") in
  let if_id (m : G unit) : G unit := match id with Some _ => m | None => mret tt end in
  match get_item msg "method" with
  | Some (JStr m) =>
      if streq m "initialize" then gdb_initialize id
      else if streq m "notifications/initialized" then mret tt
      else if streq m "tools/list" then gdb_send_result id (JObj [] |> add_item "tools" build_gdb_tools_list)
      else if streq m "tools/call" then gdb_tools_call id params
      else if streq m "resources/list" then gdb_send_result id gdb_resources_list
      else if streq m "resources/read" then gdb_resources_read id params
      else if streq m "prompts/list" then gdb_send_result id gdb_prompts_list
      else if streq m "prompts/get" then gdb_prompts_get id params
      else if_id (gdb_send_error id (-32601) "method not found")
  | _ => if_id (gdb_send_error id (-32600) "invalid request: missing method")
  end.

(** ** Standard input *)

Fixpoint gdb_stdin_lines (fuel : nat) : G unit :=
  match fuel with
  | O => mret tt
  | S f =>
      buf ← sget g_stdin;
      match split_at_char 10 buf with
      | None => mret tt
      | Some (line, rest) =>
          match cJSON_Parse (c_text line) with
          | Some msg => gdb_dispatch_message msg
          | None => gdb_send_error None (-32700) "parse error"
          end ;;
          smod (fun g => {| g with g_stdin := rest |}) ;;
          gdb_stdin_lines f
      end
  end.

Definition gdb_stop_running : G unit :=
  smod (fun g => {| g with g_conn := {| (g_conn g) with bc_running := false |} |}).

Definition gdb_handle_stdin (r : rres) : G unit :=
  len ← sget (fun g => zlen (g_stdin g));
  cap ← sget g_stdin_cap;
  let full := cap - 1 <=? len in
  if full && (SM_MCP_READ_BUF_MAX <=? cap) then smod (fun g => {| g with g_stdin := [] |}) else
  ok ← (if full then gask gm_realloc else mret true);
  if negb (ok : bool) then mret tt else
  let cap := if full then Z.min (cap * 2) SM_MCP_READ_BUF_MAX else cap in
  smod (fun g => {| g with g_stdin_cap := cap |}) ;;
  match sys_read (cap - len - 1) r with
  | RBytes b =>
      smod (fun g => {| g with g_stdin := g_stdin g ++ b |}) ;;
      buf ← sget g_stdin;
      gdb_stdin_lines (length buf)
  | REof => gdb_stop_running
  | _ => mret tt
  end.

(** ** The program *)

Definition gdb_conn_op (f : sm_broker_conn -> option json * list delivery * sm_broker_conn) : G (option json) := fun g =>
  let '(r, ds, c) := f (g_conn g) in (gdb_on_deliveries ds {| g with g_conn := c |}, r).

(** A turn of the loop; whether it goes on. *)
Definition gdb_turn (p : main_poll) : G bool :=
  (if mp_broker_in p
   then gdb_conn_op (sm_broker_conn_read None (mp_broker_realloc p) (mp_broker_read p)) ;; mret tt else mret tt) ;;
  if mp_broker_hup p then mret false else
  (if mp_stdin_in p then gdb_handle_stdin (mp_stdin_read p)
   else if mp_stdin_hup p then gdb_stop_running else mret tt) ;;
  mret true.
Fixpoint gdb_loop (es : list main_event) : G unit :=
  match es with
  | [] => mret tt
  | e :: es' =>
      running ← sget (fun g => bc_running (g_conn g));
      if negb (running : bool) then mret tt else
      match e with
      | MainInterrupted => gdb_loop es'
      | MainFailed => mret tt
      | MainPoll p => go ← gdb_turn p; if (go : bool) then gdb_loop es' else mret tt
      end
  end.

(** The hello must be answered with a welcome; otherwise the program ends. *)
Definition gdb_handshake : G bool :=
  gdb_send (sm_msg_hello gm_token (Some gm_name) (Some "controller")) ;;
  now ← gask gm_clock;
  steps ← gask gm_steps;
  reply ← gdb_conn_op (sm_broker_conn_wait None 5000 now steps);
  mret match reply with
       | Some r => match sm_json_get_string r "type" with Some t => streq t "welcome" | None => false end
       | None => false
       end.
(** The exit status. *)
Definition gdb_main (es : list main_event) : G Z :=
  ok ← gdb_handshake;
  if negb (ok : bool) then mret 1 else gdb_loop es ;; mret 0.
End server.

(** What [main] sets up once the socket is connected. *)
Definition gdb_server_start (fd : Z) : gdb_ctx :=
  mk_gctx (mk_conn fd true [] 8192 0 true false) [] 1 0 false None "" false false
    (mk_stop "" "" "" "" "" "") [] [] 8192 false [] [] [] false 0.

Section start.
Context {J : JsonText} {H : HostEnv}.

Definition load_named (spec : string) : option sm_gdb_profile :=
  match sm_profile_resolve_path spec SM_GDB_PROFILE_FILE_SUFFIX 512 with
  | None => None
  | Some path => let '(rc, p) := sm_gdb_profile_load (he_file path) sm_gdb_profile_init_default in
                 if rc =? 0 then Some p else None
  end.
(** Without a name, the defaults. *)
Definition discover_profile (profile_path : option string) : option sm_gdb_profile :=
  match nonempty_s profile_path with
  | Some spec => load_named spec
  | None => match nonempty_s (he_env "SMOLMUX_GDB_PROFILE") with
            | Some spec => load_named spec
            | None => Some sm_gdb_profile_init_default
            end
  end.

Definition SM_TCP_DEFAULT_PORT : Z := 5555.
Inductive endpoint := EndTcp (host : string) (port : Z) | EndUnix (path : string).
Definition is_option (s : string) : bool := String.prefix "-" s.
(** The socket from the option, the argument or the search. *)
Definition gdb_socket (socket : option string) (args : list string) : option string :=
  let '(bad, socket, args) :=
    match socket, args with
    | None, a :: args' => if is_option a then (true, None, args) else (false, Some a, args')
    | _, _ => (false, socket, args)
    end in
  if bad || match args with a :: _ => is_option a | [] => false end then None else
  match socket with
  | None =>
      if sm_autodiscover_should_refuse (match nonempty_s (he_env "SMOLMUX_SOCKET") with Some _ => true | None => false end)
      then None else sm_discover_socket 108
  | Some s => fst <$> sm_resolve_client_socket SM_SOCK_PATH_MAX s
  end.

(** Where to connect and whether that worked; the token may be loaded. *)
Definition gdb_connect (tcp socket : option string) (args : list string) (te : token_env) : option endpoint * token_env :=
  match tcp with
  | Some spec =>
      let '(host, port) := sm_parse_host_port spec 240 SM_TCP_DEFAULT_PORT in
      let te := snd (sm_auth_token_autoload host port te) in
      (if sm_connect_tcp host port then Some (EndTcp host port) else None, te)
  | None =>
      (match gdb_socket socket args with
       | Some path => if sm_connect_unix path then Some (EndUnix path) else None
       | None => None
       end, te)
  end.
End start.
