(* ===== verification/Monitor.v ===== *)
(** * The interactive monitor ([src/monitor.c], [src/monitor_esc.h], [src/monitor_crlf.h])

    A terminal in front of the broker: device output goes to standard output,
    events to standard error, and what is typed goes to the device except for
    the commands behind the prefix key.  Writes to the terminal and to the
    socket are recorded in the order they are made; the program does not look
    at their results.  [getopt_long], the termios calls and the list of brokers
    are not modelled. *)
From stdpp Require Import pretty.
From S2P Require Import Prelude Cstr Codecs Json Protocol McpText Effects Client McpConn HostPaths.
From S2P Require Import GdbServer.

#[local] Open Scope string_scope.
#[local] Open Scope list_scope.
#[local] Open Scope Z_scope.

(** ** Keys and line ends *)

Inductive mon_esc :=
  | SM_MON_ESC_FORWARD | SM_MON_ESC_QUIT | SM_MON_ESC_HELP | SM_MON_ESC_STATUS | SM_MON_ESC_RESTART_C
  | SM_MON_ESC_TAKEOVER | SM_MON_ESC_RELEASE | SM_MON_ESC_BREAK | SM_MON_ESC_SUSPEND | SM_MON_ESC_RESUME.
#[export] Instance mon_esc_eq_dec : EqDecision mon_esc.
Proof. solve_decision. Defined.
Definition sm_mon_esc_kind (ch : Z) : mon_esc :=
  if ch =? chr "q" then SM_MON_ESC_QUIT
  else if (ch =? chr "h") || (ch =? chr "?") then SM_MON_ESC_HELP
  else if ch =? chr "s" then SM_MON_ESC_STATUS
  else if ch =? chr "c" then SM_MON_ESC_RESTART_C
  else if ch =? chr "t" then SM_MON_ESC_TAKEOVER
  else if ch =? chr "r" then SM_MON_ESC_RELEASE
  else if ch =? chr "b" then SM_MON_ESC_BREAK
  else if ch =? chr "z" then SM_MON_ESC_SUSPEND
  else if ch =? chr "Z" then SM_MON_ESC_RESUME
  else SM_MON_ESC_FORWARD.

Inductive mon_wire :=
  | SM_MON_WIRE_NONE | SM_MON_WIRE_STATUS | SM_MON_WIRE_TAKEOVER | SM_MON_WIRE_RELEASE | SM_MON_WIRE_BREAK
  | SM_MON_WIRE_SUSPEND | SM_MON_WIRE_RESUME.
Definition sm_mon_esc_wire (kind : mon_esc) : mon_wire :=
  match kind with
  | SM_MON_ESC_STATUS => SM_MON_WIRE_STATUS
  | SM_MON_ESC_TAKEOVER => SM_MON_WIRE_TAKEOVER
  | SM_MON_ESC_RELEASE => SM_MON_WIRE_RELEASE
  | SM_MON_ESC_BREAK => SM_MON_WIRE_BREAK
  | SM_MON_ESC_SUSPEND => SM_MON_WIRE_SUSPEND
  | SM_MON_ESC_RESUME => SM_MON_WIRE_RESUME
  | _ => SM_MON_WIRE_NONE
  end.

(** The bytes to show and whether the last one was a CR. *)
Fixpoint sm_mon_map_lf (prev_cr : bool) (l : bytes) : bytes * bool :=
  match l with
  | [] => ([], prev_cr)
  | c :: l' =>
      let '(out, cr) := sm_mon_map_lf (c =? 13) l' in
      ((if (c =? 10) && negb prev_cr then [13; c] else [c]) ++ out, cr)
  end.

(** ** State *)

Definition MON_READ_BUF_INIT : Z := 8192.
Definition MON_READ_BUF_MAX : Z := 4194304.
Definition MON_EVENT_HOLD_S : double := 200000000.
Definition MON_WELCOME_TIMEOUT_S : double := 5 * one_s.
Definition SM_MONITOR_ESCAPE_CHAR : Z := 29.

(** [mo_screen]: what was written, and whether to standard output;
    [mo_undefined]: a number overflowed. *)
Record mon_ctx := mk_mon {
  mo_running : bool; mo_escape_mode : bool; mo_escape_char : Z; mo_role : string; mo_name : string;
  mo_map_lf : bool; mo_prev_cr : bool; mo_at_bol : bool; mo_pending : bytes; mo_pending_since : double;
  mo_read : bytes; mo_read_cap : Z; mo_welcomed : bool;
  mo_sent : list json; mo_screen : list (bool * bytes); mo_undefined : bool; mo_tick : nat }.

Class MonEnv := {
  me_token : option string; me_clock : nat -> double; me_malloc : nat -> bool; me_realloc : nat -> bool }.

Abbreviation Mo := (ST mon_ctx).
Definition mo_ask {A} (f : nat -> A) : Mo A := fun s => ({| s with mo_tick := S (mo_tick s) |}, f (mo_tick s)).
Definition mo_put (out : bool) (b : bytes) : Mo unit := smod (fun s => {| s with mo_screen := mo_screen s ++ [(out, b)] |}).
Definition mo_err (t : string) : Mo unit := mo_put false (bytes_of_string t).
Definition mo_stop : Mo unit := smod (fun s => {| s with mo_running := false |}).
Definition mo_send (msg : json) : Mo unit := smod (fun s => {| s with mo_sent := mo_sent s ++ [msg] |}).

Definition crlf : string := string_of_bytes [13; 10].
Definition color (n : string) : string := string_of_bytes [27] +:+ "[" +:+ n +:+ "m".

Section monitor.
Context {J : JsonText} {N : MonEnv}.

(** ** Event lines *)

Definition flush_events : Mo unit :=
  s ← sget id;
  if zlen (mo_pending s) =? 0 then mret tt else
  (if mo_at_bol s then mret tt else mo_err crlf) ;;
  mo_put false (mo_pending s) ;;
  smod (fun s => {| s with mo_pending := []; mo_at_bol := true |}).

Definition PENDING_MAX : Z := 4096.
Definition event_line (text : string) : Mo unit :=
  let line := ztake 1021 (bytes_of_string text) ++ [13; 10] in
  s ← sget id;
  if mo_at_bol s && (zlen (mo_pending s) =? 0) then mo_put false line else
  (if PENDING_MAX <? zlen (mo_pending s) + zlen line then flush_events else mret tt) ;;
  empty ← sget (fun s => zlen (mo_pending s) =? 0);
  (if (empty : bool) then now ← mo_ask me_clock; smod (fun s => {| s with mo_pending_since := now |}) else mret tt) ;;
  smod (fun s => {| s with mo_pending := mo_pending s ++ line |}) ;;
  bol ← sget mo_at_bol;
  if (bol : bool) then flush_events else mret tt.

Definition put_device (b : bytes) : Mo unit :=
  mo_put true b ;; smod (fun s => {| s with mo_at_bol := match last b with Some c => c =? 10 | None => mo_at_bol s end |}).
Definition write_device (b : bytes) : Mo unit :=
  if zlen b =? 0 then mret tt else
  held ← sget (fun s => negb (zlen (mo_pending s) =? 0));
  match (if held : bool then split_at_char 10 b else None) with
  | Some (head, rest) =>
      mo_put true (head ++ [10]) ;;
      smod (fun s => {| s with mo_at_bol := true |}) ;;
      flush_events ;;
      if zlen rest =? 0 then mret tt else put_device rest
  | None => put_device b
  end.

(** ** Messages of the broker *)

Definition handle_output (root : json) : Mo unit :=
  match sm_json_get_string root "data" ≫= fun b => sm_base64_decode (bytes_of_string b) with
  | None => mret tt
  | Some data =>
      if zlen data =? 0 then mret tt else
      map ← sget mo_map_lf;
      ok ← (if map : bool then mo_ask me_malloc else mret false);
      if (ok : bool) then
        cr ← sget mo_prev_cr;
        let '(out, cr) := sm_mon_map_lf cr data in
        smod (fun s => {| s with mo_prev_cr := cr |}) ;; write_device out
      else write_device data
  end.

Definition handle_input_echo (root : json) : Mo unit :=
  match sm_json_get_string root "data" ≫= fun b => sm_base64_decode (bytes_of_string b) with
  | None => mret tt
  | Some data =>
      mo_err (color "36" +:+ "[" +:+ default "?" (sm_json_get_string root "sender") +:+ "] ") ;;
      mo_put false data ;; mo_err (color "0" +:+ crlf)
  end.

Definition yes_no (b : bool) : string := if b then "yes" else "no".
Definition mon_handle_status (root : json) : Mo unit :=
  mo_err (crlf +:+ "--- Status ---" +:+ crlf) ;;
  mo_err ("  Port:      " +:+ default "?" (sm_json_get_string root "port") +:+ crlf) ;;
  mo_err ("  Baud:      " +:+ pretty (sm_json_get_int root "baud" 0) +:+ crlf) ;;
  mo_err ("  Connected: " +:+ yes_no (sm_json_get_bool root "connected" false) +:+ crlf) ;;
  mo_err ("  Suspended: " +:+ yes_no (sm_json_get_bool root "suspended" false) +:+ crlf) ;;
  mo_err ("--------------" +:+ crlf).

Definition mon_handle_error (root : json) : Mo unit :=
  mo_err (crlf +:+ color "31" +:+ "[error] " +:+ default "unknown error" (sm_json_get_string root "message") +:+
          color "0" +:+ crlf).
Definition handle_suspended (root : json) : Mo unit :=
  event_line (color "33" +:+ "[suspended] " +:+ default "serial" (sm_json_get_string root "port") +:+ color "0").
Definition handle_resumed (root : json) : Mo unit :=
  event_line (color "32" +:+ "[resumed] " +:+ default "serial" (sm_json_get_string root "port") +:+ color "0").

Definition first_line (s : string) : string :=
  string_of_bytes (take_while (fun c => negb ((c =? 13) || (c =? 10))) (bytes_of_string s)).
Definition handle_anomaly (root : json) : Mo unit :=
  let severity := sm_json_get_string root "severity" in
  let c := match severity with
           | Some s => if streq s "critical" then "31" else if streq s "warning" then "33" else "36"
           | None => "36"
           end in
  event_line (color c +:+ "[anomaly:" +:+ default "?" severity +:+ "] " +:+
              default "?" (sm_json_get_string root "pattern_name") +:+ ": " +:+
              first_line (default "" (sm_json_get_string root "match_text")) +:+ color "0").

(** [index + 1] in an [int]. *)
Definition next_int (i : Z) : Mo Z :=
  swhen (i =? INT_MAX) (smod (fun s => {| s with mo_undefined := true |})) ;; mret (i + 1).
Definition handle_boot_stage (root : json) : Mo unit :=
  i ← next_int (sm_json_get_int root "index" (-1));
  event_line (color "32" +:+ "[boot] reached " +:+ default "?" (sm_json_get_string root "name") +:+ " (" +:+
              pretty i +:+ "/" +:+ pretty (sm_json_get_int root "total" 0) +:+ ")" +:+ color "0").
Definition handle_boot_stall (root : json) : Mo unit :=
  i ← next_int (sm_json_get_int root "index" (-1));
  event_line (color "31" +:+ "[boot STALLED] at " +:+ default "?" (sm_json_get_string root "name") +:+ " (" +:+
              pretty i +:+ "/" +:+ pretty (sm_json_get_int root "total" 0) +:+ ") after " +:+
              pretty (sm_json_get_int root "stalled_ms" 0) +:+ "ms" +:+ color "0").
Definition handle_autoresponder_fired (root : json) : Mo unit :=
  event_line (color "36" +:+ "[autorespond] " +:+ default "?" (sm_json_get_string root "name") +:+ " fired (" +:+
              pretty (sm_json_get_int root "sent" 0) +:+ " bytes)" +:+ color "0").

Definition mon_dispatch (m : sm_msg) : Mo unit :=
  match m_root m with
  | None => mret tt
  | Some root =>
      match m_type m with
      | SM_MSG_OUTPUT => handle_output root
      | SM_MSG_INPUT_ECHO => handle_input_echo root
      | SM_MSG_STATUS_RESPONSE => mon_handle_status root
      | SM_MSG_ERROR => mon_handle_error root
      | SM_MSG_SUSPENDED => handle_suspended root
      | SM_MSG_RESUMED => handle_resumed root
      | SM_MSG_ANOMALY => handle_anomaly root
      | SM_MSG_BOOT_STAGE => handle_boot_stage root
      | SM_MSG_BOOT_STALL => handle_boot_stall root
      | SM_MSG_AUTORESPONDER_FIRED => handle_autoresponder_fired root
      | SM_MSG_WELCOME =>
          smod (fun s => {| s with mo_role := match sm_json_get_string root "your_role" with
                                              | Some r => snprintf_s 16 r | None => mo_role s end;
                              mo_welcomed := true |})
      | _ => mret tt
      end
  end.

Fixpoint mon_lines (fuel : nat) (buf : bytes) : Mo bytes :=
  match fuel, split_line buf with
  | S f, Some (line, rest) => mon_dispatch (sm_msg_decode line) ;; mon_lines f rest
  | _, _ => mret buf
  end.

(** Room for a byte and the terminator, or the end of the program. *)
Definition mon_grow : Mo bool :=
  s ← sget id;
  let cap := mo_read_cap s in
  if zlen (mo_read s) + 1 <? cap then mret true else
  let new := if cap =? 0 then MON_READ_BUF_INIT else cap * 2 in
  if (MON_READ_BUF_MAX <? new) && (MON_READ_BUF_MAX <=? cap) then
    mo_err ("smolmux-monitor: response line exceeds " +:+ pretty MON_READ_BUF_MAX +:+ " bytes" +:+ nl) ;;
    mo_stop ;; mret false
  else
    ok ← mo_ask me_realloc;
    if (ok : bool) then smod (fun s => {| s with mo_read_cap := Z.min new MON_READ_BUF_MAX |}) ;; mret true
    else mo_stop ;; mret false.

Definition handle_broker_data (r : rres) : Mo unit :=
  ok ← mon_grow;
  if negb (ok : bool) then mret tt else
  s ← sget id;
  match sys_read (mo_read_cap s - zlen (mo_read s) - 1) r with
  | RBytes b =>
      rest ← mon_lines (length (mo_read s ++ b)) (mo_read s ++ b);
      smod (fun s => {| s with mo_read := rest |})
  | _ => mo_stop
  end.

(** ** The keyboard *)

Definition show_help : Mo unit :=
  key ← sget (fun s => sm_format_escape_key (mo_escape_char s) 16);
  mo_err (crlf +:+ "--- Escape commands (" +:+ key +:+ " then key) ---" +:+ crlf +:+ "  q    quit" +:+ crlf) ;;
  mo_err ("  h/?  this help" +:+ crlf +:+ "  s    status" +:+ crlf +:+ "  t    takeover (exclusive send)" +:+ crlf +:+
          "  r    release takeover" +:+ crlf +:+ "  b    send break" +:+ crlf +:+
          "  z    suspend (release port for external tools)" +:+ crlf +:+ "  Z    resume (re-acquire port)" +:+ crlf +:+
          "--------------------------------------------" +:+ crlf).
Definition observer_restart_hint : Mo unit := mo_err (crlf +:+ "[keystrokes not sent; restart with -c]" +:+ crlf).

Definition is_controller (s : mon_ctx) : bool := streq (mo_role s) "controller".
Definition wire_message (w : mon_wire) : option (json * string) :=
  match w with
  | SM_MON_WIRE_STATUS => Some (sm_msg_status (Some "mon-status"), "")
  | SM_MON_WIRE_TAKEOVER => Some (sm_msg_takeover (Some "mon-takeover"), "requesting takeover")
  | SM_MON_WIRE_RELEASE => Some (sm_msg_release (Some "mon-release"), "releasing takeover")
  | SM_MON_WIRE_BREAK => Some (sm_msg_pin_control (Some "mon-brk") "break" "pulse" 250, "sending break")
  | SM_MON_WIRE_SUSPEND => Some (sm_msg_suspend (Some "mon-suspend"), "requesting suspend — releasing port")
  | SM_MON_WIRE_RESUME => Some (sm_msg_resume (Some "mon-resume"), "requesting resume — re-acquiring port")
  | SM_MON_WIRE_NONE => None
  end.

Definition handle_escape (ch : Z) : Mo unit :=
  esc ← sget mo_escape_char;
  if ch =? esc then mo_stop else
  let kind := sm_mon_esc_kind ch in
  match kind with
  | SM_MON_ESC_QUIT => mo_stop
  | SM_MON_ESC_HELP => show_help
  | SM_MON_ESC_RESTART_C => observer_restart_hint
  | _ => mret tt
  end ;;
  match wire_message (sm_mon_esc_wire kind) with
  | Some (msg, note) =>
      mo_send msg ;; if streq note "" then mret tt else mo_err (crlf +:+ "[" +:+ note +:+ "]" +:+ crlf)
  | None =>
      if bool_decide (kind = SM_MON_ESC_FORWARD) then
        ctl ← sget is_controller;
        if (ctl : bool) then mo_send (sm_msg_send (Some "mon") [esc; ch]) else observer_restart_hint
      else mret tt
  end.

(** The bytes of a read; [out] is what is to be forwarded. *)
Fixpoint stdin_keys (ctl : bool) (out : bytes) (l : bytes) : Mo bytes :=
  match l with
  | [] => mret out
  | ch :: l' =>
      s ← sget id;
      if mo_escape_mode s then
        handle_escape ch ;; smod (fun s => {| s with mo_escape_mode := false |}) ;; stdin_keys ctl out l'
      else if ch =? mo_escape_char s then
        let flush := negb (zlen out =? 0) && ctl in
        (if flush then mo_send (sm_msg_send (Some "mon") out) else mret tt) ;;
        smod (fun s => {| s with mo_escape_mode := true |}) ;;
        stdin_keys ctl (if flush then [] else out) l'
      else stdin_keys ctl (out ++ [ch]) l'
  end.
Definition mon_handle_stdin (r : rres) : Mo unit :=
  match sys_read 256 r with
  | RBytes b =>
      ctl ← sget is_controller;
      out ← stdin_keys ctl [] b;
      if zlen out =? 0 then mret tt
      else if (ctl : bool) then mo_send (sm_msg_send (Some "mon") out) else observer_restart_hint
  | _ => mo_stop
  end.

(** ** The program *)

(** A round of waiting for the welcome: interrupted, nothing within the time
    or an error, or something to read. *)
Inductive welcome_wait := WaitIntr | WaitNone | WaitData (r : rres).
Fixpoint await_welcome (deadline : double) (ws : list welcome_wait) : Mo unit :=
  match ws with
  | [] => mret tt
  | w :: ws' =>
      go ← sget (fun s => mo_running s && negb (mo_welcomed s));
      if negb (go : bool) then mret tt else
      now ← mo_ask me_clock;
      if deadline - now <=? 0 then mret tt else
      match w with
      | WaitIntr => await_welcome deadline ws'
      | WaitNone => mret tt
      | WaitData r => handle_broker_data r ;; await_welcome deadline ws'
      end
  end.

Definition hold_over : Mo unit :=
  held ← sget (fun s => negb (zlen (mo_pending s) =? 0));
  if negb (held : bool) then mret tt else
  now ← mo_ask me_clock;
  over ← sget (fun s => MON_EVENT_HOLD_S <=? now - mo_pending_since s);
  if (over : bool) then flush_events else mret tt.
(** A turn of the loop; whether it goes on. *)
Definition mon_turn (p : main_poll) : Mo bool :=
  (if mp_broker_in p then handle_broker_data (mp_broker_read p) else mret tt) ;;
  hold_over ;;
  if mp_broker_hup p then
    flush_events ;; mo_err (crlf +:+ "[broker disconnected]" +:+ crlf) ;; mret false
  else
    (if mp_stdin_in p then mon_handle_stdin (mp_stdin_read p) else mret tt) ;; mret true.
Fixpoint mon_loop (es : list main_event) : Mo unit :=
  match es with
  | [] => mret tt
  | e :: es' =>
      running ← sget mo_running;
      if negb (running : bool) then mret tt else
      match e with
      | MainInterrupted => mon_loop es'
      | MainFailed => mret tt
      | MainPoll p => go ← mon_turn p; if (go : bool) then mon_loop es' else mret tt
      end
  end.

(** From the connected socket on: [desc] is what it is connected to, [map_lf]
    that both ends are terminals in raw mode and [--raw] was not given. *)
Definition mon_session (desc : string) (map_lf : bool) (ws : list welcome_wait) (es : list main_event) : Mo Z :=
  s ← sget id;
  mo_send (sm_msg_hello me_token (Some (mo_name s)) (Some (mo_role s))) ;;
  start ← mo_ask me_clock;
  await_welcome (start + MON_WELCOME_TIMEOUT_S) ws ;;
  s ← sget id;
  if negb (mo_welcomed s) then
    mo_err (if mo_running s then "Error: no welcome from " +:+ desc +:+ " within 5 s" +:+ nl
            else "Error: " +:+ desc +:+ " did not accept the connection" +:+ nl) ;;
    mret 1
  else
    mo_err ("Connected to " +:+ desc +:+ " as " +:+ mo_name s +:+ " (" +:+ mo_role s +:+ ")" +:+ crlf +:+ "Escape: " +:+
            sm_format_escape_key (mo_escape_char s) 16 +:+ " then h for help, q to quit" +:+ crlf) ;;
    smod (fun s => {| s with mo_map_lf := map_lf |}) ;;
    mon_loop es ;;
    flush_events ;;
    mo_err (crlf +:+ "[disconnected]" +:+ crlf) ;;
    mret 0.
End monitor.

(** What [main] sets up from the options. *)
Definition mon_start (controller : bool) (name : option string) (escape : option Z) : mon_ctx :=
  mk_mon true false (default SM_MONITOR_ESCAPE_CHAR escape) (if controller then "controller" else "observer")
    (snprintf_s 64 (default "monitor" name)) false false true [] 0 [] 0 false [] [] false 0.

Section start.
Context {H : HostEnv}.
Inductive mon_pick := PickNone (leftover : nat) | PickMany | PickBad (arg : string) | PickPath (path : string).
(** The socket: given, from the environment, or the only broker there is. *)
Definition mon_socket (socket : option string) (args : list string) : mon_pick :=
  let chosen := match socket, args, nonempty_s (he_env "SMOLMUX_SOCKET") with
                | Some s, _, _ => inl s
                | None, a :: _, _ => inl a
                | None, [], Some e => inl e
                | None, [], None =>
                    match sm_discover_reachable_sockets 64 with
                    | ([], 0%nat) => inr (PickNone (snd (sm_discover_all_sockets 64)))
                    | (p :: _, 1%nat) => inl (snprintf_s 108 p)
                    | _ => inr PickMany
                    end
                end in
  match chosen with
  | inr e => e
  | inl s => match sm_resolve_client_socket SM_SOCK_PATH_MAX s with Some (p, _) => PickPath p | None => PickBad s end
  end.
Definition mon_connect (tcp socket : option string) (args : list string) (te : token_env) : option string * token_env :=
  match tcp with
  | Some spec =>
      let '(host, port) := sm_parse_host_port spec 240 SM_TCP_DEFAULT_PORT in
      let te := snd (sm_auth_token_autoload host port te) in
      (if sm_connect_tcp host port then Some (snprintf_s 256 ("tcp://" +:+ host +:+ ":" +:+ pretty port)) else None, te)
  | None =>
      (match mon_socket socket args with
       | PickPath p => if sm_connect_unix p then Some (snprintf_s 256 p) else None
       | _ => None
       end, te)
  end.
End start.
