(* ===== verification/GdbProps.v ===== *)
(** The GDB MCP server: its properties, and runs of it. *)

(** * What the GDB MCP server does

    The stream of debugger output is read line by line however it is cut; a
    command gets the answer with its own token; every request is answered; the
    files written are profiles in the profile directory. *)
From stdpp Require Import pretty.
From S2P Require Import Prelude Cstr Codecs Json CJson MiParse Protocol Regex Anomaly McpText.
From S2P Require Import Effects Client McpResults McpTools BrokerFrame McpLedger McpProps McpConn McpClient McpClientProps.
From S2P Require Import HostPaths Profiles GdbMcp GdbServer.

#[local] Open Scope string_scope.
#[local] Open Scope list_scope.
#[local] Open Scope Z_scope.
#[local] Open Scope json_scope.

(** ** Lines *)

(** The complete lines and what follows the last newline. *)
Fixpoint nl_lines (l : bytes) : list bytes * bytes :=
  match l with
  | [] => ([], [])
  | c :: l' =>
      let '(ls, r) := nl_lines l' in
      if c =? 10 then ([] :: ls, r) else match ls with [] => ([], c :: r) | a :: ls' => ((c :: a) :: ls', r) end
  end.

Lemma nl_lines_none a : ~ In 10 a -> nl_lines a = ([], a).
Proof.
  induction a as [|c a IH]; intros H; [done|]. cbn [nl_lines]. rewrite IH by (intros ?; apply H; by right).
  destruct (Z.eqb_spec c 10) as [->|]; [|done]. exfalso. apply H. by left.
Qed.
Lemma nl_lines_line a b :
  ~ In 10 a -> nl_lines (a ++ 10 :: b) = (a :: fst (nl_lines b), snd (nl_lines b)).
Proof.
  induction a as [|c a IH]; intros H.
  { cbn [app nl_lines]. by destruct (nl_lines b). }
  cbn [app nl_lines]. rewrite IH by (intros ?; apply H; by right).
  destruct (Z.eqb_spec c 10) as [->|]; [|done]. exfalso. apply H. by left.
Qed.
Lemma nl_lines_rest l : ~ In 10 (snd (nl_lines l)).
Proof.
  induction l as [|c l IH]; [by intros []|]. cbn [nl_lines]. destruct (nl_lines l) as [ls r]. cbn in IH.
  destruct (Z.eqb_spec c 10); [done|]. destruct ls; [|done]. intros [?|?]; [done|by apply IH].
Qed.
Lemma nl_lines_app a b :
  nl_lines (a ++ b) = (fst (nl_lines a) ++ fst (nl_lines (snd (nl_lines a) ++ b)), snd (nl_lines (snd (nl_lines a) ++ b))).
Proof.
  induction a as [|c a IH]; [cbn; by destruct (nl_lines b)|]. cbn [app nl_lines]. rewrite IH.
  destruct (nl_lines a) as [ls r]. cbn [fst snd]. destruct (Z.eqb_spec c 10) as [->|Hc]; [done|].
  destruct ls as [|x ls]; cbn [app fst snd nl_lines]; [|done].
  destruct (nl_lines (r ++ b)) as [ls' r']. rewrite (proj2 (Z.eqb_neq c 10) Hc). by destruct ls'.
Qed.
(** A text without a newline opens the next line. *)
Lemma nl_lines_head a b :
  ~ In 10 a -> exists x, head (fst (nl_lines (a ++ b)) ++ [snd (nl_lines (a ++ b))]) = Some x /\ zlen a <= zlen x.
Proof.
  intros Ha. rewrite nl_lines_app, (nl_lines_none a Ha). cbn [fst snd app].
  destruct (split_at_char 10 b) as [[u v]|] eqn:E.
  - apply split_at_char_Some in E as [-> Hu]. rewrite app_assoc, nl_lines_line by (rewrite in_app_iff; tauto).
    exists (a ++ u). split; [done|]. rewrite zlen_app. pose proof (zlen_nonneg u). lia.
  - apply split_at_char_None in E. rewrite nl_lines_none by (rewrite in_app_iff; tauto).
    exists (a ++ b). split; [done|]. rewrite zlen_app. pose proof (zlen_nonneg b). lia.
Qed.

(** ** The MI stream *)

Definition mi_feed (ls : list bytes) (g : gdb_ctx) : gdb_ctx := fold_left (fun g l => handle_mi_line l g) ls g.
Lemma mi_feed_app a b g : mi_feed (a ++ b) g = mi_feed b (mi_feed a g).
Proof. apply fold_left_app. Qed.

Lemma console_append_buf s b g :
  console_append s {| g with g_mi_buf := b |} = {| (console_append s g) with g_mi_buf := b |}.
Proof. done. Qed.
Lemma handle_mi_record_buf rec b g :
  handle_mi_record rec {| g with g_mi_buf := b |} = {| (handle_mi_record rec g) with g_mi_buf := b |}.
Proof.
  unfold handle_mi_record. cbv zeta. destruct (mi_type rec); try done.
  - cbn. by destruct (_ && _).
  - destruct (streq _ "stopped"); [done|]. by destruct (streq _ "running").
  - destruct (mi_stream_data rec); [apply console_append_buf|done].
  - destruct (mi_stream_data rec); [apply console_append_buf|done].
  - destruct (mi_stream_data rec); [apply console_append_buf|done].
Qed.
Lemma handle_mi_line_buf l b g :
  handle_mi_line l {| g with g_mi_buf := b |} = {| (handle_mi_line l g) with g_mi_buf := b |}.
Proof.
  unfold handle_mi_line. destruct (sm_mi_parse_line l) as [rec| | |]; [|by destruct (0 <? zlen l)|done..].
  destruct (mi_type rec); try apply handle_mi_record_buf. done.
Qed.
Lemma mi_feed_buf ls b g : mi_feed ls {| g with g_mi_buf := b |} = {| (mi_feed ls g) with g_mi_buf := b |}.
Proof.
  revert g. induction ls as [|l ls IH]; intros g; [done|]. unfold mi_feed in *. cbn [fold_left].
  by rewrite handle_mi_line_buf, IH.
Qed.
Lemma gdb_buf_twice a b g : {| {| g with g_mi_buf := a |} with g_mi_buf := b |} = {| g with g_mi_buf := b |}.
Proof. done. Qed.

Lemma mi_lines_spec fuel buf g :
  (length buf <= fuel)%nat -> mi_lines fuel buf g = (mi_feed (fst (nl_lines buf)) g, snd (nl_lines buf)).
Proof.
  revert buf g. induction fuel as [|fuel IH]; intros buf g Hf; [by destruct buf; [|simpl in Hf; lia]|].
  cbn [mi_lines]. destruct (split_at_char 10 buf) as [[line rest]|] eqn:E.
  - apply split_at_char_Some in E as [-> Hl]. rewrite length_app in Hf. simpl in Hf.
    by rewrite IH, nl_lines_line by (done || lia).
  - apply split_at_char_None in E. by rewrite nl_lines_none.
Qed.
Lemma on_broker_output_spec data g :
  let buf := zlast SM_GDB_MCP_MI_BUF_MAX (g_mi_buf g ++ data) in
  gdb_on_broker_output data g = {| (mi_feed (fst (nl_lines buf)) g) with g_mi_buf := snd (nl_lines buf) |}.
Proof. cbv zeta. unfold gdb_on_broker_output. by rewrite mi_lines_spec. Qed.

(** How the debugger's output is cut into messages does not matter.  While
    a chunk and an unfinished line together stay within the 256 KiB buffer, any
    chunks of the stream leave the server as if it had been given the stream's
    lines one by one, with the unfinished line kept for the next chunk. *)
Theorem mi_stream_chunks chunks c g :
  let s := nl_lines (g_mi_buf g ++ mjoin chunks) in
  ~ In 10 (g_mi_buf g) -> Forall (fun d => zlen d <= c) chunks ->
  Forall (fun l => zlen l + c <= SM_GDB_MCP_MI_BUF_MAX) (fst s ++ [snd s]) ->
  fold_left (fun g d => gdb_on_broker_output d g) chunks g = {| (mi_feed (fst s) g) with g_mi_buf := snd s |}.
Proof.
  cbv zeta. revert g. induction chunks as [|d ds IH]; intros g.
  { cbn [mjoin list_join fold_left]. rewrite app_nil_r. destruct (nl_lines (g_mi_buf g)) as [ls rest] eqn:E.
    intros Hn _ _. rewrite (nl_lines_none _ Hn) in E. injection E as <- <-. by destruct g. }
  change (mjoin (d :: ds)) with (d ++ mjoin ds). rewrite app_assoc, nl_lines_app.
  intros Hn [Hd Hds]%Forall_cons Hall. cbn [fold_left]. rewrite on_broker_output_spec.
  assert (zlen (g_mi_buf g ++ d) <= SM_GDB_MCP_MI_BUF_MAX) as Hfit.
  { destruct (nl_lines_head (g_mi_buf g) (d ++ mjoin ds) Hn) as (x & Hx & Hlen).
    rewrite app_assoc, nl_lines_app in Hx. cbn [fst snd] in Hx.
    apply head_Some_elem_of in Hx. rewrite Forall_forall in Hall. specialize (Hall x Hx). cbn in Hall.
    rewrite zlen_app. lia. }
  rewrite zlast_all by done. destruct (nl_lines (g_mi_buf g ++ d)) as [ls1 r1] eqn:E1. cbn [fst snd] in *.
  specialize (IH {| (mi_feed ls1 g) with g_mi_buf := r1 |}). cbn [g_mi_buf] in IH.
  destruct (nl_lines (r1 ++ mjoin ds)) as [ls2 r2]. cbn [fst snd] in *.
  rewrite IH; [by rewrite mi_feed_app, mi_feed_buf, gdb_buf_twice| |done|].
  - pose proof (nl_lines_rest (g_mi_buf g ++ d)) as H. by rewrite E1 in H.
  - rewrite <- app_assoc in Hall. apply Forall_app in Hall. tauto.
Qed.

(** ** The answer to a command *)

(** A result record with the token. *)
Definition own_result (token : Z) (line : bytes) : option sm_mi_record :=
  match sm_mi_parse_line line with
  | MiRecord rec => match mi_type rec with
                    | SM_MI_RESULT => if mi_token rec =? token then Some rec else None
                    | _ => None
                    end
  | _ => None
  end.
Definition own_answer (token : Z) (ls : list bytes) : option (json * string) :=
  match omap (own_result token) ls with
  | rec :: _ => option_map (fun ms => (JObj ms, snprintf_s 32 (mi_class rec))) (mi_results rec)
  | [] => None
  end.

(** The lines the deliveries complete, given an unfinished line. *)
Fixpoint mi_handled (buf : bytes) (ds : list delivery) : list bytes * bytes :=
  match ds with
  | [] => ([], buf)
  | DeliverOutput data :: ds' =>
      let '(ls, rest) := nl_lines (zlast SM_GDB_MCP_MI_BUF_MAX (buf ++ data)) in
      let '(ls', rest) := mi_handled rest ds' in (ls ++ ls', rest)
  | DeliverEvent _ _ :: ds' => mi_handled buf ds'
  end.
Lemma on_deliveries_spec ds g :
  gdb_on_deliveries ds g =
  {| (mi_feed (fst (mi_handled (g_mi_buf g) ds)) g) with g_mi_buf := snd (mi_handled (g_mi_buf g) ds) |}.
Proof.
  unfold gdb_on_deliveries. revert g. induction ds as [|[data|t r] ds IH]; intros g.
  - cbn. by destruct g.
  - cbn [fold_left gdb_on_delivery mi_handled]. rewrite IH, on_broker_output_spec. cbn [g_mi_buf].
    destruct (nl_lines _) as [ls rest]. cbn [fst snd]. destruct (mi_handled rest ds) as [ls' rest'].
    cbn [fst snd]. by rewrite mi_feed_app, mi_feed_buf, gdb_buf_twice.
  - cbn [fold_left gdb_on_delivery mi_handled]. apply IH.
Qed.

(** The fields a command waits on. *)
Definition waits (token : Z) (g : gdb_ctx) : Prop :=
  g_pending_token g = token /\ g_have_result g = false /\ g_result g = None.
Definition holds (a : option json * string) (g : gdb_ctx) : Prop :=
  g_pending_token g = 0 /\ g_have_result g = true /\ g_result g = fst a /\ g_result_class g = snd a.
Definition mi_result_of (rec : sm_mi_record) : option json * string :=
  (option_map JObj (mi_results rec), snprintf_s 32 (mi_class rec)).

Lemma console_append_waits t s g : waits t g -> waits t (console_append s g).
Proof. done. Qed.
Lemma console_append_holds a s g : holds a g -> holds a (console_append s g).
Proof. done. Qed.

Lemma handle_mi_line_holds a l g : holds a g -> holds a (handle_mi_line l g).
Proof.
  intros H. pose proof H as (Hp & _). unfold handle_mi_line.
  destruct (sm_mi_parse_line l) as [rec| | |]; [|by destruct (0 <? zlen l)|done..].
  assert (holds a (handle_mi_record rec g)) as Hr.
  { unfold handle_mi_record. cbv zeta.
    destruct (mi_type rec); try done; try by destruct (mi_stream_data rec).
    { by rewrite Hp. }
    destruct (streq _ "stopped"); [done|]. by destruct (streq _ "running"). }
  by destruct (mi_type rec).
Qed.
Lemma mi_feed_holds a ls g : holds a g -> holds a (mi_feed ls g).
Proof.
  revert g. induction ls as [|l ls IH]; intros g H; [done|]. unfold mi_feed in *. cbn [fold_left].
  by apply IH, handle_mi_line_holds.
Qed.
Lemma handle_mi_line_waits t l g :
  0 < t -> waits t g ->
  match own_result t l with Some rec => holds (mi_result_of rec) (handle_mi_line l g) | None => waits t (handle_mi_line l g) end.
Proof.
  intros Ht H. pose proof H as (Hp & _). unfold own_result, handle_mi_line.
  destruct (sm_mi_parse_line l) as [rec| | |]; [|by destruct (0 <? zlen l)|done..].
  unfold handle_mi_record. cbv zeta. destruct (mi_type rec); try done.
  - rewrite Hp, (proj2 (Z.eqb_neq t 0)) by lia. cbn. by destruct (mi_token rec =? t).
  - destruct (streq _ "stopped"); [done|]. by destruct (streq _ "running").
  - by destruct (mi_stream_data rec).
  - by destruct (mi_stream_data rec).
  - by destruct (mi_stream_data rec).
Qed.
Lemma mi_feed_waits t ls g :
  0 < t -> waits t g ->
  match omap (own_result t) ls with rec :: _ => holds (mi_result_of rec) (mi_feed ls g) | [] => waits t (mi_feed ls g) end.
Proof.
  intros Ht. revert g. induction ls as [|l ls IH]; intros g H; [done|]. unfold mi_feed in *. cbn [fold_left].
  pose proof (handle_mi_line_waits t l g Ht H) as Hl. cbn [omap list_omap]. destruct (own_result t l) as [rec|].
  - by apply mi_feed_holds.
  - by apply IH.
Qed.

Create HintDb gdb discriminated.
#[export] Hint Constants Opaque : gdb.

Section server.
Context {J : JsonText} {N : GdbMcpEnv}.

(** The lines that come until the deadline or the end of the connection. *)
Fixpoint mi_rounds (deadline : Z * Z) (steps : list wait_step) (c : sm_broker_conn) (buf : bytes) : list bytes :=
  match steps with
  | [] => []
  | st :: steps' =>
      if negb (bc_running c) || (remaining_ms deadline (ws_now st) <=? 0) then [] else
      let '(rc, ds, c) := sm_broker_conn_pump st c in
      let '(ls, buf) := mi_handled buf ds in
      ls ++ if rc <? 0 then [] else mi_rounds deadline steps' c buf
  end.

Lemma g_conn_feed ls g : g_conn (mi_feed ls g) = g_conn g.
Proof.
  revert g. induction ls as [|l ls IH]; intros g; [done|]. unfold mi_feed in *. cbn [fold_left]. rewrite IH.
  unfold handle_mi_line. destruct (sm_mi_parse_line l) as [rec| | |]; [|by destruct (0 <? zlen l)|done..].
  unfold handle_mi_record. cbv zeta. destruct (mi_type rec); try done; try by destruct (mi_stream_data rec).
  - by destruct (_ && _).
  - destruct (streq _ "stopped"); [done|]. by destruct (streq _ "running").
Qed.

Lemma pump_until_cons done deadline st steps g :
  srun (pump_until done deadline (st :: steps)) g =
  if negb (bc_running (g_conn g) && negb (done g)) || (remaining_ms deadline (ws_now st) <=? 0) then g else
  let '(rc, ds, c) := sm_broker_conn_pump st (g_conn g) in
  let g' := gdb_on_deliveries ds {| g with g_conn := c |} in
  if rc <? 0 then g' else srun (pump_until done deadline steps) g'.
Proof.
  unfold srun. cbn [pump_until]. unfold mbind, ST_bind, sget.
  destruct (negb (bc_running (g_conn g) && negb (done g))); [done|].
  destruct (remaining_ms deadline (ws_now st) <=? 0); [done|].
  destruct (sm_broker_conn_pump st (g_conn g)) as [[rc ds] c]. by destruct (rc <? 0).
Qed.

Lemma pump_until_holds a deadline steps g :
  holds a g -> srun (pump_until g_have_result deadline steps) g = g.
Proof.
  intros (_ & H & _). destruct steps; [done|]. by rewrite pump_until_cons, H, andb_false_r.
Qed.
Lemma pump_until_spec t deadline steps g :
  0 < t -> waits t g ->
  let g' := srun (pump_until g_have_result deadline steps) g in
  match omap (own_result t) (mi_rounds deadline steps (g_conn g) (g_mi_buf g)) with
  | rec :: _ => holds (mi_result_of rec) g' | [] => waits t g' end.
Proof.
  intros Ht. cbv zeta. revert g. induction steps as [|st steps IH]; intros g Hw; [done|].
  rewrite pump_until_cons. cbn [mi_rounds]. 
  assert (bc_running (g_conn g) && negb (g_have_result g) = bc_running (g_conn g)) as ->
    by (destruct Hw as (_ & -> & _); apply andb_true_r).
  destruct (_ || _); [done|]. destruct (sm_broker_conn_pump st (g_conn g)) as [[rc ds] c]. cbv zeta.
  rewrite on_deliveries_spec. cbn [g_mi_buf]. destruct (mi_handled (g_mi_buf g) ds) as [ls buf]. cbn [fst snd].
  set (g1 := {| g with g_conn := c |}). assert (waits t g1) as Hw1 by done.
  pose proof (mi_feed_waits t ls g1 Ht Hw1) as Hf. rewrite omap_app.
  set (g2 := {| (mi_feed ls g1) with g_mi_buf := buf |}).
  assert (g_conn g2 = c) as Hc by apply (g_conn_feed ls g1).
  destruct (omap (own_result t) ls) as [|rec recs]; cbn [app].
  - destruct (rc <? 0); [exact Hf|]. specialize (IH g2 Hf). rewrite Hc in IH. exact IH.
  - destruct (rc <? 0); [exact Hf|]. by rewrite (pump_until_holds (mi_result_of rec)).
Qed.

(** The start of a command: a new token, a wire id, the line sent. *)
Definition command_line (cmd : string) (g : gdb_ctx) : json :=
  sm_msg_send (Some (fst (sm_broker_conn_gen_wire_id 64 (g_conn g)))) (mi_line_of (g_next_token g) cmd).
Definition next_conn (g : gdb_ctx) : sm_broker_conn := snd (sm_broker_conn_gen_wire_id 64 (g_conn g)).

Lemma gdb_send_spec msg g :
  sresult (gdb_send msg) g = fst (sm_broker_conn_send msg (gm_writes (g_tick g))) /\
  srun (gdb_send msg) g =
  {| g with g_sent := g_sent g ++ snd (sm_broker_conn_send msg (gm_writes (g_tick g))); g_tick := S (g_tick g) |}.
Proof.
  unfold gdb_send, sresult, srun, mbind, ST_bind, gask. by destruct (sm_broker_conn_send _ _).
Qed.
Lemma mi_send_result cmd g :
  sresult (gdb_mi_send cmd) g = fst (sm_broker_conn_send (command_line cmd g) (gm_writes (g_tick g))).
Proof. unfold gdb_mi_send. by rewrite !sresult_bind, (proj1 (gdb_send_spec _ _)). Qed.
Lemma mi_send_state cmd g :
  let g' := srun (gdb_mi_send cmd) g in
  waits (g_next_token g) g' /\ g_conn g' = next_conn g /\ g_mi_buf g' = g_mi_buf g /\ g_tick g' = S (g_tick g).
Proof. cbv zeta. unfold gdb_mi_send. by rewrite !srun_bind, (proj2 (gdb_send_spec _ _)). Qed.
Lemma mi_result_spec g :
  sresult gdb_mi_result g =
  if g_have_result g then option_map (fun r => (r, g_result_class g)) (g_result g) else None.
Proof. unfold gdb_mi_result. rewrite sresult_bind. cbn. unfold mbind, ST_bind, sresult. cbn. by destruct (g_have_result g). Qed.

(** C27: a command gets its own answer.  When its line could be sent, the
    result is that of the first result record with the command's token among
    the lines the debugger completes before the deadline or the end of the
    connection, and there is none exactly when no such record comes (or it has
    no result list): records of other tokens, such as late answers to commands
    that timed out, are never taken for it. *)
Theorem mi_command_own_answer cmd timeout_ms g :
  0 < g_next_token g ->
  sresult (gdb_mi_command cmd timeout_ms) g =
  if fst (sm_broker_conn_send (command_line cmd g) (gm_writes (g_tick g))) <? 0 then None else
  own_answer (g_next_token g)
    (mi_rounds (wait_deadline (gm_clock (S (g_tick g))) timeout_ms) (gm_steps (S (S (g_tick g))))
       (next_conn g) (g_mi_buf g)).
Proof.
  intros Ht. unfold gdb_mi_command. rewrite sresult_bind, mi_send_result.
  destruct (_ <? 0); [done|]. destruct (mi_send_state cmd g) as (Hw & Hc & Hb & Hk).
  set (g1 := srun (gdb_mi_send cmd) g) in *. clearbody g1.
  rewrite sresult_bind, mi_result_spec. unfold pump_for. rewrite !srun_bind. cbn [sresult gask snd].
  set (g2 := srun (gask gm_steps) (srun (gask gm_clock) g1)).
  assert (g_tick g2 = S (S (g_tick g1))) as Hk2 by done.
  pose proof (pump_until_spec _ (wait_deadline (gm_clock (g_tick g1)) timeout_ms) (gm_steps (S (g_tick g1))) g2 Ht Hw) as H.
  cbv zeta in H. change (g_conn g2) with (g_conn g1) in H. change (g_mi_buf g2) with (g_mi_buf g1) in H.
  rewrite Hc, Hb in H. unfold own_answer. rewrite <- Hk.
  change (g_tick (srun (gask gm_clock) g1)) with (S (g_tick g1)).
  destruct (omap _ _) as [|rec recs].
  - by destruct H as (_ & -> & _).
  - destruct H as (_ & -> & -> & ->). cbn. by destruct (mi_results rec).
Qed.
(** ** Standard output and files *)

(** Relations an operation keeps that writes no message and no file. *)
Class Tame (R : relation gdb_ctx) := {
  tame_preorder :: PreOrder R;
  tame_quiet g g' : g_stdout g' = g_stdout g -> g_files g' = g_files g -> R g g' }.
#[local] Instance same_stdout_tame : Tame (same g_stdout).
Proof. split; [exact _|]. by intros. Qed.

Lemma mi_feed_quiet ls g : g_stdout (mi_feed ls g) = g_stdout g /\ g_files (mi_feed ls g) = g_files g.
Proof.
  revert g. induction ls as [|l ls IH]; intros g; [done|]. unfold mi_feed in *. cbn [fold_left].
  destruct (IH (handle_mi_line l g)) as [-> ->].
  unfold handle_mi_line. destruct (sm_mi_parse_line l) as [rec| | |]; [|by destruct (0 <? zlen l)|done..].
  unfold handle_mi_record. cbv zeta. destruct (mi_type rec); try done; try by destruct (mi_stream_data rec).
  - by destruct (_ && _).
  - destruct (streq _ "stopped"); [done|]. by destruct (streq _ "running").
Qed.
Lemma on_deliveries_quiet ds g :
  g_stdout (gdb_on_deliveries ds g) = g_stdout g /\ g_files (gdb_on_deliveries ds g) = g_files g.
Proof. rewrite on_deliveries_spec. cbn. apply mi_feed_quiet. Qed.

Section tame.
Context (R : relation gdb_ctx) `{!Tame R}.

Lemma tame_mod f : (forall g, g_stdout (f g) = g_stdout g) -> (forall g, g_files (f g) = g_files g) -> moves R (smod f).
Proof. intros H1 H2 g. apply tame_quiet; [apply H1|apply H2]. Qed.
Lemma tame_ask {A} (f : nat -> A) : moves R (gask f).
Proof. intros g. by apply tame_quiet. Qed.
Lemma tame_take : moves R take_token.
Proof. intros g. by apply tame_quiet. Qed.
Lemma tame_wire : moves R gdb_wire_id.
Proof. intros g. by apply tame_quiet. Qed.
Lemma tame_undefined b : moves R (swhen b (smod (fun g => {| g with g_undefined := true |}))).
Proof. intros g. destruct b; by apply tame_quiet. Qed.
Lemma tame_send msg : moves R (gdb_send msg).
Proof. intros g. rewrite (proj2 (gdb_send_spec _ _)). by apply tame_quiet. Qed.
Lemma tame_conn_op f : moves R (gdb_conn_op f).
Proof.
  intros g. unfold gdb_conn_op, srun. destruct (f _) as [[r ds] c]. cbn [fst].
  apply tame_quiet; apply (on_deliveries_quiet ds {| g with g_conn := c |}).
Qed.
Lemma tame_pump done deadline steps : moves R (pump_until done deadline steps).
Proof.
  induction steps as [|st steps IH]; intros g; [reflexivity|]. rewrite pump_until_cons.
  destruct (_ || _); [reflexivity|]. destruct (sm_broker_conn_pump _ _) as [[rc ds] c]. cbv zeta.
  assert (R g (gdb_on_deliveries ds {| g with g_conn := c |})) as H.
  { apply tame_quiet; apply (on_deliveries_quiet ds {| g with g_conn := c |}). }
  destruct (rc <? 0); [done|]. etrans; [exact H|apply IH].
Qed.
End tame.

Ltac tame_step :=
  lazymatch goal with
  | |- moves _ (mbind _ _) => apply moves_seq; [exact _| |intros ?]
  | |- moves _ (smod _) => apply tame_mod; first [reflexivity | exact _]
  | |- moves _ (if ?c then _ else _) => destruct c
  | |- moves _ (match ?c with _ => _ end) => destruct c
  | |- moves _ (let _ := _ in _) => cbv zeta
  | |- moves _ (rtos_lines _) => solve [eauto 4 with gdb]
  | |- moves _ (read_faults _ _) => solve [eauto 4 with gdb]
  | |- moves _ ?p => first [solve [eauto 4 with gdb] | let h := head_of p in progress unfold h]
  end.
Ltac tame_tac := repeat (cbv zeta; tame_step).

Section tools.
Context (R : relation gdb_ctx) `{!Tame R}.

#[local] Hint Resolve moves_ret moves_get tame_ask tame_take tame_wire tame_send tame_conn_op tame_pump
  tame_preorder : gdb.
Lemma tame_command cmd t : moves R (gdb_mi_command cmd t).
Proof. tame_tac. Qed.
#[local] Hint Resolve tame_command : gdb.
Lemma tame_rtos cmds : moves R (rtos_lines cmds).
Proof. induction cmds; cbn [rtos_lines]; tame_tac. Qed.
Lemma tame_faults regs cfsr : moves R (read_faults regs cfsr).
Proof. revert cfsr. induction regs as [|[n a] regs IH]; intros cfsr; cbn [read_faults]; tame_tac. Qed.
#[local] Hint Resolve tame_rtos tame_faults : gdb.
Lemma tame_identify : moves R identify_findings.
Proof. tame_tac. Qed.
#[local] Hint Resolve tame_identify : gdb.

(** Every tool but the one that writes a profile. *)
Lemma tame_tool name args : name <> "gdb_generate_profile" -> moves R (run_gdb_tool name args).
Proof.
  intros H. unfold run_gdb_tool.
  repeat match goal with |- moves R (if streq name ?x then _ else _) => destruct (streq name x) eqn:? end;
    [..|apply moves_ret; exact _];
    try match goal with E : streq name "gdb_generate_profile" = true |- _ => by apply streq_spec in E end; tame_tac.
Qed.
End tools.

Lemma gdb_silent_tool name args : moves (same g_stdout) (gdb_dispatch_tool name args).
Proof.
  unfold gdb_dispatch_tool. destruct (negb _); [apply moves_ret; exact _|].
  destruct (decide (name = "gdb_generate_profile")) as [->|H]; [|apply tame_tool; [exact _|done]].
  unfold run_gdb_tool. cbn [streq]. change (moves (same g_stdout) (tool_generate_profile args)).
  unfold tool_generate_profile. apply moves_seq; [exact _|apply tame_identify; exact _|]. intros f.
  apply moves_seq; [exact _|apply tame_undefined; exact _|]. intros _. cbv zeta.
  destruct (nonempty_s _) as [path|]; [|apply moves_ret; exact _].
  destruct (resolve_profile_write_path path 512); [|apply moves_ret; exact _].
  apply moves_seq; [exact _| |intros ?; apply moves_ret; exact _].
  unfold write_profile_file. apply moves_seq; [exact _|intros g; reflexivity|intros _; apply tame_ask; exact _].
Qed.

(** The program answers [id] once. *)
Definition gdb_replies {A} (id : json) (p : G A) : Prop :=
  forall g, exists m, g_stdout (srun p g) = g_stdout g ++ [m] /\ msg_id m = id.
Lemma gdb_replies_write id key v : gdb_replies id (gdb_write (rpc_message (Some id) key v)).
Proof. intros g. by eexists. Qed.
Lemma gdb_replies_then {A B} id (p : G A) (k : A -> G B) :
  gdb_replies id p -> (forall x, moves (same g_stdout) (k x)) -> gdb_replies id (p ≫= k).
Proof.
  intros Hp Hk g. destruct (Hp g) as (m & H1 & H2). exists m. rewrite srun_bind. split; [|done].
  rewrite <- H1. apply Hk.
Qed.
Lemma gdb_replies_after {A B} id (p : G A) (k : A -> G B) :
  moves (same g_stdout) p -> (forall x, gdb_replies id (k x)) -> gdb_replies id (p ≫= k).
Proof.
  intros Hp Hk g. rewrite srun_bind. destruct (Hk (sresult p g) (srun p g)) as (m & H1 & H2).
  exists m. split; [|done]. rewrite H1. f_equal. apply Hp.
Qed.

(** The GDB server answers every request exactly once.  Whatever the
    method, and whatever the debugger, the connection, the clock and the
    filesystem do meanwhile, one message with the request's id is written. *)
Theorem gdb_request_answered msg id m g :
  get_item msg "id" = Some id -> get_item msg "method" = Some (JStr m) -> m <> "notifications/initialized" ->
  exists r, g_stdout (srun (gdb_dispatch_message msg) g) = g_stdout g ++ [r] /\ msg_id r = id.
Proof.
  intros Hid Hm Hn. unfold gdb_dispatch_message. cbv zeta. rewrite Hid, Hm.
  destruct (streq m "initialize"); [apply gdb_replies_then; [apply gdb_replies_write|intros _ ?; reflexivity]|].
  destruct (streq m "notifications/initialized") eqn:Ei; [by apply streq_spec in Ei|].
  destruct (streq m "tools/list"); [apply gdb_replies_write|].
  destruct (streq m "tools/call").
  { unfold gdb_tools_call. destruct (get_item _ "name") as [[]|]; try apply gdb_replies_write.
    apply gdb_replies_after; [apply gdb_silent_tool|]. intros x. apply gdb_replies_write. }
  destruct (streq m "resources/list"); [apply gdb_replies_write|]. destruct (streq m "resources/read").
  { unfold gdb_resources_read. destruct (get_item _ "uri") as [[]|]; try apply gdb_replies_write. cbv zeta.
    destruct (streq _ GDB_PROFILE_RESOURCE_URI); [apply gdb_replies_write|].
    destruct (streq _ GDB_PROBING_RESOURCE_URI); apply gdb_replies_write. }
  destruct (streq m "prompts/list"); [apply gdb_replies_write|]. destruct (streq m "prompts/get"); [|apply gdb_replies_write].
  unfold gdb_prompts_get. destruct (get_item _ "name") as [[]|]; try apply gdb_replies_write.
  destruct (gdb_prompt _ _) as [[text desc]|]; apply gdb_replies_write.
Qed.

(** ** The files written *)

(** A profile directly in the profile directory. *)
Definition confined (path : string) : Prop :=
  exists dir base, profile_dir 400 = Some dir /\ path = dir +:+ "/" +:+ base /\
    has_slash (bytes_of_string base) = false /\
    ends_with (bytes_of_string SM_GDB_PROFILE_FILE_SUFFIX) (bytes_of_string base) = true /\
    slen SM_GDB_PROFILE_FILE_SUFFIX < slen base /\ slen path < 512.

Lemma resolve_confined spec out : resolve_profile_write_path spec 512 = inl out -> confined out.
Proof.
  unfold resolve_profile_write_path, confined. destruct (profile_dir 400) as [dir|] eqn:Ed; [|done]. cbv zeta.
  set (expanded := snprintf_s 512 _). pose proof (bytes_of_string_bytes expanded) as He.
  set (e := bytes_of_string expanded) in *. clearbody e. destruct (has_dotdot e); [done|].
  match goal with |- match ?B with _ => _ end = _ -> _ =>
    assert (forall b, B = inl b -> has_slash b = false /\ all_bytes b) as Hb; [|destruct B as [b|]; [|done]] end.
  { intros b. destruct (has_slash e) eqn:Es; cbn [negb]; [|by intros [= <-]].
    destruct (_ && _); [|done]. cbn [negb]. destruct (_ =? 0); [done|]. cbn [orb].
    destruct (has_slash (zdrop _ e)) eqn:Eb; [done|]. intros [= <-]. split; [done|].
    by apply Forall_drop. }
  destruct (Hb b eq_refl) as [Hs Ha]. destruct (_ <=? _) eqn:El; [done|]. cbn [orb].
  destruct (ends_with _ b) eqn:Ee; [|done]. cbn [negb]. destruct (512 <=? _) eqn:En; [done|]. intros [= <-].
  exists dir, (string_of_bytes b). rewrite bytes_of_string_of_bytes by done.
  apply Z.leb_gt in El, En. split_and!; try done.
  rewrite <- (bytes_of_string_of_bytes b) in El by done. unfold zlen in El. by rewrite !length_bytes_of_string in El.
Qed.

(** Files are only added, and those are confined. *)
Definition files_grow (g g' : gdb_ctx) : Prop :=
  exists new, g_files g' = g_files g ++ new /\ Forall (fun f => confined (fst (fst f))) new.
#[local] Instance files_grow_tame : Tame files_grow.
Proof.
  split; [split|].
  - intros g. exists []. by rewrite app_nil_r.
  - intros g1 g2 g3 (a & Ha & Fa) (b & Hb & Fb). exists (a ++ b). rewrite Hb, Ha, app_assoc. by rewrite Forall_app.
  - intros g g' _ H. exists []. by rewrite H, app_nil_r.
Qed.
Abbreviation grows := (moves files_grow).

Lemma grows_write path text ow : confined path -> grows (write_profile_file path text ow).
Proof.
  intros H. unfold write_profile_file. apply moves_seq; [exact _| |intros _; apply tame_ask; exact _].
  intros g. exists [(path, ow, text)]. by repeat constructor.
Qed.
Lemma grows_generate args : grows (tool_generate_profile args).
Proof.
  unfold tool_generate_profile. apply moves_seq; [exact _|apply tame_identify; exact _|]. intros f.
  apply moves_seq; [exact _|apply tame_undefined; exact _|]. intros _. cbv zeta.
  destruct (nonempty_s _) as [path|]; [|apply moves_ret; exact _].
  destruct (resolve_profile_write_path path 512) as [out|] eqn:E; [|apply moves_ret; exact _].
  apply moves_seq; [exact _| |intros ?; apply moves_ret; exact _]. apply grows_write. by eapply resolve_confined.
Qed.
Lemma grows_dispatch name args : grows (gdb_dispatch_tool name args).
Proof.
  unfold gdb_dispatch_tool. destruct (negb _); [apply moves_ret; exact _|].
  destruct (decide (name = "gdb_generate_profile")) as [->|H]; [|apply tame_tool; [exact _|done]].
  exact (grows_generate args).
Qed.
Lemma grows_stdout msg : grows (gdb_write msg).
Proof. intros g. exists []. by rewrite app_nil_r. Qed.
#[local] Hint Resolve moves_ret moves_get tame_preorder files_grow_tame tame_ask tame_send tame_conn_op
  grows_dispatch grows_stdout : gdb.
Lemma grows_message msg : grows (gdb_dispatch_message msg).
Proof. tame_tac. Qed.
#[local] Hint Resolve grows_message : gdb.
Lemma grows_lines fuel : grows (gdb_stdin_lines fuel).
Proof. induction fuel; cbn [gdb_stdin_lines]; tame_tac. Qed.
#[local] Hint Resolve grows_lines : gdb.
Lemma grows_turn p : grows (gdb_turn p).
Proof. tame_tac. Qed.
#[local] Hint Resolve grows_turn : gdb.
Lemma grows_loop es : grows (gdb_loop es).
Proof. induction es as [|[| |p] es IH]; cbn [gdb_loop]; tame_tac. Qed.
#[local] Hint Resolve grows_loop : gdb.

(** The server writes profiles into the profile directory and nothing else.
    Whatever requests come in and whatever the debugger says, every file the
    program opens for writing is ["$HOME/.config/smolmux/"] followed by a name
    without a slash that ends in [".gdb-profile.json"]. *)
Theorem profile_writes_confined es g :
  g_files g = [] -> Forall (fun f => confined (fst (fst f))) (g_files (srun (gdb_main es) g)).
Proof.
  intros H. assert (grows (gdb_main es)) as Hm by tame_tac. destruct (Hm g) as (new & -> & Hn). by rewrite H.
Qed.

(** ** The profile saved *)

Lemma generated_profile_ok f rtos : gp_ok (generated_profile f rtos).
Proof.
  unfold generated_profile. cbv zeta. set (vs := vendor_slug _). set (ml := core_is_mainline _).
  assert (vendor_periph vs ∈ [[("DBGMCU", "0xE0042000")]; [("DSU", "0x41002000")]; [("FICR", "0x10000000")]; []]) as Hv.
  { unfold vendor_periph. repeat case_match; set_solver. }
  split; cbn [gp_name gp_description gp_arch gp_gdb_path gp_rtos gp_init_commands gp_registers gp_fault_registers
              gp_peripherals gp_rtos_commands];
    try (apply snprintf_fits; lia); try (by split; [simpl; lia|]); try (unfold fits; simpl; lia).
  - destruct rtos; [apply snprintf_fits; lia|unfold fits; simpl; lia].
  - split; [by destruct ml; simpl; lia|]. apply Forall_map, Forall_true. intros x.
    apply snprintf_fits. unfold SM_GDB_REG_NAME_LEN. lia.
  - destruct ml; (split; [simpl; lia|]); repeat constructor; simpl; lia.
  - rewrite !elem_of_cons, elem_of_nil in Hv. destruct Hv as [-> | [-> | [-> | [-> | []]]]];
      destruct ml; (split; [vm_compute; lia|]); vm_compute; repeat constructor.
  - destruct rtos; (split; [simpl; lia|]); repeat constructor; simpl; lia.
Qed.

Lemma write_files {A} path text ow (k : save_result -> A) g :
  g_files (srun (write_profile_file path text ow ≫= (fun r => mret (k r))) g) = g_files g ++ [(path, ow, text)].
Proof. done. Qed.
Lemma generate_saves args g path ow text :
  g_files (srun (tool_generate_profile args) g) = g_files g ++ [(path, ow, text)] ->
  confined path /\
  text = gm_print (sm_gdb_profile_to_json (generated_profile (sresult identify_findings g)
                                             (nonempty_s (sm_json_get_string args "rtos")))).
Proof.
  unfold tool_generate_profile. rewrite srun_bind. cbv zeta. set (f := sresult identify_findings g).
  rewrite srun_bind. set (g1 := srun (swhen _ _) _).
  assert (g_files g1 = g_files g) as Hf.
  { assert (Tame (same g_files)) as T by (split; [exact _|]; by intros). unfold g1.
    rewrite (tame_undefined (same g_files) _ (srun identify_findings g)). by apply (tame_identify (same g_files)). }
  clearbody g1 f.
  assert (forall x, g_files g = g_files g ++ [x] -> False) as Hno.
  { intros x H. apply (f_equal length) in H. rewrite length_app in H. simpl in H. lia. }
  destruct (nonempty_s (sm_json_get_string args "path")) as [spec|]; [|cbn; rewrite Hf; by intros ?%Hno].
  destruct (resolve_profile_write_path spec 512) as [out|] eqn:E; [|cbn; rewrite Hf; by intros ?%Hno].
  rewrite write_files, Hf. intros H%app_inv_head. injection H as <- <- <-.
  split; [by eapply resolve_confined|done].
Qed.

(** A profile the server saved is the profile the next session runs with.
    Started with [-p] and the path named in the answer, the program loads the
    generated profile, field by field, from the file as it was written. *)
Theorem saved_profile_loads {H : HostEnv} args g path ow text :
  let p := generated_profile (sresult identify_findings g) (nonempty_s (sm_json_get_string args "rtos")) in
  g_files (srun (tool_generate_profile args) g) = g_files g ++ [(path, ow, text)] ->
  cJSON_Parse (gm_print (sm_gdb_profile_to_json p)) = Some (sm_gdb_profile_to_json p) ->
  Forall (fun c => c <> 0) (bytes_of_string text) -> slen text <= 1048576 ->
  he_readable path = true -> he_file path = Some (bytes_of_string text) ->
  discover_profile (Some path) = Some p.
Proof.
  intros p Hs Hp Hz Hl Hr Hfile. destruct (generate_saves _ _ _ _ _ Hs) as [(dir & base & _ & Hpath & _ & _ & _ & Hlen) ->].
  fold p in Hz, Hl, Hfile. assert (path <> "") as Hne by (subst path; by destruct dir).
  unfold discover_profile. cbn [nonempty_s]. destruct (streq path "") eqn:Es; [by apply streq_spec in Es|].
  unfold load_named, sm_profile_resolve_path. rewrite Es. cbn [orb]. unfold try_candidate, path_readable, copy_path.
  rewrite Es, Hr. cbn. rewrite snprintf_s_short by (unfold slen in Hlen; lia). rewrite Es.
  rewrite Hfile. unfold sm_gdb_profile_load, file_text, zlen. rewrite length_bytes_of_string.
  destruct (Z.ltb_spec 1048576 (Z.of_nat (String.length (gm_print (sm_gdb_profile_to_json p))))); [unfold slen in Hl; lia|].
  rewrite cstr_no_nul by done. rewrite string_of_bytes_of_string.
  by rewrite (gdb_profile_roundtrip p) by (done || apply generated_profile_ok).
Qed.
End server.

(** * The GDB MCP server at work

    A server in front of a broker whose debugger answers three reads of the
    target's memory: the witnesses of the theorems about it. *)

#[local] Open Scope string_scope.
#[local] Open Scope list_scope.
#[local] Open Scope Z_scope.
#[local] Open Scope json_scope.

#[local] Existing Instance cjson.

(** ** The debugger *)

(** The answer to a read of four bytes. *)
Definition read_reply (token : nat) (contents : string) : bytes :=
  bytes_of_string (pretty (Z.of_nat token) +:+ "^done,memory=[{begin=" +:+ quoted "0x0" +:+ ",contents=" +:+
                   quoted contents +:+ "}]") ++ [10].
(** CPUID of a Cortex-M4, a ROM table, the id of an STM32F4. *)
Definition demo_words : list string := ["41c20f41"; "03f0f0ff"; "13640010"].
(** The welcome, then one answer for each command. *)
Definition gdb_script (n : nat) : list wait_step :=
  if (n =? 2)%nat then [arrives [welcome]] else
  let k := ((n - 2) / 3)%nat in
  match demo_words !! (k - 1)%nat with
  | Some w => [arrives [sm_msg_output (read_reply k w) 0]]
  | None => []
  end.

#[local] Instance demo_gdb : GdbMcpEnv := {|
  gm_profile := sm_gdb_profile_init_default; gm_home := Some "/home/u"; gm_name := "claude-gdb-mcp"; gm_token := None;
  gm_print := cJSON_PrintUnformatted; gm_writes _ := [WBytes 65536]; gm_clock _ := (0, 0); gm_steps := gdb_script;
  gm_realloc _ := true; gm_save _ := SaveOk |}.

Definition generate_args : json := JObj [] |> add_string "path" "m4.gdb-profile.json" |> add_string "rtos" "zephyr".
Definition generate_events : list main_event := [demo_poll (call_line 7 "gdb_generate_profile" generate_args)].
Definition demo_path : string := "/home/u/.config/smolmux/m4.gdb-profile.json".

Example demo_generated :
  map (fun f => fst f) (g_files (srun (gdb_main generate_events) (gdb_server_start 7))) = [(demo_path, false)] /\
  map msg_id (g_stdout (srun (gdb_main generate_events) (gdb_server_start 7))) = [JNum 7000000000].
Proof. vm_compute. done. Qed.

Lemma profile_writes_confined_witness :
  Forall (fun f => confined (fst (fst f))) (g_files (srun (gdb_main generate_events) (gdb_server_start 7))).
Proof. apply (profile_writes_confined generate_events (gdb_server_start 7)). reflexivity. Defined.

Definition demo_call : json := call_json 7 "gdb_status" (JObj []).
Lemma gdb_request_answered_witness :
  exists r, g_stdout (srun (gdb_dispatch_message demo_call) (gdb_server_start 7)) = [r] /\ msg_id r = JNum 7000000000.
Proof. by apply (gdb_request_answered demo_call (JNum 7000000000) "tools/call" (gdb_server_start 7)). Defined.

(** Welcomed; the next command has token 1 and finds the first answer. *)
Definition demo_greeted : gdb_ctx := srun gdb_handshake (gdb_server_start 7).
Lemma mi_command_own_answer_witness :
  option_map (fun p => (memory_contents (fst p), snd p)) (sresult (gdb_mi_command "-data-read-memory-bytes 0xE000ED00 4" 5000) demo_greeted)
    = Some (Some "41c20f41", "done").
Proof.
  rewrite (mi_command_own_answer "-data-read-memory-bytes 0xE000ED00 4" 5000 demo_greeted);
    vm_compute; reflexivity.
Defined.

(** A stop and a console line, cut in the middle of both. *)
Definition demo_stream : bytes :=
  bytes_of_string ("*stopped,reason=" +:+ quoted "breakpoint-hit" +:+ nl +:+ "~" +:+ quoted "hello" +:+ nl +:+ "(gd").
Definition demo_chunks : list bytes := [take 9 demo_stream; take 32 (drop 9 demo_stream); drop 41 demo_stream].
Lemma mi_stream_chunks_witness :
  let g := fold_left (fun g d => gdb_on_broker_output d g) demo_chunks (gdb_server_start 7) in
  g = {| (mi_feed (fst (nl_lines demo_stream)) (gdb_server_start 7)) with g_mi_buf := snd (nl_lines demo_stream) |} /\
  sp_reason (g_stop g) = "breakpoint-hit" /\ g_console g = bytes_of_string "hello" /\ g_mi_buf g = bytes_of_string "(gd".
Proof.
  split; [|vm_compute; done]. apply (mi_stream_chunks demo_chunks 64 (gdb_server_start 7)).
  - intros [].
  - apply (bool_decide_unpack (Forall _ _)). vm_compute. exact I.
  - apply (bool_decide_unpack (Forall _ _)). vm_compute. exact I.
Defined.

(** ** The next session *)

Definition demo_saved : list (string * bool * string) := g_files (srun (tool_generate_profile generate_args) demo_greeted).
Definition demo_text : string := match demo_saved with (_, _, t) :: _ => t | [] => "" end.
#[local] Instance demo_host : HostEnv := {|
  he_setenv _ _ := true; he_env _ := None; he_euid := 1000; he_stat _ := None; he_lstat _ := false; he_open _ := None;
  he_readable := String.eqb demo_path; he_file _ := Some (bytes_of_string demo_text); he_glob _ := [];
  he_realpath _ := None; he_connect _ := None; he_resolve _ _ := None |}.
Lemma saved_profile_loads_witness :
  exists p, discover_profile (Some demo_path) = Some p /\ gp_rtos p = "zephyr" /\ gp_name p = "stm32-cortex-m4" /\
    map fst (gp_fault_registers p) = ["CFSR"; "HFSR"; "DFSR"; "MMFAR"; "BFAR"; "AFSR"].
Proof.
  eexists. split; [|split; [|split]].
  - apply (saved_profile_loads generate_args demo_greeted demo_path false demo_text);
      try (vm_compute; done). apply (bool_decide_unpack (Forall _ _)). vm_compute. exact I.
  - vm_compute. reflexivity.
  - vm_compute. reflexivity.
  - vm_compute. reflexivity.
Defined.

(** ** Raw commands *)

(** The check looks at the command before the line breaks are taken out. *)
Example check_before_strip :
  let cmd := bytes_of_string ("she" +:+ nl +:+ "ll id") in
  command_is_blocked cmd = false /\ command_is_blocked (sanitize cmd) = true.
Proof. vm_compute. done. Qed.
(** Other arguments are not sanitized: two lines go out. *)
Example evaluate_two_lines :
  let cmd := "-data-evaluate-expression " +:+ quoted ("1" +:+ dq +:+ nl +:+ "-target-detach" +:+ nl) in
  length (fst (nl_lines (mi_line_of 1 cmd))) = 3%nat.
Proof. vm_compute. done. Qed.
