(* ===== verification/MonitorProps.v ===== *)
(** The interactive monitor: its properties, and runs of it. *)

(** * What the monitor shows and sends

    Standard output is the device's output, whatever arrives in between and
    however it is cut; what is typed reaches the device exactly, but for the
    commands behind the prefix key. *)
From S2P Require Import Prelude Cstr Codecs Json CJson Protocol McpText Effects Client BrokerFrame.
From S2P Require Import McpConn McpClientProps HostPaths GdbServer Monitor.

#[local] Open Scope string_scope.
#[local] Open Scope list_scope.
#[local] Open Scope Z_scope.

(** ** The screen *)

Definition mo_shown (s : mon_ctx) : bytes := mjoin (map snd (List.filter fst (mo_screen s))).
(** The bytes shown for the outputs [l], and the state of the line ends: an
    output there is no memory to rewrite is shown as it came. *)
Fixpoint displayed (map : bool) (cr : bool) (l : list (bool * bytes)) : bytes * bool :=
  match l with
  | [] => ([], cr)
  | (ok, d) :: l' =>
      let '(o, cr) := if map && ok then sm_mon_map_lf cr d else (d, cr) in
      let '(o', cr) := displayed map cr l' in (o ++ o', cr)
  end.
Lemma map_lf_app cr a b :
  sm_mon_map_lf cr (a ++ b) =
  (fst (sm_mon_map_lf cr a) ++ fst (sm_mon_map_lf (snd (sm_mon_map_lf cr a)) b),
   snd (sm_mon_map_lf (snd (sm_mon_map_lf cr a)) b)).
Proof.
  revert cr. induction a as [|c a IH]; intros cr; cbn [app sm_mon_map_lf].
  { apply surjective_pairing. }
  rewrite IH. destruct (sm_mon_map_lf (c =? 13) a) as [out cr']. cbn [fst snd]. by rewrite app_assoc.
Qed.
Lemma displayed_app map cr a b :
  displayed map cr (a ++ b) =
  (fst (displayed map cr a) ++ fst (displayed map (snd (displayed map cr a)) b),
   snd (displayed map (snd (displayed map cr a)) b)).
Proof.
  revert cr. induction a as [|[ok d] a IH]; intros cr; cbn [app displayed]; [apply surjective_pairing|].
  destruct (if map && ok then _ else _) as [o cr1]. rewrite IH. destruct (displayed map cr1 a) as [o1 cr2].
  cbn [fst snd]. by rewrite app_assoc.
Qed.
(** With memory for all of them, how the output is cut makes no difference. *)
Lemma displayed_all map cr oks ds :
  Forall (fun ok => ok = true) oks -> length oks = length ds ->
  displayed map cr (zip oks ds) = if map then sm_mon_map_lf cr (mjoin ds) else (mjoin ds, cr).
Proof.
  intros H. revert cr ds. induction H as [|ok oks -> _ IH]; intros cr [|d ds] Hl; try done.
  { by destruct map. }
  injection Hl as Hl. cbn [zip zip_with displayed mjoin list_join]. rewrite andb_true_r. destruct map.
  - rewrite map_lf_app. destruct (sm_mon_map_lf cr d) as [o cr1]. fold (zip oks ds). rewrite (IH cr1 ds Hl).
    cbn [fst snd]. by destruct (sm_mon_map_lf cr1 (mjoin ds)).
  - fold (zip oks ds). by rewrite (IH cr ds Hl).
Qed.

(** The step shows [l]. *)
Definition shows (l : list (bool * bytes)) (s s' : mon_ctx) : Prop :=
  mo_map_lf s' = mo_map_lf s /\
  (mo_shown s', mo_prev_cr s') =
  (mo_shown s ++ fst (displayed (mo_map_lf s) (mo_prev_cr s) l), snd (displayed (mo_map_lf s) (mo_prev_cr s) l)).
Lemma shows_trans a b s1 s2 s3 : shows a s1 s2 -> shows b s2 s3 -> shows (a ++ b) s1 s3.
Proof.
  intros [M1 [= H1 C1]] [M2 [= H2 C2]]. split; [congruence|]. rewrite displayed_app. cbn [fst snd].
  rewrite H2, C2, H1, C1, M1. by rewrite app_assoc.
Qed.
Abbreviation quiet := (shows []).
Lemma displayed_nil map cr : displayed map cr [] = ([], cr).
Proof. done. Qed.
#[local] Instance quiet_preorder : PreOrder quiet.
Proof.
  split.
  - intros s. split; [done|]. rewrite displayed_nil. cbn. by rewrite app_nil_r.
  - intros s1 s2 s3 H1 H2. exact (shows_trans [] [] s1 s2 s3 H1 H2).
Qed.
Lemma quiet_same s s' :
  mo_map_lf s' = mo_map_lf s -> mo_prev_cr s' = mo_prev_cr s -> mo_screen s' = mo_screen s -> quiet s s'.
Proof.
  intros H1 H2 H3. split; [done|]. rewrite displayed_nil. unfold mo_shown. cbn [fst snd].
  by rewrite H2, H3, app_nil_r.
Qed.
Lemma shown_put out b s : mo_shown (srun (mo_put out b) s) = mo_shown s ++ (if out then b else []).
Proof.
  unfold mo_shown. cbn. rewrite List.filter_app, map_app, join_app. destruct out; cbn; by rewrite ?app_nil_r.
Qed.

Create HintDb monitor discriminated.
#[export] Hint Constants Opaque : monitor.

Section screen.
Context {J : JsonText} {N : MonEnv}.

Lemma quiet_err b : moves quiet (mo_put false b).
Proof.
  intros s. split; [done|]. rewrite displayed_nil, shown_put. cbn. done.
Qed.
Lemma quiet_ask {A} (f : nat -> A) : moves quiet (mo_ask f).
Proof. intros s. by apply quiet_same. Qed.
Lemma quiet_mod f :
  (forall s, mo_map_lf (f s) = mo_map_lf s) -> (forall s, mo_prev_cr (f s) = mo_prev_cr s) ->
  (forall s, mo_screen (f s) = mo_screen s) -> moves quiet (smod f).
Proof. intros H1 H2 H3 s. apply quiet_same; [apply H1|apply H2|apply H3]. Qed.
#[local] Hint Resolve moves_ret moves_get quiet_err quiet_ask quiet_preorder : monitor.
Ltac quiet_step :=
  lazymatch goal with
  | |- moves _ (mbind _ _) => apply moves_seq; [exact _| |intros ?]
  | |- moves _ (smod _) => apply quiet_mod; reflexivity
  | |- moves _ (if ?c then _ else _) => destruct c
  | |- moves _ (match ?c with _ => _ end) => destruct c
  | |- moves _ (let _ := _ in _) => cbv zeta
  | |- moves _ ?p => first [solve [eauto 4 with monitor] | let h := head_of p in progress unfold h]
  end.
Ltac quiet_tac := repeat (cbv zeta; quiet_step).

Lemma quiet_flush : moves quiet flush_events.
Proof. quiet_tac. Qed.
Lemma quiet_event t : moves quiet (event_line t).
Proof. quiet_tac. Qed.
#[local] Hint Resolve quiet_flush quiet_event : monitor.
Lemma quiet_grow : moves quiet mon_grow.
Proof. quiet_tac. Qed.

(** Device bytes written as they are. *)
Lemma put_device_shows b s :
  let s' := srun (put_device b) s in
  mo_map_lf s' = mo_map_lf s /\ mo_prev_cr s' = mo_prev_cr s /\ mo_shown s' = mo_shown s ++ b.
Proof. cbv zeta. unfold put_device. rewrite srun_bind. split_and!; [done..|]. apply (shown_put true). Qed.
Lemma write_device_shows b s :
  let s' := srun (write_device b) s in
  mo_map_lf s' = mo_map_lf s /\ mo_prev_cr s' = mo_prev_cr s /\ mo_shown s' = mo_shown s ++ b.
Proof.
  cbv zeta. unfold write_device. destruct (Z.eqb_spec (zlen b) 0) as [E|_].
  { apply zlen_zero in E. subst b. by rewrite app_nil_r. }
  rewrite srun_bind. cbn [sresult srun sget fst snd]. destruct (if negb _ then _ else _) as [[head rest]|] eqn:E;
    [|apply put_device_shows].
  assert (b = head ++ 10 :: rest) as ->.
  { destruct (negb _); [|done]. by apply split_at_char_Some in E as [-> _]. }
  rewrite !srun_bind. set (s1 := srun (smod _) _).
  assert (mo_map_lf s1 = mo_map_lf s /\ mo_prev_cr s1 = mo_prev_cr s /\ mo_shown s1 = mo_shown s ++ head ++ [10]) as (A1 & A2 & A3).
  { split_and!; [done..|]. unfold s1. apply (shown_put true). }
  clearbody s1. destruct (quiet_flush s1) as [B1 [= B3 B2]]. cbn [fst snd displayed] in *.
  rewrite app_nil_r in B3. set (s2 := srun flush_events s1) in *. clearbody s2.
  destruct (Z.eqb_spec (zlen rest) 0) as [E0|_].
  - apply zlen_zero in E0. subst rest. cbn. split_and!; congruence.
  - destruct (put_device_shows rest s2) as (C1 & C2 & C3). split_and!; [congruence..|].
    rewrite C3, B3, A3, <- !app_assoc. done.
Qed.

(** ** Messages *)

Definition device_bytes (m : sm_msg) : bytes :=
  match m_root m, m_type m with
  | Some root, SM_MSG_OUTPUT =>
      default [] (sm_json_get_string root "data" ≫= fun b => sm_base64_decode (bytes_of_string b))
  | _, _ => []
  end.
(** There is always memory to rewrite an output. *)
Definition memory_lasts : Prop := forall n, me_malloc n = true.
(** The step shows the outputs [ds], each rewritten where there was memory. *)
Definition shows_outputs (ds : list bytes) (s s' : mon_ctx) : Prop :=
  exists oks, length oks = length ds /\ (memory_lasts -> Forall (fun ok => ok = true) oks) /\ shows (zip oks ds) s s'.
Lemma outputs_nil s s' : quiet s s' -> shows_outputs [] s s'.
Proof. intros H. exists []. by split_and!. Qed.
Lemma outputs_trans a b s1 s2 s3 :
  shows_outputs a s1 s2 -> shows_outputs b s2 s3 -> shows_outputs (a ++ b) s1 s3.
Proof.
  intros (o1 & L1 & F1 & S1) (o2 & L2 & F2 & S2). exists (o1 ++ o2). split_and!.
  - rewrite !length_app. lia.
  - intros H. apply Forall_app. auto.
  - rewrite zip_with_app by done. by apply (shows_trans _ _ _ s2).
Qed.

Lemma dispatch_shows m s : shows_outputs [device_bytes m] s (srun (mon_dispatch m) s).
Proof.
  assert (forall s', quiet s s' -> shows_outputs [[]] s s') as Hquiet.
  { intros s' [H1 [= H2 H3]]. exists [true]. split_and!; [done|intros _; by constructor|]. split; [done|].
    cbn. destruct (mo_map_lf s); cbn; by rewrite H2, H3. }
  unfold mon_dispatch, device_bytes. destruct (m_root m) as [root|]; [|apply Hquiet, quiet_preorder].
  destruct (m_type m);
    try (match goal with |- shows_outputs [[]] _ (srun ?p _) => apply Hquiet; clear Hquiet; revert s; change (moves quiet p) end; quiet_tac).
  unfold handle_output. destruct (_ ≫= _) as [data|]; [|apply Hquiet, quiet_preorder].
  change (default [] (Some data)) with data.
  destruct (Z.eqb_spec (zlen data) 0) as [E|_]; [apply zlen_zero in E; subst; apply Hquiet, quiet_preorder|].
  rewrite srun_bind. cbn [sresult srun sget fst snd]. rewrite srun_bind.
  destruct (mo_map_lf s) eqn:Em; cbn [sresult srun mo_ask mret ST_ret fst snd].
  - destruct (me_malloc (mo_tick s)) eqn:Ea.
    + exists [true]. split_and!; [done|intros _; by constructor|]. unfold shows. rewrite Em. rewrite srun_bind.
      cbn [sresult srun sget fst snd mo_prev_cr zip zip_with displayed andb].
      destruct (sm_mon_map_lf (mo_prev_cr s) data) as [out cr]. rewrite srun_bind.
      set (s1 := srun (smod _) _). destruct (write_device_shows out s1) as (A1 & A2 & A3). split; [by rewrite A1|].
      cbn [fst snd]. by rewrite A3, A2, app_nil_r.
    + exists [false]. split_and!; [done|intros H; by rewrite H in Ea|].
      match goal with |- shows ?l ?a (srun _ ?s1) => change (shows l a (srun (write_device data) s1)); destruct (write_device_shows data s1) as (A1 & A2 & A3);
        set (s2 := srun (write_device data) s1) in *; clearbody s2 end.
      split; [by rewrite A1|]. rewrite Em. cbn [zip zip_with displayed andb fst snd]. by rewrite A3, A2, app_nil_r.
  - exists [true]. split_and!; [done|intros _; by constructor|].
    destruct (write_device_shows data s) as (A1 & A2 & A3). split; [congruence|]. rewrite Em.
    cbn [zip zip_with displayed andb fst snd]. by rewrite A2, A3, app_nil_r.
Qed.

Lemma lines_show fuel buf s d :
  (length buf <= fuel)%nat ->
  let rest := sresult (mon_lines fuel buf) s in
  shows_outputs (map device_bytes (msgs_of buf)) s (srun (mon_lines fuel buf) s) /\
  split_line rest = None /\ msgs_of (buf ++ d) = msgs_of buf ++ msgs_of (rest ++ d).
Proof.
  cbv zeta. revert buf s. induction fuel as [|fuel IH]; intros buf s Hf.
  { destruct buf; [|simpl in Hf; lia]. split_and!; [apply outputs_nil, quiet_preorder|done|done]. }
  cbn [mon_lines]. destruct (split_line buf) as [[line rest]|] eqn:Es.
  - destruct (split_line_spec _ _ _ Es) as [Hb _].
    assert (length rest <= fuel)%nat as Hr by (rewrite Hb, length_app in Hf; simpl in Hf; lia).
    pose proof (msgs_of_split _ _ _ [] Es) as Hm0. rewrite !app_nil_r in Hm0.
    rewrite (msgs_of_split _ _ _ d Es), Hm0, srun_bind, sresult_bind.
    set (s1 := srun (mon_dispatch _) s). destruct (IH rest s1 Hr) as (H1 & H2 & H3).
    split_and!; [|done|by rewrite H3, app_assoc].
    rewrite map_app. refine (outputs_trans _ _ s s1 _ _ H1). rewrite line_msgs_cases.
    destruct (m_root (sm_msg_decode line)) eqn:Er; cbn [map]; [apply dispatch_shows|].
    apply outputs_nil. unfold s1, mon_dispatch. rewrite Er. apply quiet_preorder.
  - rewrite (msgs_of_none _ Es). split_and!; [apply outputs_nil, quiet_preorder|done|done].
Qed.

(** Reads of the socket, and the bytes they took. *)
Definition broker_took (r : rres) (s : mon_ctx) : bytes :=
  let s1 := srun mon_grow s in
  if sresult mon_grow s then
    match sys_read (mo_read_cap s1 - zlen (mo_read s1) - 1) r with RBytes b => b | _ => [] end
  else [].
Fixpoint mon_reads (rs : list rres) (s : mon_ctx) : mon_ctx * bytes :=
  match rs with
  | [] => (s, [])
  | r :: rs' => let '(s', d) := mon_reads rs' (srun (handle_broker_data r) s) in (s', broker_took r s ++ d)
  end.

Lemma grow_read s : mo_read (srun mon_grow s) = mo_read s.
Proof.
  unfold mon_grow. rewrite srun_bind. cbn [sresult srun sget fst snd id]. destruct (_ <? _); [done|]. cbv zeta.
  destruct (_ && _); [done|]. rewrite srun_bind. by destruct (sresult _ _).
Qed.
Lemma broker_data_shows r s d :
  split_line (mo_read s) = None ->
  let s' := srun (handle_broker_data r) s in
  let all := mo_read s ++ broker_took r s in
  shows_outputs (map device_bytes (msgs_of all)) s s' /\ split_line (mo_read s') = None /\
  msgs_of (all ++ d) = msgs_of all ++ msgs_of (mo_read s' ++ d).
Proof.
  intros Hs. cbv zeta. unfold handle_broker_data, broker_took. cbv zeta. rewrite srun_bind.
  pose proof (quiet_grow s) as Hg. rewrite <- (grow_read s) in *. set (s1 := srun mon_grow s) in *. clearbody s1.
  assert (msgs_of (mo_read s1 ++ []) = []) as Hm0.
  { rewrite app_nil_r. by apply msgs_of_none. }
  assert (forall s2, quiet s1 s2 -> mo_read s2 = mo_read s1 ->
    shows_outputs (map device_bytes (msgs_of (mo_read s1 ++ []))) s s2 /\ split_line (mo_read s2) = None /\
    msgs_of ((mo_read s1 ++ []) ++ d) = msgs_of (mo_read s1 ++ []) ++ msgs_of (mo_read s2 ++ d)) as Hnone.
  { intros s2 Hq Hr. rewrite Hm0, Hr, app_nil_r. split_and!; [|done|done].
    apply outputs_nil. etrans; [exact Hg|exact Hq]. }
  destruct (sresult mon_grow s); cbn [negb]; [|apply Hnone; [apply quiet_preorder|done]].
  rewrite srun_bind. cbn [sresult srun sget fst snd id].
  destruct (sys_read _ r) as [b| | |]; try (apply Hnone; [by apply quiet_same|done]).
  rewrite srun_bind. destruct (lines_show (length (mo_read s1 ++ b)) (mo_read s1 ++ b) s1 d ltac:(lia)) as (H1 & H2 & H3).
  split_and!; [|exact H2|exact H3]. refine (outputs_trans [] _ _ _ _ (outputs_nil _ _ Hg) _).
  rewrite <- (app_nil_r (map _ _)). refine (outputs_trans _ _ _ _ _ H1 _). by apply outputs_nil, quiet_same.
Qed.

End screen.

(** ** The keyboard *)

Inductive key := KData (c : Z) | KCmd (c : Z).
(** What the bytes typed mean, and whether a command is still to come. *)
Fixpoint keys (esc : Z) (mode : bool) (l : bytes) : list key * bool :=
  match l with
  | [] => ([], mode)
  | c :: l' =>
      if mode then let '(ks, m) := keys esc false l' in (KCmd c :: ks, m)
      else if c =? esc then keys esc true l'
      else let '(ks, m) := keys esc false l' in (KData c :: ks, m)
  end.
Lemma keys_app esc mode a b :
  keys esc mode (a ++ b) =
  (fst (keys esc mode a) ++ fst (keys esc (snd (keys esc mode a)) b), snd (keys esc (snd (keys esc mode a)) b)).
Proof.
  revert mode. induction a as [|c a IH]; intros mode; cbn [app keys]; [apply surjective_pairing|].
  rewrite !IH. destruct mode; [by destruct (keys esc false a)|]. destruct (c =? esc); [done|].
  by destruct (keys esc false a).
Qed.

(** The bytes for the device and the requests to the broker, in order. *)
Abbreviation item := (Z + json)%type.
Definition key_items (ctl : bool) (esc : Z) (k : key) : list item :=
  match k with
  | KData c => if ctl then [inl c] else []
  | KCmd c =>
      if c =? esc then [] else
      match wire_message (sm_mon_esc_wire (sm_mon_esc_kind c)) with
      | Some (msg, _) => [inr msg]
      | None => if bool_decide (sm_mon_esc_kind c = SM_MON_ESC_FORWARD) && ctl then [inl esc; inl c] else []
      end
  end.
Definition keys_items (ctl : bool) (esc : Z) (ks : list key) : list item := mjoin (map (key_items ctl esc) ks).

Definition sent_items (m : json) : list item :=
  if bool_decide (sm_json_get_string m "type" = Some "send") then
    map inl (default [] (sm_json_get_string m "data" ≫= fun b => sm_base64_decode (bytes_of_string b)))
  else [inr m].
Definition sent_view (l : list json) : list item := mjoin (map sent_items l).
Lemma sent_view_app a b : sent_view (a ++ b) = sent_view a ++ sent_view b.
Proof. unfold sent_view. by rewrite map_app, join_app. Qed.
Lemma send_items data : all_bytes data -> sent_view [sm_msg_send (Some "mon") data] = map inl data.
Proof.
  intros H. unfold sent_view. cbn [map mjoin list_join]. rewrite app_nil_r. unfold sent_items.
  rewrite bool_decide_true by done.
  change (sm_json_get_string _ "data") with (Some (string_of_bytes (sm_base64_encode data))). cbn [mbind option_bind].
  by rewrite bytes_of_string_of_bytes, b64_roundtrip by (done || apply b64_encode_bytes).
Qed.
Lemma wire_items w msg note : wire_message w = Some (msg, note) -> sent_view [msg] = [inr msg].
Proof. by destruct w; intros [= <- <-]. Qed.

(** The keys that end the program. *)
Definition key_stops (esc : Z) (k : key) : bool :=
  match k with
  | KData _ => false
  | KCmd c => (c =? esc) || bool_decide (sm_mon_esc_kind c = SM_MON_ESC_QUIT)
  end.
Definition keys_stop (esc : Z) (ks : list key) : bool := existsb (key_stops esc) ks.

Section keyboard.
Context {J : JsonText} {N : MonEnv}.

(** The prefix key and the role stay. *)
Definition mon_frame (s s' : mon_ctx) : Prop :=
  mo_escape_char s' = mo_escape_char s /\ mo_role s' = mo_role s.

Lemma handle_escape_items c s :
  is_byte c -> is_byte (mo_escape_char s) ->
  let s' := srun (handle_escape c) s in
  mon_frame s s' /\ mo_running s' = mo_running s && negb (key_stops (mo_escape_char s) (KCmd c)) /\
  sent_view (mo_sent s') = sent_view (mo_sent s) ++ key_items (is_controller s) (mo_escape_char s) (KCmd c).
Proof.
  intros Hc He. cbv zeta. unfold handle_escape, key_items, key_stops. rewrite srun_bind. cbn [sresult srun sget fst snd].
  destruct (c =? mo_escape_char s); [by rewrite app_nil_r, andb_false_r|]. cbv zeta. rewrite srun_bind. cbn [orb].
  set (s1 := srun _ s).
  assert (mon_frame s s1 /\ mo_sent s1 = mo_sent s /\
    mo_running s1 = mo_running s && negb (bool_decide (sm_mon_esc_kind c = SM_MON_ESC_QUIT))) as (Hf & Hs & Hr).
  { unfold s1. destruct (sm_mon_esc_kind c); cbn; by rewrite ?andb_true_r, ?andb_false_r. }
  clearbody s1. destruct (wire_message _) as [[msg note]|] eqn:Ew.
  - rewrite srun_bind. assert (sent_view (mo_sent s1 ++ [msg]) = sent_view (mo_sent s) ++ [inr msg]) as <-.
    { by rewrite Hs, sent_view_app, (wire_items _ _ _ Ew). }
    by destruct (streq note "").
  - destruct (bool_decide (_ = SM_MON_ESC_FORWARD)); cbn [andb];
      [|split_and!; [done|done|]; rewrite app_nil_r, <- Hs; reflexivity].
    rewrite srun_bind. cbn [sresult srun sget fst snd]. destruct Hf as [H1 H2].
    assert (is_controller s1 = is_controller s) as -> by (unfold is_controller; by rewrite H2).
    destruct (is_controller s); [|split_and!; [done|done|]; rewrite app_nil_r, <- Hs; reflexivity].
    split_and!; [done|done|].
    rewrite <- Hs. change [inl (mo_escape_char s); inl c] with (map (@inl Z json) [mo_escape_char s; c]).
    rewrite <- (send_items [mo_escape_char s; c]); [apply sent_view_app|].
    by apply Forall_cons_2, Forall_singleton.
Qed.

(** What a read leaves to be sent counts as sent. *)
Definition with_rest (ctl : bool) (s : mon_ctx) (out : bytes) : list item :=
  sent_view (mo_sent s) ++ (if ctl then map inl out else []).
Lemma stdin_keys_items esc ctl out l s :
  is_byte esc -> all_bytes out -> all_bytes l -> mo_escape_char s = esc -> is_controller s = ctl ->
  (mo_escape_mode s = true -> ctl = true -> out = []) ->
  let s' := srun (stdin_keys ctl out l) s in
  let out' := sresult (stdin_keys ctl out l) s in
  mon_frame s s' /\ all_bytes out' /\ mo_escape_mode s' = snd (keys esc (mo_escape_mode s) l) /\
  mo_running s' = mo_running s && negb (keys_stop esc (fst (keys esc (mo_escape_mode s) l))) /\
  with_rest ctl s' out' = with_rest ctl s out ++ keys_items ctl esc (fst (keys esc (mo_escape_mode s) l)).
Proof.
  intros Hesc. cbv zeta. revert out s. induction l as [|c l IH]; intros out s Ho Hl He Hk Hx.
  { cbn. by rewrite app_nil_r, andb_true_r. }
  apply Forall_cons in Hl as [Hc Hl]. cbn [stdin_keys keys]. rewrite srun_bind, sresult_bind.
  cbn [sresult srun sget fst snd id]. destruct (mo_escape_mode s) eqn:Em; [|rewrite He; destruct (Z.eqb_spec c esc) as [->|Hne]].
  - rewrite srun_bind, sresult_bind, srun_bind, sresult_bind.
    destruct (handle_escape_items c s Hc ltac:(by rewrite He)) as ([F1 F2] & Hru & Hv).
    set (s1 := srun (handle_escape c) s) in *. clearbody s1. set (s2 := srun (smod _) s1).
    destruct (IH out s2 Ho Hl) as (F & Hb & Hm & Hst & Hw);
      [by rewrite <- He, <- F1|unfold is_controller in *; by rewrite <- Hk, <- F2|done|].
    change (mo_escape_mode s2) with false in Hm, Hst, Hw. destruct (keys esc false l) as [ks m].
    split_and!; [|done|done| |].
    { split; [by rewrite (proj1 F)|by rewrite (proj2 F)]. }
    { rewrite Hst. change (mo_running s2) with (mo_running s1). rewrite Hru, He. unfold keys_stop. cbn [fst existsb].
      by rewrite negb_orb, andb_assoc. }
    rewrite Hw. unfold with_rest. change (mo_sent s2) with (mo_sent s1). rewrite Hv, He, Hk.
    unfold keys_items. cbn [fst map mjoin list_join]. rewrite <- !app_assoc. f_equal.
    destruct ctl; [by rewrite (Hx eq_refl eq_refl)|done].
  - cbv zeta. rewrite srun_bind, sresult_bind, srun_bind, sresult_bind.
    set (out2 := if negb _ && ctl then [] else out). set (s1 := srun (if negb _ && ctl then _ else _) s).
    assert (mon_frame s s1 /\ with_rest ctl s1 out2 = with_rest ctl s out /\ all_bytes out2 /\
            (ctl = true -> out2 = []) /\ mo_running s1 = mo_running s) as (Hf & Hv & Ho2 & Hx2 & Hru).
    { unfold s1, out2, with_rest. destruct (Z.eqb_spec (zlen out) 0) as [E%zlen_zero|]; cbn [negb andb].
      { subst out. by split_and!. }
      destruct ctl; [|by split_and!]. split_and!; [done| |constructor|done|done]. cbn [map]. rewrite app_nil_r.
      rewrite <- (send_items out) by done. apply sent_view_app. }
    clearbody s1 out2. set (s2 := srun (smod _) s1). destruct Hf as [F1 F2].
    destruct (IH out2 s2 Ho2 Hl) as (F & Hb & Hm & Hst & Hw);
      [by rewrite <- He, <- F1|unfold is_controller in *; by rewrite <- Hk, <- F2|done|].
    change (mo_escape_mode s2) with true in Hm, Hst, Hw. split_and!; [|done|done|by rewrite Hst, <- Hru|].
    { split; [by rewrite (proj1 F)|by rewrite (proj2 F)]. }
    rewrite Hw. f_equal. exact Hv.
  - destruct (IH (out ++ [c]) s) as (F & Hb & Hm & Hst & Hw); try done.
    { by apply Forall_app_2, Forall_singleton. }
    { by rewrite Em. }
    rewrite Em in Hm, Hst, Hw. destruct (keys esc false l) as [ks m]. split_and!; [done..|]. rewrite Hw. unfold with_rest.
    unfold keys_items. cbn [fst map mjoin list_join key_items]. destruct ctl; [|done].
    by rewrite map_app, <- !app_assoc.
Qed.

(** Reads of the keyboard and the bytes they gave. *)
Definition typed (r : rres) : bytes := match sys_read 256 r with RBytes b => b | _ => [] end.
Definition read_fails (r : rres) : bool := match sys_read 256 r with RBytes _ => false | _ => true end.
(** The loop reads as long as the program runs: the reads it took, and the
    state behind them. *)
Fixpoint mon_types (rs : list rres) (s : mon_ctx) : list rres * mon_ctx :=
  match rs with
  | [] => ([], s)
  | r :: rs' =>
      if mo_running s then let '(took, s') := mon_types rs' (srun (mon_handle_stdin r) s) in (r :: took, s')
      else ([], s)
  end.

Lemma handle_stdin_items r s :
  is_byte (mo_escape_char s) -> all_bytes (typed r) ->
  let s' := srun (mon_handle_stdin r) s in
  let ks := keys (mo_escape_char s) (mo_escape_mode s) (typed r) in
  mon_frame s s' /\ mo_escape_mode s' = snd ks /\
  mo_running s' = mo_running s && negb (read_fails r || keys_stop (mo_escape_char s) (fst ks)) /\
  sent_view (mo_sent s') = sent_view (mo_sent s) ++ keys_items (is_controller s) (mo_escape_char s) (fst ks).
Proof.
  intros He Hb. cbv zeta. unfold mon_handle_stdin, typed, read_fails in *.
  destruct (sys_read 256 r) as [b| | |]; try (cbn; by rewrite app_nil_r, andb_false_r).
  rewrite srun_bind. cbn [sresult srun sget fst snd]. rewrite srun_bind.
  destruct (stdin_keys_items (mo_escape_char s) (is_controller s) [] b s) as (F & Ho & Hm & Hst & Hw); try done.
  set (s1 := srun (stdin_keys _ _ _) s) in *. set (out := sresult (stdin_keys _ _ _) s) in *. clearbody s1 out.
  assert (with_rest (is_controller s) s [] = sent_view (mo_sent s)) as H0.
  { unfold with_rest. destruct (is_controller s); apply app_nil_r. }
  rewrite H0 in Hw. cbn [orb]. rewrite <- Hw. unfold with_rest. destruct (Z.eqb_spec (zlen out) 0) as [E%zlen_zero|].
  { subst out. split_and!; try done. destruct (is_controller s); cbn [map]; by rewrite app_nil_r. }
  destruct (is_controller s); [|by rewrite app_nil_r]. split_and!; try done.
  rewrite <- (send_items out) by done. apply sent_view_app.
Qed.

(** C30: what is typed reaches the device exactly.  The loop takes reads of the
    keyboard until one fails, ends the input or has the command to quit in it
    (the prefix twice or its [q]); however the input is cut into these reads,
    the bytes sent for the device and the requests made are those the whole of
    it stands for: for a controller every byte but the prefix key and the
    command behind it, in order, and the prefix with its byte when that is no
    command; for an observer no byte at all.  What follows the command to quit
    in its own read is still sent ([quit_then_sent]), what comes with later
    reads is not. *)
Theorem monitor_keys_exact rs s :
  is_byte (mo_escape_char s) -> Forall (fun r => all_bytes (typed r)) rs -> mo_running s = true ->
  let '(took, s') := mon_types rs s in
  let ks := keys (mo_escape_char s) (mo_escape_mode s) (mjoin (map typed took)) in
  mo_escape_mode s' = snd ks /\
  sent_view (mo_sent s') = sent_view (mo_sent s) ++ keys_items (is_controller s) (mo_escape_char s) (fst ks) /\
  mo_running s' = negb (existsb read_fails took || keys_stop (mo_escape_char s) (fst ks)) /\
  (exists later, rs = took ++ later /\ (mo_running s' = true -> later = [])) /\
  (forall n, (n < length took)%nat ->
     existsb read_fails (take n took) = false /\
     keys_stop (mo_escape_char s) (fst (keys (mo_escape_char s) (mo_escape_mode s) (mjoin (map typed (take n took))))) = false).
Proof.
  revert s. induction rs as [|r rs IH]; intros s He Hrs Hrun; cbn [mon_types].
  { cbn. rewrite app_nil_r. split_and!; [done|done|done|by exists []|]. intros n Hn. lia. }
  apply Forall_cons in Hrs as [Hr Hrs]. rewrite Hrun.
  destruct (handle_stdin_items r s He Hr) as ([F1 F2] & Hm & Hst & Hv). rewrite Hrun in Hst. cbn [andb] in Hst.
  set (s1 := srun (mon_handle_stdin r) s) in *. clearbody s1.
  assert (is_controller s1 = is_controller s) as Hctl by (unfold is_controller; by rewrite F2).
  set (esc := mo_escape_char s) in *.
  destruct (read_fails r || keys_stop esc (fst (keys esc (mo_escape_mode s) (typed r)))) eqn:Es; cbn [negb] in Hst.
  - assert (mon_types rs s1 = ([], s1)) as -> by (destruct rs; [done|]; cbn [mon_types]; by rewrite Hst).
    cbn [map mjoin list_join existsb]. rewrite app_nil_r, orb_false_r, Hst, Es.
    split_and!; [done|done|done|by exists rs|]. intros [|n] Hn; [done|simpl in Hn; lia].
  - apply orb_false_iff in Es as [Ef Eq].
    specialize (IH s1 ltac:(by rewrite F1) Hrs Hst). destruct (mon_types rs s1) as [took s'].
    cbn [map mjoin list_join]. rewrite keys_app. cbn [fst snd].
    cbv zeta in IH. rewrite F1, Hm, Hctl in IH. destruct IH as (H1 & H2 & H3 & (later & -> & H4) & H5).
    assert (forall ks, keys_stop esc (fst (keys esc (mo_escape_mode s) (typed r)) ++ ks) = keys_stop esc ks) as Hks.
    { intros ks. unfold keys_stop in *. rewrite existsb_app. by rewrite Eq. }
    split_and!; [done| | |by exists later|].
    + rewrite H2, Hv. unfold keys_items. by rewrite map_app, join_app, app_assoc.
    + rewrite H3. cbn [existsb]. by rewrite Ef, Hks.
    + intros [|n] Hn; [done|]. cbn [take existsb map mjoin list_join]. rewrite keys_app. cbn [fst]. rewrite Hks, Ef.
      apply H5. simpl in Hn. lia.
Qed.
End keyboard.

(** * The monitor at work

    The witnesses of the theorems about the monitor. *)

#[local] Open Scope string_scope.
#[local] Open Scope list_scope.
#[local] Open Scope Z_scope.

#[local] Existing Instance cjson.
#[local] Instance demo_mon : MonEnv := {|
  me_token := None; me_clock _ := 0; me_malloc _ := true; me_realloc _ := true |}.

(** A prompt in the middle of a line, an event, and the end of the line. *)
Definition demo_msgs : list json :=
  [sm_msg_output (bytes_of_string "boot" ) 0; sm_msg_suspended "/dev/ttyUSB0" "cli";
   sm_msg_output (bytes_of_string "ing" ++ [13]) 0; sm_msg_output [10; 104; 105; 10] 0].
Definition demo_bytes : bytes := wire_lines demo_msgs.
Definition demo_reads : list rres := [RBytes (take 30 demo_bytes); RBytes (drop 30 demo_bytes)].
Definition demo_term : mon_ctx := {| (mon_start true None None) with mo_map_lf := true |}.


(** [ls], the prefix and [t] for takeover, [x] typed across two reads; then the
    prefix with an unknown key. *)
Definition demo_keys : list rres :=
  [RBytes (bytes_of_string "ls" ++ [29]); RBytes (bytes_of_string "tx" ++ [29; 120])].
Lemma monitor_keys_exact_witness :
  let s := snd (mon_types demo_keys demo_term) in
  mo_escape_mode s = false /\ mo_running s = true /\
  sent_view (mo_sent s) =
    [inl 108; inl 115; inr (sm_msg_takeover (Some "mon-takeover")); inl 120; inl 29; inl 120].
Proof.
  pose proof (monitor_keys_exact demo_keys demo_term) as H.
  assert (fst (mon_types demo_keys demo_term) = demo_keys) as Et by (by vm_compute).
  destruct (mon_types demo_keys demo_term) as [took s]. cbn [fst snd] in *. subst took.
  destruct H as (H1 & H2 & H3 & _).
  - vm_compute. split; congruence.
  - apply (bool_decide_unpack (Forall _ _)). vm_compute. exact I.
  - done.
  - cbv zeta. rewrite H1, H2, H3. vm_compute. done.
Defined.

(** What follows the command to quit in the same read is still sent, the next
    read is not taken. *)
Example quit_then_sent :
  let '(took, s) := mon_types [RBytes ([29; 113] ++ bytes_of_string "rm"); RBytes [33]] demo_term in
  length took = 1%nat /\ mo_running s = false /\ sent_view (mo_sent s) = [inl 114; inl 109].
Proof. vm_compute. done. Qed.
