(* ===== verification/BrokerInfo.v ===== *)
(** * What a broker holds ([src/broker_info.c])

    Asking the brokers of this host over their sockets: the probe, the search
    for the broker of a device, stopping one, and how it is all shown.  What
    the sockets, the clock and the signals do is a script per question
    ([ProbeEnv]); files and connections are those of [HostEnv]. *)
From stdpp Require Import pretty.
From S2P Require Import Prelude Cstr Codecs Json Protocol BootStage McpText Effects Client BrokerState.
From S2P Require Import McpResults BrokerHandlers McpConn HostPaths.

#[local] Open Scope string_scope.
#[local] Open Scope list_scope.
#[local] Open Scope Z_scope.
#[local] Open Scope json_scope.

(** ** State *)

(** [bi_names] are the names kept with their pids. *)
Record sm_broker_info := mk_info {
  bi_socket : string; bi_reachable : bool; bi_board : string; bi_role : string;
  bi_link_type : string; bi_endpoint : string; bi_baud : Z; bi_connected : bool; bi_suspended : bool;
  bi_client_count : Z; bi_pid : Z; bi_names : list (string * Z); bi_names_more : Z;
  bi_by_id : string; bi_by_path : string; bi_strength : string }.

Definition info_zero (socket_path : string) : sm_broker_info :=
  mk_info (snprintf_s 108 socket_path) false "" "" "?" "?" 0 false false 0 (-1) [] 0 "" "" "".

Definition PROBE_NAME : string := "smolmux-probe".
Definition PROBE_BUF : Z := 8192.

(** ** The status *)

(** The probe itself is one of the clients. *)
Definition count_client (out : sm_broker_info) (ci : json) : sm_broker_info :=
  let nm := sm_json_get_string ci "name" in
  if bool_decide (nm = Some PROBE_NAME) then out
  else
    let out := {| out with bi_client_count := bi_client_count out + 1 |} in
    if (length (bi_names out) <? 32)%nat
    then {| out with bi_names := bi_names out ++ [(snprintf_s 40 (default "?" nm), sm_json_get_int ci "pid" 0)] |}
    else {| out with bi_names_more := bi_names_more out + 1 |}.

Definition parse_status (out : sm_broker_info) (resp : json) : sm_broker_info :=
  let str n key def := snprintf_s n (default def (sm_json_get_string resp key)) in
  let link_type := str 16%nat "link_type" "?" in
  let out := {| out with
    bi_board := str 64%nat "board" ""; bi_role := str 32%nat "role" "";
    bi_link_type := link_type;
    bi_endpoint := str 160%nat (if streq link_type "gdb" then "target" else "port") "?";
    bi_baud := (if streq link_type "uart" then sm_json_get_int resp "baud" 0 else 0);
    bi_connected := sm_json_get_bool resp "connected" false;
    bi_suspended := sm_json_get_bool resp "suspended" false;
    bi_client_count := 0; bi_names := []; bi_names_more := 0 |} in
  let out := match get_item resp "clients" with
             | Some (JArr l) => fold_left count_client l out | _ => out end in
  {| out with
    bi_by_id := str 256%nat "identity_by_id" ""; bi_by_path := str 256%nat "identity_by_path" "";
    bi_strength := str 16%nat "identity_strength" "n/a" |}.

(** ** The probe *)

(** What a turn of the waiting loop meets: the deadline, what [poll] says, and
    for a readable socket how many bytes the kernel has. *)
Inductive probe_event := PDeadline | PInterrupted | PPollFailed | PHangup | PReadable (n : Z).
Record probe_script := mk_script {
  ps_peer : option Z; ps_hello : list wres; ps_status : list wres;
  ps_incoming : bytes; ps_events : list probe_event }.

Section probe.
Context `{JsonText}.

(** The lines of the buffer up to the first status: it, and what is kept. *)
Fixpoint probe_lines (fuel : nat) (buf : bytes) : option json * bytes :=
  match fuel with
  | O => (None, buf)
  | S f =>
      match split_line buf with
      | None => (None, buf)
      | Some (line, rest) =>
          let m := sm_msg_decode line in
          match m_root m, m_type m with
          | Some root, SM_MSG_STATUS_RESPONSE => (Some root, rest)
          | _, _ => probe_lines f rest
          end
      end
  end.

(** A full buffer leaves room for no byte, which reads as the end. *)
Fixpoint probe_loop (events : list probe_event) (buf incoming : bytes) : option json :=
  match events with
  | PInterrupted :: events' => probe_loop events' buf incoming
  | PReadable n :: events' =>
      let got := ztake (Z.min n (PROBE_BUF - zlen buf - 1)) incoming in
      if zlen got =? 0 then None
      else
        let buf := buf ++ got in
        match probe_lines (length buf) buf with
        | (Some root, _) => Some root
        | (None, rest) => probe_loop events' rest (zdrop (zlen got) incoming)
        end
  | _ => None
  end.

Context `{HostEnv}.

(** None when the socket cannot be reached or asked; the other fields are
    filled in as far as it got. *)
Definition sm_broker_probe (s : probe_script) (socket_path : string) : bool * sm_broker_info :=
  let out := info_zero socket_path in
  if negb (sm_connect_unix socket_path) then (false, out)
  else
    let out := match ps_peer s with Some pid => {| out with bi_pid := pid |} | None => out end in
    let hello := sm_msg_hello (he_env "SMOLMUX_AUTH_TOKEN") (Some PROBE_NAME) (Some "observer") in
    if fst (sm_write_all (sm_msg_encode hello) (ps_hello s)) <? 0 then (false, out)
    else if fst (sm_write_all (sm_msg_encode (sm_msg_status (Some "probe"))) (ps_status s)) <? 0 then (false, out)
    else
      match probe_loop (ps_events s) [] (ps_incoming s) with
      | Some root => let out := parse_status out root in (true, {| out with bi_reachable := true |})
      | None => (false, out)
      end.
End probe.

(** The script of the [k]-th question asked in a run of a program. *)
Class ProbeEnv := { pe_script : Z -> string -> probe_script }.

Section brokers.
Context {J : JsonText} {HE : HostEnv} {PE : ProbeEnv}.

(** From question [k] on; the number of sockets found comes with the answers. *)
Definition sm_broker_discover (k : Z) (max : nat) : list sm_broker_info * nat :=
  let '(socks, n) := sm_discover_all_sockets 128 in
  let probe_n := Nat.min 128 (Nat.min n max) in
  (imap (fun i s => snd (sm_broker_probe (pe_script (k + Z.of_nat i) s) s)) (take probe_n socks), n).

(** A vanished device keeps its name. *)
Definition normalize_path (path : string) : string := snprintf_s 4096 (default path (he_realpath path)).

(** The broker of a device among [socks], asked from question [k] on. *)
Fixpoint find_endpoint (k : Z) (want : string) (socks : list string) : option sm_broker_info :=
  match socks with
  | [] => None
  | s :: socks' =>
      let '(ok, info) := sm_broker_probe (pe_script k s) s in
      if ok && bi_reachable info && negb (streq (bi_endpoint info) "") && streq want (normalize_path (bi_endpoint info))
      then Some info
      else find_endpoint (k + 1) want socks'
  end.
Definition sm_find_broker_for_endpoint (k : Z) (port : string) : option sm_broker_info :=
  find_endpoint k (normalize_path port) (take 32 (fst (sm_discover_all_sockets 32))).

(** *** Stopping a broker *)

(** Whether the socket is gone, asked every 50 ms. *)
Fixpoint wait_gone (rounds : nat) (gone : list bool) : bool :=
  match rounds, gone with
  | S r, g :: gone' => if g then true else wait_gone r gone'
  | _, _ => false
  end.

(** [kill_error] is what [kill] fails with.  The result: the pid signalled,
    and what went wrong, if anything. *)
Definition sm_broker_stop_by_socket (k : Z) (socket_path : string) (timeout_ms : Z)
    (kill_error : Z -> option string) (gone : list bool) : option Z * option string :=
  let timeout_ms := if timeout_ms <=? 0 then 5000 else timeout_ms in
  let '(ok, info) := sm_broker_probe (pe_script k socket_path) socket_path in
  if negb (ok && bi_reachable info) then
    (None, Some match he_stat socket_path with
                | Some _ => "broker at " +:+ socket_path +:+ " is not responding (stale socket?)"
                | None => "no broker socket at " +:+ socket_path end)
  else if bi_pid info <=? 0 then (None, Some ("broker at " +:+ socket_path +:+ " did not reveal its pid"))
  else match kill_error (bi_pid info) with
       | Some e => (Some (bi_pid info), Some ("SIGTERM pid " +:+ pretty (bi_pid info) +:+ ": " +:+ e))
       | None =>
           if wait_gone (Z.to_nat ((timeout_ms + 49) / 50)) gone then (Some (bi_pid info), None)
           else (Some (bi_pid info), Some ("broker pid " +:+ pretty (bi_pid info) +:+ " did not exit within " +:+
                  pretty timeout_ms +:+ " ms"))
       end.
End brokers.

(** ** Showing *)

Definition sm_broker_info_to_json (info : sm_broker_info) : json :=
  let o := JObj [] |> add_string "socket" (bi_socket info) |> add_bool "reachable" (bi_reachable info) in
  if negb (bi_reachable info) then o else
  let o := o |> add_string "board" (bi_board info) |> add_string "role" (bi_role info)
    |> add_string "link_type" (bi_link_type info) |> add_string "endpoint" (bi_endpoint info)
    |> add_int "baud" (bi_baud info) |> add_bool "connected" (bi_connected info)
    |> add_bool "suspended" (bi_suspended info) |> add_int "clients" (bi_client_count info) in
  let o := if 0 <? bi_pid info then o |> add_int "pid" (bi_pid info) else o in
  let o := o |> add_item "client_names" (JArr (map (fun c => JStr (fst c)) (bi_names info))) in
  let o := if 0 <? bi_names_more info then o |> add_int "client_names_more" (bi_names_more info) else o in
  o |> add_string "identity_by_id" (bi_by_id info) |> add_string "identity_by_path" (bi_by_path info)
    |> add_string "identity" (if streq (bi_strength info) "" then "n/a" else bi_strength info).

(** ["%-<n>s"]. *)
Definition fmt_left (n : nat) (s : string) : string :=
  s +:+ string_of_bytes (replicate (n - String.length s) 32).
Definition utf8 (l : bytes) : string := string_of_bytes l.
Definition times_sign : string := utf8 [195; 151].
Definition ellipsis : string := utf8 [226; 128; 166].

Definition who_tag (info : sm_broker_info) : string :=
  match bi_names info with
  | [] => ""
  | (first, _) :: others =>
      let total := Z.of_nat (length (bi_names info)) + bi_names_more info in
      snprintf_s 72
        (if forallb (fun c => streq (fst c) first) others && (1 <? total)
         then "  [" +:+ first +:+ times_sign +:+ pretty total +:+ "]"
         else if (length (bi_names info) =? 1)%nat then "  [" +:+ first +:+ "]"
         else "  [" +:+ first +:+ "," +:+ ellipsis +:+ "]")
  end.

Definition sm_broker_info_format (info : sm_broker_info) (len : nat) : string :=
  if negb (bi_reachable info) then snprintf_s len (fmt_left 40 (bi_socket info) +:+ "  (unreachable)")
  else
    let uart := streq (bi_link_type info) "uart" in
    let label := if uart then "UART" else if streq (bi_link_type info) "gdb" then "GDB " else "?   " in
    let endpoint := snprintf_s 192
      (if uart && (0 <? bi_baud info) then bi_endpoint info +:+ " @" +:+ pretty (bi_baud info) else bi_endpoint info) in
    let board := if streq (bi_board info) "" then "" else
      snprintf_s 128 (if streq (bi_role info) "" then "  board=" +:+ bi_board info
                      else "  board=" +:+ bi_board info +:+ "/" +:+ bi_role info) in
    let idtag := if streq (bi_strength info) "WEAK" then "  WEAK"
                 else if streq (bi_strength info) "STRONG" then "  STRONG" else "" in
    snprintf_s len
      (fmt_left 40 (bi_socket info) +:+ "  " +:+ label +:+ "  " +:+ fmt_left 26 endpoint +:+ "  " +:+
       (if bi_connected info then "up" else "down") +:+ (if bi_suspended info then " (suspended)" else "") +:+
       "  " +:+ pretty (bi_client_count info) +:+ " client" +:+ (if bi_client_count info =? 1 then "" else "s") +:+
       board +:+ idtag +:+ who_tag info).

Definition sm_identity_ambiguous_fprint (board device reason : string) : string :=
  "error: identity_ambiguous" +:+ nl +:+ "  board=" +:+ board +:+ " device=" +:+ device +:+ nl +:+
  "  " +:+ reason +:+ nl +:+ "  smolmux --list-ports" +:+ nl +:+
  "  smolmux-cli --json board up <manifest>   # candidate list" +:+ nl.

(** ** Facts: the probe *)

Section probe_facts.
Context `{JsonText}.

(** A line that is a status, and what it says; lines that are not. *)
Definition status_line (line : bytes) (root : json) : Prop :=
  m_root (sm_msg_decode line) = Some root /\ m_type (sm_msg_decode line) = SM_MSG_STATUS_RESPONSE.
Definition other_line (line : bytes) : Prop :=
  m_root (sm_msg_decode line) = None \/ m_type (sm_msg_decode line) <> SM_MSG_STATUS_RESPONSE.
(** What fits the buffer. *)
Definition short_line (line : bytes) : Prop := ~ In 10 line /\ zlen line <= PROBE_BUF - 2.

Fixpoint wire (ls : list bytes) : bytes :=
  match ls with [] => [] | l :: ls' => l ++ 10 :: wire ls' end.

Lemma line_unique (l1 l2 r1 r2 : bytes) : ~ In 10 l1 -> ~ In 10 l2 -> l1 ++ 10 :: r1 = l2 ++ 10 :: r2 -> l1 = l2 /\ r1 = r2.
Proof.
  revert l2. induction l1 as [|c l1 IH]; intros [|d l2] H1 H2; simpl in *.
  - by intros [= ->].
  - intros [= <- _]. tauto.
  - intros [= -> _]. tauto.
  - intros [= <- E]. by destruct (IH l2 ltac:(tauto) ltac:(tauto) E) as [-> ->].
Qed.

Lemma split_line_no_newline buf line rest : split_line buf = Some (line, rest) -> ~ In 10 line.
Proof.
  revert line rest. induction buf as [|c buf IH]; intros line rest; simpl; [done|].
  destruct (Z.eqb_spec c 10); [by intros [= <- <-] []|].
  destruct (split_line buf) as [[l r]|]; [|done]. intros [= <- <-] [|Hin]; [done|]. by eapply IH.
Qed.

Section answer.
Context (st : bytes) (root : json) (tail : bytes).
Context (Hst : status_line st root) (Hshort : short_line st).

Lemma probe_lines_prefix fuel ls p r :
  Forall (fun l => other_line l /\ short_line l) ls -> (length p <= fuel)%nat ->
  p ++ r = wire (ls ++ [st]) ++ tail ->
  (exists rest, probe_lines fuel p = (Some root, rest)) \/
  (exists ls' p', probe_lines fuel p = (None, p') /\ ~ In 10 p' /\ p' ++ r = wire (ls' ++ [st]) ++ tail /\
     Forall (fun l => other_line l /\ short_line l) ls').
Proof using Hst Hshort.
  revert ls p. induction fuel as [|f IH]; intros ls p Hls Hf E.
  { destruct p; [|simpl in Hf; lia]. right. exists ls, []. split_and!; [done|by intros []|done|done]. }
  cbn [probe_lines]. destruct (split_line p) as [[line rest]|] eqn:Es.
  2:{ right. exists ls, p. apply split_line_none in Es. done. }
  assert (~ In 10 line) as Hline by (by eapply split_line_no_newline).
  apply split_line_spec in Es as [-> _]. rewrite <- app_assoc in E. cbn [app] in E.
  destruct Hls as [|l ls [Ho Hs] Hls]; cbn [app wire] in E; rewrite <- app_assoc in E; cbn [app] in E;
    (apply line_unique in E as [-> E]; [|done|by apply Hshort || by apply Hs]).
  - left. destruct Hst as [-> ->]. by eexists.
  - rewrite length_app in Hf. simpl in Hf.
    assert (match m_root (sm_msg_decode l), m_type (sm_msg_decode l) with
            | Some root, SM_MSG_STATUS_RESPONSE => (Some root, rest)
            | _, _ => probe_lines f rest end = probe_lines f rest) as ->.
    { destruct Ho as [-> | Ho]; [done|]. destruct (m_root _); [|done]. by destruct (m_type (sm_msg_decode l)). }
    apply (IH ls rest Hls); [lia|done].
Qed.

Lemma probe_loop_finds ns : forall ls buf incoming,
  Forall (fun l => other_line l /\ short_line l) ls -> Forall (fun n => 1 <= n) ns ->
  ~ In 10 buf -> buf ++ incoming = wire (ls ++ [st]) ++ tail -> (length incoming <= length ns)%nat ->
  probe_loop (map PReadable ns) buf incoming = Some root.
Proof using Hst Hshort.
  induction ns as [|n ns IH]; intros ls buf incoming Hls Hns Hbuf E Hlen.
  - exfalso. destruct incoming; [|simpl in Hlen; lia]. rewrite app_nil_r in E. subst. apply Hbuf.
    apply in_app_iff. left. destruct ls; simpl; apply in_app_iff; right; by left.
  - inversion Hns as [|? ? Hn Hns']. subst. cbn [map probe_loop].
    assert (exists l0 r0, wire (ls ++ [st]) ++ tail = l0 ++ 10 :: r0 /\ short_line l0) as (l0 & r0 & Ew & Hn0 & Hl0).
    { destruct Hls as [|l ls' [_ Hs] _]; cbn [app wire]; rewrite <- app_assoc; cbn [app]; by eexists _, _. }
    assert (zlen buf <= zlen l0 /\ incoming <> []) as [Hb Hi].
    { rewrite Ew in E. clear -E Hbuf. revert l0 E. induction buf as [|c buf IHb]; intros [|d l0]; simpl; intros E.
      - rewrite E. split; [zlia|done].
      - rewrite E. split; [zlia|done].
      - injection E as -> _. exfalso. apply Hbuf. by left.
      - injection E as -> E. destruct (IHb ltac:(intros ?; apply Hbuf; by right) l0 E). split; [zlia|done]. }
    unfold PROBE_BUF in *. set (got := ztake _ incoming).
    assert (0 < zlen got) as Hgot.
    { unfold got. rewrite zlen_ztake. destruct incoming; [done|]. rewrite zlen_cons. pose proof (zlen_nonneg incoming). lia. }
    destruct (Z.eqb_spec (zlen got) 0); [lia|].
    assert (incoming = got ++ zdrop (zlen got) incoming) as Ei.
    { rewrite <- (ztake_zdrop (Z.min n (8192 - zlen buf - 1)) incoming) at 1. fold got. f_equal.
      unfold got. rewrite zlen_ztake. unfold zdrop. destruct (decide (Z.min n (8192 - zlen buf - 1) <= zlen incoming)).
      - f_equal. pose proof (zlen_nonneg incoming). lia.
      - rewrite !drop_ge; [done|unfold zlen in *; lia..]. }
    rewrite Ei, app_assoc in E.
    destruct (probe_lines_prefix (length (buf ++ got)) ls (buf ++ got) (zdrop (zlen got) incoming) Hls ltac:(lia) E)
      as [(rest & ->)|(ls' & p' & -> & Hp' & E' & Hls')]; [done|].
    apply (IH ls'); try done. apply (f_equal length) in Ei. rewrite length_app in Ei. unfold zlen in Hgot. simpl in Hlen. lia.
Qed.
End answer.

(** More than the buffer holds without a line end: the next read has no room,
    and counts as the end of the connection. *)
Lemma probe_loop_full events : forall buf incoming,
  ~ In 10 (ztake (PROBE_BUF - 1) (buf ++ incoming)) -> zlen buf <= PROBE_BUF - 1 -> PROBE_BUF - 1 <= zlen (buf ++ incoming) ->
  probe_loop events buf incoming = None.
Proof.
  unfold PROBE_BUF. induction events as [|e events IH]; intros buf incoming Hn Hb Hl; [done|].
  destruct e as [| | | |n]; try done; cbn [probe_loop]; [by apply IH|]. unfold PROBE_BUF in *.
  set (got := ztake _ incoming). destruct (Z.eqb_spec (zlen got) 0); [done|].
  assert (zlen got <= 8191 - zlen buf /\ 0 <= Z.min n (8192 - zlen buf - 1)) as [Hg Hm].
  { unfold got in *. rewrite zlen_ztake in *. lia. }
  assert (incoming = got ++ zdrop (zlen got) incoming) as Ei.
  { unfold got. rewrite zlen_ztake. destruct (decide (Z.min n (8192 - zlen buf - 1) <= zlen incoming)).
    - replace (Z.max 0 _) with (Z.min n (8192 - zlen buf - 1)) by lia. by rewrite ztake_zdrop.
    - rewrite (ztake_all _ incoming), zdrop_all, app_nil_r by lia. done. }
  assert (~ In 10 (buf ++ got)) as Hng.
  { intros Hin. apply Hn. rewrite Ei, app_assoc, ztake_app_ge; [apply in_app_iff; by left|]. rewrite zlen_app. lia. }
  assert (probe_lines (length (buf ++ got)) (buf ++ got) = (None, buf ++ got)) as ->.
  { destruct (length (buf ++ got)); [done|]. cbn [probe_lines]. by apply split_line_none in Hng as ->. }
  apply IH; [by rewrite <- app_assoc, <- Ei|rewrite zlen_app; lia|by rewrite <- app_assoc, <- Ei].
Qed.
End probe_facts.

(** ** Facts: what the status says *)

Definition client_entry (ci : json) : string * Z :=
  (snprintf_s 40 (default "?" (sm_json_get_string ci "name")), sm_json_get_int ci "pid" 0).
Definition not_probe (ci : json) : bool := negb (bool_decide (sm_json_get_string ci "name" = Some PROBE_NAME)).

(** The clients but for the probe: all are counted, the first 32 kept. *)
Lemma count_clients l out :
  bi_client_count out = 0 -> bi_names out = [] -> bi_names_more out = 0 ->
  let others := List.filter not_probe l in
  fold_left count_client l out =
  {| out with
    bi_client_count := Z.of_nat (length others); bi_names := take 32 (map client_entry others);
    bi_names_more := Z.of_nat (length others - 32) |}.
Proof.
  intros Hc Hn Hm. induction l as [|x l IH] using rev_ind.
  { destruct out. simpl in *. by subst. }
  cbv zeta in *. rewrite fold_left_app, IH, List.filter_app. cbn [fold_left List.filter].
  set (others := List.filter not_probe l). unfold count_client, not_probe.
  case_bool_decide as E; cbn [negb]; [by rewrite app_nil_r|]. rewrite length_app, map_app. cbn [length map].
  destruct out. simpl. rewrite length_take, length_map.
  destruct (Nat.ltb_spec (Nat.min 32 (length others)) 32); f_equal; try lia.
  - rewrite !take_ge by (rewrite ?length_app, length_map; simpl; lia). done.
  - rewrite take_app_le by (rewrite length_map; lia). done.
Qed.

Lemma parse_status_eq out resp l :
  get_item resp "clients" = Some (JArr l) ->
  let str n key def := snprintf_s n (default def (sm_json_get_string resp key)) in
  let link_type := str 16%nat "link_type" "?" in
  let others := List.filter not_probe l in
  parse_status out resp =
  mk_info (bi_socket out) (bi_reachable out) (str 64%nat "board" "") (str 32%nat "role" "") link_type
    (str 160%nat (if streq link_type "gdb" then "target" else "port") "?")
    (if streq link_type "uart" then sm_json_get_int resp "baud" 0 else 0)
    (sm_json_get_bool resp "connected" false) (sm_json_get_bool resp "suspended" false)
    (Z.of_nat (length others)) (bi_pid out) (take 32 (map client_entry others)) (Z.of_nat (length others - 32))
    (str 256%nat "identity_by_id" "") (str 256%nat "identity_by_path" "") (str 16%nat "identity_strength" "n/a").
Proof. intros E. unfold parse_status. rewrite E. by rewrite count_clients. Qed.

Lemma merge_keeps status resp key :
  (exists l, resp = JObj l) ->
  (exists l, merge_link_status status resp = JObj l) /\
  get_item (merge_link_status status resp) key =
  match get_item resp key with Some v => Some v | None => assoc_first key status end.
Proof.
  revert resp. induction status as [|[k v] status IH]; intros resp [l ->].
  { simpl. split; [by eexists|]. by destruct (assoc_first key l). }
  unfold merge_link_status in *. cbn [fold_left assoc_first].
  change (get_item (JObj l) k) with (assoc_first k l).
  destruct (assoc_first k l) eqn:Ek.
  - destruct (IH (JObj l) ltac:(by eexists)) as [H1 H2]. split; [done|]. rewrite H2. simpl get_item.
    destruct (assoc_first key l) eqn:Ekey; [done|]. destruct (streq k key) eqn:Es; [|done].
    apply streq_spec in Es as ->. congruence.
  - destruct (IH (add_item k v (JObj l)) ltac:(by eexists)) as [H1 H2]. split; [done|]. rewrite H2. simpl get_item.
    rewrite assoc_first_app. simpl. destruct (assoc_first key l); [done|]. by destruct (streq k key).
Qed.

Lemma add_keeps k v x obj key : get_item obj key = Some x -> get_item (add_item k v obj) key = Some x.
Proof. destruct obj as [| | | | |l]; try done. simpl. intros E. by rewrite assoc_first_app, E. Qed.

Lemma add_string_opt_keeps k s x obj key :
  get_item obj key = Some x -> get_item (add_string_opt k s obj) key = Some x.
Proof. destruct s; [apply add_keeps|done]. Qed.

(** The members the broker itself puts into its status. *)
Definition own_members (b : sm_broker) (id : option string) (connected : bool) (mono : double) : list (string * json) :=
  let age := (mono - lf_last_rx (b_link b)) * 1000 in
  [("type", JStr "status_response"); ("id", JStr (default "" id)); ("port", JStr (b_port b));
   ("baud", JNum (dbl_of_int (b_baudrate b))); ("connected", JBool connected);
   ("suspended", JBool (lf_suspended (b_link b)));
   ("clients", JArr (map client_status (b_clients b)));
   ("takeover_client",
    match b_takeover b with
    | Some k => match find_key k (b_clients b) with Some c => JStr (cl_name c) | None => JNull end
    | None => JNull
    end);
   ("board", JStr (b_board b)); ("role", JStr (b_role b)); ("link_up_ts", JNum (lf_up_ts (b_link b)));
   ("last_rx_age_ms", JNum (if age <? 0 then 0 else age));
   ("bytes_rx_since_link_up", JNum (dbl_of_int (lf_bytes_rx (b_link b))));
   ("identity_weak", JBool (id_weak (b_identity b))); ("identity_strength", JStr (identity_strength b));
   ("identity_by_id", JStr (id_by_id (b_identity b))); ("identity_by_path", JStr (id_by_path (b_identity b)))].

Lemma status_members_item b id connected status mono real key v :
  match assoc_first key (own_members b id connected mono) with Some v => Some v | None => assoc_first key status end = Some v ->
  get_item (status_members b id connected status mono real) key = Some v.
Proof.
  intros E. unfold status_members.
  match goal with |- context [merge_link_status status ?r] => change r with (JObj (own_members b id connected mono)) end.
  destruct (merge_keeps status (JObj (own_members b id connected mono)) key ltac:(by eexists)) as [_ Hm].
  change (get_item (JObj ?l) key) with (assoc_first key l) in Hm. rewrite E in Hm.
  destruct (bt_count (b_boot b) =? 0)%nat; repeat first [exact Hm|apply add_string_opt_keeps|apply add_keeps].
Qed.

Lemma client_status_name c : sm_json_get_string (client_status c) "name" = Some (cl_name c).
Proof. unfold client_status. by destruct (0 <? cl_peer_pid c). Qed.

Lemma clients_not_probe l :
  List.filter not_probe (map client_status l) =
  map client_status (List.filter (fun c => negb (streq (cl_name c) PROBE_NAME)) l).
Proof.
  induction l as [|c l IH]; [done|]. cbn [map List.filter]. rewrite IH. unfold not_probe at 1. rewrite client_status_name.
  assert (bool_decide (Some (cl_name c) = Some PROBE_NAME) = streq (cl_name c) PROBE_NAME) as ->.
  { destruct (streq (cl_name c) PROBE_NAME) eqn:E.
    - apply bool_decide_eq_true. by apply streq_spec in E as ->.
    - apply bool_decide_eq_false. intros [= E']. apply streq_spec in E'. congruence. }
  by destruct (streq (cl_name c) PROBE_NAME).
Qed.

(** ** Properties *)

Section properties.
Context `{JsonText}.

(** The probe finds the status in what a broker sends, however the kernel
    cuts it: any messages first (a welcome, output, link events, lines that
    are no messages), then the status, whatever follows; lines may be as long
    as the buffer less two, and every read gives at least one byte. *)
Theorem probe_any_cut ls st root tail ns :
  Forall (fun l => other_line l /\ short_line l) ls -> status_line st root -> short_line st ->
  let incoming := wire (ls ++ [st]) ++ tail in
  Forall (fun n => 1 <= n) ns -> (length incoming <= length ns)%nat ->
  probe_loop (map PReadable ns) [] incoming = Some root.
Proof.
  intros Hls Hst Hs incoming Hn Hl. apply (probe_loop_finds st root tail Hst Hs ns ls); try done. by intros [].
Qed.

(** A line of more than 8190 bytes, such as the status of a broker with
    many clients, makes the broker unreachable to the probe, whatever is
    read when: the buffer fills up, the next [read] is asked for no byte, and
    its 0 is taken for the end of the connection. *)
Theorem probe_long_line events incoming :
  PROBE_BUF - 1 <= zlen incoming -> ~ In 10 (ztake (PROBE_BUF - 1) incoming) ->
  probe_loop events [] incoming = None.
Proof. intros Hl Hn. by apply probe_loop_full. Qed.
End properties.

(** C12: what the probe reports of a broker is what the broker is: the status that
    a broker over a UART builds, at a rate that fits an [int], parsed by the
    probe, gives its board and role, the device and the rate, its state, the
    serial identity, and its clients without the probe: all of them counted, the
    first 32 by name and pid, the rest as a number. *)
Theorem probe_reports_broker out b id connected status mono real :
  assoc_first "link_type" status = Some (JStr "uart") ->
  INT_MIN <= b_baudrate b <= INT_MAX ->
  let info := parse_status out (status_members b id connected status mono real) in
  let others := List.filter (fun c => negb (streq (cl_name c) PROBE_NAME)) (b_clients b) in
  bi_board info = snprintf_s 64 (b_board b) /\ bi_role info = snprintf_s 32 (b_role b) /\
  bi_link_type info = "uart" /\ bi_endpoint info = snprintf_s 160 (b_port b) /\ bi_baud info = b_baudrate b /\
  bi_connected info = connected /\ bi_suspended info = lf_suspended (b_link b) /\
  bi_by_id info = snprintf_s 256 (id_by_id (b_identity b)) /\
  bi_by_path info = snprintf_s 256 (id_by_path (b_identity b)) /\
  bi_strength info = identity_strength b /\
  bi_client_count info = Z.of_nat (length others) /\
  bi_names_more info = Z.of_nat (length others - 32) /\
  map fst (bi_names info) = take 32 (map (fun c => snprintf_s 40 (cl_name c)) others).
Proof.
  intros Hlt Hbaud info others.
  pose proof (status_members_item b id connected status mono real) as Hi. cbv zeta in Hi.
  unfold info. clear info. set (resp := status_members b id connected status mono real) in *. clearbody resp.
  assert (forall key s, get_item resp key = Some (JStr s) -> sm_json_get_string resp key = Some s) as Hstr.
  { intros key s E. unfold sm_json_get_string. by rewrite E. }
  assert (forall key x, get_item resp key = Some (JBool x) -> sm_json_get_bool resp key false = x) as Hbool.
  { intros key x E. unfold sm_json_get_bool. by rewrite E. }
  rewrite (parse_status_eq _ _ (map client_status (b_clients b))) by by apply Hi.
  rewrite (Hstr "link_type" "uart") by by apply Hi.
  change (snprintf_s 16 (default "?" (Some "uart"))) with "uart". cbv zeta.
  change (streq "uart" "gdb") with false. change (streq "uart" "uart") with true. cbv iota.
  cbn [bi_board bi_role bi_link_type bi_endpoint bi_baud bi_connected bi_suspended bi_by_id bi_by_path bi_strength
    bi_client_count bi_names_more bi_names].
  rewrite (Hstr "board" (b_board b)), (Hstr "role" (b_role b)), (Hstr "port" (b_port b)) by by apply Hi.
  rewrite (Hstr "identity_by_id" (id_by_id (b_identity b))), (Hstr "identity_by_path" (id_by_path (b_identity b))),
    (Hstr "identity_strength" (identity_strength b)) by by apply Hi.
  rewrite (Hbool "connected" connected), (Hbool "suspended" (lf_suspended (b_link b))) by by apply Hi.
  unfold sm_json_get_int. rewrite (Hi "baud" (JNum (dbl_of_int (b_baudrate b))) eq_refl), valueint_of_int by done.
  rewrite clients_not_probe. fold others. rewrite !length_map.
  split_and!; try done.
  - unfold identity_strength. repeat case_match; done.
  - rewrite <- firstn_map, !map_map. f_equal. apply map_ext. intros c. unfold client_entry. simpl.
    by rewrite client_status_name.
Qed.

Section stopping.
Context {J : JsonText} {HE : HostEnv} {PE : ProbeEnv}.

Lemma probe_reachable s path info :
  sm_broker_probe s path = (true, info) -> bi_reachable info = true /\ bi_pid info = default (-1) (ps_peer s).
Proof.
  unfold sm_broker_probe. destruct (sm_connect_unix path); [|done]. cbn [negb].
  set (out := match ps_peer s with Some pid => _ | None => _ end).
  assert (bi_pid out = default (-1) (ps_peer s)) as Hp by (unfold out; by destruct (ps_peer s)).
  destruct (fst _ <? 0); [done|]. destruct (fst _ <? 0); [done|]. destruct (probe_loop _ _ _) as [root|]; [|done].
  intros [= <-]. split; [done|]. rewrite <- Hp. cbn [bi_pid]. unfold parse_status.
  destruct (get_item root "clients") as [[| | | | l |]|]; try done. by rewrite count_clients.
Qed.

(** Stopping a broker signals nothing but the process behind the socket:
    a pid is signalled only when the broker of that very connection answered
    with its status and the kernel named that pid, and success is reported
    only after the socket was seen to be gone; a probe that fails, an unknown
    pid or a failing [kill] end it with their own errors. *)
Theorem stop_signals_peer k path timeout kill_error gone :
  match sm_broker_stop_by_socket k path timeout kill_error gone with
  | (Some pid, result) =>
      0 < pid /\ ps_peer (pe_script k path) = Some pid /\
      (exists info, sm_broker_probe (pe_script k path) path = (true, info) /\ bi_pid info = pid) /\
      (result = None -> kill_error pid = None /\ In true gone)
  | (None, result) =>
      result <> None /\ (fst (sm_broker_probe (pe_script k path) path) = true ->
        default (-1) (ps_peer (pe_script k path)) <= 0)
  end.
Proof.
  unfold sm_broker_stop_by_socket. destruct (sm_broker_probe _ path) as [ok info] eqn:E.
  destruct ok; cbn [andb negb fst]; [|by destruct (he_stat path)].
  destruct (probe_reachable _ _ _ E) as [Hr Hp]. rewrite Hr. cbn [negb].
  destruct (Z.leb_spec (bi_pid info) 0); [split; [done|intros _; lia]|].
  assert (ps_peer (pe_script k path) = Some (bi_pid info)) as Hpeer.
  { destruct (ps_peer _); simpl in Hp; [by f_equal|lia]. }
  assert (forall n g, wait_gone n g = true -> In true g) as Hgone.
  { induction n as [|n IH]; intros [|[] g]; simpl; try done; [by left|]. intros Hg. right. by apply IH. }
  destruct (kill_error (bi_pid info)) as [e|] eqn:Ek; [split_and!; [done|done|by exists info|done]|].
  destruct (wait_gone _ gone) eqn:Eg; (split_and!; [done|done|by exists info|]); [|done].
  intros _. split; [done|]. by apply (Hgone _ _ Eg).
Qed.

(** The search gives the first broker that holds the device, whatever the
    name it is known by. *)
Lemma find_endpoint_first want socks : forall k info,
  find_endpoint k want socks = Some info ->
  exists i s, socks !! i = Some s /\ sm_broker_probe (pe_script (k + Z.of_nat i) s) s = (true, info) /\
    normalize_path (bi_endpoint info) = want.
Proof.
  induction socks as [|s socks IH]; intros k info; [done|]. cbn [find_endpoint].
  destruct (sm_broker_probe (pe_script k s) s) as [ok inf] eqn:E.
  destruct (ok && _ && _ && _) eqn:Ec.
  - intros [= ->]. apply andb_true_iff in Ec as [Ec Hw]. apply streq_spec in Hw.
    apply andb_true_iff in Ec as [Ec _]. apply andb_true_iff in Ec as [-> _].
    exists 0%nat, s. rewrite Z.add_0_r. done.
  - intros (i & s' & Hs & Hp & Hw)%IH. exists (S i), s'. split; [done|].
    replace (k + Z.of_nat (S i)) with (k + 1 + Z.of_nat i) by lia. done.
Qed.
End stopping.
