(* ===== verification/Getopt.v ===== *)
(** Command lines: [getopt_long], and the options of the broker. *)

(** * Command lines

    [getopt_long] of the C library, as the command-line client uses it: short
    options in clusters, long options by any unambiguous prefix, permutation
    of the operands unless the option string starts with a plus. *)
From S2P Require Import Prelude Cstr Json Effects HostPaths BrokerMain.

#[local] Open Scope string_scope.
#[local] Open Scope list_scope.
#[local] Open Scope Z_scope.

(** An option character and whether it takes an argument; a long name and the
    code it stands for; the codes that have no character, again with whether
    they take an argument. *)
Record optspec := mk_spec { os_short : list (Z * bool); os_long : list (string * Z); os_more : list (Z * bool) }.
Definition mk_optspec (short : list (Z * bool)) (long : list (string * Z)) : optspec := mk_spec short long [].

(** What [getopt_long] returns in turn: an option with its argument, or '?'. *)
Inductive opt_event := OptGiven (c : Z) (arg : option string) | OptBad.

Definition arity (l : list (Z * bool)) (c : Z) : option bool := option_map snd (List.find (fun o => fst o =? c) l).
Definition takes_arg (s : optspec) (c : Z) : option bool := arity (os_short s) c.
Definition long_takes_arg (s : optspec) (c : Z) : option bool := arity (os_short s ++ os_more s) c.

Definition long_matches (s : optspec) (name : string) : list (string * Z) :=
  match List.find (fun o => streq (fst o) name) (os_long s) with
  | Some o => [o]
  | None => List.filter (fun o => String.prefix name (fst o)) (os_long s)
  end.
Definition long_option (s : optspec) (name : string) : option Z :=
  match long_matches s name with [o] => Some (snd o) | _ => None end.

(** [--name=value]. *)
Definition split_eq (l : bytes) : bytes * option bytes :=
  match split_at_char 61 l with Some (n, v) => (n, Some v) | None => (l, None) end.

(** The options of one cluster [-abc]; the rest of the line in case the last
    one needs its argument from there. *)
Fixpoint short_cluster (s : optspec) (l : bytes) (rest : list string) : list opt_event * list string :=
  match l with
  | [] => ([], rest)
  | c :: l' =>
      match takes_arg s c with
      | None => let '(ev, r) := short_cluster s l' rest in (OptBad :: ev, r)
      | Some false => let '(ev, r) := short_cluster s l' rest in (OptGiven c None :: ev, r)
      | Some true =>
          match l', rest with
          | _ :: _, _ => ([OptGiven c (Some (string_of_bytes l'))], rest)
          | [], v :: rest' => ([OptGiven c (Some v)], rest')
          | [], [] => ([OptBad], [])
          end
      end
  end.

Definition is_option_arg (a : string) : bool :=
  match bytes_of_string a with 45 :: _ :: _ => true | _ => false end.

Definition one_option (s : optspec) (a : string) (rest : list string) : list opt_event * list string :=
  match bytes_of_string a with
  | 45 :: 45 :: long =>
      let '(name, value) := split_eq long in
      match long_option s (string_of_bytes name) with
      | None => ([OptBad], rest)
      | Some c =>
          match long_takes_arg s c, value, rest with
          | Some true, Some v, _ => ([OptGiven c (Some (string_of_bytes v))], rest)
          | Some true, None, v :: rest' => ([OptGiven c (Some v)], rest')
          | Some true, None, [] => ([OptBad], [])
          | _, None, _ => ([OptGiven c None], rest)
          | _, Some _, _ => ([OptBad], rest)
          end
      end
  | _ :: cluster => short_cluster s cluster rest
  | [] => ([], rest)
  end.

(** What is returned for the arguments behind [argv[0]], and the operands that
    are left behind [optind].  At most one round per argument. *)
Fixpoint getopt_loop (fuel : nat) (plus : bool) (s : optspec) (args : list string) : list opt_event * list string :=
  match fuel, args with
  | O, _ => ([], args)
  | _, [] => ([], [])
  | S f, a :: rest =>
      if streq a "--" then ([], rest)
      else if is_option_arg a then
        let '(ev, rest) := one_option s a rest in
        let '(ev', ops) := getopt_loop f plus s rest in (ev ++ ev', ops)
      else if plus then ([], args)
      else let '(ev, ops) := getopt_loop f plus s rest in (ev, a :: ops)
  end.
Definition getopt_long (plus : bool) (s : optspec) (args : list string) : list opt_event * list string :=
  getopt_loop (length args) plus s args.

Example getopt_examples :
  let s := mk_optspec [(101, true); (116, true); (111, false)] [("expect", 101); ("timeout", 116); ("once", 111)] in
  getopt_long true s ["-t5"; "--expect"; "login:"; "ls"; "-l"] =
    ([OptGiven 116 (Some "5"); OptGiven 101 (Some "login:")], ["ls"; "-l"]) /\
  getopt_long false s ["a"; "--time=7"; "-o"; "b"; "--"; "-x"] =
    ([OptGiven 116 (Some "7"); OptGiven 111 None], ["a"; "b"; "-x"]) /\
  getopt_long false s ["--nope"; "-oz"; "-e"] = ([OptBad; OptGiven 111 None; OptBad; OptBad], []).
Proof. vm_compute. done. Qed.

(** ** Facts *)

Lemma short_cluster_rest s l rest : forall ev r, short_cluster s l rest = (ev, r) -> r = rest \/ r = tl rest.
Proof.
  induction l as [|c l IH]; intros ev r; simpl; [intros [= _ <-]; by left|].
  destruct (takes_arg s c) as [[]|].
  - destruct l; [destruct rest|]; intros [= _ <-]; by (left + right).
  - destruct (short_cluster s l rest) as [ev' r']. intros [= _ <-]. by eapply IH.
  - destruct (short_cluster s l rest) as [ev' r']. intros [= _ <-]. by eapply IH.
Qed.

(** Without permutation, what the first operand starts is left as it is. *)
Lemma getopt_plus_operands fuel s args : forall ev ops,
  (length args <= fuel)%nat -> getopt_loop fuel true s args = (ev, ops) -> ops `suffix_of` args.
Proof.
  revert args. induction fuel as [|f IH]; intros args ev ops Hf; cbn [getopt_loop].
  { by intros [= _ <-]. }
  destruct args as [|a rest]; [by intros [= _ <-]|]. simpl in Hf.
  destruct (streq a "--"); [intros [= _ <-]; by exists [a]|].
  destruct (is_option_arg a); [|by intros [= _ <-]].
  assert (forall ev' r, one_option s a rest = (ev', r) -> r = rest \/ r = tl rest) as Ho.
  { intros ev' r. unfold one_option.
    assert (forall (x : list opt_event), (x, rest) = (ev', r) -> r = rest \/ r = tl rest) as H1 by (intros x [= _ <-]; by left).
    assert (forall (x : list opt_event) (v : string) rest', rest = v :: rest' -> (x, rest') = (ev', r) -> r = rest \/ r = tl rest) as H2
      by (intros x v rest' -> [= _ <-]; by right).
    destruct (bytes_of_string a) as [|c l]; [apply H1|].
    destruct (Z.eq_dec c 45) as [->|Hc].
    - destruct l as [|c2 l]; [apply short_cluster_rest|].
      destruct (Z.eq_dec c2 45) as [->|Hc2].
      + destruct (split_eq l) as [name value]. destruct (long_option _ _); [|apply H1].
        destruct (long_takes_arg s z) as [[]|], value; try apply H1. destruct rest as [|v rest']; [apply H1|by eapply H2].
      + intros H. apply (short_cluster_rest s (c2 :: l) rest ev' r). revert H.
        destruct c2 as [|p|p]; try done. do 6 (destruct p as [p|p|]; try done).
    - intros H. apply (short_cluster_rest s l rest ev' r). revert H.
      destruct c as [|p|p]; try done. do 6 (destruct p as [p|p|]; try done). }
  destruct (one_option s a rest) as [ev1 r1] eqn:E1. specialize (Ho _ _ eq_refl).
  destruct (getopt_loop f true s r1) as [ev2 ops2] eqn:E2. intros [= _ <-].
  assert (r1 `suffix_of` a :: rest) as Hsuf.
  { destruct Ho as [-> | ->]; [by exists [a]|]. destruct rest as [|v rest]; [by exists [a]|by exists [a; v]]. }
  etrans; [|exact Hsuf]. apply (IH r1 ev2); [|done].
  destruct Ho as [-> | ->]; [lia|]. destruct rest; simpl in *; lia.
Qed.

(** * The broker's command line ([src/main.c])

    The options of [main] as [getopt_long] finds them in the arguments, and the
    operands.  What they do is in [BrokerMain.v]. *)

#[local] Open Scope string_scope.
#[local] Open Scope list_scope.
#[local] Open Scope Z_scope.

Definition OPT_LIST_PORTS : Z := 256.
Definition OPT_LIST_PROFILES : Z := 257.
Definition OPT_HELP_PROTOCOL : Z := 258.
Definition OPT_AUTH_TOKEN : Z := 259.
Definition OPT_BOARD : Z := 260.
Definition OPT_ROLE : Z := 261.
Definition OPT_SERIAL_TCP : Z := 262.
Definition OPT_INSECURE_NO_AUTH : Z := 263.
Definition OPT_GDB_ALLOW_SHELL : Z := 264.
Definition OPT_AUTH_TOKEN_FILE : Z := 265.
Definition OPT_WAIT_DEVICE : Z := 266.
Definition OPT_NO_IO_LOG : Z := 267.
Definition OPT_IDENTITY_POLICY : Z := 268.
Definition OPT_BY_PATH : Z := 269.

(** The name, the code, and what the argument makes; [None]: no argument. *)
Definition with_arg : list (string * Z * (string -> main_opt)) :=
  [("baud", 98, OptBaud); ("socket", 115, OptSocket); ("log-dir", 108, OptLogDir); ("text-log-dir", 116, OptTextLogDir);
   ("profile", 112, OptProfile); ("gdb-path", 103, OptGdbPath); ("gdb-target", 114, OptGdbTarget);
   ("serial-tcp", OPT_SERIAL_TCP, OptSerialTcp); ("tcp-port", 84, OptTcpPort); ("tcp-bind", 66, OptTcpBind);
   ("auth-token", OPT_AUTH_TOKEN, OptAuthToken); ("auth-token-file", OPT_AUTH_TOKEN_FILE, OptAuthTokenFile);
   ("board", OPT_BOARD, OptBoard); ("role", OPT_ROLE, OptRole); ("identity-policy", OPT_IDENTITY_POLICY, OptIdentityPolicy);
   ("by-path", OPT_BY_PATH, OptByPath); ("ws-port", 87, OptWsPort); ("wait-device", OPT_WAIT_DEVICE, OptWaitDevice)].
Definition without_arg : list (string * Z * main_opt) :=
  [("gdb", 71, OptGdb); ("gdb-allow-shell", OPT_GDB_ALLOW_SHELL, OptGdbAllowShell); ("mcp", 77, OptMcp);
   ("insecure-no-auth", OPT_INSECURE_NO_AUTH, OptInsecureNoAuth); ("no-text-log", 78, OptNoTextLog);
   ("no-io-log", OPT_NO_IO_LOG, OptNoIoLog); ("no-reconnect", 82, OptNoReconnect); ("list-ports", OPT_LIST_PORTS, OptListPorts);
   ("list-profiles", OPT_LIST_PROFILES, OptListProfiles); ("help-protocol", OPT_HELP_PROTOCOL, OptHelpProtocol);
   ("verbose", 118, OptVerbose); ("version", 86, OptVersion); ("help", 104, OptHelp)].

(** ["b:s:l:t:p:vVh"] and the long options. *)
Definition broker_optspec : optspec :=
  mk_spec [(98, true); (115, true); (108, true); (116, true); (112, true); (118, false); (86, false); (104, false)]
    (map (fun '(n, c, _) => (n, c)) with_arg ++ map (fun '(n, c, _) => (n, c)) without_arg)
    (map (fun '(_, c, _) => (c, true)) with_arg ++ map (fun '(_, c, _) => (c, false)) without_arg).

Definition main_opt_of (e : opt_event) : main_opt :=
  match e with
  | OptGiven c (Some a) => match List.find (fun '(_, c', _) => c' =? c) with_arg with Some (_, _, f) => f a | None => OptUnknown end
  | OptGiven c None => match List.find (fun '(_, c', _) => c' =? c) without_arg with Some (_, _, o) => o | None => OptUnknown end
  | OptBad => OptUnknown
  end.

(** The options and the operands of a command line. *)
Definition broker_command_line (argv : list string) : list main_opt * list string :=
  let '(evs, ops) := getopt_long false broker_optspec (tl argv) in (map main_opt_of evs, ops).

Example broker_command_line_examples :
  broker_command_line ["smolmux"; "/dev/ttyUSB0"; "-b115200"; "--board=pi"; "-v"] =
    ([OptBaud "115200"; OptBoard "pi"; OptVerbose], ["/dev/ttyUSB0"]) /\
  (* a prefix will do when only one option has it *)
  broker_command_line ["smolmux"; "--gdb"; "--rol"; "x"; "--b"; "-G"] = ([OptGdb; OptRole "x"; OptUnknown; OptUnknown], []).
Proof. vm_compute. done. Qed.
