(* ===== verification/Cli.v ===== *)
(** The command-line client: its connection, and the commands that ask. *)

(** * The command-line client: the connection ([src/cli.c])

    Its global state, reading messages, waiting for an answer, the handshake.
    A program is a state transformer; what [poll], [read] and the clock do in
    its waits is a script ([cx_polls]), used up one call of [poll] at a time,
    and everything it does, and every line it takes from the connection, is
    recorded ([cx_trace]).  Allocations of the string
    buffer succeed. *)
From stdpp Require Import pretty.
From S2P Require Import Prelude Cstr Codecs Json Protocol Autoresponder McpText Effects Client McpResults.
From S2P Require Import BrokerOps BrokerHandlers HostPaths Profiles BrokerInfo Getopt.

#[local] Open Scope string_scope.
#[local] Open Scope list_scope.
#[local] Open Scope Z_scope.
#[local] Open Scope json_scope.

Definition CLI_READ_BUF_INIT : Z := 65536.
Definition CLI_READ_BUF_MAX : Z := 8388608.

(** ** State *)

(** What a turn of a wait meets: [poll] fails, is interrupted by a signal (by
    one that ends the program, or another), or returns with what it found and
    what a read then gives; and the milliseconds since the wait began. *)
Inductive poll_answer :=
  | PollFailed
  | PollInterrupted (terminate : bool)
  | PollReturned (readable hup : bool) (realloc_ok : bool) (got : rres) (elapsed_ms : Z).

Inductive cli_effect :=
  | CSent (msg : json) | CGot (line : bytes) | COut (text : bytes) | CErr (text : bytes) | CSlept (ms : Z)
  | CConnected (path : string) | CClosed | CRan (argv : list string) | CKilled (pid : Z)
  | CSpawned (argv : list string) (foreground : bool) (log : string) | CEnv (name value : string).

Record cli := mk_cli {
  cx_connected : bool; cx_buf : bytes; cx_cap : Z; cx_json : bool; cx_timeout_ms : Z; cx_verbose : bool;
  cx_interrupted : bool; cx_polls : list poll_answer; cx_questions : Z; cx_trace : list cli_effect }.

Abbreviation C := (ST cli) (only parsing).

Definition emit_cli (e : cli_effect) : C unit := smod (fun s => {| s with cx_trace := cx_trace s ++ [e] |}).
Definition send_msg (msg : json) : C unit := emit_cli (CSent msg).
Definition out (s : string) : C unit := emit_cli (COut (bytes_of_string s)).
Definition out_bytes (b : bytes) : C unit := emit_cli (COut b).
Definition err (s : string) : C unit := emit_cli (CErr (bytes_of_string s)).

Section cli.
Context {J : JsonText}.

(** ** Reading *)

(** The complete lines of the buffer, each that is a message handed to
    [handler]; what is kept. *)
Fixpoint read_lines {W} (handler : sm_msg -> W -> C W) (fuel : nat) (buf : bytes) (ctx : W) : C (W * bytes) :=
  match fuel with
  | O => mret (ctx, buf)
  | S f =>
      match split_line buf with
      | None => mret (ctx, buf)
      | Some (line, rest) =>
          let m := sm_msg_decode line in
          emit_cli (CGot line) ;;
          ctx ← match m_root m with Some _ => handler m ctx | None => mret ctx end;
          read_lines handler f rest ctx
      end
  end.

(** The buffer doubles when it is full, up to the limit. *)
Definition grow_read_buf (realloc_ok : bool) : C bool :=
  len ← sget (fun s => zlen (cx_buf s));
  cap ← sget cx_cap;
  if negb (cap <=? len + 1) then mret true
  else
    let new_cap := if cap =? 0 then CLI_READ_BUF_INIT else cap * 2 in
    if (CLI_READ_BUF_MAX <? new_cap) && (CLI_READ_BUF_MAX <=? cap) then
      err ("smolmux-cli: response line exceeds " +:+ pretty CLI_READ_BUF_MAX +:+ " bytes" +:+ nl) ;; mret false
    else if realloc_ok then
      smod (fun s => {| s with cx_cap := Z.min new_cap CLI_READ_BUF_MAX |}) ;; mret true
    else mret false.

(** False on disconnect. *)
Definition read_messages {W} (handler : sm_msg -> W -> C W) (realloc_ok : bool) (got : rres) (ctx : W) : C (bool * W) :=
  grown ← grow_read_buf realloc_ok;
  if negb grown then mret (false, ctx)
  else
    space ← sget (fun s => cx_cap s - zlen (cx_buf s) - 1);
    match sys_read space got with
    | RBytes b =>
        buf ← sget (fun s => cx_buf s ++ b);
        r ← read_lines handler (length buf) buf ctx;
        smod (fun s => {| s with cx_buf := snd r |}) ;;
        mret (true, fst r)
    | _ => mret (false, ctx)
    end.

(** ** Waiting for an answer *)

Record wait_ctx := mk_wait {
  w_type : sm_msg_type; w_id : option string; w_result : option json; w_output : option bytes;
  w_done : bool; w_error : option string }.

Definition error_text (root : json) : string :=
  snprintf_s 256 (default "unknown error" (sm_json_get_string root "message")).

(** What the message does to the wait; None when it is not for it. *)
Definition wait_step (root : json) (t : sm_msg_type) (w : wait_ctx) : option wait_ctx :=
  let id := sm_json_get_string root "id" in
  let failed := {| w with w_error := Some (error_text root); w_done := true |} in
  let answered := {| w with w_result := Some root; w_done := true |} in
  let is_error := bool_decide (t = SM_MSG_ERROR) in
  let is_expected := bool_decide (t = w_type w) in
  if is_error && match w_id w, id with Some e, Some i => streq i e | _, _ => false end then Some failed
  else if is_error && match id with Some i => streq i "" | None => false end then Some failed
  else if is_expected && match w_id w, id with Some e, Some i => streq i e | _, _ => true end then Some answered
  else if (bool_decide (t = SM_MSG_SUSPENDED) || bool_decide (t = SM_MSG_RESUMED)) && is_expected then Some answered
  else None.

Definition wait_output (root : json) (acc : bytes) : bytes :=
  match sm_json_get_string root "data" with
  | Some b64 => match sm_base64_decode (bytes_of_string b64) with Some data => acc ++ data | None => acc end
  | None => acc
  end.

Definition verbose_note (root : json) (t : sm_msg_type) : option string :=
  match t with
  | SM_MSG_ANOMALY => Some ("[anomaly] " +:+ default "?" (sm_json_get_string root "pattern_name") +:+ nl)
  | SM_MSG_LINK_DOWN => Some ("[link_down]" +:+ nl)
  | SM_MSG_LINK_UP => Some ("[link_up]" +:+ nl)
  | _ => None
  end.

Definition wait_handler (m : sm_msg) (w : wait_ctx) : C wait_ctx :=
  match m_root m with
  | None => mret w
  | Some root =>
      match m_type m, w_output w with
      | SM_MSG_OUTPUT, Some acc => mret {| w with w_output := Some (wait_output root acc) |}
      | t, _ =>
          match wait_step root t w with
          | Some w => mret w
          | None =>
              verbose ← sget cx_verbose;
              match verbose_note root t with
              | Some note => swhen verbose (err note) ;; mret w
              | None => mret w
              end
          end
      end
  end.

(** The result code of a wait: 0, -1 (no connection), -2 (time), -3 (refused). *)
Record wait_end := mk_end { we_rc : Z; we_root : option json; we_out : bytes }.

Definition wait_finish (w : wait_ctx) : C wait_end :=
  match w_error w with
  | Some e => err ("error: " +:+ e +:+ nl) ;; mret (mk_end (-3) None (default [] (w_output w)))
  | None => mret (mk_end (if w_done w then 0 else -1) (if w_done w then w_result w else None) (default [] (w_output w)))
  end.

Definition disconnected : string := "error: broker disconnected" +:+ nl.

(** One call of [poll] per element; an exhausted script is a [poll] that fails. *)
Fixpoint wait_loop (polls : list poll_answer) (timeout_ms : Z) (w : wait_ctx) : C wait_end :=
  interrupted ← sget cx_interrupted;
  if w_done w || interrupted then smod (fun s => {| s with cx_polls := polls |}) ;; wait_finish w
  else
    match polls with
    | [] | PollFailed :: _ => smod (fun s => {| s with cx_polls := tl polls |}) ;; wait_finish w
    | PollInterrupted term :: polls' =>
        swhen term (smod (fun s => {| s with cx_interrupted := true |})) ;;
        wait_loop polls' timeout_ms w
    | PollReturned readable hup realloc_ok got elapsed_ms :: polls' =>
        let stop rc text w :=
          smod (fun s => {| s with cx_polls := polls' |}) ;; err text ;;
          mret (mk_end rc None (default [] (w_output w))) in
        r ← (if readable then read_messages wait_handler realloc_ok got w else mret (true, w));
        let '(ok, w) := r in
        if negb ok || hup then stop (-1) disconnected w
        else if (timeout_ms - elapsed_ms <=? 0) && (0 <? timeout_ms)
        then stop (-2) ("error: timeout waiting for response" +:+ nl) w
        else wait_loop polls' timeout_ms w
    end.

Definition wait_for_response (expected_type : sm_msg_type) (expected_id : option string) (timeout_ms : Z)
    (collect : bool) : C wait_end :=
  polls ← sget cx_polls;
  wait_loop polls timeout_ms
    (mk_wait expected_type expected_id None (if collect then Some [] else None) false None).

(** ** The handshake *)

Definition cli_hello_name (pid : Z) (cmd : string) : string :=
  snprintf_s 64 ("smolmux-cli-" +:+ (if streq cmd "" then "cli" else cmd) +:+ "-" +:+ pretty pid).

Context {HE : HostEnv}.

(** [reason] is why [connect] failed. *)
Definition connect_and_hello (pid : Z) (reason socket_path role cmd : string) : C bool :=
  if negb (sm_connect_unix socket_path) then
    err ("error: cannot connect to " +:+ socket_path +:+ ": " +:+ reason +:+ nl) ;; mret false
  else
    emit_cli (CConnected socket_path) ;;
    smod (fun s => {| s with cx_connected := true |}) ;;
    send_msg (sm_msg_hello (he_env "SMOLMUX_AUTH_TOKEN") (Some (cli_hello_name pid cmd)) (Some role)) ;;
    e ← wait_for_response SM_MSG_WELCOME None 5000 false;
    if negb (we_rc e =? 0) then
      err ("error: handshake failed" +:+ nl) ;; emit_cli CClosed ;; mret false
    else
      verbose ← sget cx_verbose;
      let welcome := default JNull (we_root e) in
      swhen verbose (err ("connected: port=" +:+ default "?" (sm_json_get_string welcome "port") +:+
        " baud=" +:+ pretty (sm_json_get_int welcome "baud" 0) +:+
        " role=" +:+ default "?" (sm_json_get_string welcome "your_role") +:+ nl)) ;;
      mret true.
End cli.

(** * The command-line client: the commands that ask a broker ([src/cli.c])

    Each command takes its arguments with the command's name first, and returns
    the exit status of the program. *)

#[local] Open Scope string_scope.
#[local] Open Scope list_scope.
#[local] Open Scope Z_scope.
#[local] Open Scope json_scope.

Definition atoi_s (s : string) : Z := atoi (bytes_of_string s).
(** [atof] of decimal text and [atoll]. *)
Definition atoll_s (s : string) : Z := fst (strtol10 (bytes_of_string s)).

Definition line (s : string) : C unit := out (s +:+ nl).
Definition em_dash : string := utf8 [226; 128; 148].

(** How a program run by a command ends. *)
Inductive child_end := ChildForkFailed (reason : string) | ChildExited (code : Z) | ChildSignalled (sig : Z) | ChildOther.
Class CliEnv := {
  ce_pid : Z;
  ce_connect_error : string -> string;
  ce_atof : string -> double;
  ce_realtime : double;
  ce_child : list string -> child_end }.

Section commands.
Context {J : JsonText} {CE : CliEnv}.

Definition print_json (o : json) : C unit := line (cJSON_PrintUnformatted o).
Definition timeout_or (def : Z) : C Z := sget (fun s => if 0 <? cx_timeout_ms s then cx_timeout_ms s else def).
Definition json_mode : C bool := sget cx_json.

(** The options given: the last of each kind counts. *)
Definition last_opt {A} (c : Z) (f : string -> A) (def : A) (evs : list opt_event) : A :=
  fold_left (fun acc e => match e with
                          | OptGiven c' (Some a) => if c' =? c then f a else acc
                          | _ => acc end) evs def.
Definition given (c : Z) (evs : list opt_event) : bool :=
  existsb (fun e => match e with OptGiven c' _ => c' =? c | OptBad => false end) evs.
Definition args_of (argv : list string) : list string := tl argv.
Definition joined (l : list string) : bytes := bytes_of_string (String.concat " " l).

(** ** Sending *)

(** Something behind the first operand that looks like an option. *)
Definition cli_trailing_option_after (behind : list string) : bool :=
  existsb (fun a => is_option_arg a && negb (streq a "--")) behind.

Definition send_opts : optspec := mk_optspec [(101, true); (116, true)] [("expect", 101); ("timeout", 116)].

Definition cmd_send (argv : list string) : C Z :=
  def ← timeout_or 5000;
  let '(evs, ops) := getopt_long true send_opts (args_of argv) in
  let timeout := last_opt 116 atoi_s def evs in
  let pattern := default SM_PROFILE_DEFAULT_PROMPT (last_opt 101 Some None evs) in
  match ops with
  | [] => err ("error: missing command argument" +:+ nl +:+
               "usage: smolmux-cli send [--expect <pattern>] [--timeout <ms>] <command>" +:+ nl) ;; mret 1
  | _ :: behind =>
      if cli_trailing_option_after behind then
        err ("error: options after the command are not sent to the device" +:+ nl +:+
             "usage: smolmux-cli send [--expect <pattern>] [--timeout <ms>] <command>" +:+ nl +:+
             "  Put flags before the command, or use -- to send a leading '-'." +:+ nl) ;; mret 1
      else
        send_msg (sm_msg_send_expect (Some "cli-send") (joined ops ++ [10]) pattern timeout) ;;
        e ← wait_for_response SM_MSG_EXPECT_RESULT (Some "cli-send") (timeout + 2000) true;
        match we_rc e, we_root e with
        | 0, Some root =>
            json ← json_mode;
            let matched := sm_json_get_bool root "matched" false in
            (if json : bool then
               print_json (JObj [] |> add_bool "matched" matched
                 |> add_string "output" (string_of_bytes (cstr (we_out e))))
             else
               swhen (0 <? zlen (we_out e)) (out_bytes (we_out e)) ;;
               swhen (negb matched) (err ("[timeout " +:+ em_dash +:+ " pattern not matched]" +:+ nl))) ;;
            mret 0
        | 0, None => mret 0
        | _, _ => mret 1
        end
  end.

Definition cmd_write (argv : list string) : C Z :=
  match args_of argv with
  | [] => err ("error: missing data argument" +:+ nl +:+ "usage: smolmux-cli write <data>" +:+ nl) ;; mret 1
  | ops =>
      send_msg (sm_msg_send (Some "cli-wr") (joined ops)) ;;
      readable ← sget (fun s => match cx_polls s with PollReturned true _ _ _ _ :: _ => true | _ => false end);
      if readable : bool then
        _ ← wait_for_response SM_MSG_ERROR (Some "cli-wr") 100 false;
        mret 1
      else
        json ← json_mode;
        line (if json : bool then "{" +:+ dq +:+ "status" +:+ dq +:+ ":" +:+ dq +:+ "ok" +:+ dq +:+ "}" else "OK") ;;
        mret 0
  end.

(** ** History *)

(** The bytes of the chunks but for the NULs. *)
Definition chunk_bytes (chunk : json) : bytes :=
  match sm_json_get_string chunk "data" with
  | Some b64 => match sm_base64_decode (bytes_of_string b64) with
                | Some data => List.filter (fun c => negb (c =? 0)) data
                | None => [] end
  | None => []
  end.

Definition print_history (result : json) (none : string) : C unit :=
  json ← json_mode;
  if json : bool then print_json result
  else match elements (get_item_ci result "chunks") with
       | [] => line none
       | chunks => out_bytes (mjoin (map chunk_bytes chunks))
       end.

Definition ask_history (msg : json) (id : string) (wait_ms : Z) (none : string) : C Z :=
  send_msg msg ;;
  timeout ← timeout_or wait_ms;
  e ← wait_for_response SM_MSG_HISTORY_RESPONSE (Some id) timeout false;
  if negb (we_rc e =? 0) then mret 1
  else print_history (default JNull (we_root e)) none ;; mret 0.

Definition cmd_read (argv : list string) : C Z :=
  let '(evs, _) := getopt_long false (mk_optspec [(110, true)] [("bytes", 110)]) (args_of argv) in
  let last_bytes := last_opt 110 atoi_s 8192 evs in
  ask_history (sm_msg_history_request (Some "cli-read") 0 last_bytes) "cli-read" 5000 "(no output)".

Definition history_opts : optspec :=
  mk_optspec [(110, true); (115, true); (113, true)] [("last-bytes", 110); ("seconds", 115); ("since-seq", 113)].
(** Seconds before now. *)
Definition since (seconds : double) : double := if 0 <? seconds then ce_realtime - seconds else 0.

Definition cmd_history (argv : list string) : C Z :=
  let '(evs, _) := getopt_long false history_opts (args_of argv) in
  let last_bytes := last_opt 110 atoi_s 0 evs in
  let since_seq := last_opt 113 atoll_s (-1) evs in
  let msg := if 0 <=? since_seq then sm_msg_history_request_seq (Some "cli-hist") since_seq last_bytes
             else sm_msg_history_request (Some "cli-hist") (since (last_opt 115 ce_atof 0 evs)) last_bytes in
  ask_history msg "cli-hist" 10000 "(no output in history)".

(** ** Status *)

Definition boot_state (boot : json) : string :=
  if sm_json_get_bool boot "terminal_reached" false then "complete"
  else if sm_json_get_bool boot "stalled" false then "STALLED"
  else if sm_json_get_int boot "furthest" (-1) <? 0 then "not started" else "in progress".
(** 0 complete, 2 stalled, 3 in progress. *)
Definition boot_exit (boot : json) : Z :=
  if sm_json_get_bool boot "terminal_reached" false then 0
  else if sm_json_get_bool boot "stalled" false then 2 else 3.
Definition stages_of (boot : json) : list json :=
  match get_item_ci boot "stages" with Some (JArr l) => l | _ => [] end.
Definition reached_count (boot : json) : Z :=
  Z.of_nat (length (List.filter (fun s => sm_json_get_bool s "reached" false) (stages_of boot))).

Definition stage_line (furthest : Z) (i : nat) (s : json) : string :=
  "  [" +:+ (if sm_json_get_bool s "reached" false then "x" else " ") +:+ "] " +:+
  default "?" (sm_json_get_string s "name") +:+
  (if Z.of_nat i =? furthest then "  <-- furthest" else "") +:+ nl.

Definition print_boot_progress (boot : json) : C Z :=
  let furthest := sm_json_get_int boot "furthest" (-1) in
  let total := sm_json_get_int boot "total" 0 in
  let furthest_name := match zget (stages_of boot) furthest with
                       | Some s => sm_json_get_string s "name" | None => None end in
  out ("Boot:      " +:+ pretty (reached_count boot) +:+ "/" +:+ pretty total +:+ " stages" +:+
    match furthest_name with Some n => " (furthest: " +:+ n +:+ ")" | None => "" end +:+
    " " +:+ em_dash +:+ " " +:+ boot_state boot +:+ nl) ;;
  out (String.concat "" (imap (stage_line furthest) (stages_of boot))) ;;
  mret (boot_exit boot).

Definition yes_no (b : bool) : string := if b then "yes" else "no".

Definition status_text (result : json) : string :=
  let str key def := default def (sm_json_get_string result key) in
  "Port:      " +:+ str "port" "?" +:+ nl +:+
  "Baud:      " +:+ pretty (sm_json_get_int result "baud" 0) +:+ nl +:+
  "Connected: " +:+ yes_no (sm_json_get_bool result "connected" false) +:+ nl +:+
  "Suspended: " +:+ yes_no (sm_json_get_bool result "suspended" false) +:+ nl +:+
  "Takeover:  " +:+ str "takeover_client" "none" +:+ nl +:+
  "Link up:   " +:+ fmt_fixed 3 (sm_json_get_double result "link_up_ts" 0) +:+ nl +:+
  "RX age ms: " +:+ pretty (sm_json_get_int result "last_rx_age_ms" 0) +:+ nl +:+
  "RX since up: " +:+ fmt_fixed 0 (sm_json_get_double result "bytes_rx_since_link_up" 0) +:+ nl +:+
  match elements (get_item_ci result "clients") with
  | [] => ""
  | l => "Clients:" +:+ nl +:+ String.concat "" (map (fun c =>
           "  - " +:+ default "?" (sm_json_get_string c "name") +:+
           " (" +:+ default "?" (sm_json_get_string c "role") +:+ ")" +:+ nl) l)
  end +:+
  match sm_json_get_string result "log_path" with Some p => "Log:       " +:+ p +:+ nl | None => "" end +:+
  match sm_json_get_string result "text_log_path" with Some p => "Text log:  " +:+ p +:+ nl | None => "" end.

Definition ask_status (id : string) : C wait_end :=
  send_msg (sm_msg_status (Some id)) ;;
  timeout ← timeout_or 5000;
  wait_for_response SM_MSG_STATUS_RESPONSE (Some id) timeout false.

Definition cmd_status (argv : list string) : C Z :=
  e ← ask_status "cli-status";
  if negb (we_rc e =? 0) then mret 1
  else
    let result := default JNull (we_root e) in
    json ← json_mode;
    (if json : bool then print_json result
     else
       out (status_text result) ;;
       match get_item_ci result "boot" with
       | Some boot => _ ← print_boot_progress boot; mret tt
       | None => mret tt
       end) ;;
    mret 0.

Definition cmd_boot_status (argv : list string) : C Z :=
  e ← ask_status "cli-boot";
  if negb (we_rc e =? 0) then mret 1
  else
    json ← json_mode;
    match get_item_ci (default JNull (we_root e)) "boot" with
    | None =>
        line (if json : bool then "null" else "No boot_stages defined in the device profile.") ;; mret 4
    | Some boot =>
        if json : bool then print_json boot ;; mret (boot_exit boot) else print_boot_progress boot
    end.

(** ** Incidents *)

Definition incident_text (i : nat) (inc : json) : string :=
  let str key def := default def (sm_json_get_string inc key) in
  let fence := "```" +:+ nl in
  "### Incident " +:+ pretty (Z.of_nat (S i)) +:+ ": " +:+ str "pattern_name" "?" +:+
  " [" +:+ str "severity" "?" +:+ "]" +:+ nl +:+ "Match: " +:+ str "match_text" "" +:+ nl +:+
  (if streq (str "pre_context" "") "" then ""
   else "Pre-context:" +:+ nl +:+ fence +:+ str "pre_context" "" +:+ nl +:+ fence) +:+ nl.

Definition cmd_incidents (argv : list string) : C Z :=
  let '(evs, _) := getopt_long false (mk_optspec [(115, true)] [("seconds", 115)]) (args_of argv) in
  send_msg (sm_msg_incidents_request (Some "cli-inc") (since (last_opt 115 ce_atof 0 evs))) ;;
  timeout ← timeout_or 5000;
  e ← wait_for_response SM_MSG_INCIDENTS_RESPONSE (Some "cli-inc") timeout false;
  if negb (we_rc e =? 0) then mret 1
  else
    let result := default JNull (we_root e) in
    json ← json_mode;
    (if json : bool then print_json result
     else match elements (get_item_ci result "incidents") with
          | [] => line "No anomalies detected."
          | l => out (String.concat "" (imap incident_text l))
          end) ;;
    mret 0.
End commands.
