(* ===== verification/CliControl.v ===== *)
(** The command-line client: the commands that act on the device, and those
    that watch it. *)

(** * The command-line client: the commands that act ([src/cli.c])

    Control lines, reset, the boot loader, suspending and handing the port to
    another program, watching rules, monitoring, the report. *)
From stdpp Require Import pretty.
From S2P Require Import Prelude Cstr Codecs Json Protocol Autoresponder McpText Effects Client McpResults.
From S2P Require Import BrokerOps BrokerHandlers HostPaths Profiles BrokerInfo Getopt Cli.

#[local] Open Scope string_scope.
#[local] Open Scope list_scope.
#[local] Open Scope Z_scope.
#[local] Open Scope json_scope.

(** JSON written by [printf]: members as they are. *)
Definition jq (s : string) : string := dq +:+ s +:+ dq.
Definition status_ok (more : string) : string := "{" +:+ jq "status" +:+ ":" +:+ jq "ok" +:+ more +:+ "}".
Definition char_string (c : Z) : string := string_of_bytes [c].
(** [key[0]] of a string that may be empty. *)
Definition first_char (s : string) : Z := match bytes_of_string s with c :: _ => c | [] => 0 end.

Section control.
Context {J : JsonText} {CE : CliEnv}.

(** Print the JSON form or the other one. *)
Definition either (json_text text : string) : C unit :=
  json ← json_mode; line (if json : bool then json_text else text).

(** ** Lines *)

Definition sysrq_opts : optspec := mk_optspec [(98, true); (100, true)] [("break-ms", 98); ("delay-ms", 100)].

Definition cmd_sysrq (argv : list string) : C Z :=
  match args_of argv with
  | "" :: _ | [] => err ("error: missing SysRq key" +:+ nl +:+ "usage: smolmux-cli sysrq <key>" +:+ nl) ;; mret 1
  | args =>
      let '(evs, ops) := getopt_long false sysrq_opts args in
      let break_ms := last_opt 98 atoi_s 500 evs in
      let delay_ms := last_opt 100 atoi_s 100 evs in
      match ops with
      | [] => err ("error: missing SysRq key" +:+ nl) ;; mret 1
      | key :: _ =>
          send_msg (sm_msg_pin_control (Some "cli-brk") "break" "pulse" break_ms) ;;
          _ ← wait_for_response SM_MSG_UNKNOWN (Some "cli-brk") (break_ms + 2000) false;
          emit_cli (CSlept delay_ms) ;;
          let ch := first_char key in
          send_msg (sm_msg_send (Some "cli-sysrq") [ch]) ;;
          either (status_ok ("," +:+ jq "key" +:+ ":" +:+ jq (char_string ch))) ("OK (SysRq+" +:+ char_string ch +:+ ")") ;;
          mret 0
      end
  end.

(** The number behind the last [--duration]. *)
Fixpoint pin_duration (def : Z) (args : list string) : Z :=
  match args with
  | a :: (v :: _) as rest => pin_duration (if streq a "--duration" then atoi_s v else def) rest
  | _ => def
  end.

Definition cmd_pin (argv : list string) : C Z :=
  match args_of argv with
  | pin :: action :: more =>
      send_msg (sm_msg_pin_control (Some "cli-pin") pin action (pin_duration 250 more)) ;;
      timeout ← timeout_or 5000;
      e ← wait_for_response SM_MSG_PIN_CONTROL (Some "cli-pin") timeout false;
      if we_rc e =? 0 then either (status_ok "") "OK" ;; mret 0 else mret 1
  | _ => err ("error: missing pin and action" +:+ nl +:+
      "usage: smolmux-cli pin <dtr|rts|break> <set|clear|toggle|pulse> [--duration <ms>]" +:+ nl) ;; mret 1
  end.

Record reset_args := mk_reset { ra_pin : string; ra_hold : Z; ra_wait : option string; ra_wait_ms : Z }.
Fixpoint parse_reset (args : list string) (a : reset_args) : option reset_args :=
  match args with
  | [] => Some a
  | o :: v :: rest =>
      if streq o "--pin" then parse_reset rest {| a with ra_pin := v |}
      else if streq o "--hold" then parse_reset rest {| a with ra_hold := atoi_s v |}
      else if streq o "--wait" then parse_reset rest {| a with ra_wait := Some v |}
      else if streq o "--timeout" then parse_reset rest {| a with ra_wait_ms := atoi_s v |}
      else None
  | [_] => None
  end.

Definition reset_usage : string :=
  "usage: smolmux-cli reset [--pin rts|dtr] [--hold <ms>] [--wait <regex> [--timeout <ms>]]" +:+ nl.

(** The wait for the boot line is armed before the reset is asked for. *)
Definition cmd_reset (argv : list string) : C Z :=
  match parse_reset (args_of argv) (mk_reset "rts" SM_DEFAULT_RESET_HOLD_MS None 10000) with
  | None => err reset_usage ;; mret 1
  | Some a =>
      let pin := ra_pin a in
      if negb (streq pin "rts" || streq pin "dtr") then err ("error: --pin must be 'rts' or 'dtr'" +:+ nl) ;; mret 1
      else if (ra_hold a <? 1) || (SM_MAX_RESET_HOLD_MS <? ra_hold a) then
        err ("error: --hold must be 1.." +:+ pretty SM_MAX_RESET_HOLD_MS +:+ " ms" +:+ nl) ;; mret 1
      else
        let wait_ms := Z.min SM_MAX_EXPECT_TIMEOUT_MS (Z.max 100 (ra_wait_ms a)) in
        match ra_wait a with
        | Some pat => send_msg (sm_msg_listen_expect (Some "cli-reset-wait") (Some pat) wait_ms)
        | None => mret tt
        end ;;
        send_msg (sm_msg_pin_control (Some "cli-reset") pin "reset" (ra_hold a)) ;;
        timeout ← timeout_or 5000;
        e ← wait_for_response SM_MSG_PIN_CONTROL (Some "cli-reset") (ra_hold a + timeout) false;
        if negb (we_rc e =? 0) then mret 1
        else
          let pin_member := "," +:+ jq "pin" +:+ ":" +:+ jq pin in
          match ra_wait a with
          | None => either (status_ok pin_member) ("OK (reset via " +:+ pin +:+ ", " +:+ pretty (ra_hold a) +:+ " ms)") ;; mret 0
          | Some pat =>
              e ← wait_for_response SM_MSG_EXPECT_RESULT (Some "cli-reset-wait") (wait_ms + 2000) false;
              if negb (we_rc e =? 0) then mret 1
              else
                let matched := match we_root e with Some r => sm_json_get_bool r "matched" false | None => false end in
                json ← json_mode;
                (if json : bool then
                   line (status_ok (pin_member +:+ "," +:+ jq "matched" +:+ ":" +:+ fmt_bool matched))
                 else if matched then line ("OK (reset via " +:+ pin +:+ "; matched /" +:+ pat +:+ "/)")
                 else err ("[reset via " +:+ pin +:+ "; timeout " +:+ em_dash +:+ " /" +:+ pat +:+ "/ not matched]" +:+ nl)) ;;
                mret (if matched then 0 else 1)
          end
  end.

(** ** The boot loader *)

Record uboot_args := mk_uboot {
  ua_key : string; ua_stop : option string; ua_interval : Z; ua_duration : Z;
  ua_reset_pin : option string; ua_reset_active : string; ua_reset_hold : Z }.
Definition UBOOT_PROMPT : string := "=>[[:space:]]*$|U-Boot>[[:space:]]*$".

Fixpoint parse_uboot (args : list string) (a : uboot_args) : option uboot_args :=
  match args with
  | [] => Some a
  | o :: rest =>
      if streq o "--no-stop" then parse_uboot rest {| a with ua_stop := None |}
      else
        match rest with
        | [] => None
        | v :: rest =>
            if streq o "--key" then parse_uboot rest {| a with ua_key := v |}
            else if streq o "--stop" then parse_uboot rest {| a with ua_stop := Some v |}
            else if streq o "--interval" then parse_uboot rest {| a with ua_interval := atoi_s v |}
            else if streq o "--duration" then parse_uboot rest {| a with ua_duration := atoi_s v |}
            else if streq o "--reset" then parse_uboot rest {| a with ua_reset_pin := Some v |}
            else if streq o "--reset-active" then parse_uboot rest {| a with ua_reset_active := v |}
            else if streq o "--reset-hold" then parse_uboot rest {| a with ua_reset_hold := atoi_s v |}
            else None
        end
  end.

Definition uboot_usage : string :=
  "usage: smolmux-cli break-uboot [--key <str>] [--stop <regex>|--no-stop] [--interval <ms>] [--duration <ms>]" +:+ nl +:+
  "         [--reset <dtr|rts> [--reset-active <low|high>] [--reset-hold <ms>]]" +:+ nl.

Definition uboot_msg (a : uboot_args) : json :=
  let msg := sm_msg_interrupt_autoboot (Some "cli-autoboot") (bytes_of_string (ua_key a)) (ua_interval a) (ua_duration a) (ua_stop a) in
  match ua_reset_pin a with
  | Some pin => msg |> add_string "reset_pin" pin
      |> add_string "reset_assert" (if streq (ua_reset_active a) "high" then "set" else "clear")
      |> add_int "reset_hold_ms" (ua_reset_hold a)
  | None => msg
  end.

Definition cmd_break_uboot (argv : list string) : C Z :=
  match parse_uboot (args_of argv) (mk_uboot " " (Some UBOOT_PROMPT) SM_DEFAULT_FLOOD_INTERVAL_MS
          SM_DEFAULT_FLOOD_DURATION_MS None "low" SM_DEFAULT_RESET_HOLD_MS) with
  | None => err uboot_usage ;; mret 1
  | Some a =>
      if streq (ua_key a) "" then err ("error: empty --key" +:+ nl) ;; mret 1
      else if match ua_reset_pin a with Some p => negb (streq p "dtr" || streq p "rts") | None => false end then
        err ("error: --reset must be 'dtr' or 'rts'" +:+ nl) ;; mret 1
      else if negb (streq (ua_reset_active a) "low" || streq (ua_reset_active a) "high") then
        err ("error: --reset-active must be 'low' or 'high'" +:+ nl) ;; mret 1
      else
        send_msg (uboot_msg a) ;;
        e ← wait_for_response SM_MSG_AUTOBOOT_RESULT (Some "cli-autoboot") (ua_duration a + 3000) false;
        if negb (we_rc e =? 0) then mret 1
        else
          let res := default JNull (we_root e) in
          let matched := sm_json_get_bool res "matched" false in
          let reason := match we_root e with Some r => sm_json_get_string r "reason" | None => Some "unknown" end in
          let sent := sm_json_get_int res "sent" 0 in
          either
            ("{" +:+ jq "matched" +:+ ":" +:+ fmt_bool matched +:+ "," +:+ jq "reason" +:+ ":" +:+ jq (default "" reason) +:+
             "," +:+ jq "sent" +:+ ":" +:+ pretty sent +:+ "}")
            ((if matched then "Prompt reached " +:+ em_dash +:+ " bootloader interrupted" else "No prompt seen") +:+
             " (" +:+ default "?" reason +:+ ", " +:+ pretty sent +:+ " keys sent)") ;;
          mret (if matched then 0 else 2)
  end.

(** ** The port *)

Definition cmd_suspend (argv : list string) : C Z :=
  send_msg (sm_msg_suspend (Some "cli-sus")) ;;
  timeout ← timeout_or 5000;
  e ← wait_for_response SM_MSG_SUSPENDED None timeout false;
  if we_rc e =? 0 then
    either (status_ok ("," +:+ jq "action" +:+ ":" +:+ jq "suspended")) ("OK " +:+ em_dash +:+ " serial port suspended") ;; mret 0
  else mret 1.

Definition cmd_resume (argv : list string) : C Z :=
  send_msg (sm_msg_resume (Some "cli-res")) ;;
  timeout ← timeout_or 5000;
  e ← wait_for_response SM_MSG_RESUMED None timeout false;
  if we_rc e =? 0 then
    either (status_ok ("," +:+ jq "action" +:+ ":" +:+ jq "resumed")) ("OK " +:+ em_dash +:+ " serial port resumed") ;; mret 0
  else mret 1.

(** The exit status of a command: its own, or 128 and its signal. *)
Definition child_code (c : child_end) : Z :=
  match c with ChildExited code => code | ChildSignalled sig => 128 + sig | _ => 1 end.

Definition cmd_with_port (argv : list string) : C Z :=
  match args_of argv with
  | [] => err ("error: with-port requires a command to run" +:+ nl +:+
               "  usage: smolmux-cli with-port <command> [args...]" +:+ nl) ;; mret 2
  | cmd =>
      timeout ← timeout_or 5000;
      send_msg (sm_msg_suspend (Some "cli-wp-sus")) ;;
      e ← wait_for_response SM_MSG_SUSPENDED None timeout false;
      if negb (we_rc e =? 0) then err ("error: could not suspend broker; command not run" +:+ nl) ;; mret 1
      else
        json ← json_mode;
        swhen (negb json) (err ("[with-port] port released; running: " +:+ hd "" cmd +:+ nl)) ;;
        match ce_child cmd with
        | ChildForkFailed reason => err ("error: fork: " +:+ reason +:+ nl)
        | _ => emit_cli (CRan cmd)
        end ;;
        smod (fun s => {| s with cx_interrupted := false |}) ;;
        send_msg (sm_msg_resume (Some "cli-wp-res")) ;;
        e ← wait_for_response SM_MSG_RESUMED None timeout false;
        let code := child_code (ce_child cmd) in
        code ← (if negb (we_rc e =? 0) then
                  err ("WARNING: command finished but the broker did not resume " +:+ em_dash +:+
                       " the port may still be released. Run 'smolmux-cli resume' to re-acquire it." +:+ nl) ;;
                  mret (if code =? 0 then 1 else code)
                else swhen (negb json) (err ("[with-port] port re-acquired." +:+ nl)) ;; mret code);
        swhen json (line ("{" +:+ jq "status" +:+ ":" +:+ jq (if code =? 0 then "ok" else "error") +:+ "," +:+
          jq "action" +:+ ":" +:+ jq "with-port" +:+ "," +:+ jq "exit_code" +:+ ":" +:+ pretty code +:+ "}")) ;;
        mret code
  end.

(** ** Standing rules *)

Definition watchdog_opts : optspec :=
  mk_optspec [(110, true); (112, true); (115, true)] [("name", 110); ("pattern", 112); ("severity", 115)].

Definition cmd_watchdog (argv : list string) : C Z :=
  match args_of argv with
  | "add" :: more =>
      let '(evs, _) := getopt_long false watchdog_opts more in
      match last_opt 110 Some None evs, last_opt 112 Some None evs with
      | Some name, Some pattern =>
          let severity := last_opt 115 id "warning" evs in
          let entry := JObj [] |> add_string "name" name |> add_string "pattern" pattern |> add_string "severity" severity in
          send_msg (sm_msg_configure_anomaly (Some "cli-wd") (Some (JArr [entry]))) ;;
          timeout ← timeout_or 5000;
          e ← wait_for_response SM_MSG_CONFIGURE_ANOMALY (Some "cli-wd") timeout false;
          if we_rc e =? 0 then
            let result := default JNull (we_root e) in
            json ← json_mode;
            (if json : bool then print_json result
             else line ("Watchdog '" +:+ name +:+ "' added (severity=" +:+ severity +:+ ", patterns_added=" +:+
                    pretty (sm_json_get_int result "patterns_added" 0) +:+ ")")) ;;
            mret 0
          else mret 1
      | _, _ => err ("error: --name and --pattern are required" +:+ nl) ;; mret 1
      end
  | _ => err ("usage: smolmux-cli watchdog add --name <name> --pattern <regex> [--severity <level>]" +:+ nl) ;; mret 1
  end.

Definition autorespond_opts : optspec :=
  mk_optspec [(110, true); (112, true); (115, true); (111, false); (99, true)]
    [("name", 110); ("pattern", 112); ("send", 115); ("once", 111); ("cooldown", 99)].

Definition rule_line (r : json) : string :=
  "  " +:+ fmt_left 16 (default "?" (sm_json_get_string r "name")) +:+ " /" +:+
  default "?" (sm_json_get_string r "pattern") +:+ "/  once=" +:+ yes_no (sm_json_get_bool r "once" false) +:+
  " cooldown=" +:+ pretty (sm_json_get_int r "cooldown_ms" 0) +:+ "ms" +:+ nl.

Definition wait_rules (t : sm_msg_type) : C wait_end :=
  timeout ← timeout_or 5000; wait_for_response t (Some "cli-ar") timeout false.

Definition autorespond_list : C Z :=
  send_msg (sm_msg_autoresponders_request (Some "cli-ar")) ;;
  e ← wait_rules SM_MSG_AUTORESPONDERS_RESPONSE;
  if negb (we_rc e =? 0) then mret 1
  else
    let res := default JNull (we_root e) in
    json ← json_mode;
    (if json : bool then print_json res
     else match get_item_ci res "rules" with
          | Some (JArr (r :: l)) => out (String.concat "" (map rule_line (r :: l)))
          | _ => line "No autoresponder rules."
          end) ;;
    mret 0.

Definition autorespond_remove (name : option string) : C Z :=
  match name with
  | None => err ("error: --name is required" +:+ nl) ;; mret 1
  | Some n =>
      send_msg (sm_msg_configure_autoresponder (Some "cli-ar") name None [] false 0 true) ;;
      e ← wait_rules SM_MSG_CONFIGURE_AUTORESPONDER;
      if negb (we_rc e =? 0) then mret 1
      else
        let removed := match we_root e with Some r => sm_json_get_bool r "removed" false | None => false end in
        either ("{" +:+ jq "removed" +:+ ":" +:+ fmt_bool removed +:+ "}")
          ((if removed then "Removed autoresponder '" else "No autoresponder named '") +:+ n +:+ "'") ;;
        mret (if removed then 0 else 1)
  end.

Definition autorespond_add (name pattern send : option string) (once : bool) (cooldown : Z) : C Z :=
  match name, pattern, send with
  | Some n, Some p, Some s =>
      let resp := sm_str_unescape (bytes_of_string s) (Z.to_nat SM_AR_RESPONSE_MAX) in
      send_msg (sm_msg_configure_autoresponder (Some "cli-ar") name pattern resp once cooldown false) ;;
      e ← wait_rules SM_MSG_CONFIGURE_AUTORESPONDER;
      if negb (we_rc e =? 0) then mret 1
      else
        json ← json_mode;
        (if json : bool then print_json (default JNull (we_root e))
         else line ("Autoresponder '" +:+ n +:+ "' added (pattern=/" +:+ p +:+ "/, " +:+ pretty (zlen resp) +:+
                " bytes" +:+ (if once then ", once" else "") +:+ ")")) ;;
        mret 0
  | _, _, _ => err ("error: --name, --pattern and --send are required" +:+ nl) ;; mret 1
  end.

Definition cmd_autorespond (argv : list string) : C Z :=
  match args_of argv with
  | [] => err ("usage: smolmux-cli autorespond <add|list|remove> ..." +:+ nl +:+
      "  add --name <n> --pattern <regex> --send <str> [--once] [--cooldown <ms>]" +:+ nl +:+ "  list" +:+ nl +:+
      "  remove --name <n>" +:+ nl) ;; mret 1
  | sub :: more =>
      if streq sub "list" then autorespond_list
      else
        let '(evs, _) := getopt_long false autorespond_opts more in
        let name := last_opt 110 Some None evs in
        if streq sub "remove" then autorespond_remove name
        else if streq sub "add" then
          autorespond_add name (last_opt 112 Some None evs) (last_opt 115 Some None evs) (given 111 evs)
            (last_opt 99 atoi_s SM_AR_DEFAULT_COOLDOWN_MS evs)
        else err ("error: unknown autorespond subcommand '" +:+ sub +:+ "'" +:+ nl) ;; mret 1
  end.
End control.

(** * The command-line client: watching a device ([src/cli.c])

    Waiting for a line, streaming the output, the report. *)

#[local] Open Scope string_scope.
#[local] Open Scope list_scope.
#[local] Open Scope Z_scope.
#[local] Open Scope json_scope.

Section report.
Context {J : JsonText} {CE : CliEnv}.

(** ** Waiting for a line *)

(** What stands behind the pattern: only a timeout may, up to a [--]. *)
Fixpoint wait_for_behind (args : list string) (timeout : Z) : option Z :=
  match args with
  | [] => Some timeout
  | a :: rest =>
      if streq a "--" then Some timeout
      else if streq a "--timeout" || streq a "-t" then
        match rest with [] => None | v :: rest => wait_for_behind rest (atoi_s v) end
      else if String.prefix "--timeout=" a then
        wait_for_behind rest (atoi_s (String.substring 10 (String.length a - 10) a))
      else if is_option_arg a then None
      else wait_for_behind rest timeout
  end.

(** The pattern and the timeout. *)
Definition wait_for_parse (argv : list string) (default_timeout : Z) : option (string * Z) :=
  let '(evs, ops) := getopt_long true (mk_optspec [(116, true)] [("timeout", 116)]) (args_of argv) in
  if existsb (fun e => match e with OptBad => true | OptGiven _ _ => false end) evs then None
  else
    match ops with
    | [] => None
    | pattern :: behind =>
        timeout ← wait_for_behind behind (last_opt 116 atoi_s default_timeout evs); Some (pattern, timeout)
    end.

Definition cmd_wait_for (argv : list string) : C Z :=
  def ← timeout_or 5000;
  match wait_for_parse argv def with
  | None => err ("usage: smolmux-cli wait-for [--timeout <ms>] <pattern>" +:+ nl) ;; mret 1
  | Some (pattern, timeout) =>
      send_msg (sm_msg_listen_expect (Some "cli-wait") (Some pattern) timeout) ;;
      e ← wait_for_response SM_MSG_EXPECT_RESULT (Some "cli-wait") (timeout + 2000) false;
      if negb (we_rc e =? 0) then mret 1
      else
        let matched := match we_root e with Some r => sm_json_get_bool r "matched" false | None => false end in
        json ← json_mode;
        match we_root e with
        | Some r => if json : bool then print_json r
                    else swhen (negb matched) (err ("[timeout " +:+ em_dash +:+ " pattern not matched]" +:+ nl))
        | None => swhen (negb matched) (err ("[timeout " +:+ em_dash +:+ " pattern not matched]" +:+ nl))
        end ;;
        mret (if matched then 0 else 1)
  end.

(** ** Streaming *)

(** The bytes kept for the JSON form and the anomalies seen. *)
Record monitor_ctx := mk_monitor { mo_output : bytes; mo_anomalies : Z }.

Definition monitor_handler (m : sm_msg) (c : monitor_ctx) : C monitor_ctx :=
  match m_root m with
  | None => mret c
  | Some root =>
      json ← json_mode;
      match m_type m with
      | SM_MSG_OUTPUT =>
          match sm_json_get_string root "data" ≫= fun b64 => sm_base64_decode (bytes_of_string b64) with
          | Some ((_ :: _) as data) =>
              if json : bool then mret {| c with mo_output := mo_output c ++ data |}
              else out_bytes data ;; mret c
          | _ => mret c
          end
      | SM_MSG_ANOMALY =>
          swhen (negb json) (err (nl +:+ "[anomaly:" +:+ default "?" (sm_json_get_string root "severity") +:+ "] " +:+
            default "?" (sm_json_get_string root "pattern_name") +:+ nl)) ;;
          mret {| c with mo_anomalies := mo_anomalies c + 1 |}
      | SM_MSG_LINK_DOWN => swhen (negb json) (err (nl +:+ "[link_down]" +:+ nl)) ;; mret c
      | _ => mret c
      end
  end.

(** [elapsed_ms] is the time since the start when the turn begins. *)
Fixpoint monitor_loop (polls : list poll_answer) (duration elapsed_ms : Z) (c : monitor_ctx) : C monitor_ctx :=
  let stop polls c := smod (fun s => {| s with cx_polls := polls |}) ;; mret c in
  interrupted ← sget cx_interrupted;
  if interrupted || (duration * 1000 - elapsed_ms <=? 0) then stop polls c
  else
    match polls with
    | [] | PollFailed :: _ => stop (tl polls) c
    | PollInterrupted term :: polls' =>
        swhen term (smod (fun s => {| s with cx_interrupted := true |})) ;;
        monitor_loop polls' duration elapsed_ms c
    | PollReturned readable hup realloc_ok got elapsed_ms :: polls' =>
        r ← (if readable then read_messages monitor_handler realloc_ok got c else mret (true, c));
        let '(ok, c) := r in
        if negb ok || hup then stop polls' c else monitor_loop polls' duration elapsed_ms c
    end.

Definition cmd_monitor (argv : list string) : C Z :=
  let '(evs, _) := getopt_long false (mk_optspec [(100, true)] [("duration", 100)]) (args_of argv) in
  let duration := Z.max 1 (Z.min 300 (last_opt 100 atoi_s 30 evs)) in
  json ← json_mode;
  swhen (negb json) (err ("[monitoring for " +:+ pretty duration +:+ " seconds " +:+ em_dash +:+ " Ctrl-C to stop]" +:+ nl)) ;;
  polls ← sget cx_polls;
  c ← monitor_loop polls duration 0 (mk_monitor [] 0);
  (if json : bool then
     print_json (JObj [] |> add_string "output" (string_of_bytes (cstr (mo_output c)))
       |> add_int "anomalies" (mo_anomalies c))
   else err (nl +:+ "[monitoring complete " +:+ em_dash +:+ " " +:+ pretty (mo_anomalies c) +:+ " anomalies]" +:+ nl)) ;;
  mret 0.

(** ** The report *)

Definition format_status_section (status : option json) : string :=
  "## Port Status" +:+ nl +:+
  match status with
  | None => ""
  | Some status =>
      "- Port: " +:+ default "?" (sm_json_get_string status "port") +:+ nl +:+
      "- Baud: " +:+ pretty (sm_json_get_int status "baud" 0) +:+ nl +:+
      "- Connected: " +:+ yes_no (sm_json_get_bool status "connected" false) +:+ nl +:+
      "- Suspended: " +:+ yes_no (sm_json_get_bool status "suspended" false) +:+ nl +:+
      match get_item_ci status "clients" with
      | Some clients => "- Clients: " +:+ pretty (Z.of_nat (length (elements (Some clients)))) +:+ nl
      | None => ""
      end +:+
      match get_item_ci status "boot" with
      | Some boot => "- Boot: " +:+ pretty (reached_count boot) +:+ "/" +:+ pretty (sm_json_get_int boot "total" 0) +:+
                     " stages " +:+ em_dash +:+ " " +:+ boot_state boot +:+ nl
      | None => ""
      end
  end.

Definition incident_line (inc : json) : string :=
  "- **" +:+ default "?" (sm_json_get_string inc "pattern_name") +:+ "** [" +:+
  default "?" (sm_json_get_string inc "severity") +:+ "]: " +:+ default "" (sm_json_get_string inc "match_text") +:+ nl.
Definition format_incidents_section (resp : option json) : string :=
  nl +:+ "## Incidents" +:+ nl +:+
  match elements (r ← resp; get_item_ci r "incidents") with
  | [] => "None detected." +:+ nl
  | l => String.concat "" (map incident_line l)
  end.

Definition format_history_section (resp : option json) : bytes :=
  bytes_of_string (nl +:+ "## Recent Output (last 32KB)" +:+ nl) ++
  match elements (r ← resp; get_item_ci r "chunks") with
  | [] => bytes_of_string ("(no output)" +:+ nl)
  | l => bytes_of_string ("```" +:+ nl) ++ mjoin (map chunk_bytes l) ++ bytes_of_string (nl +:+ "```" +:+ nl)
  end.

(** What was answered; nothing when the wait failed. *)
Definition request_json (t : sm_msg_type) (id : string) (timeout_ms : Z) : C (option json) :=
  e ← wait_for_response t (Some id) (if 0 <? timeout_ms then timeout_ms else 5000) false;
  mret (we_root e).

Definition add_item_opt (key : string) (o : option json) (obj : json) : json :=
  match o with Some v => add_item key v obj | None => obj end.

Definition cmd_report (argv : list string) : C Z :=
  timeout ← sget cx_timeout_ms;
  send_msg (sm_msg_status (Some "cli-rpt-s")) ;;
  status ← request_json SM_MSG_STATUS_RESPONSE "cli-rpt-s" timeout;
  send_msg (sm_msg_incidents_request (Some "cli-rpt-i") 0) ;;
  incidents ← request_json SM_MSG_INCIDENTS_RESPONSE "cli-rpt-i" timeout;
  send_msg (sm_msg_history_request (Some "cli-rpt-h") 0 32768) ;;
  history ← request_json SM_MSG_HISTORY_RESPONSE "cli-rpt-h" (if 0 <? timeout then timeout else 10000);
  json ← json_mode;
  (if json : bool then
     print_json (JObj [] |> add_item_opt "status" status |> add_item_opt "incidents" incidents
       |> add_item_opt "history" history)
   else
     out_bytes (bytes_of_string ("# smolmux Device Report" +:+ nl +:+ nl) ++
       bytes_of_string (format_status_section status) ++ bytes_of_string (format_incidents_section incidents) ++
       format_history_section history)) ;;
  mret 0.
End report.
