(* ===== verification/CliBoards.v ===== *)
(** The command-line client: boards, and the command lines it starts brokers
    with. *)

(** * The command-line client: boards and brokers ([src/cli.c])

    The commands that need no broker to answer them: the ports, the tokens, the
    brokers of this host, the boards of a manifest, stopping and cleaning up.
    Processes, signals and directories answer through [OsEnv]. *)
From stdpp Require Import pretty.
From S2P Require Import Prelude Cstr Json CJsonNum Protocol Regex McpText Effects Client BrokerState.
From S2P Require Import McpResults McpClient HostPaths Profiles BrokerMain BrokerInfo Getopt Cli CliControl.

#[local] Open Scope string_scope.
#[local] Open Scope list_scope.
#[local] Open Scope Z_scope.
#[local] Open Scope json_scope.

(** [os_kill]: what sending SIGTERM fails with; [os_fork]: the pid of the n-th
    process started; [os_gone]: whether the socket is gone, poll after poll;
    [os_owner]: whose file it is, by [lstat]. *)
Class OsEnv := {
  os_kill : Z -> option string;
  os_alive : Z -> bool;
  os_proc_stat : Z -> option bytes;
  os_fork : nat -> option Z;
  os_self_exe : option bytes;
  os_executable : string -> bool;
  os_owner : string -> option Z;
  os_gone : list bool }.

Definition plural (n : Z) : string := if n =? 1 then "" else "s".
(** [%d] of [sscanf]: the number and what follows. *)
Definition scan_int (s : bytes) : option (Z * bytes) :=
  let '(v, rest) := strtol10 s in if zlen rest <? zlen s then Some (i32 v, rest) else None.

Section boards.
Context {J : JsonText} {HE : HostEnv} {CE : CliEnv} {PE : ProbeEnv} {PP : PeerEnv} {OS : OsEnv}.

Definition kill_term (pid : Z) : C (option string) := emit_cli (CKilled pid) ;; mret (os_kill pid).

(** ** Asking *)

Definition probe (path : string) : C (bool * sm_broker_info) :=
  k ← sget cx_questions;
  smod (fun s => {| s with cx_questions := k + 1 |}) ;;
  mret (sm_broker_probe (pe_script k path) path).
(** The first 64, and how many there are. *)
Definition discover : C (list sm_broker_info * Z) :=
  k ← sget cx_questions;
  let '(infos, n) := sm_broker_discover k 64 in
  smod (fun s => {| s with cx_questions := k + zlen infos |}) ;;
  mret (infos, Z.of_nat n).

(** ** Ports, tokens, brokers *)

Definition json_flag (a : string) : bool := streq a "--json" || streq a "-j".

Definition cmd_list_ports (argv : list string) : C Z :=
  swhen (existsb json_flag (args_of argv)) (smod (fun s => {| s with cx_json := true |})) ;;
  json ← json_mode;
  (if json : bool then print_json (JArr (map sm_serial_port_info_to_json (sm_list_serial_ports_info 64)))
   else line sm_format_serial_ports_text) ;;
  mret 0.

(** [sscanf(base, "smolmux-%7[a-z]-%d.token")]. *)
Definition token_file_name (base : bytes) : option (string * Z) :=
  let p := bytes_of_string "smolmux-" in
  if negb (starts_with p base) then None
  else
    let rest := zdrop (zlen p) base in
    let kind := ztake 7 (take_while islower rest) in
    match kind, zdrop (zlen kind) rest with
    | _ :: _, 45 :: rest => '(port, _) ← scan_int rest; Some (string_of_bytes kind, port)
    | _, _ => None
    end.

Definition token_entry (path : string) : option (string * Z * string) :=
  let base := match split_last 47 (bytes_of_string path) with Some (_, b) => b | None => bytes_of_string path end in
  '(kind, port) ← token_file_name base;
  owner ← os_owner path;
  if negb (owner =? he_euid) then None
  else tok ← sm_read_owner_secret_file path 256; Some (kind, port, tok).

Definition token_entries : list (string * Z * string) :=
  mjoin (map (fun d => omap token_entry (he_glob (snprintf_s 600 (d +:+ "/smolmux-*-*.token")))) sm_auth_token_dirs).

Definition cmd_token (argv : list string) : C Z :=
  json ← json_mode;
  (if json : bool then
     print_json (JArr (map (fun '(kind, port, tok) =>
       JObj [] |> add_string "kind" kind |> add_int "port" port |> add_string "token" tok) token_entries))
   else
     out (String.concat "" (map (fun '(kind, port, tok) => kind +:+ " " +:+ pretty port +:+ " " +:+ tok +:+ nl) token_entries)) ;;
     swhen (bool_decide (token_entries = []))
       (err ("No generated auth tokens in " +:+ hd "" sm_auth_token_dirs +:+
          (if (1 <? length sm_auth_token_dirs)%nat then " or /tmp" else "") +:+
          ": no local broker serves TCP/WS with one." +:+ nl))) ;;
  mret (if bool_decide (token_entries = []) then 1 else 0).

Definition cmd_brokers (argv : list string) : C Z :=
  r ← discover;
  let '(infos, n) := r in
  json ← json_mode;
  (if json : bool then print_json (JArr (map sm_broker_info_to_json infos))
   else if n =? 0 then line "No active smolmux brokers found."
   else
     out (String.concat "" (map (fun i => sm_broker_info_format i 480 +:+ nl) infos)) ;;
     swhen (zlen infos <? n) (line ("... and " +:+ pretty (n - zlen infos) +:+ " more"))) ;;
  mret 0.

(** *** Boards *)

Definition board_of (info : sm_broker_info) : string :=
  if bi_reachable info && negb (streq (bi_board info) "") then bi_board info else "(unlabeled)".
(** The names in the order they are first seen. *)
Definition board_names (infos : list sm_broker_info) : list string :=
  fold_left (fun names i => if existsb (streq (board_of i)) names then names else names ++ [board_of i]) infos [].
Definition wires_of (name : string) (infos : list sm_broker_info) : list sm_broker_info :=
  List.filter (fun i => streq (board_of i) name) infos.
Definition role_or_dash (info : sm_broker_info) : string := if streq (bi_role info) "" then "-" else bi_role info.

Definition wire_row (i : sm_broker_info) : string :=
  "  " +:+ fmt_left 8 (role_or_dash i) +:+ " " +:+ fmt_left 4 (if bi_reachable i then bi_link_type i else "?") +:+ " " +:+
  fmt_left 22 (bi_endpoint i) +:+ " " +:+ bi_socket i +:+ (if bi_reachable i then "" else "  (unreachable)") +:+ nl.

Definition cmd_boards (argv : list string) : C Z :=
  r ← discover;
  let '(infos, n) := r in
  json ← json_mode;
  (if json : bool then
     print_json (JArr (map (fun b => JObj [] |> add_string "board" b
       |> add_item "wires" (JArr (map sm_broker_info_to_json (wires_of b infos)))) (board_names infos)))
   else if n =? 0 then line "No active smolmux brokers found."
   else
     out (String.concat "" (map (fun b =>
       let count := zlen (wires_of b infos) in
       "Board: " +:+ b +:+ " (" +:+ pretty count +:+ " wire" +:+ plural count +:+ ")" +:+ nl +:+
       String.concat "" (map wire_row (wires_of b infos))) (board_names infos)))) ;;
  mret 0.

(** ** Bringing a board up *)

(** The broker next to this program, else the one on the path. *)
Definition resolve_broker_path : string :=
  match os_self_exe with
  | Some ((_ :: _) as exe) =>
      match split_last 47 (ztake 4095 exe) with
      | Some (dir, _) =>
          let path := string_of_bytes dir +:+ "/smolmux" in
          if (slen path <? 4096) && os_executable path then path else "smolmux"
      | None => "smolmux"
      end
  | _ => "smolmux"
  end.

Definition spawn_wire (nth : nat) (argv : list string) (foreground : bool) (log : string) : C (option Z) :=
  match os_fork nth with
  | Some pid => emit_cli (CSpawned argv foreground log) ;; mret (Some pid)
  | None => mret None
  end.

Definition wire_logfile (m : sm_board_manifest) (w : sm_board_wire) : string :=
  snprintf_s 4096 (default "/tmp" (nonempty_s (he_env "XDG_RUNTIME_DIR")) +:+ "/smolmux-" +:+ bm_board m +:+ "-" +:+
    bw_role w +:+ ".log").

Definition opt_arg (name value : string) : list string := if streq value "" then [] else [name; value].
Definition build_wire_argv (broker : string) (m : sm_board_manifest) (w : sm_board_wire) (sock : string) : list string :=
  [broker] ++
  (if streq (bw_link w) "gdb"
   then ["--gdb"; "--gdb-path"; bw_gdb_path w] ++ opt_arg "--gdb-target" (bw_target w)
   else [bw_device w; "-b"; snprintf_s 16 (pretty (bw_baud w))] ++ opt_arg "-p" (bw_profile w)) ++
  ["--board"; bm_board m; "--role"; bw_role w] ++
  opt_arg "--identity-policy" (bw_policy w) ++ opt_arg "--by-path" (bw_by_path w) ++ ["-s"; sock].

Definition add_text (key : string) (s : option string) (o : json) : json :=
  match nonempty_s s with Some v => add_string key v o | None => o end.
Definition board_up_add_wire_json (role status : string) (socket log error : option string) : json :=
  JObj [] |> add_string "role" role |> add_string "status" status
    |> add_text "socket" socket |> add_text "log" log |> add_text "error" error.

Definition identity_reason : string :=
  "named board + weak by-id; pin by_path (policy=seat) or pass --identity-ok / SMOLMUX_IDENTITY_OK=1".

(** A serial wire whose name says too little about the device. *)
Definition ambiguous_wire (identity_ok : bool) (w : sm_board_wire) : bool :=
  streq (bw_link w) "uart" &&
  sm_identity_named_board_is_ambiguous true (sm_serial_by_id_is_weak (bw_device w)) (Some (bw_policy w))
    (Some (bw_by_path w))
    (sm_serial_resolve_by_path 256 (if streq (bw_by_path w) "" then bw_device w else bw_by_path w)) identity_ok.

(** What became of a wire: its line in JSON, and its socket and pid if it was
    started. *)
Definition started : Type := sm_board_wire * string * Z.

Definition start_wire (broker : string) (m : sm_board_manifest) (foreground : bool) (nth : nat) (w : sm_board_wire) :
    C (option json * option started) :=
  quiet ← json_mode;
  let row text : C unit := swhen (negb quiet) (out ("  " +:+ fmt_left 8 (bw_role w) +:+ " " +:+ text +:+ nl)) in
  let done status socket log error : C (option json * option started) :=
    mret (Some (board_up_add_wire_json (bw_role w) status socket log error), None) in
  match sm_board_wire_socket m w SM_SOCK_PATH_MAX with
  | None =>
      row ("ERROR: socket path too long " +:+ em_dash +:+ " set an explicit " +:+ dq +:+ "socket" +:+ dq) ;;
      done "error" None None (Some "socket path too long")
  | Some sock =>
      r ← probe sock;
      if fst r && bi_reachable (snd r) then
        row ("already up  (" +:+ sock +:+ ")") ;; done "already_up" (Some sock) None None
      else
        let log := wire_logfile m w in
        pid ← spawn_wire nth (build_wire_argv broker m w sock) foreground log;
        match pid with
        | None => row "ERROR: fork failed" ;; done "error" (Some sock) (Some log) (Some "fork failed")
        | Some pid => mret (None, Some (w, sock, pid))
        end
  end.

Fixpoint start_wires (broker : string) (m : sm_board_manifest) (foreground : bool) (nth : nat) (ws : list sm_board_wire) :
    C (list json * list started) :=
  match ws with
  | [] => mret ([], [])
  | w :: ws' =>
      r ← start_wire broker m foreground nth w;
      rs ← start_wires broker m foreground (S nth) ws';
      mret (option_list (fst r) ++ fst rs, option_list (snd r) ++ snd rs)
  end.

(** Up to [tries] probes, 100 ms apart. *)
Fixpoint wire_up (tries : nat) (sock : string) : C bool :=
  match tries with
  | O => mret false
  | S t => r ← probe sock;
           if fst r && bi_reachable (snd r) then mret true else emit_cli (CSlept 100) ;; wire_up t sock
  end.

Fixpoint verify_wires (m : sm_board_manifest) (ws : list started) : C (list json) :=
  match ws with
  | [] => mret []
  | (w, sock, _) :: ws' =>
      up ← wire_up 15 sock;
      let log := wire_logfile m w in
      quiet ← json_mode;
      swhen (negb quiet) (out ("  " +:+ fmt_left 8 (bw_role w) +:+ " " +:+
        (if up : bool then "up" else "FAILED " +:+ em_dash +:+ " see log") +:+
        "  (" +:+ sock +:+ ")  log " +:+ log +:+ nl)) ;;
      rest ← verify_wires m ws';
      mret (board_up_add_wire_json (bw_role w) (if up : bool then "up" else "failed") (Some sock) (Some log) None :: rest)
  end.

Fixpoint kill_all (pids : list Z) : C unit :=
  match pids with [] => mret tt | p :: pids' => _ ← kill_term p; kill_all pids' end.

Definition load_manifest (path : string) : Z * sm_board_manifest :=
  sm_board_manifest_load (he_file path) (mk_manifest "" []).

(** In the foreground the program waits for a signal and then stops what it
    started. *)
Definition board_up (path : string) (foreground identity_ok : bool) : C Z :=
  json ← json_mode;
  let '(rc, m) := load_manifest path in
  if negb (rc =? 0) then
    (if json : bool then print_json (JObj [] |> add_string "error" "manifest_load" |> add_string "path" path)
     else err ("error: failed to load manifest " +:+ path +:+ nl)) ;;
    mret 1
  else
    let identity_ok := identity_ok ||
      match nonempty_s (he_env "SMOLMUX_IDENTITY_OK") with Some v => negb (streq v "0") | None => false end in
    match List.find (ambiguous_wire identity_ok) (bm_wires m) with
    | Some w =>
        (if json : bool then
           print_json (sm_identity_ambiguous_json (bm_board m) (bw_device w) identity_reason (sm_list_serial_ports_info 64))
         else err (sm_identity_ambiguous_fprint (bm_board m) (bw_device w) identity_reason)) ;;
        mret 1
    | None =>
        swhen identity_ok (emit_cli (CEnv "SMOLMUX_IDENTITY_OK" "1")) ;;
        let n := zlen (bm_wires m) in
        swhen (negb json) (out ("Bringing up board '" +:+ bm_board m +:+ "' (" +:+ pretty n +:+ " wire" +:+ plural n +:+ ")" +:+
          (if foreground then " [foreground]" else "") +:+ nl)) ;;
        r ← start_wires resolve_broker_path m foreground 0 (bm_wires m);
        let '(rows, begun) := r in
        verified ← verify_wires m begun;
        swhen json (print_json (JObj [] |> add_string "board" (bm_board m) |> add_bool "foreground" foreground
          |> add_item "wires" (JArr (rows ++ verified)))) ;;
        swhen foreground
          (swhen (negb json) (out ("Board '" +:+ bm_board m +:+ "' up in foreground. Ctrl-C to stop all wires." +:+ nl)) ;;
           smod (fun s => {| s with cx_interrupted := true |}) ;;
           swhen (negb json) (out (nl +:+ "Stopping board '" +:+ bm_board m +:+ "'..." +:+ nl)) ;;
           kill_all (map snd begun)) ;;
        mret 0
    end.

(** ** The rest of a board *)

Definition on_board (name : string) (i : sm_broker_info) : bool := bi_reachable i && streq (bi_board i) name.

(** How many were signalled. *)
Fixpoint stop_wires (infos : list sm_broker_info) : C Z :=
  match infos with
  | [] => mret 0
  | i :: infos' =>
      let row text := out ("  " +:+ fmt_left 8 (role_or_dash i) +:+ " " +:+ text +:+ nl) in
      let pid := bi_pid i in
      n ← (if pid <=? 0 then row ("unknown pid " +:+ em_dash +:+ " stop manually (" +:+ bi_socket i +:+ ")") ;; mret 0
           else
             failed ← kill_term pid;
             match failed with
             | None => row ("stopped pid " +:+ pretty pid +:+ "  (" +:+ bi_socket i +:+ ")") ;; mret 1
             | Some e => row ("signal pid " +:+ pretty pid +:+ " failed: " +:+ e) ;; mret 0
             end);
      more ← stop_wires infos';
      mret (n + more)
  end.

Definition board_down (name : string) : C Z :=
  r ← discover;
  n ← stop_wires (List.filter (on_board name) (fst r));
  line (if n =? 0 then "No running wires found for board '" +:+ name +:+ "'."
        else "Board '" +:+ name +:+ "': stopped " +:+ pretty n +:+ " wire" +:+ plural n +:+ " (SIGTERM).") ;;
  mret 0.

Definition board_status (name : string) : C Z :=
  r ← discover;
  match List.filter (on_board name) (fst r) with
  | [] => line ("No active wires for board '" +:+ name +:+ "'.")
  | l => out (String.concat "" (map (fun i => sm_broker_info_format i 480 +:+ nl) l))
  end ;;
  mret 0.

(** A manifest, its path and how many of its wires are up. *)
Definition manifest_json (path : string) (m : sm_board_manifest) (up : Z) : json :=
  JObj [] |> add_string "board" (bm_board m) |> add_string "manifest" path
    |> add_int "wires" (zlen (bm_wires m)) |> add_int "running" up
    |> add_item "wire_list" (JArr (map (fun w =>
         JObj [] |> add_string "role" (bw_role w) |> add_string "link" (bw_link w)) (bm_wires m))).
Definition manifest_row (path : string) (m : sm_board_manifest) (up : Z) : string :=
  let wires := snprintf_s 256 (String.concat ", " (map (fun w => bw_role w +:+ "(" +:+ bw_link w +:+ ")") (bm_wires m))) in
  let state := if up =? 0 then "down" else snprintf_s 16 (pretty up +:+ "/" +:+ pretty (zlen (bm_wires m)) +:+ " up") in
  fmt_left 16 (bm_board m) +:+ " " +:+ fmt_left 9 state +:+ " " +:+ wires +:+ "  (" +:+ path +:+ ")" +:+ nl.

Definition board_list (dir_arg : option string) : C Z :=
  let dir := match dir_arg, he_env "SMOLMUX_BOARD_DIR", he_env "HOME" with
             | Some d, _, _ => Some d
             | None, Some d, _ => Some d
             | None, None, Some home => Some (snprintf_s 512 (home +:+ "/.config/smolmux"))
             | None, None, None => None
             end in
  match dir with
  | None => err ("error: no board dir (pass one, set SMOLMUX_BOARD_DIR, or set HOME)" +:+ nl) ;; mret 1
  | Some dir =>
      json ← json_mode;
      match he_glob (snprintf_s 600 (dir +:+ "/*.board.json")) with
      | [] => line (if json : bool then "[]" else "No board manifests in " +:+ dir) ;; mret 0
      | paths =>
          r ← discover;
          let up m := Z.of_nat (length (List.filter (on_board (bm_board m)) (fst r))) in
          let loaded path := let '(rc, m) := load_manifest path in if rc =? 0 then Some m else None in
          (if json : bool then
             print_json (JArr (omap (fun p => m ← loaded p; Some (manifest_json p m (up m))) paths))
           else
             out (String.concat "" (map (fun p => match loaded p with
               | Some m => manifest_row p m (up m)
               | None => fmt_left 16 "?" +:+ " " +:+ fmt_left 9 "-" +:+ " (invalid manifest)  (" +:+ p +:+ ")" +:+ nl
               end) paths))) ;;
          mret 0
      end
  end.

Definition board_up_args (args : list string) : option string * bool * bool :=
  fold_left (fun '(manifest, fg, ok) a =>
    if streq a "--foreground" || streq a "-F" then (manifest, true, ok)
    else if streq a "--identity-ok" then (manifest, fg, true)
    else if json_flag a then (manifest, fg, ok)
    else (Some a, fg, ok)) args (None, false, false).

Definition cmd_board (argv : list string) : C Z :=
  match args_of argv with
  | [] => err ("usage: smolmux-cli board <up|down|status> ..." +:+ nl) ;; mret 1
  | action :: more =>
      if streq action "up" then
        match board_up_args more with
        | (Some manifest, foreground, identity_ok) => board_up manifest foreground identity_ok
        | (None, _, _) =>
            err ("usage: smolmux-cli board up <manifest.json> [--foreground] [--identity-ok]" +:+ nl) ;; mret 1
        end
      else if streq action "down" then
        match more with
        | name :: _ => board_down name
        | [] => err ("usage: smolmux-cli board down <name>" +:+ nl) ;; mret 1
        end
      else if streq action "status" then
        match more with
        | name :: _ => board_status name
        | [] => err ("usage: smolmux-cli board status <name>" +:+ nl) ;; mret 1
        end
      else if streq action "list" then board_list (head more)
      else err ("error: unknown board action '" +:+ action +:+ "' (up|down|status|list)" +:+ nl) ;; mret 1
  end.

(** ** Stopping one broker *)

Definition leftover : Z := Z.of_nat (snd (sm_discover_all_sockets 16)).
Definition no_broker (hint : string) : string :=
  if 0 <? leftover then
    "error: no live broker socket found" +:+ nl +:+
    "  " +:+ pretty leftover +:+ " leftover socket(s); smolmux-cli brokers lists them" +:+ nl +:+ hint +:+ nl
  else "error: no broker socket found" +:+ nl +:+ hint +:+ nl.

(** The socket of [-s], else that of the only broker; never a guess. *)
Definition shutdown_socket (socket_arg : option string) : string + string :=
  match socket_arg with
  | Some s => inr (snprintf_s 108 s)
  | None =>
      let '(paths, n) := sm_discover_reachable_sockets 16 in
      match paths, n with
      | [], _ | _, O => inl (no_broker "  Use -s <path> or start a broker first")
      | p :: _, 1%nat => inr p
      | _, _ => inl ("error: " +:+ pretty (Z.of_nat n) +:+ " brokers running " +:+ em_dash +:+ " pick one with -s:" +:+ nl +:+
                     String.concat "" (map (fun p => "  " +:+ p +:+ nl) paths))
      end
  end.

Definition cmd_shutdown (socket_arg : option string) (argv : list string) : C Z :=
  match shutdown_socket socket_arg with
  | inl text => err text ;; mret 1
  | inr sock =>
      timeout ← timeout_or 5000;
      k ← sget cx_questions;
      smod (fun s => {| s with cx_questions := k + 1 |}) ;;
      let '(pid, failed) := sm_broker_stop_by_socket k sock timeout os_kill os_gone in
      match pid with Some p => emit_cli (CKilled p) | None => mret tt end ;;
      match failed with
      | Some e => err ("error: " +:+ snprintf_s 256 e +:+ nl) ;; mret 1
      | None => line ("Stopped broker pid " +:+ pretty (default (-1) pid) +:+ " (" +:+ sock +:+ " removed).") ;; mret 0
      end
  end.

(** ** Cleaning up *)

(** The parent, from behind the last parenthesis of [/proc/<pid>/stat]. *)
Definition proc_ppid (pid : Z) : Z :=
  match os_proc_stat pid ≫= fgets 512 with
  | Some (buf, _) =>
      match split_last 41 (cstr buf) with
      | Some (_, rest) =>
          match skip_while isspace rest with
          | _ :: rest => match scan_int rest with Some (ppid, _) => ppid | None => -1 end
          | [] => -1
          end
      | None => -1
      end
  | None => -1
  end.

(** How many are listed and how many signalled, of the processes of one broker. *)
Fixpoint gc_clients (dry kill_mcp : bool) (sock : string) (clients : list (string * Z)) : C (Z * Z) :=
  match clients with
  | [] => mret (0, 0)
  | (name, pid) :: clients' =>
      let alive := (0 <? pid) && os_alive pid in
      let ppid := if alive then proc_ppid pid else -1 in
      let do_kill := sm_gc_should_kill name alive ppid kill_mcp in
      line (sock +:+ "  " +:+ name +:+ "  pid=" +:+ pretty pid +:+ "  ppid=" +:+ pretty ppid +:+ "  " +:+
        (if do_kill then "KILL" else "keep") +:+ (if dry then " (dry-run)" else "")) ;;
      n ← (if do_kill && negb dry && (0 <? pid) then
             failed ← kill_term pid;
             match failed with
             | None => mret 1
             | Some e => err ("  SIGTERM " +:+ pretty pid +:+ ": " +:+ e +:+ nl) ;; mret 0
             end
           else mret 0);
      more ← gc_clients dry kill_mcp sock clients';
      mret (1 + fst more, n + snd more)
  end.

(** The MCP clients of a broker; of one too old to tell pids, the processes on
    its socket. *)
Definition gc_known (dry kill_mcp : bool) (sock : string) (info : sm_broker_info) : C (Z * Z) :=
  let note text := line (sock +:+ "  (broker reports MCP clients but no pids; " +:+ text +:+ ")") ;; mret (0, 0) in
  match List.filter (fun c => sm_client_name_is_mcp (fst c)) (bi_names info) with
  | [] => mret (0, 0)
  | mcp =>
      if existsb (fun c => 0 <? snd c) mcp then gc_clients dry kill_mcp sock mcp
      else
        match sm_unix_mcp_peer_pids sock (bi_pid info) 32 with
        | None => note "cannot list socket peers"
        | Some [] => note "no smolmux-mcp process holds this socket"
        | Some pids => gc_clients dry kill_mcp sock (map (fun p => ("smolmux-mcp", p)) pids)
        end
  end.
Definition gc_broker (dry kill_mcp : bool) (sock : string) : C (Z * Z) :=
  r ← probe sock;
  let '(ok, info) := r in
  if negb (ok && bi_reachable info) then mret (0, 0) else gc_known dry kill_mcp sock info.

Fixpoint gc_brokers (dry kill_mcp : bool) (socks : list string) : C (Z * Z) :=
  match socks with
  | [] => mret (0, 0)
  | s :: socks' =>
      r ← gc_broker dry kill_mcp s;
      more ← gc_brokers dry kill_mcp socks';
      mret (fst r + fst more, snd r + snd more)
  end.

(** Whether to list only, whether to take every MCP client. *)
Fixpoint gc_args (args : list string) (dry kill_mcp : bool) : option (bool * bool) :=
  match args with
  | [] => Some (dry, kill_mcp)
  | a :: args' =>
      if streq a "--dry-run" then gc_args args' true kill_mcp
      else if streq a "--mcp" then gc_args args' dry true else None
  end.

Definition cmd_gc (socket_arg : option string) (argv : list string) : C Z :=
  match gc_args (args_of argv) false false with
  | None =>
      err ("usage: smolmux-cli gc [--dry-run] [--mcp]" +:+ nl +:+
           "  Default: SIGTERM dead or orphaned (ppid 1) MCP clients." +:+ nl +:+
           "  --mcp      SIGTERM every *-mcp / claude-mcp client" +:+ nl +:+
           "  --dry-run  list only" +:+ nl) ;; mret 1
  | Some (dry, kill_mcp) =>
      let socks := match socket_arg with
                   | Some s => [snprintf_s 108 s] | None => take 32 (fst (sm_discover_all_sockets 32)) end in
      match socks with
      | [] => err ("error: no broker socket found" +:+ nl) ;; mret 1
      | _ =>
          r ← gc_brokers dry kill_mcp socks;
          let '(listed, killed) := r in
          (if listed =? 0 then line "No MCP clients found."
           else swhen (negb dry) (line ("Signaled " +:+ pretty killed +:+ " process" +:+
                  (if killed =? 1 then "" else "es") +:+ "."))) ;;
          mret 0
      end
  end.
End boards.

(** * The command-line client and the broker's command line

    [board up] starts a broker with a command line built from a wire of the
    manifest; the broker reads it back as that wire. *)

#[local] Open Scope string_scope.
#[local] Open Scope list_scope.
#[local] Open Scope Z_scope.

(** ** Decimal numbers *)

Lemma pretty_N_char_digit x : (x < 10)%N -> byte_of_ascii (pretty_N_char x) = 48 + Z.of_N x.
Proof.
  intros H. assert (x = 0 \/ x = 1 \/ x = 2 \/ x = 3 \/ x = 4 \/ x = 5 \/ x = 6 \/ x = 7 \/ x = 8 \/ x = 9)%N as Hx by lia.
  by repeat destruct Hx as [->|Hx]; [..|subst].
Qed.

Lemma pretty_N_digits x : forall s,
  forallb isdigit (bytes_of_string s) = true ->
  let b := bytes_of_string (pretty_N_go x s) in
  forallb isdigit b = true /\
  digits_value b = Z.of_N x * 10 ^ zlen (bytes_of_string s) + digits_value (bytes_of_string s).
Proof.
  induction (N.lt_wf_0 x) as [x _ IH]. intros s Hs. destruct (decide (x = 0)%N) as [->|Hx].
  { rewrite pretty_N_go_0. cbv zeta. split; [done|lia]. }
  rewrite pretty_N_go_step by lia. assert (x mod 10 < 10)%N as Hm by (apply N.mod_lt; lia).
  destruct (IH (x / 10)%N ltac:(apply N.div_lt; lia) (String (pretty_N_char (x mod 10)) s)) as [Hd Hv].
  { cbn [bytes_of_string forallb]. rewrite pretty_N_char_digit, Hs by done. unfold isdigit.
    revert Hm. generalize (x mod 10)%N. intros d Hm.
    rewrite andb_true_r, andb_true_iff, !Z.leb_le. lia. }
  split; [done|]. cbv zeta. rewrite Hv. cbn [bytes_of_string]. rewrite pretty_N_char_digit by done.
  change (?c :: ?l) with ([c] ++ l). rewrite digits_value_app, zlen_app. change (zlen [_]) with 1.
  unfold digits_value at 1. cbn [fold_left].
  rewrite Z.pow_add_r by (unfold zlen; lia). pose proof (N.div_mod x 10 ltac:(lia)). lia.
Qed.

Lemma pretty_N_length k : forall x s, (x < 10 ^ N.of_nat k)%N ->
  (length (bytes_of_string (pretty_N_go x s)) <= k + length (bytes_of_string s))%nat.
Proof.
  induction k as [|k IH]; intros x s Hx.
  { assert (x = 0)%N as -> by (simpl in Hx; lia). rewrite pretty_N_go_0. lia. }
  destruct (decide (x = 0)%N) as [->|]; [rewrite pretty_N_go_0; lia|].
  rewrite pretty_N_go_step by lia. etrans; [apply IH|simpl; lia].
  apply N.Div0.div_lt_upper_bound. rewrite Nat2N.inj_succ, N.pow_succ_r' in Hx. lia.
Qed.

Lemma digits_value_nonneg b : forallb isdigit b = true -> 0 <= digits_value b.
Proof.
  induction b as [|c b IH] using rev_ind; [done|].
  rewrite forallb_app, digits_value_snoc. intros [Hb Hc]%andb_true_iff. specialize (IH Hb).
  simpl in Hc. unfold isdigit in Hc. lia.
Qed.

Lemma strtol_digits b : forallb isdigit b = true -> b <> [] -> digits_value b <= LONG_MAX -> strtol10 b = (digits_value b, []).
Proof.
  intros Hd Hb Hm. destruct b as [|c b]; [done|]. unfold strtol10.
  assert (isdigit c = true) as Hc by (simpl in Hd; by apply andb_true_iff in Hd as [? _]).
  assert (forall l, forallb isdigit l = true -> take_while isdigit l = l /\ skip_while isdigit l = []) as Ht.
  { induction l as [|x l IH]; [done|]. simpl. intros [-> Hl]%andb_true_iff. destruct (IH Hl) as [-> ->]. done. }
  assert (isspace c = false) as Hs by (unfold isdigit, isspace in *; lia).
  cbn [skip_while]. rewrite Hs. destruct (Ht _ Hd) as [E1 E2].
  destruct (Z.eqb_spec c 45) as [->|H45]; [done|]. destruct (Z.eqb_spec c 43) as [->|H43]; [done|].
  replace (match c with 45 => (true, b) | 43 => (false, b) | _ => (false, c :: b) end) with (false, c :: b)
    by (destruct c as [|p|p]; try done; do 6 (destruct p as [p|p|]; try done)).
  rewrite E1, E2. unfold clamp_long, LONG_MAX, LONG_MIN in *.
  assert (0 <= digits_value (c :: b)) by (apply digits_value_nonneg; done). f_equal. lia.
Qed.

Lemma pretty_pos n : 0 < n -> pretty n = pretty_N_go (Z.to_N n) "".
Proof. destruct n as [|p|p]; try lia. intros _. unfold pretty at 1, pretty_Z, pretty, pretty_positive, pretty, pretty_N. by case_decide. Qed.

Lemma number_in_pretty lo hi n : 0 < n -> lo <= n <= hi -> hi <= LONG_MAX -> number_in lo hi (pretty n) = Some n.
Proof.
  intros Hn Hr Hh. rewrite pretty_pos by done. unfold number_in.
  destruct (pretty_N_digits (Z.to_N n) "" eq_refl) as [Hd Hv]. cbv zeta in Hv.
  assert (digits_value (bytes_of_string (pretty_N_go (Z.to_N n) "")) = n) as E.
  { rewrite Hv. cbn [bytes_of_string]. rewrite zlen_nil. unfold digits_value. cbn [fold_left]. lia. }
  rewrite strtol_digits; [|done| |lia].
  2:{ intros Hb. rewrite Hb in E. unfold digits_value in E. cbn [fold_left] in E. lia. }
  rewrite zlen_nil, E. cbn [negb orb]. destruct (Z.ltb_spec n lo); [lia|]. by destruct (Z.ltb_spec hi n); [lia|].
Qed.

Lemma snprintf_short k s : (length (bytes_of_string s) < k)%nat -> snprintf_s k s = s.
Proof.
  unfold snprintf_s. rewrite length_bytes_of_string. revert k.
  assert (forall s k, (String.length s <= k)%nat -> String.substring 0 k s = s) as Hs.
  { intros t. induction t as [|a t IH]; intros [|k] Hk; simpl in *; try done; [lia|]. f_equal. apply IH. lia. }
  intros k Hk. apply Hs. lia.
Qed.

Lemma snprintf_pretty n : 0 < n < 10 ^ 15 -> snprintf_s 16 (pretty n) = pretty n.
Proof.
  intros Hn. apply snprintf_short. rewrite pretty_pos by lia.
  pose proof (pretty_N_length 15 (Z.to_N n) "") as Hl. simpl length in Hl. specialize (Hl ltac:(lia)). lia.
Qed.

(** ** The command line *)

(** An option and its argument, whatever the argument looks like. *)
Lemma getopt_value f plus s name c v rest :
  streq name "--" = false -> is_option_arg name = true ->
  one_option s name (v :: rest) = ([OptGiven c (Some v)], rest) ->
  getopt_loop (S f) plus s (name :: v :: rest) =
  let '(ev, ops) := getopt_loop f plus s rest in (OptGiven c (Some v) :: ev, ops).
Proof. intros H1 H2 H3. cbn [getopt_loop]. rewrite H1, H2, H3. by destruct (getopt_loop f plus s rest). Qed.
Lemma getopt_flag f plus s name c rest :
  streq name "--" = false -> is_option_arg name = true ->
  one_option s name rest = ([OptGiven c None], rest) ->
  getopt_loop (S f) plus s (name :: rest) =
  let '(ev, ops) := getopt_loop f plus s rest in (OptGiven c None :: ev, ops).
Proof. intros H1 H2 H3. cbn [getopt_loop]. rewrite H1, H2, H3. by destruct (getopt_loop f plus s rest). Qed.
Lemma getopt_operand f s a rest :
  is_option_arg a = false ->
  getopt_loop (S f) false s (a :: rest) = let '(ev, ops) := getopt_loop f false s rest in (ev, a :: ops).
Proof.
  intros H. cbn [getopt_loop]. destruct (streq a "--") eqn:E; [by apply streq_spec in E as ->|]. by rewrite H.
Qed.

(** The options a wire is started with. *)
Definition opt_given (f : string -> main_opt) (v : string) : list main_opt := if streq v "" then [] else [f v].
Definition wire_opts (m : sm_board_manifest) (w : sm_board_wire) (sock : string) : list main_opt :=
  (if streq (bw_link w) "gdb" then [OptGdb; OptGdbPath (bw_gdb_path w)] ++ opt_given OptGdbTarget (bw_target w)
   else [OptBaud (snprintf_s 16 (pretty (bw_baud w)))] ++ opt_given OptProfile (bw_profile w)) ++
  [OptBoard (bm_board m); OptRole (bw_role w)] ++ opt_given OptIdentityPolicy (bw_policy w) ++
  opt_given OptByPath (bw_by_path w) ++ [OptSocket sock].

Ltac options := repeat first
  [ rewrite getopt_operand by done
  | erewrite getopt_value by reflexivity
  | erewrite getopt_flag by reflexivity ].

Lemma wire_command_line broker m w sock :
  is_option_arg (bw_device w) = false ->
  broker_command_line (build_wire_argv broker m w sock) =
  (wire_opts m w sock, if streq (bw_link w) "gdb" then [] else [bw_device w]).
Proof.
  intros Hdev. unfold broker_command_line, build_wire_argv, wire_opts, opt_arg, opt_given, getopt_long. cbn [app tl].
  destruct (streq (bw_link w) "gdb"), (streq (bw_policy w) ""), (streq (bw_by_path w) "");
    (destruct (streq (bw_target w) ""); destruct (streq (bw_profile w) "")); cbn [app length]; options; reflexivity.
Qed.

Section wires.
Context {H : HostEnv}.

(** What the broker makes of a wire: everything else is as without options. *)
Definition wire_args (m : sm_board_manifest) (w : sm_board_wire) (sock : string) (a : main_args) : main_args :=
  let given v d := match nonempty_s (Some v) with Some s => Some s | None => d end in
  let a := if streq (bw_link w) "gdb"
           then {| a with ma_gdb := true; ma_gdb_path := Some (bw_gdb_path w); ma_gdb_target := given (bw_target w) (ma_gdb_target a) |}
           else {| a with ma_baud := bw_baud w; ma_profile := given (bw_profile w) (ma_profile a) |} in
  {| a with ma_board := Some (bm_board m); ma_role := Some (bw_role w); ma_policy := given (bw_policy w) (ma_policy a);
            ma_by_path := given (bw_by_path w) (ma_by_path a); ma_socket := sock |}.

Lemma wire_options m w sock a :
  (streq (bw_link w) "gdb" = false -> 1 <= bw_baud w <= 4000000) -> (String.length sock < 108)%nat ->
  main_options (wire_opts m w sock) a = Go (wire_args m w sock a).
Proof.
  intros Hbaud Hs. assert (snprintf_s 108 sock = sock) as Es by (apply snprintf_short; by rewrite length_bytes_of_string).
  unfold wire_opts, wire_args, opt_given, nonempty_s. destruct (streq (bw_link w) "gdb").
  - destruct (streq (bw_policy w) ""), (streq (bw_by_path w) ""), (streq (bw_target w) "");
      cbn; by rewrite Es.
  - specialize (Hbaud eq_refl).
    destruct (streq (bw_policy w) ""), (streq (bw_by_path w) ""), (streq (bw_profile w) "");
      cbn -[pretty snprintf_s number_in]; unfold numeric;
      rewrite (snprintf_pretty (bw_baud w)), number_in_pretty by (unfold LONG_MAX; lia);
      cbn -[snprintf_s]; by rewrite Es.
Qed.

(** C10: the broker reads the command line [board up] starts it with back as
    the wire it was made from: the serial device and its rate, or GDB and its
    target, the profile, board, role, identity policy, path and socket, and
    nothing else is changed, whatever characters their texts hold; for a device
    that does not look like an option, a rate of a serial wire from 1 to 4000000
    and a socket of less than 108 bytes. *)
Theorem wire_argv_roundtrip broker m w sock :
  is_option_arg (bw_device w) = false ->
  (streq (bw_link w) "gdb" = false -> 1 <= bw_baud w <= 4000000) -> (String.length sock < 108)%nat ->
  let '(opts, operands) := broker_command_line (build_wire_argv broker m w sock) in
  main_options opts main_defaults = Go (wire_args m w sock main_defaults) /\
  operands = (if streq (bw_link w) "gdb" then [] else [bw_device w]) /\
  (length (build_wire_argv broker m w sock) < 24)%nat.
Proof.
  intros Hd Hb Hs. rewrite wire_command_line by done. split; [by apply wire_options|]. split; [done|].
  unfold build_wire_argv, opt_arg.
  destruct (streq (bw_link w) "gdb"), (streq (bw_policy w) ""), (streq (bw_by_path w) "");
    (destruct (streq (bw_target w) ""); destruct (streq (bw_profile w) "")); cbn [app length]; lia.
Qed.
End wires.
