(* ===== verification/CliMain.v ===== *)
(** * The command-line client: the program ([src/cli.c])

    The table of commands, the global options, the choice of the broker, the
    dispatch. *)
From stdpp Require Import pretty.
From S2P Require Import Prelude Cstr Json Protocol McpText Effects McpTools HostPaths BrokerInfo Getopt.
From S2P Require Import Cli CliControl CliBoards.

#[local] Open Scope string_scope.
#[local] Open Scope list_scope.
#[local] Open Scope Z_scope.

Definition usage_lines (prog : string) : list string :=
  [prog +:+ " " +:+ em_dash +:+ " command-line client for smolmux broker";
   "";
   "Connects to a running smolmux broker and executes commands.";
   "Designed for both human and LLM use (structured output with --json).";
   "";
   "USAGE:";
   "  " +:+ prog +:+ " [options] <command> [args...]";
   "";
   "GLOBAL OPTIONS:";
   "  -s, --socket <path>     Broker Unix socket (not a TTY; not -t)";
   "  -j, --json              Output in JSON format";
   "  -t, --timeout <ms>      Response timeout (not a text-log dir)";
   "  -v, --verbose           Debug output to stderr";
   "  -V, --version           Show version";
   "  -h, --help              Show this help";
   "";
   "COMMANDS:";
   "  send <command>          Send a command and wait for response";
   "    --expect <pattern>    Regex to match end of response (default: shell prompt)";
   "    --timeout <ms>        Per-command timeout (default: 5000)";
   "";
   "  read                    Alias of history (recent ring-buffer bytes)";
   "    --bytes <n>           Number of bytes to read (default: 8192)";
   "";
   "  write <data>            Write raw data without waiting for response";
   "";
   "  status                  Show broker and port status";
   "";
   "  boot-status             Show cold-boot progress; exit 0=complete,";
   "                          2=stalled, 3=in-progress, 4=no stages";
   "";
   "  history                 Get timestamped output history";
   "    --last-bytes <n>      Return last N bytes";
   "    --seconds <n>         Return output from last N seconds";
   "    --since-seq <n>       Return output after ring sequence n";
   "  wait-for <pattern>      listen_expect until match or timeout";
   "    --timeout <ms>        Per-wait timeout (default: 5000)";
   "";
   "  incidents               Show detected anomalies/crashes";
   "    --seconds <n>         Only incidents from last N seconds";
   "";
   "  list-ports              List available serial ports (no broker needed)";
   "";
   "  brokers                 List active brokers and what each holds";
   "                          (no broker needed; use --json for agents)";
   "";
   "  token                   Print auth tokens local brokers generated for";
   "                          loopback TCP/WS (to copy to the far end of an";
   "                          SSH tunnel; local clients read them already)";
   "";
   "  boards                  Group active brokers by --board (a board's wires)";
   "                          (no broker needed; use --json for agents)";
   "";
   "  board up <manifest>     Start every wire in a *.board.json manifest";
   "                          (--identity-ok: bind a WEAK by-id name)";
   "    --foreground, -F      Tie the wires' lifetime to this run (Ctrl-C stops all)";
   "  board down <name>       Stop all running wires of a board (SIGTERM)";
   "";
   "  shutdown                Stop one broker cleanly (alias: stop)";
   "                          Uses -s <path>, or the sole running broker;";
   "                          SIGTERM + wait until the socket disappears";
   "  gc [--dry-run] [--mcp]  Reap leftover MCP clients (or -s one broker)";
   "  board status <name>     Show a board's active wires";
   "  board list [dir]        List *.board.json manifests (dir, $SMOLMUX_BOARD_DIR,";
   "                          or ~/.config/smolmux) and which are up";
   "";
   "  sysrq <key>             Send Linux SysRq (BREAK + key)";
   "    --break-ms <ms>       Break duration (default: 500)";
   "    --delay-ms <ms>       Delay between break and key (default: 100)";
   "";
   "  break-uboot             Flood a key to break into a bootdelay=0 bootloader";
   "    --key <str>           Key to flood (default: space)";
   "    --stop <regex>        Stop when this matches (default: U-Boot prompt)";
   "    --no-stop             Flood for the full duration, no stop pattern";
   "    --interval <ms>       Between keystrokes (default: 10)";
   "    --duration <ms>       Max flood time (default: 2000)";
   "";
   "  pin <pin> <action>      Control serial pins";
   "    pin:    dtr, rts, break";
   "    action: set, clear, toggle, pulse";
   "    --duration <ms>       Break/pulse duration (default: 250)";
   "";
   "  reset                   Reset the target via the auto-reset circuit:";
   "                          clear the other line, assert --pin, release";
   "    --pin <rts|dtr>       Reset line (default: rts, ESP32-style)";
   "    --hold <ms>           Assert time (default: 100)";
   "    --wait <regex>        Then wait for a boot line (armed before release)";
   "    --timeout <ms>        For --wait (default: 10000)";
   "";
   "  suspend                 Release the serial port for external tools";
   "  resume                  Re-acquire the serial port";
   "  with-port <cmd> [args]  Suspend, run <cmd>, then always resume";
   "                          (atomic handoff, e.g. flash-then-test)";
   "";
   "  watchdog add            Add anomaly detection pattern";
   "    --name <name>         Pattern name (required)";
   "    --pattern <regex>     Regex to match (required)";
   "    --severity <level>    critical, warning, or info (default: warning)";
   "";
   "  autorespond <add|list|remove>  Standing expect->send rules";
   "    add --name <n> --pattern <regex> --send <str> [--once] [--cooldown <ms>]";
   "    (--send interprets \n \r \t \0 escapes; e.g. --send 'y\n')";
   "";
   "  monitor                 Stream output for a duration (CLI, not TUI)";
   "    --duration <seconds>  How long to monitor (default: 30, max: 300)";
   "                          Interactive TUI is smolmux-monitor.";
   "";
   "  report                  Generate a status report";
   "";
   "EXAMPLES:";
   "  " +:+ prog +:+ " send " +:+ dq +:+ "uname -a" +:+ dq;
   "  " +:+ prog +:+ " send --expect 'login:' --timeout 10000 " +:+ dq +:+ dq;
   "  " +:+ prog +:+ " read --bytes 4096";
   "  " +:+ prog +:+ " status --json";
   "  " +:+ prog +:+ " history --seconds 60";
   "  " +:+ prog +:+ " sysrq h";
   "  " +:+ prog +:+ " watchdog add --name oom --pattern 'Out of memory' --severity critical";
   "  " +:+ prog +:+ " monitor --duration 60";
   "  " +:+ prog +:+ " list-ports";
   "";
   "SOCKET DISCOVERY:";
   "  1. --socket <path> flag";
   "  2. $SMOLMUX_SOCKET environment variable";
   "  3. Glob $XDG_RUNTIME_DIR/smolmux-*.sock (live sockets only)";
   "  4. Glob /tmp/smolmux-*.sock (live sockets only)";
   "  Leftover .sock files do not count. Two live brokers: pass -s.";
   "  smolmux-cli brokers lists leftover sockets.";
   "  --json may go before or after the subcommand (status --json).";
   "";
   "ENVIRONMENT:";
   "  SMOLMUX_SOCKET    Override broker socket path"].
Definition usage (prog : string) : string := String.concat "" (map (fun l => l +:+ nl) (usage_lines prog)).

Section main.
Context {J : JsonText} {HE : HostEnv} {CE : CliEnv} {PE : ProbeEnv} {PP : PeerEnv} {OS : OsEnv}.

(** ** The commands *)

(** [sc_role] is that in which a command asks for a broker; [None]: it needs
    none.  A command gets the socket of [-s] and its arguments. *)
Record subcmd := mk_subcmd { sc_name : string; sc_func : option string -> list string -> C Z; sc_role : option string }.

Definition observer : option string := Some "observer".
Definition controller : option string := Some "controller".
Definition subcmds : list subcmd :=
  [mk_subcmd "send" (fun _ => cmd_send) controller; mk_subcmd "read" (fun _ => cmd_read) observer;
   mk_subcmd "wait-for" (fun _ => cmd_wait_for) observer; mk_subcmd "write" (fun _ => cmd_write) controller;
   mk_subcmd "status" (fun _ => cmd_status) observer; mk_subcmd "boot-status" (fun _ => cmd_boot_status) observer;
   mk_subcmd "history" (fun _ => cmd_history) observer; mk_subcmd "incidents" (fun _ => cmd_incidents) observer;
   mk_subcmd "list-ports" (fun _ => cmd_list_ports) None; mk_subcmd "brokers" (fun _ => cmd_brokers) None;
   mk_subcmd "token" (fun _ => cmd_token) None; mk_subcmd "boards" (fun _ => cmd_boards) None;
   mk_subcmd "board" (fun _ => cmd_board) None; mk_subcmd "shutdown" cmd_shutdown None;
   mk_subcmd "stop" cmd_shutdown None; mk_subcmd "gc" cmd_gc None;
   mk_subcmd "sysrq" (fun _ => cmd_sysrq) controller; mk_subcmd "break-uboot" (fun _ => cmd_break_uboot) controller;
   mk_subcmd "pin" (fun _ => cmd_pin) controller; mk_subcmd "reset" (fun _ => cmd_reset) controller;
   mk_subcmd "suspend" (fun _ => cmd_suspend) controller; mk_subcmd "resume" (fun _ => cmd_resume) controller;
   mk_subcmd "with-port" (fun _ => cmd_with_port) controller; mk_subcmd "watchdog" (fun _ => cmd_watchdog) controller;
   mk_subcmd "autorespond" (fun _ => cmd_autorespond) controller; mk_subcmd "monitor" (fun _ => cmd_monitor) observer;
   mk_subcmd "report" (fun _ => cmd_report) observer].

(** ** The global options *)

Definition global_opts : optspec :=
  mk_optspec [(115, true); (106, false); (116, true); (118, false); (86, false); (104, false)]
    [("socket", 115); ("json", 106); ("timeout", 116); ("verbose", 118); ("version", 86); ("help", 104)].

(** The socket of the last [-s]; or the program ends. *)
Fixpoint global_options (prog : string) (evs : list opt_event) (sock : option string) : C (Z + option string) :=
  match evs with
  | [] => mret (inr sock)
  | OptGiven 115 (Some s) :: evs' => global_options prog evs' (Some s)
  | OptGiven 106 _ :: evs' => smod (fun s => {| s with cx_json := true |}) ;; global_options prog evs' sock
  | OptGiven 116 (Some t) :: evs' => smod (fun s => {| s with cx_timeout_ms := atoi_s t |}) ;; global_options prog evs' sock
  | OptGiven 118 _ :: evs' => smod (fun s => {| s with cx_verbose := true |}) ;; global_options prog evs' sock
  | OptGiven 86 _ :: _ => out (SM_NAME +:+ "-cli " +:+ SM_VERSION +:+ nl) ;; mret (inl 0)
  | OptGiven 104 _ :: _ => out (usage prog) ;; mret (inl 0)
  | _ => err (usage prog) ;; mret (inl 1)
  end.

(** [--json] behind the command, up to a [--]. *)
Fixpoint json_behind (args : list string) : bool :=
  match args with
  | [] => false
  | a :: args' => if streq a "--" then false else json_flag a || json_behind args'
  end.

(** ** The broker *)

(** The socket asked for, or that of the only live broker. *)
Definition broker_socket (socket_arg : option string) : string + string :=
  match socket_arg with
  | Some s => inr s
  | None =>
      let env_pin := match nonempty_s (he_env "SMOLMUX_SOCKET") with Some _ => true | None => false end in
      if sm_autodiscover_should_refuse env_pin then
        inl ("error: multiple brokers; pass -s <socket> (first-glob is a wrong-board magnet)" +:+ nl +:+
             "  smolmux-cli brokers    # list sockets" +:+ nl)
      else match sm_discover_socket 108 with
           | Some s => inr s
           | None => inl (no_broker "  Use -s <path>, set $SMOLMUX_SOCKET, or start a broker")
           end
  end.

Definition connect_broker (socket_arg : option string) (role name : string) : C bool :=
  match broker_socket socket_arg with
  | inl text => err text ;; mret false
  | inr path =>
      match sm_resolve_client_socket SM_SOCK_PATH_MAX path with
      | None => err ("error: cannot resolve socket from '" +:+ path +:+ "'" +:+ nl +:+ "  smolmux-cli brokers" +:+ nl) ;; mret false
      | Some (resolved, derived) =>
          swhen derived (err ("note: '" +:+ path +:+ "' is a device node; using socket " +:+ resolved +:+ nl +:+
            "  smolmux-cli brokers lists live brokers" +:+ nl)) ;;
          connect_and_hello ce_pid (ce_connect_error resolved) resolved role name
      end
  end.

(** ** [main] *)

Definition main (argv : list string) : C Z :=
  let prog := hd "" argv in
  let '(evs, ops) := getopt_long true global_opts (args_of argv) in
  r ← global_options prog evs None;
  match r, ops with
  | inl code, _ => mret code
  | inr _, [] => err ("error: no command specified" +:+ nl +:+ nl +:+ usage prog) ;; mret 1
  | inr sock, name :: behind =>
      match List.find (fun c => streq (sc_name c) name) subcmds with
      | None => err ("error: unknown command '" +:+ name +:+ "'" +:+ nl +:+ nl +:+ usage prog) ;; mret 1
      | Some cmd =>
          swhen (json_behind behind) (smod (fun s => {| s with cx_json := true |})) ;;
          ready ← (match sc_role cmd with
                   | Some role => connect_broker sock role (sc_name cmd)
                   | None => mret true
                   end);
          if negb ready then mret 1
          else
            rc ← sc_func cmd sock ops;
            connected ← sget cx_connected;
            swhen connected (emit_cli CClosed) ;;
            mret rc
      end
  end.
End main.

(** The state before [main], given what the waits will meet. *)
Definition cli_zero (polls : list poll_answer) : cli := mk_cli false [] 0 false 0 false false polls 0 [].
