(* ===== verification/CliProps.v ===== *)
(** The command-line client: a trace of what it does, and its properties. *)

(** * The command-line client: what it does to the world

    Programs are told apart by their deeds: what they send, run, start and
    signal.  [does p Q] says what deeds [p] adds, whatever the state and the
    script, and with what result. *)
From stdpp Require Import pretty.
From S2P Require Import Prelude Cstr Codecs Json Protocol Regex McpText Effects Client BrokerState.
From S2P Require Import McpResults BrokerOps BrokerLink BrokerHandlers BrokerLoop BrokerDemo BrokerFrame BrokerAuth McpClientProps HostPaths.
From S2P Require Import Profiles BrokerInfo Getopt Cli CliControl CliBoards CliMain.

#[local] Open Scope string_scope.
#[local] Open Scope list_scope.
#[local] Open Scope Z_scope.

Definition is_deed (e : cli_effect) : bool :=
  match e with CSent _ | CRan _ | CKilled _ | CSpawned _ _ _ => true | _ => false end.
(** ... and the lines it was told. *)
Definition is_story (e : cli_effect) : bool := match e with CGot _ => true | _ => is_deed e end.
Definition deeds (t : list cli_effect) : list cli_effect := List.filter is_deed t.
Definition story (t : list cli_effect) : list cli_effect := List.filter is_story t.

(** Of the effects [keep] selects, [p] adds some that [Q] describes. *)
Definition does_of (keep : cli_effect -> bool) {A} (p : C A) (Q : list cli_effect -> A -> Prop) : Prop :=
  forall s, exists l,
    List.filter keep (cx_trace (srun p s)) = List.filter keep (cx_trace s) ++ l /\ Q l (sresult p s).
(** It adds none. *)
Definition talks_of (keep : cli_effect -> bool) {A} (p : C A) : Prop :=
  moves (same (fun s => List.filter keep (cx_trace s))) p.
Abbreviation does := (does_of is_deed).
Abbreviation talks := (talks_of is_deed).
Abbreviation tells := (does_of is_story).
Abbreviation hushed := (talks_of is_story).

(** ** Rules *)

Section rules.
Context (keep : cli_effect -> bool) {A B : Type}.

Lemma does_ret (x : A) (Q : list cli_effect -> A -> Prop) : Q [] x -> does_of keep (mret x) Q.
Proof. intros H s. exists []. by rewrite app_nil_r. Qed.

Lemma does_bind (p : C A) (k : A -> C B) (Q1 : list cli_effect -> A -> Prop) (Q : list cli_effect -> B -> Prop) :
  does_of keep p Q1 -> (forall l x, Q1 l x -> does_of keep (k x) (fun l' y => Q (l ++ l') y)) -> does_of keep (p ≫= k) Q.
Proof.
  intros Hp Hk s. rewrite srun_bind, sresult_bind. destruct (Hp s) as (l & E & H1).
  destruct (Hk _ _ H1 (srun p s)) as (l' & E' & H2). exists (l ++ l'). by rewrite E', E, app_assoc.
Qed.

Lemma does_mono (p : C A) (Q1 Q : list cli_effect -> A -> Prop) :
  does_of keep p Q1 -> (forall l x, Q1 l x -> Q l x) -> does_of keep p Q.
Proof. intros Hp H s. destruct (Hp s) as (l & E & Hl). eauto. Qed.

Lemma does_talk (p : C A) (Q : list cli_effect -> A -> Prop) : talks_of keep p -> (forall x, Q [] x) -> does_of keep p Q.
Proof. intros Hp H s. exists []. rewrite app_nil_r. split; [apply Hp|done]. Qed.

(** Talk first, then the rest. *)
Lemma does_after (p : C A) (k : A -> C B) (Q : list cli_effect -> B -> Prop) :
  talks_of keep p -> (forall x, does_of keep (k x) Q) -> does_of keep (p ≫= k) Q.
Proof.
  intros Hp Hk. apply (does_bind _ _ (fun l _ => l = [])); [by apply does_talk|]. by intros l x ->.
Qed.

Lemma talks_ret (x : A) : talks_of keep (mret x).
Proof. by intros s. Qed.
Lemma talks_get (f : cli -> A) : talks_of keep (sget f).
Proof. by intros s. Qed.
Lemma talks_bind (p : C A) (k : A -> C B) : talks_of keep p -> (forall x, talks_of keep (k x)) -> talks_of keep (p ≫= k).
Proof. apply moves_seq. apply _. Qed.
End rules.
Arguments does_ret {keep A}. 
Arguments does_bind {keep A B}.
Arguments does_mono {keep A}.
Arguments does_talk {keep A}.
Arguments does_after {keep A B}.
Arguments talks_ret {keep A}.
Arguments talks_get {keep A}.
Arguments talks_bind {keep A B}.

Section single.
Context {keep : cli_effect -> bool}.

Lemma talks_mod f : (forall s, cx_trace (f s) = cx_trace s) -> talks_of keep (smod f).
Proof. intros H s. unfold same, srun. simpl. by rewrite H. Qed.
Lemma talks_when b (p : C unit) : talks_of keep p -> talks_of keep (swhen b p).
Proof. intros H. destruct b; [done|apply talks_ret]. Qed.
Lemma talks_emit e : keep e = false -> talks_of keep (emit_cli e).
Proof. intros H s. unfold same, srun, emit_cli, smod. simpl. rewrite List.filter_app. simpl. by rewrite H, app_nil_r. Qed.
Lemma does_emit e (Q : list cli_effect -> unit -> Prop) : keep e = true -> Q [e] tt -> does_of keep (emit_cli e) Q.
Proof.
  intros H HQ s. exists [e]. unfold srun, emit_cli, smod. simpl. rewrite List.filter_app. simpl. by rewrite H.
Qed.
(** One deed, then the rest. *)
Lemma does_deed {B} e (k : unit -> C B) (Q : list cli_effect -> B -> Prop) :
  keep e = true -> does_of keep (k tt) (fun l y => Q (e :: l) y) -> does_of keep (emit_cli e ≫= k) Q.
Proof. intros He Hk. apply (does_bind _ _ (fun l _ => l = [e])); [by apply does_emit|]. by intros l [] ->. Qed.
(** Talk whose result is known. *)
Lemma does_knowing {A} (p : C A) (Q : list cli_effect -> A -> Prop) :
  talks_of keep p -> (forall s, Q [] (sresult p s)) -> does_of keep p Q.
Proof. intros Hp H s. exists []. rewrite app_nil_r. split; [apply Hp|done]. Qed.
End single.

Create HintDb talk.
#[export] Hint Resolve talks_ret talks_get talks_when : talk.
#[export] Hint Extern 1 (talks_of _ (smod _)) => apply talks_mod; by intros [] : talk.
#[export] Hint Extern 1 (talks_of _ (emit_cli _)) => by apply talks_emit : talk.

(** Walks through a program that only talks. *)
Ltac talk := repeat first
  [ progress cbv zeta | progress cbn beta iota
  | apply talks_bind; [|intros ?] | progress (unfold out, out_bytes, err, line, json_mode, timeout_or, print_json, either)
  | solve [eauto with talk] | apply talks_when
  | match goal with |- talks_of _ (match ?x with _ => _ end) => destruct x end ].

(** ** Waiting *)

Section waits.
Context {J : JsonText}.

Lemma read_lines_talks {W} (handler : sm_msg -> W -> C W) :
  (forall m w, talks (handler m w)) -> forall fuel buf w, talks (read_lines handler fuel buf w).
Proof.
  intros Hh. induction fuel as [|f IH]; intros buf w; cbn [read_lines]; [talk|].
  destruct (split_line buf) as [[line rest]|]; [|talk]. apply talks_bind; [talk|intros _].
  apply talks_bind; [|intros w'; apply IH]. destruct (m_root _); [apply Hh|talk].
Qed.

Lemma read_messages_talks {W} (handler : sm_msg -> W -> C W) realloc_ok got w :
  (forall m w, talks (handler m w)) -> talks (read_messages handler realloc_ok got w).
Proof.
  intros Hh. unfold read_messages, grow_read_buf. talk. by apply read_lines_talks.
Qed.

Lemma wait_handler_talks m w : talks (wait_handler m w).
Proof. unfold wait_handler. talk. Qed.

Lemma wait_loop_talks polls timeout w : talks (wait_loop polls timeout w).
Proof.
  revert w. induction polls as [|p polls IH]; intros w; cbn [wait_loop]; unfold wait_finish; [talk|].
  apply talks_bind; [talk|]. intros i. destruct (w_done w || i); [talk|]. destruct p as [|term|r h a g e].
  - talk.
  - apply talks_bind; [talk|]. intros []. apply IH.
  - apply talks_bind.
    + destruct r; [|talk]. apply read_messages_talks, wait_handler_talks.
    + intros [ok w']. destruct (negb ok || h); [talk|]. destruct (_ && _); [talk|]. apply IH.
Qed.

Lemma wait_talks t id timeout collect : talks (wait_for_response t id timeout collect).
Proof. unfold wait_for_response. apply talks_bind; [talk|]. intros polls. apply wait_loop_talks. Qed.

(** A line that a wait takes for its answer: a message of the type asked for,
    with the id asked for if it has one. *)
Definition answers (t : sm_msg_type) (id : option string) (line : bytes) : Prop :=
  exists root, m_root (sm_msg_decode line) = Some root /\ m_type (sm_msg_decode line) = t /\
    match id, sm_json_get_string root "id" with
    | Some e, Some i => i = e \/ t = SM_MSG_SUSPENDED \/ t = SM_MSG_RESUMED
    | _, _ => True end.
Definition answered (t : sm_msg_type) (id : option string) (lines : list bytes) : Prop :=
  exists line, In line lines /\ answers t id line.

(** A wait that is done without an error was answered by one of the lines. *)
Definition wait_sound (t : sm_msg_type) (id : option string) (lines : list bytes) (w : wait_ctx) : Prop :=
  w_type w = t /\ w_id w = id /\ (w_done w = true -> w_error w = None -> answered t id lines).

Lemma wait_sound_more t id lines more w : wait_sound t id lines w -> wait_sound t id (lines ++ more) w.
Proof.
  intros (H1 & H2 & H3). split_and!; [done..|]. intros Hd He. destruct (H3 Hd He) as (line & Hin & Ha).
  exists line. split; [|done]. apply in_or_app. by left.
Qed.

Lemma wait_handler_sound t id lines line w s :
  wait_sound t id lines w -> m_root (sm_msg_decode line) <> None ->
  wait_sound t id (lines ++ [line]) (sresult (wait_handler (sm_msg_decode line) w) s).
Proof.
  intros Hw Hr. unfold wait_handler. destruct (m_root (sm_msg_decode line)) as [root|] eqn:Er; [|done].
  assert (forall w' : wait_ctx, wait_step root (m_type (sm_msg_decode line)) w = Some w' ->
    wait_sound t id (lines ++ [line]) w') as Hstep.
  { pose proof (wait_sound_more _ _ _ [line] _ Hw) as (Ht & Hi & Hd). unfold wait_step. rewrite Ht, Hi. cbv zeta. intros w'.
    destruct (_ && _); [intros [= <-]; by split_and!|]. destruct (_ && _); [intros [= <-]; by split_and!|].
    assert (bool_decide (m_type (sm_msg_decode line) = t) = true ->
      match id, sm_json_get_string root "id" with Some e, Some i => i = e \/ t = SM_MSG_SUSPENDED \/ t = SM_MSG_RESUMED
      | _, _ => True end ->
      forall w', w_type w' = t -> w_id w' = id -> wait_sound t id (lines ++ [line]) w') as Ha.
    { intros He%bool_decide_eq_true Hid w1 H1 H2. split_and!; [done..|]. intros _ _. exists line.
      split; [apply in_or_app; right; by left|]. exists root. done. }
    destruct (bool_decide (m_type (sm_msg_decode line) = t)) eqn:Ex; [|by rewrite andb_false_r].
    rewrite andb_true_r. cbn [andb]. destruct (match id with Some _ => _ | None => true end) eqn:Ei.
    - intros [= <-]. apply Ha; try done. destruct id as [e|]; [|done]. destruct (sm_json_get_string root "id"); [|done].
      left. by apply streq_spec in Ei.
    - destruct (_ || _) eqn:Es; [|done]. intros [= <-]. apply Ha; try done.
      apply bool_decide_eq_true in Ex. destruct id; [|done]. destruct (sm_json_get_string _ _); [|done].
      right. apply orb_true_iff in Es as [E%bool_decide_eq_true|E%bool_decide_eq_true]; [left|right]; congruence. }
  assert (wait_sound t id (lines ++ [line]) (sresult
    match wait_step root (m_type (sm_msg_decode line)) w with
    | Some w' => mret w'
    | None => verbose ← sget cx_verbose;
        match verbose_note root (m_type (sm_msg_decode line)) with
        | Some note => swhen verbose (err note) ;; mret w | None => mret w end
    end s)) as Hgen.
  { destruct (wait_step _ _ _) as [w'|] eqn:E; [by apply Hstep|]. apply wait_sound_more. rewrite sresult_bind.
    destruct (verbose_note _ _); [|done]. by rewrite sresult_bind. }
  destruct (m_type (sm_msg_decode line)), (w_output w); try exact Hgen. apply wait_sound_more.
  destruct Hw as (Ht & Hi & Hd). by split_and!.
Qed.

Lemma wait_handler_hushed m w : hushed (wait_handler m w).
Proof. unfold wait_handler. talk. Qed.

(** The story of a wait: the lines it was told. *)
Lemma read_lines_tells t id : forall fuel buf lines w,
  wait_sound t id lines w ->
  tells (read_lines wait_handler fuel buf w) (fun l r =>
    exists more, l = map CGot more /\ wait_sound t id (lines ++ more) (fst r)).
Proof.
  induction fuel as [|f IH]; intros buf lines w Hw; cbn [read_lines].
  { apply does_ret. exists []. by rewrite app_nil_r. }
  destruct (split_line buf) as [[line rest]|]; [|apply does_ret; exists []; by rewrite app_nil_r].
  cbv zeta. apply does_deed; [done|].
  apply (does_bind _ _ (fun l w' => l = [] /\ wait_sound t id (lines ++ [line]) w')).
  - destruct (m_root (sm_msg_decode line)) as [root|] eqn:Er.
    + apply does_knowing; [apply wait_handler_hushed|]. intros s. split; [done|].
      apply wait_handler_sound; [done|congruence].
    + apply does_ret. split; [done|]. by apply wait_sound_more.
  - intros l w' [-> Hw']. eapply does_mono; [by apply IH|]. intros l r (more & -> & Hr).
    exists (line :: more). split; [done|]. by rewrite <- app_assoc in Hr.
Qed.

Lemma read_messages_tells t id realloc_ok got lines w :
  wait_sound t id lines w ->
  tells (read_messages wait_handler realloc_ok got w) (fun l r =>
    exists more, l = map CGot more /\ wait_sound t id (lines ++ more) (snd r)).
Proof.
  intros Hw. unfold read_messages.
  assert (exists more, @nil cli_effect = map CGot more /\ wait_sound t id (lines ++ more) w) as H0
    by (exists []; by rewrite app_nil_r).
  apply does_after; [unfold grow_read_buf; talk|]. intros grown. destruct (negb grown); [by apply does_ret|].
  apply does_after; [talk|]. intros space. destruct (sys_read space got); try by apply does_ret.
  apply does_after; [talk|]. intros buf. eapply does_bind; [by apply read_lines_tells|].
  intros l r (more & -> & Hr). apply does_after; [talk|]. intros _. apply does_ret.
  exists more. by rewrite app_nil_r.
Qed.

Lemma wait_loop_tells t id polls timeout : forall lines w,
  wait_sound t id lines w ->
  tells (wait_loop polls timeout w) (fun l e =>
    exists more, l = map CGot more /\ (we_rc e = 0 -> answered t id (lines ++ more))).
Proof.
  assert (forall lines w, wait_sound t id lines w -> tells (wait_finish w) (fun l e =>
    exists more, l = map CGot more /\ (we_rc e = 0 -> answered t id (lines ++ more)))) as Hf.
  { intros lines w (Ht & Hi & Hd). unfold wait_finish. destruct (w_error w) eqn:Ee.
    - apply does_after; [talk|]. intros _. apply does_ret. by exists [].
    - apply does_ret. exists []. split; [done|]. rewrite app_nil_r. destruct (w_done w) eqn:Ed; [|done]. intros _. by apply Hd. }
  induction polls as [|p polls IH]; intros lines w Hw; cbn [wait_loop];
    (apply does_after; [talk|]; intros i).
  { destruct (w_done w || i); (apply does_after; [talk|]; intros _); by apply Hf. }
  destruct (w_done w || i); [apply does_after; [talk|]; intros _; by apply Hf|].
  destruct p as [|term|r h a g el]; [apply does_after; [talk|]; intros _; by apply Hf| |].
  { apply does_after; [talk|]. intros _. by apply IH. }
  apply (does_bind _ _ (fun l r => exists more, l = map CGot more /\ wait_sound t id (lines ++ more) (snd r))).
  { destruct r; [by apply read_messages_tells|]. apply does_ret. exists []. by rewrite app_nil_r. }
  intros l [ok w'] (more & -> & Hw'). cbn [snd] in Hw'. destruct (negb ok || h).
  { apply does_after; [talk|]. intros _. apply does_after; [talk|]. intros _. apply does_ret.
    exists more. by rewrite app_nil_r. }
  destruct (_ && _).
  { apply does_after; [talk|]. intros _. apply does_after; [talk|]. intros _. apply does_ret.
    exists more. by rewrite app_nil_r. }
  eapply does_mono; [by apply IH|]. intros l e (more' & -> & He). exists (more ++ more').
  rewrite map_app. split; [done|]. by rewrite app_assoc.
Qed.

(** A wait that returns 0 was told its answer while it waited. *)
Lemma wait_tells t id timeout collect :
  tells (wait_for_response t id timeout collect) (fun l e =>
    exists lines, l = map CGot lines /\ (we_rc e = 0 -> answered t id lines)).
Proof.
  unfold wait_for_response. apply does_after; [talk|]. intros polls. by apply (wait_loop_tells t id polls timeout []).
Qed.
End waits.
#[export] Hint Resolve wait_talks wait_loop_talks : talk.

(** * The command-line client: its properties

    Handing the port over, what an observer may do, cleaning up, starting a
    board. *)

#[local] Open Scope string_scope.
#[local] Open Scope list_scope.
#[local] Open Scope Z_scope.

(** ** Deeds of the commands *)

Section deeds.
Context {J : JsonText} {CE : CliEnv}.

(** A command that asks one question. *)
Definition asks (Q : json -> Prop) (l : list cli_effect) : Prop := Forall (fun e => exists m, e = CSent m /\ Q m) l.

Lemma asks_nil Q : asks Q [].
Proof. constructor. Qed.
Lemma asks_app Q l l' : asks Q l -> asks Q l' -> asks Q (l ++ l').
Proof. intros. by apply Forall_app. Qed.

(** Programs that only send messages of a kind. *)
Definition only_asks {A} (Q : json -> Prop) (p : C A) : Prop := does p (fun l _ => asks Q l).
Lemma only_asks_talk {A} Q (p : C A) : talks p -> only_asks Q p.
Proof. intros H. apply does_talk; [done|]. intros _. apply asks_nil. Qed.
Lemma only_asks_bind {A B} Q (p : C A) (k : A -> C B) :
  only_asks Q p -> (forall x, only_asks Q (k x)) -> only_asks Q (p ≫= k).
Proof.
  intros Hp Hk. eapply does_bind; [apply Hp|]. intros l x Hl. eapply does_mono; [apply Hk|].
  intros l' y Hl'. by apply asks_app.
Qed.
Lemma only_asks_send Q m : Q m -> only_asks Q (send_msg m).
Proof. intros H. apply does_emit; [done|]. constructor; [by exists m|constructor]. Qed.

Lemma monitor_handler_talks m c : talks (monitor_handler m c).
Proof. unfold monitor_handler. talk. Qed.
Lemma monitor_loop_talks polls duration elapsed c : talks (monitor_loop polls duration elapsed c).
Proof.
  revert elapsed c. induction polls as [|p polls IH]; intros elapsed c; cbn [monitor_loop]; [talk|].
  apply talks_bind; [talk|]. intros i. destruct (i || _); [talk|]. destruct p as [|term|r h a g e].
  - talk.
  - apply talks_bind; [talk|]. intros []. apply IH.
  - apply talks_bind.
    + destruct r; [|talk]. apply read_messages_talks, monitor_handler_talks.
    + intros [ok c']. destruct (negb ok || h); [talk|]. apply IH.
Qed.
End deeds.
#[export] Hint Resolve monitor_loop_talks : talk.

(** Walks through a program that only sends messages of a kind. *)
Ltac asking := repeat first
  [ progress cbv zeta | apply only_asks_send; solve [repeat case_match; constructor]
  | apply only_asks_talk; solve [talk]
  | apply only_asks_bind; [|intros ?]
  | match goal with |- only_asks _ (match ?x with _ => _ end) => destruct x end ].

(** ** Observers *)

Section observers.
Context {J : JsonText} {HE : HostEnv} {CE : CliEnv} {PE : ProbeEnv} {PP : PeerEnv} {OS : OsEnv}.

Lemma observers_ask cmd sock argv :
  In cmd subcmds -> sc_role cmd = Some "observer" -> only_asks observing (sc_func cmd sock argv).
Proof.
  intros Hin Hr. unfold subcmds in Hin. simpl in Hin.
  repeat (destruct Hin as [<-|Hin]; [cbn [sc_role sc_func] in *; try discriminate Hr|]); [..|done].
  - unfold cmd_read, ask_history, print_history. asking.
  - unfold cmd_wait_for. asking.
  - unfold cmd_status, ask_status, print_boot_progress. asking.
  - unfold cmd_boot_status, ask_status, print_boot_progress. asking.
  - unfold cmd_history, ask_history, print_history. asking.
  - unfold cmd_incidents. asking.
  - unfold cmd_monitor. asking.
  - unfold cmd_report, request_json. asking.
Qed.
End observers.

(** ** The port *)

Section port.
Context {J : JsonText} {CE : CliEnv}.

Definition suspend_msg : json := sm_msg_suspend (Some "cli-wp-sus").
Definition resume_msg : json := sm_msg_resume (Some "cli-wp-res").

(** The deed of the command itself; nothing when it could not be started. *)
Definition command_run (cmd : list string) : list cli_effect :=
  match ce_child cmd with ChildForkFailed _ => [] | _ => [CRan cmd] end.

(** What [with-port] does, what it is told, and the status it ends with. *)
Definition handed_over (cmd : list string) (l : list cli_effect) (rc : Z) : Prop :=
  exists told, (l = CSent suspend_msg :: map CGot told /\ rc = 1) \/
  (answered SM_MSG_SUSPENDED None told /\
   exists told', l = CSent suspend_msg :: map CGot told ++ command_run cmd ++ CSent resume_msg :: map CGot told' /\
   let code := child_code (ce_child cmd) in
   (rc = code /\ answered SM_MSG_RESUMED None told') \/ rc = (if code =? 0 then 1 else code)).

Lemma with_port_tells argv cmd args :
  args_of argv = cmd :: args -> tells (cmd_with_port argv) (handed_over (cmd :: args)).
Proof.
  intros Ea. unfold cmd_with_port. rewrite Ea. apply does_after; [talk|]. intros timeout.
  apply does_deed; [done|]. eapply does_bind; [apply wait_tells|].
  intros l e (told & -> & Hsus). destruct (Z.eqb_spec (we_rc e) 0) as [E0|]; cbn [negb].
  2:{ apply does_after; [talk|]. intros _. apply does_ret. exists told. left. by rewrite app_nil_r. }
  apply does_after; [talk|]. intros json. apply does_after; [talk|]. intros _.
  apply (does_bind _ _ (fun l _ => l = command_run (cmd :: args))).
  { unfold command_run. destruct (ce_child (cmd :: args)); [by apply does_talk; [talk|]|by apply does_emit..]. }
  intros l [] ->. apply does_after; [talk|]. intros _. apply (does_bind _ _ (fun l _ => l = [CSent resume_msg])).
  { by apply does_emit. }
  intros l [] ->. eapply does_bind; [apply wait_tells|]. intros l e2 (told' & -> & Hres). cbv zeta.
  set (code := child_code _).
  apply (does_bind _ _ (fun l rc => l = [] /\
    ((rc = code /\ answered SM_MSG_RESUMED None told') \/ rc = (if code =? 0 then 1 else code)))).
  { destruct (Z.eqb_spec (we_rc e2) 0) as [E2|]; cbn [negb].
    - apply does_after; [talk|]. intros _. apply does_ret. split; [done|]. left. auto.
    - apply does_after; [talk|]. intros _. apply does_ret. split; [done|]. by right. }
  intros l rc [-> Hrc]. apply does_after; [talk|]. intros _. apply does_ret. exists told. right.
  split; [auto|]. exists told'. by rewrite !app_nil_r.
Qed.
End port.

(** ** Cleaning up *)

Section gc.
Context {J : JsonText} {HE : HostEnv} {CE : CliEnv} {PE : ProbeEnv} {PP : PeerEnv} {OS : OsEnv}.

(** A process a broker on one of these sockets names as an MCP client, or, when
    it tells no pids, an MCP server that holds the socket. *)
Definition mcp_client_of (socks : list string) (name : string) (pid : Z) : Prop :=
  exists sock k info, In sock socks /\ sm_broker_probe (pe_script k sock) sock = (true, info) /\
    (In (name, pid) (bi_names info) \/
     exists pids, sm_unix_mcp_peer_pids sock (bi_pid info) 32 = Some pids /\ In pid pids).

(** It has the name of an MCP client, and is asked for, dead or an orphan. *)
Definition gc_target (kill_mcp : bool) (socks : list string) (pid : Z) : Prop :=
  0 < pid /\ (kill_mcp = true \/ os_alive pid = false \/ proc_ppid pid = 1) /\
  exists name, sm_client_name_is_mcp name = true /\ mcp_client_of socks name pid.

Definition kills (P : Z -> Prop) (l : list cli_effect) : Prop := Forall (fun e => exists pid, e = CKilled pid /\ P pid) l.
Lemma kills_app P l l' : kills P l -> kills P l' -> kills P (l ++ l').
Proof. intros. by apply Forall_app. Qed.
Lemma kills_nil P : kills P [].
Proof. constructor. Qed.

(** A program that only signals such processes. *)
Definition only_kills {A} (P : Z -> Prop) (p : C A) : Prop := does p (fun l _ => kills P l).
Lemma only_kills_talk {A} P (p : C A) : talks p -> only_kills P p.
Proof. intros H. apply does_talk; [done|]. intros _. apply kills_nil. Qed.
Lemma only_kills_bind {A B} P (p : C A) (k : A -> C B) :
  only_kills P p -> (forall x, only_kills P (k x)) -> only_kills P (p ≫= k).
Proof.
  intros Hp Hk. eapply does_bind; [apply Hp|]. intros l x Hl. eapply does_mono; [apply Hk|].
  intros l' y Hl'. by apply kills_app.
Qed.

Lemma should_kill name pid kill_mcp :
  let alive := (0 <? pid) && os_alive pid in
  sm_gc_should_kill name alive (if alive then proc_ppid pid else -1) kill_mcp = true -> 0 < pid ->
  sm_client_name_is_mcp name = true /\ (kill_mcp = true \/ os_alive pid = false \/ proc_ppid pid = 1).
Proof.
  intros alive. subst alive. unfold sm_gc_should_kill. destruct (sm_client_name_is_mcp name); [|done]. cbn [negb].
  intros H Hp. split; [done|]. destruct kill_mcp; [by left|]. right.
  destruct (Z.ltb_spec 0 pid); [|lia]. cbn [andb] in H. destruct (os_alive pid); [|by left]. right. by apply Z.eqb_eq.
Qed.

Lemma gc_clients_kill dry kill_mcp sock clients (P : Z -> Prop) :
  (forall name pid, In (name, pid) clients -> dry = false -> 0 < pid -> sm_client_name_is_mcp name = true ->
     kill_mcp = true \/ os_alive pid = false \/ proc_ppid pid = 1 -> P pid) ->
  only_kills P (gc_clients dry kill_mcp sock clients).
Proof.
  induction clients as [|[name pid] clients IH]; intros HP; cbn [gc_clients]; [apply only_kills_talk; talk|]. cbv zeta.
  apply only_kills_bind; [apply only_kills_talk; talk|]. intros _. apply only_kills_bind.
  2:{ intros n. apply only_kills_bind; [|intros more; apply only_kills_talk; talk].
      apply IH. intros name' pid' Hi. apply (HP name' pid'). by right. }
  destruct (sm_gc_should_kill _ _ _ _ && negb dry && (0 <? pid)) eqn:Ek; [|apply only_kills_talk; talk].
  apply andb_true_iff in Ek as [[Ek Hd%negb_true_iff]%andb_true_iff Hp%Z.ltb_lt].
  apply only_kills_bind; [|intros failed; apply only_kills_talk; talk].
  apply does_deed; [done|]. apply does_ret. constructor; [|constructor]. exists pid. split; [done|].
  pose proof (should_kill name pid kill_mcp) as Hs.
  cbv zeta in Hs. destruct (Hs Ek Hp) as [Hn Hw].
  apply (HP name); [by left|done..].
Qed.

Lemma gc_broker_kill dry kill_mcp socks sock :
  In sock socks -> only_kills (fun pid => dry = false /\ gc_target kill_mcp socks pid) (gc_broker dry kill_mcp sock).
Proof.
  intros Hin. unfold gc_broker. eapply does_bind.
  { intros s. exists []. rewrite app_nil_r. split; [by apply talks_bind; [talk|intros; talk]|].
    instantiate (1 := fun l r => l = [] /\ exists k, r = sm_broker_probe (pe_script k sock) sock). split; [done|].
    by exists (cx_questions s). }
  intros l [ok info] [-> [k Hk]]. change (only_kills (fun pid => dry = false /\ gc_target kill_mcp socks pid)
    (if negb (ok && bi_reachable info) then mret (0, 0) else gc_known dry kill_mcp sock info)).
  destruct (ok && bi_reachable info) eqn:Eo; cbn [negb]; [|apply only_kills_talk; talk].
  apply andb_true_iff in Eo as [-> _]. unfold gc_known. cbv zeta.
  destruct (List.filter _ _) as [|c mcp] eqn:Ef; [apply only_kills_talk; talk|].
  destruct (existsb _ _).
  - apply gc_clients_kill. intros name pid Hi Hd Hp Hn Hw. split; [done|]. split_and!; [done|done|].
    exists name. split; [done|]. exists sock, k, info. split_and!; [done|by rewrite <- Hk|]. left.
    rewrite <- Ef in Hi. by apply List.filter_In in Hi as [Hi _].
  - destruct (sm_unix_mcp_peer_pids _ _ _) as [[|p pids]|] eqn:Ep; [apply only_kills_talk; talk| |apply only_kills_talk; talk].
    apply gc_clients_kill. intros name pid Hi Hd Hp Hn Hw. split; [done|]. split_and!; [done|done|].
    exists name. split; [done|]. exists sock, k, info. split_and!; [done|by rewrite <- Hk|]. right.
    exists (p :: pids). split; [done|]. apply in_map_iff in Hi as (q & [= _ <-] & Hq). done.
Qed.

Lemma gc_brokers_kill dry kill_mcp all socks :
  incl socks all -> only_kills (fun pid => dry = false /\ gc_target kill_mcp all pid) (gc_brokers dry kill_mcp socks).
Proof.
  induction socks as [|s socks IH]; intros Hi; cbn [gc_brokers]; [apply only_kills_talk; talk|].
  apply only_kills_bind; [apply gc_broker_kill, Hi; by left|]. intros r.
  apply only_kills_bind; [apply IH; intros x Hx; apply Hi; by right|]. intros more. apply only_kills_talk. talk.
Qed.

(** The sockets looked at: that of [-s], or all there are. *)
Definition gc_sockets (socket_arg : option string) : list string :=
  match socket_arg with Some s => [snprintf_s 108 s] | None => take 32 (fst (sm_discover_all_sockets 32)) end.

Lemma gc_kills socket_arg argv :
  match gc_args (args_of argv) false false with
  | None => talks (cmd_gc socket_arg argv)
  | Some (dry, kill_mcp) =>
      only_kills (fun pid => dry = false /\ gc_target kill_mcp (gc_sockets socket_arg) pid) (cmd_gc socket_arg argv)
  end.
Proof.
  unfold cmd_gc. destruct (gc_args _ _ _) as [[dry kill_mcp]|]; [|talk]. cbv zeta. fold (gc_sockets socket_arg).
  destruct (gc_sockets socket_arg) as [|s socks] eqn:E; [apply only_kills_talk; talk|]. rewrite <- E.
  apply only_kills_bind; [apply gc_brokers_kill; intros x Hx; exact Hx|]. intros [listed killed]. apply only_kills_talk. talk.
Qed.
End gc.

(** ** Properties *)

Section properties.
Context {J : JsonText} {HE : HostEnv} {CE : CliEnv} {PE : ProbeEnv} {PP : PeerEnv} {OS : OsEnv}.

(** C9: a command of the client that asks for the role of an observer steers
    nothing, whatever its arguments and whatever the broker answers: it runs,
    starts and signals no process, and every message it sends, put to any
    broker in any state, leaves the link and its device, the rules, the boot
    progress and the history as they are. *)
Theorem observer_commands_steer_nothing cmd sock argv s :
  In cmd subcmds -> sc_role cmd = Some "observer" ->
  exists l, deeds (cx_trace (srun (sc_func cmd sock argv) s)) = deeds (cx_trace s) ++ l /\
    Forall (fun e => exists m, e = CSent m /\
      forall (L : LinkOps) (E : SystemEnv) (R : RegexLib) k, keeps steering no_reach (handle_client_message k (msg_of m))) l.
Proof.
  intros Hin Hr. destruct (observers_ask cmd sock argv Hin Hr s) as (l & E & Hl). exists l. split; [done|].
  eapply Forall_impl; [apply Hl|]. intros e (m & -> & Hm). exists m. split; [done|]. intros. by apply observing_harmless.
Qed.


(** C13: cleaning up signals only leftover MCP clients.  Whatever the brokers
    answer, the only processes signalled have a pid that a broker on one of the
    sockets looked at gave for a client with the name of an MCP server (or that
    holds that socket under such a name), and are dead or orphans unless all
    were asked for; a dry run signals nothing, and nothing else is done. *)
Theorem gc_signals_leftovers socket_arg dry kill_mcp argv s :
  gc_args (args_of argv) false false = Some (dry, kill_mcp) ->
  exists l, deeds (cx_trace (srun (cmd_gc socket_arg argv) s)) = deeds (cx_trace s) ++ l /\
    kills (fun pid => dry = false /\ gc_target kill_mcp (gc_sockets socket_arg) pid) l.
Proof. intros Ha. pose proof (gc_kills socket_arg argv) as H. rewrite Ha in H. exact (H s). Qed.
End properties.
