(* ===== verification/CliDemo.v ===== *)
(** * The command-line client at work

    Runs of the program against scripted brokers, with the real JSON printer and
    parser, and the witnesses of its theorems. *)
From S2P Require Import Prelude Cstr Codecs Json CJson Protocol McpText Effects Client BrokerState.
From S2P Require Import McpResults BrokerOps BrokerHandlers BrokerLoop BrokerDemo BrokerFrame BrokerAuth McpClientProps HostPaths Profiles.
From S2P Require Import BrokerMain BrokerInfo Getopt Cli CliControl CliBoards CliMain CliProps.

#[local] Open Scope string_scope.
#[local] Open Scope list_scope.
#[local] Open Scope Z_scope.
#[local] Open Scope json_scope.

#[local] Existing Instance cjson.

(** ** A host *)

Definition demo_sock : string := "/run/user/1000/smolmux-ttyUSB0.sock".
Definition demo_manifest : json :=
  JObj [] |> add_string "board" "pi" |> add_item "wires" (JArr
    [JObj [] |> add_string "role" "console" |> add_string "link" "uart" |> add_string "device" "/dev/ttyUSB7"
       |> add_int "baud" 115200;
     JObj [] |> add_string "role" "swd" |> add_string "link" "gdb" |> add_string "target" ":3333"]).
#[local] Instance cli_host : HostEnv := {|
  he_setenv _ _ := true; he_env v := if streq v "XDG_RUNTIME_DIR" then Some "/run/user/1000" else None;
  he_euid := 1000; he_stat _ := None; he_lstat _ := false; he_open _ := None; he_readable _ := false;
  he_file p := if streq p "pi.board.json" then Some (bytes_of_string (cJSON_PrintUnformatted demo_manifest)) else None;
  he_glob p := if streq p "/run/user/1000/smolmux-*.sock" then [demo_sock] else [];
  he_realpath _ := None;
  he_connect p := if streq p demo_sock then Some (Some 1000) else None;
  he_resolve _ _ := None |}.

(** The status of a broker with an MCP client, as the probe hears it. *)
Definition demo_status : json :=
  sm_msg_status_response (Some "probe") "/dev/ttyUSB0" 115200 true false
    |> add_string "link_type" "uart" |> add_string "board" "pi"
    |> add_item "clients" (JArr [JObj [] |> add_string "name" "claude-mcp" |> add_int "pid" 4711;
                                 JObj [] |> add_string "name" "monitor" |> add_int "pid" 4712]).
#[local] Instance cli_probe : ProbeEnv := {|
  pe_script _ _ := mk_script (Some 99) [WBytes 4096] [WBytes 4096] (sm_msg_encode demo_status) [PReadable 300; PReadable 8192] |}.
#[local] Instance cli_peers : PeerEnv := {|
  pe_self := 1; pe_diag := None; pe_proc := None; pe_comm _ := None; pe_fds _ := None |}.
(** The client is an orphan. *)
#[local] Instance cli_os : OsEnv := {|
  os_kill _ := None; os_alive _ := true;
  os_proc_stat _ := Some (bytes_of_string "4711 (smolmux-mcp) S 1 4711 4711 0");
  os_fork n := Some (5000 + Z.of_nat n); os_self_exe := Some (bytes_of_string "/usr/bin/smolmux-cli");
  os_executable _ := true; os_owner _ := None; os_gone := [false; true] |}.
#[local] Instance cli_env : CliEnv := {|
  ce_pid := 77; ce_connect_error _ := "No such file or directory"; ce_atof _ := 0; ce_realtime := 0;
  ce_child _ := ChildExited 0 |}.

(** One message per turn, 10 ms apart. *)
Definition says (l : list json) : list poll_answer :=
  imap (fun i m => PollReturned true false true (RBytes (sm_msg_encode m)) (10 * Z.of_nat (S i))) l.
Definition cli_welcome : json := sm_msg_welcome SM_VERSION "/dev/ttyUSB0" 115200 "controller".
(** Status, standard output, deeds. *)
Definition printed (t : list cli_effect) : string :=
  String.concat "" (omap (fun e => match e with COut b => Some (string_of_bytes b) | _ => None end) t).
Definition complaints (t : list cli_effect) : string :=
  String.concat "" (omap (fun e => match e with CErr b => Some (string_of_bytes b) | _ => None end) t).
Definition run_cli (argv : list string) (polls : list poll_answer) : Z * string * list cli_effect :=
  let '(s, rc) := main ("smolmux-cli" :: argv) (cli_zero polls) in (rc, printed (cx_trace s), deeds (cx_trace s)).
Definition hello (cmd role : string) : cli_effect :=
  CSent (sm_msg_hello None (Some (cli_hello_name 77 cmd)) (Some role)).

(** The socket is found, the command asked, the answer printed. *)
Example demo_cli_send :
  run_cli ["send"; "uname"; "-a"] [] = (1, "", [hello "send" "controller"]) /\
  run_cli ["--json"; "send"; "-e"; "# $"; "uname"]
    (says [cli_welcome; sm_msg_output (bytes_of_string "Linux") 0;
           sm_msg_expect_result "cli-send" true (bytes_of_string "Linux") "# $"]) =
  (0, "{" +:+ dq +:+ "matched" +:+ dq +:+ ":true," +:+ dq +:+ "output" +:+ dq +:+ ":" +:+ dq +:+ "Linux" +:+ dq +:+ "}" +:+ nl,
   [hello "send" "controller";
    CSent (sm_msg_send_expect (Some "cli-send") (bytes_of_string ("uname" +:+ nl)) "# $" 5000)]).
Proof. vm_compute. done. Qed.

(** ** The port handed over *)

Definition suspended : json := sm_msg_suspended "/dev/ttyUSB0" "smolmux-cli-with-port-77".
Definition resumed : json := sm_msg_resumed "/dev/ttyUSB0".
Example demo_with_port :
  run_cli ["with-port"; "flash"; "fw.bin"] (says [cli_welcome; suspended; resumed]) =
    (0, "", [hello "with-port" "controller"; CSent suspend_msg; CRan ["flash"; "fw.bin"]; CSent resume_msg]).
Proof. vm_compute. done. Qed.

(** A confirmation that is late: the request to release the port is out, the
    command is not run, and the port is not asked back. *)
Example demo_with_port_late :
  run_cli ["with-port"; "flash"; "fw.bin"]
    (says [cli_welcome] ++ [PollReturned false false true RAgain 5000; PollReturned true false true (RBytes (sm_msg_encode suspended)) 5001]) =
    (1, "", [hello "with-port" "controller"; CSent suspend_msg]).
Proof. vm_compute. done. Qed.

(** ** Surprises *)

(** The echo of what was written, arriving at once, is taken for a failure. *)
Example demo_write_echo :
  run_cli ["write"; "reboot"]
    (says [cli_welcome] ++ [PollReturned true false true (RBytes (sm_msg_encode (sm_msg_output (bytes_of_string "reboot") 0))) 1;
       PollReturned false false true RAgain 100]) =
    (1, "", [hello "write" "controller"; CSent (sm_msg_send (Some "cli-wr") (bytes_of_string "reboot"))]).
Proof. vm_compute. done. Qed.

(** An option behind the data is data. *)
Example demo_write_json :
  run_cli ["write"; "x"; "--json"] (says [cli_welcome] ++ [PollReturned false false true RAgain 200]) =
    (0, "{" +:+ jq "status" +:+ ":" +:+ jq "ok" +:+ "}" +:+ nl,
     [hello "write" "controller"; CSent (sm_msg_send (Some "cli-wr") (bytes_of_string "x --json"))]).
Proof. vm_compute. done. Qed.

(** The broker's acknowledgement of the BREAK is not recognised, nor is its
    refusal heeded: the key is sent after the wait either way. *)
Example demo_sysrq :
  let ack := sm_msg_pin_control (Some "cli-brk") "break" "pulse" 500 in
  run_cli ["sysrq"; "h"] (says [cli_welcome; ack] ++ [PollReturned false false true RAgain 2500]) =
    run_cli ["sysrq"; "h"] (says [cli_welcome; sm_msg_error (Some "cli-brk") "not authorized"]) /\
  run_cli ["sysrq"; "h"] (says [cli_welcome; ack] ++ [PollReturned false false true RAgain 2500]) =
    (0, "OK (SysRq+h)" +:+ nl,
     [hello "sysrq" "controller"; CSent ack; CSent (sm_msg_send (Some "cli-sysrq") [104])]) /\
  complaints (cx_trace (srun (main ["smolmux-cli"; "sysrq"; "h"])
    (cli_zero (says [cli_welcome; ack] ++ [PollReturned false false true RAgain 2500])))) =
    "error: timeout waiting for response" +:+ nl.
Proof. vm_compute. done. Qed.

(** An answer and, in the same read, an error that belongs to nobody: the
    command fails although it was answered. *)
Example demo_answer_and_error :
  let answer := sm_msg_resumed "/dev/ttyUSB0" in
  let stray := sm_msg_error (Some "") "client gone" in
  fst (fst (run_cli ["resume"] (says [cli_welcome; answer; stray]))) = 0 /\
  fst (fst (run_cli ["resume"] (says [cli_welcome] ++
    [PollReturned true false true (RBytes (sm_msg_encode answer ++ sm_msg_encode stray)) 20]))) = 1.
Proof. vm_compute. done. Qed.

(** ** Boards *)

(** One wire is started with this command line; the probes never reach it. *)
Example demo_board_up :
  let log role := "/run/user/1000/smolmux-pi-" +:+ role +:+ ".log" in
  let sock role := "/run/user/1000/smolmux-pi-" +:+ role +:+ ".sock" in
  run_cli ["--json"; "board"; "up"; "pi.board.json"] [] =
    (0, cJSON_PrintUnformatted (JObj [] |> add_string "board" "pi" |> add_bool "foreground" false
          |> add_item "wires" (JArr (map (fun role =>
               board_up_add_wire_json role "failed" (Some (sock role)) (Some (log role)) None) ["console"; "swd"]))) +:+ nl,
     [CSpawned ["/usr/bin/smolmux"; "/dev/ttyUSB7"; "-b"; "115200"; "--board"; "pi"; "--role"; "console"; "-s"; sock "console"]
        false (log "console");
      CSpawned ["/usr/bin/smolmux"; "--gdb"; "--gdb-path"; "gdb"; "--gdb-target"; ":3333"; "--board"; "pi"; "--role"; "swd";
                "-s"; sock "swd"] false (log "swd")]).
Proof. vm_compute. done. Qed.

Definition demo_wire : sm_board_wire :=
  mk_wire "console" "uart" "/dev/ttyUSB7" "" "pci-0:1" "seat" 115200 "gdb" "" "pi --x" "".
Lemma wire_argv_roundtrip_witness :
  let '(opts, operands) := broker_command_line (build_wire_argv "smolmux" (mk_manifest "pi" [demo_wire]) demo_wire demo_sock) in
  main_options opts main_defaults = Go (wire_args (mk_manifest "pi" [demo_wire]) demo_wire demo_sock main_defaults) /\
  operands = ["/dev/ttyUSB7"] /\
  (length (build_wire_argv "smolmux" (mk_manifest "pi" [demo_wire]) demo_wire demo_sock) < 24)%nat.
Proof.
  apply (wire_argv_roundtrip "smolmux" (mk_manifest "pi" [demo_wire]) demo_wire demo_sock); [reflexivity| |vm_compute; lia].
  intros _. cbn. lia.
Defined.

(** ** Cleaning up *)

Example demo_gc :
  run_cli ["gc"] [] =
    (0, demo_sock +:+ "  claude-mcp  pid=4711  ppid=1  KILL" +:+ nl +:+ "Signaled 1 process." +:+ nl, [CKilled 4711]) /\
  run_cli ["gc"; "--dry-run"] [] =
    (0, demo_sock +:+ "  claude-mcp  pid=4711  ppid=1  KILL (dry-run)" +:+ nl, []).
Proof. vm_compute. done. Qed.

Lemma gc_signals_leftovers_witness :
  exists l, deeds (cx_trace (srun (cmd_gc None ["gc"]) (cli_zero []))) = [] ++ l /\
    kills (fun pid => false = false /\ gc_target false (gc_sockets None) pid) l.
Proof. apply (gc_signals_leftovers None false false ["gc"] (cli_zero [])). reflexivity. Defined.

Example demo_shutdown :
  run_cli ["shutdown"] [] = (0, "Stopped broker pid 99 (" +:+ demo_sock +:+ " removed)." +:+ nl, [CKilled 99]).
Proof. vm_compute. done. Qed.

(** ** Observers *)

Lemma observer_commands_steer_nothing_witness :
  exists l, deeds (cx_trace (srun (cmd_history ["history"; "--since-seq"; "7"]) (cli_zero []))) = [] ++ l /\
    Forall (fun e => exists m, e = CSent m /\
      forall (L : LinkOps) (E : SystemEnv) (R : Regex.RegexLib) k, keeps steering no_reach (handle_client_message k (msg_of m))) l.
Proof.
  apply (observer_commands_steer_nothing (mk_subcmd "history" (fun _ => cmd_history) observer) None
    ["history"; "--since-seq"; "7"] (cli_zero [])); [|reflexivity].
  do 6 right. left. reflexivity.
Defined.

(** ** The probe *)

Lemma probe_reports_broker_witness :
  let info := parse_status (info_zero demo_sock) (status_members demo_broker (Some "probe") true [("link_type", JStr "uart")] 0 0) in
  bi_endpoint info = "/dev/ttyUSB0" /\ bi_client_count info = 2 /\
  map fst (bi_names info) = ["watch"; "agent"].
Proof.
  destruct (probe_reports_broker (info_zero demo_sock) demo_broker (Some "probe") true [("link_type", JStr "uart")] 0 0)
    as (_ & _ & _ & H1 & _ & _ & _ & _ & _ & _ & H2 & _ & H3); [reflexivity|vm_compute; split; discriminate|].
  exact (conj H1 (conj H2 H3)).
Defined.
