(* ===== verification/BrokerFindings.v ===== *)
(** * Where the broker does something else than it means to *)
From S2P Require Import Prelude Arrays Codecs RingBuffer Json CJson Protocol Regex Expect BootStage.
From S2P Require Import Autoresponder Anomaly Effects Client BrokerState BrokerOps BrokerLink BrokerHandlers BrokerLoop BrokerDemo.
From S2P Require Import BrokerFrame.

#[local] Open Scope string_scope.
#[local] Open Scope list_scope.
#[local] Open Scope Z_scope.

(** ** Cancelling by request id *)

Section cancel.
Context {L : LinkOps} {E : SystemEnv} {J : JsonText} {R : RegexLib}.

Definition expects (b : sm_broker) (l : link_state) : list sm_expect_request :=
  eng_requests (b_expect b).
#[local] Instance expects_view : ClientView expects.
Proof. by intros b l cs. Qed.

(** A send_expect whose payload does not decode takes back its expect by
    request id alone.  Every pending expect with that id goes, whichever client
    registered it; and since stored ids are cut at 63 bytes, an id of 64 or
    more takes back nothing: the expect it just registered stays. *)
Theorem send_expect_cancels_by_id k c id b64 w :
  too_large b64 = false -> sm_base64_decode (bytes_of_string b64) = None ->
  let before := eng_requests (b_expect (w_b w)) in
  let after := eng_requests (b_expect (w_b (run (expect_send k c id b64) w))) in
  after ≡ₚ List.filter (fun r => negb (streq (rq_id r) id)) before /\
  ((64 <= String.length id)%nat ->
   Forall (fun r => (String.length (rq_id r) < 64)%nat) before -> after ≡ₚ before).
Proof.
  intros Hl Hd before after.
  assert (after = remove_if (fun r => streq (rq_id r) id) before) as Hx.
  { unfold after, expect_send. rewrite Hl, Hd. unfold cancel_and_error, mod_expect. rewrite run_modify.
    assert (keeps expects any_event (send_error k (Some id) "invalid base64 data")) as Hm by keeps_tac.
    match goal with |- context [run _ ?w1] => destruct (Hm w1) as [Hx _]; exact Hx end. }
  rewrite Hx.
  assert (remove_if (fun r => streq (rq_id r) id) before
          ≡ₚ List.filter (fun r => negb (streq (rq_id r) id)) before) as Hp by apply remove_if_spec.
  split; [exact Hp|]. intros Hlong Hshort. rewrite Hp, filter_all; [done|].
  apply (Forall_impl _ _ _ Hshort). intros r Hr. simpl.
  destruct (streq (rq_id r) id) eqn:Es; [|done]. apply streq_spec in Es. rewrite Es in Hr. lia.
Qed.
End cancel.

(** ** The reset line at shutdown *)

Section shutdown.
Context {L : LinkOps} {E : SystemEnv} {J : JsonText} {R : RegexLib}.

Definition no_param (e : event) : Prop := match e with EvParam _ _ => False | _ => True end.
#[local] Instance Talk_no_param : Talk no_param.
Proof. by intros []. Qed.

Lemma break_cancel_idle w : bk_state (b_brk (w_b w)) = SM_BRK_IDLE -> run break_cancel w = w.
Proof. intros Hi. unfold break_cancel. rewrite run_gets, Hi. done. Qed.
Lemma flood_cancel_inactive w : fl_active (b_flood (w_b w)) = false -> run flood_cancel w = w.
Proof. intros Hi. unfold flood_cancel. rewrite run_gets, Hi. done. Qed.

Definition holding (b : sm_broker) (l : link_state) : bool := fl_reset_pending (b_flood b).
#[local] Instance holding_view : ClientView holding.
Proof. by intros b l cs. Qed.

Lemma destroy_clients_holding : keeps holding no_param destroy_clients.
Proof.
  apply keeps_update. intros w. split; [done|]. eexists. split; [done|].
  by apply Forall_rev, Forall_map, Forall_true.
Qed.
#[local] Hint Resolve destroy_clients_holding : broker.

(** Stopping the broker does not release a reset line that a flood is
    holding: [sm_broker_run] clears the flood's active flag on its way out, so
    the cancellation in [sm_broker_destroy] finds nothing to do, and the link
    is closed with the line still asserted. *)
Theorem shutdown_keeps_reset_asserted w :
  bk_state (b_brk (w_b w)) = SM_BRK_IDLE -> fl_reset_pending (b_flood (w_b w)) = true ->
  let w' := run (run_cleanup ;; sm_broker_destroy) w in
  grows no_param w w' /\ fl_reset_pending (b_flood (w_b w')) = true.
Proof.
  intros Hi Hp. rewrite run_bind.
  set (w1 := run run_cleanup w).
  assert (bk_state (b_brk (w_b w1)) = SM_BRK_IDLE /\ fl_active (b_flood (w_b w1)) = false /\
          fl_reset_pending (b_flood (w_b w1)) = true /\ w_trace w1 = w_trace w) as (I1 & I2 & I3 & I4).
  { unfold w1, run_cleanup. rewrite run_bind, break_cancel_idle by done. by split_and!. }
  assert (kept holding no_param w1 (run sm_broker_destroy w1)) as [Hh Hg].
  { unfold sm_broker_destroy. rewrite run_bind, break_cancel_idle by done.
    rewrite run_bind, flood_cancel_inactive by done.
    match goal with |- kept _ _ _ (run ?m _) => assert (keeps holding no_param m) as Hm end.
    { keeps_tac. }
    apply Hm. }
  split; [|by rewrite <- I3]. unfold grows in *. by rewrite <- I4.
Qed.
End shutdown.

(** ** A resume that was overtaken *)

Section resume.
Context {L : LinkOps} {E : SystemEnv} {J : JsonText} {R : RegexLib}.

Definition owes_ack (b : sm_broker) (l : link_state) : bool := lf_pending_ack (b_link b).
#[local] Instance owes_ack_view : ClientView owes_ack.
Proof. by intros b l cs. Qed.
Definition is_suspended (b : sm_broker) (l : link_state) : bool := lf_suspended (b_link b).
#[local] Instance is_suspended_view : ClientView is_suspended.
Proof. by intros b l cs. Qed.

(** Suspending while an asynchronous resume is connecting aborts the
    connect but leaves its acknowledgement pending, and the next connect that
    fails, an automatic reconnect included, then suspends the broker and
    answers a request that is long over. *)
Theorem stale_resume_ack name w :
  lf_suspended (b_link (w_b w)) = false -> lf_pending_ack (b_link (w_b w)) = true ->
  lf_pending_ack (b_link (w_b (run (sm_broker_do_suspend name) w))) = true /\
  forall w', lf_pending_ack (b_link (w_b w')) = true ->
    lf_suspended (b_link (w_b (run link_connect_give_up w'))) = true.
Proof.
  intros Hs Ha. split.
  - assert (keeps owes_ack any_event (sm_broker_do_suspend name)) as Hk by keeps_tac.
    destruct (Hk w) as [Hw _]. unfold owes_ack in Hw. congruence.
  - clear w Hs Ha. intros w Ha. unfold link_connect_give_up, mod_link. rewrite run_modify, run_bind.
    match goal with |- context [run link_closed ?w1] =>
      assert (keeps owes_ack any_event link_closed) as Hc by keeps_tac; destruct (Hc w1) as [Hx _];
      set (w2 := run link_closed w1) in * end.
    rewrite run_modify, run_gets. cbn [b_link w_b lf_pending_ack].
    assert (lf_pending_ack (b_link (w_b w2)) = true) as -> by (etrans; [exact Hx|exact Ha]).
    cbn [when]. rewrite run_bind.
    assert (keeps is_suspended any_event link_schedule_retry) as Hr by keeps_tac.
    match goal with |- lf_suspended (b_link (w_b (run _ ?w3))) = true => destruct (Hr w3) as [Hy _] end.
    unfold is_suspended in Hy. rewrite Hy. by rewrite run_bind.
Qed.
End resume.

(** ** Runs *)

(** Two controllers wait under the same request id; one of them sends a
    payload that does not decode. *)
Definition demo_expecting : @world (demo_link false) :=
  run (expect_add "7" "login:" one_s "client-0" ;; expect_add "7" "#" one_s "client-1" ;; mret tt)
    (demo_world false).

Lemma send_expect_cancels_by_id_witness :
  length (eng_requests (b_expect (w_b demo_expecting))) = 2%nat /\
  eng_requests (b_expect (w_b (run (expect_send 1 (demo_client 1 "agent" "controller") "7" "!")
                                 demo_expecting))) = [].
Proof.
  split; [by vm_compute|]. apply Permutation_nil. symmetry.
  rewrite (proj1 (send_expect_cancels_by_id 1 (demo_client 1 "agent" "controller") "7" "!" demo_expecting
                    eq_refl eq_refl)).
  by vm_compute.
Defined.

(** A flood with a reset pulse is running when the broker stops. *)
Definition demo_flooding : @world (demo_link false) :=
  demo_turn false
    [add_string "reset_pin" "dtr" (sm_msg_interrupt_autoboot (Some "f") [32] 10 2000 None)] [].

Lemma shutdown_keeps_reset_asserted_witness :
  In (EvParam "dtr" "clear") (w_trace demo_flooding) /\
  grows no_param demo_flooding (run (run_cleanup ;; sm_broker_destroy) demo_flooding).
Proof.
  split; [apply List.nth_error_In with (n := 1%nat); by vm_compute|].
  apply (shutdown_keeps_reset_asserted demo_flooding); by vm_compute.
Defined.

(** A link whose first connect hangs, whose second succeeds at once, and whose
    third hangs. *)
Definition flaky_link : LinkOps := {|
  link_state := nat;
  link_open n := (0, n); link_close n := n; link_read_fd _ := 3;
  link_write_data _ n := (0, n); link_flush_write_queue := None;
  link_send_break _ n := (0, n); link_set_param _ _ n := (0, n); link_get_status _ := [];
  link_connect_begin := Some (fun n => (if (n =? 1)%nat then 0 else 1, S n));
  link_connect_poll := Some (fun n => (-1, n));
  link_filter_rx := None; link_silence_normal := false |}.

(** Suspend, resume, suspend again before the connect completes, resume; then
    the device is unplugged and the reconnect fails. *)
Definition flaky_turns (n : nat) : @world flaky_link :=
  let hup := LeLink (mk_ev false false true) [] in
  let msgs := [sm_msg_suspend None; sm_msg_resume (Some "r"); sm_msg_suspend None; sm_msg_resume None] in
  let w0 := @init_world flaky_link (sm_broker_init true "host:23" 0) 0%nat in
  let w1 := run (loop_turn [LeListen (Some 1); LeClient 0 (mk_ev true false false)
              [RBytes (hello_line "agent" "controller" ++ mjoin (map sm_msg_encode msgs))]; hup]
              (fun _ => false)) w0 in
  match n with
  | O => w0 | 1%nat => w1
  | _ => run (loop_turn [hup] (fun _ => false)) w1
  end.

(** The broker ends up suspended although nobody asked. *)
Example flaky_run_suspends :
  let f n := let l := b_link (w_b (flaky_turns n)) in (lf_suspended l, lf_disconnected l, lf_pending_ack l) in
  f 1%nat = (false, true, true) /\ f 2%nat = (true, true, false).
Proof. vm_compute. done. Qed.

(** The world after the second suspend of that run. *)
Definition flaky_resuming : @world flaky_link :=
  run (loop_turn [LeListen (Some 1); LeClient 0 (mk_ev true false false)
         [RBytes (hello_line "agent" "controller" ++ sm_msg_encode (sm_msg_suspend None) ++
                  sm_msg_encode (sm_msg_resume (Some "r")))]] (fun _ => false)) (flaky_turns 0).

Lemma stale_resume_ack_witness :
  lf_pending_ack (b_link (w_b (run (sm_broker_do_suspend "agent") flaky_resuming))) = true.
Proof.
  assert (lf_suspended (b_link (w_b flaky_resuming)) = false) as H1 by (by vm_compute).
  assert (lf_pending_ack (b_link (w_b flaky_resuming)) = true) as H2 by (by vm_compute).
  exact (proj1 (stale_resume_ack "agent" flaky_resuming H1 H2)).
Defined.
